(* ===== verification/_CoqProject ===== *)
-Q . S2P
Prelude.v
MachineWord.v
Verinum.v
VerinumValue.v
VerinumArith.v
VerinumDiv.v
VvpBit.v
VvpVector4.v
VvpSlice.v
WordArith.v
VvpArith.v
VvpVector2.v
VvpCompare.v
Folding.v
RuntimeProps.v
Vector2Props.v
EventQueue.v
Schedule.v
ScheduleRefine.v
ScheduleSpec.v
ScheduleRun.v
ScheduleProps.v
VvpFunctor.v
BitList.v
WordDiv.v
VThread.v
VThreadSpec.v
VThreadParts.v
VThreadIndex.v
VThreadDiv.v
VThreadMod.v
VvpStrength.v
StrengthSpec.v
Resolver.v
ResolverSpec.v
ResolverProps.v
Gates.v
GateSpec.v
Switches.v
SwitchProps.v
Selects.v
SelectProps.v
Storage.v
Udp.v
UdpSpec.v
UdpSeq.v
Signal.v
SignalSpec.v
SignalProps.v
VariableProps.v
Delay.v
DelayProps.v
Event.v
EventProps.v
NetLink.v
ThreadTree.v
ThreadTreeProps.v
ThreadTreeSteps.v
Nexus.v
NexusProps.v
ThreadProps.v
CodeGen.v
ExprSpec.v
ExprFacts.v
FunctorSpec.v
FunctorArith.v
FunctorProps.v
CodeGenRun.v
CodeGenOps.v
CodeGenAlloc.v
CodeGenDraw.v
CodeGenCondition.v
CodeGenFlow.v
CodeGenSelect.v
CodeGenProof.v
CodeGenTotal.v
CompilerProps.v
EvalTree.v
EvalTreeSpec.v
EvalTreeProps.v
