(* ===== verification/Prelude.v ===== *)
(** * A verification of the kernels of Icarus Verilog

    The repository compiles Verilog into a netlist (the compiler, [src/*.cc]), a code
    generator turns the netlist into a program for a virtual machine ([src/tgt-vvp/]), and
    the runtime ([src/vvp/]) loads and runs it.  The parts that carry the meaning of every
    design are modelled here function by function: the numbers the compiler folds constants
    with, the vectors the runtime computes with, the functors between nets (arithmetic, gates,
    switches, resolvers, storage, delays, events), the variables and their forces, the code
    generated for expressions, the interpreter that runs it, the threads, and the scheduler
    that decides what runs when.

    ** The parts

    - The numbers of the elaborator, class [verinum] ([src/verinum.h], [src/verinum.cc]):
      a list of four-valued bits with flags for a definite length and a sign.
      [Verinum] has the data, constructors, accessors, native conversions, width casts,
      trimming and strings; [VerinumValue] the integer a number stands for; [VerinumArith]
      addition, subtraction, negation, multiplication, shifts and comparisons;
      [VerinumDiv] division, remainder and power.
    - The vectors of the runtime ([src/vvp/vvp_net.h], [src/vvp/vvp_net.cc]):
      [VvpBit] is the bit [vvp_bit4_t]; [VvpVector4] the packed vector [vvp_vector4_t] with
      bit access, copies, tests and bitwise operators; [VvpSlice] its operations on ranges
      of bits (part select, [resize], [subarray], [setarray], [set_vec], [mov]); [VvpArith]
      [add], [sub], [mul], [+= int64_t], the conversions to native integers and text;
      [VvpCompare] [compare_gtge] and [compare_gtge_signed]; [VvpVector2] the two-valued
      [vvp_vector2_t] that the wide arithmetic goes through.
    - Machine words: [MachineWord] is the [unsigned long] of 64 bits with the carry and
      multiplication helpers, [WordArith] the carry chains and word products over arrays.
    - The event scheduler ([src/vvp/schedule.cc]): [EventQueue] the rings of [event_s]
      cells and the interface [QueueOps]/[QueueLaws] the scheduler uses them through;
      [Schedule] the events, the list of time steps, the scheduling functions and
      [schedule_simulate]; [ScheduleRefine] the specification over plain lists and the
      simulation between the two; [ScheduleSpec] the list of relative delays as a map from
      time and queue to events, and the invariant; [ScheduleRun] the main loop.

    - The arithmetic functors of continuous assignments ([src/vvp/arith.cc]): [VvpFunctor].
      [BitList] has the operators of Verilog on lists of four-valued bits, which functors
      and instructions are both stated against; [FunctorSpec] and [FunctorArith]
      the outputs of the functors.
    - Signals with strengths: [VvpStrength] is [vvp_scalar_t] and [vvp_vector8_t]
      ([vvp_net.h], [vvp_net.cc]); [Resolver] the trees of [resolv.cc] that resolve the
      drivers of a net; [StrengthSpec] and [ResolverSpec] the intervals of strengths and the
      resolution of lists of drivers they are stated against.
    - The other functors: [Gates] ([logic.cc], the constant part select of [part.cc]) with
      [GateSpec]; [Switches] ([bufif.cc], [npmos.cc]); [Selects] ([reduce.cc], [concat.cc],
      [extend.cc], [substitute.cc], the other selects of [part.cc], the transparent buffers of
      [logic.cc]); [Storage] ([dff.cc], [latch.cc]); [Udp] ([udp.cc]) with [UdpSpec], the
      tables read row by row, and [UdpSeq]; [Delay] ([delay.cc]), the delay lines of nets and
      the module paths; [Event] ([event.cc]), what threads wait for, behind the interface
      [Waitable].
    - Nets and variables: [NetLink] the fan-out lists threaded through the ports of nets
      ([vvp_net.cc], [vvp_net.h]); [Signal] the variables and wires with their continuous
      assignments, forces and releases ([vvp_net_sig.cc], [vthread.cc]), [SignalSpec] what
      each bit of them shows.
    - The threads ([vthread.cc]): [ThreadTree] their life, from [%fork] to their deletion;
      [ThreadTreeProps] the invariant of the tree, [ThreadTreeSteps] its preservation and the
      steps of the scheduler around the instructions.
    - The thread interpreter ([src/vvp/vthread.cc]): [VThread] the thread with its stack,
      flags, index registers and program counter, and the opcodes on vectors; [WordDiv] the
      division of arrays of words behind [%div].  [VThreadSpec] (stack operators and
      comparisons), [VThreadParts] (immediates, concatenation, padding, part selects),
      [VThreadIndex] (index registers, shifts, array words), [VThreadDiv] and [VThreadMod]
      state the opcodes on bit lists.
    - The code generator for expressions ([src/tgt-vvp/eval_vec4.c], [eval_condit.c],
      [eval_expr.c], the allocators of [vvp.c]) and the resolution of its labels
      ([src/vvp/compile.cc]): [CodeGen].  [ExprSpec] is the value of an expression tree and
      which trees are well formed, [ExprFacts] facts on operators.  [CodeGenRun] says what it
      means that emitted lines run to a result anywhere in a program; [CodeGenOps] the
      sequences that draw functions share; [CodeGenAlloc] the allocation of flags, registers
      and labels; [CodeGenDraw], [CodeGenCondition], [CodeGenFlow] and [CodeGenSelect]
      the draw functions; [CodeGenProof] the induction over expressions;
      [CodeGenTotal] that generation does not fail.

    - The links of the netlist ([src/net_link.cc], [src/netlist.h]): [Nexus] the pins, the
      circular lists of connected pins and the sets of parts of nets; [NexusProps] the
      partition that the lists stand for.
    - Constant folding ([src/eval_tree.cc], the types and widths of [net_expr.cc] and
      [netlist.cc], [eval_expr] and [const_logical] of [netmisc.cc]): [EvalTree] the
      expression nodes and [eval_tree] of each; [EvalTreeSpec] the value of an expression on
      bit lists, by the operators the instructions are proved against, and which expressions
      elaboration leaves; [EvalTreeProps] the proofs.

    The compiler folds an expression of constants with [verinum] where the runtime would
    evaluate it with [vvp_vector4_t]; [Folding] relates the two.  The wide operators of the
    runtime convert between [vvp_vector4_t] and [vvp_vector2_t] with [subarray] and
    [setarray].  The scheduler's force events build their mask and value with both vectors.
    The emitted lines, with their labels resolved, are the program of the interpreter; the
    instructions and the functors are calls of the vectors' methods.

    ** How states and operations correspond

    An object with its methods is a record and functions on it, named as in the code.  A
    [vvp_vector4_t] is its size and two planes of words, one word for a short vector and an
    array for a long one; the words keep their 64 bits, wrap-around and shifts written out
    on [Z].  [None] is a failed [assert] or, in [div_mod], the [exit] on a zero divisor.  A
    method that changes its object returns the new one; out-parameters are results, except a
    buffer of the caller, which is a list of bytes that the method writes in place: a write
    outside it is [None] too.  The memory of a [new] array that the code does not initialise is an argument.  Sizes and
    indices are [nat]: vectors of 2^30 bits or more, where sums of 32-bit indices wrap, are
    outside the model.  A shift by 64 or
    more, undefined in C++, is the x86 one, by the count modulo 64.

    The scheduler's state is a record of its static variables.  Its main loop is a machine
    whose control points are the loop heads, one event at most per step.  The rest of the
    runtime is an arbitrary environment that answers every call of the scheduler with the
    scheduling requests it makes; what is asked of it ([env_ok]) is that the events it
    schedules fit what they write ([event_fits]) and that its calls do not fail.  A delay is a [Z] below 2^64 and the clock wraps.

    An instruction is a function from thread to thread; [None] is an assertion or a stack
    that is too short.  A program is a list of instructions and a run is a sequence of
    steps at the program counter.  The code generator passes its static variables (free
    flags, free registers, the next label) and the emitted lines as a state; a line is a
    label or an instruction with symbolic targets.  Signals and arrays are read from a
    [design], a function from the name of a net to its value.  A functor is the record of
    its member variables, and a value arriving at a port gives the new record, what it sends
    and what it schedules.  Pointers between objects are keys of a store: the nets of
    [NetLink] are a list indexed by identity, the threads of [ThreadTree] a [gmap].  A
    [std::set] of pointers is iterated in the order of the addresses, which is a parameter.

    ** What the theorems show

    - [RuntimeProps]: every operation of [vvp_vector4_t] on every alignment and on unknown
      bits: arithmetic modulo 2^size or all X, slices bit by bit, set_vec's change flag, the
      bitwise operators against the four-valued tables, equality, conversions, text.
    - [Vector2Props]: the two-valued arithmetic as arithmetic of integers, with the exact
      domain on which division is right.
    - [Folding]: folding and simulation agree bit for bit; the elaborator's arithmetic
      against integers for sized and unsized, signed and unsigned operands.
    - [ScheduleProps]: the rings are queues; scheduling an event is an update of the map of
      times and queues; the run over rings is the run over lists; events run exactly when
      they were asked for, in the order of the regions; the clock; termination.

    - [ThreadProps]: each family of instructions computes its operator on the whole thread;
      where an instruction is wrong, the domain on which it is right and an instance outside.
    - [FunctorProps]: the trace of a functor along any sequence of arrivals, and its agreement
      with the instruction of the same operator.
    - [ResolverProps]: a tree of resolvers gives the resolution of all its drivers, along any
      sequence of arrivals; the resolution is sound for the strengths it stands for.
    - [GateSpec], [SwitchProps], [SelectProps], [Storage], [UdpSeq]: the functors
      against their tables, along sequences of arrivals; each answer of a flip-flop is a
      function of the arrivals before it, not of the state of the flip-flop; a primitive follows the rows of its
      table; where a functor differs from the standard, an instance.
    - [SignalProps], [VariableProps]: along any sequence of assignments, forces and releases
      a wire and a variable show, bit by bit, the value that has precedence.
    - [DelayProps]: a delay line sends the values it is asked to send at the times they are
      due; the run of a module path is scheduled after the least delay of the latest paths.
    - [EventProps]: which arrivals are occurrences of an event is a function of the values that
      arrived before (an edge of the kind asked for, a change, any arrival); each occurrence
      wakes the threads that waited since the one before, once, and runs the controls whose
      count is reached.
    - [NetLink]: linking and unlinking are the insertion and deletion of a port in the fan-out
      of one net and leave every other fan-out alone; no port is on two lists.
    - [ThreadTreeSteps]: an instruction that keeps to the discipline of joins passes its
      assertions and leaves the thread tree well formed; every thread that waits in a join waits for one that
      goes on, as long as no [%disable] ends a thread that another waits for.
    - [NexusProps]: connecting and disconnecting pins is joining and leaving the classes of a
      partition, the lists are traversed exactly; the sets of parts are sets.
    - [EvalTreeProps]: folding keeps the value, width and sign of every well-formed expression
      under all values of the signals that leave it well formed, and makes one constant of an expression of constants; the
      operands on which the two evaluations differ, by instances.
    - [CompilerProps]: the code of an expression, a condition or an index computes the value
      of the expression and changes nothing else, wherever it stands in a program; generation
      gives back the flags and registers it took and fails only when they run out; an
      expression within the limits compiles, loads and runs to its value.

    ** Bounds

    There are 504 flags to allocate and 12 index registers, as in the code; what an
    expression needs of them is computed by [flag_need] and [word_need].  [%div] is right up
    to 127 bits and [%div/s] up to 128; [%part] for bases that fit 32 bits; a signed
    exponent for signed bases of at most 32 bits; an index register for signed values of at
    most 64 bits.  Shift counts are unsigned in the expressions of [CompilerProps].  These are
    bounds of the code: the conditions of the theorems ([wf_expr], [wf], [env_ok], [var_valid])
    are where the code is right, and each theorem names them.

    ** Fuel

    Loops over words and bits run on a count taken from the size; [div_mod] has [n + 1]
    steps for its scaling loops and [pow] the width of the exponent, and their theorems show
    that the loops end before.  [run] takes the number of steps of the main loop, which has
    no bound in general; [scheduler_terminates] gives one for an environment that makes a
    bounded number of requests, however it spreads them over the events.
    The inner loops of [divide_bits] have no count in the code: [iterate] repeats a step a
    given number of times and [word_division] shows that the loops end within it.  The code
    generator recurs on the expression and needs no fuel.

    ** Not modelled

    Floating point ([verinum(double)], [as_double], real-valued vectors, functors and
    instructions), printing, the slab allocator and signal handlers of the scheduler.  Of the
    interpreter: strings, objects, queues, VPI calls and the calls of functions.  Of the code
    generator: string, real, class and queue operands, increments and function calls,
    statements and scopes.  Of the functors: those of automatic scopes (except edge events),
    islands of bidirectional switches, delays of values with strengths.  Of constant folding:
    expressions of reals and strings, system functions, constant functions of the user.  Of the nets: signals
    with strengths, of strings and objects.  Arrays, the dynamic types and the VPI objects of
    the runtime are containers and bindings around the vectors modelled here, its loader is
    driven by a generated parser.  Elaboration, synthesis, the target interface and the other
    code generators work on the nodes of the netlist, several hundred classes of which only the
    links and the expressions on vectors are modelled; the parsers are generated; the vendored libraries are not of this program. *)
From Stdlib Require Export ZArith Lia Bool.
From stdpp Require Export base tactics option list numbers.

(** ** Tactics of the development *)

(** Splits conjunctions and existentials in the context and substitutes. *)
Ltac unpack :=
  repeat match goal with
  | H : _ /\ _ |- _ => destruct H
  | H : exists _, _ |- _ => destruct H
  end; simplify_eq/=.

(** Case analysis on a boolean comparison of the goal, keeping its meaning. *)
Ltac case_cmp :=
  match goal with
  | |- context [Nat.ltb ?a ?b] => destruct (Nat.ltb_spec a b)
  | |- context [Nat.leb ?a ?b] => destruct (Nat.leb_spec a b)
  | |- context [Nat.eqb ?a ?b] => destruct (Nat.eqb_spec a b)
  | |- context [Z.ltb ?a ?b] => destruct (Z.ltb_spec a b)
  | |- context [Z.leb ?a ?b] => destruct (Z.leb_spec a b)
  | |- context [Z.eqb ?a ?b] => destruct (Z.eqb_spec a b)
  end.

#[global] Open Scope Z_scope.
