(* ===== verification/MachineWord.v ===== *)
(** Machine words: the C++ [unsigned long] (64 bits on the targets the code is
    built for) as a [Z] in [0, 2^64), with the operators the value classes use on
    it, the carry and multiply helpers of [vvp/vvp_net.h] and [vvp/vvp_net.cc],
    and the reading of an array of words as one little-endian number. *)
From S2P Require Import Prelude.

(** ** The word operators *)

(** [BITS_PER_WORD] / [CPU_WORD_BITS]: [8*sizeof(unsigned long)]. *)
Definition W : nat := 64.
#[global] Arguments W : simpl never.
#[global] Arguments Nat.div : simpl never.
#[global] Arguments Nat.modulo : simpl never.
Abbreviation Wz := 64.
Definition wordsize : Z := 2 ^ 64.

Definition is_word (x : Z) : Prop := 0 <= x < wordsize.

Definition wrap (x : Z) : Z := x mod wordsize.
Definition wadd (x y : Z) : Z := wrap (x + y).
Definition wsub (x y : Z) : Z := wrap (x - y).
Definition wmul (x y : Z) : Z := wrap (x * y).
Definition wnot (x : Z) : Z := wordsize - 1 - x.
(** [-1UL]. *)
Definition wones : Z := wordsize - 1.

(** C++ leaves a shift by 64 or more undefined; the shift instructions of the
    x86-64 and AArch64 machines use the low six bits of the count, which is the
    behaviour modelled. *)
Definition wshl (x : Z) (n : nat) : Z := wrap (Z.shiftl x (Z.of_nat (n mod W))).
Definition wshr (x : Z) (n : nat) : Z := Z.shiftr x (Z.of_nat (n mod W)).

(** [(1UL << n) - 1UL]. *)
Definition wmask (n : nat) : Z := wsub (wshl 1 n) 1.

(** Bit [i] of a word. *)
Definition tb (x : Z) (i : nat) : bool := Z.testbit x (Z.of_nat i).

Definition b2z (b : bool) : Z := if b then 1 else 0.

(** ** Carry chains *)

(** [add_with_carry(unsigned long, unsigned long, unsigned long&)]: the sum and
    the new carry. *)
Definition add_with_carry (a b carry : Z) : Z * Z :=
  let tmp := wadd b carry in
  let sum := wadd a tmp in
  let c := 0 in
  let c := if tmp <? b then 1 else c in
  let c := if sum <? tmp then 1 else c in
  let c := if sum <? a then 1 else c in
  (sum, c).

(** [add_carry(unsigned long, unsigned long, unsigned long&)]. *)
Definition add_carry (a b carry : Z) : Z * Z :=
  let out := carry in
  let c := 0 in
  let c := if wsub wones out <? a then wadd c 1 else c in
  let out := wadd out a in
  let c := if wsub wones out <? b then wadd c 1 else c in
  let out := wadd out b in
  (out, c).

(** [multiply_with_carry]: low word and high word of the product, by the
    half-word schoolbook method. *)
Definition multiply_with_carry (a b : Z) : Z * Z :=
  let mask := wmask 32 in
  let a0 := Z.land a mask in
  let a1 := Z.land (wshr a 32) mask in
  let b0 := Z.land b mask in
  let b1 := Z.land (wshr b 32) mask in
  let tmp := wmul a0 b0 in
  let r00 := Z.land tmp mask in
  let c00 := Z.land (wshr tmp 32) mask in
  let tmp := wmul a0 b1 in
  let r01 := Z.land tmp mask in
  let c01 := Z.land (wshr tmp 32) mask in
  let tmp := wmul a1 b0 in
  let r10 := Z.land tmp mask in
  let c10 := Z.land (wshr tmp 32) mask in
  let tmp := wmul a1 b1 in
  let r11 := Z.land tmp mask in
  let c11 := Z.land (wshr tmp 32) mask in
  let r1 := wadd (wadd c00 r01) r10 in
  let r2 := Z.land (wshr r1 32) mask in
  let r1 := Z.land r1 mask in
  let r2 := wadd r2 (wadd (wadd c01 c10) r11) in
  let r3 := Z.land (wshr r2 32) mask in
  let r2 := Z.land r2 mask in
  let r3 := wadd r3 c11 in
  let r3 := Z.land r3 mask in
  (wadd (wshl r1 32) r00, wadd (wshl r3 32) r2).

(** [multiply_long]: low and high words, accumulated column by column. *)
Definition multiply_long (a b : Z) : Z * Z :=
  let word_mask := wmask 32 in
  let tmpa := Z.land a word_mask in
  let tmpb := Z.land b word_mask in
  let res0 := wmul tmpa tmpb in
  let res1 := wshr res0 32 in
  let res0 := Z.land res0 word_mask in
  let tmpa := Z.land (wshr a 32) word_mask in
  let tmpb := Z.land b word_mask in
  let res1 := wadd res1 (wmul tmpa tmpb) in
  let res2 := wshr res1 32 in
  let res1 := Z.land res1 word_mask in
  let tmpa := Z.land a word_mask in
  let tmpb := Z.land (wshr b 32) word_mask in
  let res1 := wadd res1 (wmul tmpa tmpb) in
  let res2 := wadd res2 (wshr res1 32) in
  let res3 := wshr res2 32 in
  let res1 := Z.land res1 word_mask in
  let res2 := Z.land res2 word_mask in
  let tmpa := Z.land (wshr a 32) word_mask in
  let tmpb := Z.land (wshr b 32) word_mask in
  let res2 := wadd res2 (wmul tmpa tmpb) in
  let res3 := wadd res3 (wshr res2 32) in
  let res2 := Z.land res2 word_mask in
  let high := Z.lor (wshl res3 32) res2 in
  let low := Z.lor (wshl res1 32) res0 in
  (low, high).

(** ** Arrays of words *)

(** The number an array of words stands for, least significant word first. *)
Fixpoint wval (ws : list Z) : Z :=
  match ws with
  | [] => 0
  | w :: ws' => w + wordsize * wval ws'
  end.

(** Bit [i] of an array of words, 0 beyond its end. *)
Definition wbit (ws : list Z) (i : nat) : bool :=
  tb (nth (i / W) ws 0) (i mod W).

(** Words needed for [n] bits: [(n + BITS_PER_WORD-1) / BITS_PER_WORD]. *)
Definition words_for (n : nat) : nat := ((n + W - 1) / W)%nat.

Abbreviation words := (Forall is_word).

(** * Word arithmetic *)

Lemma wordsize_pos : 0 < wordsize.
Proof. reflexivity. Qed.

Lemma wordsize_val : wordsize = 18446744073709551616.
Proof. reflexivity. Qed.

Lemma wrap_word x : is_word (wrap x).
Proof. unfold is_word, wrap. apply Z.mod_pos_bound, wordsize_pos. Qed.

Lemma wrap_small x : is_word x -> wrap x = x.
Proof. apply Z.mod_small. Qed.

Lemma wadd_word x y : is_word (wadd x y).
Proof. apply wrap_word. Qed.

Lemma wsub_word x y : is_word (wsub x y).
Proof. apply wrap_word. Qed.

Lemma wmul_word x y : is_word (wmul x y).
Proof. apply wrap_word. Qed.

Lemma wshl_word x n : is_word (wshl x n).
Proof. apply wrap_word. Qed.

Lemma wnot_word x : is_word x -> is_word (wnot x).
Proof. unfold is_word, wnot. lia. Qed.

Lemma wshr_word x n : is_word x -> is_word (wshr x n).
Proof.
  intros [H0 H1]. unfold is_word, wshr. rewrite Z.shiftr_div_pow2 by lia.
  assert (0 < 2 ^ Z.of_nat (n mod W)) by (apply Z.pow_pos_nonneg; lia).
  split; [apply Z.div_pos; lia|].
  apply Z.le_lt_trans with x; [|lia]. apply Z.div_le_upper_bound; nia.
Qed.

Lemma is_word_testbit x :
  0 <= x -> (forall i, 64 <= i -> Z.testbit x i = false) -> is_word x.
Proof.
  intros Hx Hb. split; [done|].
  destruct (Z.eq_dec x 0) as [->|]; [reflexivity|].
  apply Z.log2_lt_pow2; [lia|].
  destruct (Z.lt_ge_cases (Z.log2 x) 64) as [|Hge]; [done|].
  pose proof (Z.bit_log2 x ltac:(lia)) as Hl. rewrite Hb in Hl by done. done.
Qed.

Lemma word_testbit_high x i : is_word x -> 64 <= i -> Z.testbit x i = false.
Proof.
  intros [H0 H1] Hi. destruct (Z.eq_dec x 0) as [->|]; [apply Z.bits_0|].
  apply Z.bits_above_log2; [lia|].
  apply Z.lt_le_trans with 64; [|lia]. apply Z.log2_lt_pow2; unfold wordsize in *; lia.
Qed.

Lemma land_word x y : is_word x -> is_word y -> is_word (Z.land x y).
Proof.
  intros Hx Hy. apply is_word_testbit.
  - apply Z.land_nonneg. destruct Hx; lia.
  - intros i Hi. by rewrite Z.land_spec, (word_testbit_high x).
Qed.

Lemma lor_word x y : is_word x -> is_word y -> is_word (Z.lor x y).
Proof.
  intros Hx Hy. apply is_word_testbit.
  - apply Z.lor_nonneg. destruct Hx, Hy; lia.
  - intros i Hi. by rewrite Z.lor_spec, (word_testbit_high x), (word_testbit_high y).
Qed.

Lemma zero_word : is_word 0.
Proof. split; reflexivity || discriminate. Qed.

Lemma one_word : is_word 1.
Proof. split; reflexivity || discriminate. Qed.

Lemma wones_word : is_word wones.
Proof. split; reflexivity || discriminate. Qed.

Create HintDb word discriminated.
#[export] Hint Resolve wrap_word wadd_word wsub_word wmul_word wshl_word wnot_word
  wshr_word land_word lor_word zero_word one_word wones_word : word.

(** * Bits of words *)

Lemma tb_high x i : is_word x -> (W <= i)%nat -> tb x i = false.
Proof. intros Hx Hi. unfold tb, W in *. apply word_testbit_high; [done|lia]. Qed.

Lemma tb_land x y i : tb (Z.land x y) i = tb x i && tb y i.
Proof. apply Z.land_spec. Qed.

Lemma tb_lor x y i : tb (Z.lor x y) i = tb x i || tb y i.
Proof. apply Z.lor_spec. Qed.

Lemma tb_0 i : tb 0 i = false.
Proof. apply Z.bits_0. Qed.

Lemma tb_wrap x i : tb (wrap x) i = (i <? W)%nat && tb x i.
Proof.
  unfold tb, wrap, wordsize, W. case_cmp; simpl.
  - apply Z.mod_pow2_bits_low. lia.
  - apply Z.mod_pow2_bits_high. lia.
Qed.


Lemma tb_wnot x i : is_word x -> tb (wnot x) i = (i <? W)%nat && negb (tb x i).
Proof.
  intros Hx.
  replace (wnot x) with (wrap (Z.lnot x)).
  - rewrite tb_wrap. f_equal. unfold tb. apply Z.lnot_spec. lia.
  - unfold wrap, wnot, Z.lnot.
    replace (Z.pred (- x)) with (wordsize - 1 - x + (-1) * wordsize) by lia.
    rewrite Z.mod_add by (unfold wordsize; lia).
    apply Z.mod_small. unfold is_word in Hx. lia.
Qed.

Lemma tb_wones i : tb wones i = (i <? W)%nat.
Proof.
  unfold tb, wones, wordsize, W.
  change (2 ^ 64 - 1) with (Z.ones 64). rewrite Z.testbit_ones_nonneg by lia.
  destruct (Nat.ltb_spec i 64), (Z.ltb_spec (Z.of_nat i) 64); lia.
Qed.

Lemma tb_wshl x n i :
  (n < W)%nat -> tb (wshl x n) i = (i <? W)%nat && (n <=? i)%nat && tb x (i - n).
Proof.
  intros Hn. unfold wshl. rewrite tb_wrap. rewrite Nat.mod_small by done.
  rewrite <- andb_assoc. f_equal. unfold tb. rewrite Z.shiftl_spec by lia.
  case_cmp; simpl.
  - f_equal. lia.
  - apply Z.testbit_neg_r. lia.
Qed.

Lemma tb_wshr x n i : (n < W)%nat -> tb (wshr x n) i = tb x (i + n).
Proof.
  intros Hn. unfold wshr, tb. rewrite Nat.mod_small by done.
  rewrite Z.shiftr_spec by lia. f_equal. lia.
Qed.

Lemma wmask_eq n : (n < W)%nat -> wmask n = 2 ^ Z.of_nat n - 1.
Proof.
  intros Hn. unfold wmask, wsub, wshl, wrap. rewrite Nat.mod_small by done.
  rewrite Z.shiftl_mul_pow2, Z.mul_1_l by lia.
  assert (0 < 2 ^ Z.of_nat n) by (apply Z.pow_pos_nonneg; lia).
  assert (2 ^ Z.of_nat n < wordsize)
    by (unfold wordsize, W in *; apply Z.pow_lt_mono_r; lia).
  rewrite (Z.mod_small (2 ^ _)) by lia. apply Z.mod_small. lia.
Qed.

Lemma tb_wmask n i : (n < W)%nat -> tb (wmask n) i = (i <? n)%nat.
Proof.
  intros Hn. rewrite wmask_eq by done. unfold tb.
  rewrite Z.sub_1_r, <- Z.ones_equiv, Z.testbit_ones_nonneg by lia.
  destruct (Nat.ltb_spec i n), (Z.ltb_spec (Z.of_nat i) (Z.of_nat n)); lia.
Qed.

Lemma wmask_word n : is_word (wmask n).
Proof. apply wsub_word. Qed.
#[export] Hint Resolve wmask_word : word.

Lemma tb_ext x y :
  is_word x -> is_word y -> (forall i, (i < W)%nat -> tb x i = tb y i) -> x = y.
Proof.
  intros Hx Hy H. apply Z.bits_inj'. intros i Hi.
  destruct (Z.lt_ge_cases i 64).
  - specialize (H (Z.to_nat i)). unfold tb, W in H. rewrite Z2Nat.id in H by lia.
    apply H. lia.
  - by rewrite !word_testbit_high.
Qed.

Lemma land_mask32 x : Z.land x (wmask 32) = x mod 2 ^ 32.
Proof.
  rewrite wmask_eq by (unfold W; lia).
  change (2 ^ Z.of_nat 32 - 1) with (Z.ones 32). apply Z.land_ones. lia.
Qed.

Lemma wshr_32 x : wshr x 32 = x / 2 ^ 32.
Proof. unfold wshr, W. simpl. apply Z.shiftr_div_pow2. lia. Qed.

Lemma wshl_32 x : wshl x 32 = wrap (x * 2 ^ 32).
Proof. unfold wshl, W. f_equal. apply Z.shiftl_mul_pow2. simpl. lia. Qed.

(** * The carry helpers *)

Lemma add_with_carry_spec a b c :
  is_word a -> is_word b -> 0 <= c <= 1 ->
  let '(s, c') := add_with_carry a b c in
  is_word s /\ 0 <= c' <= 1 /\ s + wordsize * c' = a + b + c.
Proof.
  intros Ha Hb Hc. unfold add_with_carry, wadd, wrap, is_word in *.
  rewrite wordsize_val in *.
  repeat case_cmp; Z.div_mod_to_equations; lia.
Qed.

Lemma add_carry_spec a b c :
  is_word a -> is_word b -> 0 <= c <= 1 ->
  let '(s, c') := add_carry a b c in
  is_word s /\ 0 <= c' <= 1 /\ s + wordsize * c' = a + b + c.
Proof.
  intros Ha Hb Hc. unfold add_carry, wadd, wsub, wones, wrap, is_word in *.
  rewrite wordsize_val in *.
  repeat case_cmp; Z.div_mod_to_equations; lia.
Qed.

(** A word as two half words, and the bounds on the product of two half words
    that keep every partial sum of the schoolbook multiplication exact. *)
Lemma half_split a :
  is_word a ->
  exists a0 a1, a = a0 + 4294967296 * a1 /\ 0 <= a0 < 4294967296 /\ 0 <= a1 < 4294967296 /\
    Z.land a (wmask 32) = a0 /\ Z.land (wshr a 32) (wmask 32) = a1 /\ wshr a 32 = a1.
Proof.
  unfold is_word. rewrite wordsize_val. intros Ha.
  rewrite wshr_32, !land_mask32. change (2 ^ 32) with 4294967296.
  exists (a mod 4294967296), (a / 4294967296).
  rewrite (Z.mod_small (a / _)); Z.div_mod_to_equations; lia.
Qed.

Lemma half_mul_bound x y :
  0 <= x < 4294967296 -> 0 <= y < 4294967296 -> 0 <= x * y <= 18446744065119617025.
Proof. nia. Qed.

Lemma half_mul x y :
  0 <= x < 4294967296 -> 0 <= y < 4294967296 -> is_word (x * y) /\ wmul x y = x * y.
Proof.
  intros Hx Hy. pose proof (half_mul_bound x y Hx Hy).
  assert (is_word (x * y)) by (unfold is_word; rewrite wordsize_val; lia).
  split; [done|]. by apply wrap_small.
Qed.

Lemma wshl_32_small x : 0 <= x < 4294967296 -> wshl x 32 = 4294967296 * x.
Proof.
  intros. rewrite wshl_32. change (2 ^ 32) with 4294967296.
  rewrite wrap_small; unfold is_word; rewrite ?wordsize_val; lia.
Qed.

Lemma lor_wshl_32 x y :
  0 <= x < 4294967296 -> 0 <= y < 4294967296 ->
  Z.lor (wshl x 32) y = 4294967296 * x + y.
Proof.
  intros Hx Hy. rewrite wshl_32_small by done.
  rewrite Z.lor_comm, Z.add_comm. change 4294967296 with (2 ^ 32) in *.
  rewrite (Z.mul_comm _ x), <- Z.shiftl_mul_pow2 by lia.
  rewrite <- Z.lxor_lor, Z.add_nocarry_lxor; [done| |];
    apply Z.bits_inj'; intros i Hi; rewrite Z.bits_0, Z.land_spec, Z.shiftl_spec by done;
    (destruct (Z.lt_ge_cases i 32);
     [rewrite (Z.testbit_neg_r x) by lia; apply andb_false_r
     |rewrite <- (Z.mod_small y (2 ^ 32)), Z.mod_pow2_bits_high by lia; done]).
Qed.

Lemma wadd_small x y : is_word (x + y) -> wadd x y = x + y.
Proof. apply wrap_small. Qed.

Ltac word_lia := unfold is_word; rewrite wordsize_val; lia.

(** Symbolic evaluation of half-word arithmetic: turns one product, one sum or
    one half-word selection of variables into an exact integer with its bounds. *)
Ltac half_step :=
  match goal with
  | |- context [wmul ?x ?y] =>
      is_var x; is_var y;
      destruct (half_mul x y) as [? ->]; [lia|lia|];
      pose proof (half_mul_bound x y ltac:(lia) ltac:(lia));
      let q := fresh "p" in remember (x * y) as q
  | |- context [wadd ?x ?y] =>
      is_var x; is_var y; rewrite (wadd_small x y) by word_lia;
      let q := fresh "s" in remember (x + y) as q
  | |- context [Z.land ?x (wmask 32)] =>
      is_var x; destruct (half_split x) as (? & ? & ? & ? & ? & -> & ? & ?); [word_lia|]
  | H : Z.land (wshr ?x 32) (wmask 32) = _ |- context [Z.land (wshr ?x 32) (wmask 32)] =>
      rewrite H
  | H : wshr ?x 32 = _ |- context [wshr ?x 32] => rewrite H
  | |- context [Z.lor (wshl ?x 32) ?y] =>
      is_var x; is_var y; rewrite (lor_wshl_32 x y) by lia;
      let q := fresh "t" in remember (4294967296 * x + y) as q
  | |- context [wshl ?x 32] =>
      is_var x; rewrite (wshl_32_small x) by lia;
      let q := fresh "t" in remember (4294967296 * x) as q
  end.

Lemma multiply_with_carry_spec a b :
  is_word a -> is_word b ->
  let '(lo, hi) := multiply_with_carry a b in
  is_word lo /\ is_word hi /\ lo + wordsize * hi = a * b.
Proof.
  intros Ha Hb. unfold multiply_with_carry.
  destruct (half_split a Ha) as (a0 & a1 & Ea & ? & ? & -> & -> & _).
  destruct (half_split b Hb) as (b0 & b1 & Eb & ? & ? & -> & -> & _).
  assert (Eab : a * b = a0 * b0 + 4294967296 * (a0 * b1 + a1 * b0)
                        + 18446744073709551616 * (a1 * b1)) by (subst; ring).
  clear Ea Eb.
  repeat half_step.
  unfold is_word; rewrite wordsize_val, Eab. lia.
Qed.

Lemma multiply_long_spec a b :
  is_word a -> is_word b ->
  let '(lo, hi) := multiply_long a b in
  is_word lo /\ is_word hi /\ lo + wordsize * hi = a * b.
Proof.
  intros Ha Hb. unfold multiply_long.
  destruct (half_split a Ha) as (a0 & a1 & Ea & ? & ? & -> & -> & _).
  destruct (half_split b Hb) as (b0 & b1 & Eb & ? & ? & -> & -> & _).
  assert (Eab : a * b = a0 * b0 + 4294967296 * (a0 * b1 + a1 * b0)
                        + 18446744073709551616 * (a1 * b1)) by (subst; ring).
  clear Ea Eb.
  repeat half_step.
  unfold is_word; rewrite wordsize_val, Eab. lia.
Qed.

(** * Arrays of words as numbers *)

Definition pow64 (n : nat) : Z := 2 ^ (64 * Z.of_nat n).

Lemma pow64_0 : pow64 0 = 1.
Proof. reflexivity. Qed.

Lemma pow64_S n : pow64 (S n) = wordsize * pow64 n.
Proof.
  unfold pow64, wordsize. rewrite <- Z.pow_add_r by lia. f_equal. lia.
Qed.

Lemma pow64_pos n : 0 < pow64 n.
Proof. unfold pow64. apply Z.pow_pos_nonneg; lia. Qed.

Lemma wval_bound ws : words ws -> 0 <= wval ws < pow64 (length ws).
Proof.
  induction 1 as [|w ws Hw _ IH]; simpl wval; simpl length.
  - rewrite pow64_0. lia.
  - rewrite pow64_S. unfold is_word, wordsize in *. nia.
Qed.

Lemma wval_app ws1 ws2 : wval (ws1 ++ ws2) = wval ws1 + pow64 (length ws1) * wval ws2.
Proof.
  induction ws1 as [|w ws1 IH]; simpl length; simpl app.
  - rewrite pow64_0. simpl. lia.
  - rewrite pow64_S. cbn [wval]. rewrite IH. ring.
Qed.

Lemma wval_inj ws1 ws2 :
  words ws1 -> words ws2 -> length ws1 = length ws2 -> wval ws1 = wval ws2 -> ws1 = ws2.
Proof.
  intros H1. revert ws2. induction H1 as [|w ws1 Hw _ IH]; intros [|w2 ws2] H2 Hl E;
    simpl in *; try done.
  inversion H2; subst. unfold is_word, wordsize in *.
  assert (w = w2) as -> by lia. f_equal. apply IH; [done|lia|nia].
Qed.

Lemma wval_replicate_0 n : wval (replicate n 0) = 0.
Proof. induction n; simpl; lia. Qed.

Lemma words_nth ws i : words ws -> is_word (nth i ws 0).
Proof.
  intros H. destruct (Nat.lt_ge_cases i (length ws)).
  - rewrite Forall_forall in H. by apply H, nth_In.
  - rewrite nth_overflow by done. apply zero_word.
Qed.

Lemma words_replicate n w : is_word w -> words (replicate n w).
Proof. intros. by apply Forall_replicate. Qed.
#[export] Hint Resolve words_nth words_replicate : word.

Lemma wbit_cons_low w ws i : (i < W)%nat -> wbit (w :: ws) i = tb w i.
Proof.
  intros Hi. unfold wbit. rewrite Nat.div_small, Nat.mod_small by done. done.
Qed.

Lemma wbit_cons_high w ws i : (W <= i)%nat -> wbit (w :: ws) i = wbit ws (i - W).
Proof.
  intros Hi. unfold wbit. replace i with ((i - W) + 1 * W)%nat at 1 2 by lia.
  rewrite Nat.div_add, Nat.Div0.mod_add by (unfold W; lia).
  rewrite Nat.add_1_r. done.
Qed.

(** The bits of the number are the bits of the words. *)
Lemma testbit_wval ws i : words ws -> Z.testbit (wval ws) (Z.of_nat i) = wbit ws i.
Proof.
  intros H. revert i. induction H as [|w ws Hw _ IH]; intros i; simpl wval.
  - rewrite Z.bits_0. unfold wbit. destruct (i / W)%nat; simpl; by rewrite tb_0.
  - destruct (Nat.lt_ge_cases i W) as [Hi|Hi].
    + rewrite wbit_cons_low by done. unfold tb.
      rewrite <- (Z.mod_pow2_bits_low _ 64) by (unfold W in *; lia).
      change (2 ^ 64) with wordsize.
      rewrite Z.mul_comm, Z.mod_add by (unfold wordsize; lia).
      by rewrite Z.mod_small by apply Hw.
    + rewrite wbit_cons_high by done. rewrite <- IH.
      replace (Z.of_nat i) with (Z.of_nat (i - W) + 64) by (unfold W in *; lia).
      rewrite <- Z.div_pow2_bits by lia. change (2 ^ 64) with wordsize.
      rewrite Z.mul_comm, Z.div_add by (unfold wordsize; lia).
      by rewrite Z.div_small by apply Hw.
Qed.

Lemma wbit_overflow ws i : (W * length ws <= i)%nat -> wbit ws i = false.
Proof.
  intros Hi. unfold wbit. rewrite nth_overflow; [apply tb_0|].
  apply Nat.div_le_lower_bound; unfold W in *; lia.
Qed.

Lemma nth_insert (ws : list Z) k w j :
  (k < length ws)%nat -> nth j (<[k:=w]> ws) 0 = if (j =? k)%nat then w else nth j ws 0.
Proof.
  intros Hk. rewrite !nth_lookup. case_cmp.
  - subst. by rewrite list_lookup_insert_eq.
  - by rewrite list_lookup_insert_ne.
Qed.

Lemma wbit_insert ws k w i :
  (k < length ws)%nat ->
  wbit (<[k:=w]> ws) i = if (i / W =? k)%nat then tb w (i mod W) else wbit ws i.
Proof. intros Hk. unfold wbit. rewrite nth_insert by done. by case_cmp. Qed.

Lemma words_insert ws k w : words ws -> is_word w -> words (<[k:=w]> ws).
Proof. intros. by apply Forall_insert. Qed.
#[export] Hint Resolve words_insert : word.

Lemma words_for_length n i : (i < n)%nat -> (i / W < words_for n)%nat.
Proof.
  intros. unfold words_for, W. apply Nat.Div0.div_lt_upper_bound.
  pose proof (Nat.div_mod_eq (n + 64 - 1) 64).
  pose proof (Nat.mod_upper_bound (n + 64 - 1) 64). lia.
Qed.

(** Two arrays with the same bits below [n] stand for the same number modulo 2^n. *)
Lemma wval_mod_ext ws1 ws2 n :
  words ws1 -> words ws2 -> (forall i, (i < n)%nat -> wbit ws1 i = wbit ws2 i) ->
  wval ws1 mod 2 ^ Z.of_nat n = wval ws2 mod 2 ^ Z.of_nat n.
Proof.
  intros H1 H2 H. apply Z.bits_inj'. intros i Hi.
  destruct (Z.lt_ge_cases i (Z.of_nat n)).
  - rewrite !Z.mod_pow2_bits_low by lia.
    rewrite <- (Z2Nat.id i), !testbit_wval by done. apply H. lia.
  - by rewrite !Z.mod_pow2_bits_high by lia.
Qed.
