(* ===== verification/Verinum.v ===== *)
(** The number type of the elaborator ([verinum.h], [verinum.cc]): a four-valued
    bit string with a length flag, a sign flag and string flags.  This file holds
    the data, the constructors, the bit operators, the accessors, the width
    adjustments and the string conversions; arithmetic is in the next files.

    [None] is a run that trips an [assert] or reads outside [bits_].  Lengths
    ([unsigned nbits_]) are [nat]: vectors of 2^32 bits or more are outside the
    model. *)
From S2P Require Import Prelude.

(** * Bits *)

(** [enum V { V0 = 0, V1, Vx, Vz }]. *)
Inductive V := V0 | V1 | Vx | Vz.

#[export] Instance V_eq_dec : EqDecision V.
Proof. solve_decision. Defined.

(** Equality test of two bits. *)
Definition V_eqb (a b : V) : bool := bool_decide (a = b).

(** The numeric value of the enumeration constant, used by [is_before] and the
    order comparisons. *)
Definition V_num (v : V) : Z :=
  match v with V0 => 0 | V1 => 1 | Vx => 2 | Vz => 3 end.

(** [bit4_z2x]: [bit<2? bit : Vx]. *)
Definition bit4_z2x (bit : V) : V := if V_num bit <? 2 then bit else Vx.

Definition V_not (l : V) : V :=
  match l with V0 => V1 | V1 => V0 | _ => Vx end.

Definition V_or (l r : V) : V :=
  if V_eqb l V1 then V1 else
  if V_eqb r V1 then V1 else
  if negb (V_eqb l V0) then Vx else
  if negb (V_eqb r V0) then Vx else V0.

Definition V_and (l r : V) : V :=
  if V_eqb l V0 then V0 else
  if V_eqb r V0 then V0 else
  if negb (V_eqb l V1) then Vx else
  if negb (V_eqb r V1) then Vx else V1.

Definition V_xor (l r : V) : V :=
  if V_eqb l V0 then bit4_z2x r else
  if V_eqb r V0 then bit4_z2x l else
  if V_eqb l V1 && V_eqb r V1 then V0 else Vx.

(** [add_with_carry(l, r, c)]: the sum bit and the new carry. *)
Definition add_with_carry (l r c : V) : V * V :=
  match c with
  | Vx | Vz => (Vx, Vx)
  | V0 | V1 =>
    let sum := if V_eqb c V1 then 1 else 0 in
    match l with
    | Vx | Vz => (Vx, Vx)
    | V0 | V1 =>
      let sum := if V_eqb l V1 then sum + 1 else sum in
      match r with
      | Vx | Vz => (Vx, Vx)
      | V0 | V1 =>
        let sum := if V_eqb r V1 then sum + 1 else sum in
        (if Z.land sum 1 =? 0 then V0 else V1, if Z.land sum 2 =? 0 then V0 else V1)
      end
    end
  end.

(** * The number *)

Record verinum := mkVerinum {
  bits_ : list V;
  has_len : bool;
  has_sign : bool;
  is_single : bool;
  is_string : bool }.

Definition len (v : verinum) : nat := length (bits_ v).

Definition set_has_len (b : bool) (v : verinum) : verinum :=
  mkVerinum (bits_ v) b (has_sign v) (is_single v) (is_string v).
Definition set_has_sign (b : bool) (v : verinum) : verinum :=
  mkVerinum (bits_ v) (has_len v) b (is_single v) (is_string v).
Definition set_bits (bs : list V) (v : verinum) : verinum :=
  mkVerinum bs (has_len v) (has_sign v) (is_single v) (is_string v).

(** [bits_[nbits_-1]]: the top bit, outside the array when there is none. *)
Definition top_bit (bs : list V) : option V := bs !! (length bs - 1)%nat.

(** ** Constructors *)

Definition verinum_nil : verinum := mkVerinum [] false false false false.

(** [verinum(const V*bits, unsigned nbits, bool has_len)]. *)
Definition verinum_of_bits (bits : list V) (hl : bool) : verinum :=
  mkVerinum bits hl false false false.

(** [verinum(V val, unsigned n, bool h)]. *)
Definition verinum_fill (val : V) (n : nat) (h : bool) : verinum :=
  mkVerinum (replicate n val) h false false false.

(** The loop [bits_[idx] = (val&1)? V1 : V0; val >>= 1]. *)
Fixpoint low_bits (n : nat) (val : Z) : list V :=
  match n with
  | O => []
  | S n' => (if Z.odd val then V1 else V0) :: low_bits n' (Z.shiftr val 1)
  end.

(** [verinum(uint64_t val, unsigned n)]. *)
Definition verinum_of_uint64 (val : Z) (n : nat) : verinum :=
  mkVerinum (low_bits n val) true false false false.

(** [while (tmp != 0) { nbits_ += 1; tmp /= 2; }]; C++ division truncates. *)
Fixpoint count_halvings (fuel : nat) (tmp : Z) (nbits : nat) : nat :=
  match fuel with
  | O => nbits
  | S f => if tmp =? 0 then nbits else count_halvings f (Z.quot tmp 2) (S nbits)
  end.

(** [verinum(int64_t that)].  64 halvings bring every [int64_t] to 0. *)
Definition verinum_of_int64 (that : Z) : verinum :=
  let tmp := if that <? 0 then Z.quot (that + 1) 2 else Z.quot that 2 in
  let nbits := S (count_halvings 64 tmp 1) in
  mkVerinum (low_bits nbits that) false true false false.

(** [verinum(const verinum&that, unsigned nbits)]: the padding loop copies
    [bits_[idx-1]], which is outside the array when nothing was copied. *)
Definition verinum_copy (that : verinum) (nbits : nat) : option verinum :=
  let string_flag := is_string that && (len that =? nbits)%nat in
  let copy := if (len that <? nbits)%nat then len that else nbits in
  let front := take copy (bits_ that) in
  if (copy <? nbits)%nat then
    if has_sign that || is_single that then
      pad ← top_bit front;
      Some (mkVerinum (front ++ replicate (nbits - copy) pad) true (has_sign that) false string_flag)
    else
      Some (mkVerinum (front ++ replicate (nbits - copy) V0) true (has_sign that) false string_flag)
  else Some (mkVerinum front true (has_sign that) false string_flag).

(** ** Access *)

Definition get (v : verinum) (idx : nat) : option V := bits_ v !! idx.

(** [operator[]] of an index the caller has bounded. *)
Definition bit (v : verinum) (idx : nat) : V := nth idx (bits_ v) Vx.

Definition set (v : verinum) (idx : nat) (val : V) : option verinum :=
  if (idx <? len v)%nat then Some (set_bits (<[idx := val]> (bits_ v)) v) else None.

(** [set(unsigned off, const verinum&val)]. *)
Definition set_vec (v : verinum) (off : nat) (val : verinum) : option verinum :=
  if (off + len val <=? len v)%nat then
    Some (set_bits (take off (bits_ v) ++ bits_ val ++ drop (off + len val) (bits_ v)) v)
  else None.

Definition bit_defined (b : V) : bool := negb (V_eqb b Vx || V_eqb b Vz).
Definition is_defined (v : verinum) : bool := forallb bit_defined (bits_ v).
Definition is_zero (v : verinum) : bool := forallb (fun b => V_eqb b V0) (bits_ v).

(** [is_negative]: [bits_[nbits_-1]] is read before the sign flag is tested. *)
Definition is_negative (v : verinum) : option bool :=
  top ← top_bit (bits_ v);
  Some (V_eqb top V1 && has_sign v).

(** [sign_bit]: [val.get(val.len()-1)] of a signed value, 0 of an unsigned one. *)
Definition sign_bit (v : verinum) : option V :=
  if has_sign v then top_bit (bits_ v) else Some V0.

(** [while ((sbits > 1) && (bits_[sbits-k] == b)) sbits -= 1], with [k] 2 for a
    signed value and 1 for an unsigned one. *)
Fixpoint significant_loop (bs : list V) (k : nat) (b : V) (sbits : nat) : nat :=
  match sbits with
  | S (S _ as s) =>
      if V_eqb (nth (sbits - k) bs Vx) b then significant_loop bs k b s else sbits
  | _ => sbits
  end.

Definition significant_bits (v : verinum) : option nat :=
  if has_sign v then
    b ← top_bit (bits_ v);
    Some (significant_loop (bits_ v) 2 b (len v))
  else Some (significant_loop (bits_ v) 1 V0 (len v)).

Definition cast_to_int2 (v : verinum) : verinum :=
  set_bits (map (fun b => if V_eqb b Vx || V_eqb b Vz then V0 else b) (bits_ v)) v.

(** The loop of [is_before] from the top bit down, on the reversed bits. *)
Fixpoint before_loop (a b : list V) : bool :=
  match a, b with
  | x :: a', y :: b' =>
      if V_num x <? V_num y then true
      else if V_num y <? V_num x then false else before_loop a' b'
  | _, _ => false
  end.

Definition is_before (v that : verinum) : bool :=
  if (len v <? len that)%nat then true
  else if (len that <? len v)%nat then false
  else before_loop (rev (bits_ v)) (rev (bits_ that)).

(** ** Native integers *)

(** The loop of the three [as_unsigned]-like methods, for a [w]-bit type; the
    mask becomes 0 when it is shifted out. *)
Fixpoint as_native_loop (w : Z) (bs : list V) (val mask : Z) : Z :=
  match bs with
  | [] => val
  | b :: bs' =>
      if V_eqb b V1 then
        if mask =? 0 then 2 ^ w - 1
        else as_native_loop w bs' (Z.lor val mask) ((mask * 2) mod 2 ^ w)
      else as_native_loop w bs' val ((mask * 2) mod 2 ^ w)
  end.

Definition as_native (w : Z) (v : verinum) : Z :=
  if (len v =? 0)%nat then 0 else
  if negb (is_defined v) then 0 else as_native_loop w (bits_ v) 0 1.

Definition as_unsigned (v : verinum) : Z := as_native 32 v.
Definition as_ulong (v : verinum) : Z := as_native 64 v.
Definition as_ulong64 (v : verinum) : Z := as_native 64 v.

(** [IVLLBITS]: [8 * sizeof(long) - 1]. *)
Definition IVLLBITS : nat := 63.

(** The two accumulation loops of [as_long]: clearing bits of -1 with the mask
    [~(1L << idx)], or setting bits of 0 with the mask [1L << idx]. *)
Fixpoint as_long_neg_loop (bs : list V) (val mask : Z) : Z :=
  match bs with
  | [] => val
  | b :: bs' =>
      as_long_neg_loop bs' (if V_eqb b V0 then Z.land val mask else val) (Z.lor (2 * mask) 1)
  end.

Fixpoint as_long_pos_loop (bs : list V) (val mask : Z) : Z :=
  match bs with
  | [] => val
  | b :: bs' =>
      as_long_pos_loop bs' (if V_eqb b V1 then Z.lor val mask else val) (2 * mask)
  end.

(** [as_long]: the value and whether the warning about lost bits is printed. *)
Definition as_long_warn (v : verinum) : Z * bool :=
  if (len v =? 0)%nat then (0, false) else
  if negb (is_defined v) then (0, false) else
  let low := take IVLLBITS (bits_ v) in
  let high := drop IVLLBITS (bits_ v) in
  if has_sign v && V_eqb (bit v (len v - 1)) V1 then
    (as_long_neg_loop low (-1) (-2), existsb (fun b => V_eqb b V0) high)
  else
    (as_long_pos_loop low 0 1, existsb (fun b => V_eqb b V1) high).

Definition as_long (v : verinum) : Z := fst (as_long_warn v).

(** * Strings

    A [char] is a byte, a number in [0, 256).  [isprint] is that of the C locale. *)

Definition ch_quote : Z := 34.
Definition ch_backslash : Z := 92.
Definition ch_0 : Z := 48.
Definition ch_7 : Z := 55.

Definition is_octal (c : Z) : bool := (ch_0 <=? c) && (c <=? ch_7).
Definition is_print (c : Z) : bool := (32 <=? c) && (c <=? 126).

(** [process_verilog_string_quotes]: [\n], [\t], octal escapes of one to three
    digits, any other escaped character for itself.  [None]: a backslash ends the
    string.  [char byte_val] wraps at 256. *)
Fixpoint process_verilog_string_quotes (str : list Z) : option (list Z) :=
  match str with
  | [] => Some []
  | c :: s1 =>
    if c =? ch_backslash then
      match s1 with
      | [] => None
      | d :: s2 =>
        if d =? 110 then cons 10 <$> process_verilog_string_quotes s2
        else if d =? 116 then cons 9 <$> process_verilog_string_quotes s2
        else if is_octal d then
          let b1 := d - ch_0 in
          match s2 with
          | e :: s3 =>
            if is_octal e then
              let b2 := (8 * b1 + e - ch_0) mod 256 in
              match s3 with
              | f :: s4 =>
                if is_octal f then
                  cons ((8 * b2 + f - ch_0) mod 256) <$> process_verilog_string_quotes s4
                else cons b2 <$> process_verilog_string_quotes s3
              | [] => Some [b2]
              end
            else cons b1 <$> process_verilog_string_quotes s2
          | [] => Some [b1]
          end
        else cons d <$> process_verilog_string_quotes s2
      end
    else cons c <$> process_verilog_string_quotes s1
  end.

(** The eight tests [ch&0x80 .. ch&0x01], least significant bit first. *)
Definition bits_of_char (ch : Z) : list V :=
  map (fun mask => if Z.land ch mask =? 0 then V0 else V1) [1; 2; 4; 8; 16; 32; 64; 128].

(** [verinum(const string&s)]: the first character is the most significant. *)
Definition verinum_of_string (s : list Z) : option verinum :=
  str ← process_verilog_string_quotes s;
  if (length str =? 0)%nat then Some (mkVerinum (replicate 8 V0) true false false true)
  else Some (mkVerinum (concat (map bits_of_char (rev str))) true false false true).

(** The [char_val] of eight bits, least significant first: only [V1] counts. *)
Fixpoint char_of_bits (bs : list V) (mask : Z) : Z :=
  match bs with
  | [] => 0
  | b :: bs' => Z.lor (if V_eqb b V1 then mask else 0) (char_of_bits bs' (2 * mask))
  end.

(** The [n] bytes of a bit string, least significant first. *)
Fixpoint chars_of_bits (n : nat) (bs : list V) : list Z :=
  match n with
  | O => []
  | S n' => char_of_bits (take 8 bs) 1 :: chars_of_bits n' (drop 8 bs)
  end.

(** [snprintf(tmp, sizeof tmp, "\\%03o", c)]. *)
Definition octal_escape (c : Z) : list Z :=
  [ch_backslash; ch_0 + c / 64; ch_0 + (c / 8) mod 8; ch_0 + c mod 8].

Definition escape_char (c : Z) : list Z :=
  if (c =? ch_quote) || (c =? ch_backslash) then octal_escape c
  else if is_print c then [c] else octal_escape c.

Definition as_string (v : verinum) : option (list Z) :=
  if (len v mod 8 =? 0)%nat then
    Some (concat (map escape_char (rev (chars_of_bits (len v / 8) (bits_ v)))))
  else None.

(** * Width adjustment *)

(** The padding bit of [pad_to_width] and [cast_to_width]. *)
Definition pad_bit (that : verinum) (top : V) : V :=
  let pad := top in
  let pad := if V_eqb pad V1 && negb (has_sign that) && negb (is_single that) then V0 else pad in
  if has_len that && negb (has_sign that) && negb (is_single that) then
    if V_eqb pad Vx || V_eqb pad Vz then V0 else pad
  else pad.

Definition pad_to_width (that : verinum) (width : nat) : option verinum :=
  if (width <=? len that)%nat then Some that else
  if (len that =? 0)%nat then
    Some (set_has_sign (has_sign that) (verinum_fill V0 width (has_len that)))
  else
    top ← top_bit (bits_ that);
    let pad := pad_bit that top in
    let val := verinum_of_bits (bits_ that ++ replicate (width - len that) pad) (has_len that) in
    let val := set_has_sign (has_sign that) val in
    if is_string that && (width mod 8 =? 0)%nat then
      s ← as_string val; verinum_of_string s
    else Some val.

Definition cast_to_width (that : verinum) (width : nat) : option verinum :=
  if has_len that && (len that =? width)%nat then Some that else
  if (width <=? len that)%nat then verinum_copy that width else
  if (len that =? 0)%nat then
    Some (set_has_sign (has_sign that) (verinum_fill V0 width true))
  else
    top ← top_bit (bits_ that);
    let pad := pad_bit that top in
    let val := verinum_of_bits (bits_ that ++ replicate (width - len that) pad) true in
    Some (set_has_sign (has_sign that) val).

(** [while ((top > 0) && (get(top) == b)) top -= 1]. *)
Fixpoint scan_down (bs : list V) (b : V) (top : nat) : nat :=
  match top with
  | O => O
  | S t => if V_eqb (nth top bs Vx) b then scan_down bs b t else top
  end.

(** [verinum::signed_trim], on a number with at least one bit. *)
Definition signed_trim (v : verinum) : option verinum :=
  sign ← top_bit (bits_ v);
  let tlen := scan_down (bits_ v) sign (len v - 1) in
  let tlen := if negb (V_eqb (bit v tlen) sign) then (tlen + 1)%nat else tlen in
  let tlen := (tlen + 1)%nat in
  if (tlen <? len v)%nat then Some (set_bits (take tlen (bits_ v)) v) else Some v.

Definition trim_vnum (that : verinum) : verinum :=
  if has_len that then that else
  if (len that <? 2)%nat then that else
  let trimmed tlen :=
    set_has_sign (has_sign that) (verinum_of_bits (take tlen (bits_ that)) false) in
  if has_sign that then
    let top := (len that - 1)%nat in
    let sign := bit that top in
    let top := scan_down (bits_ that) sign top in
    let top := if negb (V_eqb (bit that top) sign) then (top + 1)%nat else top in
    trimmed (top + 1)%nat
  else
    let top := scan_down (bits_ that) V0 (len that - 1) in
    if (top + 1 =? len that)%nat then that
    else
      let tlen := (top + 2)%nat in
      let tlen := if V_eqb (bit that top) V0 then (tlen - 1)%nat else tlen in
      trimmed tlen.

(** [concat]: the right operand is the low part. *)
Definition concat_vnum (left right : verinum) : option verinum :=
  if is_string left && is_string right then
    l ← as_string left;
    r ← as_string right;
    verinum_of_string (l ++ r)
  else Some (mkVerinum (bits_ right ++ bits_ left) true false false false).

(** [operator ~ (const verinum&)]: the flags of the operand are kept. *)
Definition vnot (left : verinum) : verinum := set_bits (map V_not (bits_ left)) left.
