(* ===== verification/VerinumValue.v ===== *)
(** The integer a [verinum] stands for, and the lemmas on bit strings that every
    operation's correctness proof rests on. *)
From S2P Require Import Prelude Verinum.

(** * Values *)

Definition isone (b : V) : bool := V_eqb b V1.
Definition b2z (b : bool) : Z := if b then 1 else 0.
Definition bz (b : V) : Z := b2z (isone b).

Definition pow2 (n : nat) : Z := 2 ^ Z.of_nat n.

(** Unsigned reading, least significant bit first; only [V1] counts. *)
Fixpoint uval (bs : list V) : Z :=
  match bs with
  | [] => 0
  | b :: bs' => bz b + 2 * uval bs'
  end.

(** The bit that extends the number to the left. *)
Definition sgn (v : verinum) : V :=
  if has_sign v then nth (len v - 1) (bits_ v) V0 else V0.

(** The value under the number's own signedness (two's complement). *)
Definition to_Z (v : verinum) : Z := uval (bits_ v) - bz (sgn v) * pow2 (len v).

Abbreviation bdefined b := (b = V0 \/ b = V1).
Abbreviation defined := (Forall (fun b => bdefined b)).

(** A value whose arithmetic is meaningful: every bit is 0 or 1 and there is one. *)
Definition wf_num (v : verinum) : Prop := defined (bits_ v) /\ (0 < len v)%nat.

(** * Powers of two *)

Lemma pow2_0 : pow2 0 = 1.
Proof. reflexivity. Qed.

Lemma pow2_S n : pow2 (S n) = 2 * pow2 n.
Proof. unfold pow2. rewrite Nat2Z.inj_succ, Z.pow_succ_r; lia. Qed.

Lemma pow2_pos n : 0 < pow2 n.
Proof. unfold pow2. apply Z.pow_pos_nonneg; lia. Qed.

Lemma pow2_add n m : pow2 (n + m) = pow2 n * pow2 m.
Proof. unfold pow2. rewrite Nat2Z.inj_add. apply Z.pow_add_r; lia. Qed.

Lemma pow2_le n m : (n <= m)%nat -> pow2 n <= pow2 m.
Proof. intros. unfold pow2. apply Z.pow_le_mono_r; lia. Qed.

Lemma pow2_lt n m : (n < m)%nat -> pow2 n < pow2 m.
Proof. intros. unfold pow2. apply Z.pow_lt_mono_r; lia. Qed.

Lemma pow2_half n : (0 < n)%nat -> pow2 n = 2 * pow2 (n - 1).
Proof. intros. replace n with (S (n - 1)) at 1 by lia. apply pow2_S. Qed.

(** * Bits *)

Lemma V_eqb_eq a b : V_eqb a b = true <-> a = b.
Proof. unfold V_eqb. apply bool_decide_eq_true. Qed.

Lemma V_eqb_refl a : V_eqb a a = true.
Proof. by apply V_eqb_eq. Qed.

Lemma bz_range b : 0 <= bz b <= 1.
Proof. unfold bz, b2z. destruct (isone b); lia. Qed.

Lemma bz_V0 : bz V0 = 0.
Proof. reflexivity. Qed.
Lemma bz_V1 : bz V1 = 1.
Proof. reflexivity. Qed.

Lemma bz_inj a b : bdefined a -> bdefined b -> bz a = bz b -> a = b.
Proof. intros [-> | ->] [-> | ->]; done. Qed.

Lemma bit_defined_spec b : bit_defined b = true <-> bdefined b.
Proof. destruct b; cbn; split; intros; try done; auto; destruct H; done. Qed.

Lemma is_defined_spec v : is_defined v = true <-> defined (bits_ v).
Proof.
  unfold is_defined. rewrite forallb_forall, Forall_forall.
  by setoid_rewrite bit_defined_spec.
Qed.

Lemma is_defined_false v : is_defined v = false <-> ~ defined (bits_ v).
Proof. rewrite <- is_defined_spec. by destruct (is_defined v). Qed.

Lemma defined_nth bs i d : defined bs -> bdefined d -> bdefined (nth i bs d).
Proof.
  intros H Hd. destruct (Nat.lt_ge_cases i (length bs)).
  - rewrite Forall_forall in H. by apply H, nth_In.
  - by rewrite nth_overflow.
Qed.

Lemma defined_replicate n b : bdefined b -> defined (replicate n b).
Proof. intros. by apply Forall_replicate. Qed.

Lemma top_bit_nth bs d : (0 < length bs)%nat -> top_bit bs = Some (nth (length bs - 1) bs d).
Proof.
  intros. unfold top_bit.
  destruct (nth_lookup_or_length bs (length bs - 1) d) as [->|]; [done|lia].
Qed.

Lemma sgn_defined v : defined (bits_ v) -> bdefined (sgn v).
Proof. intros. unfold sgn. destruct (has_sign v); [apply defined_nth|]; auto. Qed.

(** * Unsigned reading *)

Lemma uval_bound bs : 0 <= uval bs < pow2 (length bs).
Proof.
  induction bs as [|b bs IH]; simpl uval; simpl length.
  - rewrite pow2_0. lia.
  - rewrite pow2_S. pose proof (bz_range b). lia.
Qed.

Lemma uval_app bs1 bs2 : uval (bs1 ++ bs2) = uval bs1 + pow2 (length bs1) * uval bs2.
Proof.
  induction bs1 as [|b bs1 IH]; simpl app; simpl length.
  - rewrite pow2_0. simpl. lia.
  - rewrite pow2_S. cbn [uval]. rewrite IH. ring.
Qed.

Lemma uval_replicate b n : uval (replicate n b) = bz b * (pow2 n - 1).
Proof.
  induction n as [|n IH]; simpl replicate; cbn [uval].
  - rewrite pow2_0. lia.
  - rewrite pow2_S, IH. lia.
Qed.

Lemma uval_replicate_0 n : uval (replicate n V0) = 0.
Proof. rewrite uval_replicate, bz_V0. lia. Qed.

Lemma uval_inj bs1 bs2 :
  defined bs1 -> defined bs2 -> length bs1 = length bs2 -> uval bs1 = uval bs2 -> bs1 = bs2.
Proof.
  intros H1. revert bs2. induction H1 as [|b bs1 Hb _ IH]; intros [|b2 bs2] H2 Hl E;
    simpl in *; try done.
  inversion H2; subst. pose proof (bz_range b). pose proof (bz_range b2).
  assert (b = b2) as -> by (apply bz_inj; [done|done|lia]).
  f_equal. apply IH; [done|lia|lia].
Qed.

Lemma uval_take n bs : uval (take n bs) = uval bs mod pow2 n.
Proof.
  destruct (Nat.le_gt_cases n (length bs)).
  - rewrite <- (take_drop n bs) at 2. rewrite uval_app, length_take, Nat.min_l by done.
    rewrite Z.mul_comm, Z.mod_add by (pose proof (pow2_pos n); lia).
    symmetry. apply Z.mod_small. pose proof (uval_bound (take n bs)).
    rewrite length_take, Nat.min_l in H0; done.
  - rewrite take_ge by lia. symmetry. apply Z.mod_small.
    pose proof (uval_bound bs). pose proof (pow2_le (length bs) n). lia.
Qed.

Lemma uval_drop n bs : uval (drop n bs) = uval bs / pow2 n.
Proof.
  destruct (Nat.le_gt_cases n (length bs)).
  - rewrite <- (take_drop n bs) at 2. rewrite uval_app, length_take, Nat.min_l by done.
    rewrite Z.mul_comm, Z.div_add by (pose proof (pow2_pos n); lia).
    rewrite Z.div_small; [lia|]. pose proof (uval_bound (take n bs)).
    rewrite length_take, Nat.min_l in H0; done.
  - rewrite drop_ge by lia. symmetry. apply Z.div_small.
    pose proof (uval_bound bs). pose proof (pow2_le (length bs) n). simpl. lia.
Qed.

(** The value split at the top bit. *)
Lemma uval_top bs :
  (0 < length bs)%nat ->
  exists low, uval bs = low + bz (nth (length bs - 1) bs V0) * pow2 (length bs - 1)
    /\ 0 <= low < pow2 (length bs - 1).
Proof.
  intros Hl. assert (bs <> []) as Hn by (intros ->; simpl in Hl; lia).
  destruct (exists_last Hn) as (bs' & b & ->).
  rewrite length_app. simpl length. rewrite Nat.add_sub.
  rewrite app_nth2, Nat.sub_diag by lia. simpl nth.
  exists (uval bs'). split; [|apply uval_bound].
  rewrite uval_app. cbn [uval]. lia.
Qed.

Lemma uval_zero_iff bs : defined bs -> forallb (fun b => V_eqb b V0) bs = true <-> uval bs = 0.
Proof.
  induction 1 as [|b bs Hb _ IH]; cbn [forallb uval]; [done|].
  rewrite andb_true_iff, IH, V_eqb_eq. pose proof (uval_bound bs).
  destruct Hb as [-> | ->]; rewrite ?bz_V0, ?bz_V1.
  - split; [intros [_ ?]; lia | intros; split; [done|lia]].
  - split; [by intros [? _] | lia].
Qed.

(** * Values under the sign flag *)

Lemma to_Z_unsigned v : has_sign v = false -> to_Z v = uval (bits_ v).
Proof. intros H. unfold to_Z, sgn. rewrite H, bz_V0. lia. Qed.

Lemma to_Z_range v :
  (0 < len v)%nat ->
  (has_sign v = true -> - pow2 (len v - 1) <= to_Z v < pow2 (len v - 1)) /\
  (has_sign v = false -> 0 <= to_Z v < pow2 (len v)).
Proof.
  intros Hl. split; intros Hs.
  - destruct (uval_top (bits_ v) Hl) as (low & E & B). unfold to_Z, sgn.
    rewrite Hs, E, (pow2_half (len v)) by done. unfold len in *.
    pose proof (bz_range (nth (length (bits_ v) - 1) (bits_ v) V0)). nia.
  - rewrite to_Z_unsigned by done. apply uval_bound.
Qed.

Lemma to_Z_mod v : to_Z v mod pow2 (len v) = uval (bits_ v).
Proof.
  unfold to_Z. pose proof (pow2_pos (len v)).
  replace (uval (bits_ v) - bz (sgn v) * pow2 (len v))
    with (uval (bits_ v) + (- bz (sgn v)) * pow2 (len v)) by lia.
  rewrite Z.mod_add by lia. apply Z.mod_small. apply uval_bound.
Qed.

(** A signed value is negative exactly when its top bit is set. *)
Lemma to_Z_sign v :
  wf_num v -> has_sign v = true ->
  (to_Z v < 0 <-> nth (len v - 1) (bits_ v) V0 = V1).
Proof.
  intros [Hd Hl] Hs. destruct (uval_top (bits_ v) Hl) as (low & E & B).
  unfold to_Z, sgn. rewrite Hs, E, (pow2_half (len v)) by done. unfold len in *.
  destruct (defined_nth (bits_ v) (length (bits_ v) - 1) V0 Hd) as [-> | ->]; [by left| |];
    rewrite ?bz_V0, ?bz_V1; split; intros; try done; lia.
Qed.

(** Extending a number with its sign bit does not change its value, so its low
    [n] bits are the value modulo 2^n. *)
Definition ext_bits (v : verinum) (n : nat) : list V :=
  take n (bits_ v ++ replicate n (sgn v)).

Lemma uval_ext v n : uval (ext_bits v n) = to_Z v mod pow2 n.
Proof.
  unfold ext_bits. rewrite uval_take, uval_app, uval_replicate.
  unfold to_Z, len. pose proof (pow2_pos n).
  rewrite <- (Z.mod_add (uval (bits_ v) - _) (bz (sgn v) * pow2 (length (bits_ v)))) by lia.
  f_equal. ring.
Qed.

Lemma length_ext_bits v n : length (ext_bits v n) = n.
Proof.
  unfold ext_bits. rewrite length_take, length_app, length_replicate. lia.
Qed.

Lemma sign_bit_sgn v : (0 < len v)%nat -> sign_bit v = Some (sgn v).
Proof.
  intros H. unfold sign_bit, sgn. destruct (has_sign v); [|done]. by apply top_bit_nth.
Qed.

Lemma nth_bit v i : (i < len v)%nat -> nth i (bits_ v) V0 = bit v i.
Proof. intros. by apply nth_indep. Qed.

(** A value in the range of [n] bits is determined by its residue. *)
Lemma signed_residue_eq n x y :
  (0 < n)%nat -> - pow2 (n - 1) <= x < pow2 (n - 1) -> - pow2 (n - 1) <= y < pow2 (n - 1) ->
  x mod pow2 n = y mod pow2 n -> x = y.
Proof.
  intros Hn Hx Hy E. pose proof (pow2_half n Hn). pose proof (pow2_pos n).
  assert (D : (x - y) mod pow2 n = 0) by (rewrite Zminus_mod, E, Z.sub_diag; done).
  apply Z.mod_divide in D; [|lia]. destruct D as [k Hk].
  assert (-1 < k < 1) by nia. nia.
Qed.

(** Two's complement reading of a bit string. *)
Definition sval (bs : list V) : Z :=
  uval bs - bz (nth (length bs - 1) bs V0) * pow2 (length bs).

Lemma to_Z_signed v : has_sign v = true -> to_Z v = sval (bits_ v).
Proof. intros H. unfold to_Z, sgn. by rewrite H. Qed.

Lemma sval_range bs :
  (0 < length bs)%nat -> - pow2 (length bs - 1) <= sval bs < pow2 (length bs - 1).
Proof.
  intros Hl. apply (to_Z_range (mkVerinum bs false true false false) Hl). done.
Qed.

Lemma sval_mod bs : sval bs mod pow2 (length bs) = uval bs.
Proof. apply (to_Z_mod (mkVerinum bs false true false false)). Qed.

(** The signed reading of the residue of a number in range is the number. *)
Lemma sval_residue bs x :
  (0 < length bs)%nat -> uval bs = x mod pow2 (length bs) ->
  - pow2 (length bs - 1) <= x < pow2 (length bs - 1) -> sval bs = x.
Proof.
  intros Hl E Hx. apply (signed_residue_eq (length bs)); [done| |done|].
  - by apply sval_range.
  - by rewrite sval_mod.
Qed.

(** A repeated top bit is redundant. *)
Lemma sval_snoc_top bs :
  (0 < length bs)%nat -> sval (bs ++ [nth (length bs - 1) bs V0]) = sval bs.
Proof.
  intros Hl. unfold sval. rewrite uval_app, length_app. simpl length.
  rewrite Nat.add_sub, app_nth2, Nat.sub_diag, Nat.add_1_r, pow2_S by lia.
  cbn [nth uval]. lia.
Qed.

(** * Redundant high bits *)

Lemma scan_down_spec bs b top :
  let t := scan_down bs b top in
  (t <= top)%nat /\ (forall i, (t < i <= top)%nat -> nth i bs Vx = b) /\
  (t = 0%nat \/ nth t bs Vx <> b).
Proof.
  induction top as [|top IH]; cbn [scan_down].
  - split_and!; [lia|lia|by left].
  - destruct (V_eqb (nth (S top) bs Vx) b) eqn:E; cbv zeta.
    + apply V_eqb_eq in E. destruct IH as (H1 & H2 & H3). split_and!; [lia| |done].
      intros i Hi. destruct (Nat.eq_dec i (S top)) as [->|]; [done|]. apply H2. lia.
    + split_and!; [lia|lia|right]. intros <-. by rewrite V_eqb_refl in E.
Qed.

(** The bits from [k] up are all [b]. *)
Lemma high_bits_replicate bs b k :
  (forall i, (k <= i < length bs)%nat -> nth i bs Vx = b) ->
  bs = take k bs ++ replicate (length bs - k) b.
Proof.
  intros H. rewrite <- (take_drop k bs) at 1. f_equal.
  apply list_eq. intros i. rewrite lookup_drop.
  destruct (decide (i < length bs - k)%nat).
  - rewrite lookup_replicate_2 by done.
    destruct (nth_lookup_or_length bs (k + i) Vx) as [->|]; [|lia]. f_equal. apply H. lia.
  - rewrite (proj1 (lookup_replicate_None _ _ _)) by lia. apply lookup_ge_None. lia.
Qed.

Lemma sval_replicate_top bs b n :
  (0 < length bs)%nat -> nth (length bs - 1) bs V0 = b -> sval (bs ++ replicate n b) = sval bs.
Proof.
  intros Hl Hb. induction n as [|n IH]; simpl replicate.
  - by rewrite app_nil_r.
  - rewrite <- IH. change (b :: replicate n b) with (replicate (S n) b).
    replace (S n) with (n + 1)%nat by lia. rewrite replicate_add, app_assoc. simpl.
    set (l := bs ++ replicate n b).
    assert (El : nth (length l - 1) l V0 = b).
    { unfold l. rewrite length_app, length_replicate. destruct n as [|n].
      - rewrite app_nil_r, Nat.add_0_r. done.
      - rewrite app_nth2 by lia. rewrite nth_lookup, lookup_replicate_2 by lia. done. }
    rewrite <- El. apply sval_snoc_top. unfold l. rewrite length_app. lia.
Qed.

(** * [trim_vnum] *)

Lemma take_wf n bs :
  (0 < n)%nat -> (n <= length bs)%nat -> defined bs -> defined (take n bs) /\ length (take n bs) = n.
Proof. intros. split; [by apply Forall_take|]. rewrite length_take. lia. Qed.

(** Cutting above a bit that all the higher ones repeat keeps the signed value. *)
Lemma sval_take bs sg k :
  (0 < k <= length bs)%nat ->
  (forall i, (k - 1 <= i < length bs)%nat -> nth i bs Vx = sg) ->
  sval (take k bs) = sval bs.
Proof.
  intros Hk H.
  rewrite (high_bits_replicate bs sg k) at 2 by (intros; apply H; lia).
  symmetry. apply sval_replicate_top; rewrite length_take; [lia|].
  rewrite Nat.min_l by lia. rewrite nth_lookup, lookup_take_lt by lia.
  destruct (nth_lookup_or_length bs (k - 1) Vx) as [->|]; [|lia]. simpl. apply H. lia.
Qed.

Lemma uval_take_zeros bs k :
  (forall i, (k <= i < length bs)%nat -> nth i bs Vx = V0) -> uval (take k bs) = uval bs.
Proof.
  intros H. rewrite (high_bits_replicate bs V0 k) at 2 by done.
  rewrite uval_app, uval_replicate_0. lia.
Qed.

(** Where the signed scan stops. *)
Lemma signed_cut bs :
  (0 < length bs)%nat ->
  let sg := nth (length bs - 1) bs Vx in
  let t := scan_down bs sg (length bs - 1) in
  let t' := if negb (V_eqb (nth t bs Vx) sg) then (t + 1)%nat else t in
  (t' < length bs)%nat /\ forall i, (t' <= i < length bs)%nat -> nth i bs Vx = sg.
Proof.
  intros Hl sg t t'. destruct (scan_down_spec bs sg (length bs - 1)) as (H1 & H2 & _).
  fold t in H1, H2. unfold t'. destruct (V_eqb (nth t bs Vx) sg) eqn:E; simpl.
  - apply V_eqb_eq in E. split; [lia|]. intros i Hi.
    destruct (Nat.eq_dec i t) as [->|]; [done|]. apply H2. lia.
  - assert (t <> length bs - 1)%nat.
    { intros Et. rewrite Et in E. unfold sg in E. by rewrite V_eqb_refl in E. }
    split; [lia|]. intros i Hi. apply H2. lia.
Qed.

(** What trimming promises. *)
Lemma trim_vnum_spec v :
  wf_num v ->
  wf_num (trim_vnum v) /\ to_Z (trim_vnum v) = to_Z v /\
  has_len (trim_vnum v) = has_len v /\ has_sign (trim_vnum v) = has_sign v /\
  (has_len v = true -> trim_vnum v = v).
Proof.
  intros [Hd Hl]. unfold trim_vnum, bit.
  destruct (has_len v) eqn:EL; [split_and!; done|].
  destruct (Nat.ltb_spec (len v) 2); [split_and!; done|].
  destruct (has_sign v) eqn:ES; unfold len in *.
  - destruct (signed_cut (bits_ v) Hl) as [Ht1 Ht2].
    set (t' := if negb _ then _ else _) in *.
    destruct (take_wf (t' + 1) (bits_ v)) as [W1 W2]; [lia|lia|done|].
    split_and!; try done.
    + split; simpl; [done|]. unfold len. simpl. rewrite W2. lia.
    + rewrite !to_Z_signed by done. eapply sval_take; [lia|]. intros. apply Ht2. lia.
  - destruct (scan_down_spec (bits_ v) V0 (length (bits_ v) - 1)) as (H1 & H2 & _).
    set (t := scan_down (bits_ v) V0 (length (bits_ v) - 1)) in *.
    destruct (Nat.eqb_spec (t + 1) (length (bits_ v))); [split_and!; done|].
    set (k := if V_eqb _ V0 then _ else _).
    assert (Hk : (0 < k <= length (bits_ v))%nat /\
                 forall i, (k <= i < length (bits_ v))%nat -> nth i (bits_ v) Vx = V0).
    { unfold k. destruct (V_eqb (nth t (bits_ v) Vx) V0); split; try lia; intros i Hi; apply H2; lia. }
    destruct Hk as [Hk1 Hk2].
    destruct (take_wf k (bits_ v)) as [W1 W2]; [lia|lia|done|].
    split_and!; try done.
    + split; simpl; [done|]. unfold len. simpl. rewrite W2. lia.
    + rewrite !to_Z_unsigned by done. by apply uval_take_zeros.
Qed.

Lemma nth_take (bs : list V) k i d : (i < k)%nat -> nth i (take k bs) d = nth i bs d.
Proof. intros. by rewrite !nth_lookup, lookup_take_lt. Qed.

(** No shorter representation exists: a trimmed signed number of two bits or more
    has a significant bit under its sign, an unsigned one at most one leading 0. *)
Definition minimal (v : verinum) : Prop :=
  (2 <= len v)%nat ->
  if has_sign v then nth (len v - 1) (bits_ v) V0 <> nth (len v - 2) (bits_ v) V0
  else nth (len v - 1) (bits_ v) V0 = V1 \/ nth (len v - 2) (bits_ v) V0 = V1.

Lemma trim_vnum_minimal v : wf_num v -> has_len v = false -> minimal (trim_vnum v).
Proof.
  intros [Hd Hl] EL. unfold minimal, trim_vnum, bit. rewrite EL.
  destruct (Nat.ltb_spec (len v) 2); [lia|]. unfold len in *.
  destruct (has_sign v) eqn:ES; simpl.
  - set (sg := nth (length (bits_ v) - 1) (bits_ v) Vx).
    destruct (scan_down_spec (bits_ v) sg (length (bits_ v) - 1)) as (H1 & H2 & H3).
    set (t := scan_down (bits_ v) sg (length (bits_ v) - 1)) in *.
    destruct (V_eqb (nth t (bits_ v) Vx) sg) eqn:E; simpl; rewrite length_take; intros Hk.
    + apply V_eqb_eq in E. destruct H3 as [H3|H3]; [lia|done].
    + assert (t <> length (bits_ v) - 1)%nat
        by (intros Et; rewrite Et in E; unfold sg in E; by rewrite V_eqb_refl in E).
      rewrite !nth_take, !(nth_indep _ V0 Vx) by lia.
      replace (_ - 2)%nat with t by lia. rewrite H2 by lia.
      intros Eq. rewrite <- Eq, V_eqb_refl in E. done.
  - destruct (scan_down_spec (bits_ v) V0 (length (bits_ v) - 1)) as (H1 & H2 & H3).
    set (t := scan_down (bits_ v) V0 (length (bits_ v) - 1)) in *.
    assert (D : nth t (bits_ v) V0 = V0 \/ nth t (bits_ v) V0 = V1) by (apply defined_nth; auto).
    rewrite (nth_indep _ V0 Vx) in D by lia.
    destruct (Nat.eqb_spec (t + 1) (length (bits_ v))) as [Et|Et].
    + rewrite ES. intros _. left. replace (length (bits_ v) - 1)%nat with t by lia.
      rewrite (nth_indep _ V0 Vx) by lia. destruct D, H3; (done || lia).
    + destruct (V_eqb (nth t (bits_ v) Vx) V0) eqn:E; simpl; rewrite length_take; intros Hk.
      * apply V_eqb_eq in E. destruct H3 as [H3|H3]; [lia|done].
      * right. rewrite !nth_take, !(nth_indep _ V0 Vx) by lia.
        replace (_ - 2)%nat with t by lia.
        destruct D as [D|]; [|done]. by rewrite D in E.
Qed.

Lemma trim_vnum_len v : (len (trim_vnum v) <= len v)%nat.
Proof.
  unfold trim_vnum, len. repeat case_match; simpl; rewrite ?length_take; lia.
Qed.
