(* ===== verification/VerinumArith.v ===== *)
(** The arithmetic operators of [verinum.cc]: addition, subtraction, negation,
    multiplication, the shifts and the comparisons. *)
From S2P Require Import Prelude Verinum VerinumValue.

(** * Definitions *)

(** The loops [for (idx = ...; ...) val_bits[idx] = add_with_carry(l, r, carry)]
    over [cnt] indices from [idx]: the bits written and the carry left. *)
Fixpoint adc_loop (l r : nat -> V) (idx cnt : nat) (c : V) : list V * V :=
  match cnt with
  | O => ([], c)
  | S n =>
      let '(s, c) := add_with_carry (l idx) (r idx) c in
      let '(ss, c) := adc_loop l r (S idx) n c in
      (s :: ss, c)
  end.

Definition undefined_result (n : nat) (hl sg : bool) : verinum :=
  set_has_sign sg (verinum_fill Vx n hl).

(** [operator + (const verinum&left, const verinum&right)]. *)
Definition vadd (left right : verinum) : option verinum :=
  let has_len_flag := has_len left && has_len right in
  let signed_flag := has_sign left && has_sign right in
  let min_len := (len left `min` len right)%nat in
  let max_len := (len left `max` len right)%nat in
  if negb (is_defined left) || negb (is_defined right) then
    Some (undefined_result (if has_len_flag then max_len else 1%nat) has_len_flag signed_flag)
  else
    let '(lo, carry) := adc_loop (bit left) (bit right) 0 min_len V0 in
    rpad ← sign_bit right;
    lpad ← sign_bit left;
    let '(hi, carry) :=
      if (len right <? len left)%nat
      then adc_loop (bit left) (fun _ => rpad) min_len (max_len - min_len) carry
      else adc_loop (fun _ => lpad) (bit right) min_len (max_len - min_len) carry in
    let val_bits := lo ++ hi in
    let top := fst (add_with_carry lpad rpad carry) in
    let grow :=
      if has_len_flag then false
      else if signed_flag then negb (V_eqb top (nth (max_len - 1) val_bits Vx))
      else negb (V_eqb top V0) in
    let val_bits := if grow then val_bits ++ [top] else val_bits in
    Some (set_has_sign signed_flag (verinum_of_bits val_bits has_len_flag)).

(** [operator - (const verinum&left, const verinum&right)]. *)
Definition vsub (left right : verinum) : option verinum :=
  let has_len_flag := has_len left && has_len right in
  let signed_flag := has_sign left && has_sign right in
  let min_len := (len left `min` len right)%nat in
  let max_len := (len left `max` len right)%nat in
  if negb (is_defined left) || negb (is_defined right) then
    Some (undefined_result (if has_len_flag then max_len else 1%nat) has_len_flag signed_flag)
  else
    let '(lo, carry) := adc_loop (bit left) (fun i => V_not (bit right i)) 0 min_len V1 in
    rpad ← sign_bit right;
    lpad ← sign_bit left;
    let '(hi, carry) :=
      if (len right <? len left)%nat
      then adc_loop (bit left) (fun _ => V_not rpad) min_len (max_len - min_len) carry
      else adc_loop (fun _ => lpad) (fun i => V_not (bit right i)) min_len (max_len - min_len) carry in
    let val_bits := lo ++ hi in
    let top := fst (add_with_carry lpad (V_not rpad) carry) in
    let grow :=
      if signed_flag && negb has_len_flag
      then negb (V_eqb top (nth (max_len - 1) val_bits Vx)) else false in
    let val_bits := if grow then val_bits ++ [top] else val_bits in
    Some (set_has_sign signed_flag (verinum_of_bits val_bits has_len_flag)).

(** [operator - (const verinum&right)]. *)
Definition vneg (right : verinum) : option verinum :=
  let has_len_flag := has_len right in
  let signed_flag := has_sign right in
  let n := len right in
  if negb (is_defined right) then
    Some (undefined_result (if has_len_flag then n else 1%nat) has_len_flag signed_flag)
  else
    let '(val_bits, carry) := adc_loop (fun _ => V0) (fun i => V_not (bit right i)) 0 n V1 in
    if signed_flag && negb has_len_flag then
      s ← sign_bit right;
      let top := fst (add_with_carry V0 (V_not s) carry) in
      let val_bits :=
        if negb (V_eqb top (nth (n - 1) val_bits Vx)) then val_bits ++ [top] else val_bits in
      Some (set_has_sign signed_flag (verinum_of_bits val_bits has_len_flag))
    else Some (set_has_sign signed_flag (verinum_of_bits val_bits has_len_flag)).

(** One pass of the multiplication: the multiplicand added into the result from
    bit [rdx] up, dropping the carry out of the top. *)
Definition mul_row (left : verinum) (l_sign : V) (rdx : nat) (result : list V) : list V :=
  take rdx result ++
  fst (adc_loop (fun ldx => if (ldx <? len left)%nat then bit left ldx else l_sign)
                (fun ldx => nth (rdx + ldx) result Vx) 0 (length result - rdx) V0).

(** The loop over the multiplier bits, [cnt] of them from [rdx] on.  The sign bit
    of the left operand is only read under a multiplier bit that is not 0. *)
Fixpoint mul_loop (left right : verinum) (r_sign : V) (rdx cnt : nat)
    (result : list V) : option (list V) :=
  match cnt with
  | O => Some result
  | S n =>
      let r_bit := if (rdx <? len right)%nat then bit right rdx else r_sign in
      if V_eqb r_bit V0 then mul_loop left right r_sign (S rdx) n result
      else
        l_sign ← sign_bit left;
        mul_loop left right r_sign (S rdx) n (mul_row left l_sign rdx result)
  end.

(** [operator * (const verinum&left, const verinum&right)]. *)
Definition vmul (left right : verinum) : option verinum :=
  let has_len_flag := has_len left && has_len right in
  let signed_flag := has_sign left && has_sign right in
  let n := if has_len_flag then (len left `max` len right)%nat else (len left + len right)%nat in
  if negb (is_defined left) || negb (is_defined right) then
    Some (undefined_result (if has_len_flag then n else 1%nat) has_len_flag signed_flag)
  else
    r_sign ← sign_bit right;
    result ← mul_loop left right r_sign 0 n (replicate n V0);
    Some (trim_vnum (set_has_sign signed_flag (verinum_of_bits result has_len_flag))).

(** [operator << (const verinum&that, unsigned shift)]. *)
Definition vshl (that : verinum) (shift : nat) : verinum :=
  let n := if has_len that then len that else (len that + shift)%nat in
  trim_vnum (set_has_sign (has_sign that)
    (verinum_of_bits (take n (replicate shift V0 ++ bits_ that)) (has_len that))).

(** [operator >> (const verinum&that, unsigned shift)]. *)
Definition vshr (that : verinum) (shift : nat) : option verinum :=
  s ← sign_bit that;
  if (len that <=? shift)%nat then
    Some (set_has_sign (has_sign that)
            (verinum_fill s (if has_len that then len that else 1%nat) (has_len that)))
  else
    let n := if has_len that then len that else (len that - shift)%nat in
    Some (trim_vnum (set_has_sign (has_sign that)
      (verinum_of_bits (drop shift (bits_ that) ++ replicate (n - (len that - shift)) s)
         (has_len that)))).

(** ** Comparisons *)

(** The padding bits when both operands are signed, 0 otherwise. *)
Definition cmp_pads (left right : verinum) : option (V * V) :=
  if has_sign left && has_sign right then
    l ← top_bit (bits_ left);
    r ← top_bit (bits_ right);
    Some (l, r)
  else Some (V0, V0).

Definition bool_V (b : bool) : V := if b then V1 else V0.

(** The loop of [operator ==] over [cnt] indices from [idx]. *)
Fixpoint eq_loop (left right : verinum) (lpad rpad : V) (idx cnt : nat) : bool :=
  match cnt with
  | O => true
  | S n =>
      let left_bit := if (idx <? len left)%nat then bit left idx else lpad in
      let right_bit := if (idx <? len right)%nat then bit right idx else rpad in
      if V_eqb left_bit right_bit then eq_loop left right lpad rpad (S idx) n else false
  end.

Definition veq (left right : verinum) : option V :=
  '(lpad, rpad) ← cmp_pads left right;
  if has_sign left && has_sign right &&
     ((V_eqb lpad V1 && V_eqb rpad V0) || (V_eqb lpad V0 && V_eqb rpad V1))
  then Some V0
  else Some (bool_V (eq_loop left right lpad rpad 0 (len left `max` len right)%nat)).

(** The downward search of the bits above the other operand for one that differs
    from the padding: [for (idx = len; idx > stop; idx -= 1) if (v[idx-1] != pad)]. *)
Definition high_differs (v : verinum) (stop : nat) (pad : V) : bool :=
  existsb (fun b => negb (V_eqb b pad)) (rev (drop stop (bits_ v))).

(** The last loop of [<] and [<=], from bit [idx-1] down. *)
Fixpoint cmp_loop (left right : verinum) (if_equal : V) (idx : nat) : V :=
  match idx with
  | O => if_equal
  | S i =>
      let l := bit left i in
      let r := bit right i in
      if V_eqb l Vx then Vx else if V_eqb l Vz then Vx else
      if V_eqb r Vx then Vx else if V_eqb r Vz then Vx else
      if V_num r <? V_num l then V0 else
      if V_num l <? V_num r then V1 else cmp_loop left right if_equal i
  end.

(** The common body of [operator <=] ([if_equal] is V1) and [operator <] (V0). *)
Definition vcmp (if_equal : V) (left right : verinum) : option V :=
  let signed_calc := has_sign left && has_sign right in
  '(left_pad, right_pad) ← cmp_pads left right;
  if signed_calc && V_eqb left_pad V1 && V_eqb right_pad V0 then Some V1 else
  if signed_calc && V_eqb left_pad V0 && V_eqb right_pad V1 then Some V0 else
  if high_differs left (len right) right_pad then
    Some (bool_V (signed_calc && V_eqb left_pad V1)) else
  if high_differs right (len left) left_pad then
    Some (if signed_calc && V_eqb right_pad V1 then V0 else V1) else
  Some (cmp_loop left right if_equal (len left `min` len right)%nat).

Definition vle (left right : verinum) : option V := vcmp V1 left right.
Definition vlt (left right : verinum) : option V := vcmp V0 left right.
Definition vgt (left right : verinum) : option V := vlt right left.
Definition vge (left right : verinum) : option V := vle right left.
Definition vne (left right : verinum) : option V :=
  e ← veq left right; Some (if V_eqb e V1 then V0 else V1).

(** * The adder *)

Lemma V_add_with_carry_spec l r c :
  bdefined l -> bdefined r -> bdefined c ->
  let '(s, c') := add_with_carry l r c in
  bdefined s /\ bdefined c' /\ bz s + 2 * bz c' = bz l + bz r + bz c.
Proof. intros [-> | ->] [-> | ->] [-> | ->]; cbn; auto. Qed.

(** The number read through an index function. *)
Fixpoint fval (f : nat -> V) (idx cnt : nat) : Z :=
  match cnt with
  | O => 0
  | S n => bz (f idx) + 2 * fval f (S idx) n
  end.

Lemma fval_ext f g idx cnt :
  (forall i, (idx <= i < idx + cnt)%nat -> f i = g i) -> fval f idx cnt = fval g idx cnt.
Proof.
  revert idx. induction cnt as [|n IH]; intros idx H; simpl; [done|].
  rewrite H by lia. rewrite (IH (S idx)); [done|]. intros. apply H. lia.
Qed.

Lemma adc_loop_ext f g f' g' idx cnt c :
  (forall i, (idx <= i < idx + cnt)%nat -> f i = f' i /\ g i = g' i) ->
  adc_loop f g idx cnt c = adc_loop f' g' idx cnt c.
Proof.
  revert idx c. induction cnt as [|n IH]; intros idx c H; simpl; [done|].
  destruct (H idx) as [-> ->]; [lia|]. destruct (add_with_carry _ _ c) as [s c'].
  rewrite (IH (S idx)); [done|]. intros. apply H. lia.
Qed.

Lemma adc_loop_app f g idx n m c :
  adc_loop f g idx (n + m) c =
  let '(lo, c) := adc_loop f g idx n c in
  let '(hi, c) := adc_loop f g (idx + n) m c in (lo ++ hi, c).
Proof.
  revert idx c. induction n as [|n IH]; intros idx c; simpl.
  - rewrite Nat.add_0_r. by destruct (adc_loop f g idx m c).
  - destruct (add_with_carry _ _ c) as [s c']. rewrite IH.
    destruct (adc_loop f g (S idx) n c') as [lo c'']. rewrite Nat.add_succ_comm.
    by destruct (adc_loop f g (idx + S n) m c'').
Qed.

Lemma adc_loop_spec f g idx cnt c :
  (forall i, (idx <= i < idx + cnt)%nat -> bdefined (f i) /\ bdefined (g i)) -> bdefined c ->
  let '(ss, c') := adc_loop f g idx cnt c in
  defined ss /\ bdefined c' /\ length ss = cnt /\
  uval ss + pow2 cnt * bz c' = fval f idx cnt + fval g idx cnt + bz c.
Proof.
  revert idx c. induction cnt as [|n IH]; intros idx c H Hc; simpl.
  - rewrite pow2_0. split_and!; auto. simpl. lia.
  - destruct (H idx) as [Hf Hg]; [lia|].
    pose proof (V_add_with_carry_spec _ _ _ Hf Hg Hc) as Hs.
    destruct (add_with_carry _ _ c) as [s c']. destruct Hs as (Hs & Hc' & E).
    specialize (IH (S idx) c'). destruct (adc_loop f g (S idx) n c') as [ss c''].
    destruct IH as (Hd & Hc'' & Hl & E'); [intros; apply H; lia|done|].
    split_and!; simpl; auto. cbn [uval]. rewrite pow2_S. lia.
Qed.

Lemma fval_shift f idx cnt : fval f (S idx) cnt = fval (fun i => f (S i)) idx cnt.
Proof. revert idx. induction cnt as [|n IH]; intros idx; simpl; [done|]. by rewrite IH. Qed.

(** A list of bits read with a padding bit beyond its end, as the loops do. *)
Definition extf (f : nat -> V) (n : nat) (pad : V) (i : nat) : V :=
  if (i <? n)%nat then f i else pad.

Lemma fval_const d k n : fval (fun _ => d) k n = uval (replicate n d).
Proof. revert k. induction n as [|n IH]; intros k; [done|]. simpl. by rewrite IH. Qed.

Lemma fval_list f bs d n :
  (forall i, (i < length bs)%nat -> f i = nth i bs d) ->
  fval (extf f (length bs) d) 0 n = uval (take n (bs ++ replicate n d)).
Proof.
  revert f bs. induction n as [|n IH]; intros f bs H; [done|].
  simpl fval. rewrite fval_shift. destruct bs as [|b bs].
  - rewrite (fval_ext _ (fun _ => d)) by (intros []; done).
    rewrite fval_const. simpl. by rewrite take_ge by (rewrite length_replicate; lia).
  - rewrite (fval_ext _ (extf (fun i => f (S i)) (length bs) d)) by (intros []; done).
    rewrite IH by (intros i Hi; rewrite H; simpl; [done|lia]).
    unfold extf at 1. simpl Nat.ltb. cbv iota. rewrite (H 0%nat) by (simpl; lia).
    simpl. f_equal. f_equal. f_equal.
    rewrite replicate_cons_app, app_assoc, (take_app_le (bs ++ _)); [done|].
    rewrite length_app, length_replicate. lia.
Qed.

Definition extb (v : verinum) : nat -> V := extf (bit v) (len v) (sgn v).

Lemma fval_extb v n : fval (extb v) 0 n = to_Z v mod pow2 n.
Proof.
  rewrite <- uval_ext. apply fval_list. intros i Hi. symmetry. by apply nth_indep.
Qed.

Lemma extb_defined v i : defined (bits_ v) -> bdefined (extb v i).
Proof.
  intros H. unfold extb, extf. case_cmp; [|by apply sgn_defined].
  rewrite <- nth_bit by done. apply defined_nth; auto.
Qed.

Lemma V_not_defined b : bdefined b -> bdefined (V_not b).
Proof. intros [-> | ->]; simpl; auto. Qed.

Lemma bz_not b : bdefined b -> bz (V_not b) = 1 - bz b.
Proof. by intros [-> | ->]. Qed.

Lemma fval_not f n :
  (forall i, bdefined (f i)) -> fval (fun i => V_not (f i)) 0 n = pow2 n - 1 - fval f 0 n.
Proof.
  intros H. generalize 0%nat. induction n as [|n IH]; intros k; simpl; [done|].
  rewrite IH, bz_not, pow2_S by done. lia.
Qed.

(** The two successive loops of addition and subtraction are one loop over the
    padded operands. *)
Lemma adc_two_phase f g nl nr lpad rpad c :
  let '(lo, c1) := adc_loop f g 0 (nl `min` nr) c in
  let '(hi, c2) :=
    if (nr <? nl)%nat
    then adc_loop f (fun _ => rpad) (nl `min` nr) ((nl `max` nr) - (nl `min` nr)) c1
    else adc_loop (fun _ => lpad) g (nl `min` nr) ((nl `max` nr) - (nl `min` nr)) c1 in
  (lo ++ hi, c2) = adc_loop (extf f nl lpad) (extf g nr rpad) 0 (nl `max` nr) c.
Proof.
  assert (E : adc_loop (extf f nl lpad) (extf g nr rpad) 0 (nl `max` nr) c
    = adc_loop (extf f nl lpad) (extf g nr rpad) 0
        ((nl `min` nr) + (nl `max` nr - nl `min` nr)) c) by (f_equal; lia).
  rewrite E, adc_loop_app.
  rewrite (adc_loop_ext (extf f nl lpad) (extf g nr rpad) f g 0)
    by (intros i Hi; unfold extf; repeat case_cmp; (done || lia)).
  destruct (adc_loop f g 0 _ c) as [lo c1]. simpl Nat.add.
  case_cmp.
  - rewrite (adc_loop_ext (extf f nl lpad) (extf g nr rpad) f (fun _ => rpad))
      by (intros i Hi; unfold extf; repeat case_cmp; (done || lia)).
    by destruct (adc_loop f _ _ _ c1).
  - rewrite (adc_loop_ext (extf f nl lpad) (extf g nr rpad) (fun _ => lpad) g)
      by (intros i Hi; unfold extf; repeat case_cmp; (done || lia)).
    by destruct (adc_loop _ g _ _ c1).
Qed.

(** * A generic adder

    [f] and [g] supply the operand bits, [c] the first carry, and [T] is the
    integer they sum to modulo every power of two. *)

Section Adder.
Context (f g : nat -> V) (c : V) (T : Z).
Hypothesis f_defined : forall i, bdefined (f i).
Hypothesis g_defined : forall i, bdefined (g i).
Hypothesis c_defined : bdefined c.
Hypothesis sum_T : forall m, (fval f 0 m + fval g 0 m + bz c) mod pow2 m = T mod pow2 m.

Definition adder (m : nat) : list V := fst (adc_loop f g 0 m c).

Lemma adder_spec m :
  defined (adder m) /\ length (adder m) = m /\ uval (adder m) = T mod pow2 m.
Proof.
  pose proof (adc_loop_spec f g 0 m c) as H. unfold adder.
  destruct (adc_loop f g 0 m c) as [ss c'].
  destruct H as (Hd & _ & Hl & E); [by auto|done|]. split_and!; [done|done|].
  simpl. rewrite <- sum_T, <- E.
  rewrite (Z.mul_comm (pow2 m)), Z.mod_add by (pose proof (pow2_pos m); lia).
  symmetry. apply Z.mod_small. rewrite <- Hl. apply uval_bound.
Qed.

Lemma adder_S m :
  adder (S m) = adder m ++ [fst (add_with_carry (f m) (g m) (snd (adc_loop f g 0 m c)))].
Proof.
  unfold adder. replace (S m) with (m + 1)%nat by lia. rewrite adc_loop_app.
  destruct (adc_loop f g 0 m c) as [lo c']. simpl.
  by destruct (add_with_carry (f m) (g m) c').
Qed.

(** Keeping the extra bit only when it differs from the top bit is exact. *)
Lemma adder_grow_signed m :
  (0 < m)%nat -> - pow2 m <= T < pow2 m ->
  let top := fst (add_with_carry (f m) (g m) (snd (adc_loop f g 0 m c))) in
  let bs := if negb (V_eqb top (nth (m - 1) (adder m) Vx)) then adder m ++ [top] else adder m in
  defined bs /\ (0 < length bs)%nat /\ sval bs = T.
Proof.
  intros Hm HT top bs.
  destruct (adder_spec m) as (Hd & Hl & _).
  destruct (adder_spec (S m)) as (Hd1 & Hl1 & E1).
  assert (ES : sval (adder (S m)) = T).
  { apply sval_residue; rewrite Hl1; [lia|done|]. replace (S m - 1)%nat with m by lia. done. }
  rewrite adder_S in *. fold top in ES, Hd1, Hl1. unfold bs.
  destruct (V_eqb top (nth (m - 1) (adder m) Vx)) eqn:Et; simpl.
  - apply V_eqb_eq in Et. split_and!; [done|lia|]. rewrite <- ES, Et.
    rewrite (nth_indep (adder m) Vx V0) by lia.
    pose proof (sval_snoc_top (adder m)) as Hs. rewrite Hl in Hs. symmetry. by apply Hs.
  - split_and!; [done| |done]. rewrite length_app. simpl. lia.
Qed.

(** Keeping the extra bit only when it is set loses nothing. *)
Lemma adder_grow_unsigned m :
  let top := fst (add_with_carry (f m) (g m) (snd (adc_loop f g 0 m c))) in
  let bs := if negb (V_eqb top V0) then adder m ++ [top] else adder m in
  defined bs /\ (m <= length bs)%nat /\ uval bs = T mod pow2 (S m).
Proof.
  intros top bs.
  destruct (adder_spec m) as (Hd & Hl & _).
  destruct (adder_spec (S m)) as (Hd1 & Hl1 & E1).
  rewrite adder_S in *. fold top in E1, Hd1, Hl1. unfold bs.
  destruct (V_eqb top V0) eqn:Et; simpl.
  - apply V_eqb_eq in Et. split_and!; [done|lia|]. rewrite <- E1, Et, uval_app.
    cbn [uval]. rewrite bz_V0. lia.
  - split_and!; [done|rewrite length_app; lia|done].
Qed.
End Adder.

(** The operands of addition and subtraction as index functions. *)
Lemma sum_T_add l r m :
  (fval (extb l) 0 m + fval (extb r) 0 m + bz V0) mod pow2 m = (to_Z l + to_Z r) mod pow2 m.
Proof. rewrite !fval_extb, bz_V0, Z.add_0_r. symmetry. apply Zplus_mod. Qed.

Lemma sum_T_sub l r m :
  defined (bits_ r) ->
  (fval (extb l) 0 m + fval (fun i => V_not (extb r i)) 0 m + bz V1) mod pow2 m
  = (to_Z l - to_Z r) mod pow2 m.
Proof.
  intros Hr. rewrite fval_not by (intros; by apply extb_defined).
  rewrite !fval_extb, bz_V1. pose proof (pow2_pos m).
  replace (to_Z l mod pow2 m + (pow2 m - 1 - to_Z r mod pow2 m) + 1)
    with (to_Z l mod pow2 m - to_Z r mod pow2 m + 1 * pow2 m) by lia.
  rewrite Z.mod_add by lia. symmetry. apply Zminus_mod.
Qed.

Lemma extb_high v i : (len v <= i)%nat -> extb v i = sgn v.
Proof. intros. unfold extb, extf. case_cmp; [lia|done]. Qed.

Lemma wf_num_is_defined v : wf_num v -> is_defined v = true.
Proof. intros [H _]. by apply is_defined_spec. Qed.

(** What an addition-like operator promises: the flags of the result and its value,
    modulo the width when both operands are sized, exactly when they are not. *)
Record adds_to (l r v : verinum) (T : Z) : Prop := {
  at_defined : defined (bits_ v);
  at_has_len : has_len v = has_len l && has_len r;
  at_has_sign : has_sign v = has_sign l && has_sign r;
  at_sized : has_len v = true ->
    len v = (len l `max` len r)%nat /\ uval (bits_ v) = T mod pow2 (len v);
  at_signed : has_len v = false -> has_sign v = true -> to_Z v = T }.

Lemma to_Z_within l m :
  (0 < len l)%nat -> (len l <= m)%nat ->
  (has_sign l = true -> - pow2 (m - 1) <= to_Z l < pow2 (m - 1)) /\
  - pow2 (m - 1) <= to_Z l < pow2 m.
Proof.
  intros Hl Hm. destruct (to_Z_range l Hl) as [H1 H2].
  pose proof (pow2_le (len l - 1) (m - 1)). pose proof (pow2_le (len l) m).
  pose proof (pow2_half m). pose proof (pow2_pos (m - 1)).
  destruct (has_sign l); split; intros; try done; lia.
Qed.

Lemma extf_not f n p i : extf (fun i => V_not (f i)) n (V_not p) i = V_not (extf f n p i).
Proof. unfold extf. by case_cmp. Qed.

(** * Addition *)

Lemma vadd_unfold l r :
  wf_num l -> wf_num r ->
  let m := (len l `max` len r)%nat in
  let hl := has_len l && has_len r in
  let sg := has_sign l && has_sign r in
  let val_bits := adder (extb l) (extb r) V0 m in
  let top := fst (add_with_carry (extb l m) (extb r m) (snd (adc_loop (extb l) (extb r) 0 m V0))) in
  vadd l r = Some (set_has_sign sg (verinum_of_bits
    (if hl then val_bits
     else if sg
       then if negb (V_eqb top (nth (m - 1) val_bits Vx)) then val_bits ++ [top] else val_bits
       else if negb (V_eqb top V0) then val_bits ++ [top] else val_bits) hl)).
Proof.
  intros Hl Hr m hl sg val_bits top. unfold vadd.
  rewrite !wf_num_is_defined by done. simpl negb. cbv iota.
  fold m hl sg. rewrite !sign_bit_sgn by apply Hr || apply Hl. simpl.
  pose proof (adc_two_phase (bit l) (bit r) (len l) (len r) (sgn l) (sgn r) V0) as HE.
  fold m (extb l) (extb r) in HE. unfold top, val_bits, adder.
  rewrite !extb_high by (unfold m; lia).
  change (λ _, sgn r) with (fun _ : nat => sgn r).
  destruct (adc_loop (bit l) (bit r) 0 (len l `min` len r) V0) as [lo c1].
  destruct (if (len r <? len l)%nat then _ else _) as [hi c2].
  rewrite <- HE. simpl.
  destruct hl, sg; simpl; try done; by destruct (V_eqb _ _).
Qed.

Lemma vadd_spec l r :
  wf_num l -> wf_num r ->
  exists v, vadd l r = Some v /\ adds_to l r v (to_Z l + to_Z r) /\
    (0 < len v)%nat /\
    (has_len v = false -> has_sign v = false ->
     uval (bits_ v) = (to_Z l + to_Z r) mod pow2 (S (len l `max` len r))).
Proof.
  intros Hl Hr. rewrite vadd_unfold by done.
  set (m := (len l `max` len r)%nat).
  assert (Hm : (0 < m)%nat) by (destruct Hl, Hr; unfold m; lia).
  assert (Hdl : forall i, bdefined (extb l i)) by (intros; apply extb_defined, Hl).
  assert (Hdr : forall i, bdefined (extb r i)) by (intros; apply extb_defined, Hr).
  pose proof (adder_spec (extb l) (extb r) V0 _ Hdl Hdr (or_introl eq_refl) (sum_T_add l r)) as Ha.
  pose proof (adder_grow_signed (extb l) (extb r) V0 _ Hdl Hdr (or_introl eq_refl) (sum_T_add l r) m Hm) as Hs.
  pose proof (adder_grow_unsigned (extb l) (extb r) V0 _ Hdl Hdr (or_introl eq_refl) (sum_T_add l r) m) as Hu.
  cbv zeta in Hs, Hu.
  eexists. split; [reflexivity|].
  destruct (has_len l && has_len r) eqn:El; simpl in *.
  - destruct (Ha m) as (H1 & H2 & H3).
    split_and!; [constructor; simpl; rewrite ?El; auto| |done]; unfold len; simpl; rewrite ?H2; done.
  - destruct (has_sign l && has_sign r) eqn:Es.
    + destruct Hs as (H1 & H2 & H3).
      { apply andb_prop in Es as [Esl Esr].
        pose proof (to_Z_within l m) as [Wl _]; [apply Hl|unfold m; lia|].
        pose proof (to_Z_within r m) as [Wr _]; [apply Hr|unfold m; lia|].
        specialize (Wl Esl). specialize (Wr Esr). rewrite (pow2_half m) by done. lia. }
      split_and!; [constructor; simpl; rewrite ?El, ?Es; auto; done|done|done].
    + destruct Hu as (H1 & H2 & H3).
      split_and!; [constructor; simpl; rewrite ?El, ?Es; auto; done| |done].
      unfold len; simpl. lia.
Qed.

(** * Subtraction and negation *)

(** The negated operand bits of the subtraction loops. *)
Definition notb (r : verinum) (i : nat) : V := V_not (extb r i).

Lemma notb_defined r i : defined (bits_ r) -> bdefined (notb r i).
Proof. intros. by apply V_not_defined, extb_defined. Qed.

Lemma vsub_unfold l r :
  wf_num l -> wf_num r ->
  let m := (len l `max` len r)%nat in
  let hl := has_len l && has_len r in
  let sg := has_sign l && has_sign r in
  let val_bits := adder (extb l) (notb r) V1 m in
  let top := fst (add_with_carry (extb l m) (notb r m) (snd (adc_loop (extb l) (notb r) 0 m V1))) in
  vsub l r = Some (set_has_sign sg (verinum_of_bits
    (if sg && negb hl
     then if negb (V_eqb top (nth (m - 1) val_bits Vx)) then val_bits ++ [top] else val_bits
     else val_bits) hl)).
Proof.
  intros Hl Hr m hl sg val_bits top. unfold vsub.
  rewrite !wf_num_is_defined by done. simpl negb. cbv iota.
  fold m hl sg. rewrite !sign_bit_sgn by apply Hr || apply Hl. simpl.
  pose proof (adc_two_phase (bit l) (fun i => V_not (bit r i)) (len l) (len r) (sgn l) (V_not (sgn r)) V1) as HE.
  fold m (extb l) in HE. unfold top, val_bits, adder.
  rewrite (adc_loop_ext (extb l) (extf (fun i => V_not (bit r i)) (len r) (V_not (sgn r))) (extb l) (notb r)) in HE
    by (intros i Hi; split; [reflexivity|exact (extf_not (bit r) (len r) (sgn r) i)]).
  assert (EN : notb r m = V_not (sgn r))
    by (unfold notb; rewrite extb_high; [done|unfold m; lia]).
  rewrite EN, !extb_high by (unfold m; lia).
  destruct (adc_loop (bit l) _ 0 (len l `min` len r) V1) as [lo c1].
  destruct (if (len r <? len l)%nat then _ else _) as [hi c2].
  rewrite <- HE. simpl.
  destruct (sg && negb hl); simpl; try done; by destruct (V_eqb _ _).
Qed.

Lemma vsub_spec l r :
  wf_num l -> wf_num r ->
  exists v, vsub l r = Some v /\ adds_to l r v (to_Z l - to_Z r) /\ (0 < len v)%nat /\
    (has_sign v = false ->
     len v = (len l `max` len r)%nat /\
     uval (bits_ v) = (to_Z l - to_Z r) mod pow2 (len l `max` len r)).
Proof.
  intros Hl Hr. rewrite vsub_unfold by done.
  set (m := (len l `max` len r)%nat).
  assert (Hm : (0 < m)%nat) by (destruct Hl, Hr; unfold m; lia).
  assert (Hdl : forall i, bdefined (extb l i)) by (intros; apply extb_defined, Hl).
  assert (Hdr : forall i, bdefined (notb r i)) by (intros; apply notb_defined, Hr).
  assert (HT : forall m, (fval (extb l) 0 m + fval (notb r) 0 m + bz V1) mod pow2 m
                         = (to_Z l - to_Z r) mod pow2 m) by (intros; apply sum_T_sub, Hr).
  pose proof (adder_spec (extb l) (notb r) V1 _ Hdl Hdr (or_intror eq_refl) HT m) as (H1 & H2 & H3).
  pose proof (adder_grow_signed (extb l) (notb r) V1 _ Hdl Hdr (or_intror eq_refl) HT m Hm) as Hs.
  cbv zeta in Hs.
  eexists. split; [reflexivity|].
  destruct (has_sign l && has_sign r) eqn:Es, (has_len l && has_len r) eqn:El; simpl.
  2:{ destruct Hs as (G1 & G2 & G3).
      { apply andb_prop in Es as [Esl Esr].
        pose proof (to_Z_within l m) as [Wl _]; [apply Hl|unfold m; lia|].
        pose proof (to_Z_within r m) as [Wr _]; [apply Hr|unfold m; lia|].
        specialize (Wl Esl). specialize (Wr Esr). rewrite (pow2_half m) by done. lia. }
      split_and!; [constructor; simpl; rewrite ?El, ?Es; auto; done|done|done]. }
  all: split_and!; [constructor; simpl; rewrite ?El, ?Es; auto|unfold len; simpl; lia|];
    unfold len; simpl; rewrite ?H2; auto; done.
Qed.

Lemma vneg_spec r :
  wf_num r ->
  exists v, vneg r = Some v /\ defined (bits_ v) /\ has_len v = has_len r /\
    has_sign v = has_sign r /\ (0 < len v)%nat /\
    (has_len r = true \/ has_sign r = false ->
     len v = len r /\ uval (bits_ v) = (- to_Z r) mod pow2 (len r)) /\
    (has_len r = false -> has_sign r = true -> to_Z v = - to_Z r).
Proof.
  intros Hr. unfold vneg. rewrite wf_num_is_defined by done. simpl.
  set (zero := fun _ : nat => V0). set (m := len r).
  assert (Hdl : forall i, bdefined (zero i)) by (by left).
  assert (Hdr : forall i, bdefined (notb r i)) by (intros; apply notb_defined, Hr).
  assert (HT : forall m, (fval zero 0 m + fval (notb r) 0 m + bz V1) mod pow2 m
                         = (- to_Z r) mod pow2 m).
  { intros k. pose proof (sum_T_sub (verinum_of_bits [] true) r k (proj1 Hr)) as E.
    rewrite fval_extb in E. change (to_Z (verinum_of_bits [] true)) with 0 in E.
    rewrite Z.mod_0_l in E by (pose proof (pow2_pos k); lia).
    unfold zero. rewrite fval_const, uval_replicate_0. exact E. }
  assert (Hm : (0 < m)%nat) by apply Hr.
  pose proof (adder_spec zero (notb r) V1 _ Hdl Hdr (or_intror eq_refl) HT m) as (H1 & H2 & H3).
  pose proof (adder_grow_signed zero (notb r) V1 _ Hdl Hdr (or_intror eq_refl) HT m Hm) as Hs.
  cbv zeta in Hs. unfold adder in *.
  assert (EN : notb r m = V_not (sgn r)) by (unfold notb; by rewrite extb_high).
  rewrite EN in Hs.
  rewrite (adc_loop_ext zero (fun i => V_not (bit r i)) zero (notb r) 0 m)
    by (intros i Hi; unfold notb, extb, extf; fold m; case_cmp; (done || lia)).
  rewrite sign_bit_sgn by apply Hr.
  destruct (adc_loop zero (notb r) 0 m V1) as [bs c]. simpl in *.
  destruct (has_sign r) eqn:Es, (has_len r) eqn:El; simpl.
  2:{ destruct Hs as (G1 & G2 & G3).
      { pose proof (to_Z_within r m) as [W _]; [apply Hr|unfold m; lia|].
        specialize (W Es). rewrite (pow2_half m) by done. pose proof (pow2_pos (m - 1)). lia. }
      eexists. split; [reflexivity|]. split_and!; try done. by intros [|]. }
  all: eexists; split; [reflexivity|]; unfold len; simpl; rewrite ?H2; split_and!; done || lia.
Qed.

(** * Multiplication *)

Lemma fval_snoc f idx n : fval f idx (S n) = fval f idx n + pow2 n * bz (f (idx + n)%nat).
Proof.
  revert idx. induction n as [|n IH]; intros idx.
  - simpl. rewrite pow2_0, Nat.add_0_r. lia.
  - change (fval f idx (S (S n))) with (bz (f idx) + 2 * fval f (S idx) (S n)).
    rewrite IH, pow2_S. simpl fval. rewrite Nat.add_succ_comm. lia.
Qed.

Lemma fval_drop bs k n :
  (k + n = length bs)%nat -> fval (fun i => nth (k + i) bs Vx) 0 n = uval (drop k bs).
Proof.
  intros H. rewrite (fval_ext _ (extf (fun i => nth i (drop k bs) V0) (length (drop k bs)) V0)).
  - rewrite fval_list by done. rewrite take_app_length' by (rewrite length_drop; lia). done.
  - intros i Hi. unfold extf. rewrite length_drop. case_cmp; [|lia].
    rewrite !nth_lookup, lookup_drop.
    destruct (nth_lookup_or_length bs (k + i) V0) as [->|]; [done|lia].
Qed.

Lemma mul_row_spec l rdx result :
  wf_num l -> defined result -> (rdx <= length result)%nat ->
  let row := mul_row l (sgn l) rdx result in
  defined row /\ length row = length result /\
  uval row = (uval result + pow2 rdx * to_Z l) mod pow2 (length result).
Proof.
  intros Hl Hd Hr row. unfold row, mul_row. fold (extf (bit l) (len l) (sgn l)). fold (extb l).
  set (n := (length result - rdx)%nat).
  pose proof (adc_loop_spec (extb l) (fun i => nth (rdx + i) result Vx) 0 n V0) as HA.
  destruct (adc_loop _ _ 0 n V0) as [ss c].
  destruct HA as (H1 & H2 & H3 & H4); [|by left|].
  { intros i Hi. split; [apply extb_defined, Hl|]. rewrite (nth_indep _ Vx V0) by (unfold n in *; lia).
    apply defined_nth; auto. }
  rewrite fval_extb, fval_drop, bz_V0, Z.add_0_r in H4 by (unfold n; lia). simpl fst.
  assert (HL : length (take rdx result ++ ss) = length result)
    by (rewrite length_app, length_take; unfold n in *; lia).
  split_and!; [apply Forall_app; split; [by apply Forall_take|done]|done|].
  rewrite <- HL.
  assert (EQ : uval (take rdx result ++ ss) = uval (take rdx result) + pow2 rdx * uval ss).
  { rewrite uval_app, length_take, Nat.min_l by done. done. }
  rewrite <- (Z.mod_small (uval (take rdx result ++ ss)) (pow2 (length (take rdx result ++ ss))))
    by apply uval_bound.
  rewrite HL, EQ. rewrite <- (take_drop rdx result) at 3.
  rewrite uval_app, length_take, Nat.min_l by done.
  pose proof (pow2_pos n). pose proof (pow2_pos rdx).
  replace (length result) with (rdx + n)%nat by (unfold n; lia). rewrite pow2_add.
  assert (E5 : uval ss = to_Z l mod pow2 n + uval (drop rdx result) - pow2 n * bz c) by lia.
  rewrite E5, (Zmod_eq_full (to_Z l)) by lia.
  rewrite <- (Z.mod_add (_ + pow2 rdx * _) (bz c + to_Z l / pow2 n)) by nia.
  f_equal. ring.
Qed.

Lemma mul_loop_spec l r rdx cnt result :
  wf_num l -> wf_num r -> defined result -> (rdx + cnt = length result)%nat ->
  uval result = (to_Z l * fval (extb r) 0 rdx) mod pow2 (length result) ->
  exists res, mul_loop l r (sgn r) rdx cnt result = Some res /\
    defined res /\ length res = length result /\
    uval res = (to_Z l * to_Z r) mod pow2 (length result).
Proof.
  intros Hl Hr. revert rdx result. induction cnt as [|n IH]; intros rdx result Hd Hn HU; simpl.
  - exists result. split_and!; try done. rewrite HU, fval_extb.
    replace (length result) with rdx by lia.
    by rewrite Zmult_mod_idemp_r.
  - change (if (rdx <? len r)%nat then bit r rdx else sgn r) with (extb r rdx).
    destruct (extb_defined r rdx (proj1 Hr)) as [E|E]; rewrite E; simpl.
    + apply IH; [done|lia|]. rewrite HU, fval_snoc. simpl Nat.add. rewrite E, bz_V0.
      f_equal. ring.
    + rewrite sign_bit_sgn by apply Hl. simpl.
      destruct (mul_row_spec l rdx result Hl Hd) as (R1 & R2 & R3); [lia|].
      rewrite <- R2. apply IH; [done|lia|]. rewrite R3, R2, HU, fval_snoc. simpl Nat.add.
      rewrite E, bz_V1, Zplus_mod_idemp_l. f_equal. ring.
Qed.

Lemma vmul_spec l r :
  wf_num l -> wf_num r ->
  exists v, vmul l r = Some v /\ wf_num v /\
    has_len v = has_len l && has_len r /\ has_sign v = has_sign l && has_sign r /\
    (has_len v = true ->
     len v = (len l `max` len r)%nat /\ uval (bits_ v) = (to_Z l * to_Z r) mod pow2 (len v)) /\
    (has_len v = false -> has_sign l = has_sign r -> to_Z v = to_Z l * to_Z r).
Proof.
  intros Hl Hr. unfold vmul. rewrite !wf_num_is_defined by done. simpl.
  rewrite sign_bit_sgn by apply Hr. simpl.
  set (n := if has_len l && has_len r then _ else _).
  assert (Hn : (0 < n)%nat) by (unfold n; destruct Hl, Hr, (has_len l && has_len r); lia).
  destruct (mul_loop_spec l r 0 n (replicate n V0)) as (res & E & R1 & R2 & R3);
    try done; rewrite ?length_replicate in *; try done.
  { apply defined_replicate. by left. }
  { rewrite uval_replicate_0. simpl. rewrite Z.mul_0_r, Z.mod_0_l; [done|].
    pose proof (pow2_pos n). lia. }
  rewrite E. simpl. set (v := set_has_sign _ _).
  assert (Wv : wf_num v) by (split; simpl; [done|unfold len; simpl; lia]).
  destruct (trim_vnum_spec v Wv) as (T1 & T2 & T3 & T4 & T5).
  eexists. split; [reflexivity|]. rewrite T3, T4. split_and!; try done.
  - intros HL. rewrite T5 by done. unfold len; simpl. rewrite R2, R3. unfold n.
    simpl in HL. by rewrite HL.
  - simpl. intros HL HS. rewrite T2.
    assert (En : n = (len l + len r)%nat) by (unfold n; by rewrite HL).
    destruct Hl as [_ Hl], Hr as [_ Hr].
    destruct (to_Z_range l Hl) as [BL1 BL2], (to_Z_range r Hr) as [BR1 BR2].
    pose proof (pow2_half _ Hl). pose proof (pow2_half _ Hr).
    pose proof (pow2_pos (len l - 1)). pose proof (pow2_pos (len r - 1)).
    assert (HV : has_sign v = has_sign r) by (simpl; rewrite HS; apply andb_diag).
    destruct (has_sign r) eqn:ES; rewrite HS in *.
    + rewrite to_Z_signed by done. simpl. apply sval_residue; rewrite R2; [done|done|].
      specialize (BL1 eq_refl). specialize (BR1 eq_refl). rewrite En.
      replace (len l + len r - 1)%nat with (S ((len l - 1) + (len r - 1))) by lia.
      rewrite pow2_S, pow2_add. nia.
    + rewrite to_Z_unsigned by done. simpl. rewrite R3. apply Z.mod_small.
      specialize (BL2 eq_refl). specialize (BR2 eq_refl). rewrite En, pow2_add. nia.
Qed.

(** * Shifts *)

Lemma vshl_spec v k :
  wf_num v -> (0 < len v)%nat ->
  let r := vshl v k in
  wf_num r /\ has_len r = has_len v /\ has_sign r = has_sign v /\
  (has_len v = true -> len r = len v /\ uval (bits_ r) = (to_Z v * pow2 k) mod pow2 (len v)) /\
  (has_len v = false -> to_Z r = to_Z v * pow2 k).
Proof.
  intros Hv Hl. unfold vshl. cbv zeta.
  set (n := if has_len v then len v else _).
  set (w := set_has_sign _ _).
  assert (Ln : length (take n (replicate k V0 ++ bits_ v)) = n).
  { rewrite length_take, length_app, length_replicate. unfold n, len. destruct (has_len v); lia. }
  assert (Ww : wf_num w).
  { split; simpl.
    - apply Forall_take, Forall_app. split; [apply defined_replicate; by left|apply Hv].
    - unfold len. simpl. rewrite Ln. unfold n. destruct (has_len v); lia. }
  destruct (trim_vnum_spec w Ww) as (T1 & T2 & T3 & T4 & T5).
  rewrite T2, T3, T4. simpl. split_and!; try done.
  - intros HL. rewrite T5 by done. unfold len at 1. simpl. rewrite Ln.
    unfold n. rewrite HL. split; [done|].
    rewrite uval_take, uval_app, uval_replicate_0, length_replicate.
    rewrite <- to_Z_mod, Z.add_0_l, Zmult_mod_idemp_r. f_equal. lia.
  - intros HL. unfold to_Z, sgn, len. simpl. rewrite Ln.
    unfold n. rewrite HL, take_ge by (rewrite length_app, length_replicate; unfold len; lia).
    rewrite uval_app, uval_replicate_0, length_replicate. unfold len in *.
    replace (length (bits_ v) + k - 1)%nat with (k + (length (bits_ v) - 1))%nat by lia.
    rewrite app_nth2 by (rewrite length_replicate; lia). rewrite length_replicate.
    replace (k + (length (bits_ v) - 1) - k)%nat with (length (bits_ v) - 1)%nat by lia.
    rewrite pow2_add. ring.
Qed.

Lemma sval_drop bs k :
  (k < length bs)%nat -> sval (drop k bs) = sval bs / pow2 k.
Proof.
  intros Hk. unfold sval. rewrite uval_drop, length_drop. pose proof (pow2_pos k).
  rewrite !nth_lookup, lookup_drop.
  replace (k + (length bs - k - 1))%nat with (length bs - 1)%nat by lia.
  replace (length bs) with (k + (length bs - k))%nat at 4 by lia. rewrite pow2_add.
  set (b := bz _).
  replace (uval bs - b * (pow2 k * pow2 (length bs - k)))
    with (uval bs + - (b * pow2 (length bs - k)) * pow2 k) by ring.
  rewrite Z.div_add by lia. lia.
Qed.

Lemma sval_replicate b n : (0 < n)%nat -> sval (replicate n b) = - bz b.
Proof.
  intros Hn. unfold sval. rewrite uval_replicate, length_replicate, nth_lookup, lookup_replicate_2 by lia.
  simpl. lia.
Qed.

Lemma to_Z_neg_bound v : wf_num v -> - pow2 (len v) <= to_Z v < pow2 (len v).
Proof.
  intros [_ Hl]. unfold to_Z. pose proof (uval_bound (bits_ v)). pose proof (bz_range (sgn v)).
  unfold len. nia.
Qed.

(** A right shift is the floor division by the power of two, arithmetic for a
    signed value and logical for an unsigned one. *)
Lemma vshr_spec v k :
  wf_num v ->
  exists r, vshr v k = Some r /\ wf_num r /\ has_len r = has_len v /\ has_sign r = has_sign v /\
    (has_len v = true -> len r = len v) /\ to_Z r = to_Z v / pow2 k.
Proof.
  intros Hv. destruct (Hv) as [Hd Hl]. unfold vshr. rewrite sign_bit_sgn by done. simpl.
  pose proof (sgn_defined v Hd) as Hs.
  destruct (Nat.leb_spec (len v) k).
  - set (n := if has_len v then _ else _).
    assert (Hn : (0 < n)%nat) by (unfold n; destruct (has_len v); lia).
    eexists. split; [reflexivity|]. split_and!; try done.
    + split; simpl; [by apply defined_replicate|]. unfold len. simpl. by rewrite length_replicate.
    + intros HL. unfold len, n. simpl. by rewrite length_replicate, HL.
    + transitivity (- bz (sgn v)).
      * destruct (has_sign v) eqn:ES.
        -- rewrite to_Z_signed by done. simpl. by apply sval_replicate.
        -- rewrite to_Z_unsigned by done. simpl. unfold sgn. rewrite ES.
           apply uval_replicate_0.
      * pose proof (pow2_le (len v) k). pose proof (uval_bound (bits_ v)). unfold len in *.
        unfold to_Z, len. destruct Hs as [-> | ->]; rewrite ?bz_V0, ?bz_V1.
        -- symmetry. apply Z.div_small. lia.
        -- apply Z.div_unique with (uval (bits_ v) - pow2 (length (bits_ v)) + pow2 k); lia.
  - set (w := set_has_sign _ _).
    set (n := if has_len v then _ else _) in *.
    assert (Ww : wf_num w).
    { split; simpl.
      - apply Forall_app. split; [by apply Forall_drop|by apply defined_replicate].
      - unfold len in *. simpl. rewrite length_app, length_drop. lia. }
    destruct (trim_vnum_spec w Ww) as (T1 & T2 & T3 & T4 & T5).
    eexists. split; [reflexivity|]. rewrite T2, T3, T4. split_and!; try done.
    + intros HL. rewrite T5 by done. unfold len, n in *. simpl.
      rewrite length_app, length_drop, length_replicate, HL. unfold len. lia.
    + destruct (has_sign v) eqn:ES.
      * rewrite !to_Z_signed by done. simpl. rewrite <- sval_drop by done.
        apply sval_replicate_top; rewrite length_drop; unfold len in *; [lia|].
        rewrite nth_lookup, lookup_drop. unfold sgn. rewrite ES, nth_lookup. do 2 f_equal.
        unfold len. lia.
      * rewrite !to_Z_unsigned by done. simpl. rewrite <- uval_drop. unfold sgn. rewrite ES.
        rewrite uval_app, uval_replicate_0. lia.
Qed.

(** * Comparisons *)

(** The integers compared: signed when both operands are, unsigned otherwise. *)
Definition cmp_val (both_signed : bool) (v : verinum) : Z :=
  if both_signed then to_Z v else uval (bits_ v).

Lemma fval_bound f idx n : 0 <= fval f idx n < pow2 n.
Proof.
  revert idx. induction n as [|n IH]; intros idx; simpl; [rewrite pow2_0; lia|].
  rewrite pow2_S. specialize (IH (S idx)). pose proof (bz_range (f idx)). lia.
Qed.

Lemma eq_loop_spec l r lpad rpad idx cnt :
  wf_num l -> wf_num r -> bdefined lpad -> bdefined rpad ->
  eq_loop l r lpad rpad idx cnt =
  (fval (extf (bit l) (len l) lpad) idx cnt =? fval (extf (bit r) (len r) rpad) idx cnt).
Proof.
  intros [Hl _] [Hr _] Hlp Hrp. revert idx. induction cnt as [|n IH]; intros idx; [done|].
  cbn [eq_loop fval]. rewrite IH.
  change (if (idx <? len l)%nat then bit l idx else lpad) with (extf (bit l) (len l) lpad idx).
  change (if (idx <? len r)%nat then bit r idx else rpad) with (extf (bit r) (len r) rpad idx).
  assert (D : forall v p, defined (bits_ v) -> bdefined p -> bdefined (extf (bit v) (len v) p idx)).
  { intros v p Hv Hp. unfold extf. case_cmp; [|done]. rewrite <- nth_bit by done.
    apply defined_nth; auto. }
  generalize (fval (extf (bit l) (len l) lpad) (S idx) n).
  generalize (fval (extf (bit r) (len r) rpad) (S idx) n). intros x y.
  destruct (D l lpad Hl Hlp) as [-> | ->], (D r rpad Hr Hrp) as [-> | ->];
    simpl; rewrite ?bz_V0, ?bz_V1; repeat case_cmp; (done || lia).
Qed.

(** The padding bit each operand gets, and the value it is read with. *)
Lemma fval_pad v p n :
  (len v <= n)%nat ->
  fval (extf (bit v) (len v) p) 0 n mod pow2 n = (uval (bits_ v) - bz p * pow2 (len v)) mod pow2 n.
Proof.
  intros Hn. unfold len. rewrite (fval_list _ (bits_ v)) by (intros; symmetry; by apply nth_indep).
  rewrite uval_take, Z.mod_mod by (pose proof (pow2_pos n); lia).
  rewrite uval_app, uval_replicate. pose proof (pow2_pos n).
  rewrite <- (Z.mod_add (uval (bits_ v) - _) (bz p * pow2 (length (bits_ v)))) by lia.
  f_equal. ring.
Qed.

Lemma existsb_differs bs p :
  defined bs -> bdefined p -> existsb (fun b => negb (V_eqb b p)) (rev bs) = false ->
  bs = replicate (length bs) p.
Proof.
  intros Hd Hp E. apply list_eq. intros i.
  destruct (decide (i < length bs)%nat) as [Hi|Hi].
  - rewrite lookup_replicate_2 by done.
    destruct (nth_lookup_or_length bs i p) as [->|]; [|lia]. f_equal.
    destruct (V_eqb (nth i bs p) p) eqn:Eq; [by apply V_eqb_eq|].
    exfalso. enough (existsb (fun b => negb (V_eqb b p)) (rev bs) = true) by congruence.
    apply existsb_exists. exists (nth i bs p). split; [|by rewrite Eq].
    apply in_rev. rewrite rev_involutive. by apply nth_In.
  - rewrite (proj1 (lookup_replicate_None _ _ _)) by lia. apply lookup_ge_None. lia.
Qed.

(** When every bit above [k] is the padding, the low [k] bits give the value. *)
Lemma high_same v k p :
  defined (bits_ v) -> bdefined p -> high_differs v k p = false ->
  uval (bits_ v) - bz p * pow2 (len v)
  = uval (take k (bits_ v)) - bz p * pow2 (k `min` len v).
Proof.
  intros Hd Hp H. apply existsb_differs in H; [|by apply Forall_drop|done].
  rewrite <- (take_drop k (bits_ v)) at 1. rewrite H, uval_app, uval_replicate, length_drop, length_take.
  unfold len. destruct (Nat.le_gt_cases k (length (bits_ v))).
  - rewrite Nat.min_l by done.
    replace (length (bits_ v)) with (k + (length (bits_ v) - k))%nat at 2 by lia.
    rewrite pow2_add. ring.
  - rewrite Nat.min_r by lia. replace (length (bits_ v) - k)%nat with 0%nat by lia.
    rewrite pow2_0. ring.
Qed.

(** When one differs, the value is out of the range of [k] bits on that side. *)
Lemma high_diff v k p :
  defined (bits_ v) -> bdefined p -> high_differs v k p = true ->
  if V_eqb p V1 then uval (bits_ v) - pow2 (len v) < - pow2 k else pow2 k <= uval (bits_ v).
Proof.
  intros Hd Hp H. apply existsb_exists in H as (b & Hin & Hb).
  apply in_rev in Hin. apply in_split in Hin as (l1 & l2 & E).
  assert (HL : (k + length (drop k (bits_ v)) = len v)%nat).
  { unfold len. destruct (Nat.le_gt_cases k (length (bits_ v))); [rewrite length_drop; lia|].
    rewrite drop_ge in E by lia. by destruct l1. }
  assert (Hk : (k `min` length (bits_ v))%nat = k)
    by (unfold len in HL; rewrite length_drop in HL; lia).
  assert (HU : uval (bits_ v) = uval (take k (bits_ v)) + pow2 k * uval (drop k (bits_ v))).
  { rewrite <- (take_drop k (bits_ v)) at 1. by rewrite uval_app, length_take, Hk. }
  pose proof (uval_bound (take k (bits_ v))) as B. rewrite length_take, Hk in B.
  rewrite HU, <- HL, pow2_add, E, uval_app, length_app. simpl length. cbn [uval].
  rewrite Nat.add_succ_r, pow2_S, pow2_add.
  pose proof (uval_bound l1). pose proof (uval_bound l2).
  pose proof (pow2_pos (length l1)). pose proof (pow2_pos (length l2)). pose proof (pow2_pos k).
  assert (Db : bdefined b).
  { rewrite Forall_forall in Hd. apply Hd. rewrite <- (take_drop k (bits_ v)), E.
    apply in_or_app. right. apply in_or_app. right. by left. }
  assert (P1 : pow2 (length l1) * uval l2 <= pow2 (length l1) * (pow2 (length l2) - 1)) by nia.
  assert (P2 : 0 <= pow2 (length l1) * uval l2) by nia.
  destruct Hp as [-> | ->]; simpl; destruct Db as [-> | ->]; try done; rewrite ?bz_V0, ?bz_V1; nia.
Qed.

Lemma cmp_loop_spec l r e m :
  wf_num l -> wf_num r -> (m <= len l)%nat -> (m <= len r)%nat ->
  cmp_loop l r e m =
  if fval (bit l) 0 m <? fval (bit r) 0 m then V1
  else if fval (bit r) 0 m <? fval (bit l) 0 m then V0 else e.
Proof.
  intros Hl Hr. induction m as [|m IH]; intros Hml Hmr; [done|].
  cbn [cmp_loop]. rewrite !fval_snoc. simpl Nat.add.
  pose proof (fval_bound (bit l) 0 m). pose proof (fval_bound (bit r) 0 m).
  assert (Dl : bdefined (bit l m)) by (rewrite <- nth_bit by lia; apply defined_nth; [apply Hl|auto]).
  assert (Dr : bdefined (bit r m)) by (rewrite <- nth_bit by lia; apply defined_nth; [apply Hr|auto]).
  destruct Dl as [-> | ->], Dr as [-> | ->]; simpl; rewrite ?bz_V0, ?bz_V1;
    rewrite ?IH by lia; repeat case_cmp; (done || lia).
Qed.

Lemma fval_bit v m : (m <= len v)%nat -> fval (bit v) 0 m = uval (take m (bits_ v)).
Proof.
  intros Hm. rewrite (fval_ext _ (extf (bit v) (length (bits_ v)) V0)).
  - rewrite fval_list by (intros; symmetry; by apply nth_indep).
    by rewrite take_app_le.
  - intros i Hi. unfold extf. unfold len in Hm. case_cmp; [done|lia].
Qed.

(** The padding bits of a comparison of two proper numbers. *)
Lemma cmp_pads_spec l r :
  wf_num l -> wf_num r ->
  exists lp rp, cmp_pads l r = Some (lp, rp) /\ bdefined lp /\ bdefined rp /\
    (has_sign l && has_sign r = false -> lp = V0 /\ rp = V0) /\
    cmp_val (has_sign l && has_sign r) l = uval (bits_ l) - bz lp * pow2 (len l) /\
    cmp_val (has_sign l && has_sign r) r = uval (bits_ r) - bz rp * pow2 (len r).
Proof.
  intros Hl Hr. unfold cmp_pads, cmp_val.
  destruct (has_sign l && has_sign r) eqn:E.
  - apply andb_prop in E as [El Er].
    rewrite (top_bit_nth (bits_ l) V0) by apply Hl.
    rewrite (top_bit_nth (bits_ r) V0) by apply Hr. simpl.
    do 2 eexists. split; [reflexivity|].
    split_and!; [apply defined_nth; [apply Hl|auto]|apply defined_nth; [apply Hr|auto]|done| |];
      unfold to_Z, sgn, len; by rewrite ?El, ?Er.
  - exists V0, V0. rewrite bz_V0. split_and!; auto; lia.
Qed.

Lemma cmp_val_range b v :
  wf_num v -> (b = true -> has_sign v = true) ->
  (b = true -> - pow2 (len v - 1) <= cmp_val b v < pow2 (len v - 1)) /\
  (b = false -> 0 <= cmp_val b v < pow2 (len v)).
Proof.
  intros [Hd Hl] Hb. split; intros ->; simpl.
  - apply to_Z_range; [done|]. by apply Hb.
  - apply uval_bound.
Qed.

(** Residues of numbers closer than the modulus are equal only if the numbers are. *)
Lemma mod_eqb_range x y n :
  - pow2 n < x - y < pow2 n -> (x mod pow2 n =? y mod pow2 n) = (x =? y).
Proof.
  intros Hxy. pose proof (pow2_pos n).
  destruct (Z.eqb_spec (x mod pow2 n) (y mod pow2 n)) as [E|E]; case_cmp; try done; [|congruence].
  exfalso. assert (D : (x - y) mod pow2 n = 0) by (rewrite Zminus_mod, E, Z.sub_diag; done).
  apply Z.mod_divide in D as [k Hk]; [|lia]. assert (-1 < k < 1) by nia. nia.
Qed.

Lemma veq_spec l r :
  wf_num l -> wf_num r ->
  let b := has_sign l && has_sign r in
  veq l r = Some (bool_V (cmp_val b l =? cmp_val b r)).
Proof.
  intros Hl Hr b. unfold veq.
  destruct (cmp_pads_spec l r Hl Hr) as (lp & rp & -> & Dl & Dr & H0 & VL & VR).
  fold b in H0, VL, VR |- *. rewrite VL, VR. clearbody b. simpl.
  pose proof (uval_bound (bits_ l)). pose proof (uval_bound (bits_ r)).
  pose proof (pow2_pos (len l)). pose proof (pow2_pos (len r)). unfold len in *.
  destruct (b && (V_eqb lp V1 && V_eqb rp V0 || V_eqb lp V0 && V_eqb rp V1)) eqn:E.
  - apply andb_prop in E as [_ E].
    destruct Dl as [-> | ->], Dr as [-> | ->]; try done; rewrite ?bz_V0, ?bz_V1;
      case_cmp; (done || lia).
  - assert (ELR : lp = rp).
    { destruct b; [|destruct H0 as [-> ->]; done].
      by destruct Dl as [-> | ->], Dr as [-> | ->]. }
    subst rp. rewrite eq_loop_spec by done. do 2 f_equal.
    set (n := (length (bits_ l) `max` length (bits_ r))%nat).
    pose proof (fval_bound (extf (bit l) (len l) lp) 0 n) as B1.
    pose proof (fval_bound (extf (bit r) (len r) lp) 0 n) as B2.
    rewrite <- (Z.mod_small _ _ B1), <- (Z.mod_small _ _ B2).
    rewrite !fval_pad by (unfold len, n; lia). unfold len. apply mod_eqb_range.
    pose proof (pow2_le (length (bits_ l)) n). pose proof (pow2_le (length (bits_ r)) n).
    unfold n in *. destruct Dl as [-> | ->]; rewrite ?bz_V0, ?bz_V1; lia.
Qed.

Lemma vcmp_spec e l r :
  wf_num l -> wf_num r ->
  let b := has_sign l && has_sign r in
  vcmp e l r = Some (if cmp_val b l <? cmp_val b r then V1
                     else if cmp_val b r <? cmp_val b l then V0 else e).
Proof.
  intros Hl Hr b. unfold vcmp.
  destruct (cmp_pads_spec l r Hl Hr) as (lp & rp & -> & Dl & Dr & H0 & VL & VR).
  fold b in H0, VL, VR |- *. rewrite VL, VR. clearbody b. simpl.
  pose proof (uval_bound (bits_ l)). pose proof (uval_bound (bits_ r)). unfold len in *.
  assert (G : lp = rp \/ (b = true /\ lp <> rp)).
  { destruct b; [|destruct H0 as [-> ->]; [done|by left]].
    destruct Dl as [-> | ->], Dr as [-> | ->]; auto; right; done. }
  destruct G as [<-|[-> Hne]].
  2:{ destruct Dl as [-> | ->], Dr as [-> | ->]; try done; simpl; rewrite ?bz_V0, ?bz_V1;
        repeat case_cmp; (done || lia). }
  assert (HC : forall x y, b && V_eqb lp V1 && V_eqb lp V0 = false /\
               b && V_eqb lp V0 && V_eqb lp V1 = false /\ (x : nat) = x /\ (y : nat) = y).
  { intros. destruct Dl as [-> | ->]; by destruct b. }
  destruct (HC 0%nat 0%nat) as (-> & -> & _). clear HC.
  destruct (high_differs l (length (bits_ r)) lp) eqn:HdL.
  - apply high_diff in HdL; [|apply Hl|done]. unfold len in *.
    destruct Dl as [-> | ->]; simpl in *; rewrite ?bz_V0, ?bz_V1, ?andb_false_r, ?andb_true_r.
    + repeat case_cmp; simpl; (done || lia).
    + assert (b = true) as -> by (destruct b; [done|destruct H0; done]). simpl.
      repeat case_cmp; (done || lia).
  - destruct (high_differs r (length (bits_ l)) lp) eqn:HdR.
    + apply high_diff in HdR; [|apply Hr|done]. unfold len in *.
      destruct Dl as [-> | ->]; simpl in *; rewrite ?bz_V0, ?bz_V1, ?andb_false_r, ?andb_true_r.
      * repeat case_cmp; (done || lia).
      * assert (b = true) as -> by (destruct b; [done|destruct H0; done]).
        repeat case_cmp; (done || lia).
    + rewrite cmp_loop_spec by (done || (unfold len; lia)).
      apply high_same in HdL; [|apply Hl|done]. apply high_same in HdR; [|apply Hr|done].
      unfold len in *. set (m := (length (bits_ l) `min` length (bits_ r))%nat) in *.
      rewrite (Nat.min_comm (length (bits_ r))) in HdL. fold m in HdL, HdR.
      assert (TL : take (length (bits_ r)) (bits_ l) = take m (bits_ l)).
      { unfold m. destruct (Nat.le_ge_cases (length (bits_ l)) (length (bits_ r)));
          [rewrite !take_ge by lia; done|by rewrite Nat.min_r by lia]. }
      assert (TR : take (length (bits_ l)) (bits_ r) = take m (bits_ r)).
      { unfold m. destruct (Nat.le_ge_cases (length (bits_ l)) (length (bits_ r)));
          [by rewrite Nat.min_l by lia|rewrite !take_ge by lia; done]. }
      rewrite HdL, HdR, TL, TR, !fval_bit by (unfold len, m; lia).
      f_equal. repeat case_cmp; (done || lia).
Qed.
