(* ===== verification/VerinumDiv.v ===== *)
(** Division, remainder and power of [verinum.cc], and the native conversions the
    narrow cases go through. *)
From S2P Require Import Prelude Verinum VerinumValue VerinumArith.

(** * Definitions *)

(** [while (wid > 0 && (num.get(wid-1) == V0)) wid -= 1]. *)
Fixpoint width_loop (bs : list V) (wid : nat) : nat :=
  match wid with
  | O => O
  | S w => if V_eqb (nth w bs Vx) V0 then width_loop bs w else wid
  end.

(** The loop of [unsigned_divide], from [idx] down.  A [verinum::V] used as a
    condition is true when it is not [V0]. *)
Fixpoint udiv_loop (idx : nat) (num den result : verinum) : option verinum :=
  match idx with
  | O => Some result
  | S i =>
      le ← vle den num;
      '(num, result) ←
        (if negb (V_eqb le V0) then
           dif ← vsub num den;
           res ← set result i V1;
           Some (dif, res)
         else Some (num, result));
      den ← vshr den 1;
      udiv_loop i num den result
  end.

(** [unsigned_divide(num, den, signed_result)]. *)
Definition unsigned_divide (num den : verinum) (signed_result : bool) : option verinum :=
  let num := set_has_len false num in
  let den := set_has_len false den in
  let nwid := width_loop (bits_ num) (len num) in
  let dwid := width_loop (bits_ den) (len den) in
  if (nwid <? dwid)%nat then Some (verinum_fill V0 1 true) else
  let den := vshl den (nwid - dwid) in
  let idx := (nwid - dwid + 1)%nat in
  let result := verinum_fill V0 (if signed_result then (idx + 1)%nat else idx) true in
  result ← (if signed_result then
              r ← set result idx V0; Some (set_has_sign true r)
            else Some result);
  udiv_loop idx num den result.

(** The loop of [unsigned_modulus]. *)
Fixpoint umod_loop (idx : nat) (num den : verinum) : option verinum :=
  match idx with
  | O => Some num
  | S i =>
      le ← vle den num;
      num ← (if negb (V_eqb le V0) then vsub num den else Some num);
      den ← vshr den 1;
      umod_loop i num den
  end.

(** [unsigned_modulus(num, den)]. *)
Definition unsigned_modulus (num den : verinum) : option verinum :=
  let num := set_has_len false num in
  let den := set_has_len false den in
  let nwid := width_loop (bits_ num) (len num) in
  let dwid := width_loop (bits_ den) (len den) in
  if (nwid <? dwid)%nat then Some num else
  umod_loop (nwid - dwid + 1) num (vshl den (nwid - dwid)).

Definition LONG_MIN : Z := - 2 ^ 63.

(** The loops that write a native [v] into the [use_len] bits of the result. *)
Definition native_result (use_len : nat) (hl : bool) (v : Z) : verinum :=
  verinum_of_bits (low_bits use_len v) hl.

(** [use = v.is_negative()? -v : v; use.has_sign(false)], with the sign seen. *)
Definition magnitude (v : verinum) : option (verinum * bool) :=
  neg ← is_negative v;
  use ← (if (neg : bool) then vneg v else Some v);
  Some (set_has_sign false use, neg).

(** The common end of [/] and [%]. *)
Definition finish_division (has_len_flag signed_flag : bool) (use_len : nat) (result : verinum)
    : option verinum :=
  result ← (if has_len_flag then cast_to_width result use_len else Some result);
  Some (trim_vnum (set_has_sign signed_flag result)).

(** [operator / (const verinum&left, const verinum&right)]; [None] also stands for
    the native division by zero. *)
Definition vdiv (left right : verinum) : option verinum :=
  let has_len_flag := has_len left && has_len right in
  let signed_flag := has_sign left && has_sign right in
  let use_len := len left in
  if negb (is_defined left) || negb (is_defined right) || is_zero right then
    Some (undefined_result use_len has_len_flag signed_flag)
  else
    result ←
      (if signed_flag then
         if (use_len <=? 63)%nat then
           let l := as_long left in
           let r := as_long right in
           if r =? 0 then None else
           let overflow := (l =? LONG_MIN) && (r =? -1) in
           let v := if overflow then LONG_MIN else Z.quot l r in
           Some (native_result use_len has_len_flag v)
         else
           '(use_left, lneg) ← magnitude left;
           '(use_right, rneg) ← magnitude right;
           result ← unsigned_divide use_left use_right true;
           if xorb lneg rneg then vneg result else Some result
       else
         if (use_len <=? 64)%nat then
           let l := as_ulong left in
           let r := as_ulong right in
           if r =? 0 then None else
           Some (native_result use_len has_len_flag (Z.quot l r))
         else unsigned_divide left right false);
    finish_division has_len_flag signed_flag use_len result.

(** [operator % (const verinum&left, const verinum&right)]. *)
Definition vmod (left right : verinum) : option verinum :=
  let has_len_flag := has_len left && has_len right in
  let signed_flag := has_sign left && has_sign right in
  let use_len := len left in
  if negb (is_defined left) || negb (is_defined right) || is_zero right then
    Some (undefined_result use_len has_len_flag signed_flag)
  else
    result ←
      (if signed_flag then
         if (use_len <=? 64)%nat then
           let l := as_long left in
           let r := as_long right in
           if r =? 0 then None else
           let overflow := (l =? LONG_MIN) && (r =? -1) in
           let v := if overflow then 0 else Z.rem l r in
           Some (native_result use_len has_len_flag v)
         else
           '(use_left, lneg) ← magnitude left;
           '(use_right, _) ← magnitude right;
           result ← unsigned_modulus use_left use_right;
           if (lneg : bool) then vneg result else Some result
       else
         if (use_len <=? 64)%nat then
           let l := as_ulong left in
           let r := as_ulong right in
           if r =? 0 then None else
           Some (native_result use_len has_len_flag (Z.rem l r))
         else unsigned_modulus left right);
    finish_division has_len_flag signed_flag use_len result.

(** ** Power *)

(** [make_p_one] and [make_m_one]; setting bit 0 of an empty number trips the assert. *)
Definition make_p_one (n : nat) (hl sg : bool) : option verinum :=
  t ← set (verinum_fill V0 (if hl then n else 2%nat) hl) 0 V1;
  Some (set_has_sign sg t).

Definition make_m_one (n : nat) (hl sg : bool) : verinum :=
  set_has_sign sg (verinum_fill V1 (if hl then n else 1%nat) hl).

(** [recursive_pow], with the call back to [pow] as an argument. *)
Definition recursive_pow (pow : verinum -> verinum -> option verinum)
    (left right : verinum) : option verinum :=
  if is_zero right then make_p_one (len left) (has_len left) (has_sign left) else
  b ← get right 0;
  if V_eqb b V1 then
    right ← set right 0 V0;
    result ← pow left right;
    vmul left result
  else
    right ← vshr right 1;
    result ← pow left right;
    vmul result result.

(** One activation of [pow(const verinum&left, const verinum&right)]. *)
Definition pow_step (pow : verinum -> verinum -> option verinum)
    (left right : verinum) : option verinum :=
  p_one ← make_p_one (len left) (has_len left) (has_sign left);
  let m_one := make_m_one (len left) (has_len left) (has_sign left) in
  let undef := undefined_result (len left) (has_len left) (has_sign left) in
  result ←
    (if negb (is_defined left) || negb (is_defined right) then Some undef
     else if is_zero right then Some p_one
     else
       neg ← is_negative right;
       if (neg : bool) then
         if is_zero left then Some undef
         else
           is_m_one ← (if has_sign left then veq left m_one else Some V0);
           if negb (V_eqb is_m_one V0) then
             b ← get right 0;
             Some (if V_eqb b V0 then p_one else m_one)
           else
             is_p_one ← veq left p_one;
             if negb (V_eqb is_p_one V0) then Some p_one
             else Some (set_has_sign (has_sign left) (verinum_fill V0 (len left) (has_len left)))
       else recursive_pow pow left right);
  Some (trim_vnum result).

Fixpoint pow_fuel (fuel : nat) (left right : verinum) : option verinum :=
  match fuel with
  | O => None
  | S f => pow_step (pow_fuel f) left right
  end.

(** Every two activations halve the exponent, so twice its width is enough. *)
Definition vpow (left right : verinum) : option verinum :=
  pow_fuel (2 * len right + 2) left right.

(** * Native conversions *)

Lemma low_bits_spec n z :
  uval (low_bits n z) = z mod pow2 n /\ length (low_bits n z) = n /\ defined (low_bits n z).
Proof.
  revert z. induction n as [|n IH]; intros z; cbn [low_bits uval length].
  - rewrite pow2_0, Z.mod_1_r. split_and!; done.
  - destruct (IH (Z.shiftr z 1)) as (E & L & D). rewrite E, L. split_and!; [|done|].
    + rewrite pow2_S, Z.rem_mul_r by (pose proof (pow2_pos n); lia).
      rewrite Z.shiftr_div_pow2 by lia. change (2 ^ 1) with 2. rewrite Zmod_odd.
      by destruct (Z.odd z).
    + constructor; [destruct (Z.odd z); auto|done].
Qed.

Lemma lor_pow2 x n : 0 <= x < pow2 n -> Z.lor x (pow2 n) = x + pow2 n.
Proof.
  intros Hx. unfold pow2 in *. rewrite Z.add_nocarry_lxor, <- Z.lxor_lor; [done| |];
  apply Z.bits_inj'; intros i Hi; rewrite Z.bits_0, Z.land_spec, Z.pow2_bits_eqb by lia;
  (destruct (Z.eqb_spec (Z.of_nat n) i); [|apply andb_false_r]);
  rewrite <- (Z.mod_small x (2 ^ Z.of_nat n)), Z.mod_pow2_bits_high by lia; done.
Qed.

(** The saturating conversion. *)
Lemma as_native_loop_spec w bs k val :
  defined bs -> 0 <= val -> val < pow2 k -> val < pow2 w ->
  as_native_loop (Z.of_nat w) bs val (pow2 k mod pow2 w)
  = Z.min (val + pow2 k * uval bs) (pow2 w - 1).
Proof.
  intros Hd. revert k val. induction Hd as [|b bs Hb Hd IH]; intros k val H0 Hk Hw;
    cbn [as_native_loop uval]; [lia|].
  change (2 ^ Z.of_nat w) with (pow2 w). pose proof (pow2_pos w). pose proof (pow2_pos k).
  assert (EM : (pow2 k mod pow2 w * 2) mod pow2 w = pow2 (S k) mod pow2 w)
    by (rewrite Z.mul_mod_idemp_l, pow2_S, Z.mul_comm by lia; done).
  pose proof (uval_bound bs). rewrite EM.
  destruct Hb as [-> | ->].
  - change (V_eqb V0 V1) with false. cbn match.
    rewrite IH, bz_V0; rewrite ?pow2_S; lia.
  - change (V_eqb V1 V1) with true. cbn match. rewrite bz_V1.
    destruct (Nat.lt_ge_cases k w) as [Hkw|Hkw].
    + pose proof (pow2_lt k w Hkw). rewrite (Z.mod_small (pow2 k)) by lia.
      case_cmp; [lia|]. rewrite lor_pow2 by lia.
      assert (pow2 (S k) <= pow2 w) by (apply pow2_le; lia).
      rewrite IH; rewrite pow2_S in *; lia.
    + pose proof (pow2_le w k Hkw).
      assert (pow2 k mod pow2 w = 0) as ->.
      { replace k with (w + (k - w))%nat by lia. rewrite pow2_add.
        rewrite Z.mul_comm. apply Z.mod_mul. lia. }
      simpl. rewrite Z.min_r; [done|]. nia.
Qed.

Lemma as_native_spec w v :
  wf_num v -> (0 < w)%nat ->
  as_native (Z.of_nat w) v = Z.min (uval (bits_ v)) (pow2 w - 1).
Proof.
  intros [Hd Hl] Hw. unfold as_native. apply is_defined_spec in Hd as Hd'. rewrite Hd'.
  case_cmp; [lia|]. simpl. pose proof (pow2_lt 0 w Hw) as P. rewrite pow2_0 in P.
  pose proof (as_native_loop_spec w (bits_ v) 0 0 Hd) as E.
  rewrite pow2_0, (Z.mod_small 1) in E by lia. rewrite E; lia.
Qed.

Lemma as_long_pos_spec bs k val :
  defined bs -> 0 <= val < pow2 k ->
  as_long_pos_loop bs val (pow2 k) = val + pow2 k * uval bs.
Proof.
  intros Hd. revert k val. induction Hd as [|b bs Hb Hd IH]; intros k val Hk;
    cbn [as_long_pos_loop uval]; [lia|].
  rewrite <- pow2_S. destruct Hb as [-> | ->].
  - change (V_eqb V0 V1) with false. cbn match. rewrite IH, bz_V0; rewrite ?pow2_S; lia.
  - change (V_eqb V1 V1) with true. cbn match.
    rewrite lor_pow2, IH, bz_V1; rewrite ?pow2_S; lia.
Qed.

Lemma land_lnot_pow2 v k :
  0 <= v < pow2 k -> Z.land (v - pow2 k) (-1 - pow2 k) = v - pow2 (S k).
Proof.
  intros Hv. pose proof (pow2_pos k).
  replace (-1 - pow2 k) with (Z.lnot (pow2 k)) by (unfold Z.lnot; lia).
  rewrite <- Z.ldiff_land.
  assert (HB : Z.testbit (v - pow2 k) (Z.of_nat k) = true).
  { apply Z.testbit_true; [lia|]. change (2 ^ Z.of_nat k) with (pow2 k).
    replace ((v - pow2 k) / pow2 k) with (-1); [done|].
    apply (Z.div_unique_pos _ _ _ v); lia. }
  assert (HL : Z.land (pow2 k) (v - pow2 k) = pow2 k).
  { apply Z.bits_inj'. intros i Hi. rewrite Z.land_spec. unfold pow2 at 1 3.
    rewrite Z.pow2_bits_eqb by lia. destruct (Z.eqb_spec (Z.of_nat k) i) as [<-|]; [|done].
    by rewrite HB. }
  rewrite <- (Z.sub_nocarry_ldiff (v - pow2 k) (pow2 k)).
  - rewrite pow2_S. lia.
  - apply Z.bits_inj'. intros i Hi. rewrite Z.ldiff_spec, Z.bits_0. unfold pow2 at 1.
    rewrite Z.pow2_bits_eqb by lia. destruct (Z.eqb_spec (Z.of_nat k) i) as [<-|]; [|done].
    by rewrite HB.
Qed.

Lemma lor_1_even x : Z.lor (2 * x) 1 = 2 * x + 1.
Proof.
  rewrite Z.add_nocarry_lxor, <- Z.lxor_lor; [done| |];
    (apply Z.bits_inj'; intros i Hi; rewrite Z.bits_0, Z.land_spec;
     destruct (Z.eq_dec i 0) as [->|];
     [by rewrite Z.testbit_even_0|
      change 1 with (2 ^ 0); rewrite Z.pow2_bits_false by lia; apply andb_false_r]).
Qed.

Lemma as_long_neg_spec bs k v0 :
  defined bs -> 0 <= v0 < pow2 k ->
  as_long_neg_loop bs (v0 - pow2 k) (-1 - pow2 k)
  = v0 + pow2 k * uval bs - pow2 (k + length bs).
Proof.
  intros Hd. revert k v0. induction Hd as [|b bs Hb Hd IH]; intros k v0 Hk;
    cbn [as_long_neg_loop uval length]; [rewrite Nat.add_0_r; lia|].
  rewrite lor_1_even. replace (2 * (-1 - pow2 k) + 1) with (-1 - pow2 (S k)) by (rewrite pow2_S; lia).
  rewrite <- Nat.add_succ_comm. destruct Hb as [-> | ->].
  - change (V_eqb V0 V0) with true. cbn match. rewrite land_lnot_pow2, IH, bz_V0 by
      (rewrite ?pow2_S; lia). rewrite pow2_S. lia.
  - change (V_eqb V1 V0) with false. cbn match.
    replace (v0 - pow2 k) with ((v0 + pow2 k) - pow2 (S k)) by (rewrite pow2_S; lia).
    rewrite IH, bz_V1 by (rewrite ?pow2_S; lia). rewrite pow2_S. lia.
Qed.

(** [as_long] of a signed number of at most 64 bits is its value. *)
Lemma as_long_spec v :
  wf_num v -> has_sign v = true -> (len v <= 64)%nat -> as_long v = to_Z v.
Proof.
  intros Hv Hs H64. destruct (Hv) as [Hd Hl]. unfold as_long, as_long_warn.
  rewrite wf_num_is_defined by done. case_cmp; [lia|]. simpl negb. cbn match.
  rewrite Hs, <- nth_bit by lia. simpl.
  destruct (uval_top (bits_ v) Hl) as (low & E & B).
  assert (ET : uval (take IVLLBITS (bits_ v)) = uval (bits_ v) mod pow2 63) by apply uval_take.
  assert (DT : defined (take IVLLBITS (bits_ v))) by by apply Forall_take.
  unfold to_Z, sgn. rewrite Hs. unfold len in *.
  pose proof (pow2_half _ Hl) as PH. pose proof (uval_bound (bits_ v)) as UB.
  assert (PL : pow2 (length (bits_ v) - 1) <= pow2 63) by (apply pow2_le; lia).
  destruct (defined_nth (bits_ v) (length (bits_ v) - 1) V0 Hd) as [EN|EN]; [by left| |];
    rewrite EN in *; rewrite ?bz_V0, ?bz_V1 in *.
  - change (V_eqb V0 V1) with false. cbn [fst].
    rewrite (as_long_pos_spec _ 0) by (done || (rewrite ?pow2_0; lia)).
    rewrite ET, pow2_0, Z.mod_small by lia. lia.
  - change (V_eqb V1 V1) with true. cbn [fst].
    rewrite (as_long_neg_spec _ 0 0) by (done || (rewrite ?pow2_0; lia)).
    rewrite pow2_0, Nat.add_0_l, length_take, ET. unfold IVLLBITS.
    destruct (Nat.le_gt_cases (length (bits_ v)) 63) as [H63|H63].
    + rewrite Nat.min_r by lia.
      assert (pow2 (length (bits_ v)) <= pow2 63) by (apply pow2_le; lia).
      rewrite Z.mod_small by lia. lia.
    + assert (length (bits_ v) = 64)%nat as E64 by lia. rewrite E64 in *. simpl Nat.sub in *.
      rewrite Nat.min_l by lia. 
      rewrite E. replace (low + 1 * pow2 63) with (low + 1 * pow2 63) by lia.
      rewrite Z.mod_add by (pose proof (pow2_pos 63); lia).
      rewrite Z.mod_small by lia. lia.
Qed.

(** * Width changes *)

Lemma to_Z_mod_le v w : (w <= len v)%nat -> uval (bits_ v) mod pow2 w = to_Z v mod pow2 w.
Proof.
  intros Hw. unfold to_Z. pose proof (pow2_pos w).
  replace (pow2 (len v)) with (pow2 (len v - w) * pow2 w) by (rewrite <- pow2_add; f_equal; lia).
  rewrite Z.mul_assoc, <- (Z.mod_add (_ - _) (bz (sgn v) * pow2 (len v - w))) by lia.
  f_equal. ring.
Qed.

(** The padding bit of a well-formed number is its sign. *)
Lemma pad_bit_sgn v :
  wf_num v -> is_single v = false ->
  top_bit (bits_ v) = Some (nth (len v - 1) (bits_ v) V0) /\
  pad_bit v (nth (len v - 1) (bits_ v) V0) = sgn v.
Proof.
  intros [Hd Hl] Hs. split; [by apply top_bit_nth|].
  unfold pad_bit, sgn. rewrite Hs.
  destruct (defined_nth (bits_ v) (len v - 1) V0 Hd) as [-> | ->]; [by left| |];
    by destruct (has_sign v), (has_len v).
Qed.

(** Both ways a number is brought to a width it does not have. *)
Lemma cast_to_width_spec v w :
  wf_num v -> (is_single v = false \/ (w <= len v)%nat) ->
  exists r, cast_to_width v w = Some r /\ has_len r = true /\ has_sign r = has_sign v /\
    len r = w /\ defined (bits_ r) /\ uval (bits_ r) = to_Z v mod pow2 w.
Proof.
  intros Hv Hs. destruct (Hv) as [Hd Hl]. unfold cast_to_width.
  destruct (has_len v && (len v =? w)%nat) eqn:EL.
  { apply andb_true_iff in EL as [EL <-%Nat.eqb_eq]. exists v. by rewrite to_Z_mod. }
  clear EL. case_cmp.
  - unfold verinum_copy. replace (if (len v <? w)%nat then _ else _) with w by (case_cmp; lia).
    rewrite Nat.ltb_irrefl. eexists; split_and!; try done; simpl.
    + unfold len in *. simpl. rewrite length_take. lia.
    + by apply Forall_take.
    + by rewrite uval_take, to_Z_mod_le.
  - case_cmp; [lia|]. destruct Hs as [Hs|]; [|lia].
    destruct (pad_bit_sgn v Hv Hs) as [-> EP]. simpl. rewrite EP.
    eexists; split_and!; try done; simpl.
    + unfold len in *. simpl. rewrite length_app, length_replicate. lia.
    + apply Forall_app. split; [done|]. apply defined_replicate, sgn_defined, Hd.
    + rewrite <- uval_ext. unfold ext_bits. rewrite take_app_ge by (unfold len in *; lia).
      rewrite take_replicate. do 3 f_equal. unfold len in *. lia.
Qed.

(** * The restoring divider *)

Lemma width_loop_spec bs w :
  defined bs -> (w <= length bs)%nat ->
  (forall i, (w <= i < length bs)%nat -> nth i bs Vx = V0) ->
  let r := width_loop bs w in
  (r <= length bs)%nat /\ uval bs < pow2 r /\ ((0 < r)%nat -> pow2 (r - 1) <= uval bs).
Proof.
  intros Hd. induction w as [|w IH]; intros Hw Hz; cbn [width_loop].
  - split_and!; [lia| |lia]. rewrite <- (uval_take_zeros bs 0) by done. simpl. rewrite pow2_0. lia.
  - destruct (V_eqb (nth w bs Vx) V0) eqn:E; cbv zeta.
    + apply IH; [lia|]. apply V_eqb_eq in E. intros i Hi.
      destruct (Nat.eq_dec i w) as [->|]; [done|]. apply Hz. lia.
    + assert (EU : uval (take (S w) bs) = uval bs) by by apply uval_take_zeros.
      pose proof (uval_bound (take (S w) bs)) as UB.
      assert (LT : length (take (S w) bs) = S w) by (rewrite length_take; lia).
      rewrite LT, EU in UB. split_and!; [lia|lia|]. intros _.
      destruct (uval_top (take (S w) bs)) as (low & E2 & B); [lia|].
      replace (S w - 1)%nat with w by lia.
      rewrite LT, EU in E2. rewrite LT in B. replace (S w - 1)%nat with w in * by lia.
      rewrite nth_take, (nth_indep _ _ Vx) in E2 by lia.
      assert (nth w bs Vx = V1) as E1.
      { destruct (defined_nth bs w V0 Hd) as [E3|E3]; [by left| |];
          rewrite (nth_indep _ _ Vx) in E3 by lia; [by rewrite E3 in E|done]. }
      rewrite E1, bz_V1 in E2. lia.
Qed.

Lemma wf_num_pos v : wf_num v -> (0 < len v)%nat.
Proof. by intros []. Qed.

(** A working register of the divider: unsigned and unsized. *)
Record reg (v : verinum) (x : Z) : Prop := {
  reg_wf : wf_num v;
  reg_len : has_len v = false;
  reg_sign : has_sign v = false;
  reg_val : uval (bits_ v) = x }.

Lemma reg_to_Z v x : reg v x -> to_Z v = x.
Proof. intros []. by rewrite to_Z_unsigned. Qed.

Lemma reg_vle a b x y :
  reg a x -> reg b y -> vle a b = Some (bool_V (x <=? y)).
Proof.
  intros [] []. unfold vle. rewrite vcmp_spec by done. rewrite reg_sign0. simpl.
  rewrite reg_val0, reg_val1. do 2 f_equal. repeat case_cmp; (done || lia).
Qed.

Lemma reg_vsub a b x y :
  reg a x -> reg b y -> y <= x ->
  exists v, vsub a b = Some v /\ reg v (x - y) /\ is_single v = false /\ (len a <= len v)%nat.
Proof.
  intros Ra Rb Hxy. pose proof (reg_to_Z _ _ Ra) as Ea. pose proof (reg_to_Z _ _ Rb) as Eb.
  destruct Ra, Rb.
  destruct (vsub_spec a b) as (v & E & [A1 A2 A3 A4 A5] & Hl & HU); [done|done|].
  rewrite reg_len0 in A2. rewrite reg_sign0 in A3. specialize (HU A3) as [L U].
  exists v. split_and!; [done| | |].
  - split; [by split|done|done|]. rewrite U, Ea, Eb. apply Z.mod_small.
    pose proof (uval_bound (bits_ a)). pose proof (uval_bound (bits_ b)).
    pose proof (pow2_le (len a) (len a `max` len b)). unfold len in *. lia.
  - clear -E reg_wf0 reg_wf1. rewrite vsub_unfold in E by done. by inversion E.
  - lia.
Qed.

Lemma reg_vshr a x k : reg a x -> exists v, vshr a k = Some v /\ reg v (x / pow2 k).
Proof.
  intros R. pose proof (reg_to_Z _ _ R) as Ea. destruct R.
  destruct (vshr_spec a k) as (v & E & W1 & L & S & _ & VV); [done|].
  exists v. split; [done|]. split; [done|congruence|congruence|].
  rewrite <- to_Z_unsigned by congruence. by rewrite VV, Ea.
Qed.

Lemma reg_vshl a x k : reg a x -> reg (vshl a k) (x * pow2 k).
Proof.
  intros R. pose proof (reg_to_Z _ _ R) as Ea. destruct R.
  destruct (vshl_spec a k) as (W1 & L & S & _ & VV); [done|by apply wf_num_pos|].
  split; [done|congruence|congruence|].
  rewrite <- to_Z_unsigned by congruence. rewrite VV by congruence. by rewrite Ea.
Qed.

(** Raising a 0 bit adds its weight. *)
Lemma uval_set_bit bs i :
  (i < length bs)%nat -> nth i bs V0 = V0 -> uval (<[i := V1]> bs) = uval bs + pow2 i.
Proof.
  revert i. induction bs as [|b bs IH]; intros i Hi H0; simpl in Hi; [lia|].
  destruct i as [|i]; cbn [insert list_insert uval]; simpl in H0.
  - subst b. rewrite bz_V0, bz_V1, pow2_0. lia.
  - change (list_insert i V1 bs) with (<[i := V1]> bs). rewrite IH by (done || lia).
    rewrite pow2_S. lia.
Qed.

Lemma defined_insert bs i b : defined bs -> bdefined b -> defined (<[i := b]> bs).
Proof. intros. by apply Forall_insert. Qed.

(** The quotient bits below [idx] are still 0 and the remainder is below the
    divisor shifted up by [idx]. *)
Lemma udiv_loop_spec idx num den result N D :
  0 < D -> reg num N -> N < D * pow2 idx ->
  (exists d, reg den d /\ ((0 < idx)%nat -> d = D * pow2 (idx - 1))) ->
  defined (bits_ result) -> (idx <= len result)%nat ->
  (forall i, (i < idx)%nat -> nth i (bits_ result) V0 = V0) ->
  exists r, udiv_loop idx num den result = Some r /\
    defined (bits_ r) /\ len r = len result /\ has_len r = has_len result /\
    has_sign r = has_sign result /\ is_single r = is_single result /\
    (forall i, (idx <= i)%nat -> nth i (bits_ r) V0 = nth i (bits_ result) V0) /\
    uval (bits_ r) = uval (bits_ result) + N / D.
Proof.
  intros HD. revert num den result N. induction idx as [|i IH];
    intros num den result N Rn HN (d & Rd & Ed) Hr Hi Hz; cbn [udiv_loop].
  - exists result. split_and!; try done. rewrite pow2_0 in HN.
    rewrite Z.div_small; [lia|]. destruct Rn. pose proof (uval_bound (bits_ num)). lia.
  - rewrite (reg_vle _ _ _ _ Rd Rn). simpl. specialize (Ed ltac:(lia)).
    replace (S i - 1)%nat with i in Ed by lia. subst d.
    assert (Hsh : forall v, vshr den 1 = Some v -> exists d, reg v d /\
                    ((0 < i)%nat -> d = D * pow2 (i - 1))).
    { intros v Ev. destruct (reg_vshr _ _ 1 Rd) as (v' & Ev' & Rv).
      rewrite Ev in Ev'. injection Ev' as <-. eexists. split; [done|]. intros Hp.
      rewrite (pow2_half i) by done. change (pow2 1) with 2.
      replace (D * (2 * pow2 (i - 1))) with (D * pow2 (i - 1) * 2) by lia. by apply Z.div_mul. }
    destruct (reg_vshr _ _ 1 Rd) as (den' & Eden & _). rewrite pow2_S in HN.
    destruct (Z.leb_spec (D * pow2 i) N) as [Hle|Hlt]; simpl.
    + destruct (reg_vsub _ _ _ _ Rn Rd) as (dif & -> & Rdif & _ & _); [done|]. simpl.
      unfold set. case_cmp; [|lia]. simpl. rewrite Eden. simpl.
      set (res := set_bits _ _).
      destruct (IH dif den' res (N - D * pow2 i)) as (r & -> & R1 & R2 & R3 & R4 & R5 & R6 & R7);
        try done; try lia; try by apply Hsh.
      * simpl. apply defined_insert; auto.
      * unfold res, len. simpl. rewrite length_insert. unfold len in *. lia.
      * intros j Hj. unfold res. simpl. rewrite nth_lookup, list_lookup_insert_ne by lia.
        rewrite <- nth_lookup. apply Hz. lia.
      * exists r. split_and!; try done.
        -- rewrite R2. unfold res, len. simpl. by rewrite length_insert.
        -- intros j Hj. rewrite R6 by lia. unfold res. simpl.
           rewrite nth_lookup, list_lookup_insert_ne by lia. by rewrite <- nth_lookup.
        -- rewrite R7. unfold res. simpl. rewrite uval_set_bit; [|done|apply Hz; lia].
           replace (N - D * pow2 i) with (N + (- pow2 i) * D) by lia.
           rewrite Z.div_add by lia. lia.
    + rewrite Eden. simpl.
      destruct (IH num den' result N) as (r & -> & R1 & R2 & R3 & R4 & R5 & R6 & R7);
        try done; try lia; try by apply Hsh.
      * intros j Hj. apply Hz. lia.
      * exists r. split_and!; try done. intros j Hj. apply R6. lia.
Qed.

Lemma reg_of v : wf_num v -> has_sign v = false -> reg (set_has_len false v) (uval (bits_ v)).
Proof. intros [] ?. by split. Qed.

(** The widths the divider works with, from the significant bits of its operands. *)
Lemma width_bounds num den :
  wf_num num -> wf_num den -> 0 < uval (bits_ den) ->
  let nwid := width_loop (bits_ num) (len num) in
  let dwid := width_loop (bits_ den) (len den) in
  if (nwid <? dwid)%nat then uval (bits_ num) < uval (bits_ den)
  else uval (bits_ num) < uval (bits_ den) * pow2 (nwid - dwid + 1).
Proof.
  intros [Hn _] [Hd _] HD nwid dwid.
  destruct (width_loop_spec (bits_ num) (len num)) as (_ & N2 & _); [done|done|unfold len; lia|].
  destruct (width_loop_spec (bits_ den) (len den)) as (_ & D2 & D3); [done|done|unfold len; lia|].
  fold nwid in N2. fold dwid in D2, D3.
  assert (Hp : (0 < dwid)%nat).
  { destruct (Nat.eq_dec dwid O) as [E|]; [|lia]. rewrite E, pow2_0 in D2. lia. }
  specialize (D3 Hp). case_cmp.
  - pose proof (pow2_le nwid (dwid - 1)). lia.
  - replace nwid with (dwid - 1 + (nwid - dwid + 1))%nat in N2 by lia. rewrite pow2_add in N2.
    pose proof (pow2_pos (nwid - dwid + 1)). nia.
Qed.

(** The loop on a quotient register of zeros. *)
Lemma udiv_loop_zero idx num den result N D :
  0 < D -> reg num N -> N < D * pow2 idx ->
  (exists d, reg den d /\ ((0 < idx)%nat -> d = D * pow2 (idx - 1))) ->
  (idx <= len result)%nat -> bits_ result = replicate (len result) V0 ->
  exists r, udiv_loop idx num den result = Some r /\
    defined (bits_ r) /\ len r = len result /\ has_len r = has_len result /\
    has_sign r = has_sign result /\ is_single r = is_single result /\
    (forall i, (idx <= i)%nat -> nth i (bits_ r) V0 = V0) /\ uval (bits_ r) = N / D.
Proof.
  intros HD Rn HN Rd Hi E1.
  assert (D1 : defined (bits_ result)) by (rewrite E1; apply defined_replicate; auto).
  assert (Z0 : forall i, nth i (bits_ result) V0 = V0).
  { intros i. rewrite E1. destruct (Nat.lt_ge_cases i (len result)).
    - by rewrite nth_lookup, lookup_replicate_2.
    - by rewrite nth_overflow by (rewrite length_replicate; lia). }
  destruct (udiv_loop_spec idx num den result N D HD Rn HN Rd D1 Hi)
    as (r & E2 & R1 & R2 & R3 & R4 & R5 & R6 & R7); [done|].
  exists r. split_and!; try done; [intros; by rewrite R6|]. rewrite R7, E1, uval_replicate_0. lia.
Qed.

Lemma unsigned_divide_spec num den sg :
  wf_num num -> wf_num den -> has_sign num = false -> has_sign den = false ->
  0 < uval (bits_ den) ->
  exists v, unsigned_divide num den sg = Some v /\ wf_num v /\ has_len v = true /\
    is_single v = false /\ (has_sign v = true -> sg = true) /\
    uval (bits_ v) = uval (bits_ num) / uval (bits_ den) /\
    (sg = true -> uval (bits_ v) < pow2 (len v - 1) /\ (has_sign v = true \/ uval (bits_ v) = 0)).
Proof.
  intros Wn Wd Sn Sd HD. pose proof (width_bounds num den Wn Wd HD) as HW. cbv zeta in HW.
  pose proof (uval_bound (bits_ num)) as UB.
  unfold unsigned_divide. change (bits_ (set_has_len false num)) with (bits_ num).
  change (bits_ (set_has_len false den)) with (bits_ den).
  change (len (set_has_len false num)) with (len num).
  change (len (set_has_len false den)) with (len den).
  set (nwid := width_loop _ _) in *. set (dwid := width_loop (bits_ den) _) in *.
  pose proof (reg_of _ Wn Sn) as Rn.
  pose proof (reg_vshl _ _ (nwid - dwid) (reg_of _ Wd Sd)) as Rd.
  destruct (Nat.ltb_spec nwid dwid).
  { eexists. split; [done|]. rewrite Z.div_small by lia.
    split_and!; try done; [repeat constructor; auto|]. split; [done|by right]. }
  assert (Rd' : exists d, reg (vshl (set_has_len false den) (nwid - dwid)) d /\
    ((0 < nwid - dwid + 1)%nat -> d = uval (bits_ den) * pow2 (nwid - dwid + 1 - 1))).
  { eexists. split; [done|]. intros _. do 2 f_equal. lia. }
  set (idx := (nwid - dwid + 1)%nat) in *.
  pose proof (fun result => udiv_loop_zero idx _ _ result _ _ HD Rn HW Rd') as HI.
  destruct sg.
  - unfold set. simpl bits_. unfold len at 1. simpl. rewrite length_replicate. case_cmp; [|lia]. simpl.
    set (result := set_has_sign _ _). assert (EB : bits_ result = replicate (idx + 1) V0).
    { unfold result. simpl. apply list_eq. intros i.
      destruct (Nat.eq_dec i idx) as [->|].
      - rewrite list_lookup_insert_eq by (rewrite ?length_replicate; lia).
        by rewrite lookup_replicate_2 by lia.
      - by rewrite list_lookup_insert_ne by lia. }
    assert (EL : len result = (idx + 1)%nat) by (unfold len; by rewrite EB, length_replicate).
    destruct (HI result) as (r & -> & R1 & R2 & R3 & R4 & R5 & R6 & R7).
    { lia. } { by rewrite EL. }
    exists r. split_and!; try done.
    + split; [done|lia].
    + intros _. split; [|left; by rewrite R4].
      destruct (uval_top (bits_ r)) as (low & E & B); [unfold len in *; lia|].
      unfold len in *. rewrite E, R6 by lia. rewrite bz_V0. lia.
  - simpl. destruct (HI (verinum_fill V0 idx true)) as (r & -> & R1 & R2 & R3 & R4 & R5 & R6 & R7).
    { unfold len. simpl. rewrite length_replicate. lia. } { unfold len. simpl. by rewrite length_replicate. }
    unfold len in R2 at 2. simpl in R2. rewrite length_replicate in R2.
    exists r. split_and!; try done. { split; [done|lia]. } { by rewrite R4. }
Qed.

Lemma umod_loop_spec idx num den N D :
  0 < D -> reg num N -> N < D * pow2 idx ->
  (exists d, reg den d /\ ((0 < idx)%nat -> d = D * pow2 (idx - 1))) ->
  exists r, umod_loop idx num den = Some r /\ reg r (N mod D) /\
    (is_single r = false \/ r = num) /\ (len num <= len r)%nat.
Proof.
  intros HD. revert num den N. induction idx as [|i IH];
    intros num den N Rn HN (d & Rd & Ed); cbn [umod_loop].
  - exists num. split_and!; [done| |by right|done]. rewrite pow2_0 in HN.
    rewrite Z.mod_small; [done|]. destruct Rn. pose proof (uval_bound (bits_ num)). lia.
  - rewrite (reg_vle _ _ _ _ Rd Rn). simpl. specialize (Ed ltac:(lia)).
    replace (S i - 1)%nat with i in Ed by lia. subst d. rewrite pow2_S in HN.
    destruct (reg_vshr _ _ 1 Rd) as (den' & Eden & Rd').
    assert (Hsh : exists d, reg den' d /\ ((0 < i)%nat -> d = D * pow2 (i - 1))).
    { eexists. split; [done|]. intros Hp.
      rewrite (pow2_half i) by done. change (pow2 1) with 2.
      replace (D * (2 * pow2 (i - 1))) with (D * pow2 (i - 1) * 2) by lia. by apply Z.div_mul. }
    destruct (Z.leb_spec (D * pow2 i) N) as [Hle|Hlt]; simpl.
    + destruct (reg_vsub _ _ _ _ Rn Rd) as (dif & -> & Rdif & Sdif & Ldif); [done|]. simpl. rewrite Eden.
      simpl. destruct (IH dif den' (N - D * pow2 i)) as (r & -> & R1 & R2 & R3); try done; [lia|].
      exists r. split_and!; [done| | |lia].
      * replace (N mod D) with ((N - D * pow2 i) mod D); [done|].
        replace (N - D * pow2 i) with (N + (- pow2 i) * D) by lia. by apply Z.mod_add; lia.
      * destruct R2 as [?| ->]; by left.
    + rewrite Eden. simpl. by apply IH; [|lia|].
Qed.

Lemma unsigned_modulus_spec num den :
  wf_num num -> wf_num den -> has_sign num = false -> has_sign den = false ->
  0 < uval (bits_ den) ->
  exists v, unsigned_modulus num den = Some v /\
    reg v (uval (bits_ num) mod uval (bits_ den)) /\
    (is_single v = false \/ v = set_has_len false num) /\ (len num <= len v)%nat.
Proof.
  intros Wn Wd Sn Sd HD. pose proof (width_bounds num den Wn Wd HD) as HW. cbv zeta in HW.
  pose proof (uval_bound (bits_ num)) as UB.
  unfold unsigned_modulus. change (bits_ (set_has_len false num)) with (bits_ num).
  change (bits_ (set_has_len false den)) with (bits_ den).
  change (len (set_has_len false num)) with (len num).
  change (len (set_has_len false den)) with (len den).
  set (nwid := width_loop _ _) in *. set (dwid := width_loop (bits_ den) _) in *.
  pose proof (reg_of _ Wn Sn) as Rn.
  pose proof (reg_vshl _ _ (nwid - dwid) (reg_of _ Wd Sd)) as Rd.
  destruct (Nat.ltb_spec nwid dwid).
  - eexists. split_and!; [done| |by right|done]. by rewrite Z.mod_small by lia.
  - apply (umod_loop_spec _ (set_has_len false num)); [done|done|done|].
    eexists. split; [done|]. intros _. do 2 f_equal. lia.
Qed.

Lemma uval_sval bs : (0 < length bs)%nat -> uval bs < pow2 (length bs - 1) -> sval bs = uval bs.
Proof.
  intros Hl Hb. pose proof (uval_bound bs). apply sval_residue; [done| |lia].
  by rewrite Z.mod_small.
Qed.

Lemma to_Z_either v x :
  (0 < len v)%nat -> uval (bits_ v) = x -> (has_sign v = true -> x < pow2 (len v - 1)) -> to_Z v = x.
Proof.
  intros Hl E H. destruct (has_sign v) eqn:ES.
  - rewrite to_Z_signed, uval_sval; try done. rewrite E. by apply H.
  - by rewrite to_Z_unsigned.
Qed.

Lemma vneg_single r v : vneg r = Some v -> is_single v = false.
Proof.
  unfold vneg. destruct (is_defined r); simpl; [|by intros [= <-]].
  destruct (adc_loop _ _ _ _ _) as [bs c]. destruct (has_sign r && negb (has_len r)).
  - destruct (sign_bit r); simpl; [|done]. by intros [= <-].
  - by intros [= <-].
Qed.

Lemma length_adc_loop f g idx cnt c : length (fst (adc_loop f g idx cnt c)) = cnt.
Proof.
  revert idx c. induction cnt as [|n IH]; intros idx c; simpl; [done|].
  destruct (add_with_carry (f idx) (g idx) c) as [s c']. specialize (IH (S idx) c').
  destruct (adc_loop f g (S idx) n c') as [ss c'']. simpl in *. by rewrite IH.
Qed.

Lemma vneg_len r v : wf_num r -> vneg r = Some v -> (len r <= len v)%nat.
Proof.
  intros Hr. unfold vneg. rewrite wf_num_is_defined by done. simpl.
  pose proof (length_adc_loop (fun _ => V0) (fun i => V_not (bit r i)) 0 (len r) V1) as L.
  destruct (adc_loop _ _ _ _ _) as [bs c]. simpl in L. destruct (has_sign r && negb (has_len r)).
  - destruct (sign_bit r); simpl; [|done]. intros [= <-]. unfold len in *. simpl.
    destruct (negb _); rewrite ?length_app; lia.
  - intros [= <-]. unfold len in *. simpl. lia.
Qed.

Lemma is_negative_spec v :
  wf_num v -> is_negative v = Some (has_sign v && (to_Z v <? 0)).
Proof.
  intros Hv. destruct (Hv) as [Hd Hl]. unfold is_negative. rewrite (top_bit_nth _ V0) by done. simpl.
  f_equal. rewrite andb_comm. destruct (has_sign v) eqn:ES; [|done]. simpl.
  pose proof (to_Z_sign v Hv ES) as H. unfold len in H. case_cmp.
  - by rewrite (proj1 H).
  - apply bool_decide_eq_false. intros E. apply H in E. lia.
Qed.

Lemma magnitude_spec v :
  wf_num v -> has_sign v = true ->
  exists u, magnitude v = Some (u, to_Z v <? 0) /\ wf_num u /\ has_sign u = false /\
    uval (bits_ u) = Z.abs (to_Z v) /\ (len v <= len u)%nat.
Proof.
  intros Hv Hs. destruct (Hv) as [Hd Hl]. unfold magnitude. rewrite is_negative_spec by done.
  rewrite Hs. simpl. destruct (to_Z_range v Hl) as [HR _]. specialize (HR Hs).
  pose proof (pow2_half _ Hl). destruct (Z.ltb_spec (to_Z v) 0).
  - destruct (vneg_spec v Hv) as (u & E & D & HL & HS & L & HU & HX). rewrite E. simpl.
    eexists. split; [done|].
    split_and!; [by split|done| |by apply (vneg_len v u)]. simpl. rewrite Z.abs_neq by lia.
    destruct (has_len v) eqn:EL.
    + destruct HU as [_ ->]; [by left|]. apply Z.mod_small. lia.
    + specialize (HX eq_refl Hs). rewrite Hs in HS.  rewrite <- HX.
      destruct (uval_top (bits_ u) L) as (low & E1 & B). pose proof (pow2_half _ L).
      clear HU. symmetry. apply to_Z_either; [done|done|]. intros _.
      unfold to_Z at 1 in HX. unfold sgn in HX. rewrite HS in HX. unfold len in *.
      destruct (defined_nth (bits_ u) (length (bits_ u) - 1) V0 D) as [E2|E2]; [by left| |];
        rewrite E2, ?bz_V0, ?bz_V1 in *; lia.
  - simpl. eexists. split; [done|]. split_and!; [done|done| |done]. simpl.
    rewrite <- (to_Z_mod v). rewrite Z.abs_eq, Z.mod_small by lia. done.
Qed.

Lemma finish_division_spec hl sg n result :
  wf_num result -> (0 < n)%nat -> (is_single result = false \/ (n <= len result)%nat) ->
  exists v, finish_division hl sg n result = Some v /\ wf_num v /\ has_sign v = sg /\
    (hl = true -> has_len v = true /\ len v = n /\ uval (bits_ v) = to_Z result mod pow2 n) /\
    (hl = false -> has_len v = has_len result /\ to_Z v = to_Z (set_has_sign sg result)).
Proof.
  intros Hw Hn Hs. unfold finish_division. destruct hl.
  - destruct (cast_to_width_spec result n Hw Hs) as (r & -> & L & S & W1 & D & U). simpl.
    destruct (trim_vnum_spec (set_has_sign sg r)) as (T1 & _ & _ & T2 & T3).
    { split; [done|]. unfold len in *. simpl. lia. }
    rewrite T3 by done. eexists. split_and!; try done. split; [done|]. unfold len in *. simpl. lia.
  - simpl. destruct (trim_vnum_spec (set_has_sign sg result)) as (T1 & T2 & T3 & T4 & _); [done|].
    eexists. split_and!; try done.
Qed.

Lemma native_result_spec n hl v :
  (0 < n)%nat ->
  let r := native_result n hl v in
  wf_num r /\ has_len r = hl /\ is_single r = false /\ len r = n /\ has_sign r = false /\
  uval (bits_ r) = v mod pow2 n.
Proof.
  intros Hn. destruct (low_bits_spec n v) as (U & L & D). simpl.
  split_and!; try done. split; [done|]. unfold len. simpl. lia.
Qed.

(** The operands of a division whose narrow path sees the whole right operand. *)
Definition native_fits (l r : verinum) : Prop := (len l <= 64)%nat -> (len r <= 64)%nat.

Lemma as_ulong_spec v :
  wf_num v -> has_sign v = false -> (len v <= 64)%nat -> as_ulong v = to_Z v.
Proof.
  intros Hv Hs H. unfold as_ulong. rewrite (as_native_spec 64) by (done || lia).
  rewrite to_Z_unsigned by done. pose proof (uval_bound (bits_ v)).
  pose proof (pow2_le (len v) 64). unfold len in *. lia.
Qed.

Lemma is_zero_spec v : wf_num v -> is_zero v = (to_Z v =? 0).
Proof.
  intros [Hd Hl]. pose proof (uval_zero_iff _ Hd) as HZ. unfold is_zero.
  pose proof (uval_bound (bits_ v)). pose proof (to_Z_mod v) as HM.
  destruct (forallb _ (bits_ v)).
  - destruct HZ as [HZ _]. specialize (HZ eq_refl). unfold to_Z, sgn. rewrite HZ.
    assert (E : nth (len v - 1) (bits_ v) V0 = V0).
    { apply uval_zero_iff in HZ; [|done]. rewrite forallb_forall in HZ.
      apply V_eqb_eq, HZ, nth_In. unfold len in *. lia. }
    rewrite E. by destruct (has_sign v).
  - destruct (Z.eqb_spec (to_Z v) 0) as [E0|]; [|done].
    rewrite E0, Z.mod_0_l in HM by (pose proof (pow2_pos (len v)); lia).
    by apply HZ.
Qed.

Lemma quot_abs_sign a b :
  b <> 0 -> Z.quot a b = if xorb (a <? 0) (b <? 0) then - (Z.abs a / Z.abs b) else Z.abs a / Z.abs b.
Proof.
  intros Hb. rewrite <- (Z.quot_div_nonneg (Z.abs a)) by lia.
  repeat case_cmp; simpl.
  - by rewrite !Z.abs_neq, Z.quot_opp_opp by lia.
  - rewrite Z.abs_neq, Z.abs_eq, Z.quot_opp_l by lia. lia.
  - rewrite Z.abs_eq, Z.abs_neq, Z.quot_opp_r by lia. lia.
  - by rewrite !Z.abs_eq by lia.
Qed.

Lemma rem_abs_sign a b :
  b <> 0 -> Z.rem a b = if a <? 0 then - (Z.abs a mod Z.abs b) else Z.abs a mod Z.abs b.
Proof.
  intros Hb. rewrite <- (Z.rem_mod_nonneg (Z.abs a)) by lia. rewrite Z.rem_abs_r by done.
  case_cmp; [rewrite Z.abs_neq, Z.rem_opp_l by lia; lia|by rewrite Z.abs_eq by lia].
Qed.

(** Negating the magnitude of a quotient or a remainder. *)
Lemma vneg_small u q :
  wf_num u -> uval (bits_ u) = q -> q <= pow2 (len u - 1) ->
  has_len u = true \/ has_sign u = false ->
  exists v, vneg u = Some v /\ wf_num v /\ has_len v = has_len u /\ is_single v = false /\
    len v = len u /\ sval (bits_ v) = - q /\
    (has_sign u = true \/ q = 0 -> to_Z v = - q).
Proof.
  intros Hu E Hq HL. destruct (Hu) as [Hd Hl].
  destruct (vneg_spec u Hu) as (v & Ev & D & HL2 & HS & L & HU & _).
  destruct HU as [L2 U2]; [done|]. exists v. apply vneg_single in Ev as Es.
  pose proof (uval_bound (bits_ u)). pose proof (pow2_pos (len u - 1)).
  assert (ES : sval (bits_ v) = - q).
  { apply sval_residue; [done| |unfold len in *; rewrite L2; lia].
    rewrite U2. unfold len in *. rewrite L2, <- E.
    unfold to_Z. rewrite <- (Z.mod_add _ (- bz (sgn u))) by (pose proof (pow2_pos (len u)); lia).
    f_equal. unfold len. ring. }
  split_and!; try done. intros [H1| ->].
  - rewrite to_Z_signed; congruence.
  - pose proof (sval_mod (bits_ v)) as HM. rewrite ES, Z.mod_0_l in HM
      by (pose proof (pow2_pos (length (bits_ v))); lia).
    apply to_Z_either; [done|done|]. intros _. apply pow2_pos.
Qed.

Lemma sval_mod_le bs n : (n <= length bs)%nat -> sval bs mod pow2 n = uval bs mod pow2 n.
Proof. intros. symmetry. by apply (to_Z_mod_le (mkVerinum bs false true false false)). Qed.

(** The quotient that does not fit: the most negative value over -1, on the native
    path of an unsized division. *)
Definition quotient_wraps (l r : verinum) : Prop :=
  has_sign l = true /\ (len l <= 63)%nat /\ to_Z l = - pow2 (len l - 1) /\ to_Z r = -1.

(** Whether the result of an unsized division comes back flagged as sized. *)
Definition wide_division (l : verinum) : bool :=
  if has_sign l then (63 <? len l)%nat else (64 <? len l)%nat.

Lemma undefined_test l r :
  wf_num l -> wf_num r -> to_Z r <> 0 ->
  negb (is_defined l) || negb (is_defined r) || is_zero r = false.
Proof.
  intros Hl Hr Hz. rewrite !wf_num_is_defined, is_zero_spec by done. simpl. by case_cmp.
Qed.

Lemma quot_range a b n :
  b <> 0 -> - pow2 n <= a < pow2 n -> ~ (a = - pow2 n /\ b = -1) ->
  - pow2 n <= Z.quot a b < pow2 n.
Proof.
  intros Hb Ha Hx. pose proof (pow2_pos n).
  assert (HA : Z.abs (Z.quot a b) <= Z.abs a).
  { rewrite <- Z.quot_abs by done. rewrite Z.quot_div_nonneg by lia. apply Z.div_le_upper_bound; nia. }
  destruct (Z.eq_dec (Z.quot a b) (pow2 n)) as [E|]; [|lia].
  exfalso. apply Hx. pose proof (Z.quot_rem' a b) as Q. pose proof (Z.rem_bound_abs a b Hb).
  assert (Ea : a = - pow2 n) by lia. split; [done|].
  pose proof (Z.rem_nonpos a b Hb ltac:(lia)). rewrite E in Q.
  assert (Z.rem a b = - pow2 n * (b + 1)) by lia.
  destruct (Z.lt_trichotomy b (-1)) as [|[|]]; [nia|done|nia].
Qed.

(** The four ways a quotient is computed, before the width is settled: the raw
    result and the value it has under the sign flag of the division. *)
Definition raw_result (sg : bool) (n : nat) (fits : Prop) (T : Z) (res : verinum) : Prop :=
  wf_num res /\ (is_single res = false \/ (n <= len res)%nat) /\
  to_Z res mod pow2 n = T mod pow2 n /\
  (fits -> to_Z (set_has_sign sg res) = T).

Lemma finish_raw hl sg n fits T res :
  (0 < n)%nat -> raw_result sg n fits T res ->
  exists v, finish_division hl sg n res = Some v /\ wf_num v /\ has_sign v = sg /\
    has_len v = hl || has_len res /\
    (hl = true -> len v = n /\ uval (bits_ v) = T mod pow2 n) /\
    (hl = false -> fits -> to_Z v = T).
Proof.
  intros Hn (W1 & S1 & U1 & F1).
  destruct (finish_division_spec hl sg n res W1 Hn S1) as (v & -> & V1 & V2 & V3 & V4).
  exists v. split_and!; try done.
  - destruct hl; [by apply V3|]. by destruct V4.
  - intros E. destruct (V3 E) as (_ & ? & U). by rewrite U, U1.
  - intros E Hf. destruct (V4 E) as [_ ->]. by apply F1.
Qed.

Lemma native_raw (sg : bool) n hl T (fits : Prop) :
  (0 < n)%nat ->
  (fits -> (if sg then - pow2 (n - 1) else 0) <= T < (if sg then pow2 (n - 1) else pow2 n)) ->
  raw_result sg n fits T (native_result n hl T).
Proof.
  intros Hn Hf. destruct (native_result_spec n hl T Hn) as (W1 & HL1 & S1 & L1 & HS1 & U1).
  set (res := native_result _ _ _) in *. clearbody res. split_and!; [done|by left| |].
  - rewrite to_Z_unsigned, U1 by done. apply Z.mod_mod. pose proof (pow2_pos n). lia.
  - intros F. specialize (Hf F). destruct sg.
    + rewrite to_Z_signed by done. unfold len in *. apply sval_residue; simpl; by rewrite L1.
    + rewrite to_Z_unsigned by done. simpl. rewrite U1. by apply Z.mod_small.
Qed.

(** A division with a nonnegative quotient [q] and the sign it gets afterwards. *)
Lemma signed_raw n T (neg : bool) res :
  wf_num res -> is_single res = false \/ (n <= len res)%nat ->
  has_len res = true \/ has_sign res = false ->
  has_sign res = true \/ uval (bits_ res) = 0 \/ (n <= len res)%nat ->
  uval (bits_ res) <= pow2 (len res - 1) ->
  (neg = false -> uval (bits_ res) < pow2 (len res - 1)) ->
  T = (if neg then - uval (bits_ res) else uval (bits_ res)) ->
  exists res', (if neg then vneg res else Some res) = Some res' /\ has_len res' = has_len res /\
    raw_result true n True T res'.
Proof.
  intros W1 S1 HL HS Hq Hn HT. destruct neg.
  - destruct (vneg_small res _ W1 eq_refl Hq HL) as (v & E & V1 & V2 & V3 & V4 & V5 & V6).
    exists v. split_and!; [done|done|]. split_and!; [done|by left| |].
    + rewrite HT. destruct HS as [H|[H|H]].
      * by rewrite V6 by by left.
      * by rewrite V6 by by right.
      * rewrite <- V5, sval_mod_le by (unfold len in *; lia).
        symmetry. apply to_Z_mod_le. lia.
    + intros _. rewrite to_Z_signed by done. simpl. by rewrite V5.
  - exists res. specialize (Hn eq_refl). split_and!; [done|done|]. split_and!; try done.
    + f_equal. rewrite HT. apply to_Z_either; [by apply W1|done|done].
    + intros _. rewrite to_Z_signed by done. simpl. rewrite HT. apply uval_sval; [by apply W1|done].
Qed.

Lemma abs_div_bound a b : b <> 0 -> 0 <= Z.abs a / Z.abs b <= Z.abs a.
Proof. intros. split; [apply Z.div_pos; lia|apply Z.div_le_upper_bound; nia]. Qed.

Lemma vdiv_raw l r :
  wf_num l -> wf_num r -> has_sign l = has_sign r -> to_Z r <> 0 -> native_fits l r ->
  exists res, vdiv l r = finish_division (has_len l && has_len r) (has_sign l) (len l) res /\
    (has_len l && has_len r || has_len res = has_len l && has_len r || wide_division l) /\
    raw_result (has_sign l) (len l) (~ quotient_wraps l r) (Z.quot (to_Z l) (to_Z r)) res.
Proof.
  intros Hl Hr Hs H0 Hf. destruct (Hl) as [Dl Ll]. destruct (Hr) as [Dr Lr].
  unfold vdiv. rewrite undefined_test by done. rewrite <- Hs, andb_diag.
  unfold native_fits, quotient_wraps, wide_division in *.
  destruct (to_Z_range l Ll) as [RLs RLu]. destruct (to_Z_range r Lr) as [_ RRu].
  destruct (has_sign l) eqn:ES; symmetry in Hs.
  - specialize (RLs eq_refl). destruct (Nat.leb_spec (len l) 63).
    + specialize (Hf ltac:(lia)). rewrite !as_long_spec by (done || lia).
      destruct (Z.eqb_spec (to_Z r) 0); [done|].
      assert ((to_Z l =? LONG_MIN) = false) as ->.
      { apply Z.eqb_neq. unfold LONG_MIN. change (2 ^ 63) with (pow2 63).
        pose proof (pow2_lt (len l - 1) 63). lia. }
      eexists. split_and!; [done| |].
      * rewrite (proj2 (Nat.ltb_ge _ _)) by lia. unfold native_result. simpl has_len.
        by rewrite orb_false_r, orb_diag.
      * apply native_raw; [done|]. intros F. apply quot_range; [done|done|].
        intros [? ?]. by apply F.
    + destruct (magnitude_spec l Hl ES) as (ul & -> & WL & SL & UL & _).
      destruct (magnitude_spec r Hr Hs) as (ur & -> & WR & SR & UR & _). simpl.
      destruct (unsigned_divide_spec ul ur true) as (q & -> & Q1 & Q2 & Q3 & Q4 & Q5 & Q6);
        [done..|lia|]. destruct (Q6 eq_refl) as [Q7 Q8]. simpl.
      destruct (signed_raw (len l) (Z.quot (to_Z l) (to_Z r))
        (xorb (to_Z l <? 0) (to_Z r <? 0)) q) as (res & -> & E & HR); try done; auto; try lia.
      { destruct Q8; auto. }
      { rewrite quot_abs_sign, Q5, UL, UR by done. done. }
      exists res. split_and!; [done| |].
      * rewrite E, Q2. by rewrite (proj2 (Nat.ltb_lt _ _)) by lia.
      * destruct HR as (?&?&?&F). split_and!; try done. intros _. by apply F.
  - specialize (RLu eq_refl). specialize (RRu Hs). destruct (Nat.leb_spec (len l) 64).
    + specialize (Hf ltac:(lia)). rewrite !as_ulong_spec by (done || lia).
      destruct (Z.eqb_spec (to_Z r) 0); [done|].
      eexists. split_and!; [done| |].
      * rewrite (proj2 (Nat.ltb_ge _ _)) by lia. unfold native_result. simpl has_len.
        by rewrite orb_false_r, orb_diag.
      * apply native_raw; [done|]. intros _. rewrite Z.quot_div_nonneg by lia.
        pose proof (abs_div_bound (to_Z l) (to_Z r) H0) as B. rewrite !Z.abs_eq in B by lia. lia.
    + rewrite to_Z_unsigned in H0, RRu by done.
      destruct (unsigned_divide_spec l r false) as (q & -> & Q1 & Q2 & Q3 & Q4 & Q5 & Q6);
        [done..|lia|]. assert (has_sign q = false) as HQ by (destruct (has_sign q); [by specialize (Q4 eq_refl)|done]).
      exists q. split_and!; [done| |].
      * rewrite Q2. by rewrite (proj2 (Nat.ltb_lt _ _)) by lia.
      * rewrite !to_Z_unsigned by done. pose proof (uval_bound (bits_ l)).
        rewrite Z.quot_div_nonneg by lia. split_and!; try done; [by left|by rewrite to_Z_unsigned, Q5|].
        intros _. by rewrite to_Z_unsigned.
Qed.

Lemma vdiv_spec l r :
  wf_num l -> wf_num r -> has_sign l = has_sign r -> to_Z r <> 0 -> native_fits l r ->
  exists v, vdiv l r = Some v /\ wf_num v /\ has_sign v = has_sign l /\
    has_len v = (has_len l && has_len r || wide_division l) /\
    (has_len l && has_len r = true ->
     len v = len l /\ uval (bits_ v) = Z.quot (to_Z l) (to_Z r) mod pow2 (len l)) /\
    (has_len l && has_len r = false -> ~ quotient_wraps l r ->
     to_Z v = Z.quot (to_Z l) (to_Z r)).
Proof.
  intros Hl Hr Hs H0 Hf. destruct (vdiv_raw l r Hl Hr Hs H0 Hf) as (res & -> & HL & HR).
  rewrite <- HL. apply (finish_raw _ _ _ _ _ _ (wf_num_pos l Hl) HR).
Qed.

Lemma abs_mod_bound a b : b <> 0 -> 0 <= Z.abs a mod Z.abs b <= Z.abs a.
Proof.
  intros. split; [apply Z.mod_pos_bound; lia|]. apply Z.mod_le; lia.
Qed.

Lemma vmod_raw l r :
  wf_num l -> wf_num r -> has_sign l = has_sign r -> to_Z r <> 0 -> native_fits l r ->
  exists res, vmod l r = finish_division (has_len l && has_len r) (has_sign l) (len l) res /\
    (has_len l && has_len r || has_len res = has_len l && has_len r) /\
    raw_result (has_sign l) (len l) True (Z.rem (to_Z l) (to_Z r)) res.
Proof.
  intros Hl Hr Hs H0 Hf. destruct (Hl) as [Dl Ll]. destruct (Hr) as [Dr Lr].
  unfold vmod. rewrite undefined_test by done. rewrite <- Hs, andb_diag.
  unfold native_fits in *.
  destruct (to_Z_range l Ll) as [RLs RLu]. destruct (to_Z_range r Lr) as [_ RRu].
  pose proof (abs_mod_bound (to_Z l) (to_Z r) H0) as B.
  pose proof (rem_abs_sign (to_Z l) (to_Z r) H0) as RS.
  destruct (has_sign l) eqn:ES; symmetry in Hs.
  - specialize (RLs eq_refl). destruct (Nat.leb_spec (len l) 64).
    + specialize (Hf ltac:(lia)). rewrite !as_long_spec by (done || lia).
      destruct (Z.eqb_spec (to_Z r) 0); [done|].
      assert (EV : (if (to_Z l =? LONG_MIN) && (to_Z r =? -1) then 0 else Z.rem (to_Z l) (to_Z r))
                   = Z.rem (to_Z l) (to_Z r)).
      { destruct ((to_Z l =? LONG_MIN) && (to_Z r =? -1)) eqn:E; [|done].
        apply andb_true_iff in E as [->%Z.eqb_eq ->%Z.eqb_eq]. done. }
      cbv zeta. rewrite EV.
      eexists. split_and!; [done|by rewrite orb_diag|].
      apply native_raw; [done|]. intros _. rewrite RS.
      pose proof (pow2_pos (len l - 1)). repeat case_cmp; lia.
    + destruct (magnitude_spec l Hl ES) as (ul & -> & WL & SL & UL & LL).
      destruct (magnitude_spec r Hr Hs) as (ur & -> & WR & SR & UR & _). simpl.
      destruct (unsigned_modulus_spec ul ur) as (q & -> & [Q1 Q2 Q3 Q4] & _ & Q5);
        [done..|lia|]. simpl. rewrite UL, UR in Q4.
      pose proof (pow2_le (len l - 1) (len q - 1)).
      destruct (signed_raw (len l) (Z.rem (to_Z l) (to_Z r)) (to_Z l <? 0) q)
        as (res & -> & E & HR); try done; try (right; lia); auto; try lia.
      { rewrite RS, Q4. done. }
      exists res. split_and!; [done| |done]. rewrite E, Q2. by rewrite orb_false_r.
  - specialize (RLu eq_refl). specialize (RRu Hs). rewrite !Z.abs_eq in * by lia.
    destruct (Nat.leb_spec (len l) 64).
    + specialize (Hf ltac:(lia)). rewrite !as_ulong_spec by (done || lia).
      destruct (Z.eqb_spec (to_Z r) 0); [done|].
      eexists. split_and!; [done|by rewrite orb_diag|].
      apply native_raw; [done|]. intros _. rewrite RS. case_cmp; lia.
    + assert (0 < uval (bits_ r)) by (rewrite <- to_Z_unsigned by done; lia).
      destruct (unsigned_modulus_spec l r) as (q & -> & Rq & _ & Q5); [done..|].
      pose proof (reg_to_Z _ _ Rq) as EQ. destruct Rq as [Q1 Q2 Q3 Q4].
      assert (Z.rem (to_Z l) (to_Z r) = to_Z q) as ->.
      { rewrite EQ, RS. case_cmp; [lia|]. by rewrite !to_Z_unsigned by done. }
      exists q. split_and!; [done|by rewrite Q2, orb_false_r|].
      split_and!; try done; [by right; lia|]. intros _. by rewrite !to_Z_unsigned by done.
Qed.

Lemma vmod_spec l r :
  wf_num l -> wf_num r -> has_sign l = has_sign r -> to_Z r <> 0 -> native_fits l r ->
  exists v, vmod l r = Some v /\ wf_num v /\ has_sign v = has_sign l /\
    has_len v = has_len l && has_len r /\
    (has_len l && has_len r = true ->
     len v = len l /\ uval (bits_ v) = Z.rem (to_Z l) (to_Z r) mod pow2 (len l)) /\
    (has_len l && has_len r = false -> to_Z v = Z.rem (to_Z l) (to_Z r)).
Proof.
  intros Hl Hr Hs H0 Hf. destruct (vmod_raw l r Hl Hr Hs H0 Hf) as (res & -> & HL & HR).
  destruct (finish_raw (has_len l && has_len r) _ _ _ _ _ (wf_num_pos l Hl) HR)
    as (v & ? & ? & ? & EL & ? & F). rewrite HL in EL.
  exists v. split_and!; try done. intros E. by apply F.
Qed.

(** * Power *)

(** A number of the left operand's type that holds [T]. *)
Record typed_as (l : verinum) (T : Z) (v : verinum) : Prop := {
  ta_wf : wf_num v;
  ta_len : has_len v = has_len l;
  ta_sign : has_sign v = has_sign l;
  ta_sized : has_len l = true -> len v = len l /\ uval (bits_ v) = T mod pow2 (len l);
  ta_exact : has_len l = false -> to_Z v = T }.

Lemma trim_typed l T v : typed_as l T v -> typed_as l T (trim_vnum v).
Proof.
  intros [W1 L1 S1 Z1 E1]. destruct (trim_vnum_spec v W1) as (T1 & T2 & T3 & T4 & T5).
  split; try congruence.
  - intros H. rewrite T5 by congruence. by apply Z1.
  - intros H. rewrite T2. by apply E1.
Qed.

Lemma typed_refl l : wf_num l -> typed_as l (to_Z l) l.
Proof. intros. split; try done. intros _. by rewrite to_Z_mod. Qed.

(** A residue of the value is the value's residue. *)
Lemma to_Z_residue v T n : len v = n -> uval (bits_ v) = T mod pow2 n -> to_Z v mod pow2 n = T mod pow2 n.
Proof.
  intros <- E. rewrite to_Z_mod, E. done.
Qed.

Lemma mul_typed l a b A B :
  typed_as l A a -> typed_as l B b -> exists v, vmul a b = Some v /\ typed_as l (A * B) v.
Proof.
  intros [Wa La Sa Za Ea] [Wb Lb Sb Zb Eb].
  destruct (vmul_spec a b Wa Wb) as (v & E & W1 & HL & HS & HZ & HE).
  rewrite La, Lb, andb_diag in HL. rewrite Sa, Sb, andb_diag in HS.
  exists v. split; [done|]. split; try done.
  - intros H. destruct (Za H) as [La' Ua], (Zb H) as [Lb' Ub].
    destruct HZ as [L U]; [congruence|]. rewrite La', Lb', Nat.max_id in L. split; [done|].
    rewrite U, L, (Z.mul_mod (to_Z a)) by (pose proof (pow2_pos (len l)); lia).
    rewrite (to_Z_residue a A), (to_Z_residue b B), <- Z.mul_mod by
      (done || (pose proof (pow2_pos (len l)); lia)). done.
  - intros H. rewrite HE by congruence. by rewrite Ea, Eb.
Qed.

Lemma p_one_typed l :
  wf_num l -> exists v, make_p_one (len l) (has_len l) (has_sign l) = Some v /\ typed_as l 1 v.
Proof.
  intros [D L]. unfold make_p_one, set. set (n := if has_len l then len l else 2%nat).
  assert (0 < n)%nat by (unfold n; destruct (has_len l); lia).
  unfold len at 1. simpl. rewrite length_replicate. case_cmp; [|lia]. simpl.
  set (bs := <[0%nat:=V1]> (replicate n V0)).
  assert (LB : length bs = n) by (unfold bs; by rewrite length_insert, length_replicate).
  assert (UB : uval bs = 1).
  { unfold bs. rewrite uval_set_bit.
    - by rewrite uval_replicate_0, pow2_0.
    - by rewrite length_replicate.
    - by rewrite nth_lookup, lookup_replicate_2. }
  assert (DB : defined bs) by (apply defined_insert; [apply defined_replicate|]; auto).
  eexists. split; [done|]. split; simpl; try done.
  - split; [done|]. unfold len. simpl. lia.
  - intros E. unfold len. simpl. rewrite LB, UB. unfold n. rewrite E. split; [done|].
    rewrite Z.mod_small; [done|]. pose proof (pow2_le 1 (len l)). change (pow2 1) with 2 in *. 
    unfold len in *. lia.
  - intros E. apply to_Z_either; simpl; [unfold len; simpl; lia|done|]. intros _.
    unfold len. simpl. rewrite LB. unfold n. by rewrite E.
Qed.

(** The exponent as the recursion sees it: a defined number that is not negative. *)
Definition exponent (r : verinum) (k : Z) : Prop := wf_num r /\ to_Z r = k /\ 0 <= k.

Lemma bit0_odd r k : wf_num r -> to_Z r = k -> get r 0 = Some (if Z.odd k then V1 else V0).
Proof.
  intros [D L] E. unfold get.
  destruct (bits_ r) as [|b bs] eqn:EB; [unfold len in L; rewrite EB in L; simpl in L; lia|].
  assert (U : uval (bits_ r) mod 2 = k mod 2).
  { rewrite <- E. unfold to_Z. destruct (len r) as [|n]; [lia|]. rewrite pow2_S.
    rewrite <- (Z.mod_add (uval _ - _) (bz (sgn r) * pow2 n)) by lia. f_equal. ring. }
  rewrite EB in U. cbn [uval] in U. simpl. f_equal.
  rewrite (Z.mul_comm 2), Z.mod_add, (Zmod_odd k) in U by lia.
  inversion D; subst. destruct H1 as [-> | ->], (Z.odd (to_Z r)); done.
Qed.

Lemma exponent_bit0 r k : exponent r k -> get r 0 = Some (if Z.odd k then V1 else V0).
Proof. intros (? & ? & _). by apply bit0_odd. Qed.

Lemma exponent_dec r k :
  exponent r k -> Z.odd k = true -> exists v, set r 0 V0 = Some v /\ exponent v (k - 1) /\ len v = len r.
Proof.
  intros Hr Ho. pose proof (exponent_bit0 r k Hr) as B. rewrite Ho in B.
  destruct Hr as ([D L] & E & Hk). unfold set, get in *. case_cmp; [|lia].
  eexists. split; [done|]. unfold len. simpl. rewrite length_insert. split; [|done].
  destruct (bits_ r) as [|b bs] eqn:EB; [done|]. simpl in B. injection B as ->.
  assert (Hk1 : 1 <= k) by (destruct (Z.eq_dec k 0) as [->|]; [done|lia]).
  assert (U : uval (V0 :: bs) = uval (V1 :: bs) - 1) by (cbn [uval]; rewrite bz_V0, bz_V1; lia).
  simpl insert.
  split_and!; [|unfold to_Z, sgn, len in *; simpl; rewrite EB in *; simpl in *|lia].
  - split; [|by unfold len; simpl; lia]. simpl. inversion D; subst. constructor; auto.
  - destruct bs as [|b1 bs].
    + simpl in *. destruct (has_sign r); simpl in *; rewrite ?bz_V0, ?bz_V1 in *; 
        change (pow2 1) with 2 in *; lia.
    + simpl nth in *. rewrite Nat.sub_0_r in *. simpl nth in *. cbn [uval] in *.
      rewrite ?bz_V0, ?bz_V1 in *. destruct (length bs); simpl in *; destruct (has_sign r); lia.
Qed.

Lemma exponent_half r k :
  exponent r k -> exists v, vshr r 1 = Some v /\ exponent v (k / 2).
Proof.
  intros (Hw & E & Hk). destruct (vshr_spec r 1 Hw) as (v & Ev & W1 & _ & _ & _ & T).
  exists v. split; [done|]. split_and!; [done| |apply Z.div_pos; lia]. by rewrite T, E.
Qed.

(** One activation on a non-negative exponent. *)
Lemma pow_step_spec f l r k :
  wf_num l -> exponent r k -> 0 < k ->
  (forall r' k', exponent r' k' -> (Z.odd k = true -> k' = k - 1) -> (Z.odd k = false -> k' = k / 2) ->
     exists v, f l r' = Some v /\ typed_as l (to_Z l ^ k') v) ->
  exists v, pow_step f l r = Some v /\ typed_as l (to_Z l ^ k) v.
Proof.
  intros Hl Hr Hk IH. pose proof (exponent_bit0 r k Hr) as B. destruct (Hr) as (Wr & Er & _).
  unfold pow_step. destruct (p_one_typed l Hl) as (p1 & -> & _). simpl.
  rewrite !wf_num_is_defined, is_zero_spec, is_negative_spec, Er by done.
  replace (k =? 0) with false by (symmetry; apply Z.eqb_neq; lia).
  replace (k <? 0) with false by (symmetry; apply Z.ltb_ge; lia).
  rewrite andb_false_r. simpl. unfold recursive_pow. rewrite is_zero_spec, Er, B by done.
  replace (k =? 0) with false by (symmetry; apply Z.eqb_neq; lia). simpl.
  destruct (Z.odd k) eqn:Ho; simpl.
  - destruct (exponent_dec r k Hr Ho) as (r' & -> & Hr' & _). simpl.
    destruct (IH r' (k - 1) Hr') as (v & -> & Tv); [done|done|]. simpl.
    destruct (mul_typed l l v _ _ (typed_refl l Hl) Tv) as (w & -> & Tw). simpl.
    eexists. split; [done|]. apply trim_typed.
    replace (to_Z l ^ k) with (to_Z l * to_Z l ^ (k - 1)); [done|].
    rewrite <- Z.pow_succ_r by lia. f_equal. lia.
  - destruct (exponent_half r k Hr) as (r' & -> & Hr'). simpl.
    destruct (IH r' (k / 2) Hr') as (v & -> & Tv); [done|done|]. simpl.
    destruct (mul_typed l v v _ _ Tv Tv) as (w & -> & Tw). simpl.
    eexists. split; [done|]. apply trim_typed.
    replace (to_Z l ^ k) with (to_Z l ^ (k / 2) * to_Z l ^ (k / 2)); [done|].
    rewrite <- Z.pow_add_r by (apply Z.div_pos; lia). f_equal.
    pose proof (Zmod_odd k) as M. rewrite Ho in M. Z.div_mod_to_equations. lia.
Qed.

Lemma pow_step_zero f l r :
  wf_num l -> exponent r 0 -> exists v, pow_step f l r = Some v /\ typed_as l (to_Z l ^ 0) v.
Proof.
  intros Hl (Wr & Er & _). unfold pow_step.
  destruct (p_one_typed l Hl) as (p1 & -> & T1). simpl.
  rewrite !wf_num_is_defined, is_zero_spec, Er by done. simpl.
  eexists. split; [done|]. by apply trim_typed.
Qed.

(** Two activations per exponent bit. *)
Lemma pow_fuel_spec n l :
  wf_num l ->
  forall r k f, exponent r k -> k < pow2 n -> (2 * n + 1 <= f)%nat ->
  exists v, pow_fuel f l r = Some v /\ typed_as l (to_Z l ^ k) v.
Proof.
  intros Hl. induction n as [|n IH]; intros r k f Hr Hk Hf.
  - rewrite pow2_0 in Hk. pose proof Hr as (_ & _ & H0). assert (k = 0) as -> by lia.
    destruct f; [lia|]. by apply pow_step_zero.
  - assert (EV : forall r k f, exponent r k -> Z.odd k = false -> k < pow2 (S n) ->
      (2 * S n <= f)%nat -> exists v, pow_fuel f l r = Some v /\ typed_as l (to_Z l ^ k) v).
    { clear r k f Hr Hk Hf. intros r k f Hr Ho Hk Hf. destruct f as [|f]; [lia|].
      pose proof Hr as (_ & _ & H0). cbn [pow_fuel].
      destruct (Z.eq_dec k 0) as [->|]; [by apply pow_step_zero|].
      apply pow_step_spec; [done|done|lia|]. intros r' k' Hr' _ Hk'.
      rewrite pow2_S in Hk. apply IH; [done| |lia]. rewrite Hk' by done.
      apply Z.div_lt_upper_bound; lia. }
    destruct (Z.odd k) eqn:Ho; [|apply EV; [done..|lia]].
    destruct f as [|f]; [lia|]. cbn [pow_fuel]. pose proof Hr as (_ & _ & H0).
    destruct (Z.eq_dec k 0) as [->|]; [done|].
    apply pow_step_spec; [done|done|lia|]. intros r' k' Hr' Hk' _.
    apply EV; [done| | |lia]; rewrite Hk' by done; [|lia].
    by rewrite Z.odd_sub, Ho.
Qed.

Lemma vpow_spec l r :
  wf_num l -> wf_num r -> 0 <= to_Z r ->
  exists v, vpow l r = Some v /\ typed_as l (to_Z l ^ to_Z r) v.
Proof.
  intros Hl Hr H0. apply (pow_fuel_spec (len r)); [done|done| |lia].
  apply to_Z_neg_bound, Hr.
Qed.

(** A negative exponent: the table of IEEE 1364. *)
Definition pow_negative (base expo : Z) : Z :=
  if base =? 1 then 1
  else if base =? -1 then (if Z.odd expo then -1 else 1)
  else 0.

Lemma m_one_typed l :
  wf_num l -> has_sign l = true ->
  let m := make_m_one (len l) (has_len l) (has_sign l) in typed_as l (-1) m /\ to_Z m = -1.
Proof.
  intros [D L] Hs m. unfold m, make_m_one.
  set (n := if has_len l then len l else 1%nat).
  assert (Hn : (0 < n)%nat) by (unfold n; destruct (has_len l); lia).
  assert (T : to_Z (set_has_sign (has_sign l) (verinum_fill V1 n (has_len l))) = -1).
  { rewrite to_Z_signed by done. simpl. by rewrite sval_replicate, bz_V1. }
  split; [|done]. split; try done.
  - split; [apply defined_replicate; auto|]. unfold len. simpl. by rewrite length_replicate.
  - intros E. unfold len. simpl. rewrite length_replicate, uval_replicate, bz_V1. unfold n.
    rewrite E. split; [done|]. unfold len.
    rewrite <- (Z.mod_add (-1) 1) by (pose proof (pow2_pos (length (bits_ l))); lia).
    symmetry. pose proof (pow2_pos (length (bits_ l))). rewrite Z.mod_small; lia.
Qed.

Lemma veq_typed l v T :
  wf_num l -> typed_as l T v -> veq l v = Some (bool_V (to_Z l =? to_Z v)).
Proof.
  intros Hl [Wv _ Sv _ _]. rewrite veq_spec, Sv, andb_diag by done. unfold cmp_val.
  destruct (has_sign l) eqn:E; [done|]. by rewrite !to_Z_unsigned by congruence.
Qed.

(** 1 is itself unless the type is a single signed bit. *)
Lemma one_to_Z l v :
  wf_num l -> typed_as l 1 v -> to_Z v = 1 \/ (has_sign l = true /\ len l = 1%nat /\ has_len l = true).
Proof.
  intros [D L] [Wv Lv Sv Zv Ev]. destruct (has_len l) eqn:EL; [|by left; apply Ev].
  destruct (Zv eq_refl) as [L1 U1]. pose proof (pow2_le 1 (len l) ltac:(lia)) as P.
  change (pow2 1) with 2 in P. rewrite Z.mod_small in U1 by lia.
  destruct (Nat.eq_dec (len l) (S O)) as [E1|].
  - destruct (has_sign l) eqn:ES; [by right|]. left. by rewrite to_Z_unsigned.
  - left. apply to_Z_either; [by apply Wv|done|]. intros _.
    pose proof (pow2_le 1 (len v - 1) ltac:(lia)). change (pow2 1) with 2 in *. lia.
Qed.

Lemma vpow_negative_spec l r :
  wf_num l -> wf_num r -> to_Z r < 0 -> to_Z l <> 0 ->
  exists v, vpow l r = Some v /\ typed_as l (pow_negative (to_Z l) (to_Z r)) v.
Proof.
  intros Hl Hr Hn H0. unfold vpow. rewrite Nat.add_comm. simpl Nat.add. cbn [pow_fuel].
  set (f := pow_fuel _). clearbody f. unfold pow_step.
  destruct (p_one_typed l Hl) as (p1 & -> & T1). simpl.
  rewrite !wf_num_is_defined, !is_zero_spec, is_negative_spec by done.
  rewrite (bit0_odd r (to_Z r)) by done.
  assert (has_sign r = true) as ->.
  { destruct (has_sign r) eqn:E; [done|]. destruct (to_Z_range r (wf_num_pos r Hr)) as [_ B].
    specialize (B E). lia. }
  rewrite (proj2 (Z.ltb_lt _ _) Hn), (proj2 (Z.eqb_neq (to_Z r) 0)), (proj2 (Z.eqb_neq _ _) H0) by lia.
  simpl. rewrite (veq_typed _ _ _ Hl T1). simpl. unfold pow_negative.
  assert (HM : exists b, (if has_sign l then veq l (make_m_one (len l) (has_len l) (has_sign l)) else Some V0)
     = Some (bool_V b) /\ (b = (to_Z l =? -1)) /\
       (b = true -> typed_as l (-1) (make_m_one (len l) (has_len l) (has_sign l)))).
  { destruct (has_sign l) eqn:ES.
    - destruct (m_one_typed l Hl ES) as [Tm Em]. rewrite ES in Tm, Em.
      rewrite (veq_typed _ _ _ Hl Tm), Em. by eexists.
    - exists false. split_and!; [done| |done]. symmetry. apply Z.eqb_neq.
      destruct (to_Z_range l (wf_num_pos l Hl)) as [_ B]. specialize (B ES). lia. }
  destruct HM as (b & -> & Eb & Tm). simpl.
  assert (HO : to_Z p1 = 1 \/ to_Z l = -1).
  { destruct (one_to_Z l p1 Hl T1) as [?|(S1 & L1 & _)]; [by left|]. right.
    destruct (to_Z_range l (wf_num_pos l Hl)) as [B _]. specialize (B S1). rewrite L1 in B.
    change (pow2 (1 - 1)) with 1 in B. lia. }
  destruct b; symmetry in Eb; simpl.
  - apply Z.eqb_eq in Eb. rewrite Eb. simpl. eexists. split; [done|]. apply trim_typed.
    destruct (Z.odd (to_Z r)); [by apply Tm|done].
  - rewrite Eb. apply Z.eqb_neq in Eb. destruct HO as [->|]; [|done].
    destruct (Z.eqb_spec (to_Z l) 1); simpl; (eexists; split; [done|]); apply trim_typed; [done|].
    destruct Hl as [D L]. split; try done.
    + split; [apply defined_replicate; auto|]. unfold len in *. simpl. by rewrite length_replicate.
    + intros _. unfold len in *. simpl. rewrite length_replicate, uval_replicate_0.
      split; [done|]. rewrite Z.mod_0_l; [done|]. pose proof (pow2_pos (length (bits_ l))). lia.
    + intros _. apply to_Z_either; simpl; unfold len in *; simpl; rewrite ?length_replicate; try done.
      { apply uval_replicate_0. } intros _. apply pow2_pos.
Qed.

(** ** Undefined powers *)

(** A result of unknown bits in the type of [l]. *)
Record unknown_as (l v : verinum) : Prop := {
  ua_bits : Forall (eq Vx) (bits_ v);
  ua_pos : (0 < len v)%nat;
  ua_len : has_len v = has_len l;
  ua_sign : has_sign v = has_sign l;
  ua_sized : has_len l = true -> len v = len l }.

Lemma trim_unknown l v : unknown_as l v -> unknown_as l (trim_vnum v).
Proof.
  intros HU. unfold trim_vnum. destruct (has_len v) eqn:E; [done|]. case_cmp; [done|]. pose proof HU as [B P L S Z].
  assert (HT : forall t, (0 < t)%nat -> unknown_as l (set_has_sign (has_sign v) (verinum_of_bits (take t (bits_ v)) false))).
  { intros t Ht. assert (L' : has_len l = false) by (by rewrite <- L). split.
    - by apply Forall_take.
    - unfold len in *. cbn. rewrite length_take. lia.
    - done.
    - exact S.
    - by rewrite L'. }
  cbv zeta. destruct (has_sign v); [apply HT; lia|]. case_match; [exact HU|]. apply HT. case_match; lia.
Qed.

Lemma undefined_unknown l : (0 < len l)%nat -> unknown_as l (undefined_result (len l) (has_len l) (has_sign l)).
Proof.
  intros Hp. unfold undefined_result. split; [by apply Forall_replicate| |done..|];
    unfold len in *; cbn; by rewrite length_replicate.
Qed.

Lemma vpow_undefined l r :
  (0 < len l)%nat -> is_defined l && is_defined r = false ->
  vpow l r = Some (trim_vnum (undefined_result (len l) (has_len l) (has_sign l))).
Proof.
  intros Hp Hu. unfold vpow. rewrite Nat.add_comm. cbn [Nat.add pow_fuel]. unfold pow_step, make_p_one, set.
  assert (HL : forall n, len (verinum_fill V0 n (has_len l)) = n) by (intros n; unfold len; cbn; apply length_replicate).
  rewrite <- negb_andb, Hu, HL.
  rewrite (proj2 (Nat.ltb_lt _ _)); [done|]. destruct (has_len l); lia.
Qed.

Lemma vpow_zero_negative l r :
  wf_num l -> wf_num r -> to_Z r < 0 -> to_Z l = 0 ->
  vpow l r = Some (trim_vnum (undefined_result (len l) (has_len l) (has_sign l))).
Proof.
  intros Hl Hr Hn H0. unfold vpow. rewrite Nat.add_comm. simpl Nat.add. cbn [pow_fuel].
  set (f := pow_fuel _). clearbody f. unfold pow_step.
  destruct (p_one_typed l Hl) as (p1 & -> & T1). simpl.
  rewrite !wf_num_is_defined, !is_zero_spec, is_negative_spec by done.
  assert (has_sign r = true) as ->.
  { destruct (has_sign r) eqn:E; [done|]. destruct (to_Z_range r (wf_num_pos r Hr)) as [_ B].
    specialize (B E). lia. }
  by rewrite (proj2 (Z.ltb_lt _ _) Hn), (proj2 (Z.eqb_neq (to_Z r) 0)), (proj2 (Z.eqb_eq _ _) H0) by lia.
Qed.
