(* ===== verification/VvpBit.v ===== *)
(** The four-valued bit of the run time ([vvp/vvp_net.h], [vvp/vvp_net.cc]): its
    numeric encoding, the operators that work on the encoding, edges, and the
    interface of four-valued logic that this type and the elaborator's [verinum::V]
    both implement. *)
From S2P Require Import Prelude Verinum.

(** * Definitions *)

(** [enum vvp_bit4_t { BIT4_0 = 0, BIT4_1 = 1, BIT4_X = 3, BIT4_Z = 2 }]. *)
Inductive vvp_bit4_t := BIT4_0 | BIT4_1 | BIT4_X | BIT4_Z.

#[export] Instance bit4_eq_dec : EqDecision vvp_bit4_t.
Proof. solve_decision. Defined.

Definition bit4_eqb (a b : vvp_bit4_t) : bool := bool_decide (a = b).

(** The enumeration constant, and the cast of an [int] back to the enumeration. *)
Definition bit4_num (a : vvp_bit4_t) : Z :=
  match a with BIT4_0 => 0 | BIT4_1 => 1 | BIT4_X => 3 | BIT4_Z => 2 end.

Definition bit4_cast (n : Z) : vvp_bit4_t :=
  if n =? 0 then BIT4_0 else if n =? 1 then BIT4_1 else if n =? 2 then BIT4_Z else BIT4_X.

(** ["01zx"[a]], as character codes. *)
Definition vvp_bit4_to_ascii (a : vvp_bit4_t) : Z :=
  nth (Z.to_nat (bit4_num a)) [48; 49; 122; 120] 0.

Definition bit4_is_xz (a : vvp_bit4_t) : bool := 2 <=? bit4_num a.

Definition bit4_z2x (a : vvp_bit4_t) : vvp_bit4_t :=
  bit4_cast (Z.lor (bit4_num a) (Z.shiftr (bit4_num a) 1)).

Definition bit4_not (a : vvp_bit4_t) : vvp_bit4_t :=
  bit4_z2x (bit4_cast (Z.lxor (bit4_num a) 1)).

Definition bit4_or (a b : vvp_bit4_t) : vvp_bit4_t :=
  if bit4_eqb a BIT4_1 || bit4_eqb b BIT4_1 then BIT4_1
  else bit4_z2x (bit4_cast (Z.lor (bit4_num a) (bit4_num b))).

Definition bit4_and (a b : vvp_bit4_t) : vvp_bit4_t :=
  if bit4_eqb a BIT4_0 || bit4_eqb b BIT4_0 then BIT4_0
  else bit4_z2x (bit4_cast (Z.lor (bit4_num a) (bit4_num b))).

Definition bit4_xor (a b : vvp_bit4_t) : vvp_bit4_t :=
  if bit4_is_xz a then BIT4_X else
  if bit4_is_xz b then BIT4_X else
  if bit4_eqb a BIT4_0 then b else
  if bit4_eqb b BIT4_0 then a else BIT4_0.

(** [add_with_carry(vvp_bit4_t, vvp_bit4_t, vvp_bit4_t&)]: sum bit and new carry;
    the last case is the assertion failure. *)
Definition bit4_add_with_carry (a b c : vvp_bit4_t) : option (vvp_bit4_t * vvp_bit4_t) :=
  if bit4_is_xz a || bit4_is_xz b || bit4_is_xz c then Some (BIT4_X, BIT4_X) else
  let sum := bit4_num a + bit4_num b + bit4_num c in
  if sum =? 0 then Some (BIT4_0, c) else
  if sum =? 1 then Some (BIT4_1, BIT4_0) else
  if sum =? 2 then Some (BIT4_0, BIT4_1) else
  if sum =? 3 then Some (BIT4_1, BIT4_1) else None.

(** [scalar_to_bit4]: [vpi0], [vpi1], [vpiX] and [vpiZ] of [vpi_user.h]. *)
Definition scalar_to_bit4 (scalar : Z) : option vvp_bit4_t :=
  if scalar =? 0 then Some BIT4_0 else
  if scalar =? 1 then Some BIT4_1 else
  if scalar =? 3 then Some BIT4_X else
  if scalar =? 2 then Some BIT4_Z else None.

(** [update_driver_counts]: the counters of 0, 1 and X drivers. *)
Definition update_driver_counts (bit : vvp_bit4_t) (counts : nat * nat * nat) : nat * nat * nat :=
  let '(n0, n1, nx) := counts in
  match bit with
  | BIT4_0 => (S n0, n1, nx)
  | BIT4_1 => (n0, S n1, nx)
  | BIT4_X => (n0, n1, S nx)
  | BIT4_Z => counts
  end.

(** ** Edges: a 16-bit set of transitions *)

Definition VVP_EDGE (from to : vvp_bit4_t) : Z :=
  Z.land (Z.shiftl 1 (Z.lor (Z.shiftl (bit4_num from) 2) (bit4_num to))) 65535.

Definition vvp_edge_posedge : Z :=
  Z.lor (Z.lor (Z.lor (Z.lor (VVP_EDGE BIT4_0 BIT4_1) (VVP_EDGE BIT4_0 BIT4_X))
    (VVP_EDGE BIT4_0 BIT4_Z)) (VVP_EDGE BIT4_X BIT4_1)) (VVP_EDGE BIT4_Z BIT4_1).

Definition vvp_edge_negedge : Z :=
  Z.lor (Z.lor (Z.lor (Z.lor (VVP_EDGE BIT4_1 BIT4_0) (VVP_EDGE BIT4_1 BIT4_X))
    (VVP_EDGE BIT4_1 BIT4_Z)) (VVP_EDGE BIT4_X BIT4_0)) (VVP_EDGE BIT4_Z BIT4_0).

Definition edge (from to : vvp_bit4_t) : Z :=
  let mask := VVP_EDGE from to in
  if negb (Z.land mask vvp_edge_posedge =? 0) then 1 else
  if negb (Z.land mask vvp_edge_negedge =? 0) then -1 else 0.

(** * The two planes of a bit *)

(** The [abit] and [bbit] of a bit, as the vectors store them. *)
Definition abit (a : vvp_bit4_t) : bool := Z.testbit (bit4_num a) 0.
Definition bbit (a : vvp_bit4_t) : bool := Z.testbit (bit4_num a) 1.

Definition of_planes (a b : bool) : vvp_bit4_t :=
  match a, b with
  | false, false => BIT4_0
  | true, false => BIT4_1
  | true, true => BIT4_X
  | false, true => BIT4_Z
  end.

Lemma of_planes_abit a : of_planes (abit a) (bbit a) = a.
Proof. by destruct a. Qed.

Lemma abit_of_planes a b : abit (of_planes a b) = a.
Proof. by destruct a, b. Qed.

Lemma bbit_of_planes a b : bbit (of_planes a b) = b.
Proof. by destruct a, b. Qed.

Lemma of_planes_inj a b a' b' : of_planes a b = of_planes a' b' -> a = a' /\ b = b'.
Proof. by destruct a, b, a', b'. Qed.

(** The operators on the planes, which the word-parallel code computes. *)
Lemma not_planes a b : bit4_not (of_planes a b) = of_planes (b || negb a) b.
Proof. by destruct a, b. Qed.

Lemma and_planes a b a' b' :
  bit4_and (of_planes a b) (of_planes a' b')
  = of_planes ((a || b) && (a' || b')) (((a || b) && b') || ((a' || b') && b)).
Proof. by destruct a, b, a', b'. Qed.

Lemma or_planes a b a' b' :
  bit4_or (of_planes a b) (of_planes a' b')
  = of_planes (a || b || a' || b') (((negb a || b) && b') || ((negb a' || b') && b)).
Proof. by destruct a, b, a', b'. Qed.

Lemma z2x_planes a b : bit4_z2x (of_planes a b) = of_planes (a || b) b.
Proof. by destruct a, b. Qed.

Lemma is_xz_bbit a : bit4_is_xz a = bbit a.
Proof. by destruct a. Qed.

(** * Four-valued logic *)

(** What the two implementations promise: four constants that exhaust the type and
    the operators of IEEE 1364 on them, an unknown operand making the result unknown
    unless the other one decides it. *)
Class FourValued (B : Type) := {
  fv_0 : B; fv_1 : B; fv_x : B; fv_z : B;
  fv_not : B -> B;
  fv_and : B -> B -> B;
  fv_or : B -> B -> B;
  fv_xor : B -> B -> B;
  fv_adc : B -> B -> B -> option (B * B) }.

Class FourValuedLaws (B : Type) `{EqDecision B} `{FourValued B} := {
  fv_cases : forall b : B, b = fv_0 \/ b = fv_1 \/ b = fv_x \/ b = fv_z;
  fv_distinct : (fv_0 : B) <> fv_1 /\ (fv_0 : B) <> fv_x /\ (fv_1 : B) <> fv_x /\
    (fv_0 : B) <> fv_z /\ (fv_1 : B) <> fv_z /\ (fv_x : B) <> fv_z;
  fv_not_law : fv_not fv_0 = (fv_1 : B) /\ fv_not fv_1 = (fv_0 : B) /\
    fv_not fv_x = (fv_x : B) /\ fv_not fv_z = (fv_x : B);
  fv_and_comm : forall a b : B, fv_and a b = fv_and b a;
  fv_and_0 : forall a : B, fv_and fv_0 a = fv_0;
  fv_and_1 : forall a : B, fv_and fv_1 a = fv_not (fv_not a);
  fv_and_unknown : forall a b : B,
    a = fv_x \/ a = fv_z -> b = fv_x \/ b = fv_z -> fv_and a b = fv_x;
  fv_de_morgan : forall a b : B, fv_or a b = fv_not (fv_and (fv_not a) (fv_not b));
  fv_xor_law : forall a b : B,
    fv_xor a b = fv_or (fv_and a (fv_not b)) (fv_and (fv_not a) b);
  fv_adc_law : forall a b c : B,
    fv_adc a b c =
      if forallb (fun d => bool_decide (d = fv_0) || bool_decide (d = fv_1)) [a; b; c]
      then Some (fv_xor (fv_xor a b) c, fv_or (fv_and a b) (fv_and c (fv_or a b)))
      else Some (fv_x, fv_x) }.

#[export] Instance V_four_valued : FourValued V := {
  fv_0 := V0; fv_1 := V1; fv_x := Vx; fv_z := Vz;
  fv_not := V_not; fv_and := V_and; fv_or := V_or; fv_xor := V_xor;
  fv_adc := fun a b c => Some (Verinum.add_with_carry a b c) }.

#[export] Instance V_four_valued_laws : FourValuedLaws V.
Proof.
  split; cbn.
  - intros []; auto.
  - done.
  - done.
  - by intros [] [].
  - by intros [].
  - by intros [].
  - by intros [] [] [] [].
  - by intros [] [].
  - by intros [] [].
  - by intros [] [] [].
Qed.

#[export] Instance bit4_four_valued : FourValued vvp_bit4_t := {
  fv_0 := BIT4_0; fv_1 := BIT4_1; fv_x := BIT4_X; fv_z := BIT4_Z;
  fv_not := bit4_not; fv_and := bit4_and; fv_or := bit4_or; fv_xor := bit4_xor;
  fv_adc := bit4_add_with_carry }.

#[export] Instance bit4_four_valued_laws : FourValuedLaws vvp_bit4_t.
Proof.
  split; cbn.
  - intros []; auto.
  - done.
  - done.
  - by intros [] [].
  - by intros [].
  - by intros [].
  - by intros [] [] [] [].
  - by intros [] [].
  - by intros [] [].
  - by intros [] [] [].
Qed.

(** The laws determine the operators: two implementations agree under the map that
    sends each constant to its namesake. *)
Section Uniqueness.
Context {A B : Type} `{EqDecision A, EqDecision B}.
Context `{!FourValued A, !FourValued B, !FourValuedLaws A, !FourValuedLaws B}.

Definition fv_map (a : A) : B :=
  if decide (a = fv_0) then fv_0 else if decide (a = fv_1) then fv_1
  else if decide (a = fv_x) then fv_x else fv_z.

Lemma fv_map_0 : fv_map fv_0 = fv_0.
Proof. unfold fv_map. by case_decide. Qed.

Lemma fv_map_1 : fv_map fv_1 = fv_1.
Proof. destruct (fv_distinct (B := A)). unfold fv_map. repeat case_decide; congruence. Qed.

Lemma fv_map_x : fv_map fv_x = fv_x.
Proof.
  destruct (fv_distinct (B := A)) as (? & ? & ? & _). unfold fv_map.
  repeat case_decide; congruence.
Qed.

Lemma fv_map_z : fv_map fv_z = fv_z.
Proof.
  destruct (fv_distinct (B := A)) as (? & ? & ? & ? & ? & ?). unfold fv_map.
  repeat case_decide; congruence.
Qed.

Lemma fv_map_not (a : A) : fv_map (fv_not a) = fv_not (fv_map a).
Proof.
  destruct (fv_not_law (B := A)) as (N0 & N1 & Nx & Nz).
  destruct (fv_not_law (B := B)) as (M0 & M1 & Mx & Mz).
  destruct (fv_cases a) as [-> |[-> |[-> | ->]]];
    rewrite ?N0, ?N1, ?Nx, ?Nz, ?fv_map_0, ?fv_map_1, ?fv_map_x, ?fv_map_z,
      ?M0, ?M1, ?Mx, ?Mz; done.
Qed.

Lemma fv_map_and (a b : A) : fv_map (fv_and a b) = fv_and (fv_map a) (fv_map b).
Proof.
  destruct (fv_cases a) as [-> |[-> |Ha]].
  - by rewrite fv_map_0, !fv_and_0, fv_map_0.
  - by rewrite fv_map_1, !fv_and_1, !fv_map_not.
  - destruct (fv_cases b) as [-> |[-> |Hb]].
    + by rewrite fv_map_0, !(fv_and_comm _ fv_0), !fv_and_0, fv_map_0.
    + by rewrite fv_map_1, !(fv_and_comm _ fv_1), !fv_and_1, !fv_map_not.
    + rewrite fv_and_unknown, fv_and_unknown, fv_map_x; try done.
      * destruct Ha as [-> | ->]; rewrite ?fv_map_x, ?fv_map_z; auto.
      * destruct Hb as [-> | ->]; rewrite ?fv_map_x, ?fv_map_z; auto.
Qed.

Lemma fv_map_or (a b : A) : fv_map (fv_or a b) = fv_or (fv_map a) (fv_map b).
Proof. by rewrite !fv_de_morgan, fv_map_not, fv_map_and, !fv_map_not. Qed.

Lemma fv_map_xor (a b : A) : fv_map (fv_xor a b) = fv_xor (fv_map a) (fv_map b).
Proof. by rewrite !fv_xor_law, fv_map_or, !fv_map_and, !fv_map_not. Qed.
End Uniqueness.

Definition bit4_of_V : V -> vvp_bit4_t := fv_map.

Lemma bit4_of_V_eq b :
  bit4_of_V b = match b with V0 => BIT4_0 | V1 => BIT4_1 | Vx => BIT4_X | Vz => BIT4_Z end.
Proof. by destruct b. Qed.
