(* ===== verification/VvpVector4.v ===== *)
(** The run-time vector of four-valued bits, [vvp_vector4_t] ([vvp/vvp_net.h],
    [vvp/vvp_net.cc]): two planes of bits packed in machine words, a single word
    each ([abits_val_], [bbits_val_]) up to 64 bits and arrays ([abits_ptr_],
    [bbits_ptr_]) above.  This file holds the data, bit access, construction and
    copying, the tests and the bitwise operators.

    A plane is the list of its words, of one word for a short vector, so that the
    two members of each union are the same field.  Where the code applies the same
    statements to both planes with the same masks, the statement sequence is
    written once as a function of a plane.  The bits above the size in the last word
    are whatever the operations leave there. *)
From S2P Require Import Prelude MachineWord Verinum VvpBit.

(** * Definitions *)

Record vvp_vector4_t := mkVec4 { size : nat; abits : list Z; bbits : list Z }.

(** Number of words of a plane: [(n+BITS_PER_WORD-1)/BITS_PER_WORD] for a long
    vector, the one word of the union for a short one. *)
Definition plane_words (n : nat) : nat := if (W <? n)%nat then words_for n else 1%nat.

(** Word [k] of a plane, and the word of a short vector. *)
Definition word (ws : list Z) (k : nat) : Z := nth k ws 0.
Definition abits_val (v : vvp_vector4_t) : Z := word (abits v) 0.
Definition bbits_val (v : vvp_vector4_t) : Z := word (bbits v) 0.
Definition short (n : nat) (a b : Z) : vvp_vector4_t := mkVec4 n [a] [b].

(** [for (idx = 0; idx < n; idx += 1) body]. *)
Fixpoint for_upto {A} (n : nat) (body : nat -> A -> A) (s : A) : A :=
  match n with
  | O => s
  | S k => body k (for_upto k body s)
  end.

(** [while (remaining >= BITS_PER_WORD) { body; idx += 1; remaining -= BITS_PER_WORD; }]:
    the state, the index and the bits left.  The bits left are fuel enough. *)
Fixpoint while_words {A} (fuel idx remaining : nat) (body : nat -> A -> A) (s : A) : A * nat * nat :=
  match fuel with
  | O => (s, idx, remaining)
  | S f =>
      if (W <=? remaining)%nat
      then while_words f (idx + 1) (remaining - W) body (body idx s)
      else (s, idx, remaining)
  end.

(** One iteration that replaces word [k] of both planes. *)
Definition step_words (f : Z -> Z -> Z * Z) (k : nat) (v : vvp_vector4_t) : vvp_vector4_t :=
  let '(a, b) := f (word (abits v) k) (word (bbits v) k) in
  mkVec4 (size v) (<[k := a]> (abits v)) (<[k := b]> (bbits v)).

(** ** Construction *)

(** [allocate_words_]. *)
Definition allocate_words_ (n : nat) (inita initb : Z) : vvp_vector4_t :=
  if (W <? n)%nat then
    let cnt := words_for n in mkVec4 n (replicate cnt inita) (replicate cnt initb)
  else short n inita initb.

(** [WORD_0_ABITS] .. [WORD_Z_BBITS] and the tables built from them. *)
Definition init_atable (bits : vvp_bit4_t) : Z :=
  match bits with BIT4_0 => 0 | BIT4_1 => wones | BIT4_X => wones | BIT4_Z => 0 end.
Definition init_btable (bits : vvp_bit4_t) : Z :=
  match bits with BIT4_0 => 0 | BIT4_1 => 0 | BIT4_X => wones | BIT4_Z => wones end.

(** [vvp_vector4_t(unsigned size, vvp_bit4_t bits)]. *)
Definition vec4_fill (n : nat) (bits : vvp_bit4_t) : vvp_vector4_t :=
  allocate_words_ n (init_atable bits) (init_btable bits).

(** [copy_from_] with [copy_from_big_]: the copy constructor and [operator=]. *)
Definition copy_from_big_ (n : nat) (ws : list Z) : list Z :=
  for_upto (words_for n) (fun idx acc => <[idx := word ws idx]> acc) (replicate (words_for n) 0).

Definition copy_from_ (that : vvp_vector4_t) : vvp_vector4_t :=
  if (size that <=? W)%nat then short (size that) (abits_val that) (bbits_val that)
  else mkVec4 (size that) (copy_from_big_ (size that) (abits that))
              (copy_from_big_ (size that) (bbits that)).

Definition copy_inverted_from_ (that : vvp_vector4_t) : vvp_vector4_t :=
  let n := size that in
  if (W <? n)%nat then
    let words := words_for n in
    let '(acc, idx, remaining) :=
      while_words n 0 n
        (fun idx acc => <[idx := Z.lor (word (bbits that) idx) (wnot (word (abits that) idx))]> acc)
        (replicate words 0) in
    let acc :=
      if (0 <? remaining)%nat then
        <[idx := Z.land (wmask remaining)
                   (Z.lor (word (bbits that) idx) (wnot (word (abits that) idx)))]> acc
      else acc in
    mkVec4 n acc (for_upto words (fun idx b => <[idx := word (bbits that) idx]> b) (replicate words 0))
  else
    let mask := if (n <? W)%nat then wmask n else wones in
    short n (Z.land mask (Z.lor (bbits_val that) (wnot (abits_val that)))) (bbits_val that).

(** [operator ~ (const vvp_vector4_t&)]. *)
Definition vec4_not (that : vvp_vector4_t) : vvp_vector4_t := copy_inverted_from_ that.

(** ** Bit access *)

(** [value(idx)]: X outside the vector. *)
Definition value (v : vvp_vector4_t) (idx : nat) : vvp_bit4_t :=
  if (size v <=? idx)%nat then BIT4_X else
  let '(off, a, b) :=
    if (W <? size v)%nat then
      let wdx := (idx / W)%nat in
      ((idx mod W)%nat, word (abits v) wdx, word (bbits v) wdx)
    else (idx, abits_val v, bbits_val v) in
  let a := wshr a off in
  let b := wshr b off in
  bit4_cast (Z.shiftl (Z.land b 1) 1 + Z.land a 1).

(** The [switch (val)] of [set_bit] on the words that hold the bit. *)
Definition set_bit_word (val : vvp_bit4_t) (mask a b : Z) : Z * Z :=
  match val with
  | BIT4_0 => (Z.land a (wnot mask), Z.land b (wnot mask))
  | BIT4_1 => (Z.lor a mask, Z.land b (wnot mask))
  | BIT4_X => (Z.lor a mask, Z.lor b mask)
  | BIT4_Z => (Z.land a (wnot mask), Z.lor b mask)
  end.

(** [set_bit(idx, val)]; [None] is the assertion failure. *)
Definition set_bit (v : vvp_vector4_t) (idx : nat) (val : vvp_bit4_t) : option vvp_vector4_t :=
  if (idx <? size v)%nat then
    let off := (idx mod W)%nat in
    let mask := wshl 1 off in
    if (W <? size v)%nat then Some (step_words (set_bit_word val mask) (idx / W) v)
    else let '(a, b) := set_bit_word val mask (abits_val v) (bbits_val v) in
         Some (short (size v) a b)
  else None.

(** ** Copying bits between sizes *)

(** One plane of [copy_bits]. *)
Definition copy_bits_plane (n tn : nat) (ts ws : list Z) : list Z :=
  if (n =? tn)%nat then
    if (W <? n)%nat
    then for_upto (words_for n) (fun idx acc => <[idx := word ts idx]> acc) ws
    else [word ts 0]
  else if (n <=? W)%nat && (tn <=? W)%nat then
    let bits_to_copy := if (tn <? n)%nat then tn else n in
    let mask := wmask bits_to_copy in
    [Z.lor (Z.land (word ws 0) (wnot mask)) (Z.land (word ts 0) mask)]
  else if (n <=? W)%nat then
    let w := word ts 0 in
    [if (n <? W)%nat then Z.land w (wmask n) else w]
  else if (tn <=? W)%nat then
    let '(mask, w0) :=
      if (tn <? W)%nat then (wmask tn, Z.land (word ws 0) (wnot (wmask tn)))
      else (wones, word ws 0) in
    <[0%nat := Z.lor w0 (Z.land (word ts 0) mask)]> ws
  else
    let bits_to_copy := if (tn <? n)%nat then tn else n in
    let '(ws, word_, bits_to_copy) :=
      while_words bits_to_copy 0 bits_to_copy (fun word_ ws => <[word_ := word ts word_]> ws) ws in
    if (0 <? bits_to_copy)%nat then
      let mask := wmask bits_to_copy in
      <[word_ := Z.lor (Z.land (word ws word_) (wnot mask)) (Z.land (word ts word_) mask)]> ws
    else ws.

Definition copy_bits (v that : vvp_vector4_t) : vvp_vector4_t :=
  mkVec4 (size v) (copy_bits_plane (size v) (size that) (abits that) (abits v))
         (copy_bits_plane (size v) (size that) (bbits that) (bbits v)).

(** ** Tests *)

(** The word-by-word comparison loop of [eeq] and [eq_xz]. *)
Fixpoint eq_words (same : Z -> Z -> Z -> Z -> bool) (n : nat) (v that : vvp_vector4_t) : bool :=
  match n with
  | O => true
  | S k => eq_words same k v that &&
           same (word (abits v) k) (word (bbits v) k) (word (abits that) k) (word (bbits that) k)
  end.

(** [eeq] and [eq_xz] differ in what they compare of a pair of words under a mask. *)
Definition eeq_word (mask a b a' b' : Z) : bool :=
  (Z.land a mask =? Z.land a' mask) && (Z.land b mask =? Z.land b' mask).

Definition eeq (v that : vvp_vector4_t) : bool :=
  if negb (size v =? size that)%nat then false else
  if (size v <? W)%nat then
    eeq_word (wmask (size v)) (abits_val v) (bbits_val v) (abits_val that) (bbits_val that)
  else if (size v =? W)%nat then
    (abits_val v =? abits_val that) && (bbits_val v =? bbits_val that)
  else
    let words := (size v / W)%nat in
    if eq_words (fun a b a' b' => (a =? a') && (b =? b')) words v that then
      let tail := (size v mod W)%nat in
      if (0 <? tail)%nat then
        eeq_word (wmask tail) (word (abits v) words) (word (bbits v) words)
          (word (abits that) words) (word (bbits that) words)
      else true
    else false.

Definition eq_xz_word (mask a b a' b' : Z) : bool :=
  (Z.land (Z.lor a b) mask =? Z.land (Z.lor a' b') mask) && (Z.land b mask =? Z.land b' mask).

Definition eq_xz (v that : vvp_vector4_t) : bool :=
  if negb (size v =? size that)%nat then false else
  if (size v <? W)%nat then
    eq_xz_word (wmask (size v)) (abits_val v) (bbits_val v) (abits_val that) (bbits_val that)
  else if (size v =? W)%nat then
    (Z.lor (abits_val v) (bbits_val v) =? Z.lor (abits_val that) (bbits_val that)) &&
    (bbits_val v =? bbits_val that)
  else
    let words := (size v / W)%nat in
    if eq_words (fun a b a' b' => (Z.lor a b =? Z.lor a' b') && (b =? b')) words v that then
      let tail := (size v mod W)%nat in
      if (0 <? tail)%nat then
        eq_xz_word (wmask tail) (word (abits v) words) (word (bbits v) words)
          (word (abits that) words) (word (bbits that) words)
      else true
    else false.

(** [has_xz]; an [unsigned long] as a condition is true when it is not 0. *)
Definition has_xz (v : vvp_vector4_t) : bool :=
  if (size v <? W)%nat then
    let mask := wshr wones (W - size v) in negb (Z.land (bbits_val v) mask =? 0)
  else if (size v =? W)%nat then negb (bbits_val v =? 0)
  else
    let words := (size v / W)%nat in
    if existsb (fun idx => negb (word (bbits v) idx =? 0)) (seq 0 words) then true
    else
      let tail := (size v mod W)%nat in
      if (0 <? tail)%nat then
        let mask := wshr wones (W - tail) in negb (Z.land (word (bbits v) words) mask =? 0)
      else false.

(** ** Whole-vector updates *)

Definition change_z2x (v : vvp_vector4_t) : vvp_vector4_t :=
  if (size v <=? W)%nat then short (size v) (Z.lor (abits_val v) (bbits_val v)) (bbits_val v)
  else for_upto (words_for (size v)) (step_words (fun a b => (Z.lor a b, b))) v.

Definition set_to_x (v : vvp_vector4_t) : vvp_vector4_t :=
  if (size v <=? W)%nat then short (size v) wones wones
  else for_upto (words_for (size v)) (step_words (fun _ _ => (wones, wones))) v.

Definition invert (v : vvp_vector4_t) : vvp_vector4_t :=
  if (size v <=? W)%nat then
    let mask := if (size v <? W)%nat then wmask (size v) else wones in
    short (size v) (Z.lor (Z.land mask (wnot (abits_val v))) (bbits_val v)) (bbits_val v)
  else
    let '(v, idx, remaining) :=
      while_words (size v) 0 (size v) (step_words (fun a b => (Z.lor (wnot a) b, b))) v in
    if (0 <? remaining)%nat then
      step_words (fun a b => (Z.lor (Z.land (wmask remaining) (wnot a)) b, b)) idx v
    else v.

(** The word formulas of [operator &=] and [operator |=]. *)
Definition and_words (a b a' b' : Z) : Z * Z :=
  let tmp1 := Z.lor a b in
  let tmp2 := Z.lor a' b' in
  (Z.land tmp1 tmp2, Z.lor (Z.land tmp1 b') (Z.land tmp2 b)).

Definition or_words (a b a' b' : Z) : Z * Z :=
  let tmp := Z.lor (Z.lor (Z.lor a b) a') b' in
  (tmp, Z.lor (Z.land (Z.lor (wnot a) b) b') (Z.land (Z.lor (wnot a') b') b)).

Definition and_assign (v that : vvp_vector4_t) : vvp_vector4_t :=
  if (size v <=? W)%nat then
    let '(a, b) := and_words (abits_val v) (bbits_val v) (abits_val that) (bbits_val that) in
    short (size v) a b
  else
    for_upto (words_for (size v))
      (fun idx => step_words
         (fun a b => and_words a b (word (abits that) idx) (word (bbits that) idx)) idx) v.

Definition or_assign (v that : vvp_vector4_t) : vvp_vector4_t :=
  if (size v <=? W)%nat then
    let '(a, b) := or_words (abits_val v) (bbits_val v) (abits_val that) (bbits_val that) in
    short (size v) a b
  else
    for_upto (words_for (size v))
      (fun idx => step_words
         (fun a b => or_words a b (word (abits that) idx) (word (bbits that) idx)) idx) v.

(** * Planes *)

Record wf4 (v : vvp_vector4_t) : Prop := {
  wf4_a : length (abits v) = plane_words (size v);
  wf4_b : length (bbits v) = plane_words (size v);
  wf4_wa : words (abits v);
  wf4_wb : words (bbits v) }.

(** Bit [i] of each plane. *)
Definition pa (v : vvp_vector4_t) (i : nat) : bool := wbit (abits v) i.
Definition pb (v : vvp_vector4_t) (i : nat) : bool := wbit (bbits v) i.

Lemma wbit_word ws i : wbit ws i = tb (word ws (i / W)) (i mod W).
Proof. done. Qed.

Lemma word_is_word ws k : words ws -> is_word (word ws k).
Proof. apply words_nth. Qed.
#[export] Hint Resolve word_is_word : word.

Lemma plane_words_long n : (W < n)%nat -> plane_words n = words_for n.
Proof. intros H. unfold plane_words. by rewrite (proj2 (Nat.ltb_lt _ _)). Qed.

Lemma plane_words_short n : (n <= W)%nat -> plane_words n = 1%nat.
Proof. intros H. unfold plane_words. by rewrite (proj2 (Nat.ltb_ge _ _)). Qed.

Lemma plane_index n i : (i < n)%nat -> (i / W < plane_words n)%nat.
Proof.
  intros Hi. unfold plane_words. case_cmp.
  - by apply words_for_length.
  - rewrite Nat.div_small; unfold W in *; lia.
Qed.

Lemma mod_W_lt i : (i mod W < W)%nat.
Proof. apply Nat.mod_upper_bound. unfold W. lia. Qed.
#[export] Hint Resolve mod_W_lt : word.

Lemma wbit_short a i : (i < W)%nat -> wbit [a] i = tb a i.
Proof. intros. by apply wbit_cons_low. Qed.

Lemma wf4_short n a b : (n <= W)%nat -> is_word a -> is_word b -> wf4 (short n a b).
Proof.
  intros Hn Ha Hb. split; simpl; rewrite ?plane_words_short; try done; by apply Forall_singleton.
Qed.

(** A short vector is its two words. *)
Lemma wf4_short_inv v :
  wf4 v -> (size v <= W)%nat ->
  abits v = [abits_val v] /\ bbits v = [bbits_val v] /\ is_word (abits_val v) /\ is_word (bbits_val v).
Proof.
  intros [La Lb Wa Wb] Hn. rewrite plane_words_short in La, Lb by done.
  unfold abits_val, bbits_val, word.
  destruct (abits v) as [|a [|]]; try done. destruct (bbits v) as [|b [|]]; try done.
  inversion Wa; inversion Wb; subst. done.
Qed.

Lemma pa_short v i : wf4 v -> (size v <= W)%nat -> (i < W)%nat -> pa v i = tb (abits_val v) i.
Proof. intros Hv Hn Hi. unfold pa. destruct (wf4_short_inv v Hv Hn) as (-> & _). by apply wbit_short. Qed.

Lemma pb_short v i : wf4 v -> (size v <= W)%nat -> (i < W)%nat -> pb v i = tb (bbits_val v) i.
Proof. intros Hv Hn Hi. unfold pb. destruct (wf4_short_inv v Hv Hn) as (_ & -> & _). by apply wbit_short. Qed.

Lemma land_1 x : Z.land x 1 = b2z (tb x 0).
Proof.
  unfold tb. change 1 with (Z.ones 1) at 1. rewrite (Z.land_ones x 1) by lia.
  change (2 ^ 1) with 2. rewrite Zmod_odd. unfold b2z. change (Z.of_nat 0) with 0. by rewrite Z.bit0_odd.
Qed.

Lemma bit4_cast_planes a b : bit4_cast (Z.shiftl (b2z b) 1 + b2z a) = of_planes a b.
Proof. by destruct a, b. Qed.

(** A bit of the vector is read off the two planes. *)
Lemma value_planes v i : wf4 v -> (i < size v)%nat -> value v i = of_planes (pa v i) (pb v i).
Proof.
  intros Hv Hi. unfold value. rewrite (proj2 (Nat.leb_gt _ _)) by done.
  destruct (Nat.ltb_spec W (size v)) as [Hl|Hs]; cbv beta iota zeta.
  - rewrite !land_1, bit4_cast_planes, !tb_wshr by apply mod_W_lt. done.
  - rewrite !land_1, bit4_cast_planes, !tb_wshr by lia.
    by rewrite (pa_short v i), (pb_short v i) by (done || lia).
Qed.

Lemma value_overflow v i : (size v <= i)%nat -> value v i = BIT4_X.
Proof. intros. unfold value. by rewrite (proj2 (Nat.leb_le _ _)). Qed.

(** Two vectors with the same bits. *)
Definition same_bits (u v : vvp_vector4_t) : Prop :=
  size u = size v /\ forall i, (i < size v)%nat -> value u i = value v i.

Lemma same_bits_value u v i : same_bits u v -> value u i = value v i.
Proof.
  intros [Hs H]. destruct (Nat.lt_ge_cases i (size v)); [by apply H|].
  by rewrite !value_overflow by lia.
Qed.

#[export] Instance same_bits_equiv : Equivalence same_bits.
Proof.
  split.
  - by intros v.
  - intros u v [Hs H]. split; [done|]. intros i Hi. rewrite H by lia. done.
  - intros u v w [H1 H2] [H3 H4]. split; [congruence|]. intros i Hi. rewrite H2, H4 by lia. done.
Qed.

#[export] Instance value_proper : Proper (same_bits ==> eq ==> eq) value.
Proof. intros u v H i ? <-. by apply same_bits_value. Qed.

#[export] Instance size_proper : Proper (same_bits ==> eq) size.
Proof. by intros u v [H _]. Qed.

(** * Loops over the words *)

Lemma word_insert ws k w j :
  (k < length ws)%nat -> word (<[k := w]> ws) j = if (j =? k)%nat then w else word ws j.
Proof. apply nth_insert. Qed.

Lemma for_step_words n (f : nat -> Z -> Z -> Z * Z) v :
  (n <= length (abits v))%nat -> (n <= length (bbits v))%nat ->
  let r := for_upto n (fun k => step_words (f k) k) v in
  size r = size v /\ length (abits r) = length (abits v) /\ length (bbits r) = length (bbits v) /\
  (forall k, word (abits r) k = if (k <? n)%nat
     then fst (f k (word (abits v) k) (word (bbits v) k)) else word (abits v) k) /\
  (forall k, word (bbits r) k = if (k <? n)%nat
     then snd (f k (word (abits v) k) (word (bbits v) k)) else word (bbits v) k).
Proof.
  induction n as [|n IH]; intros Ha Hb; cbn [for_upto]; [by split_and!|].
  destruct IH as (Es & La & Lb & Wa & Wb); [lia|lia|]. cbv zeta.
  set (u := for_upto n _ v) in *. unfold step_words. rewrite Wa, Wb, Nat.ltb_irrefl.
  destruct (f n (word (abits v) n) (word (bbits v) n)) as [a b] eqn:Ef. simpl.
  rewrite !length_insert. split_and!; try done; intros k;
    rewrite word_insert by lia; rewrite ?Wa, ?Wb; repeat case_cmp; subst;
    try lia; rewrite ?Ef; done.
Qed.

Lemma words_of_word ws : (forall k, (k < length ws)%nat -> is_word (word ws k)) -> words ws.
Proof.
  intros H. apply Forall_forall. intros x Hx. apply (In_nth _ _ 0) in Hx as (k & Hk & <-).
  by apply H.
Qed.

(** A loop that updates every word of a long vector with the same formula is a
    bitwise update. *)
Lemma for_step_bits (f : nat -> Z -> Z -> Z * Z) v :
  wf4 v -> (W < size v)%nat ->
  (forall k a b, is_word a -> is_word b -> is_word (fst (f k a b)) /\ is_word (snd (f k a b))) ->
  let r := for_upto (words_for (size v)) (fun k => step_words (f k) k) v in
  wf4 r /\ size r = size v /\
  (forall i, (i < size v)%nat ->
     pa r i = tb (fst (f (i / W)%nat (word (abits v) (i / W)) (word (bbits v) (i / W)))) (i mod W) /\
     pb r i = tb (snd (f (i / W)%nat (word (abits v) (i / W)) (word (bbits v) (i / W)))) (i mod W)).
Proof.
  intros [La Lb Wa Wb] Hl Hf. rewrite plane_words_long in La, Lb by done.
  destruct (for_step_words (words_for (size v)) f v) as (Es & La' & Lb' & Fa & Fb); [lia|lia|].
  cbv zeta. set (r := for_upto _ _ v) in *.
  split_and!; [split|done|].
  - rewrite La', Es, plane_words_long; done.
  - rewrite Lb', Es, plane_words_long; done.
  - apply words_of_word. intros k Hk. rewrite Fa. case_cmp; [apply Hf|]; auto with word.
  - apply words_of_word. intros k Hk. rewrite Fb. case_cmp; [apply Hf|]; auto with word.
  - intros i Hi. unfold pa, pb. rewrite !wbit_word.
    rewrite Fa, Fb. pose proof (words_for_length _ _ Hi). by case_cmp; [|lia].
Qed.

Lemma for_upto_shift {A} n (body : nat -> A -> A) s :
  for_upto (S n) body s = for_upto n (fun k => body (S k)) (body 0%nat s).
Proof.
  induction n as [|n IH]; [done|].
  change (for_upto (S (S n)) body s) with (body (S n) (for_upto (S n) body s)). by rewrite IH.
Qed.

Lemma for_upto_ext {A} n (f g : nat -> A -> A) s :
  (forall k s, (k < n)%nat -> f k s = g k s) -> for_upto n f s = for_upto n g s.
Proof.
  intros H. induction n as [|n IH]; [done|]. cbn [for_upto].
  rewrite IH by (intros; apply H; lia). apply H. lia.
Qed.

Lemma div_W_step n : (W <= n)%nat -> (n / W = S ((n - W) / W) /\ n mod W = (n - W) mod W)%nat.
Proof.
  intros H. replace n with (n - W + 1 * W)%nat at 1 3 by lia.
  rewrite Nat.div_add, Nat.Div0.mod_add by (unfold W; lia). lia.
Qed.

Lemma while_words_for {A} fuel idx remaining (body : nat -> A -> A) s :
  (remaining <= fuel)%nat ->
  while_words fuel idx remaining body s
  = (for_upto (remaining / W) (fun k => body (idx + k)%nat) s,
     (idx + remaining / W)%nat, (remaining mod W)%nat).
Proof.
  revert idx remaining s. induction fuel as [|f IH]; intros idx remaining s Hf; cbn [while_words].
  - assert (remaining = 0%nat) as -> by lia. simpl. by rewrite Nat.add_0_r.
  - destruct (Nat.leb_spec W remaining) as [Hw|Hw].
    + rewrite IH by (unfold W in *; lia). destruct (div_W_step remaining Hw) as [-> ->].
      rewrite for_upto_shift, Nat.add_0_r, <- Nat.add_assoc.
      f_equal. f_equal. apply for_upto_ext. intros k s' _. f_equal. lia.
    + rewrite Nat.div_small, Nat.mod_small by done. simpl. by rewrite Nat.add_0_r.
Qed.

Lemma while_words_spec {A} n (body : nat -> A -> A) s :
  while_words n 0 n body s = (for_upto (n / W) body s, (n / W)%nat, (n mod W)%nat).
Proof. by rewrite while_words_for. Qed.

(** A loop that writes one word per iteration. *)
Lemma for_insert n (g : nat -> Z) acc :
  (n <= length acc)%nat ->
  let r := for_upto n (fun k acc => <[k := g k]> acc) acc in
  length r = length acc /\ forall k, word r k = if (k <? n)%nat then g k else word acc k.
Proof.
  induction n as [|n IH]; intros Hn; cbn [for_upto]; [done|].
  destruct IH as [L Hk]; [lia|]. cbv zeta. rewrite length_insert. split; [done|].
  intros k. rewrite word_insert by lia. rewrite Hk. repeat case_cmp; subst; (done || lia).
Qed.

Lemma word_ext ws ws' :
  length ws = length ws' -> (forall k, (k < length ws)%nat -> word ws k = word ws' k) -> ws = ws'.
Proof. intros. by apply (nth_ext _ _ 0 0). Qed.

(** * Construction *)

Lemma word_replicate n w k : (k < n)%nat -> word (replicate n w) k = w.
Proof. intros. unfold word. by rewrite nth_lookup, lookup_replicate_2. Qed.

Lemma allocate_words_spec n a b :
  is_word a -> is_word b ->
  wf4 (allocate_words_ n a b) /\ size (allocate_words_ n a b) = n /\
  forall i, (i < n)%nat ->
    pa (allocate_words_ n a b) i = tb a (i mod W) /\ pb (allocate_words_ n a b) i = tb b (i mod W).
Proof.
  intros Ha Hb. unfold allocate_words_. destruct (Nat.ltb_spec W n) as [Hl|Hs].
  - split_and!; [|done|].
    + split; simpl; rewrite ?length_replicate, ?plane_words_long; auto with word.
    + intros i Hi. unfold pa, pb. cbn [abits bbits]. rewrite !wbit_word.
      by rewrite !word_replicate by by apply words_for_length.
  - split_and!; [by apply wf4_short|done|]. intros i Hi. unfold pa, pb. simpl.
    rewrite !wbit_short, Nat.mod_small by lia. done.
Qed.

Lemma vec4_fill_spec n bit :
  wf4 (vec4_fill n bit) /\ size (vec4_fill n bit) = n /\
  forall i, (i < n)%nat -> value (vec4_fill n bit) i = bit.
Proof.
  unfold vec4_fill.
  destruct (allocate_words_spec n (init_atable bit) (init_btable bit)) as (Hw & Hs & Hp);
    [destruct bit; simpl; auto with word..|].
  split_and!; [done|done|]. intros i Hi. rewrite value_planes by (done || lia).
  destruct (Hp i Hi) as [-> ->].
  destruct bit; simpl; rewrite ?tb_0, ?tb_wones, ?(proj2 (Nat.ltb_lt _ _) (mod_W_lt i)); done.
Qed.

(** A copy is the vector itself, bits above the size included. *)
Lemma copy_from_big_spec n ws : length ws = words_for n -> copy_from_big_ n ws = ws.
Proof.
  intros HL. unfold copy_from_big_.
  destruct (for_insert (words_for n) (word ws) (replicate (words_for n) 0)) as [L Hk];
    [by rewrite length_replicate|]. cbv zeta in *.
  rewrite length_replicate in L. apply word_ext; [congruence|].
  intros k Hlt. rewrite Hk. case_cmp; [done|lia].
Qed.

Lemma copy_from_spec that : wf4 that -> copy_from_ that = that.
Proof.
  intros Hv. unfold copy_from_. destruct (Nat.leb_spec (size that) W) as [Hs|Hl].
  - destruct (wf4_short_inv that Hv Hs) as (Ea & Eb & _). unfold short.
    rewrite <- Ea, <- Eb. by destruct that.
  - destruct Hv as [La Lb _ _]. rewrite plane_words_long in La, Lb by done.
    rewrite !copy_from_big_spec by done. by destruct that.
Qed.

(** * Bit updates *)

Lemma tb_wshl_1 off i : (off < W)%nat -> (i < W)%nat -> tb (wshl 1 off) i = (i =? off)%nat.
Proof.
  intros Ho Hi. rewrite tb_wshl by done. rewrite (proj2 (Nat.ltb_lt _ _) Hi). simpl.
  destruct (Nat.eqb_spec i off) as [->|].
  - by rewrite Nat.leb_refl, Nat.sub_diag.
  - case_cmp; [|done]. unfold tb. simpl.
    change 1 with (2 ^ 0). apply Z.pow2_bits_false. lia.
Qed.

(** Short and long vectors by one rule: replacing the words that hold bit [i]. *)
Definition set_words (k : nat) (a b : Z) (v : vvp_vector4_t) : vvp_vector4_t :=
  mkVec4 (size v) (<[k := a]> (abits v)) (<[k := b]> (bbits v)).

Lemma short_set_words v a b :
  wf4 v -> (size v <= W)%nat -> short (size v) a b = set_words 0 a b v.
Proof.
  intros Hv Hs. destruct (wf4_short_inv v Hv Hs) as (Ea & Eb & _).
  unfold short, set_words. by rewrite Ea, Eb.
Qed.

Lemma set_words_spec k a b v :
  wf4 v -> (k < plane_words (size v))%nat -> is_word a -> is_word b ->
  wf4 (set_words k a b v) /\ forall i,
    pa (set_words k a b v) i = (if (i / W =? k)%nat then tb a (i mod W) else pa v i) /\
    pb (set_words k a b v) i = (if (i / W =? k)%nat then tb b (i mod W) else pb v i).
Proof.
  intros [La Lb Wa Wb] Hk Ha Hb. split.
  - split; simpl; rewrite ?length_insert; auto with word.
  - intros i. unfold pa, pb, set_words. cbn [abits bbits]. by rewrite !wbit_insert by lia.
Qed.

(** The bit positions of one word. *)
Lemma same_position i idx : (i / W = idx / W)%nat -> (i mod W = idx mod W)%nat -> i = idx.
Proof. intros Hd Hm. rewrite (Nat.div_mod_eq i W), (Nat.div_mod_eq idx W). lia. Qed.

Lemma set_bit_words v idx val :
  wf4 v -> (idx < size v)%nat ->
  exists a b, set_bit v idx val = Some (set_words (idx / W) a b v) /\ is_word a /\ is_word b /\
    forall j, (j < W)%nat ->
      tb a j = (if (j =? idx mod W)%nat then abit val else tb (word (abits v) (idx / W)) j) /\
      tb b j = (if (j =? idx mod W)%nat then bbit val else tb (word (bbits v) (idx / W)) j).
Proof.
  intros Hv Hi. unfold set_bit. rewrite (proj2 (Nat.ltb_lt _ _) Hi).
  set (mask := wshl 1 (idx mod W)). set (update := set_bit_word val mask).
  assert (Hm : is_word mask) by apply wshl_word.
  assert (HU : forall a b, is_word a -> is_word b ->
    is_word (fst (update a b)) /\ is_word (snd (update a b)) /\ forall j, (j < W)%nat ->
      tb (fst (update a b)) j = (if (j =? idx mod W)%nat then abit val else tb a j) /\
      tb (snd (update a b)) j = (if (j =? idx mod W)%nat then bbit val else tb b j)).
  { intros a b Ha Hb. unfold update. destruct val; simpl; split_and!; auto with word;
      intros j Hj; rewrite ?tb_land, ?tb_lor, ?tb_wnot by done; unfold mask;
      rewrite ?tb_wshl_1 by (done || apply mod_W_lt); rewrite ?(proj2 (Nat.ltb_lt _ _) Hj);
      case_cmp; simpl; rewrite ?andb_false_r, ?andb_true_r, ?orb_true_r, ?orb_false_r; done. }
  destruct (Nat.ltb_spec W (size v)) as [Hl|Hs].
  - destruct (HU (word (abits v) (idx / W)) (word (bbits v) (idx / W))) as (H1 & H2 & H3);
      [apply word_is_word, Hv..|].
    unfold step_words. destruct (update _ _) as [a b]. by exists a, b.
  - rewrite (Nat.div_small idx) by lia.
    destruct (HU (abits_val v) (bbits_val v)) as (H1 & H2 & H3); [apply word_is_word, Hv..|].
    destruct (update (abits_val v) (bbits_val v)) as [a b]. exists a, b.
    cbv beta iota. by rewrite short_set_words.
Qed.

Lemma set_bit_spec v idx val :
  wf4 v -> (idx < size v)%nat ->
  exists r, set_bit v idx val = Some r /\ wf4 r /\ size r = size v /\
    forall i, value r i = if (i =? idx)%nat then val else value v i.
Proof.
  intros Hv Hi. destruct (set_bit_words v idx val Hv Hi) as (a & b & -> & Ha & Hb & H).
  destruct (set_words_spec (idx / W) a b v Hv (plane_index _ _ Hi) Ha Hb) as [Hw Hp].
  eexists. split_and!; [done|done|done|]. intros i.
  destruct (Nat.lt_ge_cases i (size v)) as [Hlt|Hge].
  2:{ rewrite !value_overflow by done. case_cmp; [lia|done]. }
  rewrite !value_planes by done. destruct (Hp i) as [-> ->].
  destruct (H (i mod W)%nat (mod_W_lt i)) as [-> ->].
  destruct (Nat.eqb_spec i idx) as [->|Hne].
  - by rewrite !Nat.eqb_refl, of_planes_abit.
  - destruct (Nat.eqb_spec (i / W) (idx / W)) as [E|]; [|done].
    rewrite (proj2 (Nat.eqb_neq _ _)) by (intros E2; apply Hne; by apply same_position).
    unfold pa, pb. by rewrite !wbit_word, E.
Qed.

Lemma set_bit_outside v idx val : (size v <= idx)%nat -> set_bit v idx val = None.
Proof. intros H. unfold set_bit. by rewrite (proj2 (Nat.ltb_ge _ _)). Qed.

(** * Inversion *)

(** The shape of every bitwise result. *)
Definition bitwise (n : nat) (g : nat -> vvp_bit4_t) (r : vvp_vector4_t) : Prop :=
  wf4 r /\ size r = n /\ forall i, (i < n)%nat -> value r i = g i.

Lemma bitwise_planes n g r :
  wf4 r -> size r = n ->
  (forall i, (i < n)%nat -> of_planes (pa r i) (pb r i) = g i) -> bitwise n g r.
Proof. intros Hw Hs H. split_and!; [done|done|]. intros i Hi. rewrite value_planes; [auto|done|lia]. Qed.

(** The mask of the last word: [(size<64)? (1UL<<size)-1 : -1UL]. *)
Lemma tail_mask n :
  (n <= W)%nat ->
  let mask := if (n <? W)%nat then wmask n else wones in
  is_word mask /\ forall i, (i < n)%nat -> tb mask i = true.
Proof.
  intros Hn. case_cmp.
  - split; [auto with word|]. intros i Hi. rewrite tb_wmask by done. by apply Nat.ltb_lt.
  - split; [auto with word|]. intros i Hi. rewrite tb_wones. apply Nat.ltb_lt. lia.
Qed.

Lemma div_mod_W_lt n i : (i < n)%nat -> (i / W < n / W)%nat \/ (i / W = n / W /\ i mod W < n mod W)%nat.
Proof.
  intros Hi. pose proof (Nat.div_mod_eq i W). pose proof (Nat.div_mod_eq n W).
  pose proof (mod_W_lt i). pose proof (mod_W_lt n). unfold W in *. lia.
Qed.

Lemma words_for_div n : (n mod W = 0 -> words_for n = n / W)%nat /\ (0 < n mod W -> words_for n = S (n / W))%nat.
Proof.
  unfold words_for. pose proof (Nat.div_mod_eq n W) as E. pose proof (mod_W_lt n). split; intros Hm.
  - symmetry. apply (Nat.div_unique _ _ _ (W - 1)); unfold W in *; lia.
  - symmetry. apply (Nat.div_unique _ _ _ (n mod W - 1)); unfold W in *; lia.
Qed.

(** The full words in a loop, then the partial word if there is one. *)
Lemma full_then_tail n (g : nat -> Z) h acc :
  length acc = words_for n ->
  let acc1 := for_upto (n / W) (fun k acc => <[k := g k]> acc) acc in
  let r := if (0 <? n mod W)%nat then <[(n / W)%nat := h]> acc1 else acc1 in
  length r = words_for n /\
  forall k, (k < words_for n)%nat -> word r k = if (k <? n / W)%nat then g k else h.
Proof.
  intros HL. destruct (words_for_div n) as [H0 H1].
  destruct (for_insert (n / W) g acc) as [L Hk].
  { rewrite HL. destruct (Nat.eq_dec (n mod W)%nat 0%nat); [rewrite H0 by done|rewrite H1 by lia]; lia. }
  cbv zeta in *. destruct (Nat.ltb_spec 0 (n mod W)) as [Ht|Ht].
  - rewrite length_insert, L, HL. split; [done|]. intros k Hlt. rewrite H1 in * by done.
    rewrite word_insert, Hk by lia. repeat case_cmp; (done || lia).
  - rewrite L, HL. split; [done|]. intros k Hlt. rewrite H0 in Hlt by lia.
    rewrite Hk. case_cmp; (done || lia).
Qed.

Lemma full_then_tail_words n f g v :
  wf4 v -> size v = n -> (W < n)%nat ->
  (forall a b, is_word a -> is_word b -> is_word (fst (f a b)) /\ is_word (snd (f a b))) ->
  (forall a b, is_word a -> is_word b -> is_word (fst (g a b)) /\ is_word (snd (g a b))) ->
  let v1 := for_upto (n / W) (step_words f) v in
  let r := if (0 <? n mod W)%nat then step_words g (n / W) v1 else v1 in
  wf4 r /\ size r = n /\
  (forall i, (i < n)%nat ->
    let a := word (abits v) (i / W) in let b := word (bbits v) (i / W) in
    let '(a', b') := if (i / W <? n / W)%nat then f a b else g a b in
    pa r i = tb a' (i mod W) /\ pb r i = tb b' (i mod W)).
Proof.
  intros [La Lb Wa Wb] <- Hl Hf Hg. rewrite plane_words_long in La, Lb by done.
  destruct (words_for_div (size v)) as [H0 H1].
  assert (Hle : (size v / W <= words_for (size v))%nat).
  { destruct (Nat.eq_dec (size v mod W)%nat 0%nat); [rewrite H0 by done|rewrite H1 by lia]; lia. }
  destruct (for_step_words (size v / W) (fun _ => f) v) as (Es & La' & Lb' & Fa & Fb); [lia|lia|].
  cbv zeta. change (for_upto (size v / W) (step_words f) v)
    with (for_upto (size v / W) (fun k => step_words ((fun _ => f) k) k) v).
  set (v1 := for_upto _ _ v) in *. 
  set (r := if (0 <? size v mod W)%nat then _ else v1).
  assert (HR : size r = size v /\ length (abits r) = words_for (size v) /\
    length (bbits r) = words_for (size v) /\
    forall k, (k < words_for (size v))%nat ->
      (word (abits r) k, word (bbits r) k) =
      (if (k <? size v / W)%nat then f (word (abits v) k) (word (bbits v) k)
       else g (word (abits v) k) (word (bbits v) k))).
  { unfold r. destruct (Nat.ltb_spec 0 (size v mod W)) as [Ht|Ht].
    - unfold step_words. rewrite Fa, Fb, Nat.ltb_irrefl.
      destruct (g _ _) as [a b] eqn:Eg. cbn [size abits bbits]. rewrite !length_insert.
      split_and!; [lia..|]. intros k Hk. rewrite H1 in * by done.
      rewrite !word_insert, Fa, Fb by lia. repeat case_cmp; subst; try lia; [|done].
      by destruct (f _ _).
    - split_and!; [lia..|]. intros k Hk. rewrite H0 in * by lia.
      rewrite Fa, Fb. case_cmp; [by destruct (f _ _)|lia]. }
  clearbody r. destruct HR as (Rs & Ra & Rb & Rk). split_and!; [split|done|].
  - rewrite Rs, plane_words_long; done.
  - rewrite Rs, plane_words_long; done.
  - apply words_of_word. intros k Hk. assert (E := Rk k ltac:(lia)).
    apply (f_equal fst) in E. simpl in E. rewrite E.
    case_cmp; [apply Hf|apply Hg]; auto with word.
  - apply words_of_word. intros k Hk. assert (E := Rk k ltac:(lia)).
    apply (f_equal snd) in E. simpl in E. rewrite E.
    case_cmp; [apply Hf|apply Hg]; auto with word.
  - intros i Hi. rewrite <- Rk by by apply words_for_length. done.
Qed.

Lemma tb_not_word a b j :
  is_word a -> (j < W)%nat -> tb (Z.lor b (wnot a)) j = tb b j || negb (tb a j).
Proof. intros Ha Hj. rewrite tb_lor, tb_wnot, (proj2 (Nat.ltb_lt _ _) Hj) by done. done. Qed.

(** [~] negates every bit, unknown bits becoming X. *)
Lemma vec4_not_spec v : wf4 v -> bitwise (size v) (fun i => bit4_not (value v i)) (vec4_not v).
Proof.
  intros Hv. unfold vec4_not, copy_inverted_from_. destruct (Nat.ltb_spec W (size v)) as [Hl|Hs].
  - rewrite while_words_spec. destruct Hv as [La Lb Wa Wb].
    assert (Hv : wf4 v) by done. rewrite plane_words_long in La, Lb by done.
    set (n := size v) in *.
    set (h := Z.land (wmask (n mod W)) (Z.lor (word (bbits v) (n / W)) (wnot (word (abits v) (n / W))))).
    destruct (full_then_tail n (fun k => Z.lor (word (bbits v) k) (wnot (word (abits v) k))) h
      (replicate (words_for n) 0)) as [L1 K1]; [by rewrite length_replicate|].
    destruct (for_insert (words_for n) (word (bbits v)) (replicate (words_for n) 0)) as [L2 K2];
      [by rewrite length_replicate|]. cbv zeta in *. rewrite length_replicate in L2.
    set (ra := if (0 <? n mod W)%nat then _ else _) in *. set (rb := for_upto (words_for n) _ _) in *.
    assert (Hh : is_word h) by (unfold h; auto 7 with word).
    apply bitwise_planes; [split|done|]; cbn [size abits bbits];
      rewrite ?plane_words_long; try done.
    + apply words_of_word. intros k Hk. rewrite K1 by lia. case_cmp; auto 7 with word.
    + apply words_of_word. intros k Hk. rewrite K2. case_cmp; auto with word.
    + intros i Hi. rewrite value_planes, not_planes by done. unfold pa, pb.
      cbn [abits bbits]. rewrite !wbit_word. pose proof (words_for_length _ _ Hi) as Hw.
      rewrite K2, K1 by done. rewrite (proj2 (Nat.ltb_lt _ _) Hw). f_equal.
      destruct (div_mod_W_lt n i Hi) as [H1|[H1 H2]].
      * rewrite (proj2 (Nat.ltb_lt _ _) H1). apply tb_not_word; auto with word.
      * rewrite H1, Nat.ltb_irrefl. unfold h. rewrite tb_land, tb_wmask by apply mod_W_lt.
        rewrite (proj2 (Nat.ltb_lt _ _) H2). simpl. apply tb_not_word; auto with word.
  - destruct (tail_mask (size v) Hs) as [Hm Ht]. set (mask := if (size v <? W)%nat then _ else _) in *.
    destruct (wf4_short_inv v Hv Hs) as (Ea & Eb & Ha & Hb).
    apply bitwise_planes; [apply wf4_short; auto with word|done|].
    intros i Hi. rewrite value_planes, not_planes by done.
    rewrite (pa_short v), (pb_short v) by (done || lia). unfold pa, pb, short. cbn [abits bbits].
    rewrite !wbit_short, tb_land, Ht by lia. simpl. by rewrite tb_not_word by (done || lia).
Qed.

(** An update that applies one formula to every pair of words, short or long. *)
Lemma all_words_spec (f : nat -> Z -> Z -> Z * Z) v g :
  wf4 v ->
  (forall k a b, is_word a -> is_word b -> is_word (fst (f k a b)) /\ is_word (snd (f k a b))) ->
  (forall i, (i < size v)%nat ->
     let '(a, b) := f (i / W)%nat (word (abits v) (i / W)) (word (bbits v) (i / W)) in
     of_planes (tb a (i mod W)) (tb b (i mod W)) = g i) ->
  bitwise (size v) g
    (if (size v <=? W)%nat then
       let '(a, b) := f 0%nat (abits_val v) (bbits_val v) in short (size v) a b
     else for_upto (words_for (size v)) (fun k => step_words (f k) k) v).
Proof.
  intros Hv Hf Hg. destruct (Nat.leb_spec (size v) W) as [Hs|Hl].
  - destruct (Hf 0%nat (abits_val v) (bbits_val v)) as [Wa Wb]; [apply word_is_word, Hv..|].
    assert (Hg' : forall i, (i < size v)%nat -> let '(a, b) := f 0%nat (abits_val v) (bbits_val v) in
       of_planes (tb a i) (tb b i) = g i).
    { intros i Hi. specialize (Hg i Hi). by rewrite Nat.div_small, Nat.mod_small in Hg by lia. }
    destruct (f 0%nat (abits_val v) (bbits_val v)) as [a b]. simpl in Wa, Wb.
    apply bitwise_planes; [by apply wf4_short|done|]. intros i Hi. rewrite <- Hg' by done.
    unfold pa, pb, short. cbn [abits bbits]. by rewrite !wbit_short by lia.
  - destruct (for_step_bits f v Hv Hl Hf) as (Hw & Es & Hp).
    apply bitwise_planes; [done|done|]. intros i Hi. specialize (Hg i Hi).
    destruct (Hp i Hi) as [-> ->]. by destruct (f _ _ _).
Qed.

(** The bits of the words of a vector. *)
Lemma word_planes v i :
  tb (word (abits v) (i / W)) (i mod W) = pa v i /\ tb (word (bbits v) (i / W)) (i mod W) = pb v i.
Proof. done. Qed.

Ltac word_bits :=
  repeat first [rewrite tb_land | rewrite tb_lor | rewrite tb_wones | rewrite tb_0
               | rewrite tb_wnot by auto 7 with word];
  rewrite ?(proj2 (Nat.ltb_lt _ _) (mod_W_lt _)), ?(proj1 (word_planes _ _)), ?(proj2 (word_planes _ _)).

Lemma change_z2x_spec v : wf4 v -> bitwise (size v) (fun i => bit4_z2x (value v i)) (change_z2x v).
Proof.
  intros Hv. apply (all_words_spec (fun _ a b => (Z.lor a b, b))); simpl; auto with word.
  intros i Hi. word_bits. by rewrite value_planes, z2x_planes.
Qed.

Lemma set_to_x_spec v : wf4 v -> bitwise (size v) (fun _ => BIT4_X) (set_to_x v).
Proof.
  intros Hv. apply (all_words_spec (fun _ _ _ => (wones, wones))); simpl; auto with word.
  intros i Hi. by word_bits.
Qed.

Lemma and_words_word a b a' b' :
  is_word a -> is_word b -> is_word a' -> is_word b' ->
  is_word (fst (and_words a b a' b')) /\ is_word (snd (and_words a b a' b')).
Proof. intros. simpl. auto 8 with word. Qed.

Lemma or_words_word a b a' b' :
  is_word a -> is_word b -> is_word a' -> is_word b' ->
  is_word (fst (or_words a b a' b')) /\ is_word (snd (or_words a b a' b')).
Proof. intros. simpl. auto 8 with word. Qed.

Lemma and_assign_spec v that :
  wf4 v -> wf4 that -> size that = size v ->
  bitwise (size v) (fun i => bit4_and (value v i) (value that i)) (and_assign v that).
Proof.
  intros Hv Ht Hs.
  apply (all_words_spec (fun k a b => and_words a b (word (abits that) k) (word (bbits that) k)));
    [done| |].
  - intros. apply and_words_word; auto; apply word_is_word, Ht.
  - intros i Hi. cbn [and_words]. word_bits.
    by rewrite (value_planes v), (value_planes that), and_planes by (done || lia).
Qed.

Lemma or_assign_spec v that :
  wf4 v -> wf4 that -> size that = size v ->
  bitwise (size v) (fun i => bit4_or (value v i) (value that i)) (or_assign v that).
Proof.
  intros Hv Ht Hs.
  apply (all_words_spec (fun k a b => or_words a b (word (abits that) k) (word (bbits that) k)));
    [done| |].
  - intros. apply or_words_word; auto; apply word_is_word, Ht.
  - intros i Hi. cbn [or_words]. destruct Hv, Ht. word_bits.
    by rewrite (value_planes v), (value_planes that), or_planes by (done || lia).
Qed.

Lemma invert_spec v : wf4 v -> bitwise (size v) (fun i => bit4_not (value v i)) (invert v).
Proof.
  intros Hv. unfold invert. destruct (Nat.leb_spec (size v) W) as [Hs|Hl].
  - destruct (tail_mask (size v) Hs) as [Hm Ht]. set (mask := if (size v <? W)%nat then _ else _) in *.
    destruct (wf4_short_inv v Hv Hs) as (Ea & Eb & Ha & Hb).
    apply bitwise_planes; [apply wf4_short; auto with word|done|].
    intros i Hi. rewrite value_planes, not_planes by done.
    rewrite (pa_short v), (pb_short v) by (done || lia). unfold pa, pb, short. cbn [abits bbits].
    rewrite !wbit_short, tb_lor, tb_land, Ht, tb_wnot, (proj2 (Nat.ltb_lt i W)) by (done || lia).
    f_equal. apply orb_comm.
  - rewrite while_words_spec.
    destruct (full_then_tail_words (size v) (fun a b => (Z.lor (wnot a) b, b))
      (fun a b => (Z.lor (Z.land (wmask (size v mod W)) (wnot a)) b, b)) v) as (Hw & Es & Hp);
      [done|done|done|simpl; auto 7 with word..|].
    apply bitwise_planes; [done|done|]. intros i Hi. specialize (Hp i Hi). cbv zeta in Hp.
    rewrite value_planes, not_planes by done. destruct Hv.
    destruct (div_mod_W_lt (size v) i Hi) as [H1|[H1 H2]].
    + rewrite (proj2 (Nat.ltb_lt _ _) H1) in Hp. destruct Hp as [-> ->].
      word_bits. f_equal. apply orb_comm.
    + rewrite (proj2 (Nat.ltb_ge _ _)) in Hp by lia. destruct Hp as [-> ->].
      word_bits. rewrite tb_wmask, (proj2 (Nat.ltb_lt _ _) H2) by apply mod_W_lt.
      f_equal. apply orb_comm.
Qed.

(** * Copying bits *)

(** A plane of [n] bits. *)
Definition plane (n : nat) (ws : list Z) : Prop := length ws = plane_words n /\ words ws.

Lemma wf4_planes v : wf4 v <-> plane (size v) (abits v) /\ plane (size v) (bbits v).
Proof. split; [by intros []|]. intros [[] []]. by split. Qed.

Lemma plane_short n w : (n <= W)%nat -> is_word w -> plane n [w].
Proof. intros. split; [by rewrite plane_words_short|by apply Forall_singleton]. Qed.

Lemma plane_short_inv n ws : (n <= W)%nat -> plane n ws -> ws = [word ws 0] /\ is_word (word ws 0).
Proof.
  intros Hn [L Hw]. rewrite plane_words_short in L by done.
  destruct ws as [|w [|]]; try done. split; [done|]. by inversion Hw.
Qed.

Lemma plane_insert n ws k w : plane n ws -> is_word w -> plane n (<[k := w]> ws).
Proof. intros [L Hw] H. split; [by rewrite length_insert|auto with word]. Qed.

(** Replacing the bits under a mask. *)
Lemma tb_replace w t mask j :
  is_word w -> is_word mask -> (j < W)%nat ->
  tb (Z.lor (Z.land w (wnot mask)) (Z.land t mask)) j = if tb mask j then tb t j else tb w j.
Proof.
  intros Hw Hm Hj. rewrite tb_lor, !tb_land, tb_wnot, (proj2 (Nat.ltb_lt _ _) Hj) by done. simpl.
  destruct (tb mask j); simpl; by rewrite ?andb_false_r, ?andb_true_r, ?orb_false_r.
Qed.

Lemma wbit_low ws i : (i < W)%nat -> wbit ws i = tb (word ws 0) i.
Proof. intros. by rewrite wbit_word, Nat.div_small, Nat.mod_small. Qed.

Lemma wbit_insert_word n ws k w i :
  plane n ws -> (k < plane_words n)%nat ->
  wbit (<[k := w]> ws) i = if (i / W =? k)%nat then tb w (i mod W) else wbit ws i.
Proof. intros [L _] Hk. by rewrite wbit_insert by lia. Qed.

(** Comparing bit positions word first. *)
Lemma ltb_div_mod i m :
  (i <? m)%nat = (i / W <? m / W)%nat || ((i / W =? m / W)%nat && (i mod W <? m mod W)%nat).
Proof.
  pose proof (Nat.div_mod_eq i W). pose proof (Nat.div_mod_eq m W).
  pose proof (mod_W_lt i). pose proof (mod_W_lt m). unfold W in *.
  repeat case_cmp; simpl; (done || lia).
Qed.

Lemma tail_index m n : (m <= n)%nat -> (0 < m mod W)%nat -> (m / W < words_for n)%nat.
Proof.
  intros Hm Hr. pose proof (Nat.div_mod_eq m W) as E.
  assert (m / W * W < n)%nat as Hi%words_for_length by (unfold W in *; lia).
  rewrite Nat.div_mul in Hi; [done|]. unfold W. lia.
Qed.

Lemma full_index m n : (m <= n)%nat -> (m / W <= words_for n)%nat.
Proof.
  intros Hm. transitivity (n / W)%nat; [apply Nat.Div0.div_le_mono; lia|].
  destruct (words_for_div n) as [H0 H1]. destruct (Nat.eq_dec (n mod W)%nat 0%nat);
    [rewrite H0 by done|rewrite H1 by lia]; lia.
Qed.

(** The last case: both planes are arrays. *)
Lemma copy_long_spec n m ts ws :
  (W < n)%nat -> (m <= n)%nat -> plane n ws -> words ts ->
  let '(ws1, word_, rest) :=
    while_words m 0 m (fun word_ ws => <[word_ := word ts word_]> ws) ws in
  let r := if (0 <? rest)%nat
    then <[word_ := Z.lor (Z.land (word ws1 word_) (wnot (wmask rest)))
                          (Z.land (word ts word_) (wmask rest))]> ws1
    else ws1 in
  plane n r /\ forall i, wbit r i = if (i <? m)%nat then wbit ts i else wbit ws i.
Proof.
  intros Hn Hm Hws Hts. rewrite while_words_spec. destruct Hws as [Lw Ww].
  rewrite plane_words_long in Lw by done. pose proof (full_index m n Hm) as Hq.
  destruct (for_insert (m / W) (word ts) ws) as [L K]; [lia|]. cbv zeta in *.
  set (ws1 := for_upto _ _ ws) in *.
  assert (P1 : plane n ws1).
  { split; [by rewrite L, plane_words_long|]. apply words_of_word. intros k Hk.
    rewrite K. case_cmp; by apply word_is_word. }
  assert (B1 : forall i, wbit ws1 i = if (i / W <? m / W)%nat then wbit ts i else wbit ws i).
  { intros i. rewrite !wbit_word, K. by case_cmp. }
  destruct (Nat.ltb_spec 0 (m mod W)) as [Hr|Hr].
  - assert (WW : is_word (word ws1 (m / W))) by (apply word_is_word, P1).
    assert (WT : is_word (word ts (m / W))) by (by apply word_is_word).
    pose proof (tail_index m n Hm Hr) as Ht.
    split; [apply plane_insert; auto 7 with word|]. intros i.
    rewrite (wbit_insert_word n) by (done || by rewrite plane_words_long).
    rewrite (ltb_div_mod i m). destruct (Nat.eqb_spec (i / W) (m / W)) as [E|E].
    + rewrite E, Nat.ltb_irrefl. simpl.
      rewrite tb_replace, tb_wmask by (done || apply mod_W_lt || auto with word).
      rewrite K, Nat.ltb_irrefl, <- E, !wbit_word. by case_cmp.
    + rewrite B1. by rewrite orb_false_r.
  - split; [done|]. intros i. rewrite B1, (ltb_div_mod i m).
    rewrite (proj2 (Nat.ltb_ge (i mod W) (m mod W))) by lia. by rewrite andb_false_r, orb_false_r.
Qed.

Lemma copy_bits_plane_spec n tn ts ws :
  plane n ws -> plane tn ts -> ~ (tn = W /\ (W < n)%nat) ->
  let r := copy_bits_plane n tn ts ws in
  plane n r /\ forall i, (i < n)%nat -> wbit r i = if (i <? tn)%nat then wbit ts i else wbit ws i.
Proof.
  intros Hws Hts Hx. unfold copy_bits_plane.
  destruct (Nat.eqb_spec n tn) as [<-|Hne].
  { destruct (Nat.ltb_spec W n) as [Hl|Hs].
    - destruct (for_insert (words_for n) (word ts) ws) as [L K];
        [rewrite (proj1 Hws), plane_words_long; done|]. cbv zeta in *. split; [split|].
      + by rewrite L, (proj1 Hws).
      + apply words_of_word. intros k Hk. rewrite K. case_cmp; apply word_is_word; [apply Hts|apply Hws].
      + intros i Hi. rewrite (proj2 (Nat.ltb_lt _ _) Hi), !wbit_word, K.
        by rewrite (proj2 (Nat.ltb_lt _ _) (words_for_length _ _ Hi)).
    - destruct (plane_short_inv n ts Hs Hts) as [Ets Wts]. split; [by apply plane_short|].
      intros i Hi. rewrite (proj2 (Nat.ltb_lt _ _) Hi). by rewrite <- Ets. }
  assert (WT : is_word (word ts 0)) by (apply word_is_word, Hts).
  assert (WW : is_word (word ws 0)) by (apply word_is_word, Hws).
  destruct (Nat.leb_spec n W) as [Hn|Hn]; destruct (Nat.leb_spec tn W) as [Ht|Ht]; cbn [andb].
  - set (m := if (tn <? n)%nat then tn else n).
    assert (Hm : (m < W)%nat /\ m = (tn `min` n)%nat) by (unfold m; case_cmp; lia).
    destruct Hm as [Hm Em].
    split; [apply plane_short; auto 7 with word|]. intros i Hi.
    rewrite wbit_short, tb_replace, tb_wmask by (done || lia || auto with word).
    rewrite !wbit_low by lia. repeat case_cmp; (done || lia).
  - split.
    + apply plane_short; [done|]. case_cmp; auto with word.
    + intros i Hi. rewrite wbit_short by lia. rewrite (proj2 (Nat.ltb_lt i tn)) by lia.
      rewrite wbit_low by lia. case_cmp; [|done].
      rewrite tb_land, tb_wmask, (proj2 (Nat.ltb_lt _ _) Hi) by done. apply andb_true_r.
  - rewrite (proj2 (Nat.ltb_lt tn W)) by lia.
    split; [apply plane_insert; auto 7 with word|]. intros i Hi.
    rewrite (wbit_insert_word n) by (done || by apply (plane_index n 0); lia).
    destruct (Nat.eqb_spec (i / W)%nat 0%nat) as [E0|E0].
    + apply Nat.div_small_iff in E0; [|unfold W; lia].
      rewrite Nat.mod_small, tb_replace, tb_wmask, !wbit_low by (done || lia || auto with word). done.
    + rewrite (proj2 (Nat.ltb_ge _ _)); [done|]. destruct (Nat.lt_ge_cases i tn); [|done].
      exfalso. apply E0. apply Nat.div_small. lia.
  - set (m := if (tn <? n)%nat then tn else n).
    assert (Em : m = (tn `min` n)%nat) by (unfold m; case_cmp; lia).
    pose proof (copy_long_spec n m ts ws Hn ltac:(lia) Hws (proj2 Hts)) as H.
    destruct (while_words m 0 m _ ws) as [[ws1 word_] rest]. destruct H as [Hp Hb].
    split; [exact Hp|]. intros i Hi. rewrite Hb. repeat case_cmp; (done || lia).
Qed.

(** The low bits come from the source, the others stay. *)
Lemma copy_bits_spec v that :
  wf4 v -> wf4 that -> ~ (size that = W /\ (W < size v)%nat) ->
  bitwise (size v) (fun i => if (i <? size that)%nat then value that i else value v i)
    (copy_bits v that).
Proof.
  intros Hv Ht Hx. apply wf4_planes in Hv as Pv. apply wf4_planes in Ht as Pt.
  destruct (copy_bits_plane_spec (size v) (size that) (abits that) (abits v)) as [Pa Ba]; [tauto..|].
  destruct (copy_bits_plane_spec (size v) (size that) (bbits that) (bbits v)) as [Pb Bb]; [tauto..|].
  apply bitwise_planes; [by apply wf4_planes|done|]. intros i Hi.
  unfold pa, pb, copy_bits. cbn [abits bbits]. rewrite Ba, Bb by done.
  case_cmp; by rewrite value_planes by done.
Qed.

(** * Tests *)

Lemma word_eq_0 x : is_word x -> (x =? 0) = true <-> forall j, (j < W)%nat -> tb x j = false.
Proof.
  intros Hx. rewrite Z.eqb_eq. split; [intros -> j _; apply tb_0|].
  intros H. apply tb_ext; [done|auto with word|]. intros j Hj. rewrite tb_0. by apply H.
Qed.

Lemma word_eqb x y : is_word x -> is_word y ->
  (x =? y) = true <-> forall j, (j < W)%nat -> tb x j = tb y j.
Proof. intros Hx Hy. rewrite Z.eqb_eq. split; [by intros ->|]. intros H. by apply tb_ext. Qed.

Lemma masked_eqb x y n : is_word x -> is_word y -> (n < W)%nat ->
  (Z.land x (wmask n) =? Z.land y (wmask n)) = true <-> forall j, (j < n)%nat -> tb x j = tb y j.
Proof.
  intros Hx Hy Hn. rewrite word_eqb by auto with word. split.
  - intros H j Hj. specialize (H j ltac:(lia)). rewrite !tb_land, tb_wmask in H by done.
    rewrite (proj2 (Nat.ltb_lt _ _) Hj), !andb_true_r in H. done.
  - intros H j Hj. rewrite !tb_land, tb_wmask by done. case_cmp; [|by rewrite !andb_false_r].
    by rewrite H.
Qed.

(** The mask written as a right shift: [-1UL >> (BITS_PER_WORD - n)]. *)
Lemma tb_high_mask n j : (0 < n < W)%nat -> (j < W)%nat -> tb (wshr wones (W - n)) j = (j <? n)%nat.
Proof.
  intros Hn Hj. rewrite tb_wshr, tb_wones by lia. repeat case_cmp; (done || lia).
Qed.

Lemma masked_eq_0 x n : is_word x -> (0 < n < W)%nat ->
  (Z.land x (wshr wones (W - n)) =? 0) = true <-> forall j, (j < n)%nat -> tb x j = false.
Proof.
  intros Hx Hn. rewrite word_eq_0 by auto with word. split.
  - intros H j Hj. specialize (H j ltac:(lia)). rewrite tb_land, tb_high_mask in H by lia.
    rewrite (proj2 (Nat.ltb_lt _ _) Hj), andb_true_r in H. done.
  - intros H j Hj. rewrite tb_land, tb_high_mask by done. case_cmp; [|by rewrite andb_false_r].
    by rewrite H.
Qed.

(** A property of every bit below [n], word by word. *)
Lemma bits_by_words n (P : nat -> Prop) :
  (forall i, (i < n)%nat -> P i) <->
  (forall k, (k < n / W)%nat -> forall j, (j < W)%nat -> P (k * W + j)%nat) /\
  (forall j, (j < n mod W)%nat -> P (n / W * W + j)%nat).
Proof.
  pose proof (Nat.div_mod_eq n W) as E. pose proof (mod_W_lt n). split.
  - intros H1. split; intros; apply H1; unfold W in *; nia.
  - intros [H1 H2] i Hi. pose proof (Nat.div_mod_eq i W) as Ei. pose proof (mod_W_lt i).
    replace i with (i / W * W + i mod W)%nat by lia.
    destruct (div_mod_W_lt n i Hi) as [Hk|[-> Hk]]; auto.
Qed.

Lemma wbit_index ws k j : (j < W)%nat -> wbit ws (k * W + j) = tb (word ws k) j.
Proof.
  intros Hj. rewrite wbit_word, Nat.add_comm, Nat.div_add, Nat.Div0.mod_add by (unfold W; lia).
  by rewrite Nat.div_small, Nat.mod_small.
Qed.

(** [has_xz] finds the unknown bits, and only those. *)
Lemma has_xz_planes v :
  wf4 v -> (0 < size v)%nat ->
  has_xz v = false <-> forall i, (i < size v)%nat -> pb v i = false.
Proof.
  intros Hv Hp. unfold has_xz. destruct (Nat.ltb_spec (size v) W) as [Hs|Hs].
  { rewrite negb_false_iff, masked_eq_0 by (lia || apply word_is_word, Hv).
    split; intros H i Hi; specialize (H i Hi); rewrite pb_short in * by (done || lia); done. }
  destruct (Nat.eqb_spec (size v) W) as [He|He].
  { rewrite negb_false_iff, word_eq_0 by apply word_is_word, Hv. rewrite <- He.
    split; intros H i Hi; specialize (H i Hi); rewrite pb_short in * by (done || lia); done. }
  rewrite (bits_by_words (size v) (fun i => pb v i = false)).
  destruct (existsb _ _) eqn:Ex.
  - split; [done|]. intros [H _]. apply existsb_exists in Ex as (k & Hk & Hne).
    apply in_seq in Hk. apply negb_true_iff in Hne.
    rewrite (proj2 (word_eq_0 _ (word_is_word _ k (wf4_wb _ Hv)))) in Hne; [done|].
    intros j Hj. specialize (H k ltac:(lia) j Hj). unfold pb in H. by rewrite wbit_index in H.
  - assert (HA : forall k, (k < size v / W)%nat -> forall j, (j < W)%nat -> pb v (k * W + j) = false).
    { intros k Hk j Hj. unfold pb. rewrite wbit_index by done.
      destruct (Z.eqb_spec (word (bbits v) k) 0) as [->|Hne]; [apply tb_0|].
      exfalso. assert (existsb (fun idx => negb (word (bbits v) idx =? 0)) (seq 0 (size v / W)) = true).
      { apply existsb_exists. exists k. split; [apply in_seq; lia|]. by case_cmp. }
      congruence. }
    pose proof (mod_W_lt (size v)). destruct (Nat.ltb_spec 0 (size v mod W)) as [Ht|Ht].
    + rewrite negb_false_iff, masked_eq_0 by (lia || apply word_is_word, Hv).
      split.
      * intros H1. split; [done|]. intros j Hj. unfold pb. rewrite wbit_index by lia. by apply H1.
      * intros [_ H1] j Hj. specialize (H1 j Hj). unfold pb in H1. by rewrite wbit_index in H1 by lia.
    + split; [|done]. intros _. split; [done|]. intros j Hj. lia.
Qed.

Lemma has_xz_spec v :
  wf4 v -> (0 < size v)%nat ->
  has_xz v = true <-> exists i, (i < size v)%nat /\ bit4_is_xz (value v i) = true.
Proof.
  intros Hv Hp. pose proof (has_xz_planes v Hv Hp) as H. split.
  - intros E. destruct (existsb (fun i => pb v i) (seq 0 (size v))) eqn:Ex.
    + apply existsb_exists in Ex as (i & Hi%in_seq & Hb). exists i. split; [lia|].
      rewrite is_xz_bbit, value_planes, bbit_of_planes by (done || lia). done.
    + rewrite (proj2 H) in E; [done|]. intros i Hi. destruct (pb v i) eqn:Eb; [|done].
      assert (existsb (fun i => pb v i) (seq 0 (size v)) = true); [|congruence].
      apply existsb_exists. exists i. split; [apply in_seq; lia|done].
  - intros (i & Hi & Hx). rewrite is_xz_bbit, value_planes, bbit_of_planes in Hx by done.
    destruct (has_xz v); [done|]. rewrite (proj1 H) in Hx; done.
Qed.

Lemma eq_words_spec same n v that :
  eq_words same n v that = true <->
  forall k, (k < n)%nat ->
    same (word (abits v) k) (word (bbits v) k) (word (abits that) k) (word (bbits that) k) = true.
Proof.
  induction n as [|n IH]; cbn [eq_words]; [by split; [lia|]|].
  rewrite andb_true_iff, IH. split.
  - intros [H1 H2] k Hk. destruct (Nat.eq_dec k n) as [->|]; [done|]. apply H1. lia.
  - intros H. split; [intros; apply H; lia|apply H; lia].
Qed.

(** Both comparisons compare one function of the planes and the second plane. *)
Section Compare.
Context (g : Z -> Z -> Z) (gb : bool -> bool -> bool).
Hypothesis g_word : forall a b, is_word a -> is_word b -> is_word (g a b).
Hypothesis g_bits : forall a b j, tb (g a b) j = gb (tb a j) (tb b j).

Let masked (mask a b a' b' : Z) : bool :=
  (Z.land (g a b) mask =? Z.land (g a' b') mask) && (Z.land b mask =? Z.land b' mask).
Let full (a b a' b' : Z) : bool := (g a b =? g a' b') && (b =? b').

Let comparison (v that : vvp_vector4_t) : bool :=
  if negb (size v =? size that)%nat then false else
  if (size v <? W)%nat then
    masked (wmask (size v)) (abits_val v) (bbits_val v) (abits_val that) (bbits_val that)
  else if (size v =? W)%nat then
    full (abits_val v) (bbits_val v) (abits_val that) (bbits_val that)
  else
    let words := (size v / W)%nat in
    if eq_words full words v that then
      let tail := (size v mod W)%nat in
      if (0 <? tail)%nat then
        masked (wmask tail) (word (abits v) words) (word (bbits v) words)
          (word (abits that) words) (word (bbits that) words)
      else true
    else false.

Let same_at (v that : vvp_vector4_t) (i : nat) : Prop :=
  gb (pa v i) (pb v i) = gb (pa that i) (pb that i) /\ pb v i = pb that i.

Let masked_words v that k n :
  wf4 v -> wf4 that -> (n < W)%nat ->
  masked (wmask n) (word (abits v) k) (word (bbits v) k) (word (abits that) k) (word (bbits that) k)
    = true <-> forall j, (j < n)%nat -> same_at v that (k * W + j).
Proof.
  intros Hv Ht Hn. unfold masked. rewrite andb_true_iff, !masked_eqb by
    (try apply g_word; try apply word_is_word; first [apply Hv|apply Ht|done]).
  setoid_rewrite g_bits. unfold same_at, pa, pb. split.
  - intros [H1 H2] j Hj. rewrite !wbit_index by lia. split; [by apply H1|by apply H2].
  - intros H. split; intros j Hj; destruct (H j Hj) as [H1 H2]; by rewrite !wbit_index in * by lia.
Qed.

Let full_words v that k :
  wf4 v -> wf4 that ->
  full (word (abits v) k) (word (bbits v) k) (word (abits that) k) (word (bbits that) k)
    = true <-> forall j, (j < W)%nat -> same_at v that (k * W + j).
Proof.
  intros Hv Ht. unfold full. rewrite andb_true_iff, !word_eqb by
    (try apply g_word; try apply word_is_word; first [apply Hv|apply Ht]).
  setoid_rewrite g_bits. unfold same_at, pa, pb. split.
  - intros [H1 H2] j Hj. rewrite !wbit_index by lia. split; [by apply H1|by apply H2].
  - intros H. split; intros j Hj; destruct (H j Hj) as [H1 H2]; by rewrite !wbit_index in * by lia.
Qed.

Lemma comparison_spec v that :
  wf4 v -> wf4 that ->
  comparison v that = true <->
  size v = size that /\ forall i, (i < size v)%nat -> same_at v that i.
Proof.
  intros Hv Ht. unfold comparison. destruct (Nat.eqb_spec (size v) (size that)) as [Es|Es]; cbn [negb].
  2:{ split; [done|]. by intros [? _]. }
  assert (HD : forall P, (size v = size that /\ P) <-> P) by tauto. rewrite HD. clear HD.
  destruct (Nat.ltb_spec (size v) W) as [Hs|Hs].
  { rewrite (masked_words v that 0) by done. done. }
  destruct (Nat.eqb_spec (size v) W) as [He|He].
  { rewrite (full_words v that 0), He by done. done. }
  rewrite (bits_by_words (size v) (same_at v that)). pose proof (mod_W_lt (size v)).
  assert (HF : eq_words full (size v / W) v that = true <->
    forall k, (k < size v / W)%nat -> forall j, (j < W)%nat -> same_at v that (k * W + j)).
  { rewrite eq_words_spec. split; intros H1 k Hk; [apply full_words; auto|].
    apply full_words; [done|done|]. by apply H1. }
  destruct (eq_words full (size v / W) v that).
  - destruct (Nat.ltb_spec 0 (size v mod W)) as [Htl|Htl].
    + rewrite masked_words by done. split; [|tauto]. intros ?. split; [by apply HF|done].
    + split; [|done]. intros _. split; [by apply HF|]. intros j Hj. lia.
  - split; [done|]. intros [H1 _]. by apply HF.
Qed.
End Compare.

Lemma eeq_spec v that : wf4 v -> wf4 that -> eeq v that = true <-> same_bits v that.
Proof.
  intros Hv Ht.
  pose proof (comparison_spec (fun a _ => a) (fun a _ => a) ltac:(done) ltac:(done) v that Hv Ht) as H.
  unfold eeq, eeq_word. etransitivity; [exact H|]. unfold same_bits. split.
  - intros [Es Hb]. split; [done|]. intros i Hi. rewrite !value_planes by (done || lia).
    destruct (Hb i ltac:(lia)) as [-> ->]. done.
  - intros [Es Hb]. split; [done|]. intros i Hi. specialize (Hb i ltac:(lia)).
    rewrite !value_planes in Hb by (done || lia). by apply of_planes_inj.
Qed.

Lemma z2x_eq_planes a b a' b' :
  bit4_z2x (of_planes a b) = bit4_z2x (of_planes a' b') <-> a || b = a' || b' /\ b = b'.
Proof. rewrite !z2x_planes. split; [apply of_planes_inj|by intros [-> ->]]. Qed.

Lemma eq_xz_spec v that :
  wf4 v -> wf4 that ->
  eq_xz v that = true <->
  size v = size that /\ forall i, (i < size v)%nat -> bit4_z2x (value v i) = bit4_z2x (value that i).
Proof.
  intros Hv Ht.
  pose proof (comparison_spec Z.lor orb lor_word tb_lor v that Hv Ht) as H.
  unfold eq_xz, eq_xz_word. etransitivity; [exact H|]. split.
  - intros [Es Hb]. split; [done|]. intros i Hi. rewrite !value_planes by (done || lia).
    apply z2x_eq_planes. apply Hb. lia.
  - intros [Es Hb]. split; [done|]. intros i Hi. specialize (Hb i ltac:(lia)).
    rewrite !value_planes in Hb by (done || lia). by apply z2x_eq_planes in Hb.
Qed.
