(* ===== verification/VvpSlice.v ===== *)
(** The operations of [vvp_vector4_t] that move ranges of bits between word
    positions ([vvp/vvp_net.cc]): part select, resize, the conversions from and to
    arrays of two-valued words, part assignment and the internal move. *)
From S2P Require Import Prelude MachineWord VvpBit VvpVector4.

(** * Definitions *)

(** ** Part select: [vvp_vector4_t(that, adr, wid)] and [subvalue] *)

(** The loop over the words of a long result, on one plane. *)
Fixpoint subvalue_loop (fuel adr wid trans ptr dst : nat) (ts acc : list Z) : list Z :=
  match fuel with
  | O => acc
  | S f =>
      if (trans <? wid)%nat then
        let off := (adr mod W)%nat in
        let noff := (W - off)%nat in
        let lmask := wmask off in
        let acc := <[dst := wshr (Z.land (word ts ptr) (wnot lmask)) off]> acc in
        let trans := (trans + noff)%nat in
        if (wid <=? trans)%nat then acc else
        let ptr := (ptr + 1)%nat in
        let '(acc, trans) :=
          if negb (noff =? W)%nat then
            (<[dst := Z.lor (word acc dst) (wshl (Z.land (word ts ptr) lmask) noff)]> acc,
             (trans + off)%nat)
          else (acc, trans) in
        subvalue_loop f adr wid trans ptr (dst + 1) ts acc
      else acc
  end.

(** A short result out of a long source, on one plane. *)
Definition subvalue_word (adr wid : nat) (ts : list Z) : Z :=
  let ptr := (adr / W)%nat in
  let off := (adr mod W)%nat in
  let trans := (W - off)%nat in
  let trans := if (wid <? trans)%nat then wid else trans in
  if (trans =? W)%nat then word ts ptr
  else
    let lmask := wshl (wmask trans) off in
    let val := wshr (Z.land (word ts ptr) lmask) off in
    if (trans <? wid)%nat then
      let hmask := wmask (wid - trans) in
      Z.lor val (wshl (Z.land (word ts (ptr + 1)) hmask) trans)
    else val.

(** The part select of one plane that lies inside the source. *)
Definition subvalue_plane (n adr wid : nat) (ts acc : list Z) : list Z :=
  if (W <? wid)%nat then subvalue_loop wid adr wid 0 (adr / W) 0 ts acc
  else if (W <? n)%nat then [subvalue_word adr wid ts]
  else if (wid =? W)%nat then [word ts 0]
  else let mask := wshl (wmask wid) adr in [wshr (Z.land (word ts 0) mask) adr].

Definition subvalue (that : vvp_vector4_t) (adr wid : nat) : option vvp_vector4_t :=
  let res := allocate_words_ wid wones wones in
  if (size that <=? adr)%nat then Some res
  else if (size that <? adr + wid)%nat then
    let use_wid := (size that - adr)%nat in
    for_upto use_wid (fun idx r => r ← r; set_bit r idx (value that (adr + idx))) (Some res)
  else
    Some (mkVec4 wid (subvalue_plane (size that) adr wid (abits that) (abits res))
                     (subvalue_plane (size that) adr wid (bbits that) (bbits res))).

(** ** [resize(newsize, pad_bit)], on one plane *)

(** [w &= ~((-1UL) << fill); w |= pad << fill]. *)
Definition fill_word (w pad : Z) (fill : nat) : Z :=
  Z.lor (Z.land w (wnot (wshl wones fill))) (wshl pad fill).

Definition resize_plane (n newsize : nat) (word_pad : Z) (ws : list Z) : list Z :=
  let cnt := words_for n in
  let fill := (n mod W)%nat in
  let fill_last k ws :=
    if negb (fill =? 0)%nat then <[k := fill_word (word ws k) word_pad fill]> ws else ws in
  if (W <? newsize)%nat then
    let newcnt := words_for newsize in
    if (newcnt =? cnt)%nat then
      if (n <? newsize)%nat then fill_last (cnt - 1)%nat ws else ws
    else
      let newbits := replicate newcnt 0 in
      let newbits :=
        if (1 <? cnt)%nat then
          let trans := if (newcnt <? cnt)%nat then newcnt else cnt in
          for_upto trans (fun idx nb => <[idx := word ws idx]> nb) newbits
        else <[0%nat := word ws 0]> newbits in
      if (n <? newsize)%nat then
        for_upto (newcnt - cnt) (fun k nb => <[(cnt + k)%nat := word_pad]> nb)
          (fill_last (cnt - 1)%nat newbits)
      else newbits
  else
    let w := word ws 0 in
    if (n <? newsize)%nat then [fill_word w word_pad n] else [w].

Definition resize (v : vvp_vector4_t) (newsize : nat) (pad_bit : vvp_bit4_t) : vvp_vector4_t :=
  if (size v =? newsize)%nat then v else
  mkVec4 newsize (resize_plane (size v) newsize (init_atable pad_bit) (abits v))
                 (resize_plane (size v) newsize (init_btable pad_bit) (bbits v)).

(** ** [subarray(adr, wid, xz_to_0)]: two-valued words, or nil when a bit is unknown *)

Fixpoint subarray_loop (fuel adr wid val_ptr val_off : nat) (xz_to_0 : bool)
    (v : vvp_vector4_t) (val : list Z) : option (list Z) :=
  match fuel with
  | O => Some val
  | S f =>
      if (0 <? wid)%nat then
        let off := (adr mod W)%nat in
        let atmp := wshr (word (abits v) (adr / W)) off in
        let btmp := wshr (word (bbits v) (adr / W)) off in
        let trans := (W - off)%nat in
        let trans := if (W - val_off <? trans)%nat then (W - val_off)%nat else trans in
        let trans := if (wid <? trans)%nat then wid else trans in
        let '(atmp, btmp) :=
          if (trans <? W)%nat then (Z.land atmp (wmask trans), Z.land btmp (wmask trans))
          else (atmp, btmp) in
        let next atmp :=
          let val := <[val_ptr := Z.lor (word val val_ptr) (wshl atmp val_off)]> val in
          let val_off := (val_off + trans)%nat in
          if (val_off =? W)%nat
          then subarray_loop f (adr + trans) (wid - trans) (val_ptr + 1) 0 xz_to_0 v val
          else subarray_loop f (adr + trans) (wid - trans) val_ptr val_off xz_to_0 v val in
        if negb (btmp =? 0) then
          if xz_to_0 then next (Z.land atmp (wnot btmp)) else None
        else next atmp
      else Some val
  end.

Definition subarray (v : vvp_vector4_t) (adr wid : nat) (xz_to_0 : bool) : option (list Z) :=
  let awid := words_for wid in
  let val := replicate awid 0 in
  if (size v <=? W)%nat then
    let atmp := wshr (abits_val v) adr in
    let btmp := wshr (bbits_val v) adr in
    let '(atmp, btmp) :=
      if (wid <? W)%nat then (Z.land atmp (wmask wid), Z.land btmp (wmask wid))
      else (atmp, btmp) in
    if negb (btmp =? 0) then
      if xz_to_0 then Some (<[0%nat := Z.land atmp (wnot btmp)]> val) else None
    else Some (<[0%nat := atmp]> val)
  else subarray_loop wid adr wid 0 0 xz_to_0 v val.

(** ** [setarray(adr, wid, val)] *)

(** [~(hmask | lmask)]: the bits from [off] to [off+trans]. *)
Definition range_mask (off trans : nat) : Z :=
  let lmask := wmask off in
  let hmask := if (off + trans <? W)%nat then wshl wones (off + trans) else 0 in
  wnot (Z.lor hmask lmask).

Fixpoint setarray_loop (fuel wid off ptr val_off val_ptr : nat) (val : list Z)
    (v : vvp_vector4_t) : vvp_vector4_t :=
  match fuel with
  | O => v
  | S f =>
      if (0 <? wid)%nat then
        let trans := wid in
        let trans := if (W - val_off <? trans)%nat then (W - val_off)%nat else trans in
        let trans := if (W - off <? trans)%nat then (W - off)%nat else trans in
        let mask := range_mask off trans in
        let src :=
          if (off <=? val_off)%nat then wshr (word val val_ptr) (val_off - off)
          else wshl (word val val_ptr) (off - val_off) in
        let v := step_words (fun a b =>
          (Z.lor (Z.land a (wnot mask)) (Z.land mask src), Z.land b (wnot mask))) ptr v in
        let val_off := (val_off + trans)%nat in
        let '(val_off, val_ptr) :=
          if (val_off =? W)%nat then (0%nat, (val_ptr + 1)%nat) else (val_off, val_ptr) in
        let off := (off + trans)%nat in
        let '(off, ptr) := if (off =? W)%nat then (0%nat, (ptr + 1)%nat) else (off, ptr) in
        setarray_loop f (wid - trans) off ptr val_off val_ptr val v
      else v
  end.

Definition setarray (v : vvp_vector4_t) (adr wid : nat) (val : list Z) : option vvp_vector4_t :=
  if (adr + wid <=? size v)%nat then
    if (size v <=? W)%nat then
      let mask := range_mask adr wid in
      Some (short (size v)
              (Z.lor (Z.land (abits_val v) (wnot mask)) (Z.land mask (wshl (word val 0) adr)))
              (Z.land (bbits_val v) (wnot mask)))
    else Some (setarray_loop wid wid (adr mod W) (adr / W) 0 0 val v)
  else None.

(** ** [set_vec(adr, that)]: the new vector and whether any bit changed *)

(** [if ((w & mask) != tmp) { diff_flag = true; w = (w & ~mask) | tmp; }] on word [k]. *)
Definition put (mask tmp : Z) (k : nat) (s : list Z * bool) : list Z * bool :=
  let '(ws, diff) := s in
  if negb (Z.land (word ws k) mask =? tmp)
  then (<[k := Z.lor (Z.land (word ws k) (wnot mask)) tmp]> ws, true) else (ws, diff).

(** [if (w != src) { diff_flag = true; w = src; }]. *)
Definition put_word (src : Z) (k : nat) (s : list Z * bool) : list Z * bool :=
  let '(ws, diff) := s in
  if negb (word ws k =? src) then (<[k := src]> ws, true) else (ws, diff).

(** [hshift >= BITS_PER_WORD ? -1UL : (1UL << hshift) - 1]. *)
Definition low_mask (hshift : nat) : Z := if (W <=? hshift)%nat then wones else wmask hshift.

(** The destination is short. *)
Definition set_vec_short (adr tn : nat) (ts : list Z) (s : list Z * bool) : list Z * bool :=
  let lmask := wmask adr in
  let hmask := low_mask (adr + tn) in
  let mask := Z.land hmask (wnot lmask) in
  put mask (Z.land (wshl (word ts 0) adr) mask) 0 s.

(** The destination is long, the source short. *)
Definition set_vec_short_source (adr tn : nat) (ts : list Z) (s : list Z * bool) : list Z * bool :=
  let dptr := (adr / W)%nat in
  let doff := (adr mod W)%nat in
  let lmask := wmask doff in
  let hmask := low_mask (doff + tn) in
  let mask := Z.land hmask (wnot lmask) in
  let s := put mask (Z.land (wshl (word ts 0) doff) mask) dptr s in
  if (W <? doff + tn)%nat then
    let tail := (doff + tn - W)%nat in
    let mask := wmask tail in
    put mask (Z.land (wshr (word ts 0) (tn - tail)) mask) (dptr + 1) s
  else s.

(** Both are long and the destination address is on a word boundary. *)
Definition set_vec_aligned (adr tn : nat) (ts : list Z) (s : list Z * bool) : list Z * bool :=
  let dptr := (adr / W)%nat in
  let '(s, sptr, remain) :=
    while_words tn 0 tn (fun sptr s => put_word (word ts sptr) (dptr + sptr) s) s in
  if (0 <? remain)%nat then
    let mask := wmask remain in
    put mask (Z.land (word ts sptr) mask) (dptr + sptr) s
  else s.

(** Both are long and the destination is not aligned. *)
Definition set_vec_unaligned (adr tn : nat) (ts : list Z) (s : list Z * bool) : list Z * bool :=
  let dptr := (adr / W)%nat in
  let doff := (adr mod W)%nat in
  let lmask := wmask doff in
  let ndoff := (W - doff)%nat in
  let '(s, sptr, remain) :=
    while_words tn 0 tn
      (fun sptr s =>
         let s := put (wnot lmask) (Z.land (wshl (word ts sptr) doff) (wnot lmask)) (dptr + sptr) s in
         put lmask (Z.land (wshr (word ts sptr) ndoff) lmask) (dptr + sptr + 1) s) s in
  let dptr := (dptr + sptr)%nat in
  if (0 <? remain)%nat then
    let hmask := low_mask (doff + remain) in
    let mask := Z.land hmask (wnot lmask) in
    let s := put mask (Z.land (wshl (word ts sptr) doff) mask) dptr s in
    if (W <? doff + remain)%nat then
      let tail := (doff + remain - W)%nat in
      let mask := low_mask tail in
      put mask (Z.land (wshr (word ts sptr) (remain - tail)) mask) (dptr + 1) s
    else s
  else s.

Definition set_vec_plane (n adr tn : nat) (ts : list Z) (s : list Z * bool) : list Z * bool :=
  if (n <=? W)%nat then set_vec_short adr tn ts s
  else if (tn <=? W)%nat then set_vec_short_source adr tn ts s
  else if (adr mod W =? 0)%nat then set_vec_aligned adr tn ts s
  else set_vec_unaligned adr tn ts s.

Definition set_vec (v : vvp_vector4_t) (adr : nat) (that : vvp_vector4_t)
    : option (vvp_vector4_t * bool) :=
  if (adr + size that <=? size v)%nat then
    let '(a, da) := set_vec_plane (size v) adr (size that) (abits that) (abits v, false) in
    let '(b, db) := set_vec_plane (size v) adr (size that) (bbits that) (bbits v, false) in
    Some (mkVec4 (size v) a b, da || db)
  else None.

(** ** [mov(dst, src, cnt)]: on one plane, in place *)

Fixpoint mov_loop (fuel cnt sptr dptr soff doff : nat) (ws : list Z) : list Z :=
  match fuel with
  | O => ws
  | S f =>
      if (0 <? cnt)%nat then
        let trans := cnt in
        let trans := if (W <? soff + trans)%nat then (W - soff)%nat else trans in
        let trans := if (W <? doff + trans)%nat then (W - doff)%nat else trans in
        if (trans =? W)%nat then
          mov_loop f (cnt - W) (sptr + 1) (dptr + 1) soff doff (<[dptr := word ws sptr]> ws)
        else
          let vmask := wmask trans in
          let tmp := Z.land (wshr (word ws sptr) soff) vmask in
          let ws := <[dptr := Z.lor (Z.land (word ws dptr) (wnot (wshl vmask doff)))
                                    (wshl tmp doff)]> ws in
          let soff := (soff + trans)%nat in
          let '(soff, sptr) := if (W <=? soff)%nat then (0%nat, (sptr + 1)%nat) else (soff, sptr) in
          let doff := (doff + trans)%nat in
          let '(doff, dptr) := if (W <=? doff)%nat then (0%nat, (dptr + 1)%nat) else (doff, dptr) in
          mov_loop f (cnt - trans) sptr dptr soff doff ws
      else ws
  end.

Definition mov_plane (n dst src cnt : nat) (ws : list Z) : list Z :=
  if (n <=? W)%nat then
    let vmask := wmask cnt in
    let tmp := Z.land (wshr (word ws 0) src) vmask in
    [Z.lor (Z.land (word ws 0) (wnot (wshl vmask dst))) (wshl tmp dst)]
  else mov_loop cnt cnt (src / W) (dst / W) (src mod W) (dst mod W) ws.

Definition mov (v : vvp_vector4_t) (dst src cnt : nat) : option vvp_vector4_t :=
  if (dst + cnt <=? size v)%nat && (src + cnt <=? size v)%nat then
    Some (mkVec4 (size v) (mov_plane (size v) dst src cnt (abits v))
                          (mov_plane (size v) dst src cnt (bbits v)))
  else None.

(** * Bit positions across words *)

(** Position [j] of word [d] of the result is position [adr + d*W + j] of the source. *)
Lemma wbit_offset ts adr d j :
  (j < W)%nat ->
  wbit ts (adr + (d * W + j)) =
  if (adr mod W + j <? W)%nat then tb (word ts (adr / W + d)) (adr mod W + j)
  else tb (word ts (adr / W + d + 1)) (adr mod W + j - W).
Proof.
  intros Hj. pose proof (Nat.div_mod_eq adr W). pose proof (mod_W_lt adr). case_cmp.
  - replace (adr + (d * W + j))%nat with ((adr / W + d) * W + (adr mod W + j))%nat by lia.
    by rewrite wbit_index.
  - replace (adr + (d * W + j))%nat with ((adr / W + d + 1) * W + (adr mod W + j - W))%nat by lia.
    rewrite wbit_index; [done|]. unfold W in *. lia.
Qed.

Lemma wbit_short_offset ts adr j :
  (adr + j < W)%nat -> wbit ts (adr + j) = tb (word ts 0) (adr + j).
Proof. apply wbit_low. Qed.

(** * Part select *)

(** The two parts of a result word: the upper bits of one source word and the lower ones
    of the next. *)
Lemma tb_upper_part w off j :
  is_word w -> (off < W)%nat -> (j < W)%nat ->
  tb (wshr (Z.land w (wnot (wmask off))) off) j = (off + j <? W)%nat && tb w (off + j).
Proof.
  intros Hw Ho Hj. rewrite tb_wshr, tb_land, tb_wnot, tb_wmask by (done || auto with word).
  rewrite (Nat.add_comm j). rewrite (proj2 (Nat.ltb_ge _ off)) by lia. simpl. rewrite andb_true_r.
  apply andb_comm.
Qed.

Lemma tb_lower_part w off j :
  (0 < off < W)%nat -> (j < W)%nat ->
  tb (wshl (Z.land w (wmask off)) (W - off)) j = (W - off <=? j)%nat && tb w (off + j - W).
Proof.
  intros Ho Hj. rewrite tb_wshl, tb_land, tb_wmask by lia. rewrite (proj2 (Nat.ltb_lt _ _) Hj). simpl.
  destruct (Nat.leb_spec (W - off) j); [|done]. simpl.
  replace (j - (W - off))%nat with (off + j - W)%nat by lia.
  rewrite (proj2 (Nat.ltb_lt _ _)) by lia. by rewrite andb_true_r.
Qed.

(** Word [d] of the result is complete once its bits are those of [w]. *)
Lemma word_complete adr wid d ts acc acc2 w :
  (forall i, (i < d * W)%nat -> (i < wid)%nat -> wbit acc i = wbit ts (adr + i)) ->
  (forall i, wbit acc2 i = if (i / W =? d)%nat then tb w (i mod W) else wbit acc i) ->
  (forall j, (j < W)%nat -> (d * W + j < wid)%nat -> tb w j = wbit ts (adr + (d * W + j))) ->
  forall i, (i < (d + 1) * W)%nat -> (i < wid)%nat -> wbit acc2 i = wbit ts (adr + i).
Proof.
  intros Hd B2 Hw i Hi1 Hi2. rewrite B2. pose proof (Nat.div_mod_eq i W) as Ei.
  destruct (Nat.eqb_spec (i / W) d) as [E|E].
  - rewrite Hw by (apply mod_W_lt || lia). f_equal. lia.
  - apply Hd; [|done]. pose proof (mod_W_lt i). unfold W in *. nia.
Qed.

(** The state of the loop at result word [d]. *)
Lemma subvalue_loop_spec fuel adr wid d ts acc :
  words ts -> (wid - d * W <= fuel)%nat -> plane wid acc -> (W < wid)%nat ->
  (forall i, (i < d * W)%nat -> (i < wid)%nat -> wbit acc i = wbit ts (adr + i)) ->
  let r := subvalue_loop fuel adr wid (d * W) (adr / W + d) d ts acc in
  plane wid r /\ forall i, (i < wid)%nat -> wbit r i = wbit ts (adr + i).
Proof.
  intros Ht. revert d acc. induction fuel as [|f IH]; intros d acc Hf Hp Hl Hd; cbn [subvalue_loop].
  - split; [done|]. intros i Hi. apply Hd; lia.
  - destruct (Nat.ltb_spec (d * W) wid) as [Hdw|Hdw]; [|split; [done|]; intros i Hi; apply Hd; lia].
    set (off := (adr mod W)%nat). pose proof (mod_W_lt adr) as Ho. fold off in Ho.
    set (lo := wshr (Z.land (word ts (adr / W + d)) (wnot (wmask off))) off).
    assert (Wts : forall k, is_word (word ts k)) by (intros; by apply word_is_word).
    assert (Wlo : is_word lo) by (unfold lo; auto with word).
    assert (Hk : (d < plane_words wid)%nat).
    { rewrite <- (Nat.div_mul d W) by (unfold W; lia). by apply plane_index. }
    set (acc1 := <[d := lo]> acc).
    assert (P1 : plane wid acc1) by by apply plane_insert.
    assert (B1 : forall i, wbit acc1 i = if (i / W =? d)%nat then tb lo (i mod W) else wbit acc i)
      by (intros i; unfold acc1; by rewrite (wbit_insert_word wid)).
    assert (Hfirst : forall j, (j < W)%nat -> (off + j < W)%nat -> tb lo j = wbit ts (adr + (d * W + j))).
    { intros j Hj Hoj. unfold lo. rewrite wbit_offset, tb_upper_part by done. fold off.
      by rewrite (proj2 (Nat.ltb_lt _ _)). }
    destruct (Nat.leb_spec wid (d * W + (W - off))) as [Hb|Hb].
    { split; [done|]. intros i Hi. apply (word_complete _ _ _ _ _ _ _ Hd B1); [|lia|done].
      intros j Hj Hjw. apply Hfirst; lia. }
    destruct (Nat.eqb_spec (W - off) W) as [E|E]; cbn [negb]; rewrite <- !Nat.add_assoc.
    + replace (d * W + (W - off))%nat with ((d + 1) * W)%nat by lia.
      apply IH; [unfold W in *; lia|done|done|]. apply (word_complete _ _ _ _ _ _ _ Hd B1).
      intros j Hj Hjw. apply Hfirst; lia.
    + replace (d * W + (W - off + off))%nat with ((d + 1) * W)%nat by lia.
      set (hi := wshl _ (W - off)). assert (Whi : is_word hi) by (unfold hi; auto with word).
      assert (Ew : word acc1 d = lo).
      { unfold acc1. rewrite word_insert by (destruct Hp as [-> _]; done). by rewrite Nat.eqb_refl. }
      rewrite Ew. apply IH; [unfold W in *; lia|apply plane_insert; auto with word|done|].
      apply (word_complete _ _ _ _ _ _ (Z.lor lo hi) Hd).
      * intros i. rewrite (wbit_insert_word wid) by done. rewrite B1. by case_cmp.
      * intros j Hj Hjw. unfold hi, lo. rewrite wbit_offset, tb_lor, tb_upper_part, tb_lower_part by (done || lia).
        fold off. rewrite <- Nat.add_assoc.
        repeat case_cmp; simpl; rewrite ?orb_false_r; (done || lia).
Qed.

Lemma subvalue_word_spec n adr wid ts :
  words ts -> (wid <= W)%nat -> (W < n)%nat -> (adr + wid <= n)%nat ->
  is_word (subvalue_word adr wid ts) /\
  forall i, (i < wid)%nat -> tb (subvalue_word adr wid ts) i = wbit ts (adr + i).
Proof.
  intros Ht Hw Hn Ha. unfold subvalue_word.
  set (off := (adr mod W)%nat). pose proof (mod_W_lt adr) as Ho. fold off in Ho.
  assert (Wts : forall k, is_word (word ts k)) by (intros; by apply word_is_word).
  set (trans := if (wid <? W - off)%nat then wid else (W - off)%nat).
  assert (Et : trans = (wid `min` (W - off))%nat) by (unfold trans; case_cmp; lia).
  assert (HB : forall i, (i < wid)%nat ->
    wbit ts (adr + i) = if (off + i <? W)%nat then tb (word ts (adr / W)) (off + i)
                        else tb (word ts (adr / W + 1)) (off + i - W)).
  { intros i Hi. pose proof (wbit_offset ts adr 0 i ltac:(lia)) as E.
    rewrite Nat.mul_0_l, Nat.add_0_r in E. exact E. }
  clearbody trans. destruct (Nat.eqb_spec trans W) as [E|E].
  - split; [done|]. intros i Hi. rewrite HB by done. assert (off = 0%nat) as -> by lia.
    rewrite (proj2 (Nat.ltb_lt _ _)) by lia. done.
  - set (lo := wshr _ off).
    assert (Hlo : forall i, (i < W)%nat -> tb lo i = (i <? trans)%nat && tb (word ts (adr / W)) (off + i)).
    { intros i Hi. unfold lo. rewrite tb_wshr, tb_land, tb_wshl by done.
      rewrite (Nat.add_comm i off).
      destruct (Nat.ltb_spec (off + i) W).
      - rewrite (proj2 (Nat.leb_le off (off + i))) by lia. cbn [andb].
        replace (off + i - off)%nat with i by lia. rewrite tb_wmask by lia. apply andb_comm.
      - rewrite (tb_high (word ts (adr / W))) by (done || lia).
        cbn [andb]; by rewrite andb_false_r. }
    assert (Wlo : is_word lo) by (unfold lo; auto with word).
    destruct (Nat.ltb_spec trans wid) as [Hb|Hb].
    + split; [auto with word|]. intros i Hi. rewrite HB, tb_lor, Hlo, tb_wshl, tb_land, tb_wmask by lia.
      rewrite (proj2 (Nat.ltb_lt i W)) by lia. cbn [andb].
      destruct (Nat.ltb_spec i trans) as [H1|H1].
      * rewrite (proj2 (Nat.leb_gt trans i)), (proj2 (Nat.ltb_lt (off + i) W)) by lia.
        by rewrite orb_false_r.
      * rewrite (proj2 (Nat.leb_le trans i)), (proj2 (Nat.ltb_ge (off + i) W)) by lia. cbn [andb orb].
        rewrite (proj2 (Nat.ltb_lt (i - trans) (wid - trans))) by lia. rewrite andb_true_r.
        f_equal. lia.
    + split; [done|]. intros i Hi. rewrite HB, Hlo by lia.
      rewrite (proj2 (Nat.ltb_lt i trans)), (proj2 (Nat.ltb_lt (off + i) W)) by lia. done.
Qed.

Lemma subvalue_plane_spec n adr wid ts acc :
  plane n ts -> plane wid acc -> (adr < n)%nat -> (adr + wid <= n)%nat ->
  let r := subvalue_plane n adr wid ts acc in
  plane wid r /\ forall i, (i < wid)%nat -> wbit r i = wbit ts (adr + i).
Proof.
  intros Ht Hp Hadr Ha. unfold subvalue_plane. destruct (Nat.ltb_spec W wid) as [Hl|Hs].
  { rewrite <- (Nat.add_0_r (adr / W)).
    apply (subvalue_loop_spec wid adr wid 0); [apply Ht|lia|done|done|].
    intros i Hi. simpl in Hi. lia. }
  destruct (Nat.ltb_spec W n) as [Hn|Hn].
  { destruct (subvalue_word_spec n adr wid ts) as [Hw Hb]; [apply Ht|done..|].
    split; [by apply plane_short|]. intros i Hi. rewrite wbit_short by lia. by apply Hb. }
  destruct (plane_short_inv n ts Hn Ht) as [_ Hw].
  destruct (Nat.eqb_spec wid W) as [E|E].
  { split; [by apply plane_short|]. intros i Hi. assert (adr = 0%nat) as -> by lia.
    rewrite wbit_short, wbit_low by lia. done. }
  split; [apply plane_short; auto with word|]. intros i Hi.
  rewrite wbit_short, (wbit_low ts) by lia. rewrite tb_wshr, tb_land, tb_wshl by lia.
  rewrite (proj2 (Nat.ltb_lt (i + adr) W)), (proj2 (Nat.leb_le adr (i + adr))) by lia. cbn [andb].
  replace (i + adr - adr)%nat with i by lia.
  rewrite tb_wmask, (proj2 (Nat.ltb_lt i wid)), andb_true_r by lia. f_equal. lia.
Qed.

(** Setting the first [n] bits one by one. *)
Lemma set_bits_loop n f v :
  wf4 v -> (n <= size v)%nat ->
  exists r, for_upto n (fun idx r => r ← r; set_bit r idx (f idx)) (Some v) = Some r /\
    bitwise (size v) (fun i => if (i <? n)%nat then f i else value v i) r.
Proof.
  intros Hv. induction n as [|n IH]; intros Hn; cbn [for_upto].
  - exists v. by split_and!.
  - destruct IH as (r & -> & Hr & Hs & Hb); [lia|]. simpl.
    destruct (set_bit_spec r n (f n) Hr) as (r' & -> & Hr' & Hs' & Hb'); [lia|].
    exists r'. split; [done|]. split_and!; [done|congruence|].
    intros i Hi. rewrite Hb'. destruct (Nat.eqb_spec i n) as [->|].
    + by rewrite (proj2 (Nat.ltb_lt n (S n))) by lia.
    + rewrite Hb by done. repeat case_cmp; (done || lia).
Qed.

(** A part select reads the source, X outside of it. *)
Lemma subvalue_spec that adr wid :
  wf4 that ->
  exists r, subvalue that adr wid = Some r /\ bitwise wid (fun i => value that (adr + i)) r.
Proof.
  intros Ht. unfold subvalue.
  destruct (vec4_fill_spec wid BIT4_X) as (Hr & Hs & Hb). unfold vec4_fill in *.
  cbn [init_atable init_btable] in *. set (res := allocate_words_ wid wones wones) in *.
  destruct (Nat.leb_spec (size that) adr) as [Ha|Ha].
  { exists res. split; [done|]. split_and!; [done|done|]. intros i Hi.
    rewrite Hb by done. symmetry. apply value_overflow. lia. }
  destruct (Nat.ltb_spec (size that) (adr + wid)) as [Hw|Hw].
  - destruct (set_bits_loop (size that - adr) (fun i => value that (adr + i)) res Hr)
      as (r & -> & Wr & Sr & Br); [lia|].
    exists r. split; [done|]. split_and!; [done|congruence|]. intros i Hi.
    rewrite Br by lia. case_cmp; [done|]. rewrite Hb by done. symmetry. apply value_overflow. lia.
  - apply wf4_planes in Ht as Pt. apply wf4_planes in Hr as Pr. rewrite Hs in Pr.
    destruct (subvalue_plane_spec (size that) adr wid (abits that) (abits res)) as [Pa Ba];
      [tauto..|done|done|].
    destruct (subvalue_plane_spec (size that) adr wid (bbits that) (bbits res)) as [Pb Bb];
      [tauto..|done|done|].
    eexists. split; [done|]. apply bitwise_planes; [by apply wf4_planes|done|].
    intros i Hi. unfold pa, pb. cbn [abits bbits]. rewrite Ba, Bb by done.
    by rewrite value_planes by (done || lia).
Qed.

(** * Resizing *)

Lemma tb_fill_word w pad fill p j :
  is_word w -> is_word pad -> (forall j, (j < W)%nat -> tb pad j = p) -> (fill < W)%nat -> (j < W)%nat ->
  tb (fill_word w pad fill) j = if (j <? fill)%nat then tb w j else p.
Proof.
  intros Hw Hpad Hp Hf Hj. unfold fill_word.
  rewrite tb_lor, tb_land, tb_wnot, !tb_wshl, tb_wones by auto with word.
  rewrite (proj2 (Nat.ltb_lt j W)) by done. cbn [andb].
  destruct (Nat.leb_spec fill j) as [H|H].
  - rewrite (proj2 (Nat.ltb_lt (j - fill) W)), (proj2 (Nat.ltb_ge j fill)), Hp by lia.
    cbn [andb negb]. by rewrite andb_false_r.
  - rewrite (proj2 (Nat.ltb_lt j fill)) by done. cbn [andb negb]. by rewrite andb_true_r, orb_false_r.
Qed.

Lemma fill_word_word w pad fill : is_word w -> is_word pad -> is_word (fill_word w pad fill).
Proof. intros. unfold fill_word. auto 7 with word. Qed.
#[export] Hint Resolve fill_word_word : word.

(** The words a resized long plane has to consist of. *)
Lemma resize_by_words n newsize pad p ws r :
  plane n ws -> is_word pad -> (forall j, (j < W)%nat -> tb pad j = p) -> (W < newsize)%nat ->
  length r = words_for newsize ->
  (forall k, (k < words_for newsize)%nat ->
     word r k = if (k <? n / W)%nat then word ws k
                else if (k =? n / W)%nat && negb (n mod W =? 0)%nat then
                  (if (n <? newsize)%nat then fill_word (word ws k) pad (n mod W) else word ws k)
                else pad) ->
  plane newsize r /\ forall i, (i < newsize)%nat -> wbit r i = if (i <? n)%nat then wbit ws i else p.
Proof.
  intros Hws Wp Hp Hl Lr Hr. assert (Ww : forall k, is_word (word ws k)) by (intros; apply word_is_word, Hws).
  split; [split; [by rewrite plane_words_long|]|].
  - apply words_of_word. intros k Hk. rewrite Hr by lia. repeat case_match; auto with word.
  - intros i Hi. pose proof (words_for_length _ _ Hi) as Hk.
    rewrite !wbit_word, Hr, (ltb_div_mod i n) by done.
    destruct (Nat.ltb_spec (i / W) (n / W)); [done|]. cbn [orb].
    destruct (Nat.eqb_spec (i / W) (n / W)) as [E|E]; cbn [andb].
    + pose proof (mod_W_lt i). pose proof (mod_W_lt n).
      pose proof (Nat.div_mod_eq i W). pose proof (Nat.div_mod_eq n W).
      destruct (Nat.eqb_spec (n mod W) 0) as [E0|E0]; cbn [negb].
      * rewrite Hp by done. case_cmp; [lia|done].
      * destruct (Nat.ltb_spec n newsize).
        -- by rewrite (tb_fill_word _ _ _ p) by done.
        -- rewrite (proj2 (Nat.ltb_lt (i mod W) (n mod W))); [done|]. unfold W in *. lia.
    + by rewrite Hp by apply mod_W_lt.
Qed.

(** Where the last word of a plane is. *)
Lemma words_for_cases n :
  (n mod W = 0 /\ words_for n = n / W)%nat \/ (0 < n mod W /\ words_for n = S (n / W))%nat.
Proof.
  destruct (words_for_div n) as [H0 H1]. destruct (Nat.eq_dec (n mod W)%nat 0%nat) as [E|E].
  - left. auto.
  - right. split; [lia|apply H1; lia].
Qed.

Lemma words_for_mono n m : (n <= m)%nat -> (words_for n <= words_for m)%nat.
Proof. intros. apply Nat.Div0.div_le_mono. lia. Qed.

Lemma words_for_long n : (W < n)%nat <-> (1 < words_for n)%nat.
Proof.
  unfold words_for. split; intros H.
  - apply (Nat.div_le_lower_bound _ _ 2); unfold W in *; lia.
  - destruct (Nat.lt_ge_cases W n); [done|]. exfalso.
    assert ((n + W - 1) / W < 2)%nat; [|lia]. apply Nat.Div0.div_lt_upper_bound. unfold W in *. lia.
Qed.

Lemma plane_cnt n ws : plane n ws -> (0 < n)%nat -> length ws = words_for n.
Proof.
  intros [L _] Hn. rewrite L. unfold plane_words. case_cmp; [done|].
  unfold words_for. apply (Nat.div_unique _ _ _ (n - 1)); unfold W in *; lia.
Qed.

(** The words copied to a new array of [newcnt] words. *)
Definition copied_words (newcnt cnt : nat) (ws : list Z) : list Z :=
  if (1 <? cnt)%nat then
    let trans := if (newcnt <? cnt)%nat then newcnt else cnt in
    for_upto trans (fun idx nb => <[idx := word ws idx]> nb) (replicate newcnt 0)
  else <[0%nat := word ws 0]> (replicate newcnt 0).

Lemma copied_words_spec newcnt cnt ws :
  (0 < newcnt)%nat ->
  length (copied_words newcnt cnt ws) = newcnt /\
  forall k, (k < newcnt)%nat -> (k < cnt)%nat -> word (copied_words newcnt cnt ws) k = word ws k.
Proof.
  intros H0. unfold copied_words. assert (L0 : length (replicate newcnt 0) = newcnt) by apply length_replicate.
  destruct (Nat.ltb_spec 1 cnt) as [Hc|Hc].
  - set (t := if (newcnt <? cnt)%nat then newcnt else cnt).
    assert (Et : t = (newcnt `min` cnt)%nat) by (unfold t; case_cmp; lia).
    destruct (for_insert t (word ws) (replicate newcnt 0)) as [L K]; [lia|]. cbv zeta in L, K |- *.
    fold t. split; [lia|]. intros k Hk1 Hk2. rewrite K. by case_cmp; [|lia].
  - rewrite length_insert. split; [done|]. intros k Hk1 Hk2.
    rewrite word_insert by lia. case_cmp; [by subst|lia].
Qed.

(** The padding words written after the first [cnt]. *)
Lemma pad_words_spec cnt pad (nb : list Z) k m :
  (cnt + m <= length nb)%nat ->
  length (for_upto m (fun k nb => <[(cnt + k)%nat := pad]> nb) nb) = length nb /\
  word (for_upto m (fun k nb => <[(cnt + k)%nat := pad]> nb) nb) k
  = if (cnt <=? k)%nat && (k <? cnt + m)%nat then pad else word nb k.
Proof.
  induction m as [|m IH]; intros Hm; cbn [for_upto].
  - split; [done|]. repeat case_cmp; (done || lia).
  - destruct IH as [IL IK]; [lia|]. rewrite length_insert. split; [done|].
    rewrite word_insert, IK by lia. repeat case_cmp; subst; (done || lia).
Qed.

(** The three cases of [resize]: to a short vector, within the same words, and to an
    array of another length. *)
Lemma resize_to_short n newsize pad p ws :
  plane n ws -> (newsize <= W)%nat -> n <> newsize -> is_word pad -> (forall j, (j < W)%nat -> tb pad j = p) ->
  let r := resize_plane n newsize pad ws in
  plane newsize r /\ forall i, (i < newsize)%nat -> wbit r i = if (i <? n)%nat then wbit ws i else p.
Proof.
  intros Hws Hs Hne Wp Hp. unfold resize_plane. rewrite (proj2 (Nat.ltb_ge _ _)) by done.
  assert (Ww : forall k, is_word (word ws k)) by (intros; apply word_is_word, Hws).
  destruct (Nat.ltb_spec n newsize) as [Hn|Hn].
  - split; [apply plane_short; auto with word|]. intros i Hi.
    by rewrite wbit_short, (tb_fill_word _ _ _ p), (wbit_low ws) by (done || lia).
  - split; [apply plane_short; auto with word|]. intros i Hi.
    rewrite wbit_short, (wbit_low ws) by lia. by rewrite (proj2 (Nat.ltb_lt i n)) by lia.
Qed.

Lemma resize_same_words n newsize pad p ws :
  plane n ws -> (W < newsize)%nat -> words_for newsize = words_for n -> n <> newsize ->
  is_word pad -> (forall j, (j < W)%nat -> tb pad j = p) ->
  let r := resize_plane n newsize pad ws in
  plane newsize r /\ forall i, (i < newsize)%nat -> wbit r i = if (i <? n)%nat then wbit ws i else p.
Proof.
  intros Hws Hl Ec Hne Wp Hp. unfold resize_plane. rewrite (proj2 (Nat.ltb_lt _ _) Hl), (proj2 (Nat.eqb_eq _ _) Ec).
  pose proof (words_for_cases n) as HC. pose proof (words_for_cases newsize) as HCn.
  pose proof (words_for_long newsize) as HL.
  assert (Hn : (W < n)%nat) by (apply words_for_long; lia).
  assert (Lw : length ws = words_for n) by (apply plane_cnt; [done|lia]).
  apply (resize_by_words n newsize pad p ws); try done.
  - destruct (n <? newsize)%nat; [destruct (n mod W =? 0)%nat; cbn [negb]|]; rewrite ?length_insert; lia.
  - intros k Hk. destruct (Nat.ltb_spec n newsize) as [Hlt|Hge].
    + destruct HC as [[E0 Ew]|[E0 Ew]].
      { exfalso. pose proof (Nat.div_mod_eq n W). pose proof (Nat.div_mod_eq newsize W).
        pose proof (mod_W_lt newsize). unfold W in *. destruct HCn as [[? ?]|[? ?]]; lia. }
      rewrite (proj2 (Nat.eqb_neq (n mod W) 0)) by lia. cbn [negb]. rewrite andb_true_r.
      rewrite Ew in *. replace (S (n / W) - 1)%nat with (n / W)%nat by lia.
      rewrite word_insert by lia. repeat case_cmp; subst; (done || lia).
    + case_cmp; [done|]. destruct HC as [[E0 Ew]|[E0 Ew]]; [lia|].
      by rewrite (proj2 (Nat.eqb_eq k (n / W))), (proj2 (Nat.eqb_neq (n mod W) 0)) by lia.
Qed.

Lemma resize_new_words n newsize pad p ws :
  plane n ws -> (W < newsize)%nat -> words_for newsize <> words_for n -> n <> newsize ->
  is_word pad -> (forall j, (j < W)%nat -> tb pad j = p) ->
  let r := resize_plane n newsize pad ws in
  plane newsize r /\ forall i, (i < newsize)%nat -> wbit r i = if (i <? n)%nat then wbit ws i else p.
Proof.
  intros Hws Hl Ec Hne Wp Hp. unfold resize_plane. rewrite (proj2 (Nat.ltb_lt _ _) Hl), (proj2 (Nat.eqb_neq _ _) Ec).
  pose proof (words_for_cases n) as HC. pose proof (words_for_long newsize) as HL.
  set (newcnt := words_for newsize) in *. set (cnt := words_for n) in *.
  destruct (copied_words_spec newcnt cnt ws ltac:(lia)) as [Ln Hn].
  fold (copied_words newcnt cnt ws). set (nb := copied_words newcnt cnt ws) in *. clearbody nb. cbv zeta.
  set (nb1 := if negb _ then _ else nb). assert (L1 : length nb1 = newcnt)
    by (unfold nb1; destruct (n mod W =? 0)%nat; cbn [negb]; rewrite ?length_insert; done).
  apply (resize_by_words n newsize pad p ws); try done; fold newcnt.
  - destruct (Nat.ltb_spec n newsize); [|done].
    assert (Hcc : (cnt <= newcnt)%nat) by (apply words_for_mono; lia).
    destruct (pad_words_spec cnt pad nb1 0 (newcnt - cnt)) as [-> _]; lia.
  - intros k Hk. destruct (Nat.ltb_spec n newsize) as [Hlt|Hge].
    + assert (Hcc : (cnt <= newcnt)%nat) by (apply words_for_mono; lia).
      destruct (pad_words_spec cnt pad nb1 k (newcnt - cnt)) as [_ ->]; [lia|]. unfold nb1.
      destruct HC as [[E0 Ew]|[E0 Ew]]; fold cnt in Ew.
      * rewrite E0. cbn [Nat.eqb negb]. rewrite andb_false_r.
        repeat case_cmp; cbn [andb]; try lia; try done. by apply Hn.
      * rewrite (proj2 (Nat.eqb_neq (n mod W) 0)) by lia. cbn [negb]. rewrite andb_true_r.
        replace (cnt - 1)%nat with (n / W)%nat by lia.
        rewrite word_insert by lia. repeat case_cmp; cbn [andb]; subst; try lia; try done; by rewrite Hn by lia.
    + assert (Hcc : (newcnt <= cnt)%nat) by (apply words_for_mono; lia).
      rewrite Hn by lia. case_cmp; [done|]. destruct HC as [[E0 Ew]|[E0 Ew]]; [lia|].
      by rewrite (proj2 (Nat.eqb_eq k (n / W))), (proj2 (Nat.eqb_neq (n mod W) 0)) by lia.
Qed.

Lemma resize_plane_spec n newsize pad p ws :
  plane n ws -> n <> newsize -> is_word pad -> (forall j, (j < W)%nat -> tb pad j = p) ->
  let r := resize_plane n newsize pad ws in
  plane newsize r /\ forall i, (i < newsize)%nat -> wbit r i = if (i <? n)%nat then wbit ws i else p.
Proof.
  intros Hws Hne Wp Hp. destruct (Nat.le_gt_cases newsize W); [by apply resize_to_short|].
  destruct (Nat.eq_dec (words_for newsize) (words_for n)); [by apply resize_same_words|by apply resize_new_words].
Qed.

Lemma init_table_bits bit j :
  (j < W)%nat -> tb (init_atable bit) j = abit bit /\ tb (init_btable bit) j = bbit bit.
Proof.
  intros Hj. destruct bit; cbn [init_atable init_btable];
    rewrite ?tb_0, ?tb_wones, ?(proj2 (Nat.ltb_lt _ _) Hj); done.
Qed.

Lemma init_table_word bit : is_word (init_atable bit) /\ is_word (init_btable bit).
Proof. destruct bit; cbn [init_atable init_btable]; auto with word. Qed.

(** Resizing keeps the bits there is room for and pads with [pad_bit]. *)
Lemma resize_spec v newsize pad_bit :
  wf4 v ->
  bitwise newsize (fun i => if (i <? size v)%nat then value v i else pad_bit)
    (resize v newsize pad_bit).
Proof.
  intros Hv. unfold resize. destruct (Nat.eqb_spec (size v) newsize) as [<-|Hne].
  { split_and!; [done|done|]. intros i Hi. by rewrite (proj2 (Nat.ltb_lt _ _) Hi). }
  apply wf4_planes in Hv as [Pa Pb]. destruct (init_table_word pad_bit) as [Ta Tb].
  destruct (resize_plane_spec (size v) newsize (init_atable pad_bit) (abit pad_bit) (abits v))
    as [Qa Ba]; try done. { intros. by apply init_table_bits. }
  destruct (resize_plane_spec (size v) newsize (init_btable pad_bit) (bbit pad_bit) (bbits v))
    as [Qb Bb]; try done. { intros. by apply init_table_bits. }
  apply bitwise_planes; [by apply wf4_planes|done|]. intros i Hi.
  unfold pa, pb. cbn [abits bbits]. rewrite Ba, Bb by done.
  case_cmp; [|apply of_planes_abit]. rewrite value_planes; [done| |done]. by apply wf4_planes.
Qed.

(** * Walking along two unaligned positions *)

(** Advancing a bit position by [t] bits that stay inside its word. *)
Lemma advance p t :
  (p mod W + t <= W)%nat ->
  if (p mod W + t =? W)%nat then ((p + t) / W = p / W + 1 /\ (p + t) mod W = 0)%nat
  else ((p + t) / W = p / W /\ (p + t) mod W = p mod W + t)%nat.
Proof.
  intros H. pose proof (Nat.div_mod_eq p W) as E. pose proof (mod_W_lt p).
  destruct (Nat.eqb_spec (p mod W + t) W) as [Ew|Ew].
  - replace (p + t)%nat with ((p / W + 1) * W)%nat by lia.
    rewrite Nat.div_mul, Nat.Div0.mod_mul by (unfold W; lia). done.
  - replace (p + t)%nat with (p mod W + t + p / W * W)%nat by lia.
    rewrite Nat.div_add, Nat.Div0.mod_add by (unfold W; lia).
    rewrite (Nat.div_small (p mod W + t)), (Nat.mod_small (p mod W + t)) by lia. lia.
Qed.

(** Bit [j] of a word read from a bit position. *)
Lemma wbit_at ws p j : (p mod W + j < W)%nat -> wbit ws (p + j) = tb (word ws (p / W)) (p mod W + j).
Proof.
  intros H. pose proof (wbit_offset ws p 0 j ltac:(lia)) as E.
  rewrite Nat.mul_0_l, (proj2 (Nat.ltb_lt _ _)), Nat.add_0_r in E by lia. exact E.
Qed.

Lemma same_word_index p i :
  (i / W = p / W)%nat -> (p <= i)%nat -> (i = p + (i - p) /\ p mod W + (i - p) = i mod W)%nat.
Proof. intros E H. pose proof (Nat.div_mod_eq p W). pose proof (Nat.div_mod_eq i W). lia. Qed.

(** * Conversion to two-valued words *)

(** The bits read in one step, as a word. *)
Lemma read_bits ws p t :
  words ws -> (p mod W + t <= W)%nat ->
  let w := wshr (word ws (p / W)) (p mod W) in
  let w := if (t <? W)%nat then Z.land w (wmask t) else w in
  is_word w /\ forall j, (j < W)%nat -> tb w j = (j <? t)%nat && wbit ws (p + j).
Proof.
  intros Hw Ht. pose proof (mod_W_lt p) as Hp. pose proof (word_is_word ws (p / W) Hw) as Ww.
  cbv zeta. destruct (Nat.ltb_spec t W) as [H|H].
  - split; [auto with word|]. intros j Hj. rewrite tb_land, tb_wmask, tb_wshr by done.
    destruct (Nat.ltb_spec j t); [|by rewrite andb_false_r].
    rewrite wbit_at by lia. rewrite andb_true_r, Nat.add_comm. done.
  - split; [auto with word|]. intros j Hj. rewrite tb_wshr by done.
    rewrite (proj2 (Nat.ltb_lt j t)) by lia. rewrite wbit_at by lia. by rewrite Nat.add_comm.
Qed.

(** The words converted so far: the bits below [done], 0 above. *)
Definition converted (v : vvp_vector4_t) (adr wid d : nat) (val : list Z) : Prop :=
  length val = words_for wid /\ words val /\
  forall i, wbit val i = (i <? d)%nat && (pa v (adr + i) && negb (pb v (adr + i))).

Lemma converted_step v adr wid d t x val :
  converted v adr wid d val -> (d mod W + t <= W)%nat -> (0 < t)%nat -> (d + t <= wid)%nat ->
  is_word x ->
  (forall j, (j < W)%nat -> tb x j = (j <? t)%nat && (pa v (adr + d + j) && negb (pb v (adr + d + j)))) ->
  converted v adr wid (d + t)
    (<[(d / W)%nat := Z.lor (word val (d / W)) (wshl x (d mod W))]> val).
Proof.
  intros (L & Hw & Hb) Ht Ht0 Hd Wx Hx.
  assert (Hk : (d / W < words_for wid)%nat) by (apply words_for_length; lia).
  split_and!; [by rewrite length_insert|auto with word|]. intros i.
  rewrite wbit_insert by lia. pose proof (mod_W_lt d). pose proof (mod_W_lt i).
  destruct (Nat.eqb_spec (i / W) (d / W)) as [E|E].
  - rewrite tb_lor, tb_wshl by done. rewrite (proj2 (Nat.ltb_lt (i mod W) W)) by done. cbn [andb].
    rewrite <- E, <- wbit_word, Hb.
    pose proof (Nat.div_mod_eq i W). pose proof (Nat.div_mod_eq d W).
    destruct (Nat.ltb_spec i d) as [Hid|Hid].
    + rewrite (proj2 (Nat.leb_gt (d mod W) (i mod W))), (proj2 (Nat.ltb_lt i (d + t))) by lia.
      by rewrite orb_false_r.
    + destruct (same_word_index d i E Hid) as [Ei Em].
      rewrite (proj2 (Nat.leb_le (d mod W) (i mod W))), Hx by lia. cbn [andb orb].
      replace (i mod W - d mod W)%nat with (i - d)%nat by lia.
      replace (adr + d + (i - d))%nat with (adr + i)%nat by lia. f_equal.
      repeat case_cmp; (done || lia).
  - rewrite Hb. assert (HH : (i <? d)%nat = (i <? d + t)%nat); [|by rewrite HH].
    pose proof (Nat.div_mod_eq i W). pose proof (Nat.div_mod_eq d W).
    repeat case_cmp; try done; try lia. exfalso. apply E.
    assert (i < (d / W + 1) * W)%nat by lia. assert (d / W * W <= i)%nat by lia.
    unfold W in *. lia.
Qed.

(** What the conversion promises. *)
Definition conversion_ok (v : vvp_vector4_t) (adr wid : nat) (xz_to_0 : bool) (r : option (list Z)) : Prop :=
  match r with
  | Some val => converted v adr wid wid val /\
      (xz_to_0 = false -> forall i, (i < wid)%nat -> pb v (adr + i) = false)
  | None => xz_to_0 = false /\ exists i, (i < wid)%nat /\ pb v (adr + i) = true
  end.

(** A word of unknown bits is 0 exactly when there is none. *)
Lemma no_unknown x t f :
  is_word x -> (t <= W)%nat -> (forall j, (j < W)%nat -> tb x j = (j <? t)%nat && f j) ->
  if (x =? 0) then forall j, (j < t)%nat -> f j = false else exists j, (j < t)%nat /\ f j = true.
Proof.
  intros Hx Ht Hf. destruct (x =? 0) eqn:E.
  - rewrite word_eq_0 in E by done. intros j Hj. specialize (E j ltac:(lia)).
    rewrite Hf, (proj2 (Nat.ltb_lt _ _) Hj) in E by lia. done.
  - destruct (existsb f (seq 0 t)) eqn:Ex.
    + apply existsb_exists in Ex as (j & Hj%in_seq & Hb). exists j. split; [lia|done].
    + exfalso. assert ((x =? 0) = true); [|congruence]. apply word_eq_0; [done|]. intros j Hj.
      rewrite Hf by done. case_cmp; [|done]. simpl. destruct (f j) eqn:Fj; [|done].
      assert (existsb f (seq 0 t) = true); [|congruence]. apply existsb_exists.
      exists j. split; [apply in_seq; lia|done].
Qed.

Lemma subarray_loop_spec fuel adr wid d xz_to_0 v val :
  wf4 v -> (wid - d <= fuel)%nat -> (d <= wid)%nat ->
  converted v adr wid d val ->
  (xz_to_0 = false -> forall i, (i < d)%nat -> pb v (adr + i) = false) ->
  conversion_ok v adr wid xz_to_0
    (subarray_loop fuel (adr + d) (wid - d) (d / W) (d mod W) xz_to_0 v val).
Proof.
  intros Hv. revert d val. induction fuel as [|f IH]; intros d val Hf Hd Hc Hx; cbn [subarray_loop].
  { assert (d = wid) as -> by lia. done. }
  destruct (Nat.ltb_spec 0 (wid - d)) as [H0|H0].
  2:{ assert (d = wid) as -> by lia. done. }
  set (off := ((adr + d) mod W)%nat). pose proof (mod_W_lt (adr + d)) as Ho. fold off in Ho.
  set (voff := (d mod W)%nat). pose proof (mod_W_lt d) as Hvo. fold voff in Hvo.
  set (t1 := if (W - voff <? W - off)%nat then _ else _).
  assert (Et1 : (t1 = (W - off) `min` (W - voff))%nat) by (unfold t1; case_cmp; lia).
  clearbody t1. set (t := if (wid - d <? t1)%nat then _ else _).
  assert (Et : (t = t1 `min` (wid - d))%nat) by (unfold t; case_cmp; lia).
  clearbody t.
  destruct (read_bits (abits v) (adr + d) t) as [Wa Ba]; [apply Hv|fold off; lia|].
  destruct (read_bits (bbits v) (adr + d) t) as [Wb Bb]; [apply Hv|fold off; lia|].
  cbv zeta in *. fold off in Wa, Ba, Wb, Bb.
  set (atmp := if (t <? W)%nat then _ else wshr (word (abits v) _) off) in *.
  set (btmp := if (t <? W)%nat then _ else wshr (word (bbits v) _) off) in *.
  replace (if (t <? W)%nat then _ else _) with (atmp, btmp) by (unfold atmp, btmp; by case_cmp).
  clearbody atmp btmp. cbv beta iota.
  pose proof (no_unknown btmp t _ Wb ltac:(lia) Bb) as HU.
  assert (HN : forall x, is_word x ->
    (forall j, (j < W)%nat -> tb x j = (j <? t)%nat && (pa v (adr + d + j) && negb (pb v (adr + d + j)))) ->
    (xz_to_0 = false -> forall i, (i < d + t)%nat -> pb v (adr + i) = false) ->
    conversion_ok v adr wid xz_to_0
     (let val := <[(d / W)%nat := Z.lor (word val (d / W)) (wshl x voff)]> val in
      let val_off := (voff + t)%nat in
      if (val_off =? W)%nat
      then subarray_loop f (adr + d + t) (wid - d - t) (d / W + 1) 0 xz_to_0 v val
      else subarray_loop f (adr + d + t) (wid - d - t) (d / W) val_off xz_to_0 v val)).
  { intros x Wx Bx Hx'. cbv zeta.
    pose proof (converted_step v adr wid d t x val Hc ltac:(fold voff; lia) ltac:(lia) ltac:(lia) Wx Bx) as Hc'.
    fold voff in Hc'. specialize (IH (d + t)%nat _ ltac:(lia) ltac:(lia) Hc' Hx').
    rewrite <- Nat.add_assoc, <- Nat.sub_add_distr.
    pose proof (advance d t ltac:(fold voff; lia)) as HA. fold voff in HA.
    destruct (voff + t =? W)%nat; destruct HA as [E1 E2]; rewrite E1, E2 in IH; exact IH. }
  destruct (btmp =? 0); cbn [negb].
  - apply HN; [done| |].
    + intros j Hj. rewrite Ba by done. destruct (Nat.ltb_spec j t); [|done]. cbn [andb].
      unfold pb. by rewrite HU, andb_true_r.
    + intros Hz i Hi. destruct (Nat.lt_ge_cases i d); [by apply Hx|].
      specialize (HU (i - d)%nat ltac:(lia)). unfold pb. rewrite <- HU. f_equal. lia.
  - destruct xz_to_0.
    + apply HN; [auto with word| |done]. intros j Hj.
      rewrite tb_land, tb_wnot, Ba, Bb, (proj2 (Nat.ltb_lt _ _) Hj) by done.
      destruct (Nat.ltb_spec j t); done.
    + split; [done|]. destruct HU as (j & Hj & Hb). exists (d + j)%nat. split; [lia|].
      unfold pb. by rewrite Nat.add_assoc.
Qed.

Lemma converted_nil v adr wid : converted v adr wid 0 (replicate (words_for wid) 0).
Proof.
  split_and!; [by rewrite length_replicate|auto with word|]. intros i.
  rewrite wbit_word. unfold word. rewrite nth_lookup.
  destruct (replicate _ _ !! _) eqn:E; [|apply tb_0].
  apply lookup_replicate in E as [-> _]. apply tb_0.
Qed.

(** The one word of a short vector. *)
Lemma subarray_planes v adr wid xz_to_0 :
  wf4 v -> (0 < wid)%nat -> (adr + wid <= size v)%nat ->
  conversion_ok v adr wid xz_to_0 (subarray v adr wid xz_to_0).
Proof.
  intros Hv Hw Ha. unfold subarray. destruct (Nat.leb_spec (size v) W) as [Hs|Hl].
  2:{ pose proof (subarray_loop_spec wid adr wid 0 xz_to_0 v (replicate (words_for wid) 0)) as H.
      rewrite Nat.add_0_r, Nat.sub_0_r in H. apply H; try done; try lia. apply converted_nil. }
  destruct (read_bits (abits v) adr wid) as [Wa Ba]; [apply Hv|rewrite Nat.mod_small; lia|].
  destruct (read_bits (bbits v) adr wid) as [Wb Bb]; [apply Hv|rewrite Nat.mod_small; lia|].
  cbv zeta in *. rewrite Nat.div_small, Nat.mod_small in Wa, Ba, Wb, Bb by lia.
  fold (abits_val v) in Wa, Ba. fold (bbits_val v) in Wb, Bb.
  set (atmp := if (wid <? W)%nat then _ else wshr (abits_val v) adr) in *.
  set (btmp := if (wid <? W)%nat then _ else wshr (bbits_val v) adr) in *.
  cbv zeta. replace (if (wid <? W)%nat then _ else _) with (atmp, btmp) by (unfold atmp, btmp; by case_cmp).
  clearbody atmp btmp. cbv beta iota.
  pose proof (no_unknown btmp wid _ Wb ltac:(lia) Bb) as HU.
  assert (HN : forall x, is_word x ->
    (forall j, (j < W)%nat -> tb x j = (j <? wid)%nat && (pa v (adr + j) && negb (pb v (adr + j)))) ->
    (xz_to_0 = false -> forall i, (i < wid)%nat -> pb v (adr + i) = false) ->
    conversion_ok v adr wid xz_to_0 (Some (<[0%nat := x]> (replicate (words_for wid) 0)))).
  { intros x Wx Bx Hx. split; [|done].
    pose proof (converted_step v adr wid 0 wid x _ (converted_nil v adr wid)) as HC.
    change (0 / W)%nat with 0%nat in HC. change (0 mod W)%nat with 0%nat in HC.
    rewrite !Nat.add_0_l, Nat.add_0_r in HC.
    assert (E0 : Z.lor (word (replicate (words_for wid) 0) 0) (wshl x 0) = x).
    { assert (Ez : word (replicate (words_for wid) 0) 0 = 0).
      { apply word_replicate. pose proof (words_for_length wid 0 Hw). lia. }
      rewrite Ez, Z.lor_0_l. apply tb_ext; [auto with word|done|]. intros j Hj.
      rewrite tb_wshl by (unfold W; lia). rewrite (proj2 (Nat.ltb_lt _ _) Hj). simpl.
      by rewrite Nat.sub_0_r. }
    rewrite E0 in HC. apply HC; try done; lia. }
  destruct (btmp =? 0); cbn [negb].
  - apply HN; [done| |].
    + intros j Hj. rewrite Ba by done. destruct (Nat.ltb_spec j wid); [|done]. cbn [andb].
      unfold pb. by rewrite HU, andb_true_r.
    + intros Hz i Hi. by apply HU.
  - destruct xz_to_0.
    + apply HN; [auto with word| |done]. intros j Hj.
      rewrite tb_land, tb_wnot, Ba, Bb, (proj2 (Nat.ltb_lt _ _) Hj) by done.
      destruct (Nat.ltb_spec j wid); done.
    + split; [done|]. destruct HU as (j & Hj & Hb). by exists j.
Qed.

(** The conversion in terms of bit values. *)
Lemma subarray_spec v adr wid xz_to_0 :
  wf4 v -> (0 < wid)%nat -> (adr + wid <= size v)%nat ->
  match subarray v adr wid xz_to_0 with
  | Some val =>
      length val = words_for wid /\ words val /\
      (forall i, wbit val i = (i <? wid)%nat && bit4_eqb (value v (adr + i)) BIT4_1) /\
      (xz_to_0 = false -> forall i, (i < wid)%nat -> bit4_is_xz (value v (adr + i)) = false)
  | None => xz_to_0 = false /\ exists i, (i < wid)%nat /\ bit4_is_xz (value v (adr + i)) = true
  end.
Proof.
  intros Hv Hw Ha. pose proof (subarray_planes v adr wid xz_to_0 Hv Hw Ha) as H.
  assert (HX : forall i, (i < wid)%nat -> bit4_is_xz (value v (adr + i)) = pb v (adr + i)).
  { intros i Hi. by rewrite is_xz_bbit, value_planes, bbit_of_planes by (done || lia). }
  destruct (subarray v adr wid xz_to_0) as [val|]; cbn [conversion_ok] in H.
  - destruct H as [(L & Wv & B) Hx]. split_and!; [done|done| |].
    + intros i. rewrite B. destruct (Nat.ltb_spec i wid); [|done]. cbn [andb].
      rewrite value_planes by (done || lia). by destruct (pa v (adr + i)), (pb v (adr + i)).
    + intros Hz i Hi. rewrite HX by done. by apply Hx.
  - destruct H as (Hz & i & Hi & Hb). split; [done|]. exists i. by rewrite HX.
Qed.

(** * Storing two-valued words *)

Lemma tb_range_mask off t j :
  (off < W)%nat -> (off + t <= W)%nat -> (j < W)%nat ->
  tb (range_mask off t) j = (off <=? j)%nat && (j <? off + t)%nat.
Proof.
  intros Ho Ht Hj. unfold range_mask.
  set (hmask := if (off + t <? W)%nat then _ else 0).
  assert (Hh : is_word hmask /\ tb hmask j = (off + t <=? j)%nat).
  { unfold hmask. destruct (Nat.ltb_spec (off + t) W).
    - split; [auto with word|]. rewrite tb_wshl, tb_wones by done. repeat case_cmp; (done || lia).
    - split; [auto with word|]. rewrite tb_0. case_cmp; (done || lia). }
  destruct Hh as [Wh Bh]. rewrite tb_wnot, tb_lor, Bh, tb_wmask by auto with word.
  repeat case_cmp; simpl; (done || lia).
Qed.

Lemma range_mask_word off t : is_word (range_mask off t).
Proof. unfold range_mask. case_cmp; auto 7 with word. Qed.
#[export] Hint Resolve range_mask_word : word.

(** The first [d] bits of the window at [adr] hold the two-valued bits [f]. *)
Definition stored (v0 : vvp_vector4_t) (adr d : nat) (f : nat -> bool) (v : vvp_vector4_t) : Prop :=
  wf4 v /\ size v = size v0 /\
  forall i, (i < size v0)%nat ->
    pa v i = (if (adr <=? i)%nat && (i <? adr + d)%nat then f (i - adr)%nat else pa v0 i) /\
    pb v i = (if (adr <=? i)%nat && (i <? adr + d)%nat then false else pb v0 i).

Lemma in_window adr d t i :
  (adr <=? i)%nat && (i <? adr + (d + t))%nat
  = (adr <=? i)%nat && (i <? adr + d)%nat || ((adr + d <=? i)%nat && (i <? adr + d + t)%nat).
Proof. repeat case_cmp; simpl; (done || lia). Qed.

(** Whether a position lies in a range inside the word of [p]. *)
Lemma range_in_word p t i :
  (p mod W + t <= W)%nat -> (0 < t)%nat ->
  (p <=? i)%nat && (i <? p + t)%nat
  = (i / W =? p / W)%nat && ((p mod W <=? i mod W)%nat && (i mod W <? p mod W + t)%nat).
Proof.
  intros Ht H0. pose proof (Nat.div_mod_eq p W). pose proof (Nat.div_mod_eq i W).
  pose proof (mod_W_lt p). pose proof (mod_W_lt i).
  destruct (Nat.eqb_spec (i / W) (p / W)) as [E|E]; cbn [andb].
  - repeat case_cmp; simpl; (done || lia).
  - destruct (Nat.leb_spec p i); [|done]. destruct (Nat.ltb_spec i (p + t)); [|done].
    exfalso. apply E. unfold W in *. lia.
Qed.

Lemma store_step v0 adr d t f src v :
  stored v0 adr d f v -> (adr + d + t <= size v0)%nat -> ((adr + d) mod W + t <= W)%nat -> (0 < t)%nat ->
  is_word src ->
  (forall j, (j < t)%nat -> tb src ((adr + d) mod W + j) = f (d + j)%nat) ->
  stored v0 adr (d + t) f
    (step_words (fun a b =>
       (Z.lor (Z.land a (wnot (range_mask ((adr + d) mod W) t))) (Z.land (range_mask ((adr + d) mod W) t) src),
        Z.land b (wnot (range_mask ((adr + d) mod W) t)))) ((adr + d) / W) v).
Proof.
  intros (Hv & Hs & Hb) Ha Ht H0 Wsrc Hsrc. set (p := (adr + d)%nat) in *.
  set (mask := range_mask (p mod W) t). assert (Wm : is_word mask) by (unfold mask; auto with word).
  unfold step_words. set (a' := Z.lor _ _). set (b' := Z.land _ _).
  assert (Wa : is_word (word (abits v) (p / W))) by apply word_is_word, Hv.
  assert (Wb : is_word (word (bbits v) (p / W))) by apply word_is_word, Hv.
  assert (Hk : (p / W < plane_words (size v))%nat) by (apply plane_index; lia).
  destruct (set_words_spec (p / W) a' b' v Hv Hk) as [Hw Hp]; [unfold a', b'; auto 7 with word..|].
  unfold set_words in *. split_and!; [done|done|]. intros i Hi. destruct (Hp i) as [-> ->].
  destruct (Hb i Hi) as [-> ->]. rewrite (in_window adr d t i). fold p.
  rewrite (range_in_word p t i) by done. pose proof (mod_W_lt i) as Hmi.
  destruct (Nat.eqb_spec (i / W) (p / W)) as [E|E]; cbn [andb].
  2:{ by rewrite orb_false_r. }
  unfold a', b'. rewrite (Z.land_comm mask src), tb_replace, tb_land, tb_wnot by done.
  rewrite (proj2 (Nat.ltb_lt _ _) Hmi). cbn [andb]. unfold mask.
  rewrite tb_range_mask by (done || apply mod_W_lt). rewrite <- E, <- !wbit_word.
  fold (pa v i) (pb v i). destruct (Hb i Hi) as [-> ->].
  destruct ((p mod W <=? i mod W)%nat && (i mod W <? p mod W + t)%nat) eqn:ER.
  - apply andb_true_iff in ER as [H1%Nat.leb_le H2%Nat.ltb_lt].
    pose proof (Nat.div_mod_eq p W). pose proof (Nat.div_mod_eq i W).
    rewrite E in *. rewrite orb_true_r, andb_false_r. split; [|done].
    replace (i mod W)%nat with (p mod W + (i mod W - p mod W))%nat by lia.
    rewrite Hsrc by lia. f_equal. unfold p in *. lia.
  - rewrite orb_false_r, andb_true_r. done.
Qed.

Lemma store_source val off voff vp t j :
  words val -> (off < W)%nat -> (voff < W)%nat -> (voff + t <= W)%nat -> (off + t <= W)%nat -> (j < t)%nat ->
  tb (if (off <=? voff)%nat then wshr (word val vp) (voff - off) else wshl (word val vp) (off - voff))
     (off + j) = tb (word val vp) (voff + j).
Proof.
  intros Hv Ho Hvo Ht Hot Hj. destruct (Nat.leb_spec off voff).
  - rewrite tb_wshr by lia. f_equal. lia.
  - rewrite tb_wshl by lia. rewrite (proj2 (Nat.ltb_lt (off + j) W)), (proj2 (Nat.leb_le (off - voff) (off + j))) by lia.
    simpl. f_equal. lia.
Qed.

Lemma setarray_loop_spec fuel v0 adr wid d val v :
  (adr + wid <= size v0)%nat -> words val -> (wid - d <= fuel)%nat -> (d <= wid)%nat ->
  stored v0 adr d (wbit val) v ->
  stored v0 adr wid (wbit val)
    (setarray_loop fuel (wid - d) ((adr + d) mod W) ((adr + d) / W) (d mod W) (d / W) val v).
Proof.
  intros Ha Hval. revert d v. induction fuel as [|f IH]; intros d v Hf Hd Hst; cbn [setarray_loop].
  { by assert (d = wid) as -> by lia. }
  destruct (Nat.ltb_spec 0 (wid - d)) as [H0|H0]; [|by assert (d = wid) as -> by lia].
  pose proof (mod_W_lt (adr + d)) as Ho. pose proof (mod_W_lt d) as Hvo.
  set (t1 := if (W - d mod W <? wid - d)%nat then _ else _).
  assert (Et1 : (t1 = (W - d mod W) `min` (wid - d))%nat) by (unfold t1; case_cmp; lia).
  clearbody t1. set (t := if (W - (adr + d) mod W <? t1)%nat then _ else _).
  assert (Et : (t = (W - (adr + d) mod W) `min` t1)%nat) by (unfold t; case_cmp; lia). clearbody t.
  set (src := if ((adr + d) mod W <=? d mod W)%nat then _ else _).
  assert (Ws : is_word (word val (d / W))) by by apply word_is_word.
  assert (Wsrc : is_word src) by (unfold src; case_cmp; auto with word).
  pose proof (store_step v0 adr d t (wbit val) src v Hst ltac:(lia) ltac:(lia) ltac:(lia) Wsrc) as HS.
  assert (HS' : forall j, (j < t)%nat -> tb src ((adr + d) mod W + j) = wbit val (d + j)).
  { intros j Hj. unfold src. rewrite (store_source val _ _ _ t) by (done || lia).
    by rewrite wbit_at by lia. }
  specialize (HS HS'). specialize (IH (d + t)%nat _ ltac:(lia) ltac:(lia) HS).
  rewrite Nat.add_assoc, Nat.sub_add_distr in IH.
  pose proof (advance d t ltac:(lia)) as A1. pose proof (advance (adr + d) t ltac:(lia)) as A2.
  destruct (d mod W + t =? W)%nat, ((adr + d) mod W + t =? W)%nat;
    destruct A1 as [E1 E2], A2 as [E3 E4]; rewrite E1, E2, E3, E4 in IH; exact IH.
Qed.

Lemma stored_0 v adr f : wf4 v -> stored v adr 0 f v.
Proof.
  intros Hv. split_and!; [done|done|]. intros i Hi.
  rewrite (proj2 (andb_false_iff (adr <=? i)%nat (i <? adr + 0)%nat)); [done|].
  repeat case_cmp; auto. lia.
Qed.

(** Storing replaces exactly the window, with 0s and 1s. *)
Lemma setarray_spec v adr wid val :
  wf4 v -> words val -> (0 < wid)%nat -> (adr + wid <= size v)%nat ->
  exists r, setarray v adr wid val = Some r /\
    bitwise (size v) (fun i => if (adr <=? i)%nat && (i <? adr + wid)%nat
                               then (if wbit val (i - adr) then BIT4_1 else BIT4_0)
                               else value v i) r.
Proof.
  intros Hv Hval Hw Ha.
  assert (HF : forall r, stored v adr wid (wbit val) r ->
    bitwise (size v) (fun i => if (adr <=? i)%nat && (i <? adr + wid)%nat
                               then (if wbit val (i - adr) then BIT4_1 else BIT4_0)
                               else value v i) r).
  { intros r (Hr & Hs & Hb). apply bitwise_planes; [done|done|]. intros i Hi.
    destruct (Hb i Hi) as [-> ->]. destruct (_ && _); [by destruct (wbit val (i - adr))|].
    by rewrite value_planes. }
  unfold setarray. rewrite (proj2 (Nat.leb_le _ _) Ha). destruct (Nat.leb_spec (size v) W) as [Hs|Hl].
  - eexists. split; [done|]. apply HF.
    pose proof (store_step v adr 0 wid (wbit val) (wshl (word val 0) adr) v (stored_0 v adr _ Hv)) as HS.
    rewrite Nat.add_0_r, Nat.mod_small, Nat.div_small in HS by lia.
    unfold step_words in HS. fold (abits_val v) (bbits_val v) in HS.
    rewrite (short_set_words v) by done. apply HS; [lia|lia|lia|auto with word|].
    intros j Hj. rewrite tb_wshl by lia.
    rewrite (proj2 (Nat.ltb_lt (adr + j) W)), (proj2 (Nat.leb_le adr (adr + j))) by lia. cbn [andb].
    rewrite wbit_low by lia. f_equal. lia.
  - eexists. split; [done|]. apply HF.
    pose proof (setarray_loop_spec wid v adr wid 0 val v Ha Hval) as HS.
    rewrite Nat.add_0_r, Nat.sub_0_r in HS. apply HS; [lia|lia|by apply stored_0].
Qed.

(** * Part assignment *)

(** The first [d] bits of [src] are in place at [adr] of a plane that was [ws0], and
    the flag tells whether that changed a bit. *)
Definition written (n : nat) (ws0 : list Z) (adr d : nat) (src : list Z) (s : list Z * bool) : Prop :=
  plane n (fst s) /\
  (forall i, wbit (fst s) i =
     if (adr <=? i)%nat && (i <? adr + d)%nat then wbit src (i - adr) else wbit ws0 i) /\
  (snd s = true <-> exists i, (i < d)%nat /\ wbit src i <> wbit ws0 (adr + i)).

(** A mask that covers [t] bits from bit position [o] of a word. *)
Definition covers (mask : Z) (o t : nat) : Prop :=
  is_word mask /\ forall j, (j < W)%nat -> tb mask j = (o <=? j)%nat && (j <? o + t)%nat.

(** The bits of the word a step writes. *)
Lemma put_bits n ws0 adr d t src mask tmp ws diff i :
  written n ws0 adr d src (ws, diff) -> ((adr + d) mod W + t <= W)%nat -> (0 < t)%nat ->
  covers mask ((adr + d) mod W) t ->
  (forall j, (j < W)%nat -> tb tmp j = tb mask j && wbit src (d + (j - (adr + d) mod W))) ->
  let p := (adr + d)%nat in
  (if (i / W =? p / W)%nat
   then tb (Z.lor (Z.land (word ws (p / W)) (wnot mask)) tmp) (i mod W) else wbit ws i)
  = if (adr <=? i)%nat && (i <? adr + (d + t))%nat then wbit src (i - adr) else wbit ws0 i.
Proof.
  intros (Hp & Hb & Hd) Ht H0 [Wm Hm] Htmp p. cbn [fst snd] in *. fold p in Hm, Htmp, Ht.
  pose proof (mod_W_lt p) as Hpm. rewrite in_window. fold p. rewrite (range_in_word p t i) by done.
  pose proof (mod_W_lt i) as Hmi. destruct (Nat.eqb_spec (i / W) (p / W)) as [E|E]; cbn [andb].
  2:{ by rewrite Hb, orb_false_r. }
  rewrite tb_lor, tb_land, tb_wnot, Htmp, (proj2 (Nat.ltb_lt _ _) Hmi), Hm by done.
  rewrite <- E, <- wbit_word, Hb. cbn [andb].
  destruct ((p mod W <=? i mod W)%nat && (i mod W <? p mod W + t)%nat) eqn:ER.
  - apply andb_true_iff in ER as [H1%Nat.leb_le H2%Nat.ltb_lt].
    pose proof (Nat.div_mod_eq p W). pose proof (Nat.div_mod_eq i W). rewrite E in *.
    rewrite andb_false_r, orb_true_r. cbn [orb andb]. f_equal. unfold p in *. lia.
  - by rewrite andb_true_r, !orb_false_r.
Qed.

(** The comparison of a step: are the bits to write those of the plane? *)
Lemma put_compare n ws0 adr d t src mask tmp ws diff :
  written n ws0 adr d src (ws, diff) -> ((adr + d) mod W + t <= W)%nat ->
  covers mask ((adr + d) mod W) t -> is_word tmp ->
  (forall j, (j < W)%nat -> tb tmp j = tb mask j && wbit src (d + (j - (adr + d) mod W))) ->
  (Z.land (word ws ((adr + d) / W)) mask =? tmp) = true <->
  forall j, (j < t)%nat -> wbit src (d + j) = wbit ws0 (adr + (d + j)).
Proof.
  intros (Hp & Hb & Hd) Ht [Wm Hm] Wt Htmp. cbn [fst snd] in *. set (p := (adr + d)%nat) in *.
  assert (Wk : is_word (word ws (p / W))) by apply word_is_word, Hp.
  assert (HB : forall j, (j < t)%nat -> tb (word ws (p / W)) (p mod W + j) = wbit ws0 (adr + (d + j))).
  { intros j Hj. rewrite <- wbit_at, Hb by lia. unfold p.
    rewrite (proj2 (Nat.leb_le adr _)), (proj2 (Nat.ltb_ge _ (adr + d))) by lia. cbn [andb]. f_equal. lia. }
  rewrite word_eqb by auto with word. split.
  - intros H j Hj. specialize (H (p mod W + j)%nat ltac:(lia)).
    rewrite tb_land, Htmp, Hm, HB in H by lia.
    rewrite (proj2 (Nat.leb_le (p mod W) (p mod W + j))), (proj2 (Nat.ltb_lt (p mod W + j) (p mod W + t))) in H by lia.
    cbn [andb] in H. rewrite andb_true_r in H. by replace (p mod W + j - p mod W)%nat with j in H by lia.
  - intros H j Hj. rewrite tb_land, Htmp, Hm by done.
    destruct ((p mod W <=? j)%nat && (j <? p mod W + t)%nat) eqn:ER; [|apply andb_false_r].
    apply andb_true_iff in ER as [H1%Nat.leb_le H2%Nat.ltb_lt]. cbn [andb]. rewrite andb_true_r, H by lia.
    replace j with (p mod W + (j - p mod W))%nat at 1 by lia. by rewrite HB by lia.
Qed.

(** The change flag over [d + t] positions from that over [d] and the next [t]. *)
Lemma change_extend (f g : nat -> bool) d t b :
  b = true <-> (forall j, (j < t)%nat -> f (d + j)%nat = g (d + j)%nat) ->
  forall c, (c = true <-> ((exists i, (i < d)%nat /\ f i <> g i) \/ b = false)) ->
  (c = true <-> exists i, (i < d + t)%nat /\ f i <> g i).
Proof.
  intros HD c ->. split.
  - intros [(i & Hi & Hne)|E]; [exists i; split; [lia|done]|].
    destruct (decide (Exists (fun j => f (d + j)%nat <> g (d + j)%nat) (seq 0 t))) as [He|He].
    + apply Exists_exists in He as (j & Hj & Hne). apply in_seq in Hj. exists (d + j)%nat. split; [lia|done].
    + exfalso. apply not_Exists_Forall in He; [|solve_decision]. rewrite (proj2 HD) in E; [done|].
      intros j Hj. rewrite Forall_forall in He.
      destruct (decide (f (d + j)%nat = g (d + j)%nat)) as [|Hne]; [done|].
      exfalso. apply (He j); [|done]. apply in_seq. lia.
  - intros (i & Hi & Hne). destruct (Nat.lt_ge_cases i d); [by left; exists i|]. right.
    destruct b; [|done]. exfalso. apply Hne. pose proof (proj1 HD eq_refl (i - d)%nat ltac:(lia)) as HE.
    by replace (d + (i - d))%nat with i in HE by lia.
Qed.

Lemma put_step n ws0 adr d t src mask tmp s :
  written n ws0 adr d src s -> (adr + d + t <= n)%nat -> ((adr + d) mod W + t <= W)%nat -> (0 < t)%nat ->
  covers mask ((adr + d) mod W) t -> is_word tmp ->
  (forall j, (j < W)%nat ->
     tb tmp j = tb mask j && wbit src (d + (j - (adr + d) mod W))) ->
  written n ws0 adr (d + t) src (put mask tmp ((adr + d) / W) s).
Proof.
  intros Hs Ha Ht H0 Hm Wt Htmp. destruct s as [ws diff].
  pose proof (fun i => put_bits _ _ _ _ _ _ _ _ _ _ i Hs Ht H0 Hm Htmp) as HN. cbv zeta in HN.
  pose proof (put_compare _ _ _ _ _ _ _ _ _ _ Hs Ht Hm Wt Htmp) as HD.
  pose proof (change_extend (wbit src) (fun i => wbit ws0 (adr + i)) d t _ HD) as HX. cbv beta in HX.
  destruct Hs as (Hp & Hb & Hd), Hm as [Wm Hm]. cbn [fst snd] in *. set (p := (adr + d)%nat) in *.
  assert (Wk : is_word (word ws (p / W))) by apply word_is_word, Hp.
  assert (Hk : (p / W < plane_words n)%nat) by (apply plane_index; lia).
  unfold put. destruct (Z.land (word ws (p / W)) mask =? tmp) eqn:E; cbn [negb]; split_and!; cbn [fst snd].
  - done.
  - intros i. rewrite <- HN. destruct (Nat.eqb_spec (i / W) (p / W)) as [Ei|]; [|done].
    apply Z.eqb_eq in E. rewrite wbit_word, Ei, <- E, tb_lor, !tb_land, tb_wnot by done.
    rewrite (proj2 (Nat.ltb_lt _ _) (mod_W_lt i)).
    by destruct (tb (word ws (p / W)) (i mod W)), (tb mask (i mod W)).
  - apply HX. rewrite Hd. split; [by left|]. by intros [?|?].
  - apply plane_insert; auto 7 with word.
  - intros i. rewrite (wbit_insert_word n) by done. apply HN.
  - apply HX. split; [by right|done].
Qed.

Lemma tb_low_mask h j : (j < W)%nat -> tb (low_mask h) j = (j <? h)%nat.
Proof.
  intros Hj. unfold low_mask. destruct (Nat.leb_spec W h).
  - rewrite tb_wones. repeat case_cmp; (done || lia).
  - by apply tb_wmask.
Qed.

Lemma low_mask_word h : is_word (low_mask h).
Proof. unfold low_mask. case_cmp; auto with word. Qed.
#[export] Hint Resolve low_mask_word : word.

(** [hmask & ~lmask]. *)
Lemma covers_range o t :
  (o < W)%nat -> covers (Z.land (low_mask (o + t)) (wnot (wmask o))) o (t `min` (W - o)).
Proof.
  intros Ho. split; [auto with word|]. intros j Hj.
  rewrite tb_land, tb_low_mask, tb_wnot, tb_wmask by auto with word.
  repeat case_cmp; simpl; (done || lia).
Qed.

Lemma covers_low t : (t < W)%nat -> covers (wmask t) 0 t.
Proof. intros Ht. split; [auto with word|]. intros j Hj. by rewrite tb_wmask. Qed.

Lemma covers_low_mask t : (t <= W)%nat -> covers (low_mask t) 0 t.
Proof. intros Ht. split; [auto with word|]. intros j Hj. by rewrite tb_low_mask. Qed.

Lemma covers_high o : (o < W)%nat -> covers (wnot (wmask o)) o (W - o).
Proof.
  intros Ho. split; [auto with word|]. intros j Hj. rewrite tb_wnot, tb_wmask by auto with word.
  repeat case_cmp; simpl; (done || lia).
Qed.

(** Writing [c] bits of source word [k], over one or two destination words. *)
Lemma two_puts n ws0 adr ts k c mask1 mask2 s :
  written n ws0 adr (k * W) ts s -> words ts -> (adr + k * W + c <= n)%nat -> (0 < c <= W)%nat ->
  covers mask1 (adr mod W) (c `min` (W - adr mod W)) ->
  ((W < adr mod W + c)%nat -> covers mask2 0 (adr mod W + c - W)) ->
  let s1 := put mask1 (Z.land (wshl (word ts k) (adr mod W)) mask1) (adr / W + k) s in
  written n ws0 adr (k * W + c) ts
    (if (W <? adr mod W + c)%nat
     then put mask2 (Z.land (wshr (word ts k) (W - adr mod W)) mask2) (adr / W + k + 1) s1
     else s1).
Proof.
  intros Hs Hts Ha Hc C1 C2. set (off := (adr mod W)%nat) in *.
  pose proof (mod_W_lt adr) as Ho. fold off in Ho.
  assert (EP : ((adr + k * W) / W = adr / W + k /\ (adr + k * W) mod W = off)%nat).
  { rewrite Nat.div_add, Nat.Div0.mod_add by (unfold W; lia). done. }
  destruct EP as [EP1 EP2]. set (t1 := (c `min` (W - off))%nat) in *.
  assert (Wk : is_word (word ts k)) by by apply word_is_word.
  assert (H1 : written n ws0 adr (k * W + t1) ts
            (put mask1 (Z.land (wshl (word ts k) off) mask1) (adr / W + k) s)).
  { rewrite <- EP1. apply put_step; try done; try (unfold t1; lia).
    - by rewrite EP2.
    - destruct C1. auto with word.
    - intros j Hj. rewrite EP2, tb_land, tb_wshl, (proj2 (Nat.ltb_lt _ _) Hj) by done. cbn [andb].
      rewrite (andb_comm (tb mask1 j)). rewrite (proj2 C1 j Hj).
      destruct (Nat.leb_spec off j); [|by rewrite !andb_false_r].
      by rewrite wbit_index by lia. }
  cbv zeta. destruct (Nat.ltb_spec W (off + c)) as [H2|H2].
  - specialize (C2 H2). assert (Et : t1 = (W - off)%nat) by (unfold t1; lia).
    pose proof (advance (adr + k * W) t1) as HA. rewrite EP2, EP1 in HA. specialize (HA ltac:(lia)).
    rewrite (proj2 (Nat.eqb_eq (off + t1) W)) in HA by lia. destruct HA as [E1 E2].
    replace (k * W + c)%nat with (k * W + t1 + (off + c - W))%nat by lia.
    rewrite <- E1. rewrite <- Nat.add_assoc in E1, E2.
    rewrite <- (Nat.add_assoc adr). apply put_step; try done; try lia; rewrite ?E2; try lia; try done.
    + destruct C2. auto with word.
    + intros j Hj. rewrite tb_land, tb_wshr by (unfold off in *; lia || lia).
      rewrite (andb_comm (tb mask2 j)). rewrite (proj2 C2 j Hj).
      destruct (Nat.ltb_spec j (0 + (off + c - W))); [|by rewrite !andb_false_r].
      rewrite Nat.sub_0_r. f_equal.
      replace (k * W + t1 + j)%nat with (k * W + (j + (W - off)))%nat by lia.
      by rewrite wbit_index by lia.
  - replace (k * W + c)%nat with (k * W + t1)%nat by (unfold t1; lia). done.
Qed.

(** The same with the indices and the shift as each branch writes them. *)
Lemma two_puts_at n ws0 adr ts k c mask1 mask2 off d e dptr dptr2 sh s :
  written n ws0 adr d ts s -> words ts -> (adr + e <= n)%nat -> (0 < c <= W)%nat ->
  off = (adr mod W)%nat -> d = (k * W)%nat -> e = (d + c)%nat ->
  dptr = (adr / W + k)%nat -> dptr2 = (dptr + 1)%nat -> ((W < off + c)%nat -> sh = (W - off)%nat) ->
  covers mask1 off (c `min` (W - off)) ->
  ((W < off + c)%nat -> covers mask2 0 (off + c - W)) ->
  written n ws0 adr e ts
    (if (W <? off + c)%nat
     then put mask2 (Z.land (wshr (word ts k) sh) mask2) dptr2
            (put mask1 (Z.land (wshl (word ts k) off) mask1) dptr s)
     else put mask1 (Z.land (wshl (word ts k) off) mask1) dptr s).
Proof.
  intros Hs Hts Ha Hc -> -> -> -> -> Hsh C1 C2.
  pose proof (two_puts n ws0 adr ts k c mask1 mask2 s Hs Hts ltac:(lia) Hc C1 C2) as H.
  cbv zeta in H. destruct (Nat.ltb_spec W (adr mod W + c)); [|done]. by rewrite Hsh.
Qed.

Lemma written_0 n ws adr src : plane n ws -> written n ws adr 0 src (ws, false).
Proof.
  intros Hp. split_and!; cbn [fst snd]; [done| |split; [done|]].
  - intros i. rewrite Nat.add_0_r.
    destruct (Nat.leb_spec adr i), (Nat.ltb_spec i adr); cbn [andb]; (done || lia).
  - intros (i & Hi & _). lia.
Qed.

(** A full word is a part under the full mask. *)
Lemma put_word_put src k s :
  words (fst s) -> is_word src -> put_word src k s = put wones (Z.land src wones) k s.
Proof.
  destruct s as [ws diff]. cbn [fst]. intros Hw Hs. unfold put_word, put.
  assert (HL : forall x, is_word x -> Z.land x wones = x).
  { intros x Hx. apply tb_ext; [auto with word|done|]. intros j Hj.
    by rewrite tb_land, tb_wones, (proj2 (Nat.ltb_lt _ _) Hj), andb_true_r. }
  rewrite !HL by auto with word. destruct (word ws k =? src); [done|]. cbn [negb].
  do 2 f_equal. apply tb_ext; [done|auto 7 with word|]. intros j Hj.
  rewrite tb_lor, tb_land, tb_wnot, tb_wones, (proj2 (Nat.ltb_lt _ _) Hj) by auto with word.
  by rewrite andb_false_r.
Qed.

Lemma set_vec_short_spec n adr tn ts s :
  plane n (fst s) -> snd s = false -> words ts -> (n <= W)%nat -> (0 < tn)%nat -> (adr + tn <= n)%nat ->
  written n (fst s) adr tn ts (set_vec_short adr tn ts s).
Proof.
  intros Hp Hd Hts Hn H0 Ha. destruct s as [ws d]. cbn [fst snd] in *. subst d.
  pose proof (two_puts_at n ws adr ts 0 tn (Z.land (low_mask (adr + tn)) (wnot (wmask adr))) 0
    adr 0 tn 0 1 0 (ws, false)) as H.
  rewrite Nat.mod_small, Nat.div_small in H by lia.
  rewrite (proj2 (Nat.ltb_ge W (adr + tn))) in H by lia. apply H; try done; try lia.
  - by apply written_0.
  - apply covers_range. lia.
Qed.

Lemma set_vec_short_source_spec n adr tn ts s :
  plane n (fst s) -> snd s = false -> words ts -> (tn <= W)%nat -> (0 < tn)%nat -> (adr + tn <= n)%nat ->
  written n (fst s) adr tn ts (set_vec_short_source adr tn ts s).
Proof.
  intros Hp Hd Hts Hn H0 Ha. destruct s as [ws d]. cbn [fst snd] in *. subst d.
  pose proof (mod_W_lt adr) as Ho. unfold set_vec_short_source.
  apply (two_puts_at n ws adr ts 0 tn) with (d := 0%nat); try done; try lia.
  - by apply written_0.
  - by apply covers_range.
  - intros Hc. apply covers_low. lia.
Qed.

(** The bits of a long source that do not fill a word. *)
Lemma tail_bounds tn : (tn = tn / W * W + tn mod W /\ tn mod W < W)%nat.
Proof. pose proof (Nat.div_mod_eq tn W). pose proof (mod_W_lt tn). lia. Qed.

Lemma set_vec_aligned_spec n adr tn ts s :
  plane n (fst s) -> snd s = false -> words ts -> (adr mod W = 0)%nat -> (adr + tn <= n)%nat ->
  written n (fst s) adr tn ts (set_vec_aligned adr tn ts s).
Proof.
  intros Hp Hd Hts Hal Ha. destruct s as [ws d]. cbn [fst snd] in *. subst d.
  unfold set_vec_aligned. rewrite while_words_spec. destruct (tail_bounds tn) as [E Hm].
  assert (HL : forall k, (k <= tn / W)%nat ->
    written n ws adr (k * W) ts
      (for_upto k (fun sptr s => put_word (word ts sptr) (adr / W + sptr) s) (ws, false))).
  { induction k as [|k IH]; intros Hk; cbn [for_upto]; [by apply written_0|].
    specialize (IH ltac:(lia)). pose proof IH as (Pk & _).
    rewrite put_word_put by (apply Pk || by apply word_is_word).
    pose proof (two_puts_at n ws adr ts k W wones 0 (adr mod W) (k * W) (S k * W) (adr / W + k)
      (adr / W + k + 1) 0 _ IH Hts) as H. rewrite Hal, (proj2 (Nat.ltb_ge W (0 + W))) in H by lia.
    replace (wshl (word ts k) 0) with (word ts k) in H.
    - apply H; try done; try (unfold W in *; lia).
      split; [auto with word|]. intros j Hj. rewrite tb_wones. repeat case_cmp; simpl; (done || lia).
    - apply tb_ext; [by apply word_is_word|auto with word|]. intros j Hj.
      rewrite tb_wshl, (proj2 (Nat.ltb_lt _ _) Hj) by (unfold W; lia). simpl. by rewrite Nat.sub_0_r. }
  specialize (HL (tn / W)%nat (le_n _)). set (st := for_upto _ _ _) in *. clearbody st.
  destruct (Nat.ltb_spec 0 (tn mod W)) as [Hr|Hr].
  2:{ replace tn with (tn / W * W)%nat by lia. done. }
  pose proof (two_puts_at n ws adr ts (tn / W) (tn mod W) (wmask (tn mod W)) 0 (adr mod W)
    (tn / W * W) tn (adr / W + tn / W) (adr / W + tn / W + 1) 0 _ HL Hts) as H.
  rewrite Hal, (proj2 (Nat.ltb_ge W (0 + tn mod W))) in H by lia.
  replace (wshl (word ts (tn / W)) 0) with (word ts (tn / W)) in H.
  - apply H; try done; try lia. rewrite Nat.min_l by lia. by apply covers_low.
  - apply tb_ext; [by apply word_is_word|auto with word|]. intros j Hj.
    rewrite tb_wshl, (proj2 (Nat.ltb_lt _ _) Hj) by (unfold W; lia). simpl. by rewrite Nat.sub_0_r.
Qed.

Lemma set_vec_unaligned_spec n adr tn ts s :
  plane n (fst s) -> snd s = false -> words ts -> (0 < adr mod W)%nat -> (adr + tn <= n)%nat ->
  written n (fst s) adr tn ts (set_vec_unaligned adr tn ts s).
Proof.
  intros Hp Hd Hts Hal Ha. destruct s as [ws d]. cbn [fst snd] in *. subst d.
  unfold set_vec_unaligned. rewrite while_words_spec. destruct (tail_bounds tn) as [E Hm].
  pose proof (mod_W_lt adr) as Ho. set (off := (adr mod W)%nat) in *.
  set (body := fun sptr s => _).
  assert (HL : forall k, (k <= tn / W)%nat ->
    written n ws adr (k * W) ts (for_upto k body (ws, false))).
  { induction k as [|k IH]; intros Hk; cbn [for_upto]; [by apply written_0|].
    specialize (IH ltac:(lia)). unfold body at 1.
    pose proof (two_puts_at n ws adr ts k W (wnot (wmask off)) (wmask off) off (k * W) (S k * W)
      (adr / W + k) (adr / W + k + 1) (W - off) _ IH Hts) as H.
    rewrite (proj2 (Nat.ltb_lt W (off + W))) in H by lia.
    apply H; try done; try (unfold W in *; lia).
    - rewrite Nat.min_r by lia. by apply covers_high.
    - intros _. replace (off + W - W)%nat with off by lia. by apply covers_low. }
  specialize (HL (tn / W)%nat (le_n _)). set (st := for_upto _ _ _) in *. clearbody st.
  destruct (Nat.ltb_spec 0 (tn mod W)) as [Hr|Hr].
  2:{ replace tn with (tn / W * W)%nat by lia. done. }
  apply (two_puts_at n ws adr ts (tn / W) (tn mod W)) with (d := (tn / W * W)%nat); try done; try lia.
  - by apply covers_range.
  - intros Hc. apply covers_low_mask. lia.
Qed.

Lemma set_vec_plane_spec n adr tn ts ws :
  plane n ws -> plane tn ts -> (0 < tn)%nat -> (adr + tn <= n)%nat ->
  written n ws adr tn ts (set_vec_plane n adr tn ts (ws, false)).
Proof.
  intros Hp [_ Ht] H0 Ha. unfold set_vec_plane.
  destruct (Nat.leb_spec n W).
  { by apply (set_vec_short_spec n adr tn ts (ws, false)). }
  destruct (Nat.leb_spec tn W).
  { by apply (set_vec_short_source_spec n adr tn ts (ws, false)). }
  destruct (Nat.eqb_spec (adr mod W) 0).
  - by apply (set_vec_aligned_spec n adr tn ts (ws, false)).
  - apply (set_vec_unaligned_spec n adr tn ts (ws, false)); try done. simpl. lia.
Qed.

(** Part assignment replaces exactly the window, and reports whether a bit changed. *)
Lemma set_vec_spec v adr that :
  wf4 v -> wf4 that -> (0 < size that)%nat -> (adr + size that <= size v)%nat ->
  exists r diff, set_vec v adr that = Some (r, diff) /\
    bitwise (size v) (fun i => if (adr <=? i)%nat && (i <? adr + size that)%nat
                               then value that (i - adr) else value v i) r /\
    (diff = true <-> ~ same_bits r v).
Proof.
  intros Hv Ht H0 Ha. apply wf4_planes in Hv as Pv. apply wf4_planes in Ht as Pt.
  unfold set_vec. rewrite (proj2 (Nat.leb_le _ _) Ha).
  pose proof (set_vec_plane_spec (size v) adr (size that) (abits that) (abits v)) as HA.
  pose proof (set_vec_plane_spec (size v) adr (size that) (bbits that) (bbits v)) as HB.
  destruct HA as (Qa & Ba & Da); [tauto..|]. destruct HB as (Qb & Bb & Db); [tauto..|].
  destruct (set_vec_plane _ _ _ (abits that) _) as [a da].
  destruct (set_vec_plane _ _ _ (bbits that) _) as [b db]. cbn [fst snd] in *.
  set (r := mkVec4 (size v) a b). exists r, (da || db).
  assert (Wr : wf4 r) by by apply wf4_planes.
  assert (HP : forall i, pa r i = (if (adr <=? i)%nat && (i <? adr + size that)%nat
                 then pa that (i - adr) else pa v i) /\
               pb r i = (if (adr <=? i)%nat && (i <? adr + size that)%nat
                 then pb that (i - adr) else pb v i)).
  { intros i. unfold pa, pb, r. cbn [abits bbits]. by rewrite Ba, Bb. }
  split_and!; [done| |].
  - apply bitwise_planes; [done|done|]. intros i Hi. destruct (HP i) as [-> ->].
    destruct ((adr <=? i)%nat && (i <? adr + size that)%nat) eqn:EW.
    + apply andb_true_iff in EW as [H1%Nat.leb_le H2%Nat.ltb_lt].
      by rewrite value_planes by (done || lia).
    + by rewrite value_planes.
  - rewrite orb_true_iff, Da, Db. split.
    + intros [(i & Hi & Hne)|(i & Hi & Hne)] [_ Hsame]; specialize (Hsame (adr + i)%nat ltac:(lia));
        rewrite !value_planes in Hsame by (done || (simpl; lia));
        apply of_planes_inj in Hsame as [S1 S2]; destruct (HP (adr + i)%nat) as [P1 P2];
        rewrite P1 in S1; rewrite P2 in S2;
        rewrite (proj2 (Nat.leb_le adr (adr + i))), (proj2 (Nat.ltb_lt (adr + i) (adr + size that))) in S1, S2 by lia;
        replace (adr + i - adr)%nat with i in S1, S2 by lia; by apply Hne.
    + intros Hd.
      destruct (existsb (fun i => xorb (pa that i) (pa v (adr + i)) || xorb (pb that i) (pb v (adr + i)))
                  (seq 0 (size that))) eqn:Ex.
      * apply existsb_exists in Ex as (i & Hi%in_seq & Hx). apply orb_true_iff in Hx as [Hx|Hx];
          [left|right]; exists i; (split; [lia|]); intros E; unfold pa, pb in Hx; rewrite E in Hx;
          by rewrite xorb_nilpotent in Hx.
      * exfalso. apply Hd. split; [done|]. intros i Hi.
        rewrite !value_planes by done. destruct (HP i) as [-> ->].
        destruct ((adr <=? i)%nat && (i <? adr + size that)%nat) eqn:EW; [|done].
        apply andb_true_iff in EW as [H1%Nat.leb_le H2%Nat.ltb_lt].
        assert (HN : xorb (pa that (i - adr)) (pa v i) || xorb (pb that (i - adr)) (pb v i) = false).
        { destruct (xorb _ _ || xorb _ _) eqn:EX; [|done]. rewrite <- Ex. symmetry.
          apply existsb_exists. exists (i - adr)%nat. split; [apply in_seq; lia|].
          replace (adr + (i - adr))%nat with i by lia. done. }
        apply orb_false_iff in HN as [N1 N2]. apply xorb_eq in N1, N2. by rewrite N1, N2.
Qed.

(** * The move within a vector *)

(** The first [d] bits have been moved. *)
Definition moved (n : nat) (ws0 : list Z) (dst src d : nat) (ws : list Z) : Prop :=
  plane n ws /\
  forall i, wbit ws i =
    if (dst <=? i)%nat && (i <? dst + d)%nat then wbit ws0 (src + (i - dst)) else wbit ws0 i.

(** Nothing still to be read has been overwritten. *)
Definition disjoint_move (dst src cnt : nat) : Prop := (dst <= src)%nat \/ (src + cnt <= dst)%nat.

(** The word formula of the move: [t] bits of [tmp] placed at offset [o]. *)
Lemma tb_place w tmp t o j :
  is_word w -> is_word tmp -> (o < W)%nat -> (t < W)%nat -> (o + t <= W)%nat -> (j < W)%nat ->
  tb (Z.lor (Z.land w (wnot (wshl (wmask t) o))) (wshl (Z.land tmp (wmask t)) o)) j
  = if (o <=? j)%nat && (j <? o + t)%nat then tb tmp (j - o) else tb w j.
Proof.
  intros Hw Htmp Ho Ht Hot Hj.
  rewrite tb_lor, tb_land, tb_wnot, !tb_wshl, tb_land, tb_wmask by auto with word.
  rewrite (proj2 (Nat.ltb_lt _ _) Hj). cbn [andb].
  destruct (Nat.leb_spec o j); cbn [andb negb].
  - replace (j <? o + t)%nat with (j - o <? t)%nat by (repeat case_cmp; (done || lia)).
    destruct (j - o <? t)%nat; cbn [negb]; by rewrite ?andb_false_r, ?andb_true_r, ?orb_false_r.
  - by rewrite andb_true_r, orb_false_r.
Qed.

Lemma move_step n ws0 dst src cnt d t ws :
  moved n ws0 dst src d ws -> disjoint_move dst src cnt ->
  (dst + cnt <= n)%nat -> (src + cnt <= n)%nat -> (d + t <= cnt)%nat -> (0 < t < W)%nat ->
  ((src + d) mod W + t <= W)%nat -> ((dst + d) mod W + t <= W)%nat ->
  let vmask := wmask t in
  let tmp := Z.land (wshr (word ws ((src + d) / W)) ((src + d) mod W)) vmask in
  moved n ws0 dst src (d + t)
    (<[((dst + d) / W)%nat :=
       Z.lor (Z.land (word ws ((dst + d) / W)) (wnot (wshl vmask ((dst + d) mod W))))
             (wshl tmp ((dst + d) mod W))]> ws).
Proof.
  intros [Hp Hb] Hdis Hdn Hsn Hdt Ht Hs Hd vmask tmp.
  assert (Ws : is_word (word ws ((src + d) / W))) by apply word_is_word, Hp.
  assert (Wd : is_word (word ws ((dst + d) / W))) by apply word_is_word, Hp.
  split; [apply plane_insert; unfold tmp, vmask; auto 8 with word|]. intros i.
  rewrite (wbit_insert_word n) by (done || (apply plane_index; lia)).
  rewrite in_window, (range_in_word (dst + d) t i) by lia.
  pose proof (mod_W_lt (dst + d)). pose proof (mod_W_lt (src + d)). pose proof (mod_W_lt i).
  destruct (Nat.eqb_spec (i / W) ((dst + d) / W)) as [E|E]; cbn [andb].
  2:{ rewrite orb_false_r. apply Hb. }
  unfold tmp, vmask. rewrite tb_place by (done || lia || auto with word).
  destruct (((dst + d) mod W <=? i mod W)%nat && _) eqn:ER.
  - apply andb_true_iff in ER as [H3%Nat.leb_le H4%Nat.ltb_lt]. rewrite orb_true_r.
    pose proof (Nat.div_mod_eq (dst + d) W). pose proof (Nat.div_mod_eq i W). rewrite E in *.
    rewrite tb_wshr by done. rewrite (Nat.add_comm _ ((src + d) mod W)).
    rewrite <- wbit_at, Hb by lia.
    assert (Hout : (dst <=? src + d + (i mod W - (dst + d) mod W))%nat &&
                   (src + d + (i mod W - (dst + d) mod W) <? dst + d)%nat = false).
    { unfold disjoint_move in Hdis. repeat case_cmp; cbn [andb]; (done || lia). }
    rewrite Hout. f_equal. lia.
  - rewrite orb_false_r, <- E, <- wbit_word. apply Hb.
Qed.

Lemma move_word n ws0 dst src cnt d ws :
  moved n ws0 dst src d ws -> disjoint_move dst src cnt ->
  (dst + cnt <= n)%nat -> (src + cnt <= n)%nat -> (d + W <= cnt)%nat ->
  ((src + d) mod W = 0)%nat -> ((dst + d) mod W = 0)%nat ->
  moved n ws0 dst src (d + W) (<[((dst + d) / W)%nat := word ws ((src + d) / W)]> ws).
Proof.
  intros [Hp Hb] Hdis Hdn Hsn Hdt Hs Hd.
  assert (HW : (0 < W)%nat) by (unfold W; lia).
  assert (Ws : is_word (word ws ((src + d) / W))) by apply word_is_word, Hp.
  split; [by apply plane_insert|]. intros i.
  rewrite (wbit_insert_word n) by (done || (apply plane_index; lia)).
  rewrite in_window, (range_in_word (dst + d) W i) by lia. rewrite Hd.
  pose proof (mod_W_lt i) as Hi. rewrite (proj2 (Nat.ltb_lt (i mod W) (0 + W))) by lia. cbn [Nat.leb andb].
  destruct (Nat.eqb_spec (i / W) ((dst + d) / W)) as [E|E]; cbn [andb].
  2:{ rewrite orb_false_r. apply Hb. }
  rewrite orb_true_r. pose proof (Nat.div_mod_eq (dst + d) W). pose proof (Nat.div_mod_eq i W). rewrite E in *.
  pose proof (wbit_at ws (src + d) (i mod W)) as HA. rewrite Hs, Nat.add_0_l in HA.
  rewrite <- HA, Hb by lia.
  assert (Hout : (dst <=? src + d + i mod W)%nat && (src + d + i mod W <? dst + d)%nat = false).
  { unfold disjoint_move in Hdis. repeat case_cmp; cbn [andb]; (done || lia). }
  rewrite Hout. f_equal. lia.
Qed.

(** Position bookkeeping of the loop: wrap to the next word when one is full. *)
Lemma advance_pair p t :
  (p mod W + t <= W)%nat ->
  (if (W <=? p mod W + t)%nat then (0%nat, (p / W + 1)%nat) else ((p mod W + t)%nat, (p / W)%nat))
  = (((p + t) mod W)%nat, ((p + t) / W)%nat).
Proof.
  intros H. pose proof (advance p t H) as HA.
  destruct (Nat.eqb_spec (p mod W + t) W), (Nat.leb_spec W (p mod W + t)); try lia;
    by destruct HA as [-> ->].
Qed.

Lemma mov_loop_spec fuel n ws0 dst src cnt d ws :
  moved n ws0 dst src d ws -> disjoint_move dst src cnt ->
  (dst + cnt <= n)%nat -> (src + cnt <= n)%nat -> (d <= cnt)%nat -> (cnt - d <= fuel)%nat ->
  moved n ws0 dst src cnt
    (mov_loop fuel (cnt - d) ((src + d) / W) ((dst + d) / W) ((src + d) mod W) ((dst + d) mod W) ws).
Proof.
  revert d ws. induction fuel as [|f IH]; intros d ws Hm Hdis Hdn Hsn Hd Hf; cbn [mov_loop].
  { by assert (d = cnt) as <- by lia. }
  destruct (Nat.ltb_spec 0 (cnt - d)) as [H0|H0]; [|by assert (d = cnt) as <- by lia].
  set (so := ((src + d) mod W)%nat). set (do := ((dst + d) mod W)%nat).
  pose proof (mod_W_lt (src + d)) as Hso. pose proof (mod_W_lt (dst + d)) as Hdo. fold so in Hso. fold do in Hdo.
  set (t1 := if (W <? so + (cnt - d))%nat then _ else _).
  assert (Et1 : (t1 = (cnt - d) `min` (W - so))%nat) by (unfold t1; case_cmp; lia). clearbody t1.
  set (t := if (W <? do + t1)%nat then _ else _).
  assert (Et : (t = t1 `min` (W - do))%nat) by (unfold t; case_cmp; lia). clearbody t.
  destruct (Nat.eqb_spec t W) as [E|E].
  - assert (so = 0%nat /\ do = 0%nat) as [Eso Edo] by lia.
    pose proof (move_word n ws0 dst src cnt d ws Hm Hdis Hdn Hsn ltac:(lia) Eso Edo) as HM.
    specialize (IH (d + W)%nat _ HM Hdis Hdn Hsn ltac:(lia) ltac:(unfold W in *; lia)).
    pose proof (advance (src + d) W) as A1. pose proof (advance (dst + d) W) as A2.
    fold so in A1. fold do in A2. rewrite Eso in A1. rewrite Edo in A2.
    specialize (A1 ltac:(lia)). specialize (A2 ltac:(lia)).
    rewrite (proj2 (Nat.eqb_eq (0 + W) W)) in A1, A2 by lia. destruct A1 as [A1 A1'], A2 as [A2 A2'].
    rewrite !Nat.add_assoc, A1, A1', A2, A2', Nat.sub_add_distr in IH. by rewrite Eso, Edo.
  - pose proof (move_step n ws0 dst src cnt d t ws Hm Hdis Hdn Hsn ltac:(lia) ltac:(lia)
      ltac:(fold so; lia) ltac:(fold do; lia)) as HM. cbv zeta in HM. fold so do in HM.
    specialize (IH (d + t)%nat _ HM Hdis Hdn Hsn ltac:(lia) ltac:(lia)).
    pose proof (advance_pair (src + d) t ltac:(fold so; lia)) as A1.
    pose proof (advance_pair (dst + d) t ltac:(fold do; lia)) as A2. fold so in A1. fold do in A2.
    rewrite A1, A2, <- !Nat.add_assoc, <- Nat.sub_add_distr. exact IH.
Qed.

Lemma mov_plane_spec n dst src cnt ws :
  plane n ws -> disjoint_move dst src cnt -> (0 < cnt)%nat ->
  (dst + cnt <= n)%nat -> (src + cnt <= n)%nat ->
  let r := mov_plane n dst src cnt ws in
  plane n r /\ forall i, (i < n)%nat ->
    wbit r i = if (dst <=? i)%nat && (i <? dst + cnt)%nat then wbit ws (src + (i - dst)) else wbit ws i.
Proof.
  intros Hp Hdis H0 Hd Hs. unfold mov_plane. destruct (Nat.leb_spec n W) as [Hn|Hn].
  - destruct (plane_short_inv n ws Hn Hp) as [_ Ww].
    split; [apply plane_short; auto 8 with word|]. intros i Hi.
    rewrite wbit_short, (wbit_low ws i) by lia.
    destruct (Nat.eq_dec cnt W) as [E|E].
    + assert (dst = 0%nat /\ src = 0%nat) as [-> ->] by lia.
      rewrite (proj2 (Nat.ltb_lt i (0 + cnt))) by lia. cbn [Nat.leb andb].
      rewrite wbit_low by lia. rewrite E. change (wmask W) with 0.
      rewrite Z.land_0_r. change (wshl 0 0) with 0. rewrite Z.lor_0_r, tb_land.
      change (wnot 0) with wones. rewrite tb_wones, (proj2 (Nat.ltb_lt i W)), andb_true_r by lia.
      f_equal. lia.
    + rewrite tb_place by (done || lia || auto with word).
      destruct (Nat.leb_spec dst i); cbn [andb]; [|done]. destruct (Nat.ltb_spec i (dst + cnt)); [|done].
      rewrite tb_wshr, wbit_low by lia. f_equal. lia.
  - assert (H : moved n ws dst src 0 ws).
    { split; [done|]. intros i. destruct (Nat.leb_spec dst i), (Nat.ltb_spec i (dst + 0)); cbn [andb]; (done || lia). }
    pose proof (mov_loop_spec cnt n ws dst src cnt 0 ws H Hdis Hd Hs ltac:(lia) ltac:(lia)) as [HP HB].
    rewrite !Nat.add_0_r, Nat.sub_0_r in HP, HB. split; [done|]. intros i Hi. apply HB.
Qed.

(** A move copies the range, unless source and destination overlap the wrong way. *)
Lemma mov_spec v dst src cnt :
  wf4 v -> disjoint_move dst src cnt -> (0 < cnt)%nat ->
  (dst + cnt <= size v)%nat -> (src + cnt <= size v)%nat ->
  exists r, mov v dst src cnt = Some r /\
    bitwise (size v) (fun i => if (dst <=? i)%nat && (i <? dst + cnt)%nat
                               then value v (src + (i - dst)) else value v i) r.
Proof.
  intros Hv Hdis H0 Hd Hs. unfold mov. rewrite !(proj2 (Nat.leb_le _ _)) by done. cbn [andb].
  apply wf4_planes in Hv as Pv.
  destruct (mov_plane_spec (size v) dst src cnt (abits v)) as [Pa Ba]; [tauto|done..|].
  destruct (mov_plane_spec (size v) dst src cnt (bbits v)) as [Pb Bb]; [tauto|done..|].
  eexists. split; [done|]. apply bitwise_planes; [by apply wf4_planes|done|]. intros i Hi.
  unfold pa, pb. cbn [abits bbits]. rewrite Ba, Bb by done.
  destruct ((dst <=? i)%nat && (i <? dst + cnt)%nat) eqn:EW; [|by rewrite value_planes].
  apply andb_true_iff in EW as [H1%Nat.leb_le H2%Nat.ltb_lt].
  by rewrite value_planes by (done || lia).
Qed.
