(* ===== verification/WordArith.v ===== *)
(** Multi-word arithmetic shared by the vector classes: the carry chain
    [x[i] = add_with_carry(x[i], y[i], carry)] over an array of words, the accumulation
    of a double-word product and the schoolbook product, each related to the number the
    array stands for.  [add_with_carry] and [add_carry] (and the two word
    multiplications) are instances of the classes below. *)
From S2P Require Import Prelude MachineWord VvpVector4.

(** * Interfaces *)

(** A word adder with carry in and out, and a word multiplier with a high word. *)
Class Adder (adc : Z -> Z -> Z -> Z * Z) : Prop :=
  adder_law : forall a b c, is_word a -> is_word b -> 0 <= c <= 1 ->
    let '(s, c') := adc a b c in is_word s /\ 0 <= c' <= 1 /\ s + wordsize * c' = a + b + c.

Class Multiplier (mul : Z -> Z -> Z * Z) : Prop :=
  multiplier_law : forall a b, is_word a -> is_word b ->
    let '(lo, hi) := mul a b in is_word lo /\ is_word hi /\ lo + wordsize * hi = a * b.

#[export] Instance add_with_carry_adder : Adder add_with_carry := add_with_carry_spec.
#[export] Instance add_carry_adder : Adder add_carry := add_carry_spec.
#[export] Instance multiply_with_carry_multiplier : Multiplier multiply_with_carry :=
  multiply_with_carry_spec.
#[export] Instance multiply_long_multiplier : Multiplier multiply_long := multiply_long_spec.

(** * Definitions *)

(** One iteration of a carry chain: word [k] of the array and the carry. *)
Definition carry_step (adc : Z -> Z -> Z -> Z * Z) (k : nat) (y : Z) (s : list Z * Z) : list Z * Z :=
  let '(ws, carry) := s in
  let '(w, carry) := adc (word ws k) y carry in (<[k := w]> ws, carry).

(** The accumulation of the product [lo + 2^64 hi] at word [base] of an array of [cnt]
    words: [lo] at [base], [hi] above it, then only the carry. *)
Definition accumulate (adc : Z -> Z -> Z -> Z * Z) (base cnt : nat) (lo hi : Z) (res : list Z) : list Z :=
  fst (for_upto (cnt - base)
         (fun i => carry_step adc (base + i) (match i with O => lo | 1%nat => hi | _ => 0 end))
         (res, 0)).

(** * Arrays as numbers *)

Lemma wval_insert ws k w :
  (k < length ws)%nat -> wval (<[k := w]> ws) = wval ws + pow64 k * (w - word ws k).
Proof.
  revert k. induction ws as [|x ws IH]; intros k Hk; simpl in Hk; [lia|].
  destruct k as [|k]; cbn [insert list_insert wval].
  - rewrite pow64_0. unfold word. simpl. lia.
  - change (list_insert k w ws) with (<[k := w]> ws). rewrite IH by lia.
    rewrite pow64_S. unfold word. simpl. lia.
Qed.

(** The number the first [n] values of [f] stand for. *)
Fixpoint wsum (f : nat -> Z) (n : nat) : Z :=
  match n with
  | O => 0
  | S k => wsum f k + pow64 k * f k
  end.

Lemma wsum_ext f g n : (forall k, (k < n)%nat -> f k = g k) -> wsum f n = wsum g n.
Proof.
  intros H. induction n as [|n IH]; [done|]. cbn [wsum]. rewrite IH, H by (intros; auto). done.
Qed.

Lemma wsum_shift f n : wsum f (S n) = f 0%nat + wordsize * wsum (fun k => f (S k)) n.
Proof.
  induction n as [|n IH]; [cbn [wsum]; rewrite pow64_0; lia|].
  change (wsum f (S (S n))) with (wsum f (S n) + pow64 (S n) * f (S n)).
  rewrite IH, pow64_S. cbn [wsum]. lia.
Qed.

Lemma wsum_word ws : wsum (word ws) (length ws) = wval ws.
Proof.
  induction ws as [|x ws IH]; [done|]. cbn [length]. rewrite wsum_shift.
  cbn [wval]. unfold word at 1. simpl. rewrite <- IH. done.
Qed.

Lemma wsum_le ws n : (n <= length ws)%nat -> wsum (word ws) n = wval (take n ws).
Proof.
  intros Hn. rewrite <- (wsum_word (take n ws)), length_take, Nat.min_l by done.
  apply wsum_ext. intros k Hk. unfold word. rewrite !nth_lookup, lookup_take_lt; done.
Qed.

Lemma wsum_bound f n : (forall k, (k < n)%nat -> is_word (f k)) -> 0 <= wsum f n < pow64 n.
Proof.
  induction n as [|n IH]; intros H; [cbn [wsum]; rewrite pow64_0; lia|].
  cbn [wsum]. rewrite pow64_S. specialize (IH ltac:(intros; apply H; lia)).
  destruct (H n ltac:(lia)). pose proof (pow64_pos n). nia.
Qed.

(** * The carry chain *)

Section Chain.
Context (adc : Z -> Z -> Z -> Z * Z) `{!Adder adc}.

(** A chain of [n] words from word [start] adds the number [f] there. *)
Lemma chain_spec start (f : nat -> Z) n ws c :
  words ws -> (forall k, (k < n)%nat -> is_word (f k)) -> 0 <= c <= 1 -> (start + n <= length ws)%nat ->
  let '(ws', c') := for_upto n (fun k => carry_step adc (start + k) (f k)) (ws, c) in
  words ws' /\ length ws' = length ws /\ 0 <= c' <= 1 /\
  (forall k, (k < start \/ start + n <= k)%nat -> word ws' k = word ws k) /\
  wval ws' + pow64 (start + n) * c' = wval ws + pow64 start * (wsum f n + c).
Proof.
  intros Hw Hf Hc. induction n as [|n IH]; intros Hn; cbn [for_upto].
  - split_and!; try done; try lia. rewrite Nat.add_0_r. cbn [wsum]. lia.
  - specialize (IH ltac:(intros; apply Hf; lia) ltac:(lia)).
    destruct (for_upto n _ (ws, c)) as [ws1 c1]. destruct IH as (W1 & L1 & C1 & K1 & V1).
    unfold carry_step. pose proof (adder_law (word ws1 (start + n)) (f n) c1) as HA.
    destruct (adc (word ws1 (start + n)) (f n) c1) as [s c2].
    destruct HA as (Ws & C2 & E); [by apply word_is_word|apply Hf; lia|done|].
    split_and!; [auto with word|by rewrite length_insert|lia..| |].
    + intros k Hk. rewrite word_insert by lia. case_cmp; [lia|]. apply K1. lia.
    + rewrite wval_insert by lia. cbn [wsum]. rewrite Nat.add_succ_r, pow64_S.
      assert (Ep : pow64 (start + n) = pow64 start * pow64 n).
      { unfold pow64. rewrite <- Z.pow_add_r by lia. f_equal. lia. }
      rewrite Ep in *. nia.
Qed.

Lemma accumulate_spec base cnt lo hi res :
  words res -> length res = cnt -> (base < cnt)%nat -> is_word lo -> is_word hi ->
  words (accumulate adc base cnt lo hi res) /\
  length (accumulate adc base cnt lo hi res) = cnt /\
  wval (accumulate adc base cnt lo hi res) mod pow64 cnt
  = (wval res + pow64 base * (lo + wordsize * hi)) mod pow64 cnt.
Proof.
  intros Hw Hl Hb Hlo Hhi. unfold accumulate.
  set (f := fun i : nat => match i with O => lo | 1%nat => hi | _ => 0 end).
  pose proof (chain_spec base f (cnt - base) res 0 Hw) as H.
  destruct (for_upto (cnt - base) _ (res, 0)) as [ws' c'] eqn:E.
  destruct H as (W1 & L1 & C1 & _ & V1); [|lia|lia|].
  { intros k _. unfold f. destruct k as [|[|k]]; auto with word. }
  change (fun i : nat => carry_step adc (base + i) (f i)) with
    (fun i => carry_step adc (base + i) (match i with O => lo | 1%nat => hi | _ => 0 end)) in E.
  cbn [fst]. split_and!; [done|lia|].
  replace (base + (cnt - base))%nat with cnt in V1 by lia. pose proof (pow64_pos cnt).
  rewrite <- (Z.mod_add (wval ws') c') by lia. rewrite (Z.mul_comm c'), V1, Z.add_0_r.
  (* what the chain adds is the double word modulo the array *)
  assert (HF : exists q, pow64 base * wsum f (cnt - base) = pow64 base * (lo + wordsize * hi) + q * pow64 cnt).
  { destruct (cnt - base)%nat as [|m] eqn:Em; [lia|]. rewrite wsum_shift. unfold f at 1.
    destruct m as [|m].
    - exists (- hi). cbn [wsum]. replace cnt with (S base) by lia. rewrite pow64_S. lia.
    - exists 0. rewrite wsum_shift. unfold f at 1.
      assert (wsum (fun k => f (S (S k))) m = 0) as ->.
      { clear. induction m as [|m IH]; [done|]. cbn [wsum]. rewrite IH. cbn [f]. lia. }
      lia. }
  destruct HF as [q ->]. rewrite Z.add_assoc, Z.mod_add by lia. done.
Qed.
End Chain.

(** * The schoolbook product *)

Lemma pow64_add n m : pow64 (n + m) = pow64 n * pow64 m.
Proof. unfold pow64. rewrite <- Z.pow_add_r by lia. f_equal. lia. Qed.

Lemma pow64_divides n m : (n <= m)%nat -> (pow64 n | pow64 m).
Proof. intros H. exists (pow64 (m - n)). rewrite <- pow64_add. f_equal. lia. Qed.

(** Congruence modulo the size of an array. *)
Record cong (cnt : nat) (x y : Z) : Prop := {
  cong_mod : x mod pow64 cnt = y mod pow64 cnt }.

#[export] Instance cong_equiv cnt : Equivalence (cong cnt).
Proof.
  split.
  - by intros x.
  - intros x y [E]. by split.
  - intros x y z [E] [E']. split. congruence.
Qed.

#[export] Instance cong_add cnt : Proper (cong cnt ==> cong cnt ==> cong cnt) Z.add.
Proof.
  intros x y [E] x' y' [E']. split. pose proof (pow64_pos cnt).
  by rewrite (Z.add_mod x), (Z.add_mod y), E, E' by lia.
Qed.

#[export] Instance cong_mul cnt : Proper (cong cnt ==> cong cnt ==> cong cnt) Z.mul.
Proof.
  intros x y [E] x' y' [E']. split. pose proof (pow64_pos cnt).
  by rewrite (Z.mul_mod x), (Z.mul_mod y), E, E' by lia.
Qed.

Lemma cong_high cnt base x : (cnt <= base)%nat -> cong cnt (pow64 base * x) 0.
Proof.
  intros H. split. pose proof (pow64_pos cnt). rewrite Z.mod_0_l by lia.
  apply Z.mod_divide; [lia|]. apply Z.divide_mul_l. by apply pow64_divides.
Qed.

Lemma wsum_high f cnt a m :
  (cnt - a <= m)%nat -> cong cnt (pow64 a * wsum f m) (pow64 a * wsum f (cnt - a)).
Proof.
  intros Hm. induction m as [|m IH].
  - replace (cnt - a)%nat with 0%nat by lia. reflexivity.
  - destruct (Nat.eq_dec (cnt - a)%nat (S m)) as [->|]; [reflexivity|].
    cbn [wsum]. rewrite Z.mul_add_distr_l, IH by lia.
    assert (E : pow64 a * (pow64 m * f m) = pow64 (a + m) * f m) by (rewrite pow64_add; ring).
    rewrite E, (cong_high cnt (a + m)) by lia. by rewrite Z.add_0_r.
Qed.

(** Congruences that hold as equations. *)
Ltac cong_ring := match goal with |- cong _ ?a ?b => replace a with b by ring end; reflexivity.

Section Product.
Context (adc : Z -> Z -> Z -> Z * Z) (mul : Z -> Z -> Z * Z) `{!Adder adc, !Multiplier mul}.

(** [res] is an array of [cnt] words that stands for [x] modulo its size. *)
Definition holds (cnt : nat) (x : Z) (res : list Z) : Prop :=
  words res /\ length res = cnt /\ cong cnt (wval res) x.

Lemma accumulate_product base cnt a b x res :
  holds cnt x res -> is_word a -> is_word b ->
  let '(lo, hi) := mul a b in
  holds cnt (x + pow64 base * (a * b)) (accumulate adc base cnt lo hi res).
Proof.
  intros (Hw & Hl & Hv) Ha Hb. pose proof (multiplier_law a b Ha Hb) as H.
  destruct (mul a b) as [lo hi]. destruct H as (Wl & Wh & E).
  destruct (Nat.lt_ge_cases base cnt) as [Hlt|Hge].
  - destruct (accumulate_spec adc base cnt lo hi res) as (W1 & L1 & V1); try done.
    split_and!; [done|done|]. transitivity (wval res + pow64 base * (lo + wordsize * hi)); [by split|].
    by rewrite Hv, E.
  - unfold accumulate. replace (cnt - base)%nat with 0%nat by lia. cbn [for_upto fst].
    split_and!; [done|done|]. by rewrite cong_high, Z.add_0_r.
Qed.

(** One row: the product of a word and an array, added at word [a]. *)
Lemma row_spec cnt a l (f : nat -> Z) m x res :
  holds cnt x res -> is_word l -> (forall k, is_word (f k)) ->
  holds cnt (x + pow64 a * l * wsum f m)
    (for_upto m (fun b res => let '(lo, hi) := mul l (f b) in accumulate adc (a + b) cnt lo hi res) res).
Proof.
  intros Hr Hl Hf. induction m as [|m IH]; cbn [for_upto wsum].
  - by rewrite Z.mul_0_r, Z.add_0_r.
  - set (r := for_upto m _ res) in *.
    pose proof (accumulate_product (a + m) cnt l (f m) _ r IH Hl (Hf m)) as H.
    destruct (mul l (f m)) as [lo hi].
    replace (x + pow64 a * l * (wsum f m + pow64 m * f m))
      with (x + pow64 a * l * wsum f m + pow64 (a + m) * (l * f m)); [done|].
    rewrite pow64_add. ring.
Qed.

(** All the rows, the columns beyond the array left out. *)
Lemma rows_spec cnt (g f : nat -> Z) (cols : nat -> nat) n x res :
  holds cnt x res -> (forall k, is_word (g k)) -> (forall k, is_word (f k)) ->
  (forall a, (cnt - a <= cols a)%nat) ->
  holds cnt (x + wsum g n * wsum f cnt)
    (for_upto n (fun a res =>
       for_upto (cols a) (fun b res =>
         let '(lo, hi) := mul (g a) (f b) in accumulate adc (a + b) cnt lo hi res) res) res).
Proof.
  intros Hr Hg Hf Hc. induction n as [|n IH]; cbn [for_upto wsum].
  - by rewrite Z.mul_0_l, Z.add_0_r.
  - set (r := for_upto n _ res) in *.
    destruct (row_spec cnt n (g n) f (cols n) _ r IH (Hg n) Hf) as (W1 & L1 & V1).
    split_and!; [done|done|]. rewrite V1.
    transitivity (x + wsum g n * wsum f cnt + g n * (pow64 n * wsum f (cnt - n))).
    + rewrite <- (wsum_high f cnt n (cols n)) by apply Hc. cong_ring.
    + rewrite <- (wsum_high f cnt n cnt) by lia. cong_ring.
Qed.
End Product.
