(* ===== verification/VvpArith.v ===== *)
(** Arithmetic on [vvp_vector4_t] ([vvp/vvp_net.cc]): [add], [sub], [mul], the addition
    of a native integer, the conversions to native integers and to and from text. *)
From S2P Require Import Prelude MachineWord VvpBit VvpVector4 VvpSlice WordArith.

(** * Definitions *)

(** The mask [~(-1UL << tail)] of the low [tail] bits. *)
Definition below_mask (tail : nat) : Z := wnot (wshl wones tail).

(** The common tail of [add] and [sub]: the label [x_out].  It writes every word, so the
    words overwritten before the jump do not matter. *)
Definition x_out (v : vvp_vector4_t) : vvp_vector4_t :=
  let cnt := (size v / W)%nat in
  let v := for_upto cnt (step_words (fun _ _ => (wones, wones))) v in
  let tail := (size v mod W)%nat in
  if (0 <? tail)%nat then
    let mask := below_mask tail in
    step_words (fun _ _ => (Z.land wones mask, Z.land wones mask)) cnt v
  else v.

(** The word loop of [add] and [sub], [operand] preparing the words of [that]; [None] is
    the jump to [x_out]. *)
Definition add_loop (operand : Z -> Z) (carry : Z) (v that : vvp_vector4_t) : option (list Z * Z) :=
  for_upto (size v / W)
    (fun idx s => s ← s;
       if negb (Z.lor (word (bbits v) idx) (word (bbits that) idx) =? 0) then None
       else Some (carry_step add_with_carry idx (operand (word (abits that) idx)) s))
    (Some (abits v, carry)).

(** The long case: the loop, then the partial word. *)
Definition add_long (operand : Z -> Z) (carry : Z) (v that : vvp_vector4_t) : vvp_vector4_t :=
  let cnt := (size v / W)%nat in
  match add_loop operand carry v that with
  | None => x_out v
  | Some (a, carry) =>
      let tail := (size v mod W)%nat in
      if (0 <? tail)%nat then
        let mask := below_mask tail in
        if negb (Z.land (Z.lor (word (bbits v) cnt) (word (bbits that) cnt)) mask =? 0) then x_out v
        else
          let '(a, _) := carry_step add_with_carry cnt (operand (word (abits that) cnt)) (a, carry) in
          mkVec4 (size v) (<[cnt := Z.land (word a cnt) mask]> a) (bbits v)
      else mkVec4 (size v) a (bbits v)
  end.

(** The two short cases, [op] being the word operator. *)
Definition arith_short (op : Z -> Z -> Z) (v that : vvp_vector4_t) : vvp_vector4_t :=
  if (size v <? W)%nat then
    let mask := below_mask (size v) in
    if negb (Z.land (Z.lor (bbits_val v) (bbits_val that)) mask =? 0)
    then short (size v) (Z.lor (abits_val v) mask) (Z.lor (bbits_val v) mask)
    else short (size v) (Z.land (op (abits_val v) (abits_val that)) mask) (bbits_val v)
  else
    if negb (Z.lor (bbits_val v) (bbits_val that) =? 0) then short (size v) wones wones
    else short (size v) (op (abits_val v) (abits_val that)) (bbits_val v).

Definition add (v that : vvp_vector4_t) : option vvp_vector4_t :=
  if (size v =? size that)%nat then
    Some (if (size v <=? W)%nat then arith_short wadd v that
          else add_long (fun w => w) 0 v that)
  else None.

Definition sub (v that : vvp_vector4_t) : option vvp_vector4_t :=
  if (size v =? size that)%nat then
    Some (if (size v <=? W)%nat then arith_short wsub v that
          else add_long wnot 1 v that)
  else None.

(** The mask of the last word of a long vector, and a word read through it. *)
Definition last_mask (n : nat) : Z :=
  if (0 <? n mod W)%nat then below_mask (n mod W) else wnot 0.
Definition masked_word (n : nat) (ws : list Z) (idx : nat) : Z :=
  if (idx =? words_for n - 1)%nat then Z.land (word ws idx) (last_mask n) else word ws idx.

(** The result of [mul] with an unknown bit in an operand. *)
Definition mul_x_out (v : vvp_vector4_t) : vvp_vector4_t :=
  let cnt := words_for (size v) in
  step_words (fun _ _ => (Z.land wones (last_mask (size v)), Z.land wones (last_mask (size v)))) (cnt - 1)
    (for_upto (cnt - 1) (step_words (fun _ _ => (wones, wones))) v).

(** The schoolbook product of the words of [v] and [that], in [cnt] words. *)
Definition mul_words (v that : vvp_vector4_t) : list Z :=
  let cnt := words_for (size v) in
  for_upto cnt (fun mul_a res =>
    for_upto (cnt - mul_a) (fun mul_b res =>
      let '(tmp, sum) := multiply_with_carry (masked_word (size v) (abits v) mul_a)
                                             (masked_word (size v) (abits that) mul_b) in
      accumulate add_with_carry (mul_a + mul_b) cnt tmp sum res) res)
    (replicate cnt 0).

(** [mul] of long vectors. *)
Definition mul_long (v that : vvp_vector4_t) : vvp_vector4_t :=
  let cnt := words_for (size v) in
  if existsb (fun idx => negb (masked_word (size v) (bbits v) idx =? 0)
                         || negb (masked_word (size v) (bbits that) idx =? 0)) (seq 0 cnt)
  then mul_x_out v
  else
    let res := mul_words v that in
    let res := <[(cnt - 1)%nat := Z.land (word res (cnt - 1)) (last_mask (size v))]> res in
    mkVec4 (size v) (for_upto cnt (fun idx a => <[idx := word res idx]> a) (abits v)) (bbits v).

Definition mul (v that : vvp_vector4_t) : option vvp_vector4_t :=
  if (size v =? size that)%nat then
    Some (if (size v <=? W)%nat then arith_short wmul v that else mul_long v that)
  else None.

(** [operator += (int64_t)]: bit by bit, [that >>= 1] being arithmetic. *)
Fixpoint add_int_loop (fuel idx : nat) (that : Z) (carry : vvp_bit4_t) (v : vvp_vector4_t)
    : option vvp_vector4_t :=
  match fuel with
  | O => Some v
  | S f =>
      if (that =? 0) && bit4_eqb carry BIT4_0 then Some v else
      let that_bit := if negb (Z.land that 1 =? 0) then BIT4_1 else BIT4_0 in
      let that := Z.shiftr that 1 in
      if bit4_eqb that_bit BIT4_0 && bit4_eqb carry BIT4_0
      then add_int_loop f (idx + 1) that carry v
      else
        '(bit, carry) ← bit4_add_with_carry (value v idx) that_bit carry;
        v ← set_bit v idx bit;
        add_int_loop f (idx + 1) that carry v
  end.

Definition add_int (v : vvp_vector4_t) (that : Z) : option vvp_vector4_t :=
  if has_xz v then Some (copy_from_ (vec4_fill (size v) BIT4_X))
  else add_int_loop (size v) 0 that BIT4_0 v.

(** ** Native integers *)

(** The bit loop of [vector4_to_value<INT>], for a [w]-bit type; [None] is the early
    return on an unknown bit. *)
Fixpoint to_value_loop (w cnt idx : nat) (v : vvp_vector4_t) (is_arithmetic : bool)
    (res msk : Z) (rc_flag : bool) : option (Z * bool) :=
  match cnt with
  | O => Some (res, rc_flag)
  | S c =>
      let next := to_value_loop w c (idx + 1) v is_arithmetic in
      let msk' := (msk * 2) mod 2 ^ Z.of_nat w in
      match value v idx with
      | BIT4_0 => next res msk' rc_flag
      | BIT4_1 => next (Z.lor res msk) msk' rc_flag
      | _ => if is_arithmetic then None else next res msk' false
      end
  end.

(** [vector4_to_value<INT>(vec, val, is_signed, is_arithmetic)]: the return value and the
    new [val] when it is written, as the [w]-bit pattern of the type. *)
Definition vector4_to_value (w : nat) (v : vvp_vector4_t) (is_signed is_arithmetic : bool)
    : bool * option Z :=
  let n := if (w <? size v)%nat then w else size v in
  match to_value_loop w n 0 v is_arithmetic 0 1 true with
  | None => (false, None)
  | Some (res, rc_flag) =>
      let res :=
        if is_signed && negb (size v =? 0)%nat && bit4_eqb (value v (size v - 1)) BIT4_1 then
          if (size v <? w)%nat
          then Z.lor res (wshl wones (size v) mod 2 ^ Z.of_nat w) else res
        else res in
      (rc_flag, Some res)
  end.

(** The reading of a [w]-bit pattern as a signed integer. *)
Definition as_signed (w : nat) (x : Z) : Z :=
  if x <? 2 ^ (Z.of_nat w - 1) then x else x - 2 ^ Z.of_nat w.

(** [vector4_to_value<unsigned long>(vec, overflow_flag, val)]: the return value, the
    overflow flag and the new [val]. *)
Fixpoint to_ulong_loop (cnt idx : nat) (v : vvp_vector4_t) (res msk : Z) (overflow : bool)
    : bool * bool * option Z :=
  match cnt with
  | O => (true, overflow, Some res)
  | S c =>
      let msk' := wshl msk 1 in
      match value v idx with
      | BIT4_0 => to_ulong_loop c (idx + 1) v res msk' overflow
      | BIT4_1 =>
          if msk =? 0 then to_ulong_loop c (idx + 1) v res msk' true
          else to_ulong_loop c (idx + 1) v (Z.lor res msk) msk' overflow
      | _ => (false, overflow, None)
      end
  end.

Definition vector4_to_ulong (v : vvp_vector4_t) : bool * bool * option Z :=
  to_ulong_loop (size v) 0 v 0 1 false.

(** ** Text: [C4<...>], most significant bit first, as character codes *)

Definition bit_char (b : vvp_bit4_t) : Z :=
  match b with BIT4_0 => 48 | BIT4_1 => 49 | BIT4_X => 120 | BIT4_Z => 122 end.

(** A write to byte [p] of the memory [buf] of a caller; [None] when it lies outside. *)
Definition put_char (buf : list Z) (p : nat) (c : Z) : option (list Z) :=
  if (p <? length buf)%nat then Some (<[p := c]> buf) else None.

(** The loop of [as_string]: [cnt] bits from [size-idx-1] down while [buf_len >= 2]; the
    memory and the place of the next character. *)
Fixpoint as_string_loop (cnt : nat) (v : vvp_vector4_t) (buf : list Z) (p : nat) (buf_len : Z) : option (list Z * nat) :=
  match cnt with
  | O => Some (buf, p)
  | S c =>
      if 2 <=? buf_len then
        buf ← put_char buf p (bit_char (value v c));
        as_string_loop c v buf (S p) (buf_len - 1)
      else Some (buf, p)
  end.

(** [as_string(buf, buf_len)]: the memory at [buf] afterwards; the length is a [size_t]. *)
Definition as_string (v : vvp_vector4_t) (buf : list Z) (buf_len : Z) : option (list Z) :=
  buf ← put_char buf 0 67;
  buf ← put_char buf 1 52;
  buf ← put_char buf 2 60;
  '(buf, p) ← as_string_loop (size v) v buf 3 (wsub buf_len 3);
  buf ← put_char buf p 62;
  put_char buf (S p) 0.

Definition is_bit_char (c : Z) : bool := (c =? 48) || (c =? 49) || (c =? 120) || (c =? 122).

(** [strspn(str, "01xz")] on the characters before the terminator. *)
Fixpoint strspn (str : list Z) : nat :=
  match str with
  | c :: str' => if is_bit_char c then S (strspn str') else O
  | [] => O
  end.

(** Character [i] of a C string, the terminator included. *)
Definition char_at (str : list Z) (i : nat) : Z := nth i str 0.

Definition c4string_test (str : list Z) : bool :=
  if negb ((char_at str 0 =? 67) && (char_at str 1 =? 52) && (char_at str 2 =? 60)) then false else
  let value_size := strspn (drop 3 str) in
  if negb (char_at str (3 + value_size) =? 62) then false else
  if negb (char_at str (3 + value_size + 1) =? 0) then false else true.

(** The [switch] of the text readers. *)
Definition char_bit (c : Z) : option vvp_bit4_t :=
  if c =? 48 then Some BIT4_0 else if c =? 49 then Some BIT4_1
  else if c =? 120 then Some BIT4_X else if c =? 122 then Some BIT4_Z else None.

Definition c4string_to_vector4 (str : list Z) : option vvp_vector4_t :=
  if (char_at str 0 =? 67) && (char_at str 1 =? 52) && (char_at str 2 =? 60) then
    let str := drop 3 str in
    let n := strspn str in
    if char_at str n =? 62 then
      for_upto n (fun idx tmp =>
        tmp ← tmp; bit ← char_bit (char_at str idx); set_bit tmp (n - idx - 1) bit)
        (Some (vec4_fill n BIT4_X))
    else None
  else None.

(** [vector4_from_text(bits, wid)]; any other character stands for 0. *)
Definition vector4_from_text (bits : list Z) (wid : nat) : option vvp_vector4_t :=
  for_upto wid (fun idx res =>
    res ← res;
    set_bit res idx (default BIT4_0 (char_bit (char_at bits (wid - idx - 1)))))
    (Some (vec4_fill wid BIT4_X)).

(** * Vectors as numbers *)

(** No unknown bit. *)
Definition known (v : vvp_vector4_t) : Prop :=
  forall i, (i < size v)%nat -> bit4_is_xz (value v i) = false.

(** The unsigned value of a vector without unknown bits. *)
Definition vec_Z (v : vvp_vector4_t) : Z := wval (abits v) mod 2 ^ Z.of_nat (size v).

Lemma known_pb v : wf4 v -> known v <-> forall i, (i < size v)%nat -> pb v i = false.
Proof.
  intros Hv. unfold known. split; intros H i Hi; specialize (H i Hi);
    rewrite is_xz_bbit, value_planes, bbit_of_planes in * by done; done.
Qed.

Lemma vec_Z_range v : 0 <= vec_Z v < 2 ^ Z.of_nat (size v).
Proof. apply Z.mod_pos_bound. apply Z.pow_pos_nonneg; lia. Qed.

(** The bits of the number are the bits of the vector. *)
Lemma vec_Z_bits v i :
  wf4 v -> known v -> (i < size v)%nat ->
  Z.testbit (vec_Z v) (Z.of_nat i) = bit4_eqb (value v i) BIT4_1.
Proof.
  intros Hv Hk Hi. unfold vec_Z. rewrite Z.mod_pow2_bits_low by lia.
  rewrite testbit_wval by apply Hv. rewrite value_planes by done.
  rewrite known_pb in Hk by done. rewrite Hk by done. unfold pa. by destruct (wbit (abits v) i).
Qed.

Lemma vec_Z_ext u v :
  wf4 u -> wf4 v -> size u = size v -> (forall i, (i < size v)%nat -> pa u i = pa v i) ->
  vec_Z u = vec_Z v.
Proof. intros Hu Hv Hs H. unfold vec_Z. rewrite Hs. apply wval_mod_ext; [apply Hu|apply Hv|done]. Qed.

(** The number determines the vector. *)
Lemma vec_Z_inj u v :
  wf4 u -> wf4 v -> known u -> known v -> size u = size v -> vec_Z u = vec_Z v -> same_bits u v.
Proof.
  intros Hu Hv Ku Kv Hs HE. split; [done|]. intros i Hi.
  pose proof (vec_Z_bits u i Hu Ku ltac:(lia)) as B1. pose proof (vec_Z_bits v i Hv Kv Hi) as B2.
  rewrite HE, B2 in B1. specialize (Ku i ltac:(lia)). specialize (Kv i Hi).
  by destruct (value u i), (value v i).
Qed.

Lemma wval_short v : wf4 v -> (size v <= W)%nat -> wval (abits v) = abits_val v.
Proof. intros Hv Hs. destruct (wf4_short_inv v Hv Hs) as (-> & _). unfold abits_val, word. simpl. lia. Qed.

Lemma pow64_pow2 n : pow64 n = 2 ^ Z.of_nat (n * W).
Proof. unfold pow64. f_equal. unfold W. lia. Qed.

Lemma mod_pow_le x a b : (a <= b)%nat -> (x mod 2 ^ Z.of_nat b) mod 2 ^ Z.of_nat a = x mod 2 ^ Z.of_nat a.
Proof.
  intros H. replace (Z.of_nat b) with (Z.of_nat a + Z.of_nat (b - a)) by lia.
  rewrite Z.pow_add_r by lia. assert (0 < 2 ^ Z.of_nat a) by (apply Z.pow_pos_nonneg; lia).
  assert (0 < 2 ^ Z.of_nat (b - a)) by (apply Z.pow_pos_nonneg; lia).
  rewrite Z.rem_mul_r by lia. rewrite (Z.mul_comm (2 ^ Z.of_nat a)), Z.mod_add, Z.mod_mod by lia. done.
Qed.

(** * Addition, subtraction and multiplication *)

(** What the three operations promise, [T] being the exact integer result. *)
Definition arith_result (v that : vvp_vector4_t) (T : Z) (r : vvp_vector4_t) : Prop :=
  wf4 r /\ size r = size v /\
  ((known v /\ known that -> known r /\ vec_Z r = T mod 2 ^ Z.of_nat (size v)) /\
   (~ (known v /\ known that) -> forall i, (i < size v)%nat -> value r i = BIT4_X)).

Lemma below_mask_word t : is_word (below_mask t).
Proof. unfold below_mask. auto with word. Qed.
#[export] Hint Resolve below_mask_word : word.

Lemma tb_below_mask t j : (t < W)%nat -> (j < W)%nat -> tb (below_mask t) j = (j <? t)%nat.
Proof.
  intros Ht Hj. unfold below_mask. rewrite tb_wnot, tb_wshl, tb_wones by auto with word.
  rewrite (proj2 (Nat.ltb_lt _ _) Hj). repeat case_cmp; simpl; (done || lia).
Qed.

Lemma masked_below_0 x t : is_word x -> (t < W)%nat ->
  (Z.land x (below_mask t) =? 0) = true <-> forall j, (j < t)%nat -> tb x j = false.
Proof.
  intros Hx Ht. rewrite word_eq_0 by auto with word. split.
  - intros H j Hj. specialize (H j ltac:(lia)). rewrite tb_land, tb_below_mask in H by lia.
    rewrite (proj2 (Nat.ltb_lt _ _) Hj), andb_true_r in H. done.
  - intros H j Hj. rewrite tb_land, tb_below_mask by done. case_cmp; [|by rewrite andb_false_r].
    by rewrite H.
Qed.

(** Both vectors are known when the OR of the second planes has no bit set. *)
Lemma both_known v that :
  wf4 v -> wf4 that -> size v = size that ->
  (known v /\ known that) <-> forall i, (i < size v)%nat -> pb v i || pb that i = false.
Proof.
  intros Hv Ht Hs. rewrite (known_pb v), (known_pb that) by done. rewrite <- Hs. split.
  - intros [H1 H2] i Hi. by rewrite H1, H2.
  - intros H. split; intros i Hi; specialize (H i Hi); apply orb_false_iff in H; tauto.
Qed.

Lemma arith_known v that T r :
  wf4 v -> size r = size v -> wf4 r -> known v /\ known that ->
  bbits r = bbits v -> vec_Z r = T mod 2 ^ Z.of_nat (size v) -> arith_result v that T r.
Proof.
  intros Hv Hs Hr [Kv Kt] Hb HZ. split_and!; [done|done| |tauto]. intros _. split; [|done].
  rewrite known_pb by done. intros i Hi. unfold pb. rewrite Hb. rewrite Hs in Hi.
  rewrite known_pb in Kv by done. by apply Kv.
Qed.

Lemma arith_unknown v that T r :
  wf4 r -> size r = size v -> ~ (known v /\ known that) ->
  (forall i, (i < size v)%nat -> pa r i = true /\ pb r i = true) -> arith_result v that T r.
Proof.
  intros Hr Hs Hk Hb. split_and!; [done|done|done|]. intros _ i Hi.
  rewrite value_planes by (done || lia). by destruct (Hb i Hi) as [-> ->].
Qed.

(** The short cases, for an operator that is exact modulo 2^64. *)
Lemma arith_short_spec op f v that :
  wf4 v -> wf4 that -> size v = size that -> (size v <= W)%nat ->
  (forall x y, is_word (op x y)) -> (forall x y, op x y = wrap (f x y)) ->
  (forall n x y, f (x mod 2 ^ n) (y mod 2 ^ n) mod 2 ^ n = f x y mod 2 ^ n) ->
  arith_result v that (f (vec_Z v) (vec_Z that)) (arith_short op v that).
Proof.
  intros Hv Ht Hs Hw Hop Hf Hm.
  assert (HV : f (vec_Z v) (vec_Z that) mod 2 ^ Z.of_nat (size v)
             = f (abits_val v) (abits_val that) mod 2 ^ Z.of_nat (size v)).
  { unfold vec_Z. rewrite !wval_short, <- Hs by (done || lia). apply Hm. }
  assert (HO : op (abits_val v) (abits_val that) mod 2 ^ Z.of_nat (size v)
             = f (abits_val v) (abits_val that) mod 2 ^ Z.of_nat (size v)).
  { rewrite Hf. unfold wrap, wordsize. apply (mod_pow_le _ _ 64). unfold W in Hw. lia. }
  destruct (wf4_short_inv v Hv Hw) as (_ & Eb & Wa & Wb).
  assert (Hw' : (size that <= W)%nat) by lia.
  destruct (wf4_short_inv that Ht Hw') as (_ & _ & Wa' & Wb').
  pose proof (both_known v that Hv Ht Hs) as HK.
  unfold arith_short. destruct (Nat.ltb_spec (size v) W) as [Hl|Hl].
  - pose proof (masked_below_0 (Z.lor (bbits_val v) (bbits_val that)) (size v) ltac:(auto with word) Hl) as HM.
    assert (HK2 : (Z.land (Z.lor (bbits_val v) (bbits_val that)) (below_mask (size v)) =? 0) = true
                  <-> known v /\ known that).
    { rewrite HM, HK. split; intros H i Hi; specialize (H i Hi); rewrite tb_lor in *;
        rewrite (pb_short v), (pb_short that) in * by (done || lia); done. }
    destruct (_ =? 0); cbn [negb].
    + apply arith_known; try done; [apply wf4_short; auto with word|by apply HK2|].
      rewrite HV, <- HO. unfold vec_Z, short. cbn [abits size wval]. rewrite Z.mul_0_r, Z.add_0_r.
      apply Z.bits_inj'. intros i Hi. destruct (Z.lt_ge_cases i (Z.of_nat (size v))).
      * rewrite !Z.mod_pow2_bits_low by lia. rewrite <- (Z2Nat.id i) by lia.
        pose proof (tb_land (op (abits_val v) (abits_val that)) (below_mask (size v)) (Z.to_nat i)) as E.
        rewrite tb_below_mask, (proj2 (Nat.ltb_lt (Z.to_nat i) (size v))), andb_true_r in E by lia.
        exact E.
      * by rewrite !Z.mod_pow2_bits_high by lia.
    + apply arith_unknown; try done; [apply wf4_short; auto with word| |].
      { intros H. apply HK2 in H. done. }
      intros i Hi. unfold pa, pb, short. cbn [abits bbits].
      rewrite !wbit_short, !tb_lor, tb_below_mask, (proj2 (Nat.ltb_lt _ _) Hi), !orb_true_r by lia. done.
  - assert (HW : size v = W) by lia.
    pose proof (word_eq_0 (Z.lor (bbits_val v) (bbits_val that)) ltac:(auto with word)) as HM.
    assert (HK2 : (Z.lor (bbits_val v) (bbits_val that) =? 0) = true <-> known v /\ known that).
    { rewrite HM, HK, HW. split; intros H i Hi; specialize (H i Hi); rewrite tb_lor in *;
        rewrite (pb_short v), (pb_short that) in * by (done || lia); done. }
    destruct (_ =? 0); cbn [negb].
    + apply arith_known; try done; [apply wf4_short; auto with word|by apply HK2|].
      rewrite HV, <- HO. unfold vec_Z, short. cbn [abits size wval]. by rewrite Z.mul_0_r, Z.add_0_r.
    + apply arith_unknown; try done; [apply wf4_short; auto with word| |].
      { intros H. apply HK2 in H. done. }
      intros i Hi. unfold pa, pb, short. cbn [abits bbits].
      rewrite !wbit_short, tb_wones by lia. split; apply Nat.ltb_lt; lia.
Qed.

(** A loop left at the first iteration whose test, which the loop does not change, holds. *)
Lemma for_upto_guard {A} n (bad : nat -> bool) (g : nat -> A -> A) s :
  for_upto n (fun k s => s ← s; if bad k then None else Some (g k s)) (Some s)
  = if existsb bad (seq 0 n) then None else Some (for_upto n g s).
Proof.
  induction n as [|n IH]; [done|]. cbn [for_upto]. rewrite IH, seq_S, existsb_app. simpl.
  destruct (existsb bad (seq 0 n)); [done|]. simpl. by destruct (bad n).
Qed.

Lemma existsb_seq_false bad n :
  existsb bad (seq 0 n) = false <-> forall k, (k < n)%nat -> bad k = false.
Proof.
  split.
  - intros E k Hk. destruct (bad k) eqn:Eb; [|done]. rewrite <- E. symmetry.
    apply existsb_exists. exists k. split; [apply in_seq; lia|done].
  - intros H. destruct (existsb bad (seq 0 n)) eqn:E; [|done].
    apply existsb_exists in E as (k & Hk%in_seq & Hb). rewrite H in Hb; [done|lia].
Qed.

Lemma size_for_step f k v : size (for_upto k (step_words f) v) = size v.
Proof. induction k as [|k IH]; [done|]. cbn [for_upto]. unfold step_words at 1.
  by destruct (f _ _). Qed.

Lemma x_out_spec v :
  wf4 v -> (W < size v)%nat ->
  wf4 (x_out v) /\ size (x_out v) = size v /\
  forall i, (i < size v)%nat -> pa (x_out v) i = true /\ pb (x_out v) i = true.
Proof.
  intros Hv Hl. unfold x_out.
  destruct (full_then_tail_words (size v) (fun _ _ => (wones, wones))
    (fun _ _ => (Z.land wones (below_mask (size v mod W)), Z.land wones (below_mask (size v mod W)))) v)
    as (Hw & Es & Hp); [done|done|done|simpl; auto with word..|].
  cbv zeta in *.
  rewrite size_for_step. split_and!; [done|done|]. intros i Hi. specialize (Hp i Hi).
  destruct (div_mod_W_lt (size v) i Hi) as [H1|[H1 H2]].
  - rewrite (proj2 (Nat.ltb_lt _ _) H1) in Hp. destruct Hp as [-> ->].
    rewrite tb_wones, (proj2 (Nat.ltb_lt _ _) (mod_W_lt i)). done.
  - rewrite (proj2 (Nat.ltb_ge _ _)) in Hp by lia. destruct Hp as [-> ->].
    rewrite tb_land, tb_wones, tb_below_mask, (proj2 (Nat.ltb_lt _ _) H2) by apply mod_W_lt.
    by rewrite (proj2 (Nat.ltb_lt _ _) (mod_W_lt i)).
Qed.

(** The unknown-bit tests of a long vector, word by word. *)
Lemma known_by_words v that :
  wf4 v -> wf4 that -> size v = size that ->
  (known v /\ known that) <->
  (forall k, (k < size v / W)%nat -> (Z.lor (word (bbits v) k) (word (bbits that) k) =? 0) = true) /\
  ((0 < size v mod W)%nat ->
   (Z.land (Z.lor (word (bbits v) (size v / W)) (word (bbits that) (size v / W)))
           (below_mask (size v mod W)) =? 0) = true).
Proof.
  intros Hv Ht Hs. rewrite both_known by done.
  rewrite (bits_by_words (size v) (fun i => pb v i || pb that i = false)).
  pose proof (mod_W_lt (size v)) as Hm.
  assert (Wv : forall k, is_word (word (bbits v) k)) by (intros; apply word_is_word, Hv).
  assert (Wt : forall k, is_word (word (bbits that) k)) by (intros; apply word_is_word, Ht).
  assert (H1 : (forall k, (k < size v / W)%nat -> forall j, (j < W)%nat ->
                  pb v (k * W + j) || pb that (k * W + j) = false) <->
               (forall k, (k < size v / W)%nat ->
                  (Z.lor (word (bbits v) k) (word (bbits that) k) =? 0) = true)).
  { split; intros H k Hk; specialize (H k Hk).
    - apply word_eq_0; [auto with word|]. intros j Hj. specialize (H j Hj).
      unfold pb in H. rewrite !wbit_index in H by done. by rewrite tb_lor.
    - intros j Hj. rewrite word_eq_0 in H by auto with word. specialize (H j Hj).
      unfold pb. rewrite !wbit_index by done. by rewrite tb_lor in H. }
  rewrite H1. clear H1. apply and_iff_compat_l. split.
  - intros H Hp. apply masked_below_0; [auto with word|done|]. intros j Hj. specialize (H j Hj).
    unfold pb in H. rewrite !wbit_index in H by lia. by rewrite tb_lor.
  - intros H j Hj. specialize (H ltac:(lia)). rewrite masked_below_0 in H by auto with word.
    specialize (H j Hj). unfold pb. rewrite !wbit_index by lia. by rewrite tb_lor in H.
Qed.

Lemma add_loop_eq operand carry v that :
  add_loop operand carry v that =
  if existsb (fun k => negb (Z.lor (word (bbits v) k) (word (bbits that) k) =? 0)) (seq 0 (size v / W))
  then None
  else Some (for_upto (size v / W)
               (fun k => carry_step add_with_carry (0 + k) (operand (word (abits that) k))) (abits v, carry)).
Proof. unfold add_loop. apply for_upto_guard. Qed.

(** Masking the last word leaves the bits below the size. *)
Lemma mask_last_bits n ws i :
  plane n ws -> (W < n)%nat -> (0 < n mod W)%nat -> (i < n)%nat ->
  wbit (<[(n / W)%nat := Z.land (word ws (n / W)) (below_mask (n mod W))]> ws) i = wbit ws i.
Proof.
  intros Hp Hl Ht Hi. pose proof (tail_index n n (le_n _) Ht) as Hk.
  rewrite (wbit_insert_word n) by (done || by rewrite plane_words_long).
  destruct (Nat.eqb_spec (i / W) (n / W)) as [E|E]; [|done].
  rewrite tb_land, tb_below_mask by apply mod_W_lt.
  destruct (div_mod_W_lt n i Hi) as [H|[_ H]]; [lia|].
  by rewrite (proj2 (Nat.ltb_lt _ _) H), andb_true_r, wbit_word, E.
Qed.

Lemma pow2_divides_pow64 n : (2 ^ Z.of_nat n | pow64 (words_for n)).
Proof.
  rewrite pow64_pow2. exists (2 ^ Z.of_nat (words_for n * W - n)). rewrite <- Z.pow_add_r by lia.
  f_equal. destruct (words_for_cases n) as [[E1 E2]|[E1 E2]]; pose proof (Nat.div_mod_eq n W);
    pose proof (mod_W_lt n); unfold W in *; lia.
Qed.

(** The result of a carry chain over all the words, of which a plane keeps the bits of the
    size. *)
Lemma chain_arith operand carry v that T a :
  wf4 v -> wf4 that -> size v = size that -> (W < size v)%nat ->
  (forall w, is_word w -> is_word (operand w)) -> 0 <= carry <= 1 ->
  (vec_Z v + (wsum (fun k => operand (word (abits that) k)) (words_for (size v)) + carry))
    mod 2 ^ Z.of_nat (size v) = T mod 2 ^ Z.of_nat (size v) ->
  plane (size v) a ->
  (forall i, (i < size v)%nat -> wbit a i =
     wbit (fst (for_upto (words_for (size v))
       (fun k => carry_step add_with_carry (0 + k) (operand (word (abits that) k))) (abits v, carry))) i) ->
  known v /\ known that -> arith_result v that T (mkVec4 (size v) a (bbits v)).
Proof.
  intros Hv Ht Hs Hl Hop Hc HT Hp Hb HK2. set (f := fun k => operand (word (abits that) k)) in *.
  assert (Hf : forall k, is_word (f k)) by (intros k; apply Hop, word_is_word, Ht). set (n := size v) in *.
  assert (Lv : length (abits v) = words_for n) by (rewrite (wf4_a _ Hv); by apply plane_words_long).
  pose proof (chain_spec add_with_carry 0 f (words_for n) (abits v) carry (wf4_wa _ Hv)
    ltac:(auto) Hc ltac:(lia)) as HC.
  change (fun k => carry_step add_with_carry (0 + k) (operand (word (abits that) k)))
    with (fun k => carry_step add_with_carry (0 + k) (f k)) in Hb.
  destruct (for_upto (words_for n) _ _) as [ws' c']. destruct HC as (W1 & L1 & C1 & _ & V1). cbn [fst] in Hb.
  assert (Hr : wf4 (mkVec4 n a (bbits v))).
  { apply wf4_planes. split; [done|]. by apply wf4_planes in Hv as [_ ?]. }
  apply arith_known; try done. fold n. unfold vec_Z at 1. cbn [abits size].
  rewrite (wval_mod_ext a ws' n), <- HT by (apply Hp || done). unfold vec_Z. fold n.
  rewrite Z.add_mod_idemp_l by (apply Z.pow_nonzero; lia).
  rewrite pow64_0, Z.mul_1_l in V1. rewrite <- V1. cbn [Nat.add].
  destruct (pow2_divides_pow64 n) as [q Eq]. rewrite Eq.
  rewrite <- Z.mul_assoc, (Z.mul_comm (2 ^ Z.of_nat n)), Z.mul_assoc.
  rewrite Z.mod_add by (apply Z.pow_nonzero; lia). done.
Qed.

(** The long case computes [v + operand(that) + carry] modulo 2^size. *)
Lemma add_long_spec operand carry v that T :
  wf4 v -> wf4 that -> size v = size that -> (W < size v)%nat ->
  (forall w, is_word w -> is_word (operand w)) -> 0 <= carry <= 1 ->
  (vec_Z v + (wsum (fun k => operand (word (abits that) k)) (words_for (size v)) + carry))
    mod 2 ^ Z.of_nat (size v) = T mod 2 ^ Z.of_nat (size v) ->
  arith_result v that T (add_long operand carry v that).
Proof.
  intros Hv Ht Hs Hl Hop Hc HT. unfold add_long. rewrite add_loop_eq.
  pose proof (known_by_words v that Hv Ht Hs) as HK.
  assert (HX : ~ (known v /\ known that) -> arith_result v that T (x_out v)).
  { intros Hn. destruct (x_out_spec v Hv Hl) as (Wx & Sx & Bx). by apply arith_unknown. }
  destruct (existsb _ _) eqn:Ex.
  { apply HX. intros [H _]%HK. apply existsb_exists in Ex as (k & Hk%in_seq & Hb).
    rewrite H in Hb by lia. done. }
  rewrite existsb_seq_false in Ex.
  pose proof (fun a => chain_arith operand carry v that T a Hv Ht Hs Hl Hop Hc HT) as HR.
  set (f := fun k => operand (word (abits that) k)) in *.
  assert (Hf : forall k, is_word (f k)) by (intros k; apply Hop, word_is_word, Ht). set (n := size v) in *.
  assert (Lv : length (abits v) = words_for n) by (rewrite (wf4_a _ Hv); by apply plane_words_long).
  pose proof (chain_spec add_with_carry 0 f (words_for n) (abits v) carry (wf4_wa _ Hv)
    ltac:(auto) Hc ltac:(lia)) as HC.
  destruct (for_upto (n / W) _ (abits v, carry)) as [a c] eqn:Ea.
  change (for_upto (n / W) (fun k => carry_step add_with_carry (0 + k) (f k)) (abits v, carry) = (a, c)) in Ea.
  change (fun k => carry_step add_with_carry (0 + k) (operand (word (abits that) k)))
    with (fun k => carry_step add_with_carry (0 + k) (f k)) in HR.
  destruct (words_for_cases n) as [[E1 E2]|[E1 E2]].
  - rewrite (proj2 (Nat.ltb_ge 0 (n mod W))) by lia. rewrite E2, Ea in HR, HC. cbn [fst] in HR.
    apply (HR a); [|done|].
    + destruct HC as (W1 & L1 & _). split; [|done]. rewrite L1, (wf4_a _ Hv). done.
    + apply HK. split; [|lia]. intros k Hk. specialize (Ex k Hk). by apply negb_false_iff in Ex.
  - rewrite (proj2 (Nat.ltb_lt 0 (n mod W))) by lia.
    destruct (Z.land _ (below_mask (n mod W)) =? 0) eqn:Et; cbn [negb].
    2:{ apply HX. intros [_ H]%HK. specialize (H E1). congruence. }
    rewrite E2 in HR, HC. cbn [for_upto] in HR, HC. rewrite Ea in HR, HC.
    change (0 + n / W)%nat with (n / W)%nat in HR, HC. fold (f (n / W)%nat).
    destruct (carry_step add_with_carry (n / W) (f (n / W)%nat) (a, c)) as [a' c'].
    cbn [fst] in HR. destruct HC as (W1 & L1 & _).
    assert (Hp : plane n a') by (split; [rewrite L1, (wf4_a _ Hv); done|done]).
    apply HR; [apply plane_insert; auto with word| |].
    + intros i Hi. by apply mask_last_bits.
    + apply HK. split; [|done]. intros k Hk. specialize (Ex k Hk). by apply negb_false_iff in Ex.
Qed.


Lemma pow64_mod_pow2 n x : (x + pow64 (words_for n)) mod 2 ^ Z.of_nat n = x mod 2 ^ Z.of_nat n.
Proof.
  destruct (pow2_divides_pow64 n) as [q ->]. apply Z.mod_add. apply Z.pow_nonzero; lia.
Qed.

Lemma abits_length v : wf4 v -> (W < size v)%nat -> length (abits v) = words_for (size v).
Proof. intros Hv Hl. rewrite (wf4_a _ Hv). by apply plane_words_long. Qed.

Lemma wsum_abits v : wf4 v -> (W < size v)%nat ->
  wsum (word (abits v)) (words_for (size v)) = wval (abits v).
Proof. intros Hv Hl. rewrite <- abits_length by done. apply wsum_word. Qed.

Lemma wsum_wnot ws n : (n <= length ws)%nat -> 
  wsum (fun k => wnot (word ws k)) n = pow64 n - 1 - wsum (word ws) n.
Proof.
  intros H. induction n as [|n IH]; [done|]. cbn [wsum]. rewrite IH by lia.
  rewrite pow64_S. unfold wnot. ring.
Qed.

Lemma add_result v that :
  wf4 v -> wf4 that -> size v = size that ->
  exists r, add v that = Some r /\ arith_result v that (vec_Z v + vec_Z that) r.
Proof.
  intros Hv Ht Hs. unfold add. rewrite (proj2 (Nat.eqb_eq _ _) Hs). eexists. split; [done|].
  case_cmp.
  - apply (arith_short_spec wadd Z.add); try done; [auto with word|].
    intros n x y. destruct (Z.eq_dec (2 ^ n) 0) as [->|]; [by rewrite !Z.mod_0_r|].
    by rewrite <- Z.add_mod.
  - apply add_long_spec; try done. rewrite Z.add_0_r.
    rewrite Hs, wsum_abits, <- Hs by (done || lia). unfold vec_Z. rewrite <- Hs.
    assert (2 ^ Z.of_nat (size v) <> 0) by (apply Z.pow_nonzero; lia).
    by rewrite Z.add_mod_idemp_r.
Qed.

Lemma sub_result v that :
  wf4 v -> wf4 that -> size v = size that ->
  exists r, sub v that = Some r /\ arith_result v that (vec_Z v - vec_Z that) r.
Proof.
  intros Hv Ht Hs. unfold sub. rewrite (proj2 (Nat.eqb_eq _ _) Hs). eexists. split; [done|].
  case_cmp.
  - apply (arith_short_spec wsub Z.sub); try done; [auto with word|].
    intros n x y. symmetry. apply Zminus_mod.
  - apply add_long_spec; try done; [auto with word|].
    rewrite Hs, wsum_wnot, wsum_abits, <- Hs by (rewrite ?abits_length; done || lia).
    unfold vec_Z. rewrite <- Hs.
    assert (2 ^ Z.of_nat (size v) <> 0) by (apply Z.pow_nonzero; lia).
    rewrite Zminus_mod_idemp_r.
    rewrite <- (pow64_mod_pow2 (size v) (_ - wval (abits that))). f_equal. ring.
Qed.

(** The last word read through its mask. *)
Lemma last_mask_word n : is_word (last_mask n).
Proof. unfold last_mask. case_cmp; auto with word. Qed.
#[export] Hint Resolve last_mask_word : word.

Lemma masked_word_word n ws k : words ws -> is_word (masked_word n ws k).
Proof. intros H. pose proof (word_is_word ws k H). unfold masked_word. case_cmp; auto with word. Qed.

Lemma last_word_index n ws : plane n ws -> (W < n)%nat -> (words_for n - 1 < length ws)%nat.
Proof.
  intros Hp Hl. rewrite (proj1 Hp). pose proof (plane_index n 0 ltac:(lia)) as H.
  rewrite plane_words_long in * by done. lia.
Qed.

(** Masking the last word of a plane leaves the bits below the size. *)
Lemma mask_last_word n ws i :
  plane n ws -> (W < n)%nat -> (i < n)%nat ->
  wbit (<[(words_for n - 1)%nat := Z.land (word ws (words_for n - 1)) (last_mask n)]> ws) i = wbit ws i.
Proof.
  intros Hp Hl Hi. pose proof (last_word_index n ws Hp Hl) as Hpos. revert Hpos.
  unfold last_mask. destruct (words_for_cases n) as [[E1 ->]|[E1 ->]]; intros Hpos.
  - rewrite (proj2 (Nat.ltb_ge _ _)) by lia.
    assert (E : Z.land (word ws (n / W - 1)) (wnot 0) = word ws (n / W - 1)).
    { pose proof (word_is_word ws (n / W - 1) (proj2 Hp)).
      apply tb_ext; [auto with word..|]. intros j Hj. rewrite tb_land, tb_wnot by auto with word.
      rewrite (proj2 (Nat.ltb_lt _ _) Hj). unfold tb at 2. by rewrite Z.bits_0, andb_true_r. }
    rewrite E, wbit_insert by done. destruct (Nat.eqb_spec (i / W) (n / W - 1)) as [E2|E2]; [|done].
    by rewrite wbit_word, E2.
  - rewrite (proj2 (Nat.ltb_lt _ _)) by lia.
    replace (S (n / W) - 1)%nat with (n / W)%nat by lia. by apply mask_last_bits.
Qed.

(** So the words read through the mask stand for the vector. *)
Lemma wsum_masked n ws :
  plane n ws -> (W < n)%nat ->
  wsum (masked_word n ws) (words_for n) mod 2 ^ Z.of_nat n = wval ws mod 2 ^ Z.of_nat n.
Proof.
  intros Hp Hl. assert (L : length ws = words_for n) by (rewrite (proj1 Hp); by apply plane_words_long).
  set (ws' := <[(words_for n - 1)%nat := Z.land (word ws (words_for n - 1)) (last_mask n)]> ws).
  assert (Hw' : words ws').
  { apply (plane_insert n); [done|]. pose proof (word_is_word ws (words_for n - 1) (proj2 Hp)). auto with word. }
  pose proof (last_word_index n ws Hp Hl) as Hpos.
  assert (E : wsum (masked_word n ws) (words_for n) = wval ws').
  { rewrite <- wsum_word. unfold ws' at 2. rewrite length_insert, L. apply wsum_ext. intros k Hk.
    unfold ws', masked_word. rewrite word_insert by done. case_cmp; [by subst|done]. }
  rewrite E. apply wval_mod_ext; [done|apply Hp|]. intros i Hi. by apply mask_last_word.
Qed.

(** The unknown-bit test of [mul] on one vector. *)
Lemma masked_known v :
  wf4 v -> (W < size v)%nat ->
  known v <-> forall k, (k < words_for (size v))%nat -> (masked_word (size v) (bbits v) k =? 0) = true.
Proof.
  intros Hv Hl. assert (known v <-> known v /\ known v) as -> by tauto.
  rewrite known_by_words by done. setoid_rewrite Z.lor_diag.
  unfold masked_word, last_mask. destruct (words_for_cases (size v)) as [[E1 E2]|[E1 E2]]; rewrite E2.
  - rewrite (proj2 (Nat.ltb_ge _ _)) by lia. split; [intros [H _]|intros H; split; [|lia]]; intros k Hk.
    + specialize (H k Hk). apply Z.eqb_eq in H. rewrite H. by destruct (Nat.eqb k _).
    + specialize (H k Hk). apply Z.eqb_eq in H. pose proof (word_is_word (bbits v) k (wf4_wb _ Hv)) as Hw.
      apply word_eq_0; [done|]. intros j Hj. apply (f_equal (fun x => tb x j)) in H.
      assert (E0 : tb 0 j = false) by (unfold tb; apply Z.bits_0). rewrite E0 in H.
      destruct (Nat.eqb k _); [|done]. rewrite tb_land, tb_wnot, E0, (proj2 (Nat.ltb_lt _ _) Hj), andb_true_r in H
        by auto with word. done.
  - rewrite (proj2 (Nat.ltb_lt 0 _)) by lia. replace (S (size v / W) - 1)%nat with (size v / W)%nat by lia.
    split.
    + intros [H1 H2] k Hk. destruct (Nat.eqb_spec k (size v / W)) as [->|]; [by apply H2|]. apply H1. lia.
    + intros H. split; [intros k Hk|intros _].
      * specialize (H k ltac:(lia)). by rewrite (proj2 (Nat.eqb_neq k _)) in H by lia.
      * specialize (H (size v / W)%nat ltac:(lia)). by rewrite Nat.eqb_refl in H.
Qed.

(** [mul] writes its unknown result like [add] and [sub]. *)
Lemma mul_x_out_eq v : wf4 v -> (W < size v)%nat -> mul_x_out v = x_out v.
Proof.
  intros Hv Hl. unfold mul_x_out, x_out, last_mask. rewrite size_for_step. destruct (words_for_cases (size v)) as [[E1 ->]|[E1 ->]].
  - rewrite !(proj2 (Nat.ltb_ge _ _)) by lia.
    assert (Z.land wones (wnot 0) = wones) as -> by reflexivity.
    pose proof (Nat.div_mod_eq (size v) W).
    destruct (size v / W)%nat as [|c]; [lia|]. by rewrite Nat.sub_succ, Nat.sub_0_r.
  - rewrite !(proj2 (Nat.ltb_lt 0 _)) by lia. by rewrite Nat.sub_succ, Nat.sub_0_r.
Qed.

(** The words of the product. *)
Lemma mul_words_spec v that :
  wf4 v -> wf4 that -> size v = size that -> (W < size v)%nat ->
  let res := mul_words v that in
  words res /\ length res = words_for (size v) /\
  wval res mod 2 ^ Z.of_nat (size v) = (vec_Z v * vec_Z that) mod 2 ^ Z.of_nat (size v).
Proof.
  intros Hv Ht Hs Hl. set (n := size v) in *. cbv zeta.
  destruct (rows_spec add_with_carry multiply_with_carry (words_for n)
    (masked_word n (abits v)) (masked_word n (abits that))
    (fun a => words_for n - a)%nat (words_for n) 0 (replicate (words_for n) 0)) as (W1 & L1 & [V1]).
  - split_and!; [apply Forall_replicate; auto with word|by rewrite length_replicate|].
    split. f_equal. clear. induction (words_for n) as [|m IH]; [done|]. cbn [replicate wval]. lia.
  - intros k. apply masked_word_word, Hv.
  - intros k. apply masked_word_word, Ht.
  - intros a. lia.
  - split_and!; [done|done|].
    destruct (pow2_divides_pow64 n) as [q Hq].
    assert (E : forall x y, x mod pow64 (words_for n) = y mod pow64 (words_for n) ->
                x mod 2 ^ Z.of_nat n = y mod 2 ^ Z.of_nat n).
    { intros x y H. assert (0 < 2 ^ Z.of_nat n) by (apply Z.pow_pos_nonneg; lia).
      pose proof (pow64_pos (words_for n)).
      assert (H2 : forall z, z mod 2 ^ Z.of_nat n = (z mod pow64 (words_for n)) mod 2 ^ Z.of_nat n).
      { intros z. rewrite Hq at 1. rewrite (Z.mul_comm q), Z.rem_mul_r by nia.
        rewrite (Z.mul_comm (2 ^ Z.of_nat n)), Z.mod_add, Z.mod_mod by lia. done. }
      by rewrite (H2 x), (H2 y), H. }
    unfold mul_words. fold n. rewrite (E _ _ V1), Z.add_0_l.
    assert (2 ^ Z.of_nat n <> 0) by (apply Z.pow_nonzero; lia).
    assert (plane n (abits v)) by (by apply wf4_planes in Hv as []).
    assert (plane n (abits that)) by (subst n; rewrite Hs; by apply wf4_planes in Ht as []).
    rewrite Z.mul_mod, !wsum_masked by done.
    unfold vec_Z. rewrite <- Hs. done.
Qed.

Lemma mul_long_spec v that :
  wf4 v -> wf4 that -> size v = size that -> (W < size v)%nat ->
  arith_result v that (vec_Z v * vec_Z that) (mul_long v that).
Proof.
  intros Hv Ht Hs Hl. unfold mul_long.
  pose proof (masked_known v Hv Hl) as K1. pose proof (masked_known that Ht ltac:(lia)) as K2.
  rewrite <- Hs in K2. destruct (existsb _ _) eqn:Ex.
  - rewrite mul_x_out_eq by done. destruct (x_out_spec v Hv Hl) as (Wx & Sx & Bx).
    apply arith_unknown; try done. intros [H1 H2].
    apply existsb_exists in Ex as (k & Hk%in_seq & Hb). rewrite K1 in H1. rewrite K2 in H2.
    rewrite H1, H2 in Hb by lia. done.
  - rewrite existsb_seq_false in Ex.
    destruct (mul_words_spec v that Hv Ht Hs Hl) as (W1 & L1 & V1).
    set (res := mul_words v that) in *. set (n := size v) in *.
    assert (Hp : plane n res) by (split; [by rewrite plane_words_long|done]).
    set (res' := <[(words_for n - 1)%nat := Z.land (word res (words_for n - 1)) (last_mask n)]> res).
    assert (Hp' : plane n res').
    { apply plane_insert; [done|]. pose proof (word_is_word res (words_for n - 1) W1). auto with word. }
    assert (E : for_upto (words_for n) (fun idx a => <[idx := word res' idx]> a) (abits v) = res').
    { pose proof (abits_length v Hv Hl) as L. fold n in L.
      destruct (for_insert (words_for n) (word res') (abits v)) as [L2 H2]; [lia|].
      apply word_ext; [rewrite L2; unfold res'; rewrite length_insert; lia|].
      intros k Hk. rewrite H2. by rewrite (proj2 (Nat.ltb_lt _ _)) by lia. }
    rewrite E. apply arith_known; try done.
    + apply wf4_planes. split; [done|]. by apply wf4_planes in Hv as [_ ?].
    + rewrite K1, K2. split; intros k Hk; specialize (Ex k Hk); apply orb_false_iff in Ex as [E1 E2];
        by apply negb_false_iff.
    + unfold vec_Z at 1. cbn [abits size]. fold n. rewrite <- V1.
      apply wval_mod_ext; [apply Hp'|done|]. intros i Hi. by apply mask_last_word.
Qed.

Lemma mul_result v that :
  wf4 v -> wf4 that -> size v = size that ->
  exists r, mul v that = Some r /\ arith_result v that (vec_Z v * vec_Z that) r.
Proof.
  intros Hv Ht Hs. unfold mul. rewrite (proj2 (Nat.eqb_eq _ _) Hs). eexists. split; [done|].
  case_cmp.
  - apply (arith_short_spec wmul Z.mul); try done; [auto with word|].
    intros n x y. destruct (Z.eq_dec (2 ^ n) 0) as [->|]; [by rewrite !Z.mod_0_r|].
    by rewrite <- Z.mul_mod.
  - by apply mul_long_spec.
Qed.

(** * Vectors bit by bit *)

(** The number of the bits that are 1 among the first [n]. *)
Definition bit1 (b : vvp_bit4_t) : Z := if bit4_eqb b BIT4_1 then 1 else 0.
Fixpoint bit_sum (f : nat -> vvp_bit4_t) (n : nat) : Z :=
  match n with
  | O => 0
  | S k => bit_sum f k + 2 ^ Z.of_nat k * bit1 (f k)
  end.

Lemma bit1_range b : 0 <= bit1 b <= 1.
Proof. by destruct b. Qed.

Lemma bit_sum_bound f n : 0 <= bit_sum f n < 2 ^ Z.of_nat n.
Proof.
  induction n as [|n IH]; [done|]. cbn [bit_sum]. pose proof (bit1_range (f n)).
  rewrite Nat2Z.inj_succ, Z.pow_succ_r by lia. nia.
Qed.

Lemma bit_sum_ext f g n : (forall i, (i < n)%nat -> f i = g i) -> bit_sum f n = bit_sum g n.
Proof. intros H. induction n as [|n IH]; [done|]. cbn [bit_sum]. rewrite IH, H by auto. done. Qed.

(** Changing one bit. *)
Lemma bit_sum_update f n k b :
  (k < n)%nat ->
  bit_sum (fun i => if (i =? k)%nat then b else f i) n = bit_sum f n + 2 ^ Z.of_nat k * (bit1 b - bit1 (f k)).
Proof.
  induction n as [|n IH]; intros Hk; [lia|]. cbn [bit_sum].
  destruct (Nat.eq_dec k n) as [->|Hne].
  - rewrite Nat.eqb_refl, (bit_sum_ext _ f); [lia|]. intros i Hi. case_cmp; [lia|done].
  - rewrite IH by lia. rewrite (proj2 (Nat.eqb_neq n k)) by lia. lia.
Qed.

Lemma bit_sum_split f n m :
  bit_sum f (n + m) = bit_sum f n + 2 ^ Z.of_nat n * bit_sum (fun i => f (n + i)%nat) m.
Proof.
  induction m as [|m IH]; cbn [bit_sum]; [rewrite Nat.add_0_r; lia|].
  rewrite Nat.add_succ_r. cbn [bit_sum]. rewrite IH, Nat2Z.inj_add, Z.pow_add_r by lia. lia.
Qed.

Lemma bit_sum_mod f n m :
  (n <= m)%nat -> bit_sum f m mod 2 ^ Z.of_nat n = bit_sum f n.
Proof.
  intros H. replace m with (n + (m - n))%nat by lia. rewrite bit_sum_split.
  rewrite (Z.mul_comm (2 ^ _)), Z.mod_add by (apply Z.pow_nonzero; lia).
  apply Z.mod_small, bit_sum_bound.
Qed.

Lemma mod_pow_S x n :
  x mod 2 ^ Z.of_nat (S n) = x mod 2 ^ Z.of_nat n + 2 ^ Z.of_nat n * b2z (Z.testbit x (Z.of_nat n)).
Proof.
  rewrite Nat2Z.inj_succ, Z.pow_succ_r, (Z.mul_comm 2) by lia.
  assert (0 < 2 ^ Z.of_nat n) by (apply Z.pow_pos_nonneg; lia).
  rewrite Z.rem_mul_r by lia. f_equal. f_equal. rewrite <- Z.shiftr_div_pow2 by lia.
  rewrite <- Z.bit0_mod, Z.shiftr_spec by lia. rewrite Z.add_0_l. by destruct (Z.testbit _ _).
Qed.

(** The value of a known vector is the sum of its bits. *)
Lemma vec_Z_sum v : wf4 v -> known v -> vec_Z v = bit_sum (value v) (size v).
Proof.
  intros Hv Hk.
  assert (H : forall n, (n <= size v)%nat -> vec_Z v mod 2 ^ Z.of_nat n = bit_sum (value v) n).
  { induction n as [|n IH]; intros Hn; [apply Z.mod_1_r|].
    rewrite mod_pow_S, IH by lia. cbn [bit_sum]. rewrite vec_Z_bits by (done || lia).
    unfold bit1. by destruct (bit4_eqb _ _). }
  rewrite <- H by done. symmetry. apply Z.mod_small, vec_Z_range.
Qed.

(** Writing a known bit. *)
Lemma vec_Z_set_bit v k b r :
  wf4 v -> known v -> (k < size v)%nat -> bit4_is_xz b = false ->
  set_bit v k b = Some r ->
  wf4 r /\ size r = size v /\ known r /\
  vec_Z r = vec_Z v + 2 ^ Z.of_nat k * (bit1 b - bit1 (value v k)).
Proof.
  intros Hv Hk Hi Hb Hr. destruct (set_bit_spec v k b Hv Hi) as (r' & E & Hw & Hs & HV).
  assert (r' = r) as -> by congruence. clear E.
  assert (Hkr : known r).
  { intros i Hi'. rewrite HV. destruct (Nat.eqb i k); [done|]. apply Hk. lia. }
  split_and!; try done. rewrite !vec_Z_sum, Hs by done.
  rewrite <- bit_sum_update by done. apply bit_sum_ext. intros i _. apply HV.
Qed.

(** The full adder on known bits. *)
Lemma bit4_adc_known a b c :
  bit4_is_xz a = false -> bit4_is_xz b = false -> bit4_is_xz c = false ->
  exists s c', bit4_add_with_carry a b c = Some (s, c') /\
    bit4_is_xz s = false /\ bit4_is_xz c' = false /\
    bit1 s + 2 * bit1 c' = bit1 a + bit1 b + bit1 c.
Proof. destruct a, b, c; try done; intros _ _ _; do 2 eexists; by split_and!. Qed.

Lemma land_1_bit x : x = 2 * Z.shiftr x 1 + (if negb (Z.land x 1 =? 0) then 1 else 0).
Proof.
  change 1 with (Z.ones 1) at 2. rewrite Z.land_ones, Z.shiftr_div_pow2 by lia.
  change (2 ^ 1) with 2. pose proof (Z.div_mod x 2). pose proof (Z.mod_pos_bound x 2).
  destruct (Z.eqb_spec (x mod 2) 0); simpl; lia.
Qed.

Lemma add_int_loop_spec fuel idx that carry v :
  wf4 v -> known v -> (idx + fuel = size v)%nat -> bit4_is_xz carry = false ->
  exists r, add_int_loop fuel idx that carry v = Some r /\ wf4 r /\ size r = size v /\ known r /\
    vec_Z r = (vec_Z v + 2 ^ Z.of_nat idx * (that + bit1 carry)) mod 2 ^ Z.of_nat (size v).
Proof.
  revert idx that carry v. induction fuel as [|fuel IH]; intros idx that carry v Hv Hk Hn Hc; cbn [add_int_loop].
  - exists v. split_and!; try done. replace idx with (size v) by lia.
    rewrite (Z.mul_comm (2 ^ _)), Z.mod_add by (apply Z.pow_nonzero; lia).
    symmetry. apply Z.mod_small, vec_Z_range.
  - destruct ((that =? 0) && bit4_eqb carry BIT4_0) eqn:E0.
    { apply andb_true_iff in E0 as [E1%Z.eqb_eq E2]. subst that. exists v. split_and!; try done.
      destruct carry; try done. rewrite Z.mul_0_r, Z.add_0_r. symmetry. apply Z.mod_small, vec_Z_range. }
    clear E0. pose proof (land_1_bit that) as HT. set (t := Z.shiftr that 1) in *.
    set (tb := if negb (Z.land that 1 =? 0) then BIT4_1 else BIT4_0) in *.
    assert (Htb : bit4_is_xz tb = false) by (unfold tb; by destruct (negb _)).
    assert (HT' : that = 2 * t + bit1 tb) by (rewrite HT at 1; unfold tb; by destruct (negb _)).
    assert (Hp : 2 ^ Z.of_nat (idx + 1) = 2 * 2 ^ Z.of_nat idx).
    { rewrite Nat2Z.inj_add, Z.pow_add_r by lia. lia. }
    destruct (bit4_eqb tb BIT4_0 && bit4_eqb carry BIT4_0) eqn:E0.
    + destruct (IH (idx + 1)%nat t carry v Hv Hk ltac:(lia) Hc) as (r & -> & Hr). exists r. split; [done|].
      destruct Hr as (? & ? & ? & ->). split_and!; try done. f_equal. rewrite Hp, HT'.
      apply andb_true_iff in E0 as [E1 E2]. destruct tb, carry; try done. unfold bit1. simpl. lia.
    + destruct (bit4_adc_known (value v idx) tb carry (Hk idx ltac:(lia)) Htb Hc)
        as (s & c' & -> & Hs & Hc' & HS). simpl.
      destruct (set_bit_spec v idx s Hv ltac:(lia)) as (v' & E & _). rewrite E. simpl.
      destruct (vec_Z_set_bit v idx s v' Hv Hk ltac:(lia) Hs E) as (Hw & Hsz & Hk' & HZ).
      destruct (IH (idx + 1)%nat t c' v' Hw Hk' ltac:(lia) Hc') as (r & -> & Wr & Sr & Kr & HR).
      exists r. split_and!; try done; [congruence|]. rewrite HR, HZ, Hp, Hsz. f_equal. rewrite HT'.
      nia.
Qed.

(** [operator += (int64_t)] adds modulo 2^size, and gives all X on an unknown bit. *)
Lemma add_int_result v that :
  wf4 v -> (0 < size v)%nat ->
  exists r, add_int v that = Some r /\ wf4 r /\ size r = size v /\
    (known v -> known r /\ vec_Z r = (vec_Z v + that) mod 2 ^ Z.of_nat (size v)) /\
    (~ known v -> forall i, (i < size v)%nat -> value r i = BIT4_X).
Proof.
  intros Hv Hp. unfold add_int. pose proof (has_xz_spec v Hv Hp) as HX. destruct (has_xz v).
  - destruct (vec4_fill_spec (size v) BIT4_X) as (Wf & Sf & Vf).
    rewrite copy_from_spec by done. eexists. split_and!; [done|done|congruence| |].
    + intros Hk. destruct (proj1 HX eq_refl) as (i & Hi & E). specialize (Hk i Hi). congruence.
    + intros _ i Hi. by apply Vf.
  - assert (Hk : known v).
    { intros i Hi. destruct (bit4_is_xz (value v i)) eqn:E; [|done].
      assert (false = true) by (apply HX; eauto). done. }
    destruct (add_int_loop_spec (size v) 0 that BIT4_0 v Hv Hk eq_refl eq_refl) as (r & E & Wr & Sr & Kr & HZ).
    exists r. split_and!; try done. intros _. split; [done|]. rewrite HZ. f_equal.
    unfold bit1. simpl. lia.
Qed.

(** * Native integers *)

Lemma wshl_double x : is_word x -> wshl x 1 = (x * 2) mod wordsize.
Proof. intros H. unfold wshl, wrap. simpl. rewrite Z.shiftl_mul_pow2 by lia. done. Qed.

(** Setting a bit above the value. *)
Lemma lor_add_pow2 x n : 0 <= x < 2 ^ Z.of_nat n -> Z.lor x (2 ^ Z.of_nat n) = x + 2 ^ Z.of_nat n.
Proof.
  intros Hx. rewrite <- Z.lxor_lor; [symmetry; apply Z.add_nocarry_lxor|];
    apply Z.bits_inj'; intros i Hi; rewrite Z.land_spec, Z.bits_0, Z.pow2_bits_eqb by lia;
    destruct (Z.eqb_spec (Z.of_nat n) i) as [<-|]; rewrite ?andb_false_r; try done;
    rewrite <- (Z.mod_small x (2 ^ Z.of_nat n)) by done; rewrite Z.mod_pow2_bits_high by lia; done.
Qed.

(** Some bit among the [n] from [idx] is unknown. *)
Definition unknown_in (v : vvp_vector4_t) (idx n : nat) : bool :=
  existsb (fun i => bit4_is_xz (value v (idx + i))) (seq 0 n).

Lemma unknown_in_S v idx n :
  unknown_in v idx (S n) = bit4_is_xz (value v idx) || unknown_in v (idx + 1) n.
Proof.
  unfold unknown_in. cbn [seq existsb]. rewrite Nat.add_0_r. f_equal.
  assert (H : forall a, existsb (fun i => bit4_is_xz (value v (idx + i))) (seq (S a) n)
                        = existsb (fun i => bit4_is_xz (value v (idx + 1 + i))) (seq a n)); [|apply H].
  induction n as [|n IH]; intros a; [done|]. cbn [seq existsb].
  rewrite IH. by replace (idx + 1 + a)%nat with (idx + S a)%nat by lia.
Qed.

Lemma known_unknown_in v n : known v -> (n <= size v)%nat -> unknown_in v 0 n = false.
Proof.
  intros Hk Hn. unfold unknown_in. apply existsb_seq_false. intros i Hi. apply Hk. lia.
Qed.

Lemma to_value_loop_spec w cnt idx v arith res rc :
  (idx + cnt <= w)%nat -> 0 <= res < 2 ^ Z.of_nat idx ->
  to_value_loop w cnt idx v arith res (2 ^ Z.of_nat idx mod 2 ^ Z.of_nat w) rc =
  if arith && unknown_in v idx cnt then None
  else Some (res + 2 ^ Z.of_nat idx * bit_sum (fun i => value v (idx + i)) cnt,
             rc && negb (unknown_in v idx cnt)).
Proof.
  revert idx res rc. induction cnt as [|cnt IH]; intros idx res rc Hw Hr.
  { cbn. rewrite andb_false_r, andb_true_r, Z.mul_0_r, Z.add_0_r. done. }
  cbn [to_value_loop]. rewrite unknown_in_S.
  assert (Hp : 2 ^ Z.of_nat (idx + 1) = 2 * 2 ^ Z.of_nat idx).
  { rewrite Nat2Z.inj_add, Z.pow_add_r by lia. lia. }
  assert (0 < 2 ^ Z.of_nat idx) by (apply Z.pow_pos_nonneg; lia).
  assert (Em : 2 ^ Z.of_nat idx mod 2 ^ Z.of_nat w = 2 ^ Z.of_nat idx).
  { apply Z.mod_small. split; [lia|]. apply Z.pow_lt_mono_r; lia. }
  assert (Hm : ((2 ^ Z.of_nat idx mod 2 ^ Z.of_nat w) * 2) mod 2 ^ Z.of_nat w
               = 2 ^ Z.of_nat (idx + 1) mod 2 ^ Z.of_nat w).
  { rewrite Em, Hp. f_equal. lia. }
  rewrite Hm, Em.
  assert (HB : bit_sum (fun i => value v (idx + i)%nat) (S cnt)
               = bit1 (value v idx) + 2 * bit_sum (fun i => value v (idx + 1 + i)%nat) cnt).
  { change (S cnt) with (1 + cnt)%nat. rewrite bit_sum_split. cbn [bit_sum]. rewrite Nat.add_0_r.
    rewrite (bit_sum_ext _ (fun i => value v (idx + 1 + i)%nat)); [lia|].
    intros i _. f_equal. lia. }
  rewrite HB, lor_add_pow2 by done.
  destruct (value v idx) eqn:E; cbn [bit4_is_xz orb andb].
  - rewrite IH by lia. destruct (arith && _); [done|]. do 2 f_equal. unfold bit1. simpl. lia.
  - rewrite IH by lia. destruct (arith && _); [done|]. do 2 f_equal. unfold bit1. simpl. lia.
  - destruct arith; [done|]. rewrite IH by lia. cbn [andb negb]. rewrite andb_false_r.
    do 2 f_equal. unfold bit1. simpl. lia.
  - destruct arith; [done|]. rewrite IH by lia. cbn [andb negb]. rewrite andb_false_r.
    do 2 f_equal. unfold bit1. simpl. lia.
Qed.

(** The sign bits of a narrow vector. *)
Lemma sign_fill w n x :
  (n < w <= W)%nat -> 0 <= x < 2 ^ Z.of_nat n ->
  Z.lor x (wshl wones n mod 2 ^ Z.of_nat w) = (x - 2 ^ Z.of_nat n) mod 2 ^ Z.of_nat w.
Proof.
  intros Hn Hx.
  assert (HE : forall i, 0 <= i < Z.of_nat w ->
    Z.testbit (Z.lor x (wshl wones n mod 2 ^ Z.of_nat w)) i = Z.testbit x i || (Z.of_nat n <=? i)).
  { intros i Hi. rewrite Z.lor_spec, Z.mod_pow2_bits_low by lia. f_equal.
    pose proof (tb_wshl wones n (Z.to_nat i)) as H.
    unfold tb in H. rewrite Z2Nat.id in H by lia. rewrite H by (auto with word; lia). 
    destruct (Z.leb_spec (Z.of_nat n) i).
    - pose proof (tb_wones (Z.to_nat i - n)) as H1. unfold tb in H1.
      destruct (Nat.ltb_spec (Z.to_nat i) W); [|unfold W in *; lia].
      destruct (Nat.leb_spec n (Z.to_nat i)); [|lia]. rewrite H1. apply Nat.ltb_lt. lia.
    - destruct (Nat.leb_spec n (Z.to_nat i)); [lia|]. by rewrite andb_false_r. }
  apply Z.bits_inj'. intros i Hi. destruct (Z.lt_ge_cases i (Z.of_nat w)).
  - rewrite HE by lia. rewrite Z.mod_pow2_bits_low by lia.
    replace (x - 2 ^ Z.of_nat n) with (x + (-1) * 2 ^ Z.of_nat n) by lia.
    destruct (Z.leb_spec (Z.of_nat n) i).
    + rewrite orb_true_r. replace i with (i - Z.of_nat n + Z.of_nat n) by lia.
      rewrite <- Z.div_pow2_bits, Z.div_add, Z.div_small by (done || lia). 
      rewrite Z.add_0_l, Z.bits_m1 by lia. done.
    + rewrite orb_false_r, <- (Z.mod_pow2_bits_low (x + -1 * _) (Z.of_nat n) i), Z.mod_add by
        (try apply Z.pow_nonzero; lia). by rewrite Z.mod_pow2_bits_low by lia.
  - rewrite Z.mod_pow2_bits_high by lia. rewrite Z.lor_spec, Z.mod_pow2_bits_high, orb_false_r by lia.
    rewrite <- (Z.mod_small x (2 ^ Z.of_nat n)) by done. apply Z.mod_pow2_bits_high. lia.
Qed.

(** The number a vector stands for in the conversions, unknown bits counting as 0. *)
Definition signed_sum (is_signed : bool) (v : vvp_vector4_t) : Z :=
  bit_sum (value v) (size v)
  - (if is_signed && bit4_eqb (value v (size v - 1)) BIT4_1 then 2 ^ Z.of_nat (size v) else 0).

(** [vector4_to_value<INT>] of a [w]-bit type. *)
Lemma vector4_to_value_result w v is_signed is_arithmetic :
  (0 < w <= W)%nat -> (0 < size v)%nat ->
  vector4_to_value w v is_signed is_arithmetic =
  let u := unknown_in v 0 (size v `min` w) in
  if is_arithmetic && u then (false, None)
  else (negb u, Some (signed_sum is_signed v mod 2 ^ Z.of_nat w)).
Proof.
  intros Hw Hp. unfold vector4_to_value.
  assert (En : (if (w <? size v)%nat then w else size v) = (size v `min` w)%nat) by (case_cmp; lia).
  rewrite En. assert (E1 : 2 ^ Z.of_nat 0 mod 2 ^ Z.of_nat w = 1).
  { apply Z.mod_small. split; [lia|]. apply (Z.pow_lt_mono_r 2 0); lia. }
  rewrite <- E1 at 1. rewrite to_value_loop_spec by (simpl; lia). change (2 ^ Z.of_nat 0) with 1.
  cbv zeta. destruct (is_arithmetic && _); [done|]. do 2 f_equal.
  rewrite Z.add_0_l, Z.mul_1_l, (proj2 (Nat.eqb_neq _ _)) by lia. cbn [negb]. rewrite andb_true_r.
  unfold signed_sum. destruct (Nat.le_gt_cases w (size v)) as [Hl|Hl].
  - rewrite (proj2 (Nat.ltb_ge (size v) w)), Nat.min_r by lia.
    assert (EL : forall b : bool, (if b then bit_sum (value v) w else bit_sum (value v) w) = bit_sum (value v) w)
      by (by intros []).
    change (fun i : nat => value v (0 + i)) with (value v). rewrite EL.
    rewrite <- (bit_sum_mod (value v) w (size v)) by lia.
    destruct (is_signed && _); [|by rewrite Z.sub_0_r].
    replace (Z.of_nat (size v)) with (Z.of_nat (size v - w) + Z.of_nat w) by lia.
    rewrite Z.pow_add_r by lia. rewrite <- Z.add_opp_r, <- Z.mul_opp_l, Z.mod_add; [done|].
    apply Z.pow_nonzero; lia.
  - rewrite (proj2 (Nat.ltb_lt (size v) w)), Nat.min_l by lia.
    change (fun i : nat => value v (0 + i)) with (value v).
    pose proof (bit_sum_bound (value v) (size v)) as HB.
    destruct (is_signed && _).
    + apply sign_fill; [lia|done].
    + rewrite Z.sub_0_r. symmetry. apply Z.mod_small. split; [lia|].
      apply (Z.lt_le_trans _ _ _ (proj2 HB)). apply Z.pow_le_mono_r; lia.
Qed.

Lemma to_ulong_loop_spec cnt idx v res ov :
  is_word res -> 0 <= res < 2 ^ Z.of_nat idx -> unknown_in v idx cnt = false ->
  to_ulong_loop cnt idx v res (2 ^ Z.of_nat idx mod wordsize) ov =
  let N := res + 2 ^ Z.of_nat idx * bit_sum (fun i => value v (idx + i)) cnt in
  (true, ov || (wordsize <=? N), Some (N mod wordsize)).
Proof.
  revert idx res ov. induction cnt as [|cnt IH]; intros idx res ov Hw Hr Hu; cbn [to_ulong_loop].
  { cbn [bit_sum]. rewrite Z.mul_0_r, Z.add_0_r. cbv zeta.
    rewrite (proj2 (Z.leb_gt _ _)), orb_false_r, Z.mod_small by (unfold is_word in Hw; lia). done. }
  rewrite unknown_in_S in Hu. apply orb_false_iff in Hu as [Hx Hu].
  assert (Hp : 2 ^ Z.of_nat (idx + 1) = 2 * 2 ^ Z.of_nat idx).
  { rewrite Nat2Z.inj_add, Z.pow_add_r by lia. lia. }
  assert (Hpos : 0 < 2 ^ Z.of_nat idx) by (apply Z.pow_pos_nonneg; lia).
  assert (Hm : wshl (2 ^ Z.of_nat idx mod wordsize) 1 = 2 ^ Z.of_nat (idx + 1) mod wordsize).
  { rewrite wshl_double by (split; apply Z.mod_pos_bound; done). rewrite Z.mul_mod_idemp_l by done.
    f_equal. lia. }
  assert (HB : bit_sum (fun i => value v (idx + i)%nat) (S cnt)
               = bit1 (value v idx) + 2 * bit_sum (fun i => value v (idx + 1 + i)%nat) cnt).
  { change (S cnt) with (1 + cnt)%nat. rewrite bit_sum_split. cbn [bit_sum]. rewrite Nat.add_0_r.
    rewrite (bit_sum_ext _ (fun i => value v (idx + 1 + i)%nat)); [lia|].
    intros i _. f_equal. lia. }
  rewrite HB, Hm. pose proof (bit_sum_bound (fun i => value v (idx + 1 + i)%nat) cnt) as HS.
  set (S0 := bit_sum (fun i => value v (idx + 1 + i)%nat) cnt) in *.
  destruct (value v idx) eqn:E; try done.
  - rewrite IH by (done || lia). fold S0. change (bit1 BIT4_0) with 0. cbv zeta.
    replace (res + 2 ^ Z.of_nat (idx + 1) * S0) with (res + 2 ^ Z.of_nat idx * (0 + 2 * S0)) by lia. done.
  - change (bit1 BIT4_1) with 1. cbv zeta. destruct (Nat.lt_ge_cases idx W) as [Hl|Hl].
    + assert (Hlt : 2 ^ Z.of_nat (idx + 1) <= wordsize) by (apply (Z.pow_le_mono_r 2 _ 64); unfold W in *; lia).
      rewrite (Z.mod_small (2 ^ Z.of_nat idx)) by lia. rewrite (proj2 (Z.eqb_neq _ _)) by lia.
      rewrite lor_add_pow2 by done. rewrite IH by (try done; unfold is_word; lia). fold S0. cbv zeta.
      replace (res + 2 ^ Z.of_nat idx + 2 ^ Z.of_nat (idx + 1) * S0)
        with (res + 2 ^ Z.of_nat idx * (1 + 2 * S0)) by lia. done.
    + assert (Hd : exists q, 0 < q /\ 2 ^ Z.of_nat idx = q * wordsize).
      { exists (2 ^ Z.of_nat (idx - 64)). split; [apply Z.pow_pos_nonneg; lia|].
        unfold wordsize. rewrite <- Z.pow_add_r by lia. f_equal. unfold W in *. lia. }
      destruct Hd as (q & Hq & Eq). rewrite Eq, Z.mod_mul, Z.eqb_refl by done.
      rewrite IH by (done || lia). fold S0. cbv zeta. rewrite Hp, Eq in *.
      rewrite (proj2 (Z.leb_le wordsize (res + q * wordsize * (1 + 2 * S0)))) by (unfold is_word in Hw; nia).
      rewrite orb_true_r. cbn [orb]. do 2 f_equal.
      replace (res + q * wordsize * (1 + 2 * S0)) with (res + (q * (1 + 2 * S0)) * wordsize) by lia.
      replace (res + 2 * (q * wordsize) * S0) with (res + (2 * q * S0) * wordsize) by lia.
      by rewrite !Z.mod_add.
Qed.

(** [vector4_to_value<unsigned long>] of a known vector, with its overflow flag. *)
Lemma vector4_to_ulong_known v :
  wf4 v -> known v ->
  vector4_to_ulong v = (true, wordsize <=? vec_Z v, Some (vec_Z v mod wordsize)).
Proof.
  intros Hv Hk. unfold vector4_to_ulong.
  pose proof (to_ulong_loop_spec (size v) 0 v 0 false ltac:(auto with word) ltac:(done)
    (known_unknown_in v (size v) Hk (le_n _))) as H.
  change (2 ^ Z.of_nat 0 mod wordsize) with 1 in H. rewrite H.
  change (2 ^ Z.of_nat 0) with 1. change (fun i : nat => value v (0 + i)) with (value v).
  rewrite vec_Z_sum, Z.add_0_l, Z.mul_1_l by done. done.
Qed.

Lemma to_ulong_loop_unknown cnt idx v res msk ov :
  unknown_in v idx cnt = true ->
  exists ov', to_ulong_loop cnt idx v res msk ov = (false, ov', None).
Proof.
  revert idx res msk ov. induction cnt as [|cnt IH]; intros idx res msk ov H; [done|].
  cbn [to_ulong_loop]. rewrite unknown_in_S in H.
  destruct (value v idx); [apply IH, H|case_match; apply IH, H|eauto..].
Qed.

(** * Text *)

(** A loop that writes bit [f (p k)] at position [p k]. *)
Lemma write_bits_spec m (p : nat -> nat) (f : nat -> vvp_bit4_t) g v :
  wf4 v -> (forall k, (k < m)%nat -> (p k < size v)%nat /\ g k = Some (f (p k))) ->
  exists r, for_upto m (fun k t => t ← t; b ← g k; set_bit t (p k) b) (Some v) = Some r /\
    wf4 r /\ size r = size v /\
    forall i, value r i = if existsb (fun k => p k =? i)%nat (seq 0 m) then f i else value v i.
Proof.
  intros Hv. induction m as [|m IH]; intros H; cbn [for_upto]; [by exists v|].
  destruct IH as (r & -> & Wr & Sr & Vr); [intros; apply H; lia|]. cbn [mbind option_bind].
  destruct (H m ltac:(lia)) as [Hp ->]. cbn [mbind option_bind].
  destruct (set_bit_spec r (p m) (f (p m)) Wr ltac:(lia)) as (r' & E & W' & S' & V').
  exists r'. split_and!; [done|done|congruence|]. intros i. rewrite V', Vr, (seq_S m 0), existsb_app.
  cbn [existsb]. rewrite orb_false_r. cbn [Nat.add]. rewrite (Nat.eqb_sym (p m)).
  destruct (Nat.eqb_spec i (p m)) as [->|]; [by rewrite orb_true_r|by rewrite orb_false_r].
Qed.

(** The characters of [n] bits, most significant first. *)
Fixpoint bit_text (f : nat -> vvp_bit4_t) (n : nat) : list Z :=
  match n with
  | O => []
  | S c => bit_char (f c) :: bit_text f c
  end.

Lemma length_bit_text f n : length (bit_text f n) = n.
Proof. induction n; simpl; congruence. Qed.

Lemma bit_text_at f n rest i :
  (i < n)%nat -> char_at (bit_text f n ++ rest) i = bit_char (f (n - i - 1)%nat).
Proof.
  revert i. induction n as [|n IH]; intros i Hi; [lia|]. cbn [bit_text app]. unfold char_at.
  destruct i as [|i]; cbn [nth]; [do 2 f_equal; lia|]. fold (char_at (bit_text f n ++ rest) i).
  rewrite IH by lia. do 2 f_equal. 
Qed.

Lemma strspn_bit_text f n rest : strspn (bit_text f n ++ rest) = (n + strspn rest)%nat.
Proof.
  induction n as [|n IH]; [done|]. cbn [bit_text app strspn Nat.add]. rewrite IH.
  by destruct (f n).
Qed.

Lemma char_bit_char b : char_bit (bit_char b) = Some b.
Proof. by destruct b. Qed.

Lemma put_char_at pre rest c :
  put_char (pre ++ rest) (length pre) c = match rest with [] => None | _ :: rest => Some ((pre ++ [c]) ++ rest) end.
Proof.
  unfold put_char. rewrite length_app. destruct rest as [|r rest]; cbn [length].
  - by rewrite (proj2 (Nat.ltb_ge _ _)) by lia.
  - rewrite (proj2 (Nat.ltb_lt _ _)) by lia. by rewrite insert_app_r_alt, Nat.sub_diag, <- app_assoc by lia.
Qed.

Lemma as_string_loop_eq cnt v n : forall pre rest,
  let t := take (Z.to_nat (n - 1)) (bit_text (value v) cnt) in
  as_string_loop cnt v (pre ++ rest) (length pre) n =
    if (length t <=? length rest)%nat then Some ((pre ++ t) ++ drop (length t) rest, (length pre + length t)%nat) else None.
Proof.
  revert n. induction cnt as [|cnt IH]; intros n pre rest t; subst t; cbn [as_string_loop bit_text].
  - rewrite take_nil. cbn [length drop Nat.leb]. by rewrite app_nil_r, Nat.add_0_r.
  - destruct (Z.leb_spec 2 n) as [H|H].
    + rewrite put_char_at. replace (Z.to_nat (n - 1)) with (S (Z.to_nat (n - 1 - 1))) by lia. cbn [take length].
      destruct rest as [|r rest]; [done|]. cbn [mbind option_bind length].
      replace (S (length pre)) with (length (pre ++ [bit_char (value v cnt)])) by (rewrite length_app; cbn; lia).
      rewrite IH. cbn [Nat.leb drop]. case_match; [|done]. f_equal. f_equal; [by rewrite <- !app_assoc|]. rewrite length_app. cbn. lia.
    + replace (Z.to_nat (n - 1)) with 0%nat by lia. cbn [take length drop Nat.leb]. by rewrite app_nil_r, Nat.add_0_r.
Qed.

(** The text, cut short to fit a buffer of [n] bytes as the code counts them. *)
Definition text_of (v : vvp_vector4_t) (n : Z) : list Z :=
  [67; 52; 60] ++ take (Z.to_nat (n - 4)) (bit_text (value v) (size v)) ++ [62; 0].

Lemma as_string_writes v buf n :
  3 <= n < wordsize ->
  as_string v buf n = if (length (text_of v n) <=? length buf)%nat then Some (text_of v n ++ drop (length (text_of v n)) buf) else None.
Proof.
  intros Hn. unfold as_string, text_of. set (t := take (Z.to_nat (n - 4)) (bit_text (value v) (size v))).
  assert (Hl : length ([67; 52; 60] ++ t ++ [62; 0]) = (5 + length t)%nat) by (rewrite !length_app; cbn; lia). rewrite Hl.
  destruct buf as [|b0 [|b1 [|b2 rest]]]; [done..|].
  transitivity ('(buf, p) ← as_string_loop (size v) v ([67; 52; 60] ++ rest) 3 (wsub n 3); buf ← put_char buf p 62; put_char buf (S p) 0); [reflexivity|].
  rewrite (as_string_loop_eq (size v) v (wsub n 3) [67; 52; 60] rest : as_string_loop _ _ _ 3 _ = _).
  replace (wsub n 3 - 1) with (n - 4) by (unfold wsub, wrap; rewrite Z.mod_small; lia). fold t. cbn [length].
  destruct (Nat.leb_spec (length t) (length rest)) as [H|H]; cbn [mbind option_bind].
  2: { by rewrite (proj2 (Nat.leb_gt _ _)) by lia. }
  replace (3 + length t)%nat with (length ([67; 52; 60] ++ t)) by (by rewrite length_app).
  rewrite put_char_at. destruct (drop (length t) rest) as [|c0 r0] eqn:E0.
  { apply (f_equal length) in E0. rewrite length_drop in E0. cbn in E0. cbn [mbind option_bind]. by rewrite (proj2 (Nat.leb_gt _ _)) by lia. }
  cbn [mbind option_bind]. replace (S (length ([67; 52; 60] ++ t))) with (length (([67; 52; 60] ++ t) ++ [62])) by (rewrite !length_app; cbn; lia).
  rewrite put_char_at. pose proof (f_equal length E0) as E1. rewrite length_drop in E1. cbn in E1. destruct r0 as [|c1 r0].
  { cbn in E1. by rewrite (proj2 (Nat.leb_gt _ _)) by lia. }
  cbn in E1. rewrite (proj2 (Nat.leb_le _ _)) by lia.
  replace (drop (5 + length t) (b0 :: b1 :: b2 :: rest)) with r0; [by rewrite <- !app_assoc|].
  change (drop (5 + length t) (b0 :: b1 :: b2 :: rest)) with (drop (S (S (length t))) rest).
  replace (S (S (length t))) with (length t + 2)%nat by lia. by rewrite <- drop_drop, E0.
Qed.

(** With room for it, the text is complete. *)
Lemma text_of_fits v n : Z.of_nat (size v) + 4 <= n -> text_of v n = [67; 52; 60] ++ bit_text (value v) (size v) ++ [62; 0].
Proof. intros H. unfold text_of. rewrite take_ge; [done|]. rewrite length_bit_text. lia. Qed.

Lemma length_text_of v n : length (text_of v n) = (5 + size v `min` Z.to_nat (n - 4))%nat.
Proof. unfold text_of. rewrite !length_app, length_take, length_bit_text. cbn [length]. lia. Qed.

Lemma existsb_mirror n i : (i < n)%nat -> existsb (fun k => n - k - 1 =? i)%nat (seq 0 n) = true.
Proof.
  intros H. apply existsb_exists. exists (n - i - 1)%nat. split; [apply in_seq; lia|].
  apply Nat.eqb_eq. lia.
Qed.

(** Reading the text of [n] bits gives the bits. *)
Lemma c4string_to_vector4_text f n rest :
  exists r, c4string_to_vector4 ([67; 52; 60] ++ bit_text f n ++ 62 :: rest) = Some r /\
    wf4 r /\ size r = n /\ forall i, (i < n)%nat -> value r i = f i.
Proof.
  unfold c4string_to_vector4. cbn [app char_at nth Z.eqb Pos.eqb andb].
  change (drop 3 (67 :: 52 :: 60 :: bit_text f n ++ 62 :: rest)) with (bit_text f n ++ 62 :: rest).
  rewrite strspn_bit_text. cbn [strspn is_bit_char]. rewrite Nat.add_0_r.
  assert (E : char_at (bit_text f n ++ 62 :: rest) n = 62).
  { unfold char_at. rewrite app_nth2 by (rewrite length_bit_text; lia).
    by rewrite length_bit_text, Nat.sub_diag. }
  rewrite E. cbn [Z.eqb Pos.eqb]. destruct (vec4_fill_spec n BIT4_X) as (Wf & Sf & _).
  destruct (write_bits_spec n (fun k => n - k - 1)%nat f
    (fun k => char_bit (char_at (bit_text f n ++ 62 :: rest) k)) (vec4_fill n BIT4_X) Wf) as (r & -> & Wr & Sr & Vr).
  { intros k Hk. rewrite Sf, bit_text_at, char_bit_char by done. split; [lia|done]. }
  exists r. split_and!; [done|done|congruence|]. intros i Hi. by rewrite Vr, existsb_mirror.
Qed.

Lemma c4string_test_text f n rest : c4string_test ([67; 52; 60] ++ bit_text f n ++ 62 :: 0 :: rest) = true.
Proof.
  unfold c4string_test. cbn [app char_at nth Z.eqb Pos.eqb andb negb].
  change (drop 3 (67 :: 52 :: 60 :: bit_text f n ++ 62 :: 0 :: rest)) with (bit_text f n ++ 62 :: 0 :: rest).
  rewrite strspn_bit_text. cbn [strspn is_bit_char]. rewrite Nat.add_0_r.
  assert (E : forall j, char_at (67 :: 52 :: 60 :: bit_text f n ++ 62 :: 0 :: rest) (3 + n + j) = char_at (62 :: 0 :: rest) j).
  { intros j. unfold char_at. cbn [Nat.add nth]. rewrite app_nth2 by (rewrite length_bit_text; lia).
    rewrite length_bit_text. by replace (n + j - n)%nat with j by lia. }
  pose proof (E 0%nat) as E0. pose proof (E 1%nat) as E1. rewrite Nat.add_0_r in E0.
  unfold char_at in *. simpl in E0, E1 |- *. rewrite E0. simpl. by rewrite E1.
Qed.

(** [vector4_from_text] reads bit [i] from the right. *)
Lemma vector4_from_text_result bits wid :
  exists r, vector4_from_text bits wid = Some r /\ wf4 r /\ size r = wid /\
    forall i, (i < wid)%nat ->
      value r i = default BIT4_0 (char_bit (char_at bits (wid - i - 1))).
Proof.
  unfold vector4_from_text. destruct (vec4_fill_spec wid BIT4_X) as (Wf & Sf & _).
  destruct (write_bits_spec wid (fun k => k)
    (fun k => default BIT4_0 (char_bit (char_at bits (wid - k - 1))))
    (fun k => Some (default BIT4_0 (char_bit (char_at bits (wid - k - 1)))))
    (vec4_fill wid BIT4_X) Wf) as (r & E & Wr & Sr & Vr).
  { intros k Hk. rewrite Sf. done. }
  exists r. split_and!; [exact E|done|congruence|]. intros i Hi. rewrite Vr.
  assert (existsb (fun k => k =? i)%nat (seq 0 wid) = true) as ->; [|done].
  apply existsb_exists. exists i. split; [apply in_seq; lia|apply Nat.eqb_refl].
Qed.
