(* ===== verification/VvpVector2.v ===== *)
(** [vvp_vector2_t] ([vvp/vvp_net.h], [vvp/vvp_net.cc]): the two-valued vector of the
    wide arithmetic of the runtime, an array of words of its own (the code has no short
    form here).  [None] is a failed [assert] or, in [div_mod], the exit on a zero
    divisor; the loops of [div_mod] and the recursion of [pow] run on fuel that the
    theorems show to be enough. *)
From S2P Require Import Prelude MachineWord VvpBit VvpVector4 VvpSlice WordArith VvpArith.

(** * Data and construction *)

(** [vec_] and [wid_]; [trim] lowers [wid_] without touching the array. *)
Record vvp_vector2_t := mkVec2 { vec : list Z; wid : nat }.

(** The default constructor, which is also the NaN. *)
Definition vec2_nil : vvp_vector2_t := mkVec2 [] 0.

(** [vvp_vector2_t(unsigned long v, unsigned wid)]; [v] is not cut to the width. *)
Definition vec2_of_long (v : Z) (wid : nat) : vvp_vector2_t :=
  mkVec2 (<[0%nat := v]> (replicate (words_for wid) 0)) wid.

(** [vvp_vector2_t(fill_t fill, unsigned wid)]. *)
Definition vec2_fill (fill : bool) (wid : nat) : vvp_vector2_t :=
  mkVec2 (replicate (words_for wid) (if fill then wones else 0)) wid.

(** [value(idx)]. *)
Definition vec2_value (v : vvp_vector2_t) (idx : nat) : Z :=
  if (wid v <=? idx)%nat then 0
  else if negb (Z.land (word (vec v) (idx / W)) (wshl 1 (idx mod W)) =? 0) then 1 else 0.

(** [value4(idx)]. *)
Definition value4 (v : vvp_vector2_t) (idx : nat) : vvp_bit4_t :=
  if negb (vec2_value v idx =? 0) then BIT4_1 else BIT4_0.

(** [vvp_vector2_t(that, base, wid)], also [subvalue]: the array comes from [new] and is
    only ORed into, so its contents [fresh] are an argument. *)
Definition vec2_subrange (fresh : list Z) (that : vvp_vector2_t) (base wid : nat) : vvp_vector2_t :=
  mkVec2 (for_upto wid (fun idx a =>
    if vec2_value that (base + idx) =? 0 then a
    else <[(idx / W)%nat := Z.lor (word a (idx / W)) (wshl 1 (idx mod W))]> a) fresh) wid.

(** [copy_from_that_(const vvp_vector4_t&)]. *)
Definition copy_from_vec4 (that : vvp_vector4_t) : vvp_vector2_t :=
  if (words_for (size that) =? 0)%nat then vec2_nil
  else mkVec2 (default [] (subarray that 0 (size that) true)) (size that).

(** [vvp_vector2_t(const vvp_vector4_t&, bool enable_NaN)]. *)
Definition vec2_of_vec4 (that : vvp_vector4_t) (enable_NaN : bool) : vvp_vector2_t :=
  if enable_NaN && has_xz that then vec2_nil else copy_from_vec4 that.

(** [copy_from_that_(const vvp_vector2_t&)]: the copy constructor and assignment. *)
Definition copy_from_vec2 (that : vvp_vector2_t) : vvp_vector2_t :=
  if (words_for (wid that) =? 0)%nat then vec2_nil
  else mkVec2 (for_upto (words_for (wid that)) (fun idx a => <[idx := word (vec that) idx]> a)
                 (replicate (words_for (wid that)) 0)) (wid that).

(** [vvp_vector2_t(that, newsize)]. *)
Definition vec2_resize (that : vvp_vector2_t) (newsize : nat) : vvp_vector2_t :=
  if (newsize =? 0)%nat then vec2_nil
  else mkVec2 (for_upto (words_for newsize) (fun idx a =>
         <[idx := if (idx <? words_for (wid that))%nat then word (vec that) idx else 0]> a)
         (replicate (words_for newsize) 0)) newsize.

(** * Shifts *)

Definition zero_words (n : nat) (a : list Z) : list Z := for_upto n (fun idx a => <[idx := 0]> a) a.

(** [operator <<=]: the whole words, from the top down. *)
Definition shl_words (words wshift : nat) (a : list Z) : list Z :=
  zero_words wshift
    (for_upto (words - wshift) (fun idx a =>
       <[(words - idx - 1)%nat := word a (words - idx - 1 - wshift)]> a) a).

(** The bits within the words, from the bottom up. *)
Definition shl_bits (words oshift : nat) (a : list Z) : list Z :=
  fst (for_upto words (fun idx s => let '(a, pad) := s in
    let next_pad := wshr (word a idx) (W - oshift) in
    (<[idx := Z.lor (wshl (word a idx) oshift) pad]> a, next_pad)) (a, 0)).

(** [mask = -1UL >> (BITS_PER_WORD - wid_%BITS_PER_WORD)]; the shift count is 64, which
    the machine takes as 0, when the width is a multiple of 64. *)
Definition tail_mask (wid : nat) : Z := wshr wones (W - wid mod W).

Definition clean_tail (wid : nat) (a : list Z) : list Z :=
  let k := (words_for wid - 1)%nat in <[k := Z.land (word a k) (tail_mask wid)]> a.

Definition vec2_shl (v : vvp_vector2_t) (shift : nat) : vvp_vector2_t :=
  if (wid v =? 0)%nat then v else
  let words := words_for (wid v) in
  let wshift := (shift / W)%nat in
  let oshift := (shift mod W)%nat in
  if (words <=? wshift)%nat then mkVec2 (zero_words words (vec v)) (wid v) else
  let a := if (0 <? wshift)%nat then shl_words words wshift (vec v) else vec v in
  let a := if negb (oshift =? 0)%nat then clean_tail (wid v) (shl_bits words oshift a) else a in
  mkVec2 a (wid v).

(** [operator >>=]: the whole words, from the bottom up. *)
Definition shr_words (words wshift : nat) (a : list Z) : list Z :=
  for_upto wshift (fun idx a => <[(words - wshift + idx)%nat := 0]> a)
    (for_upto (words - wshift) (fun idx a => <[idx := word a (idx + wshift)]> a) a).

(** The bits within the words, from the top down. *)
Definition shr_bits (words oshift : nat) (a : list Z) : list Z :=
  fst (for_upto words (fun t s => let '(a, pad) := s in
    let idx := (words - t)%nat in
    let new_pad := wshl (word a (idx - 1)) (W - oshift) in
    (<[(idx - 1)%nat := Z.lor pad (wshr (word a (idx - 1)) oshift)]> a, new_pad)) (a, 0)).

(** The cleanup: whole words while [mask_shift >= 64], then a mask; [None] is the
    [assert(use_words > 0)], also for a whole word below the array. *)
Fixpoint clear_top (fuel use_words mask_shift : nat) (a : list Z) : option (list Z) :=
  match fuel with
  | O => Some a
  | S f =>
      if (W <=? mask_shift)%nat then
        if (0 <? use_words)%nat
        then clear_top f (use_words - 1) (mask_shift - W) (<[(use_words - 1)%nat := 0]> a)
        else None
      else if (0 <? mask_shift)%nat then
        if (0 <? use_words)%nat
        then Some (<[(use_words - 1)%nat := Z.land (word a (use_words - 1)) (wshr wones mask_shift)]> a)
        else None
      else Some a
  end.

Definition vec2_shr (v : vvp_vector2_t) (shift : nat) : option vvp_vector2_t :=
  if (wid v =? 0)%nat then Some v else
  let words := words_for (wid v) in
  let wshift := (shift / W)%nat in
  let oshift := (shift mod W)%nat in
  if (words <=? wshift)%nat then Some (mkVec2 (zero_words words (vec v)) (wid v)) else
  let a := if (0 <? wshift)%nat then shr_words words wshift (vec v) else vec v in
  a ← (if (0 <? oshift)%nat then
         let mask_shift := ((W - wid v mod W) mod W + oshift)%nat in
         clear_top (mask_shift + 1) words mask_shift (shr_bits words oshift a)
       else Some a);
  Some (mkVec2 a (wid v)).

(** * Addition, subtraction, negation *)

(** The word loop of [+=] and [-=]. *)
Definition carry_words (operand : Z -> Z) (carry : Z) (words : nat) (a b : list Z) : list Z :=
  fst (for_upto words (fun idx => carry_step add_carry idx (operand (word b idx))) (a, carry)).

Definition vec2_add (v that : vvp_vector2_t) : option vvp_vector2_t :=
  if (wid v =? wid that)%nat then
    Some (if (wid v =? 0)%nat then v
          else mkVec2 (clean_tail (wid v)
                 (carry_words (fun w => w) 0 (words_for (wid v)) (vec v) (vec that))) (wid v))
  else None.

Definition vec2_sub (v that : vvp_vector2_t) : option vvp_vector2_t :=
  if (wid v =? wid that)%nat then
    Some (if (wid v =? 0)%nat then v
          else mkVec2 (carry_words wnot 1 (words_for (wid v)) (vec v) (vec that)) (wid v))
  else None.

Definition vec2_neg (that : vvp_vector2_t) : option vvp_vector2_t :=
  let neg := copy_from_vec2 that in
  if (wid neg =? 0)%nat then Some neg else
  let neg := mkVec2 (for_upto (words_for (wid neg)) (fun idx a => <[idx := wnot (word a idx)]> a) (vec neg))
                    (wid neg) in
  vec2_add neg (vec2_of_long 1 (wid neg)).

(** * Trimming, bits *)

(** The loop of [trim]; each iteration lowers the width. *)
Fixpoint trim_loop (fuel : nat) (v : vvp_vector2_t) : vvp_vector2_t :=
  match fuel with
  | O => v
  | S f =>
      if (vec2_value v (wid v - 1) =? 0) && (1 <? wid v)%nat
      then trim_loop f (mkVec2 (vec v) (wid v - 1)) else v
  end.
Definition trim (v : vvp_vector2_t) : vvp_vector2_t := trim_loop (wid v) v.

Fixpoint trim_neg_loop (fuel : nat) (v : vvp_vector2_t) : vvp_vector2_t :=
  match fuel with
  | O => v
  | S f =>
      if (vec2_value v (wid v - 2) =? 1) && (32 <? wid v)%nat
      then trim_neg_loop f (mkVec2 (vec v) (wid v - 1)) else v
  end.
Definition trim_neg (v : vvp_vector2_t) : vvp_vector2_t :=
  if (vec2_value v (wid v - 1) =? 1) && (32 <? wid v)%nat then trim_neg_loop (wid v) v else v.

Definition vec2_set_bit (v : vvp_vector2_t) (idx : nat) (bit : Z) : option vvp_vector2_t :=
  if (idx <? wid v)%nat then
    let addr := (idx / W)%nat in
    let mask := wshl 1 (idx mod W) in
    let w := if negb (bit =? 0) then Z.lor (word (vec v) addr) mask
             else Z.land (word (vec v) addr) (wnot mask) in
    Some (mkVec2 (<[addr := w]> (vec v)) (wid v))
  else None.

Definition vec2_set_vec (v : vvp_vector2_t) (adr : nat) (that : vvp_vector2_t) : option vvp_vector2_t :=
  if (adr + wid that <=? wid v)%nat then
    for_upto (wid that) (fun idx t => t ← t; vec2_set_bit t (adr + idx) (vec2_value that idx)) (Some v)
  else None.

Definition is_NaN (v : vvp_vector2_t) : bool := (wid v =? 0)%nat.

Definition vec2_is_zero (v : vvp_vector2_t) : bool :=
  forallb (fun idx => word (vec v) idx =? 0) (seq 0 (words_for (wid v))).

(** * Comparison *)

(** The loops of the comparison operators, from word [n-1] down. *)
Fixpoint cmp_words (n : nat) (aw bw : nat -> Z) : comparison :=
  match n with
  | O => Eq
  | S k => if bw k <? aw k then Gt else if aw k <? bw k then Lt else cmp_words k aw bw
  end.

(** [(idx <= awords)? a.vec_[idx-1] : 0]. *)
Definition word_or_0 (v : vvp_vector2_t) (k : nat) : Z :=
  if (k <? words_for (wid v))%nat then word (vec v) k else 0.

Definition vec2_cmp (a b : vvp_vector2_t) : comparison :=
  let awords := words_for (wid a) in
  let bwords := words_for (wid b) in
  let words := if (bwords <? awords)%nat then awords else bwords in
  cmp_words words (word_or_0 a) (word_or_0 b).

Definition vec2_gt (a b : vvp_vector2_t) : bool := match vec2_cmp a b with Gt => true | _ => false end.
Definition vec2_ge (a b : vvp_vector2_t) : bool := match vec2_cmp a b with Lt => false | _ => true end.
Definition vec2_lt (a b : vvp_vector2_t) : bool := match vec2_cmp a b with Lt => true | _ => false end.
Definition vec2_eq (a b : vvp_vector2_t) : bool := match vec2_cmp a b with Eq => true | _ => false end.
Definition vec2_le (a b : vvp_vector2_t) : option bool :=
  if (wid a =? wid b)%nat then
    Some (match cmp_words (words_for (wid a)) (word (vec a)) (word (vec b)) with Gt => false | _ => true end)
  else None.

(** * Multiplication, power, division *)

Definition vec2_mul (a b : vvp_vector2_t) : option vvp_vector2_t :=
  if (wid a =? wid b)%nat then
    let r := vec2_of_long 0 (wid a) in
    let words := words_for (wid r) in
    Some (mkVec2 (for_upto words (fun bdx res =>
      let tmpb := word (vec b) bdx in
      if tmpb =? 0 then res else
      for_upto words (fun adx res =>
        let tmpa := word (vec a) adx in
        if tmpa =? 0 then res else
        let '(low, hig) := multiply_long tmpa tmpb in
        accumulate add_carry (adx + bdx) words low hig res) res) (vec r)) (wid r))
  else None.

(** [pow(x, y)]; [y] is changed in place, but no caller looks at it again. *)
Fixpoint vec2_pow_loop (fuel : nat) (x y : vvp_vector2_t) : option vvp_vector2_t :=
  match fuel with
  | O => None
  | S f =>
      if vec2_eq y (vec2_of_long 0 1) then Some (vec2_of_long 1 (wid x)) else
      if vec2_value y 0 =? 1 then
        y ← vec2_set_bit y 0 0;
        p ← vec2_pow_loop f x y;
        vec2_mul x p
      else
        y ← vec2_shr y 1;
        z ← vec2_pow_loop f x y;
        vec2_mul z z
  end.
Definition vec2_pow (x y : vvp_vector2_t) : option vvp_vector2_t := vec2_pow_loop (2 * wid y + 1) x y.

(** The first loop of [div_mod]: [divtmp] and [mask] move up. *)
Fixpoint div_up (fuel : nat) (dividend divtmp mask : vvp_vector2_t) : option (vvp_vector2_t * vvp_vector2_t) :=
  if vec2_lt divtmp dividend then
    match fuel with
    | O => None
    | S f => div_up f dividend (vec2_shl divtmp 1) (vec2_shl mask 1)
    end
  else Some (divtmp, mask).

(** The second loop: subtract where it fits, and move down. *)
Fixpoint div_down (fuel : nat) (divisor dividend divtmp mask quotient : vvp_vector2_t)
    : option (vvp_vector2_t * vvp_vector2_t * vvp_vector2_t) :=
  if vec2_ge dividend divisor then
    match fuel with
    | O => None
    | S f =>
        fits ← vec2_le divtmp dividend;
        '(dividend, quotient) ←
          (if fits : bool then
             dividend ← vec2_sub dividend divtmp;
             quotient ← vec2_add quotient mask;
             Some (dividend, quotient)
           else Some (dividend, quotient));
        divtmp ← vec2_shr divtmp 1;
        mask ← vec2_shr mask 1;
        div_down f divisor dividend divtmp mask quotient
    end
  else Some (dividend, mask, quotient).

(** [div_mod(dividend, divisor, quotient, remainder)]. *)
Definition div_mod (dividend divisor : vvp_vector2_t) : option (vvp_vector2_t * vvp_vector2_t) :=
  let quotient := vec2_of_long 0 (wid dividend) in
  if vec2_eq divisor quotient then None else
  if vec2_lt dividend divisor then Some (quotient, dividend) else
  let mask := vec2_of_long 1 (wid dividend) in
  let dividend := vec2_resize dividend (wid dividend + 1) in
  let divtmp := vec2_resize divisor (wid dividend) in
  '(divtmp, mask) ← div_up (wid dividend) dividend divtmp mask;
  '(dividend, mask, quotient) ← div_down (wid dividend + 1) divisor dividend divtmp mask quotient;
  Some (quotient, vec2_resize dividend (wid mask)).

Definition vec2_div (dividend divisor : vvp_vector2_t) : option vvp_vector2_t :=
  fst <$> div_mod dividend divisor.
Definition vec2_mod (dividend divisor : vvp_vector2_t) : option vvp_vector2_t :=
  snd <$> div_mod dividend divisor.

(** * Conversions *)

Definition vector2_to_vector4 (that : vvp_vector2_t) (wid : nat) : option vvp_vector4_t :=
  for_upto wid (fun idx res => res ← res; set_bit res idx (value4 that idx)) (Some (vec4_fill wid BIT4_X)).

(** [vector2_to_value(a, int32_t&val, is_signed)]: the return value and the 32-bit
    pattern of [val]; [mask <<= 1] keeps 32 bits. *)
Definition vector2_to_value (a : vvp_vector2_t) (is_signed : bool) : bool * Z :=
  let n := if (wid a <? 32)%nat then wid a else 32%nat in
  let '(val, _) := for_upto n (fun idx s => let '(val, mask) := s in
    (if negb (vec2_value a idx =? 0) then Z.lor val mask else val, (mask * 2) mod 2 ^ 32)) (0, 1) in
  let val :=
    if is_signed && (wid a <? 32)%nat && negb (vec2_value a (wid a - 1) =? 0)
    then Z.lor val ((2 ^ 32 - 1) * 2 ^ Z.of_nat (wid a) mod 2 ^ 32) else val in
  ((wid a <=? 32)%nat, val).

(** * Vectors as numbers *)

(** The array holds the words of the width. *)
Definition wf2 (v : vvp_vector2_t) : Prop := words (vec v) /\ (words_for (wid v) <= length (vec v))%nat.

(** The number the words of the width stand for, and its being within the width. *)
Definition uZ (v : vvp_vector2_t) : Z := wsum (word (vec v)) (words_for (wid v)).
Definition clean (v : vvp_vector2_t) : Prop := uZ v < 2 ^ Z.of_nat (wid v).

Lemma uZ_bound v : wf2 v -> 0 <= uZ v < pow64 (words_for (wid v)).
Proof. intros [Hw _]. apply wsum_bound. auto with word. Qed.

(** Reading through [wid], in the arithmetic of exponents. *)
Lemma words_for_bounds n : (n <= words_for n * W)%nat /\ (0 < n -> (words_for n - 1) * W < n)%nat.
Proof.
  destruct (words_for_cases n) as [[E1 E2]|[E1 E2]]; pose proof (Nat.div_mod_eq n W);
    pose proof (mod_W_lt n); unfold W in *; lia.
Qed.

Lemma words_for_pos n : (0 < n)%nat -> (0 < words_for n)%nat.
Proof. intros H. destruct (words_for_bounds n). unfold W in *. lia. Qed.

Lemma wsum_split f a b : wsum f (a + b) = wsum f a + pow64 a * wsum (fun k => f (a + k)%nat) b.
Proof.
  induction b as [|b IH]; [rewrite Nat.add_0_r; cbn [wsum]; lia|].
  rewrite Nat.add_succ_r. cbn [wsum]. rewrite IH, pow64_add. lia.
Qed.

Lemma wsum_0 n : wsum (fun _ => 0) n = 0.
Proof. induction n as [|n IH]; [done|]. cbn [wsum]. lia. Qed.

(** The words of an array after a loop that rewrites the first [n]. *)
Lemma wsum_words f a n : (forall k, (k < n)%nat -> word a k = f k) -> wsum (word a) n = wsum f n.
Proof. apply wsum_ext. Qed.

(** An array all of whose words satisfy the word bound. *)
Lemma words_of a : (forall k, (k < length a)%nat -> is_word (word a k)) -> words a.
Proof.
  intros H. apply Forall_lookup. intros k w E. pose proof (lookup_lt_Some _ _ _ E) as Hk.
  specialize (H k Hk). unfold word in H. by rewrite nth_lookup, E in H.
Qed.

(** Shifted words as numbers. *)
Lemma wshl_num x o : is_word x -> (o < W)%nat -> wshl x o = (x * 2 ^ Z.of_nat o) mod wordsize.
Proof. intros Hx Ho. unfold wshl, wrap. by rewrite Nat.mod_small, Z.shiftl_mul_pow2 by (done || lia). Qed.

Lemma wshr_num x o : (o < W)%nat -> wshr x o = x / 2 ^ Z.of_nat o.
Proof. intros Ho. unfold wshr. by rewrite Nat.mod_small, Z.shiftr_div_pow2 by (done || lia). Qed.

Lemma pow2_W o : (o <= W)%nat -> 2 ^ Z.of_nat o * 2 ^ Z.of_nat (W - o) = wordsize.
Proof. intros H. rewrite <- Z.pow_add_r by lia. unfold wordsize. f_equal. unfold W in *. lia. Qed.

(** Disjoint bits add. *)
Lemma lor_disjoint x y : Z.land x y = 0 -> Z.lor x y = x + y.
Proof. intros H. rewrite <- Z.lxor_lor by done. symmetry. by apply Z.add_nocarry_lxor. Qed.

(** High bits, shifted up by [o], and [o] low bits. *)
Lemma lor_shifted x o p :
  0 <= p < 2 ^ Z.of_nat o -> Z.lor (x * 2 ^ Z.of_nat o) p = x * 2 ^ Z.of_nat o + p.
Proof.
  intros Hp. apply lor_disjoint. apply Z.bits_inj'. intros i Hi. rewrite Z.land_spec, Z.bits_0.
  destruct (Z.lt_ge_cases i (Z.of_nat o)).
  - by rewrite Z.mul_pow2_bits_low by lia.
  - rewrite <- (Z.mod_small p (2 ^ Z.of_nat o)) by done. rewrite (Z.mod_pow2_bits_high p) by lia.
    apply andb_false_r.
Qed.

(** What the left shift of a word keeps and what it passes on. *)
Lemma wshl_split x o :
  is_word x -> (0 < o < W)%nat ->
  wshl x o = (x mod 2 ^ Z.of_nat (W - o)) * 2 ^ Z.of_nat o /\
  x * 2 ^ Z.of_nat o = wshl x o + wordsize * wshr x (W - o) /\
  0 <= wshr x (W - o) < 2 ^ Z.of_nat o.
Proof.
  intros Hx Ho. pose proof (pow2_W o ltac:(lia)) as HP.
  assert (0 < 2 ^ Z.of_nat o) by (apply Z.pow_pos_nonneg; lia).
  assert (0 < 2 ^ Z.of_nat (W - o)) by (apply Z.pow_pos_nonneg; lia).
  rewrite wshl_num, wshr_num by (done || lia). split_and!.
  - rewrite <- HP, (Z.mul_comm (2 ^ Z.of_nat o)), Z.mul_mod_distr_r by lia. done.
  - rewrite (Z.div_mod x (2 ^ Z.of_nat (W - o))) at 1 by lia.
    rewrite <- HP, (Z.mul_comm (2 ^ Z.of_nat o)), Z.mul_mod_distr_r by lia. lia.
  - apply Z.div_pos; [unfold is_word in Hx|]; lia.
  - apply Z.div_lt_upper_bound; [lia|]. rewrite Z.mul_comm, HP. apply Hx.
Qed.

(** ** Writing a word *)

Lemma wsum_insert a k w n :
  (k < n)%nat -> (n <= length a)%nat ->
  wsum (word (<[k := w]> a)) n = wsum (word a) n + pow64 k * (w - word a k).
Proof.
  intros Hk Hn. induction n as [|n IH]; [lia|]. cbn [wsum]. rewrite word_insert by lia.
  destruct (Nat.eqb_spec n k) as [->|Hne].
  - rewrite (wsum_ext _ (word a) k); [lia|]. intros j Hj. rewrite word_insert by lia.
    by rewrite (proj2 (Nat.eqb_neq j k)) by lia.
  - rewrite IH by lia. lia.
Qed.

(** The bits of the last word within the width. *)
Definition last_bits (n : nat) : nat := (n - (words_for n - 1) * W)%nat.

Lemma last_bits_eq n :
  (0 < n)%nat -> (0 < last_bits n <= W)%nat /\ (n = (words_for n - 1) * W + last_bits n)%nat /\
  (n mod W = if (last_bits n =? W)%nat then 0 else last_bits n)%nat.
Proof.
  intros H. unfold last_bits. destruct (words_for_bounds n) as [B1 B2]. specialize (B2 H).
  assert (H1 : (0 < n - (words_for n - 1) * W <= W)%nat) by (unfold W in *; lia).
  assert (H2 : (n = (words_for n - 1) * W + (n - (words_for n - 1) * W))%nat) by lia.
  split_and!; [lia..|].
  rewrite H2 at 1. rewrite Nat.add_comm, Nat.Div0.mod_add.
  destruct (Nat.eqb_spec (n - (words_for n - 1) * W) W) as [->|].
  - by apply Nat.Div0.mod_same.
  - apply Nat.mod_small. lia.
Qed.

(** The mask of the cleanup keeps those bits. *)
Lemma land_tail_mask n x :
  (0 < n)%nat -> is_word x -> Z.land x (tail_mask n) = x mod 2 ^ Z.of_nat (last_bits n).
Proof.
  intros Hn Hx. destruct (last_bits_eq n Hn) as (Hb & _ & Hm). unfold tail_mask, wshr. rewrite Hm.
  assert (E : Z.shiftr wones (Z.of_nat ((W - (if (last_bits n =? W)%nat then 0 else last_bits n)) mod W))
              = Z.ones (Z.of_nat (last_bits n))).
  { destruct (Nat.eqb_spec (last_bits n) W) as [->|Hne].
    - reflexivity.
    - rewrite Nat.mod_small by lia. rewrite Z.shiftr_div_pow2 by lia. unfold wones.
      rewrite <- (pow2_W (last_bits n)) by lia.
      assert (0 < 2 ^ Z.of_nat (last_bits n)) by (apply Z.pow_pos_nonneg; lia).
      assert (0 < 2 ^ Z.of_nat (W - last_bits n)) by (apply Z.pow_pos_nonneg; lia).
      rewrite Z.ones_equiv. symmetry. apply (Z.div_unique_pos _ _ _ (2 ^ Z.of_nat (W - last_bits n) - 1)); [lia|].
      lia. }
  rewrite E. apply Z.land_ones. lia.
Qed.

(** The cleanup reduces modulo 2^width. *)
Lemma clean_tail_spec n a :
  (0 < n)%nat -> words a -> (words_for n <= length a)%nat ->
  words (clean_tail n a) /\ length (clean_tail n a) = length a /\
  wsum (word (clean_tail n a)) (words_for n) = wsum (word a) (words_for n) mod 2 ^ Z.of_nat n.
Proof.
  intros Hn Hw Hl. pose proof (words_for_pos n Hn). destruct (last_bits_eq n Hn) as (Hb & Hd & _).
  unfold clean_tail. pose proof (word_is_word a (words_for n - 1) Hw) as Hx.
  rewrite land_tail_mask by done. set (x := word a (words_for n - 1)) in *.
  assert (Hp : 0 < 2 ^ Z.of_nat (last_bits n)) by (apply Z.pow_pos_nonneg; lia).
  split_and!.
  - apply words_insert; [done|]. pose proof (Z.mod_pos_bound x _ Hp).
    split; [lia|]. pose proof (Z.mod_le x (2 ^ Z.of_nat (last_bits n)) (proj1 Hx) Hp).
    unfold is_word in Hx. lia.
  - by rewrite length_insert.
  - rewrite wsum_insert by lia. fold x.
    assert (HN : wsum (word a) (words_for n) = wsum (word a) (words_for n - 1) + pow64 (words_for n - 1) * x).
    { replace (words_for n) with (S (words_for n - 1)) at 1 by lia. done. }
    pose proof (wsum_bound (word a) (words_for n - 1) ltac:(auto with word)) as HB.
    rewrite HN. set (L := wsum (word a) (words_for n - 1)) in *. rewrite pow64_pow2 in *.
    assert (E : 2 ^ Z.of_nat n = 2 ^ Z.of_nat ((words_for n - 1) * W) * 2 ^ Z.of_nat (last_bits n)).
    { rewrite <- Z.pow_add_r, <- Nat2Z.inj_add by apply Nat2Z.is_nonneg. by rewrite <- Hd. }
    rewrite E, Z.rem_mul_r by lia.
    rewrite (Z.mul_comm _ x), Z.mod_add, Z.div_add, (Z.mod_small L), (Z.div_small L) by lia.
    rewrite Z.add_0_l. ring.
Qed.

Lemma clean_tail_clean n a :
  (0 < n)%nat -> words a -> (words_for n <= length a)%nat ->
  let r := mkVec2 (clean_tail n a) n in
  wf2 r /\ clean r /\ uZ r = wsum (word a) (words_for n) mod 2 ^ Z.of_nat n.
Proof.
  intros Hn Hw Hl. destruct (clean_tail_spec n a Hn Hw Hl) as (W1 & L1 & V1). cbv zeta.
  unfold wf2, clean, uZ. cbn [vec wid]. split_and!; [done|lia| |done].
  rewrite V1. apply Z.mod_pos_bound. apply Z.pow_pos_nonneg; lia.
Qed.

(** ** The loops of the shifts, word by word *)

Lemma zero_words_spec n a :
  (n <= length a)%nat ->
  length (zero_words n a) = length a /\
  forall k, word (zero_words n a) k = if (k <? n)%nat then 0 else word a k.
Proof. intros H. apply (for_insert n (fun _ => 0) a H). Qed.

Lemma shl_words_down n s a m :
  (s <= n)%nat -> (m <= n - s)%nat -> (n <= length a)%nat ->
  let r := for_upto m (fun idx a => <[(n - idx - 1)%nat := word a (n - idx - 1 - s)]> a) a in
  length r = length a /\
  forall k, word r k = if (n - m <=? k)%nat && (k <? n)%nat then word a (k - s) else word a k.
Proof.
  intros Hs Hm Hl. induction m as [|m IH]; cbn [for_upto].
  - split; [done|]. intros k. rewrite Nat.sub_0_r. by repeat case_cmp; simpl; try lia.
  - destruct IH as [L Hk]; [lia|]. cbv zeta. rewrite length_insert. split; [done|]. intros k.
    rewrite word_insert, !Hk by (rewrite L; lia).
    destruct (Nat.eqb_spec k (n - m - 1)) as [->|Hne].
    + rewrite (proj2 (Nat.leb_gt (n - m) (n - m - 1 - s))) by lia. cbn [andb].
      rewrite (proj2 (Nat.leb_le (n - S m) _)), (proj2 (Nat.ltb_lt _ n)) by lia. done.
    + replace (n - S m <=? k)%nat with (n - m <=? k)%nat; [done|].
      destruct (Nat.leb_spec (n - m) k), (Nat.leb_spec (n - S m) k); try done; lia.
Qed.

Lemma shl_words_spec n s a :
  (s < n)%nat -> (n <= length a)%nat ->
  length (shl_words n s a) = length a /\
  forall k, (k < n)%nat -> word (shl_words n s a) k = if (k <? s)%nat then 0 else word a (k - s).
Proof.
  intros Hs Hl. unfold shl_words.
  destruct (shl_words_down n s a (n - s) ltac:(lia) ltac:(lia) Hl) as [L1 H1].
  set (a1 := for_upto (n - s) _ a) in *. destruct (zero_words_spec s a1) as [L2 H2]; [lia|].
  split; [lia|]. intros k Hk. rewrite H2. destruct (Nat.ltb_spec k s); [done|]. rewrite H1.
  rewrite (proj2 (Nat.leb_le _ _)), (proj2 (Nat.ltb_lt _ _)) by lia. done.
Qed.

Lemma shl_bits_loop o a n :
  (n <= length a)%nat ->
  let r := for_upto n (fun idx s => let '(a, pad) := s in
    let next_pad := wshr (word a idx) (W - o) in
    (<[idx := Z.lor (wshl (word a idx) o) pad]> a, next_pad)) (a, 0) in
  length (fst r) = length a /\
  (forall k, word (fst r) k = if (k <? n)%nat then
     Z.lor (wshl (word a k) o) (match k with O => 0 | S j => wshr (word a j) (W - o) end) else word a k) /\
  snd r = match n with O => 0 | S j => wshr (word a j) (W - o) end.
Proof.
  induction n as [|n IH]; intros Hn; cbn [for_upto]; [done|].
  destruct IH as (L & Hk & Hp); [lia|]. destruct (for_upto n _ (a, 0)) as [a1 pad]. cbn [fst snd] in *.
  rewrite length_insert. assert (E : word a1 n = word a n) by (rewrite Hk, Nat.ltb_irrefl; done).
  rewrite E. split_and!; [done| |done]. intros k. rewrite word_insert by lia.
  destruct (Nat.eqb_spec k n) as [->|Hne].
  - rewrite (proj2 (Nat.ltb_lt n (S n))) by lia. by rewrite Hp.
  - rewrite Hk. replace (k <? S n)%nat with (k <? n)%nat; [done|].
    destruct (Nat.ltb_spec k n), (Nat.ltb_spec k (S n)); try done; lia.
Qed.

(** The bit shift multiplies, losing the carry out of the array. *)
Lemma shl_bits_num (f : nat -> Z) o n :
  (0 < o < W)%nat -> (forall k, is_word (f k)) ->
  wsum (fun k => Z.lor (wshl (f k) o) (match k with O => 0 | S j => wshr (f j) (W - o) end)) n
  + pow64 n * (match n with O => 0 | S j => wshr (f j) (W - o) end) = wsum f n * 2 ^ Z.of_nat o.
Proof.
  intros Ho Hf. induction n as [|n IH]; cbn [wsum]; [lia|].
  destruct (wshl_split (f n) o (Hf n) Ho) as (E1 & E2 & B2).
  assert (Hl : Z.lor (wshl (f n) o) (match n with O => 0 | S j => wshr (f j) (W - o) end)
             = wshl (f n) o + match n with O => 0 | S j => wshr (f j) (W - o) end).
  { rewrite E1. apply lor_shifted. destruct n as [|j]; [split; [lia|apply Z.pow_pos_nonneg; lia]|].
    by destruct (wshl_split (f j) o (Hf j) Ho) as (_ & _ & B). }
  rewrite Hl, pow64_S, Z.mul_add_distr_r, <- IH.
  replace (pow64 n * f n * 2 ^ Z.of_nat o) with (pow64 n * (f n * 2 ^ Z.of_nat o)) by ring.
  rewrite E2. ring.
Qed.

Lemma shl_bits_spec n o a :
  (0 < o < W)%nat -> words a -> (n <= length a)%nat ->
  words (shl_bits n o a) /\ length (shl_bits n o a) = length a /\
  wsum (word (shl_bits n o a)) n = (wsum (word a) n * 2 ^ Z.of_nat o) mod pow64 n.
Proof.
  intros Ho Hw Hl. unfold shl_bits. destruct (shl_bits_loop o a n Hl) as (L & Hk & _).
  set (r := for_upto n _ (a, 0)) in *.
  assert (HwR : words (fst r)).
  { apply words_of. intros k _. rewrite Hk.
    assert (is_word (wshr (word a (k - 1)) (W - o))) by auto with word.
    destruct k as [|k]; repeat case_match; auto with word. }
  split_and!; [done|done|].
  rewrite (wsum_ext _ (fun k => Z.lor (wshl (word a k) o) (match k with O => 0 | S j => wshr (word a j) (W - o) end)))
    by (intros k Hk'; rewrite Hk, (proj2 (Nat.ltb_lt _ _) Hk'); done).
  rewrite <- (shl_bits_num (word a) o n Ho) by auto with word.
  rewrite (Z.mul_comm (pow64 n)), Z.mod_add by (pose proof (pow64_pos n); lia).
  symmetry. apply Z.mod_small, wsum_bound. intros k Hk'.
  pose proof (word_is_word (fst r) k HwR) as H. rewrite Hk in H.
  by rewrite (proj2 (Nat.ltb_lt _ _) Hk') in H.
Qed.

Lemma wsum_shifted_up (f : nat -> Z) s n :
  wsum (fun k => if (k <? s)%nat then 0 else f (k - s)%nat) (s + n) = pow64 s * wsum f n.
Proof.
  rewrite wsum_split.
  rewrite (wsum_ext _ (fun _ => 0) s) by (intros k Hk; by rewrite (proj2 (Nat.ltb_lt _ _) Hk)).
  rewrite wsum_0, Z.add_0_l. f_equal. apply wsum_ext. intros k _.
  rewrite (proj2 (Nat.ltb_ge _ _)) by lia. f_equal. lia.
Qed.

Lemma wsum_shifted_down (f : nat -> Z) s m :
  wsum (fun k => if (k + s <? m + s)%nat then f (k + s)%nat else 0) (m + s)
  = wsum (fun k => f (s + k)%nat) m.
Proof.
  rewrite wsum_split.
  rewrite (wsum_ext (fun j => if (m + j + s <? m + s)%nat then f (m + j + s)%nat else 0) (fun _ => 0) s)
    by (intros j _; by rewrite (proj2 (Nat.ltb_ge _ _)) by lia).
  rewrite wsum_0, Z.mul_0_r, Z.add_0_r. apply wsum_ext. intros j Hj.
  rewrite (proj2 (Nat.ltb_lt _ _)) by lia. f_equal. lia.
Qed.

(** Reducing modulo the array and then modulo the width. *)
Lemma mod_words_mod n x y :
  x mod pow64 (words_for n) = y mod pow64 (words_for n) -> x mod 2 ^ Z.of_nat n = y mod 2 ^ Z.of_nat n.
Proof.
  intros H. assert (0 < 2 ^ Z.of_nat n) by (apply Z.pow_pos_nonneg; lia).
  assert (H2 : forall z, z mod 2 ^ Z.of_nat n = (z mod pow64 (words_for n)) mod 2 ^ Z.of_nat n).
  { intros z. pose proof (proj1 (words_for_bounds n)). rewrite pow64_pow2.
    by rewrite (mod_pow_le z n (words_for n * W)) by lia. }
  by rewrite (H2 x), (H2 y), H.
Qed.

Lemma pow_word_split k : pow64 (k / W) * 2 ^ Z.of_nat (k mod W) = 2 ^ Z.of_nat k.
Proof.
  rewrite pow64_pow2, <- Z.pow_add_r, <- Nat2Z.inj_add by apply Nat2Z.is_nonneg.
  rewrite (Nat.mul_comm _ W), <- Nat.div_mod_eq. done.
Qed.

(** [operator <<=]: the product by 2^shift in the width; the bits above the width are
    cleared when the shift is not a multiple of the word. *)
Lemma vec2_shl_spec v k :
  wf2 v ->
  let r := vec2_shl v k in
  wf2 r /\ wid r = wid v /\ uZ r mod 2 ^ Z.of_nat (wid v) = (uZ v * 2 ^ Z.of_nat k) mod 2 ^ Z.of_nat (wid v) /\
  ((k mod W <> 0)%nat -> clean r).
Proof.
  intros [Hw Hl]. unfold vec2_shl. destruct (Nat.eqb_spec (wid v) 0) as [E0|E0].
  { cbv zeta. split_and!; [done|done| |]; unfold clean, uZ; rewrite E0; change (words_for 0) with 0%nat;
      cbn [wsum]; [by rewrite Z.mul_0_l|]. intros _. simpl. lia. }
  assert (Hn : (0 < wid v)%nat) by lia. cbv zeta. set (n := words_for (wid v)) in *.
  pose proof (pow_word_split k) as HP.
  destruct (Nat.leb_spec n (k / W)) as [Hbig|Hsmall].
  - destruct (zero_words_spec n (vec v) Hl) as [L Hk].
    assert (HZ : wsum (word (zero_words n (vec v))) n = 0).
    { rewrite (wsum_ext _ (fun _ => 0)), wsum_0; [done|]. intros j Hj. by rewrite Hk, (proj2 (Nat.ltb_lt _ _) Hj). }
    unfold wf2, clean, uZ. cbn [vec wid]. fold n. rewrite L, HZ. split_and!; try done.
    + apply words_of. intros j _. rewrite Hk. case_match; auto with word.
    + rewrite <- HP. apply mod_words_mod. fold n. 
      replace (wsum (word (vec v)) n * (pow64 (k / W) * 2 ^ Z.of_nat (k mod W)))
        with (pow64 (k / W) * (wsum (word (vec v)) n * 2 ^ Z.of_nat (k mod W))) by ring.
      symmetry. apply cong_high. done.
    + intros _. apply Z.pow_pos_nonneg; lia.
  - set (a := if (0 <? k / W)%nat then _ else _).
    assert (Ha : words a /\ length a = length (vec v) /\
      wsum (word a) n mod pow64 n = (pow64 (k / W) * uZ v) mod pow64 n).
    { unfold a. destruct (Nat.ltb_spec 0 (k / W)) as [Hs|Hs].
      - destruct (shl_words_spec n (k / W) (vec v) Hsmall Hl) as [L Hk]. split_and!; [|done|].
        + apply words_of. intros j Hj. destruct (Nat.lt_ge_cases j n) as [Hjn|Hjn].
          * rewrite Hk by done. case_match; auto with word.
          * unfold shl_words. destruct (shl_words_down n (k / W) (vec v) (n - k / W) ltac:(lia) ltac:(lia) Hl) as [L1 H1].
            set (a1 := for_upto (n - k / W) _ (vec v)) in *.
            destruct (zero_words_spec (k / W) a1) as [L2 H2]; [lia|]. rewrite H2, H1.
            repeat case_match; auto with word.
        + rewrite (wsum_words _ _ _ Hk). replace n with (k / W + (n - k / W))%nat at 1 by lia.
          rewrite wsum_shifted_up. symmetry. apply wsum_high. lia.
      - assert (E : (k / W = 0)%nat) by lia. rewrite E, pow64_0, Z.mul_1_l. done. }
    destruct Ha as (Wa & La & Va). destruct (Nat.eqb_spec (k mod W) 0) as [Eo|Eo]; cbn [negb].
    + unfold wf2, clean, uZ. cbn [vec wid]. fold n. rewrite La. split_and!; try done.
      rewrite <- HP, Eo, Z.mul_1_r, (Z.mul_comm _ (pow64 _)). apply mod_words_mod. exact Va.
    + pose proof (mod_W_lt k). destruct (shl_bits_spec n (k mod W) a ltac:(lia) Wa ltac:(lia)) as (W1 & L1 & V1).
      destruct (clean_tail_clean (wid v) (shl_bits n (k mod W) a) Hn W1 ltac:(fold n; lia)) as (R1 & R2 & R3).
      split_and!; [done|done| |done]. rewrite R3, Z.mod_mod by (apply Z.pow_nonzero; lia). fold n. rewrite V1.
      apply mod_words_mod. fold n. pose proof (pow64_pos n). rewrite Z.mod_mod by lia.
      rewrite <- HP, Z.mul_assoc. rewrite <- Z.mul_mod_idemp_l, Va, Z.mul_mod_idemp_l by lia.
      f_equal. ring.
Qed.

Lemma shr_words_spec n s a :
  (s < n)%nat -> (n <= length a)%nat ->
  length (shr_words n s a) = length a /\
  forall k, (k < n)%nat -> word (shr_words n s a) k = if (k + s <? n)%nat then word a (k + s) else 0.
Proof.
  intros Hs Hl. unfold shr_words.
  assert (H1 : forall m, (m <= n - s)%nat ->
    let r := for_upto m (fun idx a => <[idx := word a (idx + s)]> a) a in
    length r = length a /\ forall k, word r k = if (k <? m)%nat then word a (k + s) else word a k).
  { induction m as [|m IH]; intros Hm; cbn [for_upto]; [done|].
    destruct IH as [L Hk]; [lia|]. cbv zeta. rewrite length_insert. split; [done|]. intros k.
    rewrite word_insert, !Hk by (rewrite L; lia). rewrite (proj2 (Nat.ltb_ge (m + s) m)) by lia.
    destruct (Nat.eqb_spec k m) as [->|Hne]; [by rewrite (proj2 (Nat.ltb_lt m (S m))) by lia|].
    replace (k <? S m)%nat with (k <? m)%nat; [done|]. by repeat case_cmp; try lia. }
  destruct (H1 (n - s)%nat (le_n _)) as [L1 K1]. set (a1 := for_upto (n - s) _ a) in *.
  assert (H2 : forall m, (m <= s)%nat ->
    let r := for_upto m (fun idx a => <[(n - s + idx)%nat := 0]> a) a1 in
    length r = length a /\ forall k, word r k = if (n - s <=? k)%nat && (k <? n - s + m)%nat then 0 else word a1 k).
  { induction m as [|m IH]; intros Hm; cbn [for_upto].
    - split; [done|]. intros k. by repeat case_cmp; simpl; try lia.
    - destruct IH as [L Hk]; [lia|]. cbv zeta. rewrite length_insert. split; [done|]. intros k.
      rewrite word_insert, Hk by (rewrite L; lia).
      destruct (Nat.eqb_spec k (n - s + m)) as [->|Hne].
      + rewrite (proj2 (Nat.leb_le _ _)), (proj2 (Nat.ltb_lt _ (n - s + S m))) by lia. done.
      + f_equal. by repeat case_cmp; try lia. }
  destruct (H2 s (le_n _)) as [L2 K2]. split; [done|]. intros k Hk. rewrite K2, K1.
  repeat case_cmp; simpl; try lia; done.
Qed.

(** The words above the ones in use stay. *)
Lemma for_upto_word_frame m (p : nat -> nat) (g : nat -> list Z -> Z) a k :
  (forall j, (j < m)%nat -> p j <> k) ->
  word (for_upto m (fun j a => <[p j := g j a]> a) a) k = word a k.
Proof.
  induction m as [|m IH]; intros H; cbn [for_upto]; [done|].
  rewrite <- IH by (intros; apply H; lia). set (r := for_upto m _ a).
  destruct (Nat.lt_ge_cases (p m) (length r)).
  - rewrite word_insert by done. by rewrite (proj2 (Nat.eqb_neq _ _)) by (specialize (H m); lia).
  - by rewrite list_insert_ge by lia.
Qed.

Lemma shr_words_above n s a k : (s < n)%nat -> (n <= k)%nat -> word (shr_words n s a) k = word a k.
Proof.
  intros Hs Hk. unfold shr_words.
  rewrite (for_upto_word_frame s (fun idx => n - s + idx)%nat (fun _ _ => 0)) by lia.
  apply (for_upto_word_frame (n - s) (fun idx => idx) (fun idx a => word a (idx + s))). lia.
Qed.

Lemma shr_bits_loop o a n m :
  (m <= n)%nat -> (n <= length a)%nat ->
  let r := for_upto m (fun t s => let '(a, pad) := s in
    let idx := (n - t)%nat in
    let new_pad := wshl (word a (idx - 1)) (W - o) in
    (<[(idx - 1)%nat := Z.lor pad (wshr (word a (idx - 1)) o)]> a, new_pad)) (a, 0) in
  let up k := if (k <? n)%nat then wshl (word a k) (W - o) else 0 in
  length (fst r) = length a /\
  (forall k, word (fst r) k = if (n - m <=? k)%nat && (k <? n)%nat then
     Z.lor (up (S k)) (wshr (word a k) o) else word a k) /\
  snd r = up (n - m)%nat.
Proof.
  intros Hm Hn. induction m as [|m IH]; cbn [for_upto]; cbv zeta.
  - cbn [fst snd]. rewrite Nat.sub_0_r, Nat.ltb_irrefl. split_and!; [done| |done].
    intros k. by repeat case_cmp; simpl; try lia.
  - destruct IH as (L & Hk & Hp); [lia|]. cbv zeta in L, Hk, Hp.
    destruct (for_upto m _ (a, 0)) as [a1 pad]. cbn [fst snd] in *.
    assert (E : word a1 (n - m - 1) = word a (n - m - 1)).
    { rewrite Hk, (proj2 (Nat.leb_gt _ _)) by lia. done. }
    rewrite length_insert, E. split_and!; [done| |].
    + intros k. rewrite word_insert by lia. destruct (Nat.eqb_spec k (n - m - 1)) as [->|Hne].
      * rewrite (proj2 (Nat.leb_le _ _)), (proj2 (Nat.ltb_lt (n - m - 1) n)) by lia. cbn [andb].
        rewrite Hp. by replace (S (n - m - 1)) with (n - m)%nat by lia.
      * rewrite Hk. replace (n - S m <=? k)%nat with (n - m <=? k)%nat; [done|].
        by repeat case_cmp; try lia.
    + replace (n - S m)%nat with (n - m - 1)%nat by lia.
      by rewrite (proj2 (Nat.ltb_lt _ _)) by lia.
Qed.

(** The bit shift divides. *)
Lemma shr_bits_num (f : nat -> Z) o n :
  (0 < o < W)%nat -> (forall k, is_word (f k)) ->
  2 ^ Z.of_nat o * wsum (fun k => Z.lor (wshl (f (S k)) (W - o)) (wshr (f k) o)) n
  = wsum f n - f 0%nat mod 2 ^ Z.of_nat o + pow64 n * (f n mod 2 ^ Z.of_nat o).
Proof.
  intros Ho Hf. pose proof (pow2_W o ltac:(lia)) as HP.
  assert (Hp : 0 < 2 ^ Z.of_nat o) by (apply Z.pow_pos_nonneg; lia).
  induction n as [|n IH]; cbn [wsum]; [rewrite pow64_0; lia|].
  rewrite Z.mul_add_distr_l, IH.
  assert (E : Z.lor (wshl (f (S n)) (W - o)) (wshr (f n) o)
              = f (S n) mod 2 ^ Z.of_nat o * 2 ^ Z.of_nat (W - o) + f n / 2 ^ Z.of_nat o).
  { destruct (wshl_split (f (S n)) (W - o) (Hf _) ltac:(lia)) as (-> & _).
    replace (W - (W - o))%nat with o by lia. rewrite wshr_num by lia. apply lor_shifted.
    destruct (wshl_split (f n) (W - o) (Hf _) ltac:(lia)) as (_ & _ & B).
    replace (W - (W - o))%nat with o in B by lia. by rewrite wshr_num in B by lia. }
  rewrite E, pow64_S, <- HP. pose proof (Z.div_mod (f n) (2 ^ Z.of_nat o) ltac:(lia)) as HD.
  set (q := f n / 2 ^ Z.of_nat o) in *. set (r := f n mod 2 ^ Z.of_nat o) in *.
  rewrite HD. ring.
Qed.

Lemma shr_bits_spec n o a :
  (0 < o < W)%nat -> (0 < n)%nat -> words a -> (n <= length a)%nat ->
  words (shr_bits n o a) /\ length (shr_bits n o a) = length a /\
  wsum (word (shr_bits n o a)) n = wsum (word a) n / 2 ^ Z.of_nat o.
Proof.
  intros Ho Hn Hw Hl. unfold shr_bits. destruct (shr_bits_loop o a n n (le_n _) Hl) as (L & Hk & _).
  cbv zeta in L, Hk. set (r := for_upto n _ (a, 0)) in *. rewrite Nat.sub_diag in Hk.
  assert (HwR : words (fst r)).
  { apply words_of. intros k _. rewrite Hk. repeat case_match; auto with word. }
  split_and!; [done|done|].
  set (f := fun k => if (k <? n)%nat then word a k else 0).
  assert (Hf : forall k, is_word (f k)) by (intros k; unfold f; case_match; auto with word).
  rewrite (wsum_ext _ (fun k => Z.lor (wshl (f (S k)) (W - o)) (wshr (f k) o))).
  2:{ intros k Hk'. rewrite Hk. unfold f. rewrite (proj2 (Nat.ltb_lt k n) Hk'). cbn [Nat.leb andb].
      f_equal. case_match; [done|]. symmetry. unfold wshl. by rewrite Z.shiftl_0_l. }
  pose proof (shr_bits_num f o n Ho Hf) as HN.
  assert (Ef : f n = 0) by (unfold f; by rewrite Nat.ltb_irrefl).
  rewrite Ef, Z.mod_0_l, Z.mul_0_r, Z.add_0_r in HN by (apply Z.pow_nonzero; lia).
  rewrite (wsum_ext f (word a) n) in HN
    by (intros k Hk'; unfold f; by rewrite (proj2 (Nat.ltb_lt _ _) Hk')).
  apply (Z.div_unique_pos _ _ _ (f 0%nat mod 2 ^ Z.of_nat o)); [|lia].
  apply Z.mod_pos_bound. apply Z.pow_pos_nonneg; lia.
Qed.

(** On a number already within the bits kept, the cleanup changes nothing. *)
Lemma clear_top_spec fuel n ms a :
  words a -> (n <= length a)%nat -> (ms <= n * W)%nat ->
  wsum (word a) n < 2 ^ Z.of_nat (n * W - ms) -> clear_top fuel n ms a = Some a.
Proof.
  revert n ms. induction fuel as [|fuel IH]; intros n ms Hw Hl Hm HB; [done|]. cbn [clear_top].
  pose proof (wsum_bound (word a) (n - 1) ltac:(auto with word)) as HL.
  pose proof (word_is_word a (n - 1) Hw) as Hx.
  assert (HN : (0 < n)%nat -> wsum (word a) n = wsum (word a) (n - 1) + pow64 (n - 1) * word a (n - 1)).
  { intros Hp. replace n with (S (n - 1)) at 1 by lia. done. }
  pose proof (pow64_pos (n - 1)) as HP.
  assert (Eins : forall w, word a (n - 1) = w -> <[(n - 1)%nat := w]> a = a).
  { intros w E. apply word_ext; [by rewrite length_insert|]. intros k Hk.
    rewrite length_insert in Hk. destruct (Nat.lt_ge_cases (n - 1) (length a)).
    - rewrite word_insert by done. case_cmp; congruence.
    - by rewrite list_insert_ge by lia. }
  destruct (Nat.leb_spec W ms) as [Hbig|Hsmall].
  - assert (Hp : (0 < n)%nat) by (unfold W in *; lia). specialize (HN Hp).
    assert (E0 : word a (n - 1) = 0).
    { assert (2 ^ Z.of_nat (n * W - ms) <= pow64 (n - 1)).
      { rewrite pow64_pow2. apply Z.pow_le_mono_r; unfold W in *; lia. }
      unfold is_word in Hx. nia. }
    rewrite (proj2 (Nat.ltb_lt 0 n)), (Eins 0 E0) by done. apply IH; try done; try (unfold W in *; lia).
    replace ((n - 1) * W - (ms - W))%nat with (n * W - ms)%nat by (unfold W in *; lia).
    rewrite E0 in HN. lia.
  - destruct (Nat.ltb_spec 0 ms) as [Hpos|]; [|done].
    assert (Hp : (0 < n)%nat) by (unfold W in *; lia). specialize (HN Hp).
    rewrite (proj2 (Nat.ltb_lt 0 n)) by done. f_equal. apply Eins.
    assert (HM : wshr wones ms = Z.ones (Z.of_nat (W - ms))).
    { rewrite wshr_num by done. rewrite Z.ones_equiv. unfold wones. rewrite <- (pow2_W ms) by lia.
      assert (0 < 2 ^ Z.of_nat ms) by (apply Z.pow_pos_nonneg; lia). symmetry.
      apply (Z.div_unique_pos _ _ _ (2 ^ Z.of_nat ms - 1)); lia. }
    rewrite HM, Z.land_ones by lia. symmetry. apply Z.mod_small. split; [apply Hx|].
    replace (n * W - ms)%nat with ((n - 1) * W + (W - ms))%nat in HB by (unfold W in *; lia).
    rewrite Nat2Z.inj_add, Z.pow_add_r, <- pow64_pow2 in HB by apply Nat2Z.is_nonneg. nia.
Qed.

(** The word part of the right shift. *)
Lemma shr_word_part n s ws :
  words ws -> (s < n <= length ws)%nat ->
  let a := if (0 <? s)%nat then shr_words n s ws else ws in
  words a /\ length a = length ws /\ wsum (word a) n = wsum (word ws) n / pow64 s.
Proof.
  intros Hw [Hsn Hl] a. unfold a. destruct (Nat.ltb_spec 0 s) as [Hs|Hs].
  2:{ assert (E : s = 0%nat) by lia. by rewrite E, pow64_0, Z.div_1_r. }
  destruct (shr_words_spec n s ws Hsn Hl) as [L Hk]. split_and!; [|done|].
  - apply words_of. intros j Hj. destruct (Nat.lt_ge_cases j n) as [Hjn|Hjn].
    + rewrite Hk by done. case_match; auto with word.
    + rewrite shr_words_above by done. auto with word.
  - rewrite (wsum_words _ _ _ Hk).
    assert (EN : wsum (word ws) n = wsum (word ws) s + pow64 s * wsum (fun k => word ws (s + k)) (n - s)).
    { rewrite <- wsum_split. f_equal. lia. }
    rewrite EN. pose proof (pow64_pos s). pose proof (wsum_bound (word ws) s ltac:(auto with word)).
    rewrite Z.mul_comm, Z.div_add, Z.div_small, Z.add_0_l by lia.
    pose proof (wsum_shifted_down (word ws) s (n - s)) as HS. by replace (n - s + s)%nat with n in HS by lia.
Qed.

(** [(BITS_PER_WORD - wid%BITS_PER_WORD) % BITS_PER_WORD]: the unused bits of the words. *)
Lemma unused_bits wid :
  (0 < wid)%nat -> ((W - wid mod W) mod W = words_for wid * W - wid)%nat.
Proof.
  intros Hn. pose proof (words_for_bounds wid) as [B1 B2]. specialize (B2 Hn).
  destruct (last_bits_eq wid Hn) as (Hb & Hd & Hm). rewrite Hm.
  destruct (Nat.eqb_spec (last_bits wid) W) as [E|E].
  - rewrite Nat.sub_0_r, Nat.Div0.mod_same. unfold W in *. lia.
  - rewrite Nat.mod_small by lia. unfold W in *. lia.
Qed.

(** [operator >>=] divides a clean vector by 2^shift; the shift within the word must not
    exceed the width, or the assertion of the cleanup fails. *)
Lemma vec2_shr_spec v k :
  wf2 v -> clean v -> (k mod W <= wid v)%nat ->
  exists r, vec2_shr v k = Some r /\
    wf2 r /\ wid r = wid v /\ clean r /\ uZ r = uZ v / 2 ^ Z.of_nat k.
Proof.
  intros [Hw Hl] Hc Hkw. pose proof (uZ_bound v (conj Hw Hl)) as HB. unfold vec2_shr.
  assert (Hpk : 0 < 2 ^ Z.of_nat k) by (apply Z.pow_pos_nonneg; lia).
  assert (HC : uZ v / 2 ^ Z.of_nat k < 2 ^ Z.of_nat (wid v)).
  { apply (Z.le_lt_trans _ (uZ v)); [|apply Hc]. apply Z.div_le_upper_bound; nia. }
  destruct (Nat.eqb_spec (wid v) 0) as [E0|E0].
  { exists v. split_and!; try done. unfold uZ. rewrite E0. cbn. by rewrite Z.div_0_l by lia. }
  assert (Hn : (0 < wid v)%nat) by lia. cbv zeta. pose proof (words_for_pos _ Hn) as Hwp.
  rewrite (unused_bits _ Hn). unfold clean in *. set (n := words_for (wid v)) in *. pose proof (pow_word_split k) as HP.
  assert (Hgoal : forall a, words a -> length a = length (vec v) -> wsum (word a) n = uZ v / 2 ^ Z.of_nat k ->
     exists r, Some (mkVec2 a (wid v)) = Some r /\
     wf2 r /\ wid r = wid v /\ uZ r < 2 ^ Z.of_nat (wid r) /\ uZ r = uZ v / 2 ^ Z.of_nat k).
  { intros a Wa La Va. eexists. split; [done|]. unfold wf2, uZ at 1 3. cbn [vec wid]. fold n. rewrite La, Va. done. }
  pose proof (words_for_bounds (wid v)) as [B1 B2]. specialize (B2 Hn). fold n in B1, B2.
  destruct (Nat.leb_spec n (k / W)) as [Hbig|Hsmall].
  - destruct (zero_words_spec n (vec v) Hl) as [L Hk]. apply Hgoal; [|done|].
    + apply words_of. intros j _. rewrite Hk. case_match; auto with word.
    + rewrite (wsum_ext _ (fun _ => 0)), wsum_0 by (intros j Hj; by rewrite Hk, (proj2 (Nat.ltb_lt _ _) Hj)).
      symmetry. apply Z.div_small. split; [lia|]. apply (Z.lt_le_trans _ _ _ (proj2 HB)).
      rewrite pow64_pow2. apply Z.pow_le_mono_r; [lia|]. apply Nat2Z.inj_le.
      pose proof (Nat.div_mod_eq k W). unfold W in *. lia.
  - destruct (shr_word_part n (k / W) (vec v) Hw (conj Hsmall Hl)) as (Wa & La & Va).
    change (wsum (word (vec v)) n) with (uZ v) in Va. set (a := if (0 <? k / W)%nat then _ else _) in *.
    destruct (Nat.ltb_spec 0 (k mod W)) as [Ho|Ho].
    + pose proof (mod_W_lt k).
      destruct (shr_bits_spec n (k mod W) a ltac:(lia) Hwp Wa ltac:(lia)) as (W1 & L1 & V1).
      rewrite Va, Z.div_div, HP in V1 by (try apply Z.pow_pos_nonneg; pose proof (pow64_pos (k / W)); lia).
      rewrite clear_top_spec; [apply Hgoal; [done|lia|done]|done|lia|unfold W in *; lia|].
      rewrite V1. apply Z.div_lt_upper_bound; [done|].
      apply (Z.lt_le_trans _ _ _ Hc). rewrite <- Z.pow_add_r by lia. apply Z.pow_le_mono_r; [lia|].
      pose proof (Nat.Div0.mod_le k W). unfold W in *. lia.
    + apply Hgoal; [done|done|]. rewrite Va, <- HP. replace (k mod W)%nat with 0%nat by lia.
      by rewrite Z.mul_1_r.
Qed.

(** ** Constructors *)

Lemma wsum_only_first n w : wsum (word (w :: replicate n 0)) (S n) = w.
Proof.
  rewrite wsum_shift. change (word (w :: replicate n 0) 0) with w.
  rewrite (wsum_ext _ (fun _ => 0)), wsum_0; [lia|].
  intros k Hk. change (word (w :: replicate n 0) (S k)) with (word (replicate n 0) k).
  by apply word_replicate.
Qed.

Lemma vec2_of_long_spec w n :
  (0 < n)%nat -> is_word w -> wf2 (vec2_of_long w n) /\ uZ (vec2_of_long w n) = w.
Proof.
  intros Hn Hw. pose proof (words_for_pos n Hn) as Hp. unfold vec2_of_long, wf2, uZ. cbn [vec wid].
  destruct (words_for n) as [|m] eqn:E; [lia|]. cbn [replicate insert list_insert]. split; [split|].
  - constructor; [done|]. apply Forall_replicate. auto with word.
  - simpl. rewrite length_replicate. done.
  - apply wsum_only_first.
Qed.

(** A loop that fills an array. *)
Lemma fill_array n (f : nat -> Z) :
  (forall k, (k < n)%nat -> is_word (f k)) ->
  let r := for_upto n (fun idx a => <[idx := f idx]> a) (replicate n 0) in
  words r /\ length r = n /\ wsum (word r) n = wsum f n.
Proof.
  intros Hf. destruct (for_insert n f (replicate n 0)) as [L Hk]; [by rewrite length_replicate|].
  cbv zeta. rewrite length_replicate in L. split_and!; [|done|].
  - apply words_of. intros k Hk'. rewrite L in Hk'. rewrite Hk, (proj2 (Nat.ltb_lt _ _) Hk'). auto.
  - apply wsum_ext. intros k Hk'. by rewrite Hk, (proj2 (Nat.ltb_lt _ _) Hk').
Qed.

Lemma copy_from_vec2_spec v :
  wf2 v -> wf2 (copy_from_vec2 v) /\ wid (copy_from_vec2 v) = wid v /\ uZ (copy_from_vec2 v) = uZ v.
Proof.
  intros [Hw Hl]. unfold copy_from_vec2. destruct (Nat.eqb_spec (words_for (wid v)) 0) as [E|E].
  - pose proof (words_for_pos (wid v)). assert (E0 : wid v = 0%nat) by lia.
    unfold wf2, uZ. rewrite E0. cbn [vec2_nil vec wid]. by split_and!.
  - destruct (fill_array (words_for (wid v)) (word (vec v))) as (W1 & L1 & V1); [auto with word|].
    unfold wf2, uZ. cbn [vec wid]. rewrite L1, V1. done.
Qed.

(** Changing the size keeps the number modulo the words of the new size. *)
Lemma vec2_resize_spec v n :
  wf2 v -> (0 < n)%nat ->
  wf2 (vec2_resize v n) /\ wid (vec2_resize v n) = n /\
  uZ (vec2_resize v n) = uZ v mod pow64 (words_for n).
Proof.
  intros [Hw Hl] Hn. unfold vec2_resize. rewrite (proj2 (Nat.eqb_neq n 0)) by lia.
  set (f := fun idx => if (idx <? words_for (wid v))%nat then word (vec v) idx else 0).
  assert (Hf : forall k, is_word (f k)) by (intros k; unfold f; case_match; auto with word).
  destruct (fill_array (words_for n) f) as (W1 & L1 & V1); [auto|].
  unfold wf2, uZ. cbn [vec wid]. unfold f in L1, V1 at 1. rewrite L1, V1. split_and!; [done|done|done|].
  set (m := words_for (wid v)) in *.
  assert (E : wsum (word (vec v)) m = wsum f m).
  { apply wsum_ext. intros k Hk. unfold f. by rewrite (proj2 (Nat.ltb_lt _ _) Hk). }
  rewrite E. destruct (Nat.le_gt_cases m (words_for n)) as [H|H].
  - replace (words_for n) with (m + (words_for n - m))%nat at 1 by lia. rewrite wsum_split.
    rewrite (wsum_ext (fun k => f (m + k)%nat) (fun _ => 0)), wsum_0, Z.mul_0_r, Z.add_0_r.
    + symmetry. apply Z.mod_small. split; [apply wsum_bound; auto|].
      apply (Z.lt_le_trans _ (pow64 m)); [apply wsum_bound; auto|].
      rewrite !pow64_pow2. apply Z.pow_le_mono_r; unfold W; lia.
    + intros k _. unfold f. by rewrite (proj2 (Nat.ltb_ge _ _)) by lia.
  - replace m with (words_for n + (m - words_for n))%nat at 1 by lia. rewrite wsum_split.
    rewrite (Z.mul_comm (pow64 _)), Z.mod_add by (pose proof (pow64_pos (words_for n)); lia).
    symmetry. apply Z.mod_small, wsum_bound. auto.
Qed.

(** * Arithmetic *)

Lemma carry_words_spec operand c n a b :
  words a -> words b -> (n <= length a)%nat -> (forall w, is_word w -> is_word (operand w)) -> 0 <= c <= 1 ->
  words (carry_words operand c n a b) /\ length (carry_words operand c n a b) = length a /\
  wsum (word (carry_words operand c n a b)) n mod pow64 n
  = (wsum (word a) n + (wsum (fun k => operand (word b k)) n + c)) mod pow64 n.
Proof.
  intros Ha Hb Hl Ho Hc. unfold carry_words.
  pose proof (chain_spec add_carry 0 (fun k => operand (word b k)) n a c Ha
    (fun k _ => Ho _ (word_is_word b k Hb)) Hc Hl) as H.
  cbn [Nat.add] in H.
  destruct (for_upto n (fun k => carry_step add_carry k (operand (word b k))) (a, c)) as [ws' c'].
  destruct H as (W1 & L1 & C1 & K1 & V1). cbn [fst]. split_and!; [done|done|].
  rewrite pow64_0, Z.mul_1_l in V1. pose proof (pow64_pos n).
  assert (HS : forall ws, words ws -> (n <= length ws)%nat ->
    wval ws = wsum (word ws) n + pow64 n * wsum (fun k => word ws (n + k)%nat) (length ws - n)).
  { intros ws _ Hn. rewrite <- (wsum_word ws), <- wsum_split. f_equal. lia. }
  rewrite (HS ws'), (HS a), L1 in V1 by (done || lia).
  rewrite (wsum_ext (fun k => word ws' (n + k)%nat) (fun k => word a (n + k)%nat)) in V1
    by (intros k _; apply K1; lia).
  rewrite <- (Z.mod_add (wsum (word ws') n) c') by lia. f_equal. lia.
Qed.

(** [operator +=]: the sum modulo 2^width, with the bits above the width cleared. *)
Lemma vec2_add_spec a b :
  wf2 a -> wf2 b -> wid a = wid b ->
  exists r, vec2_add a b = Some r /\ wf2 r /\ wid r = wid a /\ clean r /\
    uZ r = (uZ a + uZ b) mod 2 ^ Z.of_nat (wid a).
Proof.
  intros [Wa La] [Wb Lb] E. unfold vec2_add. rewrite (proj2 (Nat.eqb_eq _ _) E).
  destruct (Nat.eqb_spec (wid a) 0) as [E0|E0].
  - exists a. unfold clean, uZ. rewrite <- E, E0. change (words_for 0) with 0%nat. cbn [wsum]. by split_and!.
  - destruct (carry_words_spec (fun w => w) 0 (words_for (wid a)) (vec a) (vec b)) as (W1 & L1 & V1);
      try done.
    destruct (clean_tail_clean (wid a) _ ltac:(lia) W1 ltac:(lia)) as (R1 & R2 & R3).
    eexists. split_and!; [done|done|done|done|]. rewrite R3. apply mod_words_mod. rewrite V1.
    unfold uZ. rewrite <- E, Z.add_0_r. done.
Qed.

(** [operator -=]: the difference modulo the words; the bits above the width are kept. *)
Lemma vec2_sub_spec a b :
  wf2 a -> wf2 b -> wid a = wid b ->
  exists r, vec2_sub a b = Some r /\ wf2 r /\ wid r = wid a /\
    uZ r = (uZ a - uZ b) mod pow64 (words_for (wid a)).
Proof.
  intros [Wa La] [Wb Lb] E. unfold vec2_sub. rewrite (proj2 (Nat.eqb_eq _ _) E).
  destruct (Nat.eqb_spec (wid a) 0) as [E0|E0].
  - exists a. unfold uZ. rewrite <- E, E0. change (words_for 0) with 0%nat. cbn [wsum]. by split_and!.
  - destruct (carry_words_spec wnot 1 (words_for (wid a)) (vec a) (vec b)) as (W1 & L1 & V1);
      try done; [auto with word|].
    eexists. split_and!; [done|split; cbn [vec wid]; [done|lia]|done|]. unfold uZ. cbn [vec wid].
    pose proof (pow64_pos (words_for (wid a))).
    rewrite <- (Z.mod_small (wsum _ _) (pow64 (words_for (wid a)))) at 1 by (apply wsum_bound; auto with word).
    rewrite V1, wsum_wnot by (rewrite E; done). rewrite <- E.
    rewrite <- (Z.mod_add (wsum (word (vec a)) _ - _) 1) by lia. f_equal. lia.
Qed.

Lemma for_not n a :
  (n <= length a)%nat ->
  let r := for_upto n (fun idx a => <[idx := wnot (word a idx)]> a) a in
  length r = length a /\ forall k, word r k = if (k <? n)%nat then wnot (word a k) else word a k.
Proof.
  induction n as [|n IH]; intros Hn; cbn [for_upto]; [done|].
  destruct IH as [L Hk]; [lia|]. cbv zeta. rewrite length_insert. split; [done|]. intros k.
  rewrite word_insert, !Hk by (rewrite L; lia). rewrite Nat.ltb_irrefl.
  destruct (Nat.eqb_spec k n) as [->|Hne]; [by rewrite (proj2 (Nat.ltb_lt n (S n))) by lia|].
  replace (k <? S n)%nat with (k <? n)%nat; [done|]. by repeat case_cmp; try lia.
Qed.

(** Unary minus: the two's complement in the width. *)
Lemma vec2_neg_spec v :
  wf2 v ->
  exists r, vec2_neg v = Some r /\ wf2 r /\ wid r = wid v /\ clean r /\
    uZ r = (- uZ v) mod 2 ^ Z.of_nat (wid v).
Proof.
  intros Hv. unfold vec2_neg. destruct (copy_from_vec2_spec v Hv) as ([Wc Lc] & Sc & Vc).
  set (c := copy_from_vec2 v) in *. destruct (Nat.eqb_spec (wid c) 0) as [E0|E0].
  - exists c. unfold clean. assert (uZ c = 0) as Z0 by (unfold uZ; by rewrite E0).
    rewrite <- Vc, Z0, <- Sc, E0. by split_and!.
  - assert (Hn : (0 < wid c)%nat) by lia.
    destruct (for_not (words_for (wid c)) (vec c) Lc) as [L Hk].
    set (a := for_upto _ _ (vec c)) in *.
    assert (Ha : wf2 (mkVec2 a (wid c))).
    { split; cbn [vec wid]; [|lia]. apply words_of. intros k _. rewrite Hk. case_match; auto with word. }
    destruct (vec2_of_long_spec 1 (wid c) Hn ltac:(auto with word)) as [W1 V1].
    destruct (vec2_add_spec (mkVec2 a (wid c)) (vec2_of_long 1 (wid c)) Ha W1 eq_refl)
      as (r & E & Wr & Sr & Cr & Vr).
    exists r. split_and!; try done; [cbn [wid] in Sr; congruence|]. rewrite Vr, V1. cbn [wid]. rewrite Sc.
    apply mod_words_mod. rewrite <- Sc. unfold uZ at 1. cbn [vec wid].
    rewrite (wsum_ext _ (fun k => wnot (word (vec c) k)))
      by (intros k Hk'; by rewrite Hk, (proj2 (Nat.ltb_lt _ _) Hk')).
    rewrite wsum_wnot by done. rewrite <- Vc. fold (uZ c). pose proof (pow64_pos (words_for (wid c))).
    rewrite <- (Z.mod_add (- uZ c) 1) by lia. f_equal. lia.
Qed.

(** * Comparison *)

(** Comparing word by word from the top is comparing the numbers. *)
Lemma cmp_words_spec n f g :
  (forall k, is_word (f k)) -> (forall k, is_word (g k)) ->
  cmp_words n f g = (wsum f n ?= wsum g n).
Proof.
  intros Hf Hg. induction n as [|n IH]; [done|]. cbn [cmp_words wsum].
  pose proof (wsum_bound f n ltac:(auto)). pose proof (wsum_bound g n ltac:(auto)).
  destruct (Z.ltb_spec (g n) (f n)).
  { symmetry. apply Z.compare_gt_iff. nia. }
  destruct (Z.ltb_spec (f n) (g n)).
  { symmetry. apply Z.compare_lt_iff. nia. }
  rewrite IH. replace (g n) with (f n) by lia. by rewrite !(Z.add_comm (wsum _ n)), Zcompare_plus_compat.
Qed.

Lemma wsum_word_or_0 v n : (words_for (wid v) <= n)%nat -> wsum (word_or_0 v) n = uZ v.
Proof.
  intros H. replace n with (words_for (wid v) + (n - words_for (wid v)))%nat by lia.
  rewrite wsum_split. rewrite (wsum_ext (fun k => word_or_0 v (words_for (wid v) + k)) (fun _ => 0))
    by (intros k _; unfold word_or_0; by rewrite (proj2 (Nat.ltb_ge _ _)) by lia).
  rewrite wsum_0, Z.mul_0_r, Z.add_0_r. apply wsum_ext. intros k Hk.
  unfold word_or_0. by rewrite (proj2 (Nat.ltb_lt _ _) Hk).
Qed.

Lemma vec2_cmp_spec a b : wf2 a -> wf2 b -> vec2_cmp a b = (uZ a ?= uZ b).
Proof.
  intros [Wa _] [Wb _]. unfold vec2_cmp.
  rewrite cmp_words_spec by (intros k; unfold word_or_0; case_match; auto with word).
  case_cmp; by rewrite !wsum_word_or_0 by lia.
Qed.

Lemma vec2_lt_spec a b : wf2 a -> wf2 b -> vec2_lt a b = (uZ a <? uZ b).
Proof. intros Ha Hb. unfold vec2_lt. by rewrite vec2_cmp_spec. Qed.

Lemma vec2_ge_spec a b : wf2 a -> wf2 b -> vec2_ge a b = (uZ b <=? uZ a).
Proof.
  intros Ha Hb. unfold vec2_ge. rewrite vec2_cmp_spec by done. rewrite Z.leb_compare, (Z.compare_antisym (uZ a)).
  by destruct (uZ a ?= uZ b).
Qed.

Lemma vec2_gt_spec a b : wf2 a -> wf2 b -> vec2_gt a b = (uZ b <? uZ a).
Proof.
  intros Ha Hb. unfold vec2_gt. rewrite vec2_cmp_spec by done. unfold Z.ltb. rewrite (Z.compare_antisym (uZ a)).
  by destruct (uZ a ?= uZ b).
Qed.

Lemma vec2_eq_spec a b : wf2 a -> wf2 b -> vec2_eq a b = (uZ a =? uZ b).
Proof. intros Ha Hb. unfold vec2_eq. rewrite vec2_cmp_spec by done. by rewrite Z.eqb_compare. Qed.

Lemma vec2_le_spec a b :
  wf2 a -> wf2 b -> vec2_le a b = if (wid a =? wid b)%nat then Some (uZ a <=? uZ b) else None.
Proof.
  intros [Wa _] [Wb _]. unfold vec2_le.
  destruct (Nat.eqb_spec (wid a) (wid b)) as [E|]; [|done].
  rewrite cmp_words_spec by auto with word. unfold Z.leb, uZ. by rewrite <- E.
Qed.

(** * Multiplication and power *)

Lemma mul_row2_spec n l (f : nat -> Z) a x res m :
  holds n x res -> is_word l -> (forall k, is_word (f k)) ->
  holds n (x + pow64 a * l * wsum f m)
    (for_upto m (fun adx res =>
       if f adx =? 0 then res else
       let '(low, hig) := multiply_long (f adx) l in
       accumulate add_carry (adx + a) n low hig res) res).
Proof.
  intros Hr Hl Hf. induction m as [|m IH]; cbn [for_upto wsum].
  - by rewrite Z.mul_0_r, Z.add_0_r.
  - set (r := for_upto m _ res) in *.
    assert (E : x + pow64 a * l * (wsum f m + pow64 m * f m)
              = x + pow64 a * l * wsum f m + pow64 (m + a) * (f m * l)) by (rewrite pow64_add; ring).
    rewrite E. destruct (Z.eqb_spec (f m) 0) as [->|_]; [by rewrite Z.mul_0_l, Z.mul_0_r, Z.add_0_r|].
    pose proof (accumulate_product add_carry multiply_long (m + a) n (f m) l _ r IH (Hf m) Hl) as H.
    by destruct (multiply_long (f m) l).
Qed.

Lemma mul_rows2_spec n (f g : nat -> Z) m x res :
  holds n x res -> (forall k, is_word (f k)) -> (forall k, is_word (g k)) ->
  holds n (x + wsum f n * wsum g m)
    (for_upto m (fun bdx res =>
       if g bdx =? 0 then res else
       for_upto n (fun adx res =>
         if f adx =? 0 then res else
         let '(low, hig) := multiply_long (f adx) (g bdx) in
         accumulate add_carry (adx + bdx) n low hig res) res) res).
Proof.
  intros Hr Hf Hg. induction m as [|m IH]; cbn [for_upto wsum].
  - by rewrite Z.mul_0_r, Z.add_0_r.
  - set (r := for_upto m _ res) in *.
    assert (E : x + wsum f n * (wsum g m + pow64 m * g m)
              = x + wsum f n * wsum g m + pow64 m * g m * wsum f n) by ring.
    rewrite E. destruct (Z.eqb_spec (g m) 0) as [->|_]; [by rewrite Z.mul_0_r, Z.mul_0_l, Z.add_0_r|].
    by apply mul_row2_spec.
Qed.

(** [operator *]: the product modulo the words of the vectors. *)
Lemma vec2_mul_spec a b :
  wf2 a -> wf2 b -> wid a = wid b -> (0 < wid a)%nat ->
  exists r, vec2_mul a b = Some r /\ wf2 r /\ wid r = wid a /\
    uZ r = (uZ a * uZ b) mod pow64 (words_for (wid a)).
Proof.
  intros [Wa La] [Wb Lb] E Hn. unfold vec2_mul. rewrite (proj2 (Nat.eqb_eq _ _) E).
  destruct (vec2_of_long_spec 0 (wid a) Hn ltac:(auto with word)) as [[W0 L0] V0].
  change (wid (vec2_of_long 0 (wid a))) with (wid a) in *. set (n := words_for (wid a)) in *.
  assert (L0' : length (vec (vec2_of_long 0 (wid a))) = n).
  { unfold vec2_of_long. cbn [vec]. by rewrite length_insert, length_replicate. }
  destruct (mul_rows2_spec n (word (vec a)) (word (vec b)) n 0 (vec (vec2_of_long 0 (wid a))))
    as (W1 & L1 & [V1]).
  - split_and!; [done|done|]. split. unfold uZ in V0. fold n in V0. cbn [wid] in V0.
    change (words_for (wid (vec2_of_long 0 (wid a)))) with n in V0. by rewrite <- wsum_word, L0', V0.
  - auto with word.
  - auto with word.
  - eexists. split_and!; [done|split; cbn [vec wid]; [done|fold n; lia]|done|].
    unfold uZ. cbn [vec wid]. fold n. rewrite <- E. fold n.
    rewrite Z.add_0_l in V1. rewrite <- V1. rewrite <- wsum_word, L1. symmetry.
    apply Z.mod_small, wsum_bound. auto with word.
Qed.

(** ** Bits *)

Lemma vec2_value_spec v i :
  wf2 v -> (i < wid v)%nat -> vec2_value v i = if Z.testbit (uZ v) (Z.of_nat i) then 1 else 0.
Proof.
  intros [Hw Hl] Hi. unfold vec2_value. rewrite (proj2 (Nat.leb_gt _ _)) by done.
  assert (E : Z.testbit (uZ v) (Z.of_nat i) = tb (word (vec v) (i / W)) (i mod W)).
  { unfold uZ. rewrite wsum_le, testbit_wval by (done || by apply Forall_take). rewrite wbit_word. f_equal.
    unfold word. rewrite !nth_lookup, lookup_take_lt; [done|].
    destruct (words_for_bounds (wid v)) as [B1 _]. apply Nat.Div0.div_lt_upper_bound. lia. }
  rewrite E. destruct (tb _ _) eqn:Eb; case_match eqn:Em; try done; exfalso.
  - apply negb_false_iff in Em. rewrite word_eq_0 in Em by auto with word.
    specialize (Em (i mod W)%nat (mod_W_lt i)). rewrite tb_land, tb_wshl, Eb in Em by apply mod_W_lt.
    rewrite Nat.sub_diag, Nat.leb_refl, (proj2 (Nat.ltb_lt _ _) (mod_W_lt i)) in Em. done.
  - apply negb_true_iff in Em.
    assert (H : (Z.land (word (vec v) (i / W)) (wshl 1 (i mod W)) =? 0) = true); [|congruence].
    apply word_eq_0; [auto with word|]. intros j Hj. rewrite tb_land, tb_wshl by apply mod_W_lt.
    destruct (Nat.eq_dec j (i mod W)%nat) as [->|Hne]; [by rewrite Eb|].
    destruct (Nat.leb_spec (i mod W) j); [|by rewrite !andb_false_r].
    unfold tb at 2. rewrite Z.bits_above_log2, !andb_false_r; [done|lia|]. simpl. lia.
Qed.

(** Writing one bit of a word. *)
Lemma word_bit w j :
  is_word w -> (j < W)%nat -> Z.land w (wshl 1 j) = (if tb w j then 2 ^ Z.of_nat j else 0).
Proof.
  intros Hw Hj. rewrite wshl_num by (done || apply one_word). rewrite Z.mul_1_l, Z.mod_small by
    (split; [apply Z.pow_nonneg|apply Z.pow_lt_mono_r; unfold W in *]; lia).
  apply Z.bits_inj'. intros i Hi. rewrite Z.land_spec, Z.pow2_bits_eqb by lia.
  destruct (Z.eqb_spec (Z.of_nat j) i) as [<-|Hne].
  - rewrite andb_true_r. change (Z.testbit w (Z.of_nat j)) with (tb w j).
    destruct (tb w j); [by rewrite Z.pow2_bits_true by lia|by rewrite Z.bits_0].
  - rewrite andb_false_r. destruct (tb w j); [by rewrite Z.pow2_bits_false by lia|by rewrite Z.bits_0].
Qed.

Lemma word_clear_bit w j :
  is_word w -> (j < W)%nat ->
  Z.land w (wnot (wshl 1 j)) = w - (if tb w j then 2 ^ Z.of_nat j else 0).
Proof.
  intros Hw Hj. rewrite <- word_bit by done.
  assert (E : w = Z.land w (wnot (wshl 1 j)) + Z.land w (wshl 1 j)); [|lia].
  rewrite <- lor_disjoint.
  - apply tb_ext; [auto with word..|]. intros i Hi. rewrite tb_lor, !tb_land, tb_wnot by auto with word.
    rewrite (proj2 (Nat.ltb_lt _ _) Hi). by destruct (tb w i), (tb (wshl 1 j) i).
  - apply tb_ext; [auto with word..|]. intros i Hi. rewrite !tb_land, tb_wnot, tb_0 by auto with word.
    rewrite (proj2 (Nat.ltb_lt _ _) Hi). by destruct (tb w i), (tb (wshl 1 j) i).
Qed.

Lemma word_set_bit w j :
  is_word w -> (j < W)%nat ->
  Z.lor w (wshl 1 j) = w + (if tb w j then 0 else 2 ^ Z.of_nat j).
Proof.
  intros Hw Hj. pose proof (word_bit wones j wones_word Hj) as HM.
  rewrite tb_wones, (proj2 (Nat.ltb_lt _ _) Hj) in HM.
  assert (HM' : Z.land wones (wshl 1 j) = wshl 1 j).
  { apply tb_ext; [auto with word..|]. intros i Hi. rewrite tb_land, tb_wones.
    by rewrite (proj2 (Nat.ltb_lt _ _) Hi). }
  rewrite HM' in HM. pose proof (word_bit w j Hw Hj) as HB. destruct (tb w j) eqn:E.
  - rewrite Z.add_0_r. apply tb_ext; [auto with word..|]. intros i Hi. rewrite tb_lor, tb_wshl by done.
    destruct (Nat.eq_dec i j) as [->|]; [by rewrite E|]. destruct (Nat.leb_spec j i).
    + unfold tb at 2. rewrite Z.bits_above_log2, andb_false_r, orb_false_r; [done|lia|]. simpl. lia.
    + by rewrite andb_false_r, orb_false_r.
  - rewrite lor_disjoint, HM by done. done.
Qed.

(** [set_bit]. *)
Lemma vec2_set_bit_spec v i b :
  wf2 v -> (i < wid v)%nat ->
  exists r, vec2_set_bit v i b = Some r /\ wf2 r /\ wid r = wid v /\
    uZ r = uZ v + 2 ^ Z.of_nat i * ((if b =? 0 then 0 else 1) - vec2_value v i).
Proof.
  intros Hv Hi. destruct (Hv) as [Hw Hl]. unfold vec2_set_bit. rewrite (proj2 (Nat.ltb_lt _ _) Hi).
  rewrite vec2_value_spec by done.
  assert (Ha : (i / W < words_for (wid v))%nat).
  { destruct (words_for_bounds (wid v)) as [B1 _]. apply Nat.Div0.div_lt_upper_bound. lia. }
  assert (E : Z.testbit (uZ v) (Z.of_nat i) = tb (word (vec v) (i / W)) (i mod W)).
  { unfold uZ. rewrite wsum_le, testbit_wval by (done || by apply Forall_take). rewrite wbit_word. f_equal.
    unfold word. by rewrite !nth_lookup, lookup_take_lt. }
  rewrite E. pose proof (word_is_word (vec v) (i / W) Hw) as Wx. pose proof (mod_W_lt i) as Hm.
  eexists. split_and!; [done| |done|].
  - split; cbn [vec wid]; [|by rewrite length_insert]. apply words_insert; [done|]. case_match; auto with word.
  - unfold uZ. cbn [vec wid]. rewrite wsum_insert by done. f_equal.
    rewrite <- (pow_word_split i), <- Z.mul_assoc. f_equal.
    destruct (b =? 0); cbn [negb].
    + rewrite word_clear_bit by done. destruct (tb _ _); lia.
    + rewrite word_set_bit by done. destruct (tb _ _); lia.
Qed.

Lemma pow64_gt_1 n : (0 < n)%nat -> 1 < pow64 n.
Proof. intros H. rewrite pow64_pow2. apply (Z.pow_lt_mono_r 2 0); unfold W; lia. Qed.

Lemma vec2_pow_loop_spec fuel k x y :
  wf2 x -> (0 < wid x)%nat -> wf2 y -> clean y ->
  uZ y < 2 ^ Z.of_nat k -> (0 < fuel)%nat -> 2 * Z.of_nat k + uZ y mod 2 <= Z.of_nat fuel ->
  exists r, vec2_pow_loop fuel x y = Some r /\ wf2 r /\ wid r = wid x /\
    uZ r = (uZ x ^ uZ y) mod pow64 (words_for (wid x)).
Proof.
  intros Hx Hn. set (n := words_for (wid x)). pose proof (words_for_pos _ Hn) as Hnp. fold n in Hnp.
  pose proof (pow64_gt_1 n Hnp) as H1.
  revert k y. induction fuel as [|fuel IH]; intros k y Hy Hc Hk Hf Hm; [lia|]. cbn [vec2_pow_loop].
  destruct (vec2_of_long_spec 0 1 ltac:(lia) ltac:(auto with word)) as [Wz Vz].
  rewrite vec2_eq_spec, Vz by done. pose proof (uZ_bound y Hy) as HB.
  destruct (Z.eqb_spec (uZ y) 0) as [E0|E0].
  { destruct (vec2_of_long_spec 1 (wid x) Hn ltac:(auto with word)) as [W1 V1].
    eexists. split_and!; [done|done|done|]. rewrite V1, E0, Z.pow_0_r, Z.mod_small; lia. }
  assert (Hyp : (0 < wid y)%nat).
  { destruct (wid y) eqn:E; [|lia]. unfold clean in Hc. rewrite E in Hc. simpl in Hc. lia. }
  assert (Hkp : (0 < k)%nat) by (destruct k; [simpl in Hk; lia|lia]).
  assert (Hk2 : 2 ^ Z.of_nat k = 2 * 2 ^ Z.of_nat (k - 1)).
  { replace (Z.of_nat k) with (Z.succ (Z.of_nat (k - 1))) by lia. apply Z.pow_succ_r. lia. }
  rewrite vec2_value_spec by done. change (Z.of_nat 0) with 0. rewrite Z.bit0_odd.
  pose proof (Zodd_mod (uZ y)) as Ho. pose proof (Z.div_mod (uZ y) 2 ltac:(lia)) as Hd.
  pose proof (Z.mod_pos_bound (uZ y) 2 ltac:(lia)) as Hr.
  destruct (Z.odd (uZ y)).
  - symmetry in Ho. apply Z.eqb_eq in Ho. cbn [Z.eqb Pos.eqb].
    destruct (vec2_set_bit_spec y 0 0 Hy Hyp) as (y' & -> & Wy & Sy & Vy). cbn [mbind option_bind].
    rewrite vec2_value_spec in Vy by done. change (Z.of_nat 0) with 0 in Vy.
    rewrite Z.bit0_odd, Zodd_mod, Ho in Vy.
    cbn [Z.eqb Pos.eqb] in Vy. change (2 ^ 0) with 1 in Vy.
    assert (Cy : clean y') by (unfold clean in *; rewrite Sy; lia).
    destruct (IH k y' Wy Cy) as (p & -> & Wp & Sp & Vp); [lia|lia| |].
    { assert (E : uZ y' = uZ y / 2 * 2) by lia. rewrite E, Z.mod_mul by lia. lia. }
    cbn [mbind option_bind].
    destruct (vec2_mul_spec x p Hx Wp ltac:(congruence) Hn) as (r & -> & Wr & Sr & Vr).
    exists r. split_and!; try done. rewrite Vr, Vp. fold n. rewrite Z.mul_mod_idemp_r by lia. f_equal.
    rewrite <- Z.pow_succ_r by lia. f_equal. lia.
  - symmetry in Ho. rewrite (proj2 (Z.eqb_neq 0 1)) by lia.
    assert (Hev : uZ y mod 2 = 0) by (apply Z.eqb_neq in Ho; lia).
    destruct (vec2_shr_spec y 1 Hy Hc ltac:(rewrite Nat.mod_small; unfold W; lia)) as (y' & -> & Wy & Sy & Cy & Vy).
    cbn [mbind option_bind]. change (2 ^ Z.of_nat 1) with 2 in Vy.
    destruct (IH (k - 1)%nat y' Wy Cy) as (z & -> & Wz' & Sz & Vz'); [lia|lia| |].
    { pose proof (Z.mod_pos_bound (uZ y') 2). lia. }
    cbn [mbind option_bind].
    destruct (vec2_mul_spec z z Wz' Wz' eq_refl ltac:(congruence)) as (r & -> & Wr & Sr & Vr).
    exists r. split_and!; try done; [congruence|]. rewrite Vr, Sz, Vz'. fold n.
    rewrite <- Z.mul_mod by lia. f_equal. rewrite <- Z.pow_add_r by lia. f_equal. lia.
Qed.

(** [pow]: the power modulo the words of the base. *)
Lemma vec2_pow_spec x y :
  wf2 x -> (0 < wid x)%nat -> wf2 y -> clean y ->
  exists r, vec2_pow x y = Some r /\ wf2 r /\ wid r = wid x /\
    uZ r = (uZ x ^ uZ y) mod pow64 (words_for (wid x)).
Proof.
  intros Hx Hn Hy Hc. unfold vec2_pow. apply (vec2_pow_loop_spec _ (wid y)); try done; [lia|].
  pose proof (Z.mod_pos_bound (uZ y) 2). lia.
Qed.

(** * Division *)

(** A clean vector of a given width and number. *)
Record holds2 (n : nat) (x : Z) (v : vvp_vector2_t) : Prop := {
  h2_wf : wf2 v;
  h2_wid : wid v = n;
  h2_clean : clean v;
  h2_num : uZ v = x }.

Lemma holds2_range n x v : holds2 n x v -> 0 <= x < 2 ^ Z.of_nat n.
Proof. intros [Hw <- Hc <-]. split; [apply (uZ_bound v Hw)|done]. Qed.

Lemma pow2_S_le n : 2 ^ Z.of_nat (S n) = 2 * 2 ^ Z.of_nat n.
Proof. rewrite Nat2Z.inj_succ. apply Z.pow_succ_r. lia. Qed.

Lemma pow2_le_pow64 n : 2 ^ Z.of_nat n <= pow64 (words_for n).
Proof. rewrite pow64_pow2. pose proof (words_for_bounds n). apply Z.pow_le_mono_r; lia. Qed.

Lemma holds2_shl n x v :
  (0 < n)%nat -> holds2 n x v -> holds2 n ((2 * x) mod 2 ^ Z.of_nat n) (vec2_shl v 1).
Proof.
  intros Hn [Hw Hs Hc Hv]. destruct (vec2_shl_spec v 1 Hw) as (W1 & S1 & V1 & C1).
  assert (C : clean (vec2_shl v 1)) by (apply C1; rewrite Nat.mod_small; unfold W; lia).
  split; [done|congruence|done|]. unfold clean in C. rewrite S1, Hs in C. rewrite Hs in V1.
  rewrite Z.mod_small in V1 by (split; [apply (uZ_bound _ W1)|done]).
  rewrite V1, Hv. change (2 ^ Z.of_nat 1) with 2. f_equal. lia.
Qed.

Lemma holds2_shr n x v :
  (0 < n)%nat -> holds2 n x v -> exists r, vec2_shr v 1 = Some r /\ holds2 n (x / 2) r.
Proof.
  intros Hn [Hw Hs Hc Hv].
  destruct (vec2_shr_spec v 1 Hw Hc ltac:(rewrite Nat.mod_small; unfold W; lia)) as (r & E & W1 & S1 & C1 & V1).
  exists r. split; [done|]. split; [done|congruence|done|]. by rewrite V1, Hv.
Qed.

Lemma holds2_add n x y a b :
  holds2 n x a -> holds2 n y b -> x + y < 2 ^ Z.of_nat n ->
  exists r, vec2_add a b = Some r /\ holds2 n (x + y) r.
Proof.
  intros Ha Hb H. pose proof (holds2_range _ _ _ Ha). pose proof (holds2_range _ _ _ Hb).
  destruct Ha as [Wa Sa _ Va], Hb as [Wb Sb _ Vb].
  destruct (vec2_add_spec a b Wa Wb ltac:(congruence)) as (r & E & W1 & S1 & C1 & V1).
  exists r. split; [done|]. split; [done|congruence|done|]. rewrite V1, Va, Vb, Sa. apply Z.mod_small. lia.
Qed.

Lemma holds2_sub n x y a b :
  holds2 n x a -> holds2 n y b -> y <= x ->
  exists r, vec2_sub a b = Some r /\ holds2 n (x - y) r.
Proof.
  intros Ha Hb H. pose proof (holds2_range _ _ _ Ha). pose proof (holds2_range _ _ _ Hb).
  destruct Ha as [Wa Sa _ Va], Hb as [Wb Sb _ Vb].
  destruct (vec2_sub_spec a b Wa Wb ltac:(congruence)) as (r & E & W1 & S1 & V1).
  pose proof (pow2_le_pow64 n).
  assert (V : uZ r = x - y) by (rewrite V1, Va, Vb, Sa; apply Z.mod_small; lia).
  exists r. split; [done|]. split; [done|congruence| |done]. unfold clean. rewrite V, S1, Sa. lia.
Qed.

Lemma holds2_long n x : (0 < n)%nat -> is_word x -> x < 2 ^ Z.of_nat n -> holds2 n x (vec2_of_long x n).
Proof.
  intros Hn Hx H. destruct (vec2_of_long_spec x n Hn Hx) as [W1 V1]. split; try done.
  unfold clean. by rewrite V1.
Qed.

Lemma holds2_resize n m x v :
  (0 < m)%nat -> holds2 n x v -> x < 2 ^ Z.of_nat m -> holds2 m x (vec2_resize v m).
Proof.
  intros Hm Hv H. pose proof (holds2_range _ _ _ Hv). destruct Hv as [Wv Sv _ Vv].
  destruct (vec2_resize_spec v m Wv Hm) as (W1 & S1 & V1). pose proof (pow2_le_pow64 m).
  assert (V : uZ (vec2_resize v m) = x) by (rewrite V1, Vv; apply Z.mod_small; lia).
  split; try done. unfold clean. by rewrite V, S1.
Qed.

(** The mask at level [k]: one bit, shifted out of the width at level [n]. *)
Definition mask_at (n k : nat) : Z := if (k <? n)%nat then 2 ^ Z.of_nat k else 0.

Lemma mask_at_up n k : (k < n)%nat -> (2 * mask_at n k) mod 2 ^ Z.of_nat n = mask_at n (S k).
Proof.
  intros H. unfold mask_at. rewrite (proj2 (Nat.ltb_lt _ _) H). rewrite <- pow2_S_le. case_cmp.
  - apply Z.mod_small. split; [apply Z.pow_nonneg; lia|apply Z.pow_lt_mono_r; lia].
  - replace (S k) with n by lia. apply Z.mod_same. apply Z.pow_nonzero; lia.
Qed.

Lemma div_up_spec fuel n k a d D T M :
  holds2 (S n) a D -> a < 2 ^ Z.of_nat n -> 0 < d ->
  holds2 (S n) (d * 2 ^ Z.of_nat k) T -> holds2 n (mask_at n k) M -> (0 < n)%nat ->
  (k <= n <= fuel + k)%nat -> (k = 0%nat \/ d * 2 ^ Z.of_nat (k - 1) < a) ->
  exists K T' M', div_up fuel D T M = Some (T', M') /\ (K <= n)%nat /\
    holds2 (S n) (d * 2 ^ Z.of_nat K) T' /\ holds2 n (mask_at n K) M' /\
    a <= d * 2 ^ Z.of_nat K /\ (K = 0%nat \/ d * 2 ^ Z.of_nat (K - 1) < a).
Proof.
  intros HD Ha Hd. revert k T M. induction fuel as [|fuel IH]; intros k T M HT HM Hn Hk Hmin;
    unfold div_up; fold div_up; rewrite vec2_lt_spec, (h2_num _ _ _ HT), (h2_num _ _ _ HD) by
      (apply (h2_wf _ _ _ HT) || apply (h2_wf _ _ _ HD)).
  - destruct (Z.ltb_spec (d * 2 ^ Z.of_nat k) a) as [Hlt|Hge].
    + exfalso. replace k with n in Hlt by lia. nia.
    + exists k, T, M. by split_and!; try done; lia.
  - destruct (Z.ltb_spec (d * 2 ^ Z.of_nat k) a) as [Hlt|Hge].
    2:{ exists k, T, M. by split_and!; try done; lia. }
    assert (Hkn : (k < n)%nat).
    { destruct (Nat.eq_dec k n) as [->|]; [|lia]. exfalso. nia. }
    apply (IH (S k)); try done; [| |lia|].
    + pose proof (holds2_shl (S n) _ T ltac:(lia) HT) as H.
      rewrite Z.mod_small in H by (rewrite pow2_S_le; assert (0 < 2 ^ Z.of_nat k) by (apply Z.pow_pos_nonneg; lia); nia).
      replace (d * 2 ^ Z.of_nat (S k)) with (2 * (d * 2 ^ Z.of_nat k)); [done|]. rewrite pow2_S_le. ring.
    + pose proof (holds2_shl n _ M Hn HM) as H. by rewrite mask_at_up in H.
    + right. by rewrite Nat.sub_succ, Nat.sub_0_r.
Qed.

(** One pass of the second loop, and the end of it.  [m] is 0 when the mask was lost. *)
Lemma div_down_done fuel d D T M Q x y :
  wf2 d -> uZ d = y -> wf2 D -> uZ D = x -> x < y -> div_down fuel d D T M Q = Some (D, M, Q).
Proof.
  intros Wd Vd WD VD H. destruct fuel; unfold div_down; fold div_down;
    rewrite vec2_ge_spec, Vd, VD by done; by rewrite (proj2 (Z.leb_gt _ _)).
Qed.

Lemma div_down_spec k fuel n y d D T M Q x q m :
  wf2 d -> uZ d = y -> 0 < y -> (0 < n)%nat -> 0 <= m <= 1 -> 0 <= q ->
  holds2 (S n) x D -> holds2 (S n) (y * 2 ^ Z.of_nat k) T -> holds2 n (m * 2 ^ Z.of_nat k) M ->
  holds2 n (m * q) Q -> x < y * 2 ^ Z.of_nat (S k) -> y * q + x < 2 ^ Z.of_nat n -> (k < fuel)%nat ->
  exists D' M' Q' q', div_down fuel d D T M Q = Some (D', M', Q') /\
    wid M' = n /\ holds2 (S n) (x mod y) D' /\ holds2 n (m * q') Q' /\ q' = q + x / y.
Proof.
  intros Wd Vd Hy Hn Hm. revert k D T M Q x q. induction fuel as [|fuel IH]; intros k D T M Q x q Hq HD HT HM HQ Hx Hmax Hf; [lia|].
  pose proof (holds2_range _ _ _ HD) as RD.
  destruct (Z.lt_ge_cases x y) as [Hdone|Hgo].
  { exists D, M, Q, q. rewrite (div_down_done _ d D T M Q x y) by (done || apply HD).
    rewrite Z.mod_small, Z.div_small by lia. split_and!; try done; [apply HM|lia]. }
  unfold div_down. fold div_down. rewrite vec2_ge_spec, Vd, (h2_num _ _ _ HD) by (done || apply HD).
  rewrite (proj2 (Z.leb_le _ _)) by lia.
  rewrite vec2_le_spec, (h2_wid _ _ _ HT), (h2_wid _ _ _ HD), Nat.eqb_refl, (h2_num _ _ _ HT), (h2_num _ _ _ HD)
    by (apply HT || apply HD). cbn [mbind option_bind].
  assert (Hp : 0 < 2 ^ Z.of_nat k) by (apply Z.pow_pos_nonneg; lia).
  rewrite pow2_S_le in Hx.
  (* the subtraction, in both cases *)
  assert (Hstep : exists D1 Q1 b, 0 <= b <= 1 /\
    (if y * 2 ^ Z.of_nat k <=? x then
       D1 ← vec2_sub D T; Q1 ← vec2_add Q M; Some (D1, Q1) else Some (D, Q)) = Some (D1, Q1) /\
    holds2 (S n) (x - y * (b * 2 ^ Z.of_nat k)) D1 /\ holds2 n (m * (q + b * 2 ^ Z.of_nat k)) Q1 /\
    0 <= x - y * (b * 2 ^ Z.of_nat k) < y * 2 ^ Z.of_nat k).
  { destruct (Z.leb_spec (y * 2 ^ Z.of_nat k) x) as [Hle|Hgt].
    - destruct (holds2_sub _ _ _ _ _ HD HT Hle) as (D1 & -> & HD1). cbn [mbind option_bind].
      destruct (holds2_add _ _ _ _ _ HQ HM) as (Q1 & -> & HQ1); [nia|]. cbn [mbind option_bind].
      exists D1, Q1, 1. rewrite !Z.mul_1_l, Z.mul_add_distr_l. split_and!; try done; lia.
    - exists D, Q, 0. rewrite !Z.mul_0_l, Z.mul_0_r, Z.sub_0_r, Z.add_0_r. split_and!; try done; lia. }
  destruct Hstep as (D1 & Q1 & b & Hb & -> & HD1 & HQ1 & Hx1). cbn [mbind option_bind].
  destruct (holds2_shr _ _ _ (Nat.lt_0_succ n) HT) as (T1 & -> & HT1). cbn [mbind option_bind].
  destruct (holds2_shr _ _ _ Hn HM) as (M1 & -> & HM1). cbn [mbind option_bind].
  set (x1 := x - y * (b * 2 ^ Z.of_nat k)) in *. set (q1 := q + b * 2 ^ Z.of_nat k) in *.
  assert (Exy : x = x1 + (b * 2 ^ Z.of_nat k) * y) by (unfold x1; ring).
  assert (Emod : x mod y = x1 mod y) by (rewrite Exy; apply Z.mod_add; lia).
  assert (Ediv : q + x / y = q1 + x1 / y) by (rewrite Exy, Z.div_add by lia; unfold q1; lia).
  rewrite Emod, Ediv. destruct k as [|k].
  - change (2 ^ Z.of_nat 0) with 1 in Hx1. exists D1, M1, Q1, q1.
    rewrite (div_down_done _ d D1 T1 M1 Q1 x1 y) by (done || apply HD1 || lia).
    rewrite Z.mod_small, Z.div_small by lia. split_and!; try done; [apply HM1|lia].
  - rewrite pow2_S_le in HT1, HM1.
    replace (y * (2 * 2 ^ Z.of_nat k)) with (y * 2 ^ Z.of_nat k * 2) in HT1 by ring.
    replace (m * (2 * 2 ^ Z.of_nat k)) with (m * 2 ^ Z.of_nat k * 2) in HM1 by ring.
    rewrite Z.div_mul in HT1, HM1 by lia.
    apply (IH k D1 T1 M1 Q1 x1 q1); try done; [unfold q1; nia|lia|unfold q1, x1; lia|lia].
Qed.

Lemma div_mod_zero n x a b : (0 < n)%nat -> holds2 n x a -> holds2 n 0 b -> div_mod a b = None.
Proof.
  intros Hn Ha Hb. unfold div_mod. rewrite (h2_wid _ _ _ Ha).
  destruct (vec2_of_long_spec 0 n Hn ltac:(auto with word)) as [W0 V0].
  rewrite vec2_eq_spec, V0, (h2_num _ _ _ Hb) by (done || apply Hb). done.
Qed.

(** [div_mod]: quotient and remainder, except that the mask is shifted out of its width,
    and the quotient lost, when the divisor is 1 and the dividend above 2^(n-1). *)
Lemma div_mod_spec n x y a b :
  (0 < n)%nat -> holds2 n x a -> holds2 n y b -> 0 < y ->
  exists q r, div_mod a b = Some (q, r) /\
    holds2 n (if (y =? 1) && (2 ^ Z.of_nat (n - 1) <? x) then 0 else x / y) q /\
    holds2 n (x mod y) r.
Proof.
  intros Hn Ha Hb Hy. pose proof (holds2_range _ _ _ Ha) as RA. unfold div_mod.
  assert (H0 : holds2 n 0 (vec2_of_long 0 n)) by (apply holds2_long; auto with word; apply Z.pow_pos_nonneg; lia).
  rewrite !(h2_wid _ _ _ Ha).
  rewrite vec2_eq_spec, (h2_num _ _ _ Hb), (h2_num _ _ _ H0), (proj2 (Z.eqb_neq _ _)) by (lia || apply Hb || apply H0).
  rewrite vec2_lt_spec, (h2_num _ _ _ Ha), (h2_num _ _ _ Hb) by (apply Ha || apply Hb).
  assert (Hn1 : 2 ^ Z.of_nat n = 2 * 2 ^ Z.of_nat (n - 1)).
  { replace n with (S (n - 1)) at 1 by lia. apply pow2_S_le. }
  assert (Hp1 : 0 < 2 ^ Z.of_nat (n - 1)) by (apply Z.pow_pos_nonneg; lia).
  destruct (Z.ltb_spec x y) as [Hlt|Hge].
  { do 2 eexists. split; [done|]. rewrite Z.mod_small, Z.div_small by lia. by destruct (_ && _). }
  assert (HD : holds2 (S n) x (vec2_resize a (n + 1))).
  { rewrite Nat.add_1_r. apply (holds2_resize n); [lia|done|]. rewrite pow2_S_le. lia. }
  assert (HT : holds2 (S n) y (vec2_resize b (S n))).
  { apply (holds2_resize n); [lia|done|]. rewrite pow2_S_le. lia. }
  assert (HM : holds2 n 1 (vec2_of_long 1 n)).
  { apply holds2_long; [done|auto with word|]. lia. }
  rewrite (h2_wid _ _ _ HD).
  destruct (div_up_spec (S n) n 0 x y (vec2_resize a (n + 1)) (vec2_resize b (S n)) (vec2_of_long 1 n))
    as (K & T & M & -> & HK & HT' & HM' & Hup & Hmin); try done; try lia.
  { by rewrite Z.mul_1_r. }
  { unfold mask_at. by rewrite (proj2 (Nat.ltb_lt _ _)) by lia. }
  cbn [mbind option_bind].
  assert (EM : mask_at n K = (if (K <? n)%nat then 1 else 0) * 2 ^ Z.of_nat K)
    by (unfold mask_at; case_cmp; lia).
  rewrite EM in HM'. pose proof (Z.pow_pos_nonneg 2 (Z.of_nat K) ltac:(lia) ltac:(lia)).
  destruct (div_down_spec K (S n + 1) n y b (vec2_resize a (n + 1)) T M (vec2_of_long 0 n) x 0
    (if (K <? n)%nat then 1 else 0)) as (D' & M' & Q' & q' & -> & SM & HD' & HQ' & Eq);
    try done; try apply Hb; try (case_cmp; lia); try lia.
  { by rewrite Z.mul_0_r. }
  { rewrite pow2_S_le. nia. }
  cbn [mbind option_bind]. do 2 eexists. split; [done|]. split.
  - rewrite Eq, Z.add_0_l in HQ'.
    assert (EK : (K <? n)%nat = negb ((y =? 1) && (2 ^ Z.of_nat (n - 1) <? x))).
    { destruct (Nat.ltb_spec K n) as [HKn|HKn].
      - symmetry. apply negb_true_iff. destruct (Z.eqb_spec y 1) as [->|]; [|done]. cbn [andb].
        apply Z.ltb_ge. rewrite Z.mul_1_l in Hup. etransitivity; [exact Hup|]. apply Z.pow_le_mono_r; lia.
      - assert (K = n) as -> by lia. destruct Hmin as [|Hmin]; [lia|].
        assert (y = 1) as -> by nia. symmetry. apply negb_false_iff. cbn [Z.eqb Pos.eqb andb].
        apply Z.ltb_lt. lia. }
    rewrite EK in HQ'. destruct (_ && _); cbn [negb] in HQ'; [done|by rewrite Z.mul_1_l in HQ'].
  - rewrite SM. apply (holds2_resize (S n)); [done|done|].
    pose proof (Z.mod_le x y ltac:(lia) Hy). lia.
Qed.

(** * Conversions *)

(** A number whose low bits are those of [f]. *)
Lemma bit_sum_of_bits x f n :
  (forall i, (i < n)%nat -> Z.testbit x (Z.of_nat i) = bit4_eqb (f i) BIT4_1) ->
  x mod 2 ^ Z.of_nat n = bit_sum f n.
Proof.
  induction n as [|n IH]; intros H; [apply Z.mod_1_r|].
  rewrite mod_pow_S, IH by auto. cbn [bit_sum]. rewrite H by lia. unfold bit1. by destruct (bit4_eqb _ _).
Qed.

Lemma copy_from_vec4_spec v :
  wf4 v -> holds2 (size v) (bit_sum (value v) (size v)) (copy_from_vec4 v).
Proof.
  intros Hv. unfold copy_from_vec4. destruct (Nat.eqb_spec (words_for (size v)) 0) as [E|E].
  - pose proof (words_for_pos (size v)). assert (E0 : size v = 0%nat) by lia. rewrite E0. by split.
  - assert (Hs : (0 < size v)%nat) by (destruct (size v); [done|lia]).
    pose proof (subarray_spec v 0 (size v) true Hv Hs ltac:(lia)) as HS.
    destruct (subarray v 0 (size v) true) as [val|]; [|by destruct HS].
    destruct HS as (L & Wv & B & _). change (default [] (Some val)) with val.
    assert (EU : uZ (mkVec2 val (size v)) = wval val) by (unfold uZ; cbn [vec wid]; rewrite <- L; apply wsum_word).
    assert (EB : wval val = bit_sum (value v) (size v)).
    { rewrite <- (bit_sum_of_bits (wval val)).
      - symmetry. apply Z.mod_small. pose proof (wsum_bound (word val) (length val) ltac:(auto with word)) as HB.
        rewrite wsum_word in HB. split; [lia|].
        destruct (Z.lt_ge_cases (wval val) (2 ^ Z.of_nat (size v))) as [|Hge]; [done|exfalso].
        assert (Hpos : 0 < wval val) by (pose proof (Z.pow_pos_nonneg 2 (Z.of_nat (size v))); lia).
        pose proof (Z.bit_log2 _ Hpos) as Hbit.
        pose proof (proj1 (Z.log2_le_pow2 _ (Z.of_nat (size v)) Hpos) Hge) as Hlog.
        rewrite <- (Z2Nat.id (Z.log2 (wval val))), testbit_wval, B in Hbit by (done || apply Z.log2_nonneg).
        rewrite (proj2 (Nat.ltb_ge _ _)) in Hbit by lia. done.
      - intros i Hi. rewrite testbit_wval, B, (proj2 (Nat.ltb_lt _ _) Hi) by done. done. }
    split; [split; [done|cbn [vec wid]; lia]|done| |].
    + unfold clean. rewrite EU, EB. apply bit_sum_bound.
    + by rewrite EU.
Qed.

(** [vvp_vector2_t(vec4, enable_NaN)]. *)
Lemma vec2_of_vec4_spec v nan :
  wf4 v -> (0 < size v)%nat ->
  (known v -> holds2 (size v) (vec_Z v) (vec2_of_vec4 v nan)) /\
  (~ known v -> nan = true -> vec2_of_vec4 v nan = vec2_nil).
Proof.
  intros Hv Hp. pose proof (has_xz_spec v Hv Hp) as HX. unfold vec2_of_vec4. split.
  - intros Hk. assert (has_xz v = false) as ->.
    { destruct (has_xz v); [|done]. destruct (proj1 HX eq_refl) as (i & Hi & E). specialize (Hk i Hi). congruence. }
    rewrite andb_false_r, vec_Z_sum by done. by apply copy_from_vec4_spec.
  - intros Hk ->. destruct (has_xz v) eqn:E; [done|exfalso]. apply Hk. intros i Hi.
    destruct (bit4_is_xz (value v i)) eqn:Eb; [|done].
    assert (false = true) by (apply HX; eauto). done.
Qed.

(** Every bit of a clean vector, also beyond its width. *)
Lemma holds2_value n x v i : holds2 n x v -> vec2_value v i = if Z.testbit x (Z.of_nat i) then 1 else 0.
Proof.
  intros Hv. pose proof (holds2_range _ _ _ Hv) as HR. destruct Hv as [Hw Hs _ Hx].
  destruct (Nat.lt_ge_cases i (wid v)) as [Hi|Hi].
  - by rewrite vec2_value_spec, Hx by done.
  - unfold vec2_value. rewrite (proj2 (Nat.leb_le _ _) Hi).
    rewrite <- (Z.mod_small x (2 ^ Z.of_nat n)), Z.mod_pow2_bits_high by lia. done.
Qed.

(** [vector2_to_vector4]: the number modulo 2^wid. *)
Lemma vector2_to_vector4_spec n x v w :
  holds2 n x v ->
  exists r, vector2_to_vector4 v w = Some r /\ wf4 r /\ size r = w /\ known r /\ vec_Z r = x mod 2 ^ Z.of_nat w.
Proof.
  intros Hv. unfold vector2_to_vector4. destruct (vec4_fill_spec w BIT4_X) as (Wf & Sf & _).
  destruct (write_bits_spec w (fun k => k) (value4 v) (fun k => Some (value4 v k)) (vec4_fill w BIT4_X) Wf)
    as (r & E & Wr & Sr & Vr).
  { intros k Hk. by rewrite Sf. }
  assert (Vr' : forall i, (i < w)%nat -> value r i = value4 v i).
  { intros i Hi. rewrite Vr. assert (existsb (fun k => k =? i)%nat (seq 0 w) = true) as ->; [|done].
    apply existsb_exists. exists i. split; [apply in_seq; lia|apply Nat.eqb_refl]. }
  assert (V4 : forall i, value4 v i = if Z.testbit x (Z.of_nat i) then BIT4_1 else BIT4_0).
  { intros i. unfold value4. rewrite (holds2_value n x) by done. by destruct (Z.testbit _ _). }
  assert (Hk : known r).
  { intros i Hi. rewrite Vr', V4 by lia. by destruct (Z.testbit _ _). }
  exists r. split_and!; [exact E|done|lia|done|]. rewrite vec_Z_sum by done. rewrite Sr, Sf.
  symmetry. apply bit_sum_of_bits. intros i Hi. rewrite Vr', V4 by done. by destruct (Z.testbit _ _).
Qed.

(** [is_zero]. *)
Lemma vec2_is_zero_spec v : wf2 v -> vec2_is_zero v = (uZ v =? 0).
Proof.
  intros [Hw _]. unfold vec2_is_zero, uZ. generalize (words_for (wid v)). intros n.
  induction n as [|n IH]; [done|]. rewrite seq_S, forallb_app, IH. cbn [forallb wsum Nat.add].
  rewrite andb_true_r. pose proof (wsum_bound (word (vec v)) n ltac:(auto with word)).
  pose proof (word_is_word (vec v) n Hw). pose proof (pow64_pos n). unfold is_word in *.
  destruct (Z.eqb_spec (wsum (word (vec v)) n) 0), (Z.eqb_spec (word (vec v) n) 0); cbn [andb];
    symmetry; (apply Z.eqb_eq || apply Z.eqb_neq); nia.
Qed.

(** [trim]: the same number, in as few bits as hold it. *)
Lemma trim_loop_spec fuel x v :
  holds2 (wid v) x v -> (wid v <= fuel)%nat -> (0 < wid v)%nat ->
  let r := trim_loop fuel v in
  holds2 (wid r) x r /\ (0 < wid r <= wid v)%nat /\ (wid r = 1%nat \/ 2 ^ Z.of_nat (wid r - 1) <= x).
Proof.
  revert v. induction fuel as [|fuel IH]; intros v Hv Hf Hp; [lia|]. cbn [trim_loop].
  rewrite (holds2_value _ _ _ _ Hv). pose proof (holds2_range _ _ _ Hv) as HR.
  destruct (Z.testbit x (Z.of_nat (wid v - 1))) eqn:Eb.
  - cbn [Z.eqb andb]. split_and!; [done|lia|lia|]. right.
    destruct (Z.lt_ge_cases x (2 ^ Z.of_nat (wid v - 1))) as [Hlt|]; [|done].
    rewrite <- (Z.mod_small x (2 ^ Z.of_nat (wid v - 1))), Z.mod_pow2_bits_high in Eb by lia. done.
  - cbn [Z.eqb andb]. destruct (Nat.ltb_spec 1 (wid v)) as [H1|H1]; [|split_and!; [done|lia|lia|left; lia]].
    assert (Hx : x < 2 ^ Z.of_nat (wid v - 1)).
    { replace (wid v) with (S (wid v - 1)) in HR by lia.
      pose proof (mod_pow_S x (wid v - 1)) as HM. rewrite Eb, Z.mul_0_r, Z.add_0_r, Z.mod_small in HM by lia.
      rewrite HM. apply Z.mod_pos_bound. apply Z.pow_pos_nonneg; lia. }
    set (v1 := mkVec2 (vec v) (wid v - 1)).
    assert (Hv1 : holds2 (wid v1) x v1).
    { assert (H2 : holds2 (wid v) x v) by done. destruct H2 as [[Ww Wl] _ _ Vx].
      assert (Hm : (words_for (wid v - 1) <= words_for (wid v))%nat).
      { unfold words_for. apply Nat.Div0.div_le_mono. lia. }
      assert (HZ : uZ v1 = x).
      { unfold uZ, v1. cbn [vec wid]. unfold uZ in Vx.
        replace (words_for (wid v)) with (words_for (wid v - 1) + (words_for (wid v) - words_for (wid v - 1)))%nat in Vx by lia.
        rewrite wsum_split in Vx. set (m := words_for (wid v - 1)) in *.
        pose proof (wsum_bound (word (vec v)) m ltac:(auto with word)).
        pose proof (wsum_bound (fun k => word (vec v) (m + k)) (words_for (wid v) - m)
          (fun k _ => word_is_word (vec v) (m + k) Ww)).
        pose proof (pow2_le_pow64 (wid v - 1)) as HP. fold m in HP.
        set (hi := wsum (fun k => word (vec v) (m + k)) (words_for (wid v) - m)) in *.
        assert (hi = 0) by nia. nia. }
      split; [split; [done|unfold v1; cbn [vec wid]; lia]|done| |done].
      unfold clean. rewrite HZ. exact Hx. }
    destruct (IH v1 Hv1) as (R1 & R2 & R3); try (unfold v1; cbn [wid]; lia).
    split_and!; try done; change (wid v1) with (wid v - 1)%nat in R2; lia.
Qed.

(** [vector2_to_value<int32_t>]. *)
Lemma to_value2_loop_spec v x n k :
  holds2 n x v -> (k <= 32)%nat ->
  for_upto k (fun idx s => let '(val, mask) := s in
    (if negb (vec2_value v idx =? 0) then Z.lor val mask else val, (mask * 2) mod 2 ^ 32)) (0, 1)
  = (x mod 2 ^ Z.of_nat k, 2 ^ Z.of_nat k mod 2 ^ 32).
Proof.
  intros Hv. induction k as [|k IH]; intros Hk; cbn [for_upto].
  { rewrite Z.mod_1_r. done. }
  rewrite IH by lia. rewrite (holds2_value _ _ _ _ Hv), mod_pow_S, pow2_S_le.
  rewrite (Z.mod_small (2 ^ Z.of_nat k) (2 ^ 32)) by (split; [apply Z.pow_nonneg|apply Z.pow_lt_mono_r]; lia).
  f_equal; [|f_equal; lia]. destruct (Z.testbit x (Z.of_nat k)); cbn [Z.eqb negb b2z].
  - rewrite lor_add_pow2, Z.mul_1_r; [done|]. apply Z.mod_pos_bound, Z.pow_pos_nonneg; lia.
  - lia.
Qed.
