(* ===== verification/VvpCompare.v ===== *)
(** The magnitude comparisons of [vvp_vector4_t] ([compare_gtge] and
    [compare_gtge_signed] of [vvp/vvp_net.cc]). *)
From S2P Require Import Prelude MachineWord VvpBit VvpVector4 VvpArith.

(** * Definitions *)

(** The loop over the bits of the longer operand above the other: is one of them 1? *)
Fixpoint one_above (v : vvp_vector4_t) (idx stop : nat) : bool :=
  match idx with
  | O => false
  | S i => if (stop <? idx)%nat
           then if bit4_eqb (value v i) BIT4_1 then true else one_above v i stop
           else false
  end.

(** The loop over the common bits, from [idx-1] down. *)
Fixpoint gtge_loop (lef rig : vvp_vector4_t) (idx : nat) (out_if_equal : vvp_bit4_t) : vvp_bit4_t :=
  match idx with
  | O => out_if_equal
  | S i =>
      let lv := value lef i in
      let rv := value rig i in
      if bit4_eqb lv rv then gtge_loop lef rig i out_if_equal
      else if bit4_eqb lv BIT4_1 then BIT4_1 else BIT4_0
  end.

Definition compare_gtge (lef rig : vvp_vector4_t) (out_if_equal : vvp_bit4_t) : vvp_bit4_t :=
  let min_size := if (size rig <? size lef)%nat then size rig else size lef in
  if (min_size =? 0)%nat then BIT4_X else
  if has_xz lef then BIT4_X else
  if has_xz rig then BIT4_X else
  if one_above lef (size lef) (size rig) then BIT4_1 else
  if one_above rig (size rig) (size lef) then BIT4_0 else
  gtge_loop lef rig min_size out_if_equal.

(** [None] is the [assert] on the sizes; on empty vectors the sign index wraps around
    and [value] gives X. *)
Definition compare_gtge_signed (a b : vvp_vector4_t) (out_if_equal : vvp_bit4_t) : option vvp_bit4_t :=
  if (size a =? size b)%nat then
    let a_sign := value a (size a - 1) in
    let b_sign := value b (size a - 1) in
    Some (
      if bit4_is_xz a_sign then BIT4_X else
      if bit4_is_xz b_sign then BIT4_X else
      if bit4_eqb a_sign b_sign then compare_gtge a b out_if_equal else
      if has_xz a then BIT4_X else
      if has_xz b then BIT4_X else
      if bit4_eqb a_sign BIT4_0 then BIT4_1 else BIT4_0)
  else None.

(** * Specification *)

Definition gtge_result (x y : Z) (out_if_equal : vvp_bit4_t) : vvp_bit4_t :=
  if y <? x then BIT4_1 else if x <? y then BIT4_0 else out_if_equal.

(** The two's complement reading of a vector. *)
Definition vec_S (v : vvp_vector4_t) : Z :=
  vec_Z v - (if bit4_eqb (value v (size v - 1)) BIT4_1 then 2 ^ Z.of_nat (size v) else 0).

Lemma bit_sum_S_lt f n m : (n <= m)%nat -> bit_sum f n <= bit_sum f m.
Proof.
  intros H. replace m with (n + (m - n))%nat by lia. rewrite bit_sum_split.
  pose proof (bit_sum_bound (fun i => f (n + i)%nat) (m - n)).
  pose proof (Z.pow_nonneg 2 (Z.of_nat n) ltac:(lia)). nia.
Qed.

Lemma one_above_spec v idx stop :
  (stop <= idx)%nat ->
  if one_above v idx stop then 2 ^ Z.of_nat stop <= bit_sum (value v) idx
  else bit_sum (value v) idx = bit_sum (value v) stop.
Proof.
  intros H. induction idx as [|i IH]; cbn [one_above].
  - by replace stop with 0%nat by lia.
  - destruct (Nat.ltb_spec stop (S i)) as [Hs|Hs].
    2:{ by replace stop with (S i) by lia. }
    cbn [bit_sum]. unfold bit1. destruct (bit4_eqb (value v i) BIT4_1).
    + pose proof (bit_sum_bound (value v) i). pose proof (Z.pow_le_mono_r 2 (Z.of_nat stop) (Z.of_nat i)). lia.
    + specialize (IH ltac:(lia)). rewrite Z.mul_0_r, Z.add_0_r. exact IH.
Qed.

Lemma gtge_loop_spec lef rig idx e :
  (forall i, (i < idx)%nat -> bit4_is_xz (value lef i) = false /\ bit4_is_xz (value rig i) = false) ->
  gtge_loop lef rig idx e = gtge_result (bit_sum (value lef) idx) (bit_sum (value rig) idx) e.
Proof.
  intros H. induction idx as [|i IH]; [by unfold gtge_result|]. cbn [gtge_loop bit_sum].
  destruct (H i ltac:(lia)) as [Hl Hr]. specialize (IH ltac:(intros; apply H; lia)).
  pose proof (bit_sum_bound (value lef) i). pose proof (bit_sum_bound (value rig) i).
  assert (HS : forall x y z, gtge_result (x + z) (y + z) e = gtge_result x y e).
  { intros x y z. unfold gtge_result. by repeat case_cmp; try lia. }
  unfold bit1. destruct (value lef i) eqn:El, (value rig i) eqn:Er; try done; cbn [bit4_eqb]; simpl;
    rewrite ?HS; try exact IH; unfold gtge_result; repeat case_cmp; (done || lia).
Qed.

Lemma has_xz_known v : wf4 v -> (0 < size v)%nat -> has_xz v = false <-> known v.
Proof.
  intros Hv Hp. pose proof (has_xz_spec v Hv Hp) as HX. split.
  - intros E i Hi. destruct (bit4_is_xz (value v i)) eqn:Eb; [|done].
    assert (has_xz v = true) by (apply HX; eauto). congruence.
  - intros Hk. destruct (has_xz v); [|done].
    destruct (proj1 HX eq_refl) as (i & Hi & E). specialize (Hk i Hi). congruence.
Qed.

Lemma compare_gtge_known lef rig e :
  wf4 lef -> wf4 rig -> (0 < size lef)%nat -> (0 < size rig)%nat -> known lef -> known rig ->
  compare_gtge lef rig e = gtge_result (vec_Z lef) (vec_Z rig) e.
Proof.
  intros Hl Hr Pl Pr Kl Kr. unfold compare_gtge. rewrite !vec_Z_sum by done.
  rewrite (proj2 (has_xz_known lef Hl Pl) Kl), (proj2 (has_xz_known rig Hr Pr) Kr).
  set (m := if (size rig <? size lef)%nat then size rig else size lef).
  assert (Hm : (0 < m <= size lef /\ m <= size rig)%nat) by (unfold m; case_cmp; lia).
  rewrite (proj2 (Nat.eqb_neq m 0)) by lia.
  assert (HG : gtge_loop lef rig m e = gtge_result (bit_sum (value lef) m) (bit_sum (value rig) m) e).
  { apply gtge_loop_spec. intros i Hi. split; [apply Kl|apply Kr]; lia. }
  pose proof (one_above_spec lef (size lef) (size rig)) as HL.
  pose proof (one_above_spec rig (size rig) (size lef)) as HR.
  destruct (Nat.le_gt_cases (size lef) (size rig)) as [Hc|Hc].
  - assert (m = size lef) as Em by (unfold m; case_cmp; lia).
    assert (one_above lef (size lef) (size rig) = false) as ->.
    { destruct (size lef); [done|]. cbn [one_above]. by rewrite (proj2 (Nat.ltb_ge _ _)) by lia. }
    specialize (HR Hc). pose proof (bit_sum_bound (value lef) (size lef)). destruct (one_above rig _ _).
    + unfold gtge_result. repeat case_cmp; (done || lia).
    + rewrite HG, Em, HR. done.
  - assert (m = size rig) as Em by (unfold m; case_cmp; lia).
    specialize (HL ltac:(lia)). pose proof (bit_sum_bound (value rig) (size rig)).
    destruct (one_above lef _ _).
    + unfold gtge_result. repeat case_cmp; (done || lia).
    + assert (one_above rig (size rig) (size lef) = false) as ->.
      { destruct (size rig); [done|]. cbn [one_above]. by rewrite (proj2 (Nat.ltb_ge _ _)) by lia. }
      rewrite HG, Em, HL. done.
Qed.

Lemma compare_gtge_unknown lef rig e :
  wf4 lef -> wf4 rig -> (0 < size lef)%nat -> (0 < size rig)%nat -> ~ (known lef /\ known rig) ->
  compare_gtge lef rig e = BIT4_X.
Proof.
  intros Hl Hr Pl Pr Hn. unfold compare_gtge. rewrite (proj2 (Nat.eqb_neq _ 0)) by (case_cmp; lia).
  pose proof (has_xz_known lef Hl Pl). pose proof (has_xz_known rig Hr Pr).
  destruct (has_xz lef); [done|]. destruct (has_xz rig); [done|]. tauto.
Qed.

Lemma vec_S_sign v :
  wf4 v -> known v -> (0 < size v)%nat ->
  vec_S v = vec_Z v - (if 2 ^ Z.of_nat (size v - 1) <=? vec_Z v then 2 ^ Z.of_nat (size v) else 0).
Proof.
  intros Hv Hk Hp. unfold vec_S. rewrite vec_Z_sum by done.
  replace (bit_sum (value v) (size v)) with
    (bit_sum (value v) (size v - 1) + 2 ^ Z.of_nat (size v - 1) * bit1 (value v (size v - 1))).
  2:{ replace (size v) with (S (size v - 1)) at 4 by lia. done. }
  pose proof (bit_sum_bound (value v) (size v - 1)). unfold bit1.
  destruct (bit4_eqb _ _); case_cmp; lia.
Qed.

Lemma compare_gtge_signed_known a b e :
  wf4 a -> wf4 b -> size a = size b -> (0 < size a)%nat -> known a -> known b ->
  compare_gtge_signed a b e = Some (gtge_result (vec_S a) (vec_S b) e).
Proof.
  intros Ha Hb Hs Hp Ka Kb. unfold compare_gtge_signed. rewrite (proj2 (Nat.eqb_eq _ _) Hs). f_equal.
  rewrite (Ka (size a - 1)%nat), (Kb (size a - 1)%nat) by lia.
  rewrite (proj2 (has_xz_known a Ha Hp) Ka), (proj2 (has_xz_known b Hb ltac:(lia)) Kb).
  pose proof (vec_Z_range a). pose proof (vec_Z_range b). unfold vec_S. rewrite <- Hs.
  assert (HS : forall x y z, gtge_result (x - z) (y - z) e = gtge_result x y e).
  { intros x y z. unfold gtge_result. by repeat case_cmp; try lia. }
  pose proof (Ka (size a - 1)%nat ltac:(lia)). pose proof (Kb (size a - 1)%nat ltac:(lia)).
  rewrite <- Hs in *.
  destruct (value a (size a - 1)), (value b (size a - 1)); try done; cbn [bit4_eqb]; simpl;
    rewrite ?compare_gtge_known, ?HS by (done || lia); try done;
    unfold gtge_result; repeat case_cmp; (done || lia).
Qed.

Lemma compare_gtge_signed_unknown a b e :
  wf4 a -> wf4 b -> size a = size b -> (0 < size a)%nat -> ~ (known a /\ known b) ->
  compare_gtge_signed a b e = Some BIT4_X.
Proof.
  intros Ha Hb Hs Hp Hn. unfold compare_gtge_signed. rewrite (proj2 (Nat.eqb_eq _ _) Hs). f_equal.
  pose proof (has_xz_known a Ha Hp). pose proof (has_xz_known b Hb ltac:(lia)).
  destruct (bit4_is_xz _); [done|]. destruct (bit4_is_xz _); [done|].
  destruct (bit4_eqb _ _); [apply compare_gtge_unknown; (done || lia)|].
  destruct (has_xz a); [done|]. destruct (has_xz b); [done|]. tauto.
Qed.
