(* ===== verification/Folding.v ===== *)
(** Constant folding against simulation: the elaborator folds an expression of constants
    with [verinum], the runtime evaluates the same expression with [vvp_vector4_t].  On
    sized operands of the same width the two agree bit for bit, unknown bits included. *)
From S2P Require Import Prelude MachineWord VvpBit VvpVector4 VvpArith VvpCompare.
From S2P Require Import Verinum VerinumValue VerinumArith VerinumDiv.

(** A number of the elaborator and a vector of the runtime with the same bits. *)
Record represents (l : verinum) (v : vvp_vector4_t) : Prop := {
  rep_wf : wf4 v;
  rep_size : size v = len l;
  rep_bits : forall i, (i < len l)%nat -> value v i = bit4_of_V (nth i (bits_ l) V0) }.

(** Sized operands of one width. *)
Record folded (l r : verinum) (a b : vvp_vector4_t) : Prop := {
  fold_lhs : represents l a;
  fold_rhs : represents r b;
  fold_len : len l = len r;
  fold_pos : (0 < len l)%nat;
  fold_sized_l : has_len l = true;
  fold_sized_r : has_len r = true }.

Lemma bit4_of_V_defined b : bit_defined b = negb (bit4_is_xz (bit4_of_V b)).
Proof. by destruct b. Qed.

Lemma bit1_of_V b : bit1 (bit4_of_V b) = bz b.
Proof. by destruct b. Qed.

Lemma represents_known l v : represents l v -> known v <-> is_defined l = true.
Proof.
  intros [Hw Hs Hb]. unfold known, is_defined. rewrite forallb_forall. split.
  - intros Hk b Hin. apply (In_nth _ _ V0) in Hin as (i & Hi & <-).
    rewrite bit4_of_V_defined, <- Hb, Hk by (done || by rewrite Hs). done.
  - intros Hd i Hi. rewrite Hs in Hi. rewrite Hb by done.
    specialize (Hd (nth i (bits_ l) V0) (nth_In _ _ Hi)). rewrite bit4_of_V_defined in Hd.
    by apply negb_true_iff.
Qed.

Lemma bit_sum_uval bs :
  bit_sum (fun i => bit4_of_V (nth i bs V0)) (length bs) = uval bs.
Proof.
  induction bs as [|b bs IH] using rev_ind; [done|].
  rewrite length_app, Nat.add_1_r. cbn [bit_sum]. rewrite nth_middle, bit1_of_V, uval_app.
  cbn [uval]. unfold pow2. rewrite <- IH, (bit_sum_ext _ (fun i => bit4_of_V (nth i bs V0))); [lia|].
  intros i Hi. by rewrite app_nth1.
Qed.

Lemma represents_Z l v : represents l v -> known v -> vec_Z v = uval (bits_ l).
Proof.
  intros [Hw Hs Hb] Hk. rewrite vec_Z_sum by done. rewrite Hs, <- bit_sum_uval.
  apply bit_sum_ext. intros i Hi. by apply Hb.
Qed.

(** Equal numbers without unknown bits have equal bits. *)
Lemma represents_of_Z l v :
  wf4 v -> known v -> defined (bits_ l) -> size v = len l -> vec_Z v = uval (bits_ l) -> represents l v.
Proof.
  intros Hw Hk Hd Hs HZ. split; try done. intros i Hi.
  assert (Hsum : bit_sum (value v) (len l) = bit_sum (fun i => bit4_of_V (nth i (bits_ l) V0)) (len l)).
  { rewrite <- Hs, <- vec_Z_sum, HZ, Hs by done. symmetry. apply bit_sum_uval. }
  assert (HX : bit1 (value v i) = bit1 (bit4_of_V (nth i (bits_ l) V0))).
  { pose proof (bit_sum_mod (value v) (S i) (len l) ltac:(lia)) as E1.
    pose proof (bit_sum_mod (fun i => bit4_of_V (nth i (bits_ l) V0)) (S i) (len l) ltac:(lia)) as E2.
    pose proof (bit_sum_mod (value v) i (len l) ltac:(lia)) as E3.
    pose proof (bit_sum_mod (fun i => bit4_of_V (nth i (bits_ l) V0)) i (len l) ltac:(lia)) as E4.
    rewrite Hsum in *. cbn [bit_sum] in *. pose proof (Z.pow_pos_nonneg 2 (Z.of_nat i)). nia. }
  pose proof (Hk i ltac:(lia)) as Hki. rewrite Forall_forall in Hd.
  destruct (Hd (nth i (bits_ l) V0)) as [E|E]; [by apply nth_In|..];
    rewrite E in *; destruct (value v i); done.
Qed.

Lemma represents_all_x n hl sg v :
  wf4 v -> size v = n -> (forall i, (i < n)%nat -> value v i = BIT4_X) ->
  represents (undefined_result n hl sg) v.
Proof.
  intros Hw Hs Hx. unfold undefined_result. split; try done.
  - unfold len. cbn [bits_ set_has_sign verinum_fill]. by rewrite length_replicate.
  - unfold len. cbn [bits_ set_has_sign verinum_fill]. rewrite length_replicate. intros i Hi.
    rewrite Hx, nth_lookup, lookup_replicate_2 by done. done.
Qed.

(** The two evaluators of an operator that is exact modulo 2^n. *)
Section Fold.
Context (op : Z -> Z -> Z).
Context (op_mod : forall n x y, op (x mod 2 ^ n) (y mod 2 ^ n) mod 2 ^ n = op x y mod 2 ^ n).
Context (vop : verinum -> verinum -> option verinum).
Context (rop : vvp_vector4_t -> vvp_vector4_t -> option vvp_vector4_t).
Context (vop_defined : forall l r, wf_num l -> wf_num r -> has_len l = true -> has_len r = true ->
  exists v, vop l r = Some v /\ defined (bits_ v) /\ len v = (len l `max` len r)%nat /\
    uval (bits_ v) = op (to_Z l) (to_Z r) mod pow2 (len v)).
Context (vop_undefined : forall l r, is_defined l && is_defined r = false ->
  has_len l = true -> has_len r = true ->
  vop l r = Some (undefined_result (len l `max` len r) true (has_sign l && has_sign r))).
Context (rop_result : forall a b, wf4 a -> wf4 b -> size a = size b ->
  exists r, rop a b = Some r /\ arith_result a b (op (vec_Z a) (vec_Z b)) r).

Lemma fold_agrees l r a b :
  folded l r a b ->
  exists v c, vop l r = Some v /\ rop a b = Some c /\ represents v c.
Proof.
  intros [Ra Rb Hlen Hpos Hl Hr]. pose proof (represents_known l a Ra) as Ka.
  pose proof (represents_known r b Rb) as Kb.
  assert (Hsz : size a = size b) by (rewrite (rep_size _ _ Ra), (rep_size _ _ Rb); done).
  destruct (rop_result a b (rep_wf _ _ Ra) (rep_wf _ _ Rb) Hsz) as (c & Ec & Wc & Sc & HK & HX).
  destruct (is_defined l && is_defined r) eqn:Ed.
  - apply andb_true_iff in Ed as [Dl Dr]. destruct HK as [Kc Zc]; [tauto|].
    destruct (vop_defined l r) as (v & Ev & Dv & Lv & Uv); try done;
      try (split; [by apply is_defined_spec|lia]).
    exists v, c. split_and!; try done. rewrite <- Hlen, Nat.max_id in Lv.
    pose proof (rep_size _ _ Ra) as Sa.
    apply represents_of_Z; try done; [lia|]. rewrite Zc, Uv, Sa, Lv.
    rewrite (represents_Z l a), (represents_Z r b) by tauto.
    unfold pow2. rewrite <- (op_mod _ (to_Z l)). f_equal.
    change (2 ^ Z.of_nat (len l)) with (pow2 (len l)).
    rewrite to_Z_mod. by rewrite Hlen, to_Z_mod.
  - eexists _, c. split; [by apply vop_undefined|]. split; [done|]. rewrite <- Hlen, Nat.max_id.
    apply represents_all_x; [done|rewrite Sc; apply (rep_size _ _ Ra)|].
    intros i Hi. rewrite <- (rep_size _ _ Ra) in Hi. apply HX; [|done].
    rewrite Ka, Kb. apply andb_false_iff in Ed. destruct Ed as [E|E]; rewrite E; intros []; done.
Qed.
End Fold.

(** The undefined results of the three operators. *)
Lemma vadd_undefined l r :
  is_defined l && is_defined r = false -> has_len l = true -> has_len r = true ->
  vadd l r = Some (undefined_result (len l `max` len r) true (has_sign l && has_sign r)).
Proof.
  intros Hd Hl Hr. unfold vadd. rewrite Hl, Hr. cbn [andb].
  apply andb_false_iff in Hd. destruct Hd as [-> | ->]; [|rewrite orb_true_r]; done.
Qed.

Lemma vsub_undefined l r :
  is_defined l && is_defined r = false -> has_len l = true -> has_len r = true ->
  vsub l r = Some (undefined_result (len l `max` len r) true (has_sign l && has_sign r)).
Proof.
  intros Hd Hl Hr. unfold vsub. rewrite Hl, Hr. cbn [andb].
  apply andb_false_iff in Hd. destruct Hd as [-> | ->]; [|rewrite orb_true_r]; done.
Qed.

Lemma vmul_undefined l r :
  is_defined l && is_defined r = false -> has_len l = true -> has_len r = true ->
  vmul l r = Some (undefined_result (len l `max` len r) true (has_sign l && has_sign r)).
Proof.
  intros Hd Hl Hr. unfold vmul. rewrite Hl, Hr. cbn [andb].
  apply andb_false_iff in Hd. destruct Hd as [-> | ->]; [|rewrite orb_true_r]; done.
Qed.

Lemma vadd_sized l r :
  wf_num l -> wf_num r -> has_len l = true -> has_len r = true ->
  exists v, vadd l r = Some v /\ defined (bits_ v) /\ len v = (len l `max` len r)%nat /\
    uval (bits_ v) = (to_Z l + to_Z r) mod pow2 (len v).
Proof.
  intros Wl Wr Hl Hr. destruct (vadd_spec l r Wl Wr) as (v & E & [Hd Hh _ Hs _] & _).
  rewrite Hl, Hr in Hh. exists v. by destruct (Hs Hh).
Qed.

Lemma vsub_sized l r :
  wf_num l -> wf_num r -> has_len l = true -> has_len r = true ->
  exists v, vsub l r = Some v /\ defined (bits_ v) /\ len v = (len l `max` len r)%nat /\
    uval (bits_ v) = (to_Z l - to_Z r) mod pow2 (len v).
Proof.
  intros Wl Wr Hl Hr. destruct (vsub_spec l r Wl Wr) as (v & E & [Hd Hh _ Hs _] & _).
  rewrite Hl, Hr in Hh. exists v. by destruct (Hs Hh).
Qed.

Lemma vmul_sized l r :
  wf_num l -> wf_num r -> has_len l = true -> has_len r = true ->
  exists v, vmul l r = Some v /\ defined (bits_ v) /\ len v = (len l `max` len r)%nat /\
    uval (bits_ v) = (to_Z l * to_Z r) mod pow2 (len v).
Proof.
  intros Wl Wr Hl Hr. destruct (vmul_spec l r Wl Wr) as (v & E & [Hd _] & Hh & _ & Hs & _).
  rewrite Hl, Hr in Hh. exists v. by destruct (Hs Hh).
Qed.

Lemma add_mod_pow n x y : (x mod 2 ^ n + y mod 2 ^ n) mod 2 ^ n = (x + y) mod 2 ^ n.
Proof. destruct (Z.eq_dec (2 ^ n) 0) as [->|]; [by rewrite !Z.mod_0_r|]. by rewrite <- Z.add_mod. Qed.

Lemma sub_mod_pow n x y : (x mod 2 ^ n - y mod 2 ^ n) mod 2 ^ n = (x - y) mod 2 ^ n.
Proof. symmetry. apply Zminus_mod. Qed.

Lemma mul_mod_pow n x y : (x mod 2 ^ n * (y mod 2 ^ n)) mod 2 ^ n = (x * y) mod 2 ^ n.
Proof. destruct (Z.eq_dec (2 ^ n) 0) as [->|]; [by rewrite !Z.mod_0_r|]. by rewrite <- Z.mul_mod. Qed.

(** ** The agreement of constant folding and simulation, and the properties of the
    elaborator's numbers. *)

(** * Concrete operands *)

Definition num (bs : list V) (hl sg : bool) : verinum := mkVerinum bs hl sg false false.
Definition n_five : verinum := num [V1; V0; V1; V0] true false.
Definition n_x : verinum := num [V1; Vx; V0; V1] true false.
Definition n_minus_six : verinum := num [V0; V1; V0; V1] false true.
Definition n_three : verinum := num [V1; V1; V0; V0] false true.
Definition n_minus_two : verinum := num [V0; V1; V1] false true.
Definition v_five : vvp_vector4_t := mkVec4 4 [5] [0].
Definition v_x : vvp_vector4_t := mkVec4 4 [11] [2].

Lemma v_five_represents : represents n_five v_five.
Proof.
  split; [split; [reflexivity|reflexivity|..]; repeat constructor; (discriminate || reflexivity)|reflexivity|].
  intros i Hi. unfold len in Hi. simpl in Hi. by destruct i as [|[|[|[|i]]]]; [..|lia].
Qed.

Lemma v_x_represents : represents n_x v_x.
Proof.
  split; [split; [reflexivity|reflexivity|..]; repeat constructor; (discriminate || reflexivity)|reflexivity|].
  intros i Hi. unfold len in Hi. simpl in Hi. by destruct i as [|[|[|[|i]]]]; [..|lia].
Qed.

Lemma folded_five_five : folded n_five n_five v_five v_five.
Proof. split; try apply v_five_represents; try done. unfold len. simpl. lia. Qed.

Lemma folded_five_x : folded n_five n_x v_five v_x.
Proof.
  split; try apply v_five_represents; try apply v_x_represents; try done. unfold len. simpl. lia.
Qed.

Lemma wf_by_eval v : is_defined v = true -> (0 < len v)%nat -> wf_num v.
Proof. intros Hd Hl. split; [by apply is_defined_spec|done]. Qed.

Ltac solve_num := apply wf_by_eval; [reflexivity|unfold len; simpl; lia].

Lemma wf_minus_six : wf_num n_minus_six. Proof. solve_num. Qed.
Lemma wf_three : wf_num n_three. Proof. solve_num. Qed.
Lemma wf_minus_two : wf_num n_minus_two. Proof. solve_num. Qed.
#[local] Hint Resolve wf_minus_six wf_three wf_minus_two folded_five_five folded_five_x : core.

(** * Folding against simulation *)

(** Folding [l + r], [l - r] and [l * r] with the elaborator's numbers gives the bits
    that [vvp_vector4_t::add], [sub] and [mul] give at run time, on sized operands of one
    width, signed or not, unknown bits included; the product is bit by bit on one side and
    by words on the other. *)
Theorem fold_arithmetic l r a b :
  folded l r a b ->
  (exists v c, vadd l r = Some v /\ add a b = Some c /\ represents v c) /\
  (exists v c, vsub l r = Some v /\ sub a b = Some c /\ represents v c) /\
  (exists v c, vmul l r = Some v /\ mul a b = Some c /\ represents v c).
Proof.
  intros Hf. split_and!.
  - by apply (fold_agrees Z.add add_mod_pow vadd add vadd_sized vadd_undefined add_result).
  - by apply (fold_agrees Z.sub sub_mod_pow vsub sub vsub_sized vsub_undefined sub_result).
  - by apply (fold_agrees Z.mul mul_mod_pow vmul mul vmul_sized vmul_undefined mul_result).
Qed.

Lemma fold_arithmetic_witness :
  (exists v c, vadd n_five n_x = Some v /\ add v_five v_x = Some c /\ represents v c) /\
  (exists v c, vsub n_five n_x = Some v /\ sub v_five v_x = Some c /\ represents v c) /\
  (exists v c, vmul n_five n_x = Some v /\ mul v_five v_x = Some c /\ represents v c).
Proof. apply (fold_arithmetic n_five n_x v_five v_x). auto. Defined.

(** The bit operators of the elaborator and of the runtime are the same four-valued
    logic: the map of the constants commutes with each of them. *)
Theorem fold_bit_operators (a b : V) :
  bit4_of_V (V_not a) = bit4_not (bit4_of_V a) /\
  bit4_of_V (V_and a b) = bit4_and (bit4_of_V a) (bit4_of_V b) /\
  bit4_of_V (V_or a b) = bit4_or (bit4_of_V a) (bit4_of_V b) /\
  bit4_of_V (V_xor a b) = bit4_xor (bit4_of_V a) (bit4_of_V b).
Proof.
  unfold bit4_of_V. split_and!.
  - exact (fv_map_not (A := V) (B := vvp_bit4_t) a).
  - exact (fv_map_and (A := V) (B := vvp_bit4_t) a b).
  - exact (fv_map_or (A := V) (B := vvp_bit4_t) a b).
  - exact (fv_map_xor (A := V) (B := vvp_bit4_t) a b).
Qed.

(** * Arithmetic of the elaborator *)

(** [operator +] on defined numbers: sized operands wrap at the longer width, signed
    unsized operands give the exact sum, unsigned unsized ones the sum with a bit more. *)
Theorem verinum_add l r :
  wf_num l -> wf_num r ->
  exists v, vadd l r = Some v /\ adds_to l r v (to_Z l + to_Z r) /\
    (has_len v = false -> has_sign v = false ->
     uval (bits_ v) = (to_Z l + to_Z r) mod pow2 (S (len l `max` len r))).
Proof.
  intros Hl Hr. destruct (vadd_spec l r Hl Hr) as (v & E & Ha & _ & Hu). exists v. auto.
Qed.

Lemma verinum_add_witness :
  exists v, vadd n_minus_six n_three = Some v /\ adds_to n_minus_six n_three v (to_Z n_minus_six + to_Z n_three) /\
    (has_len v = false -> has_sign v = false ->
     uval (bits_ v) = (to_Z n_minus_six + to_Z n_three) mod pow2 (S (len n_minus_six `max` len n_three))).
Proof. apply (verinum_add n_minus_six n_three); auto. Defined.

(** [operator *]: sized operands wrap at the longer width, unsized operands of one
    signedness give the exact product. *)
Theorem verinum_mul l r :
  wf_num l -> wf_num r ->
  exists v, vmul l r = Some v /\ wf_num v /\
    has_len v = has_len l && has_len r /\ has_sign v = has_sign l && has_sign r /\
    (has_len v = true ->
     len v = (len l `max` len r)%nat /\ uval (bits_ v) = (to_Z l * to_Z r) mod pow2 (len v)) /\
    (has_len v = false -> has_sign l = has_sign r -> to_Z v = to_Z l * to_Z r).
Proof. apply vmul_spec. Qed.

Lemma verinum_mul_witness :
  exists v, vmul n_minus_six n_three = Some v /\ wf_num v /\
    has_len v = false /\ has_sign v = true /\
    (has_len v = true -> len v = (len n_minus_six `max` len n_three)%nat /\
       uval (bits_ v) = (to_Z n_minus_six * to_Z n_three) mod pow2 (len v)) /\
    (has_len v = false -> has_sign n_minus_six = has_sign n_three -> to_Z v = to_Z n_minus_six * to_Z n_three).
Proof. apply (verinum_mul n_minus_six n_three); auto. Defined.

(** C29: [operator /] truncates toward zero and [operator %] gives the remainder with the
    sign of the left operand (operands of one signedness, the right one not zero and, on
    the native path, not wider than a word): sized operands keep the left width, unsized
    ones give the exact quotient and remainder, except for the quotient of the most negative
    value over -1. *)
Theorem verinum_div_mod l r :
  wf_num l -> wf_num r -> has_sign l = has_sign r -> to_Z r <> 0 -> native_fits l r ->
  (exists v, vdiv l r = Some v /\ wf_num v /\ has_sign v = has_sign l /\
    has_len v = (has_len l && has_len r || wide_division l) /\
    (has_len l && has_len r = true ->
     len v = len l /\ uval (bits_ v) = Z.quot (to_Z l) (to_Z r) mod pow2 (len l)) /\
    (has_len l && has_len r = false -> ~ quotient_wraps l r ->
     to_Z v = Z.quot (to_Z l) (to_Z r))) /\
  (exists v, vmod l r = Some v /\ wf_num v /\ has_sign v = has_sign l /\
    has_len v = has_len l && has_len r /\
    (has_len l && has_len r = true ->
     len v = len l /\ uval (bits_ v) = Z.rem (to_Z l) (to_Z r) mod pow2 (len l)) /\
    (has_len l && has_len r = false -> to_Z v = Z.rem (to_Z l) (to_Z r))).
Proof. intros. split; [by apply vdiv_spec|by apply vmod_spec]. Qed.

Lemma verinum_div_mod_witness :
  (exists v, vdiv n_minus_six n_three = Some v /\ wf_num v /\ has_sign v = true /\
    has_len v = (has_len n_minus_six && has_len n_three || wide_division n_minus_six) /\
    (has_len n_minus_six && has_len n_three = true ->
     len v = len n_minus_six /\
     uval (bits_ v) = Z.quot (to_Z n_minus_six) (to_Z n_three) mod pow2 (len n_minus_six)) /\
    (has_len n_minus_six && has_len n_three = false -> ~ quotient_wraps n_minus_six n_three ->
     to_Z v = Z.quot (to_Z n_minus_six) (to_Z n_three))) /\
  (exists v, vmod n_minus_six n_three = Some v /\ wf_num v /\ has_sign v = true /\
    has_len v = has_len n_minus_six && has_len n_three /\
    (has_len n_minus_six && has_len n_three = true ->
     len v = len n_minus_six /\
     uval (bits_ v) = Z.rem (to_Z n_minus_six) (to_Z n_three) mod pow2 (len n_minus_six)) /\
    (has_len n_minus_six && has_len n_three = false -> to_Z v = Z.rem (to_Z n_minus_six) (to_Z n_three))).
Proof.
  apply (verinum_div_mod n_minus_six n_three); [auto|auto|reflexivity|discriminate|unfold native_fits, len; simpl; lia].
Defined.

(** C30: [pow] of any two numbers of a bit or more ends.  The result is unknown in every bit
    when a bit of an operand is, or for 0 to a negative exponent; otherwise, with an exponent
    that is not negative, it is the power in the left operand's type, and with a negative one
    the entry of the Verilog table: 1 for 1, 1 or -1 for -1, 0 for all others. *)
Theorem verinum_pow l r :
  (0 < len l)%nat -> (0 < len r)%nat ->
  exists v, vpow l r = Some v /\
    if is_defined l && is_defined r && negb ((to_Z r <? 0) && (to_Z l =? 0))
    then typed_as l (if to_Z r <? 0 then pow_negative (to_Z l) (to_Z r) else to_Z l ^ to_Z r) v
    else unknown_as l v.
Proof.
  intros Pl Pr. destruct (is_defined l && is_defined r) eqn:Hd; cbn [andb].
  2: { rewrite vpow_undefined by done. eexists. split; [done|]. by apply trim_unknown, undefined_unknown. }
  apply andb_true_iff in Hd as [Dl%is_defined_spec Dr%is_defined_spec].
  destruct (Z.ltb_spec (to_Z r) 0) as [Hn|Hn]; cbn [andb negb]; [|by apply vpow_spec].
  destruct (Z.eqb_spec (to_Z l) 0) as [H0|H0]; cbn [negb]; [|by apply vpow_negative_spec].
  rewrite vpow_zero_negative by done. eexists. split; [done|]. by apply trim_unknown, undefined_unknown.
Qed.

(** (-2) ** 3. *)
Lemma verinum_pow_witness :
  exists v, vpow n_minus_two n_three = Some v /\ typed_as n_minus_two (-8) v.
Proof. apply (verinum_pow n_minus_two n_three); cbn; lia. Defined.

(** The shifts: [<<] multiplies by 2^k and [>>] divides by 2^k rounding down, in the
    width of a sized number and exactly for an unsized one, where the result is as narrow
    as it can be. *)
Theorem verinum_shift v k :
  wf_num v ->
  (let r := vshl v k in
   wf_num r /\ has_len r = has_len v /\ has_sign r = has_sign v /\
   (has_len v = true -> len r = len v /\ uval (bits_ r) = (to_Z v * pow2 k) mod pow2 (len v)) /\
   (has_len v = false -> to_Z r = to_Z v * pow2 k)) /\
  (exists r, vshr v k = Some r /\ wf_num r /\ has_len r = has_len v /\ has_sign r = has_sign v /\
     (has_len v = true -> len r = len v) /\ to_Z r = to_Z v / pow2 k).
Proof. intros Hv. split; [apply vshl_spec; [done|apply Hv]|by apply vshr_spec]. Qed.

Lemma verinum_shift_witness :
  (let r := vshl n_minus_six 3 in
   wf_num r /\ has_len r = false /\ has_sign r = true /\
   (has_len n_minus_six = true -> len r = len n_minus_six /\
      uval (bits_ r) = (to_Z n_minus_six * pow2 3) mod pow2 (len n_minus_six)) /\
   (has_len n_minus_six = false -> to_Z r = to_Z n_minus_six * pow2 3)) /\
  (exists r, vshr n_minus_six 3 = Some r /\ wf_num r /\ has_len r = false /\ has_sign r = true /\
     (has_len n_minus_six = true -> len r = len n_minus_six) /\ to_Z r = to_Z n_minus_six / pow2 3).
Proof. apply (verinum_shift n_minus_six 3). auto. Defined.
