(* ===== verification/RuntimeProps.v ===== *)
(** The properties of the four-valued runtime vectors: every theorem is stated on the
    whole operation and followed by a concrete instance. *)
From S2P Require Import Prelude MachineWord VvpBit VvpVector4 VvpSlice WordArith VvpArith VvpCompare.

(** * Concrete operands *)

(** Long (two words) and short vectors, with and without unknown bits. *)
Definition long_a : vvp_vector4_t := mkVec4 70 [wones; 1] [0; 0].
Definition long_b : vvp_vector4_t := mkVec4 70 [2; 0] [0; 0].
Definition long_x : vvp_vector4_t := mkVec4 70 [5; 0] [4; 0].
Definition short_a : vvp_vector4_t := mkVec4 8 [200] [0].
Definition short_x : vvp_vector4_t := mkVec4 8 [3] [2].

Ltac solve_words := repeat constructor; (discriminate || reflexivity).
Ltac solve_wf4 := split; [reflexivity|reflexivity|solve_words|solve_words].

Lemma long_a_wf : wf4 long_a. Proof. solve_wf4. Qed.
Lemma long_b_wf : wf4 long_b. Proof. solve_wf4. Qed.
Lemma long_x_wf : wf4 long_x. Proof. solve_wf4. Qed.
Lemma short_a_wf : wf4 short_a. Proof. solve_wf4. Qed.
Lemma short_x_wf : wf4 short_x. Proof. solve_wf4. Qed.

(** [known] by evaluation. *)
Lemma known_by_eval v : forallb (fun i => negb (bit4_is_xz (value v i))) (seq 0 (size v)) = true -> known v.
Proof.
  rewrite forallb_forall. intros H i Hi. apply negb_true_iff, H, in_seq. lia.
Qed.

Lemma long_a_known : known long_a. Proof. by apply known_by_eval. Qed.
Lemma long_b_known : known long_b. Proof. by apply known_by_eval. Qed.
Lemma short_a_known : known short_a. Proof. by apply known_by_eval. Qed.

#[local] Hint Resolve long_a_wf long_b_wf long_x_wf short_a_wf short_x_wf
  long_a_known long_b_known short_a_known : core.

(** * Arithmetic *)

(** [vvp_vector4_t::add] and [sub] on vectors of one size are total; with no unknown
    bit the results are the sum and the difference modulo 2^size (the subtraction through
    the complemented words and a first carry of 1), and otherwise every bit of the result is X. *)
Theorem vector4_add_sub v that :
  wf4 v -> wf4 that -> size v = size that ->
  (exists r, add v that = Some r /\ arith_result v that (vec_Z v + vec_Z that) r) /\
  (exists r, sub v that = Some r /\ arith_result v that (vec_Z v - vec_Z that) r).
Proof. intros Hv Ht Hs. split; [by apply add_result|by apply sub_result]. Qed.

Lemma vector4_add_sub_witness :
  (exists r, add long_a long_x = Some r /\ arith_result long_a long_x (vec_Z long_a + vec_Z long_x) r) /\
  (exists r, sub long_a long_x = Some r /\ arith_result long_a long_x (vec_Z long_a - vec_Z long_x) r).
Proof. apply (vector4_add_sub long_a long_x); [auto|auto|reflexivity]. Defined.

(** [vvp_vector4_t::mul] computes the product modulo 2^size (the schoolbook product of
    the words with the last word masked), or all X. *)
Theorem vector4_mul v that :
  wf4 v -> wf4 that -> size v = size that ->
  exists r, mul v that = Some r /\ arith_result v that (vec_Z v * vec_Z that) r.
Proof. apply mul_result. Qed.

Lemma vector4_mul_witness :
  exists r, mul long_a long_b = Some r /\ arith_result long_a long_b (vec_Z long_a * vec_Z long_b) r.
Proof. apply (vector4_mul long_a long_b); [auto|auto|reflexivity]. Defined.

(** [operator += (int64_t)] terminates and adds the signed integer modulo 2^size; a
    vector with an unknown bit becomes all X. *)
Theorem vector4_add_int v that :
  wf4 v -> (0 < size v)%nat ->
  exists r, add_int v that = Some r /\ wf4 r /\ size r = size v /\
    (known v -> known r /\ vec_Z r = (vec_Z v + that) mod 2 ^ Z.of_nat (size v)) /\
    (~ known v -> forall i, (i < size v)%nat -> value r i = BIT4_X).
Proof. apply add_int_result. Qed.

Lemma vector4_add_int_witness :
  exists r, add_int short_a (-201) = Some r /\ wf4 r /\ size r = 8%nat /\
    (known short_a -> known r /\ vec_Z r = (vec_Z short_a + -201) mod 2 ^ 8) /\
    (~ known short_a -> forall i, (i < 8)%nat -> value r i = BIT4_X).
Proof. apply (vector4_add_int short_a (-201)); [auto|unfold short_a; simpl; lia]. Defined.

(** * Bits and slices *)

(** [set_bit] inside the vector changes that bit only, and outside it fails its
    assertion; reading outside gives X. *)
Theorem vector4_set_bit v idx val :
  wf4 v ->
  if (idx <? size v)%nat then
    exists r, set_bit v idx val = Some r /\ wf4 r /\ size r = size v /\
      forall i, value r i = if (i =? idx)%nat then val else value v i
  else set_bit v idx val = None /\ value v idx = BIT4_X.
Proof.
  intros Hv. case_cmp; [by apply set_bit_spec|]. split; [by apply set_bit_outside|by apply value_overflow].
Qed.

Lemma vector4_set_bit_witness :
  exists r, set_bit long_a 69 BIT4_Z = Some r /\ wf4 r /\ size r = size long_a /\
    forall i, value r i = if (i =? 69)%nat then BIT4_Z else value long_a i.
Proof. apply (vector4_set_bit long_a 69 BIT4_Z). auto. Defined.

(** The part select [vvp_vector4_t(that, adr, wid)] gives the bits from [adr] on,
    X beyond the end of [that], for every alignment of [adr] and [wid] to the words. *)
Theorem vector4_subvalue that adr wid :
  wf4 that ->
  exists r, subvalue that adr wid = Some r /\ bitwise wid (fun i => value that (adr + i)) r.
Proof. apply subvalue_spec. Qed.

Lemma vector4_subvalue_witness :
  exists r, subvalue long_a 60 9 = Some r /\ bitwise 9 (fun i => value long_a (60 + i)) r.
Proof. apply (vector4_subvalue long_a 60 9). auto. Defined.

(** [set_vec] writes the whole of [that] at [adr] and leaves the other bits, and its
    return value tells exactly whether a bit of the vector changed. *)
Theorem vector4_set_vec v adr that :
  wf4 v -> wf4 that -> (0 < size that)%nat -> (adr + size that <= size v)%nat ->
  exists r diff, set_vec v adr that = Some (r, diff) /\
    bitwise (size v) (fun i => if (adr <=? i)%nat && (i <? adr + size that)%nat
                               then value that (i - adr) else value v i) r /\
    (diff = true <-> ~ same_bits r v).
Proof. apply set_vec_spec. Qed.

Lemma vector4_set_vec_witness :
  exists r diff, set_vec long_a 60 short_x = Some (r, diff) /\
    bitwise 70 (fun i => if (60 <=? i)%nat && (i <? 60 + 8)%nat
                         then value short_x (i - 60) else value long_a i) r /\
    (diff = true <-> ~ same_bits r long_a).
Proof.
  apply (vector4_set_vec long_a 60 short_x); [auto|auto| |]; unfold long_a, short_x; simpl; lia.
Defined.

(** [resize] keeps the bits that fit and pads with the given value. *)
Theorem vector4_resize v newsize pad_bit :
  wf4 v ->
  bitwise newsize (fun i => if (i <? size v)%nat then value v i else pad_bit) (resize v newsize pad_bit).
Proof. apply resize_spec. Qed.

Lemma vector4_resize_witness :
  bitwise 130 (fun i => if (i <? 70)%nat then value long_x i else BIT4_Z) (resize long_x 130 BIT4_Z).
Proof. apply (vector4_resize long_x 130 BIT4_Z). auto. Defined.

(** [mov] copies [cnt] bits from [src] to [dst] when no bit is overwritten before it
    is read. *)
Theorem vector4_mov v dst src cnt :
  wf4 v -> disjoint_move dst src cnt -> (0 < cnt)%nat ->
  (dst + cnt <= size v)%nat -> (src + cnt <= size v)%nat ->
  exists r, mov v dst src cnt = Some r /\
    bitwise (size v) (fun i => if (dst <=? i)%nat && (i <? dst + cnt)%nat
                               then value v (src + (i - dst)) else value v i) r.
Proof. apply mov_spec. Qed.

Lemma vector4_mov_witness :
  exists r, mov long_a 3 60 10 = Some r /\
    bitwise 70 (fun i => if (3 <=? i)%nat && (i <? 3 + 10)%nat
                         then value long_a (60 + (i - 3)) else value long_a i) r.
Proof.
  apply (vector4_mov long_a 3 60 10); [auto|left; lia|lia| |]; unfold long_a; simpl; lia.
Defined.

(** C31: [subarray] gives the selected bits as two-valued words, or nil exactly when one
    of them is unknown and unknown bits are not converted to 0. *)
Theorem vector4_subarray v adr wid xz_to_0 :
  wf4 v -> (0 < wid)%nat -> (adr + wid <= size v)%nat ->
  match subarray v adr wid xz_to_0 with
  | Some val =>
      length val = words_for wid /\ words val /\
      (forall i, wbit val i = (i <? wid)%nat && bit4_eqb (value v (adr + i)) BIT4_1) /\
      (xz_to_0 = false -> forall i, (i < wid)%nat -> bit4_is_xz (value v (adr + i)) = false)
  | None => xz_to_0 = false /\ exists i, (i < wid)%nat /\ bit4_is_xz (value v (adr + i)) = true
  end.
Proof. apply subarray_spec. Qed.

Lemma vector4_subarray_witness :
  match subarray long_a 60 9 false with
  | Some val =>
      length val = words_for 9 /\ words val /\
      (forall i, wbit val i = (i <? 9)%nat && bit4_eqb (value long_a (60 + i)) BIT4_1) /\
      (false = false -> forall i, (i < 9)%nat -> bit4_is_xz (value long_a (60 + i)) = false)
  | None => false = false /\ exists i, (i < 9)%nat /\ bit4_is_xz (value long_a (60 + i)) = true
  end.
Proof. apply (vector4_subarray long_a 60 9 false); [auto| |]; unfold long_a; simpl; lia. Defined.

(** [setarray] writes [wid] two-valued bits at [adr] and leaves the others. *)
Theorem vector4_setarray v adr wid val :
  wf4 v -> words val -> (0 < wid)%nat -> (adr + wid <= size v)%nat ->
  exists r, setarray v adr wid val = Some r /\
    bitwise (size v) (fun i => if (adr <=? i)%nat && (i <? adr + wid)%nat
                               then (if wbit val (i - adr) then BIT4_1 else BIT4_0)
                               else value v i) r.
Proof. apply setarray_spec. Qed.

Lemma vector4_setarray_witness :
  exists r, setarray long_x 1 66 [7; 3] = Some r /\
    bitwise 70 (fun i => if (1 <=? i)%nat && (i <? 1 + 66)%nat
                         then (if wbit [7; 3] (i - 1) then BIT4_1 else BIT4_0)
                         else value long_x i) r.
Proof.
  apply (vector4_setarray long_x 1 66 [7; 3]); [auto|solve_words| |]; unfold long_x; simpl; lia.
Defined.

(** The word-parallel operators [~], [invert], [&=] and [|=] are the four-valued
    tables bit by bit. *)
Theorem vector4_bit_operators v that :
  wf4 v -> wf4 that -> size that = size v ->
  bitwise (size v) (fun i => bit4_not (value v i)) (vec4_not v) /\
  bitwise (size v) (fun i => bit4_not (value v i)) (invert v) /\
  bitwise (size v) (fun i => bit4_and (value v i) (value that i)) (and_assign v that) /\
  bitwise (size v) (fun i => bit4_or (value v i) (value that i)) (or_assign v that).
Proof.
  intros Hv Ht Hs. split_and!; [apply vec4_not_spec|apply invert_spec|apply and_assign_spec|apply or_assign_spec]; done.
Qed.

Lemma vector4_bit_operators_witness :
  bitwise 70 (fun i => bit4_not (value long_x i)) (vec4_not long_x) /\
  bitwise 70 (fun i => bit4_not (value long_x i)) (invert long_x) /\
  bitwise 70 (fun i => bit4_and (value long_x i) (value long_a i)) (and_assign long_x long_a) /\
  bitwise 70 (fun i => bit4_or (value long_x i) (value long_a i)) (or_assign long_x long_a).
Proof. apply (vector4_bit_operators long_x long_a); [auto|auto|reflexivity]. Defined.

(** [eeq] decides equality of the bits, [eq_xz] equality with X and Z identified. *)
Theorem vector4_equality v that :
  wf4 v -> wf4 that ->
  (eeq v that = true <-> same_bits v that) /\
  (eq_xz v that = true <->
   size v = size that /\ forall i, (i < size v)%nat -> bit4_z2x (value v i) = bit4_z2x (value that i)).
Proof. intros Hv Ht. split; [by apply eeq_spec|by apply eq_xz_spec]. Qed.

Lemma vector4_equality_witness :
  (eeq long_a long_x = true <-> same_bits long_a long_x) /\
  (eq_xz long_a long_x = true <->
   size long_a = size long_x /\
   forall i, (i < size long_a)%nat -> bit4_z2x (value long_a i) = bit4_z2x (value long_x i)).
Proof. apply (vector4_equality long_a long_x); auto. Defined.

(** * Conversions *)

(** [vector4_to_value] for a [w]-bit native type gives the low [w] bits of the number,
    sign-extended when the vector is narrower, unknown bits counting as 0 and reported, and
    with [is_arithmetic] writes nothing when a bit of the type's width is unknown; the
    variant with an overflow flag gives, for a vector without unknown bits, the number
    modulo 2^64 and sets the flag exactly when the number does not fit. *)
Theorem vector4_native_value w v is_signed is_arithmetic :
  (0 < w <= W)%nat -> wf4 v -> (0 < size v)%nat ->
  vector4_to_value w v is_signed is_arithmetic =
    (let u := unknown_in v 0 (size v `min` w) in
     if is_arithmetic && u then (false, None)
     else (negb u, Some (signed_sum is_signed v mod 2 ^ Z.of_nat w))) /\
  (known v -> vector4_to_ulong v = (true, wordsize <=? vec_Z v, Some (vec_Z v mod wordsize))).
Proof. intros Hw Hv Hp. split; [by apply vector4_to_value_result|by apply vector4_to_ulong_known]. Qed.

Lemma vector4_native_value_witness :
  vector4_to_value 32 short_a true true =
    (let u := unknown_in short_a 0 (8 `min` 32) in
     if true && u then (false, None)
     else (negb u, Some (signed_sum true short_a mod 2 ^ Z.of_nat 32))) /\
  (known short_a -> vector4_to_ulong short_a = (true, wordsize <=? vec_Z short_a, Some (vec_Z short_a mod wordsize))).
Proof. apply (vector4_native_value 32 short_a true true); [unfold W; lia|auto|unfold short_a; simpl; lia]. Defined.

(** C32: [as_string] into a buffer that it is told holds [size + 5] bytes or more, and that
    does, stays inside it, leaves the bytes behind the text alone, and writes a text that
    [c4string_test] accepts and [c4string_to_vector4] reads back as the same bits. *)
Theorem vector4_text_roundtrip v buf buf_len :
  wf4 v -> Z.of_nat (size v) + 5 <= buf_len < wordsize -> buf_len <= Z.of_nat (length buf) ->
  exists text, as_string v buf buf_len = Some text /\
    length text = length buf /\ drop (size v + 5) text = drop (size v + 5) buf /\
    c4string_test text = true /\ exists r, c4string_to_vector4 text = Some r /\ wf4 r /\ same_bits r v.
Proof.
  intros Hv Hn Hb. rewrite as_string_writes, text_of_fits by lia.
  set (t := [67; 52; 60] ++ bit_text (value v) (size v) ++ [62; 0]).
  assert (Hl : length t = (size v + 5)%nat) by (subst t; rewrite !length_app, length_bit_text; cbn; lia).
  rewrite (proj2 (Nat.leb_le _ _)) by lia. eexists. split; [done|]. split; [rewrite length_app, length_drop; lia|].
  split; [by rewrite <- Hl, drop_app_length|]. subst t. rewrite <- !app_assoc. split; [apply c4string_test_text|].
  destruct (c4string_to_vector4_text (value v) (size v) ([0] ++ drop (length ([67; 52; 60] ++ bit_text (value v) (size v) ++ [62; 0])) buf)) as (r & E & Hw & Hs & Hb').
  exists r. by split_and!.
Qed.

Lemma vector4_text_roundtrip_witness :
  exists text, as_string long_x (replicate 80 7) 75 = Some text /\
    length text = length (replicate 80 7) /\ drop (size long_x + 5) text = drop (size long_x + 5) (replicate 80 7) /\
    c4string_test text = true /\ exists r, c4string_to_vector4 text = Some r /\ wf4 r /\ same_bits r long_x.
Proof. apply (vector4_text_roundtrip long_x (replicate 80 7) 75); [auto|unfold long_x, wordsize; simpl; lia|simpl; lia]. Defined.

(** [as_string] writes one byte more than the buffer holds whenever the buffer has no room
    beyond the text: told that a buffer holds the [4 <= buf_len <= size + 4] bytes it holds,
    it writes outside. *)
Theorem vector4_as_string_overruns v buf :
  (4 <= length buf <= size v + 4)%nat -> Z.of_nat (length buf) < wordsize -> as_string v buf (Z.of_nat (length buf)) = None.
Proof.
  intros H Hw. rewrite as_string_writes by lia. rewrite (proj2 (Nat.leb_gt _ _)); [done|]. rewrite length_text_of. lia.
Qed.

Lemma vector4_as_string_overruns_witness : as_string short_x (replicate 6 7) 6 = None.
Proof. apply (vector4_as_string_overruns short_x (replicate 6 7)); unfold short_x, wordsize; simpl; lia. Defined.

(** * Comparison *)

(** [compare_gtge], with the result for equal operands given, compares the unsigned
    numbers, the shorter operand extended with 0, and [compare_gtge_signed] the two's
    complement numbers of operands of one size; both give X when a bit of either operand is
    unknown. *)
Theorem vector4_compare lef rig out_if_equal :
  wf4 lef -> wf4 rig -> (0 < size lef)%nat -> (0 < size rig)%nat ->
  (known lef -> known rig ->
   compare_gtge lef rig out_if_equal = gtge_result (vec_Z lef) (vec_Z rig) out_if_equal) /\
  (~ (known lef /\ known rig) -> compare_gtge lef rig out_if_equal = BIT4_X) /\
  (size lef = size rig ->
   (known lef -> known rig ->
    compare_gtge_signed lef rig out_if_equal = Some (gtge_result (vec_S lef) (vec_S rig) out_if_equal)) /\
   (~ (known lef /\ known rig) -> compare_gtge_signed lef rig out_if_equal = Some BIT4_X)).
Proof.
  intros. split_and!; [by apply compare_gtge_known|by apply compare_gtge_unknown|intros Hs].
  split; [by apply compare_gtge_signed_known|by apply compare_gtge_signed_unknown].
Qed.

Lemma vector4_compare_witness :
  (known short_a -> known short_x ->
   compare_gtge short_a short_x BIT4_1 = gtge_result (vec_Z short_a) (vec_Z short_x) BIT4_1) /\
  (~ (known short_a /\ known short_x) -> compare_gtge short_a short_x BIT4_1 = BIT4_X) /\
  (size short_a = size short_x ->
   (known short_a -> known short_x ->
    compare_gtge_signed short_a short_x BIT4_1 = Some (gtge_result (vec_S short_a) (vec_S short_x) BIT4_1)) /\
   (~ (known short_a /\ known short_x) -> compare_gtge_signed short_a short_x BIT4_1 = Some BIT4_X)).
Proof.
  apply (vector4_compare short_a short_x BIT4_1); [auto|auto| |]; unfold short_a, short_x; simpl; lia.
Defined.
