(* ===== verification/Vector2Props.v ===== *)
(** The properties of the two-valued vectors [vvp_vector2_t]. *)
From S2P Require Import Prelude MachineWord VvpBit VvpVector4 WordArith VvpArith VvpVector2.

(** * Concrete operands *)

Definition vec2_a : vvp_vector2_t := mkVec2 [5; 33] 70.
Definition vec2_b : vvp_vector2_t := mkVec2 [7; 0] 70.

Lemma vec2_a_holds : holds2 70 608742554432415203333 vec2_a.
Proof. split; [split; [repeat constructor; (discriminate || reflexivity)|vm_compute; lia]|done|done|done]. Qed.

Lemma vec2_b_holds : holds2 70 7 vec2_b.
Proof. split; [split; [repeat constructor; (discriminate || reflexivity)|vm_compute; lia]|done|done|done]. Qed.

Lemma vec2_one_holds : holds2 70 1 (vec2_of_long 1 70).
Proof. apply holds2_long; [lia|auto with word|done]. Qed.

#[local] Hint Resolve vec2_a_holds vec2_b_holds vec2_one_holds : core.

(** * Division *)

(** C33: [div_mod] on vectors of [n] bits leaves through [exit] exactly on a zero divisor;
    on any other it terminates within its loops' bounds, the remainder is right, and the
    quotient is right whenever the divisor is not 1 or the dividend is at most 2^(n-1). *)
Theorem vector2_divide n x y a b :
  (0 < n)%nat -> holds2 n x a -> holds2 n y b ->
  (div_mod a b = None <-> y = 0) /\
  (0 < y -> exists q r, div_mod a b = Some (q, r) /\ holds2 n (x mod y) r /\
     (y <> 1 \/ x <= 2 ^ Z.of_nat (n - 1) -> holds2 n (x / y) q)).
Proof.
  intros Hn Ha Hb. pose proof (holds2_range _ _ _ Hb) as HR. split; [split|].
  - intros E. destruct (Z.eq_dec y 0) as [|Hy]; [done|exfalso].
    destruct (div_mod_spec n x y a b Hn Ha Hb ltac:(lia)) as (q & r & E' & _). congruence.
  - intros ->. by apply (div_mod_zero n x).
  - intros Hy. destruct (div_mod_spec n x y a b Hn Ha Hb Hy) as (q & r & E & Hq & Hr).
    exists q, r. split_and!; [done|done|]. intros Hc.
    assert (HF : (y =? 1) && (2 ^ Z.of_nat (n - 1) <? x) = false).
    { destruct Hc as [Hc|Hc]; [by rewrite (proj2 (Z.eqb_neq _ _) Hc)|].
      rewrite (proj2 (Z.ltb_ge _ _) Hc). apply andb_false_r. }
    by rewrite HF in Hq.
Qed.

Lemma vector2_divide_witness :
  (div_mod vec2_a vec2_b = None <-> 7 = 0) /\
  (0 < 7 -> exists q r, div_mod vec2_a vec2_b = Some (q, r) /\ holds2 70 (608742554432415203333 mod 7) r /\
     (7 <> 1 \/ 608742554432415203333 <= 2 ^ Z.of_nat (70 - 1) -> holds2 70 (608742554432415203333 / 7) q)).
Proof. apply (vector2_divide 70 _ 7 vec2_a vec2_b); [lia|auto|auto]. Defined.

(** Divided by 1, a dividend above 2^(n-1) loses its quotient: the mask was shifted
    out of its width while [divtmp] was scaled up, and 0 comes back. *)
Theorem vector2_divide_by_one n x a b :
  (0 < n)%nat -> holds2 n x a -> holds2 n 1 b -> 2 ^ Z.of_nat (n - 1) < x ->
  exists q, vec2_div a b = Some q /\ holds2 n 0 q.
Proof.
  intros Hn Ha Hb Hx. destruct (div_mod_spec n x 1 a b Hn Ha Hb ltac:(lia)) as (q & r & E & Hq & _).
  exists q. unfold vec2_div. rewrite E. split; [done|].
  by rewrite Z.eqb_refl, (proj2 (Z.ltb_lt _ _) Hx) in Hq.
Qed.

Lemma vector2_divide_by_one_witness :
  exists q, vec2_div vec2_a (vec2_of_long 1 70) = Some q /\ holds2 70 0 q.
Proof. apply (vector2_divide_by_one 70 608742554432415203333); [lia|auto|auto|reflexivity]. Defined.

(** * Multiplication, power, negation *)

(** [operator *] is the product modulo the words of the operands; the bits above the
    width are not cleared. *)
Theorem vector2_multiply a b :
  wf2 a -> wf2 b -> wid a = wid b -> (0 < wid a)%nat ->
  exists r, vec2_mul a b = Some r /\ wf2 r /\ wid r = wid a /\
    uZ r = (uZ a * uZ b) mod pow64 (words_for (wid a)).
Proof. apply vec2_mul_spec. Qed.

Lemma vector2_multiply_witness :
  exists r, vec2_mul vec2_a vec2_b = Some r /\ wf2 r /\ wid r = 70%nat /\
    uZ r = (uZ vec2_a * uZ vec2_b) mod pow64 2.
Proof.
  apply (vector2_multiply vec2_a vec2_b);
    [apply vec2_a_holds|apply vec2_b_holds|reflexivity|unfold vec2_a; simpl; lia].
Defined.

(** [pow] terminates and is the power modulo the words of the base. *)
Theorem vector2_power x y :
  wf2 x -> (0 < wid x)%nat -> wf2 y -> clean y ->
  exists r, vec2_pow x y = Some r /\ wf2 r /\ wid r = wid x /\
    uZ r = (uZ x ^ uZ y) mod pow64 (words_for (wid x)).
Proof. apply vec2_pow_spec. Qed.

Lemma vector2_power_witness :
  exists r, vec2_pow vec2_b vec2_a = Some r /\ wf2 r /\ wid r = 70%nat /\
    uZ r = (uZ vec2_b ^ uZ vec2_a) mod pow64 2.
Proof.
  apply (vector2_power vec2_b vec2_a);
    [apply vec2_b_holds|unfold vec2_b; simpl; lia|apply vec2_a_holds|apply vec2_a_holds].
Defined.

(** [+=] and unary minus are exact modulo 2^width and clear the bits above the width;
    [-=] is exact modulo the words. *)
Theorem vector2_add_sub_neg a b :
  wf2 a -> wf2 b -> wid a = wid b ->
  (exists r, vec2_add a b = Some r /\ wf2 r /\ wid r = wid a /\ clean r /\
     uZ r = (uZ a + uZ b) mod 2 ^ Z.of_nat (wid a)) /\
  (exists r, vec2_neg a = Some r /\ wf2 r /\ wid r = wid a /\ clean r /\
     uZ r = (- uZ a) mod 2 ^ Z.of_nat (wid a)) /\
  (exists r, vec2_sub a b = Some r /\ wf2 r /\ wid r = wid a /\
     uZ r = (uZ a - uZ b) mod pow64 (words_for (wid a))).
Proof.
  intros Ha Hb E. split_and!; [by apply vec2_add_spec|by apply vec2_neg_spec|by apply vec2_sub_spec].
Qed.

Lemma vector2_add_sub_neg_witness :
  (exists r, vec2_add vec2_a vec2_b = Some r /\ wf2 r /\ wid r = 70%nat /\ clean r /\
     uZ r = (uZ vec2_a + uZ vec2_b) mod 2 ^ 70) /\
  (exists r, vec2_neg vec2_a = Some r /\ wf2 r /\ wid r = 70%nat /\ clean r /\
     uZ r = (- uZ vec2_a) mod 2 ^ 70) /\
  (exists r, vec2_sub vec2_a vec2_b = Some r /\ wf2 r /\ wid r = 70%nat /\
     uZ r = (uZ vec2_a - uZ vec2_b) mod pow64 2).
Proof.
  apply (vector2_add_sub_neg vec2_a vec2_b); [apply vec2_a_holds|apply vec2_b_holds|reflexivity].
Defined.

(** * Shifts and comparison *)

(** [<<=] multiplies by 2^shift in the width, and leaves no bit above the width
    unless the shift is a whole number of words; [>>=] divides by 2^shift, and its assertion
    holds as long as the shift within the word does not exceed the width. *)
Theorem vector2_shift v k :
  wf2 v ->
  (let r := vec2_shl v k in
   wf2 r /\ wid r = wid v /\
   uZ r mod 2 ^ Z.of_nat (wid v) = (uZ v * 2 ^ Z.of_nat k) mod 2 ^ Z.of_nat (wid v) /\
   ((k mod W <> 0)%nat -> clean r)) /\
  (clean v -> (k mod W <= wid v)%nat ->
   exists r, vec2_shr v k = Some r /\ wf2 r /\ wid r = wid v /\ clean r /\ uZ r = uZ v / 2 ^ Z.of_nat k).
Proof. intros Hv. split; [by apply vec2_shl_spec|by apply vec2_shr_spec]. Qed.

Lemma vector2_shift_witness :
  (let r := vec2_shl vec2_a 67 in
   wf2 r /\ wid r = wid vec2_a /\
   uZ r mod 2 ^ Z.of_nat (wid vec2_a) = (uZ vec2_a * 2 ^ 67) mod 2 ^ Z.of_nat (wid vec2_a) /\
   ((67 mod W <> 0)%nat -> clean r)) /\
  (clean vec2_a -> (67 mod W <= wid vec2_a)%nat ->
   exists r, vec2_shr vec2_a 67 = Some r /\ wf2 r /\ wid r = wid vec2_a /\ clean r /\ uZ r = uZ vec2_a / 2 ^ 67).
Proof. apply (vector2_shift vec2_a 67). apply vec2_a_holds. Defined.

(** The five comparison operators compare the numbers, across different widths for
    all but [<=], which asserts equal widths. *)
Theorem vector2_compare a b :
  wf2 a -> wf2 b ->
  vec2_lt a b = (uZ a <? uZ b) /\ vec2_gt a b = (uZ b <? uZ a) /\
  vec2_ge a b = (uZ b <=? uZ a) /\ vec2_eq a b = (uZ a =? uZ b) /\
  vec2_le a b = (if (wid a =? wid b)%nat then Some (uZ a <=? uZ b) else None).
Proof.
  intros Ha Hb. split_and!; [by apply vec2_lt_spec|by apply vec2_gt_spec|by apply vec2_ge_spec
    |by apply vec2_eq_spec|by apply vec2_le_spec].
Qed.

Lemma vector2_compare_witness :
  vec2_lt vec2_a vec2_b = (uZ vec2_a <? uZ vec2_b) /\ vec2_gt vec2_a vec2_b = (uZ vec2_b <? uZ vec2_a) /\
  vec2_ge vec2_a vec2_b = (uZ vec2_b <=? uZ vec2_a) /\ vec2_eq vec2_a vec2_b = (uZ vec2_a =? uZ vec2_b) /\
  vec2_le vec2_a vec2_b = (if (wid vec2_a =? wid vec2_b)%nat then Some (uZ vec2_a <=? uZ vec2_b) else None).
Proof. apply (vector2_compare vec2_a vec2_b); [apply vec2_a_holds|apply vec2_b_holds]. Defined.

(** * Conversions *)

(** A four-valued vector without unknown bits survives the trip through
    [vvp_vector2_t] and [vector2_to_vector4]; with an unknown bit and [enable_NaN] the
    two-valued vector is the NaN. *)
Theorem vector2_roundtrip v :
  wf4 v -> (0 < size v)%nat ->
  (known v -> exists r, vector2_to_vector4 (vec2_of_vec4 v true) (size v) = Some r /\ wf4 r /\ same_bits r v) /\
  (~ known v -> is_NaN (vec2_of_vec4 v true) = true).
Proof.
  intros Hv Hp. destruct (vec2_of_vec4_spec v true Hv Hp) as [H1 H2]. split.
  - intros Hk. destruct (vector2_to_vector4_spec _ _ _ (size v) (H1 Hk)) as (r & E & Wr & Sr & Kr & Zr).
    exists r. split_and!; [done|done|]. apply vec_Z_inj; try done. rewrite Zr.
    apply Z.mod_small, vec_Z_range.
  - intros Hk. by rewrite H2.
Qed.

Definition vec4_wide : vvp_vector4_t := mkVec4 70 [12; 3] [0; 0].

Lemma vec4_wide_wf : wf4 vec4_wide.
Proof. split; [reflexivity|reflexivity|repeat constructor; (discriminate || reflexivity)..]. Qed.

Lemma vector2_roundtrip_witness :
  (known vec4_wide -> exists r, vector2_to_vector4 (vec2_of_vec4 vec4_wide true) 70 = Some r /\
     wf4 r /\ same_bits r vec4_wide) /\
  (~ known vec4_wide -> is_NaN (vec2_of_vec4 vec4_wide true) = true).
Proof. apply (vector2_roundtrip vec4_wide); [apply vec4_wide_wf|unfold vec4_wide; simpl; lia]. Defined.
