(* ===== verification/EventQueue.v ===== *)
(** The event lists of the scheduler ([vvp/schedule.cc]): the interface the scheduler uses,
    and the lists of the code, [struct event_s] cells linked in a ring through [next] with
    the list variable pointing at the last cell. *)
From S2P Require Import Prelude.
From stdpp Require Import gmap.

(** * The interface *)

(** The operations on a list of events: the null list, the test for null, putting an event
    at the end, pushing one in front, and taking the first. *)
Class QueueOps (E Q : Type) := {
  q_null : Q;
  q_is_null : Q -> bool;
  q_put : E -> Q -> Q;
  q_push : E -> Q -> Q;
  q_take : Q -> option (E * Q) }.

(** What the scheduler relies on: a well-formed list stands for a sequence of events. *)
Class QueueLaws (E Q : Type) `{!QueueOps E Q} := {
  q_ok : Q -> Prop;
  q_list : Q -> list E;
  q_null_law : q_ok q_null /\ q_list q_null = [];
  q_is_null_law : forall q, q_ok q -> q_is_null q = bool_decide (q_list q = []);
  q_put_law : forall e q, q_ok q -> q_ok (q_put e q) /\ q_list (q_put e q) = q_list q ++ [e];
  q_push_law : forall e q, q_ok q -> q_ok (q_push e q) /\ q_list (q_push e q) = e :: q_list q;
  q_take_law : forall q, q_ok q ->
    match q_take q with
    | None => q_list q = []
    | Some (e, q') => q_ok q' /\ q_list q = e :: q_list q'
    end }.

(** * Rings *)

Section rings.
Context {E : Type}.

(** The part of [struct event_s] that makes the list: the event and its [next] pointer. *)
Record event_s := mkEvent { event_of : E; next : nat }.

(** The list variable, null or the address of the last cell, and the cells it owns; a cell
    is in one list at a time. *)
Record ring := mkRing { ring_last : option nat; cells : gmap nat event_s }.

(** An address that no cell of the list has. *)
Definition new_cell (m : gmap nat event_s) : nat := S (max_list (fst <$> map_to_list m)).

Definition ring_null : ring := mkRing None ∅.
Definition ring_is_null (r : ring) : bool :=
  match ring_last r with None => true | Some _ => false end.

(** [cur->next = q->next; q->next = cur] on the ring whose last cell is [q]. *)
Definition link_after (q cur : nat) (e : E) (m : gmap nat event_s) : gmap nat event_s :=
  match m !! q with
  | Some c => <[q := mkEvent (event_of c) cur]> (<[cur := mkEvent e (next c)]> m)
  | None => m
  end.

(** Putting [e] on the end: the end of [schedule_event_], and [schedule_init_event]. *)
Definition ring_put (e : E) (r : ring) : ring :=
  let cur := new_cell (cells r) in
  match ring_last r with
  | None => mkRing (Some cur) (<[cur := mkEvent e cur]> (cells r))
  | Some q => mkRing (Some cur) (link_after q cur e (cells r))
  end.

(** Putting [e] in front: [schedule_event_push_] on the active list. *)
Definition ring_push (e : E) (r : ring) : ring :=
  let cur := new_cell (cells r) in
  match ring_last r with
  | None => mkRing (Some cur) (<[cur := mkEvent e cur]> (cells r))
  | Some q => mkRing (Some q) (link_after q cur e (cells r))
  end.

(** [cur = q->next; if (cur->next == cur) q = 0; else q->next = cur->next]; the cell of
    [cur] leaves the list. *)
Definition ring_take (r : ring) : option (E * ring) :=
  q ← ring_last r;
  qc ← cells r !! q;
  let cur := next qc in
  cc ← cells r !! cur;
  if (next cc =? cur)%nat then Some (event_of cc, mkRing None (delete cur (cells r)))
  else Some (event_of cc,
             mkRing (Some q) (delete cur (<[q := mkEvent (event_of qc) (next cc)]> (cells r)))).

#[export] Instance ring_ops : QueueOps E ring := {
  q_null := ring_null; q_is_null := ring_is_null;
  q_put := ring_put; q_push := ring_push; q_take := ring_take }.

(** The events of the ring in order, following [next] from the first cell. *)
Fixpoint walk (fuel cur stop : nat) (m : gmap nat event_s) : list E :=
  match fuel, m !! cur with
  | S f, Some c => event_of c :: (if (cur =? stop)%nat then [] else walk f (next c) stop m)
  | _, _ => []
  end.

Definition ring_list (r : ring) : list E :=
  match ring_last r with
  | None => []
  | Some q => match cells r !! q with
              | None => []
              | Some c => walk (S (size (cells r))) (next c) q (cells r)
              end
  end.

(** ** The shape of a ring *)

(** The cells at [ls] hold the events [es] and each points at the next, the last at [z]. *)
Fixpoint seg (m : gmap nat event_s) (ls : list nat) (es : list E) (z : nat) : Prop :=
  match ls, es with
  | [], [] => True
  | x :: ls', e :: es' => m !! x = Some (mkEvent e (hd z ls')) /\ seg m ls' es' z
  | _, _ => False
  end.

Definition ring_rep (r : ring) (es : list E) : Prop :=
  match ring_last r with
  | None => es = []
  | Some q => exists ls es0 e, es = es0 ++ [e] /\ NoDup (ls ++ [q]) /\
      seg (cells r) ls es0 q /\ cells r !! q = Some (mkEvent e (hd q ls))
  end.

Lemma new_cell_fresh m : m !! new_cell m = None.
Proof.
  destruct (m !! new_cell m) as [c|] eqn:Hc; [exfalso|done].
  assert (Hin : new_cell m ∈ fst <$> map_to_list m).
  { apply list_elem_of_fmap. exists (new_cell m, c). split; [done|]. by apply elem_of_map_to_list. }
  apply max_list_elem_of_le in Hin. unfold new_cell in Hin at 1. lia.
Qed.

Lemma seg_elem m ls es z x : seg m ls es z -> x ∈ ls -> is_Some (m !! x).
Proof.
  revert es. induction ls as [|y ls IH]; intros [|e es] Hs Hx; try done; [by apply not_elem_of_nil in Hx|].
  destruct Hs as [Hy Hs]. apply elem_of_cons in Hx as [->|Hx]; [by rewrite Hy|by apply (IH es)].
Qed.

Lemma seg_insert m ls es z x c : x ∉ ls -> seg m ls es z -> seg (<[x := c]> m) ls es z.
Proof.
  revert es. induction ls as [|y ls IH]; intros [|e es] Hx Hs; try done.
  apply not_elem_of_cons in Hx as [Hxy Hx]. destruct Hs as [Hy Hs].
  split; [by rewrite lookup_insert_ne|by apply IH].
Qed.

Lemma seg_delete m ls es z x : x ∉ ls -> seg m ls es z -> seg (delete x m) ls es z.
Proof.
  revert es. induction ls as [|y ls IH]; intros [|e es] Hx Hs; try done.
  apply not_elem_of_cons in Hx as [Hxy Hx]. destruct Hs as [Hy Hs].
  split; [by rewrite lookup_delete_ne|by apply IH].
Qed.

Lemma seg_snoc m ls es x e z :
  seg m ls es x -> m !! x = Some (mkEvent e z) -> seg m (ls ++ [x]) (es ++ [e]) z.
Proof.
  revert es. induction ls as [|y ls IH]; intros [|e' es] Hs Hx; try done.
  destruct Hs as [Hy Hs]. split; [|by apply IH]. rewrite Hy. by destruct ls.
Qed.

Lemma seg_length m ls es z : seg m ls es z -> length es = length ls.
Proof.
  revert es. induction ls as [|y ls IH]; intros [|e es] Hs; try done.
  destruct Hs as [_ Hs]. simpl. by rewrite (IH es).
Qed.

(** ** The operations keep the shape *)

Lemma hd_snoc (ls : list nat) q z : hd z (ls ++ [q]) = hd q ls.
Proof. by destruct ls. Qed.

Lemma link_after_seg m q cur e ls es0 e0 :
  NoDup (ls ++ [q]) -> seg m ls es0 q -> m !! q = Some (mkEvent e0 (hd q ls)) -> m !! cur = None ->
  let m' := link_after q cur e m in
  cur ∉ ls ++ [q] /\ seg m' ls es0 q /\
  m' !! q = Some (mkEvent e0 cur) /\ m' !! cur = Some (mkEvent e (hd q ls)).
Proof.
  intros Hd Hs Hq Hc m'. unfold m', link_after. rewrite Hq. cbn [event_of next].
  apply NoDup_app in Hd as (Hd & Hnq & _).
  assert (Hcq : cur <> q) by congruence.
  assert (Hcl : cur ∉ ls) by (intros Hin; destruct (seg_elem _ _ _ _ _ Hs Hin); congruence).
  assert (Hql : q ∉ ls) by (intros Hin; eapply Hnq; [done|by apply list_elem_of_singleton]).
  split_and!.
  - rewrite elem_of_app, list_elem_of_singleton. tauto.
  - by apply seg_insert, seg_insert.
  - by rewrite lookup_insert_eq.
  - by rewrite lookup_insert_ne, lookup_insert_eq by done.
Qed.

Lemma ring_single m cur e : ring_rep (mkRing (Some cur) (<[cur := mkEvent e cur]> m)) [e].
Proof.
  exists [], [], e. cbn. split_and!; [done|apply NoDup_singleton|done|by rewrite lookup_insert_eq].
Qed.

Lemma ring_put_rep e r es : ring_rep r es -> ring_rep (ring_put e r) (es ++ [e]).
Proof.
  unfold ring_put. unfold ring_rep at 1. destruct r as [[q|] m]; cbn [ring_last cells].
  - intros (ls & es0 & e0 & -> & Hd & Hs & Hq).
    destruct (link_after_seg m q (new_cell m) e ls es0 e0 Hd Hs Hq (new_cell_fresh m)) as (Hn & Hs' & Hq' & Hc').
    exists (ls ++ [q]), (es0 ++ [e0]), e. cbn. split_and!; [done| | |].
    + apply NoDup_app. split_and!; [done|set_solver|apply NoDup_singleton].
    + by apply seg_snoc.
    + by rewrite hd_snoc.
  - intros ->. apply ring_single.
Qed.

Lemma ring_push_rep e r es : ring_rep r es -> ring_rep (ring_push e r) (e :: es).
Proof.
  unfold ring_push. unfold ring_rep at 1. destruct r as [[q|] m]; cbn [ring_last cells].
  - intros (ls & es0 & e0 & -> & Hd & Hs & Hq).
    destruct (link_after_seg m q (new_cell m) e ls es0 e0 Hd Hs Hq (new_cell_fresh m)) as (Hn & Hs' & Hq' & Hc').
    exists (new_cell m :: ls), (e :: es0), e0. cbn. split_and!; [done| |done|done|done].
    by apply NoDup_cons.
  - intros ->. apply ring_single.
Qed.

Lemma ring_take_rep r es :
  ring_rep r es ->
  match es with
  | [] => ring_take r = None
  | e :: es' => exists r', ring_take r = Some (e, r') /\ ring_rep r' es'
  end.
Proof.
  unfold ring_take. unfold ring_rep at 1. destruct r as [[q|] m]; cbn [ring_last cells]; [|by intros ->].
  intros (ls & es0 & e0 & -> & Hd & Hs & Hq). cbn. rewrite Hq. cbn.
  destruct ls as [|h ls], es0 as [|e es0]; try done; cbn [app hd].
  - cbn. rewrite Hq. cbn. rewrite Nat.eqb_refl. by eexists.
  - destruct Hs as [Hh Hs]. cbn [hd]. rewrite Hh. cbn [mbind option_bind next event_of].
    apply NoDup_cons in Hd as [Hnh Hd].
    assert (Hne : hd q ls <> h).
    { intros <-. apply Hnh. destruct ls; cbn; set_solver. }
    destruct (Nat.eqb_spec (hd q ls) h) as [|_]; [done|].
    eexists; split; [done|]. exists ls, es0, e0. cbn.
    assert (Hhq : h <> q) by set_solver.
    split_and!; [done|done| |].
    + apply seg_delete; [set_solver|]. apply seg_insert; [|done].
      apply NoDup_app in Hd. set_solver.
    + by rewrite lookup_delete_ne, lookup_insert_eq.
Qed.

(** ** The executable reading *)

Lemma walk_seg m ls es z e fuel :
  NoDup (ls ++ [z]) -> seg m ls es z -> m !! z = Some (mkEvent e (hd z ls)) -> forall k,
  m !! z = Some (mkEvent e k) -> (length ls < fuel)%nat ->
  walk fuel (hd z ls) z m = es ++ [e].
Proof.
  intros Hd Hs _ k Hz. revert es fuel Hs. induction ls as [|x ls IH]; intros [|e' es] fuel Hs Hf; try done.
  - destruct fuel; [simpl in Hf; lia|]. cbn. rewrite Hz. cbn. by rewrite Nat.eqb_refl.
  - destruct fuel; [simpl in Hf; lia|]. destruct Hs as [Hx Hs].
    apply NoDup_cons in Hd as [Hnx Hd]. cbn [hd walk]. rewrite Hx. cbn [event_of next].
    destruct (Nat.eqb_spec x z) as [->|_]; [set_solver|]. cbn [app].
    f_equal. apply IH; [done|done|simpl in Hf; lia].
Qed.

Lemma seg_size m ls es z :
  NoDup ls -> seg m ls es z -> (length ls <= size m)%nat.
Proof.
  intros Hd Hs. rewrite <- (size_list_to_set (C := gset nat)) by done. rewrite <- size_dom.
  apply subseteq_size. intros x Hx. apply elem_of_list_to_set in Hx.
  apply elem_of_dom. by eapply seg_elem.
Qed.

Lemma ring_list_rep r es : ring_rep r es -> ring_list r = es.
Proof.
  unfold ring_rep, ring_list. destruct r as [[q|] m]; cbn [ring_last cells]; [|by intros ->].
  intros (ls & es0 & e0 & -> & Hd & Hs & Hq). rewrite Hq. cbn [next].
  eapply (walk_seg m ls); try done.
  apply Nat.lt_succ_r. apply NoDup_app in Hd as (Hd & _). by eapply seg_size.
Qed.

Definition ring_ok (r : ring) : Prop := ring_rep r (ring_list r).

Lemma ring_ok_rep r es : ring_rep r es -> ring_ok r.
Proof. intros Hr. unfold ring_ok. by rewrite (ring_list_rep _ _ Hr). Qed.

#[export] Instance ring_laws : QueueLaws E ring.
Proof.
  refine {| q_ok := ring_ok; q_list := ring_list |}.
  - done.
  - intros [[q|] m] Hr; unfold ring_ok, ring_rep in Hr; cbn in Hr |- *; [|done].
    destruct Hr as (ls & es0 & e0 & E0 & _). symmetry. apply bool_decide_eq_false_2.
    unfold ring_list in E0 |- *. cbn in E0 |- *. rewrite E0. by destruct es0.
  - intros e q Hq. pose proof (ring_put_rep e q _ Hq) as HR.
    split; [by eapply ring_ok_rep|by apply ring_list_rep].
  - intros e q Hq. pose proof (ring_push_rep e q _ Hq) as HR.
    split; [by eapply ring_ok_rep|by apply ring_list_rep].
  - intros q Hq. pose proof (ring_take_rep q _ Hq) as HT. destruct (ring_list q) as [|e es] eqn:El.
    + cbn. by rewrite HT.
    + destruct HT as (r' & E1 & Hr'). cbn. rewrite E1. split; [by eapply ring_ok_rep|].
      by rewrite (ring_list_rep _ _ Hr').
Defined.
End rings.

#[global] Arguments ring : clear implicits.
#[global] Arguments event_s : clear implicits.
