(* ===== verification/Schedule.v ===== *)
(** The event scheduler of the runtime ([vvp/schedule.cc]): the event objects, the time
    steps with their stratified event lists, the functions that schedule events, and the
    main loop.

    The lists of events are any implementation of [QueueOps] ([EventQueue]).  The rest of the
    runtime is the environment: executing an event makes one call into it, and the calls
    it makes back into the scheduler are the requests it answers with.  The theorems hold
    for every environment.

    The main loop is a machine with a control point per loop head, so that every step
    runs at most one event; [None] is a failed assertion. *)
From S2P Require Import Prelude MachineWord VvpBit VvpVector4 VvpSlice VvpVector2 EventQueue.

(** * Events *)

(** The objects events point to; the scheduler does not look inside them. *)
Record objects := {
  thread : Type;      (* vthread_t *)
  net_ptr : Type;     (* vvp_net_ptr_t *)
  net : Type;         (* vvp_net_t* *)
  array : Type;       (* vvp_array_t *)
  vec8 : Type;        (* vvp_vector8_t *)
  real : Type;        (* double *)
  gen_event : Type    (* vvp_gen_event_t *) }.

Section schedule.
Context {T : objects}.

(** The derived event types. *)
Inductive event :=
| vthread_event_s (thr : thread T)
| del_thr_event_s (thr : thread T)
| assign_vector4_event_s (ptr : net_ptr T) (val : vvp_vector4_t) (base vwid : nat)
| assign_vector8_event_s (ptr : net_ptr T) (val : vec8 T)
| assign_real_event_s (ptr : net_ptr T) (val : real T)
| assign_array_word_s (mem : array T) (adr : nat) (val : vvp_vector4_t) (off : nat)
| force_vector4_event_s (n : net T) (val : vvp_vector4_t) (base vwid : nat)
| propagate_vector4_event_s (n : net T) (val : vvp_vector4_t)
| propagate_real_event_s (n : net T) (val : real T)
| assign_array_r_word_s (mem : array T) (adr : nat) (val : real T)
| generic_event_s (obj : option (gen_event T)) (delete_obj_when_done : bool).

(** The calls of the scheduler into the rest of the runtime. *)
Inductive call :=
| vthread_run (thr : thread T)
| vthread_delete (thr : thread T)
| vvp_send_vec4_pv (ptr : net_ptr T) (val : vvp_vector4_t) (base wid vwid : nat)
| vvp_send_vec4 (ptr : net_ptr T) (val : vvp_vector4_t)
| vvp_send_vec8 (ptr : net_ptr T) (val : vec8 T)
| vvp_send_real (ptr : net_ptr T) (val : real T)
| set_word (mem : array T) (adr off : nat) (val : vvp_vector4_t)
| set_word_real (mem : array T) (adr : nat) (val : real T)
| force_vec4 (n : net T) (val : vvp_vector4_t) (mask : vvp_vector2_t)
| net_send_vec4 (n : net T) (val : vvp_vector4_t)
| net_send_real (n : net T) (val : real T)
| gen_run_run (obj : gen_event T) (delete_obj_when_done : bool)
| vpiEndOfCompile | vpiStartOfSim | vpiNextSimTime | vpiPostsim | stop_handler.

(** [force_vector4_event_s::run_run]: the mask of the forced bits and the value to force,
    [cur] being the present value of the signal.  Where [base] is above [vwid] the code's
    unsigned difference wraps and the assertion of [set_bit] fails instead of that of
    [set_vec]. *)
Definition force_mask (wid base vwid : nat) : option vvp_vector2_t :=
  let wid := if (vwid <? base + wid)%nat then (vwid - base)%nat else wid in
  for_upto wid (fun idx m => m ← m; vec2_set_bit m (base + idx) 1) (Some (vec2_fill false vwid)).

Definition force_call (n : net T) (cur val : vvp_vector4_t) (base vwid : nat) : option call :=
  mask ← force_mask (size val) base vwid;
  '(tmp, _) ← set_vec cur base val;
  Some (force_vec4 n tmp mask).

(** The [run_run] methods: the call an event makes, [vec4_value] giving the present value
    of a net's signal. *)
Definition run_run (vec4_value : net T -> vvp_vector4_t) (e : event) : option (list call) :=
  match e with
  | vthread_event_s thr => Some [vthread_run thr]
  | del_thr_event_s thr => Some [vthread_delete thr]
  | assign_vector4_event_s ptr val base vwid =>
      if (0 <? vwid)%nat then Some [vvp_send_vec4_pv ptr val base (size val) vwid]
      else Some [vvp_send_vec4 ptr val]
  | assign_vector8_event_s ptr val => Some [vvp_send_vec8 ptr val]
  | assign_real_event_s ptr val => Some [vvp_send_real ptr val]
  | assign_array_word_s mem adr val off => Some [set_word mem adr off val]
  | force_vector4_event_s n val base vwid =>
      c ← force_call n (vec4_value n) val base vwid; Some [c]
  | propagate_vector4_event_s n val => Some [net_send_vec4 n val]
  | propagate_real_event_s n val => Some [net_send_real n val]
  | assign_array_r_word_s mem adr val => Some [set_word_real mem adr val]
  | generic_event_s obj del =>
      match obj with Some obj => Some [gen_run_run obj del] | None => Some [] end
  end.

(** * The event queue *)

Context {Q : Type} `{!QueueOps event Q}.

(** [struct event_time_s]; [next] is the list the time steps are in. *)
Record event_time_s := mkTime {
  delay : Z;
  start : Q; active : Q; inactive : Q; nbassign : Q; rwsync : Q; rosync : Q; del_thr : Q }.

Definition new_time (delay : Z) : event_time_s :=
  mkTime delay q_null q_null q_null q_null q_null q_null q_null.

Inductive event_queue_t :=
  SEQ_START | SEQ_ACTIVE | SEQ_INACTIVE | SEQ_NBASSIGN | SEQ_RWSYNC | SEQ_ROSYNC | DEL_THREAD.

#[export] Instance event_queue_eq_dec : EqDecision event_queue_t.
Proof. solve_decision. Defined.

(** [switch (select_queue) ... q = &ctim->...]: reading and writing the selected list. *)
Definition queue_of (c : event_time_s) (q : event_queue_t) : Q :=
  match q with
  | SEQ_START => start c | SEQ_ACTIVE => active c | SEQ_INACTIVE => inactive c
  | SEQ_NBASSIGN => nbassign c | SEQ_RWSYNC => rwsync c | SEQ_ROSYNC => rosync c
  | DEL_THREAD => del_thr c
  end.

Definition set_queue (c : event_time_s) (q : event_queue_t) (v : Q) : event_time_s :=
  match c with
  | mkTime d s a i n w o t =>
      match q with
      | SEQ_START => mkTime d v a i n w o t
      | SEQ_ACTIVE => mkTime d s v i n w o t
      | SEQ_INACTIVE => mkTime d s a v n w o t
      | SEQ_NBASSIGN => mkTime d s a i v w o t
      | SEQ_RWSYNC => mkTime d s a i n v o t
      | SEQ_ROSYNC => mkTime d s a i n w v t
      | DEL_THREAD => mkTime d s a i n w o v
      end
  end.

Definition set_delay (c : event_time_s) (d : Z) : event_time_s :=
  mkTime d (start c) (active c) (inactive c) (nbassign c) (rwsync c) (rosync c) (del_thr c).

Definition put_queue (cur : event) (q : event_queue_t) (c : event_time_s) : event_time_s :=
  set_queue c q (q_put cur (queue_of c q)).

(** The search of [schedule_event_] past the first time step: the new list, and what is
    left of [delay] when the time step is found. *)
Fixpoint insert_from (cur : event) (q : event_queue_t) (delay_ : Z) (ctim : event_time_s)
    (rest : list event_time_s) : list event_time_s * Z :=
  let place :=
    if delay_ <? delay ctim then
      (put_queue cur q (new_time delay_) :: set_delay ctim (delay ctim - delay_) :: rest, delay_)
    else if delay ctim =? delay_ then (put_queue cur q ctim :: rest, delay_)
    else (ctim :: put_queue cur q (new_time (delay_ - delay ctim)) :: rest, delay_) in
  match rest with
  | next :: rest' =>
      if delay ctim <? delay_ then
        let '(l, d) := insert_from cur q (delay_ - delay ctim) next rest' in (ctim :: l, d)
      else place
  | [] => place
  end.

(** The time step for the event is found or made: the beginning of [schedule_event_]. *)
Definition insert_time (cur : event) (q : event_queue_t) (delay_ : Z) (l : list event_time_s)
    : list event_time_s * Z :=
  match l with
  | [] => ([put_queue cur q (new_time delay_)], delay_)
  | ctim :: rest =>
      if delay_ <? delay ctim
      then (put_queue cur q (new_time delay_) :: set_delay ctim (delay ctim - delay_) :: rest, delay_)
      else insert_from cur q delay_ ctim rest
  end.

(** [schedule_event_(cur, delay, select_queue)] on [sched_list]; an inactive event asserts
    that nothing is left of its delay. *)
Definition insert_event (cur : event) (delay_ : Z) (q : event_queue_t) (l : list event_time_s)
    : option (list event_time_s) :=
  let x := insert_time cur q delay_ l in
  if decide (q = SEQ_INACTIVE) then (if x.2 =? 0 then Some x.1 else None) else Some x.1.

(** * The state of the scheduler *)

Record sched := mkSched {
  sched_list : list event_time_s;
  schedule_init_list : Q;
  schedule_final_list : Q;
  schedule_runnable : bool;
  schedule_stopped_flag : bool;
  schedule_single_step_flag : bool;
  sim_started : bool;
  sim_at_rosync : bool;
  schedule_time : Z }.

Definition with_list (l : list event_time_s) (s : sched) : sched :=
  mkSched l (schedule_init_list s) (schedule_final_list s) (schedule_runnable s)
    (schedule_stopped_flag s) (schedule_single_step_flag s) (sim_started s) (sim_at_rosync s)
    (schedule_time s).
Definition with_init (q : Q) (s : sched) : sched :=
  mkSched (sched_list s) q (schedule_final_list s) (schedule_runnable s)
    (schedule_stopped_flag s) (schedule_single_step_flag s) (sim_started s) (sim_at_rosync s)
    (schedule_time s).
Definition with_final (q : Q) (s : sched) : sched :=
  mkSched (sched_list s) (schedule_init_list s) q (schedule_runnable s)
    (schedule_stopped_flag s) (schedule_single_step_flag s) (sim_started s) (sim_at_rosync s)
    (schedule_time s).
Definition with_runnable (b : bool) (s : sched) : sched :=
  mkSched (sched_list s) (schedule_init_list s) (schedule_final_list s) b
    (schedule_stopped_flag s) (schedule_single_step_flag s) (sim_started s) (sim_at_rosync s)
    (schedule_time s).
Definition with_stopped (b : bool) (s : sched) : sched :=
  mkSched (sched_list s) (schedule_init_list s) (schedule_final_list s) (schedule_runnable s)
    b (schedule_single_step_flag s) (sim_started s) (sim_at_rosync s) (schedule_time s).
Definition with_single_step (b : bool) (s : sched) : sched :=
  mkSched (sched_list s) (schedule_init_list s) (schedule_final_list s) (schedule_runnable s)
    (schedule_stopped_flag s) b (sim_started s) (sim_at_rosync s) (schedule_time s).
Definition with_started (b : bool) (s : sched) : sched :=
  mkSched (sched_list s) (schedule_init_list s) (schedule_final_list s) (schedule_runnable s)
    (schedule_stopped_flag s) (schedule_single_step_flag s) b (sim_at_rosync s) (schedule_time s).
Definition with_rosync (b : bool) (s : sched) : sched :=
  mkSched (sched_list s) (schedule_init_list s) (schedule_final_list s) (schedule_runnable s)
    (schedule_stopped_flag s) (schedule_single_step_flag s) (sim_started s) b (schedule_time s).
Definition with_time (t : Z) (s : sched) : sched :=
  mkSched (sched_list s) (schedule_init_list s) (schedule_final_list s) (schedule_runnable s)
    (schedule_stopped_flag s) (schedule_single_step_flag s) (sim_started s) (sim_at_rosync s) t.

(** * Scheduling events *)

(** [vthread_mark_scheduled] and [vthread_delay_delete], which some of these functions also
    call, change the state of a thread only and belong to the environment. *)

Definition schedule_event_ (cur : event) (delay_ : Z) (q : event_queue_t) (s : sched) : option sched :=
  l ← insert_event cur delay_ q (sched_list s); Some (with_list l s).

Definition schedule_event_push_ (cur : event) (s : sched) : option sched :=
  match sched_list s with
  | ctim :: rest =>
      if 0 <? delay ctim then schedule_event_ cur 0 SEQ_ACTIVE s
      else Some (with_list (set_queue ctim SEQ_ACTIVE (q_push cur (active ctim)) :: rest) s)
  | [] => schedule_event_ cur 0 SEQ_ACTIVE s
  end.

Definition schedule_init_event (cur : event) (s : sched) : sched :=
  with_init (q_put cur (schedule_init_list s)) s.
Definition schedule_final_event (cur : event) (s : sched) : sched :=
  with_final (q_put cur (schedule_final_list s)) s.

Definition schedule_finish (s : sched) : sched := with_runnable false s.
Definition schedule_stop (s : sched) : sched := with_stopped true s.
Definition schedule_single_step (s : sched) : sched := with_single_step true s.

Definition schedule_vthread (thr : thread T) (delay_ : Z) (push_flag : bool) (s : sched) : option sched :=
  if push_flag && (delay_ =? 0) then schedule_event_push_ (vthread_event_s thr) s
  else schedule_event_ (vthread_event_s thr) delay_ SEQ_ACTIVE s.
Definition schedule_t0_trigger (ptr : net_ptr T) (s : sched) : option sched :=
  schedule_event_ (assign_vector4_event_s ptr (vec4_fill 1 BIT4_X) 0 0) 0 SEQ_INACTIVE s.
Definition schedule_inactive (thr : thread T) (s : sched) : option sched :=
  schedule_event_ (vthread_event_s thr) 0 SEQ_INACTIVE s.
Definition schedule_init_vthread (thr : thread T) (s : sched) : sched :=
  schedule_init_event (vthread_event_s thr) s.
Definition schedule_final_vthread (thr : thread T) (s : sched) : sched :=
  schedule_final_event (vthread_event_s thr) s.
Definition schedule_assign_vector (ptr : net_ptr T) (base vwid : nat) (bit : vvp_vector4_t)
    (delay_ : Z) (s : sched) : option sched :=
  schedule_event_ (assign_vector4_event_s ptr bit base vwid) delay_ SEQ_NBASSIGN s.
Definition schedule_force_vector (n : net T) (base vwid : nat) (bit : vvp_vector4_t)
    (delay_ : Z) (s : sched) : option sched :=
  schedule_event_ (force_vector4_event_s n bit base vwid) delay_ SEQ_NBASSIGN s.
Definition schedule_propagate_vector (n : net T) (delay_ : Z) (src : vvp_vector4_t) (s : sched)
    : option sched :=
  schedule_event_ (propagate_vector4_event_s n src) delay_ SEQ_NBASSIGN s.
Definition schedule_assign_array_word (mem : array T) (word_addr off : nat) (val : vvp_vector4_t)
    (delay_ : Z) (s : sched) : option sched :=
  schedule_event_ (assign_array_word_s mem word_addr val off) delay_ SEQ_NBASSIGN s.
Definition schedule_assign_array_r_word (mem : array T) (word_addr : nat) (val : real T)
    (delay_ : Z) (s : sched) : option sched :=
  schedule_event_ (assign_array_r_word_s mem word_addr val) delay_ SEQ_NBASSIGN s.
Definition schedule_set_vector (ptr : net_ptr T) (bit : vvp_vector4_t) (s : sched) : option sched :=
  schedule_event_ (assign_vector4_event_s ptr bit 0 0) 0 SEQ_ACTIVE s.
Definition schedule_set_vector8 (ptr : net_ptr T) (bit : vec8 T) (s : sched) : option sched :=
  schedule_event_ (assign_vector8_event_s ptr bit) 0 SEQ_ACTIVE s.
Definition schedule_set_real (ptr : net_ptr T) (bit : real T) (s : sched) : option sched :=
  schedule_event_ (assign_real_event_s ptr bit) 0 SEQ_ACTIVE s.
Definition schedule_init_vector (ptr : net_ptr T) (bit : vvp_vector4_t) (s : sched) : sched :=
  schedule_init_event (assign_vector4_event_s ptr bit 0 0) s.
Definition schedule_init_vector8 (ptr : net_ptr T) (bit : vec8 T) (s : sched) : sched :=
  schedule_init_event (assign_vector8_event_s ptr bit) s.
Definition schedule_init_real (ptr : net_ptr T) (bit : real T) (s : sched) : sched :=
  schedule_init_event (assign_real_event_s ptr bit) s.
Definition schedule_init_propagate (n : net T) (bit : vvp_vector4_t) (s : sched) : sched :=
  schedule_init_event (propagate_vector4_event_s n bit) s.
Definition schedule_init_propagate_real (n : net T) (bit : real T) (s : sched) : sched :=
  schedule_init_event (propagate_real_event_s n bit) s.
Definition schedule_del_thr (thr : thread T) (s : sched) : option sched :=
  schedule_event_ (del_thr_event_s thr) 0 DEL_THREAD s.
Definition schedule_generic (obj : option (gen_event T)) (delay_ : Z) (sync_flag ro_flag del : bool)
    (s : sched) : option sched :=
  schedule_event_ (generic_event_s obj del) delay_
    (if sync_flag then (if ro_flag then SEQ_ROSYNC else SEQ_RWSYNC) else SEQ_ACTIVE) s.
Definition schedule_functor (obj : option (gen_event T)) (s : sched) : option sched :=
  let cur := generic_event_s obj false in
  if negb (sim_started s) then Some (schedule_init_event cur s)
  else schedule_event_ cur 0 SEQ_ACTIVE s.
Definition schedule_at_start_of_simtime (obj : option (gen_event T)) (delay_ : Z) (s : sched)
    : option sched :=
  schedule_event_ (generic_event_s obj false) delay_ SEQ_START s.
Definition schedule_at_end_of_simtime (obj : option (gen_event T)) (delay_ : Z) (s : sched)
    : option sched :=
  schedule_event_ (generic_event_s obj false) delay_ SEQ_RWSYNC s.

(** * The environment *)

(** The calls the rest of the runtime makes into the scheduler. *)
Inductive request :=
| Vthread (thr : thread T) (delay_ : Z) (push_flag : bool)
| T0_trigger (ptr : net_ptr T)
| Inactive (thr : thread T)
| Init_vthread (thr : thread T)
| Final_vthread (thr : thread T)
| Assign_vector (ptr : net_ptr T) (base vwid : nat) (bit : vvp_vector4_t) (delay_ : Z)
| Force_vector (n : net T) (base vwid : nat) (bit : vvp_vector4_t) (delay_ : Z)
| Propagate_vector (n : net T) (delay_ : Z) (src : vvp_vector4_t)
| Assign_array_word (mem : array T) (word_addr off : nat) (val : vvp_vector4_t) (delay_ : Z)
| Assign_array_r_word (mem : array T) (word_addr : nat) (val : real T) (delay_ : Z)
| Set_vector (ptr : net_ptr T) (bit : vvp_vector4_t)
| Set_vector8 (ptr : net_ptr T) (bit : vec8 T)
| Set_real (ptr : net_ptr T) (bit : real T)
| Init_vector (ptr : net_ptr T) (bit : vvp_vector4_t)
| Init_vector8 (ptr : net_ptr T) (bit : vec8 T)
| Init_real (ptr : net_ptr T) (bit : real T)
| Init_propagate (n : net T) (bit : vvp_vector4_t)
| Init_propagate_real (n : net T) (bit : real T)
| Del_thr (thr : thread T)
| Generic (obj : option (gen_event T)) (delay_ : Z) (sync_flag ro_flag delete_when_done : bool)
| Functor (obj : option (gen_event T))
| At_start_of_simtime (obj : option (gen_event T)) (delay_ : Z)
| At_end_of_simtime (obj : option (gen_event T)) (delay_ : Z)
| Finish | Stop | Single_step.

Definition apply_request (r : request) (s : sched) : option sched :=
  match r with
  | Vthread thr d push => schedule_vthread thr d push s
  | T0_trigger ptr => schedule_t0_trigger ptr s
  | Inactive thr => schedule_inactive thr s
  | Init_vthread thr => Some (schedule_init_vthread thr s)
  | Final_vthread thr => Some (schedule_final_vthread thr s)
  | Assign_vector ptr base vwid bit d => schedule_assign_vector ptr base vwid bit d s
  | Force_vector n base vwid bit d => schedule_force_vector n base vwid bit d s
  | Propagate_vector n d src => schedule_propagate_vector n d src s
  | Assign_array_word mem adr off val d => schedule_assign_array_word mem adr off val d s
  | Assign_array_r_word mem adr val d => schedule_assign_array_r_word mem adr val d s
  | Set_vector ptr bit => schedule_set_vector ptr bit s
  | Set_vector8 ptr bit => schedule_set_vector8 ptr bit s
  | Set_real ptr bit => schedule_set_real ptr bit s
  | Init_vector ptr bit => Some (schedule_init_vector ptr bit s)
  | Init_vector8 ptr bit => Some (schedule_init_vector8 ptr bit s)
  | Init_real ptr bit => Some (schedule_init_real ptr bit s)
  | Init_propagate n bit => Some (schedule_init_propagate n bit s)
  | Init_propagate_real n bit => Some (schedule_init_propagate_real n bit s)
  | Del_thr thr => schedule_del_thr thr s
  | Generic obj d sync ro del => schedule_generic obj d sync ro del s
  | Functor obj => schedule_functor obj s
  | At_start_of_simtime obj d => schedule_at_start_of_simtime obj d s
  | At_end_of_simtime obj d => schedule_at_end_of_simtime obj d s
  | Finish => Some (schedule_finish s)
  | Stop => Some (schedule_stop s)
  | Single_step => Some (schedule_single_step s)
  end.

Fixpoint apply_requests (rs : list request) (s : sched) : option sched :=
  match rs with
  | [] => Some s
  | r :: rs => s ← apply_request r s; apply_requests rs s
  end.

(** What the environment can ask the scheduler: [schedule_simtime], [schedule_finished],
    [schedule_stopped], [schedule_at_rosync]. *)
Record view := mkView {
  schedule_simtime : Z; schedule_finished : bool; schedule_stopped : bool; schedule_at_rosync : bool }.

Definition view_of (s : sched) : view :=
  mkView (schedule_time s) (negb (schedule_runnable s)) (schedule_stopped_flag s) (sim_at_rosync s).

Context {World : Type}.

(** The rest of the runtime: the present values of the signals, and the reaction to a call,
    the requests in the order they are made and the new state. *)
Record environment := mkEnv {
  vec4_value : World -> net T -> vvp_vector4_t;
  react : call -> view -> World -> list request * World }.

Context (env : environment).

Definition perform (c : call) (m : sched * World) : option (sched * World) :=
  let '(s, w) := m in
  let '(rs, w) := react env c (view_of s) w in
  s ← apply_requests rs s; Some (s, w).

(** [cur->run_run()]. *)
Definition execute (e : event) (m : sched * World) : option (sched * World) :=
  cs ← run_run (vec4_value env m.2) e;
  match cs with c :: _ => perform c m | [] => Some m end.

(** * The main loop: [schedule_simulate] *)

(** The loop heads of [schedule_simulate], with those of [run_rosync]; [AtSelect] is the
    part of the main loop after the time has advanced. *)
Inductive control :=
  AtInit | AtMain | AtStart | AtSelect | AtRosync | AtDelThr | AtFinal | AtEnd.

#[export] Instance control_eq_dec : EqDecision control.
Proof. solve_decision. Defined.

Record machine := mkMachine { ctl : control; run_finals : bool; st : sched; world : World }.

(** The beginning of [schedule_simulate] up to its first loop. *)
Definition begin (s : sched) (w : World) : option machine :=
  '(s, w) ← perform vpiEndOfCompile (with_time 0 (with_started false s), w);
  Some (mkMachine AtInit (schedule_runnable s) s w).

(** Leaving the main loop. *)
Definition to_final (rf : bool) (s : sched) (w : World) : machine :=
  mkMachine AtFinal rf (with_runnable rf s) w.

(** The promotion of the lists of the time step when nothing is active; [None] is the time
    step out of read-write events. *)
Definition promote (c : event_time_s) : option event_time_s :=
  if q_is_null (active c) then
    let c := set_queue (set_queue c SEQ_ACTIVE (inactive c)) SEQ_INACTIVE q_null in
    if q_is_null (active c) then
      let c := set_queue (set_queue c SEQ_ACTIVE (nbassign c)) SEQ_NBASSIGN q_null in
      if q_is_null (active c) then
        let c := set_queue (set_queue c SEQ_ACTIVE (rwsync c)) SEQ_RWSYNC q_null in
        if q_is_null (active c) then None else Some c
      else Some c
    else Some c
  else Some c.

(** Taking the first event of list [q] of the first time step; the event and the state to
    run it in. *)
Definition take_from (q : event_queue_t) (s : sched) : option (event * sched) :=
  match sched_list s with
  | ctim :: rest =>
      match q_take (queue_of ctim q) with
      | Some (e, l) => Some (e, with_list (set_queue ctim q l :: rest) s)
      | None => None
      end
  | [] => None
  end.

(** [if (schedule_single_step_flag) ...] before an event of the main loop. *)
Definition single_step (s : sched) : sched :=
  if schedule_single_step_flag s then with_single_step false (with_stopped true s) else s.

(** The event that ran, if any, and the next state of the machine; [Done] is the return. *)
Inductive outcome := Step (ran : option event) (m : machine) | Done.

(** Running [e] and going on at [k]. *)
Definition run_at (k : control) (rf : bool) (e : event) (s : sched) (w : World) : option outcome :=
  '(s, w) ← execute e (s, w); Some (Step (Some e) (mkMachine k rf s w)).

Definition step (m : machine) : option outcome :=
  let '(mkMachine k rf s w) := m in
  match k with
  | AtInit =>
      match q_take (schedule_init_list s) with
      | Some (e, l) => run_at AtInit rf e (with_init l s) w
      | None =>
          '(s, w) ← perform vpiStartOfSim (s, w);
          let s := with_started true s in
          let rf := schedule_runnable s in
          Some (Step None (if rf then mkMachine AtMain rf s w else to_final rf s w))
      end
  | AtMain =>
      match sched_list s with
      | [] => Some (Step None (to_final rf s w))
      | ctim :: rest =>
          if schedule_stopped_flag s then
            '(s, w) ← perform stop_handler (with_stopped false s, w);
            Some (Step None (if schedule_runnable s then mkMachine AtMain rf s w else to_final rf s w))
          else if 0 <? delay ctim then
            if negb (schedule_runnable s) then Some (Step None (to_final rf s w))
            else
              let s := with_time ((schedule_time s + delay ctim) mod wordsize) s in
              let s := with_list (set_delay ctim 0 :: rest) s in
              '(s, w) ← perform vpiNextSimTime (s, w);
              Some (Step None (mkMachine AtStart rf s w))
          else Some (Step None (mkMachine AtSelect rf s w))
      end
  | AtStart =>
      match take_from SEQ_START s with
      | Some (e, s) => run_at AtStart rf e s w
      | None => Some (Step None (mkMachine AtSelect rf s w))
      end
  | AtSelect =>
      match sched_list s with
      | [] => None
      | ctim :: rest =>
          match promote ctim with
          | Some ctim =>
              '(e, s) ← take_from SEQ_ACTIVE (with_list (ctim :: rest) s);
              run_at AtMain rf e (single_step s) w
          | None => Some (Step None (mkMachine AtRosync rf (with_rosync true s) w))
          end
      end
  | AtRosync =>
      match take_from SEQ_ROSYNC s with
      | Some (e, s) => run_at AtRosync rf e s w
      | None => Some (Step None (mkMachine AtDelThr rf (with_rosync false s) w))
      end
  | AtDelThr =>
      match take_from DEL_THREAD s with
      | Some (e, s) => run_at AtDelThr rf e s w
      | None => Some (Step None (mkMachine AtMain rf (with_list (tl (sched_list s)) s) w))
      end
  | AtFinal =>
      if schedule_runnable s then
        match q_take (schedule_final_list s) with
        | Some (e, l) => run_at AtFinal rf e (with_final l s) w
        | None => '(s, w) ← perform vpiPostsim (s, w); Some (Step None (mkMachine AtEnd rf s w))
        end
      else '(s, w) ← perform vpiPostsim (s, w); Some (Step None (mkMachine AtEnd rf s w))
  | AtEnd => Some Done
  end.

(** [fuel] steps of the machine: the events that ran, with the time at which they did, and
    the machine reached; stops at the return. *)
Fixpoint run (fuel : nat) (m : machine) : option (list (Z * event) * machine) :=
  match fuel with
  | O => Some ([], m)
  | S f =>
      o ← step m;
      match o with
      | Done => Some ([], m)
      | Step ran m' =>
          '(tr, m'') ← run f m';
          Some ((match ran with Some e => [(schedule_time (st m), e)] | None => [] end) ++ tr, m'')
      end
  end.

(** [schedule_simulate]. *)
Definition schedule_simulate (fuel : nat) (s : sched) (w : World) : option (list (Z * event) * machine) :=
  m ← begin s w; run fuel m.

(** The state of the program before [schedule_simulate]. *)
Definition sched_0 : sched :=
  mkSched [] q_null q_null true false false false false 0.
End schedule.

#[global] Arguments event : clear implicits.
#[global] Arguments call : clear implicits.
#[global] Arguments request : clear implicits.
#[global] Arguments environment : clear implicits.
#[global] Arguments event_time_s : clear implicits.
#[global] Arguments sched : clear implicits.
