(* ===== verification/ScheduleRefine.v ===== *)
(** The scheduler over plain lists as the specification of the scheduler over the rings of
    the code: every function of [Schedule], and the whole machine, relates equal states to
    equal states.  The proof uses the laws of [QueueLaws] only. *)
From S2P Require Import Prelude MachineWord VvpBit VvpVector4 VvpSlice VvpVector2 EventQueue Schedule.

(** * Lists as event queues *)

Definition list_take {E} (l : list E) : option (E * list E) :=
  match l with [] => None | e :: l => Some (e, l) end.

#[export] Instance list_ops {E} : QueueOps E (list E) := {
  q_null := []; q_is_null l := match l with [] => true | _ => false end;
  q_put e l := l ++ [e]; q_push e l := e :: l; q_take := list_take }.

Lemma option_Forall2_bind {A B C D} (R : A -> B -> Prop) (S : C -> D -> Prop) x y f g :
  option_Forall2 R x y -> (forall a b, R a b -> option_Forall2 S (f a) (g b)) ->
  option_Forall2 S (x ≫= f) (y ≫= g).
Proof. intros [a b Hab|] Hf; [by apply Hf|constructor]. Qed.

(** * The relation *)

Section refine.
Context {T : objects} {Q : Type} `{!QueueOps (event T) Q} `{!QueueLaws (event T) Q}.
Abbreviation E := (event T).
Abbreviation L := (list E).

Definition queue_rel (q : Q) (l : L) : Prop := q_ok q /\ q_list q = l.

Record time_rel (c : event_time_s Q) (a : event_time_s L) : Prop := {
  time_rel_delay : delay c = delay a;
  time_rel_queue : forall q, queue_rel (queue_of c q) (queue_of a q) }.

Record sched_rel (s : sched Q) (a : sched L) : Prop := {
  rel_list : Forall2 time_rel (sched_list s) (sched_list a);
  rel_init : queue_rel (schedule_init_list s) (schedule_init_list a);
  rel_final : queue_rel (schedule_final_list s) (schedule_final_list a);
  rel_runnable : schedule_runnable s = schedule_runnable a;
  rel_stopped : schedule_stopped_flag s = schedule_stopped_flag a;
  rel_single : schedule_single_step_flag s = schedule_single_step_flag a;
  rel_started : sim_started s = sim_started a;
  rel_rosync : sim_at_rosync s = sim_at_rosync a;
  rel_time : schedule_time s = schedule_time a }.

(** ** Queues *)

Lemma null_rel : queue_rel q_null q_null.
Proof. exact q_null_law. Qed.

Lemma is_null_rel q l : queue_rel q l -> q_is_null q = q_is_null l.
Proof. intros [Hq <-]. rewrite q_is_null_law by done. by destruct (q_list q). Qed.

Lemma put_rel e q l : queue_rel q l -> queue_rel (q_put e q) (q_put e l).
Proof. intros [Hq <-]. by apply q_put_law. Qed.

Lemma push_rel e q l : queue_rel q l -> queue_rel (q_push e q) (q_push e l).
Proof. intros [Hq <-]. by apply q_push_law. Qed.

Lemma take_rel q l :
  queue_rel q l ->
  option_Forall2 (fun x y => x.1 = y.1 /\ queue_rel x.2 y.2) (q_take q) (q_take l).
Proof.
  intros [Hq <-]. pose proof (q_take_law q Hq) as HT. destruct (q_take q) as [[e q']|].
  - destruct HT as [Hq' ->]. by repeat constructor.
  - rewrite HT. constructor.
Qed.

(** ** Time steps *)

Lemma queue_of_set {R} (c : event_time_s R) q v q' :
  queue_of (set_queue c q v) q' = if decide (q = q') then v else queue_of c q'.
Proof. by destruct c, q, q'. Qed.

Lemma delay_set {R} (c : event_time_s R) q v : delay (set_queue c q v) = delay c.
Proof. by destruct c, q. Qed.

Lemma queue_of_set_delay {R} (c : event_time_s R) d q : queue_of (set_delay c d) q = queue_of c q.
Proof. by destruct q. Qed.

Lemma new_time_rel d : time_rel (new_time d) (new_time d).
Proof. split; [done|]. intros []; apply null_rel. Qed.

Lemma set_delay_rel c a d : time_rel c a -> time_rel (set_delay c d) (set_delay a d).
Proof. intros [_ H2]. split; [done|]. intros q. by rewrite !queue_of_set_delay. Qed.

Lemma set_queue_rel c a q v l :
  time_rel c a -> queue_rel v l -> time_rel (set_queue c q v) (set_queue a q l).
Proof.
  intros [H1 H2] Hv. split; [by rewrite !delay_set|]. intros q'. rewrite !queue_of_set. by destruct (decide _).
Qed.

Lemma put_queue_rel c a e q : time_rel c a -> time_rel (put_queue e q c) (put_queue e q a).
Proof. intros Hc. apply set_queue_rel; [done|]. by apply put_rel, Hc. Qed.

#[local] Hint Resolve null_rel put_rel push_rel new_time_rel set_delay_rel set_queue_rel put_queue_rel : core.

Ltac solve_steps := repeat first [apply List.Forall2_cons | apply List.Forall2_nil]; auto.

Lemma insert_from_rel e q d c a l m :
  time_rel c a -> Forall2 time_rel l m ->
  Forall2 time_rel (insert_from e q d c l).1 (insert_from e q d a m).1 /\
  (insert_from e q d c l).2 = (insert_from e q d a m).2.
Proof.
  intros Hc Hl. revert d c a Hc. induction Hl as [|c' a' l m Hc' Hl IH]; intros d c a Hc; cbn [insert_from];
    rewrite (time_rel_delay _ _ Hc).
  - destruct (d <? delay a); [split; [solve_steps|done]|]. destruct (delay a =? d); (split; [solve_steps|done]).
  - destruct (delay a <? d).
    + specialize (IH (d - delay a) _ _ Hc'). destruct (insert_from e q _ c' l), (insert_from e q _ a' m).
      destruct IH as [H1 H2]. split; [by constructor|done].
    + destruct (d <? delay a); [split; [solve_steps|done]|]. destruct (delay a =? d); (split; [solve_steps|done]).
Qed.

Lemma insert_event_rel e d q l m :
  Forall2 time_rel l m ->
  option_Forall2 (Forall2 time_rel) (insert_event e d q l) (insert_event e d q m).
Proof.
  intros Hl. assert (HI : Forall2 time_rel (insert_time e q d l).1 (insert_time e q d m).1 /\
    (insert_time e q d l).2 = (insert_time e q d m).2).
  { unfold insert_time. destruct Hl as [|c a l m Hc Hl]; [split; [solve_steps|done]|].
    rewrite (time_rel_delay _ _ Hc).
    destruct (d <? delay a); [split; [solve_steps|done]|]. by apply insert_from_rel. }
  unfold insert_event. destruct HI as [H1 ->]. destruct (decide _); [destruct (_ =? 0)|]; by constructor.
Qed.

(** ** Scheduling *)

Lemma with_list_rel s a l m :
  sched_rel s a -> Forall2 time_rel l m -> sched_rel (with_list l s) (with_list m a).
Proof. by intros []. Qed.

Lemma with_init_rel s a q l : sched_rel s a -> queue_rel q l -> sched_rel (with_init q s) (with_init l a).
Proof. by intros []. Qed.

Lemma with_final_rel s a q l : sched_rel s a -> queue_rel q l -> sched_rel (with_final q s) (with_final l a).
Proof. by intros []. Qed.

Lemma flags_rel s a :
  sched_rel s a ->
  (forall b, sched_rel (with_runnable b s) (with_runnable b a)) /\
  (forall b, sched_rel (with_stopped b s) (with_stopped b a)) /\
  (forall b, sched_rel (with_single_step b s) (with_single_step b a)) /\
  (forall b, sched_rel (with_started b s) (with_started b a)) /\
  (forall b, sched_rel (with_rosync b s) (with_rosync b a)) /\
  (forall t, sched_rel (with_time t s) (with_time t a)).
Proof. by intros []. Qed.

Lemma schedule_event_rel e d q s a :
  sched_rel s a -> option_Forall2 sched_rel (schedule_event_ e d q s) (schedule_event_ e d q a).
Proof.
  intros Hs. eapply option_Forall2_bind; [by apply insert_event_rel, Hs|].
  intros l m Hl. constructor. by apply with_list_rel.
Qed.

Lemma schedule_event_push_rel e s a :
  sched_rel s a -> option_Forall2 sched_rel (schedule_event_push_ e s) (schedule_event_push_ e a).
Proof.
  intros Hs. pose proof (rel_list _ _ Hs) as Hl. unfold schedule_event_push_.
  destruct Hl as [|c b l m Hc Hl]; [by apply schedule_event_rel|]. rewrite (time_rel_delay _ _ Hc).
  destruct (0 <? delay b); [by apply schedule_event_rel|]. constructor. apply with_list_rel; [done|].
  constructor; [|done]. apply set_queue_rel; [done|]. apply push_rel, (time_rel_queue _ _ Hc SEQ_ACTIVE).
Qed.

Lemma schedule_init_event_rel e s a :
  sched_rel s a -> sched_rel (schedule_init_event e s) (schedule_init_event e a).
Proof. intros Hs. apply with_init_rel; [done|]. apply put_rel, Hs. Qed.

Lemma schedule_final_event_rel e s a :
  sched_rel s a -> sched_rel (schedule_final_event e s) (schedule_final_event e a).
Proof. intros Hs. apply with_final_rel; [done|]. apply put_rel, Hs. Qed.

Lemma apply_request_rel r s a :
  sched_rel s a -> option_Forall2 sched_rel (apply_request r s) (apply_request r a).
Proof.
  intros Hs. destruct (flags_rel _ _ Hs) as (H1 & H2 & H3 & _).
  destruct r; cbn [apply_request]; try (by apply schedule_event_rel);
    try (constructor; by apply schedule_init_event_rel || by apply schedule_final_event_rel).
  - unfold schedule_vthread. destruct (_ && _); [by apply schedule_event_push_rel|by apply schedule_event_rel].
  - unfold schedule_functor. rewrite (rel_started _ _ Hs).
    destruct (sim_started a); cbn; [by apply schedule_event_rel|]. constructor. by apply schedule_init_event_rel.
  - constructor. apply H1.
  - constructor. apply H2.
  - constructor. apply H3.
Qed.

Lemma apply_requests_rel rs s a :
  sched_rel s a -> option_Forall2 sched_rel (apply_requests rs s) (apply_requests rs a).
Proof.
  revert s a. induction rs as [|r rs IH]; intros s a Hs; cbn [apply_requests]; [by constructor|].
  eapply option_Forall2_bind; [by apply apply_request_rel|]. apply IH.
Qed.

(** ** The machine *)

Context {World : Type} (env : environment T World).

Lemma view_rel s a : sched_rel s a -> view_of s = view_of a.
Proof. intros Hs. unfold view_of. by rewrite (rel_time _ _ Hs), (rel_runnable _ _ Hs), (rel_stopped _ _ Hs), (rel_rosync _ _ Hs). Qed.

Definition state_rel (x : sched Q * World) (y : sched L * World) : Prop :=
  sched_rel x.1 y.1 /\ x.2 = y.2.

Lemma perform_rel c s a w :
  sched_rel s a -> option_Forall2 state_rel (perform env c (s, w)) (perform env c (a, w)).
Proof.
  intros Hs. unfold perform. rewrite (view_rel _ _ Hs). destruct (react _ _ _ _) as [rs w'].
  eapply option_Forall2_bind; [by apply apply_requests_rel|]. intros s' a' Hs'. constructor. by split.
Qed.

Lemma execute_rel e s a w :
  sched_rel s a -> option_Forall2 state_rel (execute env e (s, w)) (execute env e (a, w)).
Proof.
  intros Hs. unfold execute. cbn [snd]. destruct (run_run _ _) as [[|c cs]|]; cbn [mbind option_bind];
    [constructor; by split|by apply perform_rel|constructor].
Qed.

Record machine_rel (m : machine (Q := Q) (World := World)) (n : machine (Q := L) (World := World)) : Prop := {
  machine_rel_ctl : ctl m = ctl n;
  machine_rel_finals : run_finals m = run_finals n;
  machine_rel_world : world m = world n;
  machine_rel_st : sched_rel (st m) (st n) }.

Definition outcome_rel (x : outcome (T := T) (Q := Q) (World := World)) (y : outcome (Q := L)) : Prop :=
  match x, y with
  | Step e m, Step e' n => e = e' /\ machine_rel m n
  | Done, Done => True
  | _, _ => False
  end.

Lemma machine_rel_intro k rf s a w : sched_rel s a -> machine_rel (mkMachine k rf s w) (mkMachine k rf a w).
Proof. done. Qed.

Lemma perform_then_rel c s a w f g :
  sched_rel s a ->
  (forall s a w, sched_rel s a -> option_Forall2 outcome_rel (f (s, w)) (g (a, w))) ->
  option_Forall2 outcome_rel (perform env c (s, w) ≫= f) (perform env c (a, w) ≫= g).
Proof.
  intros Hs Hf. eapply option_Forall2_bind; [by apply perform_rel|].
  intros [s' w'] [a' w''] [Hs' E']. cbn in *. subst. by apply Hf.
Qed.

Lemma run_at_rel k rf e s a w :
  sched_rel s a -> option_Forall2 outcome_rel (run_at env k rf e s w) (run_at env k rf e a w).
Proof.
  intros Hs. eapply option_Forall2_bind; [by apply execute_rel|].
  intros [s' w'] [a' w''] [Hs' E']. cbn in *. subst. constructor. by split.
Qed.

Lemma to_final_rel rf s a w : sched_rel s a -> machine_rel (to_final rf s w) (to_final rf a w).
Proof. intros Hs. apply machine_rel_intro. by apply flags_rel. Qed.

Lemma promote_rel c a : time_rel c a -> option_Forall2 time_rel (promote c) (promote a).
Proof.
  intros Hc. unfold promote.
  assert (HN : forall c a, time_rel c a -> q_is_null (active c) = q_is_null (active a))
    by (intros ? ? [_ Hq]; exact (is_null_rel _ _ (Hq SEQ_ACTIVE))).
  assert (HS : forall q c a, time_rel c a ->
    time_rel (set_queue (set_queue c SEQ_ACTIVE (queue_of c q)) q q_null)
             (set_queue (set_queue a SEQ_ACTIVE (queue_of a q)) q q_null)).
  { intros q c' a' H'. apply set_queue_rel; [|apply null_rel]. apply set_queue_rel; [done|apply H']. }
  rewrite (HN c a Hc). destruct (q_is_null (active a)); [|by constructor].
  pose proof (HS SEQ_INACTIVE c a Hc) as H1. cbn [queue_of] in H1. rewrite (HN _ _ H1). destruct (q_is_null _); [|by constructor].
  pose proof (HS SEQ_NBASSIGN _ _ H1) as H2. cbn [queue_of] in H2. rewrite (HN _ _ H2). destruct (q_is_null _); [|by constructor].
  pose proof (HS SEQ_RWSYNC _ _ H2) as H3. cbn [queue_of] in H3. rewrite (HN _ _ H3). destruct (q_is_null _); by constructor.
Qed.

Lemma take_from_rel q s a :
  sched_rel s a ->
  option_Forall2 (fun x y => x.1 = y.1 /\ sched_rel x.2 y.2) (take_from q s) (take_from q a).
Proof.
  intros Hs. pose proof (rel_list _ _ Hs) as Hl. unfold take_from.
  destruct Hl as [|c b l m Hc Hl]; [constructor|].
  pose proof (take_rel _ _ (time_rel_queue _ _ Hc q)) as HT.
  destruct HT as [[e v] [e' v'] [He Hv]|]; [|constructor]. cbn in He, Hv. subst.
  constructor. split; [done|]. apply with_list_rel; [done|]. constructor; [|done]. by apply set_queue_rel.
Qed.

Lemma single_step_rel s a : sched_rel s a -> sched_rel (single_step s) (single_step a).
Proof.
  intros Hs. unfold single_step. rewrite (rel_single _ _ Hs). destruct (schedule_single_step_flag a); [|done].
  by apply flags_rel, flags_rel.
Qed.

(** A loop that takes events of one list and goes on at [k'] when there is none. *)
Lemma drain_rel q k rf s a w x y :
  sched_rel s a -> outcome_rel x y ->
  option_Forall2 outcome_rel
    (match take_from q s with Some (e, s) => run_at env k rf e s w | None => Some x end)
    (match take_from q a with Some (e, s) => run_at env k rf e s w | None => Some y end).
Proof.
  intros Hs Hxy. destruct (take_from_rel q s a Hs) as [[e s'] [e' a'] [He Hs']|]; [|by constructor].
  cbn in *. subst. by apply run_at_rel.
Qed.

Lemma drain_queue_rel q l k rf w f g x y :
  queue_rel q l -> (forall q l, queue_rel q l -> sched_rel (f q) (g l)) -> option_Forall2 outcome_rel x y ->
  option_Forall2 outcome_rel
    (match q_take q with Some (e, q') => run_at env k rf e (f q') w | None => x end)
    (match q_take l with Some (e, l') => run_at env k rf e (g l') w | None => y end).
Proof.
  intros Hq Hf Hxy. destruct (take_rel _ _ Hq) as [[e q'] [e' l'] [He Hq']|]; [|done].
  cbn in *. subst. by apply run_at_rel, Hf.
Qed.

(** One step of the machine over rings is the step of the machine over lists. *)
Lemma step_rel m n : machine_rel m n -> option_Forall2 outcome_rel (step env m) (step env n).
Proof.
  destruct m as [k rf s w], n as [k' rf' a w']. intros [E1 E2 E3 Hs]. cbn in E1, E2, E3, Hs. subst k' rf' w'.
  assert (HF : option_Forall2 outcome_rel
    ('(s, w) ← perform env vpiPostsim (s, w); Some (Step None (mkMachine AtEnd rf s w)))
    ('(s, w) ← perform env vpiPostsim (a, w); Some (Step None (mkMachine AtEnd rf s w))))
    by (apply perform_then_rel; [done|]; intros; constructor; by split).
  destruct k; cbn [step].
  - apply drain_queue_rel; [apply Hs|intros; by apply with_init_rel|].
    apply perform_then_rel; [done|]. intros s' a' w' Hs'.
    change (schedule_runnable (with_started true s')) with (schedule_runnable s').
    change (schedule_runnable (with_started true a')) with (schedule_runnable a').
    rewrite (rel_runnable _ _ Hs'). constructor. split; [done|].
    destruct (schedule_runnable a'); [apply machine_rel_intro|apply to_final_rel]; by apply flags_rel.
  - pose proof (rel_list _ _ Hs) as Hl. destruct Hl as [|c b l m Hc Hl].
    + constructor. split; [done|by apply to_final_rel].
    + rewrite (rel_stopped _ _ Hs). destruct (schedule_stopped_flag a).
      * apply perform_then_rel; [by apply flags_rel|]. intros s' a' w' Hs'. rewrite (rel_runnable _ _ Hs').
        constructor. split; [done|]. destruct (schedule_runnable a'); [done|by apply to_final_rel].
      * rewrite (time_rel_delay _ _ Hc). destruct (0 <? delay b); [|constructor; by split].
        rewrite (rel_runnable _ _ Hs). destruct (schedule_runnable a); cbn [negb];
          [|constructor; split; [done|by apply to_final_rel]].
        rewrite (rel_time _ _ Hs). apply perform_then_rel; [|intros; constructor; by split].
        apply with_list_rel; [by apply flags_rel|]. constructor; [by apply set_delay_rel|done].
  - by apply drain_rel.
  - pose proof (rel_list _ _ Hs) as Hl. destruct Hl as [|c b l m Hc Hl]; [constructor|].
    destruct (promote_rel _ _ Hc) as [c' b' Hc'|].
    + eapply option_Forall2_bind.
      * apply (take_from_rel SEQ_ACTIVE (with_list (c' :: l) s) (with_list (b' :: m) a)).
        apply with_list_rel; [done|by constructor].
      * intros [e s'] [e' a'] [He Hs']. cbn in *. subst. by apply run_at_rel, single_step_rel.
    + constructor. split; [done|]. apply machine_rel_intro. by apply flags_rel.
  - apply drain_rel; [done|]. split; [done|]. apply machine_rel_intro. by apply flags_rel.
  - apply drain_rel; [done|]. split; [done|]. apply machine_rel_intro. apply with_list_rel; [done|].
    by destruct (rel_list _ _ Hs).
  - rewrite (rel_runnable _ _ Hs). destruct (schedule_runnable a); [|done].
    apply drain_queue_rel; [apply Hs|intros; by apply with_final_rel|done].
  - by repeat constructor.
Qed.

Definition run_rel (x : list (Z * E) * machine (Q := Q) (World := World)) (y : list (Z * E) * machine (Q := L)) : Prop :=
  x.1 = y.1 /\ machine_rel x.2 y.2.

Lemma run_machine_rel fuel m n : machine_rel m n -> option_Forall2 run_rel (run env fuel m) (run env fuel n).
Proof.
  revert m n. induction fuel as [|f IH]; intros m n Hm; cbn [run]; [constructor; by split|].
  eapply option_Forall2_bind; [by apply step_rel|]. intros [e m'|] [e' n'|]; try done.
  - intros [<- Hm']. eapply option_Forall2_bind; [by apply IH|].
    intros [tr m''] [tr' n''] [Et Hm'']. cbn in *. subst. constructor. split; [|done]. cbn.
    by rewrite (rel_time _ _ (machine_rel_st _ _ Hm)).
  - intros _. constructor. by split.
Qed.

Lemma schedule_simulate_rel fuel s a w :
  sched_rel s a -> option_Forall2 run_rel (schedule_simulate env fuel s w) (schedule_simulate env fuel a w).
Proof.
  intros Hs. unfold schedule_simulate, begin.
  eapply option_Forall2_bind with (R := machine_rel); [|intros; by apply run_machine_rel].
  eapply option_Forall2_bind; [apply perform_rel; by apply flags_rel, flags_rel|].
  intros [s' w'] [a' w''] [Hs' E']. cbn in *. subst. constructor. by rewrite (rel_runnable _ _ Hs').
Qed.
End refine.
