(* ===== verification/ScheduleSpec.v ===== *)
(** The scheduler's invariant, and what its functions do in terms of absolute offsets: the
    list of time steps with relative delays is a map from offset and queue to a sequence of
    events.  Stated over list queues; [ScheduleRefine] carries it to the rings. *)
From S2P Require Import Prelude MachineWord VvpBit VvpVector4 VvpSlice VvpVector2.
From S2P Require Import EventQueue Schedule ScheduleRefine.

Section spec.
Context {T : objects}.
Abbreviation E := (event T).
Abbreviation L := (list E).
Abbreviation steps := (list (event_time_s L)).

(** * The queue as a map *)

(** The events of queue [q] that are [off] ticks away. *)
Fixpoint events_at (l : steps) (off : Z) (q : event_queue_t) : L :=
  match l with
  | [] => []
  | c :: r => if off <? delay c then []
              else if off =? delay c then queue_of c q
              else events_at r (off - delay c) q
  end.

(** Delays are not negative, and a time step other than the first is after the one before. *)
Definition later (c : event_time_s L) : Prop := 0 < delay c < wordsize.
Definition wf_times (l : steps) : Prop :=
  match l with [] => True | c :: r => 0 <= delay c < wordsize /\ Forall later r end.

Lemma wf_times_later l : Forall later l -> wf_times l.
Proof. intros [|c r [? ?] Hr]; [done|]. split; [lia|done]. Qed.

Lemma queue_of_put (e : E) q (c : event_time_s L) q' :
  queue_of (put_queue e q c) q' = if decide (q' = q) then queue_of c q' ++ [e] else queue_of c q'.
Proof.
  unfold put_queue. rewrite queue_of_set. destruct (decide (q = q')) as [->|Hn].
  - by rewrite decide_True.
  - by rewrite decide_False by congruence.
Qed.

Lemma queue_of_new d q : queue_of (new_time (Q := L) (T := T) d) q = [].
Proof. by destruct q. Qed.

Lemma delay_put (e : E) q (c : event_time_s L) : delay (put_queue e q c) = delay c.
Proof. apply delay_set. Qed.

(** The map after an insertion at [d] in [q]. *)
Definition placed (e : E) (q : event_queue_t) (d : Z) (l l' : steps) : Prop :=
  forall off q', events_at l' off q' =
    events_at l off q' ++ (if decide (off = d /\ q' = q) then [e] else []).

Ltac split_cmp :=
  repeat match goal with
  | |- context [?a <? ?b] => destruct (Z.ltb_spec a b)
  | |- context [?a =? ?b] => destruct (Z.eqb_spec a b)
  end; try lia.

Lemma placed_new e q d r :
  (forall off q', off <= d -> events_at r off q' = []) ->
  forall r', (forall off q', d < off -> events_at r' (off - d) q' = events_at r off q') ->
  placed e q d r (put_queue e q (new_time d) :: r').
Proof.
  intros He r' Hr off q'. cbn [events_at]. rewrite delay_put. cbn [delay new_time].
  destruct (Z.ltb_spec off d) as [Hlt|Hge].
  - rewrite He by lia. rewrite decide_False by lia. done.
  - destruct (Z.eqb_spec off d) as [->|Hne].
    + rewrite He, queue_of_put, queue_of_new by lia.
      destruct (decide (q' = q)) as [->|Hq]; [by rewrite decide_True|by rewrite decide_False by tauto].
    + rewrite Hr, decide_False by lia. by rewrite app_nil_r.
Qed.

Lemma placed_front e q d c r :
  d < delay c -> placed e q d (c :: r) (put_queue e q (new_time d) :: set_delay c (delay c - d) :: r).
Proof.
  intros Hd. apply placed_new.
  - intros off q' Ho. cbn [events_at]. split_cmp. done.
  - intros off q' Ho. cbn [events_at]. change (delay (set_delay c (delay c - d))) with (delay c - d).
    rewrite queue_of_set_delay. split_cmp; try done. f_equal; lia.
Qed.

Lemma placed_here e q c r : placed e q (delay c) (c :: r) (put_queue e q c :: r).
Proof.
  intros off q'. cbn [events_at]. rewrite delay_put, queue_of_put.
  destruct (decide (off = delay c /\ q' = q)) as [[-> ->]|Hn].
  - rewrite Z.ltb_irrefl, Z.eqb_refl. by rewrite decide_True.
  - rewrite app_nil_r. split_cmp; try done. rewrite decide_False by tauto. done.
Qed.

Lemma placed_cons e q d c r r' : delay c < d -> placed e q (d - delay c) r r' -> placed e q d (c :: r) (c :: r').
Proof.
  intros Hd Hp off q'. cbn [events_at]. split_cmp.
  - rewrite decide_False by lia. by rewrite app_nil_r.
  - rewrite decide_False by lia. by rewrite app_nil_r.
  - rewrite Hp. f_equal. destruct (decide (off = d /\ q' = q)) as [[? ?]|Hn].
    + rewrite decide_True; [done|]. split; [lia|done].
    + rewrite decide_False; [done|]. intros [? ?]. apply Hn. split; [lia|done].
Qed.

Lemma placed_nil e q d : placed e q d [] [put_queue e q (new_time d)].
Proof. by apply placed_new. Qed.

(** ** The insertion *)

Lemma insert_from_placed e q c r : forall d,
  placed e q d (c :: r) (insert_from e q d c r).1.
Proof.
  revert c. induction r as [|c' r IH]; intros c d; cbn [insert_from].
  - destruct (Z.ltb_spec d (delay c)) as [Hlt|Hge]; [by apply placed_front|].
    destruct (Z.eqb_spec (delay c) d) as [<-|Hne]; [apply placed_here|].
    apply placed_cons; [lia|]. apply placed_nil.
  - destruct (Z.ltb_spec (delay c) d) as [Hlt|Hge].
    + specialize (IH c' (d - delay c)). destruct (insert_from e q (d - delay c) c' r) as [l k].
      by apply placed_cons.
    + destruct (Z.ltb_spec d (delay c)) as [Hlt'|Hge']; [by apply placed_front|].
      destruct (Z.eqb_spec (delay c) d) as [<-|Hne]; [apply placed_here|lia].
Qed.

Lemma insert_from_later e q c r : forall d,
  0 < d < wordsize -> later c -> Forall later r -> Forall later (insert_from e q d c r).1.
Proof.
  revert c. induction r as [|c' r IH]; intros c d Hd Hc Hr; cbn [insert_from];
    assert (HN : later (put_queue e q (new_time d))) by (unfold later; by rewrite delay_put);
    assert (HP : later (put_queue e q c)) by (unfold later; by rewrite delay_put); unfold later in Hc.
  - destruct (Z.ltb_spec d (delay c)) as [Hlt|Hge].
    { constructor; [done|]. constructor; [|done]. unfold later. cbn. lia. }
    destruct (Z.eqb_spec (delay c) d) as [<-|Hne]; [by constructor|].
    cbn [fst]. apply Forall_cons_2; [done|]. apply Forall_cons_2; [|done]. unfold later. rewrite delay_put. cbn. lia.
  - apply Forall_cons_1 in Hr as [Hc' Hr].
    destruct (Z.ltb_spec (delay c) d) as [Hlt|Hge].
    + specialize (IH c' (d - delay c) ltac:(lia) Hc' Hr).
      destruct (insert_from e q (d - delay c) c' r) as [l k]. by constructor.
    + destruct (Z.ltb_spec d (delay c)) as [Hlt'|Hge'].
      { constructor; [done|]. constructor; [|by constructor]. unfold later. cbn. lia. }
      destruct (Z.eqb_spec (delay c) d) as [<-|Hne]; [|lia]. constructor; [done|by constructor].
Qed.

Lemma insert_from_wf e q d c r :
  delay c <= d < wordsize -> wf_times (c :: r) -> wf_times (insert_from e q d c r).1.
Proof.
  intros Hd [Hc Hr]. destruct r as [|c' r]; cbn [insert_from].
  - rewrite (proj2 (Z.ltb_ge _ _)) by lia. destruct (Z.eqb_spec (delay c) d) as [<-|Hne].
    + cbn. by rewrite delay_put.
    + cbn [fst wf_times]. split; [lia|]. apply Forall_cons_2; [|done]. unfold later. rewrite delay_put. cbn. lia.
  - destruct (Z.ltb_spec (delay c) d) as [Hlt|Hge].
    + apply Forall_cons_1 in Hr as [Hc' Hr].
      pose proof (insert_from_later e q c' r (d - delay c) ltac:(lia) Hc' Hr) as HL.
      destruct (insert_from e q (d - delay c) c' r) as [l k]. by split.
    + rewrite (proj2 (Z.ltb_ge _ _)) by lia. rewrite (proj2 (Z.eqb_eq _ _)) by lia.
      cbn. by rewrite delay_put.
Qed.

Lemma insert_time_spec e q d l :
  0 <= d < wordsize -> wf_times l ->
  placed e q d l (insert_time e q d l).1 /\ wf_times (insert_time e q d l).1.
Proof.
  intros Hd Hw. unfold insert_time. destruct l as [|c r].
  - split; [apply placed_nil|]. cbn [fst wf_times]. by rewrite delay_put.
  - destruct (Z.ltb_spec d (delay c)) as [Hlt|Hge].
    + split; [by apply placed_front|]. destruct Hw as [Hc Hr]. cbn [fst wf_times]. rewrite delay_put.
      split; [done|]. apply Forall_cons_2; [|done]. unfold later. cbn. lia.
    + split; [apply insert_from_placed|]. apply insert_from_wf; [lia|done].
Qed.

(** What is left of the delay is 0 for an event of the present. *)
Lemma insert_time_left e q l : wf_times l -> (insert_time e q 0 l).2 = 0.
Proof.
  intros Hw. unfold insert_time. destruct l as [|c r]; [done|]. destruct Hw as [Hc _].
  destruct (0 <? delay c); [done|]. destruct r as [|c' r]; cbn [insert_from].
  - by destruct (0 <? delay c), (delay c =? 0).
  - destruct (Z.ltb_spec (delay c) 0); [lia|]. by destruct (0 <? delay c), (delay c =? 0).
Qed.

(** [schedule_event_] places the event, and its assertion holds for the delays in use. *)
Lemma schedule_event_spec e d q (s : sched L) :
  wf_times (sched_list s) -> 0 <= d < wordsize -> (q = SEQ_INACTIVE -> d = 0) ->
  exists l, schedule_event_ e d q s = Some (with_list l s) /\
    placed e q d (sched_list s) l /\ wf_times l.
Proof.
  intros Hw Hd Hq. destruct (insert_time_spec e q d (sched_list s) Hd Hw) as [Hp Hl].
  exists (insert_time e q d (sched_list s)).1. split; [|done].
  unfold schedule_event_, insert_event. destruct (decide (q = SEQ_INACTIVE)) as [Hi|Hi]; [|done].
  rewrite (Hq Hi) in *. by rewrite insert_time_left.
Qed.

(** The head of the list is where it was when it is the present. *)
Lemma events_at_now (c : event_time_s L) r q : delay c = 0 -> events_at (c :: r) 0 q = queue_of c q.
Proof. intros Hc. cbn [events_at]. by rewrite Hc. Qed.

Lemma events_at_past l off q : wf_times l -> off < 0 -> events_at l off q = [].
Proof. destruct l as [|c r]; [done|]. intros [Hc _] Ho. cbn. by rewrite (proj2 (Z.ltb_lt _ _)) by lia. Qed.

Lemma events_at_later l off q : Forall later l -> off <= 0 -> events_at l off q = [].
Proof. intros [|c r [Hc _] _] Ho; [done|]. cbn. by rewrite (proj2 (Z.ltb_lt _ _)) by lia. Qed.

(** An insertion leaves the present time step in front. *)
Lemma insert_time_present (e : E) q d (c : event_time_s L) r :
  0 <= d -> delay c = 0 -> exists c' r', (insert_time e q d (c :: r)).1 = c' :: r' /\ delay c' = 0.
Proof.
  intros Hd Hc. unfold insert_time. rewrite Hc, (proj2 (Z.ltb_ge _ _)) by lia.
  assert (HP : delay (put_queue e q c) = 0) by by rewrite delay_put.
  destruct r as [|c' r]; cbn [insert_from]; rewrite Hc, (proj2 (Z.ltb_ge d 0)) by lia.
  - destruct (0 =? d); by do 2 eexists.
  - destruct (0 <? d).
    + destruct (insert_from e q (d - 0) c' r) as [l k]. by do 2 eexists.
    + destruct (0 =? d); by do 2 eexists.
Qed.

(** * Requests *)

(** What a request schedules: an event in a queue after a delay, an event for before the
    simulation or one for after it. *)
Definition timed (r : request T) : option (E * Z * event_queue_t) :=
  match r with
  | Vthread thr d _ => Some (vthread_event_s thr, d, SEQ_ACTIVE)
  | T0_trigger ptr => Some (assign_vector4_event_s ptr (vec4_fill 1 BIT4_X) 0 0, 0, SEQ_INACTIVE)
  | Inactive thr => Some (vthread_event_s thr, 0, SEQ_INACTIVE)
  | Assign_vector ptr base vwid bit d => Some (assign_vector4_event_s ptr bit base vwid, d, SEQ_NBASSIGN)
  | Force_vector n base vwid bit d => Some (force_vector4_event_s n bit base vwid, d, SEQ_NBASSIGN)
  | Propagate_vector n d src => Some (propagate_vector4_event_s n src, d, SEQ_NBASSIGN)
  | Assign_array_word mem adr off val d => Some (assign_array_word_s mem adr val off, d, SEQ_NBASSIGN)
  | Assign_array_r_word mem adr val d => Some (assign_array_r_word_s mem adr val, d, SEQ_NBASSIGN)
  | Set_vector ptr bit => Some (assign_vector4_event_s ptr bit 0 0, 0, SEQ_ACTIVE)
  | Set_vector8 ptr bit => Some (assign_vector8_event_s ptr bit, 0, SEQ_ACTIVE)
  | Set_real ptr bit => Some (assign_real_event_s ptr bit, 0, SEQ_ACTIVE)
  | Del_thr thr => Some (del_thr_event_s thr, 0, DEL_THREAD)
  | Generic obj d sync ro del =>
      Some (generic_event_s obj del, d,
            if sync then (if ro then SEQ_ROSYNC else SEQ_RWSYNC) else SEQ_ACTIVE)
  | Functor obj => Some (generic_event_s obj false, 0, SEQ_ACTIVE)
  | At_start_of_simtime obj d => Some (generic_event_s obj false, d, SEQ_START)
  | At_end_of_simtime obj d => Some (generic_event_s obj false, d, SEQ_RWSYNC)
  | _ => None
  end.

Definition initial (r : request T) : option E :=
  match r with
  | Init_vthread thr => Some (vthread_event_s thr)
  | Init_vector ptr bit => Some (assign_vector4_event_s ptr bit 0 0)
  | Init_vector8 ptr bit => Some (assign_vector8_event_s ptr bit)
  | Init_real ptr bit => Some (assign_real_event_s ptr bit)
  | Init_propagate n bit => Some (propagate_vector4_event_s n bit)
  | Init_propagate_real n bit => Some (propagate_real_event_s n bit)
  | _ => None
  end.

Definition final (r : request T) : option E :=
  match r with Final_vthread thr => Some (vthread_event_s thr) | _ => None end.

(** Time [d] ticks after [t], on the 64-bit counter. *)
Definition after (t d : Z) : Z := (t + d) mod wordsize.

Section timely.
Context (P : Z -> E -> Prop).

(** Every event asked for at time [t] is one that may run at the time it is asked for. *)
Definition request_ok (t : Z) (r : request T) : Prop :=
  (forall e d q, timed r = Some (e, d, q) -> 0 <= d < wordsize /\ P (after t d) e) /\
  (forall e, initial r = Some e -> P 0 e) /\
  (forall e, final r = Some e -> forall t', P t' e).

(** The head of the list is the present time step. *)
Definition present (s : sched L) : Prop :=
  match sched_list s with c :: _ => delay c = 0 | [] => False end.

(** Every pending event may run at the time its place in the lists stands for. *)
Record good (s : sched L) : Prop := {
  good_wf : wf_times (sched_list s);
  good_time : 0 <= schedule_time s < wordsize;
  good_start : sim_started s = false -> schedule_time s = 0;
  good_timely : forall off q e, e ∈ events_at (sched_list s) off q -> P (after (schedule_time s) off) e;
  good_init : Forall (P 0) (schedule_init_list s);
  good_final : Forall (fun e => forall t, P t e) (schedule_final_list s) }.

(** What scheduling leaves alone. *)
Definition same_now (s s' : sched L) : Prop :=
  schedule_time s' = schedule_time s /\ sim_started s' = sim_started s /\
  sim_at_rosync s' = sim_at_rosync s /\ (present s -> present s').

Lemma same_now_refl s : same_now s s.
Proof. by split_and!. Qed.

Lemma same_now_trans s1 s2 s3 : same_now s1 s2 -> same_now s2 s3 -> same_now s1 s3.
Proof. intros (?&?&?&?) (?&?&?&?). split_and!; [congruence..|tauto]. Qed.

Lemma good_with_list s l :
  good s -> wf_times l ->
  (forall off q e, e ∈ events_at l off q -> P (after (schedule_time s) off) e) -> good (with_list l s).
Proof. intros [] ? ?. by split. Qed.

Lemma schedule_event_good e d q s :
  good s -> 0 <= d < wordsize -> (q = SEQ_INACTIVE -> d = 0) -> P (after (schedule_time s) d) e ->
  exists s', schedule_event_ e d q s = Some s' /\ good s' /\ same_now s s'.
Proof.
  intros Hs Hd Hq HP. destruct (schedule_event_spec e d q s (good_wf _ Hs) Hd Hq) as (l & E1 & Hp & Hw).
  exists (with_list l s). split_and!; [done| |].
  - apply good_with_list; [done|done|]. intros off q' e'. rewrite Hp, elem_of_app. intros [Hin|Hin].
    + by eapply good_timely.
    + destruct (decide _) as [[-> _]|]; [|by apply not_elem_of_nil in Hin].
      by apply list_elem_of_singleton in Hin as ->.
  - unfold schedule_event_, insert_event in E1.
    destruct (decide (q = SEQ_INACTIVE)), ((insert_time e q d (sched_list s)).2 =? 0); try done;
      injection E1 as E1; split_and!; try done;
      unfold present; cbn; destruct (sched_list s) as [|c r]; try done; intros Hc;
      destruct (insert_time_present e q d c r) as (c' & r' & E2 & Hc'); try done; try lia;
      by rewrite <- E1, E2.
Qed.

Lemma after_0 t : 0 <= t < wordsize -> after t 0 = t.
Proof. intros Ht. unfold after. rewrite Z.add_0_r. by apply Z.mod_small. Qed.

Lemma schedule_event_push_good e s :
  good s -> P (schedule_time s) e ->
  exists s', schedule_event_push_ e s = Some s' /\ good s' /\ same_now s s'.
Proof.
  intros Hs HP.
  assert (H0 : exists s', schedule_event_ e 0 SEQ_ACTIVE s = Some s' /\ good s' /\ same_now s s').
  { apply schedule_event_good; [done|done|done|]. by rewrite after_0 by apply Hs. }
  unfold schedule_event_push_. destruct (sched_list s) as [|c r] eqn:El; [done|].
  destruct (Z.ltb_spec 0 (delay c)) as [Hlt|Hge]; [done|]. eexists. split; [done|].
  pose proof (good_wf _ Hs) as Hw. rewrite El in Hw. destruct Hw as [Hc Hr].
  split.
  - apply good_with_list; [done|cbn; by rewrite delay_set|]. intros off q' e'. cbn [events_at].
    rewrite delay_set, queue_of_set. pose proof (good_timely _ Hs off q' e') as HT. rewrite El in HT.
    cbn [events_at] in HT. destruct (off <? delay c); [done|].
    destruct (Z.eqb_spec off (delay c)) as [->|Hne]; [|done].
    destruct (decide (SEQ_ACTIVE = q')) as [<-|Hn]; [|done]. cbn [queue_of] in HT.
    intros [->|Hin]%elem_of_cons; [|by apply HT].
    replace (delay c) with 0 by lia. by rewrite after_0 by apply Hs.
  - split_and!; try done. unfold present. rewrite El. cbn. by rewrite delay_set.
Qed.

Lemma init_good e s : good s -> P 0 e -> good (schedule_init_event e s) /\ same_now s (schedule_init_event e s).
Proof.
  intros [] HP. split; [split; try done|by split_and!]. cbn. by apply Forall_app_2; [|apply Forall_singleton].
Qed.

Lemma final_good e s :
  good s -> (forall t, P t e) -> good (schedule_final_event e s) /\ same_now s (schedule_final_event e s).
Proof.
  intros [] HP. split; [split; try done|by split_and!]. cbn. by apply Forall_app_2; [|apply Forall_singleton].
Qed.

Lemma apply_request_good r s :
  good s -> request_ok (schedule_time s) r ->
  exists s', apply_request r s = Some s' /\ good s' /\ same_now s s'.
Proof.
  intros Hs Hr. destruct Hr as (Ht & Hi & Hf).
  destruct r; cbn [apply_request];
    try (destruct (Ht _ _ _ eq_refl) as [Hd HP]; by apply schedule_event_good);
    try (eexists; split; [done|]; by apply init_good, Hi);
    try (eexists; split; [done|]; by apply final_good, Hf);
    try (eexists; split; [done|]; split; [destruct Hs; by split|by split_and!]).
  - destruct (Ht _ _ _ eq_refl) as [Hd HP]. unfold schedule_vthread.
    destruct push_flag; cbn [andb]; [|by apply schedule_event_good].
    destruct (Z.eqb_spec delay_ 0) as [->|]; [|by apply schedule_event_good].
    apply schedule_event_push_good; [done|]. by rewrite after_0 in HP by apply Hs.
  - destruct (Ht _ _ _ eq_refl) as [Hd HP]. unfold schedule_generic.
    apply schedule_event_good; try done. by destruct sync_flag, ro_flag.
  - destruct (Ht _ _ _ eq_refl) as [Hd HP]. unfold schedule_functor.
    destruct (sim_started s) eqn:Es; cbn [negb]; [by apply schedule_event_good|].
    eexists; split; [done|]. apply init_good; [done|]. rewrite after_0 in HP by apply Hs.
    by rewrite (good_start _ Hs) in HP.
Qed.

Lemma apply_requests_good rs s :
  good s -> Forall (request_ok (schedule_time s)) rs ->
  exists s', apply_requests rs s = Some s' /\ good s' /\ same_now s s'.
Proof.
  revert s. induction rs as [|r rs IH]; intros s Hs Hr; cbn [apply_requests].
  { exists s. split_and!; [done|done|apply same_now_refl]. }
  apply Forall_cons_1 in Hr as [H1 Hr].
  destruct (apply_request_good r s Hs H1) as (s1 & -> & Hs1 & Hn). cbn [mbind option_bind].
  assert (Et : schedule_time s1 = schedule_time s) by apply Hn.
  rewrite <- Et in Hr. destruct (IH s1 Hs1 Hr) as (s2 & E2 & Hs2 & Hn2).
  exists s2. split_and!; [done|done|]. by eapply same_now_trans.
Qed.
End timely.
End spec.
