(* ===== verification/ScheduleRun.v ===== *)
(** The main loop of the scheduler: the invariant of the machine, progress, the order of
    the events of a time step, and the end of the run. *)
From S2P Require Import Prelude MachineWord VvpBit VvpVector4 VvpSlice WordArith VvpVector2.
From S2P Require Import EventQueue Schedule ScheduleRefine ScheduleSpec.

(** * Force events *)

Lemma force_mask_loop base vwid k :
  (base + k <= vwid)%nat ->
  exists m, for_upto k (fun idx m => m ← m; vec2_set_bit m (base + idx) 1) (Some (vec2_fill false vwid)) = Some m /\
    wf2 m /\ wid m = vwid /\ uZ m = (2 ^ Z.of_nat k - 1) * 2 ^ Z.of_nat base.
Proof.
  induction k as [|k IH]; intros Hk; cbn [for_upto].
  - eexists. split; [done|]. unfold vec2_fill, wf2, uZ. cbn [vec wid]. rewrite length_replicate. split_and!; [|done|done|].
    + by apply Forall_replicate.
    + rewrite (wsum_ext _ (fun _ => 0)); [apply wsum_0|]. intros j Hj. unfold word.
      by rewrite nth_lookup, lookup_replicate_2.
  - destruct IH as (m & -> & Wm & Sm & Vm); [lia|]. cbn [mbind option_bind].
    destruct (vec2_set_bit_spec m (base + k) 1 Wm ltac:(lia)) as (r & E1 & Wr & Sr & Vr).
    exists r. split_and!; [done|done|congruence|]. rewrite Vr, vec2_value_spec, Vm by (done || lia).
    rewrite Nat2Z.inj_add, Z.mul_pow2_bits_add by lia.
    assert (E2 : 2 ^ Z.of_nat k - 1 = Z.ones (Z.of_nat k)) by (rewrite Z.ones_equiv; lia).
    rewrite E2, Z.ones_spec_high, <- E2 by lia. cbn [Z.eqb].
    rewrite Nat2Z.inj_succ, Z.pow_succ_r, Z.pow_add_r by lia. lia.
Qed.

(** A force event forces exactly the bits from [base] on that its value covers, the
    other bits keeping the signal's present value; and it fails an assertion of the vector
    when the value sticks out of the signal, although its mask was cut to the width. *)
Lemma force_event {T : objects} (n : net T) cur val base vwid :
  wf4 cur -> size cur = vwid -> wf4 val -> (0 < size val)%nat ->
  if (base + size val <=? vwid)%nat then
    exists tmp mask, force_call n cur val base vwid = Some (force_vec4 n tmp mask) /\
      bitwise vwid (fun i => if (base <=? i)%nat && (i <? base + size val)%nat
                             then value val (i - base) else value cur i) tmp /\
      wid mask = vwid /\ uZ mask = (2 ^ Z.of_nat (size val) - 1) * 2 ^ Z.of_nat base
  else force_call n cur val base vwid = None.
Proof.
  intros Hc Hs Hv Hp. subst vwid. unfold force_call, force_mask.
  destruct (Nat.leb_spec (base + size val) (size cur)) as [Hle|Hgt].
  - rewrite (proj2 (Nat.ltb_ge _ _)) by lia.
    destruct (force_mask_loop base (size cur) (size val)) as (m & -> & _ & Sm & Vm); [lia|].
    destruct (set_vec_spec cur base val Hc Hv Hp Hle) as (tmp & diff & -> & Hb & _).
    cbn [mbind option_bind]. by exists tmp, m.
  - unfold set_vec. rewrite (proj2 (Nat.leb_gt _ _)) by lia. by destruct (for_upto _ _ _).
Qed.

(** What the run of an event asserts: the value of a force lies inside the vector of its net. *)
Definition event_fits {T : objects} (vec4_value : net T -> vvp_vector4_t) (e : event T) : Prop :=
  match e with
  | force_vector4_event_s n val base vwid =>
      wf4 (vec4_value n) /\ size (vec4_value n) = vwid /\ wf4 val /\ (0 < size val)%nat /\ (base + size val <= vwid)%nat
  | _ => True
  end.

Lemma run_run_fits {T : objects} (vec4_value : net T -> vvp_vector4_t) (e : event T) :
  event_fits vec4_value e -> exists cs, run_run vec4_value e = Some cs.
Proof.
  destruct e as [thr|thr|ptr val base vwid|? ?|? ?|? ? ? ?|n val base vwid|? ?|? ?|? ? ?|[?|] ?]; cbn [run_run event_fits];
    try (intros _; by eexists); [intros _; case_match; by eexists|].
  intros (Hc & Hs & Hv & Hp & Hle). pose proof (force_event n (vec4_value n) val base vwid Hc Hs Hv Hp) as HF.
  rewrite (proj2 (Nat.leb_le _ _) Hle) in HF. destruct HF as (tmp & mask & -> & _). by eexists.
Qed.

Section machine.
Context {T : objects} {World : Type} (env : environment T World).
Abbreviation E := (event T).
Abbreviation L := (list E).
Abbreviation M := (machine (Q := L) (World := World)).
Abbreviation O := (outcome (T := T) (Q := L) (World := World)).

(** The machine states of a run of [schedule_simulate] from [s0] and [w0]. *)
Inductive reach (s0 : sched L) (w0 : World) : M -> Prop :=
| reach_begin m : begin env s0 w0 = Some m -> reach s0 w0 m
| reach_step m ran m' : reach s0 w0 m -> step env m = Some (Step ran m') -> reach s0 w0 m'.

(** * Taking events *)

(** What [take_from q] leaves. *)
Lemma take_from_spec q (s : sched L) :
  match take_from q s with
  | None => match sched_list s with [] => True | c :: _ => queue_of c q = [] end
  | Some (e, s') => exists c r l, sched_list s = c :: r /\ queue_of c q = e :: l /\
                      s' = with_list (set_queue c q l :: r) s
  end.
Proof.
  unfold take_from. destruct (sched_list s) as [|c r]; [done|]. cbn [q_take list_ops].
  destruct (queue_of c q) as [|e l] eqn:Eq; cbn [list_take]; [done|]. by exists c, r, l.
Qed.

(** The read-write events of a time step in the order they will run. *)
Definition agenda (c : event_time_s L) : L := active c ++ inactive c ++ nbassign c ++ rwsync c.

Lemma promote_spec (c : event_time_s L) :
  match promote c with
  | None => agenda c = []
  | Some c' => agenda c' = agenda c /\ active c' <> [] /\ delay c' = delay c /\
      start c' = start c /\ rosync c' = rosync c /\ del_thr c' = del_thr c
  end.
Proof.
  destruct c as [d st [|a1 a] [|i1 i] [|n1 n] [|w1 w] o t]; unfold agenda; cbn; split_and?; try done;
    by rewrite ?app_nil_r.
Qed.

(** Only events of the time step are left by [promote]. *)
Lemma promote_elem (c c' : event_time_s L) q e :
  promote c = Some c' -> e ∈ queue_of c' q -> exists q', e ∈ queue_of c q'.
Proof.
  intros Hp Hin. pose proof (promote_spec c) as HS. rewrite Hp in HS.
  destruct HS as (HA & _ & _ & H1 & H2 & H3).
  assert (HG : e ∈ agenda c' -> exists q', e ∈ queue_of c q').
  { rewrite HA. unfold agenda. rewrite !elem_of_app.
    intros [?|[?|[?|?]]]; [by exists SEQ_ACTIVE|by exists SEQ_INACTIVE|by exists SEQ_NBASSIGN|by exists SEQ_RWSYNC]. }
  unfold agenda in HG. rewrite !elem_of_app in HG.
  destruct q; cbn [queue_of] in Hin; try tauto.
  - exists SEQ_START. cbn. by rewrite <- H1.
  - exists SEQ_ROSYNC. cbn. by rewrite <- H2.
  - exists DEL_THREAD. cbn. by rewrite <- H3.
Qed.

(** * The invariant *)

Section invariant.
Context (P : Z -> E -> Prop).

(** At time [t] the environment answers the call with events at times they may run at. *)
Definition call_ok (t : Z) (c : call T) (w : World) : Prop :=
  forall v, schedule_simtime v = t -> Forall (request_ok P t) (react env c v w).1.

(** The environment keeps to it on the calls that the scheduler and its events make, and only
    events that fit their nets may run. *)
Record env_ok : Prop := {
  env_compiled : forall w, call_ok 0 vpiEndOfCompile w;
  env_started : forall w, call_ok 0 vpiStartOfSim w;
  env_later : forall t w, call_ok t vpiNextSimTime w /\ call_ok t stop_handler w /\ call_ok t vpiPostsim w;
  env_fits : forall t e w, P t e -> event_fits (vec4_value env w) e;
  env_calls : forall t e w cs, P t e -> run_run (vec4_value env w) e = Some cs -> Forall (fun c => call_ok t c w) cs }.

Context (Henv : env_ok).

Definition inside (k : control) : bool :=
  match k with AtStart | AtSelect | AtRosync | AtDelThr => true | _ => false end.

Record inv (m : M) : Prop := {
  inv_good : good P (st m);
  inv_present : inside (ctl m) = true -> present (st m);
  inv_started : sim_started (st m) = match ctl m with AtInit => false | _ => true end }.

Lemma perform_good c s w :
  good P s -> call_ok (schedule_time s) c w ->
  exists s' w', perform env c (s, w) = Some (s', w') /\ good P s' /\ same_now s s'.
Proof.
  intros Hs Hc. unfold perform. pose proof (Hc (view_of s) eq_refl) as HR.
  destruct (react _ _ _ _) as [rs w']. destruct (apply_requests_good P rs s Hs HR) as (s' & -> & Hs' & Hn).
  by exists s', w'.
Qed.

Lemma execute_good e s w :
  good P s -> P (schedule_time s) e ->
  exists s' w', execute env e (s, w) = Some (s', w') /\ good P s' /\ same_now s s'.
Proof.
  intros Hs He. unfold execute. cbn [snd]. destruct (run_run_fits _ e (env_fits Henv _ e w He)) as [cs Er].
  pose proof (env_calls Henv _ e w cs He Er) as Hcs. rewrite Er.
  cbn [mbind option_bind]. destruct cs as [|c cs].
  - exists s, w. split_and!; [done|done|apply same_now_refl].
  - apply Forall_cons_1 in Hcs as [Hc _]. by apply perform_good.
Qed.

(** A step's result: the invariant again, and the event that ran was due. *)
Definition step_ok (m : M) (o : option outcome) : Prop :=
  exists ran m', o = Some (Step ran m') /\ inv m' /\
    (forall e, ran = Some e -> P (schedule_time (st m)) e).

Lemma run_at_ok m k rf e s w :
  good P s -> schedule_time s = schedule_time (st m) -> P (schedule_time s) e ->
  (inside k = true -> present s) -> sim_started s = match k with AtInit => false | _ => true end ->
  step_ok m (run_at env k rf e s w).
Proof.
  intros Hs Ht He Hk Hb. unfold run_at. destruct (execute_good e s w Hs He) as (s' & w' & -> & Hs' & Hn).
  destruct Hn as (Hn1 & Hn2 & _ & Hn4). do 2 eexists. split; [done|]. split.
  - split; cbn; [done|tauto|congruence].
  - intros e' [= <-]. by rewrite <- Ht.
Qed.

Lemma good_flags s :
  good P s -> (forall b, good P (with_runnable b s)) /\ (forall b, good P (with_stopped b s)) /\
  (forall b, good P (with_single_step b s)) /\ (forall b, good P (with_rosync b s)) /\
  good P (with_started true s).
Proof. intros Hs. split_and!; intros; destruct Hs; by split. Qed.

Lemma single_step_good s : good P s -> good P (single_step s) /\ same_now s (single_step s).
Proof.
  intros Hs. unfold single_step. destruct (schedule_single_step_flag s); [|by split_and!].
  split; [|by split_and!]. by apply good_flags, good_flags.
Qed.

Lemma to_final_inv rf s w : good P s -> sim_started s = true -> inv (to_final rf s w).
Proof. intros Hs Hb. split; [by apply good_flags|done|done]. Qed.

(** A queue of the present taken from: the rest is still good and the event was due. *)
Lemma take_from_good q s e s' :
  good P s -> present s -> take_from q s = Some (e, s') ->
  good P s' /\ present s' /\ P (schedule_time s) e /\ schedule_time s' = schedule_time s /\
  sim_started s' = sim_started s.
Proof.
  intros Hs Hp Ht. pose proof (take_from_spec q s) as HS. rewrite Ht in HS.
  destruct HS as (c & r & l & El & Eq & ->). unfold present in Hp. rewrite El in Hp.
  pose proof (good_wf _ _ Hs) as Hw. rewrite El in Hw.
  assert (HT : forall off q e, e ∈ events_at (c :: r) off q -> P (after (schedule_time s) off) e)
    by (intros ? ? ?; rewrite <- El; apply Hs).
  split_and!; try done.
  - apply good_with_list; [done|by cbn; rewrite delay_set|]. intros off q' e' Hin. apply (HT off q' e').
    cbn [events_at] in Hin |- *. rewrite delay_set, queue_of_set in Hin.
    destruct (off <? delay c); [done|]. destruct (off =? delay c); [|done].
    destruct (decide (q = q')) as [<-|]; [|done]. rewrite Eq. by apply elem_of_cons; right.
  - unfold present. cbn. by rewrite delay_set.
  - rewrite <- (after_0 (schedule_time s)) by apply Hs. apply (HT 0 q e). rewrite events_at_now by done.
    rewrite Eq. by apply elem_of_cons; left.
Qed.

(** The next time step becomes the present. *)
Lemma advance_good s c r :
  good P s -> sched_list s = c :: r -> sim_started s = true ->
  good P (with_list (set_delay c 0 :: r) (with_time ((schedule_time s + delay c) mod wordsize) s)).
Proof.
  intros Hs El Hb. pose proof (good_wf _ _ Hs) as Hw. rewrite El in Hw. destruct Hw as [Hc Hr].
  assert (HT : forall off q e, e ∈ events_at (c :: r) off q -> P (after (schedule_time s) off) e)
    by (intros ? ? ?; rewrite <- El; apply Hs).
  destruct Hs. split; cbn; try done.
  - apply Z.mod_pos_bound. done.
  - congruence.
  - intros off q e Hin. destruct (Z.ltb_spec off 0) as [|Ho]; [by apply not_elem_of_nil in Hin|].
    specialize (HT (off + delay c) q e). replace (after (schedule_time s) (off + delay c))
      with (after ((schedule_time s + delay c) mod wordsize) off) in HT.
    + apply HT. cbn [events_at]. rewrite (proj2 (Z.ltb_ge _ _)) by lia.
      replace (off + delay c - delay c) with (off - 0) by lia.
      replace (off + delay c =? delay c) with (off =? 0)
        by (destruct (Z.eqb_spec off 0), (Z.eqb_spec (off + delay c) (delay c)); lia).
      destruct (off =? 0); [|done]. by rewrite queue_of_set_delay in Hin.
    + unfold after. rewrite Z.add_mod_idemp_l by done. f_equal. lia.
Qed.

(** The present time step is over. *)
Lemma next_time_good s :
  good P s -> present s -> good P (with_list (tl (sched_list s)) s).
Proof.
  intros Hs Hp. pose proof (good_wf _ _ Hs) as Hw. unfold present in Hp.
  assert (HT : forall off q e, e ∈ events_at (sched_list s) off q -> P (after (schedule_time s) off) e)
    by apply Hs.
  destruct (sched_list s) as [|c r]; [done|]. destruct Hw as [_ Hr].
  apply good_with_list; [done|by apply wf_times_later|]. cbn [tl]. intros off q e Hin.
  apply (HT off q e). cbn [events_at]. rewrite Hp.
  destruct (Z.ltb_spec off 0); [rewrite events_at_later in Hin by (done || lia); by apply not_elem_of_nil in Hin|].
  destruct (Z.eqb_spec off 0); [rewrite events_at_later in Hin by (done || lia); by apply not_elem_of_nil in Hin|].
  by rewrite Z.sub_0_r.
Qed.

(** The present time step with its lists promoted. *)
Lemma promote_good s c c' r :
  good P s -> present s -> sched_list s = c :: r -> promote c = Some c' ->
  good P (with_list (c' :: r) s) /\ present (with_list (c' :: r) s).
Proof.
  intros Hs Hp El Hc. unfold present in Hp. rewrite El in Hp.
  pose proof (promote_spec c) as HS. rewrite Hc in HS. destruct HS as (_ & _ & HD & _).
  pose proof (good_wf _ _ Hs) as Hw. rewrite El in Hw. destruct Hw as [Hw Hr].
  split; [|unfold present; cbn; congruence]. apply good_with_list; [done|cbn; rewrite HD; done|].
  intros off q e Hin. pose proof (good_timely _ _ Hs) as HT. rewrite El in HT.
  cbn [events_at] in HT, Hin. rewrite HD in Hin. specialize (HT off).
  destruct (off <? delay c); [by apply not_elem_of_nil in Hin|].
  destruct (off =? delay c); [|by eapply HT].
  destruct (promote_elem c c' q e Hc Hin) as [q' Hq']. by eapply HT.
Qed.

(** ** Every step succeeds and keeps the invariant *)

(** The end of a run. *)
Lemma postsim_ok m rf s w :
  good P s -> sim_started s = true ->
  step_ok m ('(s, w) ← perform env vpiPostsim (s, w); Some (Step None (mkMachine AtEnd rf s w))).
Proof.
  intros Hs Hb. destruct (perform_good vpiPostsim s w Hs) as (s' & w' & -> & Hs' & Hn); [by apply env_later|].
   do 2 eexists. split; [done|]. split; [|done]. split; cbn; [done|done|]. destruct Hn as (_ & -> & _). done.
Qed.

(** A loop that takes the events of one queue of the present. *)
Lemma drain_ok q k rf s w m' :
  inside k = true -> good P s -> present s -> sim_started s = true -> inv m' ->
  step_ok (mkMachine k rf s w)
    (match take_from q s with Some (e, s) => run_at env k rf e s w | None => Some (Step None m') end).
Proof.
  intros Hk Hs Hp Hb Hm. destruct (take_from q s) as [[e s']|] eqn:Et.
  - destruct (take_from_good _ _ _ _ Hs Hp Et) as (Hs' & Hp' & He & Ht' & Hb').
    apply run_at_ok; try done; [by rewrite Ht'|]. rewrite Hb', Hb. by destruct k.
  - do 2 eexists. by split_and!.
Qed.

Lemma init_ok rf s w :
  inv (mkMachine AtInit rf s w) -> step_ok (mkMachine AtInit rf s w) (step env (mkMachine AtInit rf s w)).
Proof.
  intros [Hs _ Hb]. cbn in Hs, Hb. cbn [step]. cbn [q_take list_ops].
  destruct (schedule_init_list s) as [|e l] eqn:El; cbn [list_take].
  - destruct (perform_good vpiStartOfSim s w Hs) as (s' & w' & -> & Hs' & Hn);
      [rewrite (good_start _ _ Hs Hb); by apply env_started|]. cbn [mbind option_bind].
    do 2 eexists. split; [done|]. split; [|done].
    assert (HG : good P (with_started true s')) by by by apply good_flags.
    destruct (schedule_runnable (with_started true s')); [by split|]. by apply to_final_inv.
  - pose proof (good_init _ _ Hs) as Hi. rewrite El in Hi. apply Forall_cons_1 in Hi as [He Hl].
    assert (Ht : schedule_time s = 0) by (by apply Hs).
    apply run_at_ok; try done; [by destruct Hs; split|]. cbn. by rewrite Ht.
Qed.

Lemma main_ok rf s w :
  inv (mkMachine AtMain rf s w) -> step_ok (mkMachine AtMain rf s w) (step env (mkMachine AtMain rf s w)).
Proof.
  intros [Hs _ Hb]. cbn in Hs, Hb. cbn [step].
  destruct (sched_list s) as [|c r] eqn:El.
  { do 2 eexists. split; [done|]. split; [|done]. by apply to_final_inv. }
  destruct (schedule_stopped_flag s).
  - destruct (perform_good stop_handler (with_stopped false s) w) as (s' & w' & -> & Hs' & Hn).
    { by apply good_flags. }
    { by apply env_later. }
    assert (Hb' : sim_started s' = true) by (destruct Hn as (_ & -> & _); done).
    do 2 eexists. split; [done|]. split; [|done].
    destruct (schedule_runnable s'); [by split|]. by apply to_final_inv.
  - destruct (Z.ltb_spec 0 (delay c)) as [Hd|Hd].
    + destruct (negb (schedule_runnable s)).
      { do 2 eexists. split; [done|]. split; [|done]. by apply to_final_inv. }
      destruct (perform_good vpiNextSimTime
        (with_list (set_delay c 0 :: r) (with_time ((schedule_time s + delay c) mod wordsize) s)) w)
        as (s' & w' & -> & Hs' & (Hn1 & Hn2 & Hn3 & Hn4)); [by apply advance_good|by apply env_later|].
      do 2 eexists. split; [done|]. split; [|done]. split; cbn; [done| |by rewrite Hn2].
      intros _. by apply Hn4.
    + do 2 eexists. split; [done|]. split; [|done]. split; cbn; [done| |done].
      intros _. unfold present. rewrite El. pose proof (good_wf _ _ Hs) as Hw. rewrite El in Hw.
      destruct Hw as [Hw _]. lia.
Qed.

Lemma select_ok rf s w :
  inv (mkMachine AtSelect rf s w) -> step_ok (mkMachine AtSelect rf s w) (step env (mkMachine AtSelect rf s w)).
Proof.
  intros [Hs Hp Hb]. cbn in Hs, Hp, Hb. specialize (Hp eq_refl). cbn [step].
  destruct (sched_list s) as [|c r] eqn:El; [unfold present in Hp; by rewrite El in Hp|].
  destruct (promote c) as [c'|] eqn:Ec.
  - destruct (promote_good _ _ _ _ Hs Hp El Ec) as [Hs1 Hp1].
    destruct (take_from SEQ_ACTIVE (with_list (c' :: r) s)) as [[e s2]|] eqn:Et.
    + cbn [mbind option_bind].
      destruct (take_from_good _ _ _ _ Hs1 Hp1 Et) as (Hs2 & Hp2 & He & Ht & Hb2).
      destruct (single_step_good s2 Hs2) as [Hs3 (Hn1 & Hn2 & _)].
      cbn in He, Ht, Hb2. apply run_at_ok; [done| | |done|]; rewrite ?Hn1, ?Hn2, ?Ht, ?Hb2; done.
    + exfalso. pose proof (take_from_spec SEQ_ACTIVE (with_list (c' :: r) s)) as HS. rewrite Et in HS.
      pose proof (promote_spec c) as HQ. rewrite Ec in HQ. by apply HQ.
  - do 2 eexists. split; [done|]. split; [|done]. split; cbn; [by apply good_flags|done|done].
Qed.

Lemma step_inv m : inv m -> ctl m <> AtEnd -> step_ok m (step env m).
Proof.
  intros Hm Hk. destruct m as [k rf s w]. destruct k; [by apply init_ok|by apply main_ok| | | | | |done];
    [|by apply select_ok|..]; destruct Hm as [Hs Hp Hb]; cbn in Hs, Hp, Hb; cbn [step].
  - specialize (Hp eq_refl). by apply drain_ok.
  - specialize (Hp eq_refl). apply drain_ok; try done. split; cbn; [by apply good_flags|done|done].
  - specialize (Hp eq_refl). apply drain_ok; try done. split; cbn; [by apply next_time_good|done|done].
  - destruct (schedule_runnable s); [|by apply postsim_ok]. cbn [q_take list_ops].
    destruct (schedule_final_list s) as [|e l] eqn:El; cbn [list_take]; [by apply postsim_ok|].
    pose proof (good_final _ _ Hs) as Hf. rewrite El in Hf. apply Forall_cons_1 in Hf as [He Hl].
    apply run_at_ok; try done. by destruct Hs; split.
Qed.

Lemma begin_inv s w :
  good P (with_time 0 (with_started false s)) -> exists m, begin env s w = Some m /\ inv m.
Proof.
  intros Hs. unfold begin. destruct (perform_good vpiEndOfCompile _ w Hs) as (s' & w' & -> & Hs' & Hn);
    [by apply env_compiled|].
  eexists. split; [done|]. split; cbn; [done|done|]. destruct Hn as (_ & -> & _). done.
Qed.

Lemma reach_inv s0 w0 m :
  good P (with_time 0 (with_started false s0)) -> reach s0 w0 m -> inv m.
Proof.
  intros Hs Hr. induction Hr as [m Hb|m ran m' Hr IH Hst].
  - destruct (begin_inv s0 w0 Hs) as (m' & E1 & Hm). congruence.
  - destruct (decide (ctl m = AtEnd)) as [Hk|Hk].
    + destruct m as [k rf s w]. cbn in Hk. subst. done.
    + destruct (step_inv m IH Hk) as (ran' & m2 & E2 & Hm & _). congruence.
Qed.
End invariant.

(** * The clock *)

Lemma schedule_event_time e d q (s s' : sched L) :
  schedule_event_ e d q s = Some s' -> schedule_time s' = schedule_time s.
Proof. unfold schedule_event_. destruct (insert_event _ _ _ _); [|done]. by intros [= <-]. Qed.

Lemma apply_request_time r (s s' : sched L) : apply_request r s = Some s' -> schedule_time s' = schedule_time s.
Proof.
  destruct r; cbn [apply_request]; try (by apply schedule_event_time); try (by intros [= <-]).
  - unfold schedule_vthread, schedule_event_push_. destruct (_ && _); [|apply schedule_event_time].
    destruct (sched_list s); [apply schedule_event_time|].
    destruct (0 <? _); [apply schedule_event_time|]. by intros [= <-].
  - unfold schedule_functor. destruct (negb _); [by intros [= <-]|apply schedule_event_time].
Qed.

Lemma apply_requests_time rs (s s' : sched L) : apply_requests rs s = Some s' -> schedule_time s' = schedule_time s.
Proof.
  revert s. induction rs as [|r rs IH]; intros s; cbn [apply_requests]; [by intros [= <-]|].
  destruct (apply_request r s) as [s1|] eqn:E1; [|done]. cbn. intros E2.
  by rewrite (IH _ E2), (apply_request_time _ _ _ E1).
Qed.

Lemma perform_time c (s s' : sched L) w w' : perform env c (s, w) = Some (s', w') -> schedule_time s' = schedule_time s.
Proof.
  unfold perform. destruct (react _ _ _ _) as [rs w1]. destruct (apply_requests rs s) as [s1|] eqn:E1; [|done].
  intros [= <- _]. by eapply apply_requests_time.
Qed.

Lemma execute_time e (s s' : sched L) w w' : execute env e (s, w) = Some (s', w') -> schedule_time s' = schedule_time s.
Proof.
  unfold execute. destruct (run_run _ _) as [[|c cs]|]; [|apply perform_time|done]. by intros [= <- _].
Qed.

Lemma run_at_time k rf e (s : sched L) w ran m' :
  run_at env k rf e s w = Some (Step ran m') -> schedule_time (st m') = schedule_time s /\ ran = Some e.
Proof.
  unfold run_at. destruct (execute env e (s, w)) as [[s' w']|] eqn:E1; [|done].
  intros [= <- <-]. split; [by eapply execute_time|done].
Qed.

Lemma take_from_time q (s s' : sched L) e : take_from q s = Some (e, s') -> schedule_time s' = schedule_time s.
Proof.
  intros Ht. pose proof (take_from_spec q s) as HS. rewrite Ht in HS. by destruct HS as (? & ? & ? & _ & _ & ->).
Qed.

(** The end of a step that performs a call. *)
Lemma perform_step_time c (s : sched L) w (f : sched L -> World -> O) ran (m' : M) :
  ('(s, w) ← perform env c (s, w); Some (f s w)) = Some (Step ran m') ->
  (forall s w ran (m' : M), f s w = Step ran m' -> schedule_time (st m') = schedule_time s) ->
  schedule_time (st m') = schedule_time s.
Proof.
  intros Hp Hf. destruct (perform env c (s, w)) as [[s' w']|] eqn:E1; [|done].
  injection Hp as Hp. by rewrite (Hf _ _ _ _ Hp), (perform_time _ _ _ _ _ E1).
Qed.

(** The clock moves only between time steps, by the delay of the next one, and only while
    the simulation is not finished. *)
Lemma step_time (m : M) ran m' :
  step env m = Some (Step ran m') -> schedule_time (st m') <> schedule_time (st m) ->
  ctl m = AtMain /\ schedule_runnable (st m) = true /\ ran = None /\
  exists c r, sched_list (st m) = c :: r /\ 0 < delay c /\
    schedule_time (st m') = (schedule_time (st m) + delay c) mod wordsize.
Proof.
  destruct m as [k rf s w]. intros Hm Hne. cbn [st ctl] in *.
  destruct k; cbn [step] in Hm.
  - cbn [q_take list_ops] in Hm. exfalso. destruct (schedule_init_list s) as [|e l]; cbn [list_take] in Hm.
    + apply Hne. eapply perform_step_time; [exact Hm|]. clear. intros s w ran m'.
      cbv beta; case_match; by intros [= _ <-].
    + apply run_at_time in Hm. tauto.
  - destruct (sched_list s) as [|c r] eqn:El; [exfalso; apply Hne; by injection Hm as _ <-|].
    destruct (schedule_stopped_flag s).
    { exfalso. apply Hne. eapply (perform_step_time stop_handler (with_stopped false s)); [exact Hm|].
      clear. intros s w ran m'. cbv beta; case_match; by intros [= _ <-]. }
    destruct (Z.ltb_spec 0 (delay c)) as [Hd|]; [|exfalso; apply Hne; by injection Hm as _ <-].
    destruct (schedule_runnable s) eqn:Er; cbn [negb] in Hm; [|exfalso; apply Hne; by injection Hm as _ <-].
    assert (Hran : ran = None) by (destruct (perform _ _ _) as [[??]|]; [by injection Hm as <- _|done]).
    split_and!; [done|done|done|]. exists c, r. split_and!; [done|done|].
    erewrite (perform_step_time vpiNextSimTime); [|exact Hm|]; [done|].
    clear. intros s w ran m'. by intros [= _ <-].
  - exfalso. destruct (take_from SEQ_START s) as [[e s']|] eqn:Et; [|apply Hne; by injection Hm as _ <-].
    apply run_at_time in Hm as [Hm _]. apply Hne. by rewrite Hm, (take_from_time _ _ _ _ Et).
  - exfalso. destruct (sched_list s) as [|c r] eqn:El; [done|].
    destruct (promote c) as [c'|]; [|apply Hne; by injection Hm as _ <-].
    destruct (take_from SEQ_ACTIVE (with_list (c' :: r) s)) as [[e s']|] eqn:Et; [|done].
    cbn [mbind option_bind] in Hm. apply run_at_time in Hm as [Hm _]. apply Hne. rewrite Hm.
    rewrite <- (take_from_time _ _ _ _ Et : schedule_time s' = schedule_time s).
    unfold single_step. by destruct (schedule_single_step_flag s').
  - exfalso. destruct (take_from SEQ_ROSYNC s) as [[e s']|] eqn:Et; [|apply Hne; by injection Hm as _ <-].
    apply run_at_time in Hm as [Hm _]. apply Hne. by rewrite Hm, (take_from_time _ _ _ _ Et).
  - exfalso. destruct (take_from DEL_THREAD s) as [[e s']|] eqn:Et; [|apply Hne; by injection Hm as _ <-].
    apply run_at_time in Hm as [Hm _]. apply Hne. by rewrite Hm, (take_from_time _ _ _ _ Et).
  - exfalso. apply Hne. cbn [q_take list_ops] in Hm.
    destruct (schedule_runnable s); [destruct (schedule_final_list s); cbn [list_take] in Hm|].
    2: { by apply run_at_time in Hm as [Hm _]. }
    all: eapply perform_step_time; [exact Hm|]; clear; intros s w ran m'; by intros [= _ <-].
  - done.
Qed.

(** * Termination *)

(** What is left to do. *)
Definition step_events (c : event_time_s L) : nat :=
  length (start c) + length (active c) + length (inactive c) + length (nbassign c) + length (rwsync c)
  + length (rosync c) + length (del_thr c).
Definition pending (l : list (event_time_s L)) : nat := sum_list_with step_events l.

Definition weight (k : control) : nat :=
  match k with
  | AtInit => 7 | AtMain => 6 | AtStart => 5 | AtSelect => 4 | AtRosync => 3 | AtDelThr => 2
  | AtFinal => 1 | AtEnd => 0
  end.

Definition queue_work (s : sched L) : nat :=
  3 * (pending (sched_list s) + length (schedule_init_list s) + length (schedule_final_list s))
  + 6 * length (sched_list s).
Definition sched_work (s : sched L) : nat :=
  queue_work s + (if schedule_single_step_flag s then 2 else 0) + (if schedule_stopped_flag s then 1 else 0).
Definition work (m : M) : nat := (sched_work (st m) + weight (ctl m))%nat.

(** The work of a state with other flags. *)
Ltac flags_work :=
  unfold work, sched_work, to_final;
  cbn [st ctl weight with_runnable with_stopped with_single_step with_started with_rosync
       schedule_single_step_flag schedule_stopped_flag];
  repeat match goal with
  | |- context [queue_work (with_runnable ?b ?s)] => change (queue_work (with_runnable b s)) with (queue_work s)
  | |- context [queue_work (with_stopped ?b ?s)] => change (queue_work (with_stopped b s)) with (queue_work s)
  | |- context [queue_work (with_single_step ?b ?s)] => change (queue_work (with_single_step b s)) with (queue_work s)
  | |- context [queue_work (with_started ?b ?s)] => change (queue_work (with_started b s)) with (queue_work s)
  | |- context [queue_work (with_rosync ?b ?s)] => change (queue_work (with_rosync b s)) with (queue_work s)
  end.

(** An event that is scheduled adds itself and at most one time step. *)
Lemma put_queue_events e q (c : event_time_s L) : step_events (put_queue e q c) = S (step_events c).
Proof. unfold step_events, put_queue. destruct c, q; cbn; rewrite length_app; cbn; lia. Qed.

Lemma insert_from_work e q (c : event_time_s L) r : forall d,
  let l := (insert_from e q d c r).1 in
  (3 * pending l + 6 * length l <= 3 * pending (c :: r) + 6 * length (c :: r) + 9)%nat.
Proof.
  assert (HN : forall d, step_events (new_time d) = 0%nat) by done.
  assert (HD : forall d, step_events (set_delay c d) = step_events c) by done.
  revert c HD. induction r as [|c' r IH]; intros c HD d; cbn [insert_from].
  - repeat case_match; unfold pending; cbn [fst sum_list_with length]; rewrite ?put_queue_events, ?HN, ?HD; lia.
  - destruct (delay c <? d).
    + specialize (IH c' ltac:(done) (d - delay c)). destruct (insert_from e q (d - delay c) c' r) as [l k]. cbn in IH |- *. lia.
    + repeat case_match; unfold pending; cbn [fst sum_list_with length]; rewrite ?put_queue_events, ?HN, ?HD; lia.
Qed.

Lemma queue_work_cons (s : sched L) c r :
  sched_list s = c :: r ->
  queue_work s = (3 * (step_events c + pending r + length (schedule_init_list s) + length (schedule_final_list s))
                  + 6 * S (length r))%nat.
Proof. intros El. unfold queue_work. by rewrite El. Qed.

Lemma schedule_event_work e d q (s s' : sched L) :
  schedule_event_ e d q s = Some s' -> (sched_work s' <= sched_work s + 9)%nat.
Proof.
  unfold schedule_event_, insert_event. intros Hs.
  assert (HI : (3 * pending (insert_time e q d (sched_list s)).1 + 6 * length (insert_time e q d (sched_list s)).1
               <= 3 * pending (sched_list s) + 6 * length (sched_list s) + 9)%nat).
  { unfold insert_time. destruct (sched_list s) as [|c r]; [unfold pending; cbn [fst sum_list_with length]; rewrite put_queue_events; cbn; lia|].
    destruct (d <? delay c); [|apply insert_from_work]. unfold pending. cbn [fst sum_list_with length]. rewrite put_queue_events.
    change (step_events (set_delay c (delay c - d))) with (step_events c). change (step_events (new_time d)) with 0%nat. lia. }
  assert (HW : (sched_work (with_list (insert_time e q d (sched_list s)).1 s) <= sched_work s + 9)%nat)
    by (unfold sched_work, queue_work; cbn [with_list sched_list schedule_init_list schedule_final_list schedule_single_step_flag schedule_stopped_flag]; lia).
  repeat case_match; cbn [mbind option_bind] in Hs; try done; by injection Hs as <-.
Qed.

Lemma put_init_work e (s : sched L) : (sched_work (schedule_init_event e s) <= sched_work s + 9)%nat.
Proof.
  unfold sched_work, queue_work, schedule_init_event. cbn [with_init sched_list schedule_init_list schedule_final_list schedule_single_step_flag schedule_stopped_flag q_put list_ops].
  rewrite ?length_app. cbn. lia.
Qed.

Lemma put_final_work e (s : sched L) : (sched_work (schedule_final_event e s) <= sched_work s + 9)%nat.
Proof.
  unfold sched_work, queue_work, schedule_final_event. cbn [with_final sched_list schedule_init_list schedule_final_list schedule_single_step_flag schedule_stopped_flag q_put list_ops].
  rewrite ?length_app. cbn. lia.
Qed.

Lemma apply_request_work r (s s' : sched L) : apply_request r s = Some s' -> (sched_work s' <= sched_work s + 9)%nat.
Proof.
  destruct r; cbn [apply_request]; try (by apply schedule_event_work); try (intros [= <-]; apply put_init_work || apply put_final_work).
  - unfold schedule_vthread, schedule_event_push_. destruct (_ && _); [|apply schedule_event_work].
    destruct (sched_list s) as [|c r] eqn:El; [apply schedule_event_work|]. destruct (0 <? _); [apply schedule_event_work|]. intros [= <-].
    unfold sched_work. rewrite (queue_work_cons s c r El), (queue_work_cons (with_list _ s) _ _ eq_refl).
    cbn [with_list schedule_init_list schedule_final_list schedule_single_step_flag schedule_stopped_flag].
    match goal with |- context [step_events ?x] =>
      replace (step_events x) with (S (step_events c)) by (unfold step_events; destruct c; cbn; lia) end. lia.
  - unfold schedule_functor. destruct (negb _); [intros [= <-]; apply put_init_work|apply schedule_event_work].
  - intros [= <-]. unfold schedule_finish. flags_work. lia.
  - intros [= <-]. unfold schedule_stop. flags_work. destruct (schedule_stopped_flag s); lia.
  - intros [= <-]. unfold schedule_single_step. flags_work. destruct (schedule_single_step_flag s); lia.
Qed.

Lemma apply_requests_work rs (s s' : sched L) : apply_requests rs s = Some s' -> (sched_work s' <= sched_work s + 9 * length rs)%nat.
Proof.
  revert s. induction rs as [|r rs IH]; intros s; cbn [apply_requests length]; [intros [= <-]; lia|].
  destruct (apply_request r s) as [s1|] eqn:E1; [|done]. cbn [mbind option_bind]. intros E2.
  apply IH in E2. apply apply_request_work in E1. lia.
Qed.

Section spent.
(** An environment that has a budget of requests. *)
Context (budget : World -> nat).
Context (Hbudget : forall c v w, (length (react env c v w).1 + budget (react env c v w).2 <= budget w)%nat).

(** The work left, with what the environment may still ask for. *)
Definition load (m : M) : nat := (work m + 9 * budget (world m))%nat.

Lemma perform_work c (s s' : sched L) w w' : perform env c (s, w) = Some (s', w') ->
  (sched_work s' + 9 * budget w' <= sched_work s + 9 * budget w)%nat.
Proof.
  unfold perform. pose proof (Hbudget c (view_of s) w) as HB. destruct (react _ _ _ _) as [rs w1]. cbn in HB.
  destruct (apply_requests rs s) as [s1|] eqn:E1; [|done]. intros [= <- <-]. apply apply_requests_work in E1. lia.
Qed.

Lemma run_at_work k rf e (s : sched L) w ran m' :
  run_at env k rf e s w = Some (Step ran m') ->
  ctl m' = k /\ (sched_work (st m') + 9 * budget (world m') <= sched_work s + 9 * budget w)%nat.
Proof.
  unfold run_at, execute. cbn [snd]. destruct (run_run _ _) as [[|c cs]|]; cbn [mbind option_bind]; [|..|done].
  - by intros [= _ <-].
  - destruct (perform env c (s, w)) as [[s1 w1]|] eqn:E1; [|done]. intros [= _ <-]. split; [done|]. by apply perform_work in E1.
Qed.

Lemma take_from_work q (s s' : sched L) e : take_from q s = Some (e, s') -> sched_work s = (3 + sched_work s')%nat.
Proof.
  intros Ht. pose proof (take_from_spec q s) as HS. rewrite Ht in HS.
  destruct HS as (c & r & l & El & Eq & ->). unfold sched_work.
  rewrite (queue_work_cons s c r El), (queue_work_cons (with_list _ s) _ _ eq_refl).
  cbn [with_list schedule_init_list schedule_final_list schedule_single_step_flag schedule_stopped_flag].
  assert (step_events c = S (step_events (set_queue c q l))); [|lia].
  unfold step_events. destruct c, q; cbn in Eq |- *; rewrite Eq; cbn; lia.
Qed.

Lemma promote_work (c c' : event_time_s L) : promote c = Some c' -> step_events c' = step_events c.
Proof.
  destruct c as [d st [|a1 a] [|i1 i] [|n1 n] [|w1 w] o t]; unfold step_events; cbn;
    try (intros [= <-]; cbn; lia); done.
Qed.

Lemma to_final_work rf (s : sched L) w : work (to_final rf s w) = S (sched_work s).
Proof.
  unfold work. cbn [ctl st to_final weight]. change (sched_work (with_runnable rf s)) with (sched_work s). lia.
Qed.

Lemma single_step_work (s : sched L) : (sched_work (single_step s) <= sched_work s)%nat.
Proof.
  unfold single_step. destruct (schedule_single_step_flag s) eqn:E1; [|done].
  unfold sched_work at 2. rewrite E1. flags_work. destruct (schedule_stopped_flag s); lia.
Qed.

(** Every step leaves less to do. *)
Lemma drain_work q k rf (s : sched L) w x ran m' :
  (match take_from q s with Some (e, s) => run_at env k rf e s w | None => Some (Step None x) end)
    = Some (Step ran m') ->
  (load x < sched_work s + weight k + 9 * budget w)%nat -> (load m' < sched_work s + weight k + 9 * budget w)%nat.
Proof.
  destruct (take_from q s) as [[e s']|] eqn:Et.
  - intros Hm _. apply run_at_work in Hm as [Hk Hs]. unfold load, work. rewrite Hk, (take_from_work _ _ _ _ Et). lia.
  - by intros [= _ <-].
Qed.

(** A step that performs a call and goes on at a later loop. *)
Lemma perform_load c (s : sched L) w (f : sched L -> World -> M) ran m' n :
  ('(s, w) ← perform env c (s, w); Some (Step None (f s w) : O)) = Some (Step ran m') ->
  (forall s' w', load (f s' w') <= sched_work s' + 9 * budget w' + n)%nat ->
  (load m' <= sched_work s + 9 * budget w + n)%nat.
Proof.
  destruct (perform env c (s, w)) as [[s1 w1]|] eqn:E1; [|done]. intros [= _ <-] Hf.
  apply perform_work in E1. specialize (Hf s1 w1). lia.
Qed.

Lemma step_load (m : M) ran m' :
  step env m = Some (Step ran m') -> (ctl m = AtDelThr -> sched_list (st m) <> []) -> (load m' < load m)%nat.
Proof.
  destruct m as [k rf s w]. unfold load at 2. unfold work. cbn [st ctl world]. destruct k; cbn [step]; intros Hm Hne.
  - cbn [q_take list_ops] in Hm. destruct (schedule_init_list s) as [|e l] eqn:El; cbn [list_take] in Hm.
    + eapply (perform_load vpiStartOfSim s w _ ran m' 6) in Hm; [cbn [weight]; lia|].
      intros s' w'. unfold load. cbv beta. case_match; flags_work; cbn [world]; lia.
    + apply run_at_work in Hm as [Hk Hs]. unfold load, work. rewrite Hk. unfold sched_work at 2, queue_work in Hs.
      unfold sched_work at 2, queue_work. cbn [with_init sched_list schedule_init_list schedule_final_list schedule_single_step_flag
        schedule_stopped_flag weight] in *. rewrite El in *. cbn [length] in *. lia.
  - destruct (sched_list s) as [|c r] eqn:El.
    { injection Hm as _ <-. unfold load. flags_work. cbn [world]. lia. }
    destruct (schedule_stopped_flag s) eqn:Ef.
    + eapply (perform_load stop_handler (with_stopped false s) w _ ran m' 6) in Hm.
      * revert Hm. flags_work. rewrite Ef. lia.
      * intros s' w'. unfold load. cbv beta. case_match; flags_work; cbn [world]; lia.
    + destruct (0 <? delay c); [|injection Hm as _ <-; unfold load; flags_work; cbn [world]; lia].
      destruct (negb _); [injection Hm as _ <-; unfold load; flags_work; cbn [world]; lia|].
      set (s1 := with_list _ _) in Hm.
      assert (HW : sched_work s1 = sched_work s).
      { unfold sched_work. rewrite (queue_work_cons s c r El), (queue_work_cons s1 _ _ eq_refl). done. }
      eapply (perform_load vpiNextSimTime s1 w _ ran m' 5) in Hm; [cbn [weight]; lia|].
      intros s' w'. unfold load. flags_work. cbn [world]. lia.
  - eapply drain_work in Hm; [lia|]. unfold load. flags_work. cbn [world]. lia.
  - destruct (sched_list s) as [|c r] eqn:El; [done|]. destruct (promote c) as [c'|] eqn:Ec.
    + destruct (take_from SEQ_ACTIVE (with_list (c' :: r) s)) as [[e s']|] eqn:Et; [|done].
      cbn [mbind option_bind] in Hm. apply run_at_work in Hm as [Hk Hs].
      apply take_from_work in Et. pose proof (single_step_work s').
      assert (HW : sched_work (with_list (c' :: r) s) = sched_work s).
      { unfold sched_work. by rewrite (queue_work_cons s c r El), (queue_work_cons (with_list _ s) _ _ eq_refl),
          (promote_work _ _ Ec). }
      unfold load, work. rewrite Hk. cbn [weight]. lia.
    + injection Hm as _ <-. unfold load. flags_work. cbn [world]. lia.
  - eapply drain_work in Hm; [lia|]. unfold load. flags_work. cbn [world]. lia.
  - destruct (sched_list s) as [|c r] eqn:El; [by destruct (Hne eq_refl)|].
    eapply drain_work in Hm; [lia|]. cbn [tl]. unfold load. flags_work. rewrite (queue_work_cons s c r El).
    unfold queue_work. cbn [with_list sched_list schedule_init_list schedule_final_list
      schedule_single_step_flag schedule_stopped_flag world]. lia.
  - cbn [q_take list_ops] in Hm.
    destruct (schedule_runnable s); [destruct (schedule_final_list s) as [|e l] eqn:El; cbn [list_take] in Hm|].
    2: { apply run_at_work in Hm as [Hk Hs]. unfold load, work. rewrite Hk. unfold sched_work at 2, queue_work in Hs.
         unfold sched_work at 2, queue_work. cbn [with_final sched_list schedule_init_list schedule_final_list schedule_single_step_flag
           schedule_stopped_flag weight] in *. rewrite El in *. cbn [length] in *. lia. }
    all: eapply (perform_load vpiPostsim s w _ ran m' 0) in Hm; [cbn [weight]; lia|];
      intros s' w'; unfold load; flags_work; cbn [world]; lia.
  - done.
Qed.
End spent.
End machine.
