(* ===== verification/ScheduleProps.v ===== *)
(** The properties of the event scheduler. *)
From S2P Require Import Prelude MachineWord VvpBit VvpVector4 VvpSlice WordArith VvpVector2.
From S2P Require Import EventQueue Schedule ScheduleRefine ScheduleSpec ScheduleRun.

(** * A concrete runtime *)

(** Threads, nets and the rest are numbers; thread [n] is the one due at time [n], and it
    starts the one due 3 ticks later until time 9. *)
Definition toy : objects := Build_objects nat nat nat nat nat nat nat.

Definition thread_event (n : nat) : event toy := vthread_event_s (T := toy) n.

Definition toy_react (c : call toy) (v : view) (w : nat) : list (request toy) * nat :=
  match c with
  | vthread_run thr =>
      if (thr <? 9)%nat then ([Vthread (T := toy) (thr + 3)%nat 3 false], S w) else ([], S w)
  | vpiStartOfSim => ([Vthread (T := toy) 2%nat 2 false; Vthread (T := toy) 0%nat 0 true], w)
  | _ => ([], w)
  end.

Definition toy_env : environment toy nat := mkEnv (fun _ _ => vec4_fill 8 BIT4_0) toy_react.

(** What may run when. *)
Definition toy_due (t : Z) (e : event toy) : Prop :=
  match e with vthread_event_s thr => t = Z.of_nat thr /\ (thr < 12)%nat | _ => False end.


Definition toy_lists : sched (list (event toy)) := sched_0.
Definition toy_rings : sched (ring (event toy)) := sched_0.


(** * Event lists *)

(** The rings of [event_s] cells are first-in first-out lists: putting an event on the
    end appends it, pushing it in front makes it the first, and taking gives the events in
    order until the list variable is null. *)
Theorem ring_fifo {A} (r : ring A) (e : A) :
  ring_ok r ->
  (ring_ok (ring_put e r) /\ ring_list (ring_put e r) = ring_list r ++ [e]) /\
  (ring_ok (ring_push e r) /\ ring_list (ring_push e r) = e :: ring_list r) /\
  match ring_take r with
  | None => ring_list r = []
  | Some (e', r') => ring_ok r' /\ ring_list r = e' :: ring_list r'
  end.
Proof.
  intros Hr. split; [exact (q_put_law e r Hr)|]. split; [exact (q_push_law e r Hr)|exact (q_take_law r Hr)].
Qed.

Definition ring_123 : ring nat := ring_put 3%nat (ring_put 2%nat (ring_push 1%nat ring_null)).

Lemma ring_123_ok : ring_ok ring_123.
Proof.
  destruct (q_push_law (E := nat) (Q := ring nat) 1%nat _ (proj1 q_null_law)) as [H1 _].
  destruct (q_put_law 2%nat _ H1) as [H2 _]. exact (proj1 (q_put_law 3%nat _ H2)).
Qed.

Lemma ring_fifo_witness :
  (ring_ok (ring_put 4%nat ring_123) /\ ring_list (ring_put 4%nat ring_123) = [1; 2; 3; 4]%nat) /\
  (ring_ok (ring_push 4%nat ring_123) /\ ring_list (ring_push 4%nat ring_123) = [4; 1; 2; 3]%nat) /\
  match ring_take ring_123 with
  | None => ring_list ring_123 = []
  | Some (e', r') => ring_ok r' /\ ring_list ring_123 = e' :: ring_list r'
  end.
Proof. apply (ring_fifo ring_123 4%nat), ring_123_ok. Defined.

(** * The event queue *)

(** C25: [schedule_event_] on the list of time steps with relative delays is an update of
    the map from time and queue to a sequence of events: the event is put at the end of its
    queue at its time, every other sequence is as before, the list stays in order, and the
    assertion on inactive events does not fail. *)
Theorem schedule_event_places {T : objects} {Q} `{!QueueOps (event T) Q} `{!QueueLaws (event T) Q}
    e d q (s : sched Q) (a : sched (list (event T))) :
  sched_rel s a -> wf_times (sched_list a) -> 0 <= d < wordsize -> (q = SEQ_INACTIVE -> d = 0) ->
  exists s' a', schedule_event_ e d q s = Some s' /\ sched_rel s' a' /\ wf_times (sched_list a') /\
    forall off q', events_at (sched_list a') off q' =
      events_at (sched_list a) off q' ++ (if decide (off = d /\ q' = q) then [e] else []).
Proof.
  intros Hs Hw Hd Hq. destruct (schedule_event_spec e d q a Hw Hd Hq) as (l & E1 & Hp & Hl).
  pose proof (schedule_event_rel e d q s a Hs) as HR. rewrite E1 in HR. inversion HR as [s' a' Hs' E2 E3|].
  exists s', (with_list l a). by split_and!.
Qed.

Lemma toy_rel : sched_rel toy_rings toy_lists.
Proof. split; try done; by apply null_rel. Qed.

Lemma schedule_event_places_witness :
  exists s' a', schedule_event_ (T := toy) (thread_event 5) 7 SEQ_NBASSIGN toy_rings = Some s' /\
    sched_rel s' a' /\ wf_times (sched_list a') /\
    forall off q', events_at (sched_list a') off q' =
      events_at (sched_list toy_lists) off q' ++
      (if decide (off = 7 /\ q' = SEQ_NBASSIGN) then [thread_event 5] else []).
Proof.
  apply (schedule_event_places (thread_event 5) 7 SEQ_NBASSIGN toy_rings toy_lists);
    [apply toy_rel|done|split; [discriminate|reflexivity]|discriminate].
Defined.

(** C26: the simulation run over the rings of the code is the simulation run over plain
    sequences: the same events at the same times, the same failure if an assertion fails,
    and related states at the end, for every environment. *)
Theorem scheduler_refines_lists {T : objects} {World} (env : environment T World) fuel
    (s : sched (ring (event T))) (a : sched (list (event T))) w :
  sched_rel s a ->
  match schedule_simulate env fuel s w, schedule_simulate env fuel a w with
  | Some (tr, m), Some (tr', m') => tr = tr' /\ machine_rel m m'
  | None, None => True
  | _, _ => False
  end.
Proof.
  intros Hs. destruct (schedule_simulate_rel env fuel s a w Hs) as [[tr m] [tr' m'] [Ht Hm]|]; [|done].
  by split.
Qed.

Lemma scheduler_refines_lists_witness :
  match schedule_simulate toy_env 60 toy_rings 0%nat, schedule_simulate toy_env 60 toy_lists 0%nat with
  | Some (tr, m), Some (tr', m') => tr = tr' /\ machine_rel m m'
  | None, None => True
  | _, _ => False
  end.
Proof. apply (scheduler_refines_lists toy_env 60 toy_rings toy_lists), toy_rel. Defined.

(** * The main loop *)

(** The list the next event of a time step comes from. *)
Definition batch {T : objects} (c : event_time_s (list (event T))) : list (event T) :=
  match active c, inactive c, nbassign c with
  | _ :: _, _, _ => active c
  | [], _ :: _, _ => inactive c
  | [], [], _ :: _ => nbassign c
  | [], [], [] => rwsync c
  end.

(** C27: within a time step the events run in the order active, inactive, non-blocking
    assignments, read-write synchronisation, each list only when those before it are empty
    and then to its end; the read-only events start when there is none left. *)
Theorem scheduler_order {T : objects} {World} (env : environment T World) rf s w c r :
  sched_list s = c :: r ->
  match agenda c with
  | e :: es => exists c', step env (mkMachine AtSelect rf s w) =
                 run_at env AtMain rf e (single_step (with_list (c' :: r) s)) w /\
               batch c = e :: active c' /\ agenda c' = es /\ delay c' = delay c /\
               start c' = start c /\ rosync c' = rosync c /\ del_thr c' = del_thr c
  | [] => step env (mkMachine AtSelect rf s w) =
            Some (Step None (mkMachine AtRosync rf (with_rosync true s) w))
  end.
Proof.
  intros El. cbn [step]. rewrite El. destruct c as [d st a i n rw ro dt]. unfold agenda, batch. cbn.
  destruct a as [|e a]; [destruct i as [|e i]; [destruct n as [|e n]; [destruct rw as [|e rw]|]|]|];
    cbn; try done; eexists; split_and!; try reflexivity; cbn; by rewrite ?app_nil_r.
Qed.

Definition full_step : event_time_s (list (event toy)) :=
  mkTime 0 [] [] [thread_event 3] [thread_event 1; thread_event 2] [] [] [].

Lemma scheduler_order_witness :
  exists c', step toy_env (mkMachine AtSelect true (with_list [full_step] toy_lists) 0%nat) =
               run_at toy_env AtMain true (thread_event 3)
                 (single_step (with_list [c'] (with_list [full_step] toy_lists))) 0%nat /\
             batch full_step = thread_event 3 :: active c' /\
             agenda c' = [thread_event 1; thread_event 2] /\ delay c' = 0 /\
             start c' = [] /\ rosync c' = [] /\ del_thr c' = [].
Proof. apply (scheduler_order toy_env true (with_list [full_step] toy_lists) 0%nat full_step []). reflexivity. Defined.

(** C24: for every way [P] to say which events may run when, among events that fit their nets (a
    force that sticks out of the vector of its net fails an assertion, see [force_event]), an
    environment that asks only for events at times they may run at ([schedule_event] delays
    included, on the 64-bit clock) sees every event run at such a time, in every state the
    simulation reaches; and no step of the simulation, the runs of the events included, fails
    an assertion of the scheduler or of an event. *)
Theorem scheduler_timely {T : objects} {World} (env : environment T World) (P : Z -> event T -> Prop)
    s0 w0 m :
  env_ok env P -> good P (with_time 0 (with_started false s0)) -> reach env s0 w0 m -> ctl m <> AtEnd ->
  exists ran m', step env m = Some (Step ran m') /\ forall e, ran = Some e -> P (schedule_time (st m)) e.
Proof.
  intros He Hg Hr Hk. destruct (step_inv env P He m (reach_inv env P He s0 w0 m Hg Hr) Hk) as (ran & m' & E1 & _ & HP).
  by exists ran, m'.
Qed.

Lemma toy_request t d thr push :
  0 <= t -> 0 <= d < 100 -> t + d = Z.of_nat thr -> (thr < 12)%nat ->
  request_ok toy_due t (Vthread (T := toy) thr d push).
Proof.
  intros Ht Hd Hs Hn. split; [|by split]. intros e d' q [= <- <- <-].
  assert (HW : 1000 < wordsize) by done.
  split; [lia|]. split; [|done]. unfold after. rewrite Z.mod_small by lia. done.
Qed.

Lemma toy_env_ok : env_ok toy_env toy_due.
Proof.
  assert (Hnone : forall t c w, (forall v, (toy_react c v w).1 = []) -> call_ok toy_env toy_due t c w).
  { intros t c w H v _. cbn [react toy_env]. rewrite H. constructor. }
  split.
  - intros w. by apply Hnone.
  - intros w v _. apply Forall_cons_2; [by apply toy_request; cbn; lia|].
    apply Forall_cons_2; [by apply toy_request; cbn; lia|constructor].
  - intros t w. split_and!; by apply Hnone.
  - by intros t [] w He.
  - intros t [thr|?|????|??|??|????|????|??|??|???|??] w cs He; try done. destruct He as [Ht Hn].
    intros [= <-]. apply Forall_cons_2; [|constructor].
    intros v _. cbn [react toy_env toy_react]. destruct (Nat.ltb_spec thr 9) as [H9|H9]; [|constructor].
    apply Forall_cons_2; [apply toy_request; lia|constructor].
Qed.

Lemma toy_good : good toy_due (with_time 0 (with_started false toy_lists)).
Proof. split; try done. intros off q e Hin. by apply not_elem_of_nil in Hin. Qed.

(** The state of the concrete simulation after [n] steps. *)
Fixpoint toy_after (n : nat) : machine (Q := list (event toy)) (World := nat) :=
  match n with
  | O => mkMachine AtInit true (with_time 0 (with_started false toy_lists)) 0%nat
  | S n => match step toy_env (toy_after n) with Some (Step _ m) => m | _ => toy_after n end
  end.

Lemma toy_reach n : reach toy_env toy_lists 0%nat (toy_after n).
Proof.
  induction n as [|n IH]; [by apply reach_begin|]. cbn [toy_after].
  destruct (step toy_env (toy_after n)) as [[ran m|]|] eqn:E1; [|done..]. by eapply reach_step.
Qed.

Lemma scheduler_timely_witness :
  exists ran m', step toy_env (toy_after 9) = Some (Step ran m') /\
    forall e, ran = Some e -> toy_due (schedule_time (st (toy_after 9))) e.
Proof.
  apply (scheduler_timely toy_env toy_due toy_lists 0%nat (toy_after 9));
    [apply toy_env_ok|apply toy_good|apply toy_reach|vm_compute; discriminate].
Defined.

(** The clock moves only when the main loop finds no event left in the present time
    step, by the delay of the next one; once [schedule_finish] was called it does not move
    again, while what is left of the present time step still runs. *)
Theorem scheduler_clock {T : objects} {World} (env : environment T World) m ran m' :
  step env m = Some (Step ran m') ->
  (schedule_time (st m') <> schedule_time (st m) ->
   ctl m = AtMain /\ schedule_runnable (st m) = true /\ ran = None /\
   exists c r, sched_list (st m) = c :: r /\ 0 < delay c /\
     schedule_time (st m') = (schedule_time (st m) + delay c) mod wordsize) /\
  (forall c r e es, ctl m = AtSelect -> sched_list (st m) = c :: r -> agenda c = e :: es -> ran = Some e).
Proof.
  intros Hm. split; [by apply (step_time env)|]. intros c r e es Hk El Ea. destruct m as [k rf s w]. cbn in Hk, El. subst k.
  destruct c as [d st a i n rw ro dt]. cbn [step] in Hm. rewrite El in Hm. unfold agenda in Ea. cbn in Ea, Hm.
  destruct a as [|e' a]; [destruct i as [|e' i]; [destruct n as [|e' n]; [destruct rw as [|e' rw]|]|]|];
    cbn in Ea, Hm; try done; injection Ea as -> _; by apply run_at_time in Hm as [_ Hm].
Qed.

Definition finished_step : machine (Q := list (event toy)) (World := nat) :=
  mkMachine AtSelect true (with_runnable false (with_list [full_step] toy_lists)) 0%nat.

Definition after_finished_step : machine (Q := list (event toy)) (World := nat) :=
  match step toy_env finished_step with Some (Step _ m) => m | _ => finished_step end.

Lemma scheduler_clock_witness :
  (schedule_time (st after_finished_step) <> schedule_time (st finished_step) ->
   ctl finished_step = AtMain /\ schedule_runnable (st finished_step) = true /\ Some (thread_event 3) = None /\
   exists c r, sched_list (st finished_step) = c :: r /\ 0 < delay c /\
     schedule_time (st after_finished_step) = (schedule_time (st finished_step) + delay c) mod wordsize) /\
  (forall c r e es, ctl finished_step = AtSelect -> sched_list (st finished_step) = c :: r ->
     agenda c = e :: es -> Some (thread_event 3) = Some e).
Proof. apply (scheduler_clock toy_env finished_step (Some (thread_event 3)) after_finished_step). reflexivity. Defined.

(** C28: a simulation ends whose environment makes only so many requests in all, as [budget]
    bounds them in each of its states (none, for one that never asks): [schedule_simulate]
    returns within a number of steps that is linear in the pending events, the time steps and
    the requests.  As in [env_ok], the environment asks only for events at times they may run
    at, and those fit their nets. *)
Theorem scheduler_terminates {T : objects} {World} (env : environment T World) (P : Z -> event T -> Prop) (budget : World -> nat) s w :
  env_ok env P -> good P (with_time 0 (with_started false s)) ->
  (forall c v w, (length (react env c v w).1 + budget (react env c v w).2 <= budget w)%nat) ->
  exists tr m, schedule_simulate env (sched_work s + 9 * budget w + 7) s w = Some (tr, m) /\ ctl m = AtEnd.
Proof.
  intros He Hg Hq.
  assert (HR : forall n m, inv P m -> (load budget m <= n)%nat -> exists tr m', run env n m = Some (tr, m') /\ ctl m' = AtEnd).
  { intros n. induction n as [|n IH]; intros m Hm Hw; destruct (decide (ctl m = AtEnd)) as [Hk|Hk].
    - exists [], m. split; done.
    - unfold load, work in Hw. by destruct (ctl m); cbn in Hw; try lia.
    - exists [], m. split; [|done]. destruct m as [k rf s' w']. cbn in Hk. by subst.
    - destruct (step_inv env P He m Hm Hk) as (ran & m1 & E1 & Hm1 & _).
      pose proof (step_load env budget Hq m ran m1 E1) as HW.
      destruct (IH m1 Hm1) as (tr & m2 & E2 & Hk2).
      { enough (load budget m1 < load budget m)%nat by lia. apply HW. intros Hk'. pose proof (inv_present _ _ Hm) as Hp.
        rewrite Hk' in Hp. specialize (Hp eq_refl). unfold present in Hp. by destruct (sched_list (st m)). }
      eexists _, m2. cbn [run]. rewrite E1. cbn [mbind option_bind]. rewrite E2. by split. }
  destruct (begin_inv env P He s w Hg) as (m & E1 & Hm). unfold schedule_simulate. rewrite E1. cbn [mbind option_bind].
  apply HR; [done|]. unfold begin in E1. set (s1 := with_time 0 (with_started false s)) in E1.
  destruct (perform env vpiEndOfCompile (s1, w)) as [[s2 w2]|] eqn:HP; [|done]. cbn [mbind option_bind] in E1. injection E1 as <-.
  apply (perform_work env budget Hq) in HP. unfold load, work. cbn [ctl st world weight]. change (sched_work s1) with (sched_work s) in HP. lia.
Qed.

Definition two_events : sched (list (event toy)) :=
  with_list [mkTime 0 [] [thread_event 0] [] [] [] [] []; mkTime 5 [] [] [] [thread_event 5] [] [] []] toy_lists.

(** An environment in which each thread that runs asks to run again three ticks later, a
    number of times in all. *)
Definition spending_env : environment toy nat :=
  mkEnv (fun _ _ => vec4_fill 8 BIT4_0)
    (fun c _ w => match c, w with vthread_run thr, S w => ([Vthread (T := toy) thr 3 false], w) | _, _ => ([], w) end).
Definition any_thread (t : Z) (e : event toy) : Prop := match e with vthread_event_s _ => True | _ => False end.

Lemma spending_env_ok : env_ok spending_env any_thread.
Proof.
  assert (HN : forall t (c : call toy) w, match c with vthread_run _ => False | _ => True end -> call_ok spending_env any_thread t c w)
    by (intros t [] w Hc v Hv; try done; destruct w; constructor).
  split; [intros; by apply HN..|intros; split_and!; by apply HN|by intros t [] w He|].
  intros t [] w cs He; try done. intros [= <-]. constructor; [|constructor]. intros v Hv. destruct w as [|w]; cbn; [constructor|].
  constructor; [|constructor]. split_and!; [intros e d q [= <- <- <-]; split; [done|exact I]|done|done].
Qed.

Lemma two_events_good : good any_thread (with_time 0 (with_started false two_events)).
Proof.
  split; try done.
  - cbn. split; [done|]. constructor; [done|constructor].
  - intros off q e. cbn [events_at with_list with_time with_started sched_list two_events delay].
    destruct (off <? 0) eqn:E0; [intros Hin; by apply not_elem_of_nil in Hin|].
    destruct (Z.eqb_spec off 0) as [->|].
    + destruct q; cbn; intros Hin; try (by apply not_elem_of_nil in Hin).
      apply list_elem_of_singleton in Hin as ->. exact I.
    + destruct (off - 0 <? 5); [intros Hin; by apply not_elem_of_nil in Hin|].
      destruct (Z.eqb_spec (off - 0) 5) as [E5|]; [|intros Hin; by apply not_elem_of_nil in Hin].
      replace off with 5 by lia. destruct q; cbn; intros Hin; try (by apply not_elem_of_nil in Hin).
      apply list_elem_of_singleton in Hin as ->. exact I.
Qed.

Lemma scheduler_terminates_witness :
  exists tr m, schedule_simulate spending_env (sched_work two_events + 9 * 4 + 7) two_events 4%nat = Some (tr, m) /\ ctl m = AtEnd.
Proof.
  apply (scheduler_terminates spending_env any_thread (fun w => w) two_events 4%nat);
    [apply spending_env_ok|apply two_events_good|intros [] v [|w]; cbn; lia].
Defined.

(** An event put in the start list of the present time step (a [cbAtStartOfSimTime]
    callback asked for the current time) never runs: once the other lists are empty the
    time step is dropped with its start list, and no call is made. *)
Theorem start_events_dropped {T : objects} {World} (env : environment T World) rf s w c r :
  sched_list s = c :: r -> delay c = 0 -> schedule_stopped_flag s = false ->
  agenda c = [] -> rosync c = [] -> del_thr c = [] ->
  run env 4 (mkMachine AtMain rf s w) = Some ([], mkMachine AtMain rf (with_list r (with_rosync false s)) w).
Proof.
  intros El Hd Hf Ha Ho Ht. destruct c as [d st a i n rw ro dt], s as [l il fl b1 b2 b3 b4 b5 t].
  unfold agenda in Ha. cbn in El, Hd, Hf, Ha, Ho, Ht. subst.
  apply app_nil in Ha as [-> Ha]. apply app_nil in Ha as [-> Ha]. by apply app_nil in Ha as [-> ->].
Qed.

Definition lost_start : sched (list (event toy)) :=
  with_list [mkTime 0 [thread_event 0] [] [] [] [] [] []] toy_lists.

Lemma start_events_dropped_witness :
  run toy_env 4 (mkMachine AtMain true lost_start 0%nat) =
  Some ([], mkMachine AtMain true (with_list [] (with_rosync false lost_start)) 0%nat).
Proof.
  by apply (start_events_dropped toy_env true lost_start 0%nat (mkTime 0 [thread_event 0] [] [] [] [] [] []) []).
Defined.

(** * Force events: an instance of [force_event] *)

Definition force_value : vvp_vector4_t := mkVec4 4 [9] [0].
Definition force_signal : vvp_vector4_t := mkVec4 8 [255] [0].

Lemma force_event_witness :
  if (6 + 4 <=? 8)%nat then
    exists tmp mask, force_call (T := toy) 0%nat force_signal force_value 6 8 = Some (force_vec4 (T := toy) 0%nat tmp mask) /\
      bitwise 8 (fun i => if (6 <=? i)%nat && (i <? 6 + 4)%nat
                          then value force_value (i - 6) else value force_signal i) tmp /\
      wid mask = 8%nat /\ uZ mask = (2 ^ Z.of_nat 4 - 1) * 2 ^ Z.of_nat 6
  else force_call (T := toy) 0%nat force_signal force_value 6 8 = None.
Proof.
  apply (force_event (T := toy) 0%nat force_signal force_value 6 8);
    [split; [reflexivity|reflexivity|repeat constructor; discriminate || reflexivity..]|reflexivity
    |split; [reflexivity|reflexivity|repeat constructor; discriminate || reflexivity..]|unfold force_value; cbn; lia].
Defined.
