(* ===== verification/VvpFunctor.v ===== *)
(** The arithmetic functors of the runtime ([vvp/arith.h], [vvp/arith.cc]): the nodes of a
    compiled design that compute [+], [-], [*], [/], [%], [**], the comparisons and the
    shifts of continuous assignments.  A functor keeps its last operands; a value arriving
    at a port replaces the operand and the functor sends its output again.

    Each output function is written on the state after the operand is in place; [None] is
    a failed [assert].  The functors of real values and those that produce them are not
    modelled. *)
From S2P Require Import Prelude MachineWord VvpBit VvpVector4 VvpSlice VvpArith VvpVector2 VvpCompare.

(** * State *)

Record vvp_arith_ := mkArith {
  wid_ : nat; op_a_ : vvp_vector4_t; op_b_ : vvp_vector4_t; x_val_ : vvp_vector4_t }.

(** [for (idx = 0; idx < n; idx += 1) v.set_bit(p + idx, f(idx))]. *)
Definition set_bits (n p : nat) (f : nat -> vvp_bit4_t) (v : vvp_vector4_t) : option vvp_vector4_t :=
  for_upto n (fun idx t => t ← t; set_bit t (p + idx) (f idx)) (Some v).

(** [vvp_arith_(wid)]. *)
Definition arith_new (wid : nat) : option vvp_arith_ :=
  let v := vec4_fill wid BIT4_X in
  a ← set_bits wid 0 (fun _ => BIT4_Z) v;
  b ← set_bits wid 0 (fun _ => BIT4_Z) v;
  x ← set_bits wid 0 (fun _ => BIT4_X) v;
  Some (mkArith wid a b x).

Definition dispatch_operand_ (port : nat) (bit : vvp_vector4_t) (st : vvp_arith_) : option vvp_arith_ :=
  match port with
  | 0%nat => Some (mkArith (wid_ st) bit (op_b_ st) (x_val_ st))
  | 1%nat => Some (mkArith (wid_ st) (op_a_ st) bit (x_val_ st))
  | _ => None
  end.

(** * Addition and subtraction *)

(** The loop of [vvp_arith_sum] and [vvp_arith_sub]; an inner [None] is the return with
    [x_val_]. *)
Fixpoint sum_loop (cnt idx : nat) (a b : nat -> vvp_bit4_t) (carry : vvp_bit4_t) (v : vvp_vector4_t)
    : option (option vvp_vector4_t) :=
  match cnt with
  | O => Some (Some v)
  | S c =>
      '(cur, carry) ← bit4_add_with_carry (a idx) (b idx) carry;
      if bit4_eqb cur BIT4_X then Some None
      else v ← set_bit v idx cur; sum_loop c (idx + 1) a b carry v
  end.

Definition vvp_arith_sum (st : vvp_arith_) : option vvp_vector4_t :=
  let pad := BIT4_0 in
  r ← sum_loop (wid_ st) 0
        (fun idx => if (size (op_a_ st) <=? idx)%nat then pad else value (op_a_ st) idx)
        (fun idx => if (size (op_b_ st) <=? idx)%nat then pad else value (op_b_ st) idx)
        BIT4_0 (vec4_fill (wid_ st) BIT4_X);
  Some (match r with Some v => v | None => x_val_ st end).

Definition vvp_arith_sub (st : vvp_arith_) : option vvp_vector4_t :=
  let pad := BIT4_1 in
  r ← sum_loop (wid_ st) 0
        (fun idx => if (size (op_a_ st) <=? idx)%nat then pad else value (op_a_ st) idx)
        (fun idx => if (size (op_b_ st) <=? idx)%nat then pad else bit4_not (value (op_b_ st) idx))
        BIT4_1 (vec4_fill (wid_ st) BIT4_X);
  Some (match r with Some v => v | None => x_val_ st end).

(** * Multiplication, division, power *)

(** The vector of the low bits of a word: [if (val & 1) ... val >>= 1]. *)
Definition word_bits (wid : nat) (val : Z) : option vvp_vector4_t :=
  set_bits wid 0 (fun idx => if Z.testbit val (Z.of_nat idx) then BIT4_1 else BIT4_0) (vec4_fill wid BIT4_X).

(** [vvp_arith_mult::wide_]. *)
Definition mult_wide (st : vvp_arith_) : option vvp_vector4_t :=
  let a2 := vec2_of_vec4 (op_a_ st) true in
  let b2 := vec2_of_vec4 (op_b_ st) true in
  if is_NaN a2 || is_NaN b2 then Some (x_val_ st)
  else result ← vec2_mul a2 b2; vector2_to_vector4 result (wid_ st).

Definition vvp_arith_mult (st : vvp_arith_) : option vvp_vector4_t :=
  if (W <? wid_ st)%nat then mult_wide st else
  match vector4_to_value W (op_a_ st) false true, vector4_to_value W (op_b_ st) false true with
  | (true, Some a), (true, Some b) => word_bits (wid_ st) (wmul a b)
  | _, _ => Some (x_val_ st)
  end.

(** The sign taken out of a two-valued operand and out of a word: the magnitude and
    whether it was negative. *)
Definition take_sign2 (signed_flag : bool) (v : vvp_vector2_t) : option (vvp_vector2_t * bool) :=
  if signed_flag && negb (vec2_value v (wid v - 1) =? 0)
  then v ← vec2_neg v; Some (v, true) else Some (v, false).

Definition take_sign (signed_flag : bool) (op : vvp_vector4_t) (a : Z) : Z * bool :=
  if signed_flag && negb (bit4_num (value op (size op - 1)) =? 0) then
    let sign_mask := if (size op =? W)%nat then 0 else wshl wones (size op) in
    (Z.land (wsub 0 a) (wnot sign_mask), true)
  else (a, false).

(** [vvp_arith_div::wide4_]. *)
Definition div_wide (signed_flag : bool) (st : vvp_arith_) : option vvp_vector4_t :=
  let a2 := vec2_of_vec4 (op_a_ st) true in
  if is_NaN a2 then Some (x_val_ st) else
  let b2 := vec2_of_vec4 (op_b_ st) true in
  if is_NaN b2 || vec2_is_zero b2 then Some (x_val_ st) else
  '(a2, na) ← take_sign2 signed_flag a2;
  '(b2, nb) ← take_sign2 signed_flag b2;
  res ← vec2_div a2 b2;
  res ← (if xorb na nb then vec2_neg res else Some res);
  vector2_to_vector4 res (wid_ st).

Definition vvp_arith_div (signed_flag : bool) (st : vvp_arith_) : option vvp_vector4_t :=
  if (W <? wid_ st)%nat then div_wide signed_flag st else
  match vector4_to_ulong (op_a_ st), vector4_to_ulong (op_b_ st) with
  | (true, _, Some a), (true, _, Some b) =>
      let '(a, na) := take_sign signed_flag (op_a_ st) a in
      let '(b, nb) := take_sign signed_flag (op_b_ st) b in
      if b =? 0 then set_bits (wid_ st) 0 (fun _ => BIT4_X) (vec4_fill (wid_ st) BIT4_X)
      else
        let val := a / b in
        word_bits (wid_ st) (if xorb na nb then wsub 0 val else val)
  | _, _ => Some (x_val_ st)
  end.

(** [vvp_arith_mod::wide_]: the sign is that of the left operand, the width that of the
    remainder. *)
Definition mod_wide (signed_flag : bool) (st : vvp_arith_) : option vvp_vector4_t :=
  let a2 := vec2_of_vec4 (op_a_ st) true in
  if is_NaN a2 then Some (x_val_ st) else
  let b2 := vec2_of_vec4 (op_b_ st) true in
  if is_NaN b2 || vec2_is_zero b2 then Some (x_val_ st) else
  '(a2, na) ← take_sign2 signed_flag a2;
  '(b2, nb) ← take_sign2 signed_flag b2;
  res ← vec2_mod a2 b2;
  res ← (if (na : bool) then vec2_neg res else Some res);
  vector2_to_vector4 res (wid res).

Definition vvp_arith_mod (signed_flag : bool) (st : vvp_arith_) : option vvp_vector4_t :=
  if (W <? wid_ st)%nat then mod_wide signed_flag st else
  match vector4_to_ulong (op_a_ st), vector4_to_ulong (op_b_ st) with
  | (true, _, Some a), (true, _, Some b) =>
      let '(a, na) := take_sign signed_flag (op_a_ st) a in
      let '(b, _) := take_sign signed_flag (op_b_ st) b in
      if b =? 0 then set_bits (wid_ st) 0 (fun _ => BIT4_X) (vec4_fill (wid_ st) BIT4_X)
      else
        let val := a mod b in
        word_bits (wid_ st) (if na then wsub 0 val else val)
  | _, _ => Some (x_val_ st)
  end.

(** [vvp_vector4_t(wid, r_val)] for the real values 0.0, 1.0 and -1.0: the exponent is
    small, so the word is [lround] of the value over a vector of 0 or, for a negative
    value, of 1. *)
Definition vec4_of_unit (wid : nat) (r_val : Z) : vvp_vector4_t :=
  let v := allocate_words_ wid 0 0 in
  let v := if r_val <? 0 then invert v else v in
  mkVec4 wid (<[0%nat := wrap r_val]> (abits v)) (bbits v).

Definition vvp_arith_pow (signed_flag : bool) (st : vvp_arith_) : option vvp_vector4_t :=
  let a2 := vec2_of_vec4 (op_a_ st) true in
  let b2 := vec2_of_vec4 (op_b_ st) true in
  if is_NaN a2 || is_NaN b2 then Some (x_val_ st)
  else if signed_flag && negb (vec2_value b2 (wid b2 - 1) =? 0) then
    let '(fits, a_val) := vector2_to_value a2 true in
    if fits then
      if a_val =? 0 then Some (x_val_ st)
      else
        let r_val := if a_val =? 1 then 1
                     else if a_val =? 2 ^ 32 - 1 then (if negb (vec2_value b2 0 =? 0) then -1 else 1)
                     else 0 in
        Some (vec4_of_unit (wid_ st) r_val)
    else Some (vec4_of_unit (wid_ st) 0)
  else p ← vec2_pow a2 b2; vector2_to_vector4 p (wid_ st).

(** * Absolute value and cast *)

Definition vvp_arith_abs (bit : vvp_vector4_t) : option vvp_vector4_t :=
  let out := vec4_fill (size bit) BIT4_0 in
  cmp ← compare_gtge_signed bit out BIT4_1;
  match cmp with
  | BIT4_1 => Some bit
  | BIT4_0 => add_int (vec4_not bit) 1
  | _ => Some (vec4_fill (size bit) BIT4_X)
  end.

Definition vvp_arith_cast_vec2 (wid : nat) (bit : vvp_vector4_t) : option vvp_vector4_t :=
  vector2_to_vector4 (vec2_of_vec4 bit false) wid.

(** * Comparison *)

(** What a comparison does at one bit position: nothing, set the result to X, or set it to
    the result for different operands and leave the loop. *)
Inductive verdict := Skip | MarkX | Differ.

Definition eeq_bit (a b : vvp_bit4_t) : verdict := if bit4_eqb a b then Skip else Differ.
Definition eq_bit (a b : vvp_bit4_t) : verdict :=
  if bit4_eqb a BIT4_X then MarkX else if bit4_eqb a BIT4_Z then MarkX
  else if bit4_eqb b BIT4_X then MarkX else if bit4_eqb b BIT4_Z then MarkX
  else if bit4_eqb a b then Skip else Differ.
Definition eqx_bit (a b : vvp_bit4_t) : verdict :=
  if bit4_eqb b BIT4_X then Skip else if bit4_eqb b BIT4_Z then Skip
  else if bit4_eqb a b then Skip else Differ.
Definition eqz_bit (a b : vvp_bit4_t) : verdict :=
  if bit4_eqb b BIT4_Z then Skip else if bit4_eqb a b then Skip else Differ.
Definition weq_bit (a b : vvp_bit4_t) : verdict :=
  if bit4_eqb b BIT4_X then Skip else if bit4_eqb b BIT4_Z then Skip
  else if bit4_eqb a BIT4_X then MarkX else if bit4_eqb a BIT4_Z then MarkX
  else if bit4_eqb a b then Skip else Differ.

(** The loop over the bits, [res] the one bit of the result. *)
Fixpoint cmp_bits (f : vvp_bit4_t -> vvp_bit4_t -> verdict) (differ : vvp_bit4_t) (cnt idx : nat)
    (a b : vvp_vector4_t) (res : vvp_bit4_t) : vvp_bit4_t :=
  match cnt with
  | O => res
  | S c =>
      match f (value a idx) (value b idx) with
      | Skip => cmp_bits f differ c (idx + 1) a b res
      | MarkX => cmp_bits f differ c (idx + 1) a b BIT4_X
      | Differ => differ
      end
  end.

(** A vector of one bit. *)
Definition one_bit (b : vvp_bit4_t) : option vvp_vector4_t := set_bit (vec4_fill 1 BIT4_X) 0 b.

Definition cmp_output (f : vvp_bit4_t -> vvp_bit4_t -> verdict) (same differ : vvp_bit4_t) (st : vvp_arith_)
    : option vvp_vector4_t :=
  if (size (op_a_ st) =? size (op_b_ st))%nat
  then one_bit (cmp_bits f differ (size (op_a_ st)) 0 (op_a_ st) (op_b_ st) same)
  else None.

Definition vvp_cmp_eeq := cmp_output eeq_bit BIT4_1 BIT4_0.
Definition vvp_cmp_nee := cmp_output eeq_bit BIT4_0 BIT4_1.
Definition vvp_cmp_eq := cmp_output eq_bit BIT4_1 BIT4_0.
Definition vvp_cmp_ne := cmp_output eq_bit BIT4_0 BIT4_1.
Definition vvp_cmp_eqx := cmp_output eqx_bit BIT4_1 BIT4_0.
Definition vvp_cmp_eqz := cmp_output eqz_bit BIT4_1 BIT4_0.
Definition vvp_cmp_weq := cmp_output weq_bit BIT4_1 BIT4_0.
Definition vvp_cmp_wne := cmp_output weq_bit BIT4_0 BIT4_1.

(** [vvp_cmp_gtge_base_::recv_vec4_base_], for [vvp_cmp_ge] and [vvp_cmp_gt]. *)
Definition cmp_gtge (signed_flag : bool) (out_if_equal : vvp_bit4_t) (st : vvp_arith_) : option vvp_vector4_t :=
  out ← (if signed_flag then compare_gtge_signed (op_a_ st) (op_b_ st) out_if_equal
         else Some (compare_gtge (op_a_ st) (op_b_ st) out_if_equal));
  one_bit out.
Definition vvp_cmp_ge (signed_flag : bool) := cmp_gtge signed_flag BIT4_1.
Definition vvp_cmp_gt (signed_flag : bool) := cmp_gtge signed_flag BIT4_0.

(** * Shifts *)

(** The shift distance, cut to the size of the output; [None] with an unknown bit. *)
Definition shift_distance (b : vvp_vector4_t) (n : nat) : option nat :=
  match vector4_to_ulong b with
  | (true, overflow_flag, Some shift) =>
      Some (if overflow_flag || (Z.of_nat n <? shift) then n else Z.to_nat shift)
  | _ => None
  end.

Definition vvp_shiftl (st : vvp_arith_) : option vvp_vector4_t :=
  let a := op_a_ st in
  let out := vec4_fill (size a) BIT4_X in
  match shift_distance (op_b_ st) (size out) with
  | None => Some (x_val_ st)
  | Some shift =>
      out ← set_bits shift 0 (fun _ => BIT4_0) out;
      set_bits (size a - shift) shift (fun k => value a k) out
  end.

Definition vvp_shiftr (signed_flag : bool) (st : vvp_arith_) : option vvp_vector4_t :=
  let a := op_a_ st in
  let out := vec4_fill (size a) BIT4_X in
  match shift_distance (op_b_ st) (size out) with
  | None => Some (x_val_ st)
  | Some shift =>
      out ← set_bits (size a - shift) 0 (fun k => value a (shift + k)) out;
      let pad := if signed_flag && (0 <? size a)%nat then value a (size a - 1) else BIT4_0 in
      set_bits shift (size out - shift) (fun _ => pad) out
  end.

(** * Receiving operands *)

(** The two-operand functors. *)
Inductive functor :=
| Sum | Sub | Mult | Div (signed_flag : bool) | Mod (signed_flag : bool) | Pow (signed_flag : bool)
| Eeq | Nee | Eq | Ne | Eqx | Eqz | Weq | Wne | Ge (signed_flag : bool) | Gt (signed_flag : bool)
| Shiftl | Shiftr (signed_flag : bool).

(** The output a functor sends, by its class. *)
Definition output (f : functor) : vvp_arith_ -> option vvp_vector4_t :=
  match f with
  | Sum => vvp_arith_sum | Sub => vvp_arith_sub | Mult => vvp_arith_mult
  | Div sf => vvp_arith_div sf | Mod sf => vvp_arith_mod sf | Pow sf => vvp_arith_pow sf
  | Eeq => vvp_cmp_eeq | Nee => vvp_cmp_nee | Eq => vvp_cmp_eq | Ne => vvp_cmp_ne
  | Eqx => vvp_cmp_eqx | Eqz => vvp_cmp_eqz | Weq => vvp_cmp_weq | Wne => vvp_cmp_wne
  | Ge sf => vvp_cmp_ge sf | Gt sf => vvp_cmp_gt sf
  | Shiftl => vvp_shiftl | Shiftr sf => vvp_shiftr sf
  end.

(** [recv_vec4]: the new state and the vector sent. *)
Definition recv_vec4 (f : functor) (port : nat) (bit : vvp_vector4_t) (st : vvp_arith_)
    : option (vvp_arith_ * vvp_vector4_t) :=
  st ← dispatch_operand_ port bit st;
  out ← output f st;
  Some (st, out).

(** [recv_vec4_pv_]: a part of an operand arrives, the bits around it are undriven. *)
Definition recv_vec4_pv (f : functor) (port : nat) (bit : vvp_vector4_t) (base wid vwid : nat)
    (st : vvp_arith_) : option (vvp_arith_ * vvp_vector4_t) :=
  if (size bit =? wid)%nat && (base + wid <=? vwid)%nat then
    '(tmp, _) ← set_vec (vec4_fill vwid BIT4_Z) base bit;
    recv_vec4 f port tmp st
  else None.
