(* ===== verification/BitList.v ===== *)
(** Four-valued bit lists: what a vector of the runtime stands for, and the operators of
    Verilog on them as the language defines them.  The functors of continuous assignments
    and the instructions of procedural code are both stated against these operators.

    A list has the least significant bit first. *)
From S2P Require Import Prelude MachineWord VvpBit VvpVector4 VvpSlice VvpArith VvpCompare.

(** * The bits of a vector *)

Definition bits_of (v : vvp_vector4_t) : list vvp_bit4_t := map (value v) (seq 0 (size v)).

(** [v] is a well-formed vector with the bits [l]. *)
Definition vec_is (v : vvp_vector4_t) (l : list vvp_bit4_t) : Prop := wf4 v /\ bits_of v = l.

Lemma vec_is_bits_of v : wf4 v -> vec_is v (bits_of v).
Proof. by split. Qed.

Lemma length_bits_of v : length (bits_of v) = size v.
Proof. unfold bits_of. by rewrite length_map, length_seq. Qed.

Lemma vec_is_size v l : vec_is v l -> size v = length l.
Proof. intros [_ <-]. by rewrite length_bits_of. Qed.

Lemma vec_is_wf v l : vec_is v l -> wf4 v.
Proof. by intros []. Qed.

Lemma map_seq_ext {A} (f g : nat -> A) n : (forall i, (i < n)%nat -> f i = g i) -> map f (seq 0 n) = map g (seq 0 n).
Proof. intros H. apply map_ext_in. intros i Hi. apply in_seq in Hi. apply H. lia. Qed.

Lemma nth_map_seq {A} (f : nat -> A) n i d : (i < n)%nat -> nth i (map f (seq 0 n)) d = f i.
Proof.
  intros Hi. rewrite nth_indep with (d' := f 0%nat) by (by rewrite length_map, length_seq).
  by rewrite map_nth, seq_nth.
Qed.

Lemma list_as_map {A} (l : list A) d : l = map (fun i => nth i l d) (seq 0 (length l)).
Proof.
  apply (nth_ext _ _ d d); [by rewrite length_map, length_seq|].
  intros i Hi. by rewrite nth_map_seq.
Qed.

Lemma vec_is_value v l i : vec_is v l -> value v i = nth i l BIT4_X.
Proof.
  intros [_ <-]. destruct (Nat.lt_ge_cases i (size v)) as [Hi|Hi].
  - unfold bits_of. by rewrite nth_map_seq.
  - rewrite nth_overflow by (by rewrite length_bits_of). by apply value_overflow.
Qed.

Lemma vec_is_bitwise n g v : bitwise n g v <-> vec_is v (map g (seq 0 n)).
Proof.
  split.
  - intros (Hw & <- & Hb). split; [done|]. by apply map_seq_ext.
  - intros Hv. pose proof (vec_is_size _ _ Hv) as Hs. rewrite length_map, length_seq in Hs.
    split_and!; [apply Hv|done|]. intros i Hi. by rewrite (vec_is_value _ _ _ Hv), nth_map_seq.
Qed.

Lemma vec_is_from v l :
  wf4 v -> size v = length l -> (forall i, (i < length l)%nat -> value v i = nth i l BIT4_X) -> vec_is v l.
Proof.
  intros Hw Hs Hb. rewrite (list_as_map l BIT4_X). apply vec_is_bitwise. by split_and!.
Qed.

(** A vector is determined by its bits. *)
Lemma vec_is_same u v l : vec_is u l -> vec_is v l -> same_bits u v.
Proof.
  intros Hu Hv. split; [by rewrite (vec_is_size _ _ Hu), (vec_is_size _ _ Hv)|].
  intros i _. by rewrite (vec_is_value _ _ _ Hu), (vec_is_value _ _ _ Hv).
Qed.

Lemma vec_is_unique v l l' : vec_is v l -> vec_is v l' -> l = l'.
Proof. by intros [_ <-] [_ <-]. Qed.

Lemma vec_is_fill n b : vec_is (vec4_fill n b) (replicate n b).
Proof.
  destruct (vec4_fill_spec n b) as (Hw & Hs & Hb). apply vec_is_from; [done|by rewrite length_replicate|].
  rewrite length_replicate. intros i Hi. rewrite Hb by lia.
  by rewrite nth_lookup, lookup_replicate_2.
Qed.

(** * Numbers *)

Definition unknown (l : list vvp_bit4_t) : bool := existsb bit4_is_xz l.

(** The unsigned and the two's complement reading. *)
Fixpoint bv_Z (l : list vvp_bit4_t) : Z :=
  match l with [] => 0 | b :: l' => bit1 b + 2 * bv_Z l' end.

Definition msb (l : list vvp_bit4_t) : vvp_bit4_t := nth (length l - 1) l BIT4_X.

Definition bv_S (l : list vvp_bit4_t) : Z :=
  bv_Z l - (if bit4_eqb (msb l) BIT4_1 && negb (length l =? 0)%nat then 2 ^ Z.of_nat (length l) else 0).

Definition bv_num (signed : bool) (l : list vvp_bit4_t) : Z := if signed then bv_S l else bv_Z l.

(** The [n] low bits of an integer. *)
Definition of_Z (n : nat) (x : Z) : list vvp_bit4_t :=
  map (fun i => if Z.testbit x (Z.of_nat i) then BIT4_1 else BIT4_0) (seq 0 n).

Lemma length_of_Z n x : length (of_Z n x) = n.
Proof. unfold of_Z. by rewrite length_map, length_seq. Qed.

Lemma nth_of_Z n x i : (i < n)%nat -> nth i (of_Z n x) BIT4_X = if Z.testbit x (Z.of_nat i) then BIT4_1 else BIT4_0.
Proof. intros Hi. unfold of_Z. by rewrite nth_map_seq. Qed.

Lemma of_Z_mod n x : of_Z n (x mod 2 ^ Z.of_nat n) = of_Z n x.
Proof. apply map_seq_ext. intros i Hi. by rewrite Z.mod_pow2_bits_low by lia. Qed.

Lemma of_Z_eqm n x y : x mod 2 ^ Z.of_nat n = y mod 2 ^ Z.of_nat n -> of_Z n x = of_Z n y.
Proof. intros E. by rewrite <- (of_Z_mod n x), E, of_Z_mod. Qed.

Lemma bv_Z_bit_sum l : bv_Z l = bit_sum (fun i => nth i l BIT4_X) (length l).
Proof.
  induction l as [|b l IH]; [done|]. cbn [length]. change (S (length l)) with (1 + length l)%nat.
  rewrite bit_sum_split. cbn [bit_sum bv_Z nth]. rewrite IH. cbn [Nat.add]. lia.
Qed.

Lemma bv_Z_range l : 0 <= bv_Z l < 2 ^ Z.of_nat (length l).
Proof. rewrite bv_Z_bit_sum. apply bit_sum_bound. Qed.

Lemma unknown_false l : unknown l = false <-> forall i, (i < length l)%nat -> bit4_is_xz (nth i l BIT4_X) = false.
Proof.
  unfold unknown. induction l as [|b l IH]; [simpl; split; [lia|done]|]. cbn [existsb length].
  rewrite orb_false_iff, IH. split.
  - intros [Hb Hl] [|i] Hi; [done|]. apply Hl. lia.
  - intros H. split; [by apply (H 0%nat); lia|]. intros i Hi. apply (H (S i)). lia.
Qed.

Lemma unknown_known v l : vec_is v l -> known v <-> unknown l = false.
Proof.
  intros Hv. unfold known. rewrite unknown_false, (vec_is_size _ _ Hv).
  split; intros H i Hi; [rewrite <- (vec_is_value _ _ _ Hv)|rewrite (vec_is_value _ _ _ Hv)]; auto.
Qed.

Lemma unknown_not_known v l : vec_is v l -> ~ known v <-> unknown l = true.
Proof. intros Hv. rewrite (unknown_known _ _ Hv). by destruct (unknown l). Qed.

Lemma unknown_of_Z n x : unknown (of_Z n x) = false.
Proof.
  apply unknown_false. rewrite length_of_Z. intros i Hi. rewrite nth_of_Z by done.
  by destruct (Z.testbit _ _).
Qed.

Lemma bv_Z_vec v l : vec_is v l -> known v -> bv_Z l = vec_Z v.
Proof.
  intros Hv Hk. rewrite vec_Z_sum, bv_Z_bit_sum, (vec_is_size _ _ Hv) by (done || apply Hv).
  apply bit_sum_ext. intros i _. by rewrite (vec_is_value _ _ _ Hv).
Qed.

Lemma bv_S_vec v l : vec_is v l -> known v -> (0 < size v)%nat -> bv_S l = vec_S v.
Proof.
  intros Hv Hk Hp. unfold bv_S, msb, vec_S. rewrite (bv_Z_vec _ _ Hv Hk), <- (vec_is_size _ _ Hv).
  rewrite <- (vec_is_value _ _ _ Hv). rewrite (proj2 (Nat.eqb_neq _ _)), andb_true_r by lia.
  rewrite vec_Z_sum by (done || apply Hv).
  replace (bit_sum (value v) (size v)) with
    (bit_sum (value v) (size v - 1) + 2 ^ Z.of_nat (size v - 1) * bit1 (value v (size v - 1))).
  2:{ replace (size v) with (S (size v - 1)) at 4 by lia. done. }
  replace (2 ^ Z.of_nat (size v)) with (2 * 2 ^ Z.of_nat (size v - 1)).
  2:{ rewrite <- Z.pow_succ_r by lia. f_equal. lia. }
  unfold bit1. destruct (bit4_eqb _ _); lia.
Qed.

(** The bits of a list without unknown bits are those of its number. *)
Lemma of_Z_bv_Z l : unknown l = false -> of_Z (length l) (bv_Z l) = l.
Proof.
  induction l as [|b l IH]; [done|]. unfold unknown. cbn [existsb]. intros H.
  apply orb_false_iff in H as [Hb Hl].
  unfold of_Z in *. cbn [length seq map]. f_equal.
  - change (Z.of_nat 0) with 0. rewrite Z.bit0_odd. cbn [bv_Z]. rewrite Z.odd_add_mul_2.
    by destruct b.
  - rewrite <- seq_shift, map_map. etransitivity; [|by apply IH]. apply map_seq_ext. intros i Hi.
    rewrite Nat2Z.inj_succ. cbn [bv_Z]. rewrite <- Z.div2_bits by lia.
    replace ((bit1 b + 2 * bv_Z l) / 2) with (bv_Z l); [done|].
    pose proof (bit1_range b).
    assert (bit1 b = 0 \/ bit1 b = 1) as [->| ->] by lia.
    + rewrite Z.add_0_l, Z.mul_comm, Z.div_mul by lia. done.
    + rewrite Z.mul_comm, Z.div_add by lia. done.
Qed.

Lemma bv_Z_of_Z n x : bv_Z (of_Z n x) = x mod 2 ^ Z.of_nat n.
Proof.
  rewrite bv_Z_bit_sum, length_of_Z.
  transitivity (bit_sum (fun i => if Z.testbit x (Z.of_nat i) then BIT4_1 else BIT4_0) n).
  { apply bit_sum_ext. intros i Hi. by rewrite nth_of_Z. }
  induction n as [|n IH]; [by rewrite Z.mod_1_r|]. cbn [bit_sum]. rewrite IH, mod_pow_S.
  unfold bit1. by destruct (Z.testbit _ _).
Qed.

(** A well-formed vector without unknown bits is given by its number. *)
Lemma vec_is_of_Z v n x :
  wf4 v -> known v -> size v = n -> vec_Z v = x mod 2 ^ Z.of_nat n -> vec_is v (of_Z n x).
Proof.
  intros Hw Hk <- HZ. pose proof (vec_is_bits_of v Hw) as Hv. split; [done|].
  rewrite <- of_Z_mod, <- HZ, <- (bv_Z_vec _ _ Hv Hk).
  symmetry. rewrite <- (length_bits_of v). apply of_Z_bv_Z. by apply (unknown_known v).
Qed.

Lemma vec_is_all_x v n : wf4 v -> size v = n -> (forall i, (i < n)%nat -> value v i = BIT4_X) -> vec_is v (replicate n BIT4_X).
Proof.
  intros Hw Hs Hx. apply vec_is_from; [done|by rewrite length_replicate|]. rewrite length_replicate.
  intros i Hi. rewrite Hx by done. by rewrite nth_lookup, lookup_replicate_2.
Qed.

(** * Operators *)

(** An operator whose result is all X unless both operands are known. *)
Definition bv_strict (op : Z -> Z -> Z) (l r : list vvp_bit4_t) : list vvp_bit4_t :=
  if unknown l || unknown r then replicate (length l) BIT4_X else of_Z (length l) (op (bv_Z l) (bv_Z r)).

Definition bv_add := bv_strict Z.add.
Definition bv_sub := bv_strict Z.sub.
Definition bv_mul := bv_strict Z.mul.

Lemma arith_result_strict op v that l r res :
  vec_is v l -> vec_is that r -> arith_result v that (op (vec_Z v) (vec_Z that)) res ->
  vec_is res (bv_strict op l r).
Proof.
  intros Hv Ht (Hw & Hs & HK & HX). unfold bv_strict. rewrite (vec_is_size _ _ Hv) in *.
  destruct (unknown l || unknown r) eqn:Hu.
  - apply vec_is_all_x; [done|done|]. apply HX. rewrite (unknown_known _ _ Hv), (unknown_known _ _ Ht).
    intros [E1 E2]. by rewrite E1, E2 in Hu.
  - apply orb_false_iff in Hu as [Hl Hr].
    assert (Kv : known v) by (by apply (unknown_known v l)).
    assert (Kt : known that) by (by apply (unknown_known that r)).
    destruct HK as [Kr Zr]; [done|]. rewrite (bv_Z_vec v l Hv Kv), (bv_Z_vec that r Ht Kt).
    by apply vec_is_of_Z.
Qed.

(** Division and remainder, unsigned or signed, truncating toward zero. *)
Definition bv_divide (op : Z -> Z -> Z) (signed : bool) (l r : list vvp_bit4_t) : list vvp_bit4_t :=
  if unknown l || unknown r || (bv_Z r =? 0) then replicate (length l) BIT4_X
  else of_Z (length l) (op (bv_num signed l) (bv_num signed r)).

Definition bv_div := bv_divide Z.quot.
Definition bv_mod := bv_divide Z.rem.

(** Bit by bit. *)
Definition bv_map2 (f : vvp_bit4_t -> vvp_bit4_t -> vvp_bit4_t) (l r : list vvp_bit4_t) : list vvp_bit4_t :=
  zip_with f l r.

(** Extension or truncation to a width. *)
Definition bv_pad (signed : bool) (n : nat) (l : list vvp_bit4_t) : list vvp_bit4_t :=
  take n l ++ replicate (n - length l) (if signed then msb l else BIT4_0).

(** The bits [lo .. lo + wid - 1], X outside. *)
Definition bv_part (lo : Z) (wid : nat) (l : list vvp_bit4_t) : list vvp_bit4_t :=
  map (fun i => if (lo + Z.of_nat i <? 0) then BIT4_X else nth (Z.to_nat (lo + Z.of_nat i)) l BIT4_X) (seq 0 wid).

(** Shifts by a known count. *)
Definition bv_shl (k : nat) (l : list vvp_bit4_t) : list vvp_bit4_t :=
  map (fun i => if (i <? k)%nat then BIT4_0 else nth (i - k) l BIT4_X) (seq 0 (length l)).
Definition bv_shr (fill : vvp_bit4_t) (k : nat) (l : list vvp_bit4_t) : list vvp_bit4_t :=
  map (fun i => if (i + k <? length l)%nat then nth (i + k) l BIT4_X else fill) (seq 0 (length l)).

(** Case equality, and equality with X for unknown operands unless two known bits differ. *)
Definition bit_of_bool (b : bool) : vvp_bit4_t := if b then BIT4_1 else BIT4_0.
Definition bv_eeq (l r : list vvp_bit4_t) : vvp_bit4_t := bit_of_bool (bool_decide (l = r)).

Definition bits_differ (a b : vvp_bit4_t) : bool := negb (bit4_is_xz a) && negb (bit4_is_xz b) && negb (bit4_eqb a b).
Definition bv_eq (l r : list vvp_bit4_t) : vvp_bit4_t :=
  if existsb (fun '(a, b) => bits_differ a b) (combine l r) then BIT4_0
  else if unknown l || unknown r then BIT4_X else BIT4_1.

(** [==?]: unknown bits of the right operand match everything. *)
Definition bv_weq (l r : list vvp_bit4_t) : vvp_bit4_t :=
  if existsb (fun '(a, b) => bits_differ a b) (combine l r) then BIT4_0
  else if existsb (fun '(a, b) => bit4_is_xz a && negb (bit4_is_xz b)) (combine l r) then BIT4_X else BIT4_1.

(** Less than, X when a bit is unknown. *)
Definition bv_lt (signed : bool) (l r : list vvp_bit4_t) : vvp_bit4_t :=
  if unknown l || unknown r then BIT4_X else bit_of_bool (bv_num signed l <? bv_num signed r).

(** Reductions. *)
Definition bv_reduce (f : vvp_bit4_t -> vvp_bit4_t -> vvp_bit4_t) (e : vvp_bit4_t) (l : list vvp_bit4_t) : vvp_bit4_t :=
  fold_right f e l.
