(* ===== verification/WordDiv.v ===== *)
(** The division of multi-word numbers in the thread interpreter ([vvp/vthread.cc]):
    [multiply_array_imm], [divide2words] and [divide_bits].

    [divide_bits] is a schoolbook division on words that guesses each word of the quotient
    from the top word of the divisor, subtracts, and adds the divisor back while the
    difference is negative.  Nothing bounds the guess by the true quotient word, so the
    subtraction can lose a carry out of the array: the theorems say when the quotient is
    right, and [ThreadProps.word_division_wrong] exhibits one that is not. *)
From S2P Require Import Prelude MachineWord VvpVector4 WordArith VvpArith VvpVector2.

(** * Definitions *)

(** A loop that ends with a value, run for at most [p] rounds; the fuel is binary because
    the rounds of [divide_bits] can be as many as a word counts. *)
Section Iterate.
Context {A B : Type} (body : A -> A + B).

Fixpoint iterate (p : positive) (s : A) : A + B :=
  match p with
  | xH => body s
  | xO p => match iterate p s with inl s' => iterate p s' | r => r end
  | xI p => match body s with
            | inl s' => match iterate p s' with inl s'' => iterate p s'' | r => r end
            | r => r
            end
  end.
End Iterate.

(** [multiply_array_imm(res, val, words, imm)]. *)
Definition multiply_array_imm (val : list Z) (words : nat) (imm : Z) : list Z :=
  for_upto words (fun mul_idx res =>
    let '(tmp, sum) := multiply_with_carry (word val mul_idx) imm in
    accumulate add_with_carry mul_idx words tmp sum res) (replicate words 0).

(** [ULONG_MAX / b] and [ULONG_MAX % b + 1], adjusted to the quotient and remainder of
    2^64 by [b]. *)
Definition divide_base (b : Z) : Z * Z :=
  let tmp_result := wones / b in
  let remain := wadd (wones mod b) 1 in
  if b <=? remain then (wadd tmp_result 1, wsub remain b) else (tmp_result, remain).

(** The loop of [divide2words]; each round leaves at most three quarters of the dividend,
    so that 256 are enough. *)
Fixpoint divide2words_loop (fuel : nat) (a b high result : Z) : option Z :=
  if 0 <? high then
    match fuel with
    | O => None
    | S f =>
        let '(tmp_result, remain) := divide_base b in
        let result := wadd result (wmul tmp_result high) in
        let '(remain, high) := multiply_with_carry high remain in
        let a := wadd a remain in
        let high := if a <? remain then wadd high 1 else high in
        divide2words_loop f a b high result
    end
  else Some (wadd result (a / b)).

Definition divide2words (a b high : Z) : option Z := divide2words_loop 256 a b high 0.

(** [btop]: the index of the highest word of the divisor that is not zero, 0 when none is. *)
Fixpoint find_btop (btop : nat) (bp : list Z) : nat :=
  match btop with
  | O => O
  | S k => if word bp btop =? 0 then find_btop k bp else btop
  end.

(** One pass of [for (idx = cur_ptr; idx < words; idx += 1)
    ap[idx] = add_with_carry(ap[idx], f(idx - cur_ptr), carry)]. *)
Definition add_at (words cur_ptr : nat) (f : nat -> Z) (carry : Z) (ap : list Z) : list Z * Z :=
  for_upto (words - cur_ptr) (fun i => carry_step add_with_carry (cur_ptr + i) (f i)) (ap, carry).

(** One round of the correction: [cur_res -= 1] and the divisor added back. *)
Definition add_back (words cur_ptr : nat) (bp : list Z) (s : list Z * Z) : (list Z * Z) + (list Z * Z) :=
  let '(ap, cur_res) := s in
  let cur_res := wsub cur_res 1 in
  let '(ap, carry) := add_at words cur_ptr (word bp) 0 ap in
  if carry =? 0 then inl (ap, cur_res) else inr (ap, cur_res).

(** The guess for word [cur_ptr] of the quotient; [None] inside is [continue]. *)
Definition guess (words btop cur_ptr : nat) (ap bp : list Z) : option (option Z) :=
  if word bp btop <=? word ap (cur_ptr + btop) then
    let high := if (cur_ptr + btop + 1 <? words)%nat then word ap (cur_ptr + btop + 1) else 0 in
    r ← divide2words (word ap (cur_ptr + btop)) (word bp btop) high; Some (Some r)
  else if (words <=? cur_ptr + btop + 1)%nat then Some None
  else if word ap (cur_ptr + btop + 1) =? 0 then Some None
  else r ← divide2words (word ap (cur_ptr + btop)) (word bp btop) (word ap (cur_ptr + btop + 1)); Some (Some r).

Definition divide_step (words btop cur_ptr : nat) (bp : list Z) (s : list Z * list Z) : option (list Z * list Z) :=
  let '(ap, result) := s in
  g ← guess words btop cur_ptr ap bp;
  match g with
  | None => Some (ap, result)
  | Some cur_res =>
      let diff := multiply_array_imm bp (words - cur_ptr) cur_res in
      let '(ap, carry) := add_at words cur_ptr (fun i => wnot (word diff i)) 1 ap in
      if Z.land carry 1 =? 0 then
        match iterate (add_back words cur_ptr bp) (2 ^ 64)%positive (ap, cur_res) with
        | inr (ap, cur_res) => Some (ap, <[cur_ptr := cur_res]> result)
        | inl _ => None
        end
      else Some (ap, <[cur_ptr := cur_res]> result)
  end.

(** [for (cur = n; cur > 0; cur -= 1)] with [cur_ptr = cur-1]. *)
Fixpoint divide_loop (words btop n : nat) (bp : list Z) (s : list Z * list Z) : option (list Z * list Z) :=
  match n with
  | O => Some s
  | S cur_ptr => s ← divide_step words btop cur_ptr bp s; divide_loop words btop cur_ptr bp s
  end.

(** [divide_bits(ap, bp, wid)]: the quotient and the remainder left in [ap]; [Some None] is
    the nil pointer of a zero divisor. *)
Definition divide_bits (ap bp : list Z) (wid : nat) : option (option (list Z * list Z)) :=
  let words := words_for wid in
  let btop := find_btop (words - 1) bp in
  if (btop =? 0)%nat && (word bp 0 =? 0) then Some None
  else
    s ← divide_loop words btop (words - btop) bp (ap, replicate words 0);
    Some (Some (snd s, fst s)).

(** * Loops with binary fuel *)

(** A body that keeps [P] and lowers a measure, and ends in [Q], ends in [Q]. *)
Lemma iterate_spec {A B} (body : A -> A + B) (P : A -> Prop) (Q : B -> Prop) (m : A -> Z) :
  (forall s, P s -> 0 <= m s) ->
  (forall s, P s -> match body s with inl s' => P s' /\ m s' < m s | inr r => Q r end) ->
  forall p s, P s -> m s < Z.pos p -> exists r, iterate body p s = inr r /\ Q r.
Proof.
  intros Hm Hb p s Hs Hp.
  assert (H : match iterate body p s with inl s' => P s' /\ m s' + Z.pos p <= m s | inr r => Q r end).
  { clear Hp. revert s Hs. induction p as [p IH|p IH|]; intros s Hs; cbn [iterate].
    - pose proof (Hb s Hs) as H1. destruct (body s) as [s1|r]; [|done]. destruct H1 as [P1 M1].
      pose proof (IH s1 P1) as H2. destruct (iterate body p s1) as [s2|r]; [|done]. destruct H2 as [P2 M2].
      pose proof (IH s2 P2) as H3. destruct (iterate body p s2) as [s3|r]; [|done]. split; [tauto|lia].
    - pose proof (IH s Hs) as H2. destruct (iterate body p s) as [s2|r]; [|done]. destruct H2 as [P2 M2].
      pose proof (IH s2 P2) as H3. destruct (iterate body p s2) as [s3|r]; [|done]. split; [tauto|lia].
    - pose proof (Hb s Hs) as H1. destruct (body s) as [s1|r]; [|done]. split; [tauto|lia]. }
  destruct (iterate body p s) as [s'|r]; [|by exists r]. destruct H as [P' M']. specialize (Hm s' P'). lia.
Qed.

(** * Words of a number *)

Lemma word_wval ws k : words ws -> word ws k = (wval ws / pow64 k) mod wordsize.
Proof.
  intros Hw. destruct (Nat.lt_ge_cases k (length ws)) as [Hk|Hk].
  - rewrite <- (take_drop k ws) at 2. rewrite wval_app, length_take, Nat.min_l by lia.
    pose proof (wval_bound (take k ws) (Forall_take _ _ _ Hw)) as HB. rewrite length_take, Nat.min_l in HB by lia.
    pose proof (pow64_pos k).
    rewrite (Z.mul_comm (pow64 k)), Z.div_add, Z.div_small by lia.
    destruct (drop k ws) as [|w l] eqn:E; [apply (f_equal length) in E; rewrite length_drop in E; simpl in E; lia|].
    assert (Ew : word ws k = w).
    { unfold word. rewrite nth_lookup. rewrite <- (take_drop k ws), lookup_app_r; rewrite length_take, Nat.min_l by lia; [|lia].
      by rewrite Nat.sub_diag, E. }
    rewrite Ew. cbn [wval]. rewrite Z.add_0_l, (Z.mul_comm wordsize), Z.mod_add by (pose proof wordsize_pos; lia).
    symmetry. apply Z.mod_small. assert (words (drop k ws)) by (by apply Forall_drop). rewrite E in *.
    by apply Forall_cons_1 in H0 as [].
  - unfold word. rewrite nth_overflow by done. pose proof (wval_bound ws Hw) as HB.
    rewrite Z.div_small, Z.mod_0_l; [done|pose proof wordsize_pos; lia|].
    split; [lia|]. eapply Z.lt_le_trans; [apply HB|]. replace k with (length ws + (k - length ws))%nat by lia.
    rewrite pow64_add. pose proof (pow64_pos (length ws)). pose proof (pow64_pos (k - length ws)). nia.
Qed.

(** The words of an array from [k] on as a number. *)
Lemma wval_div ws k : words ws -> 0 <= wval ws / pow64 k.
Proof. intros Hw. apply Z.div_pos; [apply wval_bound, Hw|apply pow64_pos]. Qed.

Lemma holds_exact cnt x res : holds cnt x res -> wval res = x mod pow64 cnt.
Proof.
  intros (Hw & Hl & [E]). rewrite <- E. symmetry. apply Z.mod_small. rewrite <- Hl. by apply wval_bound.
Qed.

Lemma multiply_array_imm_spec val n imm :
  words val -> is_word imm -> holds n (imm * wsum (word val) n) (multiply_array_imm val n imm).
Proof.
  intros Hv Hi. unfold multiply_array_imm. rewrite Z.mul_comm.
  assert (H : forall m, holds n (wsum (word val) m * imm)
    (for_upto m (fun mul_idx res =>
       let '(tmp, sum) := multiply_with_carry (word val mul_idx) imm in
       accumulate add_with_carry mul_idx n tmp sum res) (replicate n 0))); [|apply H].
  induction m as [|m IH]; cbn [for_upto wsum].
  - split_and!; [by apply words_replicate, zero_word|by rewrite length_replicate|]. by rewrite wval_replicate_0.
  - set (r := for_upto m _ _) in *.
    pose proof (accumulate_product add_with_carry multiply_with_carry m n (word val m) imm _ r IH
      (word_is_word _ _ Hv) Hi) as H.
    destruct (multiply_with_carry (word val m) imm) as [lo hi].
    replace ((wsum (word val) m + pow64 m * word val m) * imm)
      with (wsum (word val) m * imm + pow64 m * (word val m * imm)) by ring. done.
Qed.

(** * Two words by one *)

Lemma divide_base_spec b : is_word b -> 0 < b ->
  let '(t, r) := divide_base b in
  is_word t /\ 0 <= r < b /\ exists q, wordsize = b * q + r /\ 0 <= q /\ t = wrap q.
Proof.
  intros Hb Hp. unfold divide_base. pose proof (Z.div_mod wones b ltac:(lia)) as E.
  pose proof (Z.mod_pos_bound wones b Hp) as HR. pose proof (Z.div_pos wones b) as HQ.
  specialize (HQ ltac:(unfold wones; pose proof wordsize_pos; lia) Hp).
  assert (HW : wordsize = wones + 1) by (unfold wones; lia).
  assert (Hq : is_word (wones / b)).
  { split; [done|]. apply Z.div_lt_upper_bound; [lia|]. unfold wones in *. destruct Hb. nia. }
  rewrite wadd_small by (destruct Hb; split; lia).
  destruct (Z.leb_spec b (wones mod b + 1)) as [Hle|Hlt].
  - split_and!; [apply wadd_word|..].
    + unfold wsub. rewrite wrap_small by (destruct Hb; split; lia). lia.
    + unfold wsub. rewrite wrap_small by (destruct Hb; split; lia). lia.
    + exists (wones / b + 1). split_and!; [|lia|done].
      unfold wsub. rewrite wrap_small by (destruct Hb; split; lia). rewrite HW. lia.
  - split_and!; [done|lia|lia|]. exists (wones / b). split_and!; [lia|done|by rewrite wrap_small].
Qed.

Lemma wrap_add_l x y : wrap (wrap x + y) = wrap (x + y).
Proof. unfold wrap. apply Z.add_mod_idemp_l. pose proof wordsize_pos. lia. Qed.
Lemma wrap_add_r x y : wrap (x + wrap y) = wrap (x + y).
Proof. unfold wrap. apply Z.add_mod_idemp_r. pose proof wordsize_pos. lia. Qed.
Lemma wrap_mul_l x y : wrap (wrap x * y) = wrap (x * y).
Proof. unfold wrap. apply Z.mul_mod_idemp_l. pose proof wordsize_pos. lia. Qed.

(** A double word keeps its value modulo the array when a carry goes into the high word. *)
Lemma add_low_word a r h : is_word a -> is_word r -> is_word h -> a + r + wordsize * h < wordsize * wordsize ->
  let a' := wadd a r in
  let h' := if a' <? r then wadd h 1 else h in
  is_word a' /\ is_word h' /\ a' + wordsize * h' = a + r + wordsize * h.
Proof.
  intros Ha Hr Hh Hlt. cbv zeta. split; [apply wadd_word|]. unfold is_word in *.
  destruct (Z.lt_ge_cases (a + r) wordsize) as [Hs|Hs].
  - rewrite wadd_small by (unfold is_word; lia). rewrite (proj2 (Z.ltb_ge _ _)) by lia. lia.
  - assert (E : wadd a r = a + r - wordsize).
    { unfold wadd, wrap. symmetry. apply (Z.mod_unique _ _ 1); lia. }
    rewrite E, (proj2 (Z.ltb_lt _ _)) by lia.
    assert (0 <= h + 1 < wordsize) by nia. rewrite wadd_small by done. lia.
Qed.

Lemma divide2words_loop_spec fuel a b high result :
  is_word a -> is_word b -> 0 < b -> is_word high ->
  (a + wordsize * high) * 3 ^ Z.of_nat fuel < wordsize * 4 ^ Z.of_nat fuel ->
  divide2words_loop fuel a b high result = Some (wrap (result + (a + wordsize * high) / b)).
Proof.
  revert a high result. induction fuel as [|f IH]; intros a high result Ha Hb Hp Hh HV.
  - assert (high = 0) as -> by (rewrite !Z.pow_0_r in HV; destruct Ha, Hh; nia).
    cbn [divide2words_loop]. rewrite Z.mul_0_r, Z.add_0_r. done.
  - cbn [divide2words_loop]. destruct (Z.ltb_spec 0 high) as [Hpos|Hn].
    2:{ assert (high = 0) as -> by (destruct Hh; lia). by rewrite Z.mul_0_r, Z.add_0_r. }
    pose proof (divide_base_spec b Hb Hp) as HD. destruct (divide_base b) as [t r].
    destruct HD as (Wt & Rr & q & Eq & Hq & Et).
    assert (Wr : is_word r) by (destruct Hb; split; lia).
    pose proof (multiply_with_carry_spec high r Hh Wr) as HM.
    destruct (multiply_with_carry high r) as [lo hi]. destruct HM as (Wlo & Whi & EM).
    assert (Hlt : a + lo + wordsize * hi < wordsize * wordsize).
    { destruct Ha, Hh. nia. }
    destruct (add_low_word a lo hi Ha Wlo Whi Hlt) as (Wa & Wh & EA).
    set (a' := wadd a lo) in *. set (h' := if a' <? lo then wadd hi 1 else hi) in *.
    (* what is left is at most three quarters *)
    assert (HV' : a' + wordsize * h' = a + high * r) by lia.
    assert (H34 : 4 * (a' + wordsize * h') <= 3 * (a + wordsize * high)).
    { rewrite HV'. assert (2 * r <= wordsize) by (assert (1 <= q) by (destruct Hb; nia); nia).
      destruct Ha, Hh. nia. }
    rewrite IH; try done.
    + f_equal. rewrite HV'. unfold wadd, wmul. rewrite Et, wrap_mul_l.
      rewrite !wrap_add_r, !wrap_add_l. f_equal. rewrite Eq.
      replace (a + (b * q + r) * high) with (a + high * r + q * high * b) by ring.
      rewrite Z.div_add by lia. lia.
    + rewrite Nat2Z.inj_succ, !Z.pow_succ_r in HV by lia.
      assert (0 < 3 ^ Z.of_nat f) by (apply Z.pow_pos_nonneg; lia).
      assert (0 < 4 ^ Z.of_nat f) by (apply Z.pow_pos_nonneg; lia).
      set (X := 3 ^ Z.of_nat f) in *. set (Y := 4 ^ Z.of_nat f) in *. nia.
Qed.

(** [divide2words] terminates and is the quotient of two words by one, cut to a word. *)
Lemma divide2words_spec a b high :
  is_word a -> is_word b -> 0 < b -> is_word high ->
  divide2words a b high = Some (wrap ((a + wordsize * high) / b)).
Proof.
  intros Ha Hb Hp Hh. unfold divide2words. rewrite divide2words_loop_spec; try done.
  assert (HB : a + wordsize * high < wordsize * wordsize) by (destruct Ha, Hh; nia).
  eapply Z.le_lt_trans with (wordsize * wordsize * 3 ^ Z.of_nat 256); [|by vm_compute].
  apply Z.mul_le_mono_nonneg_r; [apply Z.pow_nonneg; lia|lia].
Qed.

(** * The division *)

Lemma find_btop_spec btop bp :
  (find_btop btop bp <= btop)%nat /\
  (forall k, (find_btop btop bp < k <= btop)%nat -> word bp k = 0) /\
  (find_btop btop bp <> 0%nat -> word bp (find_btop btop bp) <> 0).
Proof.
  induction btop as [|k (I1 & I2 & I3)]; [cbn [find_btop]; split_and!; [done|lia|done]|].
  cbn [find_btop]. destruct (Z.eqb_spec (word bp (S k)) 0) as [E|E].
  - split_and!; [lia| |done]. intros j Hj. destruct (Nat.eq_dec j (S k)) as [->|]; [done|]. apply I2. lia.
  - split_and!; [done|lia|done].
Qed.

Lemma add_at_spec n c f carry ap :
  words ap -> length ap = n -> (c <= n)%nat -> (forall k, (k < n - c)%nat -> is_word (f k)) -> 0 <= carry <= 1 ->
  let '(ap', c') := add_at n c f carry ap in
  words ap' /\ length ap' = n /\ (c' = 0 \/ c' = 1) /\
  wval ap' + pow64 n * c' = wval ap + pow64 c * (wsum f (n - c) + carry).
Proof.
  intros Hw Hl Hc Hf Hca. unfold add_at.
  pose proof (chain_spec add_with_carry c f (n - c) ap carry Hw Hf Hca ltac:(lia)) as H.
  destruct (for_upto (n - c) _ (ap, carry)) as [ap' c']. destruct H as (W1 & L1 & C1 & _ & V1).
  replace (c + (n - c))%nat with n in V1 by lia. split_and!; [done|lia|lia|done].
Qed.

Section Divide.
(** A divisor of [n] words with [t] the index of its top word. *)
Context (n t : nat) (bp : list Z).
Context (Hb : words bp) (Hbl : length bp = n) (Ht : (t < n)%nat).
Context (Htop : 0 < word bp t) (Habove : forall k, (t < k < n)%nat -> word bp k = 0).
Context (A0 : Z).

#[local] Abbreviation B := (wval bp).
#[local] Abbreviation b := (word bp t).

(** Before quotient word [c - 1] is computed: what is left is below the divisor shifted by [c] words. *)
Record dividing (c : nat) (s : list Z * list Z) : Prop := {
  dv_words : words (fst s);
  dv_length : length (fst s) = n;
  dv_result : words (snd s);
  dv_result_length : length (snd s) = n;
  dv_zero : forall k, (k < c)%nat -> word (snd s) k = 0;
  dv_sum : A0 = B * wval (snd s) + wval (fst s);
  dv_bound : wval (fst s) < B * pow64 c }.

(** The guess at word [c] is a word and its product with the divisor fits the array. *)
Definition estimate_fits (c : nat) (A : Z) : Prop :=
  A / pow64 (c + t) / b < wordsize /\ (A / pow64 (c + t) / b) * B < pow64 (n - c).

Lemma divisor_sum m : (t < m <= n)%nat -> wsum (word bp) m = B.
Proof.
  intros Hm. rewrite <- wsum_word, Hbl. replace n with (m + (n - m))%nat by lia. rewrite wsum_split.
  rewrite (wsum_ext (fun k => word bp (m + k)%nat) (fun _ => 0)).
  2:{ intros k Hk. apply Habove. lia. }
  rewrite wsum_0. lia.
Qed.

Lemma divisor_top : b * pow64 t <= B < (b + 1) * pow64 t.
Proof.
  rewrite <- (divisor_sum (S t)) by lia. cbn [wsum].
  pose proof (wsum_bound (word bp) t (fun k _ => word_is_word bp k Hb)). lia.
Qed.

Lemma top_is_word : is_word b.
Proof. by apply word_is_word. Qed.

Lemma top_words c ap :
  words ap -> length ap = n -> wval ap < B * pow64 (S c) ->
  wval ap / pow64 (c + t) = word ap (c + t) + wordsize * word ap (c + t + 1).
Proof.
  intros Hw Hl HB. rewrite !word_wval by done.
  pose proof (pow64_pos (c + t)) as HP. pose proof wordsize_pos as HW.
  replace (wval ap / pow64 (c + t + 1)) with (wval ap / pow64 (c + t) / wordsize)
    by (rewrite Z.div_div, Nat.add_1_r, pow64_S, Z.mul_comm by lia; done).
  assert (HV : wval ap / pow64 (c + t) / wordsize < wordsize).
  { pose proof divisor_top as [_ HT]. pose proof top_is_word as [_ Hbw].
    apply Z.div_lt_upper_bound; [lia|]. apply Z.div_lt_upper_bound; [lia|].
    rewrite pow64_add. rewrite pow64_S in HB. pose proof (pow64_pos t). pose proof (pow64_pos c).
    assert (B <= wordsize * pow64 t) by nia.
    assert (B * (wordsize * pow64 c) <= wordsize * pow64 t * (wordsize * pow64 c)) by nia. lia. }
  assert (0 <= wval ap / pow64 (c + t) / wordsize).
  { apply Z.div_pos; [|lia]. apply Z.div_pos; [|lia]. apply wval_bound, Hw. }
  rewrite (Z.mod_small (_ / wordsize)) by lia.
  rewrite (Z.div_mod (wval ap / pow64 (c + t)) wordsize) at 1 by lia. lia.
Qed.

Lemma guess_spec c ap :
  words ap -> length ap = n -> (c + t < n)%nat -> wval ap < B * pow64 (S c) ->
  estimate_fits c (wval ap) ->
  let V := wval ap / pow64 (c + t) in
  if V <? b then guess n t c ap bp = Some None else guess n t c ap bp = Some (Some (V / b)).
Proof.
  intros Hw Hl Hc HB [HE _] V. pose proof (top_words c ap Hw Hl HB) as HV. fold V in HE, HV.
  pose proof (word_is_word ap (c + t) Hw) as W0. pose proof (word_is_word ap (c + t + 1) Hw) as W1.
  pose proof top_is_word as Wb. pose proof wordsize_pos as HW.
  assert (HVb : 0 <= V / b) by (apply Z.div_pos; destruct W0, W1; nia).
  unfold guess. pose proof (divide2words_spec (word ap (c + t)) b (word ap (c + t + 1)) W0 Wb Htop W1) as HD.
  rewrite <- HV, wrap_small in HD by done.
  assert (Habove_n : (n <= c + t + 1)%nat -> word ap (c + t + 1) = 0).
  { intros H. unfold word. apply nth_overflow. lia. }
  destruct (Z.leb_spec b (word ap (c + t))) as [Hle|Hlt].
  - rewrite (proj2 (Z.ltb_ge _ _)) by (destruct W1; nia).
    replace (if (c + t + 1 <? n)%nat then word ap (c + t + 1) else 0) with (word ap (c + t + 1)).
    2:{ case_cmp; [done|]. by apply Habove_n. }
    by rewrite HD.
  - destruct (Nat.leb_spec n (c + t + 1)) as [Hn|Hn].
    + rewrite Habove_n in HV by done. by rewrite (proj2 (Z.ltb_lt _ _)) by lia.
    + destruct (Z.eqb_spec (word ap (c + t + 1)) 0) as [E|E].
      * rewrite E in HV. by rewrite (proj2 (Z.ltb_lt _ _)) by lia.
      * rewrite (proj2 (Z.ltb_ge _ _)) by (destruct W0, W1, Wb; nia). by rewrite HD.
Qed.

(** The difference wrapped around; the rounds of the correction lower the guess until it is
    not negative any more. *)
Lemma add_back_spec c A ap g :
  (c + t < n)%nat -> 0 <= A -> is_word g ->
  words ap -> length ap = n -> A < pow64 c * (g * B) -> wval ap = A - pow64 c * (g * B) + pow64 n ->
  exists ap' g', iterate (add_back n c bp) (2 ^ 64)%positive (ap, g) = inr (ap', g') /\
    words ap' /\ length ap' = n /\ is_word g' /\ wval ap' = A - pow64 c * (g' * B) /\
    wval ap' < B * pow64 c.
Proof.
  intros Hc HA Hg Hw Hl Hneg HV.
  pose proof (pow64_pos c) as Pc. pose proof divisor_top as [HB _]. pose proof (pow64_pos t) as Pt.
  assert (HB0 : 0 < B) by nia.
  destruct (iterate_spec (add_back n c bp)
    (fun s => words (fst s) /\ length (fst s) = n /\ is_word (snd s) /\
       A < pow64 c * (snd s * B) /\ wval (fst s) = A - pow64 c * (snd s * B) + pow64 n)
    (fun s => words (fst s) /\ length (fst s) = n /\ is_word (snd s) /\
       wval (fst s) = A - pow64 c * (snd s * B) /\ wval (fst s) < B * pow64 c)
    (fun s => snd s)) with (p := (2 ^ 64)%positive) (s := (ap, g)) as ([ap' g'] & E & H); cbn [fst snd] in *.
  - intros s (_ & _ & H & _). apply H.
  - intros [ap1 g1] (W1 & L1 & G1 & N1 & V1). cbn [fst snd] in *. unfold add_back.
    assert (Hg1 : 1 <= g1) by (destruct G1; nia).
    assert (Eg : wsub g1 1 = g1 - 1) by (unfold wsub; apply wrap_small; destruct G1; split; lia).
    pose proof (add_at_spec n c (word bp) 0 ap1 W1 L1 ltac:(lia) (fun k _ => word_is_word bp k Hb) ltac:(lia)) as H.
    destruct (add_at n c (word bp) 0 ap1) as [ap2 c2]. destruct H as (W2 & L2 & C2 & V2).
    rewrite divisor_sum, Z.add_0_r in V2 by lia. rewrite Eg.
    assert (G2 : is_word (g1 - 1)) by (destruct G1; split; lia).
    pose proof (wval_bound ap2 W2) as R2. rewrite L2 in R2.
    destruct C2 as [-> | ->]; cbn [Z.eqb fst snd].
    + split_and!; [done|done|done|nia|nia|lia].
    + split_and!; [done|done|done|nia|nia].
  - by split_and!.
  - change (Z.pos (2 ^ 64)) with wordsize. apply Hg.
  - exists ap', g'. by destruct H as (? & ? & ? & ? & ?).
Qed.

Lemma divide_step_spec c s :
  (c + t < n)%nat -> dividing (S c) s -> estimate_fits c (wval (fst s)) ->
  exists s', divide_step n t c bp s = Some s' /\ dividing c s'.
Proof.
  intros Hc [Hw Hl Hr Hrl Hz Hs Hbd] HE. destruct s as [ap res]. cbn [fst snd] in *.
  pose proof (guess_spec c ap Hw Hl Hc Hbd HE) as HG. cbv zeta in HG. destruct HE as [HE1 HE2].
  pose proof (pow64_pos c) as Pc. pose proof (pow64_pos t) as Pt. pose proof divisor_top as [HB _].
  pose proof (wval_bound ap Hw) as RA. rewrite Hl in RA.
  set (V := wval ap / pow64 (c + t)) in *.
  assert (HVA : wval ap < (V + 1) * (pow64 c * pow64 t)).
  { unfold V. rewrite pow64_add. pose proof (Z.mod_pos_bound (wval ap) (pow64 c * pow64 t) ltac:(nia)).
    pose proof (Z.div_mod (wval ap) (pow64 c * pow64 t) ltac:(nia)). nia. }
  unfold divide_step. destruct (Z.ltb_spec V b) as [Hlt|Hge].
  - rewrite HG. cbn [mbind option_bind]. exists (ap, res). split; [done|]. split; cbn [fst snd]; try done.
    + intros k Hk. apply Hz. lia.
    + assert ((V + 1) * (pow64 c * pow64 t) <= b * (pow64 c * pow64 t)) by nia. nia.
  - rewrite HG. cbn [mbind option_bind].
    set (g := V / b) in *.
    assert (Hg : is_word g) by (split; [apply Z.div_pos; lia|done]).
    assert (Hgb : V < (g + 1) * b).
    { unfold g. pose proof (Z.mod_pos_bound V b Htop). pose proof (Z.div_mod V b ltac:(lia)). nia. }
    assert (Hup : wval ap < (g + 1) * B * pow64 c).
    { assert ((V + 1) * (pow64 c * pow64 t) <= (g + 1) * b * (pow64 c * pow64 t)) by nia.
      assert ((g + 1) * b * (pow64 c * pow64 t) <= (g + 1) * B * pow64 c) by (destruct Hg; nia). lia. }
    pose proof (multiply_array_imm_spec bp (n - c) g Hb Hg) as HD.
    pose proof (holds_exact _ _ _ HD) as ED. destruct HD as (WD & LD & _).
    rewrite divisor_sum in ED by lia. rewrite Z.mod_small in ED by (split; [destruct Hg; nia|done]).
    set (diff := multiply_array_imm bp (n - c) g) in *.
    pose proof (add_at_spec n c (fun i => wnot (word diff i)) 1 ap Hw Hl ltac:(lia)
      (fun k _ => wnot_word _ (word_is_word diff k WD)) ltac:(lia)) as HS.
    destruct (add_at n c _ 1 ap) as [ap1 c1]. destruct HS as (W1 & L1 & C1 & V1).
    rewrite wsum_wnot in V1 by lia. rewrite <- LD, wsum_word, ED, LD in V1.
    assert (Epow : pow64 n = pow64 c * pow64 (n - c)) by (rewrite <- pow64_add; f_equal; lia).
    pose proof (wval_bound ap1 W1) as R1. rewrite L1 in R1.
    assert (Hins : forall g', wval (<[c := g']> res) = wval res + pow64 c * g').
    { intros g'. rewrite wval_insert by lia. rewrite (Hz c) by lia. lia. }
    destruct C1 as [-> | ->]; cbn [Z.land Z.eqb].
    + destruct (add_back_spec c (wval ap) ap1 g Hc ltac:(lia) Hg W1 L1) as (ap2 & g2 & E2 & W2 & L2 & G2 & V2 & B2);
        [nia|nia|].
      rewrite E2. exists (ap2, <[c := g2]> res). split; [done|]. split; cbn [fst snd].
      * done.
      * done.
      * by apply words_insert.
      * by rewrite length_insert.
      * intros k Hk. rewrite word_insert by lia. case_cmp; [lia|]. apply Hz. lia.
      * rewrite Hins. lia.
      * done.
    + exists (ap1, <[c := g]> res). split; [done|]. split; cbn [fst snd].
      * done.
      * done.
      * by apply words_insert.
      * by rewrite length_insert.
      * intros k Hk. rewrite word_insert by lia. case_cmp; [lia|]. apply Hz. lia.
      * rewrite Hins. nia.
      * nia.
Qed.

Lemma divide_loop_spec c s :
  (c + t <= n)%nat -> dividing c s ->
  (forall c' A, (c' < c)%nat -> 0 <= A <= A0 -> A < B * pow64 (S c') -> estimate_fits c' A) ->
  exists s', divide_loop n t c bp s = Some s' /\ dividing 0 s'.
Proof.
  revert s. induction c as [|c IH]; intros s Hc Hs HE; [by exists s|]. cbn [divide_loop].
  pose proof divisor_top as [HB _]. pose proof (pow64_pos t).
  destruct (divide_step_spec c s ltac:(lia) Hs) as (s1 & E1 & D1).
  { apply HE; [lia| |apply Hs]. pose proof (dv_sum _ _ Hs). pose proof (wval_bound _ (dv_words _ _ Hs)).
    pose proof (wval_bound _ (dv_result _ _ Hs)). nia. }
  rewrite E1. cbn [mbind option_bind]. apply IH; [lia|done|]. intros c' A Hc'. apply HE. lia.
Qed.

(** A divisor with zeros below its top word. *)
Lemma exact_fits c A : B = b * pow64 t -> (c + t < n)%nat -> 0 <= A < pow64 n -> A < B * pow64 (S c) -> estimate_fits c A.
Proof.
  intros HB Hc HA HAB. unfold estimate_fits. set (V := A / pow64 (c + t)).
  pose proof (pow64_pos (c + t)) as P. pose proof (pow64_pos t). pose proof (pow64_pos c).
  assert (HV : 0 <= V) by (apply Z.div_pos; lia). split.
  - apply Z.div_lt_upper_bound; [done|]. apply Z.div_lt_upper_bound; [done|].
    rewrite HB, pow64_S in HAB. rewrite pow64_add. lia.
  - assert (HG : b * (V / b) <= V) by (apply Z.mul_div_le; done).
    assert (HVb : V < pow64 (n - c - t)).
    { apply Z.div_lt_upper_bound; [done|]. rewrite <- pow64_add. replace (c + t + (n - c - t))%nat with n by lia. lia. }
    assert (Ep : pow64 (n - c) = pow64 (n - c - t) * pow64 t) by (rewrite <- pow64_add; f_equal; lia).
    rewrite HB, Ep. nia.
Qed.

(** A quotient of one word, the dividend below half of the array. *)
Lemma half_fits A : n = S t -> 0 <= A -> 2 * A <= pow64 n -> estimate_fits 0 A.
Proof.
  intros En HA HA2. pose proof divisor_top as [_ HB]. unfold estimate_fits. cbn [Nat.add].
  rewrite Nat.sub_0_r. replace (pow64 n) with (wordsize * pow64 t) in * by (rewrite En, pow64_S; done).
  pose proof (pow64_pos t) as P. set (V := A / pow64 t).
  assert (HVA : V * pow64 t <= A) by (rewrite Z.mul_comm; apply Z.mul_div_le; done).
  assert (HV : 0 <= V) by (apply Z.div_pos; lia).
  assert (HG : b * (V / b) <= V) by (apply Z.mul_div_le; done).
  assert (HG0 : 0 <= V / b) by (apply Z.div_pos; done).
  set (G := V / b) in *. pose proof wordsize_pos.
  assert (2 * V <= wordsize) by nia. split; [nia|].
  destruct (Z.eq_dec G 0) as [->|]; [nia|].
  assert (G * B < G * ((b + 1) * pow64 t)) by nia.
  assert (G * (b + 1) <= wordsize) by nia. nia.
Qed.
End Divide.

(** When the guesses of [divide_bits] fit: the divisor is one word shifted by whole words,
    or it fills its top word and the dividend is at most half of the range. *)
Definition division_fits (n : nat) (ap bp : list Z) : Prop :=
  (exists t, wval bp = word bp t * pow64 t) \/ (2 * wval ap <= pow64 n /\ pow64 (n - 1) <= wval bp).

Lemma find_btop_top n bp :
  words bp -> length bp = n -> (0 < n)%nat -> 0 < wval bp ->
  let t := find_btop (n - 1) bp in
  (t < n)%nat /\ 0 < word bp t /\ (forall k, (t < k < n)%nat -> word bp k = 0).
Proof.
  intros Hw Hl Hn HB t. pose proof (find_btop_spec (n - 1) bp) as (H1 & H2 & H3). fold t in H1, H2, H3.
  assert (Habove : forall k, (t < k < n)%nat -> word bp k = 0) by (intros k Hk; apply H2; lia).
  split_and!; [lia| |done]. pose proof (word_is_word bp t Hw) as [W0 _].
  destruct (Z.eq_dec (word bp t) 0) as [E|E]; [exfalso|lia].
  destruct (Nat.eq_dec t 0%nat) as [Et|Et]; [|by apply H3 in Et].
  rewrite <- wsum_word, Hl, (wsum_ext _ (fun _ => 0)), wsum_0 in HB; [lia|].
  intros k Hk. destruct (Nat.eq_dec k t) as [->|]; [done|]. apply Habove. lia.
Qed.

(** Only the top word can be the one that a divisor of one word holds. *)
Lemma one_word_top n bp t k :
  words bp -> length bp = n -> (t < n)%nat -> 0 < word bp t -> (forall j, (t < j < n)%nat -> word bp j = 0) ->
  wval bp = word bp k * pow64 k -> wval bp = word bp t * pow64 t.
Proof.
  intros Hw Hl Ht Htop Habove E. pose proof (divisor_top n t bp Hw Hl Ht Habove) as [H1 H2].
  pose proof (word_is_word bp k Hw) as [W0 W1]. pose proof (word_is_word bp t Hw) as [T0 T1].
  pose proof (pow64_pos t). pose proof (pow64_pos k). pose proof wordsize_pos.
  destruct (Nat.lt_trichotomy k t) as [Hk|[->|Hk]]; [|done|].
  - exfalso. assert (Ep : pow64 t = pow64 k * (wordsize * pow64 (t - k - 1))).
    { rewrite <- pow64_S, <- pow64_add. f_equal. lia. }
    pose proof (pow64_pos (t - k - 1)).
    assert (pow64 k * wordsize <= pow64 t) by (rewrite Ep; apply Z.mul_le_mono_nonneg_l; nia).
    assert (word bp k * pow64 k < wordsize * pow64 k) by (apply Z.mul_lt_mono_pos_r; lia). nia.
  - exfalso. destruct (Nat.lt_ge_cases k n) as [Hkn|Hkn]; [rewrite (Habove k) in E by lia; nia|].
    unfold word in E. rewrite nth_overflow in E by lia. nia.
Qed.

Lemma divide_bits_spec ap bp wid :
  (0 < wid)%nat -> words ap -> words bp -> length ap = words_for wid -> length bp = words_for wid ->
  (wval bp = 0 -> divide_bits ap bp wid = Some None) /\
  (0 < wval bp -> division_fits (words_for wid) ap bp ->
   exists q r, divide_bits ap bp wid = Some (Some (q, r)) /\
     words q /\ length q = words_for wid /\ wval q = wval ap / wval bp /\
     words r /\ length r = words_for wid /\ wval r = wval ap mod wval bp).
Proof.
  intros Hwid Ha Hb La Lb. set (n := words_for wid) in *.
  assert (Hn : (0 < n)%nat) by (by apply words_for_pos).
  unfold divide_bits. fold n. set (t := find_btop (n - 1) bp). split.
  - intros HB. assert (Hz : forall k, word bp k = 0).
    { intros k. rewrite word_wval, HB by done. pose proof (pow64_pos k).
      rewrite Z.div_0_l, Z.mod_0_l by (pose proof wordsize_pos; lia). done. }
    assert (Et : t = 0%nat).
    { destruct (Nat.eq_dec t 0%nat) as [|Et]; [done|]. pose proof (find_btop_spec (n - 1) bp) as (_ & _ & H3).
      destruct (H3 Et). apply Hz. }
    by rewrite Et, Hz.
  - intros HB HF. destruct (find_btop_top n bp Hb Lb Hn HB) as (Ht & Htop & Habove). fold t in Ht, Htop, Habove.
    assert (Hguard : (t =? 0)%nat && (word bp 0 =? 0) = false).
    { destruct (Nat.eqb_spec t 0) as [E|E]; [|done]. rewrite E in Htop. cbn [andb]. apply Z.eqb_neq. lia. }
    rewrite Hguard. pose proof (wval_bound ap Ha) as RA. rewrite La in RA.
    pose proof (divisor_top n t bp Hb Lb Ht Habove) as [B1 B2]. pose proof (pow64_pos t) as Pt.
    destruct (divide_loop_spec n t bp Hb Lb Ht Htop Habove (wval ap) (n - t) (ap, replicate n 0)) as (s & Es & D).
    + lia.
    + split; cbn [fst snd].
      * done.
      * done.
      * apply words_replicate, zero_word.
      * by rewrite length_replicate.
      * intros k Hk. unfold word. rewrite nth_lookup, lookup_replicate_2 by lia. done.
      * rewrite wval_replicate_0. lia.
      * assert (Ep : pow64 n = pow64 t * pow64 (n - t)) by (rewrite <- pow64_add; f_equal; lia).
        pose proof (pow64_pos (n - t)). nia.
    + intros c A Hc HA HAB. destruct HF as [[k Ek]|[HA2 HBn]].
      * apply exact_fits; try done; [by apply (one_word_top n bp t k)|lia|lia].
      * assert (En : n = S t).
        { destruct (Nat.eq_dec n (S t)) as [|Hne]; [done|exfalso].
          pose proof top_is_word t bp Hb as [_ Hbw].
          assert (Ep : pow64 (n - 1) = pow64 t * (wordsize * pow64 (n - t - 2))).
          { rewrite <- pow64_S, <- pow64_add. f_equal. lia. }
          pose proof (pow64_pos (n - t - 2)). pose proof wordsize_pos.
          assert (pow64 t * wordsize <= pow64 (n - 1)) by (rewrite Ep; apply Z.mul_le_mono_nonneg_l; nia).
          assert ((word bp t + 1) * pow64 t <= wordsize * pow64 t) by (apply Z.mul_le_mono_nonneg_r; lia). lia. }
        assert (c = 0%nat) as -> by lia. apply half_fits; (done || lia).
    + rewrite Es. cbn [mbind option_bind]. destruct s as [r q]. cbn [fst snd].
      destruct D as [W1 L1 W2 L2 _ HS HBd]. cbn [fst snd] in *. rewrite pow64_0, Z.mul_1_r in HBd.
      pose proof (wval_bound r W1) as RR.
      exists q, r. split_and!; try done.
      * apply (Z.div_unique _ _ _ (wval r)); lia.
      * apply (Z.mod_unique _ _ (wval q)); lia.
Qed.
