(* ===== verification/VThread.v ===== *)
(** The instructions of the thread interpreter on vectors ([vvp/vthread.cc]): a thread's
    flags, index registers and stack of vectors, one definition per opcode, and the
    fetch-and-execute step of [vthread_run].

    [None] is a failed [assert] or an access outside the stack, the flags or the registers.
    The nets and arrays an instruction reads are an argument.  The stacks of reals, strings
    and objects and the opcodes on them are not modelled. *)
From S2P Require Import Prelude MachineWord VvpBit VvpVector4 VvpSlice WordArith VvpArith VvpVector2 VvpCompare.
From S2P Require Import VvpFunctor WordDiv.

(** * The thread *)

(** [stack_vec4_] has its top ([back()]) first; an index register is its 64-bit pattern. *)
Record vthread := mkThread {
  pc : nat;
  flags : list vvp_bit4_t;
  regs : list Z;
  stack_vec4_ : list vvp_vector4_t }.

Definition FLAGS_COUNT : nat := 512.
Definition WORDS_COUNT : nat := 16.

Definition with_stack (thr : vthread) (st : list vvp_vector4_t) : vthread :=
  mkThread (pc thr) (flags thr) (regs thr) st.
Definition with_pc (thr : vthread) (p : nat) : vthread := mkThread p (flags thr) (regs thr) (stack_vec4_ thr).

Definition pop_vec4 (thr : vthread) : option (vvp_vector4_t * vthread) :=
  match stack_vec4_ thr with v :: st => Some (v, with_stack thr st) | [] => None end.
Definition push_vec4 (v : vvp_vector4_t) (thr : vthread) : vthread := with_stack thr (v :: stack_vec4_ thr).
Definition peek_vec4 (thr : vthread) (depth : nat) : option vvp_vector4_t := stack_vec4_ thr !! depth.
Definition poke_top (thr : vthread) (v : vvp_vector4_t) : option vthread :=
  match stack_vec4_ thr with _ :: st => Some (with_stack thr (v :: st)) | [] => None end.
Definition pop_vec4_n (cnt : nat) (thr : vthread) : option vthread :=
  if (cnt <=? length (stack_vec4_ thr))%nat then Some (with_stack thr (drop cnt (stack_vec4_ thr))) else None.

Definition get_flag (thr : vthread) (k : nat) : option vvp_bit4_t := flags thr !! k.
Definition set_flag (thr : vthread) (k : nat) (b : vvp_bit4_t) : option vthread :=
  if (k <? length (flags thr))%nat then Some (mkThread (pc thr) (<[k := b]> (flags thr)) (regs thr) (stack_vec4_ thr))
  else None.

Definition get_word (thr : vthread) (k : nat) : option Z := regs thr !! k.
Definition set_word (thr : vthread) (k : nat) (x : Z) : option vthread :=
  if (k <? length (regs thr))%nat then Some (mkThread (pc thr) (flags thr) (<[k := x]> (regs thr)) (stack_vec4_ thr))
  else None.

(** * Immediate operands *)

(** The loop of [get_immediate_rval], [%pushi/vec4] and [%concati/vec4] over the two 32-bit
    words; the bit is [(valb & 1) << 1 | (vala & 1)], whose four values are the encoding of
    [vvp_bit4_t]. *)
Fixpoint immediate_loop (cnt idx : nat) (vala valb : Z) (val : vvp_vector4_t) : option vvp_vector4_t :=
  match cnt with
  | O => Some val
  | S c =>
      if Z.lor vala valb =? 0 then Some val else
      let ba := Z.lor (Z.shiftl (Z.land valb 1) 1) (Z.land vala 1) in
      val ← (if ba =? 0 then Some val else set_bit val idx (bit4_cast ba));
      immediate_loop c (idx + 1) (Z.shiftr vala 1) (Z.shiftr valb 1) val
  end.

Definition get_immediate_rval (vala valb : Z) (wid : nat) (val : vvp_vector4_t) : option vvp_vector4_t :=
  if valb =? 0 then
    if vala =? 0 then Some val
    else setarray val 0 (if (wid <? W)%nat then wid else W) [vala]
  else immediate_loop wid 0 vala valb val.

Definition immediate (vala valb : Z) (wid : nat) : option vvp_vector4_t :=
  get_immediate_rval vala valb wid (vec4_fill wid BIT4_0).

Definition of_PUSHI_VEC4 (vala valb : Z) (wid : nat) (thr : vthread) : option vthread :=
  let val := vec4_fill wid BIT4_0 in
  val ← (if (vala =? 0) && (valb =? 0) then Some val
         else if (valb =? 0) && (wid <=? W)%nat then setarray val 0 wid [vala]
         else immediate_loop wid 0 vala valb val);
  Some (push_vec4 val thr).

(** * Arithmetic *)

(** Pop [r], replace the top [l] by [f l r]. *)
Definition binary (f : vvp_vector4_t -> vvp_vector4_t -> option vvp_vector4_t) (thr : vthread) : option vthread :=
  '(r, thr) ← pop_vec4 thr;
  l ← peek_vec4 thr 0;
  v ← f l r;
  poke_top thr v.

(** The same with the right operand from the instruction. *)
Definition binary_imm (f : vvp_vector4_t -> vvp_vector4_t -> option vvp_vector4_t) (vala valb : Z) (wid : nat)
    (thr : vthread) : option vthread :=
  l ← peek_vec4 thr 0;
  r ← immediate vala valb wid;
  v ← f l r;
  poke_top thr v.

Definition of_ADD := binary add.
Definition of_SUB := binary sub.
Definition of_MUL := binary mul.
Definition of_ADDI := binary_imm add.
Definition of_SUBI := binary_imm sub.
Definition of_MULI := binary_imm mul.

(** [%div] on the operands. *)
Definition div_vec4 (vala valb : vvp_vector4_t) : option vvp_vector4_t :=
  if (size vala =? size valb)%nat then
    let wid := size vala in
    match subarray vala 0 wid false with
    | None => Some (vec4_fill wid BIT4_X)
    | Some ap =>
        match subarray valb 0 wid false with
        | None => Some (vec4_fill wid BIT4_X)
        | Some bp =>
            if (wid <=? W)%nat then
              if word bp 0 =? 0 then Some (vec4_fill wid BIT4_X)
              else setarray vala 0 wid (<[0%nat := word ap 0 / word bp 0]> ap)
            else
              r ← divide_bits ap bp wid;
              match r with
              | None => Some (vec4_fill wid BIT4_X)
              | Some (result, _) => setarray vala 0 wid result
              end
        end
    end
  else None.

Definition of_DIV := binary div_vec4.

(** [negate_words(val, words)]. *)
Definition negate_words (val : list Z) (words : nat) : list Z :=
  fst (for_upto words (fun idx '(v, carry) =>
         let '(w, carry) := add_with_carry 0 (wnot (word v idx)) carry in (<[idx := w]> v, carry)) (val, 1)).

(** The top bit of a word: [(long) w < 0]. *)
Definition negative (w : Z) : bool := tb w (W - 1).

(** [if (p[words-1] & (sign_mask>>1)) p[words-1] |= sign_mask]. *)
Definition sign_extend (words : nat) (sign_mask : Z) (p : list Z) : list Z :=
  if Z.land (word p (words - 1)) (wshr sign_mask 1) =? 0 then p
  else <[(words - 1)%nat := Z.lor (word p (words - 1)) sign_mask]> p.

Definition div_s_vec4 (vala valb : vvp_vector4_t) : option vvp_vector4_t :=
  if (size vala =? size valb)%nat then
    let wid := size vala in
    let words := words_for wid in
    match subarray vala 0 wid false with
    | None => Some (vec4_fill wid BIT4_X)
    | Some ap =>
        match subarray valb 0 wid false with
        | None => Some (vec4_fill wid BIT4_X)
        | Some bp =>
            let sign_bits := (words * W - wid)%nat in
            let sign_mask := if (sign_bits =? 0)%nat then 0 else wshl wones (W - sign_bits) in
            let '(ap, bp) := if (sign_bits =? 0)%nat then (ap, bp)
                             else (sign_extend words sign_mask ap, sign_extend words sign_mask bp) in
            if (wid <=? W)%nat then
              if word bp 0 =? 0 then Some (vec4_fill wid BIT4_X)
              else if (word ap 0 =? 2 ^ 63) && (word bp 0 =? wones) then
                set_bit (vec4_fill wid BIT4_0) (wid - 1) BIT4_1
              else
                let res := wrap (Z.quot (as_signed W (word ap 0)) (as_signed W (word bp 0))) in
                setarray vala 0 wid (<[0%nat := Z.land res (wnot sign_mask)]> ap)
            else
              let '(ap, na) := if negative (word ap (words - 1)) then (negate_words ap words, true) else (ap, false) in
              let '(bp, nb) := if negative (word bp (words - 1)) then (negate_words bp words, true) else (bp, false) in
              r ← divide_bits ap bp wid;
              match r with
              | None => Some (vec4_fill wid BIT4_X)
              | Some (result, _) =>
                  let result := if xorb na nb then negate_words result words else result in
                  setarray vala 0 wid
                    (<[(words - 1)%nat := Z.land (word result (words - 1)) (wnot sign_mask)]> result)
              end
        end
    end
  else None.

Definition of_DIV_S := binary div_s_vec4.

(** The loops of [%mod] that collect both operands in native words; an inner [None] is the
    jump to [x_out]. *)
Fixpoint native_operands (cnt idx : nat) (vala valb : vvp_vector4_t) (lv rv : Z) : option (Z * Z) :=
  match cnt with
  | O => Some (lv, rv)
  | S c =>
      let lb := bit4_num (value vala idx) in
      let rb := bit4_num (value valb idx) in
      if negb (Z.land (Z.lor lb rb) 2 =? 0) then None
      else native_operands c (idx + 1) vala valb (Z.lor lv (wshl lb idx)) (Z.lor rv (wshl rb idx))
  end.

(** [vala.set_bit(idx, (lv&1)? BIT4_1 : BIT4_0); lv >>= 1]. *)
Definition store_native (wid : nat) (lv : Z) (vala : vvp_vector4_t) : option vvp_vector4_t :=
  set_bits wid 0 (fun idx => if Z.testbit lv (Z.of_nat idx) then BIT4_1 else BIT4_0) vala.

(** [do_verylong_mod]: one bit per byte.  The operands: the magnitude of the left one and
    the complement of the magnitude of the right one, with [lb_carry] and [rb_carry]. *)
Definition take_bit (is_neg : bool) (b carry : Z) : Z * Z :=
  if is_neg then
    let b := 1 - b + carry in
    (Z.land b 1, if Z.land b (-2) =? 0 then 0 else 1)
  else (b, carry).

Fixpoint mod_operands (cnt idx : nat) (vala valb : vvp_vector4_t) (ln rn : bool) (lc rc : Z) (z a : list Z)
    : option (list Z * list Z) :=
  match cnt with
  | O => Some (z, a)
  | S c =>
      let lb := bit4_num (value vala idx) in
      let rb := bit4_num (value valb idx) in
      if negb (Z.land (Z.lor lb rb) 2 =? 0) then None else
      let '(lb, lc) := take_bit ln lb lc in
      let '(rb, rc) := take_bit rn rb rc in
      mod_operands c (idx + 1) vala valb ln rn lc rc (<[idx := lb]> z) (<[idx := 1 - rb]> a)
  end.

(** [for (i = n-1; i >= 0; i--) if (p(i)) { m = i; break; }]; [None] is -1. *)
Fixpoint find_top (p : nat -> bool) (n : nat) : option nat :=
  match n with O => None | S i => if p i then Some i else find_top p i end.

(** One round of the [while]: the divisor added in complement at [current]. *)
Definition mod_round (copylen current : nat) (a z : list Z) : list Z :=
  let '(t, carry) := for_upto copylen (fun i '(t, carry) =>
    let temp := word z (i + current) + word a i + carry in
    (<[i := Z.land temp 1]> t, Z.shiftr temp 1)) (replicate copylen 0, 1) in
  if carry =? 0 then z
  else for_upto copylen (fun i z => <[(i + current)%nat := word t i]> z) z.

(** [while (current > -1) { ...; current--; }], [n] being [current + 1]. *)
Fixpoint mod_rounds (copylen n : nat) (a z : list Z) : list Z :=
  match n with O => z | S current => mod_rounds copylen current a (mod_round copylen current a z) end.

Fixpoint mod_tally (cnt idx : nat) (z : list Z) (out_is_neg : bool) (carry : Z) (tmp : vvp_vector4_t)
    : option vvp_vector4_t :=
  match cnt with
  | O => Some tmp
  | S c =>
      let '(ob, carry) := take_bit out_is_neg (word z idx) carry in
      tmp ← set_bit tmp idx (if ob =? 0 then BIT4_0 else BIT4_1);
      mod_tally c (idx + 1) z out_is_neg carry tmp
  end.

Definition do_verylong_mod (vala valb : vvp_vector4_t) (left_is_neg right_is_neg : bool) : option vvp_vector4_t :=
  let len := size vala in
  let carry (b : bool) := if b then 1 else 0 in
  match mod_operands len 0 vala valb left_is_neg right_is_neg (carry left_is_neg) (carry right_is_neg)
          (replicate (len + 1) 0) (replicate (len + 1) 0) with
  | None => Some (vec4_fill len BIT4_X)
  | Some (z, a) =>
      let z := <[len := 0]> z in
      let a := <[len := 1]> a in
      match find_top (fun i => word a i =? 0) len with
      | None => Some (vec4_fill len BIT4_X)
      | Some mxa =>
          let z :=
            match find_top (fun i => negb (word z i =? 0)) len with
            | Some mxz => if (mxz <? mxa)%nat then z else mod_rounds (mxa + 2) (mxz - mxa + 1) a z
            | None => z
            end in
          mod_tally len 0 z left_is_neg (carry left_is_neg) (vec4_fill len BIT4_X)
      end
  end.

Definition mod_vec4 (vala valb : vvp_vector4_t) : option vvp_vector4_t :=
  if (size vala =? size valb)%nat then
    let wid := size vala in
    if (wid <=? W)%nat then
      match native_operands wid 0 vala valb 0 0 with
      | Some (lv, rv) =>
          if rv =? 0 then Some (vec4_fill wid BIT4_X) else store_native wid (lv mod rv) vala
      | None => Some (vec4_fill wid BIT4_X)
      end
    else do_verylong_mod vala valb false false
  else None.

Definition of_MOD := binary mod_vec4.

(** [if (lv & (1LL << (wid-1))) lv |= -1ULL << wid]. *)
Definition extend_native (wid : nat) (lv : Z) : Z :=
  if Z.land lv (wshl 1 (wid - 1)) =? 0 then lv else Z.lor lv (wshl wones wid).

Definition mod_s_vec4 (vala valb : vvp_vector4_t) : option vvp_vector4_t :=
  if (size vala =? size valb)%nat then
    let wid := size vala in
    if (wid <=? W)%nat then
      match native_operands wid 0 vala valb 0 0 with
      | Some (lv, rv) =>
          if rv =? 0 then Some (vec4_fill wid BIT4_X)
          else if (lv =? 2 ^ 63) && (rv =? wones) then Some (vec4_fill wid BIT4_0)
          else
            let '(lv, rv) := if (wid <? W)%nat then (extend_native wid lv, extend_native wid rv) else (lv, rv) in
            store_native wid (wrap (Z.rem (as_signed W lv) (as_signed W rv))) vala
      | None => Some (vec4_fill wid BIT4_X)
      end
    else
      do_verylong_mod vala valb (bit4_eqb (value vala (size vala - 1)) BIT4_1)
                                (bit4_eqb (value valb (size valb - 1)) BIT4_1)
  else None.

Definition of_MOD_S := binary mod_s_vec4.

(** [of_POW_base]. *)
Definition pow_vec4 (signed_flag : bool) (vala valb : vvp_vector4_t) : option vvp_vector4_t :=
  let wid := size vala in
  let xv2 := vec2_of_vec4 vala true in
  let yv2 := vec2_of_vec4 valb true in
  if is_NaN xv2 || is_NaN yv2 then Some (vec4_fill wid BIT4_X)
  else if signed_flag && negb (vec2_value yv2 (VvpVector2.wid yv2 - 1) =? 0) then
    let '(fits, a_val) := vector2_to_value xv2 true in
    let '(pad, lsb) :=
      if fits then
        if a_val =? 0 then (BIT4_X, BIT4_X)
        else if a_val =? 1 then (BIT4_0, BIT4_1)
        else if a_val =? 2 ^ 32 - 1 then
          (if negb (vec2_value yv2 0 =? 0) then (BIT4_1, BIT4_1) else (BIT4_0, BIT4_1))
        else (BIT4_0, BIT4_0)
      else (BIT4_0, BIT4_0) in
    set_bit (vec4_fill wid pad) 0 lsb
  else
    result ← vec2_pow xv2 yv2;
    set_bits wid 0 (fun jdx =>
      if (VvpVector2.wid result <=? jdx)%nat then BIT4_0
      else if vec2_value result jdx =? 0 then BIT4_0 else BIT4_1) vala.

Definition of_POW := binary (pow_vec4 false).
Definition of_POW_S := binary (pow_vec4 true).

(** * Bitwise operators and reductions *)

Definition same_size (f : vvp_vector4_t -> vvp_vector4_t -> option vvp_vector4_t) (l r : vvp_vector4_t)
    : option vvp_vector4_t := if (size l =? size r)%nat then f l r else None.

Definition of_AND := binary (same_size (fun l r => Some (and_assign l r))).
Definition of_OR := binary (fun l r => Some (or_assign l r)).

(** The loop of [%nand], [%nor], [%xor] and [%xnor], in place on the left operand. *)
Definition bit_loop (f : vvp_bit4_t -> vvp_bit4_t -> vvp_bit4_t) (l r : vvp_vector4_t) : option vvp_vector4_t :=
  for_upto (size l) (fun idx t => t ← t; set_bit t idx (f (value t idx) (value r idx))) (Some l).

Definition of_NAND := binary (same_size (bit_loop (fun lb rb => bit4_not (bit4_and lb rb)))).
Definition of_NOR := binary (same_size (bit_loop (fun lb rb => bit4_not (bit4_or lb rb)))).
Definition of_XOR := binary (same_size (bit_loop bit4_xor)).
Definition of_XNOR := binary (same_size (bit_loop (fun lb rb => bit4_not (bit4_xor lb rb)))).

(** Replace the top of the stack. *)
Definition unary (f : vvp_vector4_t -> option vvp_vector4_t) (thr : vthread) : option vthread :=
  v ← peek_vec4 thr 0;
  v ← f v;
  poke_top thr v.

Definition of_INV := unary (fun v => Some (invert v)).

(** A reduction loop: [Some] of the bit to go on with, or the bit to [break] with. *)
Fixpoint reduce_loop (f : vvp_bit4_t -> vvp_bit4_t -> vvp_bit4_t * bool) (cnt idx : nat) (val : vvp_vector4_t)
    (lb : vvp_bit4_t) : vvp_bit4_t :=
  match cnt with
  | O => lb
  | S c =>
      let '(lb, stop) := f lb (value val idx) in
      if stop then lb else reduce_loop f c (idx + 1) val lb
  end.

Definition reduction (f : vvp_bit4_t -> vvp_bit4_t -> vvp_bit4_t * bool) (start : vvp_bit4_t)
    (val : vvp_vector4_t) : option vvp_vector4_t :=
  Some (vec4_fill 1 (reduce_loop f (size val) 0 val start)).

(** [if (rb == control) { lb = out; break; } if (rb != other) lb = BIT4_X]. *)
Definition control_bit (control other out : vvp_bit4_t) (lb rb : vvp_bit4_t) : vvp_bit4_t * bool :=
  if bit4_eqb rb control then (out, true)
  else (if bit4_eqb rb other then lb else BIT4_X, false).
(** [if (rb == BIT4_1) lb = ~lb; else if (rb != BIT4_0) { lb = BIT4_X; break; }]. *)
Definition parity_bit (lb rb : vvp_bit4_t) : vvp_bit4_t * bool :=
  if bit4_eqb rb BIT4_1 then (bit4_not lb, false)
  else if bit4_eqb rb BIT4_0 then (lb, false) else (BIT4_X, true).

Definition of_ANDR := unary (reduction (control_bit BIT4_0 BIT4_1 BIT4_0) BIT4_1).
Definition of_NANDR := unary (reduction (control_bit BIT4_0 BIT4_1 BIT4_1) BIT4_0).
Definition of_ORR := unary (reduction (control_bit BIT4_1 BIT4_0 BIT4_1) BIT4_0).
Definition of_NORR := unary (reduction (control_bit BIT4_1 BIT4_0 BIT4_0) BIT4_1).
Definition of_XORR := unary (reduction parity_bit BIT4_0).
Definition of_XNORR := unary (reduction parity_bit BIT4_1).

(** [%blend]: the top is [vala], X where the two differ. *)
Definition blend (valb vala : vvp_vector4_t) : option vvp_vector4_t :=
  if (size vala =? size valb)%nat then
    for_upto (size vala) (fun idx t =>
      t ← t; if bit4_eqb (value t idx) (value valb idx) then Some t else set_bit t idx BIT4_X) (Some vala)
  else None.
Definition of_BLEND := binary blend.

(** [%cast2]. *)
Definition cast2 (val : vvp_vector4_t) : option vvp_vector4_t :=
  for_upto (size val) (fun idx t =>
    t ← t;
    match value t idx with
    | BIT4_0 | BIT4_1 => Some t
    | _ => set_bit t idx BIT4_0
    end) (Some val).
Definition of_CAST2 := unary cast2.

(** * Comparisons *)

(** The loop of [do_CMPE], [of_CMPU_the_hard_way] and [do_CMPWE] over a pair of bits: [eq]
    becomes X at an unknown bit (when [skip] does not exclude the pair) and 0, ending the
    loop, at two different known bits; [eeq] becomes 0 at any difference. *)
Fixpoint cmp_loop (skip : bool) (cnt idx : nat) (lval rval : vvp_vector4_t) (eq eeq : vvp_bit4_t)
    : vvp_bit4_t * vvp_bit4_t :=
  match cnt with
  | O => (eq, eeq)
  | S c =>
      let lv := value lval idx in
      let rv := value rval idx in
      let eeq := if bit4_eqb lv rv then eeq else BIT4_0 in
      if skip && bit4_is_xz rv then cmp_loop skip c (idx + 1) lval rval eq eeq else
      let eq := if bit4_eqb eq BIT4_1 && (bit4_is_xz lv || bit4_is_xz rv) then BIT4_X else eq in
      let eq := if bit4_eqb lv BIT4_0 && bit4_eqb rv BIT4_1 then BIT4_0 else eq in
      let eq := if bit4_eqb lv BIT4_1 && bit4_eqb rv BIT4_0 then BIT4_0 else eq in
      if bit4_eqb eq BIT4_0 then (eq, eeq) else cmp_loop skip c (idx + 1) lval rval eq eeq
  end.

Definition bool_bit (b : bool) : vvp_bit4_t := if b then BIT4_1 else BIT4_0.

Definition do_CMPE (lval rval : vvp_vector4_t) (thr : vthread) : option vthread :=
  if (size rval =? size lval)%nat then
    let '(eq, eeq) :=
      if has_xz lval || has_xz rval then cmp_loop false (size lval) 0 lval rval BIT4_1 BIT4_1
      else (bool_bit (eeq lval rval), bool_bit (eeq lval rval)) in
    thr ← set_flag thr 4 eq; set_flag thr 6 eeq
  else None.

Definition inv_flag (k : nat) (thr : vthread) : option vthread :=
  b ← get_flag thr k; set_flag thr k (bit4_not b).

(** Compare the two vectors on the top of the stack and pop them; or the top one with an
    immediate operand. *)
Definition compare (cmp : vvp_vector4_t -> vvp_vector4_t -> vthread -> option vthread) (thr : vthread) : option vthread :=
  rval ← peek_vec4 thr 0;
  lval ← peek_vec4 thr 1;
  thr ← cmp lval rval thr;
  pop_vec4_n 2 thr.
Definition compare_imm (cmp : vvp_vector4_t -> vvp_vector4_t -> vthread -> option vthread) (vala valb : Z) (wid : nat)
    (thr : vthread) : option vthread :=
  lval ← peek_vec4 thr 0;
  rval ← immediate vala valb wid;
  thr ← cmp lval rval thr;
  pop_vec4_n 1 thr.

Definition do_CMPNE (lval rval : vvp_vector4_t) (thr : vthread) : option vthread :=
  thr ← do_CMPE lval rval thr; thr ← inv_flag 4 thr; inv_flag 6 thr.

Definition of_CMPE := compare do_CMPE.
Definition of_CMPNE := compare do_CMPNE.
Definition of_CMPIE := compare_imm do_CMPE.
Definition of_CMPINE := compare_imm do_CMPNE.

Definition set_flags3 (eq lt eeq : vvp_bit4_t) (thr : vthread) : option vthread :=
  thr ← set_flag thr 4 eq; thr ← set_flag thr 5 lt; set_flag thr 6 eeq.

(** The scan of [do_CMPS] from the bit below the sign down; [cnt] bits are left. *)
Fixpoint cmps_scan (cnt : nat) (lval rval : vvp_vector4_t) : vvp_bit4_t * vvp_bit4_t :=
  match cnt with
  | O => (BIT4_1, BIT4_0)
  | S c =>
      let lv := value lval c in
      if bit4_eqb lv (value rval c) then cmps_scan c lval rval
      else (BIT4_0, if bit4_eqb lv BIT4_0 then BIT4_1 else BIT4_0)
  end.

Definition do_CMPS (lval rval : vvp_vector4_t) (thr : vthread) : option vthread :=
  if (size rval =? size lval)%nat then
    if has_xz lval || has_xz rval then set_flags3 BIT4_X BIT4_X (bool_bit (eeq lval rval)) thr
    else
      let wid := size lval in
      let sig1 := value lval (wid - 1) in
      let sig2 := value rval (wid - 1) in
      if bit4_eqb sig1 BIT4_1 && bit4_eqb sig2 BIT4_0 then set_flags3 BIT4_0 BIT4_1 BIT4_0 thr
      else if bit4_eqb sig1 BIT4_0 && bit4_eqb sig2 BIT4_1 then set_flags3 BIT4_0 BIT4_0 BIT4_0 thr
      else let '(eq, lt) := cmps_scan (wid - 1) lval rval in set_flags3 eq lt eq thr
  else None.

Definition of_CMPS := compare do_CMPS.
Definition of_CMPIS := compare_imm do_CMPS.

Definition of_CMPU_the_hard_way (wid : nat) (lval rval : vvp_vector4_t) (thr : vthread) : option vthread :=
  let '(eq, eeq) := cmp_loop false wid 0 lval rval BIT4_1 BIT4_1 in set_flags3 eq BIT4_X eeq thr.

(** The loop of [do_CMPU] over the words, the least significant first. *)
Definition cmpu_words (words : nat) (larray rarray : list Z) : vvp_bit4_t * vvp_bit4_t :=
  for_upto words (fun wdx '(eq, lt) =>
    if word larray wdx =? word rarray wdx then (eq, lt)
    else (BIT4_0, if word larray wdx <? word rarray wdx then BIT4_1 else BIT4_0)) (BIT4_1, BIT4_0).

Definition do_CMPU (lval rval : vvp_vector4_t) (thr : vthread) : option vthread :=
  if (size rval =? size lval)%nat then
    let wid := size lval in
    match subarray lval 0 wid false, subarray rval 0 wid false with
    | Some larray, Some rarray =>
        let '(eq, lt) := cmpu_words (words_for wid) larray rarray in set_flags3 eq lt eq thr
    | _, _ => of_CMPU_the_hard_way wid lval rval thr
    end
  else None.

Definition of_CMPU := compare do_CMPU.
Definition of_CMPIU := compare_imm do_CMPU.

(** The loop of [%cmp/x] and [%cmp/z]: 0 at a pair that [differ]s. *)
Fixpoint cmp_until (differ : vvp_bit4_t -> vvp_bit4_t -> bool) (cnt idx : nat) (lval rval : vvp_vector4_t) : vvp_bit4_t :=
  match cnt with
  | O => BIT4_1
  | S c => if differ (value lval idx) (value rval idx) then BIT4_0 else cmp_until differ c (idx + 1) lval rval
  end.

Definition do_cmp_until (differ : vvp_bit4_t -> vvp_bit4_t -> bool) (lval rval : vvp_vector4_t) (thr : vthread) : option vthread :=
  if (size rval =? size lval)%nat then set_flag thr 4 (cmp_until differ (size lval) 0 lval rval) else None.

Definition of_CMPX := compare (do_cmp_until (fun lv rv => negb (bit4_eqb lv rv) && negb (bit4_is_xz lv) && negb (bit4_is_xz rv))).
Definition of_CMPZ := compare (do_cmp_until (fun lv rv =>
  negb (bit4_eqb lv rv) && negb (bit4_eqb rv BIT4_Z) && negb (bit4_eqb lv BIT4_Z))).

Definition do_CMPWE (lval rval : vvp_vector4_t) (thr : vthread) : option vthread :=
  if (size rval =? size lval)%nat then
    set_flag thr 4
      (if has_xz lval || has_xz rval then fst (cmp_loop true (size lval) 0 lval rval BIT4_1 BIT4_1)
       else bool_bit (eeq lval rval))
  else None.
Definition do_CMPWNE (lval rval : vvp_vector4_t) (thr : vthread) : option vthread :=
  thr ← do_CMPWE lval rval thr; inv_flag 4 thr.
Definition of_CMPWE := compare do_CMPWE.
Definition of_CMPWNE := compare do_CMPWNE.

(** [%cmp/ws] and [%cmp/wu] on two index registers. *)
Definition cmp_regs (read : Z -> Z) (l r : nat) (thr : vthread) : option vthread :=
  x ← get_word thr l;
  y ← get_word thr r;
  thr ← set_flag thr 4 (bool_bit (read x =? read y));
  set_flag thr 5 (bool_bit (read x <? read y)).
Definition of_CMPWS := cmp_regs (as_signed W).
Definition of_CMPWU := cmp_regs (fun x => x).

(** * Concatenation, widths and parts *)

Definition concat_vec4 (msb lsb : vvp_vector4_t) : option vvp_vector4_t :=
  '(res, _) ← set_vec (vec4_fill (size msb + size lsb) BIT4_X) 0 lsb;
  '(res, _) ← set_vec res (size lsb) msb;
  Some res.
Definition of_CONCAT_VEC4 := binary concat_vec4.

Definition of_CONCATI_VEC4 (vala valb : Z) (wid : nat) (thr : vthread) : option vthread :=
  msb ← peek_vec4 thr 0;
  lsb ← immediate_loop wid 0 vala valb (vec4_fill wid BIT4_0);
  res ← concat_vec4 msb lsb;
  poke_top thr res.

Definition replicate_vec4 (rept : nat) (val : vvp_vector4_t) : option vvp_vector4_t :=
  for_upto rept (fun idx res => res ← res; '(res, _) ← set_vec res (idx * size val) val; Some res)
    (Some (vec4_fill (size val * rept) BIT4_X)).
Definition of_REPLICATE (rept : nat) := unary (replicate_vec4 rept).

Definition of_PAD_S (wid : nat) := unary (fun val =>
  Some (resize val wid (if (size val <? wid)%nat then value val (size val - 1) else BIT4_X))).
Definition of_PAD_U (wid : nat) := unary (fun val => Some (resize val wid BIT4_0)).

(** The selection of [%part] and [%parti] at a signed base.  The code adds the base and the
    width in 32 bits, the model exactly, which is the same while the sizes of the vector and
    of the part are below 2^30: the base is below the size where the sum is taken. *)
Definition part_select (val : vvp_vector4_t) (base : Z) (wid : nat) : option vvp_vector4_t :=
  let res := vec4_fill wid BIT4_X in
  if Z.of_nat (size val) <=? base then Some res
  else if base + Z.of_nat wid <=? 0 then Some res
  else
    let '(vbase, wid, base) :=
      if base <? 0 then (Z.to_nat (- base), (wid - Z.to_nat (- base))%nat, 0%nat) else (0%nat, wid, Z.to_nat base) in
    let wid := if (size val <? base + wid)%nat then (size val - base)%nat else wid in
    sub ← subvalue val base wid;
    '(res, _) ← set_vec res vbase sub;
    Some res.

(** [of_PART_base]: the base comes from the top of the stack, cut to 32 bits. *)
Definition part (signed_flag : bool) (wid : nat) (val base4 : vvp_vector4_t) : option vvp_vector4_t :=
  match vector4_to_value 32 base4 signed_flag true with
  | (true, Some base) => part_select val (as_signed 32 base) wid
  | _ => Some (vec4_fill wid BIT4_X)
  end.
Definition of_PART_S (wid : nat) := binary (part true wid).
Definition of_PART_U (wid : nat) := binary (part false wid).

(** [of_PARTI_base]: [base] is the 32-bit word of the instruction. *)
Definition parti_base (signed_flag : bool) (base : Z) (bwid : nat) : Z :=
  let use_base :=
    if signed_flag && (bwid <? 32)%nat && negb (Z.land base (Z.shiftl 1 (Z.of_nat (bwid - 1))) =? 0)
    then Z.lor base (wshl wones bwid mod 2 ^ 32) else base in
  as_signed 32 use_base.
Definition of_PARTI_S (wid : nat) (base : Z) (bwid : nat) := unary (fun val => part_select val (parti_base true base bwid) wid).
Definition of_PARTI_U (wid : nat) (base : Z) (bwid : nat) := unary (fun val => part_select val (parti_base false base bwid) wid).

Definition of_SPLIT_VEC4 (lsb_wid : nat) (thr : vthread) : option vthread :=
  val ← peek_vec4 thr 0;
  if (lsb_wid <? size val)%nat then
    lsb ← subvalue val 0 lsb_wid;
    msb ← subvalue val lsb_wid (size val - lsb_wid);
    thr ← poke_top thr msb;
    Some (push_vec4 lsb thr)
  else None.

Definition of_DUP_VEC4 (thr : vthread) : option vthread := v ← peek_vec4 thr 0; Some (push_vec4 v thr).
Definition of_POP_VEC4 (cnt : nat) (thr : vthread) : option vthread := pop_vec4_n cnt thr.

(** * Index registers and flags *)

Definition get_as_64_bit (low_32 high_32 : Z) : Z := Z.lor (wrap (Z.shiftl high_32 32)) low_32.

Definition on_word (f : Z -> Z) (k : nat) (thr : vthread) : option vthread := x ← get_word thr k; set_word thr k (f x).
Definition of_IX_ADD (k : nat) (low high : Z) := on_word (fun x => wadd x (get_as_64_bit low high)) k.
Definition of_IX_SUB (k : nat) (low high : Z) := on_word (fun x => wsub x (get_as_64_bit low high)) k.
Definition of_IX_MUL (k : nat) (low high : Z) := on_word (fun x => wmul x (get_as_64_bit low high)) k.
Definition of_IX_LOAD (k : nat) (low high : Z) (thr : vthread) : option vthread := set_word thr k (get_as_64_bit low high).
Definition of_IX_MOV (dst src : nat) (thr : vthread) : option vthread := x ← get_word thr src; set_word thr dst x.

(** The loop of [vec4_to_index] over the words above the first; [None] is overflow. *)
Fixpoint index_loop (cnt k : nat) (bits : list Z) (signed_flag : bool) (v : Z) : bool :=
  match cnt with
  | O => false
  | S c =>
      let tmp := word bits k in
      if (if signed_flag && negative v then negb (wnot tmp =? 0) else negb (tmp =? 0)) then true
      else index_loop c (k + 1) bits signed_flag v
  end.

(** [vec4_to_index(thr, signed_flag)]: the index and the thread with the vector popped and
    flag 4 set: 1 for unknown bits, X for overflow. *)
Definition vec4_to_index (signed_flag : bool) (thr : vthread) : option (Z * vthread) :=
  val ← peek_vec4 thr 0;
  let val_size := size val in
  let bits := subarray val 0 val_size false in
  thr ← pop_vec4_n 1 thr;
  match bits with
  | None => thr ← set_flag thr 4 BIT4_1; Some (0, thr)
  | Some bits =>
      let v := if (0 <? val_size)%nat then word bits 0 else 0 in
      let overflow := index_loop (words_for val_size - 1) 1 bits signed_flag v in
      thr ← set_flag thr 4 (if overflow then BIT4_X else BIT4_0);
      let v :=
        if (val_size <? W)%nat then
          if signed_flag && negb (Z.land v (wshl 1 (val_size - 1)) =? 0)
          then Z.lor v (wshl wones val_size)
          else Z.land v (wnot (wshl wones val_size))
        else v in
      Some (v, thr)
  end.

Definition of_IX_VEC4 (k : nat) (thr : vthread) : option vthread :=
  '(v, thr) ← vec4_to_index false thr; set_word thr k v.
Definition of_IX_VEC4_S (k : nat) (thr : vthread) : option vthread :=
  '(v, thr) ← vec4_to_index true thr; set_word thr k v.

Definition of_FLAG_GET_VEC4 (k : nat) (thr : vthread) : option vthread :=
  b ← get_flag thr k; Some (push_vec4 (vec4_fill 1 b) thr).
Definition of_FLAG_INV (k : nat) := inv_flag k.
Definition of_FLAG_MOV (k1 k2 : nat) (thr : vthread) : option vthread := b ← get_flag thr k2; set_flag thr k1 b.
Definition of_FLAG_OR (k1 k2 : nat) (thr : vthread) : option vthread :=
  b1 ← get_flag thr k1; b2 ← get_flag thr k2; set_flag thr k1 (bit4_or b1 b2).
Definition of_FLAG_SET_IMM (k : nat) (vali : Z) (thr : vthread) : option vthread :=
  b ← [BIT4_0; BIT4_1; BIT4_Z; BIT4_X] !! Z.to_nat vali; set_flag thr k b.
Definition of_FLAG_SET_VEC4 (k : nat) (thr : vthread) : option vthread :=
  val ← peek_vec4 thr 0;
  thr ← set_flag thr k (value val 0);
  pop_vec4_n 1 thr.

(** * Shifts *)

(** Shift by the index register, with flag 4 as [vec4_to_index] leaves it. *)
Definition shiftl (flag4 : vvp_bit4_t) (shift : Z) (val : vvp_vector4_t) : option vvp_vector4_t :=
  let wid := size val in
  if bit4_eqb flag4 BIT4_1 then Some (vec4_fill wid BIT4_X)
  else if bit4_eqb flag4 BIT4_X || (Z.of_nat wid <=? shift) then Some (vec4_fill wid BIT4_0)
  else if 0 <? shift then
    let shift := Z.to_nat shift in
    blk ← subvalue val 0 (wid - shift);
    '(val, _) ← set_vec val 0 (vec4_fill shift BIT4_0);
    '(val, _) ← set_vec val shift blk;
    Some val
  else Some val.

Definition shiftr (fill : vvp_vector4_t -> vvp_bit4_t) (flag4 : vvp_bit4_t) (shift : Z) (val : vvp_vector4_t)
    : option vvp_vector4_t :=
  let wid := size val in
  let pad := fill val in
  if bit4_eqb flag4 BIT4_1 then Some (vec4_fill wid BIT4_X)
  else if bit4_eqb flag4 BIT4_X || (Z.of_nat wid <? shift) then Some (vec4_fill wid pad)
  else if 0 <? shift then
    let shift := Z.to_nat shift in
    blk ← subvalue val shift (wid - shift);
    '(val, _) ← set_vec val 0 blk;
    '(val, _) ← set_vec val (wid - shift) (vec4_fill shift pad);
    Some val
  else Some val.

Definition by_index (f : vvp_bit4_t -> Z -> vvp_vector4_t -> option vvp_vector4_t) (k : nat) (thr : vthread) : option vthread :=
  shift ← get_word thr k;
  flag4 ← get_flag thr 4;
  unary (f flag4 shift) thr.

Definition of_SHIFTL := by_index shiftl.
Definition of_SHIFTR := by_index (shiftr (fun _ => BIT4_0)).
Definition of_SHIFTR_S := by_index (shiftr (fun val => value val (size val - 1))).

(** * Values of nets and arrays *)

(** An array of vectors ([vvp_vector4array_t]): the size of a word and the words. *)
Record vvp_array := mkArray { get_word_size : nat; array_words : list vvp_vector4_t }.

(** [get_word(unsigned)]: X outside the array. *)
Definition array_get_word (a : vvp_array) (address : Z) : vvp_vector4_t :=
  match array_words a !! Z.to_nat address with
  | Some v => v
  | None => vec4_fill (get_word_size a) BIT4_X
  end.

(** What the instructions read of the design: [vec4_value] of the net [v<signal>_<word>] and
    the arrays. *)
Record design := mkDesign { vec4_value : nat * nat -> vvp_vector4_t; array_of : nat -> vvp_array }.

Section Run.
Context (d : design).

Definition of_LOAD_VEC4 (net : nat * nat) (thr : vthread) : option vthread := Some (push_vec4 (vec4_value d net) thr).

(** The register is a [long], the address of [get_word] an [unsigned]. *)
Definition of_LOAD_VEC4A (arr k : nat) (thr : vthread) : option vthread :=
  adr ← get_word thr k;
  flag4 ← get_flag thr 4;
  Some (push_vec4
    (if bit4_eqb flag4 BIT4_1 then vec4_fill (get_word_size (array_of d arr)) BIT4_X
     else array_get_word (array_of d arr) (adr mod 2 ^ 32)) thr).

Definition of_IX_GETV (k : nat) (net : nat * nat) (thr : vthread) : option vthread :=
  let '(known_flag, overflow_flag, val) := vector4_to_ulong (vec4_value d net) in
  thr ← set_word thr k (if known_flag : bool then default 0 val else 0);
  set_flag thr 4 (if known_flag : bool then (if overflow_flag : bool then BIT4_X else BIT4_0) else BIT4_1).

Definition of_IX_GETV_S (k : nat) (net : nat * nat) (thr : vthread) : option vthread :=
  let '(known_flag, val) := vector4_to_value W (vec4_value d net) true true in
  thr ← set_word thr k (if known_flag : bool then default 0 val else 0);
  set_flag thr 4 (if known_flag : bool then BIT4_0 else BIT4_1).

(** * Instructions and their execution *)

Inductive instr :=
| ADD | ADDI (vala valb : Z) (wid : nat) | SUB | SUBI (vala valb : Z) (wid : nat)
| MUL | MULI (vala valb : Z) (wid : nat) | DIV | DIV_S | MOD | MOD_S | POW | POW_S
| AND | OR | NAND | NOR | XOR | XNOR | INV | ANDR | NANDR | ORR | NORR | XORR | XNORR | BLEND | CAST2
| CMPE | CMPNE | CMPIE (vala valb : Z) (wid : nat) | CMPINE (vala valb : Z) (wid : nat)
| CMPS | CMPIS (vala valb : Z) (wid : nat) | CMPU | CMPIU (vala valb : Z) (wid : nat)
| CMPX | CMPZ | CMPWE | CMPWNE | CMPWS (l r : nat) | CMPWU (l r : nat)
| CONCAT_VEC4 | CONCATI_VEC4 (vala valb : Z) (wid : nat) | REPLICATE (rept : nat)
| PAD_S (wid : nat) | PAD_U (wid : nat) | PART_S (wid : nat) | PART_U (wid : nat)
| PARTI_S (wid : nat) (base : Z) (bwid : nat) | PARTI_U (wid : nat) (base : Z) (bwid : nat)
| SPLIT_VEC4 (wid : nat) | DUP_VEC4 | POP_VEC4 (cnt : nat) | PUSHI_VEC4 (vala valb : Z) (wid : nat)
| IX_ADD (k : nat) (low high : Z) | IX_SUB (k : nat) (low high : Z) | IX_MUL (k : nat) (low high : Z)
| IX_LOAD (k : nat) (low high : Z) | IX_MOV (dst src : nat) | IX_GETV (k : nat) (net : nat * nat) | IX_GETV_S (k : nat) (net : nat * nat)
| IX_VEC4 (k : nat) | IX_VEC4_S (k : nat)
| FLAG_GET_VEC4 (k : nat) | FLAG_INV (k : nat) | FLAG_MOV (k1 k2 : nat) | FLAG_OR (k1 k2 : nat)
| FLAG_SET_IMM (k : nat) (vali : Z) | FLAG_SET_VEC4 (k : nat)
| SHIFTL (k : nat) | SHIFTR (k : nat) | SHIFTR_S (k : nat)
| LOAD_VEC4 (net : nat * nat) | LOAD_VEC4A (arr k : nat)
| JMP (cptr : nat) | JMP0 (cptr flag : nat) | JMP0XZ (cptr flag : nat) | JMP1 (cptr flag : nat) | JMP1XZ (cptr flag : nat)
| NOOP.

Definition jump_if (test : vvp_bit4_t -> bool) (cptr flag : nat) (thr : vthread) : option vthread :=
  b ← get_flag thr flag; Some (if test b then with_pc thr cptr else thr).

(** The opcode function of an instruction. *)
Definition exec (i : instr) : vthread -> option vthread :=
  match i with
  | ADD => of_ADD | ADDI a b w => of_ADDI a b w | SUB => of_SUB | SUBI a b w => of_SUBI a b w
  | MUL => of_MUL | MULI a b w => of_MULI a b w | DIV => of_DIV | DIV_S => of_DIV_S
  | MOD => of_MOD | MOD_S => of_MOD_S | POW => of_POW | POW_S => of_POW_S
  | AND => of_AND | OR => of_OR | NAND => of_NAND | NOR => of_NOR | XOR => of_XOR | XNOR => of_XNOR
  | INV => of_INV | ANDR => of_ANDR | NANDR => of_NANDR | ORR => of_ORR | NORR => of_NORR
  | XORR => of_XORR | XNORR => of_XNORR | BLEND => of_BLEND | CAST2 => of_CAST2
  | CMPE => of_CMPE | CMPNE => of_CMPNE | CMPIE a b w => of_CMPIE a b w | CMPINE a b w => of_CMPINE a b w
  | CMPS => of_CMPS | CMPIS a b w => of_CMPIS a b w | CMPU => of_CMPU | CMPIU a b w => of_CMPIU a b w
  | CMPX => of_CMPX | CMPZ => of_CMPZ | CMPWE => of_CMPWE | CMPWNE => of_CMPWNE
  | CMPWS l r => of_CMPWS l r | CMPWU l r => of_CMPWU l r
  | CONCAT_VEC4 => of_CONCAT_VEC4 | CONCATI_VEC4 a b w => of_CONCATI_VEC4 a b w | REPLICATE n => of_REPLICATE n
  | PAD_S w => of_PAD_S w | PAD_U w => of_PAD_U w | PART_S w => of_PART_S w | PART_U w => of_PART_U w
  | PARTI_S w b bw => of_PARTI_S w b bw | PARTI_U w b bw => of_PARTI_U w b bw
  | SPLIT_VEC4 w => of_SPLIT_VEC4 w | DUP_VEC4 => of_DUP_VEC4 | POP_VEC4 n => of_POP_VEC4 n
  | PUSHI_VEC4 a b w => of_PUSHI_VEC4 a b w
  | IX_ADD k l h => of_IX_ADD k l h | IX_SUB k l h => of_IX_SUB k l h | IX_MUL k l h => of_IX_MUL k l h
  | IX_LOAD k l h => of_IX_LOAD k l h | IX_MOV a b => of_IX_MOV a b
  | IX_GETV k n => of_IX_GETV k n | IX_GETV_S k n => of_IX_GETV_S k n
  | IX_VEC4 k => of_IX_VEC4 k | IX_VEC4_S k => of_IX_VEC4_S k
  | FLAG_GET_VEC4 k => of_FLAG_GET_VEC4 k | FLAG_INV k => of_FLAG_INV k | FLAG_MOV a b => of_FLAG_MOV a b
  | FLAG_OR a b => of_FLAG_OR a b | FLAG_SET_IMM k v => of_FLAG_SET_IMM k v | FLAG_SET_VEC4 k => of_FLAG_SET_VEC4 k
  | SHIFTL k => of_SHIFTL k | SHIFTR k => of_SHIFTR k | SHIFTR_S k => of_SHIFTR_S k
  | LOAD_VEC4 n => of_LOAD_VEC4 n | LOAD_VEC4A a k => of_LOAD_VEC4A a k
  | JMP c => fun thr => Some (with_pc thr c)
  | JMP0 c f => jump_if (fun b => bit4_eqb b BIT4_0) c f
  | JMP0XZ c f => jump_if (fun b => negb (bit4_eqb b BIT4_1)) c f
  | JMP1 c f => jump_if (fun b => bit4_eqb b BIT4_1) c f
  | JMP1XZ c f => jump_if (fun b => negb (bit4_eqb b BIT4_0)) c f
  | NOOP => Some
  end.

Definition is_jump (i : instr) : bool :=
  match i with JMP _ | JMP0 _ _ | JMP0XZ _ _ | JMP1 _ _ | JMP1XZ _ _ => true | _ => false end.

(** One round of the loop of [vthread_run]: fetch, increment the program counter, execute.
    The flag is the return value of the opcode: a jump pauses the thread when
    [schedule_stopped()]. *)
Definition vthread_step (stopped : bool) (code : list instr) (thr : vthread) : option (vthread * bool) :=
  i ← code !! pc thr;
  thr ← exec i (with_pc thr (pc thr + 1));
  Some (thr, negb (is_jump i && stopped)).
End Run.
