(* ===== verification/VThreadSpec.v ===== *)
(** The instructions of the thread interpreter against the operators on bit lists. *)
From S2P Require Import Prelude MachineWord VvpBit VvpVector4 VvpSlice WordArith VvpArith VvpVector2 VvpCompare.
From S2P Require Import BitList VvpFunctor WordDiv VThread.

(** * Vectors built from ranges *)

Lemma bitwise_is n g v l :
  bitwise n g v -> length l = n -> (forall i, (i < n)%nat -> nth i l BIT4_X = g i) -> vec_is v l.
Proof.
  intros (Hw & Hs & Hb) Hl H. apply vec_is_from; [done|congruence|]. intros i Hi. rewrite Hb, H by lia. done.
Qed.

Lemma nth_prefix {A} n i (l : list A) d : (i < n)%nat -> nth i (take n l) d = nth i l d.
Proof. intros Hi. rewrite !nth_lookup, lookup_take_lt by done. done. Qed.

Lemma nth_drop {A} n i (l : list A) d : nth i (drop n l) d = nth (n + i) l d.
Proof. by rewrite !nth_lookup, lookup_drop. Qed.

Lemma nth_replicate {A} n i (x d : A) : (i < n)%nat -> nth i (replicate n x) d = x.
Proof. intros Hi. by rewrite nth_lookup, lookup_replicate_2. Qed.

(** Writing [m] at [adr] of [l]. *)
Definition overwrite (adr : nat) (m l : list vvp_bit4_t) : list vvp_bit4_t :=
  take adr l ++ m ++ drop (adr + length m) l.

Lemma nth_overwrite adr m l i :
  (adr + length m <= length l)%nat ->
  nth i (overwrite adr m l) BIT4_X =
    if (adr <=? i)%nat && (i <? adr + length m)%nat then nth (i - adr) m BIT4_X else nth i l BIT4_X.
Proof.
  intros H. unfold overwrite. destruct (Nat.leb_spec adr i) as [Ha|Ha]; cbn [andb].
  - rewrite app_nth2 by (rewrite length_take; lia). rewrite length_take, Nat.min_l by lia.
    destruct (Nat.ltb_spec i (adr + length m)) as [Hb|Hb].
    + rewrite app_nth1 by lia. done.
    + rewrite app_nth2 by lia. rewrite nth_drop. f_equal. lia.
  - rewrite app_nth1 by (rewrite length_take; lia). by rewrite nth_prefix.
Qed.

Lemma length_overwrite adr m l : (adr + length m <= length l)%nat -> length (overwrite adr m l) = length l.
Proof. intros H. unfold overwrite. rewrite !length_app, length_take, length_drop. lia. Qed.

Lemma set_vec_is v adr that l m :
  vec_is v l -> vec_is that m -> (0 < length m)%nat -> (adr + length m <= length l)%nat ->
  exists r d, set_vec v adr that = Some (r, d) /\ vec_is r (overwrite adr m l).
Proof.
  intros Hv Ht H0 Ha. rewrite <- (vec_is_size _ _ Ht), <- (vec_is_size _ _ Hv) in *.
  destruct (set_vec_spec v adr that (vec_is_wf _ _ Hv) (vec_is_wf _ _ Ht) H0 Ha) as (r & d & E & Hr & _).
  exists r, d. split; [done|]. rewrite (vec_is_size _ _ Hv), (vec_is_size _ _ Ht) in *.
  apply (bitwise_is _ _ _ _ Hr); [by apply length_overwrite|]. intros i Hi.
  rewrite nth_overwrite, <- (vec_is_value _ _ _ Hv), <- (vec_is_value _ _ _ Ht) by done. done.
Qed.

(** Writing a vector without bits at 0 changes nothing. *)
Lemma set_vec_nothing v that : wf4 v -> size that = 0%nat -> set_vec v 0 that = Some (v, false).
Proof.
  intros Hv H0. unfold set_vec, set_vec_plane. rewrite H0. rewrite (proj2 (Nat.leb_le _ _)) by lia.
  assert (Hput : forall mask ws src, mask = 0 -> put mask (Z.land src mask) 0 (ws, false) = (ws, false)).
  { intros mask ws src ->. unfold put. by rewrite !Z.land_0_r. }
  unfold set_vec_short, set_vec_short_source. change (0 / W)%nat with 0%nat. change (0 mod W)%nat with 0%nat.
  rewrite !Hput by done. destruct v as [n a b]. cbn [size abits bbits]. by destruct (n <=? W)%nat.
Qed.

Lemma subvalue_is v l lo n :
  vec_is v l -> (lo + n <= length l)%nat -> exists r, subvalue v lo n = Some r /\ vec_is r (take n (drop lo l)).
Proof.
  intros Hv Hn. destruct (subvalue_spec v lo n (vec_is_wf _ _ Hv)) as (r & E & Hr). exists r. split; [done|].
  apply (bitwise_is _ _ _ _ Hr); [rewrite length_take, length_drop; lia|]. intros i Hi.
  rewrite nth_prefix, nth_drop by done. by rewrite (vec_is_value _ _ _ Hv).
Qed.

(** * Stack operators *)

(** [f] computes [g] on vectors of the same width. *)
Definition implements2 (f : vvp_vector4_t -> vvp_vector4_t -> option vvp_vector4_t)
    (g : list vvp_bit4_t -> list vvp_bit4_t -> list vvp_bit4_t) : Prop :=
  forall vl vr l r, vec_is vl l -> vec_is vr r -> length l = length r -> (0 < length l)%nat ->
    exists v, f vl vr = Some v /\ vec_is v (g l r).

Definition implements1 (f : vvp_vector4_t -> option vvp_vector4_t) (g : list vvp_bit4_t -> list vvp_bit4_t) : Prop :=
  forall v l, vec_is v l -> (0 < length l)%nat -> exists r, f v = Some r /\ vec_is r (g l).

Lemma implements_strict f op :
  (forall a b, wf4 a -> wf4 b -> size a = size b -> exists r, f a b = Some r /\ arith_result a b (op (vec_Z a) (vec_Z b)) r) ->
  implements2 f (bv_strict op).
Proof.
  intros H vl vr l r Hl Hr Hlen _.
  destruct (H vl vr (vec_is_wf _ _ Hl) (vec_is_wf _ _ Hr)) as (v & E & HA).
  { by rewrite (vec_is_size _ _ Hl), (vec_is_size _ _ Hr). }
  exists v. split; [done|]. by apply (arith_result_strict op vl vr).
Qed.

Lemma add_implements : implements2 add bv_add. Proof. apply implements_strict, add_result. Qed.
Lemma sub_implements : implements2 sub bv_sub. Proof. apply implements_strict, sub_result. Qed.
Lemma mul_implements : implements2 mul bv_mul. Proof. apply implements_strict, mul_result. Qed.

(** ** Bit by bit *)

Lemma nth_map2 f l r i :
  length l = length r -> (i < length l)%nat -> nth i (bv_map2 f l r) BIT4_X = f (nth i l BIT4_X) (nth i r BIT4_X).
Proof.
  intros Hl Hi. unfold bv_map2. rewrite !nth_lookup, lookup_zip_with.
  destruct (lookup_lt_is_Some_2 l i Hi) as [x ->]. destruct (lookup_lt_is_Some_2 r i ltac:(lia)) as [y ->]. done.
Qed.

Lemma length_map2 f l r : length l = length r -> length (bv_map2 f l r) = length l.
Proof. intros H. unfold bv_map2. rewrite length_zip_with. lia. Qed.

Lemma bitwise_map2 f vl vr l r v :
  vec_is vl l -> vec_is vr r -> length l = length r ->
  bitwise (size vl) (fun i => f (value vl i) (value vr i)) v -> vec_is v (bv_map2 f l r).
Proof.
  intros Hl Hr Hlen Hb. apply (bitwise_is _ _ _ _ Hb).
  - rewrite length_map2 by done. symmetry. by apply vec_is_size.
  - intros i Hi. rewrite (vec_is_size _ _ Hl) in Hi. rewrite nth_map2 by done.
    by rewrite (vec_is_value _ _ _ Hl), (vec_is_value _ _ _ Hr).
Qed.

Lemma and_implements : implements2 (same_size (fun l r => Some (and_assign l r))) (bv_map2 bit4_and).
Proof.
  intros vl vr l r Hl Hr Hlen _. pose proof (vec_is_size _ _ Hl) as Sl. pose proof (vec_is_size _ _ Hr) as Sr.
  unfold same_size. rewrite (proj2 (Nat.eqb_eq _ _)) by congruence. eexists. split; [done|].
  apply (bitwise_map2 _ vl vr); try done. apply and_assign_spec; [apply Hl|apply Hr|congruence].
Qed.

Lemma or_implements : implements2 (fun l r => Some (or_assign l r)) (bv_map2 bit4_or).
Proof.
  intros vl vr l r Hl Hr Hlen _. pose proof (vec_is_size _ _ Hl) as Sl. pose proof (vec_is_size _ _ Hr) as Sr.
  eexists. split; [done|].
  apply (bitwise_map2 _ vl vr); try done. apply or_assign_spec; [apply Hl|apply Hr|congruence].
Qed.

(** A loop that rewrites each bit of a vector in place from its own value. *)
Lemma in_place_loop_at (f : nat -> vvp_bit4_t -> vvp_bit4_t) (body : nat -> option vvp_vector4_t -> option vvp_vector4_t) v n :
  wf4 v -> (n <= size v)%nat ->
  (forall idx t, wf4 t -> size t = size v -> (idx < n)%nat -> exists t', body idx (Some t) = Some t' /\ wf4 t' /\ size t' = size t /\
     forall i, value t' i = if (i =? idx)%nat then f idx (value t idx) else value t i) ->
  exists r, for_upto n body (Some v) = Some r /\
    bitwise (size v) (fun i => if (i <? n)%nat then f i (value v i) else value v i) r.
Proof.
  intros Hv Hn Hb. induction n as [|n IH]; cbn [for_upto]; [exists v; by split_and!|].
  destruct IH as (r & -> & Wr & Sr & Br); [lia|intros idx t H1 H2 H3; apply Hb; (done || lia)|].
  destruct (Hb n r Wr Sr ltac:(lia)) as (r' & E & W' & S' & B'). exists r'. split; [done|].
  split_and!; [done|congruence|]. intros i Hi. rewrite B'. destruct (Nat.eqb_spec i n) as [->|Hne].
  - rewrite (proj2 (Nat.ltb_lt n (S n))) by lia. rewrite Br by lia. by rewrite Nat.ltb_irrefl.
  - rewrite Br by lia. repeat case_cmp; (done || lia).
Qed.

Lemma in_place_loop (f : nat -> vvp_bit4_t -> vvp_bit4_t) (body : nat -> option vvp_vector4_t -> option vvp_vector4_t) v n :
  wf4 v -> (n <= size v)%nat ->
  (forall idx t, wf4 t -> (idx < size t)%nat -> exists t', body idx (Some t) = Some t' /\ wf4 t' /\ size t' = size t /\
     forall i, value t' i = if (i =? idx)%nat then f idx (value t idx) else value t i) ->
  exists r, for_upto n body (Some v) = Some r /\
    bitwise (size v) (fun i => if (i <? n)%nat then f i (value v i) else value v i) r.
Proof. intros Hv Hn Hb. apply in_place_loop_at; [done|done|]. intros idx t Ht Hs Hi. apply Hb; [done|lia]. Qed.

Lemma bitwise_all v f r : bitwise (size v) (fun i => if (i <? size v)%nat then f i (value v i) else value v i) r ->
  bitwise (size v) (fun i => f i (value v i)) r.
Proof. intros (Hw & Hs & Hb). split_and!; [done|done|]. intros i Hi. by rewrite Hb, (proj2 (Nat.ltb_lt _ _)). Qed.

Lemma set_bit_body (f : nat -> vvp_bit4_t -> vvp_bit4_t) idx t :
  wf4 t -> (idx < size t)%nat -> exists t', (t ← Some t; set_bit t idx (f idx (value t idx))) = Some t' /\
    wf4 t' /\ size t' = size t /\ forall i, value t' i = if (i =? idx)%nat then f idx (value t idx) else value t i.
Proof. intros Hw Hi. cbn [mbind option_bind]. by apply set_bit_spec. Qed.

Lemma bit_loop_implements f : implements2 (same_size (bit_loop f)) (bv_map2 f).
Proof.
  intros vl vr l r Hl Hr Hlen _. pose proof (vec_is_size _ _ Hl) as Sl. pose proof (vec_is_size _ _ Hr) as Sr.
  unfold same_size. rewrite (proj2 (Nat.eqb_eq _ _)) by congruence.
  destruct (in_place_loop (fun idx b => f b (value vr idx))
    (fun idx t => t ← t; set_bit t idx (f (value t idx) (value vr idx))) vl (size vl)) as (v & E & Hb);
    [apply Hl|done|intros; by apply (set_bit_body (fun idx b => f b (value vr idx)))|].
  exists v. split; [done|]. apply (bitwise_all vl (fun idx b => f b (value vr idx))) in Hb.
  by apply (bitwise_map2 f vl vr).
Qed.

Lemma map_is f v l r : vec_is v l -> bitwise (size v) (fun i => f (value v i)) r -> vec_is r (map f l).
Proof.
  intros Hv Hb. apply (bitwise_is _ _ _ _ Hb); [by rewrite length_map, (vec_is_size _ _ Hv)|].
  intros i Hi. rewrite (vec_is_size _ _ Hv) in Hi. rewrite (vec_is_value _ _ _ Hv).
  rewrite nth_indep with (d' := f BIT4_X) by (by rewrite length_map). by rewrite map_nth.
Qed.

Lemma inv_implements : implements1 (fun v => Some (invert v)) (map bit4_not).
Proof. intros v l Hv _. eexists. split; [done|]. apply (map_is _ v); [done|]. apply invert_spec, Hv. Qed.

(** [%blend] joins the two branches of an unknown condition. *)
Definition bit_blend (a b : vvp_bit4_t) : vvp_bit4_t := if bit4_eqb a b then a else BIT4_X.

Lemma bit4_eqb_eq a b : bit4_eqb a b = true <-> a = b.
Proof. unfold bit4_eqb. by rewrite bool_decide_eq_true. Qed.

Lemma blend_implements : implements2 blend (fun l r => bv_map2 bit_blend r l).
Proof.
  intros vl vr l r Hl Hr Hlen _. pose proof (vec_is_size _ _ Hl) as Sl. pose proof (vec_is_size _ _ Hr) as Sr.
  unfold blend. rewrite (proj2 (Nat.eqb_eq _ _)) by congruence.
  destruct (in_place_loop (fun idx b => bit_blend b (value vl idx))
    (fun idx t => t ← t; if bit4_eqb (value t idx) (value vl idx) then Some t else set_bit t idx BIT4_X)
    vr (size vr)) as (v & E & Hb); [apply Hr|done| |].
  - intros idx t Hw Hi. cbn [mbind option_bind]. unfold bit_blend. destruct (bit4_eqb _ _); [|by apply set_bit_spec].
    exists t. split_and!; [done|done|done|]. intros i. by destruct (Nat.eqb_spec i idx) as [->|].
  - exists v. split; [done|]. apply (bitwise_all vr (fun idx b => bit_blend b (value vl idx))) in Hb.
    by apply (bitwise_map2 bit_blend vr vl).
Qed.

Definition bit_cast2 (b : vvp_bit4_t) : vvp_bit4_t := if bit4_is_xz b then BIT4_0 else b.

Lemma cast2_implements : implements1 cast2 (map bit_cast2).
Proof.
  intros v l Hv _. unfold cast2.
  destruct (in_place_loop (fun _ => bit_cast2)
    (fun idx t => t ← t; match value t idx with BIT4_0 | BIT4_1 => Some t | _ => set_bit t idx BIT4_0 end)
    v (size v)) as (r & E & Hb); [apply Hv|done| |].
  - intros idx t Hw Hi. cbn [mbind option_bind].
    destruct (value t idx) eqn:Ev;
      try (exists t; split_and!; [done|done|done|]; intros i; destruct (Nat.eqb_spec i idx) as [->|]; by rewrite ?Ev);
      by apply set_bit_spec.
  - exists r. split; [done|]. apply (bitwise_all v (fun _ => bit_cast2)) in Hb. by apply (map_is bit_cast2 v).
Qed.

(** ** Reductions *)

(** What a loop that stops early computes, when the values it goes on with satisfy [P] and
    the value it stops with does not change any more. *)
Lemma reduce_loop_spec (f : vvp_bit4_t -> vvp_bit4_t -> vvp_bit4_t * bool) g (P : vvp_bit4_t -> Prop) val l :
  vec_is val l ->
  (forall a b, P a -> fst (f a b) = g a b) ->
  (forall a b, P a -> if snd (f a b) then forall c, g (g a b) c = g a b else P (g a b)) ->
  forall cnt idx lb, (idx + cnt = length l)%nat -> P lb ->
    reduce_loop f cnt idx val lb = fold_left g (drop idx l) lb.
Proof.
  intros Hv Hf Hstop. assert (Hfix : forall m x, (forall c, g x c = x) -> fold_left g m x = x).
  { induction m as [|c m IH]; intros x Hx; [done|]. cbn [fold_left]. rewrite Hx. by apply IH. }
  induction cnt as [|c IH]; intros idx lb Hl HP; cbn [reduce_loop].
  - by rewrite drop_ge by lia.
  - rewrite (vec_is_value _ _ _ Hv). destruct (lookup_lt_is_Some_2 l idx ltac:(lia)) as [b Eb].
    rewrite (drop_S l b) by done. rewrite nth_lookup, Eb. cbn [fold_left]. change (default BIT4_X (Some b)) with b.
    specialize (Hf lb b HP). specialize (Hstop lb b HP).
    destruct (f lb b) as [b' stop]. cbn [fst snd] in *. subst b'.
    destruct stop; [by rewrite Hfix|]. rewrite IH by (done || lia). by rewrite Nat.add_1_r.
Qed.

(** The six reductions as folds of the four-valued operators. *)
Definition bv_reduce_with (g : vvp_bit4_t -> vvp_bit4_t -> vvp_bit4_t) (e : vvp_bit4_t) (l : list vvp_bit4_t) : list vvp_bit4_t :=
  [fold_left g l e].

Lemma reduction_implements (f : vvp_bit4_t -> vvp_bit4_t -> vvp_bit4_t * bool) g (P : vvp_bit4_t -> Prop) e :
  (forall a b, P a -> fst (f a b) = g a b) ->
  (forall a b, P a -> if snd (f a b) then forall c, g (g a b) c = g a b else P (g a b)) ->
  P e -> implements1 (reduction f e) (bv_reduce_with g e).
Proof.
  intros Hf Hs He v l Hv _. eexists. split; [done|].
  rewrite (reduce_loop_spec f g P v l Hv Hf Hs) by (done || by rewrite (vec_is_size _ _ Hv)).
  rewrite drop_0. apply (vec_is_fill 1).
Qed.

Ltac reduction_cases := intros; repeat match goal with b : vvp_bit4_t |- _ => destruct b end; cbn in *;
  try (intros c; destruct c); intuition (first [done|by left|by right]).

Lemma andr_implements : implements1 (reduction (control_bit BIT4_0 BIT4_1 BIT4_0) BIT4_1) (bv_reduce_with bit4_and BIT4_1).
Proof. apply (reduction_implements _ _ (fun a => a = BIT4_1 \/ a = BIT4_X)); [| |by left]; reduction_cases. Qed.
Lemma orr_implements : implements1 (reduction (control_bit BIT4_1 BIT4_0 BIT4_1) BIT4_0) (bv_reduce_with bit4_or BIT4_0).
Proof. apply (reduction_implements _ _ (fun a => a = BIT4_0 \/ a = BIT4_X)); [| |by left]; reduction_cases. Qed.
Lemma xorr_implements : implements1 (reduction parity_bit BIT4_0) (bv_reduce_with bit4_xor BIT4_0).
Proof. apply (reduction_implements _ _ (fun a => a = BIT4_0 \/ a = BIT4_1)); [| |by left]; reduction_cases. Qed.

(** An inverted reduction starts from the inverted value and goes through inverted values. *)
Lemma fold_left_not (g h : vvp_bit4_t -> vvp_bit4_t -> vvp_bit4_t) (l : list vvp_bit4_t) e :
  (forall a b, h (bit4_not a) b = bit4_not (g a b)) -> fold_left h l (bit4_not e) = bit4_not (fold_left g l e).
Proof. intros H. revert e. induction l as [|b l IH]; intros e; [done|]. cbn [fold_left]. by rewrite H, IH. Qed.

Lemma inverted_reduction (f : vvp_bit4_t -> vvp_bit4_t -> vvp_bit4_t * bool) g (P : vvp_bit4_t -> Prop) e :
  (forall a b, P a -> fst (f a b) = bit4_not (g (bit4_not a) b)) ->
    (forall a b, P a -> if snd (f a b) then forall c, bit4_not (g (bit4_not (bit4_not (g (bit4_not a) b))) c) = bit4_not (g (bit4_not a) b)
                      else P (bit4_not (g (bit4_not a) b))) ->
  P (bit4_not e) -> (forall a b, g (bit4_not (bit4_not a)) b = g a b) ->
  implements1 (reduction f (bit4_not e)) (fun l => map bit4_not (bv_reduce_with g e l)).
Proof.
  intros Hf Hs He Hz v l Hv Hp.
  destruct (reduction_implements f (fun a b => bit4_not (g (bit4_not a) b)) P
    (bit4_not e) Hf Hs He v l Hv Hp) as (r & E & Hr).
  exists r. split; [done|]. unfold bv_reduce_with in *. cbn [map].
  rewrite (fold_left_not g) in Hr by (intros; by rewrite Hz). done.
Qed.

Lemma nandr_implements : implements1 (reduction (control_bit BIT4_0 BIT4_1 BIT4_1) BIT4_0)
  (fun l => map bit4_not (bv_reduce_with bit4_and BIT4_1 l)).
Proof. apply (inverted_reduction _ bit4_and (fun a => a = BIT4_0 \/ a = BIT4_X) BIT4_1); [| |by left|]; reduction_cases. Qed.
Lemma norr_implements : implements1 (reduction (control_bit BIT4_1 BIT4_0 BIT4_0) BIT4_1)
  (fun l => map bit4_not (bv_reduce_with bit4_or BIT4_0 l)).
Proof. apply (inverted_reduction _ bit4_or (fun a => a = BIT4_1 \/ a = BIT4_X) BIT4_0); [| |by left|]; reduction_cases. Qed.
Lemma xnorr_implements : implements1 (reduction parity_bit BIT4_1)
  (fun l => map bit4_not (bv_reduce_with bit4_xor BIT4_0 l)).
Proof. apply (inverted_reduction _ bit4_xor (fun a => a = BIT4_0 \/ a = BIT4_1) BIT4_0); [| |by right|]; reduction_cases. Qed.

(** * Comparisons *)

(** The loop over a pair of lists. *)
Fixpoint cmp_list (skip : bool) (l r : list vvp_bit4_t) (eq eeq : vvp_bit4_t) : vvp_bit4_t * vvp_bit4_t :=
  match l, r with
  | lv :: l', rv :: r' =>
      let eeq := if bit4_eqb lv rv then eeq else BIT4_0 in
      if skip && bit4_is_xz rv then cmp_list skip l' r' eq eeq else
      let eq := if bit4_eqb eq BIT4_1 && (bit4_is_xz lv || bit4_is_xz rv) then BIT4_X else eq in
      if bits_differ lv rv then (BIT4_0, eeq) else cmp_list skip l' r' eq eeq
  | _, _ => (eq, eeq)
  end.

Lemma drop_nth (l : list vvp_bit4_t) i : (i < length l)%nat -> drop i l = nth i l BIT4_X :: drop (S i) l.
Proof.
  intros Hi. destruct (lookup_lt_is_Some_2 l i Hi) as [b Eb]. rewrite (drop_S l b) by done.
  by rewrite nth_lookup, Eb.
Qed.

Lemma cmp_loop_list skip vl vr l r :
  vec_is vl l -> vec_is vr r -> length l = length r ->
  forall cnt idx eq eeq, (idx + cnt = length l)%nat -> eq <> BIT4_0 ->
    cmp_loop skip cnt idx vl vr eq eeq = cmp_list skip (drop idx l) (drop idx r) eq eeq.
Proof.
  intros Hl Hr Hlen. induction cnt as [|c IH]; intros idx eq eeq Hc Heq; cbn [cmp_loop].
  - rewrite !drop_ge by lia. done.
  - rewrite (vec_is_value _ _ _ Hl), (vec_is_value _ _ _ Hr).
    rewrite (drop_nth l), (drop_nth r) by lia. cbn [cmp_list].
    set (lv := nth idx l BIT4_X). set (rv := nth idx r BIT4_X). rewrite Nat.add_1_r.
    destruct (skip && bit4_is_xz rv); [apply IH; [lia|done]|].
    assert (Hx : BIT4_X <> BIT4_0) by done.
    destruct eq; [done| | |];
      destruct lv, rv; cbn; try (apply IH; [lia|done]); done.
Qed.

Definition any2 (p : vvp_bit4_t -> vvp_bit4_t -> bool) (l r : list vvp_bit4_t) : bool :=
  existsb (fun '(a, b) => p a b) (combine l r).

Lemma cmp_list_spec l r eq eeq :
  length l = length r -> eq = BIT4_1 \/ eq = BIT4_X ->
  cmp_list false l r eq eeq =
    (if any2 bits_differ l r then BIT4_0
     else if bit4_eqb eq BIT4_X || unknown l || unknown r then BIT4_X else BIT4_1,
     if bool_decide (l = r) then eeq else BIT4_0).
Proof.
  revert r eq eeq. induction l as [|lv l IH]; intros [|rv r] eq eeq Hlen Heq; try done.
  { cbn. by destruct Heq as [-> | ->]. }
  cbn [cmp_list]. cbn [andb]. unfold any2, unknown in *. cbn [combine existsb].
  destruct (bits_differ lv rv) eqn:Ed.
  - cbn [orb]. f_equal. rewrite bool_decide_eq_false_2; [by destruct lv, rv|].
    intros [= -> ->]. by destruct rv.
  - cbn [orb]. rewrite IH; [|by injection Hlen|destruct Heq as [-> | ->], lv, rv; cbn; auto].
    f_equal.
    + destruct (existsb _ (combine l r)); [done|]. by destruct Heq as [-> | ->], lv, rv; simpl; rewrite ?orb_true_r.
    + destruct (decide (lv = rv)) as [->|Hne].
      * destruct (decide (l = r)) as [->|Hl].
        -- rewrite !bool_decide_eq_true_2 by done. by destruct rv.
        -- rewrite !bool_decide_eq_false_2 by congruence. done.
      * rewrite (bool_decide_eq_false_2 (lv :: l = rv :: r)) by congruence.
        destruct (bool_decide (l = r)); [|done]. by destruct lv, rv.
Qed.

Lemma cmp_list_skip l r eq eeq :
  length l = length r -> eq = BIT4_1 \/ eq = BIT4_X ->
  fst (cmp_list true l r eq eeq) =
    if any2 bits_differ l r then BIT4_0
    else if bit4_eqb eq BIT4_X || any2 (fun a b => bit4_is_xz a && negb (bit4_is_xz b)) l r then BIT4_X else BIT4_1.
Proof.
  revert r eq eeq. induction l as [|lv l IH]; intros [|rv r] eq eeq Hlen Heq; try done.
  { cbn. by destruct Heq as [-> | ->]. }
  cbn [cmp_list]. cbn [andb]. unfold any2 in *. cbn [combine existsb].
  destruct (bit4_is_xz rv) eqn:Ex.
  - rewrite IH by (by injection Hlen || done). unfold bits_differ at 2. rewrite Ex, andb_false_r, andb_false_r. done.
  - destruct (bits_differ lv rv) eqn:Ed; [done|].
    rewrite IH; [|by injection Hlen|destruct Heq as [-> | ->], lv, rv; cbn; auto]. cbn [orb].
    destruct (existsb _ (combine l r)); [done|].
    by destruct Heq as [-> | ->], lv, rv; simpl in *; rewrite ?orb_true_r.
Qed.

(** Thread states with the flags and registers of [vthread_s]. *)
Record wf_thread (thr : vthread) : Prop := {
  wt_flags : length (flags thr) = FLAGS_COUNT;
  wt_regs : length (regs thr) = WORDS_COUNT }.

Definition put_flag (k : nat) (b : vvp_bit4_t) (thr : vthread) : vthread :=
  mkThread (pc thr) (<[k := b]> (flags thr)) (regs thr) (stack_vec4_ thr).
Definition put_word (k : nat) (x : Z) (thr : vthread) : vthread :=
  mkThread (pc thr) (flags thr) (<[k := x]> (regs thr)) (stack_vec4_ thr).

Lemma set_flag_wf thr k b : wf_thread thr -> (k < FLAGS_COUNT)%nat -> set_flag thr k b = Some (put_flag k b thr).
Proof. intros [H _] Hk. unfold set_flag. by rewrite H, (proj2 (Nat.ltb_lt _ _) Hk). Qed.
Lemma set_word_wf thr k x : wf_thread thr -> (k < WORDS_COUNT)%nat -> set_word thr k x = Some (put_word k x thr).
Proof. intros [_ H] Hk. unfold set_word. by rewrite H, (proj2 (Nat.ltb_lt _ _) Hk). Qed.
Lemma put_flag_wf k b thr : wf_thread thr -> wf_thread (put_flag k b thr).
Proof. intros [H1 H2]. split; [by rewrite <- H1; apply length_insert|done]. Qed.
Lemma put_word_wf k x thr : wf_thread thr -> wf_thread (put_word k x thr).
Proof. intros [H1 H2]. split; [done|by rewrite <- H2; apply length_insert]. Qed.
Lemma with_stack_wf thr st : wf_thread thr -> wf_thread (with_stack thr st).
Proof. by intros [H1 H2]. Qed.
Lemma get_put_flag k j b thr : wf_thread thr -> (k < FLAGS_COUNT)%nat ->
  get_flag (put_flag k b thr) j = if (j =? k)%nat then Some b else get_flag thr j.
Proof.
  intros [H _] Hk. unfold get_flag, put_flag. cbn [flags]. destruct (Nat.eqb_spec j k) as [->|Hne].
  - apply list_lookup_insert_eq. by rewrite H.
  - by apply list_lookup_insert_ne.
Qed.
Create HintDb thread.
#[export] Hint Resolve put_flag_wf put_word_wf with_stack_wf : thread.

Lemma flag_lt_8 k : (k < 8)%nat -> (k < FLAGS_COUNT)%nat.
Proof. unfold FLAGS_COUNT. lia. Qed.

Ltac small_flag := apply flag_lt_8; lia.

(** The three flags of a comparison. *)
Definition put_flags3 (eq lt eeq : vvp_bit4_t) (thr : vthread) : vthread :=
  put_flag 6 eeq (put_flag 5 lt (put_flag 4 eq thr)).

Lemma set_flags3_wf eq lt eeq thr : wf_thread thr -> set_flags3 eq lt eeq thr = Some (put_flags3 eq lt eeq thr).
Proof.
  intros Hw. unfold set_flags3. rewrite set_flag_wf by (done || small_flag). cbn [mbind option_bind].
  rewrite set_flag_wf by (auto with thread || small_flag). cbn [mbind option_bind].
  by rewrite set_flag_wf by (auto with thread || small_flag).
Qed.

Section Compare.
Context (vl vr : vvp_vector4_t) (l r : list vvp_bit4_t).
Context (Hl : vec_is vl l) (Hr : vec_is vr r) (Hlen : length l = length r) (Hpos : (0 < length l)%nat).

Lemma sizes_equal : (size vr =? size vl)%nat = true.
Proof. apply Nat.eqb_eq. by rewrite (vec_is_size _ _ Hl), (vec_is_size _ _ Hr). Qed.

Lemma has_xz_unknown v m : vec_is v m -> (0 < length m)%nat -> has_xz v = unknown m.
Proof.
  intros Hv Hm. rewrite <- (vec_is_size _ _ Hv) in Hm.
  pose proof (has_xz_known v (vec_is_wf _ _ Hv) Hm) as H. rewrite (unknown_known _ _ Hv) in H.
  destruct (has_xz v), (unknown m); intuition discriminate.
Qed.

Lemma eeq_is : bool_bit (eeq vl vr) = bv_eeq l r.
Proof.
  unfold bv_eeq, bool_bit, bit_of_bool.
  assert (H : eeq vl vr = true <-> l = r).
  { rewrite eeq_spec by (apply Hl || apply Hr). split.
    - intros [Hs Hb]. destruct Hl as [_ <-], Hr as [_ <-]. unfold bits_of. rewrite Hs.
      apply map_seq_ext. intros i Hi. apply Hb. lia.
    - intros E. apply (vec_is_same _ _ r); [by rewrite <- E|done]. }
  destruct (eeq vl vr).
  - by rewrite bool_decide_eq_true_2 by (by apply H).
  - rewrite bool_decide_eq_false_2; [done|]. intros E. by apply H in E.
Qed.

(** Without unknown bits the two equalities are one. *)
Lemma eq_eeq_known : unknown l = false -> unknown r = false -> bv_eq l r = bv_eeq l r.
Proof.
  intros Ul Ur. unfold bv_eq, bv_eeq. rewrite Ul, Ur. cbn [orb]. clear Hl Hr Hpos.
  revert r Hlen Ur. induction l as [|a l' IH]; intros [|b r'] Hlen' Ur; try done.
  unfold unknown in Ul, Ur. cbn [existsb] in Ul, Ur. apply orb_false_iff in Ul as [Ua Ul], Ur as [Ub Ur].
  cbn [combine existsb]. specialize (IH Ul r' ltac:(simpl in Hlen'; lia) Ur).
  destruct (decide (a = b)) as [->|Hne].
  - replace (bits_differ b b) with false by (by destruct b). cbn [orb]. rewrite IH.
    destruct (decide (l' = r')) as [->|Hl'].
    + by rewrite !bool_decide_eq_true_2 by done.
    + by rewrite !bool_decide_eq_false_2 by congruence.
  - replace (bits_differ a b) with true by (by destruct a, b). cbn [orb].
    by rewrite bool_decide_eq_false_2 by congruence.
Qed.

Lemma cmp_loop_is : cmp_loop false (size vl) 0 vl vr BIT4_1 BIT4_1 = (bv_eq l r, bv_eeq l r).
Proof.
  rewrite (cmp_loop_list false vl vr l r) by (done || by rewrite (vec_is_size _ _ Hl)).
  rewrite !drop_0, cmp_list_spec by auto. done.
Qed.

Lemma do_CMPE_is thr : wf_thread thr ->
  do_CMPE vl vr thr = Some (put_flag 6 (bv_eeq l r) (put_flag 4 (bv_eq l r) thr)).
Proof.
  intros Hw. unfold do_CMPE. rewrite sizes_equal, (has_xz_unknown _ _ Hl), (has_xz_unknown _ _ Hr) by lia.
  destruct (unknown l || unknown r) eqn:Hu.
  - rewrite cmp_loop_is. rewrite set_flag_wf by (done || small_flag). cbn [mbind option_bind].
    by rewrite set_flag_wf by (auto with thread || small_flag).
  - apply orb_false_iff in Hu as [Ul Ur]. rewrite eeq_is, eq_eeq_known by done.
    rewrite set_flag_wf by (done || small_flag). cbn [mbind option_bind].
    by rewrite set_flag_wf by (auto with thread || small_flag).
Qed.

Lemma do_CMPWE_is thr : wf_thread thr -> do_CMPWE vl vr thr = Some (put_flag 4 (bv_weq l r) thr).
Proof.
  intros Hw. unfold do_CMPWE. rewrite sizes_equal, (has_xz_unknown _ _ Hl), (has_xz_unknown _ _ Hr) by lia.
  rewrite set_flag_wf by (done || small_flag). f_equal. f_equal.
  destruct (unknown l || unknown r) eqn:Hu.
  - rewrite (cmp_loop_list true vl vr l r) by (done || by rewrite (vec_is_size _ _ Hl)).
    by rewrite !drop_0, cmp_list_skip by auto.
  - apply orb_false_iff in Hu as [Ul Ur]. rewrite eeq_is, <- eq_eeq_known by done.
    unfold bv_eq, bv_weq. rewrite Ul, Ur. cbn [orb]. destruct (existsb _ _); [done|].
    replace (existsb _ (combine l r)) with false; [done|]. symmetry.
    clear -Ul. revert r. induction l as [|a l' IH]; intros [|b r']; try done. cbn [combine existsb].
    unfold unknown in Ul. cbn [existsb] in Ul. apply orb_false_iff in Ul as [Ua Ul']. rewrite Ua, IH by done. done.
Qed.
End Compare.

(** ** Magnitude *)

(** The words of a vector without unknown bits. *)
Lemma subarray_is v l :
  vec_is v l -> (0 < length l)%nat ->
  match subarray v 0 (size v) false with
  | None => unknown l = true
  | Some val => unknown l = false /\ words val /\ length val = words_for (length l) /\ wval val = bv_Z l
  end.
Proof.
  intros Hv Hp. pose proof (vec_is_size _ _ Hv) as Hs. pose proof (vec_is_wf _ _ Hv) as Hw.
  pose proof (subarray_spec v 0 (size v) false Hw ltac:(lia) ltac:(lia)) as H.
  destruct (subarray v 0 (size v) false) as [val|].
  - destruct H as (Hl & Hwd & Hb & Hk). specialize (Hk eq_refl). rewrite <- Hs.
    assert (Kv : known v) by (intros i Hi; by apply Hk).
    split_and!; [by apply (unknown_known v)|done|done|]. rewrite (bv_Z_vec v l Hv Kv).
    apply Z.bits_inj'. intros n Hn. rewrite <- (Z2Nat.id n) by done. set (i := Z.to_nat n).
    rewrite testbit_wval, Hb by done. destruct (Nat.ltb_spec i (size v)) as [Hi|Hi]; cbn [andb].
    + by rewrite vec_Z_bits.
    + symmetry. pose proof (vec_Z_range v) as HR.
      destruct (Z.eq_dec (vec_Z v) 0) as [->|Hne]; [by rewrite Z.testbit_0_l|].
      apply Z.bits_above_log2; [lia|]. apply Z.log2_lt_pow2; [lia|].
      eapply Z.lt_le_trans; [apply HR|]. apply Z.pow_le_mono_r; lia.
  - destruct H as (_ & i & Hi & Hx). cbn [Nat.add] in Hx.
    apply (unknown_not_known v l Hv). intros Hk. by rewrite Hk in Hx.
Qed.

Lemma cmpu_words_spec n a b :
  words a -> words b ->
  cmpu_words n a b = (bool_bit (wsum (word a) n =? wsum (word b) n), bool_bit (wsum (word a) n <? wsum (word b) n)).
Proof.
  intros Ha Hb. unfold cmpu_words. induction n as [|n IH]; cbn [for_upto wsum]; [done|]. rewrite IH.
  pose proof (wsum_bound (word a) n (fun k _ => word_is_word a k Ha)) as HA.
  pose proof (wsum_bound (word b) n (fun k _ => word_is_word b k Hb)) as HB.
  set (x := word a n). set (y := word b n). pose proof (pow64_pos n).
  destruct (Z.eqb_spec x y) as [<-|Hne].
  - f_equal; f_equal; repeat case_cmp; (done || lia).
  - f_equal; [replace (_ =? _) with false; [done|]; symmetry; apply Z.eqb_neq; nia|].
    destruct (Z.ltb_spec x y).
    + by rewrite (proj2 (Z.ltb_lt _ _)) by nia.
    + by rewrite (proj2 (Z.ltb_ge _ _)) by nia.
Qed.

Lemma bit_known (f : nat -> vvp_bit4_t) i : bit4_is_xz (f i) = false -> f i = BIT4_0 \/ f i = BIT4_1.
Proof. destruct (f i); auto; discriminate. Qed.

Lemma cmps_scan_spec vl vr n :
  (forall i, (i < n)%nat -> bit4_is_xz (value vl i) = false) -> (forall i, (i < n)%nat -> bit4_is_xz (value vr i) = false) ->
  cmps_scan n vl vr = (bool_bit (bit_sum (value vl) n =? bit_sum (value vr) n),
                       bool_bit (bit_sum (value vl) n <? bit_sum (value vr) n)).
Proof.
  intros Hl Hr. induction n as [|n IH]; [done|]. cbn [cmps_scan bit_sum].
  rewrite IH by (intros; auto).
  pose proof (bit_sum_bound (value vl) n) as BL. pose proof (bit_sum_bound (value vr) n) as BR.
  set (x := bit_sum (value vl) n) in *. set (y := bit_sum (value vr) n) in *.
  destruct (bit_known (value vl) n (Hl n ltac:(lia))) as [-> | ->],
    (bit_known (value vr) n (Hr n ltac:(lia))) as [-> | ->]; cbn;
    change (bit1 BIT4_0) with 0; change (bit1 BIT4_1) with 1;
    f_equal; repeat case_cmp; (done || lia).
Qed.

Section Magnitude.
Context (vl vr : vvp_vector4_t) (l r : list vvp_bit4_t).
Context (Hl : vec_is vl l) (Hr : vec_is vr r) (Hlen : length l = length r) (Hpos : (0 < length l)%nat).

Lemma bv_eeq_Z : unknown l = false -> unknown r = false -> bv_eeq l r = bool_bit (bv_Z l =? bv_Z r).
Proof.
  intros Ul Ur. unfold bv_eeq, bit_of_bool, bool_bit. destruct (Z.eqb_spec (bv_Z l) (bv_Z r)) as [E|E].
  - rewrite bool_decide_eq_true_2; [done|].
    by rewrite <- (of_Z_bv_Z l Ul), <- (of_Z_bv_Z r Ur), E, Hlen.
  - rewrite bool_decide_eq_false_2; [done|]. by intros ->.
Qed.

Lemma do_CMPU_is thr : wf_thread thr ->
  do_CMPU vl vr thr = Some (put_flags3 (bv_eq l r) (bv_lt false l r) (bv_eeq l r) thr).
Proof.
  intros Hw. unfold do_CMPU. rewrite (sizes_equal vl vr l r Hl Hr Hlen).
  assert (Hhard : unknown l || unknown r = true ->
    of_CMPU_the_hard_way (size vl) vl vr thr = Some (put_flags3 (bv_eq l r) (bv_lt false l r) (bv_eeq l r) thr)).
  { intros Hu. unfold of_CMPU_the_hard_way. rewrite (cmp_loop_is vl vr l r Hl Hr Hlen).
    rewrite set_flags3_wf by done. unfold bv_lt. by rewrite Hu. }
  pose proof (subarray_is vl l Hl Hpos) as SL. pose proof (subarray_is vr r Hr ltac:(lia)) as SR.
  rewrite (vec_is_size _ _ Hr) in SR. rewrite (vec_is_size _ _ Hl) in SL |- *. rewrite Hlen in SL |- *.
  rewrite (vec_is_size _ _ Hl), Hlen in Hhard.
  destruct (subarray vl 0 (length r) false) as [a|]; [|apply Hhard; by rewrite SL].
  destruct (subarray vr 0 (length r) false) as [b|]; [|apply Hhard; by rewrite SR, orb_true_r].
  destruct SL as (Ul & Wa & La & Va), SR as (Ur & Wb & Lb & Vb).
  assert (Ea : wsum (word a) (words_for (length r)) = bv_Z l) by (rewrite <- La, wsum_word; done).
  assert (Eb : wsum (word b) (words_for (length r)) = bv_Z r) by (rewrite <- Lb, wsum_word; done).
  rewrite cmpu_words_spec, Ea, Eb by done.
  rewrite set_flags3_wf by done. unfold bv_lt. rewrite Ul, Ur. cbn [orb bv_num].
  rewrite (eq_eeq_known l r) by done. by rewrite bv_eeq_Z.
Qed.

(** Case equality decides [==] only for known operands, as [%cmp/s] has it. *)
Definition bv_eq_known : vvp_bit4_t := if unknown l || unknown r then BIT4_X else bv_eeq l r.

Lemma bv_S_split v m : vec_is v m -> unknown m = false -> (0 < length m)%nat ->
  bv_S m = bit_sum (value v) (length m - 1) - 2 ^ Z.of_nat (length m - 1) * bit1 (value v (length m - 1)) /\
  bv_Z m = bit_sum (value v) (length m - 1) + 2 ^ Z.of_nat (length m - 1) * bit1 (value v (length m - 1)).
Proof.
  intros Hv Hu Hm. assert (Kv : known v) by (by apply (unknown_known v m)).
  assert (EZ : bv_Z m = bit_sum (value v) (length m - 1) + 2 ^ Z.of_nat (length m - 1) * bit1 (value v (length m - 1))).
  { rewrite (bv_Z_vec v m Hv Kv), vec_Z_sum, (vec_is_size _ _ Hv) by (done || apply Hv).
    replace (length m) with (S (length m - 1)) at 1 by lia. done. }
  split; [|done]. unfold bv_S, msb. rewrite EZ, <- (vec_is_value _ _ _ Hv).
  rewrite (proj2 (Nat.eqb_neq _ _)), andb_true_r by lia.
  replace (2 ^ Z.of_nat (length m)) with (2 * 2 ^ Z.of_nat (length m - 1)).
  2:{ rewrite <- Z.pow_succ_r by lia. f_equal. lia. }
  unfold bit1. destruct (bit4_eqb _ _); lia.
Qed.

Lemma do_CMPS_is thr : wf_thread thr ->
  do_CMPS vl vr thr = Some (put_flags3 bv_eq_known (bv_lt true l r) (bv_eeq l r) thr).
Proof.
  intros Hw. unfold do_CMPS, bv_eq_known, bv_lt. rewrite (sizes_equal vl vr l r Hl Hr Hlen).
  rewrite (has_xz_unknown _ _ Hl), (has_xz_unknown _ _ Hr) by lia.
  destruct (unknown l || unknown r) eqn:Hu.
  { rewrite set_flags3_wf by done. by rewrite (eeq_is vl vr l r Hl Hr). }
  apply orb_false_iff in Hu as [Ul Ur].
  assert (Kl : known vl) by (by apply (unknown_known vl l)). assert (Kr : known vr) by (by apply (unknown_known vr r)).
  rewrite bv_eeq_Z by done. cbn [bv_num].
  destruct (bv_S_split vl l Hl Ul Hpos) as [-> ->]. destruct (bv_S_split vr r Hr Ur ltac:(lia)) as [-> ->].
  pose proof (vec_is_size _ _ Hl) as Sl. pose proof (vec_is_size _ _ Hr) as Sr.
  assert (Hs : size vr = size vl) by lia. assert (Hp : (0 < size vl)%nat) by lia. rewrite <- Hlen, <- Sl.
  rewrite cmps_scan_spec by (intros; first [apply Kl|apply Kr]; lia).
  pose proof (bit_sum_bound (value vl) (size vl - 1)) as BL. pose proof (bit_sum_bound (value vr) (size vl - 1)) as BR.
  set (x := bit_sum (value vl) (size vl - 1)) in *. set (y := bit_sum (value vr) (size vl - 1)) in *.
  destruct (bit_known (value vl) (size vl - 1) (Kl (size vl - 1)%nat ltac:(lia))) as [-> | ->],
    (bit_known (value vr) (size vl - 1) (Kr (size vl - 1)%nat ltac:(lia))) as [-> | ->]; cbn [bit4_eqb andb];
    change (bit1 BIT4_0) with 0; change (bit1 BIT4_1) with 1;
    change (bit4_eqb BIT4_0 BIT4_0) with true; change (bit4_eqb BIT4_0 BIT4_1) with false;
    change (bit4_eqb BIT4_1 BIT4_0) with false; change (bit4_eqb BIT4_1 BIT4_1) with true; cbv [andb];
    rewrite set_flags3_wf by done; f_equal; f_equal; unfold bool_bit, bit_of_bool; repeat case_cmp; (done || lia).
Qed.
End Magnitude.
