(* ===== verification/VThreadParts.v ===== *)
(** The instructions of the thread interpreter that build, cut, extend and shift vectors,
    and those that move vectors to index registers, against bit lists. *)
From S2P Require Import Prelude MachineWord VvpBit VvpVector4 VvpSlice WordArith VvpArith VvpVector2 VvpCompare.
From S2P Require Import BitList VvpFunctor WordDiv VThread VThreadSpec.

(** * Immediate operands *)

(** The bits of the two words of an instruction. *)
Definition imm_bits (vala valb : Z) (wid : nat) : list vvp_bit4_t :=
  map (fun i => of_planes (Z.testbit vala (Z.of_nat i)) (Z.testbit valb (Z.of_nat i))) (seq 0 wid).

Lemma length_imm_bits a b n : length (imm_bits a b n) = n.
Proof. unfold imm_bits. by rewrite length_map, length_seq. Qed.

Lemma immediate_bit a b :
  bit4_cast (Z.lor (Z.shiftl (Z.land b 1) 1) (Z.land a 1)) = of_planes (Z.testbit a 0) (Z.testbit b 0) /\
  (Z.lor (Z.shiftl (Z.land b 1) 1) (Z.land a 1) =? 0) = negb (Z.testbit a 0) && negb (Z.testbit b 0).
Proof.
  assert (H : forall x, Z.land x 1 = b2z (Z.testbit x 0)) by (intros x; apply land_1).
  rewrite !H. by destruct (Z.testbit a 0), (Z.testbit b 0).
Qed.

Lemma testbit_shift x i : Z.testbit (Z.shiftr x 1) (Z.of_nat i) = Z.testbit x (Z.of_nat (S i)).
Proof. rewrite Z.shiftr_spec by lia. f_equal. lia. Qed.

(** One turn of the loop shifts the words and moves the window of the bits they still fill. *)
Lemma shifted_window a b idx c i x :
  i <> idx ->
  (if (idx + 1 <=? i)%nat && (i <? idx + 1 + c)%nat
   then of_planes (Z.testbit (Z.shiftr a 1) (Z.of_nat (i - (idx + 1)))) (Z.testbit (Z.shiftr b 1) (Z.of_nat (i - (idx + 1))))
   else x) =
  (if (idx <=? i)%nat && (i <? idx + S c)%nat
   then of_planes (Z.testbit a (Z.of_nat (i - idx))) (Z.testbit b (Z.of_nat (i - idx))) else x).
Proof.
  intros Hne. rewrite !testbit_shift.
  destruct (Nat.leb_spec (idx + 1) i), (Nat.leb_spec idx i); try lia; [|done].
  destruct (Nat.ltb_spec i (idx + 1 + c)), (Nat.ltb_spec i (idx + S c)); try lia; [|done]. cbn [andb].
  by replace (S (i - (idx + 1))) with (i - idx)%nat by lia.
Qed.

Lemma immediate_loop_spec cnt idx a b v :
  wf4 v -> (idx + cnt <= size v)%nat -> (forall i, (idx <= i < size v)%nat -> value v i = BIT4_0) ->
  exists r, immediate_loop cnt idx a b v = Some r /\ wf4 r /\ size r = size v /\
    forall i, (i < size v)%nat -> value r i =
      if (idx <=? i)%nat && (i <? idx + cnt)%nat
      then of_planes (Z.testbit a (Z.of_nat (i - idx))) (Z.testbit b (Z.of_nat (i - idx))) else value v i.
Proof.
  revert idx a b v. induction cnt as [|c IH]; intros idx a b v Hw Hs H0; cbn [immediate_loop].
  { exists v. split_and!; try done. intros i Hi. repeat case_cmp; simpl; (done || lia). }
  destruct (Z.eqb_spec (Z.lor a b) 0) as [E|E].
  { exists v. split_and!; try done. intros i Hi. apply Z.lor_eq_0_iff in E as [-> ->]. rewrite !Z.testbit_0_l.
    repeat case_cmp; simpl; try done. by apply H0. }
  destruct (immediate_bit a b) as [EB EZ]. rewrite EZ, EB.
  destruct (negb (Z.testbit a 0) && negb (Z.testbit b 0)) eqn:Ez; cbn [mbind option_bind].
  - destruct (IH (idx + 1)%nat (Z.shiftr a 1) (Z.shiftr b 1) v Hw) as (r & Er & Wr & Sr & Vr); [lia|intros; apply H0; lia|].
    exists r. split_and!; try done. intros i Hi. rewrite Vr by done.
    destruct (Nat.eq_dec i idx) as [->|Hne].
    + rewrite (proj2 (Nat.leb_gt (idx + 1)%nat idx)) by lia. rewrite Nat.leb_refl, (proj2 (Nat.ltb_lt idx (idx + S c)%nat)), Nat.sub_diag by lia.
      apply andb_true_iff in Ez as [Ea%negb_true_iff Eb%negb_true_iff]. cbn [andb]. change (Z.of_nat 0) with 0.
      rewrite Ea, Eb. by apply H0.
    + apply shifted_window. done.
  - destruct (set_bit_spec v idx (of_planes (Z.testbit a 0) (Z.testbit b 0)) Hw ltac:(lia)) as (v1 & E1 & W1 & S1 & V1).
    rewrite E1. cbn [mbind option_bind].
    destruct (IH (idx + 1)%nat (Z.shiftr a 1) (Z.shiftr b 1) v1 W1) as (r & Er & Wr & Sr & Vr).
    { lia. }
    { intros i Hi. rewrite V1. case_cmp; [lia|]. apply H0. lia. }
    exists r. split_and!; [done|done|congruence|]. intros i Hi. rewrite Vr, V1 by lia.
    destruct (Nat.eq_dec i idx) as [->|Hne].
    + rewrite (proj2 (Nat.leb_gt (idx + 1)%nat idx)) by lia.
      rewrite Nat.leb_refl, (proj2 (Nat.ltb_lt idx (idx + S c)%nat)), Nat.eqb_refl, Nat.sub_diag by lia. done.
    + rewrite (proj2 (Nat.eqb_neq i idx)) by done. by apply shifted_window.
Qed.

Lemma immediate_loop_is a b wid :
  exists r, immediate_loop wid 0 a b (vec4_fill wid BIT4_0) = Some r /\ vec_is r (imm_bits a b wid).
Proof.
  pose proof (vec4_fill_spec wid BIT4_0) as (Wf & Sf & Bf).
  destruct (immediate_loop_spec wid 0 a b (vec4_fill wid BIT4_0) Wf) as (r & E & Wr & Sr & Vr).
  { lia. } { intros i Hi. apply Bf. lia. }
  exists r. split; [done|]. apply vec_is_bitwise. split_and!; [done|congruence|].
  intros i Hi. rewrite Vr by lia. rewrite (proj2 (Nat.ltb_lt _ _)) by lia. cbn [Nat.leb andb]. by rewrite Nat.sub_0_r.
Qed.

(** A word of 32 bits stored with [setarray]. *)
Lemma immediate_word_is a wid n :
  (0 < n <= wid)%nat -> (n <= W)%nat -> 0 <= a < 2 ^ 32 -> (n < wid -> 32 <= n)%nat ->
  exists r, setarray (vec4_fill wid BIT4_0) 0 n [a] = Some r /\ vec_is r (imm_bits a 0 wid).
Proof.
  intros Hn HW Ha Hcut. pose proof (vec4_fill_spec wid BIT4_0) as (Wf & Sf & Bf).
  destruct (setarray_spec (vec4_fill wid BIT4_0) 0 n [a] Wf) as (r & E & Wr & Sr & Vr); [|lia|lia|].
  { repeat constructor; [lia|]. unfold wordsize. change (2 ^ 32) with 4294967296 in Ha. lia. }
  exists r. split; [done|]. apply vec_is_bitwise. split_and!; [done|congruence|]. intros i Hi.
  rewrite Vr by lia. cbn [Nat.leb Nat.add andb]. rewrite Z.testbit_0_l, Nat.sub_0_r.
  destruct (Nat.ltb_spec i n) as [Hin|Hin].
  - rewrite wbit_short by lia. unfold tb. by destruct (Z.testbit a (Z.of_nat i)).
  - rewrite Bf by lia. replace (Z.testbit a (Z.of_nat i)) with false; [done|].
    symmetry. destruct (Z.eq_dec a 0) as [->|Hne]; [by rewrite Z.testbit_0_l|].
    apply Z.bits_above_log2; [lia|]. assert (Z.log2 a < 32) by (apply Z.log2_lt_pow2; lia). lia.
Qed.

Lemma imm_bits_0 wid : imm_bits 0 0 wid = replicate wid BIT4_0.
Proof.
  unfold imm_bits. apply (nth_ext _ _ BIT4_X BIT4_X); [by rewrite length_map, length_seq, length_replicate|].
  rewrite length_map, length_seq. intros i Hi. rewrite nth_map_seq, nth_replicate by done. by rewrite Z.testbit_0_l.
Qed.

Lemma immediate_is a b wid :
  (0 < wid)%nat -> 0 <= a < 2 ^ 32 -> exists r, immediate a b wid = Some r /\ vec_is r (imm_bits a b wid).
Proof.
  intros Hp Ha. unfold immediate, get_immediate_rval. destruct (Z.eqb_spec b 0) as [->|Hb]; [|apply immediate_loop_is].
  destruct (Z.eqb_spec a 0) as [->|Hne]; [eexists; split; [done|]; rewrite imm_bits_0; apply vec_is_fill|].
  destruct (Nat.ltb_spec wid W); apply immediate_word_is; unfold W in *; (done || lia).
Qed.

Lemma of_PUSHI_VEC4_is a b wid thr :
  (0 < wid)%nat -> 0 <= a < 2 ^ 32 ->
  exists v, of_PUSHI_VEC4 a b wid thr = Some (push_vec4 v thr) /\ vec_is v (imm_bits a b wid).
Proof.
  intros Hp Ha. unfold of_PUSHI_VEC4.
  destruct (Z.eqb_spec a 0) as [->|Hne], (Z.eqb_spec b 0) as [->|Hb]; cbn [andb].
  - eexists. split; [done|]. rewrite imm_bits_0. apply vec_is_fill.
  - destruct (immediate_loop_is 0 b wid) as (r & -> & Hr). by exists r.
  - destruct (Nat.leb_spec wid W).
    + destruct (immediate_word_is a wid wid) as (r & -> & Hr); [lia|done|done|lia|]. by exists r.
    + destruct (immediate_loop_is a 0 wid) as (r & -> & Hr). by exists r.
  - destruct (immediate_loop_is a b wid) as (r & -> & Hr). by exists r.
Qed.

(** * Concatenation *)

Lemma concat_is vm vl m l :
  vec_is vm m -> vec_is vl l -> (0 < length m)%nat -> (0 < length l)%nat ->
  exists v, concat_vec4 vm vl = Some v /\ vec_is v (l ++ m).
Proof.
  intros Hm Hl Pm Pl. unfold concat_vec4. rewrite (vec_is_size _ _ Hm), (vec_is_size _ _ Hl).
  pose proof (vec_is_fill (length m + length l) BIT4_X) as Hf.
  destruct (set_vec_is _ 0 _ _ _ Hf Hl Pl) as (r1 & d1 & -> & H1); [rewrite length_replicate; lia|].
  cbn [mbind option_bind].
  assert (L1 : length (overwrite 0 l (replicate (length m + length l) BIT4_X)) = (length m + length l)%nat).
  { rewrite length_overwrite; rewrite length_replicate; lia. }
  destruct (set_vec_is _ (length l) _ _ _ H1 Hm Pm) as (r2 & d2 & -> & H2); [lia|].
  cbn [mbind option_bind]. exists r2. split; [done|].
  replace (l ++ m) with (overwrite (length l) m (overwrite 0 l (replicate (length m + length l) BIT4_X))); [done|].
  unfold overwrite at 1. rewrite drop_ge by lia. rewrite app_nil_r. f_equal.
  unfold overwrite. cbn [Nat.add]. rewrite firstn_O. cbn [app]. apply take_app_length.
Qed.

Lemma of_CONCATI_is a b wid vm m thr st :
  stack_vec4_ thr = vm :: st -> vec_is vm m -> (0 < length m)%nat -> (0 < wid)%nat ->
  exists v, of_CONCATI_VEC4 a b wid thr = Some (with_stack thr (v :: st)) /\ vec_is v (imm_bits a b wid ++ m).
Proof.
  intros Hst Hm Pm Pw. unfold of_CONCATI_VEC4, peek_vec4. rewrite Hst. cbn [lookup list_lookup mbind option_bind].
  destruct (immediate_loop_is a b wid) as (r & -> & Hr). cbn [mbind option_bind].
  destruct (concat_is vm r m _ Hm Hr Pm) as (v & -> & Hv); [by rewrite length_imm_bits|].
  exists v. unfold poke_top. rewrite Hst. done.
Qed.

(** [n] copies of a list. *)
Definition copies (n : nat) (l : list vvp_bit4_t) : list vvp_bit4_t := concat (replicate n l).

Lemma length_copies n l : length (copies n l) = (n * length l)%nat.
Proof. unfold copies. induction n as [|n IH]; [done|]. cbn [replicate concat]. rewrite length_app, IH. lia. Qed.

Lemma copies_S n l : copies (S n) l = copies n l ++ l.
Proof.
  unfold copies. induction n as [|n IH]; [cbn; by rewrite app_nil_r|].
  change (concat (replicate (S (S n)) l)) with (l ++ concat (replicate (S n) l)).
  rewrite IH at 1. cbn [replicate concat]. by rewrite app_assoc.
Qed.

Lemma replicate_is n v l :
  vec_is v l -> (0 < length l)%nat -> exists r, replicate_vec4 n v = Some r /\ vec_is r (copies n l).
Proof.
  intros Hv Hp. unfold replicate_vec4. rewrite (vec_is_size _ _ Hv).
  pose proof (vec_is_fill (length l * n) BIT4_X) as Hf.
  assert (H : forall k, (k <= n)%nat -> exists r,
    for_upto k (fun idx res => res ← res; '(res, _) ← set_vec res (idx * length l) v; Some res)
      (Some (vec4_fill (length l * n) BIT4_X)) = Some r /\
    vec_is r (copies k l ++ replicate (length l * (n - k)) BIT4_X)).
  { induction k as [|k IH]; intros Hk; cbn [for_upto].
    - eexists. split; [done|]. cbn. by rewrite Nat.sub_0_r.
    - destruct (IH ltac:(lia)) as (r & -> & Hr). cbn [mbind option_bind].
      destruct (set_vec_is r (k * length l) v _ _ Hr Hv Hp) as (r' & d & -> & Hr').
      { rewrite length_app, length_copies, length_replicate. nia. }
      exists r'. split; [done|].
      replace (copies (S k) l ++ replicate (length l * (n - S k)) BIT4_X)
        with (overwrite (k * length l) l (copies k l ++ replicate (length l * (n - k)) BIT4_X)); [done|].
      unfold overwrite. rewrite <- (length_copies k l), take_app_length. rewrite copies_S, <- app_assoc. f_equal. f_equal.
      rewrite drop_app_ge by lia. replace (length (copies k l) + length l - length (copies k l))%nat with (length l) by lia.
      rewrite drop_replicate. f_equal. nia. }
  destruct (H n (le_n n)) as (r & E & Hr). exists r. split; [done|].
  rewrite Nat.sub_diag, Nat.mul_0_r, app_nil_r in Hr. done.
Qed.

(** * Widths and parts *)

Lemma resize_is v l wid b : vec_is v l -> vec_is (resize v wid b) (take wid l ++ replicate (wid - length l) b).
Proof.
  intros Hv. apply (bitwise_is wid (fun i => if (i <? size v)%nat then value v i else b)).
  - apply resize_spec, Hv.
  - rewrite length_app, length_take, length_replicate. lia.
  - intros i Hi. rewrite (vec_is_size _ _ Hv), (vec_is_value _ _ _ Hv). destruct (Nat.ltb_spec i (length l)).
    + rewrite app_nth1 by (rewrite length_take; lia). by rewrite nth_prefix.
    + rewrite app_nth2 by (rewrite length_take; lia). rewrite nth_replicate; [done|]. rewrite length_take. lia.
Qed.

Lemma pad_s_is wid v l :
  vec_is v l -> (0 < length l)%nat ->
  vec_is (resize v wid (if (size v <? wid)%nat then value v (size v - 1) else BIT4_X)) (bv_pad true wid l).
Proof.
  intros Hv Hp. unfold bv_pad, msb. rewrite (vec_is_size _ _ Hv), (vec_is_value _ _ _ Hv).
  destruct (Nat.ltb_spec (length l) wid); [by apply resize_is|].
  replace (wid - length l)%nat with 0%nat by lia.
  pose proof (resize_is v l wid BIT4_X Hv) as H1. by replace (wid - length l)%nat with 0%nat in H1 by lia.
Qed.

Lemma pad_u_is wid v l : vec_is v l -> vec_is (resize v wid BIT4_0) (bv_pad false wid l).
Proof. apply resize_is. Qed.

Lemma length_pad signed wid l : length (bv_pad signed wid l) = wid.
Proof. unfold bv_pad. rewrite length_app, length_take, length_replicate. lia. Qed.

Lemma length_part lo wid l : length (bv_part lo wid l) = wid.
Proof. unfold bv_part. by rewrite length_map, length_seq. Qed.

Lemma nth_part lo wid l i : (i < wid)%nat ->
  nth i (bv_part lo wid l) BIT4_X =
    if (lo + Z.of_nat i <? 0) then BIT4_X else nth (Z.to_nat (lo + Z.of_nat i)) l BIT4_X.
Proof. intros Hi. unfold bv_part. by rewrite nth_map_seq. Qed.

(** The part select is the window of the bits, X where it leaves the vector. *)
Lemma part_select_is v l base wid :
  vec_is v l -> (0 < length l)%nat -> (0 < wid)%nat -> exists r, part_select v base wid = Some r /\ vec_is r (bv_part base wid l).
Proof.
  intros Hv Hl Hw. pose proof (vec_is_size _ _ Hv) as Hs.
  assert (Hx : (forall i, (i < wid)%nat -> nth i (bv_part base wid l) BIT4_X = BIT4_X) ->
    exists r, Some (vec4_fill wid BIT4_X) = Some r /\ vec_is r (bv_part base wid l)).
  { intros H. eexists. split; [done|]. pose proof (vec4_fill_spec wid BIT4_X) as (Wf & Sf & Bf).
    apply vec_is_from; [done|by rewrite length_part|]. rewrite length_part. intros i Hi. rewrite H by done. apply Bf. lia. }
  destruct (Z.leb_spec (Z.of_nat (length l)) base) as [H1|H1].
  { unfold part_select. rewrite Hs, (proj2 (Z.leb_le _ _)) by done.
    apply Hx. intros i Hi. rewrite nth_part by done. case_cmp; [done|]. apply nth_overflow. lia. }
  destruct (Z.leb_spec (base + Z.of_nat wid) 0) as [H2|H2].
  { unfold part_select. rewrite Hs, (proj2 (Z.leb_gt _ _)), (proj2 (Z.leb_le (base + _) _)) by done.
    apply Hx. intros i Hi. rewrite nth_part by done. by rewrite (proj2 (Z.ltb_lt _ _)) by lia. }
  assert (HE : exists vb b w sub,
    vec_is sub (take w (drop b l)) /\ (Z.of_nat b - Z.of_nat vb = base) /\ (vb = 0 \/ b = 0)%nat /\
    w = Nat.min (wid - vb) (length l - b) /\
    part_select v base wid
    = ('(res, _) ← set_vec (vec4_fill wid BIT4_X) vb sub; Some res)).
  { assert (Ew : forall b c, (if (length l <? b + c)%nat then (length l - b)%nat else c) = Nat.min c (length l - b)).
    { intros b c. case_cmp; lia. }
    unfold part_select. rewrite Hs, (proj2 (Z.leb_gt _ _)), (proj2 (Z.leb_gt (base + _) _)) by done.
    destruct (Z.ltb_spec base 0) as [Hn|Hn].
    - set (vb := Z.to_nat (- base)). destruct (subvalue_is v l 0 (Nat.min (wid - vb) (length l - 0)) Hv) as (sub & Es & Hsub); [lia|].
      exists vb, 0%nat, (Nat.min (wid - vb) (length l - 0)), sub. split_and!; [done|lia|lia|lia|].
      cbv zeta. fold vb. rewrite Ew. rewrite Es. done.
    - set (b := Z.to_nat base). destruct (subvalue_is v l b (Nat.min (wid - 0) (length l - b)) Hv) as (sub & Es & Hsub); [lia|].
      exists 0%nat, b, (Nat.min (wid - 0) (length l - b)), sub. split_and!; [done|lia|lia|lia|].
      cbv zeta. rewrite Ew. rewrite Nat.sub_0_r in Es. rewrite Es. done. }
  destruct HE as (vb & b & w & sub & Hsub & Hbase & H0 & -> & ->).
  set (w := Nat.min (wid - vb) (length l - b)) in *.
  assert (Hw0 : (vb + w <= wid /\ 0 < w /\ b + w <= length l)%nat) by (unfold w; lia).
  assert (Hlw : length (take w (drop b l)) = w) by (rewrite length_take, length_drop; lia).
  destruct (set_vec_is _ vb _ _ _ (vec_is_fill wid BIT4_X) Hsub) as (r & d & -> & Hr);
    [lia|rewrite length_replicate; lia|].
  assert (Hwd : (wid - vb <= w \/ length l - b <= w)%nat) by (unfold w; lia). clearbody w.
  exists r. split; [done|]. apply vec_is_from; [apply Hr|rewrite (vec_is_size _ _ Hr), length_overwrite, length_part;
    rewrite ?length_replicate, ?Hlw; lia|].
  rewrite length_part. intros i Hi. rewrite (vec_is_value _ _ _ Hr), nth_overwrite by (rewrite length_replicate; lia).
  rewrite Hlw, nth_part by done.
  destruct ((vb <=? i)%nat && (i <? vb + w)%nat) eqn:EW.
  - apply andb_true_iff in EW as [E1%Nat.leb_le E2%Nat.ltb_lt]. rewrite nth_prefix, nth_drop by lia.
    rewrite (proj2 (Z.ltb_ge _ _)) by lia. f_equal; lia.
  - rewrite nth_replicate by done. case_cmp; [done|]. symmetry. apply nth_overflow.
    apply andb_false_iff in EW as [E1%Nat.leb_gt|E2%Nat.ltb_ge]; lia.
Qed.
