(* ===== verification/VThreadIndex.v ===== *)
(** The instructions of the thread interpreter that move vectors to index registers and those
    that shift by them, against bit lists. *)
From S2P Require Import Prelude MachineWord VvpBit VvpVector4 VvpSlice WordArith VvpArith VvpVector2 VvpCompare.
From S2P Require Import BitList VvpFunctor WordDiv VThread VThreadSpec VThreadParts.

(** * Index registers *)

(** What an index register and flag 4 hold of an index: flag 4 is 1 for unknown bits and X
    for a number that does not fit the register. *)
Definition index_reg (signed : bool) (s : list vvp_bit4_t) : Z :=
  if unknown s then 0 else wrap (bv_num signed s).
Definition index_flag (signed : bool) (s : list vvp_bit4_t) : vvp_bit4_t :=
  if unknown s then BIT4_1 else if signed || (bv_Z s <? wordsize) then BIT4_0 else BIT4_X.

(** The scan of the upper words: overflow when one of them is not 0. *)
Lemma index_loop_unsigned cnt k bits v :
  words bits -> index_loop cnt k bits false v = negb (forallb (fun i => word bits i =? 0) (seq k cnt)).
Proof.
  intros Hw. revert k. induction cnt as [|c IH]; intros k; cbn [index_loop seq forallb]; [done|]. cbn [andb].
  destruct (word bits k =? 0); cbn [negb andb]; [|done]. rewrite Nat.add_1_r. apply IH.
Qed.

Lemma forallb_map {A B} (f : B -> bool) (g : A -> B) l : forallb f (map g l) = forallb (fun x => f (g x)) l.
Proof. induction l as [|x l IH]; [done|]. cbn. by rewrite IH. Qed.

Lemma forallb_words ws f : forallb (fun i => f (word ws i)) (seq 0 (length ws)) = forallb f ws.
Proof.
  induction ws as [|w ws IH]; [done|]. cbn [length seq forallb]. rewrite <- seq_shift, forallb_map. by rewrite <- IH.
Qed.

Lemma wval_0_words ws : words ws -> (wval ws =? 0) = forallb (fun w => w =? 0) ws.
Proof.
  induction ws as [|w ws IH]; intros Hw; [done|]. inversion Hw as [|? ? H0 H1]; subst. cbn [wval forallb].
  rewrite <- IH by done. pose proof (wval_bound ws H1) as [HB _]. unfold is_word, wordsize in *.
  repeat case_cmp; simpl; (done || lia).
Qed.

Lemma wval_upper bits n :
  words bits -> length bits = n -> (0 < n)%nat ->
  forallb (fun i => word bits i =? 0) (seq 1 (n - 1)) = (wval bits <? wordsize) /\ wrap (wval bits) = word bits 0.
Proof.
  intros Hw <- Hn. destruct bits as [|w ws]; [simpl in Hn; lia|]. inversion Hw as [|? ? H0 H1]; subst.
  cbn [length wval]. rewrite Nat.sub_succ, Nat.sub_0_r, <- seq_shift, forallb_map.
  pose proof (forallb_words ws (fun y => y =? 0)) as EF. cbn beta in EF.
  change (fun x => word (w :: ws) (S x) =? 0) with (fun i => word ws i =? 0). rewrite EF, <- wval_0_words by done.
  pose proof (wval_bound ws H1) as [HB _]. unfold is_word, wordsize in *. split; [repeat case_cmp; (done || lia)|].
  unfold wrap, word. cbn [nth]. rewrite (Z.mul_comm _ (wval ws)), Z.mod_add by done. by apply Z.mod_small.
Qed.

(** The test of one bit. *)
Lemma land_bit v k : is_word v -> (k < W)%nat -> (Z.land v (wshl 1 k) =? 0) = negb (tb v k).
Proof.
  intros Hv Hk. assert (E : forall i, tb (Z.land v (wshl 1 k)) i = tb v k && (i =? k)%nat && (i <? W)%nat).
  { intros i. rewrite tb_land. destruct (Nat.ltb_spec i W) as [Hi|Hi].
    - rewrite tb_wshl_1 by done. destruct (Nat.eqb_spec i k) as [->|]; by rewrite ?andb_true_r, ?andb_false_r.
    - rewrite (tb_high (wshl 1 k)) by auto with word. by rewrite !andb_false_r. }
  destruct (tb v k) eqn:Et; cbn [negb].
  - apply Z.eqb_neq. intros H0. specialize (E k). rewrite H0, tb_0, Nat.eqb_refl, (proj2 (Nat.ltb_lt _ _)) in E by done. done.
  - apply Z.eqb_eq. apply tb_ext; [auto with word..|]. intros i _. by rewrite E, tb_0.
Qed.

Lemma top_bit_small v n : (0 < n)%nat -> 0 <= v < 2 ^ Z.of_nat n -> tb v (n - 1) = (2 ^ Z.of_nat (n - 1) <=? v).
Proof.
  intros Hn Hv. unfold tb. rewrite Z.testbit_odd, Z.shiftr_div_pow2 by lia.
  assert (Hp : 2 ^ Z.of_nat n = 2 * 2 ^ Z.of_nat (n - 1)) by (rewrite <- Z.pow_succ_r by lia; f_equal; lia).
  assert (0 < 2 ^ Z.of_nat (n - 1)) by (apply Z.pow_pos_nonneg; lia).
  destruct (Z.leb_spec (2 ^ Z.of_nat (n - 1)) v).
  - replace (v / _) with 1; [done|]. apply Z.div_unique with (v - 2 ^ Z.of_nat (n - 1)); lia.
  - by rewrite Z.div_small by lia.
Qed.

(** The masks of a vector narrower than the register. *)
Lemma index_mask v n :
  (0 < n < W)%nat -> 0 <= v < 2 ^ Z.of_nat n ->
  Z.land v (wnot (wshl wones n)) = v /\
  (Z.land v (wshl 1 (n - 1)) =? 0) = (v <? 2 ^ Z.of_nat (n - 1)) /\
  Z.lor v (wshl wones n) = wrap (v - 2 ^ Z.of_nat n).
Proof.
  intros Hn Hv. assert (Hw : is_word v).
  { unfold is_word, wordsize. pose proof (Z.pow_le_mono_r 2 (Z.of_nat n) 64 ltac:(lia)). unfold W in *. lia. }
  assert (Hhigh : forall i, (n <= i)%nat -> tb v i = false).
  { intros i Hi. unfold tb. destruct (Z.eq_dec v 0) as [->|Hne]; [by rewrite Z.testbit_0_l|].
    apply Z.bits_above_log2; [lia|]. assert (Z.log2 v < Z.of_nat n) by (apply Z.log2_lt_pow2; lia). lia. }
  split_and!.
  - apply tb_ext; [auto with word|done|]. intros i Hi.
    rewrite tb_land, tb_wnot, tb_wshl, tb_wones by (lia || auto with word).
    destruct (Nat.leb_spec n i); [by rewrite Hhigh by lia|]. rewrite !andb_false_r. cbn [andb negb].
    rewrite (proj2 (Nat.ltb_lt _ _)) by done. by rewrite andb_true_r.
  - rewrite land_bit, top_bit_small by (done || lia). repeat case_cmp; (done || lia).
  - pose proof (sign_fill W n v ltac:(unfold W in *; lia) Hv) as H.
    change (2 ^ Z.of_nat W) with wordsize in H. rewrite (Z.mod_small (wshl _ _)) in H; [done|].
    assert (is_word (wshl wones n)) by auto with word. done.
Qed.

Lemma bv_Z_app l m : bv_Z (l ++ m) = bv_Z l + 2 ^ Z.of_nat (length l) * bv_Z m.
Proof.
  induction l as [|b l IH]; [cbn [app bv_Z length]; change (2 ^ Z.of_nat 0) with 1; lia|].
  cbn [app bv_Z length]. rewrite IH, Nat2Z.inj_succ, Z.pow_succ_r by lia. lia.
Qed.

Lemma bv_S_alt l : (0 < length l)%nat ->
  bv_S l = bv_Z l - (if bv_Z l <? 2 ^ Z.of_nat (length l - 1) then 0 else 2 ^ Z.of_nat (length l)).
Proof.
  intros Hp. destruct (@exists_last _ l) as (l' & b & ->); [intros ->; simpl in Hp; lia|].
  unfold bv_S, msb. rewrite bv_Z_app, length_app in *. cbn [length bv_Z] in *. rewrite Nat.add_1_r, Nat.sub_succ, Nat.sub_0_r.
  rewrite app_nth2, Nat.sub_diag by lia. cbn [nth]. cbn [Nat.eqb negb]. rewrite andb_true_r. pose proof (bv_Z_range l').
  pose proof (bit1_range b). unfold bit1 in *. destruct (bit4_eqb b BIT4_1); case_cmp; try lia.
Qed.

Lemma vec4_to_index_is signed v s st thr :
  wf_thread thr -> stack_vec4_ thr = v :: st -> vec_is v s -> (0 < length s)%nat -> (signed = true -> length s <= W)%nat ->
  vec4_to_index signed thr = Some (index_reg signed s, put_flag 4 (index_flag signed s) (with_stack thr st)).
Proof.
  intros Hthr Hst Hv Hp Hsig. unfold vec4_to_index, peek_vec4, pop_vec4_n. rewrite Hst. cbn [lookup list_lookup mbind option_bind].
  cbn [length Nat.leb drop]. pose proof (vec_is_size _ _ Hv) as Hs. pose proof (subarray_is v s Hv Hp) as HA.
  unfold index_reg, index_flag. destruct (subarray v 0 (size v) false) as [bits|]; cbn [mbind option_bind].
  2:{ rewrite HA. rewrite set_flag_wf by (auto with thread || small_flag). done. }
  destruct HA as (Hu & Wb & Lb & Vb). rewrite Hu. rewrite Hs, (proj2 (Nat.ltb_lt 0 (length s))) by done.
  rewrite set_flag_wf by (auto with thread || small_flag). cbn [mbind option_bind].
  destruct (wval_upper bits (words_for (length s)) Wb Lb) as [EF EW]; [by apply words_for_pos|]. rewrite Vb in EF, EW.
  rewrite <- EW. pose proof (bv_Z_range s) as HR.
  destruct signed; cbn [andb orb bv_num].
  - specialize (Hsig eq_refl). replace (words_for (length s) - 1)%nat with 0%nat by (pose proof (words_for_long (length s)); lia).
    cbn [index_loop]. f_equal. f_equal.
    rewrite bv_S_alt by done. destruct (Nat.ltb_spec (length s) W) as [Hl|Hl].
    + destruct (index_mask (bv_Z s) (length s)) as (E1 & E2 & E3); [lia|done|].
      assert (Hw : wrap (bv_Z s) = bv_Z s).
      { apply Z.mod_small. split; [lia|]. eapply Z.lt_le_trans; [apply HR|]. apply (Z.pow_le_mono_r 2 _ 64); unfold W in *; lia. }
      rewrite Hw, E1, E2, E3. by case_cmp; cbn [negb]; rewrite ?Z.sub_0_r.
    + replace (length s) with W in * by lia. case_cmp; [by rewrite Z.sub_0_r|].
      change (2 ^ Z.of_nat W) with wordsize. unfold wrap. replace (bv_Z s - wordsize) with (bv_Z s + -1 * wordsize) by lia. by rewrite Z.mod_add.
  - rewrite index_loop_unsigned, EF by done. f_equal. f_equal.
    + destruct (Nat.ltb_spec (length s) W) as [Hl|Hl]; [|done].
      destruct (index_mask (bv_Z s) (length s)) as (E1 & E2 & E3); [lia|done|].
      assert (Hw : wrap (bv_Z s) = bv_Z s).
      { apply Z.mod_small. split; [lia|]. eapply Z.lt_le_trans; [apply HR|]. apply (Z.pow_le_mono_r 2 _ 64); unfold W in *; lia. }
      by rewrite Hw, E1.
    + by destruct (bv_Z s <? wordsize).
Qed.

(** [%ix/vec4] and [%ix/vec4/s]: the top of the stack moves to a register. *)
Lemma of_IX_VEC4_is k v s st thr :
  wf_thread thr -> (k < WORDS_COUNT)%nat -> stack_vec4_ thr = v :: st -> vec_is v s -> (0 < length s)%nat ->
  of_IX_VEC4 k thr = Some (put_word k (index_reg false s) (put_flag 4 (index_flag false s) (with_stack thr st))).
Proof.
  intros Hthr Hk Hst Hv Hp. unfold of_IX_VEC4. rewrite (vec4_to_index_is false v s st) by (done || discriminate).
  cbn [mbind option_bind]. by rewrite set_word_wf by auto with thread.
Qed.

Lemma of_IX_VEC4_S_is k v s st thr :
  wf_thread thr -> (k < WORDS_COUNT)%nat -> stack_vec4_ thr = v :: st -> vec_is v s -> (0 < length s <= W)%nat ->
  of_IX_VEC4_S k thr = Some (put_word k (index_reg true s) (put_flag 4 (index_flag true s) (with_stack thr st))).
Proof.
  intros Hthr Hk Hst Hv Hp. unfold of_IX_VEC4_S. rewrite (vec4_to_index_is true v s st) by (done || lia).
  cbn [mbind option_bind]. by rewrite set_word_wf by auto with thread.
Qed.

Lemma unknown_in_list v s : vec_is v s -> unknown_in v 0 (size v) = unknown s.
Proof.
  intros Hv. destruct (unknown s) eqn:Hu.
  - destruct (unknown_in v 0 (size v)) eqn:E; [done|]. exfalso.
    apply (unknown_not_known v s Hv) in Hu. apply Hu. intros i Hi. unfold unknown_in in E.
    rewrite existsb_seq_false in E. apply (E i). lia.
  - apply known_unknown_in; [|done]. by apply (unknown_known v s).
Qed.

Lemma of_IX_GETV_is d k net v s thr :
  wf_thread thr -> (k < WORDS_COUNT)%nat -> vec4_value d net = v -> vec_is v s ->
  of_IX_GETV d k net thr = Some (put_flag 4 (index_flag false s) (put_word k (index_reg false s) thr)).
Proof.
  intros Hthr Hk Hd Hv. unfold of_IX_GETV, index_flag, index_reg. rewrite Hd. destruct (unknown s) eqn:Hu.
  - destruct (to_ulong_loop_unknown (size v) 0 v 0 1 false) as [ov E].
    { by rewrite (unknown_in_list v s). }
    unfold vector4_to_ulong. rewrite E. rewrite set_word_wf by done. cbn [mbind option_bind].
    by rewrite set_flag_wf by (auto with thread || small_flag).
  - assert (Hk4 : known v) by (by apply (unknown_known v s)).
    rewrite vector4_to_ulong_known, <- (bv_Z_vec v s Hv Hk4) by (done || apply Hv).
    rewrite set_word_wf by done. cbn [mbind option_bind default].
    rewrite set_flag_wf by (auto with thread || small_flag). cbn [orb bv_num default].
    do 2 f_equal; case_cmp; case_cmp; (done || lia).
Qed.

Lemma signed_sum_is v s : vec_is v s -> (0 < length s)%nat -> signed_sum true v = bv_S s.
Proof.
  intros Hv Hs. unfold signed_sum, bv_S, msb. rewrite bv_Z_bit_sum, (vec_is_size _ _ Hv). cbn [andb].
  rewrite (vec_is_value _ _ _ Hv), (proj2 (Nat.eqb_neq _ _)), andb_true_r by lia.
  f_equal. apply bit_sum_ext. intros i _. by apply vec_is_value.
Qed.

Lemma of_IX_GETV_S_is d k net v s thr :
  wf_thread thr -> (k < WORDS_COUNT)%nat -> vec4_value d net = v -> vec_is v s -> (0 < length s <= W)%nat ->
  of_IX_GETV_S d k net thr = Some (put_flag 4 (index_flag true s) (put_word k (index_reg true s) thr)).
Proof.
  intros Hthr Hk Hd Hv Hs. unfold of_IX_GETV_S, index_flag, index_reg. rewrite Hd.
  pose proof (vec_is_size _ _ Hv) as Sv.
  rewrite vector4_to_value_result by (unfold W in *; lia). cbv zeta.
  rewrite Nat.min_l, (unknown_in_list v s) by (done || lia). cbn [andb].
  destruct (unknown s) eqn:Hu; cbn [negb].
  - rewrite set_word_wf by done. cbn [mbind option_bind]. by rewrite set_flag_wf by (auto with thread || small_flag).
  - rewrite set_word_wf by done. cbn [mbind option_bind default orb].
    rewrite set_flag_wf by (auto with thread || small_flag). cbn [bv_num].
    by rewrite (signed_sum_is v s) by (done || lia).
Qed.

(** * Shifts *)

(** The shift operators on bit lists: all X when the count is not known. *)
Definition bv_shift (f : nat -> list vvp_bit4_t -> list vvp_bit4_t) (l s : list vvp_bit4_t) : list vvp_bit4_t :=
  if unknown s then replicate (length l) BIT4_X else f (Z.to_nat (Z.min (bv_Z s) (Z.of_nat (length l)))) l.

Lemma bv_shl_all l k : (length l <= k)%nat -> bv_shl k l = replicate (length l) BIT4_0.
Proof.
  intros Hk. unfold bv_shl. apply (nth_ext _ _ BIT4_X BIT4_X); [by rewrite length_map, length_seq, length_replicate|].
  rewrite length_map, length_seq. intros i Hi. rewrite nth_map_seq, nth_replicate by done.
  by rewrite (proj2 (Nat.ltb_lt _ _)) by lia.
Qed.

Lemma bv_shr_all fill l k : (length l <= k)%nat -> bv_shr fill k l = replicate (length l) fill.
Proof.
  intros Hk. unfold bv_shr. apply (nth_ext _ _ BIT4_X BIT4_X); [by rewrite length_map, length_seq, length_replicate|].
  rewrite length_map, length_seq. intros i Hi. rewrite nth_map_seq, nth_replicate by done.
  by rewrite (proj2 (Nat.ltb_ge _ _)) by lia.
Qed.

Lemma bv_shl_0 l : bv_shl 0 l = l.
Proof.
  etransitivity; [|symmetry; apply (list_as_map l BIT4_X)]. apply map_seq_ext. intros i _. simpl. by rewrite Nat.sub_0_r.
Qed.
Lemma bv_shr_0 fill l : bv_shr fill 0 l = l.
Proof.
  etransitivity; [|symmetry; apply (list_as_map l BIT4_X)]. apply map_seq_ext. intros i Hi.
  by rewrite Nat.add_0_r, (proj2 (Nat.ltb_lt _ _)) by done.
Qed.

Lemma bv_shl_app l k : (k <= length l)%nat -> bv_shl k l = replicate k BIT4_0 ++ take (length l - k) l.
Proof.
  intros Hk. apply (nth_ext _ _ BIT4_X BIT4_X).
  - unfold bv_shl. rewrite length_map, length_seq, length_app, length_replicate, length_take. lia.
  - unfold bv_shl at 1. rewrite length_map, length_seq. intros i Hi. unfold bv_shl. rewrite nth_map_seq by done.
    destruct (Nat.ltb_spec i k).
    + by rewrite app_nth1, nth_replicate by (rewrite ?length_replicate; lia).
    + rewrite app_nth2, length_replicate, nth_prefix by (rewrite ?length_replicate; lia). done.
Qed.

Lemma bv_shr_app fill l k : (k <= length l)%nat -> bv_shr fill k l = drop k l ++ replicate k fill.
Proof.
  intros Hk. apply (nth_ext _ _ BIT4_X BIT4_X).
  - unfold bv_shr. rewrite length_map, length_seq, length_app, length_replicate, length_drop. lia.
  - unfold bv_shr at 1. rewrite length_map, length_seq. intros i Hi. unfold bv_shr. rewrite nth_map_seq by done.
    destruct (Nat.ltb_spec (i + k) (length l)).
    + rewrite app_nth1, nth_drop by (rewrite ?length_drop; lia). f_equal. lia.
    + rewrite app_nth2, nth_replicate by (rewrite ?length_drop; lia). done.
Qed.

Lemma overwrite_prefix m l : (length m <= length l)%nat -> overwrite 0 m l = m ++ drop (length m) l.
Proof. done. Qed.

Lemma overwrite_suffix adr m l : (adr + length m = length l)%nat -> overwrite adr m l = take adr l ++ m.
Proof. intros H. unfold overwrite. rewrite H, drop_ge, app_nil_r by done. done. Qed.

(** The width of a vector is an [unsigned]. *)
Definition width_fits (n : nat) : Prop := (0 < n)%nat /\ Z.of_nat n < 2 ^ 32.

Lemma shiftl_is v l s :
  vec_is v l -> width_fits (length l) ->
  exists r, shiftl (index_flag false s) (index_reg false s) v = Some r /\ vec_is r (bv_shift bv_shl l s).
Proof.
  intros Hv [Hp H32]. unfold shiftl, index_flag, index_reg, bv_shift. rewrite (vec_is_size _ _ Hv).
  destruct (unknown s); [eexists; split; [done|apply vec_is_fill]|]. cbn [orb bv_num].
  pose proof (bv_Z_range s) as [H0 _]. set (k := bv_Z s) in *.
  assert (Hbig : (length l <= Z.to_nat (Z.min k (Z.of_nat (length l))))%nat ->
    exists r, Some (vec4_fill (length l) BIT4_0) = Some r /\ vec_is r (bv_shl (Z.to_nat (Z.min k (Z.of_nat (length l)))) l)).
  { intros Hk. eexists. split; [done|]. rewrite bv_shl_all by done. apply vec_is_fill. }
  destruct (Z.ltb_spec k wordsize) as [Hs|Hs].
  2:{ apply Hbig. unfold wordsize in Hs. lia. }
  rewrite wrap_small by (unfold is_word; lia).
  change (bit4_eqb BIT4_0 BIT4_1) with false. change (bit4_eqb BIT4_0 BIT4_X) with false. cbv [orb]. cbv iota.
  destruct (Z.leb_spec (Z.of_nat (length l)) k) as [Hk|Hk]; [apply Hbig; lia|].
  rewrite Z.min_l by lia. destruct (Z.ltb_spec 0 k) as [H1|H1].
  2:{ exists v. split; [done|]. replace k with 0 by lia. by rewrite bv_shl_0. }
  set (n := Z.to_nat k). assert (Hn : (0 < n < length l)%nat) by lia.
  destruct (subvalue_is v l 0 (length l - n) Hv) as (blk & -> & Hblk); [lia|]. cbn [mbind option_bind].
  rewrite drop_0 in Hblk.
  destruct (set_vec_is v 0 _ _ _ Hv (vec_is_fill n BIT4_0)) as (v1 & d1 & -> & Hv1);
    [rewrite length_replicate; lia..|]. cbn [mbind option_bind].
  assert (L1 : length (overwrite 0 (replicate n BIT4_0) l) = length l) by (rewrite length_overwrite; rewrite ?length_replicate; lia).
  destruct (set_vec_is v1 n _ _ _ Hv1 Hblk) as (v2 & d2 & -> & Hv2); [rewrite length_take; lia..|].
  exists v2. split; [done|]. rewrite bv_shl_app by lia.
  rewrite overwrite_suffix in Hv2 by (rewrite L1, length_take; lia).
  rewrite overwrite_prefix, take_app_le, take_ge in Hv2 by (rewrite !length_replicate; lia). done.
Qed.

Lemma shiftr_is fill v l s :
  vec_is v l -> width_fits (length l) ->
  exists r, shiftr fill (index_flag false s) (index_reg false s) v = Some r /\ vec_is r (bv_shift (bv_shr (fill v)) l s).
Proof.
  intros Hv [Hp H32]. unfold shiftr, index_flag, index_reg, bv_shift. rewrite (vec_is_size _ _ Hv).
  destruct (unknown s); [eexists; split; [done|apply vec_is_fill]|]. cbn [orb bv_num].
  pose proof (bv_Z_range s) as [H0 _]. set (k := bv_Z s) in *. set (pad := fill v).
  assert (Hbig : (length l <= Z.to_nat (Z.min k (Z.of_nat (length l))))%nat ->
    exists r, Some (vec4_fill (length l) pad) = Some r /\
      vec_is r (bv_shr pad (Z.to_nat (Z.min k (Z.of_nat (length l)))) l)).
  { intros Hk. eexists. split; [done|]. rewrite bv_shr_all by done. apply vec_is_fill. }
  destruct (Z.ltb_spec k wordsize) as [Hs|Hs]; [|apply Hbig; unfold wordsize in Hs; lia].
  rewrite wrap_small by (unfold is_word; lia).
  change (bit4_eqb BIT4_0 BIT4_1) with false. change (bit4_eqb BIT4_0 BIT4_X) with false. cbv [orb]. cbv iota.
  destruct (Z.ltb_spec (Z.of_nat (length l)) k) as [Hk|Hk]; [apply Hbig; lia|].
  rewrite Z.min_l by lia. destruct (Z.ltb_spec 0 k) as [H1|H1].
  2:{ exists v. split; [done|]. replace k with 0 by lia. by rewrite bv_shr_0. }
  set (n := Z.to_nat k). assert (Hn : (0 < n <= length l)%nat) by lia.
  destruct (subvalue_is v l n (length l - n) Hv) as (blk & -> & Hblk); [lia|]. cbn [mbind option_bind].
  rewrite take_ge in Hblk by (rewrite length_drop; lia).
  assert (HE : exists v1 d1 l1, set_vec v 0 blk = Some (v1, d1) /\ vec_is v1 l1 /\ length l1 = length l /\
    take (length l - n) l1 = drop n l).
  { destruct (Nat.eq_dec (length l - n)%nat 0%nat) as [E0|E0].
    - exists v, false, l. rewrite E0. split_and!; [|done|done|rewrite drop_ge by lia; done].
      apply set_vec_nothing; [apply Hv|]. rewrite (vec_is_size _ _ Hblk), length_drop. lia.
    - destruct (set_vec_is v 0 _ _ _ Hv Hblk) as (v1 & d1 & E1 & Hv1); [rewrite length_drop; lia..|].
      exists v1, d1, (overwrite 0 (drop n l) l). split_and!; [done|done|rewrite length_overwrite; rewrite ?length_drop; lia|].
      rewrite overwrite_prefix, take_app_le, take_ge by (rewrite length_drop; lia). done. }
  destruct HE as (v1 & d1 & l1 & -> & Hv1 & L1 & T1). cbn [mbind option_bind].
  destruct (set_vec_is v1 (length l - n) _ _ _ Hv1 (vec_is_fill n pad)) as (v2 & d2 & -> & Hv2);
    [rewrite length_replicate; lia..|].
  exists v2. split; [done|]. rewrite bv_shr_app by lia.
  rewrite overwrite_suffix, T1 in Hv2 by (rewrite length_replicate; lia). done.
Qed.

(** * Selects at a base *)

(** The part select of Verilog: X when the base is not known. *)
Definition bv_select (signed : bool) (wid : nat) (l b : list vvp_bit4_t) : list vvp_bit4_t :=
  if unknown b then replicate wid BIT4_X else bv_part (bv_num signed b) wid l.

Lemma length_select s wid l b : length (bv_select s wid l b) = wid.
Proof. unfold bv_select. destruct (unknown b); [apply length_replicate|apply length_part]. Qed.

Lemma as_signed_mod x : - 2 ^ 31 <= x < 2 ^ 31 -> as_signed 32 (x mod 2 ^ Z.of_nat 32) = x.
Proof.
  intros Hx. unfold as_signed. change (2 ^ (Z.of_nat 32 - 1)) with (2 ^ 31). change (2 ^ Z.of_nat 32) with (2 * 2 ^ 31).
  destruct (Z.lt_ge_cases x 0).
  - assert (E : x mod (2 * 2 ^ 31) = x + 2 * 2 ^ 31) by (symmetry; apply (Z.mod_unique _ _ (-1)); lia). rewrite E.
    rewrite (proj2 (Z.ltb_ge _ _)) by lia. lia.
  - rewrite Z.mod_small by lia. by rewrite (proj2 (Z.ltb_lt _ _)) by lia.
Qed.

Lemma bv_num_range (signed : bool) b : (0 < length b)%nat ->
  (if signed then - 2 ^ Z.of_nat (length b - 1) <= bv_S b < 2 ^ Z.of_nat (length b - 1) else 0 <= bv_Z b < 2 ^ Z.of_nat (length b)).
Proof.
  intros Hp. destruct signed; [|apply bv_Z_range]. rewrite bv_S_alt by done. pose proof (bv_Z_range b) as HR.
  assert (Hp2 : 2 ^ Z.of_nat (length b) = 2 * 2 ^ Z.of_nat (length b - 1)) by (rewrite <- Z.pow_succ_r by lia; f_equal; lia).
  case_cmp; lia.
Qed.

(** The base of a select survives the cut to 32 bits: the signed and the narrower bases
    always, an unsigned base of 32 bits when one bit is selected. *)
Definition base_fits (signed : bool) (wid n : nat) : bool :=
  (n <=? 31)%nat || ((n =? 32)%nat && (signed || (wid =? 1)%nat)).

Lemma part_outside base wid l :
  (base + Z.of_nat wid <= 0 \/ Z.of_nat (length l) <= base) -> bv_part base wid l = replicate wid BIT4_X.
Proof.
  intros H. apply (nth_ext _ _ BIT4_X BIT4_X); [by rewrite length_part, length_replicate|].
  rewrite length_part. intros i Hi. rewrite nth_part, nth_replicate by done.
  case_cmp; [done|]. apply nth_overflow. lia.
Qed.

(** The word that a base of at most 32 bits gives. *)
Lemma base_word signed vb b : vec_is vb b -> (0 < length b <= 32)%nat ->
  vector4_to_value 32 vb signed true = if unknown b then (false, None) else (true, Some (bv_num signed b mod 2 ^ Z.of_nat 32)).
Proof.
  intros Hb [Hp H32]. pose proof (vec_is_size _ _ Hb) as Sb. rewrite vector4_to_value_result by (unfold W; lia). cbv zeta.
  rewrite Nat.min_l, (unknown_in_list vb b) by (done || lia). cbn [andb]. destruct (unknown b); cbn [negb]; [done|].
  assert (Ev : signed_sum signed vb = bv_num signed b); [|by rewrite Ev].
  destruct signed; [by apply signed_sum_is|]. unfold signed_sum. cbn [andb bv_num]. rewrite bv_Z_bit_sum, Sb, Z.sub_0_r.
  apply bit_sum_ext. intros i _. by apply vec_is_value.
Qed.

Lemma base_fits_cases signed wid b : (0 < length b)%nat -> base_fits signed wid (length b) = true ->
  (length b <= 32)%nat /\
  (- 2 ^ 31 <= bv_num signed b < 2 ^ 31 \/ (signed = false /\ wid = 1%nat /\ 2 ^ 31 <= bv_num signed b < 2 * 2 ^ 31)).
Proof.
  intros Hp Hfit. pose proof (bv_num_range signed b Hp) as HR.
  assert (H32 : (length b <= 32)%nat) by (apply orb_true_iff in Hfit as [E%Nat.leb_le|[E%Nat.eqb_eq _]%andb_true_iff]; lia).
  split; [done|]. pose proof (Z.pow_le_mono_r 2 (Z.of_nat (length b - 1)) 31 ltac:(lia) ltac:(lia)).
  destruct signed; cbn [bv_num] in *; [left; lia|]. unfold base_fits in Hfit. cbn [orb] in Hfit.
  destruct (Nat.leb_spec (length b) 31) as [H31|H31].
  - pose proof (Z.pow_le_mono_r 2 (Z.of_nat (length b)) 31 ltac:(lia) ltac:(lia)). left. lia.
  - apply andb_true_iff in Hfit as [E1%Nat.eqb_eq E2%Nat.eqb_eq]. rewrite E1 in HR. change (2 ^ Z.of_nat 32) with (2 * 2 ^ 31) in HR.
    destruct (Z.lt_ge_cases (bv_Z b) (2 ^ 31)); [left; lia|right; lia].
Qed.

Lemma as_signed_high x : 2 ^ 31 <= x < 2 * 2 ^ 31 -> as_signed 32 (x mod 2 ^ Z.of_nat 32) = x - 2 * 2 ^ 31.
Proof.
  intros Hx. change (2 ^ Z.of_nat 32) with (2 * 2 ^ 31). rewrite Z.mod_small by lia. unfold as_signed.
  change (2 ^ (Z.of_nat 32 - 1)) with (2 ^ 31). change (2 ^ Z.of_nat 32) with (2 * 2 ^ 31). by rewrite (proj2 (Z.ltb_ge _ _)) by lia.
Qed.

Lemma part_is signed wid vl vb l b :
  vec_is vl l -> vec_is vb b -> (0 < wid)%nat -> (0 < length l)%nat -> Z.of_nat (length l) <= 2 ^ 31 -> (0 < length b)%nat ->
  base_fits signed wid (length b) = true ->
  exists r, part signed wid vl vb = Some r /\ vec_is r (bv_select signed wid l b).
Proof.
  intros Hl Hb Hw Hpl Hll Hpb Hfit. unfold part, bv_select. destruct (base_fits_cases signed wid b Hpb Hfit) as [H32 HC].
  rewrite (base_word signed vb b Hb) by lia. destruct (unknown b); [eexists; split; [done|apply vec_is_fill]|].
  destruct HC as [HR|(-> & -> & HR)]; [rewrite as_signed_mod by done; by apply part_select_is|].
  rewrite as_signed_high by done. destruct (part_select_is vl l (bv_num false b - 2 * 2 ^ 31) 1 Hl Hpl Hw) as (r & E & Hr).
  exists r. split; [done|]. rewrite part_outside in Hr by lia. by rewrite part_outside by lia.
Qed.

(** The base of [%parti], from the bits of a literal. *)
Lemma parti_base_is signed b :
  (0 < length b)%nat -> bv_Z b < 2 ^ 32 -> bv_num signed b < 2 ^ 31 ->
  parti_base signed (bv_Z b) (length b) = bv_num signed b.
Proof.
  intros Hp H32 Hr. unfold parti_base. pose proof (bv_Z_range b) as HZ. pose proof (bv_num_range signed b Hp) as HN.
  destruct signed; cbn [andb bv_num] in *.
  2:{ unfold as_signed. change (2 ^ (Z.of_nat 32 - 1)) with (2 ^ 31). by rewrite (proj2 (Z.ltb_lt _ _)). }
  pose proof (bv_S_alt b Hp) as ES.
  destruct (Nat.ltb_spec (length b) 32) as [Hb|Hb]; cbn [andb].
  - assert (Hm : (Z.land (bv_Z b) (Z.shiftl 1 (Z.of_nat (length b - 1))) =? 0) = (bv_Z b <? 2 ^ Z.of_nat (length b - 1))).
    { destruct (index_mask (bv_Z b) (length b)) as (_ & E & _); [unfold W; lia|done|]. rewrite <- E. f_equal. f_equal.
      unfold wshl. rewrite Nat.mod_small by (unfold W; lia). symmetry. apply wrap_small. unfold is_word, wordsize.
      rewrite Z.shiftl_mul_pow2, Z.mul_1_l by lia. split; [apply Z.pow_nonneg; lia|apply Z.pow_lt_mono_r; lia]. }
    rewrite Hm. assert (Hp31 : 2 ^ Z.of_nat (length b - 1) <= 2 ^ 31) by (apply Z.pow_le_mono_r; lia).
    destruct (Z.ltb_spec (bv_Z b) (2 ^ Z.of_nat (length b - 1))) as [H1|H1]; cbn [negb].
    + rewrite ES, Z.sub_0_r. unfold as_signed. change (2 ^ (Z.of_nat 32 - 1)) with (2 ^ 31). by rewrite (proj2 (Z.ltb_lt _ _)) by lia.
    + pose proof (sign_fill 32 (length b) (bv_Z b) ltac:(unfold W; lia) HZ) as H. change (2 ^ Z.of_nat 32) with (2 ^ 32) in H.
      rewrite H, <- ES. change (2 ^ 32) with (2 ^ Z.of_nat 32). apply as_signed_mod. lia.
  - unfold as_signed. change (2 ^ (Z.of_nat 32 - 1)) with (2 ^ 31). change (2 ^ Z.of_nat 32) with (2 ^ 32).
    assert (H31 : 2 ^ 31 <= 2 ^ Z.of_nat (length b - 1)) by (apply Z.pow_le_mono_r; lia).
    destruct (Nat.eq_dec (length b) 32%nat) as [E32|E32].
    + rewrite ES, E32. change (2 ^ Z.of_nat (32 - 1)) with (2 ^ 31). change (2 ^ Z.of_nat 32) with (2 ^ 32). case_cmp; lia.
    + assert (2 ^ 32 <= 2 ^ Z.of_nat (length b - 1)) by (apply Z.pow_le_mono_r; lia).
      rewrite ES in *. rewrite (proj2 (Z.ltb_lt (bv_Z b) (2 ^ Z.of_nat (length b - 1)))) in * by lia.
      rewrite Z.sub_0_r in *. by rewrite (proj2 (Z.ltb_lt _ _)) by lia.
Qed.
