(* ===== verification/VThreadDiv.v ===== *)
(** [%div], [%div/s], [%mod], [%mod/s] and [%pow] of the thread interpreter against the
    arithmetic of bit lists. *)
From S2P Require Import Prelude MachineWord VvpBit VvpVector4 VvpSlice WordArith VvpArith VvpVector2 VvpCompare.
From S2P Require Import BitList VvpFunctor WordDiv VThread VThreadSpec VThreadParts VThreadIndex.

(** Storing words over a whole vector. *)
Lemma setarray_is v l ws :
  vec_is v l -> words ws -> (0 < length l)%nat ->
  exists r, setarray v 0 (length l) ws = Some r /\ vec_is r (of_Z (length l) (wval ws)).
Proof.
  intros Hv Hw Hp. pose proof (vec_is_size _ _ Hv) as Hs.
  destruct (setarray_spec v 0 (length l) ws (vec_is_wf _ _ Hv) Hw Hp) as (r & E & Hr); [lia|].
  exists r. split; [done|]. apply (bitwise_is _ _ _ _ Hr); [by rewrite length_of_Z|].
  rewrite Hs. intros i Hi. rewrite nth_of_Z by done. rewrite testbit_wval by done.
  cbn [Nat.leb Nat.add andb]. by rewrite (proj2 (Nat.ltb_lt _ _)), Nat.sub_0_r by done.
Qed.

Lemma one_word_list ws : length ws = 1%nat -> ws = [word ws 0].
Proof. destruct ws as [|w [|]]; try discriminate. done. Qed.

Lemma words_for_short n : (0 < n <= W)%nat -> words_for n = 1%nat.
Proof. intros H. pose proof (words_for_long n). pose proof (words_for_pos n). lia. Qed.

Lemma pow64_1 : pow64 1 = wordsize.
Proof. rewrite pow64_pow2. done. Qed.

Lemma div_is_word a b : is_word a -> 0 < b -> is_word (a / b).
Proof.
  unfold is_word. intros Ha Hb. split; [apply Z.div_pos; lia|].
  apply Z.div_lt_upper_bound; [lia|]. assert (1 * a <= b * a) by (apply Z.mul_le_mono_nonneg_r; lia). nia.
Qed.

(** * [%div] *)

(** The widths for which [divide_bits] is right: a doubled dividend fits the words. *)
Lemma narrow_fits n ap bp :
  (0 < n)%nat -> words bp -> length bp = words_for n -> (n <= 128)%nat ->
  2 * wval ap <= pow64 (words_for n) \/ (n <= W)%nat -> 0 < wval bp -> division_fits (words_for n) ap bp.
Proof.
  intros Hp Hb Lb Hn HA HB. unfold division_fits.
  destruct (Z.lt_ge_cases (wval bp) wordsize) as [H1|H1].
  - left. exists 0%nat. rewrite word_wval by done. rewrite pow64_pow2. change (2 ^ Z.of_nat (0 * W)) with 1.
    rewrite Z.div_1_r, Z.mod_small by lia. lia.
  - right. pose proof (words_for_mono n 128 Hn) as H2. change (words_for 128) with 2%nat in H2.
    pose proof (wval_bound bp Hb) as HBd. rewrite Lb in HBd. pose proof (words_for_pos n Hp) as H0.
    destruct (Nat.eq_dec (words_for n) 1%nat) as [E1|E1].
    { rewrite E1, pow64_1 in HBd. lia. }
    destruct HA as [HA|HA]; [|pose proof (words_for_long n); lia].
    replace (words_for n) with 2%nat in * by lia. change (2 - 1)%nat with 1%nat. rewrite pow64_1. lia.
Qed.

(** The widths for which [divide_bits] never errs. *)
Definition max_div (signed : bool) : nat := if signed then 128 else 127.

Lemma pow_words_for n : (0 < n)%nat -> 2 ^ Z.of_nat n <= pow64 (words_for n).
Proof. intros Hn. rewrite pow64_pow2. apply Z.pow_le_mono_r; [lia|]. pose proof (words_for_bounds n). lia. Qed.

Lemma double_fits n A : (0 < n <= 127)%nat -> (W < n)%nat -> 0 <= A < 2 ^ Z.of_nat n -> 2 * A <= pow64 (words_for n).
Proof.
  intros Hn HW HA. pose proof (words_for_mono n 128 ltac:(lia)) as H2. change (words_for 128) with 2%nat in H2.
  pose proof (words_for_long n). replace (words_for n) with 2%nat by lia. rewrite pow64_pow2.
  pose proof (Z.pow_le_mono_r 2 (Z.of_nat n) 127 ltac:(lia) ltac:(lia)). change (2 ^ Z.of_nat (2 * W)) with (2 * 2 ^ 127). lia.
Qed.

Lemma div_implements vl vr l r :
  vec_is vl l -> vec_is vr r -> length l = length r -> (0 < length l <= max_div false)%nat ->
  exists v, div_vec4 vl vr = Some v /\ vec_is v (bv_div false l r).
Proof.
  intros Hl Hr Hlen [Hp Hmax]. cbn in Hmax. unfold div_vec4, bv_div, bv_divide.
  pose proof (vec_is_size _ _ Hl) as Sl. pose proof (vec_is_size _ _ Hr) as Sr.
  rewrite Sl, Sr, Hlen, Nat.eqb_refl. rewrite <- Hlen.
  pose proof (subarray_is vl l Hl Hp) as HA. pose proof (subarray_is vr r Hr ltac:(lia)) as HB.
  rewrite Sl in HA. rewrite Sr, <- Hlen in HB.
  destruct (subarray vl 0 (length l) false) as [ap|]; [|rewrite HA; eexists; split; [done|apply vec_is_fill]].
  destruct (subarray vr 0 (length l) false) as [bp|];
    [|rewrite HB, orb_true_r; eexists; split; [done|apply vec_is_fill]].
  destruct HA as (Ul & Wa & La & Va), HB as (Ur & Wb & Lb & Vb). rewrite Ul, Ur. cbn [orb bv_num].
  assert (Eq : bv_Z r <> 0 -> bv_Z l ÷ bv_Z r = bv_Z l / bv_Z r).
  { intros H0. pose proof (bv_Z_range l). pose proof (bv_Z_range r). apply Z.quot_div_nonneg; lia. }
  destruct (Nat.leb_spec (length l) W) as [HW|HW].
  - assert (L1 : words_for (length l) = 1%nat) by (by apply words_for_short). rewrite L1 in La, Lb.
    rewrite (one_word_list ap), (one_word_list bp) in * by done. cbn [wval] in Va, Vb.
    rewrite Z.mul_0_r, Z.add_0_r in Va, Vb. rewrite Va, Vb in *. cbn [word nth] in *.
    destruct (Z.eqb_spec (bv_Z r) 0) as [E0|E0]; [eexists; split; [done|apply vec_is_fill]|].
    rewrite Eq by done. destruct (setarray_is vl l [bv_Z l / bv_Z r] Hl) as (v & E & Hv); [|done|].
    { constructor; [|done]. apply (div_is_word (bv_Z l) (bv_Z r)); [rewrite <- Va; by apply word_is_word|]. pose proof (bv_Z_range r). lia. }
    exists v. split; [done|]. cbn [wval] in Hv. by rewrite Z.mul_0_r, Z.add_0_r in Hv.
  - destruct (divide_bits_spec ap bp (length l)) as [D0 D1]; [done..|].
    rewrite Vb in D0, D1. destruct (Z.eqb_spec (bv_Z r) 0) as [E0|E0].
    + rewrite D0 by done. eexists. split; [done|]. apply vec_is_fill.
    + pose proof (bv_Z_range r). destruct D1 as (q & rm & -> & Wq & Lq & Vq & _); [lia| |].
      { apply narrow_fits; [done|done|done|lia| |lia]. left. rewrite Va. apply double_fits; [lia|done|apply bv_Z_range]. }
      cbn [mbind option_bind]. destruct (setarray_is vl l q Hl Wq Hp) as (v & E & Hv). exists v. split; [done|].
      by rewrite Vq, Va, <- Eq in Hv by done.
Qed.

(** * [%div/s] *)

Lemma negate_words_spec val n :
  words val -> length val = n ->
  words (negate_words val n) /\ length (negate_words val n) = n /\
  wval (negate_words val n) = (- wval val) mod pow64 n.
Proof.
  intros Hw Hl. unfold negate_words.
  set (body := fun (idx : nat) '(v, carry) => _ : list Z * Z).
  assert (H : forall k, (k <= n)%nat -> let '(v, c) := for_upto k body (val, 1) in
    words v /\ length v = n /\ 0 <= c <= 1 /\ (forall i, (k <= i)%nat -> word v i = word val i) /\
    wval v + pow64 k * c = wval val - 2 * wsum (word val) k + pow64 k).
  { induction k as [|k IH]; intros Hk; cbn [for_upto].
    - split_and!; try done. cbn [wsum]. lia.
    - specialize (IH ltac:(lia)). destruct (for_upto k body (val, 1)) as [v c]. destruct IH as (W1 & L1 & C1 & K1 & V1).
      cbn [body]. pose proof (add_with_carry_spec 0 (wnot (word v k)) c) as HA.
      destruct (add_with_carry 0 (wnot (word v k)) c) as [s c2].
      destruct HA as (Ws & C2 & E); [auto with word..|done|].
      split_and!; [by apply words_insert|by rewrite length_insert|lia|lia| |].
      + intros i Hi. rewrite word_insert by lia. case_cmp; [lia|]. apply K1. lia.
      + rewrite wval_insert by lia. cbn [wsum]. rewrite K1, pow64_S in * by lia. unfold wnot in E. 
        pose proof (pow64_pos k). nia. }
  specialize (H n (le_n n)). destruct (for_upto n body (val, 1)) as [v c]. destruct H as (W1 & L1 & C1 & _ & V1).
  cbn [fst]. split_and!; [done|done|]. rewrite <- Hl in V1 at 2. rewrite wsum_word in V1.
  pose proof (wval_bound v W1) as HB. rewrite L1 in HB. 
  apply (Z.mod_unique _ _ (c - 1)); [left; lia|]. lia.
Qed.

(** The value of a vector in two's complement, spread over its words. *)
Definition signed_words (n : nat) (l : list vvp_bit4_t) (p : list Z) : Prop :=
  words p /\ length p = n /\ wval p = bv_S l mod pow64 n.

Lemma sign_extend_spec p l n k :
  words p -> length p = S n -> wval p = bv_Z l -> (0 < length l)%nat -> (length l = n * W + k)%nat -> (0 < k < W)%nat ->
  signed_words (S n) l (sign_extend (S n) (wshl wones k) p).
Proof.
  intros Hw Hl Hv Hp Hlen Hk. unfold signed_words, sign_extend. rewrite Nat.sub_succ, Nat.sub_0_r.
  set (top := word p n). assert (Wt : is_word top) by (by apply word_is_word).
  pose proof (bv_Z_range l) as HR. rewrite <- Hv in HR.
  assert (E2 : 2 ^ Z.of_nat (length l) = pow64 n * 2 ^ Z.of_nat k).
  { rewrite Hlen, pow64_pow2, <- Z.pow_add_r by lia. f_equal. lia. }
  assert (E3 : 2 ^ Z.of_nat (length l - 1) = pow64 n * 2 ^ Z.of_nat (k - 1)).
  { rewrite Hlen, pow64_pow2, <- Z.pow_add_r by lia. f_equal. lia. }
  assert (EV : wval p = wsum (word p) n + pow64 n * top).
  { rewrite <- wsum_word, Hl. done. }
  pose proof (wsum_bound (word p) n (fun i _ => word_is_word p i Hw)) as HB. pose proof (pow64_pos n) as HP.
  assert (Ht : 0 <= top < 2 ^ Z.of_nat k) by (unfold is_word in Wt; nia).
  destruct (index_mask top k ltac:(lia) Ht) as (_ & M2 & M3).
  assert (EM : Z.land top (wshr (wshl wones k) 1) = Z.land top (wshl 1 (k - 1))).
  { apply tb_ext; [auto with word..|]. intros i Hi. rewrite !tb_land, tb_wshr, tb_wshl, tb_wones, tb_wshl_1 by (unfold W in *; lia).
    destruct (Nat.lt_ge_cases i k) as [Hik|Hik].
    - f_equal. repeat case_cmp; simpl; (done || lia).
    - assert (tb top i = false) as ->; [|done]. unfold tb. destruct (Z.eq_dec top 0) as [->|Hne]; [by rewrite Z.testbit_0_l|].
      apply Z.bits_above_log2; [lia|]. assert (Z.log2 top < Z.of_nat k) by (apply Z.log2_lt_pow2; lia). lia. }
  rewrite EM, M2, bv_S_alt, <- Hv, E2, E3 by done.
  assert (P64 : pow64 (S n) = pow64 n * wordsize) by (rewrite pow64_S; lia).
  assert (Hk64 : 2 ^ Z.of_nat k <= wordsize) by (apply (Z.pow_le_mono_r 2 _ 64); unfold W in *; lia).
  destruct (Z.ltb_spec top (2 ^ Z.of_nat (k - 1))) as [H1|H1].
  - rewrite (proj2 (Z.ltb_lt (wval p) _)) by nia. split_and!; [done|done|]. rewrite Z.sub_0_r. symmetry. apply Z.mod_small. rewrite P64. nia.
  - rewrite (proj2 (Z.ltb_ge (wval p) _)) by nia. split_and!; [apply words_insert; auto with word|by rewrite length_insert|].
    rewrite wval_insert by lia. fold top. rewrite M3.
    assert (Ew : wrap (top - 2 ^ Z.of_nat k) = top - 2 ^ Z.of_nat k + wordsize).
    { symmetry. apply (Z.mod_unique _ _ (-1)); [left; lia|lia]. }
    rewrite Ew. apply (Z.mod_unique _ _ (-1)); [|rewrite P64; lia]. left. rewrite P64. nia.
Qed.

Lemma bv_S_mod n l : (0 < length l)%nat -> pow64 n = 2 ^ Z.of_nat (length l) -> bv_S l mod pow64 n = bv_Z l.
Proof.
  intros Hp E. rewrite bv_S_alt, E by done. pose proof (bv_Z_range l).
  case_cmp; [rewrite Z.sub_0_r; by apply Z.mod_small|]. symmetry. apply (Z.mod_unique _ _ (-1)); [by left|lia].
Qed.

(** The operand of [%div/s] after its sign bits are filled in. *)
Lemma extend_operand l p :
  words p -> length p = words_for (length l) -> wval p = bv_Z l -> (0 < length l)%nat ->
  let words := words_for (length l) in
  let sign_bits := (words * W - length l)%nat in
  signed_words words l (if (sign_bits =? 0)%nat then p else sign_extend words (wshl wones (W - sign_bits)) p).
Proof.
  intros Hw Hl Hv Hp words sign_bits. pose proof (words_for_bounds (length l)) as [B1 B2]. specialize (B2 Hp).
  fold words in Hl, B1, B2. destruct (Nat.eqb_spec sign_bits 0) as [E|E].
  - split_and!; [done|done|]. rewrite Hv. symmetry. apply bv_S_mod; [done|]. rewrite pow64_pow2. do 2 f_equal. lia.
  - pose proof (words_for_pos _ Hp) as Hn. fold words in Hn. unfold sign_bits in *.
    replace words with (S (words - 1)) in * by lia.
    apply sign_extend_spec; try done; unfold W in *; lia.
Qed.

(** Cutting the top word to the bits of the vector. *)
Lemma masked_top q wid :
  words q -> length q = words_for wid -> (0 < wid)%nat ->
  let words := words_for wid in
  let sign_bits := (words * W - wid)%nat in
  let sign_mask := if (sign_bits =? 0)%nat then 0 else wshl wones (W - sign_bits) in
  MachineWord.words (<[(words - 1)%nat := Z.land (word q (words - 1)) (wnot sign_mask)]> q) /\
  of_Z wid (wval (<[(words - 1)%nat := Z.land (word q (words - 1)) (wnot sign_mask)]> q)) = of_Z wid (wval q).
Proof.
  intros Hw Hl Hp words sign_bits sign_mask. pose proof (words_for_bounds wid) as [B1 B2]. specialize (B2 Hp).
  fold words in Hl, B1, B2. pose proof (words_for_pos _ Hp) as Hn. fold words in Hn.
  assert (Hwq : is_word (word q (words - 1))) by (by apply word_is_word).
  assert (Hm : is_word sign_mask) by (unfold sign_mask; case_match; auto with word).
  assert (Hw' : MachineWord.words (<[(words - 1)%nat := Z.land (word q (words - 1)) (wnot sign_mask)]> q))
    by (apply words_insert; auto with word).
  split; [done|]. apply map_seq_ext. intros i Hi. rewrite !testbit_wval, !wbit_word by done.
  assert (E : tb (word (<[(words - 1)%nat := Z.land (word q (words - 1)) (wnot sign_mask)]> q) (i / W)) (i mod W)
            = tb (word q (i / W)) (i mod W)); [|by rewrite E].
  rewrite word_insert by lia. destruct (Nat.eqb_spec (i / W) (words - 1)) as [Ei|]; [|done].
  rewrite Ei, tb_land, tb_wnot by done. pose proof (mod_W_lt i) as Hm1. pose proof (Nat.div_mod_eq i W) as Hm2.
  rewrite (proj2 (Nat.ltb_lt (i mod W) W)) by done. cbn [andb].
  assert (tb sign_mask (i mod W) = false) as ->; [|by rewrite andb_true_r].
  unfold sign_mask. destruct (Nat.eqb_spec sign_bits 0) as [E0|E0]; [apply tb_0|].
  rewrite tb_wshl by (unfold sign_bits, W in *; lia).
  destruct (Nat.leb_spec (W - sign_bits) (i mod W)); [|by rewrite andb_false_r].
  exfalso. unfold sign_bits in *. rewrite Ei in Hm2. unfold W in *. nia.
Qed.

Lemma signed_magnitude n l p :
  (0 < n)%nat -> signed_words n l p -> (0 < length l)%nat -> 2 ^ Z.of_nat (length l) <= pow64 n ->
  let neg := negative (word p (n - 1)) in
  let m := if neg then negate_words p n else p in
  neg = (bv_S l <? 0) /\ words m /\ length m = n /\ wval m = Z.abs (bv_S l).
Proof.
  intros Hn (Hw & Hl & Hv) Hp H2 neg m.
  pose proof (bv_num_range true l Hp) as HR. cbn in HR.
  assert (Hh : 2 ^ Z.of_nat (length l) = 2 * 2 ^ Z.of_nat (length l - 1)) by (rewrite <- Z.pow_succ_r by lia; f_equal; lia).
  assert (HV : wval p = bv_S l + (if bv_S l <? 0 then pow64 n else 0)).
  { rewrite Hv. case_cmp; [|rewrite Z.add_0_r; apply Z.mod_small; lia].
    symmetry. apply (Z.mod_unique _ _ (-1)); [left; lia|lia]. }
  assert (EN : neg = (bv_S l <? 0)).
  { unfold neg, negative. pose proof (testbit_wval p (n * W - 1) Hw) as HT. rewrite wbit_word in HT.
    assert (E1 : ((n * W - 1) / W)%nat = (n - 1)%nat) by (symmetry; apply (Nat.div_unique _ _ _ (W - 1)); unfold W; lia).
    assert (E2 : ((n * W - 1) mod W)%nat = (W - 1)%nat) by (symmetry; apply (Nat.mod_unique _ _ (n - 1)); unfold W; lia).
    rewrite E1, E2 in HT.
    rewrite <- HT. fold (tb (wval p) (n * W - 1)).
    pose proof (wval_bound p Hw) as HB. rewrite Hl, pow64_pow2 in HB. rewrite top_bit_small by (unfold W in *; lia).
    assert (Hh2 : pow64 n = 2 * 2 ^ Z.of_nat (n * W - 1)).
    { rewrite pow64_pow2, <- Z.pow_succ_r by lia. f_equal. unfold W. lia. }
    rewrite HV, Hh2. repeat case_cmp; (done || lia). }
  split; [done|]. unfold m. rewrite EN. destruct (Z.ltb_spec (bv_S l) 0) as [Hs|Hs].
  - destruct (negate_words_spec p n Hw Hl) as (W1 & L1 & V1). split_and!; [done|done|]. rewrite V1, HV.
    rewrite Z.abs_neq by lia. symmetry. apply (Z.mod_unique _ _ (-1)); [left; lia|lia].
  - split_and!; [done|done|]. rewrite HV, Z.abs_eq by lia. lia.
Qed.

Lemma as_signed_word x : - 2 ^ 63 <= x < 2 ^ 63 -> as_signed W (x mod wordsize) = x.
Proof.
  intros Hx. unfold as_signed. change (2 ^ (Z.of_nat W - 1)) with (2 ^ 63). change (2 ^ Z.of_nat W) with (2 * 2 ^ 63).
  change wordsize with (2 * 2 ^ 63). destruct (Z.lt_ge_cases x 0).
  - assert (E : x mod (2 * 2 ^ 63) = x + 2 * 2 ^ 63) by (symmetry; apply (Z.mod_unique _ _ (-1)); lia).
    rewrite E, (proj2 (Z.ltb_ge _ _)) by lia. lia.
  - rewrite Z.mod_small by lia. by rewrite (proj2 (Z.ltb_lt _ _)) by lia.
Qed.

Lemma bv_S_63 l : (0 < length l <= W)%nat -> - 2 ^ 63 <= bv_S l < 2 ^ 63.
Proof.
  intros Hl. pose proof (bv_num_range true l ltac:(lia)) as HR. cbn in HR.
  pose proof (Z.pow_le_mono_r 2 (Z.of_nat (length l - 1)) 63 ltac:(lia) ltac:(unfold W in *; lia)). lia.
Qed.

Lemma bv_S_0 l : (0 < length l)%nat -> bv_S l = 0 <-> bv_Z l = 0.
Proof.
  intros Hp. rewrite bv_S_alt by done. pose proof (bv_Z_range l) as HR.
  assert (Hh : 2 ^ Z.of_nat (length l) = 2 * 2 ^ Z.of_nat (length l - 1)) by (rewrite <- Z.pow_succ_r by lia; f_equal; lia).
  case_cmp; lia.
Qed.

(** The most negative number divided by -1: only the sign bit. *)
Lemma set_top_is n : (0 < n)%nat ->
  exists v, set_bit (vec4_fill n BIT4_0) (n - 1) BIT4_1 = Some v /\ vec_is v (of_Z n (2 ^ Z.of_nat (n - 1))).
Proof.
  intros Hn. destruct (vec4_fill_spec n BIT4_0) as (Wf & Sf & Bf).
  destruct (set_bit_spec (vec4_fill n BIT4_0) (n - 1) BIT4_1 Wf ltac:(lia)) as (v & E & Wv & Sv & Vv).
  exists v. split; [done|]. apply vec_is_from; [done|by rewrite length_of_Z, Sv|]. rewrite length_of_Z. intros i Hi.
  rewrite Vv, nth_of_Z, Z.pow2_bits_eqb by lia. destruct (Nat.eqb_spec i (n - 1)) as [->|Hne].
  - by rewrite Z.eqb_refl.
  - rewrite (proj2 (Z.eqb_neq _ _)) by lia. apply Bf. lia.
Qed.

Section SignedDivision.
Context (vl : vvp_vector4_t) (l r : list vvp_bit4_t) (ap bp : list Z).
Context (Hl : vec_is vl l) (Hlen : length l = length r) (Hp : (0 < length l)%nat).
#[local] Abbreviation n := (words_for (length l)).
#[local] Abbreviation sign_bits := (n * W - length l)%nat.
#[local] Abbreviation sign_mask := (if (sign_bits =? 0)%nat then 0 else wshl wones (W - sign_bits)).
Context (Ha : signed_words n l ap) (Hb : signed_words n r bp).

(** The native path. *)
Lemma div_s_native : (length l <= W)%nat -> bv_Z r <> 0 ->
  exists v, (if (word ap 0 =? 2 ^ 63) && (word bp 0 =? wones) then set_bit (vec4_fill (length l) BIT4_0) (length l - 1) BIT4_1
    else let res := wrap (Z.quot (as_signed W (word ap 0)) (as_signed W (word bp 0))) in
         setarray vl 0 (length l) (<[0%nat := Z.land res (wnot sign_mask)]> ap)) = Some v /\
  vec_is v (of_Z (length l) (bv_S l ÷ bv_S r)).
Proof.
  intros HW H0. assert (L1 : n = 1%nat) by (by apply words_for_short).
  destruct Ha as (Wa & La & Va), Hb as (Wb & Lb & Vb). rewrite L1, pow64_1 in *.
  pose proof (bv_S_63 l ltac:(lia)) as RA. pose proof (bv_S_63 r ltac:(lia)) as RB.
  assert (E1 : word ap 0 = bv_S l mod wordsize).
  { rewrite <- Va. rewrite (one_word_list ap) at 2 by done. cbn. lia. }
  assert (E2 : word bp 0 = bv_S r mod wordsize).
  { rewrite <- Vb. rewrite (one_word_list bp) at 2 by done. cbn. lia. }
  destruct ((word ap 0 =? 2 ^ 63) && (word bp 0 =? wones)) eqn:EC.
  - apply andb_true_iff in EC as [C1%Z.eqb_eq C2%Z.eqb_eq].
    assert (ES : bv_S l = - 2 ^ 63).
    { rewrite <- (as_signed_word (bv_S l)), <- E1, C1 by done. done. }
    assert (ER : bv_S r = -1).
    { rewrite <- (as_signed_word (bv_S r)), <- E2, C2 by done. done. }
    assert (E64 : length l = W).
    { pose proof (bv_num_range true l Hp) as HR. cbn in HR. destruct (Nat.eq_dec (length l) W) as [|Hne]; [done|].
      pose proof (Z.pow_le_mono_r 2 (Z.of_nat (length l - 1)) 62 ltac:(lia) ltac:(unfold W in *; lia)). lia. }
    destruct (set_top_is (length l) Hp) as (v & E & Hv). exists v. split; [done|]. rewrite ES, ER.
    rewrite E64 in *. done.
  - rewrite E1, E2, !as_signed_word by done. cbv zeta.
    set (q := bv_S l ÷ bv_S r).
    assert (Wq : words [wrap q]) by (constructor; [auto with word|done]).
    destruct (masked_top [wrap q] (length l) Wq) as [M1 M2]; [by rewrite L1|done|].
    rewrite L1 in M1, M2. change (1 - 1)%nat with 0%nat in *.
    assert (EL : <[0%nat := Z.land (wrap q) (wnot (if (1 * W - length l =? 0)%nat then 0 else wshl wones (W - (1 * W - length l))))]> ap
      = <[0%nat := Z.land (word [wrap q] 0) (wnot (if (1 * W - length l =? 0)%nat then 0 else wshl wones (W - (1 * W - length l))))]> [wrap q]).
    { rewrite (one_word_list ap) by done. done. }
    rewrite EL. destruct (setarray_is vl l _ Hl M1 Hp) as (v & E & Hv). exists v. split; [done|].
    rewrite M2 in Hv. cbn [wval] in Hv. rewrite Z.mul_0_r, Z.add_0_r in Hv.
    rewrite (of_Z_eqm _ (wrap q) q) in Hv; [done|]. apply mod_words_mod. rewrite L1, pow64_1. by apply Z.mod_mod.
Qed.

(** The path over words: magnitudes, and the sign put back. *)
Lemma div_s_words : (W < length l <= 128)%nat ->
  exists v,
   (let '(ap, na) := if negative (word ap (n - 1)) then (negate_words ap n, true) else (ap, false) in
    let '(bp, nb) := if negative (word bp (n - 1)) then (negate_words bp n, true) else (bp, false) in
    r ← divide_bits ap bp (length l);
    match r with
    | None => Some (vec4_fill (length l) BIT4_X)
    | Some (result, _) =>
        let result := if xorb na nb then negate_words result n else result in
        setarray vl 0 (length l) (<[(n - 1)%nat := Z.land (word result (n - 1)) (wnot sign_mask)]> result)
    end) = Some v /\
   vec_is v (if bv_Z r =? 0 then replicate (length l) BIT4_X else of_Z (length l) (bv_S l ÷ bv_S r)).
Proof.
  intros HW. assert (Hn : (0 < n)%nat) by (by apply words_for_pos).
  pose proof (pow_words_for (length l) Hp) as H2.
  destruct (signed_magnitude n l ap Hn Ha Hp H2) as (NA & WA & LA & VA).
  destruct (signed_magnitude n r bp Hn Hb ltac:(lia)) as (NB & WB & LB & VB); [by rewrite <- Hlen|].
  assert (EA : (if negative (word ap (n - 1)) then (negate_words ap n, true) else (ap, false))
    = ((if negative (word ap (n - 1)) then negate_words ap n else ap), bv_S l <? 0)).
  { rewrite <- NA. by destruct (negative _). }
  assert (EB : (if negative (word bp (n - 1)) then (negate_words bp n, true) else (bp, false))
    = ((if negative (word bp (n - 1)) then negate_words bp n else bp), bv_S r <? 0)).
  { rewrite <- NB. by destruct (negative (word bp (n - 1))). }
  rewrite EA, EB. clear EA EB NA NB.
  set (a := if negative (word ap (n - 1)) then _ else ap) in *. set (b := if negative (word bp (n - 1)) then _ else bp) in *.
  destruct (divide_bits_spec a b (length l)) as [D0 D1]; [done..|]. rewrite VB in D0, D1.
  destruct (Z.eqb_spec (bv_Z r) 0) as [E0|E0].
  { apply bv_S_0 in E0; [|lia]. rewrite D0 by lia. eexists. split; [done|]. apply vec_is_fill. }
  assert (E0' : bv_S r <> 0) by (rewrite bv_S_0; [done|lia]).
  assert (Hh : 2 ^ Z.of_nat (length l) = 2 * 2 ^ Z.of_nat (length l - 1)) by (rewrite <- Z.pow_succ_r by lia; f_equal; lia).
  pose proof (bv_num_range true l Hp) as HR. cbn in HR.
  destruct D1 as (q & rm & -> & Wq & Lq & Vq & _); [lia| |].
  { apply narrow_fits; [done|done|done|lia| |lia]. left. rewrite VA. lia. }
  cbn [mbind option_bind]. cbv zeta.
  set (res := if xorb (bv_S l <? 0) (bv_S r <? 0) then negate_words q n else q).
  destruct (negate_words_spec q n Wq Lq) as (WN & LN & VN).
  assert (Hres : words res /\ length res = n /\ wval res mod pow64 n = (bv_S l ÷ bv_S r) mod pow64 n).
  { rewrite Z.quot_div by done. rewrite VA in Vq. unfold res. rewrite <- Vq. 
    destruct (Z.ltb_spec (bv_S l) 0), (Z.ltb_spec (bv_S r) 0); cbn [xorb]; split_and!; try done;
      rewrite ?VN, ?Z.mod_mod by (pose proof (pow64_pos n); lia); f_equal.
    - rewrite !Z.sgn_neg by lia. lia.
    - rewrite Z.sgn_neg, Z.sgn_pos by lia. lia.
    - destruct (Z.eq_dec (bv_S l) 0) as [EZ|]; [rewrite Vq, EZ; done|]. rewrite Z.sgn_pos, Z.sgn_neg by lia. lia.
    - destruct (Z.eq_dec (bv_S l) 0) as [EZ|]; [rewrite Vq, EZ; done|]. rewrite !Z.sgn_pos by lia. lia. }
  destruct Hres as (W3 & L3 & V3). destruct (masked_top res (length l) W3 L3 Hp) as [M1 M2].
  destruct (setarray_is vl l _ Hl M1 Hp) as (v & E & Hv). exists v. split; [done|]. rewrite M2 in Hv.
  rewrite (of_Z_eqm _ (wval res) (bv_S l ÷ bv_S r)) in Hv; [done|]. by apply mod_words_mod.
Qed.
End SignedDivision.

Lemma div_s_implements vl vr l r :
  vec_is vl l -> vec_is vr r -> length l = length r -> (0 < length l <= max_div true)%nat ->
  exists v, div_s_vec4 vl vr = Some v /\ vec_is v (bv_div true l r).
Proof.
  intros Hl Hr Hlen [Hp Hmax]. cbn in Hmax. unfold div_s_vec4, bv_div, bv_divide.
  pose proof (vec_is_size _ _ Hl) as Sl. pose proof (vec_is_size _ _ Hr) as Sr.
  rewrite Sl, Sr, Hlen, Nat.eqb_refl. rewrite <- Hlen.
  pose proof (subarray_is vl l Hl Hp) as HA. pose proof (subarray_is vr r Hr ltac:(lia)) as HB.
  rewrite Sl in HA. rewrite Sr, <- Hlen in HB.
  destruct (subarray vl 0 (length l) false) as [ap|]; [|rewrite HA; eexists; split; [done|apply vec_is_fill]].
  destruct (subarray vr 0 (length l) false) as [bp|];
    [|rewrite HB, orb_true_r; eexists; split; [done|apply vec_is_fill]].
  destruct HA as (Ul & Wa & La & Va), HB as (Ur & Wb & Lb & Vb). rewrite Ul, Ur. cbn [orb bv_num].
  pose proof (extend_operand l ap Wa La Va Hp) as XA. pose proof (extend_operand r bp Wb ltac:(by rewrite <- Hlen) Vb ltac:(lia)) as XB.
  rewrite <- Hlen in XB. cbv zeta in XA, XB |- *.
  set (n := words_for (length l)) in *. set (sb := (n * W - length l)%nat) in *.
  assert (EP : (if (sb =? 0)%nat then (ap, bp) else
      (sign_extend n (if (sb =? 0)%nat then 0 else wshl wones (W - sb)) ap, sign_extend n (if (sb =? 0)%nat then 0 else wshl wones (W - sb)) bp))
    = ((if (sb =? 0)%nat then ap else sign_extend n (wshl wones (W - sb)) ap),
       (if (sb =? 0)%nat then bp else sign_extend n (wshl wones (W - sb)) bp))) by (by destruct (sb =? 0)%nat).
  rewrite EP. clear EP. set (a := if (sb =? 0)%nat then ap else _) in *. set (b := if (sb =? 0)%nat then bp else _) in *.
  destruct (Nat.leb_spec (length l) W) as [HW|HW].
  - assert (E0 : (word b 0 =? 0) = (bv_Z r =? 0)).
    { destruct XB as (Wb' & Lb' & Vb'). unfold n in Lb', Vb'. rewrite words_for_short in Lb', Vb' by lia. rewrite pow64_1 in Vb'.
      rewrite (one_word_list b) in Vb' by done. cbn [wval] in Vb'. rewrite Z.mul_0_r, Z.add_0_r in Vb'. rewrite Vb'.
      pose proof (bv_S_63 r ltac:(lia)) as RB. pose proof (bv_S_0 r ltac:(lia)) as H0.
      destruct (Z.eqb_spec (bv_Z r) 0) as [E|E].
      - apply H0 in E. by rewrite E.
      - apply Z.eqb_neq. intros EM. apply E, H0. rewrite <- (as_signed_word (bv_S r)), EM by done. done. }
    rewrite E0. destruct (Z.eqb_spec (bv_Z r) 0) as [EZ|EZ]; [eexists; split; [done|apply vec_is_fill]|].
    by apply (div_s_native vl l r a b).
  - apply (div_s_words vl l r a b); done.
Qed.
