(* ===== verification/VThreadMod.v ===== *)
(** [%mod] and [%mod/s] of the thread interpreter: the native path, and the subtraction of a
    shifted divisor, bit by bit, of wide operands; then [%pow] and [%pow/s]. *)
From S2P Require Import Prelude MachineWord VvpBit VvpVector4 VvpSlice WordArith VvpArith VvpVector2 VvpCompare.
From S2P Require Import BitList VvpFunctor WordDiv VThread VThreadSpec VThreadParts VThreadIndex VThreadDiv.

(** * Binary digits in an array *)

(** The number of the first [n] digits. *)
Fixpoint dsum (f : nat -> Z) (n : nat) : Z :=
  match n with O => 0 | S k => dsum f k + 2 ^ Z.of_nat k * f k end.

Definition digit (x : Z) : Prop := x = 0 \/ x = 1.

Lemma dsum_ext f g n : (forall i, (i < n)%nat -> f i = g i) -> dsum f n = dsum g n.
Proof. intros H. induction n as [|n IH]; [done|]. cbn [dsum]. rewrite IH, H by auto. done. Qed.

Lemma dsum_bound f n : (forall i, (i < n)%nat -> digit (f i)) -> 0 <= dsum f n < 2 ^ Z.of_nat n.
Proof.
  intros H. induction n as [|n IH]; [done|]. cbn [dsum].
  rewrite Nat2Z.inj_succ, Z.pow_succ_r by lia. specialize (IH ltac:(auto)). destruct (H n ltac:(lia)) as [-> | ->]; lia.
Qed.

Lemma dsum_split f n m : dsum f (n + m) = dsum f n + 2 ^ Z.of_nat n * dsum (fun i => f (n + i)%nat) m.
Proof.
  induction m as [|m IH]; [rewrite Nat.add_0_r; cbn [dsum]; lia|]. rewrite Nat.add_succ_r. cbn [dsum].
  rewrite IH, Nat2Z.inj_add, Z.pow_add_r by lia. lia.
Qed.

Lemma dsum_zero f n m : (n <= m)%nat -> (forall i, (n <= i < m)%nat -> f i = 0) -> dsum f m = dsum f n.
Proof.
  intros Hm H. induction m as [|m IH]; [replace n with 0%nat by lia; done|].
  destruct (Nat.eq_dec n (S m)) as [->|]; [done|]. cbn [dsum]. rewrite IH, H by (intros; try apply H; lia). lia.
Qed.

Lemma dsum_not f n : dsum (fun i => 1 - f i) n = 2 ^ Z.of_nat n - 1 - dsum f n.
Proof.
  induction n as [|n IH]; [done|]. cbn [dsum]. rewrite IH, Nat2Z.inj_succ, Z.pow_succ_r by lia. lia.
Qed.

Lemma dsum_testbit f n i : (forall i, (i < n)%nat -> digit (f i)) -> (i < n)%nat ->
  Z.testbit (dsum f n) (Z.of_nat i) = (f i =? 1).
Proof.
  intros H Hi. replace n with (i + S (n - i - 1))%nat by lia. rewrite dsum_split.
  change (S (n - i - 1)) with (1 + (n - i - 1))%nat. rewrite dsum_split. cbn [dsum]. rewrite Nat.add_0_r.
  pose proof (dsum_bound f i ltac:(intros; apply H; lia)) as HB.
  rewrite Z.testbit_odd, Z.shiftr_div_pow2 by lia. rewrite (Z.mul_comm (2 ^ Z.of_nat i)), Z.div_add by lia.
  rewrite Z.div_small by lia. change (2 ^ Z.of_nat 0) with 1. change (2 ^ Z.of_nat 1) with 2.
  rewrite Z.add_0_l, Z.add_0_l, Z.mul_1_l, Z.odd_add_mul_2. by destruct (H i Hi) as [-> | ->].
Qed.

(** The digits of a bit list. *)
Lemma bv_Z_dsum l : bv_Z l = dsum (fun i => bit1 (nth i l BIT4_X)) (length l).
Proof. rewrite bv_Z_bit_sum. generalize (length l). intros n. induction n as [|n IH]; [done|]. cbn [bit_sum dsum]. by rewrite IH. Qed.

Lemma bit1_digit b : digit (bit1 b).
Proof. unfold bit1, digit. destruct (bit4_eqb _ _); auto. Qed.

(** * The native path *)

Lemma bit4_num_unknown a b : (Z.land (Z.lor (bit4_num a) (bit4_num b)) 2 =? 0) = negb (bit4_is_xz a || bit4_is_xz b).
Proof. by destruct a, b. Qed.

Lemma bit4_num_known a : bit4_is_xz a = false -> bit4_num a = bit1 a.
Proof. by destruct a. Qed.

Lemma lor_digit x i d : (i < W)%nat -> 0 <= x < 2 ^ Z.of_nat i -> digit d -> Z.lor x (wshl d i) = x + 2 ^ Z.of_nat i * d.
Proof.
  intros Hi Hx [-> | ->].
  - assert (wshl 0 i = 0) as ->; [|by rewrite Z.lor_0_r; lia]. unfold wshl. by rewrite Z.shiftl_0_l.
  - assert (wshl 1 i = 2 ^ Z.of_nat i) as ->.
    { unfold wshl. rewrite Nat.mod_small, Z.shiftl_mul_pow2, Z.mul_1_l by (done || lia). apply wrap_small.
      unfold is_word, wordsize. split; [apply Z.pow_nonneg; lia|]. apply Z.pow_lt_mono_r; unfold W in *; lia. }
    rewrite lor_add_pow2 by done. lia.
Qed.

Section Operands.
Context (vl vr : vvp_vector4_t) (l r : list vvp_bit4_t).
Context (Hl : vec_is vl l) (Hr : vec_is vr r) (Hlen : length l = length r) (Hp : (0 < length l)%nat).

#[local] Abbreviation dl := (fun i => bit1 (nth i l BIT4_X)).
#[local] Abbreviation dr := (fun i => bit1 (nth i r BIT4_X)).

Definition unknown_from (i : nat) : bool := existsb (fun k => bit4_is_xz (nth k l BIT4_X) || bit4_is_xz (nth k r BIT4_X)) (seq i (length l - i)).

Lemma native_operands_spec cnt idx :
  (idx + cnt = length l)%nat -> (length l <= W)%nat ->
  native_operands cnt idx vl vr (dsum dl idx) (dsum dr idx) =
    if existsb (fun k => bit4_is_xz (nth k l BIT4_X) || bit4_is_xz (nth k r BIT4_X)) (seq idx cnt) then None
    else Some (dsum dl (length l), dsum dr (length l)).
Proof.
  revert idx. induction cnt as [|c IH]; intros idx Hi HW; cbn [native_operands seq existsb].
  { replace idx with (length l) by lia. done. }
  rewrite (vec_is_value _ _ _ Hl), (vec_is_value _ _ _ Hr), bit4_num_unknown, negb_involutive.
  destruct (bit4_is_xz (nth idx l BIT4_X) || bit4_is_xz (nth idx r BIT4_X)) eqn:E; [done|]. cbn [orb].
  apply orb_false_iff in E as [E1 E2]. rewrite !bit4_num_known by done.
  rewrite !lor_digit by (apply bit1_digit || lia || (apply dsum_bound; intros; apply bit1_digit)).
  change (dsum dl idx + 2 ^ Z.of_nat idx * bit1 (nth idx l BIT4_X)) with (dsum dl (S idx)).
  change (dsum dr idx + 2 ^ Z.of_nat idx * bit1 (nth idx r BIT4_X)) with (dsum dr (S idx)).
  rewrite Nat.add_1_r. apply IH; lia.
Qed.

Lemma existsb_unknown n : n = length l ->
  existsb (fun k => bit4_is_xz (nth k l BIT4_X) || bit4_is_xz (nth k r BIT4_X)) (seq 0 n) = unknown l || unknown r.
Proof.
  intros ->. destruct (unknown l || unknown r) eqn:E.
  - apply not_false_iff_true. intros H. rewrite existsb_seq_false in H.
    apply orb_true_iff in E as [E|E]; apply not_false_iff_true in E; apply E, unknown_false;
      intros i Hi; specialize (H i ltac:(lia)); by apply orb_false_iff in H as [].
  - apply orb_false_iff in E as [E1 E2]. rewrite unknown_false in E1, E2. apply existsb_seq_false. intros i Hi.
    by rewrite E1, E2 by lia.
Qed.
End Operands.

(** Writing every bit of a vector. *)
Lemma set_bits_all v n f :
  wf4 v -> size v = n -> exists r, set_bits n 0 f v = Some r /\ bitwise n f r.
Proof.
  intros Hv <-. unfold set_bits.
  destruct (in_place_loop (fun i _ => f i) (fun idx t => t ← t; set_bit t (0 + idx) (f idx)) v (size v) Hv (le_n _)) as (r & E & Hr).
  - intros idx t Ht Hi. cbn [mbind option_bind Nat.add].
    destruct (set_bit_spec t idx (f idx) Ht Hi) as (t' & E & W' & S' & V'). exists t'. split_and!; try done.
  - exists r. split; [done|]. destruct Hr as (Wr & Sr & Vr). split_and!; [done|done|]. intros i Hi. rewrite Vr by done.
    by rewrite (proj2 (Nat.ltb_lt _ _)).
Qed.

Lemma store_native_is v l x :
  vec_is v l -> exists r, store_native (length l) x v = Some r /\ vec_is r (of_Z (length l) x).
Proof.
  intros Hv. unfold store_native.
  destruct (set_bits_all v (length l) (fun idx => if Z.testbit x (Z.of_nat idx) then BIT4_1 else BIT4_0)) as (r & E & Hr);
    [apply Hv|by apply vec_is_size|]. exists r. split; [done|]. by apply vec_is_bitwise in Hr.
Qed.

Lemma of_Z_wrap n x : (n <= W)%nat -> of_Z n (wrap x) = of_Z n x.
Proof.
  intros H. apply map_seq_ext. intros i Hi. unfold wrap, wordsize. by rewrite Z.mod_pow2_bits_low by (unfold W in *; lia).
Qed.

Lemma extend_native_is l :
  (0 < length l <= W)%nat ->
  as_signed W (if (length l <? W)%nat then extend_native (length l) (bv_Z l) else bv_Z l) = bv_S l.
Proof.
  intros Hl. pose proof (bv_Z_range l) as HR. rewrite <- (as_signed_word (bv_S l)) by (by apply bv_S_63). f_equal.
  rewrite bv_S_alt by lia. destruct (Nat.ltb_spec (length l) W) as [H|H].
  - unfold extend_native. destruct (index_mask (bv_Z l) (length l)) as (_ & E2 & E3); [lia|done|]. rewrite E2, E3.
    destruct (bv_Z l <? 2 ^ Z.of_nat (length l - 1)); [|done]. rewrite Z.sub_0_r. symmetry. apply Z.mod_small.
    pose proof (Z.pow_le_mono_r 2 (Z.of_nat (length l)) 64 ltac:(lia) ltac:(unfold W in *; lia)). unfold wordsize. lia.
  - replace (length l) with W in * by lia. change (2 ^ Z.of_nat W) with wordsize in *.
    case_cmp; [rewrite Z.sub_0_r; symmetry; by apply Z.mod_small|]. apply (Z.mod_unique _ _ (-1)); [by left|lia].
Qed.

Lemma mod_short_implements (signed : bool) vl vr l r :
  vec_is vl l -> vec_is vr r -> length l = length r -> (0 < length l <= W)%nat ->
  exists v, (if signed then mod_s_vec4 vl vr else mod_vec4 vl vr) = Some v /\ vec_is v (bv_mod signed l r).
Proof.
  intros Hl Hr Hlen Hp. pose proof (vec_is_size _ _ Hl) as Sl. pose proof (vec_is_size _ _ Hr) as Sr.
  pose proof (native_operands_spec vl vr l r Hl Hr Hlen ltac:(lia) (length l) 0 eq_refl ltac:(lia)) as HN. cbn [dsum] in HN.
  rewrite existsb_unknown in HN by (done || lia). rewrite <- bv_Z_dsum in HN. rewrite Hlen in HN at 2. rewrite <- bv_Z_dsum in HN.
  unfold bv_mod, bv_divide, mod_s_vec4, mod_vec4. rewrite Sl, Sr, <- Hlen, Nat.eqb_refl, (proj2 (Nat.leb_le _ _)) by lia.
  rewrite HN. destruct (unknown l || unknown r); cbn [orb].
  { destruct signed; (eexists; split; [done|apply vec_is_fill]). }
  destruct (Z.eqb_spec (bv_Z r) 0) as [E0|E0]; [destruct signed; (eexists; split; [done|apply vec_is_fill])|].
  pose proof (bv_Z_range r) as HRr. pose proof (bv_Z_range l) as HRl. destruct signed; cbn [bv_num].
  - pose proof (extend_native_is l Hp) as EL. pose proof (extend_native_is r ltac:(lia)) as ER. rewrite <- Hlen in ER.
    destruct ((bv_Z l =? 2 ^ 63) && (bv_Z r =? wones)) eqn:EC.
    + apply andb_true_iff in EC as [C1%Z.eqb_eq C2%Z.eqb_eq]. rewrite C1 in HRl.
      assert (E64 : length l = W).
      { destruct (Nat.eq_dec (length l) W) as [|Hne]; [done|].
        pose proof (Z.pow_le_mono_r 2 (Z.of_nat (length l)) 63 ltac:(lia) ltac:(unfold W in *; lia)). lia. }
      rewrite E64, Nat.ltb_irrefl in EL, ER. rewrite C1 in EL. rewrite C2 in ER. rewrite <- EL, <- ER.
      eexists. split; [done|]. apply vec_is_from.
      * apply (vec4_fill_spec (length l) BIT4_0).
      * rewrite length_of_Z. apply (vec4_fill_spec (length l) BIT4_0).
      * rewrite length_of_Z. intros i Hi. rewrite nth_of_Z by done. rewrite (vec_is_value _ _ _ (vec_is_fill (length l) BIT4_0)), nth_replicate by done.
        change (Z.rem _ _) with 0. by rewrite Z.testbit_0_l.
    + assert (EP : (if (length l <? W)%nat then (extend_native (length l) (bv_Z l), extend_native (length l) (bv_Z r)) else (bv_Z l, bv_Z r))
        = (if (length l <? W)%nat then extend_native (length l) (bv_Z l) else bv_Z l,
           if (length l <? W)%nat then extend_native (length l) (bv_Z r) else bv_Z r)) by (by destruct (length l <? W)%nat).
      rewrite EP, EL, ER. destruct (store_native_is vl l (wrap (Z.rem (bv_S l) (bv_S r))) Hl) as (v & E & Hv).
      exists v. split; [done|]. by rewrite of_Z_wrap in Hv by lia.
  - destruct (store_native_is vl l (bv_Z l mod bv_Z r) Hl) as (v & E & Hv). exists v. split; [done|].
    by rewrite Z.rem_mod_nonneg by lia.
Qed.

(** * Wide operands *)

(** The first [n] digits of [z] are those of [d], or of its negation in two's complement,
    with [c] the carry of the negation. *)
Record taken (neg : bool) (d : nat -> Z) (n : nat) (c : Z) (z : nat -> Z) : Prop := {
  tk_digits : forall i, (i < n)%nat -> digit (z i);
  tk_carry : digit c;
  tk_off : neg = false -> c = 0;
  tk_sum : dsum z n + 2 ^ Z.of_nat n * c = if neg then 2 ^ Z.of_nat n - dsum d n else dsum d n }.

Lemma taken_0 neg d z : taken neg d 0 (if neg then 1 else 0) z.
Proof. split; [lia|destruct neg; unfold digit; auto|by intros ->|by destruct neg]. Qed.

Lemma taken_ext neg d n c z z' : (forall i, (i < n)%nat -> z' i = z i) -> taken neg d n c z -> taken neg d n c z'.
Proof.
  intros H [H1 H2 H3 H4]. split; [|done|done|by rewrite (dsum_ext z' z)]. intros i Hi. rewrite H by done. auto.
Qed.

Lemma taken_S neg d n c z :
  digit (d n) -> taken neg d n c z -> let '(b, c') := take_bit neg (d n) c in
  digit b /\ (z n = b -> taken neg d (S n) c' z).
Proof.
  intros Hd [H1 H2 H3 H4]. unfold take_bit.
  assert (HC : forall b c', digit b -> digit c' -> (neg = false -> c' = 0) ->
    b + 2 * c' = (if neg then 1 - d n + c else d n) -> digit b /\ (z n = b -> taken neg d (S n) c' z)).
  { intros b c' Hb Hc' Hoff E. split; [done|]. intros Ez. split; [|done|done|].
    - intros i Hi. destruct (Nat.eq_dec i n) as [->|]; [by rewrite Ez|]. apply H1. lia.
    - cbn [dsum]. rewrite Ez, Nat2Z.inj_succ, Z.pow_succ_r by lia. destruct neg.
      + nia.
      + rewrite H3 in H4 by done. rewrite (Hoff eq_refl) in E |- *. nia. }
  destruct neg; [|apply HC; [done..|rewrite (H3 eq_refl); lia]].
  destruct Hd as [E | E], H2 as [-> | ->]; rewrite E in HC |- *; cbn; apply HC; unfold digit; auto; discriminate.
Qed.

(** The number taken, once the operand is not 0 when it is negated. *)
Lemma taken_all neg d n c z :
  taken neg d n c z -> (forall i, (i < n)%nat -> digit (d i)) -> (neg = true -> 0 < dsum d n) ->
  dsum z n = if neg then 2 ^ Z.of_nat n - dsum d n else dsum d n.
Proof.
  intros [H1 H2 H3 H4] Hd Hpos. pose proof (dsum_bound z n H1). destruct neg.
  - specialize (Hpos eq_refl). pose proof (dsum_bound d n Hd). destruct H2 as [-> | ->]; lia.
  - rewrite H3 in H4 by done. lia.
Qed.

(** In two's complement the negation wraps around at 0. *)
Lemma taken_mod neg d n c z :
  taken neg d n c z -> dsum z n = (if neg then - dsum d n else dsum d n) mod 2 ^ Z.of_nat n.
Proof.
  intros [H1 H2 H3 H4]. pose proof (dsum_bound z n H1). destruct neg.
  - apply (Z.mod_unique _ _ (c - 1)); [by left|lia].
  - rewrite H3 in H4 by done. rewrite Z.mod_small; lia.
Qed.

Section Wide.
Context (vl vr : vvp_vector4_t) (l r : list vvp_bit4_t).
Context (Hl : vec_is vl l) (Hr : vec_is vr r) (Hlen : length l = length r) (Hp : (0 < length l)%nat).
Context (ln rn : bool).

#[local] Abbreviation dl := (fun i => bit1 (nth i l BIT4_X)).
#[local] Abbreviation dr := (fun i => bit1 (nth i r BIT4_X)).

Lemma mod_operands_spec cnt idx lc rc z a :
  (idx + cnt = length l)%nat -> length z = (length l + 1)%nat -> length a = (length l + 1)%nat ->
  taken ln dl idx lc (word z) -> taken rn dr idx rc (fun i => 1 - word a i) ->
  if existsb (fun k => bit4_is_xz (nth k l BIT4_X) || bit4_is_xz (nth k r BIT4_X)) (seq idx cnt)
  then mod_operands cnt idx vl vr ln rn lc rc z a = None
  else exists z' a' lc' rc', mod_operands cnt idx vl vr ln rn lc rc z a = Some (z', a') /\
    length z' = (length l + 1)%nat /\ length a' = (length l + 1)%nat /\
    taken ln dl (length l) lc' (word z') /\ taken rn dr (length l) rc' (fun i => 1 - word a' i).
Proof.
  revert idx lc rc z a. induction cnt as [|c IH]; intros idx lc rc z a Hi Lz La Tz Ta; cbn [mod_operands seq existsb].
  { replace idx with (length l) in * by lia. exists z, a, lc, rc. by split_and!. }
  rewrite (vec_is_value _ _ _ Hl), (vec_is_value _ _ _ Hr), bit4_num_unknown, negb_involutive.
  destruct (bit4_is_xz (nth idx l BIT4_X) || bit4_is_xz (nth idx r BIT4_X)) eqn:E; [done|]. cbn [orb].
  apply orb_false_iff in E as [E1 E2]. rewrite !bit4_num_known by done.
  assert (Hext : forall b, taken ln dl idx lc (word (<[idx := b]> z))).
  { intros b. eapply taken_ext, Tz. intros i Hii. rewrite word_insert by lia. by rewrite (proj2 (Nat.eqb_neq _ _)) by lia. }
  assert (Hexta : forall b, taken rn dr idx rc (fun i => 1 - word (<[idx := b]> a) i)).
  { intros b. eapply taken_ext, Ta. intros i Hii. cbn beta. rewrite word_insert by lia. by rewrite (proj2 (Nat.eqb_neq _ _)) by lia. }
  destruct (take_bit ln (bit1 (nth idx l BIT4_X)) lc) as [lb lc'] eqn:EL.
  destruct (take_bit rn (bit1 (nth idx r BIT4_X)) rc) as [rb rc'] eqn:ER. rewrite Nat.add_1_r. apply IH; [lia|by rewrite length_insert..| |].
  - pose proof (taken_S ln dl idx lc _ (bit1_digit _) (Hext lb)) as H. cbn beta in H. rewrite EL in H. destruct H as [_ H]. apply H.
    rewrite word_insert by lia. by rewrite Nat.eqb_refl.
  - pose proof (taken_S rn dr idx rc _ (bit1_digit _) (Hexta (1 - rb))) as H. cbn beta in H. rewrite ER in H. destruct H as [_ H]. apply H.
    rewrite word_insert by lia. rewrite Nat.eqb_refl. lia.
Qed.
End Wide.

(** * The subtraction of the shifted divisor *)

Lemma find_top_spec p n :
  match find_top p n with
  | Some m => (m < n)%nat /\ p m = true /\ forall i, (m < i < n)%nat -> p i = false
  | None => forall i, (i < n)%nat -> p i = false
  end.
Proof.
  induction n as [|n IH]; cbn [find_top]; [lia|]. destruct (p n) eqn:E; [split_and!; [lia|done|lia]|].
  destruct (find_top p n) as [m|].
  - destruct IH as (H1 & H2 & H3). split_and!; [lia|done|]. intros i Hi. destruct (Nat.eq_dec i n) as [->|]; [done|]. apply H3. lia.
  - intros i Hi. destruct (Nat.eq_dec i n) as [->|]; [done|]. apply IH. lia.
Qed.

(** The number of the digits below and at the top one. *)
Lemma top_digit f n m :
  (forall i, (i < n)%nat -> digit (f i)) -> (m < n)%nat -> f m = 1 -> (forall i, (m < i < n)%nat -> f i = 0) ->
  2 ^ Z.of_nat m <= dsum f n < 2 ^ Z.of_nat (S m).
Proof.
  intros Hd Hm H1 H0. rewrite (dsum_zero f (S m) n) by (intros; try apply H0; lia).
  pose proof (dsum_bound f m ltac:(intros; apply Hd; lia)). cbn [dsum]. rewrite H1, Nat2Z.inj_succ, Z.pow_succ_r by lia. lia.
Qed.

Section Rounds.
Context (T copylen : nat) (a : list Z) (R : Z).
Context (Ha : forall i, (i < copylen)%nat -> digit (word a i)).
Context (HR : dsum (word a) copylen = 2 ^ Z.of_nat copylen - 1 - R) (HR0 : 0 < R) (HR1 : 2 * R <= 2 ^ Z.of_nat copylen).

#[local] Abbreviation num z := (dsum (word z) T).

Definition digits (z : list Z) : Prop := length z = T /\ forall i, (i < T)%nat -> digit (word z i).

Lemma mod_sum current z :
  digits z -> (current + copylen <= T)%nat ->
  let '(t, carry) := for_upto copylen (fun i '(t, carry) =>
    let temp := word z (i + current) + word a i + carry in
    (<[i := Z.land temp 1]> t, Z.shiftr temp 1)) (replicate copylen 0, 1) in
  length t = copylen /\ digit carry /\ (forall i, (i < copylen)%nat -> digit (word t i)) /\
  dsum (word t) copylen + 2 ^ Z.of_nat copylen * carry
    = dsum (fun i => word z (current + i)) copylen + dsum (word a) copylen + 1.
Proof.
  intros [Lz Dz] Hc. set (body := fun (i : nat) '(t, carry) => _ : list Z * Z).
  assert (H : forall k, (k <= copylen)%nat -> let '(t, carry) := for_upto k body (replicate copylen 0, 1) in
    length t = copylen /\ digit carry /\ (forall i, (i < k)%nat -> digit (word t i)) /\
    dsum (word t) k + 2 ^ Z.of_nat k * carry = dsum (fun i => word z (current + i)) k + dsum (word a) k + 1).
  { induction k as [|k IH]; intros Hk; cbn [for_upto].
    { split_and!; [by rewrite length_replicate|unfold digit; auto|lia|done]. }
    specialize (IH ltac:(lia)). destruct (for_upto k body _) as [t carry]. destruct IH as (L1 & C1 & D1 & V1).
    cbn [body]. cbv zeta. rewrite (Nat.add_comm k current).
    assert (HT : forall b c', digit b -> digit c' -> b + 2 * c' = word z (current + k) + word a k + carry ->
      length (<[k := b]> t) = copylen /\ digit c' /\ (forall i, (i < S k)%nat -> digit (word (<[k := b]> t) i)) /\
      dsum (word (<[k := b]> t)) (S k) + 2 ^ Z.of_nat (S k) * c' = dsum (fun i => word z (current + i)) (S k) + dsum (word a) (S k) + 1).
    { intros b c' Hb Hc' E. split_and!; [by rewrite length_insert|done| |].
      - intros i Hi. rewrite word_insert by lia. case_cmp; [done|]. apply D1. lia.
      - cbn [dsum]. rewrite (dsum_ext (word (<[k := b]> t)) (word t)).
        2:{ intros i Hi. rewrite word_insert by lia. by rewrite (proj2 (Nat.eqb_neq _ _)) by lia. }
        rewrite word_insert, Nat.eqb_refl, Nat2Z.inj_succ, Z.pow_succ_r by lia. nia. }
    destruct (Dz (current + k)%nat ltac:(lia)) as [E1 | E1], (Ha k ltac:(lia)) as [E2 | E2], C1 as [-> | ->];
      rewrite E1, E2 in HT |- *; cbn -[dsum]; apply HT; unfold digit; auto. }
  exact (H copylen (le_n _)).
Qed.

Lemma copy_window current t z :
  digits z -> (current + copylen <= T)%nat -> (forall i, (i < copylen)%nat -> digit (word t i)) ->
  let z' := for_upto copylen (fun i z => <[(i + current)%nat := word t i]> z) z in
  digits z' /\ forall i, word z' i = if (current <=? i)%nat && (i <? current + copylen)%nat then word t (i - current) else word z i.
Proof.
  intros [Lz Dz] Hc Dt z'.
  assert (H : forall k, (k <= copylen)%nat -> let z1 := for_upto k (fun i z => <[(i + current)%nat := word t i]> z) z in
    length z1 = T /\ forall i, word z1 i = if (current <=? i)%nat && (i <? current + k)%nat then word t (i - current) else word z i).
  { induction k as [|k IH]; intros Hk; cbn [for_upto].
    - split; [done|]. intros i. repeat case_cmp; simpl; (done || lia).
    - destruct (IH ltac:(lia)) as [L1 V1]. split; [by rewrite length_insert|]. intros i.
      rewrite word_insert by lia. rewrite V1. destruct (Nat.eqb_spec i (k + current)) as [->|].
      + rewrite (proj2 (Nat.leb_le _ _)), (proj2 (Nat.ltb_lt _ _)) by lia. cbn [andb]. f_equal. lia.
      + repeat case_cmp; simpl; (done || lia). }
  destruct (H copylen (le_n _)) as [L1 V1]. fold z' in L1, V1. split; [|done]. split; [done|]. intros i Hi. rewrite V1.
  destruct (Nat.leb_spec current i), (Nat.ltb_spec i (current + copylen)); cbn [andb]; auto. apply Dt. lia.
Qed.

Lemma window_sum current z :
  (current + copylen <= T)%nat ->
  num z = dsum (word z) current + 2 ^ Z.of_nat current * (dsum (fun i => word z (current + i)) copylen
          + 2 ^ Z.of_nat copylen * dsum (fun i => word z (current + copylen + i)) (T - current - copylen)).
Proof.
  intros Hc. replace T with (current + (copylen + (T - current - copylen)))%nat at 1 by lia.
  rewrite !dsum_split. do 4 f_equal. apply dsum_ext. intros i _. by rewrite Nat.add_assoc.
Qed.

Lemma mod_round_spec current z :
  digits z -> (current + copylen <= T)%nat -> num z < 2 ^ Z.of_nat (S current) * R ->
  let z' := mod_round copylen current a z in
  digits z' /\ num z' < 2 ^ Z.of_nat current * R /\ num z' mod R = num z mod R.
Proof.
  intros Dz Hc Hb z'. subst z'. unfold mod_round. pose proof (mod_sum current z Dz Hc) as HS.
  destruct (for_upto copylen _ _) as [t carry]. destruct HS as (Lt & Ct & Dt & Vt).
  pose proof (window_sum current z Hc) as EZ. destruct (copy_window current t z Dz Hc Dt) as [Dz' Vz']. cbv zeta in Dz', Vz'.
  set (z' := for_upto copylen _ z) in *. pose proof (window_sum current z' Hc) as EZ'.
  destruct Dz as [Lz Dz]. rewrite Nat2Z.inj_succ, Z.pow_succ_r in Hb by lia.
  assert (P1 : 0 < 2 ^ Z.of_nat current) by (apply Z.pow_pos_nonneg; lia).
  pose proof (dsum_bound (word z) current ltac:(intros; apply Dz; lia)) as B1.
  pose proof (dsum_bound (fun i => word z (current + i)) copylen ltac:(intros; apply Dz; lia)) as B2.
  pose proof (dsum_bound (fun i => word z (current + copylen + i)) (T - current - copylen) ltac:(intros; apply Dz; lia)) as B3.
  pose proof (dsum_bound (word t) copylen Dt) as B4.
  set (low := dsum (word z) current) in *. set (win := dsum (fun i => word z (current + i)) copylen) in *.
  set (high := dsum (fun i => word z (current + copylen + i)) (T - current - copylen)) in *.
  assert (high = 0) as Eh.
  { destruct (Z.eq_dec high 0) as [|Hh]; [done|]. exfalso.
    assert (2 ^ Z.of_nat copylen * 1 <= 2 ^ Z.of_nat copylen * high) by (apply Z.mul_le_mono_nonneg_l; lia).
    assert (2 ^ Z.of_nat current * (2 * R) <= 2 ^ Z.of_nat current * (win + 2 ^ Z.of_nat copylen * high))
      by (apply Z.mul_le_mono_nonneg_l; lia). lia. }
  rewrite Eh, Z.mul_0_r, Z.add_0_r in EZ.
  rewrite (dsum_ext (word z') (word z) current) in EZ'.
  2:{ intros i Hi. rewrite Vz'. by rewrite (proj2 (Nat.leb_gt _ _)) by lia. }
  rewrite (dsum_ext (fun i => word z' (current + i)) (word t)) in EZ'.
  2:{ intros i Hi. rewrite Vz', (proj2 (Nat.leb_le _ _)), (proj2 (Nat.ltb_lt _ _)) by lia. cbn [andb]. f_equal. lia. }
  rewrite (dsum_ext (fun i => word z' (current + copylen + i)) (fun i => word z (current + copylen + i))) in EZ'.
  2:{ intros i Hi. rewrite Vz', (proj2 (Nat.ltb_ge _ _)), andb_false_r by lia. done. }
  fold low high in EZ'. rewrite Eh, Z.mul_0_r, Z.add_0_r in EZ'. rewrite HR in Vt.
  set (w' := dsum (word t) copylen) in *.
  assert (Hwin : win < 2 * R).
  { apply Z.nle_gt. intros Hn. assert (2 ^ Z.of_nat current * (2 * R) <= 2 ^ Z.of_nat current * win)
      by (apply Z.mul_le_mono_nonneg_l; lia). lia. }
  destruct Ct as [-> | ->]; cbn [Z.eqb].
  - split; [by split|]. split; [|done]. rewrite EZ. 
    assert (win < R) by lia. assert (2 ^ Z.of_nat current * (win + 1) <= 2 ^ Z.of_nat current * R) by (apply Z.mul_le_mono_nonneg_l; lia). lia.
  - split; [done|]. assert (Ew : win = w' + R) by lia. assert (w' < R) by lia. split.
    { rewrite EZ'. assert (2 ^ Z.of_nat current * (w' + 1) <= 2 ^ Z.of_nat current * R) by (apply Z.mul_le_mono_nonneg_l; lia). lia. }
    rewrite EZ', EZ, Ew.
    replace (low + 2 ^ Z.of_nat current * (w' + R)) with (low + 2 ^ Z.of_nat current * w' + 2 ^ Z.of_nat current * R) by lia.
    by rewrite Z.mod_add by lia.
Qed.

Lemma mod_rounds_spec n z :
  digits z -> (n - 1 + copylen <= T)%nat -> num z < 2 ^ Z.of_nat n * R ->
  let z' := mod_rounds copylen n a z in digits z' /\ num z' = num z mod R.
Proof.
  revert z. induction n as [|n IH]; intros z Dz Hc Hb; cbn [mod_rounds].
  - split; [done|]. destruct Dz as [Lz Dz]. pose proof (dsum_bound (word z) T Dz). change (2 ^ Z.of_nat 0) with 1 in Hb.
    symmetry. apply Z.mod_small. lia.
  - rewrite Nat.sub_succ, Nat.sub_0_r in Hc. destruct (mod_round_spec n z Dz Hc Hb) as (D1 & B1 & M1).
    destruct (IH _ D1 ltac:(lia) B1) as [D2 M2]. split; [done|]. by rewrite M2, M1.
Qed.
End Rounds.

(** * The result *)

Lemma mod_tally_spec cnt idx z (zd : nat -> Z) neg carry tmp n :
  wf4 tmp -> size tmp = n -> (idx + cnt = n)%nat -> (forall i, (i < n)%nat -> zd i = word z i) -> (forall i, (i < n)%nat -> digit (zd i)) ->
  (exists f, taken neg zd idx carry f /\ forall i, (i < idx)%nat -> value tmp i = if f i =? 0 then BIT4_0 else BIT4_1) ->
  exists r f c, mod_tally cnt idx z neg carry tmp = Some r /\ wf4 r /\ size r = n /\
    taken neg zd n c f /\ forall i, (i < n)%nat -> value r i = if f i =? 0 then BIT4_0 else BIT4_1.
Proof.
  revert idx carry tmp. induction cnt as [|c IH]; intros idx carry tmp Wt St Hi Hz Hd (f & Tf & Vf); cbn [mod_tally].
  { replace idx with n in * by lia. exists tmp, f, carry. by split_and!. }
  rewrite <- Hz by lia. pose proof (taken_S neg zd idx carry (fun i => if (i =? idx)%nat then fst (take_bit neg (zd idx) carry) else f i) (Hd idx ltac:(lia))) as HS.
  destruct (take_bit neg (zd idx) carry) as [ob carry'] eqn:ET. cbn [fst] in HS.
  destruct HS as [Ho HS].
  { eapply taken_ext, Tf. intros i Hii. cbn beta. by rewrite (proj2 (Nat.eqb_neq _ _)) by lia. }
  specialize (HS ltac:(by rewrite Nat.eqb_refl)).
  destruct (set_bit_spec tmp idx (if ob =? 0 then BIT4_0 else BIT4_1) Wt ltac:(lia)) as (t' & -> & W' & S' & V').
  cbn [mbind option_bind]. rewrite Nat.add_1_r. apply IH; [done|congruence|lia|done|done|].
  eexists. split; [exact HS|]. intros i Hii. rewrite V'. cbn beta. destruct (Nat.eqb_spec i idx) as [->|]; [done|]. apply Vf. lia.
Qed.

Lemma mod_tally_is z n neg (v : vvp_vector4_t) :
  (forall i, (i < n)%nat -> digit (word z i)) -> wf4 v -> size v = n ->
  exists r, mod_tally n 0 z neg (if neg then 1 else 0) v = Some r /\
    vec_is r (of_Z n (if neg then - dsum (word z) n else dsum (word z) n)).
Proof.
  intros Hd Hv Hs.
  destruct (mod_tally_spec n 0 z (word z) neg (if neg then 1 else 0) v n) as (r & f & c & E & Wr & Sr & Tf & Vr); try done.
  { exists (word z). split; [apply taken_0|lia]. }
  exists r. split; [done|]. apply vec_is_from; [done|by rewrite length_of_Z|]. rewrite length_of_Z. intros i Hi.
  rewrite Vr by done. rewrite <- of_Z_mod, <- (taken_mod _ _ _ _ _ Tf), nth_of_Z by done.
  rewrite dsum_testbit by (done || apply Tf). destruct (tk_digits _ _ _ _ _ Tf i Hi) as [-> | ->]; done.
Qed.

Lemma sign_bit_num l : (0 < length l)%nat -> unknown l = false ->
  let neg := bit4_eqb (msb l) BIT4_1 in
  Z.abs (bv_S l) = (if neg then 2 ^ Z.of_nat (length l) - bv_Z l else bv_Z l) /\ (neg = true -> 0 < bv_Z l) /\ neg = (bv_S l <? 0).
Proof.
  intros Hp Hu neg. pose proof (bv_Z_range l) as HR. unfold neg, bv_S. 
  rewrite (proj2 (Nat.eqb_neq _ _)), andb_true_r by lia.
  assert (HS := bv_S_alt l Hp). unfold bv_S in HS. rewrite (proj2 (Nat.eqb_neq (length l) 0)), andb_true_r in HS by lia.
  assert (Hh : 2 ^ Z.of_nat (length l) = 2 * 2 ^ Z.of_nat (length l - 1)) by (rewrite <- Z.pow_succ_r by lia; f_equal; lia).
  destruct (bit4_eqb (msb l) BIT4_1).
  - destruct (Z.ltb_spec (bv_Z l) (2 ^ Z.of_nat (length l - 1))); [lia|].
    split_and!; [lia|lia|]. symmetry. apply Z.ltb_lt. lia.
  - split_and!; [lia|done|]. symmetry. apply Z.ltb_ge. lia.
Qed.

Lemma rem_sign a b : b <> 0 -> (if a <? 0 then - (Z.abs a mod Z.abs b) else Z.abs a mod Z.abs b) = Z.rem a b.
Proof.
  intros Hb. rewrite Z.rem_mod by done. destruct (Z.ltb_spec a 0); [rewrite Z.sgn_neg by lia; lia|].
  destruct (Z.eq_dec a 0) as [->|]; [done|]. rewrite Z.sgn_pos by lia. lia.
Qed.

(** The remainder of magnitudes. *)
Lemma verylong_remainder len z a (L R : Z) :
  length z = (len + 1)%nat -> length a = (len + 1)%nat ->
  (forall i, (i < len)%nat -> digit (word z i)) -> (forall i, (i < len)%nat -> digit (1 - word a i)) ->
  dsum (word z) len = L -> dsum (fun i => 1 - word a i) len = R ->
  let z := <[len := 0]> z in
  let a := <[len := 1]> a in
  match find_top (fun i => word a i =? 0) len with
  | None => R = 0
  | Some mxa =>
      R <> 0 /\
      let z' := match find_top (fun i => negb (word z i =? 0)) len with
             | Some mxz => if (mxz <? mxa)%nat then z else mod_rounds (mxa + 2) (mxz - mxa + 1) a z
             | None => z
             end in
      (forall i, (i < len)%nat -> digit (word z' i)) /\ dsum (word z') len = L mod R
  end.
Proof.
  intros Lz La Dz Da HL HR z1 a1.
  assert (Vz : forall i, (i < len)%nat -> word z1 i = word z i).
  { intros i Hi. unfold z1. rewrite word_insert by lia. by rewrite (proj2 (Nat.eqb_neq _ _)) by lia. }
  assert (Va : forall i, (i < len)%nat -> word a1 i = word a i).
  { intros i Hi. unfold a1. rewrite word_insert by lia. by rewrite (proj2 (Nat.eqb_neq _ _)) by lia. }
  assert (Dz1 : digits (len + 1) z1).
  { split; [unfold z1; by rewrite length_insert|]. intros i Hi. destruct (Nat.eq_dec i len) as [->|].
    - unfold z1. rewrite word_insert, Nat.eqb_refl by lia. by left.
    - rewrite Vz by lia. apply Dz. lia. }
  assert (Da1 : forall i, (i <= len)%nat -> digit (word a1 i)).
  { intros i Hi. destruct (Nat.eq_dec i len) as [->|]; [unfold a1; rewrite word_insert, Nat.eqb_refl by lia; by right|].
    rewrite Va by lia. destruct (Da i ltac:(lia)) as [E|E]; [right|left]; lia. }
  assert (N1 : dsum (word z1) (len + 1) = L).
  { rewrite (dsum_zero _ len (len + 1)), <- HL by (lia || (intros i Hi; unfold z1; rewrite word_insert by lia; rewrite (proj2 (Nat.eqb_eq _ _)) by lia; done)).
    by apply dsum_ext. }
  assert (HR' : dsum (fun i => 1 - word a1 i) len = R).
  { rewrite <- HR. apply dsum_ext. intros i Hi. by rewrite Va. }
  assert (Hdown : forall z', digits (len + 1) z' -> dsum (word z') (len + 1) < 2 ^ Z.of_nat len -> 
    dsum (word z') len = dsum (word z') (len + 1)).
  { intros z' [_ D] Hb. rewrite dsum_split in Hb |- *. cbn [dsum] in *. rewrite Nat.add_0_r in *. 
    pose proof (dsum_bound (word z') len ltac:(intros; apply D; lia)).
    destruct (D len ltac:(lia)) as [E|E]; rewrite E in *; change (2 ^ Z.of_nat 0) with 1 in *; lia. }
  pose proof (find_top_spec (fun i => word a1 i =? 0) len) as FA.
  destruct (find_top (fun i => word a1 i =? 0) len) as [mxa|].
  2:{ rewrite <- HR'. rewrite (dsum_zero _ 0 len); [done|lia|]. intros i Hi. specialize (FA i ltac:(lia)). apply Z.eqb_neq in FA.
      destruct (Da1 i ltac:(lia)) as [E|E]; lia. }
  destruct FA as (Hmxa & HA1%Z.eqb_eq & HA2).
  pose proof (top_digit (fun i => 1 - word a1 i) len mxa) as HT. rewrite HR' in HT.
  destruct HT as [R1 R2].
  { intros i Hi. destruct (Da1 i ltac:(lia)) as [E|E]; rewrite E; [right|left]; done. }
  { done. } { lia. }
  { intros i Hi. specialize (HA2 i Hi). apply Z.eqb_neq in HA2. destruct (Da1 i ltac:(lia)) as [E|E]; lia. }
  assert (P1 : 0 < 2 ^ Z.of_nat mxa) by (apply Z.pow_pos_nonneg; lia).
  rewrite Nat2Z.inj_succ, Z.pow_succ_r in R2 by lia.
  split; [lia|].
  assert (HL0 : L < 2 ^ Z.of_nat len /\ 0 <= L) by (rewrite <- HL; pose proof (dsum_bound (word z) len Dz); lia).
  assert (Hz1 : dsum (word z1) len = L) by (rewrite <- HL; by apply dsum_ext).
  pose proof (find_top_spec (fun i => negb (word z1 i =? 0)) len) as FZ.
  destruct (find_top (fun i => negb (word z1 i =? 0)) len) as [mxz|].
  2:{ split; [intros i Hi; apply Dz1; lia|]. rewrite Hz1. assert (L = 0) as ->; [|done].
      rewrite <- Hz1, (dsum_zero _ 0 len); [done|lia|]. intros i Hi. specialize (FZ i ltac:(lia)).
      by apply negb_false_iff, Z.eqb_eq in FZ. }
  destruct FZ as (Hmxz & HZ1%negb_true_iff%Z.eqb_neq & HZ2).
  pose proof (top_digit (word z1) len mxz) as HT. rewrite Hz1 in HT.
  destruct HT as [L1 L2].
  { intros i Hi. apply Dz1. lia. } { done. } { destruct Dz1 as [_ D]. destruct (D mxz ltac:(lia)); [lia|done]. }
  { intros i Hi. specialize (HZ2 i Hi). by apply negb_false_iff, Z.eqb_eq in HZ2. }
  destruct (Nat.ltb_spec mxz mxa) as [Hlt|Hge].
  - split; [intros i Hi; apply Dz1; lia|]. rewrite Hz1. symmetry. apply Z.mod_small.
    pose proof (Z.pow_le_mono_r 2 (Z.of_nat (S mxz)) (Z.of_nat mxa) ltac:(lia) ltac:(lia)). lia.
  - destruct (mod_rounds_spec (len + 1) (mxa + 2) a1 R) with (n := (mxz - mxa + 1)%nat) (z := z1) as [D2 M2]; try lia; try done.
    + intros i Hi. apply Da1. lia.
    + assert (HO : forall i, (mxa < i <= len)%nat -> 1 - word a1 i = 0).
      { intros i Hi. destruct (Nat.eq_dec i len) as [->|]; [unfold a1; rewrite word_insert, Nat.eqb_refl by lia; done|].
        specialize (HA2 i ltac:(lia)). apply Z.eqb_neq in HA2. destruct (Da1 i ltac:(lia)) as [E|E]; lia. }
      pose proof (dsum_not (word a1) (mxa + 2)) as HN.
      rewrite (dsum_zero _ (S mxa) (mxa + 2)) in HN by (lia || (intros i Hi; apply HO; lia)).
      rewrite (dsum_zero _ (S mxa) len) in HR' by (lia || (intros i Hi; apply HO; lia)). lia.
    + replace (Z.of_nat (mxa + 2)) with (2 + Z.of_nat mxa) by lia. rewrite Z.pow_add_r by lia. lia.
    + rewrite N1. replace (Z.of_nat (S mxz)) with (Z.of_nat (mxz - mxa + 1) + Z.of_nat mxa) in L2 by lia.
      rewrite Z.pow_add_r in L2 by lia. eapply Z.lt_le_trans; [exact L2|]. apply Z.mul_le_mono_nonneg_l; [apply Z.pow_nonneg|]; lia.
    + rewrite N1 in M2. split; [intros i Hi; apply D2; lia|].
      rewrite <- M2. apply Hdown; [done|]. rewrite M2. pose proof (Z.mod_le L R ltac:(lia) ltac:(lia)). lia.
Qed.

(** The operands of [%mod/s] carry the sign bits of the vectors, those of [%mod] none. *)
Lemma verylong_implements (signed : bool) vl vr l r :
  vec_is vl l -> vec_is vr r -> length l = length r -> (0 < length l)%nat ->
  exists v, do_verylong_mod vl vr (signed && bit4_eqb (msb l) BIT4_1) (signed && bit4_eqb (msb r) BIT4_1) = Some v /\
    vec_is v (bv_mod signed l r).
Proof.
  intros Hl Hr Hlen Hp. unfold do_verylong_mod, bv_mod, bv_divide. rewrite (vec_is_size _ _ Hl).
  set (ln := signed && bit4_eqb (msb l) BIT4_1). set (rn := signed && bit4_eqb (msb r) BIT4_1).
  pose proof (mod_operands_spec vl vr l r Hl Hr Hlen Hp ln rn (length l) 0 (if ln then 1 else 0) (if rn then 1 else 0)
    (replicate (length l + 1) 0) (replicate (length l + 1) 0) eq_refl ltac:(by rewrite length_replicate)
    ltac:(by rewrite length_replicate) (taken_0 _ _ _) (taken_0 _ _ _)) as HO.
  rewrite (existsb_unknown l r) in HO by done.
  destruct (unknown l || unknown r) eqn:Hu; cbn [orb].
  { rewrite HO. eexists. split; [done|apply vec_is_fill]. }
  destruct HO as (z & a & lc & rc & -> & Lz & La & Tz & Ta). apply orb_false_iff in Hu as [Ul Ur].
  destruct (sign_bit_num l Hp Ul) as (SL1 & SL2 & SL3). destruct (sign_bit_num r ltac:(lia) Ur) as (SR1 & SR2 & SR3).
  assert (HD : forall m i, digit (bit1 (nth i m BIT4_X))) by (intros; apply bit1_digit).
  assert (EL : dsum (word z) (length l) = Z.abs (bv_num signed l)).
  { rewrite (taken_all _ _ _ _ _ Tz) by (auto || (intros E; apply andb_true_iff in E as [_ E]; rewrite <- bv_Z_dsum; auto)).
    rewrite <- bv_Z_dsum. unfold ln. destruct signed; cbn [andb bv_num]; [by rewrite SL1|]. pose proof (bv_Z_range l). lia. }
  assert (ER : dsum (fun i => 1 - word a i) (length l) = Z.abs (bv_num signed r)).
  { rewrite (taken_all _ _ _ _ _ Ta), Hlen by (auto || (intros E; apply andb_true_iff in E as [_ E]; rewrite Hlen, <- bv_Z_dsum; auto)).
    rewrite <- bv_Z_dsum. unfold rn. destruct signed; cbn [andb bv_num]; [by rewrite SR1|]. pose proof (bv_Z_range r). lia. }
  pose proof (verylong_remainder (length l) z a _ _ Lz La (tk_digits _ _ _ _ _ Tz) (tk_digits _ _ _ _ _ Ta) EL ER) as HV.
  cbv zeta in HV |- *. set (z1 := <[length l := 0]> z) in *. set (a1 := <[length l := 1]> a) in *.
  assert (EZ : bv_num signed r = 0 <-> bv_Z r = 0) by (destruct signed; [apply bv_S_0; lia|done]).
  destruct (find_top (fun i => word a1 i =? 0) (length l)) as [mxa|].
  2:{ rewrite (proj2 (Z.eqb_eq _ _)) by (apply EZ; lia). eexists. split; [done|apply vec_is_fill]. }
  destruct HV as (HR0 & HD' & HS). assert (H0 : bv_num signed r <> 0) by lia.
  rewrite (proj2 (Z.eqb_neq (bv_Z r) 0)) by (intros E; apply H0, EZ, E).
  set (z2 := match find_top _ _ with Some _ => _ | None => _ end) in *.
  destruct (mod_tally_is z2 (length l) ln (vec4_fill (length l) BIT4_X) HD') as (v & E & Hv).
  { apply (vec4_fill_spec (length l) BIT4_X). } { apply (vec4_fill_spec (length l) BIT4_X). }
  exists v. split; [done|]. rewrite HS in Hv. rewrite <- rem_sign by done.
  replace (bv_num signed l <? 0) with ln; [done|]. unfold ln. destruct signed; cbn [andb bv_num]; [done|].
  symmetry. apply Z.ltb_ge. apply bv_Z_range.
Qed.

(** [%mod] and [%mod/s], at every width. *)
Lemma mod_implements (signed : bool) : implements2 (if signed then mod_s_vec4 else mod_vec4) (bv_mod signed).
Proof.
  intros vl vr l r Hl Hr Hlen Hp. destruct (Nat.le_gt_cases (length l) W) as [HW|HW].
  - destruct (mod_short_implements signed vl vr l r Hl Hr Hlen ltac:(lia)) as (v & E & Hv). exists v. split; [|done]. by destruct signed.
  - destruct (verylong_implements signed vl vr l r Hl Hr Hlen Hp) as (v & E & Hv). exists v. split; [|done]. rewrite <- E.
    pose proof (vec_is_size _ _ Hl) as Sl. pose proof (vec_is_size _ _ Hr) as Sr.
    destruct signed; unfold mod_s_vec4, mod_vec4; rewrite Sl, Sr, <- Hlen, Nat.eqb_refl, (proj2 (Nat.leb_gt _ _)) by lia; [|done].
    unfold msb. cbn [andb]. rewrite (vec_is_value _ _ _ Hl), (vec_is_value _ _ _ Hr), Hlen. done.
Qed.

(** The power of Verilog in the width of the base.  A negative exponent gives X for base 0,
    1 for base 1, 1 or -1 for base -1 and 0 for the others. *)
Definition bv_pow (base_signed exp_signed : bool) (l r : list vvp_bit4_t) : list vvp_bit4_t :=
  let x := bv_num base_signed l in
  let y := bv_num exp_signed r in
  if unknown l || unknown r then replicate (length l) BIT4_X
  else if 0 <=? y then of_Z (length l) (x ^ y)
  else if x =? 0 then replicate (length l) BIT4_X
  else of_Z (length l) (if x =? 1 then 1 else if x =? -1 then (if Z.odd y then -1 else 1) else 0).

Lemma vec2_of_list v l :
  vec_is v l -> (0 < length l)%nat ->
  is_NaN (vec2_of_vec4 v true) = unknown l /\
  (unknown l = false -> holds2 (length l) (bv_Z l) (vec2_of_vec4 v true)).
Proof.
  intros Hv Hp. pose proof (vec_is_size _ _ Hv) as Hs.
  destruct (vec2_of_vec4_spec v true (vec_is_wf _ _ Hv) ltac:(lia)) as [H1 H2].
  destruct (unknown l) eqn:Hu.
  - split; [|done]. rewrite H2; [done| |done]. by apply (unknown_not_known v l).
  - assert (Hk : known v) by (by apply (unknown_known v l)). specialize (H1 Hk). rewrite Hs, <- (bv_Z_vec v l Hv Hk) in H1.
    split; [|done]. unfold is_NaN. rewrite (h2_wid _ _ _ H1). apply Nat.eqb_neq. lia.
Qed.

(** The conversion of the base to 32 bits. *)
Lemma vector2_to_value_is n x v :
  holds2 n x v -> (0 < n <= 32)%nat ->
  vector2_to_value v true = (true, (x - (if x <? 2 ^ Z.of_nat (n - 1) then 0 else 2 ^ Z.of_nat n)) mod 2 ^ 32).
Proof.
  intros Hv Hn. pose proof (holds2_range _ _ _ Hv) as HR. unfold vector2_to_value. rewrite (h2_wid _ _ _ Hv).
  assert (En : (if (n <? 32)%nat then n else 32%nat) = n) by (case_cmp; lia). rewrite En.
  rewrite (to_value2_loop_spec v x n n Hv) by lia. rewrite (proj2 (Nat.leb_le _ _)) by lia. f_equal.
  rewrite Z.mod_small by done. rewrite (holds2_value _ _ _ _ Hv). cbn [andb].
  assert (EB : Z.testbit x (Z.of_nat (n - 1)) = (2 ^ Z.of_nat (n - 1) <=? x)) by (apply (top_bit_small x n); [lia|done]).
  rewrite EB. destruct (Nat.ltb_spec n 32) as [H32|H32]; cbn [andb].
  - destruct (Z.leb_spec (2 ^ Z.of_nat (n - 1)) x) as [H1|H1]; cbn [Z.eqb negb].
    + rewrite (proj2 (Z.ltb_ge _ _)) by done. pose proof (sign_fill 32 n x ltac:(unfold W; lia) HR) as H.
      change (2 ^ Z.of_nat 32) with (2 ^ 32) in H. rewrite <- H. f_equal.
      unfold wshl. rewrite Nat.mod_small by (unfold W; lia). rewrite Z.shiftl_mul_pow2 by lia. unfold wrap, wordsize, wones.
      rewrite Z.mod_mod_divide by (exists (2 ^ 32); done).
      change wordsize with (2 ^ 64). replace ((2 ^ 64 - 1) * 2 ^ Z.of_nat n) with ((2 ^ 32 - 1) * 2 ^ Z.of_nat n + ((2 ^ 32 - 1) * 2 ^ Z.of_nat n) * 2 ^ 32) by lia.
      by rewrite Z.mod_add.
    + rewrite (proj2 (Z.ltb_lt _ _)) by done. rewrite Z.sub_0_r. symmetry. apply Z.mod_small.
      pose proof (Z.pow_le_mono_r 2 (Z.of_nat n) 32 ltac:(lia) ltac:(lia)). lia.
  - replace n with 32%nat in * by lia. change (2 ^ Z.of_nat 32) with (2 ^ 32) in *.
    case_cmp; [rewrite Z.sub_0_r; symmetry; by apply Z.mod_small|]. apply (Z.mod_unique _ _ (-1)); [by left|lia].
Qed.

(** A vector of equal bits but the lowest. *)
Lemma fill_lowest_is n pad lsb x :
  (0 < n)%nat -> (forall i, (i < n)%nat -> nth i x BIT4_X = if (i =? 0)%nat then lsb else pad) -> length x = n ->
  exists v, set_bit (vec4_fill n pad) 0 lsb = Some v /\ vec_is v x.
Proof.
  intros Hn Hx Hlx. destruct (vec4_fill_spec n pad) as (Wf & Sf & Bf).
  destruct (set_bit_spec (vec4_fill n pad) 0 lsb Wf ltac:(lia)) as (v & E & Wv & Sv & Vv).
  exists v. split; [done|]. apply vec_is_from; [done|by rewrite Sv, Sf, Hlx|]. intros i Hi.
  rewrite Vv, Hx by lia. case_cmp; [done|]. apply Bf. lia.
Qed.

Lemma nth_of_Z_small n x i : (i < n)%nat -> x = 0 \/ x = 1 ->
  nth i (of_Z n x) BIT4_X = if (i =? 0)%nat then (if x =? 0 then BIT4_0 else BIT4_1) else BIT4_0.
Proof.
  intros Hi Hx. rewrite nth_of_Z by done. destruct Hx as [-> | ->].
  - rewrite Z.testbit_0_l. by case_cmp.
  - destruct i as [|i]; [done|]. cbn [Nat.eqb]. rewrite Z.testbit_odd, Z.shiftr_div_pow2 by lia.
    rewrite Z.div_small; [done|]. split; [lia|]. apply (Z.pow_gt_1 2); lia.
Qed.

Lemma nth_of_Z_m1 n i : (i < n)%nat -> nth i (of_Z n (-1)) BIT4_X = BIT4_1.
Proof. intros Hi. rewrite nth_of_Z by done. by rewrite Z.bits_m1 by lia. Qed.

(** The loop that writes the low bits of the power. *)
Lemma store_power vl l result x :
  vec_is vl l -> (0 < length l)%nat -> wf2 result -> VvpVector2.wid result = length l ->
  uZ result = x mod pow64 (words_for (length l)) ->
  exists v, set_bits (length l) 0 (fun jdx =>
      if (VvpVector2.wid result <=? jdx)%nat then BIT4_0
      else if vec2_value result jdx =? 0 then BIT4_0 else BIT4_1) vl = Some v /\ vec_is v (of_Z (length l) x).
Proof.
  intros Hl Hp Wr Sr Vr.
  destruct (set_bits_all vl (length l) (fun jdx => if (VvpVector2.wid result <=? jdx)%nat then BIT4_0
      else if vec2_value result jdx =? 0 then BIT4_0 else BIT4_1)) as (v & E & Hv); [apply Hl|by apply vec_is_size|].
  exists v. split; [done|]. apply vec_is_bitwise in Hv.
  replace (of_Z (length l) x) with (map (fun jdx => if (VvpVector2.wid result <=? jdx)%nat then BIT4_0
      else if vec2_value result jdx =? 0 then BIT4_0 else BIT4_1) (seq 0 (length l))); [done|].
  rewrite (of_Z_eqm _ x (uZ result)).
  - apply map_seq_ext. intros i Hi. rewrite Sr, (proj2 (Nat.leb_gt _ _)) by done.
    rewrite vec2_value_spec by (done || lia). by destruct (Z.testbit _ _).
  - symmetry. apply mod_words_mod. rewrite Vr. apply Z.mod_mod. pose proof (pow64_pos (words_for (length l))). lia.
Qed.

(** With a signed exponent the base is read as a signed 32-bit number. *)
Definition pow_fits (base_signed exp_signed : bool) (n : nat) : bool := negb exp_signed || (base_signed && (n <=? 32)%nat).

Lemma pow_known (base_signed : bool) l y :
  (0 < length l)%nat -> of_Z (length l) (bv_num base_signed l ^ y) = of_Z (length l) (bv_Z l ^ y).
Proof.
  intros Hp. destruct base_signed; [|done]. apply of_Z_eqm. cbn [bv_num].
  rewrite <- (Z.mod_pow_l (bv_S l)), <- (Z.mod_pow_l (bv_Z l)). do 2 f_equal. rewrite bv_S_alt by done.
  destruct (bv_Z l <? _); [by rewrite Z.sub_0_r|].
  replace (bv_Z l - 2 ^ Z.of_nat (length l)) with (bv_Z l + -1 * 2 ^ Z.of_nat (length l)) by lia.
  apply Z.mod_add. apply Z.pow_nonzero; lia.
Qed.

(** The exponent is negative when its top bit is set. *)
Lemma negative_exponent v l : holds2 (length l) (bv_Z l) v -> (0 < length l)%nat ->
  negb (vec2_value v (VvpVector2.wid v - 1) =? 0) = (bv_S l <? 0).
Proof.
  intros Hv Hp. rewrite (h2_wid _ _ _ Hv), (holds2_value _ _ _ _ Hv).
  pose proof (bv_Z_range l) as HR. pose proof (top_bit_small (bv_Z l) (length l) Hp HR) as HT. unfold tb in HT. rewrite HT.
  rewrite bv_S_alt by done.
  destruct (Z.leb_spec (2 ^ Z.of_nat (length l - 1)) (bv_Z l)), (Z.ltb_spec (bv_Z l) (2 ^ Z.of_nat (length l - 1)));
    cbn [Z.eqb negb]; symmetry; first [apply Z.ltb_lt; lia|apply Z.ltb_ge; lia|lia].
Qed.

(** A signed number of at most 32 bits is known by its 32-bit pattern. *)
Lemma small_base l c : (0 < length l <= 32)%nat -> - 2 ^ 31 <= c < 2 ^ 31 -> (bv_S l mod 2 ^ 32 =? c mod 2 ^ 32) = (bv_S l =? c).
Proof.
  intros Hl Hc. assert (HS : - 2 ^ 31 <= bv_S l < 2 ^ 31).
  { pose proof (bv_num_range true l ltac:(lia)) as HN. cbn in HN. pose proof (Z.pow_le_mono_r 2 (Z.of_nat (length l - 1)) 31 ltac:(lia) ltac:(lia)). lia. }
  destruct (Z.eqb_spec (bv_S l) c) as [->|Hne]; [apply Z.eqb_refl|]. apply Z.eqb_neq. intros E. apply Hne.
  rewrite <- (as_signed_mod (bv_S l)), <- (as_signed_mod c) by done. change (2 ^ Z.of_nat 32) with (2 ^ 32). by rewrite E.
Qed.

Lemma odd_exponent l : (0 < length l)%nat -> Z.testbit (bv_Z l) (Z.of_nat 0) = Z.odd (bv_S l).
Proof.
  intros Hp. change (Z.of_nat 0) with 0. rewrite Z.bit0_odd, bv_S_alt by done. case_cmp; [by rewrite Z.sub_0_r|].
  replace (Z.of_nat (length l)) with (Z.succ (Z.of_nat (length l - 1))) by lia. rewrite Z.pow_succ_r by lia.
  rewrite <- Z.add_opp_r, <- Z.mul_opp_r. symmetry. apply Z.odd_add_mul_2.
Qed.

Lemma pow_implements (base_signed exp_signed : bool) vl vr l r :
  vec_is vl l -> vec_is vr r -> (0 < length l)%nat -> (0 < length r)%nat -> pow_fits base_signed exp_signed (length l) = true ->
  exists v, pow_vec4 exp_signed vl vr = Some v /\ vec_is v (bv_pow base_signed exp_signed l r).
Proof.
  intros Hl Hr Hp Hpr Hfit. unfold pow_vec4, bv_pow. rewrite (vec_is_size _ _ Hl).
  destruct (vec2_of_list vl l Hl Hp) as [NL HL]. destruct (vec2_of_list vr r Hr Hpr) as [NR HR]. rewrite NL, NR.
  destruct (unknown l); cbn [orb]; [eexists; split; [done|apply vec_is_fill]|].
  destruct (unknown r); [eexists; split; [done|apply vec_is_fill]|].
  specialize (HL eq_refl). specialize (HR eq_refl). rewrite (negative_exponent _ _ HR) by done.
  assert (Hpos : 0 <= bv_num exp_signed r -> bv_num exp_signed r = bv_Z r).
  { destruct exp_signed; [|done]. cbn [bv_num]. rewrite bv_S_alt by done. pose proof (bv_Z_range r). case_cmp; lia. }
  destruct (Z.leb_spec 0 (bv_num exp_signed r)) as [H0|H0].
  - replace (exp_signed && (bv_S r <? 0)) with false.
    2:{ destruct exp_signed; [|done]. cbn [bv_num] in H0. symmetry. by apply Z.ltb_ge. }
    destruct (vec2_pow_spec _ _ (h2_wf _ _ _ HL) ltac:(rewrite (h2_wid _ _ _ HL); lia) (h2_wf _ _ _ HR) (h2_clean _ _ _ HR))
      as (res & -> & Wr & Sr & Vr). cbn [mbind option_bind].
    rewrite (h2_num _ _ _ HL), (h2_num _ _ _ HR), (h2_wid _ _ _ HL) in *. rewrite pow_known, Hpos by done.
    by apply (store_power vl l res).
  - destruct exp_signed; [|cbn [bv_num] in H0; pose proof (bv_Z_range r); lia]. cbn [andb bv_num] in *.
    rewrite (proj2 (Z.ltb_lt _ _)) by done.
    unfold pow_fits in Hfit. cbn [negb orb] in Hfit. apply andb_true_iff in Hfit as [-> H32%Nat.leb_le]. cbn [bv_num].
    rewrite (vector2_to_value_is _ _ _ HL) by lia. rewrite <- bv_S_alt by done.
    pose proof (small_base l 0 ltac:(lia) ltac:(lia)) as E0. pose proof (small_base l 1 ltac:(lia) ltac:(lia)) as E1.
    pose proof (small_base l (-1) ltac:(lia) ltac:(lia)) as E2.
    change (0 mod 2 ^ 32) with 0 in E0. change (1 mod 2 ^ 32) with 1 in E1. change (-1 mod 2 ^ 32) with (2 ^ 32 - 1) in E2.
    rewrite E0, E1, E2. rewrite (holds2_value _ _ _ _ HR).
    rewrite odd_exponent by done.
    destruct (Z.eqb_spec (bv_S l) 0) as [|N0].
    { apply fill_lowest_is; [done| |by rewrite length_replicate]. intros i Hi. rewrite nth_replicate by done. by case_cmp. }
    destruct (Z.eqb_spec (bv_S l) 1) as [|N1].
    { apply fill_lowest_is; [done| |by rewrite length_of_Z]. intros i Hi. by rewrite nth_of_Z_small by (auto || done). }
    destruct (Z.eqb_spec (bv_S l) (-1)) as [|N2].
    { destruct (Z.odd (bv_S r)); cbn [Z.eqb negb]; (apply fill_lowest_is; [done| |by rewrite length_of_Z]); intros i Hi.
      - rewrite nth_of_Z_m1 by done. by case_cmp.
      - by rewrite nth_of_Z_small by (auto || done). }
    apply fill_lowest_is; [done| |by rewrite length_of_Z]. intros i Hi. by rewrite nth_of_Z_small by (auto || done).
Qed.
