(* ===== verification/VvpStrength.v ===== *)
(** Values with strengths ([vvp/vvp_net.h], [vvp/vvp_net.cc]): the scalar [vvp_scalar_t] in
    one byte, the resolution of two drivers, and the vector [vvp_vector8_t] of scalars.

    The byte has two nibbles VSSS, the high one for the end of the range of strengths nearest
    to supply1 and the low one for the end nearest to supply0. *)
From S2P Require Import Prelude MachineWord VvpBit VvpVector4 VvpSlice VvpArith.

(** * Scalars *)

(** [unsigned char value_]. *)
Abbreviation vvp_scalar_t := Z.

Definition scalar_hiz : vvp_scalar_t := 0.

(** [vvp_scalar_t(val, str0, str1)]; [None] is a failed assertion on the strengths. *)
Definition scalar_new (val : vvp_bit4_t) (str0 str1 : Z) : option vvp_scalar_t :=
  if (str0 <=? 7) && (str1 <=? 7) then Some
    (if (str0 =? 0) && (str1 =? 0) then 0 else
     match val with
     | BIT4_0 => Z.lor str0 (Z.shiftl str0 4)
     | BIT4_1 => Z.lor (Z.lor str1 (Z.shiftl str1 4)) 136
     | BIT4_X => Z.lor (Z.lor str0 (Z.shiftl str1 4)) 128
     | BIT4_Z => 0
     end)
  else None.

Definition is_hiz (v : vvp_scalar_t) : bool := Z.land v 119 =? 0.
Definition scalar_eeq (a b : vvp_scalar_t) : bool := a =? b.

Definition scalar_value (v : vvp_scalar_t) : vvp_bit4_t :=
  if Z.land v 119 =? 0 then BIT4_Z else
  let k := Z.land v 136 in
  if k =? 0 then BIT4_0 else if k =? 136 then BIT4_1 else BIT4_X.

(** [UNAMBIG], [STREN1] and [STREN0]. *)
Definition UNAMBIG (v : Z) : bool := Z.land v 15 =? Z.land (Z.shiftr v 4) 15.
Definition STREN1 (v : Z) : Z := Z.shiftr (Z.land v 112) 4.
Definition STREN0 (v : Z) : Z := Z.land v 7.

Definition strength0 (v : vvp_scalar_t) : Z := STREN0 v.
Definition strength1 (v : vvp_scalar_t) : Z := STREN1 v.

(** The unambiguous value [u] over the ambiguous [w]: each end goes to the stronger. *)
Definition sweep (u w : Z) : Z :=
  Z.lor (if Z.land w 112 <? Z.land u 112 then Z.land u 240 else Z.land w 240)
        (if Z.land w 7 <? Z.land u 7 then Z.land u 15 else Z.land w 15).

(** [sv1a] and the like: the signed strength of each end. *)
Definition sv1 (v : Z) : Z := if negb (Z.land v 128 =? 0) then STREN1 v else - STREN1 v.
Definition sv0 (v : Z) : Z := if negb (Z.land v 8 =? 0) then STREN0 v else - STREN0 v.

(** Both ambiguous: the widest range. *)
Definition widen (a b : Z) : Z :=
  let hi := sv1 a in
  let lo := sv0 a in
  let hi := if hi <? sv0 a then sv0 a else hi in
  let hi := if hi <? sv1 b then sv1 b else hi in
  let hi := if hi <? sv0 b then sv0 b else hi in
  let lo := if sv1 a <? lo then sv1 a else lo in
  let lo := if sv1 b <? lo then sv1 b else lo in
  let lo := if sv0 b <? lo then sv0 b else lo in
  let tmp := if 0 <? hi then Z.lor 128 (Z.shiftl hi 4)
             else Z.lor (Z.land (Z.land a b) 128) (Z.shiftl (- hi) 4) in
  let tmp := if 0 <? lo then Z.lor (Z.lor tmp 8) lo else Z.lor tmp (- lo) in
  let res := tmp mod 256 in
  if Z.land res 119 =? 0 then 0 else res.

Definition fully_featured_resolv_ (a b : vvp_scalar_t) : vvp_scalar_t :=
  if UNAMBIG a && UNAMBIG b then
    if Z.land a 7 <? Z.land b 7 then b
    else if Z.land b 119 =? Z.land a 119 then Z.lor (Z.land a 119) 128
    else a
  else if UNAMBIG a then sweep a b
  else if UNAMBIG b then sweep b a
  else widen a b.

Definition resolve_scalar (a b : vvp_scalar_t) : vvp_scalar_t :=
  if is_hiz a then b
  else if is_hiz b then a
  else if scalar_eeq a b then a
  else fully_featured_resolv_ a b.

(** [vvp_switch_strength_map]. *)
Definition vvp_switch_strength_map (resistive : bool) (s : Z) : Z :=
  nth (Z.to_nat s) (if resistive then [0; 1; 1; 2; 2; 3; 5; 5] else [0; 1; 2; 3; 4; 5; 6; 6]) 0.

(** * Vectors *)

(** Up to eight bytes are kept in place of the pointer, the rest of them zero.  The bytes of
    an empty vector are never read. *)
Record vvp_vector8_t := mkVec8 { size8 : nat; bytes8 : list Z }.

Definition val_size : nat := 8.
Definition bytes_for (n : nat) : nat := if (n <=? val_size)%nat then val_size else n.

Definition vec8_new (n : nat) : vvp_vector8_t := mkVec8 n (replicate (bytes_for n) 0).
Definition vec8_nil : vvp_vector8_t := vec8_new 0.

Definition value8 (v : vvp_vector8_t) (idx : nat) : option vvp_scalar_t :=
  if (idx <? size8 v)%nat then bytes8 v !! idx else None.

Definition set_bit8 (v : vvp_vector8_t) (idx : nat) (val : vvp_scalar_t) : option vvp_vector8_t :=
  if (idx <? size8 v)%nat then Some (mkVec8 (size8 v) (<[idx := val]> (bytes8 v))) else None.

(** [for (idx = 0; idx < n; idx += 1) v.set_bit(p + idx, f(idx))]. *)
Definition set_bits8 (n p : nat) (f : nat -> option vvp_scalar_t) (v : vvp_vector8_t) : option vvp_vector8_t :=
  for_upto n (fun idx t => t ← t; x ← f idx; set_bit8 t (p + idx) x) (Some v).

(** [vvp_vector8_t(const vvp_vector4_t&, str0, str1)] and the one from a [vvp_vector2_t],
    given the bit at each position. *)
Definition vec8_of_bits (n : nat) (bit : nat -> vvp_bit4_t) (str0 str1 : Z) : option vvp_vector8_t :=
  set_bits8 n 0 (fun idx => scalar_new (bit idx) str0 str1) (vec8_new n).
Definition vec8_of_vec4 (that : vvp_vector4_t) (str0 str1 : Z) : option vvp_vector8_t :=
  vec8_of_bits (size that) (value that) str0 str1.

(** Comparison of the [val_size] bytes of short vectors, or of the whole arrays. *)
Definition eeq8 (a b : vvp_vector8_t) : bool :=
  if negb (size8 a =? size8 b)%nat then false
  else if (size8 a =? 0)%nat then true
  else bool_decide (bytes8 a = bytes8 b).

(** The copy of a range into bytes of a new vector. *)
Definition copy_bytes (cnt from to : nat) (src dst : list Z) : list Z :=
  for_upto cnt (fun idx d => <[(to + idx)%nat := nth (from + idx) src 0]> d) dst.

Definition subvalue8 (v : vvp_vector8_t) (base wid : nat) : vvp_vector8_t :=
  mkVec8 wid (copy_bytes (Nat.min wid (size8 v - base)) base 0 (bytes8 v) (bytes8 (vec8_new wid))).

Definition set_vec8 (v : vvp_vector8_t) (base : nat) (that : vvp_vector8_t) : option vvp_vector8_t :=
  if (base + size8 that <=? size8 v)%nat then set_bits8 (size8 that) base (value8 that) v else None.

Definition part_expand (that : vvp_vector8_t) (wid off : nat) : option vvp_vector8_t :=
  if (off <? wid)%nat
  then Some (mkVec8 wid (copy_bytes (Nat.min (wid - off) (size8 that)) 0 off (bytes8 that) (bytes8 (vec8_new wid))))
  else None.

Definition resolve8 (a b : vvp_vector8_t) : option vvp_vector8_t :=
  if (size8 a =? size8 b)%nat
  then set_bits8 (size8 a) 0 (fun idx => x ← value8 a idx; y ← value8 b idx; Some (resolve_scalar x y)) (vec8_new (size8 a))
  else None.

(** Strengths dropped. *)
Definition reduce4 (that : vvp_vector8_t) : option vvp_vector4_t :=
  for_upto (size8 that) (fun idx out => out ← out; x ← value8 that idx; set_bit out idx (scalar_value x))
    (Some (vec4_fill (size8 that) BIT4_X)).

(** ** Text *)

(** [c8string_test]: the characters up to the end of the string, after the prefix. *)
Fixpoint c8string_tail (str : list Z) : bool :=
  match str with
  | [] => false
  | c :: str' =>
      if (c =? 62) && bool_decide (str' = []) then true
      else if ((48 <=? c) && (c <=? 57)) || (c =? 120) || (c =? 122) then c8string_tail str'
      else false
  end.

Definition c8string_test (str : list Z) : bool :=
  match str with
  | 67 :: 56 :: 60 :: tail => c8string_tail tail
  | _ => false
  end.

(** Three characters per bit, the highest bit first: strength0, strength1 and the value, X
    for any other character.  A character below ['0'] wraps to a large strength. *)
Definition c8string_to_vector8 (str : list Z) : option vvp_vector8_t :=
  let vsize := wsub (Z.of_nat (length str)) 4 in
  if vsize mod 3 =? 0 then
    let vsize := Z.to_nat (vsize / 3) in
    for_upto vsize (fun idx tmp =>
      tmp ← tmp;
      let at' k := nth (3 + 3 * idx + k) str 0 in
      let bit := default BIT4_X (char_bit (at' 2%nat)) in
      let dr k := (at' k - 48) mod 2 ^ 32 in
      x ← scalar_new bit (dr 0%nat) (dr 1%nat);
      set_bit8 tmp (vsize - idx - 1) x)
      (Some (vec8_new vsize))
  else None.

(** * Drivers *)

(** [vvp_fun_drive::recv_vec4]: a vector without strengths leaves with those of the gate. *)
Definition drive_recv_vec4 (drive0_ drive1_ : Z) (port : nat) (bit : vvp_vector4_t) : option vvp_vector8_t :=
  if (port =? 0)%nat then vec8_of_vec4 bit drive0_ drive1_ else None.

(** * Vectors as lists of scalars *)

Definition bits8 (v : vvp_vector8_t) : list vvp_scalar_t := take (size8 v) (bytes8 v).

(** The bytes of the object, those behind a short vector zero. *)
Record wf8 (v : vvp_vector8_t) : Prop := {
  wf8_len : length (bytes8 v) = bytes_for (size8 v);
  wf8_pad : drop (size8 v) (bytes8 v) = replicate (bytes_for (size8 v) - size8 v) 0 }.

Definition vec8_is (v : vvp_vector8_t) (l : list vvp_scalar_t) : Prop := wf8 v /\ bits8 v = l.

Lemma bytes_for_le n : (n <= bytes_for n)%nat.
Proof. unfold bytes_for. case_cmp; lia. Qed.

Lemma vec8_is_bytes v l : vec8_is v l -> bytes8 v = l ++ replicate (bytes_for (size8 v) - size8 v) 0.
Proof. intros [[_ Hp] <-]. unfold bits8. rewrite <- Hp. by rewrite take_drop. Qed.

Lemma vec8_is_size v l : vec8_is v l -> size8 v = length l.
Proof.
  intros [[Hl _] <-]. unfold bits8. rewrite length_take, Hl. pose proof (bytes_for_le (size8 v)). lia.
Qed.

Lemma vec8_is_intro n l : length l = n -> vec8_is (mkVec8 n (l ++ replicate (bytes_for n - n) 0)) l.
Proof.
  intros Hl. pose proof (bytes_for_le n). split; [split; cbn [size8 bytes8]|unfold bits8; cbn [size8 bytes8]].
  - rewrite length_app, length_replicate. lia.
  - rewrite drop_app_ge, Hl, Nat.sub_diag by lia. done.
  - rewrite <- Hl. apply take_app_length.
Qed.

Lemma vec8_is_eta v l : vec8_is v l -> v = mkVec8 (length l) (l ++ replicate (bytes_for (length l) - length l) 0).
Proof. intros Hv. rewrite <- (vec8_is_size _ _ Hv), <- (vec8_is_bytes _ _ Hv). by destruct v. Qed.

(** A vector is determined by its scalars. *)
Lemma vec8_is_inj u v l : vec8_is u l -> vec8_is v l -> u = v.
Proof. intros Hu Hv. rewrite (vec8_is_eta _ _ Hu). symmetry. by apply vec8_is_eta. Qed.

Lemma vec8_new_is n : vec8_is (vec8_new n) (replicate n 0).
Proof.
  pose proof (vec8_is_intro n (replicate n 0) (length_replicate _ _)) as H. rewrite <- replicate_add in H.
  pose proof (bytes_for_le n). by replace (n + (bytes_for n - n))%nat with (bytes_for n) in H by lia.
Qed.

Lemma value8_is v l i : vec8_is v l -> value8 v i = l !! i.
Proof.
  intros Hv. unfold value8. rewrite (vec8_is_bytes _ _ Hv), (vec8_is_size _ _ Hv). case_cmp.
  - by rewrite lookup_app_l.
  - symmetry. by apply lookup_ge_None_2.
Qed.

Lemma set_bit8_is v l i x : vec8_is v l -> (i < length l)%nat -> exists r, set_bit8 v i x = Some r /\ vec8_is r (<[i := x]> l).
Proof.
  intros Hv Hi. unfold set_bit8. rewrite (vec8_is_size _ _ Hv), (proj2 (Nat.ltb_lt _ _)) by done. eexists. split; [done|].
  rewrite (vec8_is_bytes _ _ Hv), insert_app_l, (vec8_is_size _ _ Hv) by done.
  apply vec8_is_intro. by rewrite length_insert.
Qed.

(** A loop that sets a range of bits. *)
Lemma set_bits8_is (f : nat -> option vvp_scalar_t) (p n : nat) (xs l : list vvp_scalar_t) v :
  vec8_is v l -> (p + n <= length l)%nat -> length xs = n -> (forall i, (i < n)%nat -> f i = xs !! i) ->
  exists r, set_bits8 n p f v = Some r /\ vec8_is r (take p l ++ xs ++ drop (p + n) l).
Proof.
  intros Hv Hp Hx Hf. unfold set_bits8.
  assert (H : forall k, (k <= n)%nat -> exists r, for_upto k (fun idx t => t ← t; x ← f idx; set_bit8 t (p + idx) x) (Some v) = Some r /\
    vec8_is r (take p l ++ take k xs ++ drop (p + k) l)).
  { induction k as [|k IH]; intros Hk; cbn [for_upto].
    - exists v. split; [done|]. rewrite Nat.add_0_r. change (take 0 xs) with (@nil Z). rewrite app_nil_l. by rewrite take_drop.
    - destruct (IH ltac:(lia)) as (t & -> & Ht). cbn [mbind option_bind].
      destruct (lookup_lt_is_Some_2 xs k ltac:(lia)) as [x Ex]. rewrite Hf, Ex by lia. cbn [mbind option_bind].
      destruct (lookup_lt_is_Some_2 l (p + k) ltac:(lia)) as [y Ey].
      assert (Ll : length (take p l ++ take k xs) = (p + k)%nat) by (rewrite length_app, !length_take; lia).
      destruct (set_bit8_is t _ (p + k) x Ht) as (r & E & Hr); [rewrite app_assoc, length_app, Ll, length_drop; lia|].
      exists r. split; [done|]. rewrite app_assoc, insert_app_r_alt in Hr by (rewrite Ll; lia). rewrite Ll, Nat.sub_diag in Hr.
      rewrite (drop_S l y (p + k)) in Hr by done. cbn [insert list_insert] in Hr.
      rewrite (take_S_r _ _ _ Ex), Nat.add_succ_r, <- !app_assoc. by rewrite <- app_assoc in Hr. }
  destruct (H n (le_n _)) as (r & E & Hr). exists r. split; [done|]. by rewrite (take_ge xs) in Hr by lia.
Qed.

Lemma set_all8_is (f : nat -> option vvp_scalar_t) n (xs : list vvp_scalar_t) :
  length xs = n -> (forall i, (i < n)%nat -> f i = xs !! i) -> exists r, set_bits8 n 0 f (vec8_new n) = Some r /\ vec8_is r xs.
Proof.
  intros Hx Hf. destruct (set_bits8_is f 0 n xs _ _ (vec8_new_is n)) as (r & E & Hr); [by rewrite length_replicate|done|done|].
  exists r. split; [done|]. cbn [take app Nat.add] in Hr. by rewrite drop_ge, app_nil_r in Hr by (by rewrite length_replicate).
Qed.

Lemma eeq8_is a b l r : vec8_is a l -> vec8_is b r -> eeq8 a b = bool_decide (l = r).
Proof.
  intros Ha Hb. unfold eeq8. rewrite (vec8_is_size _ _ Ha), (vec8_is_size _ _ Hb).
  destruct (Nat.eqb_spec (length l) (length r)) as [E|Hne]; cbn [negb].
  2:{ rewrite bool_decide_eq_false_2; [done|]. by intros ->. }
  destruct (Nat.eqb_spec (length l) 0) as [E0|E0].
  { destruct l, r; try done. }
  apply bool_decide_ext. split; [|by intros ->; f_equal; apply (vec8_is_inj _ _ _ Ha Hb)].
  intros EB. pose proof (vec8_is_size _ _ Ha) as Sa. pose proof (vec8_is_size _ _ Hb) as Sb.
  destruct Ha as [_ Ha], Hb as [_ Hb]. rewrite <- Ha, <- Hb. unfold bits8. by rewrite EB, Sa, E, <- Sb.
Qed.
