(* ===== verification/StrengthSpec.v ===== *)
(** What the resolution of two scalars means: a scalar is a range of signed strengths, from
    the end nearest to supply0 to the end nearest to supply1, and the resolution of two
    ranges covers what any two strengths in them resolve to. *)
From S2P Require Import Prelude MachineWord VvpBit VvpVector4 VvpSlice VvpArith VvpStrength.

(** * Ranges *)

(** The signed strengths a scalar may have. *)
Definition range (v : vvp_scalar_t) : Z * Z := (sv0 v, sv1 v).
Definition within (s : Z) (r : Z * Z) : Prop := fst r <= s <= snd r.

(** The bytes that constructors and resolution produce.  The byte 136 is a 1 of strength HiZ
    and stands for no drive, as 0 does. *)
Definition wf_scalar (v : vvp_scalar_t) : bool :=
  (0 <=? v) && (v <? 256) && (sv0 v <=? sv1 v) &&
  (negb (is_hiz v) || (v =? 0) || (v =? 136)) && (negb (Z.land v 15 =? 8) || (v =? 136)).

(** The strengths [s] and [t] of two drivers may give the strength [u] to the net: the stronger
    one, and anything in between for equal strengths of opposite values. *)
Inductive meets (s t u : Z) : Prop :=
| meets_left : Z.abs t < Z.abs s -> u = s -> meets s t u
| meets_right : Z.abs s < Z.abs t -> u = t -> meets s t u
| meets_same : s = t -> u = s -> meets s t u
| meets_tie : s = - t -> - Z.abs s <= u <= Z.abs s -> meets s t u.

(** ** Resolution of ranges *)

Definition over (s : Z) (r : Z * Z) : Z * Z :=
  (if Z.abs (fst r) <? Z.abs s then s else fst r, if Z.abs (snd r) <? Z.abs s then s else snd r).

Definition resolve_range (a b : Z * Z) : Z * Z :=
  if (fst a =? 0) && (snd a =? 0) then b
  else if (fst b =? 0) && (snd b =? 0) then a
  else if (fst a =? snd a) && (fst b =? snd b) then
    if Z.abs (fst a) <? Z.abs (fst b) then b
    else if Z.abs (fst b) <? Z.abs (fst a) then a
    else if fst a =? fst b then a else (- Z.abs (fst a), Z.abs (fst a))
  else if fst a =? snd a then over (fst a) b
  else if fst b =? snd b then over (fst b) a
  else (Z.min (fst a) (fst b), Z.max (snd a) (snd b)).

(** A single strength against a range of the opposite value whose weakest end is as strong. *)
Definition clash_with (s : Z) (r : Z * Z) : Prop :=
  (0 < s /\ snd r = - s) \/ (s < 0 /\ fst r = - s).
Definition clash (a b : Z * Z) : Prop :=
  (fst a = snd a /\ fst b <> snd b /\ clash_with (fst a) b) \/
  (fst b = snd b /\ fst a <> snd a /\ clash_with (fst b) a).

Ltac split_tests :=
  repeat match goal with
  | |- context [?a =? ?b] => destruct (Z.eqb_spec a b); cbn [andb orb negb fst snd]
  | |- context [?a <? ?b] => destruct (Z.ltb_spec a b); cbn [andb orb negb fst snd]
  end.

Lemma meets_sym s t u : meets s t u -> meets t s u.
Proof.
  intros []; [by apply meets_right|by apply meets_left|apply meets_same; congruence|apply meets_tie; lia].
Qed.

Lemma over_sound s r t u :
  ~ clash_with s r -> within t r -> meets s t u -> within u (over s r).
Proof.
  destruct r as [l h]. unfold within, clash_with, over. cbn [fst snd]. intros Hc Ht Hu.
  assert (H1 : ~ (0 < s /\ h = - s)) by tauto. assert (H2 : ~ (s < 0 /\ l = - s)) by tauto. clear Hc.
  destruct Hu; subst; split_tests; lia.
Qed.

Lemma single_sound s t u : meets s t u ->
  within u (if Z.abs s <? Z.abs t then (t, t) else if Z.abs t <? Z.abs s then (s, s) else if s =? t then (s, s) else (- Z.abs s, Z.abs s)).
Proof. unfold within. intros []; subst; split_tests; lia. Qed.

Lemma hull_sound l1 h1 l2 h2 s t u :
  l1 <= s <= h1 -> l2 <= t <= h2 -> meets s t u -> within u (Z.min l1 l2, Z.max h1 h2).
Proof. unfold within. cbn [fst snd]. intros Hs Ht []; subst; lia. Qed.

(** Resolution covers every outcome, but for a single strength that clashes. *)
Lemma resolve_range_sound a b s t u :
  ~ clash a b -> within s a -> within t b -> meets s t u -> within u (resolve_range a b).
Proof.
  destruct a as [l1 h1], b as [l2 h2]. unfold resolve_range, clash. cbn [fst snd]. intros Hc Hs Ht Hu.
  unfold within in Hs, Ht. cbn [fst snd] in Hs, Ht.
  destruct ((l1 =? 0) && (h1 =? 0)) eqn:EA.
  { apply andb_true_iff in EA as [?%Z.eqb_eq ?%Z.eqb_eq]. unfold within. cbn [fst snd]. destruct Hu; lia. }
  destruct ((l2 =? 0) && (h2 =? 0)) eqn:EB.
  { apply andb_true_iff in EB as [?%Z.eqb_eq ?%Z.eqb_eq]. unfold within. cbn [fst snd]. destruct Hu; lia. }
  clear EA EB. destruct (Z.eqb_spec l1 h1) as [U1|U1], (Z.eqb_spec l2 h2) as [U2|U2]; cbn [andb].
  - replace s with l1 in Hu by lia. replace t with l2 in Hu by lia. subst h1 h2. by apply single_sound.
  - replace s with l1 in Hu by lia. apply (over_sound l1 _ t); [cbn; tauto|done|done].
  - replace t with l2 in Hu by lia. apply (over_sound l2 _ s); [cbn; tauto|done|by apply meets_sym].
  - by apply (hull_sound l1 h1 l2 h2 s t).
Qed.

(** With a single strength on one side the ends of the result are met. *)
Lemma over_met s r : fst r <= snd r ->
  let o := over s r in
  (exists t, within t r /\ meets s t (fst o)) /\ (exists t, within t r /\ meets s t (snd o)).
Proof.
  destruct r as [l h]. unfold within, over. cbn [fst snd]. intros Hr.
  assert (H : forall t, l <= t <= h -> exists t', l <= t' <= h /\ meets s t' (if Z.abs t <? Z.abs s then s else t)).
  { intros t Ht. exists t. split; [done|]. destruct (Z.ltb_spec (Z.abs t) (Z.abs s)); [by apply meets_left|].
    destruct (Z.eq_dec (Z.abs s) (Z.abs t)); [|apply meets_right; lia].
    destruct (Z.eq_dec s t); [by apply meets_same|apply meets_tie; lia]. }
  split; apply H; lia.
Qed.

(** * The scalars of the code *)

Definition all_scalars : list Z := List.filter wf_scalar (map Z.of_nat (seq 0 256)).

Lemma wf_in v : wf_scalar v = true -> In v all_scalars.
Proof.
  intros H. apply filter_In. split; [|done]. apply in_map_iff. exists (Z.to_nat v).
  unfold wf_scalar in H. repeat (apply andb_true_iff in H as [H ?]). apply Z.leb_le in H.
  assert (v < 256) by (by apply Z.ltb_lt). split; [lia|]. apply in_seq. lia.
Qed.

Abbreviation for_scalars p := (forallb p all_scalars).
Lemma for_scalars_spec (p : Z -> bool) v : for_scalars p = true -> wf_scalar v = true -> p v = true.
Proof. intros H Hv. exact (proj1 (forallb_forall p all_scalars) H v (wf_in v Hv)). Qed.

Definition range_eqb (a b : Z * Z) : bool := (fst a =? fst b) && (snd a =? snd b).
Lemma range_eqb_eq a b : range_eqb a b = true -> a = b.
Proof. destruct a, b. unfold range_eqb. cbn. intros [->%Z.eqb_eq ->%Z.eqb_eq]%andb_true_iff. done. Qed.

(** The pairs of scalars: the range of the result, and the order of the operands. *)
Definition pair_ok (a b : Z) : bool :=
  let r := resolve_scalar a b in
  wf_scalar r && range_eqb (range r) (resolve_range (range a) (range b)) &&
  ((is_hiz a && is_hiz b) || (r =? resolve_scalar b a)).

Lemma pairs_checked : for_scalars (fun a => for_scalars (pair_ok a)) = true.
Proof. vm_compute. reflexivity. Qed.

Lemma pair_ok_spec a b : wf_scalar a = true -> wf_scalar b = true -> pair_ok a b = true.
Proof.
  intros Ha Hb. exact (for_scalars_spec (pair_ok a) b (for_scalars_spec (fun a => for_scalars (pair_ok a)) a pairs_checked Ha) Hb).
Qed.

Lemma resolve_wf a b : wf_scalar a = true -> wf_scalar b = true -> wf_scalar (resolve_scalar a b) = true.
Proof. intros Ha Hb. pose proof (pair_ok_spec a b Ha Hb) as H. unfold pair_ok in H. apply andb_true_iff in H as [H _]. by apply andb_true_iff in H as [H _]. Qed.

Lemma resolve_is_range a b : wf_scalar a = true -> wf_scalar b = true ->
  range (resolve_scalar a b) = resolve_range (range a) (range b).
Proof.
  intros Ha Hb. pose proof (pair_ok_spec a b Ha Hb) as H. unfold pair_ok in H.
  apply andb_true_iff in H as [H _]. apply andb_true_iff in H as [_ H]. by apply range_eqb_eq.
Qed.

(** Two drives of no strength differ only in their encoding. *)
Lemma resolve_comm a b : wf_scalar a = true -> wf_scalar b = true -> is_hiz a && is_hiz b = false ->
  resolve_scalar a b = resolve_scalar b a.
Proof.
  intros Ha Hb Hz. pose proof (pair_ok_spec a b Ha Hb) as H. unfold pair_ok in H. rewrite Hz in H.
  apply andb_true_iff in H as [_ H]. by apply Z.eqb_eq.
Qed.

(** The value read off a scalar is that of its range. *)
Definition value_ok (v : Z) : bool :=
  (fst (range v) <=? snd (range v)) &&
  match scalar_value v with
  | BIT4_1 => 0 <? fst (range v)
  | BIT4_0 => (fst (range v) <? 0) && (snd (range v) <=? 0)
  | BIT4_Z => range_eqb (range v) (0, 0)
  | BIT4_X => (fst (range v) <=? 0) && (0 <=? snd (range v)) && negb (range_eqb (range v) (0, 0))
  end.

Lemma values_checked : for_scalars value_ok = true.
Proof. vm_compute. reflexivity. Qed.

Lemma value_is_range v : wf_scalar v = true ->
  fst (range v) <= snd (range v) /\
  match scalar_value v with
  | BIT4_1 => 0 < fst (range v)
  | BIT4_0 => fst (range v) < 0 /\ snd (range v) <= 0
  | BIT4_Z => range v = (0, 0)
  | BIT4_X => fst (range v) <= 0 <= snd (range v) /\ range v <> (0, 0)
  end.
Proof.
  intros Hv. pose proof (for_scalars_spec value_ok v values_checked Hv) as H. unfold value_ok in H.
  apply andb_true_iff in H as [H1 H]. split; [by apply Z.leb_le|]. destruct (scalar_value v).
  - apply andb_true_iff in H as [H2 H3]. split; [by apply Z.ltb_lt|by apply Z.leb_le].
  - by apply Z.ltb_lt.
  - apply andb_true_iff in H as [H H4]. apply andb_true_iff in H as [H2 H3].
    split; [split; by apply Z.leb_le|]. intros E. rewrite E in H4. done.
  - by apply range_eqb_eq.
Qed.

(** ** New scalars *)

Definition all_bits : list vvp_bit4_t := [BIT4_0; BIT4_1; BIT4_X; BIT4_Z].
Definition all_strengths : list Z := [0; 1; 2; 3; 4; 5; 6; 7].

Lemma all_bits_in b : In b all_bits. Proof. destruct b; cbn; auto. Qed.
Lemma all_strengths_in s : 0 <= s <= 7 -> In s all_strengths.
Proof. intros H. unfold all_strengths. cbn. lia. Qed.

(** What a driver of the strengths [s0] and [s1] puts on the net for the bit [b]. *)
Definition drive_range (b : vvp_bit4_t) (s0 s1 : Z) : Z * Z :=
  match b with BIT4_0 => (- s0, - s0) | BIT4_1 => (s1, s1) | BIT4_X => (- s0, s1) | BIT4_Z => (0, 0) end.

Definition new_ok (b : vvp_bit4_t) (s0 s1 : Z) : bool :=
  match scalar_new b s0 s1 with
  | Some v => wf_scalar v && range_eqb (range v) (drive_range b s0 s1)
  | None => false
  end.

Lemma news_checked : forallb (fun b => forallb (fun s0 => forallb (new_ok b s0) all_strengths) all_strengths) all_bits = true.
Proof. vm_compute. reflexivity. Qed.

Lemma scalar_new_is b s0 s1 : 0 <= s0 <= 7 -> 0 <= s1 <= 7 ->
  exists v, scalar_new b s0 s1 = Some v /\ wf_scalar v = true /\ range v = drive_range b s0 s1.
Proof.
  intros H0 H1. pose proof news_checked as H. rewrite forallb_forall in H. specialize (H b (all_bits_in b)). cbn beta in H.
  rewrite forallb_forall in H. specialize (H s0 (all_strengths_in _ H0)). cbn beta in H.
  rewrite forallb_forall in H. specialize (H s1 (all_strengths_in _ H1)). unfold new_ok in H.
  destruct (scalar_new b s0 s1) as [v|]; [|done]. apply andb_true_iff in H as [Hw Hr]. exists v. split_and!; [done|done|by apply range_eqb_eq].
Qed.

(** * Drivers of equal strengths *)

(** The scalars of drivers whose two strengths are equal, and what they resolve to: one strength,
    or an unknown value of one strength. *)
Definition plain (v : Z) : bool :=
  wf_scalar v && ((sv0 v =? sv1 v) || (sv0 v =? - sv1 v)) && negb (v =? 136).

Definition all_plain : list Z := List.filter plain all_scalars.

Lemma plain_wf v : plain v = true -> wf_scalar v = true.
Proof. unfold plain. intros H. apply andb_true_iff in H as [H _]. by apply andb_true_iff in H as [H _]. Qed.

Lemma plain_in v : plain v = true -> In v all_plain.
Proof. intros H. apply filter_In. split; [|done]. by apply wf_in, plain_wf. Qed.

Abbreviation for_plain p := (forallb p all_plain).
Lemma for_plain_spec (p : Z -> bool) v : for_plain p = true -> plain v = true -> p v = true.
Proof. intros H Hv. exact (proj1 (forallb_forall p all_plain) H v (plain_in v Hv)). Qed.

Lemma plain_pairs_checked : for_plain (fun a =>
  (resolve_scalar a a =? a) && (resolve_scalar a 0 =? a) && (resolve_scalar 0 a =? a) && for_plain (fun b =>
    plain (resolve_scalar a b) && (resolve_scalar a b =? resolve_scalar b a) &&
    for_plain (fun c => resolve_scalar a (resolve_scalar b c) =? resolve_scalar (resolve_scalar a b) c))) = true.
Proof. vm_compute. reflexivity. Qed.

Lemma plain_units a : plain a = true ->
  resolve_scalar a a = a /\ resolve_scalar a 0 = a /\ resolve_scalar 0 a = a.
Proof.
  intros Ha. pose proof (for_plain_spec _ a plain_pairs_checked Ha) as H. cbn beta in H.
  apply andb_true_iff in H as [H _]. apply andb_true_iff in H as [H H3]. apply andb_true_iff in H as [H1 H2].
  split_and!; by apply Z.eqb_eq.
Qed.

Lemma plain_pair a b : plain a = true -> plain b = true ->
  plain (resolve_scalar a b) = true /\ resolve_scalar a b = resolve_scalar b a.
Proof.
  intros Ha Hb. pose proof (for_plain_spec _ a plain_pairs_checked Ha) as H. cbn beta in H.
  apply andb_true_iff in H as [_ H]. apply (for_plain_spec _ b) in H; [|done]. cbn beta in H.
  apply andb_true_iff in H as [H _]. apply andb_true_iff in H as [H1 H2]. split; [done|by apply Z.eqb_eq].
Qed.

Lemma plain_assoc a b c : plain a = true -> plain b = true -> plain c = true ->
  resolve_scalar a (resolve_scalar b c) = resolve_scalar (resolve_scalar a b) c.
Proof.
  intros Ha Hb Hc. pose proof (for_plain_spec _ a plain_pairs_checked Ha) as H. cbn beta in H.
  apply andb_true_iff in H as [_ H]. apply (for_plain_spec _ b) in H; [|done]. cbn beta in H.
  apply andb_true_iff in H as [_ H]. apply (for_plain_spec _ c) in H; [|done]. by apply Z.eqb_eq.
Qed.

Definition new_plain (b : vvp_bit4_t) (s : Z) : bool :=
  match scalar_new b s s with Some v => plain v || (s =? 0) | None => false end.
Lemma new_plain_checked : forallb (fun b => forallb (new_plain b) all_strengths) all_bits = true.
Proof. vm_compute. reflexivity. Qed.

Lemma scalar_new_plain b s : 0 < s <= 7 -> exists v, scalar_new b s s = Some v /\ plain v = true.
Proof.
  intros Hs. pose proof new_plain_checked as H. rewrite forallb_forall in H. specialize (H b (all_bits_in b)). cbn beta in H.
  rewrite forallb_forall in H. specialize (H s (all_strengths_in s ltac:(lia))). unfold new_plain in H.
  destruct (scalar_new b s s) as [v|]; [|done]. exists v. split; [done|]. apply orb_true_iff in H as [H|H%Z.eqb_eq]; [done|lia].
Qed.
