(* ===== verification/Resolver.v ===== *)
(** Resolvers ([vvp/resolv.h], [vvp/resolv.cc]): the nodes that merge the drivers of a net.
    A resolver keeps its drivers and the partial results of a tree of groups of four in one
    array and recomputes the path from a driver that changed to the output.

    The two resolvers of the code, [resolv_tri] on scalars with strengths and
    [resolv_wired_logic] on bits, share the algorithm; it is written once over the interface
    [Node] of the values they keep. *)
From S2P Require Import Prelude MachineWord VvpBit VvpVector4 VvpSlice VvpArith VvpStrength.

(** * The algorithm *)

(** What a resolver does with the vectors it keeps: the empty vector of a port that has not
    been driven, the size, the test for a change, the resolution of two drivers, and the step
    on the output before it is sent. *)
Class Node (A : Type) := {
  node_nil : A;
  node_size : A -> nat;
  node_eeq : A -> A -> bool;
  node_join : A -> A -> option A }.

Record resolver (A : Type) := mkResolver { nports_ : nat; val_ : list A }.
Arguments mkResolver {A} _ _.
Arguments nports_ {A} _.
Arguments val_ {A} _.

(** The loop of the constructors that counts the branch nodes. *)
Fixpoint branch_nodes (fuel nports : nat) : nat :=
  match fuel with
  | O => O
  | S f => if (4 <? nports)%nat then ((nports + 3) / 4 + branch_nodes f ((nports + 3) / 4))%nat else O
  end.

Definition nnodes (nports : nat) : nat :=
  let n := (nports + branch_nodes nports nports)%nat in
  if (1 <? n)%nat then (n + 1)%nat else n.

Section Algorithm.
Context {A : Type} `{Node A} (root_step : A -> option A).

Definition resolver_new (nports : nat) : resolver A := mkResolver nports (replicate (nnodes nports) node_nil).

(** The loop over the other nodes of a group. *)
Fixpoint gather (cnt ip : nat) (val : list A) (out : A) : option A :=
  match cnt with
  | O => Some out
  | S c =>
      v ← val !! ip;
      if (node_size v =? 0)%nat then gather c (ip + 1) val out
      else if (node_size out =? 0)%nat then gather c (ip + 1) val v
      else out ← node_join out v; gather c (ip + 1) val out
  end.

(** The [while] loop down the tree.  The result is the array, and the place of the output when
    the change reached it; [port & ~0x3] is [4 * (port / 4)]. *)
Fixpoint resolve_loop (fuel base span port : nat) (val : list A) : option (list A * option nat) :=
  if (1 <? span)%nat then
    match fuel with
    | O => None
    | S f =>
        let next_base := (base + span)%nat in
        let ip := (base + 4 * (port / 4))%nat in
        let op := (next_base + port / 4)%nat in
        let ll := Nat.min (ip + 4) next_base in
        first ← val !! ip;
        out ← gather (ll - (ip + 1)) (ip + 1) val first;
        old ← val !! op;
        if node_eeq old out then Some (val, None)
        else resolve_loop f next_base ((span + 3) / 4) (port / 4) (<[op := out]> val)
    end
  else Some (val, Some base).

(** [recv_vec8_] of [resolv_tri], [recv_vec4_] of [resolv_wired_logic]: the new state and the
    vector sent. *)
Definition resolver_recv (port : nat) (bit : A) (st : resolver A) : option (resolver A * option A) :=
  if (port <? nports_ st)%nat then
    cur ← val_ st !! port;
    if node_eeq cur bit then Some (st, None)
    else
      '(val, root) ← resolve_loop (nports_ st) 0 (nports_ st) port (<[port := bit]> (val_ st));
      match root with
      | None => Some (mkResolver (nports_ st) val, None)
      | Some base =>
          out ← val !! base;
          out ← root_step out;
          Some (mkResolver (nports_ st) (<[base := out]> val), Some out)
      end
  else None.

(** The drivers that have arrived, for [count_drivers]. *)
Definition driven (st : resolver A) : list A :=
  List.filter (fun v => negb (node_size v =? 0)%nat) (take (nports_ st) (val_ st)).
End Algorithm.

(** * [resolv_tri] *)

#[export] Instance node8 : Node vvp_vector8_t := {|
  node_nil := vec8_nil; node_size := size8; node_eeq := eeq8; node_join := resolve8 |}.

(** The puller is resolved with every bit of the output. *)
Definition pull (hiz_value_ : vvp_scalar_t) (v : vvp_vector8_t) : option vvp_vector8_t :=
  if is_hiz hiz_value_ then Some v
  else set_bits8 (size8 v) 0 (fun idx => x ← value8 v idx; Some (resolve_scalar x hiz_value_)) v.

Definition tri_recv_vec8 (hiz_value_ : vvp_scalar_t) := resolver_recv (pull hiz_value_).

(** Vectors without strengths are strong drivers. *)
Definition tri_recv_vec4 (hiz_value_ : vvp_scalar_t) (port : nat) (bit : vvp_vector4_t) (st : resolver vvp_vector8_t) :=
  v ← vec8_of_vec4 bit 6 6; tri_recv_vec8 hiz_value_ port v st.

(** * [resolv_triand] and [resolv_trior] *)

(** One bit of [wired_logic_math_]: the value that wins over the others. *)
Definition wired_bit (win lose : vvp_bit4_t) (abit bbit : vvp_bit4_t) : vvp_bit4_t :=
  if bit4_eqb abit BIT4_Z then bbit
  else if bit4_eqb bbit BIT4_Z then abit
  else if bit4_eqb abit win || bit4_eqb bbit win then win
  else if bit4_eqb abit BIT4_X || bit4_eqb bbit BIT4_X then BIT4_X
  else lose.

Definition triand_bit : vvp_bit4_t -> vvp_bit4_t -> vvp_bit4_t := wired_bit BIT4_0 BIT4_1.
Definition trior_bit : vvp_bit4_t -> vvp_bit4_t -> vvp_bit4_t := wired_bit BIT4_1 BIT4_0.

Definition wired_logic_math_ (f : vvp_bit4_t -> vvp_bit4_t -> vvp_bit4_t) (a b : vvp_vector4_t) : option vvp_vector4_t :=
  if (size a =? size b)%nat then
    for_upto (size a) (fun idx out => out ← out; set_bit out idx (f (value a idx) (value b idx)))
      (Some (vec4_fill (size a) BIT4_X))
  else None.

Definition node4 (f : vvp_bit4_t -> vvp_bit4_t -> vvp_bit4_t) : Node vvp_vector4_t := {|
  node_nil := vec4_fill 0 BIT4_X; node_size := size; node_eeq := eeq; node_join := wired_logic_math_ f |}.

Definition wired_recv_vec4 (f : vvp_bit4_t -> vvp_bit4_t -> vvp_bit4_t) :=
  @resolver_recv vvp_vector4_t (node4 f) Some.

Definition wired_recv_vec8 (f : vvp_bit4_t -> vvp_bit4_t -> vvp_bit4_t) (port : nat) (bit : vvp_vector8_t) (st : resolver vvp_vector4_t) :=
  v ← reduce4 bit; wired_recv_vec4 f port v st.

(** * Parts *)

(** [recv_vec4_pv_]: Z outside the part; a part that sticks out of the vector is cut. *)
Definition part_vec4 (bit : vvp_vector4_t) (base wid vwid : nat) : option vvp_vector4_t :=
  if (size bit =? wid)%nat then
    res ← for_upto base (fun idx res => res ← res; set_bit res idx BIT4_Z) (Some (vec4_fill vwid BIT4_X));
    res ← for_upto (Nat.min wid (vwid - base)) (fun idx res => res ← res; set_bit res (idx + base) (value bit idx)) (Some res);
    for_upto (vwid - (base + wid)) (fun idx res => res ← res; set_bit res (base + wid + idx) BIT4_Z) (Some res)
  else None.

Definition part_vec8 (bit : vvp_vector8_t) (base wid vwid : nat) : option vvp_vector8_t :=
  if (size8 bit =? wid)%nat then
    res ← set_bits8 base 0 (fun _ => Some scalar_hiz) (vec8_new vwid);
    res ← set_bits8 (Nat.min wid (vwid - base)) base (value8 bit) res;
    set_bits8 (vwid - (base + wid)) (base + wid) (fun _ => Some scalar_hiz) res
  else None.

(** * Counting drivers *)

Definition tri_count_drivers (bit_idx : nat) (st : resolver vvp_vector8_t) (counts : nat * nat * nat) : option (nat * nat * nat) :=
  fold_left (fun c v => c ← c; x ← value8 v bit_idx; Some (update_driver_counts (scalar_value x) c))
    (driven st) (Some counts).


Definition wired_count_drivers (f : vvp_bit4_t -> vvp_bit4_t -> vvp_bit4_t) (bit_idx : nat) (st : resolver vvp_vector4_t) (counts : nat * nat * nat) : nat * nat * nat :=
  fold_left (fun c v => update_driver_counts (value v bit_idx) c) (@driven _ (node4 f) st) counts.

(** * More ports *)

(** [resolv_extend]: a node with four more ports of a resolver, from [port_base_] on. *)
Definition extend_tri_recv_vec8 (port_base_ : nat) (hiz_value_ : vvp_scalar_t) (port : nat) :=
  tri_recv_vec8 hiz_value_ (port_base_ + port).
Definition extend_wired_recv_vec4 (port_base_ : nat) (f : vvp_bit4_t -> vvp_bit4_t -> vvp_bit4_t) (port : nat) :=
  wired_recv_vec4 f (port_base_ + port).

(** The parts that arrive at a resolver. *)
Definition tri_recv_vec4_pv (hiz_value_ : vvp_scalar_t) (port : nat) (bit : vvp_vector4_t) (base wid vwid : nat) (st : resolver vvp_vector8_t) :=
  res ← part_vec4 bit base wid vwid; tri_recv_vec4 hiz_value_ port res st.
Definition tri_recv_vec8_pv (hiz_value_ : vvp_scalar_t) (port : nat) (bit : vvp_vector8_t) (base wid vwid : nat) (st : resolver vvp_vector8_t) :=
  res ← part_vec8 bit base wid vwid; tri_recv_vec8 hiz_value_ port res st.
Definition wired_recv_vec4_pv (f : vvp_bit4_t -> vvp_bit4_t -> vvp_bit4_t) (port : nat) (bit : vvp_vector4_t) (base wid vwid : nat) (st : resolver vvp_vector4_t) :=
  res ← part_vec4 bit base wid vwid; wired_recv_vec4 f port res st.
Definition wired_recv_vec8_pv (f : vvp_bit4_t -> vvp_bit4_t -> vvp_bit4_t) (port : nat) (bit : vvp_vector8_t) (base wid vwid : nat) (st : resolver vvp_vector4_t) :=
  res ← part_vec8 bit base wid vwid; wired_recv_vec8 f port res st.
