(* ===== verification/ResolverSpec.v ===== *)
(** The tree of a resolver computes the resolution of all its drivers: against any values with
    an associative resolution, the array is consistent after every change and its root is the
    resolution of the drivers in the order of their ports. *)
From S2P Require Import Prelude MachineWord VvpBit VvpVector4 VvpSlice VvpArith VvpStrength Resolver.

From Stdlib Require Import ZifyNat.

#[local] Ltac Zify.zify_post_hook ::= Z.div_mod_to_equations.

(** * Folds of drivers *)

Section Fold.
Context {X : Type} (j : X -> X -> X) (good : X -> Prop) (n : nat).
Context (j_good : forall x y, good x -> good y -> good (j x y)).
Context (j_assoc : forall x y z, good x -> good y -> good z -> j x (j y z) = j (j x y) z).

(** Two drivers; the empty list is a port that is not driven. *)
Definition dj (l r : list X) : list X :=
  match l, r with [], _ => r | _, [] => l | _, _ => zip_with j l r end.

Definition dfold (ds : list (list X)) : list X := fold_left dj ds [].

Definition valid (d : list X) : Prop := (d = [] \/ length d = n) /\ Forall good d.

Lemma valid_nil : valid []. Proof. split; [by left|constructor]. Qed.

Lemma dj_nil_r l : dj l [] = l. Proof. by destruct l. Qed.

Lemma zip_good l r : Forall good l -> Forall good r -> Forall good (zip_with j l r).
Proof using j_good.
  intros Hl. revert r. induction Hl as [|x l Hx Hl IH]; intros [|y r] Hr; cbn; try constructor; inversion_clear Hr; auto.
Qed.

Lemma dj_zip l r : length l = length r -> dj l r = zip_with j l r.
Proof. by destruct l, r. Qed.

Lemma dj_valid l r : valid l -> valid r -> valid (dj l r).
Proof using j_good.
  intros [Hl Gl] [Hr Gr]. destruct l as [|x l]; [by split|]. destruct r as [|y r]; [by rewrite dj_nil_r|].
  destruct Hl as [|Hl]; [done|]. destruct Hr as [|Hr]; [done|]. rewrite dj_zip by congruence.
  split; [right; rewrite length_zip_with; lia|by apply zip_good].
Qed.

Lemma zip_assoc l : forall r s, Forall good l -> Forall good r -> Forall good s -> length l = length r -> length r = length s ->
  zip_with j l (zip_with j r s) = zip_with j (zip_with j l r) s.
Proof using j_assoc.
  induction l as [|x l IH]; intros [|y r] [|z s] Hl Hr Hs E1 E2; try done. inversion_clear Hl. inversion_clear Hr. inversion_clear Hs.
  cbn. f_equal; [by apply j_assoc|]. apply IH; auto.
Qed.

Lemma dj_assoc l r s : valid l -> valid r -> valid s -> dj l (dj r s) = dj (dj l r) s.
Proof using j_assoc.
  intros [Hl Gl] [Hr Gr] [Hs Gs].
  destruct l as [|x l]; [done|]. destruct r as [|y r]; [by rewrite dj_nil_r|]. destruct s as [|z s]; [by rewrite !dj_nil_r|].
  destruct Hl as [|Hl], Hr as [|Hr], Hs as [|Hs]; try done.
  rewrite (dj_zip (y :: r) (z :: s)) by congruence. rewrite (dj_zip (x :: l) (y :: r)) by congruence. rewrite (dj_zip (x :: l)), (dj_zip (zip_with _ _ _)) by (rewrite length_zip_with; lia).
  apply zip_assoc; (done || lia).
Qed.

Lemma fold_from ds : Forall valid ds -> forall acc, valid acc -> valid (fold_left dj ds acc) /\ fold_left dj ds acc = dj acc (dfold ds).
Proof using j_good j_assoc.
  intros Hds. induction Hds as [|d ds Hd Hds IH]; intros acc Ha; cbn [fold_left]; [by rewrite dj_nil_r|].
  pose proof (dj_valid acc d Ha Hd) as Had. destruct (IH _ Had) as [V E]. split; [done|]. rewrite E.
  unfold dfold. cbn [fold_left]. destruct (IH _ (dj_valid [] d valid_nil Hd)) as [_ E']. rewrite E'. cbn [dj].
  symmetry. apply dj_assoc; [done|done|]. apply (IH [] valid_nil).
Qed.

Lemma dfold_valid ds : Forall valid ds -> valid (dfold ds).
Proof using j_good j_assoc. intros H. apply (fold_from ds H [] valid_nil). Qed.

Lemma dfold_app a b : Forall valid a -> Forall valid b -> dfold (a ++ b) = dj (dfold a) (dfold b).
Proof using j_good j_assoc.
  intros Ha Hb. unfold dfold at 1. rewrite fold_left_app. apply fold_from; [done|]. by apply dfold_valid.
Qed.

Lemma dfold_cons d ds : valid d -> Forall valid ds -> dfold (d :: ds) = dj d (dfold ds).
Proof using j_good j_assoc. intros Hd Hds. unfold dfold. cbn [fold_left dj]. by apply fold_from. Qed.

(** The order of the ports does not matter when the values commute. *)
Lemma dj_comm l r : (forall x y, good x -> good y -> j x y = j y x) -> valid l -> valid r -> dj l r = dj r l.
Proof using Type.
  intros HC [Hl Gl] [Hr Gr]. destruct l as [|x l]; [by rewrite dj_nil_r|]. destruct r as [|y r]; [done|].
  destruct Hl as [|Hl], Hr as [|Hr]; try done. rewrite !dj_zip by congruence. clear Hl Hr.
  revert Gl Gr. generalize (x :: l) (y :: r). intros u. induction u as [|a u IH]; intros [|b w] Gu Gw; try done.
  inversion_clear Gu. inversion_clear Gw. cbn. f_equal; [by apply HC|by apply IH].
Qed.

Lemma dfold_perm ds es : (forall x y, good x -> good y -> j x y = j y x) -> Forall valid ds -> ds ≡ₚ es -> dfold ds = dfold es.
Proof using j_good j_assoc.
  intros HC Hd HP. induction HP as [|d ds es HP IH|d e ds|ds es fs H1 IH1 H2 IH2].
  - done.
  - inversion_clear Hd. rewrite !dfold_cons by (done || by rewrite <- HP). by rewrite IH.
  - inversion_clear Hd as [|? ? ? Hd']. inversion_clear Hd'.
    rewrite !dfold_cons by (done || by constructor). rewrite !dj_assoc by (done || by apply dfold_valid).
    by rewrite (dj_comm d e).
  - rewrite IH1, IH2; [done|by rewrite <- H1|done].
Qed.

(** Resolution in groups. *)
Definition group (base span k : nat) (ds : list (list X)) : list (list X) :=
  take (Nat.min 4 (span - 4 * k)) (drop (base + 4 * k) ds).

Lemma dfold_groups base span ds m : Forall valid ds -> (base + span <= length ds)%nat ->
  dfold (map (fun k => dfold (group base span k ds)) (seq 0 m)) = dfold (take (Nat.min (4 * m) span) (drop base ds)).
Proof using j_good j_assoc.
  intros Hv Hl. induction m as [|m IH]; [done|]. rewrite seq_S, map_app, dfold_app, IH.
  - cbn [map Nat.add]. rewrite (dfold_cons _ []) by (try constructor; apply dfold_valid, Forall_take, Forall_drop, Hv).
    change (dfold []) with (@nil X). rewrite dj_nil_r. unfold group.
    rewrite <- dfold_app by (by apply Forall_take, Forall_drop). f_equal.
    destruct (Nat.le_gt_cases span (4 * m)) as [H|H].
    + replace (Nat.min 4 (span - 4 * m)) with 0%nat by lia. rewrite take_0, app_nil_r. f_equal. lia.
    + replace (Nat.min (4 * m) span) with (4 * m)%nat by lia. rewrite <- drop_drop. rewrite take_take_drop. f_equal. lia.
  - apply List.Forall_map, Forall_seq. intros k _. by apply dfold_valid, Forall_take, Forall_drop.
  - constructor; [|constructor]. by apply dfold_valid, Forall_take, Forall_drop.
Qed.
End Fold.

(** * The tree *)

(** The vectors of a resolver as lists: the laws the algorithm relies on. *)
Class NodeLaws (A X : Type) `{Node A} (j : X -> X -> X) (good : X -> Prop) (root_step : A -> option A)
    (bits : A -> list X) (wf : A -> Prop) (pulld : list X -> list X) : Prop := {
  law_good x y : good x -> good y -> good (j x y);
  law_assoc x y z : good x -> good y -> good z -> j x (j y z) = j (j x y) z;
  law_nil : wf node_nil /\ bits node_nil = [];
  law_size v : wf v -> node_size v = length (bits v);
  law_eeq a b : wf a -> wf b -> node_eeq a b = true <-> bits a = bits b;
  law_join a b : wf a -> wf b -> length (bits a) = length (bits b) ->
    exists c, node_join a b = Some c /\ wf c /\ bits c = zip_with j (bits a) (bits b);
  law_root v : wf v -> Forall good (bits v) -> exists r, root_step v = Some r /\ wf r /\ bits r = pulld (bits v);
  law_pull_length d : length (pulld d) = length d;
  law_pull_good d : Forall good d -> Forall good (pulld d);
  law_pull_twice d : Forall good d -> pulld (pulld d) = pulld d }.

Section Tree.
Context {A X : Type} {NA : Node A} (j : X -> X -> X) (good : X -> Prop) (root_step : A -> option A).
Context (bits : A -> list X) (wf : A -> Prop) (pulld : list X -> list X) (n : nat).
Context {NL : NodeLaws A X j good root_step bits wf pulld}.

Local Abbreviation valid := (valid good n).
Local Abbreviation dj := (dj j).
Local Abbreviation dfold := (dfold j).

Definition ok (v : A) : Prop := wf v /\ valid (bits v).

Lemma valid_pull d : valid d -> valid (pulld d).
Proof using NL.
  intros [Hl Hg]. split; [|by eapply law_pull_good]. pose proof (law_pull_length d) as E.
  destruct Hl as [->|Hl]; [left; by apply length_zero_iff_nil|right; congruence].
Qed.

Lemma valid_fold ds : Forall valid ds -> valid (dfold ds).
Proof using NL. apply dfold_valid; [exact law_good|exact law_assoc]. Qed.

Lemma gather_spec cnt : forall ip val out,
  Forall ok val -> ok out -> (ip + cnt <= length val)%nat ->
  exists r, gather cnt ip val out = Some r /\ ok r /\ bits r = fold_left dj (take cnt (drop ip (map bits val))) (bits out).
Proof using NL.
  induction cnt as [|c IH]; intros ip val out Hval Ho Hl; cbn [gather]; [by exists out|].
  destruct (lookup_lt_is_Some_2 val ip ltac:(lia)) as [v Ev]. rewrite Ev. cbn [mbind option_bind].
  assert (Em : map bits val !! ip = Some (bits v)) by (by rewrite list_lookup_fmap, Ev).
  rewrite (drop_S _ _ _ Em). cbn [take fold_left]. rewrite Nat.add_1_r.
  pose proof (Forall_lookup_1 _ _ _ _ Hval Ev) as [Wv Vv]. destruct (Ho) as [Wo Vo]. rewrite !law_size by done.
  destruct (Nat.eqb_spec (length (bits v)) 0) as [E0|E0].
  { apply length_zero_iff_nil in E0. rewrite E0, dj_nil_r. apply IH; (done || lia). }
  destruct (Nat.eqb_spec (length (bits out)) 0) as [E1|E1].
  { apply length_zero_iff_nil in E1. rewrite E1. change (dj [] (bits v)) with (bits v). apply IH; (done || lia). }
  assert (El : length (bits out) = length (bits v)).
  { destruct Vv as [[Ev0|Ev0] _]; [by rewrite Ev0 in E0|]. destruct Vo as [[Eo0|Eo0] _]; [by rewrite Eo0 in E1|]. congruence. }
  destruct (law_join out v Wo Wv El) as (c' & -> & Wc & Bc). cbn [mbind option_bind].
  rewrite dj_zip, <- Bc by done. apply IH; [done| |lia]. split; [done|]. rewrite Bc, <- dj_zip by done.
  apply dj_valid; [exact law_good|done|done].
Qed.

(** The value of branch node [k] of the level at [base] with [span] nodes; the root is pulled. *)
Definition want (base span k : nat) (ds : list (list X)) : list X :=
  let g := dfold (group base span k ds) in if ((span + 3) / 4 =? 1)%nat then pulld g else g.

Fixpoint tree_ok (fuel base span : nat) (ds : list (list X)) : Prop :=
  match fuel with
  | O => True
  | S f =>
      (1 < span)%nat ->
      (forall k, (k < (span + 3) / 4)%nat -> ds !! (base + span + k)%nat = Some (want base span k ds)) /\
      tree_ok f (base + span) ((span + 3) / 4) ds
  end.

(** The place of the root and the end of the array. *)
Fixpoint root_of (fuel base span : nat) : nat :=
  match fuel with
  | O => base
  | S f => if (1 <? span)%nat then root_of f (base + span) ((span + 3) / 4) else base
  end.

Lemma span_down span : (1 < span)%nat ->
  (0 < (span + 3) / 4 < span)%nat /\ (span <= 4 * ((span + 3) / 4))%nat.
Proof using. intros H. lia. Qed.

Lemma root_ge fuel : forall base span, (base <= root_of fuel base span)%nat.
Proof using. induction fuel as [|f IH]; intros base span; cbn [root_of]; [lia|]. case_cmp; [|lia]. specialize (IH (base + span)%nat ((span + 3) / 4)%nat). lia. Qed.

Lemma root_gt fuel base span : (1 < span)%nat -> (span <= fuel)%nat -> (base + span <= root_of fuel base span)%nat.
Proof using. intros H Hf. destruct fuel as [|f]; [lia|]. cbn [root_of]. rewrite (proj2 (Nat.ltb_lt _ _)) by done. apply root_ge. Qed.

Lemma group_below base span k (ds : list (list X)) i x : (i < base + 4 * k)%nat \/ (base + 4 * k + 4 <= i)%nat \/ (base + span <= i)%nat ->
  group base span k (<[i := x]> ds) = group base span k ds.
Proof using.
  intros Hi. unfold group. apply list_eq. intros m. destruct (Nat.lt_ge_cases m (Nat.min 4 (span - 4 * k))) as [Hm|Hm].
  - rewrite !lookup_take_lt, !lookup_drop by done. apply list_lookup_insert_ne. lia.
  - by rewrite !lookup_take_ge.
Qed.

Lemma want_below base span k (ds : list (list X)) i x : (i < base + 4 * k)%nat \/ (base + 4 * k + 4 <= i)%nat \/ (base + span <= i)%nat ->
  want base span k (<[i := x]> ds) = want base span k ds.
Proof using. intros Hi. unfold want. by rewrite group_below. Qed.

Lemma tree_ok_below fuel : forall base span (ds : list (list X)) i x, (i < base)%nat -> tree_ok fuel base span (<[i := x]> ds) <-> tree_ok fuel base span ds.
Proof using.
  induction fuel as [|f IH]; intros base span ds i x Hi; cbn [tree_ok]; [done|].
  assert (HE : forall k, (<[i := x]> ds !! (base + span + k)%nat = Some (want base span k (<[i := x]> ds))) <->
    ds !! (base + span + k)%nat = Some (want base span k ds)).
  { intros k. rewrite list_lookup_insert_ne, want_below by lia. done. }
  split; intros Ht Hs; specialize (Ht Hs) as [H1 H2].
  - split; [intros k Hk; apply HE; auto|]. apply (IH (base + span)%nat _ ds i x); [lia|done].
  - split; [intros k Hk; apply HE; auto|]. apply (IH (base + span)%nat _ ds i x); [lia|done].
Qed.

(** The array is long enough for the tree. *)
Fixpoint fits (fuel base span len : nat) : Prop :=
  match fuel with
  | O => (base + span <= len)%nat
  | S f => (base + span <= len)%nat /\ ((1 < span)%nat -> fits f (base + span) ((span + 3) / 4) len)
  end.

Lemma fits_here fuel base span len : fits fuel base span len -> (base + span <= len)%nat.
Proof using. destruct fuel; cbn; tauto. Qed.

Lemma fits_root fuel : forall base span len, fits fuel base span len -> (0 < span)%nat -> (root_of fuel base span < len)%nat.
Proof using.
  induction fuel as [|f IH]; intros base span len Hf Hs; cbn [root_of fits] in *; [lia|]. destruct Hf as [H1 H2].
  destruct (Nat.ltb_spec 1 span); [|lia]. apply IH; [auto|lia].
Qed.

(** One branch node recomputed. *)
Lemma recompute base span k val :
  Forall ok val -> (k < (span + 3) / 4)%nat -> (base + span <= length val)%nat -> (1 < span)%nat ->
  let ip := (base + 4 * k)%nat in
  exists first out, val !! ip = Some first /\
    gather (Nat.min (ip + 4) (base + span) - (ip + 1)) (ip + 1) val first = Some out /\
    ok out /\ bits out = dfold (group base span k (map bits val)).
Proof using NL.
  intros Hval Hk Hl Hs ip. assert (Hip : (ip < base + span)%nat) by (unfold ip; lia).
  destruct (lookup_lt_is_Some_2 val ip ltac:(lia)) as [first Ef].
  pose proof (Forall_lookup_1 _ _ _ _ Hval Ef) as Hfirst. set (c := (Nat.min (ip + 4) (base + span) - (ip + 1))%nat).
  destruct (gather_spec c (ip + 1) val first Hval Hfirst ltac:(unfold c; lia)) as (out & Eo & Ho & Bo).
  exists first, out. split_and!; [done|done|done|]. rewrite Bo. unfold group. fold ip.
  replace (Nat.min 4 (span - 4 * k)) with (S c) by (unfold c, ip; lia).
  assert (Em : map bits val !! ip = Some (bits first)) by (by rewrite list_lookup_fmap, Ef).
  rewrite (drop_S _ _ _ Em). cbn [take]. by rewrite Nat.add_1_r.
Qed.

(** What the loop leaves: the levels above are untouched, and the tree is consistent once the
    root that it returns is pulled. *)
Definition loop_post (fuel base span : nat) (ds ds' : list (list X)) (o : option nat) : Prop :=
  length ds' = length ds /\ (forall i, (i < base + span)%nat -> ds' !! i = ds !! i) /\
  match o with
  | None => (1 < span)%nat /\ tree_ok fuel base span ds' /\ ds' !! root_of fuel base span = ds !! root_of fuel base span
  | Some b => b = root_of fuel base span /\
      forall r, ds' !! b = Some r -> tree_ok fuel base span (<[b := pulld r]> ds')
  end.

Lemma resolve_loop_spec fuel : forall base span port val,
  let ds := map bits val in
  Forall ok val -> (span <= fuel)%nat -> (port < span)%nat -> fits fuel base span (length val) ->
  ((1 < span)%nat ->
    (forall k, (k < (span + 3) / 4)%nat -> k <> (port / 4)%nat -> ds !! (base + span + k)%nat = Some (want base span k ds)) /\
    tree_ok (fuel - 1) (base + span) ((span + 3) / 4) ds /\
    (forall d, ds !! root_of fuel base span = Some d -> pulld d = d)) ->
  exists val' o, resolve_loop fuel base span port val = Some (val', o) /\ Forall ok val' /\
    loop_post fuel base span ds (map bits val') o.
Proof using NL.
  induction fuel as [|f IH]; intros base span port val ds Hval Hf Hp Hfit Hyp; [lia|]. cbn [resolve_loop].
  destruct (Nat.ltb_spec 1 span) as [Hs|Hs].
  2:{ exists val, (Some base). split_and!; [done|done|]. unfold loop_post. cbn [root_of tree_ok].
      rewrite (proj2 (Nat.ltb_ge _ _)) by lia. split_and!; try done. intros r _ H1. lia. }
  specialize (Hyp Hs) as (H1 & H2 & H3). cbn [fits] in Hfit. destruct Hfit as [F1 F2]. specialize (F2 Hs).
  replace (S f - 1)%nat with f in H2 by lia. set (span' := ((span + 3) / 4)%nat) in *. set (p := (port / 4)%nat) in *.
  assert (Hp' : (p < span')%nat) by (unfold p, span'; lia).
  destruct (recompute base span p val Hval Hp' F1 Hs) as (first & out & E1 & E2 & Hout & Bout). cbv zeta. rewrite E1. cbn [mbind option_bind].
  rewrite E2. cbn [mbind option_bind]. fold ds in Bout.
  pose proof (fits_here _ _ _ _ F2) as F3.
  destruct (lookup_lt_is_Some_2 val (base + span + p) ltac:(lia)) as [old Eold]. rewrite Eold. cbn [mbind option_bind].
  pose proof (Forall_lookup_1 _ _ _ _ Hval Eold) as Hold.
  assert (Ds : ds !! (base + span + p)%nat = Some (bits old)) by (unfold ds; by rewrite list_lookup_fmap, Eold).
  destruct (node_eeq old out) eqn:Ee.
  - apply (law_eeq (NodeLaws := NL)) in Ee; [|apply Hold|apply Hout]. exists val, None. split_and!; [done|done|].
    unfold loop_post. split_and!; [done|done|done| |done]. cbn [tree_ok]. intros _. fold span' ds. split; [|done].
    intros k Hk. destruct (Nat.eq_dec k p) as [->|Hne]; [|by apply H1]. rewrite Ds. f_equal. rewrite Ee, Bout. unfold want. fold span'.
    destruct (Nat.eqb_spec span' 1) as [E|]; [|done]. rewrite <- Bout, <- Ee. symmetry. apply H3.
    cbn [root_of]. rewrite (proj2 (Nat.ltb_lt _ _)) by done. fold span'. destruct f as [|f']; cbn [root_of].
    + replace (base + span)%nat with (base + span + p)%nat by lia. done.
    + rewrite E. replace (base + span)%nat with (base + span + p)%nat by lia. done.
  - set (val1 := <[(base + span + p)%nat := out]> val).
    assert (M1 : map bits val1 = <[(base + span + p)%nat := dfold (group base span p ds)]> ds).
    { unfold val1, ds. rewrite list_fmap_insert. by rewrite Bout. }
    assert (Hval1 : Forall ok val1) by (by apply Forall_insert).
    destruct (IH (base + span)%nat span' p val1) as (val' & o & E & Hv' & HP); [done|unfold span'; lia|done|by unfold val1; rewrite length_insert| |].
    { intros Hs'. rewrite M1. split_and!.
      - intros k Hk Hne. rewrite list_lookup_insert_ne, want_below by lia. destruct f as [|f']; [lia|]. cbn [tree_ok] in H2. by apply H2.
      - apply tree_ok_below; [lia|]. destruct f as [|f']; [lia|]. cbn [tree_ok] in H2. cbn [Nat.sub]. rewrite Nat.sub_0_r. by apply H2.
      - intros d. pose proof (root_gt f (base + span) span' Hs' ltac:(lia)). rewrite list_lookup_insert_ne by lia. intros Hd. apply H3.
        cbn [root_of]. by rewrite (proj2 (Nat.ltb_lt _ _)). }
    exists val', o. split_and!; [done|done|]. destruct HP as (L' & A' & P'). rewrite M1 in *. rewrite length_insert in L'.
    unfold loop_post. cbn [root_of]. rewrite (proj2 (Nat.ltb_lt _ _)) by done. fold span'.
    assert (Below : forall i, (i < base + span)%nat -> map bits val' !! i = ds !! i).
    { intros i Hi. rewrite A' by lia. apply list_lookup_insert_ne. lia. }
    assert (Grp : forall k, (k < span')%nat -> want base span k (map bits val') = want base span k ds).
    { intros k Hk. unfold want, group. replace (take (Nat.min 4 (span - 4 * k)) (drop (base + 4 * k) (map bits val')))
        with (take (Nat.min 4 (span - 4 * k)) (drop (base + 4 * k) ds)); [done|]. apply list_eq. intros m.
      destruct (Nat.lt_ge_cases m (Nat.min 4 (span - 4 * k))); [|by rewrite !lookup_take_ge].
      rewrite !lookup_take_lt, !lookup_drop by done. symmetry. apply Below. lia. }
    assert (Lvl : forall k, (k < span')%nat -> map bits val' !! (base + span + k)%nat =
        Some (if (k =? p)%nat then dfold (group base span p ds) else want base span k ds)).
    { intros k Hk. rewrite A' by lia. destruct (Nat.eqb_spec k p) as [->|Hne].
      - apply list_lookup_insert_eq. unfold ds. rewrite length_map. lia.
      - rewrite list_lookup_insert_ne by lia. by apply H1. }
    split_and!; [done|exact Below|]. destruct o as [b|].
    + destruct P' as [-> P']. split; [done|]. intros r Hr. cbn [tree_ok]. intros _. fold span'. split; [|by apply P'].
      intros k Hk. destruct (Nat.lt_ge_cases 1 span') as [Hs'|Hs'].
      * pose proof (root_gt f (base + span) span' Hs' ltac:(lia)). rewrite list_lookup_insert_ne, want_below, Grp, Lvl by lia.
        destruct (Nat.eqb_spec k p) as [->|]; [|done]. unfold want. fold span'. by rewrite (proj2 (Nat.eqb_neq _ _)) by lia.
      * assert (Er : root_of f (base + span) span' = (base + span)%nat).
        { destruct f; cbn [root_of]; [done|]. by rewrite (proj2 (Nat.ltb_ge _ _)) by lia. }
        rewrite Er in *. replace (base + span + k)%nat with (base + span)%nat by lia.
        rewrite list_lookup_insert_eq by (rewrite L'; unfold ds; rewrite length_map; lia).
        rewrite want_below, Grp by lia. replace k with p by lia. unfold want. fold span'. rewrite (proj2 (Nat.eqb_eq _ _)) by lia.
        specialize (Lvl 0%nat ltac:(lia)). rewrite Nat.add_0_r, Hr, (proj2 (Nat.eqb_eq 0 p)) in Lvl by lia. congruence.
    + destruct P' as (Hs' & P1 & P2). split_and!; [done| |].
      * cbn [tree_ok]. intros _. fold span'. split; [|done]. intros k Hk. rewrite Lvl, Grp by done.
        destruct (Nat.eqb_spec k p) as [->|]; [|done]. unfold want. fold span'. by rewrite (proj2 (Nat.eqb_neq _ _)) by lia.
      * rewrite P2. pose proof (root_gt f (base + span) span' Hs' ltac:(lia)). apply list_lookup_insert_ne. lia.
Qed.

(** A consistent tree resolves the nodes of its first level. *)
Lemma tree_root fuel : forall base span ds,
  Forall valid ds -> (1 < span)%nat -> (span <= fuel)%nat -> (base + span <= length ds)%nat -> tree_ok fuel base span ds ->
  ds !! root_of fuel base span = Some (pulld (dfold (take span (drop base ds)))).
Proof using NL.
  induction fuel as [|f IH]; intros base span ds Hv Hs Hf Hl Ht; [lia|]. cbn [tree_ok root_of] in *. specialize (Ht Hs) as [H1 H2].
  rewrite (proj2 (Nat.ltb_lt _ _)) by done. set (span' := ((span + 3) / 4)%nat) in *.
  destruct (Nat.lt_ge_cases 1 span') as [Hs'|Hs'].
  - assert (Hl' : (base + span + span' <= length ds)%nat).
    { apply Nat.nlt_ge. intros Hlt. specialize (H1 (length ds - (base + span))%nat ltac:(lia)).
      rewrite lookup_ge_None_2 in H1 by lia. done. }
    rewrite IH; [|done|done|unfold span' in *; lia|lia|done]. do 2 f_equal.
    assert (Elev : take span' (drop (base + span) ds) = map (fun k => dfold (group base span k ds)) (seq 0 span')).
    { apply list_eq. intros k. destruct (Nat.lt_ge_cases k span') as [Hk|Hk].
      - rewrite lookup_take_lt, lookup_drop, H1 by done. rewrite list_lookup_fmap, lookup_seq_lt by done. cbn. f_equal.
        unfold want. fold span'. by rewrite (proj2 (Nat.eqb_neq _ _)) by lia.
      - rewrite lookup_take_ge by done. symmetry. apply lookup_ge_None_2. by rewrite length_map, length_seq. }
    rewrite Elev, (dfold_groups j good n law_good law_assoc) by done. f_equal. f_equal. unfold span'. lia.
  - assert (E1 : span' = 1%nat) by (unfold span' in *; lia). assert (Er : root_of f (base + span) span' = (base + span)%nat).
    { destruct f; cbn [root_of]; [done|]. by rewrite (proj2 (Nat.ltb_ge _ _)) by lia. }
    rewrite Er. specialize (H1 0%nat ltac:(lia)). rewrite Nat.add_0_r in H1. rewrite H1. unfold want. fold span'. rewrite E1. cbn [Nat.eqb].
    do 3 f_equal. unfold group. rewrite Nat.mul_0_r, Nat.add_0_r, Nat.sub_0_r. f_equal. unfold span' in *. lia.
Qed.

(** * The resolver *)

(** The nodes of a tree with [span] drivers. *)
Fixpoint total (fuel span : nat) : nat :=
  match fuel with
  | O => span
  | S f => (span + if (1 <? span)%nat then total f ((span + 3) / 4) else 0)%nat
  end.

Lemma total_fits fuel : forall base span len, (base + total fuel span <= len)%nat -> fits fuel base span len.
Proof using.
  induction fuel as [|f IH]; intros base span len H; cbn [total fits] in *; [lia|]. split; [lia|].
  intros Hs. rewrite (proj2 (Nat.ltb_lt _ _)) in H by done. apply IH. lia.
Qed.

Lemma total_branches fuel : forall span, (1 < span <= fuel)%nat -> total fuel span = (span + branch_nodes fuel span + 1)%nat.
Proof using.
  induction fuel as [|f IH]; intros span [H1 H2]; [lia|]. cbn [total branch_nodes]. rewrite (proj2 (Nat.ltb_lt 1 span)) by done.
  destruct (Nat.ltb_spec 4 span) as [H4|H4]; [rewrite IH; lia|].
  replace ((span + 3) / 4)%nat with 1%nat by lia. destruct f; cbn [total Nat.ltb Nat.leb]; lia.
Qed.

Lemma nnodes_fits nports : (0 < nports)%nat -> fits nports 0 nports (nnodes nports).
Proof using.
  intros Hp. apply total_fits. unfold nnodes. destruct (Nat.eq_dec nports 1%nat) as [->|Hne]; [cbn; lia|].
  rewrite total_branches by lia. rewrite (proj2 (Nat.ltb_lt _ _)) by lia. lia.
Qed.

Lemma dfold_nils ds : Forall (fun d => d = []) ds -> dfold ds = [].
Proof using. induction 1 as [|d ds -> Hds IH]; [done|]. exact IH. Qed.

Lemma pulld_nil : pulld [] = [].
Proof using NL. apply length_zero_iff_nil. by rewrite law_pull_length. Qed.

Lemma tree_ok_new fuel : forall base span len, (span <= fuel)%nat -> fits fuel base span len -> tree_ok fuel base span (replicate len []).
Proof using NL.
  induction fuel as [|f IH]; intros base span len Hf Hfit; cbn [tree_ok fits] in *; [done|]. intros Hs. destruct Hfit as [_ Hfit].
  specialize (Hfit Hs). split; [|apply IH; (done || lia)]. intros k Hk. pose proof (fits_here _ _ _ _ Hfit).
  rewrite lookup_replicate_2 by lia. f_equal. unfold want. rewrite dfold_nils.
  - case_match; [by rewrite pulld_nil|done].
  - unfold group. apply Forall_take, Forall_drop, Forall_replicate. done.
Qed.

(** The state of a resolver whose ports hold the drivers [ds]. *)
Record holds_drivers (st : resolver A) (ds : list (list X)) : Prop := {
  hd_pos : (0 < nports_ st)%nat;
  hd_len : length ds = nports_ st;
  hd_drivers : Forall valid ds;
  hd_ok : Forall ok (val_ st);
  hd_fits : fits (nports_ st) 0 (nports_ st) (length (val_ st));
  hd_tree : tree_ok (nports_ st) 0 (nports_ st) (map bits (val_ st));
  hd_leaves : if (nports_ st =? 1)%nat then map bits (val_ st) !! 0%nat = pulld <$> ds !! 0%nat
              else take (nports_ st) (map bits (val_ st)) = ds }.

(** What the resolver puts on the net. *)
Definition resolution (ds : list (list X)) : list X := pulld (dfold ds).

Lemma ok_valid val : Forall ok val -> Forall valid (map bits val).
Proof using. intros H. apply List.Forall_map. eapply List.Forall_impl; [|exact H]. by intros v []. Qed.

Lemma one_driver (ds : list (list X)) : length ds = 1%nat -> exists d, ds = [d].
Proof using. destruct ds as [|d [|]]; try done. by exists d. Qed.

Lemma holds_root st ds : holds_drivers st ds ->
  map bits (val_ st) !! root_of (nports_ st) 0 (nports_ st) = Some (resolution ds).
Proof using NL.
  intros []. destruct (Nat.eqb_spec (nports_ st) 1) as [E|E].
  - rewrite E in *. cbn [root_of]. destruct (one_driver ds hd_len0) as [d ->]. cbn [Nat.ltb Nat.leb].
    rewrite hd_leaves0. done.
  - rewrite (tree_root (nports_ st) 0 (nports_ st)); [|by apply ok_valid|lia|lia| |done].
    + by rewrite drop_0, hd_leaves0.
    + rewrite length_map. by apply (fits_here (nports_ st)).
Qed.

Lemma resolver_new_holds nports : (0 < nports)%nat -> holds_drivers (resolver_new nports) (replicate nports []).
Proof using NL.
  intros Hp. pose proof (nnodes_fits nports Hp) as HF. destruct (law_nil (NodeLaws := NL)) as [W0 B0].
  assert (EM : map bits (val_ (resolver_new nports)) = replicate (nnodes nports) []).
  { unfold resolver_new. cbn [val_]. rewrite fmap_replicate. by rewrite B0. }
  split; rewrite ?EM; cbn [nports_ val_ resolver_new].
  - done.
  - apply length_replicate.
  - apply Forall_replicate. apply valid_nil.
  - apply Forall_replicate. split; [done|]. rewrite B0. apply valid_nil.
  - by rewrite length_replicate.
  - by apply tree_ok_new.
  - pose proof (fits_here _ _ _ _ HF). case_match eqn:E.
    + apply Nat.eqb_eq in E as ->. rewrite lookup_replicate_2 by lia. cbn. by rewrite pulld_nil.
    + rewrite take_replicate. f_equal. lia.
Qed.

Lemma tree_ok_leaf fuel span port ds x : (port < span)%nat -> (0 < fuel)%nat -> tree_ok fuel 0 span ds ->
  (1 < span)%nat ->
  (forall k, (k < (span + 3) / 4)%nat -> k <> (port / 4)%nat -> <[port := x]> ds !! (0 + span + k)%nat = Some (want 0 span k (<[port := x]> ds))) /\
  tree_ok (fuel - 1) (0 + span) ((span + 3) / 4) (<[port := x]> ds).
Proof using.
  intros Hp Hf Ht Hs. destruct fuel as [|fuel]; [lia|]. replace (S fuel - 1)%nat with fuel by lia. cbn [tree_ok] in Ht. specialize (Ht Hs) as [H1 H2]. split.
  - intros k Hk Hne. rewrite list_lookup_insert_ne, want_below by lia. by apply H1.
  - apply tree_ok_below; [lia|done].
Qed.

Lemma same_leaf st ds port cur bit : holds_drivers st ds -> (port < nports_ st)%nat ->
  val_ st !! port = Some cur -> bits cur = bits bit -> valid (bits bit) ->
  holds_drivers st (<[port := bits bit]> ds) /\ resolution (<[port := bits bit]> ds) = resolution ds.
Proof using NL.
  intros Hst Hp Ec Eb Hv. destruct (Hst) as [P1 P2 P3 P4 P5 P6 P7]. destruct (Nat.eqb_spec (nports_ st) 1) as [E|E].
  - destruct (one_driver ds ltac:(lia)) as [d ->]. assert (port = 0%nat) as -> by lia. cbn [insert list_insert].
    inversion_clear P3 as [|? ? [Vd Gd] _].
    assert (ED : bits bit = pulld d).
    { rewrite list_lookup_fmap, Ec in P7. cbn in P7. rewrite <- Eb. congruence. }
    split; [split; try done|].
    + by constructor.
    + rewrite (proj2 (Nat.eqb_eq _ _) E), P7. cbn. by rewrite ED, law_pull_twice.
    + unfold resolution. cbn. by rewrite ED, law_pull_twice.
  - assert (ED : <[port := bits bit]> ds = ds); [|by rewrite ED]. apply list_insert_id. rewrite <- P7, lookup_take_lt by done.
    by rewrite list_lookup_fmap, Ec, <- Eb.
Qed.

Lemma resolution_stable ds : Forall valid ds -> pulld (resolution ds) = resolution ds.
Proof using NL. intros H. unfold resolution. eapply law_pull_twice. by apply valid_fold. Qed.

Theorem resolver_recv_spec st ds port bit :
  holds_drivers st ds -> (port < nports_ st)%nat -> wf bit -> valid (bits bit) ->
  exists st' o, resolver_recv root_step port bit st = Some (st', o) /\
    holds_drivers st' (<[port := bits bit]> ds) /\ nports_ st' = nports_ st /\
    match o with
    | Some v => ok v /\ bits v = resolution (<[port := bits bit]> ds)
    | None => resolution (<[port := bits bit]> ds) = resolution ds
    end.
Proof using NL.
  intros Hst Hp Wb Vb. unfold resolver_recv. rewrite (proj2 (Nat.ltb_lt _ _)) by done.
  destruct (Hst) as [P1 P2 P3 P4 P5 P6 P7]. set (np := nports_ st) in *. pose proof (fits_here _ _ _ _ P5) as PL.
  destruct (lookup_lt_is_Some_2 (val_ st) port ltac:(lia)) as [cur Ec]. rewrite Ec. cbn [mbind option_bind].
  pose proof (Forall_lookup_1 _ _ _ _ P4 Ec) as [Wc Vc].
  destruct (node_eeq cur bit) eqn:Ee.
  { apply (law_eeq (NodeLaws := NL)) in Ee; [|done|done]. exists st, None. split; [done|].
    destruct (same_leaf st ds port cur bit Hst Hp Ec Ee Vb) as [H1 H2]. by split_and!. }
  set (val1 := <[port := bit]> (val_ st)). set (d1 := <[port := bits bit]> ds).
  assert (M1 : map bits val1 = <[port := bits bit]> (map bits (val_ st))) by (unfold val1; apply list_fmap_insert).
  assert (O1 : Forall ok val1) by (by apply Forall_insert).
  assert (D1 : Forall valid d1) by (by apply Forall_insert).
  destruct (resolve_loop_spec np 0 np port val1 O1 (le_n _) Hp) as (val' & o & El & O' & HP).
  { unfold val1. by rewrite length_insert. }
  { intros Hs. rewrite M1. destruct (tree_ok_leaf np np port _ (bits bit) Hp ltac:(lia) P6 Hs) as [T1 T2]. split_and!; [exact T1|exact T2|]. intros d.
    pose proof (root_gt np 0 np Hs (le_n _)). rewrite list_lookup_insert_ne by lia. intros Hd.
    pose proof (holds_root st ds Hst) as HR. fold np in HR. rewrite HR in Hd. injection Hd as <-. by apply resolution_stable. }
  rewrite El. cbn [mbind option_bind]. destruct HP as (L' & A' & HP). rewrite M1 in *. rewrite length_insert, !length_map in L'.
  assert (Leaves : np <> 1%nat -> take np (map bits val') = d1).
  { intros Hne. rewrite (proj2 (Nat.eqb_neq _ _)) in P7 by done. unfold d1. rewrite <- P7, <- take_insert_lt by done.
    apply list_eq. intros i. destruct (Nat.lt_ge_cases i np); [|by rewrite !lookup_take_ge]. rewrite !lookup_take_lt by done. apply A'. lia. }
  destruct o as [b|].
  - destruct HP as [-> HP]. pose proof (fits_root _ _ _ _ P5 ltac:(lia)) as HB. set (b := root_of np 0 np) in *.
    destruct (lookup_lt_is_Some_2 val' b ltac:(lia)) as [out Eo]. rewrite Eo. cbn [mbind option_bind].
    pose proof (Forall_lookup_1 _ _ _ _ O' Eo) as [Wo Vo].
    destruct (law_root out Wo ltac:(apply Vo)) as (r & Er & Wr & Br). rewrite Er. cbn [mbind option_bind].
    assert (Or : ok r) by (split; [done|rewrite Br; by apply valid_pull]).
    assert (MB : map bits (<[b := r]> val') = <[b := pulld (bits out)]> (map bits val')) by (by rewrite list_fmap_insert, Br).
    assert (Hnew : holds_drivers (mkResolver np (<[b := r]> val')) d1).
    { split; cbn [nports_ val_]; rewrite ?MB; try done.
      - unfold d1. by rewrite length_insert.
      - by apply Forall_insert.
      - by rewrite length_insert, L'.
      - apply HP. by rewrite list_lookup_fmap, Eo.
      - destruct (Nat.eqb_spec np 1) as [E|E].
        + assert (E0 : b = 0%nat) by (unfold b; rewrite E; done). rewrite E0 in *.
          rewrite list_lookup_insert_eq by (rewrite length_map; lia). pose proof (A' 0%nat ltac:(lia)) as A0.
          assert (port = 0%nat) as -> by lia. rewrite list_lookup_fmap, Eo, list_lookup_insert_eq in A0 by (rewrite length_map; lia).
          cbn in A0. injection A0 as EA. unfold d1. by rewrite list_lookup_insert_eq, EA by lia.
        + pose proof (root_gt np 0 np ltac:(lia) (le_n _)). rewrite take_insert_ge by (unfold b; lia). by apply Leaves. }
    exists (mkResolver np (<[b := r]> val')), (Some r). split_and!; [done|done|done|done|].
    pose proof (holds_root _ _ Hnew) as HR. cbn [nports_ val_] in HR. fold b in HR. rewrite list_lookup_fmap, list_lookup_insert_eq in HR by lia.
    cbn in HR. congruence.
  - destruct HP as (Hs & HP & HQ).
    assert (Hnew : holds_drivers (mkResolver np val') d1).
    { split; cbn [nports_ val_]; try done.
      - unfold d1. by rewrite length_insert.
      - by rewrite L'.
      - rewrite (proj2 (Nat.eqb_neq _ _)) by lia. apply Leaves. lia. }
    exists (mkResolver np val'), None. split_and!; [done|done|done|].
    pose proof (holds_root _ _ Hnew) as HR. cbn [nports_ val_] in HR. pose proof (root_gt np 0 np Hs (le_n _)).
    rewrite HQ, list_lookup_insert_ne in HR by lia. pose proof (holds_root st ds Hst) as HR0. fold np in HR0. rewrite HR0 in HR.
    congruence.
Qed.

(** ** Sequences of drivers *)

Fixpoint resolver_run (xs : list (nat * A)) (st : resolver A) (sent : option A) : option (resolver A * option A) :=
  match xs with
  | [] => Some (st, sent)
  | (port, bit) :: xs =>
      '(st, o) ← resolver_recv root_step port bit st;
      resolver_run xs st (match o with Some v => Some v | None => sent end)
  end.

(** The drivers after the sequence. *)
Definition last_drivers (nports : nat) (xs : list (nat * A)) : list (list X) :=
  fold_left (fun ds '(port, bit) => <[port := bits bit]> ds) xs (replicate nports []).

Definition sent_is (sent : option A) (ds : list (list X)) : Prop :=
  match sent with Some v => bits v = resolution ds | None => resolution ds = [] end.

Lemma resolver_run_spec xs : forall st ds sent,
  holds_drivers st ds -> sent_is sent ds ->
  Forall (fun '(port, bit) => (port < nports_ st)%nat /\ wf bit /\ valid (bits bit)) xs ->
  exists st' sent', resolver_run xs st sent = Some (st', sent') /\
    let ds' := fold_left (fun ds '(port, bit) => <[port := bits bit]> ds) xs ds in
    holds_drivers st' ds' /\ sent_is sent' ds'.
Proof using NL.
  induction xs as [|[port bit] xs IH]; intros st ds sent Hst Hs Hxs; cbn [resolver_run fold_left]; [by exists st, sent|].
  inversion_clear Hxs as [|? ? Hx Hxs']. destruct Hx as (Hp & Wb & Vb).
  destruct (resolver_recv_spec st ds port bit Hst Hp Wb Vb) as (st' & o & -> & Hst' & Hn & Ho). cbn [mbind option_bind].
  apply IH; [done| |by rewrite Hn]. destruct o as [v|]; [by apply Ho|]. unfold sent_is in *. by destruct sent; rewrite Ho.
Qed.
End Tree.
