(* ===== verification/ResolverProps.v ===== *)
(** Strength resolution and the resolvers of nets. *)
From S2P Require Import Prelude MachineWord VvpBit VvpVector4 VvpSlice VvpArith VvpCompare BitList VThreadSpec VvpFunctor VThreadIndex VThreadMod.
From S2P Require Import VvpStrength StrengthSpec Resolver ResolverSpec.

(** * The vectors with strengths as nodes *)

Lemma vec8_is_bits v : wf8 v -> vec8_is v (bits8 v).
Proof. by split. Qed.

Lemma resolve8_is a b l r : vec8_is a l -> vec8_is b r -> length l = length r ->
  exists c, resolve8 a b = Some c /\ vec8_is c (zip_with resolve_scalar l r).
Proof.
  intros Ha Hb Hl. unfold resolve8. rewrite (vec8_is_size _ _ Ha), (vec8_is_size _ _ Hb), Hl, Nat.eqb_refl.
  apply set_all8_is; [rewrite length_zip_with; lia|]. intros i Hi.
  rewrite (value8_is _ _ i Ha), (value8_is _ _ i Hb).
  destruct (lookup_lt_is_Some_2 l i ltac:(lia)) as [x Ex]. destruct (lookup_lt_is_Some_2 r i ltac:(lia)) as [y Ey].
  rewrite Ex, Ey. cbn. symmetry. by apply lookup_zip_with_Some; eauto.
Qed.

(** The puller on a list. *)
Definition pulld (h : Z) (d : list Z) : list Z := if is_hiz h then d else map (fun x => resolve_scalar x h) d.

Lemma pull_is h v l : vec8_is v l -> exists r, pull h v = Some r /\ vec8_is r (pulld h l).
Proof.
  intros Hv. unfold pull, pulld. destruct (is_hiz h); [by exists v|]. rewrite (vec8_is_size _ _ Hv).
  destruct (set_bits8_is (fun idx => x ← value8 v idx; Some (resolve_scalar x h)) 0 (length l) (map (fun x => resolve_scalar x h) l) l v Hv)
    as (r & E & Hr); [lia|apply length_map| |].
  - intros i Hi. rewrite (value8_is _ _ i Hv), list_lookup_fmap. by destruct (l !! i).
  - exists r. split; [exact E|]. cbn [take app Nat.add] in Hr. by rewrite drop_ge, app_nil_r in Hr.
Qed.

Abbreviation plainP := (fun x => plain x = true).

#[export] Instance tri_laws h (Hh : plain h = true) :
  NodeLaws vvp_vector8_t Z resolve_scalar plainP (pull h) bits8 wf8 (pulld h).
Proof.
  split.
  - intros x y Hx Hy. by apply plain_pair.
  - intros x y z Hx Hy Hz. by apply plain_assoc.
  - destruct (vec8_new_is 0) as [H1 H2]. by split.
  - intros v Hv. apply vec8_is_size. by apply vec8_is_bits.
  - intros a b Ha Hb. cbn. rewrite (eeq8_is a b _ _ (vec8_is_bits a Ha) (vec8_is_bits b Hb)). apply bool_decide_eq_true.
  - intros a b Ha Hb Hl. destruct (resolve8_is a b _ _ (vec8_is_bits a Ha) (vec8_is_bits b Hb) Hl) as (c & E & Hc1 & Hc2). by exists c.
  - intros v Hv _. destruct (pull_is h v _ (vec8_is_bits v Hv)) as (r & E & Hr1 & Hr2). by exists r.
  - intros d. unfold pulld. destruct (is_hiz h); [done|apply length_map].
  - intros d Hd. unfold pulld. destruct (is_hiz h); [done|]. apply List.Forall_map. eapply List.Forall_impl; [|exact Hd].
    intros x Hx. by apply plain_pair.
  - intros d Hd. unfold pulld. destruct (is_hiz h); [done|]. rewrite map_map. induction Hd as [|x d Hx Hd IH]; [done|].
    cbn [map]. f_equal; [|exact IH]. rewrite <- plain_assoc by done. by rewrite (proj1 (plain_units h Hh)).
Qed.

(** * The wired logic of bits as nodes *)

Lemma wired_is f a b l r : vec_is a l -> vec_is b r -> length l = length r ->
  exists c, wired_logic_math_ f a b = Some c /\ vec_is c (zip_with f l r).
Proof.
  intros Ha Hb Hl. unfold wired_logic_math_. rewrite (vec_is_size _ _ Ha), (vec_is_size _ _ Hb), Hl, Nat.eqb_refl.
  destruct (vec4_fill_spec (length r) BIT4_X) as (Wf & Sf & _).
  destruct (set_bits_all (vec4_fill (length r) BIT4_X) (length r) (fun i => f (value a i) (value b i)) Wf Sf) as (c & E & Hc).
  exists c. split; [exact E|]. apply (bitwise_is _ _ _ _ Hc); [rewrite length_zip_with; lia|]. intros i Hi.
  rewrite (vec_is_value _ _ _ Ha), (vec_is_value _ _ _ Hb). rewrite nth_map2 by (done || lia). done.
Qed.

Definition wired_rule (f : vvp_bit4_t -> vvp_bit4_t -> vvp_bit4_t) : Prop := f = triand_bit \/ f = trior_bit.

Lemma wired_assoc f x y z : wired_rule f -> f x (f y z) = f (f x y) z.
Proof. intros [-> | ->]; by destruct x, y, z. Qed.

Lemma wired_comm f x y : wired_rule f -> f x y = f y x.
Proof. intros [-> | ->]; by destruct x, y. Qed.

Lemma eeq_lists a b : wf4 a -> wf4 b -> eeq a b = true <-> bits_of a = bits_of b.
Proof.
  intros Ha Hb. rewrite eeq_spec by done. pose proof (vec_is_bits_of a Ha) as Va. pose proof (vec_is_bits_of b Hb) as Vb. split.
  - intros [Hs HE]. unfold bits_of. rewrite Hs. apply map_seq_ext. intros i Hi. by apply HE.
  - intros E. apply (vec_is_same _ _ (bits_of b)); [|done]. by rewrite <- E.
Qed.

#[export] Instance wired_laws f (Hf : wired_rule f) :
  @NodeLaws vvp_vector4_t vvp_bit4_t (node4 f) f (fun _ => True) Some bits_of wf4 (fun d => d).
Proof.
  split; cbn; try done.
  - intros x y z _ _ _. by apply wired_assoc.
  - split; [exact (proj1 (vec4_fill_spec 0 BIT4_X))|done].
  - intros v Hv. by rewrite length_bits_of.
  - intros a b. apply eeq_lists.
  - intros a b Ha Hb Hl. destruct (wired_is f a b _ _ (vec_is_bits_of a Ha) (vec_is_bits_of b Hb) Hl) as (c & E & Hc1 & Hc2). by exists c.
  - intros v Hv _. by exists v.
Qed.

(** * The theorems *)

(** The driver vectors of a net of [n] bits: plain scalars. *)
Definition plain_driver (n : nat) (v : vvp_vector8_t) : Prop :=
  wf8 v /\ size8 v = n /\ Forall plainP (bits8 v).

(** What a vector without strengths drives. *)
Lemma vec8_of_vec4_is v l s : vec_is v l -> 0 < s <= 7 ->
  exists d, vec8_of_vec4 v s s = Some d /\ plain_driver (length l) d.
Proof.
  intros Hv Hs. unfold vec8_of_vec4, vec8_of_bits. rewrite (vec_is_size _ _ Hv).
  assert (HX : exists xs, length xs = length l /\ Forall plainP xs /\
    forall i, (i < length l)%nat -> scalar_new (nth i l BIT4_X) s s = xs !! i).
  { clear Hv. induction l as [|b l (xs & E & F & H)]; [exists []; split_and!; [done|constructor|cbn; lia]|].
    destruct (scalar_new_plain b s Hs) as (x & Ex & Px). exists (x :: xs). split_and!; [cbn; lia|by constructor|].
    intros [|i] Hi; [done|]. apply H. cbn in Hi. lia. }
  destruct HX as (xs & E & F & H).
  destruct (set_all8_is (fun idx => scalar_new (value v idx) s s) (length l) xs E) as (d & Ed & Hd).
  { intros i Hi. rewrite (vec_is_value _ _ _ Hv). by apply H. }
  exists d. split; [exact Ed|]. split_and!; [apply Hd|by rewrite (vec8_is_size _ _ Hd)|]. by rewrite (proj2 Hd).
Qed.

Definition tri_resolution (h : Z) := resolution (X := Z) resolve_scalar (pulld h).
Definition tri_run (h : Z) := resolver_run (A := vvp_vector8_t) (pull h).

Lemma valid_driver n (v : vvp_vector8_t) : plain_driver n v -> wf8 v /\ valid plainP n (bits8 v).
Proof.
  intros (Hw & Hs & Hg). split; [done|]. split; [|done]. right. rewrite <- Hs. symmetry. apply vec8_is_size. by apply vec8_is_bits.
Qed.

(** C7: a resolver of any number of ports and any plain puller, along any sequence of vectors
    of plain drivers into its ports: it never fails, and the last vector it sent is, at each
    bit, the resolution of the last drivers of all the ports, in the order of the ports, and of
    the puller, and does not depend on the order of the ports.  A driver is plain if its scalars
    are Z, 0 or 1 of one strength or an unknown value of one strength; ambiguous ranges are
    excluded, because the resolution of three of them depends on their order. *)
Theorem resolver_trace h nports n xs :
  plain h = true -> (0 < nports)%nat ->
  Forall (fun '(port, bit) => (port < nports)%nat /\ plain_driver n bit) xs ->
  exists st sent, tri_run h xs (resolver_new nports) None = Some (st, sent) /\
    let drivers := last_drivers bits8 nports xs in
    holds_drivers resolve_scalar plainP bits8 wf8 (pulld h) n st drivers /\
    match sent with Some v => bits8 v = tri_resolution h drivers | None => tri_resolution h drivers = [] end /\
    forall others, drivers ≡ₚ others -> tri_resolution h others = tri_resolution h drivers.
Proof.
  intros Hh Hp Hxs. pose proof (tri_laws h Hh) as NL.
  assert (Hnew := resolver_new_holds resolve_scalar plainP (pull h) bits8 wf8 (pulld h) n nports Hp).
  destruct (resolver_run_spec resolve_scalar plainP (pull h) bits8 wf8 (pulld h) n xs _ _ None Hnew) as (st & sent & HR & Hst & HS).
  - unfold sent_is, resolution. rewrite dfold_nils by (by apply Forall_replicate). unfold pulld. by destruct (is_hiz h).
  - eapply List.Forall_impl; [|exact Hxs]. intros [port bit] (H1 & H2). split; [done|]. by apply valid_driver.
  - exists st, sent. split; [exact HR|]. cbv zeta. split; [exact Hst|]. split; [exact HS|]. intros others HP. unfold tri_resolution, resolution. f_equal. symmetry.
    apply (dfold_perm resolve_scalar plainP n law_good law_assoc); [|apply Hst|exact HP]. intros x y Hx Hy. by apply plain_pair.
Qed.

(** The same of the resolvers of wand and wor nets, on bits without strengths. *)
Theorem wired_trace f nports n xs :
  wired_rule f -> (0 < nports)%nat ->
  Forall (fun '(port, bit) => (port < nports)%nat /\ wf4 bit /\ size bit = n) xs ->
  exists st sent, @resolver_run vvp_vector4_t (node4 f) Some xs (@resolver_new _ (node4 f) nports) None = Some (st, sent) /\
    let drivers := last_drivers bits_of nports xs in
    holds_drivers f (fun _ => True) bits_of wf4 (fun d => d) n st drivers /\
    match sent with Some v => bits_of v = dfold f drivers | None => dfold f drivers = [] end /\
    forall others, drivers ≡ₚ others -> dfold f others = dfold f drivers.
Proof.
  intros Hf Hp Hxs. pose proof (wired_laws f Hf) as NL.
  assert (Hnew := @resolver_new_holds _ _ (node4 f) f (fun _ => True) Some bits_of wf4 (fun d => d) n NL nports Hp).
  destruct (@resolver_run_spec _ _ (node4 f) f (fun _ => True) Some bits_of wf4 (fun d => d) n NL xs _ _ None Hnew) as (st & sent & HR & Hst & HS).
  - unfold sent_is, resolution. by rewrite dfold_nils by (by apply Forall_replicate).
  - eapply List.Forall_impl; [|exact Hxs]. intros [port bit] (H1 & H2 & H3). split; [done|]. split; [done|].
    split; [right; by rewrite length_bits_of|]. by apply List.Forall_forall.
  - exists st, sent. split; [exact HR|]. cbv zeta. split; [exact Hst|]. split; [exact HS|]. intros others HP. symmetry.
    apply (dfold_perm f (fun _ => True) n (law_good (NodeLaws := NL)) (law_assoc (NodeLaws := NL))); [|apply Hst|exact HP]. intros x y _ _. by apply wired_comm.
Qed.

(** ** What two drivers resolve to *)

(** C8: two drivers of any strengths, ambiguous ones included, resolve to a range that covers
    every strength the net can take: for any strengths of the two drivers in their ranges,
    what these two give is in the range of the result, and a result whose value is 0 or 1 has
    no outcome of the other sign.  The case left out is a single strength against a range of
    the opposite value whose weakest end is exactly as strong. *)
Theorem resolve_sound a b s t u :
  wf_scalar a = true -> wf_scalar b = true -> ~ clash (range a) (range b) ->
  within s (range a) -> within t (range b) -> meets s t u ->
  let r := resolve_scalar a b in
  within u (range r) /\ (scalar_value r = BIT4_1 -> 0 < u) /\ (scalar_value r = BIT4_0 -> u <= 0) /\ (scalar_value r = BIT4_Z -> u = 0).
Proof.
  intros Ha Hb Hc Hs Ht Hu r. assert (HU : within u (range r)).
  { unfold r. rewrite resolve_is_range by done. by apply (resolve_range_sound (range a) (range b) s t). }
  pose proof (value_is_range r (resolve_wf a b Ha Hb)) as [_ HV]. unfold within in HU. destruct HU as [H1 H2].
  split; [done|]. split_and!; intros E; rewrite E in HV; [lia|lia|]. rewrite HV in *. cbn in *. lia.
Qed.

(** The case that [resolve_sound] leaves out does occur: a pull 0 against a 1 whose strength
    is unknown between pull and strong resolves to a definite 1, although the two tie when that
    1 is a pull; and with a third driver the value is a 1 or an X according to the grouping. *)
Theorem resolve_clash :
  (exists a b s t u, wf_scalar a = true /\ wf_scalar b = true /\ within s (range a) /\ within t (range b) /\ meets s t u /\
    scalar_value (resolve_scalar a b) = BIT4_1 /\ u < 0) /\
  (exists a b c, wf_scalar a = true /\ wf_scalar b = true /\ wf_scalar c = true /\
    scalar_value (resolve_scalar (resolve_scalar a b) c) = BIT4_1 /\ scalar_value (resolve_scalar a (resolve_scalar b c)) = BIT4_X).
Proof.
  split.
  - exists 85, 237, (-5), 5, (-5). split_and!; try (vm_compute; reflexivity).
    + vm_compute. by split.
    + vm_compute. by split.
    + apply meets_tie; lia.
  - exists 224, 221, 85. split_and!; vm_compute; reflexivity.
Qed.

(** ** The strongest driver *)

Definition level (v : Z) : Z := Z.abs (sv1 v).

Definition level_ok (a b : Z) : bool :=
  let r := resolve_scalar a b in
  if level a <? level b then r =? b
  else if level b <? level a then r =? a
  else if a =? b then r =? a
  else (level r =? level a) && range_eqb (range r) (- level r, level r) && (0 <? level r).

Lemma levels_checked : for_plain (fun a => for_plain (level_ok a)) = true.
Proof. vm_compute. reflexivity. Qed.

Lemma level_spec a b : plain a = true -> plain b = true -> level_ok a b = true.
Proof.
  intros Ha Hb. exact (for_plain_spec (level_ok a) b (for_plain_spec (fun a => for_plain (level_ok a)) a levels_checked Ha) Hb).
Qed.

(** What the drivers [xs] resolve to: the strongest of them, when those of its strength agree,
    or an unknown value of the strength of two that do not. *)
Record strongest (xs : list Z) (r : Z) : Prop := {
  st_plain : plain r = true;
  st_level : Forall (fun d => level d <= level r) xs;
  st_wins : (In r xs /\ Forall (fun d => level d = level r -> d = r) xs) \/
            (range r = (- level r, level r) /\ 0 < level r /\
             exists d e, In d xs /\ In e xs /\ d <> e /\ level d = level r /\ level e = level r) }.

Lemma strongest_step xs r d : strongest xs r -> plain d = true -> strongest (xs ++ [d]) (resolve_scalar r d).
Proof.
  intros [P L W] Hd. pose proof (level_spec r d P Hd) as H. unfold level_ok in H. pose proof (plain_pair r d P Hd) as [PR _].
  assert (HIn : In d (xs ++ [d])) by (apply in_app_iff; right; by left).
  destruct (Z.ltb_spec (level r) (level d)) as [H1|H1].
  { apply Z.eqb_eq in H as ->. split; [done| |left; split; [done|]].
    - apply Forall_app. split; [|by repeat constructor]. eapply List.Forall_impl; [|exact L]. cbn. lia.
    - apply Forall_app. split; [|by repeat constructor]. eapply List.Forall_impl; [|exact L]. cbn. lia. }
  assert (L' : Forall (fun e => level e <= level r) (xs ++ [d])) by (apply Forall_app; split; [done|by repeat constructor]).
  assert (W' : (In r xs /\ Forall (fun d => level d = level r -> d = r) xs) -> (level d = level r -> d = r) ->
    In r (xs ++ [d]) /\ Forall (fun d => level d = level r -> d = r) (xs ++ [d])).
  { intros [WI WF] HD. split; [apply in_app_iff; by left|]. apply Forall_app. split; [done|by repeat constructor]. }
  assert (U' : (exists d e, In d xs /\ In e xs /\ d <> e /\ level d = level r /\ level e = level r) ->
    exists e f, In e (xs ++ [d]) /\ In f (xs ++ [d]) /\ e <> f /\ level e = level r /\ level f = level r).
  { intros (e & f & I1 & I2 & HE). exists e, f. split_and!; try apply HE; apply in_app_iff; by left. }
  destruct (Z.ltb_spec (level d) (level r)) as [H2|H2].
  { apply Z.eqb_eq in H as ->. split; [done|done|]. destruct W as [W|(WR & WL & WE)]; [left; apply W'; [done|lia]|right; by auto]. }
  destruct (Z.eqb_spec r d) as [E|E].
  { apply Z.eqb_eq in H as ->. split; [done|done|]. destruct W as [W|(WR & WL & WE)]; [left; by apply W'|right; by auto]. }
  apply andb_true_iff in H as [H H5]. apply andb_true_iff in H as [H3 H4]. apply Z.eqb_eq in H3. apply range_eqb_eq in H4. apply Z.ltb_lt in H5.
  split; rewrite ?H3; [done|done|right]. rewrite H3 in *. split_and!; [done|done|]. destruct W as [[WI _]|(_ & _ & WE)]; [|by apply U'].
  exists r, d. split_and!; [apply in_app_iff; by left|done|done|done|lia].
Qed.

(** The strongest driver wins: what any number of drivers of equal strengths to 0 and 1
    resolve to, one after the other, is at least as strong as each of them; it is one of the
    strongest, when these agree, and an unknown value of their strength, both ends of it, when
    two of them do not. *)
Theorem resolve_strongest x xs :
  Forall plainP (x :: xs) -> strongest (x :: xs) (fold_left resolve_scalar xs x).
Proof.
  intros H. inversion_clear H as [|? ? Hx Hxs]. assert (H0 : strongest [x] x).
  { split; [done|by repeat constructor|left; split; [by left|by repeat constructor]]. }
  enough (HG : forall ys r, strongest ys r -> strongest (ys ++ xs) (fold_left resolve_scalar xs r)) by apply (HG [x] x H0).
  clear x Hx H0. induction Hxs as [|d xs Hd Hxs IH]; intros ys r Hr; cbn [fold_left]; [by rewrite app_nil_r|].
  replace (ys ++ d :: xs) with ((ys ++ [d]) ++ xs) by (by rewrite <- app_assoc). apply IH. by apply strongest_step.
Qed.

(** * Witnesses *)

(** Five ports, two levels of groups, and a pull 1: strong drives of the two values at two of
    the ports. *)
Definition drive8 (b : Z) : vvp_vector8_t := mkVec8 1 [b; 0; 0; 0; 0; 0; 0; 0].

Lemma drive8_ok b : plain b = true -> plain_driver 1 (drive8 b).
Proof. intros H. split_and!; [by split|done|by repeat constructor]. Qed.

Lemma resolver_trace_witness :
  let xs := [(4%nat, drive8 238); (0%nat, drive8 102); (4%nat, drive8 0)] in
  exists st sent, tri_run 221 xs (resolver_new 5) None = Some (st, sent) /\
    let drivers := last_drivers bits8 5 xs in
    holds_drivers resolve_scalar plainP bits8 wf8 (pulld 221) 1 st drivers /\
    match sent with Some v => bits8 v = tri_resolution 221 drivers | None => tri_resolution 221 drivers = [] end /\
    forall others, drivers ≡ₚ others -> tri_resolution 221 others = tri_resolution 221 drivers.
Proof.
  intros xs. apply (resolver_trace 221 5 1 xs); [reflexivity|lia|].
  unfold xs. repeat (apply List.Forall_cons || apply List.Forall_nil); (split; [lia|apply drive8_ok; reflexivity]).
Defined.

Lemma wired_trace_witness :
  let xs := [(4%nat, vec4_fill 3 BIT4_1); (1%nat, vec4_fill 3 BIT4_0)] in
  exists st sent, @resolver_run vvp_vector4_t (node4 triand_bit) Some xs (@resolver_new _ (node4 triand_bit) 6) None = Some (st, sent) /\
    let drivers := last_drivers bits_of 6 xs in
    holds_drivers triand_bit (fun _ => True) bits_of wf4 (fun d => d) 3 st drivers /\
    match sent with Some v => bits_of v = dfold triand_bit drivers | None => dfold triand_bit drivers = [] end /\
    forall others, drivers ≡ₚ others -> dfold triand_bit others = dfold triand_bit drivers.
Proof.
  intros xs. apply (wired_trace triand_bit 6 3 xs); [left; reflexivity|lia|].
  unfold xs. repeat (apply List.Forall_cons || apply List.Forall_nil); (split_and!; [lia|apply vec4_fill_spec|reflexivity]).
Defined.

(** A strong 1 that may be off against a pull 0. *)
Lemma resolve_sound_witness :
  let r := resolve_scalar 224 85 in
  within 6 (range r) /\ (scalar_value r = BIT4_1 -> 0 < 6) /\ (scalar_value r = BIT4_0 -> 6 <= 0) /\ (scalar_value r = BIT4_Z -> 6 = 0).
Proof.
  apply (resolve_sound 224 85 6 (-5) 6); [reflexivity|reflexivity| | | |].
  - vm_compute. intros [(E & _ & _)|(_ & _ & [(H & _)|(_ & E)])]; discriminate.
  - vm_compute. split; discriminate.
  - vm_compute. split; discriminate.
  - apply meets_left; reflexivity.
Defined.

Lemma resolve_strongest_witness : strongest [85; 238; 102; 221] (fold_left resolve_scalar [238; 102; 221] 85).
Proof. apply (resolve_strongest 85 [238; 102; 221]). repeat constructor. Defined.
