(* ===== verification/Gates.v ===== *)
(** The logic gates of a compiled design ([vvp/logic.h], [vvp/logic.cc]) and the constant part
    select of a static scope ([vvp/part.cc]): functors that keep their inputs and compute their
    output in an event of their own.

    A value that changes an input sets [net_] and queues the functor with [schedule_functor],
    unless a run is outstanding already; the run clears [net_] and sends the output.  [None] is
    a failed [assert].  The functors on real values are not modelled. *)
From S2P Require Import Prelude MachineWord VvpBit VvpVector4 VvpSlice VvpFunctor.

(** * The boolean gates *)

(** [vvp_fun_boolean_::input_]. *)
Definition boolean_new (wid : nat) : list vvp_vector4_t := replicate 4 (vec4_fill wid BIT4_Z).

(** The inputs after a vector arrived at a port, and whether a run is wanted. *)
Definition boolean_recv_vec4 (port : nat) (bit : vvp_vector4_t) (input_ : list vvp_vector4_t)
    : option (list vvp_vector4_t * bool) :=
  cur ← input_ !! port;
  if eeq cur bit then Some (input_, false) else Some (<[port := bit]> input_, true).

Definition boolean_recv_vec4_pv (port : nat) (bit : vvp_vector4_t) (base wid vwid : nat) (input_ : list vvp_vector4_t)
    : option (list vvp_vector4_t * bool) :=
  if (size bit =? wid)%nat && (base + wid <=? vwid)%nat then
    cur ← input_ !! port;
    '(v, flag) ← set_vec cur base bit;
    Some (<[port := v]> input_, flag)
  else None.

(** The inner loop of the three gates: the other inputs at one bit. *)
Fixpoint boolean_bit (f : vvp_bit4_t -> vvp_bit4_t -> vvp_bit4_t) (cnt pdx idx : nat) (input_ : list vvp_vector4_t)
    (bitbit : vvp_bit4_t) : option vvp_bit4_t :=
  match cnt with
  | O => Some bitbit
  | S c =>
      v ← input_ !! pdx;
      if (size v <? idx)%nat then Some BIT4_X
      else boolean_bit f c (pdx + 1) idx input_ (f bitbit (value v idx))
  end.

Definition boolean_run (f : vvp_bit4_t -> vvp_bit4_t -> vvp_bit4_t) (invert_ : bool) (input_ : list vvp_vector4_t)
    : option vvp_vector4_t :=
  result ← input_ !! 0%nat;
  for_upto (size result) (fun idx result =>
    result ← result;
    bitbit ← boolean_bit f 3 1 idx input_ (value result idx);
    set_bit result idx (if invert_ then bit4_not bitbit else bitbit)) (Some result).

Definition and_run_run := boolean_run bit4_and.
Definition or_run_run := boolean_run bit4_or.
Definition xor_run_run := boolean_run bit4_xor.

Definition equiv_run_run (input_ : list vvp_vector4_t) : option vvp_vector4_t :=
  a ← input_ !! 0%nat;
  b ← input_ !! 1%nat;
  if (size a =? 1)%nat && (size b =? 1)%nat
  then Some (vec4_fill 1 (bit4_not (bit4_xor (value a 0) (value b 0)))) else None.

Definition impl_run_run (input_ : list vvp_vector4_t) : option vvp_vector4_t :=
  a ← input_ !! 0%nat;
  b ← input_ !! 1%nat;
  if (size a =? 1)%nat && (size b =? 1)%nat
  then Some (vec4_fill 1 (bit4_or (bit4_not (value a 0)) (value b 0))) else None.

(** * [vvp_fun_buf] and [vvp_fun_not] *)

Definition buf_recv_vec4 (port : nat) (bit : vvp_vector4_t) (input_ : vvp_vector4_t) : option (vvp_vector4_t * bool) :=
  if negb (port =? 0)%nat then Some (input_, false)
  else if eeq input_ bit then Some (input_, false) else Some (bit, true).

Definition buf_recv_vec4_pv (port : nat) (bit : vvp_vector4_t) (base wid vwid : nat) (input_ : vvp_vector4_t)
    : option (vvp_vector4_t * bool) :=
  if negb (port =? 0)%nat then Some (input_, false)
  else if (size bit =? wid)%nat && (base + wid <=? vwid)%nat then set_vec input_ base bit
  else None.

Definition buf_run_run (input_ : vvp_vector4_t) : vvp_vector4_t := change_z2x input_.

Definition not_recv_vec4 := buf_recv_vec4.
Definition not_recv_vec4_pv := buf_recv_vec4_pv.
Definition not_run_run (input_ : vvp_vector4_t) : vvp_vector4_t := vec4_not input_.

(** * [vvp_fun_muxz] *)

Inductive sel_type := SEL_PORT0 | SEL_PORT1 | SEL_BOTH.

#[export] Instance sel_type_eq_dec : EqDecision sel_type.
Proof. solve_decision. Defined.

Definition sel_eqb (a b : sel_type) : bool := bool_decide (a = b).

Record vvp_fun_muxz := mkMuxz { a_ : vvp_vector4_t; b_ : vvp_vector4_t; select_ : sel_type; has_run_ : bool }.

Definition muxz_new (wid : nat) : vvp_fun_muxz :=
  mkMuxz (vec4_fill wid BIT4_Z) (vec4_fill wid BIT4_Z) SEL_BOTH false.

Definition with_a (m : vvp_fun_muxz) (v : vvp_vector4_t) := mkMuxz v (b_ m) (select_ m) (has_run_ m).
Definition with_b (m : vvp_fun_muxz) (v : vvp_vector4_t) := mkMuxz (a_ m) v (select_ m) (has_run_ m).
Definition with_select (m : vvp_fun_muxz) (s : sel_type) := mkMuxz (a_ m) (b_ m) s (has_run_ m).

Definition muxz_recv_vec4 (port : nat) (bit : vvp_vector4_t) (m : vvp_fun_muxz) : option (vvp_fun_muxz * bool) :=
  match port with
  | 0%nat =>
      if eeq (a_ m) bit && has_run_ m then Some (m, false)
      else Some (with_a m bit, negb (sel_eqb (select_ m) SEL_PORT1))
  | 1%nat =>
      if eeq (b_ m) bit && has_run_ m then Some (m, false)
      else Some (with_b m bit, negb (sel_eqb (select_ m) SEL_PORT0))
  | 2%nat =>
      if (size bit =? 1)%nat then
        match value bit 0 with
        | BIT4_0 => if sel_eqb (select_ m) SEL_PORT0 then Some (m, false) else Some (with_select m SEL_PORT0, true)
        | BIT4_1 => if sel_eqb (select_ m) SEL_PORT1 then Some (m, false) else Some (with_select m SEL_PORT1, true)
        | _ => if sel_eqb (select_ m) SEL_BOTH && has_run_ m then Some (m, false) else Some (with_select m SEL_BOTH, true)
        end
      else None
  | _ => Some (m, false)
  end.

Definition muxz_recv_vec4_pv (port : nat) (bit : vvp_vector4_t) (base wid vwid : nat) (m : vvp_fun_muxz)
    : option (vvp_fun_muxz * bool) :=
  if (size bit =? wid)%nat && (base + wid <=? vwid)%nat then
    match port with
    | 0%nat =>
        '(v, flag) ← set_vec (a_ m) base bit;
        Some (with_a m v, (flag || negb (has_run_ m)) && negb (sel_eqb (select_ m) SEL_PORT1))
    | 1%nat =>
        '(v, flag) ← set_vec (b_ m) base bit;
        Some (with_b m v, (flag || negb (has_run_ m)) && negb (sel_eqb (select_ m) SEL_PORT0))
    | 2%nat => if (base =? 0)%nat && (wid =? 1)%nat then muxz_recv_vec4 port bit m else None
    | _ => Some (m, false)
    end
  else None.

(** The vector for an unknown select: X where the inputs differ or only one has a bit. *)
Definition muxz_both (a b : vvp_vector4_t) : option vvp_vector4_t :=
  let min_size := if (size b <? size a)%nat then size b else size a in
  let max_size := if (size a <? size b)%nat then size b else size a in
  res ← set_bits min_size 0 (fun idx => if bit4_eqb (value a idx) (value b idx) then value a idx else BIT4_X)
          (vec4_fill max_size BIT4_X);
  set_bits (max_size - min_size) min_size (fun _ => BIT4_X) res.

Definition muxz_run_run (m : vvp_fun_muxz) : option (vvp_fun_muxz * vvp_vector4_t) :=
  let m' := mkMuxz (a_ m) (b_ m) (select_ m) true in
  match select_ m with
  | SEL_PORT0 => Some (m', a_ m)
  | SEL_PORT1 => Some (m', b_ m)
  | SEL_BOTH => res ← muxz_both (a_ m) (b_ m); Some (m', res)
  end.

(** * [vvp_fun_part_sa] *)

Definition part_sa_recv_vec4 (base_ wid_ port : nat) (bit val_ : vvp_vector4_t) : option (vvp_vector4_t * bool) :=
  if (port =? 0)%nat then
    tmp ← subvalue bit base_ wid_;
    if eeq val_ tmp then Some (val_, false) else Some (tmp, true)
  else None.

Definition part_sa_recv_vec4_pv (base_ wid_ port : nat) (bit : vvp_vector4_t) (base wid vwid : nat) (val_ : vvp_vector4_t)
    : option (vvp_vector4_t * bool) :=
  if (size bit =? wid)%nat then
    '(tmp, _) ← set_vec (vec4_fill vwid BIT4_Z) base_ val_;
    '(tmp, _) ← set_vec tmp base bit;
    part_sa_recv_vec4 base_ wid_ port tmp val_
  else None.

(** * A gate as an object of the net *)

Inductive boolean_type := And (invert_ : bool) | Or (invert_ : bool) | Xor (invert_ : bool) | Equiv | Impl.

(** The classes with their members; the virtual functions are dispatched on the class. *)
Inductive gate :=
| Boolean (t : boolean_type) (input_ : list vvp_vector4_t)
| Buf (input_ : vvp_vector4_t)
| Not (input_ : vvp_vector4_t)
| Muxz (m : vvp_fun_muxz)
| PartSa (base_ wid_ : nat) (val_ : vvp_vector4_t).

Definition gate_recv_vec4 (port : nat) (bit : vvp_vector4_t) (g : gate) : option (gate * bool) :=
  match g with
  | Boolean t i => '(i, flag) ← boolean_recv_vec4 port bit i; Some (Boolean t i, flag)
  | Buf i => '(i, flag) ← buf_recv_vec4 port bit i; Some (Buf i, flag)
  | Not i => '(i, flag) ← not_recv_vec4 port bit i; Some (Not i, flag)
  | Muxz m => '(m, flag) ← muxz_recv_vec4 port bit m; Some (Muxz m, flag)
  | PartSa b w v => '(v, flag) ← part_sa_recv_vec4 b w port bit v; Some (PartSa b w v, flag)
  end.

Definition gate_recv_vec4_pv (port : nat) (bit : vvp_vector4_t) (base wid vwid : nat) (g : gate) : option (gate * bool) :=
  match g with
  | Boolean t i => '(i, flag) ← boolean_recv_vec4_pv port bit base wid vwid i; Some (Boolean t i, flag)
  | Buf i => '(i, flag) ← buf_recv_vec4_pv port bit base wid vwid i; Some (Buf i, flag)
  | Not i => '(i, flag) ← not_recv_vec4_pv port bit base wid vwid i; Some (Not i, flag)
  | Muxz m => '(m, flag) ← muxz_recv_vec4_pv port bit base wid vwid m; Some (Muxz m, flag)
  | PartSa b w v => '(v, flag) ← part_sa_recv_vec4_pv b w port bit base wid vwid v; Some (PartSa b w v, flag)
  end.

(** What the run sends. *)
Definition gate_run_run (g : gate) : option (gate * vvp_vector4_t) :=
  match g with
  | Boolean (And invert_) i => v ← and_run_run invert_ i; Some (g, v)
  | Boolean (Or invert_) i => v ← or_run_run invert_ i; Some (g, v)
  | Boolean (Xor invert_) i => v ← xor_run_run invert_ i; Some (g, v)
  | Boolean Equiv i => v ← equiv_run_run i; Some (g, v)
  | Boolean Impl i => v ← impl_run_run i; Some (g, v)
  | Buf i => Some (g, buf_run_run i)
  | Not i => Some (g, not_run_run i)
  | Muxz m => '(m, v) ← muxz_run_run m; Some (Muxz m, v)
  | PartSa _ _ v => Some (g, v)
  end.

(** * A gate and the scheduler *)

(** The gate, whether its [net_] is set, how often the scheduler holds it, and the vector it
    sent last. *)
Record gate_node := mkGateNode { node_gate : gate; net_ : bool; queued : nat; sent : option vvp_vector4_t }.

Definition gate_node_new (g : gate) : gate_node := mkGateNode g false 0 None.

(** [if (net_ == 0) { net_ = ptr.ptr(); schedule_functor(this); }]. *)
Definition request_run (g : gate) (st : gate_node) : gate_node :=
  if net_ st then mkGateNode g (net_ st) (queued st) (sent st)
  else mkGateNode g true (queued st + 1) (sent st).

Inductive arrival :=
| Whole (port : nat) (bit : vvp_vector4_t)
| Part (port : nat) (bit : vvp_vector4_t) (base wid vwid : nat).

Definition accept (a : arrival) (g : gate) : option (gate * bool) :=
  match a with
  | Whole port bit => gate_recv_vec4 port bit g
  | Part port bit base wid vwid => gate_recv_vec4_pv port bit base wid vwid g
  end.

Inductive gate_event := Arrive (a : arrival) | Run.

(** The scheduler runs a gate it holds; the run sends through [net_]. *)
Definition gate_step (e : gate_event) (st : gate_node) : option gate_node :=
  match e with
  | Arrive a =>
      '(g, flag) ← accept a (node_gate st);
      Some (if (flag : bool) then request_run g st else mkGateNode g (net_ st) (queued st) (sent st))
  | Run =>
      match queued st with
      | O => Some st
      | S q =>
          '(g, v) ← gate_run_run (node_gate st);
          if net_ st then Some (mkGateNode g false q (Some v)) else None
      end
  end.

Fixpoint gate_steps (es : list gate_event) (st : gate_node) : option gate_node :=
  match es with
  | [] => Some st
  | e :: es => st ← gate_step e st; gate_steps es st
  end.
