(* ===== verification/GateSpec.v ===== *)
(** The gates against operators on lists of bits: what a gate holds as the lists at its ports,
    what an arrival does to them, and the output as a function of them. *)
From S2P Require Import Prelude MachineWord VvpBit VvpVector4 VvpSlice WordArith VvpArith VvpVector2 VvpCompare.
From S2P Require Import BitList VvpFunctor WordDiv VThread VThreadSpec VThreadParts VThreadIndex VThreadDiv VThreadMod Gates.

(** * Vectors and lists *)

Lemma eeq_vec a b l r : vec_is a l -> vec_is b r -> eeq a b = bool_decide (l = r).
Proof.
  intros Ha Hb. destruct (eeq a b) eqn:E; symmetry.
  - apply eeq_spec in E; [|apply Ha|apply Hb]. apply bool_decide_eq_true. destruct Ha as [_ <-], Hb as [_ <-].
    destruct E as [Hs HE]. unfold bits_of. rewrite Hs. apply map_seq_ext. intros i Hi. by apply HE.
  - apply bool_decide_eq_false. intros ->. assert (eeq a b = true); [|congruence].
    apply eeq_spec; [apply Ha|apply Hb|]. by apply (vec_is_same _ _ r).
Qed.

Lemma set_vec_changes v adr that l m :
  vec_is v l -> vec_is that m -> (0 < length m)%nat -> (adr + length m <= length l)%nat ->
  exists r d, set_vec v adr that = Some (r, d) /\ vec_is r (overwrite adr m l) /\ (d = false -> overwrite adr m l = l).
Proof.
  intros Hv Ht H0 Ha. destruct (set_vec_is v adr that l m Hv Ht H0 Ha) as (r & d & E & Hr). exists r, d. split_and!; [done|done|].
  intros ->. rewrite <- (vec_is_size _ _ Ht), <- (vec_is_size _ _ Hv) in *.
  destruct (set_vec_spec v adr that (vec_is_wf _ _ Hv) (vec_is_wf _ _ Ht) H0 Ha) as (r' & d' & E' & _ & Hd).
  rewrite E in E'. injection E' as <- <-. destruct Hr as [Wr Br], Hv as [Wv Bv].
  assert (HS : eeq r v = true).
  { destruct (eeq r v) eqn:EE; [done|]. exfalso. assert (false = true); [|done]. apply Hd. intros HS.
    apply (eeq_spec r v Wr Wv) in HS. congruence. }
  rewrite (eeq_vec r v _ _ (conj Wr Br) (conj Wv Bv)) in HS. by apply bool_decide_eq_true in HS.
Qed.

(** An empty vector changes nothing wherever it is written. *)
Lemma set_vec_empty v adr that : wf4 v -> size that = 0%nat -> (adr < size v)%nat -> set_vec v adr that = Some (v, false).
Proof.
  intros Hv H0 Ha. unfold set_vec, set_vec_plane. rewrite H0, (proj2 (Nat.leb_le _ _)) by lia.
  assert (HM : forall k, (k < W)%nat -> Z.land (low_mask (k + 0)) (wnot (wmask k)) = 0).
  { intros k Hk. unfold low_mask. rewrite Nat.add_0_r, (proj2 (Nat.leb_gt _ _)) by done.
    apply Z.bits_inj'. intros j Hj. rewrite Z.land_spec, Z.bits_0. destruct (Z.ltb_spec j (Z.of_nat W)) as [H|H].
    - replace j with (Z.of_nat (Z.to_nat j)) by lia. fold (tb (wmask k) (Z.to_nat j)) (tb (wnot (wmask k)) (Z.to_nat j)).
      rewrite tb_wnot, (proj2 (Nat.ltb_lt _ _)) by (apply wmask_word || lia). by destruct (tb _ _).
    - rewrite (wmask_eq k), Z.sub_1_r, <- Z.ones_equiv, Z.ones_spec_high by lia. done. }
  assert (HP : forall p ws src, put 0 (Z.land src 0) p (ws, false) = (ws, false)).
  { intros p ws src. unfold put. by rewrite !Z.land_0_r. }
  destruct v as [n a b]. cbn [size abits bbits] in *. destruct (Nat.leb_spec n W) as [Hn|Hn].
  - unfold set_vec_short. rewrite HM by lia. by rewrite !HP.
  - unfold set_vec_short_source. pose proof (Nat.mod_upper_bound adr W ltac:(done)). rewrite HM by lia. rewrite !HP.
    rewrite Nat.add_0_r, (proj2 (Nat.ltb_ge _ _)) by lia. done.
Qed.

(** * Classes *)

Inductive gate_class := CBoolean (t : boolean_type) | CBuf | CNot | CMuxz | CPart (base_ wid_ : nat).

Definition class_of (g : gate) : gate_class :=
  match g with
  | Boolean t _ => CBoolean t | Buf _ => CBuf | Not _ => CNot | Muxz _ => CMuxz | PartSa b w _ => CPart b w
  end.

(** A gate of a net of [n] bits as its constructor leaves it. *)
Definition gate_new (n : nat) (c : gate_class) : gate :=
  match c with
  | CBoolean t => Boolean t (boolean_new n)
  | CBuf => Buf (vec4_fill n BIT4_Z) | CNot => Not (vec4_fill n BIT4_Z)
  | CMuxz => Muxz (muxz_new n) | CPart b w => PartSa b w (vec4_fill 0 BIT4_X)
  end.

Definition class_fits (n : nat) (c : gate_class) : Prop :=
  match c with
  | CBoolean Equiv | CBoolean Impl => n = 1%nat
  | CPart b w => (0 < w)%nat /\ (b + w <= n)%nat
  | _ => True
  end.

(** The ports and their widths. *)
Definition class_ports (c : gate_class) : nat :=
  match c with CBoolean _ => 4 | CBuf | CNot | CPart _ _ => 1 | CMuxz => 3 end.
Definition port_width (n : nat) (c : gate_class) (port : nat) : nat :=
  match c, port with CMuxz, 2%nat => 1 | _, _ => n end.
Definition new_inputs (n : nat) (c : gate_class) : list (list vvp_bit4_t) :=
  map (fun p => replicate (port_width n c p) BIT4_Z) (seq 0 (class_ports c)).

(** The output as a function of the lists at the ports. *)
Definition inverted (invert_ : bool) (l : list vvp_bit4_t) : list vvp_bit4_t := if invert_ then map bit4_not l else l.

Definition over_inputs (f : vvp_bit4_t -> vvp_bit4_t -> vvp_bit4_t) (ins : list (list vvp_bit4_t)) : list vvp_bit4_t :=
  fold_left (bv_map2 f) (drop 1 ins) (nth 0 ins []).

Definition gate_out (c : gate_class) (ins : list (list vvp_bit4_t)) : list vvp_bit4_t :=
  let port p := nth p ins [] in
  match c with
  | CBoolean (And i) => inverted i (over_inputs bit4_and ins)
  | CBoolean (Or i) => inverted i (over_inputs bit4_or ins)
  | CBoolean (Xor i) => inverted i (over_inputs bit4_xor ins)
  | CBoolean Equiv => bv_map2 (fun a b => bit4_not (bit4_xor a b)) (port 0%nat) (port 1%nat)
  | CBoolean Impl => bv_map2 (fun a b => bit4_or (bit4_not a) b) (port 0%nat) (port 1%nat)
  | CBuf => map bit4_z2x (port 0%nat)
  | CNot => map bit4_not (port 0%nat)
  | CMuxz =>
      match port 2%nat with
      | [BIT4_0] => port 0%nat
      | [BIT4_1] => port 1%nat
      | _ => bv_map2 bit_blend (port 0%nat) (port 1%nat)
      end
  | CPart b w => take w (drop b (port 0%nat))
  end.

(** What arrives: a vector for the whole of a port, or a part of it; other ports than the
    class's own are ignored, or cannot be connected. *)
Definition port_ok (c : gate_class) (port : nat) : Prop :=
  match c with CBoolean _ => (port < 4)%nat | CPart _ _ => port = 0%nat | _ => True end.

Definition arrival_ok (n : nat) (c : gate_class) (a : arrival) : Prop :=
  match a with
  | Whole port bit => port_ok c port /\ wf4 bit /\ ((port < class_ports c)%nat -> size bit = port_width n c port)
  | Part port bit base wid vwid =>
      port_ok c port /\ wf4 bit /\ size bit = wid /\ (0 < wid)%nat /\ (base + wid <= vwid)%nat /\
      ((port < class_ports c)%nat -> vwid = port_width n c port)
  end.

Definition arrive_at (a : arrival) (ins : list (list vvp_bit4_t)) : list (list vvp_bit4_t) :=
  match a with
  | Whole port bit => <[port := bits_of bit]> ins
  | Part port bit base _ _ => alter (overwrite base (bits_of bit)) port ins
  end.

(** * What a gate holds *)

Definition sel_of (b : vvp_bit4_t) : sel_type :=
  match b with BIT4_0 => SEL_PORT0 | BIT4_1 => SEL_PORT1 | _ => SEL_BOTH end.

Definition holds_one (n : nat) (v : vvp_vector4_t) (ins : list (list vvp_bit4_t)) : Prop :=
  exists l, ins = [l] /\ vec_is v l /\ length l = n.

Definition gate_holds (n : nat) (g : gate) (ins : list (list vvp_bit4_t)) : Prop :=
  match g with
  | Boolean _ i => length i = 4%nat /\ Forall2 vec_is i ins /\ Forall (fun l => length l = n) ins
  | Buf i | Not i => holds_one n i ins
  | Muxz m => exists a b s, ins = [a; b; [s]] /\ vec_is (a_ m) a /\ vec_is (b_ m) b /\ length a = n /\ length b = n /\ select_ m = sel_of s
  | PartSa base wid val => exists l, ins = [l] /\ length l = n /\
      (vec_is val (take wid (drop base l)) \/ (val = vec4_fill 0 BIT4_X /\ l = replicate n BIT4_Z))
  end.

(** A run needs the part. *)
Definition gate_ready (g : gate) : Prop := match g with PartSa _ w v => size v = w | _ => True end.

(** ** Boolean gates *)

Lemma list_alter_insert {A} (f : A -> A) (l : list A) k x : l !! k = Some x -> alter f k l = <[k := f x]> l.
Proof. revert k. induction l as [|y l IH]; intros [|k] E; try done; cbn in *; [by simplify_eq|]. f_equal. by apply IH. Qed.

Lemma boolean_whole n t i ins port bit :
  gate_holds n (Boolean t i) ins -> (port < 4)%nat -> wf4 bit -> size bit = n ->
  exists i' flag, boolean_recv_vec4 port bit i = Some (i', flag) /\
    gate_holds n (Boolean t i') (<[port := bits_of bit]> ins) /\ (flag = false -> <[port := bits_of bit]> ins = ins).
Proof.
  intros (Hl & HF & HN) Hp Hw Hs. unfold boolean_recv_vec4. assert (HL : length i = length ins) by (by eapply Forall2_length).
  destruct (lookup_lt_is_Some_2 i port ltac:(lia)) as [cur Ec]. rewrite Ec. cbn [mbind option_bind].
  destruct (Forall2_lookup_l _ _ _ _ _ HF Ec) as (l & El & Hcur). pose proof (vec_is_bits_of bit Hw) as Hb.
  rewrite (eeq_vec cur bit _ _ Hcur Hb). case_bool_decide as E.
  - subst l. rewrite list_insert_id by done. by exists i, false.
  - eexists _, true. split; [done|]. split; [|done]. split_and!; [by rewrite length_insert|by apply Forall2_insert|].
    apply Forall_insert; [done|]. by rewrite length_bits_of.
Qed.

Lemma boolean_part n t i ins port bit base vwid :
  gate_holds n (Boolean t i) ins -> (port < 4)%nat -> wf4 bit -> (0 < size bit)%nat -> (base + size bit <= vwid)%nat -> vwid = n ->
  exists i' flag, boolean_recv_vec4_pv port bit base (size bit) vwid i = Some (i', flag) /\
    gate_holds n (Boolean t i') (alter (overwrite base (bits_of bit)) port ins) /\
    (flag = false -> alter (overwrite base (bits_of bit)) port ins = ins).
Proof.
  intros (Hl & HF & HN) Hp Hw Hs Hb ->. unfold boolean_recv_vec4_pv. assert (HL : length i = length ins) by (by eapply Forall2_length).
  rewrite Nat.eqb_refl, (proj2 (Nat.leb_le _ _)) by done. cbn [andb].
  destruct (lookup_lt_is_Some_2 i port ltac:(lia)) as [cur Ec]. rewrite Ec. cbn [mbind option_bind].
  destruct (Forall2_lookup_l _ _ _ _ _ HF Ec) as (l & El & Hcur). pose proof (Forall_lookup_1 _ _ _ _ HN El) as Ll. cbn beta in Ll.
  destruct (set_vec_changes cur base bit l (bits_of bit) Hcur (vec_is_bits_of bit Hw)) as (v & d & -> & Hv & Hd); [by rewrite length_bits_of|by rewrite length_bits_of, Ll|].
  cbn [mbind option_bind]. rewrite (list_alter_insert _ _ _ _ El). exists (<[port := v]> i), d. split; [done|]. split.
  - split_and!; [by rewrite length_insert|by apply Forall2_insert|]. apply Forall_insert; [done|].
    by rewrite length_overwrite by (by rewrite length_bits_of, Ll).
  - intros E. rewrite Hd by done. by apply list_insert_id.
Qed.

Lemma boolean_bit_is f n cnt : forall pdx idx i b,
  (idx < n)%nat -> (pdx + cnt <= length i)%nat -> Forall (fun v => size v = n) i ->
  boolean_bit f cnt pdx idx i b = Some (fold_left f (map (fun v => value v idx) (take cnt (drop pdx i))) b).
Proof.
  induction cnt as [|c IH]; intros pdx idx i b Hi Hl HN; cbn [boolean_bit]; [done|].
  destruct (lookup_lt_is_Some_2 i pdx ltac:(lia)) as [v Ev]. rewrite Ev. cbn [mbind option_bind].
  pose proof (Forall_lookup_1 _ _ _ _ HN Ev) as Sv. cbn beta in Sv. rewrite Sv, (proj2 (Nat.ltb_ge _ _)) by lia.
  rewrite IH by (done || lia). rewrite (drop_S i v pdx) by done. cbn [take map fold_left]. by rewrite Nat.add_1_r.
Qed.

(** Folds of vectors and of their bits. *)
Lemma fold_map2 f n ls : forall l, length l = n -> Forall (fun l => length l = n) ls ->
  length (fold_left (bv_map2 f) ls l) = n /\
  forall i, (i < n)%nat -> nth i (fold_left (bv_map2 f) ls l) BIT4_X = fold_left f (map (fun m => nth i m BIT4_X) ls) (nth i l BIT4_X).
Proof.
  induction ls as [|m ls IH]; intros l Hl HF; cbn [fold_left map]; [done|]. inversion_clear HF as [|? ? Hm HF'].
  destruct (IH (bv_map2 f l m)) as [L N]; [by rewrite length_map2 by congruence|done|]. split; [done|]. intros i Hi.
  rewrite N by done. by rewrite nth_map2 by (congruence || lia).
Qed.

Lemma boolean_run_is f inv n t i ins : gate_holds n (Boolean t i) ins ->
  exists v, boolean_run f inv i = Some v /\ vec_is v (inverted inv (over_inputs f ins)).
Proof.
  intros (Hl & HF & HN). destruct i as [|v0 vs]; [done|]. destruct ins as [|l0 ls]; [by inversion HF|].
  inversion_clear HF as [|? ? ? ? H0 HF']. inversion_clear HN as [|? ? N0 HN']. injection Hl as Hl.
  assert (HS : Forall (fun v => size v = n) (v0 :: vs)).
  { constructor; [by rewrite (vec_is_size _ _ H0)|]. clear -HF' HN'. induction HF' as [|v l vs ls Hv HF IH]; [constructor|].
    inversion_clear HN'. constructor; [by rewrite (vec_is_size _ _ Hv)|by apply IH]. }
  unfold boolean_run. cbn [lookup list_lookup mbind option_bind]. set (vals idx := map (fun v => value v idx) vs).
  destruct (in_place_loop_at (fun idx b => let r := fold_left f (vals idx) b in if inv then bit4_not r else r)
    (fun idx result => result ← result; bitbit ← boolean_bit f 3 1 idx (v0 :: vs) (value result idx);
       set_bit result idx (if inv then bit4_not bitbit else bitbit)) v0 (size v0) (vec_is_wf _ _ H0) (le_n _)) as (r & E & Hr).
  { intros idx u Wu Su Hu. rewrite (vec_is_size _ _ H0), N0 in Hu. cbn [mbind option_bind].
    rewrite (boolean_bit_is f n) by (done || cbn [length]; lia). cbn [mbind option_bind drop].
    rewrite drop_0, take_ge by lia. apply set_bit_spec; [done|]. by rewrite Su, (vec_is_size _ _ H0), N0. }
  exists r. split; [exact E|]. destruct (fold_map2 f n ls l0 N0 HN') as [FL FN].
  assert (HV : forall i, map (fun m => nth i m BIT4_X) ls = vals i).
  { intros i. unfold vals. clear -HF'. induction HF' as [|v l vs ls Hv HF IH]; [done|]. cbn. f_equal; [|done]. by rewrite (vec_is_value _ _ _ Hv). }
  unfold over_inputs. cbn [nth drop]. set (out := fold_left _ _ _) in *.
  assert (Lo : length (inverted inv out) = size v0) by (rewrite (vec_is_size _ _ H0), N0; unfold inverted; destruct inv; rewrite ?length_map; done).
  apply (bitwise_is _ _ _ _ Hr); [done|]. intros i Hi. rewrite (proj2 (Nat.ltb_lt _ _)) by done.
  rewrite (vec_is_size _ _ H0), N0 in Hi. pose proof (FN i Hi) as Hn. rewrite HV in Hn. rewrite (vec_is_value _ _ _ H0). cbn zeta. rewrite <- Hn.
  unfold inverted. destruct inv; [|done]. rewrite nth_indep with (d' := bit4_not BIT4_X) by (by rewrite length_map, FL). by rewrite map_nth.
Qed.

(** The gates of one bit. *)
Lemma bool_bit_is (f : vvp_bit4_t -> vvp_bit4_t -> vvp_bit4_t) t i ins : gate_holds 1 (Boolean t i) ins ->
  exists a b, i !! 0%nat = Some a /\ i !! 1%nat = Some b /\ size a = 1%nat /\ size b = 1%nat /\
    vec_is (vec4_fill 1 (f (value a 0) (value b 0))) (bv_map2 f (nth 0 ins []) (nth 1 ins [])).
Proof.
  intros (Hl & HF & HN). destruct HF as [|a l i' ins' Ha HF]; [done|]. destruct HF as [|b r i'' ins'' Hb HF]; [done|].
  inversion_clear HN as [|? ? Na HN']. inversion_clear HN' as [|? ? Nb _]. exists a, b. cbn [lookup list_lookup nth].
  split_and!; [done|done|by rewrite (vec_is_size _ _ Ha)|by rewrite (vec_is_size _ _ Hb)|].
  rewrite (vec_is_value _ _ _ Ha), (vec_is_value _ _ _ Hb). destruct l as [|x []]; try done. destruct r as [|y []]; try done.
  apply (vec_is_fill 1).
Qed.

(** ** [vvp_fun_buf] and [vvp_fun_not] *)

Lemma one_whole n i ins port bit :
  holds_one n i ins -> wf4 bit -> (port = 0%nat -> size bit = n) ->
  exists i' flag, buf_recv_vec4 port bit i = Some (i', flag) /\ holds_one n i' (<[port := bits_of bit]> ins) /\
    (flag = false -> <[port := bits_of bit]> ins = ins).
Proof.
  intros (l & -> & Hv & Hl) Hw Hs. unfold buf_recv_vec4. destruct port as [|port]; cbn [negb Nat.eqb insert list_insert].
  - rewrite (eeq_vec i bit _ _ Hv (vec_is_bits_of bit Hw)). case_bool_decide as E.
    + exists i, false. split_and!; [done| |by rewrite E]. exists l. by rewrite <- E.
    + exists bit, true. split_and!; [done| |done]. exists (bits_of bit).
      split_and!; [done|by apply vec_is_bits_of|rewrite length_bits_of; by apply Hs].
  - exists i, false. split_and!; [done|by exists l|done].
Qed.

Lemma one_part n i ins port bit base vwid :
  holds_one n i ins -> wf4 bit -> (0 < size bit)%nat -> (base + size bit <= vwid)%nat -> (port = 0%nat -> vwid = n) ->
  exists i' flag, buf_recv_vec4_pv port bit base (size bit) vwid i = Some (i', flag) /\
    holds_one n i' (alter (overwrite base (bits_of bit)) port ins) /\
    (flag = false -> alter (overwrite base (bits_of bit)) port ins = ins).
Proof.
  intros (l & -> & Hv & Hl) Hw Hs Hb Hn. unfold buf_recv_vec4_pv. destruct port as [|port]; cbn [negb Nat.eqb alter list_alter].
  - rewrite Nat.eqb_refl, (proj2 (Nat.leb_le _ _)) by done. cbn [andb].
    assert (Lb : (base + length (bits_of bit) <= length l)%nat) by (rewrite length_bits_of; specialize (Hn eq_refl); lia).
    destruct (set_vec_changes i base bit l (bits_of bit) Hv (vec_is_bits_of bit Hw)) as (v & d & E & Hr & Hd); [by rewrite length_bits_of|done|].
    exists v, d. split_and!; [done| |intros F; by rewrite Hd]. exists (overwrite base (bits_of bit) l). split_and!; [done|done|by rewrite length_overwrite].
  - exists i, false. split_and!; [done|by exists l|done].
Qed.

(** ** [vvp_fun_muxz] *)

Lemma sel_eqb_eq a b : sel_eqb a b = true <-> a = b.
Proof. apply bool_decide_eq_true. Qed.

(** A data port that the select leaves out has no influence. *)
Lemma mux_other_port s a b a' b' :
  (sel_of s = SEL_PORT1 -> gate_out CMuxz [a; b; [s]] = gate_out CMuxz [a'; b; [s]]) /\
  (sel_of s = SEL_PORT0 -> gate_out CMuxz [a; b; [s]] = gate_out CMuxz [a; b'; [s]]).
Proof. by destruct s. Qed.

Definition mux_accepts (n : nat) (r : option (vvp_fun_muxz * bool)) (ins ins' : list (list vvp_bit4_t)) : Prop :=
  exists m' flag, r = Some (m', flag) /\ gate_holds n (Muxz m') ins' /\ (flag = false -> gate_out CMuxz ins' = gate_out CMuxz ins).

(** A new vector [v] at a data port. *)
Lemma mux_data n m a b s v l (flag : bool) :
  vec_is (a_ m) a -> vec_is (b_ m) b -> length a = n -> length b = n -> select_ m = sel_of s -> vec_is v l -> length l = n ->
  ((flag = false -> l = a) -> mux_accepts n (Some (with_a m v, flag && negb (sel_eqb (select_ m) SEL_PORT1))) [a; b; [s]] [l; b; [s]]) /\
  ((flag = false -> l = b) -> mux_accepts n (Some (with_b m v, flag && negb (sel_eqb (select_ m) SEL_PORT0))) [a; b; [s]] [a; l; [s]]).
Proof.
  intros Ha Hb La Lb Hs Hv Ll. pose proof (mux_other_port s l a a l) as [O1 _]. pose proof (mux_other_port s a b a l) as [_ O2]. split; intros Hf.
  - eexists _, _. split; [done|]. split; [by exists l, b, s|]. intros E. destruct flag; cbn [andb] in E; [|by rewrite Hf].
    apply negb_false_iff, sel_eqb_eq in E. rewrite Hs in E. by destruct s.
  - eexists _, _. split; [done|]. split; [by exists a, l, s|]. intros E. destruct flag; cbn [andb] in E; [|by rewrite Hf].
    apply negb_false_iff, sel_eqb_eq in E. rewrite Hs in E. by destruct s.
Qed.

Lemma mux_select n m a b s v l :
  vec_is (a_ m) a -> vec_is (b_ m) b -> length a = n -> length b = n -> select_ m = sel_of s -> vec_is v l -> length l = 1%nat ->
  mux_accepts n (muxz_recv_vec4 2 v m) [a; b; [s]] [a; b; l].
Proof.
  intros Ha Hb La Lb Hs Hv Ll. destruct l as [|c []]; try done. unfold muxz_recv_vec4.
  rewrite (vec_is_size _ _ Hv), (vec_is_value _ _ _ Hv). cbn [length Nat.eqb nth]. rewrite Hs.
  assert (HH : forall m', a_ m' = a_ m -> b_ m' = b_ m -> select_ m' = sel_of c -> gate_holds n (Muxz m') [a; b; [c]]).
  { intros m' E1 E2 E3. exists a, b, c. by rewrite E1, E2. }
  destruct c, s; cbn; unfold sel_eqb; cbn; destruct (has_run_ m); cbn; (eexists _, _; split; [reflexivity|]; split; [by apply HH|done]).
Qed.

Lemma mux_whole n m ins port bit :
  gate_holds n (Muxz m) ins -> wf4 bit -> ((port < 3)%nat -> size bit = port_width n CMuxz port) ->
  mux_accepts n (muxz_recv_vec4 port bit m) ins (<[port := bits_of bit]> ins).
Proof.
  intros (a & b & s & -> & Ha & Hb & La & Lb & Hs) Hw Hn. pose proof (vec_is_bits_of bit Hw) as Hv. pose proof (length_bits_of bit) as Lv.
  destruct port as [|[|[|port]]]; cbn [insert list_insert].
  - assert (L : length (bits_of bit) = n) by (rewrite Lv; by apply Hn; lia). cbn [muxz_recv_vec4].
    rewrite (eeq_vec _ _ _ _ Ha Hv). case_bool_decide as E; cbn [andb].
    + destruct (has_run_ m); [exists m, false; split_and!; [done|by exists a, b, s; rewrite <- E|by rewrite E]|].
      apply (proj1 (mux_data n m a b s bit (bits_of bit) true Ha Hb La Lb Hs Hv L)). done.
    + apply (proj1 (mux_data n m a b s bit (bits_of bit) true Ha Hb La Lb Hs Hv L)). done.
  - assert (L : length (bits_of bit) = n) by (rewrite Lv; by apply Hn; lia). cbn [muxz_recv_vec4].
    rewrite (eeq_vec _ _ _ _ Hb Hv). case_bool_decide as E; cbn [andb].
    + destruct (has_run_ m); [exists m, false; split_and!; [done|by exists a, b, s; rewrite <- E|by rewrite E]|].
      apply (proj2 (mux_data n m a b s bit (bits_of bit) true Ha Hb La Lb Hs Hv L)). done.
    + apply (proj2 (mux_data n m a b s bit (bits_of bit) true Ha Hb La Lb Hs Hv L)). done.
  - apply mux_select; try done. rewrite Lv. by apply Hn; lia.
  - exists m, false. split_and!; [done|by exists a, b, s|done].
Qed.

Lemma overwrite_all m l : length m = length l -> overwrite 0 m l = m.
Proof. intros H. unfold overwrite. cbn [take app Nat.add]. rewrite drop_ge by lia. apply app_nil_r. Qed.

Lemma mux_part n m ins port bit base vwid :
  gate_holds n (Muxz m) ins -> wf4 bit -> (0 < size bit)%nat -> (base + size bit <= vwid)%nat ->
  ((port < 3)%nat -> vwid = port_width n CMuxz port) ->
  mux_accepts n (muxz_recv_vec4_pv port bit base (size bit) vwid m) ins (alter (overwrite base (bits_of bit)) port ins).
Proof.
  intros (a & b & s & -> & Ha & Hb & La & Lb & Hs) Hw H0 Hb' Hn. pose proof (vec_is_bits_of bit Hw) as Hv. pose proof (length_bits_of bit) as Lv.
  unfold muxz_recv_vec4_pv. rewrite Nat.eqb_refl, (proj2 (Nat.leb_le _ _)) by done. cbn [andb].
  assert (HO : forall x l, vec_is x l -> length l = n -> vwid = n -> exists v d, set_vec x base bit = Some (v, d) /\
    vec_is v (overwrite base (bits_of bit) l) /\ length (overwrite base (bits_of bit) l) = n /\ (d || negb (has_run_ m) = false -> overwrite base (bits_of bit) l = l)).
  { intros x l Hx Ll Hvw. destruct (set_vec_changes x base bit l (bits_of bit) Hx Hv) as (v & d & E & Hr & Hd); [by rewrite Lv|by rewrite Lv, Ll; lia|].
    exists v, d. split_and!; [done|done|rewrite length_overwrite; rewrite ?Lv; lia|]. intros [Ed _]%orb_false_iff. by apply Hd. }
  destruct port as [|[|[|port]]]; cbn [alter list_alter].
  - destruct (HO (a_ m) a Ha La (Hn ltac:(lia))) as (v & d & -> & H1 & H2 & H3). cbn [mbind option_bind].
    by apply (proj1 (mux_data n m a b s v _ (d || negb (has_run_ m)) Ha Hb La Lb Hs H1 H2)).
  - destruct (HO (b_ m) b Hb Lb (Hn ltac:(lia))) as (v & d & -> & H1 & H2 & H3). cbn [mbind option_bind].
    by apply (proj2 (mux_data n m a b s v _ (d || negb (has_run_ m)) Ha Hb La Lb Hs H1 H2)).
  - specialize (Hn ltac:(lia)). cbn in Hn. assert (base = 0%nat) as -> by lia. assert (E1 : size bit = 1%nat) by lia.
    rewrite E1. cbn [Nat.eqb andb]. rewrite overwrite_all by (by rewrite Lv, E1). apply mux_select; try done. by rewrite Lv.
  - exists m, false. split_and!; [done|by exists a, b, s|done].
Qed.

Lemma muxz_both_is va vb a b : vec_is va a -> vec_is vb b -> length a = length b ->
  exists r, muxz_both va vb = Some r /\ vec_is r (bv_map2 bit_blend a b).
Proof.
  intros Ha Hb Hl. unfold muxz_both. rewrite (vec_is_size _ _ Ha), (vec_is_size _ _ Hb), Hl, Nat.ltb_irrefl.
  destruct (vec4_fill_spec (length b) BIT4_X) as (Wf & Sf & _).
  destruct (set_bits_all (vec4_fill (length b) BIT4_X) (length b) (fun idx => if bit4_eqb (value va idx) (value vb idx) then value va idx else BIT4_X) Wf Sf) as (r & E & Hr).
  rewrite E. cbn [mbind option_bind]. rewrite Nat.sub_diag. exists r. split; [done|].
  apply (bitwise_is _ _ _ _ Hr); [rewrite length_map2; lia|]. intros i Hi. rewrite nth_map2 by lia.
  by rewrite (vec_is_value _ _ _ Ha), (vec_is_value _ _ _ Hb).
Qed.

Lemma muxz_run_is n m ins : gate_holds n (Muxz m) ins ->
  exists m' v, muxz_run_run m = Some (m', v) /\ gate_holds n (Muxz m') ins /\ vec_is v (gate_out CMuxz ins).
Proof.
  intros (a & b & s & -> & Ha & Hb & La & Lb & Hs). destruct (muxz_both_is _ _ a b Ha Hb ltac:(congruence)) as (r & Er & Hr).
  unfold muxz_run_run. rewrite Hs, Er. destruct s; cbn [sel_of mbind option_bind];
    (eexists _, _; split; [done|]; split; [by eexists a, b, _|done]).
Qed.

(** ** [vvp_fun_part_sa] *)

Lemma part_whole n b w v ins bit : (0 < w)%nat -> (b + w <= n)%nat ->
  gate_holds n (PartSa b w v) ins -> wf4 bit -> size bit = n ->
  exists v' flag, part_sa_recv_vec4 b w 0 bit v = Some (v', flag) /\ gate_holds n (PartSa b w v') [bits_of bit] /\
    size v' = w /\ (flag = false -> gate_out (CPart b w) [bits_of bit] = gate_out (CPart b w) ins).
Proof.
  intros Hw Hn (l & -> & Hl & Hv) Wb Sb. unfold part_sa_recv_vec4. cbn [Nat.eqb]. pose proof (length_bits_of bit) as Lb.
  destruct (subvalue_is bit (bits_of bit) b w (vec_is_bits_of bit Wb)) as (t & -> & Ht); [lia|]. cbn [mbind option_bind].
  assert (St : size t = w) by (rewrite (vec_is_size _ _ Ht), length_take, length_drop; lia).
  assert (HT : gate_holds n (PartSa b w t) [bits_of bit]) by (exists (bits_of bit); split_and!; [done|congruence|by left]).
  destruct Hv as [Hv|[-> ->]].
  - rewrite (eeq_vec v t _ _ Hv Ht). case_bool_decide as E; [|by exists t, true].
    exists v, false. split_and!; [done| |rewrite (vec_is_size _ _ Hv), E, length_take, length_drop; lia|done].
    exists (bits_of bit). split_and!; [done|congruence|]. left. by rewrite <- E.
  - rewrite (eeq_vec _ t _ _ (vec_is_fill 0 BIT4_X) Ht), bool_decide_eq_false_2; [by exists t, true|].
    intros E. apply (f_equal length) in E. rewrite length_take, length_drop in E. cbn in E. lia.
Qed.

Lemma part_part n b w v ins bit base : (0 < w)%nat -> (b + w <= n)%nat ->
  gate_holds n (PartSa b w v) ins -> wf4 bit -> (0 < size bit)%nat -> (base + size bit <= n)%nat ->
  exists v' flag, part_sa_recv_vec4_pv b w 0 bit base (size bit) n v = Some (v', flag) /\
    gate_holds n (PartSa b w v') (alter (overwrite base (bits_of bit)) 0%nat ins) /\ size v' = w /\
    (flag = false -> gate_out (CPart b w) (alter (overwrite base (bits_of bit)) 0%nat ins) = gate_out (CPart b w) ins).
Proof.
  intros Hw Hn Hh Wb Sb Hb. pose proof (vec_is_bits_of bit Wb) as HB. pose proof (length_bits_of bit) as Lb.
  destruct (Hh) as (l & -> & Hl & Hv). unfold part_sa_recv_vec4_pv. rewrite Nat.eqb_refl. cbn [alter list_alter].
  assert (HZ : exists t d l', set_vec (vec4_fill n BIT4_Z) b v = Some (t, d) /\ vec_is t l' /\ length l' = n /\ take w (drop b l') = take w (drop b l)).
  { destruct Hv as [Hv|[-> ->]].
    - assert (Lp : length (take w (drop b l)) = w) by (rewrite length_take, length_drop; lia).
      destruct (set_vec_is _ b v _ _ (vec_is_fill n BIT4_Z) Hv) as (t & d & E & Ht); [by rewrite Lp|by rewrite Lp, length_replicate|].
      exists t, d, (overwrite b (take w (drop b l)) (replicate n BIT4_Z)). split_and!; [done|done|rewrite length_overwrite; rewrite ?Lp, ?length_replicate; done|].
      unfold overwrite. rewrite drop_app_ge by (rewrite length_take, length_replicate; lia).
      rewrite length_take, length_replicate, Nat.min_l, Nat.sub_diag, drop_0 by lia. by rewrite take_app_le, take_ge by lia.
    - rewrite set_vec_empty; [|apply vec4_fill_spec|done|pose proof (vec4_fill_spec n BIT4_Z) as (_ & -> & _); lia].
      eexists _, _, _. split; [done|]. split_and!; [apply vec_is_fill|by rewrite length_replicate|done]. }
  destruct HZ as (t & d & l' & -> & Ht & Ll' & HE). cbn [mbind option_bind].
  destruct (set_vec_is t base bit l' (bits_of bit) Ht HB) as (u & d' & -> & Hu); [by rewrite Lb|by rewrite Lb, Ll'|]. cbn [mbind option_bind].
  assert (Lu : length (overwrite base (bits_of bit) l') = n) by (rewrite length_overwrite; rewrite ?Lb; lia).
  destruct (part_whole n b w v [l] u Hw Hn Hh (vec_is_wf _ _ Hu)) as (v' & flag & E & HH & HS & HF); [by rewrite (vec_is_size _ _ Hu)|].
  rewrite (proj2 Hu) in *. exists v', flag. rewrite E.
  assert (EP : take w (drop b (overwrite base (bits_of bit) l')) = take w (drop b (overwrite base (bits_of bit) l))).
  { apply nth_ext with (d := BIT4_X) (d' := BIT4_X); [rewrite !length_take, !length_drop, Lu, length_overwrite; rewrite ?Lb; lia|].
    intros i Hi. rewrite length_take, length_drop, Lu in Hi. rewrite !nth_prefix, !nth_drop, !nth_overwrite by (rewrite ?Lb; lia).
    case_match; [done|]. apply (f_equal (fun x => nth i x BIT4_X)) in HE. by rewrite !nth_prefix, !nth_drop in HE by lia. }
  split_and!; [done| |done|intros F; specialize (HF F); cbn [gate_out nth] in *; congruence].
  destruct HH as (l0 & [= <-] & _ & HV). exists (overwrite base (bits_of bit) l). split_and!; [done|rewrite length_overwrite; rewrite ?Lb; lia|].
  left. destruct HV as [HV|[-> _]]; [by rewrite <- EP|]. cbn in HS. lia.
Qed.

(** ** All classes *)

Lemma gate_new_holds n c : class_fits n c -> gate_holds n (gate_new n c) (new_inputs n c) /\ class_of (gate_new n c) = c.
Proof.
  intros Hc. pose proof (vec_is_fill n BIT4_Z) as HZ. pose proof (length_replicate n BIT4_Z) as LZ. destruct c; (split; [|done]); unfold new_inputs; cbn.
  - split_and!; [done|repeat first [exact HZ | apply List.Forall2_nil | apply List.Forall2_cons]|repeat first [exact LZ | apply List.Forall_nil | apply List.Forall_cons]].
  - by exists (replicate n BIT4_Z).
  - by exists (replicate n BIT4_Z).
  - by exists (replicate n BIT4_Z), (replicate n BIT4_Z), BIT4_Z.
  - exists (replicate n BIT4_Z). split_and!; [done|done|by right].
Qed.

(** An arrival is taken in, and when no run is wanted the output is as before. *)
Lemma accept_is n g ins a :
  class_fits n (class_of g) -> gate_holds n g ins -> arrival_ok n (class_of g) a ->
  exists g' flag, accept a g = Some (g', flag) /\ class_of g' = class_of g /\ gate_holds n g' (arrive_at a ins) /\ gate_ready g' /\
    (flag = false -> gate_out (class_of g) (arrive_at a ins) = gate_out (class_of g) ins).
Proof.
  intros Hc Hh Ha. destruct a as [port bit|port bit base wid vwid]; cbn [accept arrive_at]; destruct g as [t i|i|i|m|b w v]; cbn [class_of class_ports port_ok arrival_ok] in *.
  - destruct Ha as (Hp & Hw & Hs). destruct (boolean_whole n t i ins port bit Hh Hp Hw (Hs Hp)) as (i' & flag & E & H1 & H2).
    cbn [gate_recv_vec4]. rewrite E. eexists _, flag. split_and!; [done|done|done|done|]. intros F. by rewrite H2.
  - destruct Ha as (Hp & Hw & Hs). destruct (one_whole n i ins port bit Hh Hw) as (i' & flag & E & H1 & H2); [intros ->; by apply Hs; lia|].
    cbn [gate_recv_vec4]. rewrite E. eexists _, flag. split_and!; [done|done|done|done|]. intros F. by rewrite H2.
  - destruct Ha as (Hp & Hw & Hs). destruct (one_whole n i ins port bit Hh Hw) as (i' & flag & E & H1 & H2); [intros ->; by apply Hs; lia|].
    cbn [gate_recv_vec4]. unfold not_recv_vec4. rewrite E. eexists _, flag. split_and!; [done|done|done|done|]. intros F. by rewrite H2.
  - destruct Ha as (Hp & Hw & Hs). destruct (mux_whole n m ins port bit Hh Hw Hs) as (m' & flag & E & H1 & H2).
    cbn [gate_recv_vec4]. rewrite E. by eexists _, flag.
  - destruct Ha as (-> & Hw & Hs). destruct Hc as [Hc1 Hc2]. destruct (part_whole n b w v ins bit Hc1 Hc2 Hh Hw (Hs ltac:(lia))) as (v' & flag & E & H1 & H2 & H3).
    destruct Hh as (l & -> & _). cbn [gate_recv_vec4]. rewrite E. by eexists _, flag.
  - destruct Ha as (Hp & Hw & <- & H0 & Hb & Hv). destruct (boolean_part n t i ins port bit base vwid Hh Hp Hw H0 Hb (Hv Hp)) as (i' & flag & E & H1 & H2).
    cbn [gate_recv_vec4_pv]. rewrite E. eexists _, flag. split_and!; [done|done|done|done|]. intros F. by rewrite H2.
  - destruct Ha as (Hp & Hw & <- & H0 & Hb & Hv). destruct (one_part n i ins port bit base vwid Hh Hw H0 Hb) as (i' & flag & E & H1 & H2); [intros ->; by apply Hv; lia|].
    cbn [gate_recv_vec4_pv]. rewrite E. eexists _, flag. split_and!; [done|done|done|done|]. intros F. by rewrite H2.
  - destruct Ha as (Hp & Hw & <- & H0 & Hb & Hv). destruct (one_part n i ins port bit base vwid Hh Hw H0 Hb) as (i' & flag & E & H1 & H2); [intros ->; by apply Hv; lia|].
    cbn [gate_recv_vec4_pv]. unfold not_recv_vec4_pv. rewrite E. eexists _, flag. split_and!; [done|done|done|done|]. intros F. by rewrite H2.
  - destruct Ha as (Hp & Hw & <- & H0 & Hb & Hv). destruct (mux_part n m ins port bit base vwid Hh Hw H0 Hb Hv) as (m' & flag & E & H1 & H2).
    cbn [gate_recv_vec4_pv]. rewrite E. by eexists _, flag.
  - destruct Ha as (-> & Hw & <- & H0 & Hb & Hv). destruct Hc as [Hc1 Hc2]. specialize (Hv ltac:(lia)). cbn in Hv. subst vwid.
    destruct (part_part n b w v ins bit base Hc1 Hc2 Hh Hw H0 Hb) as (v' & flag & E & H1 & H2 & H3).
    cbn [gate_recv_vec4_pv]. rewrite E. by eexists _, flag.
Qed.

Lemma run_is n g ins : class_fits n (class_of g) -> gate_holds n g ins -> gate_ready g ->
  exists g' v, gate_run_run g = Some (g', v) /\ class_of g' = class_of g /\ gate_holds n g' ins /\ gate_ready g' /\ vec_is v (gate_out (class_of g) ins).
Proof.
  intros Hc Hh Hr. destruct g as [t i|i|i|m|b w v]; cbn [gate_run_run class_of gate_out].
  - destruct t as [inv|inv|inv| |].
    + destruct (boolean_run_is bit4_and inv n _ i ins Hh) as (v & E & Hv). unfold and_run_run. rewrite E. by eexists _, v.
    + destruct (boolean_run_is bit4_or inv n _ i ins Hh) as (v & E & Hv). unfold or_run_run. rewrite E. by eexists _, v.
    + destruct (boolean_run_is bit4_xor inv n _ i ins Hh) as (v & E & Hv). unfold xor_run_run. rewrite E. by eexists _, v.
    + cbn in Hc. subst n. destruct (bool_bit_is (fun a b => bit4_not (bit4_xor a b)) _ i ins Hh) as (x & y & E0 & E1 & S0 & S1 & Hv).
      unfold equiv_run_run. rewrite E0, E1. cbn [mbind option_bind]. rewrite S0, S1. by eexists _, _.
    + cbn in Hc. subst n. destruct (bool_bit_is (fun a b => bit4_or (bit4_not a) b) _ i ins Hh) as (x & y & E0 & E1 & S0 & S1 & Hv).
      unfold impl_run_run. rewrite E0, E1. cbn [mbind option_bind]. rewrite S0, S1. by eexists _, _.
  - destruct (Hh) as (l & -> & Hv & Hl). eexists _, _. split_and!; [done|done|done|done|]. cbn [nth].
    apply (map_is _ i); [done|]. apply change_z2x_spec, Hv.
  - destruct (Hh) as (l & -> & Hv & Hl). eexists _, _. split_and!; [done|done|done|done|]. cbn [nth].
    apply (map_is _ i); [done|]. apply vec4_not_spec, Hv.
  - destruct (muxz_run_is n m ins Hh) as (m' & v & E & H1 & H2). rewrite E. by eexists _, v.
  - destruct (Hh) as (l & -> & Hl & Hv). destruct Hc as [Hc1 Hc2]. exists (PartSa b w v), v. split_and!; [done|done|done|done|]. cbn [nth].
    destruct Hv as [Hv|[-> _]]; [done|]. cbn in Hr. lia.
Qed.

(** ** The gates of a design under the scheduler: what a gate has sent, along any sequence of
    arrivals and runs. *)

(** * The invariant of a gate and its events *)

(** The lists at the ports after a sequence. *)
Definition inputs_after (es : list gate_event) (ins : list (list vvp_bit4_t)) : list (list vvp_bit4_t) :=
  fold_left (fun ins e => match e with Arrive a => arrive_at a ins | Run => ins end) es ins.

Definition event_ok (n : nat) (c : gate_class) (e : gate_event) : Prop :=
  match e with Arrive a => arrival_ok n c a | Run => True end.

(** What was sent last is the output for the inputs; before anything was sent, the output is
    that of the undriven inputs. *)
Definition current (n : nat) (c : gate_class) (ins : list (list vvp_bit4_t)) (st : gate_node) : Prop :=
  match sent st with
  | Some v => vec_is v (gate_out c ins)
  | None => gate_out c ins = gate_out c (new_inputs n c)
  end.

Record node_ok (n : nat) (c : gate_class) (ins : list (list vvp_bit4_t)) (st : gate_node) : Prop := {
  ok_class : class_of (node_gate st) = c;
  ok_holds : gate_holds n (node_gate st) ins;
  ok_queue : queued st = if net_ st then 1%nat else 0%nat;
  ok_ready : net_ st = true -> gate_ready (node_gate st);
  ok_sent : net_ st = false -> current n c ins st }.

Section Trace.
Context (n : nat) (c : gate_class) (Hc : class_fits n c).

Lemma new_ok : node_ok n c (new_inputs n c) (gate_node_new (gate_new n c)).
Proof using Hc. destruct (gate_new_holds n c Hc) as [H1 H2]. by split. Qed.

Lemma arrive_ok ins st a : node_ok n c ins st -> arrival_ok n c a ->
  exists st', gate_step (Arrive a) st = Some st' /\ node_ok n c (arrive_at a ins) st'.
Proof using Hc.
  intros [H1 H2 H3 H4 H5] Ha. destruct st as [g nt q s]. cbn [node_gate net_ queued sent] in *. subst c.
  destruct (accept_is n g ins a Hc H2 Ha) as (g' & flag & E & K & HH & HR & HF).
  cbn [gate_step node_gate]. rewrite E. cbn [mbind option_bind]. eexists. split; [done|]. destruct flag.
  - unfold request_run. cbn [net_ queued sent]. destruct nt; (split; cbn [node_gate net_ queued sent]; try done). by rewrite H3.
  - split; cbn [node_gate net_ queued sent]; try done. intros E0. specialize (H5 E0).
    unfold current in *. cbn [sent] in *. rewrite (HF eq_refl). done.
Qed.

Lemma run_ok ins st : node_ok n c ins st ->
  exists st', gate_step Run st = Some st' /\ node_ok n c ins st' /\ queued st' = 0%nat /\ net_ st' = false.
Proof using Hc.
  intros Hok. destruct (Hok) as [H1 H2 H3 H4 H5]. destruct st as [g nt q s]. cbn [node_gate net_ queued sent] in *. subst c.
  destruct nt; subst q; cbn [gate_step queued node_gate net_]; [|by eexists].
  destruct (run_is n g ins Hc H2 (H4 eq_refl)) as (g' & v & -> & K & HH & HR & HV). cbn [mbind option_bind].
  eexists. split; [done|]. by split_and!.
Qed.

Lemma steps_ok es : forall ins st, node_ok n c ins st -> Forall (event_ok n c) es ->
  exists st', gate_steps es st = Some st' /\ node_ok n c (inputs_after es ins) st'.
Proof using Hc.
  induction es as [|e es IH]; intros ins st Hst Hes; cbn [gate_steps]; [by exists st|]. inversion_clear Hes as [|? ? He Hes'].
  destruct e as [a|].
  - destruct (arrive_ok ins st a Hst He) as (st' & -> & H'). cbn [mbind option_bind]. by apply IH.
  - destruct (run_ok ins st Hst) as (st' & -> & H' & _). cbn [mbind option_bind]. by apply IH.
Qed.
End Trace.

(** * The theorems *)

(** C10: a gate of any class, from its constructor along any sequence of vectors, and parts of
    vectors, arriving at its ports and of runs by the scheduler: nothing fails, the scheduler
    holds the gate at most once, and when it does not hold it the vector sent last is the
    output for the inputs as they are now; a gate that never sent has the output of undriven
    inputs.  From any such state one run brings the output up to date. *)
Theorem gate_trace n c es :
  class_fits n c -> Forall (event_ok n c) es ->
  exists st, gate_steps es (gate_node_new (gate_new n c)) = Some st /\ (queued st <= 1)%nat /\
    (queued st = 0%nat -> current n c (inputs_after es (new_inputs n c)) st) /\
    exists st', gate_step Run st = Some st' /\ queued st' = 0%nat /\ current n c (inputs_after es (new_inputs n c)) st'.
Proof.
  intros Hc Hes. destruct (steps_ok n c Hc es _ _ (new_ok n c Hc) Hes) as (st & E & Hok). exists st. split; [done|].
  destruct (run_ok n c Hc _ _ Hok) as (st' & E' & Hok' & Q & N). pose proof (ok_queue _ _ _ _ Hok) as HQ. split_and!.
  - rewrite HQ. destruct (net_ st); lia.
  - intros H0. apply (ok_sent _ _ _ _ Hok). rewrite H0 in HQ. by destruct (net_ st).
  - exists st'. split_and!; [done|done|by apply (ok_sent _ _ _ _ Hok')].
Qed.

(** The multiplexer sends for the first vector at any of its ports, whether or not it
    differs from the undriven input; the other gates send only for a change. *)
Theorem first_arrival n port bit :
  wf4 bit -> (port < 3)%nat -> size bit = port_width n CMuxz port ->
  (exists st, gate_steps [Arrive (Whole port bit)] (gate_node_new (gate_new n CMuxz)) = Some st /\ queued st = 1%nat) /\
  gate_steps [Arrive (Whole 0 (vec4_fill n BIT4_Z))] (gate_node_new (gate_new n CBuf)) = Some (gate_node_new (gate_new n CBuf)).
Proof.
  intros Hw Hp Hs. split.
  - destruct port as [|[|[|]]]; [| | |lia]; cbn [gate_steps gate_step accept gate_node_new node_gate gate_new gate_recv_vec4 muxz_recv_vec4 muxz_new has_run_ select_].
    + rewrite andb_false_r. by eexists.
    + rewrite andb_false_r. by eexists.
    + cbn in Hs. rewrite Hs. cbn [Nat.eqb]. destruct (value bit 0); by eexists.
  - cbn [gate_steps gate_step accept gate_node_new node_gate gate_new gate_recv_vec4 buf_recv_vec4 negb Nat.eqb].
    rewrite (eeq_vec _ _ _ _ (vec_is_fill n BIT4_Z) (vec_is_fill n BIT4_Z)), bool_decide_eq_true_2 by done. done.
Qed.

(** An input shorter than the first gives X in its missing bits, but for the first of these,
    which is combined with a bit read past the end: in an AND a 0 of the first input gives 0
    there. *)
Theorem short_input b :
  exists v, and_run_run false [vec4_fill 3 b; vec4_fill 1 BIT4_1; vec4_fill 3 BIT4_1; vec4_fill 3 BIT4_1] = Some v /\
    bits_of v = [bit4_z2x b; if bit4_eqb b BIT4_0 then BIT4_0 else BIT4_X; BIT4_X].
Proof. destruct b; (eexists; split; [vm_compute; reflexivity|vm_compute; reflexivity]). Qed.

(** * Witnesses *)

(** A NAND of four bits: a part of an undriven input arrives before the whole of it. *)
Lemma gate_trace_witness :
  let es := [Arrive (Whole 0 (vec4_fill 4 BIT4_1)); Arrive (Part 1 (vec4_fill 2 BIT4_1) 1 2 4); Run;
             Arrive (Whole 2 (vec4_fill 4 BIT4_1)); Arrive (Whole 3 (vec4_fill 4 BIT4_1)); Arrive (Part 1 (vec4_fill 1 BIT4_0) 0 1 4)] in
  exists st, gate_steps es (gate_node_new (gate_new 4 (CBoolean (And true)))) = Some st /\ (queued st <= 1)%nat /\
    (queued st = 0%nat -> current 4 (CBoolean (And true)) (inputs_after es (new_inputs 4 (CBoolean (And true)))) st) /\
    exists st', gate_step Run st = Some st' /\ queued st' = 0%nat /\ current 4 (CBoolean (And true)) (inputs_after es (new_inputs 4 (CBoolean (And true)))) st'.
Proof.
  intros es. apply (gate_trace 4 (CBoolean (And true)) es); [exact I|].
  unfold es. repeat (apply List.Forall_cons || apply List.Forall_nil); cbn [event_ok arrival_ok port_ok class_ports port_width]; try exact I;
    split_and!; (apply vec4_fill_spec || lia || reflexivity || (intros _; reflexivity)).
Defined.

Lemma first_arrival_witness :
  (exists st, gate_steps [Arrive (Whole 2 (vec4_fill 1 BIT4_X))] (gate_node_new (gate_new 4 CMuxz)) = Some st /\ queued st = 1%nat) /\
  gate_steps [Arrive (Whole 0 (vec4_fill 4 BIT4_Z))] (gate_node_new (gate_new 4 CBuf)) = Some (gate_node_new (gate_new 4 CBuf)).
Proof. apply (first_arrival 4 2 (vec4_fill 1 BIT4_X)); [apply vec4_fill_spec|lia|reflexivity]. Defined.
