(* ===== verification/Switches.v ===== *)
(** The three-state buffers ([vvp/bufif.h], [vvp/bufif.cc]) and the MOS switches
    ([vvp/npmos.h], [vvp/npmos.cc]) of a compiled design: functors that send a vector with
    strengths for every value that arrives.

    A handler gives the new state and the vector sent, if any; the outer [None] is a failed
    [assert]. *)
From S2P Require Import Prelude MachineWord VvpBit VvpVector4 VvpSlice VvpArith VvpStrength.

(** * Parts *)

(** [vvp_net_fun_t::recv_vec4_pv_] and [recv_vec8_pv_]: a part stands for a vector that is not
    driven elsewhere. *)
Definition recv_vec4_pv_ (bit : vvp_vector4_t) (base wid vwid : nat) : option vvp_vector4_t :=
  if (size bit =? wid)%nat && (base + wid <=? vwid)%nat
  then '(tmp, _) ← set_vec (vec4_fill vwid BIT4_Z) base bit; Some tmp else None.

Definition recv_vec8_pv_ (bit : vvp_vector8_t) (base wid vwid : nat) : option vvp_vector8_t :=
  if (size8 bit =? wid)%nat && (base + wid <=? vwid)%nat
  then set_vec8 (vec8_new vwid) base bit else None.

(** * [vvp_fun_bufif] *)

Record vvp_fun_bufif := mkBufif {
  pol_ : bool; inv_ : bool; drive0_ : Z; drive1_ : Z; bufif_bit_ : vvp_vector4_t; bufif_en_ : vvp_vector4_t }.

Definition bufif_new (en_invert out_invert : bool) (str0 str1 : Z) : vvp_fun_bufif :=
  mkBufif en_invert out_invert str0 str1 (vec4_fill 0 BIT4_X) (vec4_fill 0 BIT4_X).

(** One bit of the output. *)
Definition bufif_scalar (drive0_ drive1_ : Z) (b_en b_bit : vvp_bit4_t) : option vvp_scalar_t :=
  match b_en with
  | BIT4_0 => scalar_new BIT4_Z drive0_ drive1_
  | BIT4_1 => if bit4_is_xz b_bit then scalar_new BIT4_X drive0_ drive1_ else scalar_new b_bit drive0_ drive1_
  | _ =>
      match b_bit with
      | BIT4_0 => scalar_new BIT4_X drive0_ 0
      | BIT4_1 => scalar_new BIT4_X 0 drive1_
      | _ => scalar_new BIT4_X drive0_ drive1_
      end
  end.

Definition bufif_out (st : vvp_fun_bufif) (n : nat) : option vvp_vector8_t :=
  set_bits8 n 0 (fun idx => bufif_scalar (drive0_ st) (drive1_ st) (value (bufif_en_ st) idx) (value (bufif_bit_ st) idx)) (vec8_new n).

Definition bufif_recv_vec4 (port : nat) (bit : vvp_vector4_t) (st : vvp_fun_bufif) : option (vvp_fun_bufif * option vvp_vector8_t) :=
  let send st := out ← bufif_out st (size bit); Some (st, Some out) in
  match port with
  | 0%nat => send (mkBufif (pol_ st) (inv_ st) (drive0_ st) (drive1_ st) (if inv_ st then vec4_not bit else bit) (bufif_en_ st))
  | 1%nat => send (mkBufif (pol_ st) (inv_ st) (drive0_ st) (drive1_ st) (bufif_bit_ st) (if pol_ st then vec4_not bit else bit))
  | _ => Some (st, None)
  end.

Definition bufif_recv_vec4_pv (port : nat) (bit : vvp_vector4_t) (base wid vwid : nat) (st : vvp_fun_bufif) :=
  tmp ← recv_vec4_pv_ bit base wid vwid; bufif_recv_vec4 port tmp st.

(** * Switches *)

(** The data bit behind the switch: its value, with the strengths of the map. *)
Definition switch_scalar (resistive_ : bool) (b_bit : vvp_scalar_t) : option vvp_scalar_t :=
  scalar_new (scalar_value b_bit) (vvp_switch_strength_map resistive_ (strength0 b_bit)) (vvp_switch_strength_map resistive_ (strength1 b_bit)).

(** A switch that may be off. *)
Definition switch_unknown (b_bit : vvp_scalar_t) : option vvp_scalar_t :=
  match scalar_value b_bit with
  | BIT4_0 => scalar_new BIT4_X (strength0 b_bit) 0
  | BIT4_1 => scalar_new BIT4_X 0 (strength1 b_bit)
  | _ => Some b_bit
  end.

(** ** [vvp_fun_pmos_] *)

Record vvp_fun_pmos_ := mkPmos { pmos_bit_ : vvp_vector8_t; pmos_en_ : vvp_vector4_t; inv_en_ : bool; pmos_resistive_ : bool }.

Definition pmos_new (enable_invert resistive : bool) : vvp_fun_pmos_ :=
  mkPmos vec8_nil (vec4_fill 0 BIT4_X) enable_invert resistive.

Definition pmos_scalar (resistive_ : bool) (b_en : vvp_bit4_t) (b_bit : vvp_scalar_t) : option vvp_scalar_t :=
  b_bit ← switch_scalar resistive_ b_bit;
  match b_en with
  | BIT4_0 => Some b_bit
  | BIT4_1 => scalar_new BIT4_Z 0 0
  | _ => switch_unknown b_bit
  end.

(** Nothing is sent before there is data. *)
Definition send_some (out : vvp_vector8_t) : option vvp_vector8_t := if (0 <? size8 out)%nat then Some out else None.

Definition pmos_generate_output_ (st : vvp_fun_pmos_) : option (option vvp_vector8_t) :=
  let n := size8 (pmos_bit_ st) in
  out ← set_bits8 n 0 (fun idx => b ← value8 (pmos_bit_ st) idx; pmos_scalar (pmos_resistive_ st) (value (pmos_en_ st) idx) b) (vec8_new n);
  Some (send_some out).

Definition pmos_data (bit : vvp_vector8_t) (st : vvp_fun_pmos_) :=
  let st := mkPmos bit (pmos_en_ st) (inv_en_ st) (pmos_resistive_ st) in
  out ← pmos_generate_output_ st; Some (st, out).

Definition pmos_enable (bit : vvp_vector4_t) (st : vvp_fun_pmos_) :=
  let st := mkPmos (pmos_bit_ st) (if inv_en_ st then vec4_not bit else bit) (inv_en_ st) (pmos_resistive_ st) in
  out ← pmos_generate_output_ st; Some (st, out).

Definition pmos_recv_vec4 (port : nat) (bit : vvp_vector4_t) (st : vvp_fun_pmos_) : option (vvp_fun_pmos_ * option vvp_vector8_t) :=
  match port with
  | 0%nat => tmp ← vec8_of_vec4 bit 6 6; pmos_data tmp st
  | 1%nat => pmos_enable bit st
  | _ => Some (st, None)
  end.

(** [vvp_fun_pmos] and [vvp_fun_rpmos]. *)
Definition pmos_recv_vec8 (port : nat) (bit : vvp_vector8_t) (st : vvp_fun_pmos_) : option (vvp_fun_pmos_ * option vvp_vector8_t) :=
  match port with
  | 1%nat => tmp ← reduce4 bit; pmos_recv_vec4 port tmp st
  | 0%nat => pmos_data bit st
  | _ => Some (st, None)
  end.
Definition rpmos_recv_vec8 := pmos_recv_vec8.

Definition pmos_recv_vec4_pv (port : nat) (bit : vvp_vector4_t) (base wid vwid : nat) (st : vvp_fun_pmos_) :=
  tmp ← recv_vec4_pv_ bit base wid vwid; pmos_recv_vec4 port tmp st.
Definition pmos_recv_vec8_pv (port : nat) (bit : vvp_vector8_t) (base wid vwid : nat) (st : vvp_fun_pmos_) :=
  tmp ← recv_vec8_pv_ bit base wid vwid; pmos_recv_vec8 port tmp st.

(** ** [vvp_fun_cmos_] *)

Record vvp_fun_cmos_ := mkCmos { cmos_bit_ : vvp_vector8_t; n_en_ : vvp_vector4_t; p_en_ : vvp_vector4_t; cmos_resistive_ : bool }.

Definition cmos_new (resistive : bool) : vvp_fun_cmos_ := mkCmos vec8_nil (vec4_fill 0 BIT4_X) (vec4_fill 0 BIT4_X) resistive.

Definition cmos_scalar (resistive_ : bool) (b_n_en b_p_en : vvp_bit4_t) (b_bit : vvp_scalar_t) : option vvp_scalar_t :=
  b_bit ← switch_scalar resistive_ b_bit;
  if bit4_eqb b_n_en BIT4_1 || bit4_eqb b_p_en BIT4_0 then Some b_bit
  else if bit4_eqb b_n_en BIT4_0 && bit4_eqb b_p_en BIT4_1 then scalar_new BIT4_Z 0 0
  else switch_unknown b_bit.

Definition cmos_generate_output_ (st : vvp_fun_cmos_) : option (option vvp_vector8_t) :=
  let n := size8 (cmos_bit_ st) in
  out ← set_bits8 n 0 (fun idx =>
    b ← value8 (cmos_bit_ st) idx; cmos_scalar (cmos_resistive_ st) (value (n_en_ st) idx) (value (p_en_ st) idx) b) (vec8_new n);
  Some (send_some out).

Definition cmos_data (bit : vvp_vector8_t) (st : vvp_fun_cmos_) :=
  let st := mkCmos bit (n_en_ st) (p_en_ st) (cmos_resistive_ st) in
  out ← cmos_generate_output_ st; Some (st, out).

Definition cmos_recv_vec4 (port : nat) (bit : vvp_vector4_t) (st : vvp_fun_cmos_) : option (vvp_fun_cmos_ * option vvp_vector8_t) :=
  let send st := out ← cmos_generate_output_ st; Some (st, out) in
  match port with
  | 0%nat => tmp ← vec8_of_vec4 bit 6 6; cmos_data tmp st
  | 1%nat => send (mkCmos (cmos_bit_ st) bit (p_en_ st) (cmos_resistive_ st))
  | 2%nat => send (mkCmos (cmos_bit_ st) (n_en_ st) bit (cmos_resistive_ st))
  | _ => Some (st, None)
  end.

(** [vvp_fun_cmos::recv_vec8] and [vvp_fun_rcmos::recv_vec8]. *)
Definition cmos_recv_vec8 (port : nat) (bit : vvp_vector8_t) (st : vvp_fun_cmos_) : option (vvp_fun_cmos_ * option vvp_vector8_t) :=
  if (port =? 1)%nat || (port =? 2)%nat then tmp ← reduce4 bit; cmos_recv_vec4 port tmp st
  else if negb (port =? 0)%nat then Some (st, None)
  else cmos_data bit st.

Definition rcmos_recv_vec8 (port : nat) (bit : vvp_vector8_t) (st : vvp_fun_cmos_) : option (vvp_fun_cmos_ * option vvp_vector8_t) :=
  if (port =? 1)%nat then tmp ← reduce4 bit; cmos_recv_vec4 port tmp st
  else if negb (port =? 0)%nat then Some (st, None)
  else cmos_data bit st.

Definition cmos_recv_vec4_pv (port : nat) (bit : vvp_vector4_t) (base wid vwid : nat) (st : vvp_fun_cmos_) :=
  tmp ← recv_vec4_pv_ bit base wid vwid; cmos_recv_vec4 port tmp st.
Definition cmos_recv_vec8_pv (port : nat) (bit : vvp_vector8_t) (base wid vwid : nat) (st : vvp_fun_cmos_) :=
  tmp ← recv_vec8_pv_ bit base wid vwid; cmos_recv_vec8 port tmp st.
Definition rcmos_recv_vec8_pv (port : nat) (bit : vvp_vector8_t) (base wid vwid : nat) (st : vvp_fun_cmos_) :=
  tmp ← recv_vec8_pv_ bit base wid vwid; rcmos_recv_vec8 port tmp st.
