(* ===== verification/SwitchProps.v ===== *)
(** The three-state buffers and the switches on ranges of strengths: what each sends for the
    values that it holds, and what becomes of ambiguous strengths. *)
From S2P Require Import Prelude MachineWord VvpBit VvpVector4 VvpSlice VvpArith VvpCompare BitList VThreadSpec VvpFunctor VThreadIndex VThreadMod.
From S2P Require Import VvpStrength StrengthSpec Switches.

(** * The tables *)

(** A signed strength behind a switch. *)
Definition pass (resistive : bool) (s : Z) : Z :=
  if s <? 0 then - vvp_switch_strength_map resistive (- s) else vvp_switch_strength_map resistive s.
Definition pass_range (resistive : bool) (r : Z * Z) : Z * Z := (pass resistive (fst r), pass resistive (snd r)).

(** A drive that may be there or not. *)
Definition maybe_range (r : Z * Z) : Z * Z := (Z.min 0 (fst r), Z.max 0 (snd r)).

(** Whether a switch is closed. *)
Inductive closed := On | Off | Maybe.
Definition switch_range (c : closed) (r : Z * Z) : Z * Z :=
  match c with On => r | Off => (0, 0) | Maybe => maybe_range r end.

Definition pmos_closed (en : vvp_bit4_t) : closed := match en with BIT4_0 => On | BIT4_1 => Off | _ => Maybe end.
Definition bufif_closed (en : vvp_bit4_t) : closed := match en with BIT4_0 => Off | BIT4_1 => On | _ => Maybe end.
Definition cmos_closed (n_en p_en : vvp_bit4_t) : closed :=
  match n_en, p_en with BIT4_1, _ | _, BIT4_0 => On | BIT4_0, BIT4_1 => Off | _, _ => Maybe end.

(** Scalars whose strength is one, or that are unknown. *)
Definition exact (v : vvp_scalar_t) : bool :=
  wf_scalar v && ((sv0 v =? sv1 v) || bit4_eqb (scalar_value v) BIT4_X || bit4_eqb (scalar_value v) BIT4_Z).

Definition gives (x : option vvp_scalar_t) (r : Z * Z) : bool :=
  match x with Some v => wf_scalar v && range_eqb (range v) r | None => false end.

Lemma gives_spec x r : gives x r = true -> exists v, x = Some v /\ wf_scalar v = true /\ range v = r.
Proof.
  unfold gives. destruct x as [v|]; [|done]. intros [H1 H2]%andb_true_iff. exists v. split_and!; [done|done|by apply range_eqb_eq].
Qed.

Definition bufif_checks : bool :=
  forallb (fun en => forallb (fun b => forallb (fun s0 => forallb (fun s1 =>
    gives (bufif_scalar s0 s1 en b) (switch_range (bufif_closed en) (drive_range (bit4_z2x b) s0 s1))) all_strengths) all_strengths) all_bits) all_bits.

Definition switch_checks : bool :=
  forallb (fun r => forallb (fun x => negb (exact x) ||
    forallb (fun en => gives (pmos_scalar r en x) (switch_range (pmos_closed en) (pass_range r (range x))) &&
      forallb (fun n => gives (cmos_scalar r n en x) (switch_range (cmos_closed n en) (pass_range r (range x)))) all_bits) all_bits)
    all_scalars) [true; false].

Lemma bufif_checked : bufif_checks = true.
Proof. vm_compute. reflexivity. Qed.
Lemma switch_checked : switch_checks = true.
Proof. vm_compute. reflexivity. Qed.

Lemma bufif_table en b s0 s1 : 0 <= s0 <= 7 -> 0 <= s1 <= 7 ->
  exists v, bufif_scalar s0 s1 en b = Some v /\ wf_scalar v = true /\ range v = switch_range (bufif_closed en) (drive_range (bit4_z2x b) s0 s1).
Proof.
  intros H0 H1. apply gives_spec. pose proof bufif_checked as H. unfold bufif_checks in H.
  rewrite forallb_forall in H. specialize (H en (all_bits_in en)). cbn beta in H.
  rewrite forallb_forall in H. specialize (H b (all_bits_in b)). cbn beta in H.
  rewrite forallb_forall in H. specialize (H s0 (all_strengths_in s0 H0)). cbn beta in H.
  rewrite forallb_forall in H. exact (H s1 (all_strengths_in s1 H1)).
Qed.

Lemma switch_entry r x en : exact x = true ->
  gives (pmos_scalar r en x) (switch_range (pmos_closed en) (pass_range r (range x))) &&
    forallb (fun n => gives (cmos_scalar r n en x) (switch_range (cmos_closed n en) (pass_range r (range x)))) all_bits = true.
Proof.
  intros Hx. assert (Hr : In r [true; false]) by (destruct r; cbn; auto). pose proof switch_checked as H. unfold switch_checks in H.
  rewrite forallb_forall in H. specialize (H r Hr). cbn beta in H.
  assert (Wx : wf_scalar x = true) by (by apply andb_true_iff in Hx as [? _]).
  rewrite forallb_forall in H. specialize (H x (wf_in x Wx)). cbn beta in H. rewrite Hx in H. cbn [negb orb] in H.
  rewrite forallb_forall in H. exact (H en (all_bits_in en)).
Qed.

Lemma pmos_table r en x : exact x = true ->
  exists v, pmos_scalar r en x = Some v /\ wf_scalar v = true /\ range v = switch_range (pmos_closed en) (pass_range r (range x)).
Proof. intros Hx. apply gives_spec. pose proof (switch_entry r x en Hx) as H. by apply andb_true_iff in H as [H _]. Qed.

Lemma cmos_table r n p x : exact x = true ->
  exists v, cmos_scalar r n p x = Some v /\ wf_scalar v = true /\ range v = switch_range (cmos_closed n p) (pass_range r (range x)).
Proof.
  intros Hx. apply gives_spec. pose proof (switch_entry r x p Hx) as H. apply andb_true_iff in H as [_ H].
  rewrite forallb_forall in H. exact (H n (all_bits_in n)).
Qed.

(** * Vectors *)

(** A vector sent of which each bit has a given range. *)
Definition ranges_are (v : vvp_vector8_t) (n : nat) (r : nat -> Z * Z) : Prop :=
  wf8 v /\ size8 v = n /\ forall i, (i < n)%nat -> exists x, value8 v i = Some x /\ wf_scalar x = true /\ range x = r i.

Lemma ranges_new n (f : nat -> option vvp_scalar_t) (r : nat -> Z * Z) :
  (forall i, (i < n)%nat -> exists x, f i = Some x /\ wf_scalar x = true /\ range x = r i) ->
  exists v, set_bits8 n 0 f (vec8_new n) = Some v /\ ranges_are v n r.
Proof.
  intros Hf.
  assert (HX : exists xs, length xs = n /\ forall i, (i < n)%nat -> f i = xs !! i).
  { induction n as [|n IH]; [exists []; split; [done|lia]|]. destruct IH as (xs & L & H); [intros i Hi; apply Hf; lia|].
    destruct (Hf n ltac:(lia)) as (x & E & _). exists (xs ++ [x]). split; [rewrite length_app; cbn; lia|]. intros i Hi.
    destruct (Nat.eq_dec i n) as [->|Hne]; [rewrite lookup_app_r, L, Nat.sub_diag by lia; done|]. rewrite lookup_app_l by lia. apply H. lia. }
  destruct HX as (xs & L & H). destruct (set_all8_is f n xs L H) as (v & E & Hv). exists v. split; [done|].
  split_and!; [apply Hv|by rewrite (vec8_is_size _ _ Hv)|]. intros i Hi. rewrite (value8_is _ _ _ Hv), <- H by done. by apply Hf.
Qed.

(** ** Buffers *)

Definition flip (inv : bool) (b : vvp_bit4_t) : vvp_bit4_t := if inv then bit4_not b else b.

Lemma value_flip (inv : bool) v l i : vec_is v l -> (i < length l)%nat ->
  value (if inv then vec4_not v else v) i = flip inv (nth i l BIT4_X).
Proof.
  intros Hv Hi. unfold flip. destruct inv; [|by apply vec_is_value].
  destruct (vec4_not_spec v (vec_is_wf _ _ Hv)) as (_ & _ & HN). rewrite HN by (by rewrite (vec_is_size _ _ Hv)). by rewrite (vec_is_value _ _ _ Hv).
Qed.

(** Bufif0, bufif1, notif0 and notif1: for a vector at the data or the enable port the
    gate sends one scalar per bit of it: no drive when disabled; the drive strengths for the
    value, X for an unknown one, when enabled; and when the enable is unknown, everything from
    no drive to that drive.  The other vector is the one that arrived last, X before. *)
Theorem bufif_output st port bit l :
  vec_is bit l -> (port < 2)%nat -> 0 <= drive0_ st <= 7 -> 0 <= drive1_ st <= 7 ->
  exists st' out, bufif_recv_vec4 port bit st = Some (st', Some out) /\
    (forall i, (i < length l)%nat ->
      value (bufif_bit_ st') i = (if (port =? 0)%nat then flip (inv_ st) (nth i l BIT4_X) else value (bufif_bit_ st) i) /\
      value (bufif_en_ st') i = (if (port =? 1)%nat then flip (pol_ st) (nth i l BIT4_X) else value (bufif_en_ st) i)) /\
    ranges_are out (length l) (fun i => switch_range (bufif_closed (value (bufif_en_ st') i))
      (drive_range (bit4_z2x (value (bufif_bit_ st') i)) (drive0_ st) (drive1_ st))).
Proof.
  intros Hl Hp H0 H1. unfold bufif_recv_vec4, bufif_out. rewrite (vec_is_size _ _ Hl).
  assert (HS : forall e b, exists out, set_bits8 (length l) 0 (fun idx => bufif_scalar (drive0_ st) (drive1_ st) (value e idx) (value b idx)) (vec8_new (length l)) = Some out /\
    ranges_are out (length l) (fun i => switch_range (bufif_closed (value e i)) (drive_range (bit4_z2x (value b i)) (drive0_ st) (drive1_ st)))).
  { intros e b. apply ranges_new. intros i Hi. by apply bufif_table. }
  destruct port as [|[|]]; [| |lia]; cbn [bufif_en_ bufif_bit_ drive0_ drive1_].
  - destruct (HS (bufif_en_ st) (if inv_ st then vec4_not bit else bit)) as (out & -> & Ho). cbn [mbind option_bind].
    eexists _, out. split; [done|]. cbn [bufif_bit_ bufif_en_ Nat.eqb]. split; [|done]. intros i Hi. split; [by apply value_flip|done].
  - destruct (HS (if pol_ st then vec4_not bit else bit) (bufif_bit_ st)) as (out & -> & Ho). cbn [mbind option_bind].
    eexists _, out. split; [done|]. cbn [bufif_bit_ bufif_en_ Nat.eqb]. split; [|done]. intros i Hi. split; [done|by apply value_flip].
Qed.

(** ** Switches *)

Definition exact_vec (v : vvp_vector8_t) (l : list vvp_scalar_t) : Prop := vec8_is v l /\ Forall (fun x => exact x = true) l.

Lemma exact_at v l i : exact_vec v l -> (i < length l)%nat -> exists x, value8 v i = Some x /\ l !! i = Some x /\ exact x = true.
Proof.
  intros [Hv Hx] Hi. destruct (lookup_lt_is_Some_2 l i Hi) as [x Ex]. exists x. rewrite (value8_is _ _ _ Hv).
  split_and!; [done|done|]. by apply (Forall_lookup_1 _ _ _ _ Hx Ex).
Qed.

Definition range_at (l : list vvp_scalar_t) (i : nat) : Z * Z := range (nth i l 0).

Lemma pmos_out_is st l : exact_vec (pmos_bit_ st) l -> (0 < length l)%nat ->
  exists out, pmos_generate_output_ st = Some (Some out) /\
    ranges_are out (length l) (fun i => switch_range (pmos_closed (value (pmos_en_ st) i)) (pass_range (pmos_resistive_ st) (range_at l i))).
Proof.
  intros Hx Hl. unfold pmos_generate_output_. rewrite (vec8_is_size _ _ (proj1 Hx)).
  destruct (ranges_new (length l) (fun idx => b ← value8 (pmos_bit_ st) idx; pmos_scalar (pmos_resistive_ st) (value (pmos_en_ st) idx) b)
    (fun i => switch_range (pmos_closed (value (pmos_en_ st) i)) (pass_range (pmos_resistive_ st) (range_at l i)))) as (out & -> & Ho).
  - intros i Hi. destruct (exact_at _ _ i Hx Hi) as (x & -> & El & Ex). unfold range_at. rewrite (nth_lookup_Some _ _ _ _ El). by apply pmos_table.
  - cbn [mbind option_bind]. exists out. split; [|done]. unfold send_some. destruct Ho as (_ & -> & _). by rewrite (proj2 (Nat.ltb_lt _ _)).
Qed.

Lemma cmos_out_is st l : exact_vec (cmos_bit_ st) l -> (0 < length l)%nat ->
  exists out, cmos_generate_output_ st = Some (Some out) /\
    ranges_are out (length l) (fun i => switch_range (cmos_closed (value (n_en_ st) i) (value (p_en_ st) i)) (pass_range (cmos_resistive_ st) (range_at l i))).
Proof.
  intros Hx Hl. unfold cmos_generate_output_. rewrite (vec8_is_size _ _ (proj1 Hx)).
  destruct (ranges_new (length l) (fun idx => b ← value8 (cmos_bit_ st) idx; cmos_scalar (cmos_resistive_ st) (value (n_en_ st) idx) (value (p_en_ st) idx) b)
    (fun i => switch_range (cmos_closed (value (n_en_ st) i) (value (p_en_ st) i)) (pass_range (cmos_resistive_ st) (range_at l i)))) as (out & -> & Ho).
  - intros i Hi. destruct (exact_at _ _ i Hx Hi) as (x & -> & El & Ex). unfold range_at. rewrite (nth_lookup_Some _ _ _ _ El). by apply cmos_table.
  - cbn [mbind option_bind]. exists out. split; [|done]. unfold send_some. destruct Ho as (_ & -> & _). by rewrite (proj2 (Nat.ltb_lt _ _)).
Qed.

Lemma reduce4_is v l : vec8_is v l -> exists r, reduce4 v = Some r /\ vec_is r (map scalar_value l).
Proof.
  intros Hv. unfold reduce4. rewrite (vec8_is_size _ _ Hv). destruct (vec4_fill_spec (length l) BIT4_X) as (Wf & Sf & _).
  destruct (in_place_loop_at (fun i _ => scalar_value (nth i l 0)) (fun idx out => out ← out; x ← value8 v idx; set_bit out idx (scalar_value x))
    (vec4_fill (length l) BIT4_X) (length l)) as (r & E & Hr); [done|lia| |].
  - intros idx t Wt St Hi. cbn [mbind option_bind]. destruct (lookup_lt_is_Some_2 l idx Hi) as [x Ex].
    rewrite (value8_is _ _ _ Hv), Ex. cbn [mbind option_bind]. rewrite (nth_lookup_Some _ _ _ _ Ex). apply set_bit_spec; [done|lia].
  - exists r. split; [exact E|]. apply (bitwise_is _ _ _ _ Hr); [by rewrite length_map, Sf|]. intros i Hi. rewrite Sf in Hi.
    rewrite (proj2 (Nat.ltb_lt _ _)) by done. rewrite nth_indep with (d' := scalar_value 0) by (by rewrite length_map). by rewrite map_nth.
Qed.

Definition exact_new (b : vvp_bit4_t) : bool := match scalar_new b 6 6 with Some v => exact v && bit4_eqb (scalar_value v) b | None => false end.
Lemma exact_news : forallb exact_new all_bits = true.
Proof. vm_compute. reflexivity. Qed.

(** A vector without strengths is a strong drive. *)
Lemma strong_vec bit l : vec_is bit l -> exists v xs, vec8_of_vec4 bit 6 6 = Some v /\ exact_vec v xs /\ length xs = length l /\ map scalar_value xs = l.
Proof.
  intros Hl. unfold vec8_of_vec4, vec8_of_bits. rewrite (vec_is_size _ _ Hl).
  assert (HX : exists xs, length xs = length l /\ Forall (fun x => exact x = true) xs /\ map scalar_value xs = l /\
    forall i, (i < length l)%nat -> scalar_new (nth i l BIT4_X) 6 6 = xs !! i).
  { clear Hl. induction l as [|b l (xs & E & F & M & H)]; [exists []; split_and!; [done|constructor|done|cbn; lia]|].
    pose proof exact_news as HN. rewrite forallb_forall in HN. specialize (HN b (all_bits_in b)). unfold exact_new in HN.
    destruct (scalar_new b 6 6) as [x|] eqn:Ex; [|done]. apply andb_true_iff in HN as [Px Vx]. apply bit4_eqb_eq in Vx.
    exists (x :: xs). split_and!; [cbn; lia|by constructor|cbn; congruence|]. intros [|i] Hi; [done|]. apply H. cbn in Hi. lia. }
  destruct HX as (xs & E & F & M & H).
  destruct (set_all8_is (fun idx => scalar_new (value bit idx) 6 6) (length l) xs E) as (d & Ed & Hd).
  { intros i Hi. rewrite (vec_is_value _ _ _ Hl). by apply H. }
  exists d, xs. by split_and!.
Qed.

(** Pmos, nmos and their resistive forms: the vector sent for new data is the data behind
    the switch, with the strengths of the table, bit by bit closed, open or perhaps closed;
    for a new enable it is the same of the data held; strengths of an enable are dropped, and
    data without strengths are strong. *)
Theorem pmos_output st port bit l :
  exact_vec bit l -> (0 < length l)%nat -> (port = 1%nat -> exact_vec (pmos_bit_ st) l) -> (port < 2)%nat ->
  exists st' out data, pmos_recv_vec8 port bit st = Some (st', Some out) /\ exact_vec (pmos_bit_ st') data /\ length data = length l /\
    pmos_resistive_ st' = pmos_resistive_ st /\
    (port = 0%nat -> data = l /\ pmos_en_ st' = pmos_en_ st) /\
    (port = 1%nat -> pmos_bit_ st' = pmos_bit_ st /\ forall i, (i < length l)%nat -> value (pmos_en_ st') i = flip (inv_en_ st) (scalar_value (nth i l 0))) /\
    ranges_are out (length l) (fun i => switch_range (pmos_closed (value (pmos_en_ st') i)) (pass_range (pmos_resistive_ st) (range_at data i))).
Proof.
  intros Hx Hl Hd Hp. destruct port as [|[|]]; [| |lia]; cbn [pmos_recv_vec8 pmos_recv_vec4].
  - unfold pmos_data. destruct (pmos_out_is (mkPmos bit (pmos_en_ st) (inv_en_ st) (pmos_resistive_ st)) l Hx Hl) as (out & -> & Ho).
    cbn [mbind option_bind]. eexists _, out, l. split; [done|]. by split_and!.
  - destruct (reduce4_is bit l (proj1 Hx)) as (e & -> & He). cbn [mbind option_bind]. unfold pmos_enable.
    specialize (Hd eq_refl). destruct (pmos_out_is (mkPmos (pmos_bit_ st) (if inv_en_ st then vec4_not e else e) (inv_en_ st) (pmos_resistive_ st)) l Hd Hl) as (out & -> & Ho).
    cbn [mbind option_bind]. eexists _, out, l. split; [done|]. split_and!; try done. intros _. split; [done|]. intros i Hi. cbn [pmos_en_].
    rewrite (value_flip (inv_en_ st) e _ i He) by (by rewrite length_map). f_equal.
    rewrite nth_indep with (d' := scalar_value 0) by (by rewrite length_map). by rewrite map_nth.
Qed.

(** Cmos and rcmos: the data behind two switches of which one closed is enough. *)
Theorem cmos_output st port bit l data :
  vec_is bit l -> (0 < length l)%nat -> (port < 3)%nat -> (port <> 0%nat -> exact_vec (cmos_bit_ st) data /\ length data = length l) ->
  (port = 0%nat -> map scalar_value data = l /\ exists d, vec8_of_vec4 bit 6 6 = Some d /\ exact_vec d data) ->
  exists st' out, cmos_recv_vec4 port bit st = Some (st', Some out) /\
    n_en_ st' = (if (port =? 1)%nat then bit else n_en_ st) /\ p_en_ st' = (if (port =? 2)%nat then bit else p_en_ st) /\
    exact_vec (cmos_bit_ st') data /\
    ranges_are out (length l) (fun i => switch_range (cmos_closed (value (n_en_ st') i) (value (p_en_ st') i))
      (pass_range (cmos_resistive_ st) (range_at data i))).
Proof.
  intros Hb Hl Hp Hd H0. destruct port as [|[|[|]]]; [| | |lia]; cbn [cmos_recv_vec4].
  - destruct (H0 eq_refl) as (HM & d & -> & Hx). cbn [mbind option_bind]. unfold cmos_data.
    assert (Ld : length data = length l) by (by rewrite <- HM, length_map).
    destruct (cmos_out_is (mkCmos d (n_en_ st) (p_en_ st) (cmos_resistive_ st)) data Hx ltac:(lia)) as (out & -> & Ho). cbn [mbind option_bind].
    eexists _, out. split; [done|]. rewrite Ld in Ho. by split_and!.
  - destruct (Hd ltac:(done)) as [Hx Ld]. destruct (cmos_out_is (mkCmos (cmos_bit_ st) bit (p_en_ st) (cmos_resistive_ st)) data Hx ltac:(lia)) as (out & -> & Ho).
    cbn [mbind option_bind]. eexists _, out. split; [done|]. rewrite Ld in Ho. by split_and!.
  - destruct (Hd ltac:(done)) as [Hx Ld]. destruct (cmos_out_is (mkCmos (cmos_bit_ st) (n_en_ st) bit (cmos_resistive_ st)) data Hx ltac:(lia)) as (out & -> & Ho).
    cbn [mbind option_bind]. eexists _, out. split; [done|]. rewrite Ld in Ho. by split_and!.
Qed.

(** ** Where a switch differs *)

(** The p enable of an rcmos, when it comes with strengths, is ignored; that of a cmos is not. *)
Lemma rcmos_ignores_p bit st :
  rcmos_recv_vec8 2 bit st = Some (st, None) /\ cmos_recv_vec8 2 bit st = (tmp ← reduce4 bit; cmos_recv_vec4 2 tmp st).
Proof. done. Qed.

(** An ambiguous 1, of a strength between pull and strong, leaves a closed switch as a
    strong 1 without ambiguity, although a driver of a pull 1 behind the switch, against a
    pull 0, may tie. *)
Theorem switch_ambiguous :
  exists x y s t, wf_scalar x = true /\ pmos_scalar false BIT4_0 x = Some y /\ range x = (5, 6) /\ range y = (6, 6) /\
    within s (range x) /\ meets s (-5) t /\ t <= 0 /\ scalar_value (resolve_scalar y 85) = BIT4_1.
Proof.
  exists 237, 238, 5, 0. split_and!; try (vm_compute; reflexivity).
  - vm_compute. by split.
  - apply meets_tie; cbn; lia.
  - lia.
Qed.

(** * Witnesses *)

(** A notif0 with different strengths: data arrive before the enable. *)
Lemma bufif_output_witness :
  let en := vec4_fill 2 BIT4_X in
  exists st' out, bufif_recv_vec4 0 (vec4_fill 2 BIT4_1) (mkBufif true true 5 3 en en) = Some (st', Some out) /\
    (forall i, (i < 2)%nat ->
      value (bufif_bit_ st') i = (if (0 =? 0)%nat then flip true (nth i [BIT4_1; BIT4_1] BIT4_X) else value en i) /\
      value (bufif_en_ st') i = (if (0 =? 1)%nat then flip true (nth i [BIT4_1; BIT4_1] BIT4_X) else value en i)) /\
    ranges_are out 2 (fun i => switch_range (bufif_closed (value (bufif_en_ st') i)) (drive_range (bit4_z2x (value (bufif_bit_ st') i)) 5 3)).
Proof.
  intros en. apply (bufif_output (mkBufif true true 5 3 en en) 0 (vec4_fill 2 BIT4_1) [BIT4_1; BIT4_1]); cbn [drive0_ drive1_]; try lia.
  apply (vec_is_fill 2).
Defined.

(** An rpmos whose data, a pull 0 and a strong 1, arrive before the enable. *)
Lemma pmos_output_witness :
  let data := mkVec8 2 [85; 238; 0; 0; 0; 0; 0; 0] in
  let st := mkPmos vec8_nil (vec4_fill 2 BIT4_X) false true in
  exists st' out d, pmos_recv_vec8 0 data st = Some (st', Some out) /\ exact_vec (pmos_bit_ st') d /\ length d = 2%nat /\
    pmos_resistive_ st' = true /\
    (0%nat = 0%nat -> d = [85; 238] /\ pmos_en_ st' = pmos_en_ st) /\
    (0%nat = 1%nat -> pmos_bit_ st' = pmos_bit_ st /\ forall i, (i < 2)%nat -> value (pmos_en_ st') i = flip false (scalar_value (nth i [85; 238] 0))) /\
    ranges_are out 2 (fun i => switch_range (pmos_closed (value (pmos_en_ st') i)) (pass_range true (range_at d i))).
Proof.
  intros data st. apply (pmos_output st 0 data [85; 238]); [|cbn; lia|done|lia].
  split; [split; [split; reflexivity|reflexivity]|]. repeat constructor.
Defined.

Lemma cmos_output_witness :
  let st := mkCmos (mkVec8 1 [85; 0; 0; 0; 0; 0; 0; 0]) (vec4_fill 1 BIT4_0) (vec4_fill 1 BIT4_X) false in
  let bit := vec4_fill 1 BIT4_1 in
  exists st' out, cmos_recv_vec4 2 bit st = Some (st', Some out) /\
    n_en_ st' = (if (2 =? 1)%nat then bit else n_en_ st) /\ p_en_ st' = (if (2 =? 2)%nat then bit else p_en_ st) /\
    exact_vec (cmos_bit_ st') [85] /\
    ranges_are out 1 (fun i => switch_range (cmos_closed (value (n_en_ st') i) (value (p_en_ st') i)) (pass_range false (range_at [85] i))).
Proof.
  intros st bit. apply (cmos_output st 2 bit [BIT4_1] [85]); [apply (vec_is_fill 1)|cbn; lia|lia| |done].
  intros _. split; [|reflexivity]. split; [split; [split; reflexivity|reflexivity]|repeat constructor].
Defined.
