(* ===== verification/Selects.v ===== *)
(** The functors that take vectors apart and put them together: reductions ([vvp/reduce.cc]),
    concatenation and repetition ([vvp/concat.cc]), part selects ([vvp/part.h],
    [vvp/part.cc]) and the transparent buffers of [vvp/logic.cc].  They send in the handler
    itself.

    The outer [None] is a failed [assert]; the functors of automatic scopes, which keep their
    state in the context of a call, are not modelled. *)
From S2P Require Import Prelude MachineWord VvpBit VvpVector4 VvpSlice VvpArith VvpFunctor VvpStrength Switches.

(** * Reductions *)

Inductive reduce_type := ReduceAnd | ReduceOr | ReduceXor | ReduceNand | ReduceNor | ReduceXnor.

(** The loop of [calculate_result]. *)
Definition reduce_loop (f : vvp_bit4_t -> vvp_bit4_t -> vvp_bit4_t) (res : vvp_bit4_t) (bits_ : vvp_vector4_t) : vvp_bit4_t :=
  for_upto (size bits_) (fun idx res => f res (value bits_ idx)) res.

Definition reduce_and (bits_ : vvp_vector4_t) : vvp_bit4_t := reduce_loop bit4_and BIT4_1 bits_.
Definition reduce_or (bits_ : vvp_vector4_t) : vvp_bit4_t := reduce_loop bit4_or BIT4_0 bits_.
Definition reduce_xor (bits_ : vvp_vector4_t) : vvp_bit4_t := reduce_loop bit4_xor BIT4_0 bits_.
Definition reduce_nand (bits_ : vvp_vector4_t) : vvp_bit4_t := bit4_not (reduce_loop bit4_and BIT4_1 bits_).
Definition reduce_nor (bits_ : vvp_vector4_t) : vvp_bit4_t := bit4_not (reduce_loop bit4_or BIT4_0 bits_).
Definition reduce_xnor (bits_ : vvp_vector4_t) : vvp_bit4_t := bit4_not (reduce_loop bit4_xor BIT4_0 bits_).

Definition calculate_result (t : reduce_type) : vvp_vector4_t -> vvp_bit4_t :=
  match t with
  | ReduceAnd => reduce_and | ReduceOr => reduce_or | ReduceXor => reduce_xor
  | ReduceNand => reduce_nand | ReduceNor => reduce_nor | ReduceXnor => reduce_xnor
  end.

(** [bits_] and the vector sent. *)
Definition reduce_recv_vec4 (t : reduce_type) (bit bits_ : vvp_vector4_t) : vvp_vector4_t * vvp_vector4_t :=
  (bit, vec4_fill 1 (calculate_result t bit)).

Definition reduce_recv_vec4_pv (t : reduce_type) (bit : vvp_vector4_t) (base wid vwid : nat) (bits_ : vvp_vector4_t)
    : option (vvp_vector4_t * vvp_vector4_t) :=
  let bits_ := if (size bits_ =? 0)%nat then vec4_fill vwid BIT4_X else bits_ in
  if (size bits_ =? vwid)%nat && (size bit =? wid)%nat then
    '(bits_, _) ← set_vec bits_ base bit;
    Some (bits_, vec4_fill 1 (calculate_result t bits_))
  else None.

(** * Concatenation *)

Record vvp_fun_concat := mkConcat { concat_wid_ : list nat; concat_val_ : vvp_vector4_t }.

(** The widths before a port, the place of its first bit. *)
Definition offset_of (pdx : nat) (wid_ : list nat) : nat := for_upto pdx (fun idx off => off + nth idx wid_ 0)%nat 0%nat.

Definition concat_new (w0 w1 w2 w3 : nat) : option vvp_fun_concat :=
  let n := (w0 + w1 + w2 + w3)%nat in
  v ← set_bits n 0 (fun _ => BIT4_Z) (vec4_fill n BIT4_X);
  Some (mkConcat [w0; w1; w2; w3] v).

(** The new state; its [val_] is sent. *)
Definition concat_recv_vec4 (pdx : nat) (bit : vvp_vector4_t) (st : vvp_fun_concat) : option vvp_fun_concat :=
  w ← concat_wid_ st !! pdx;
  if (size bit =? w)%nat then
    v ← set_bits w (offset_of pdx (concat_wid_ st)) (value bit) (concat_val_ st);
    Some (mkConcat (concat_wid_ st) v)
  else None.

(** A part that sticks out of the port is cut. *)
Definition concat_recv_vec4_pv (pdx : nat) (bit : vvp_vector4_t) (base wid vwid : nat) (st : vvp_fun_concat) : option vvp_fun_concat :=
  w ← concat_wid_ st !! pdx;
  if (size bit =? wid)%nat && (vwid =? w)%nat then
    v ← set_bits (Nat.min wid (w - base)) (offset_of pdx (concat_wid_ st) + base) (value bit) (concat_val_ st);
    Some (mkConcat (concat_wid_ st) v)
  else None.

(** ** With strengths *)

Record vvp_fun_concat8 := mkConcat8 { concat8_wid_ : list nat; concat8_val_ : vvp_vector8_t }.

Definition concat8_new (w0 w1 w2 w3 : nat) : option vvp_fun_concat8 :=
  let n := (w0 + w1 + w2 + w3)%nat in
  v ← set_bits8 n 0 (fun _ => scalar_new BIT4_Z 0 0) (vec8_new n);
  Some (mkConcat8 [w0; w1; w2; w3] v).

Definition concat8_recv_vec8 (pdx : nat) (bit : vvp_vector8_t) (st : vvp_fun_concat8) : option vvp_fun_concat8 :=
  w ← concat8_wid_ st !! pdx;
  if (size8 bit =? w)%nat then
    v ← set_bits8 w (offset_of pdx (concat8_wid_ st)) (value8 bit) (concat8_val_ st);
    Some (mkConcat8 (concat8_wid_ st) v)
  else None.

Definition concat8_recv_vec8_pv (pdx : nat) (bit : vvp_vector8_t) (base wid vwid : nat) (st : vvp_fun_concat8) : option vvp_fun_concat8 :=
  w ← concat8_wid_ st !! pdx;
  if (size8 bit =? wid)%nat && (vwid =? w)%nat then
    v ← set_bits8 (Nat.min wid (w - base)) (offset_of pdx (concat8_wid_ st) + base) (value8 bit) (concat8_val_ st);
    Some (mkConcat8 (concat8_wid_ st) v)
  else None.

Definition concat8_recv_vec4 (pdx : nat) (bit : vvp_vector4_t) (st : vvp_fun_concat8) : option vvp_fun_concat8 :=
  bit8 ← vec8_of_vec4 bit 6 6; concat8_recv_vec8 pdx bit8 st.
Definition concat8_recv_vec4_pv (pdx : nat) (bit : vvp_vector4_t) (base wid vwid : nat) (st : vvp_fun_concat8) : option vvp_fun_concat8 :=
  bit8 ← vec8_of_vec4 bit 6 6; concat8_recv_vec8_pv pdx bit8 base wid vwid st.

(** ** Repetition *)

Definition repeat_recv_vec4 (wid_ rep_ : nat) (bit : vvp_vector4_t) : option vvp_vector4_t :=
  if (size bit =? wid_ / rep_)%nat then
    for_upto rep_ (fun rdx val => val ← val; set_bits (size bit) (rdx * size bit) (value bit) val)
      (Some (vec4_fill wid_ BIT4_X))
  else None.

(** * Part selects *)

(** [vvp_fun_part_pv]: the vector sent as a part, with its place. *)
Definition part_pv_recv_vec4 (base_ wid_ vwid_ port : nat) (bit : vvp_vector4_t) : option (vvp_vector4_t * nat * nat * nat) :=
  if (port =? 0)%nat && (size bit =? wid_)%nat then Some (bit, base_, wid_, vwid_) else None.

Definition part_pv_recv_vec4_pv (base_ wid_ vwid_ port : nat) (bit : vvp_vector4_t) (base wid vwid : nat)
    : option (vvp_vector4_t * nat * nat * nat) :=
  if (port =? 0)%nat && (size bit =? wid)%nat && (base + wid <=? vwid)%nat && (vwid =? wid_)%nat then
    '(tmp, _) ← set_vec (vec4_fill wid_ BIT4_Z) base bit;
    Some (tmp, base_, wid_, vwid_)
  else None.

Definition part_pv_recv_vec8 (base_ wid_ vwid_ port : nat) (bit : vvp_vector8_t) : option (vvp_vector8_t * nat * nat * nat) :=
  if (port =? 0)%nat && (size8 bit =? wid_)%nat then Some (bit, base_, wid_, vwid_) else None.

(** [vvp_fun_part_var_sa]: the base, the source and the last output. *)
Record vvp_fun_part_var := mkPartVar { base_ : Z; source_ : vvp_vector4_t; ref_ : vvp_vector4_t }.

Definition part_var_new : vvp_fun_part_var := mkPartVar 0 (vec4_fill 0 BIT4_X) (vec4_fill 0 BIT4_X).

Definition INT32_MIN : Z := - 2 ^ 31.

(** The loop over the bits of the part; [adr] is the sum in [int]. *)
Fixpoint part_var_loop (cnt idx : nat) (base : Z) (source res : vvp_vector4_t) : option vvp_vector4_t :=
  match cnt with
  | O => Some res
  | S c =>
      let adr := as_signed 32 ((base + Z.of_nat idx) mod 2 ^ 32) in
      if adr <? 0 then part_var_loop c (idx + 1) base source res
      else if Z.of_nat (size source) <=? adr then Some res
      else res ← set_bit res idx (value source (Z.to_nat adr)); part_var_loop c (idx + 1) base source res
  end.

Definition part_var_bits (wid_ : nat) (base : Z) (source : vvp_vector4_t) : option vvp_vector4_t :=
  part_var_loop wid_ 0 base source (vec4_fill wid_ BIT4_X).

(** [recv_vec4_]: the state, and whether there is a new output. *)
Definition part_var_recv_vec4_ (wid_ : nat) (is_signed_ : bool) (port : nat) (bit : vvp_vector4_t) (st : vvp_fun_part_var)
    : option (vvp_fun_part_var * bool) :=
  let output (st : vvp_fun_part_var) :=
    res ← part_var_bits wid_ (base_ st) (source_ st);
    if negb (eeq (ref_ st) res) then Some (mkPartVar (base_ st) (source_ st) res, true) else Some (st, false) in
  match port with
  | 0%nat => output (mkPartVar (base_ st) bit (ref_ st))
  | 1%nat =>
      let tmp := match vector4_to_value 32 bit is_signed_ true with (_, Some x) => as_signed 32 x | (_, None) => INT32_MIN end in
      if tmp =? base_ st then Some (st, false) else output (mkPartVar tmp (source_ st) (ref_ st))
  | _ => None
  end.

(** The vector sent, if any. *)
Definition part_var_recv_vec4 (wid_ : nat) (is_signed_ : bool) (port : nat) (bit : vvp_vector4_t) (st : vvp_fun_part_var)
    : option (vvp_fun_part_var * option vvp_vector4_t) :=
  '(st, changed) ← part_var_recv_vec4_ wid_ is_signed_ port bit st;
  Some (st, if (changed : bool) then Some (ref_ st) else None).

Definition part_var_recv_vec4_pv (wid_ : nat) (is_signed_ : bool) (port : nat) (bit : vvp_vector4_t) (base wid vwid : nat)
    (st : vvp_fun_part_var) : option (vvp_fun_part_var * option vvp_vector4_t) :=
  if (size bit =? wid)%nat then
    let tmp := if (size (source_ st) =? 0)%nat then vec4_fill vwid BIT4_X else source_ st in
    if (size tmp =? vwid)%nat then
      '(tmp, _) ← set_vec tmp base bit;
      part_var_recv_vec4 wid_ is_signed_ port tmp st
    else None
  else None.

(** * Transparent buffers *)

(** [vvp_fun_bufz] and [vvp_fun_buft]: what passes from port 0. *)
Definition bufz_recv_vec4 (port : nat) (bit : vvp_vector4_t) : option vvp_vector4_t :=
  if negb (port =? 0)%nat then None else Some bit.
Definition bufz_recv_vec4_pv (port : nat) (bit : vvp_vector4_t) (base wid vwid : nat) : option (vvp_vector4_t * nat * nat * nat) :=
  if negb (port =? 0)%nat then None else Some (bit, base, wid, vwid).
Definition buft_recv_vec8 (port : nat) (bit : vvp_vector8_t) : option vvp_vector8_t :=
  if negb (port =? 0)%nat then None else Some bit.

(** * Extension and substitution *)

(** [vvp_fun_extend_signed]. *)
Definition extend_signed_recv_vec4 (width_ : nat) (bit : vvp_vector4_t) : option vvp_vector4_t :=
  if (width_ <=? size bit)%nat then Some bit
  else
    res ← set_bits (size bit) 0 (value bit) (vec4_fill width_ BIT4_X);
    let pad := if (0 <? size bit)%nat then value bit (size bit - 1) else BIT4_0 in
    set_bits (width_ - size bit) (size bit) (fun _ => pad) res.
Definition extend_signed_recv_vec4_pv (width_ : nat) (bit : vvp_vector4_t) (base wid vwid : nat) : option vvp_vector4_t :=
  tmp ← recv_vec4_pv_ bit base wid vwid; extend_signed_recv_vec4 width_ tmp.

(** [vvp_fun_substitute]: the value of port 1 in place of a part of the value of port 0. *)
Record vvp_fun_substitute := mkSubstitute { sub_wid_ : nat; soff_ : nat; swid_ : nat; sub_val_ : vvp_vector4_t }.

Definition substitute_new (wid soff swid : nat) : option vvp_fun_substitute :=
  v ← set_bits wid 0 (fun _ => BIT4_Z) (vec4_fill wid BIT4_X); Some (mkSubstitute wid soff swid v).

Definition substitute_recv_vec4 (pdx : nat) (bit : vvp_vector4_t) (st : vvp_fun_substitute) : option vvp_fun_substitute :=
  match pdx with
  | 0%nat =>
      if (size bit =? sub_wid_ st)%nat then
        v ← for_upto (sub_wid_ st) (fun idx v =>
              v ← v;
              if (soff_ st <=? idx)%nat && (idx <? soff_ st + swid_ st)%nat then Some v else set_bit v idx (value bit idx))
            (Some (sub_val_ st));
        Some (mkSubstitute (sub_wid_ st) (soff_ st) (swid_ st) v)
      else None
  | 1%nat =>
      if (size bit =? swid_ st)%nat then
        v ← set_bits (swid_ st) (soff_ st) (value bit) (sub_val_ st);
        Some (mkSubstitute (sub_wid_ st) (soff_ st) (swid_ st) v)
      else None
  | _ => None
  end.
Definition substitute_recv_vec4_pv (pdx : nat) (bit : vvp_vector4_t) (base wid vwid : nat) (st : vvp_fun_substitute) : option vvp_fun_substitute :=
  tmp ← recv_vec4_pv_ bit base wid vwid; substitute_recv_vec4 pdx tmp st.
