(* ===== verification/SelectProps.v ===== *)
(** Reductions, concatenations, repetitions and variable part selects as operators on lists of
    bits, along sequences of arrivals. *)
From S2P Require Import Prelude MachineWord VvpBit VvpVector4 VvpSlice WordArith VvpArith VvpVector2 VvpCompare.
From S2P Require Import BitList VvpFunctor WordDiv VThread VThreadSpec VThreadParts VThreadIndex VThreadDiv VThreadMod.
From S2P Require Import VvpStrength Switches Selects GateSpec.

(** * Writing in a concatenation *)

Section Pieces.
Context {A : Type}.

(** [m] written at [adr] of [l]. *)
Definition write_at (adr : nat) (m l : list A) : list A := take adr l ++ m ++ drop (adr + length m) l.

Definition piece_offset (pdx : nat) (ins : list (list A)) : nat := length (concat (take pdx ins)).

Lemma write_concat pdx : forall ins base (l m : list A), ins !! pdx = Some l -> (base + length m <= length l)%nat ->
  write_at (piece_offset pdx ins + base) m (concat ins) = concat (alter (write_at base m) pdx ins).
Proof.
  induction pdx as [|pdx IH]; intros [|h ins] base l m E Hb; try done.
  - cbn in E. simplify_eq. unfold piece_offset, write_at. cbn [take concat length Nat.add alter list_alter].
    rewrite take_app_le, drop_app_le by lia. by rewrite <- !app_assoc.
  - cbn [lookup list_lookup] in E. cbn [alter list_alter concat]. rewrite <- (IH ins base l m E Hb). unfold piece_offset, write_at.
    cbn [take concat]. rewrite length_app, <- Nat.add_assoc. rewrite take_app_add, <- !app_assoc. f_equal. f_equal. f_equal.
    rewrite <- Nat.add_assoc. by rewrite drop_app_add.
Qed.
End Pieces.

Lemma offset_is {A} pdx : forall (ins : list (list A)), (pdx <= length ins)%nat -> offset_of pdx (map length ins) = piece_offset pdx ins.
Proof.
  unfold offset_of, piece_offset. induction pdx as [|pdx IH]; intros ins Hp; [done|]. cbn [for_upto]. rewrite IH by lia.
  destruct (lookup_lt_is_Some_2 ins pdx ltac:(lia)) as [l El]. rewrite (take_S_r _ _ _ El), concat_app, length_app. f_equal. cbn.
  rewrite app_nil_r. rewrite (nth_lookup_Some _ _ _ (length l)); [done|]. by rewrite list_lookup_fmap, El.
Qed.

(** Writing a range of a vector bit by bit. *)
Lemma set_bits_is v l p m f n : vec_is v l -> length m = n -> (p + n <= length l)%nat -> (forall i, (i < n)%nat -> f i = nth i m BIT4_X) ->
  exists r, set_bits n p f v = Some r /\ vec_is r (write_at p m l).
Proof.
  intros Hv Hm Hp Hf.
  assert (H : forall k, (k <= n)%nat -> exists r, set_bits k p f v = Some r /\
    bitwise (size v) (fun i => if (p <=? i)%nat && (i <? p + k)%nat then f (i - p)%nat else value v i) r).
  { induction k as [|k IH]; intros Hk; unfold set_bits; cbn [for_upto].
    - exists v. split; [done|]. split_and!; [apply Hv|done|]. intros i Hi. by destruct (Nat.leb_spec p i), (Nat.ltb_spec i (p + 0)); cbn; (done || lia).
    - destruct (IH ltac:(lia)) as (r & E & Wr & Sr & Vr). unfold set_bits in E. rewrite E. cbn [mbind option_bind].
      destruct (set_bit_spec r (p + k) (f k) Wr) as (r' & E' & W' & S' & V'); [rewrite Sr, (vec_is_size _ _ Hv); lia|].
      exists r'. split; [done|]. split_and!; [done|congruence|]. intros i Hi. rewrite V'. destruct (Nat.eqb_spec i (p + k)) as [->|Hne].
      + rewrite (proj2 (Nat.leb_le _ _)), (proj2 (Nat.ltb_lt _ _)) by lia. cbn [andb]. f_equal. lia.
      + rewrite Vr by done. destruct (Nat.leb_spec p i), (Nat.ltb_spec i (p + k)), (Nat.ltb_spec i (p + S k)); cbn; (done || lia). }
  destruct (H n (le_n _)) as (r & E & Hr). exists r. split; [done|]. apply (bitwise_is _ _ _ _ Hr).
  - rewrite (vec_is_size _ _ Hv). rewrite <- Hm in Hp. by apply (length_overwrite p m l).
  - intros i Hi. rewrite <- Hm in Hp |- *. rewrite (vec_is_size _ _ Hv) in Hi.
    change (write_at p m l) with (overwrite p m l). rewrite nth_overwrite by done. destruct (Nat.leb_spec p i), (Nat.ltb_spec i (p + length m)); cbn [andb].
    + symmetry. apply Hf. lia.
    + symmetry. by apply vec_is_value.
    + symmetry. by apply vec_is_value.
    + symmetry. by apply vec_is_value.
Qed.

(** * Reductions *)

Definition reduce_list (t : reduce_type) (l : list vvp_bit4_t) : vvp_bit4_t :=
  match t with
  | ReduceAnd => fold_left bit4_and l BIT4_1 | ReduceOr => fold_left bit4_or l BIT4_0 | ReduceXor => fold_left bit4_xor l BIT4_0
  | ReduceNand => bit4_not (fold_left bit4_and l BIT4_1) | ReduceNor => bit4_not (fold_left bit4_or l BIT4_0)
  | ReduceXnor => bit4_not (fold_left bit4_xor l BIT4_0)
  end.

Lemma reduce_loop_is f e v l : vec_is v l -> Selects.reduce_loop f e v = fold_left f l e.
Proof.
  intros Hv. unfold Selects.reduce_loop. rewrite (vec_is_size _ _ Hv).
  assert (H : forall k, (k <= length l)%nat -> for_upto k (fun idx res => f res (value v idx)) e = fold_left f (take k l) e).
  { induction k as [|k IH]; intros Hk; [done|]. cbn [for_upto]. rewrite IH by lia. destruct (lookup_lt_is_Some_2 l k ltac:(lia)) as [b Eb].
    rewrite (take_S_r _ _ _ Eb), fold_left_app. cbn [fold_left]. by rewrite (vec_is_value _ _ _ Hv), (nth_lookup_Some _ _ _ _ Eb). }
  rewrite (H _ (le_n _)). by rewrite take_ge.
Qed.

Lemma calculate_is t v l : vec_is v l -> calculate_result t v = reduce_list t l.
Proof.
  intros Hv. destruct t; cbn [calculate_result reduce_list]; unfold reduce_and, reduce_or, reduce_xor, reduce_nand, reduce_nor, reduce_xnor;
    by rewrite (reduce_loop_is _ _ _ l Hv).
Qed.

(** The instruction of the thread interpreter that computes the same. *)
Definition reduce_instruction (t : reduce_type) : vvp_vector4_t -> option vvp_vector4_t :=
  match t with
  | ReduceAnd => reduction (control_bit BIT4_0 BIT4_1 BIT4_0) BIT4_1
  | ReduceOr => reduction (control_bit BIT4_1 BIT4_0 BIT4_1) BIT4_0
  | ReduceXor => reduction parity_bit BIT4_0
  | ReduceNand => reduction (control_bit BIT4_0 BIT4_1 BIT4_1) BIT4_0
  | ReduceNor => reduction (control_bit BIT4_1 BIT4_0 BIT4_0) BIT4_1
  | ReduceXnor => reduction parity_bit BIT4_1
  end.

Lemma instruction_is t : implements1 (reduce_instruction t) (fun l => [reduce_list t l]).
Proof.
  destruct t; [apply andr_implements|apply orr_implements|apply xorr_implements|apply nandr_implements|apply norr_implements|apply xnorr_implements].
Qed.

(** A reduction in a continuous assignment and in procedural code agree: the functor sends,
    for a vector and for a vector of which a part arrives, the bit that the instruction leaves,
    although the instruction stops at the first bit that decides. *)
Theorem reduce_agrees t bit l bits_ base vwid :
  vec_is bit l -> (0 < length l)%nat ->
  (exists v, reduce_instruction t bit = Some v /\ vec_is v [reduce_list t l] /\ reduce_recv_vec4 t bit bits_ = (bit, vec4_fill 1 (reduce_list t l))) /\
  (forall held, vec_is bits_ held -> (0 < length held)%nat -> length held = vwid -> (base + length l <= vwid)%nat ->
    exists whole v, reduce_recv_vec4_pv t bit base (length l) vwid bits_ = Some (whole, vec4_fill 1 (reduce_list t (write_at base l held))) /\
      vec_is whole (write_at base l held) /\ reduce_instruction t whole = Some v /\ vec_is v [reduce_list t (write_at base l held)]).
Proof.
  intros Hl H0. split.
  - destruct (instruction_is t bit l Hl H0) as (v & E & Hv). exists v. split_and!; [done|done|]. unfold reduce_recv_vec4. by rewrite (calculate_is t bit l Hl).
  - intros held Hh Hp <- Hb. unfold reduce_recv_vec4_pv. rewrite (vec_is_size _ _ Hh), (vec_is_size _ _ Hl).
    destruct (Nat.eqb_spec (length held) 0); [lia|]. rewrite (vec_is_size _ _ Hh), !Nat.eqb_refl. cbn [andb].
    destruct (set_vec_is bits_ base bit held l Hh Hl H0 Hb) as (w & d & -> & Hw). cbn [mbind option_bind].
    change (overwrite base l held) with (write_at base l held) in Hw.
    assert (Lw : (0 < length (write_at base l held))%nat).
    { change (write_at base l held) with (overwrite base l held). rewrite length_overwrite; lia. }
    destruct (instruction_is t w _ Hw Lw) as (v & E & Hv). exists w, v. by rewrite (calculate_is t w _ Hw).
Qed.

(** * Concatenation *)

(** What arrives at a port, whole or in part. *)
Inductive piece (V : Type) := PieceWhole (pdx : nat) (bit : V) | PiecePart (pdx : nat) (bit : V) (base wid vwid : nat).
Arguments PieceWhole {V} _ _.
Arguments PiecePart {V} _ _ _ _ _.

Definition concat_recv (x : piece vvp_vector4_t) (st : vvp_fun_concat) : option vvp_fun_concat :=
  match x with
  | PieceWhole pdx bit => concat_recv_vec4 pdx bit st
  | PiecePart pdx bit base wid vwid => concat_recv_vec4_pv pdx bit base wid vwid st
  end.
Definition concat8_recv (x : piece vvp_vector8_t) (st : vvp_fun_concat8) : option vvp_fun_concat8 :=
  match x with
  | PieceWhole pdx bit => concat8_recv_vec8 pdx bit st
  | PiecePart pdx bit base wid vwid => concat8_recv_vec8_pv pdx bit base wid vwid st
  end.

(** A piece that fits the port, as a list at a place of it. *)
Definition piece_is {V A} (holds : V -> list A -> Prop) (ws : list nat) (x : piece V) (pdx base : nat) (m : list A) : Prop :=
  match x with
  | PieceWhole p bit => p = pdx /\ base = 0%nat /\ holds bit m /\ ws !! p = Some (length m)
  | PiecePart p bit b wid vwid => p = pdx /\ base = b /\ holds bit m /\ length m = wid /\ (b + wid <= vwid)%nat /\ ws !! p = Some vwid
  end.

Definition put_piece {A} (pdx base : nat) (m : list A) (ins : list (list A)) : list (list A) := alter (write_at base m) pdx ins.

Record concat_holds (st : vvp_fun_concat) (ins : list (list vvp_bit4_t)) : Prop := {
  ch_wid : concat_wid_ st = map length ins; ch_val : vec_is (concat_val_ st) (concat ins) }.
Record concat8_holds (st : vvp_fun_concat8) (ins : list (list vvp_scalar_t)) : Prop := {
  ch8_wid : concat8_wid_ st = map length ins; ch8_val : vec8_is (concat8_val_ st) (concat ins) }.

(** The place of a piece. *)
Lemma piece_place {V A} (holds : V -> list A -> Prop) (ins : list (list A)) x pdx base m :
  piece_is holds (map length ins) x pdx base m ->
  exists l, ins !! pdx = Some l /\ (base + length m <= length l)%nat /\ offset_of pdx (map length ins) = piece_offset pdx ins /\
    (piece_offset pdx ins + base + length m <= length (concat ins))%nat /\ map length (put_piece pdx base m ins) = map length ins.
Proof.
  intros HP. assert (HE : exists l, ins !! pdx = Some l /\ (base + length m <= length l)%nat).
  { destruct x as [p bit|p bit b wid vwid]; cbn in HP.
    - destruct HP as (<- & -> & _ & E). rewrite list_lookup_fmap in E. destruct (ins !! p) as [l|]; [|done]. cbn in E. injection E as E. exists l. split; [done|lia].
    - destruct HP as (<- & -> & _ & E1 & E2 & E). rewrite list_lookup_fmap in E. destruct (ins !! p) as [l|]; [|done]. cbn in E. injection E as E. exists l. split; [done|lia]. }
  destruct HE as (l & El & Hb). pose proof (lookup_lt_Some _ _ _ El) as Hp. exists l. split_and!; [done|done|apply offset_is; lia| |].
  - unfold piece_offset. rewrite <- (take_drop_middle _ _ _ El) at 2. rewrite concat_app, length_app. cbn [concat]. rewrite length_app. lia.
  - unfold put_piece. rewrite (list_alter_insert _ _ _ _ El). apply list_eq. intros i. rewrite !list_lookup_fmap.
    destruct (Nat.eq_dec pdx i) as [<-|Hne]; [|by rewrite list_lookup_insert_ne].
    rewrite list_lookup_insert_eq, El by done. cbn. f_equal. unfold write_at. rewrite !length_app, length_take, length_drop. lia.
Qed.

Lemma concat_step st ins x pdx base m : concat_holds st ins -> piece_is vec_is (map length ins) x pdx base m ->
  exists st', concat_recv x st = Some st' /\ concat_holds st' (put_piece pdx base m ins).
Proof.
  intros [Hw Hv] Hx. destruct (piece_place _ ins x pdx base m Hx) as (l & El & Hb & Ho & Hp & HW).
  assert (HS : forall bit, vec_is bit m -> exists v, set_bits (length m) (offset_of pdx (concat_wid_ st) + base) (value bit) (concat_val_ st) = Some v /\
    concat_holds (mkConcat (concat_wid_ st) v) (put_piece pdx base m ins)).
  { intros bit Hm. destruct (set_bits_is (concat_val_ st) (concat ins) (piece_offset pdx ins + base) m (value bit) (length m) Hv eq_refl Hp) as (v & E & Hr).
    { intros i Hi. by apply vec_is_value. }
    exists v. rewrite Hw, Ho. split; [done|]. split; cbn; [congruence|]. unfold put_piece. by rewrite <- (write_concat pdx ins base l m El Hb). }
  destruct x as [p bit|p bit b wid vwid]; cbn in Hx; cbn [concat_recv].
  - destruct Hx as (-> & -> & Hm & Ew). destruct (HS bit Hm) as (v & E & Hh). unfold concat_recv_vec4. rewrite Hw, Ew. cbn [mbind option_bind].
    rewrite Hw, Nat.add_0_r in E. rewrite (vec_is_size _ _ Hm), Nat.eqb_refl, E. cbn [mbind option_bind]. rewrite Hw in Hh. by eexists.
  - destruct Hx as (-> & -> & Hm & <- & Hbv & Ew). destruct (HS bit Hm) as (v & E & Hh). unfold concat_recv_vec4_pv. rewrite Hw, Ew. cbn [mbind option_bind].
    rewrite Hw in E. rewrite (vec_is_size _ _ Hm), !Nat.eqb_refl. cbn [andb]. rewrite Nat.min_l by lia. rewrite E. cbn [mbind option_bind]. rewrite Hw in Hh. by eexists.
Qed.

Lemma concat8_step st ins x pdx base m : concat8_holds st ins -> piece_is vec8_is (map length ins) x pdx base m ->
  exists st', concat8_recv x st = Some st' /\ concat8_holds st' (put_piece pdx base m ins).
Proof.
  intros [Hw Hv] Hx. destruct (piece_place _ ins x pdx base m Hx) as (l & El & Hb & Ho & Hp & HW).
  assert (HS : forall bit, vec8_is bit m -> exists v, set_bits8 (length m) (offset_of pdx (concat8_wid_ st) + base) (value8 bit) (concat8_val_ st) = Some v /\
    concat8_holds (mkConcat8 (concat8_wid_ st) v) (put_piece pdx base m ins)).
  { intros bit Hm. destruct (set_bits8_is (value8 bit) (piece_offset pdx ins + base) (length m) m (concat ins) _ Hv Hp eq_refl) as (v & E & Hr).
    { intros i Hi. by apply value8_is. }
    exists v. rewrite Hw, Ho. split; [done|]. split; cbn; [congruence|]. unfold put_piece. by rewrite <- (write_concat pdx ins base l m El Hb). }
  destruct x as [p bit|p bit b wid vwid]; cbn in Hx; cbn [concat8_recv].
  - destruct Hx as (-> & -> & Hm & Ew). destruct (HS bit Hm) as (v & E & Hh). unfold concat8_recv_vec8. rewrite Hw, Ew. cbn [mbind option_bind].
    rewrite Hw, Nat.add_0_r in E. rewrite (vec8_is_size _ _ Hm), Nat.eqb_refl, E. cbn [mbind option_bind]. rewrite Hw in Hh. by eexists.
  - destruct Hx as (-> & -> & Hm & <- & Hbv & Ew). destruct (HS bit Hm) as (v & E & Hh). unfold concat8_recv_vec8_pv. rewrite Hw, Ew. cbn [mbind option_bind].
    rewrite Hw in E. rewrite (vec8_is_size _ _ Hm), !Nat.eqb_refl. cbn [andb]. rewrite Nat.min_l by lia. rewrite E. cbn [mbind option_bind]. rewrite Hw in Hh. by eexists.
Qed.

(** A sequence of pieces and the lists at the ports before and after it. *)
Inductive pieces {V A} (holds : V -> list A -> Prop) : list (piece V) -> list (list A) -> list (list A) -> Prop :=
| pieces_nil ins : pieces holds [] ins ins
| pieces_cons x xs pdx base m ins ins' :
    piece_is holds (map length ins) x pdx base m -> pieces holds xs (put_piece pdx base m ins) ins' ->
    pieces holds (x :: xs) ins ins'.

Fixpoint recv_all {V S} (recv : piece V -> S -> option S) (xs : list (piece V)) (st : S) : option S :=
  match xs with [] => Some st | x :: xs => st ← recv x st; recv_all recv xs st end.

Lemma concat_pieces xs ins ins' : pieces vec_is xs ins ins' -> forall st, concat_holds st ins ->
  exists st', recv_all concat_recv xs st = Some st' /\ concat_holds st' ins'.
Proof.
  induction 1 as [ins|x xs pdx base m ins ins' Hx Hxs IH]; intros st Hst; cbn [recv_all]; [by exists st|].
  destruct (concat_step st ins x pdx base m Hst Hx) as (st1 & -> & H1). cbn [mbind option_bind]. by apply IH.
Qed.

Lemma concat8_pieces xs ins ins' : pieces vec8_is xs ins ins' -> forall st, concat8_holds st ins ->
  exists st', recv_all concat8_recv xs st = Some st' /\ concat8_holds st' ins'.
Proof.
  induction 1 as [ins|x xs pdx base m ins ins' Hx Hxs IH]; intros st Hst; cbn [recv_all]; [by exists st|].
  destruct (concat8_step st ins x pdx base m Hst Hx) as (st1 & -> & H1). cbn [mbind option_bind]. by apply IH.
Qed.

(** The ports before anything arrived. *)
Definition undriven {A} (z : A) (ws : list nat) : list (list A) := map (fun w => replicate w z) ws.

Lemma undriven_lengths {A} (z : A) ws : map length (undriven z ws) = ws.
Proof. unfold undriven. rewrite map_map. rewrite <- (map_id ws) at 2. apply map_ext. intros w. apply length_replicate. Qed.

Lemma undriven_concat {A} (z : A) ws : concat (undriven z ws) = replicate (sum_list ws) z.
Proof. induction ws as [|w ws IH]; [done|]. cbn [undriven map concat sum_list sum_list_with fold_right]. unfold undriven in IH. rewrite IH. by rewrite <- replicate_add. Qed.

Lemma concat_new_holds w0 w1 w2 w3 :
  (exists st, concat_new w0 w1 w2 w3 = Some st /\ concat_holds st (undriven BIT4_Z [w0; w1; w2; w3])) /\
  (exists st, concat8_new w0 w1 w2 w3 = Some st /\ concat8_holds st (undriven 0 [w0; w1; w2; w3])).
Proof.
  assert (EN : sum_list [w0; w1; w2; w3] = (w0 + w1 + w2 + w3)%nat) by (cbn; lia). split.
  - unfold concat_new. set (n := (w0 + w1 + w2 + w3)%nat). destruct (set_bits_is (vec4_fill n BIT4_X) (replicate n BIT4_X) 0 (replicate n BIT4_Z) (fun _ => BIT4_Z) n) as (v & -> & Hv);
      [apply vec_is_fill|apply length_replicate|by rewrite length_replicate|by intros i Hi; rewrite nth_replicate|].
    cbn [mbind option_bind]. eexists. split; [done|]. split; [by rewrite undriven_lengths|]. rewrite undriven_concat, EN.
    unfold write_at in Hv. cbn [take app Nat.add concat_val_] in *. by rewrite length_replicate, drop_ge, app_nil_r in Hv by (by rewrite length_replicate).
  - unfold concat8_new. set (n := (w0 + w1 + w2 + w3)%nat). destruct (set_all8_is (fun _ => scalar_new BIT4_Z 0 0) n (replicate n 0)) as (v & -> & Hv);
      [apply length_replicate|by intros i Hi; rewrite lookup_replicate_2|].
    cbn [mbind option_bind]. eexists. split; [done|]. split; [by rewrite undriven_lengths|]. by rewrite undriven_concat, EN.
Qed.

(** C40: a concatenation, with and without strengths: along any sequence of vectors and parts
    of vectors arriving at its ports nothing fails, and the vector it sends for each is the
    concatenation of what the ports hold by then, Z where nothing arrived. *)
Theorem concat_trace w0 w1 w2 w3 xs ys ins ins8 :
  pieces vec_is xs (undriven BIT4_Z [w0; w1; w2; w3]) ins -> pieces vec8_is ys (undriven 0 [w0; w1; w2; w3]) ins8 ->
  (exists st st', concat_new w0 w1 w2 w3 = Some st /\ recv_all concat_recv xs st = Some st' /\ vec_is (concat_val_ st') (concat ins)) /\
  (exists st st', concat8_new w0 w1 w2 w3 = Some st /\ recv_all concat8_recv ys st = Some st' /\ vec8_is (concat8_val_ st') (concat ins8)).
Proof.
  intros Hxs Hys. destruct (concat_new_holds w0 w1 w2 w3) as [(st & E & H) (st8 & E8 & H8)]. split.
  - destruct (concat_pieces xs _ _ Hxs st H) as (st' & ER & [_ HV]). by exists st, st'.
  - destruct (concat8_pieces ys _ _ Hys st8 H8) as (st' & ER & [_ HV]). by exists st8, st'.
Qed.

(** ** Repetition *)

(** A repetition sends its vector as often as it says. *)
Theorem repeat_output wid_ rep_ bit l :
  vec_is bit l -> (0 < rep_)%nat -> length l = (wid_ / rep_)%nat ->
  exists r, repeat_recv_vec4 wid_ rep_ bit = Some r /\ vec_is r (concat (replicate rep_ l) ++ replicate (wid_ - rep_ * length l) BIT4_X).
Proof.
  intros Hl Hr Hn. unfold repeat_recv_vec4. rewrite (vec_is_size _ _ Hl), (proj2 (Nat.eqb_eq _ _) Hn).
  assert (HM : (rep_ * length l <= wid_)%nat) by (rewrite Hn; apply Nat.Div0.mul_div_le).
  assert (H : forall k, (k <= rep_)%nat -> exists r, for_upto k (fun rdx val => val ← val; set_bits (length l) (rdx * length l) (value bit) val) (Some (vec4_fill wid_ BIT4_X)) = Some r /\
    vec_is r (concat (replicate k l) ++ replicate (wid_ - k * length l) BIT4_X)).
  { induction k as [|k IH]; intros Hk; cbn [for_upto]; [exists (vec4_fill wid_ BIT4_X); split; [done|]; cbn; rewrite Nat.sub_0_r; apply vec_is_fill|].
    destruct (IH ltac:(lia)) as (r & -> & Hv). cbn [mbind option_bind].
    assert (LC : length (concat (replicate k l)) = (k * length l)%nat).
    { clear. induction k as [|k IH]; [done|]. cbn [replicate concat]. rewrite length_app, IH. lia. }
    assert (Hin : (S k * length l <= wid_)%nat) by nia.
    destruct (set_bits_is r _ (k * length l) l (value bit) (length l) Hv eq_refl) as (r' & E & Hr').
    { rewrite length_app, LC, length_replicate. lia. } { intros i Hi. by apply vec_is_value. }
    exists r'. split; [done|]. unfold write_at in Hr'. rewrite take_app_le, take_ge in Hr' by lia.
    rewrite drop_app_ge, LC in Hr' by lia. replace (k * length l + length l - k * length l)%nat with (length l) in Hr' by lia.
    rewrite drop_replicate in Hr'. replace (S k) with (k + 1)%nat by lia. rewrite replicate_add, concat_app. cbn [replicate concat]. rewrite app_nil_r, <- app_assoc.
    by replace (wid_ - (k + 1) * length l)%nat with (wid_ - k * length l - length l)%nat by lia. }
  apply (H rep_ (le_n _)).
Qed.

(** ** Extension and substitution *)

Lemma extend_is width bit l : vec_is bit l -> exists r, extend_signed_recv_vec4 width bit = Some r /\
  vec_is r (l ++ replicate (width - length l) (if (0 <? length l)%nat then msb l else BIT4_0)).
Proof.
  intros Hl. unfold extend_signed_recv_vec4. rewrite (vec_is_size _ _ Hl). destruct (Nat.leb_spec width (length l)) as [H|H].
  - exists bit. split; [done|]. replace (width - length l)%nat with 0%nat by lia. by rewrite app_nil_r.
  - destruct (set_bits_is (vec4_fill width BIT4_X) (replicate width BIT4_X) 0 l (value bit) (length l)) as (u & -> & Hu);
      [apply vec_is_fill|done|rewrite length_replicate; lia|by intros i Hi; apply vec_is_value|]. cbn [mbind option_bind].
    unfold write_at in Hu. rewrite take_0, app_nil_l, drop_replicate, Nat.add_0_l in Hu.
    set (pad := if (0 <? length l)%nat then _ else _). set (k := (width - length l)%nat) in *.
    destruct (set_bits_is u _ (length l) (replicate k pad) (fun _ => pad) k Hu) as (r & -> & Hr);
      [apply length_replicate|rewrite length_app, length_replicate; lia|by intros i Hi; rewrite nth_replicate|].
    exists r. split; [done|]. unfold write_at in Hr. rewrite take_app_length, length_replicate, drop_ge, app_nil_r in Hr by (rewrite length_app, length_replicate; lia).
    assert (E : pad = if (0 <? length l)%nat then msb l else BIT4_0); [|by rewrite <- E].
    unfold pad, msb. by rewrite (vec_is_value _ _ _ Hl).
Qed.

(** The state of a substitution: [l] at port 0 with [m] at port 1. *)
Record substitute_holds (st : vvp_fun_substitute) (l m : list vvp_bit4_t) : Prop := {
  ssub_l : length l = sub_wid_ st; ssub_m : length m = swid_ st; ssub_fits : (soff_ st + swid_ st <= sub_wid_ st)%nat;
  ssub_val : vec_is (sub_val_ st) (write_at (soff_ st) m l) }.

Lemma substitute_step st l m pdx bit x : substitute_holds st l m -> vec_is bit x -> (pdx < 2)%nat ->
  length x = (if (pdx =? 0)%nat then sub_wid_ st else swid_ st) ->
  exists st', substitute_recv_vec4 pdx bit st = Some st' /\
    substitute_holds st' (if (pdx =? 0)%nat then x else l) (if (pdx =? 0)%nat then m else x).
Proof.
  intros [H1 H2 H3 H4] Hx Hp Hl. destruct st as [w o sw v]. cbn [sub_wid_ soff_ swid_ sub_val_] in *.
  assert (LW : forall y z : list vvp_bit4_t, length y = w -> length z = sw -> length (write_at o z y) = w).
  { intros y z Hy Hz. change (write_at o z y) with (overwrite o z y). rewrite length_overwrite; lia. }
  destruct pdx as [|[|]]; [| |lia]; cbn [Nat.eqb] in *; cbn [substitute_recv_vec4 sub_wid_ soff_ swid_ sub_val_]; rewrite (vec_is_size _ _ Hx), Hl, Nat.eqb_refl.
  - destruct (in_place_loop_at (fun idx b => if (o <=? idx)%nat && (idx <? o + sw)%nat then b else value bit idx)
      (fun idx v => v ← v; if (o <=? idx)%nat && (idx <? o + sw)%nat then Some v else set_bit v idx (value bit idx)) v w) as (r & -> & Hr).
    + apply H4.
    + by rewrite (vec_is_size _ _ H4), LW.
    + intros idx t Wt St Hi. cbn [mbind option_bind]. destruct (_ && _).
      * exists t. split_and!; [done|done|done|]. intros i. by destruct (Nat.eqb_spec i idx) as [->|].
      * apply set_bit_spec; [done|]. by rewrite St, (vec_is_size _ _ H4), LW.
    + cbn [mbind option_bind]. eexists. split; [done|]. split; cbn [sub_wid_ soff_ swid_ sub_val_]; [done|done|done|].
      apply (bitwise_is _ _ _ _ Hr); [by rewrite (vec_is_size _ _ H4), !LW|]. intros i Hi. rewrite (vec_is_size _ _ H4), LW in Hi by done.
      rewrite (proj2 (Nat.ltb_lt _ _)) by done. change (write_at o m x) with (overwrite o m x). rewrite nth_overwrite, H2 by lia.
      destruct (_ && _) eqn:E; [|symmetry; by apply vec_is_value]. rewrite (vec_is_value _ _ _ H4).
      change (write_at o m l) with (overwrite o m l). rewrite nth_overwrite, H2, E by lia. done.
  - destruct (set_bits_is v _ o x (value bit) sw H4 Hl) as (r & -> & Hr); [by rewrite LW|by intros i Hi; apply vec_is_value|].
    cbn [mbind option_bind]. eexists. split; [done|]. split; cbn [sub_wid_ soff_ swid_ sub_val_]; [done|done|done|].
    assert (E : write_at o x (write_at o m l) = write_at o x l); [|by rewrite <- E].
    unfold write_at. rewrite take_app_length' by (rewrite length_take; lia). f_equal. f_equal.
    rewrite drop_app_ge, length_take, Nat.min_l by (rewrite ?length_take; lia). rewrite drop_app_ge by lia. rewrite drop_drop. f_equal. lia.
Qed.

(** * Variable part selects *)

Lemma int_sum base i : - 2 ^ 31 <= base < 2 ^ 31 -> Z.of_nat i < 2 ^ 31 ->
  as_signed 32 ((base + Z.of_nat i) mod 2 ^ 32) = if base + Z.of_nat i <? 2 ^ 31 then base + Z.of_nat i else base + Z.of_nat i - 2 ^ 32.
Proof.
  intros Hb Hi. destruct (Z.ltb_spec (base + Z.of_nat i) (2 ^ 31)) as [H|H].
  - change (2 ^ 32) with (2 ^ Z.of_nat 32). apply as_signed_mod. lia.
  - change (2 ^ 32) with (2 ^ Z.of_nat 32) at 1. by rewrite as_signed_high by lia.
Qed.

(** The bits set so far, and those of the part beyond. *)
Definition part_prefix (wid idx : nat) (base : Z) (l : list vvp_bit4_t) (i : nat) : vvp_bit4_t :=
  if (i <? idx)%nat then nth i (bv_part base wid l) BIT4_X else BIT4_X.

Lemma part_var_loop_is wid base v l : vec_is v l -> - 2 ^ 31 <= base < 2 ^ 31 -> Z.of_nat (length l) <= 2 ^ 31 -> Z.of_nat wid <= 2 ^ 31 ->
  forall cnt idx res, (idx + cnt = wid)%nat -> bitwise wid (part_prefix wid idx base l) res ->
  exists r, part_var_loop cnt idx base v res = Some r /\ bitwise wid (fun i => nth i (bv_part base wid l) BIT4_X) r.
Proof.
  intros Hv Hb Hl Hw. induction cnt as [|c IH]; intros idx res Hi (Wr & Sr & Vr); cbn [part_var_loop].
  - exists res. split; [done|]. split_and!; [done|done|]. intros i Hii. rewrite Vr by done. unfold part_prefix. by rewrite (proj2 (Nat.ltb_lt _ _)) by lia.
  - rewrite int_sum by lia. rewrite (vec_is_size _ _ Hv).
    assert (HX : nth idx (bv_part base wid l) BIT4_X = BIT4_X -> bitwise wid (part_prefix wid (idx + 1) base l) res).
    { intros HX. split_and!; [done|done|]. intros i Hii. rewrite Vr by done. unfold part_prefix.
      destruct (Nat.ltb_spec i idx), (Nat.ltb_spec i (idx + 1)); try done; [lia|]. assert (i = idx) as -> by lia. by rewrite HX. }
    assert (HP : nth idx (bv_part base wid l) BIT4_X = if base + Z.of_nat idx <? 0 then BIT4_X else nth (Z.to_nat (base + Z.of_nat idx)) l BIT4_X) by (apply nth_part; lia).
    destruct (Z.ltb_spec (base + Z.of_nat idx) (2 ^ 31)) as [H1|H1].
    + destruct (Z.ltb_spec (base + Z.of_nat idx) 0) as [H2|H2]; [apply IH; [lia|by apply HX]|].
      destruct (Z.leb_spec (Z.of_nat (length l)) (base + Z.of_nat idx)) as [H3|H3].
      * exists res. split; [done|]. split_and!; [done|done|]. intros i Hii. rewrite Vr by done. unfold part_prefix.
        destruct (Nat.ltb_spec i idx); [done|]. rewrite nth_part by done. case_cmp; [done|]. symmetry. apply nth_overflow. lia.
      * destruct (set_bit_spec res idx (value v (Z.to_nat (base + Z.of_nat idx))) Wr ltac:(lia)) as (r & -> & W' & S' & V'). cbn [mbind option_bind].
        apply IH; [lia|]. split_and!; [done|congruence|]. intros i Hii. rewrite V'. unfold part_prefix.
        destruct (Nat.eqb_spec i idx) as [->|Hne].
        { rewrite (proj2 (Nat.ltb_lt _ _)) by lia. rewrite HP. by apply vec_is_value. }
        rewrite Vr by done. unfold part_prefix. destruct (Nat.ltb_spec i idx), (Nat.ltb_spec i (idx + 1)); (done || lia).
    + rewrite (proj2 (Z.ltb_lt _ _)) by lia. apply IH; [lia|]. apply HX. rewrite HP. case_cmp; [done|]. apply nth_overflow. lia.
Qed.

Lemma part_var_bits_is wid base v l : vec_is v l -> - 2 ^ 31 <= base < 2 ^ 31 -> Z.of_nat (length l) <= 2 ^ 31 -> Z.of_nat wid <= 2 ^ 31 ->
  exists r, part_var_bits wid base v = Some r /\ vec_is r (bv_part base wid l).
Proof.
  intros Hv Hb Hl Hw. destruct (vec4_fill_spec wid BIT4_X) as (Wf & Sf & Vf).
  destruct (part_var_loop_is wid base v l Hv Hb Hl Hw wid 0 (vec4_fill wid BIT4_X)) as (r & E & Hr); [lia|by split_and!|].
  exists r. split; [done|]. apply (bitwise_is _ _ _ _ Hr); [apply length_part|]. done.
Qed.

(** The [int] that a base gives. *)
Definition int_base (signed : bool) (v : vvp_vector4_t) : Z :=
  match vector4_to_value 32 v signed true with (_, Some x) => as_signed 32 x | (_, None) => INT32_MIN end.

Lemma int_base_is signed wid v b l : vec_is v b -> (0 < length b)%nat -> (0 < wid)%nat -> base_fits signed wid (length b) = true ->
  Z.of_nat (length l) <= 2 ^ 31 -> Z.of_nat wid <= 2 ^ 31 ->
  - 2 ^ 31 <= int_base signed v < 2 ^ 31 /\ bv_part (int_base signed v) wid l = bv_select signed wid l b.
Proof.
  intros Hv Hp Hw Hfit Hl Hwid. destruct (base_fits_cases signed wid b Hp Hfit) as [H32 HC].
  unfold int_base, bv_select. rewrite (base_word signed v b Hv) by lia. destruct (unknown b).
  { unfold INT32_MIN. split; [lia|]. apply part_outside. left. lia. }
  destruct HC as [HR|(-> & -> & HR)]; [by rewrite as_signed_mod|].
  rewrite as_signed_high by done. split; [lia|]. by rewrite !part_outside by lia.
Qed.

Inductive select_event :=
| Source (bit : vvp_vector4_t) | SourcePart (bit : vvp_vector4_t) (base vwid : nat) | Base (bit : vvp_vector4_t).

Definition select_recv (wid : nat) (signed : bool) (e : select_event) (st : vvp_fun_part_var) : option (vvp_fun_part_var * option vvp_vector4_t) :=
  match e with
  | Source bit => part_var_recv_vec4 wid signed 0 bit st
  | SourcePart bit base vwid => part_var_recv_vec4_pv wid signed 0 bit base (size bit) vwid st
  | Base bit => part_var_recv_vec4 wid signed 1 bit st
  end.

Fixpoint select_run (wid : nat) (signed : bool) (es : list select_event) (st : vvp_fun_part_var) (sent : option vvp_vector4_t)
    : option (vvp_fun_part_var * option vvp_vector4_t) :=
  match es with
  | [] => Some (st, sent)
  | e :: es => '(st, o) ← select_recv wid signed e st; select_run wid signed es st (match o with Some v => Some v | None => sent end)
  end.

(** The source and the base after an event; a part arrives in an unknown vector at first. *)
Definition select_inputs (e : select_event) (s : list vvp_bit4_t * list vvp_bit4_t) : list vvp_bit4_t * list vvp_bit4_t :=
  match e with
  | Source bit => (bits_of bit, snd s)
  | SourcePart bit base vwid => (write_at base (bits_of bit) (if (length (fst s) =? 0)%nat then replicate vwid BIT4_X else fst s), snd s)
  | Base bit => (fst s, bits_of bit)
  end.

Definition select_event_ok (n wid : nat) (signed : bool) (e : select_event) : Prop :=
  match e with
  | Source bit => wf4 bit /\ size bit = n
  | SourcePart bit base vwid => wf4 bit /\ vwid = n /\ (0 < size bit)%nat /\ (base + size bit <= n)%nat
  | Base bit => wf4 bit /\ (0 < size bit)%nat /\ base_fits signed wid (size bit) = true
  end.

Section Select.
Context (n wid : nat) (signed : bool) (Hn : Z.of_nat n <= 2 ^ 31) (Hwid : (0 < wid)%nat /\ Z.of_nat wid <= 2 ^ 31).

(** The state for a source [l] and a base [b]. *)
Record select_holds (st : vvp_fun_part_var) (l b : list vvp_bit4_t) : Prop := {
  sh_source : vec_is (source_ st) l;
  sh_length : l = [] \/ length l = n;
  sh_range : - 2 ^ 31 <= base_ st < 2 ^ 31;
  sh_base : forall l', Z.of_nat (length l') <= 2 ^ 31 -> bv_part (base_ st) wid l' = bv_select signed wid l' b }.

Definition select_sent (st : vvp_fun_part_var) (l b : list vvp_bit4_t) (sent : option vvp_vector4_t) : Prop :=
  match sent with
  | Some v => ref_ st = v /\ vec_is v (bv_select signed wid l b)
  | None => l = [] /\ ref_ st = vec4_fill 0 BIT4_X
  end.

(** The end of [recv_vec4_]. *)
Lemma select_output st l b sent : select_holds st l b ->
  (match sent with Some v => ref_ st = v /\ exists r, vec_is v r /\ length r = wid | None => ref_ st = vec4_fill 0 BIT4_X end) ->
  exists st' (flag : bool), (res ← part_var_bits wid (base_ st) (source_ st);
      if negb (eeq (ref_ st) res) then Some (mkPartVar (base_ st) (source_ st) res, true) else Some (st, false)) = Some (st', flag) /\
    select_holds st' l b /\ select_sent st' l b (if flag then Some (ref_ st') else sent).
Proof using Hn Hwid.
  intros [H1 H2 H3 H4] Hs. destruct Hwid as [Hw1 Hw2]. assert (Hl : Z.of_nat (length l) <= 2 ^ 31) by (destruct H2 as [-> | ->]; cbn; lia).
  destruct (part_var_bits_is wid (base_ st) (source_ st) l H1 H3 Hl Hw2) as (r & -> & Hr). cbn [mbind option_bind]. rewrite H4 in Hr by done.
  pose proof (length_select signed wid l b) as Lr.
  destruct sent as [v|].
  - destruct Hs as (Er & q & Hq & Lq). rewrite Er, (eeq_vec v r q _ Hq Hr). case_bool_decide as E; cbn [negb].
    + exists st, false. split_and!; [done|done|]. split; [done|]. by rewrite <- E.
    + eexists _, true. split; [done|]. by split.
  - rewrite Hs, (eeq_vec _ r _ _ (vec_is_fill 0 BIT4_X) Hr), bool_decide_eq_false_2; cbn [negb].
    + eexists _, true. split; [done|]. by split.
    + intros E. apply (f_equal length) in E. rewrite Lr in E. cbn in E. lia.
Qed.

Lemma sent_shape st l b sent : select_sent st l b sent ->
  match sent with Some v => ref_ st = v /\ exists r, vec_is v r /\ length r = wid | None => ref_ st = vec4_fill 0 BIT4_X end.
Proof using.
  destruct sent as [v|]; [|by intros [_ H]]. intros [H1 H2]. split; [done|]. eexists. split; [done|]. apply length_select.
Qed.

Lemma source_step st l b sent bit : select_holds st l b -> select_sent st l b sent -> wf4 bit -> size bit = n ->
  exists st' o, part_var_recv_vec4 wid signed 0 bit st = Some (st', o) /\ select_holds st' (bits_of bit) b /\
    select_sent st' (bits_of bit) b (match o with Some v => Some v | None => sent end).
Proof using Hn Hwid.
  intros [H1 H2 H3 H4] Hs Hw Sb. unfold part_var_recv_vec4, part_var_recv_vec4_.
  assert (HH : select_holds (mkPartVar (base_ st) bit (ref_ st)) (bits_of bit) b).
  { split; cbn; [by apply vec_is_bits_of|right; by rewrite length_bits_of|done|done]. }
  destruct (select_output _ _ _ sent HH (sent_shape _ _ _ _ Hs)) as (st' & flag & -> & Hh & Hsent). cbn [mbind option_bind].
  exists st', (if flag then Some (ref_ st') else None). split_and!; [done|done|]. by destruct flag.
Qed.

Lemma base_step st l b sent bit : select_holds st l b -> select_sent st l b sent ->
  wf4 bit -> (0 < size bit)%nat -> base_fits signed wid (size bit) = true ->
  exists st' o, part_var_recv_vec4 wid signed 1 bit st = Some (st', o) /\ select_holds st' l (bits_of bit) /\
    select_sent st' l (bits_of bit) (match o with Some v => Some v | None => sent end).
Proof using Hn Hwid.
  intros [H1 H2 H3 H4] Hs Hw H0 Hf. rewrite <- (length_bits_of bit) in H0, Hf.
  assert (HB : forall l', Z.of_nat (length l') <= 2 ^ 31 -> - 2 ^ 31 <= int_base signed bit < 2 ^ 31 /\ bv_part (int_base signed bit) wid l' = bv_select signed wid l' (bits_of bit)).
  { intros l' Hl'. apply int_base_is; try done; apply Hwid. }
  pose proof (proj1 (HB [] ltac:(cbn; lia))) as HR. unfold part_var_recv_vec4, part_var_recv_vec4_. fold (int_base signed bit).
  assert (Hl : Z.of_nat (length l) <= 2 ^ 31) by (destruct H2 as [-> | ->]; cbn; lia).
  destruct (Z.eqb_spec (int_base signed bit) (base_ st)) as [E|E].
  - cbn [mbind option_bind]. exists st, None. split; [done|]. assert (HH : forall l', Z.of_nat (length l') <= 2 ^ 31 -> bv_part (base_ st) wid l' = bv_select signed wid l' (bits_of bit)).
    { intros l' Hl'. rewrite <- E. by apply HB. }
    split; [by split|]. destruct sent as [v|]; [|done]. destruct Hs as [Er Hv]. split; [done|]. by rewrite <- (H4 l Hl), HH in Hv.
  - assert (HH : select_holds (mkPartVar (int_base signed bit) (source_ st) (ref_ st)) l (bits_of bit)).
    { split; cbn; [done|done|done|]. intros l' Hl'. by apply HB. }
    destruct (select_output _ _ _ sent HH (sent_shape _ _ _ _ Hs)) as (st' & flag & -> & Hh & Hsent). cbn [mbind option_bind].
    exists st', (if flag then Some (ref_ st') else None). split_and!; [done|done|]. by destruct flag.
Qed.

Lemma select_step st l b sent e : select_holds st l b -> select_sent st l b sent -> select_event_ok n wid signed e ->
  let '(l', b') := select_inputs e (l, b) in
  exists st' o, select_recv wid signed e st = Some (st', o) /\ select_holds st' l' b' /\
    select_sent st' l' b' (match o with Some v => Some v | None => sent end).
Proof using Hn Hwid.
  intros Hh Hs He. destruct e as [bit|bit base vwid|bit]; cbn [select_inputs select_recv fst snd].
  - destruct He as [Hw Hsz]. by apply (source_step st l b sent bit).
  - destruct He as (Hw & -> & H0 & Hb). unfold part_var_recv_vec4_pv. rewrite Nat.eqb_refl. destruct (Hh) as [H1 H2 H3 H4].
    set (l0 := if (length l =? 0)%nat then replicate n BIT4_X else l).
    assert (HT : vec_is (if (size (source_ st) =? 0)%nat then vec4_fill n BIT4_X else source_ st) l0 /\ length l0 = n).
    { unfold l0. rewrite (vec_is_size _ _ H1). destruct (Nat.eqb_spec (length l) 0) as [E|E]; [split; [apply vec_is_fill|apply length_replicate]|].
      split; [done|]. destruct H2 as [->|H2]; done. }
    destruct HT as [HT HL]. cbv zeta. rewrite (vec_is_size _ _ HT), HL, Nat.eqb_refl.
    destruct (set_vec_is _ base bit l0 (bits_of bit) HT (vec_is_bits_of bit Hw)) as (v & d & -> & Hv); [by rewrite length_bits_of|by rewrite length_bits_of, HL|].
    cbn [mbind option_bind]. destruct (source_step st l b sent v Hh Hs (vec_is_wf _ _ Hv)) as (st' & o & E & Hst' & Hsent).
    { rewrite (vec_is_size _ _ Hv), length_overwrite; rewrite ?length_bits_of; lia. }
    rewrite (proj2 Hv) in *. by exists st', o.
  - destruct He as (Hw & H0 & Hf). by apply (base_step st l b sent bit).
Qed.

Lemma select_run_is es : forall st s sent, select_holds st (fst s) (snd s) -> select_sent st (fst s) (snd s) sent ->
  Forall (select_event_ok n wid signed) es ->
  exists st' sent', select_run wid signed es st sent = Some (st', sent') /\
    let '(l, b) := fold_left (fun s e => select_inputs e s) es s in select_sent st' l b sent'.
Proof using Hn Hwid.
  induction es as [|e es IH]; intros st [l b] sent Hh Hs Hes; cbn [select_run fold_left]; [by exists st, sent|].
  inversion_clear Hes as [|? ? He Hes']. pose proof (select_step st l b sent e Hh Hs He) as H.
  destruct (select_inputs e (l, b)) as [l' b']. destruct H as (st' & o & -> & Hh' & Hs'). cbn [mbind option_bind].
  by apply (IH st' (l', b')).
Qed.
End Select.

(** A variable part select of a continuous assignment, along any sequence of sources,
    parts of sources and bases: nothing fails, and the vector it sent last is the part of the
    source at the base as the language defines it, X outside of the source and for an unknown
    base, which is also what the instruction for a select leaves; before it sent anything no
    source has arrived.  A base of more than 31 bits may not survive the cut to [int]. *)
Theorem part_var_trace n wid signed es :
  Z.of_nat n <= 2 ^ 31 -> (0 < wid)%nat -> Z.of_nat wid <= 2 ^ 31 -> Forall (select_event_ok n wid signed) es ->
  exists st sent, select_run wid signed es part_var_new None = Some (st, sent) /\
    let '(l, b) := fold_left (fun s e => select_inputs e s) es ([], [BIT4_0]) in
    match sent with
    | Some v => vec_is v (bv_select signed wid l b) /\
        forall vl vb, vec_is vl l -> vec_is vb b -> (0 < length l)%nat -> Z.of_nat (length l) <= 2 ^ 31 -> (0 < length b)%nat ->
          base_fits signed wid (length b) = true -> exists r, part signed wid vl vb = Some r /\ vec_is r (bv_select signed wid l b)
    | None => l = []
    end.
Proof.
  intros Hn Hw Hw2 Hes.
  assert (Hh : select_holds n wid signed part_var_new [] [BIT4_0]).
  { split; cbn; [apply (vec_is_fill 0 BIT4_X)|by left|lia|]. intros l' _. unfold bv_select. by destruct signed. }
  destruct (select_run_is n wid signed Hn (conj Hw Hw2) es part_var_new ([], [BIT4_0]) None Hh) as (st & sent & E & HS); [by split|done|].
  exists st, sent. split; [done|]. destruct (fold_left _ _ _) as [l b]. destruct sent as [v|]; [|by destruct HS].
  destruct HS as [_ HV]. split; [done|]. intros vl vb Hl Hb Hl0 Hl2 Hb0 Hf. by apply part_is.
Qed.

(** A base of 33 bits whose low 32 bits are 0 selects bit 0. *)
Lemma part_var_base_cut :
  (exists st v, select_run 1 false [Source (vec4_fill 8 BIT4_1); Base (mkVec4 33 [2 ^ 32] [0])] part_var_new None = Some (st, Some v) /\
    bits_of v = [BIT4_1]) /\
  bv_select false 1 (replicate 8 BIT4_1) (bits_of (mkVec4 33 [2 ^ 32] [0])) = [BIT4_X].
Proof.
  split; [eexists _, _; split; vm_compute; reflexivity|]. set (b := bits_of _). assert (EU : unknown b = false) by (vm_compute; reflexivity).
  assert (EB : bv_num false b = 2 ^ 32) by (vm_compute; reflexivity). unfold bv_select. rewrite EU, EB.
  apply part_outside. right. rewrite length_replicate. lia.
Qed.

(** * Witnesses *)

(** XNOR of four bits, of which two arrive again. *)
Lemma reduce_agrees_witness :
  let l := [BIT4_1; BIT4_1] in let held := replicate 4 BIT4_0 in
  (exists v, reduce_instruction ReduceXnor (vec4_fill 2 BIT4_1) = Some v /\ vec_is v [reduce_list ReduceXnor l] /\
    reduce_recv_vec4 ReduceXnor (vec4_fill 2 BIT4_1) (vec4_fill 4 BIT4_0) = (vec4_fill 2 BIT4_1, vec4_fill 1 (reduce_list ReduceXnor l))) /\
  (forall h, vec_is (vec4_fill 4 BIT4_0) h -> (0 < length h)%nat -> length h = 4%nat -> (1 + length l <= 4)%nat ->
    exists whole v, reduce_recv_vec4_pv ReduceXnor (vec4_fill 2 BIT4_1) 1 (length l) 4 (vec4_fill 4 BIT4_0) = Some (whole, vec4_fill 1 (reduce_list ReduceXnor (write_at 1 l h))) /\
      vec_is whole (write_at 1 l h) /\ reduce_instruction ReduceXnor whole = Some v /\ vec_is v [reduce_list ReduceXnor (write_at 1 l h)]).
Proof. intros l held. apply (reduce_agrees ReduceXnor (vec4_fill 2 BIT4_1) l (vec4_fill 4 BIT4_0) 1 4); [apply (vec_is_fill 2)|cbn; lia]. Defined.

(** Two ports; a part of the second arrives before the first, and a scalar at the port with
    strengths. *)
Lemma concat_trace_witness :
  (exists st st', concat_new 2 3 0 0 = Some st /\
    recv_all concat_recv [PiecePart 1 (vec4_fill 1 BIT4_1) 1 1 3; PieceWhole 0 (vec4_fill 2 BIT4_0)] st = Some st' /\
    vec_is (concat_val_ st') (concat [[BIT4_0; BIT4_0]; [BIT4_Z; BIT4_1; BIT4_Z]; []; []])) /\
  (exists st st', concat8_new 2 3 0 0 = Some st /\
    recv_all concat8_recv [PieceWhole 0 (mkVec8 2 [238; 85; 0; 0; 0; 0; 0; 0])] st = Some st' /\
    vec8_is (concat8_val_ st') (concat [[238; 85]; [0; 0; 0]; []; []])).
Proof.
  apply (concat_trace 2 3 0 0).
  - apply (pieces_cons _ _ _ 1 1 [BIT4_1]); [cbn; split_and!; (lia || reflexivity || apply (vec_is_fill 1))|].
    apply (pieces_cons _ _ _ 0 0 [BIT4_0; BIT4_0]); [cbn; split_and!; (lia || reflexivity || apply (vec_is_fill 2))|]. apply pieces_nil.
  - apply (pieces_cons _ _ _ 0 0 [238; 85]); [cbn; split_and!; try reflexivity; split; [split; reflexivity|reflexivity]|]. apply pieces_nil.
Defined.

Lemma repeat_output_witness :
  exists r, repeat_recv_vec4 7 3 (vec4_fill 2 BIT4_1) = Some r /\ vec_is r (concat (replicate 3 [BIT4_1; BIT4_1]) ++ replicate (7 - 3 * 2) BIT4_X).
Proof. apply (repeat_output 7 3 (vec4_fill 2 BIT4_1) [BIT4_1; BIT4_1]); [apply (vec_is_fill 2)|lia|reflexivity]. Defined.

(** The base arrives first, then a part of the source. *)
Lemma part_var_trace_witness :
  let es := [Base (vec4_fill 3 BIT4_1); SourcePart (vec4_fill 2 BIT4_1) 6 8; Base (vec4_fill 1 BIT4_X)] in
  exists st sent, select_run 4 false es part_var_new None = Some (st, sent) /\
    let '(l, b) := fold_left (fun s e => select_inputs e s) es ([], [BIT4_0]) in
    match sent with
    | Some v => vec_is v (bv_select false 4 l b) /\
        forall vl vb, vec_is vl l -> vec_is vb b -> (0 < length l)%nat -> Z.of_nat (length l) <= 2 ^ 31 -> (0 < length b)%nat ->
          base_fits false 4 (length b) = true -> exists r, part false 4 vl vb = Some r /\ vec_is r (bv_select false 4 l b)
    | None => l = []
    end.
Proof.
  intros es. apply (part_var_trace 8 4 false es); [cbn; lia|lia|cbn; lia|].
  unfold es. repeat (apply List.Forall_cons || apply List.Forall_nil); cbn [select_event_ok]; split_and!; (apply vec4_fill_spec || (apply Nat.ltb_lt; reflexivity) || (apply Nat.leb_le; reflexivity) || reflexivity).
Defined.
