(* ===== verification/Storage.v ===== *)
(** The flip-flops and latches of synthesized designs ([vvp/dff.h], [vvp/dff.cc],
    [vvp/latch.h], [vvp/latch.cc]).

    A handler gives the new state and what it does: schedule a vector for the net in the
    current time step, or send one.  [None] is a failed [assert].

    The answers of the flip-flops are then given as functions of what has arrived at their
    ports, and the latches are compared with a transparent latch. *)
From S2P Require Import Prelude MachineWord VvpBit VvpVector4 VvpSlice VvpArith BitList VThreadSpec VvpStrength Switches.

(** [schedule_propagate_vector(net, 0, v)] and [net->send_vec4(v, 0)]. *)
Inductive effect := Scheduled (v : vvp_vector4_t) | Sent (v : vvp_vector4_t).

(** * [vvp_dff] *)

(** The class: what its [recv_async] schedules. *)
Inductive dff_class := DffPlain | DffAclr | DffAset | DffAsc (asc_value_ : vvp_vector4_t).

Record vvp_dff := mkDff {
  dff_type : dff_class; clk_active_ : vvp_bit4_t;
  clk_ : vvp_bit4_t; ena_ : vvp_bit4_t; asc_ : vvp_bit4_t; d_ : vvp_vector4_t }.

Definition dff_new (c : dff_class) (width : nat) (negedge : bool) : vvp_dff :=
  mkDff c (if negedge then BIT4_0 else BIT4_1) BIT4_X BIT4_X BIT4_Z (vec4_fill width BIT4_X).

(** [vvp_dff_asc] takes its value from the text of the program. *)
Definition dff_asc_new (width : nat) (negedge : bool) (asc_value : list Z) : option vvp_dff :=
  v ← c4string_to_vector4 asc_value; Some (dff_new (DffAsc v) width negedge).

Definition recv_async (st : vvp_dff) : option effect :=
  match dff_type st with
  | DffPlain => None
  | DffAclr => Some (Scheduled (vec4_fill (size (d_ st)) BIT4_0))
  | DffAset => Some (Scheduled (vec4_fill (size (d_ st)) BIT4_1))
  | DffAsc v => Some (Scheduled v)
  end.

Definition dff_recv_vec4 (port : nat) (bit : vvp_vector4_t) (st : vvp_dff) : option (vvp_dff * option effect) :=
  match port with
  | 0%nat => Some (mkDff (dff_type st) (clk_active_ st) (clk_ st) (ena_ st) (asc_ st) bit, None)
  | 1%nat =>
      if (size bit =? 1)%nat then
        if negb (bit4_eqb (asc_ st) BIT4_0) then Some (st, None)
        else if negb (bit4_eqb (ena_ st) BIT4_1) then Some (st, None)
        else
          let tmp := clk_ st in
          let clk := value bit 0 in
          let st' := mkDff (dff_type st) (clk_active_ st) clk (ena_ st) (asc_ st) (d_ st) in
          Some (st', if bit4_eqb clk (clk_active_ st) && negb (bit4_eqb tmp (clk_active_ st))
                     then Some (Scheduled (d_ st)) else None)
      else None
  | 2%nat =>
      if (size bit =? 1)%nat
      then Some (mkDff (dff_type st) (clk_active_ st) (clk_ st) (value bit 0) (asc_ st) (d_ st), None) else None
  | 3%nat =>
      if (size bit =? 1)%nat then
        let tmp := asc_ st in
        let st' := mkDff (dff_type st) (clk_active_ st) (clk_ st) (ena_ st) (value bit 0) (d_ st) in
        if bit4_eqb (value bit 0) BIT4_1 && negb (bit4_eqb tmp BIT4_1) then e ← recv_async st'; Some (st', Some e)
        else if bit4_eqb tmp BIT4_Z then Some (st', Some (Sent (vec4_fill (size (d_ st)) BIT4_X)))
        else Some (st', None)
      else None
  | _ => Some (st, None)
  end.

Definition dff_recv_vec4_pv (port : nat) (bit : vvp_vector4_t) (base wid vwid : nat) (st : vvp_dff) :=
  tmp ← recv_vec4_pv_ bit base wid vwid; dff_recv_vec4 port tmp st.

(** * [vvp_latch] *)

Record vvp_latch := mkLatch { latch_en_ : vvp_bit4_t; latch_d_ : vvp_vector4_t }.

Definition latch_new (width : nat) : vvp_latch := mkLatch BIT4_X (vec4_fill width BIT4_X).

Definition latch_recv_vec4 (port : nat) (bit : vvp_vector4_t) (st : vvp_latch) : option (vvp_latch * option effect) :=
  match port with
  | 0%nat => Some (mkLatch (latch_en_ st) bit, if bit4_eqb (latch_en_ st) BIT4_1 then Some (Scheduled bit) else None)
  | 1%nat =>
      if (size bit =? 1)%nat then
        let tmp := latch_en_ st in
        let en := value bit 0 in
        Some (mkLatch en (latch_d_ st),
              if bit4_eqb en BIT4_1 && negb (bit4_eqb tmp BIT4_1) then Some (Scheduled (latch_d_ st)) else None)
      else None
  | 2%nat => None
  | 3%nat => Some (st, Some (Sent (vec4_fill (size (latch_d_ st)) BIT4_X)))
  | _ => Some (st, None)
  end.

Definition latch_recv_vec4_pv (port : nat) (bit : vvp_vector4_t) (base wid vwid : nat) (st : vvp_latch) :=
  tmp ← recv_vec4_pv_ bit base wid vwid; latch_recv_vec4 port tmp st.

(** * What the flip-flops do *)

Definition dff_event_ok (st : vvp_dff) (x : nat * vvp_vector4_t) : Prop :=
  let '(port, bit) := x in
  ((0 < port < 4)%nat -> size bit = 1%nat) /\
  (port = 3%nat -> dff_type st = DffPlain -> value bit 0 <> BIT4_1).

(** ** The reference, in terms of what has arrived

    Nothing here is read from the state of the flip-flop: an answer is a function of the
    arrivals before it, the last of them first. *)

Section Reference.
Context (c : dff_class) (width : nat) (negedge : bool).

(** The last bit that arrived at a port, and the last data. *)
Fixpoint last_bit (port : nat) (init : vvp_bit4_t) (h : list (nat * vvp_vector4_t)) : vvp_bit4_t :=
  match h with
  | [] => init
  | (p, bit) :: h => if (p =? port)%nat then value bit 0 else last_bit port init h
  end.
Fixpoint last_data (h : list (nat * vvp_vector4_t)) : vvp_vector4_t :=
  match h with
  | [] => vec4_fill width BIT4_X
  | (p, bit) :: h => if (p =? 0)%nat then bit else last_data h
  end.

Definition active_level : vvp_bit4_t := if negedge then BIT4_0 else BIT4_1.
Definition enabled (h : list (nat * vvp_vector4_t)) : bool := bit4_eqb (last_bit 2 BIT4_X h) BIT4_1.
(** Neither set nor cleared; before anything arrives at port 3 this is not known. *)
Definition released (h : list (nat * vvp_vector4_t)) : bool := bit4_eqb (last_bit 3 BIT4_Z h) BIT4_0.

(** The clock as a flip-flop sees it that watches it only while it is enabled and released. *)
Fixpoint watched_clock (h : list (nat * vvp_vector4_t)) : vvp_bit4_t :=
  match h with
  | [] => BIT4_X
  | (p, bit) :: h => if (p =? 1)%nat && enabled h && released h then value bit 0 else watched_clock h
  end.
(** The clock as it is. *)
Definition real_clock (h : list (nat * vvp_vector4_t)) : vvp_bit4_t := last_bit 1 BIT4_X h.

(** The value of a set or a clear. *)
Definition async_value (n : nat) : vvp_vector4_t :=
  match c with
  | DffPlain => vec4_fill n BIT4_X
  | DffAclr => vec4_fill n BIT4_0
  | DffAset => vec4_fill n BIT4_1
  | DffAsc v => v
  end.

(** What the arrival of [x] after [h] does: an edge to the active level of the [clock] stores
    the last data, a rising edge at port 3 sets or clears, and an arrival there after nothing
    (or a floating bit) sends the initial value. *)
Definition answer (clock : list (nat * vvp_vector4_t) -> vvp_bit4_t) (h : list (nat * vvp_vector4_t)) (x : nat * vvp_vector4_t) : option effect :=
  let '(port, bit) := x in
  match port with
  | 1%nat =>
      if enabled h && released h && bit4_eqb (value bit 0) active_level && negb (bit4_eqb (clock h) active_level)
      then Some (Scheduled (last_data h)) else None
  | 3%nat =>
      let before := last_bit 3 BIT4_Z h in
      if bit4_eqb (value bit 0) BIT4_1 && negb (bit4_eqb before BIT4_1) then Some (Scheduled (async_value (size (last_data h))))
      else if bit4_eqb before BIT4_Z then Some (Sent (vec4_fill (size (last_data h)) BIT4_X))
      else None
  | _ => None
  end.

Fixpoint answers (clock : list (nat * vvp_vector4_t) -> vvp_bit4_t) (h xs : list (nat * vvp_vector4_t)) : list effect :=
  match xs with
  | [] => []
  | x :: xs => option_list (answer clock h x) ++ answers clock (x :: h) xs
  end.

(** The state that the arrivals leave. *)
Definition state_of (h : list (nat * vvp_vector4_t)) : vvp_dff :=
  mkDff c active_level (watched_clock h) (last_bit 2 BIT4_X h) (last_bit 3 BIT4_Z h) (last_data h).

Lemma answer_is h x : dff_event_ok (state_of h) x ->
  dff_recv_vec4 (fst x) (snd x) (state_of h) = Some (state_of (x :: h), answer watched_clock h x).
Proof.
  destruct x as [port bit]. intros [Hs Ha]. cbn [fst snd]. destruct port as [|[|[|[|port]]]]; [done| | | |done].
  - unfold state_of, answer. cbn [dff_recv_vec4 last_bit last_data watched_clock Nat.eqb ena_ asc_ clk_ clk_active_ d_ dff_type]. rewrite Hs by lia.
    fold (enabled h) (released h). cbn [Nat.eqb]. destruct (released h), (enabled h); reflexivity.
  - cbn [dff_recv_vec4]. rewrite Hs by lia. reflexivity.
  - unfold state_of, answer. cbn [dff_recv_vec4 last_bit last_data watched_clock Nat.eqb ena_ asc_ clk_ clk_active_ d_ dff_type andb] in *. rewrite Hs by lia. cbn [Nat.eqb].
    destruct (bit4_eqb (value bit 0) BIT4_1) eqn:E; cbn [andb].
    + apply bit4_eqb_eq in E. destruct (bit4_eqb (last_bit 3 BIT4_Z h) BIT4_1); cbn [negb].
      * destruct (bit4_eqb (last_bit 3 BIT4_Z h) BIT4_Z); reflexivity.
      * unfold async_value, recv_async. cbn [dff_type d_]. assert (Hc : c <> DffPlain) by (intros Hc; by apply (Ha eq_refl Hc)). clear Ha. by destruct c.
    + destruct (bit4_eqb (last_bit 3 BIT4_Z h) BIT4_Z); reflexivity.
Qed.
End Reference.

Fixpoint dff_run (xs : list (nat * vvp_vector4_t)) (st : vvp_dff) : option (list effect) :=
  match xs with
  | [] => Some []
  | (port, bit) :: xs => '(st, e) ← dff_recv_vec4 port bit st; es ← dff_run xs st; Some (option_list e ++ es)
  end.

Lemma dff_run_is c width negedge xs : forall h, Forall (dff_event_ok (dff_new c width negedge)) xs ->
  dff_run xs (state_of c width negedge h) = Some (answers c width negedge watched_clock h xs).
Proof.
  induction xs as [|x xs IH]; intros h Hxs; [done|]. inversion_clear Hxs as [|? ? Hx Hxs']. cbn [dff_run answers].
  pose proof (answer_is c width negedge h x Hx) as E. destruct x as [port bit]. cbn [fst snd] in E. rewrite E. cbn [mbind option_bind].
  by rewrite IH.
Qed.

(** C11: a flip-flop of any class, along any sequence of values at its ports (one bit at the
    clock, the enable and the set or clear, and no 1 at the latter if the class has none),
    never fails and schedules and sends exactly this, in this order: at a clock that becomes
    active, while the last enable was 1 and the last set or clear 0, the last data; at a set
    or clear that becomes 1, zeros, ones or the given value; at another arrival on that port
    after nothing or Z, all X at once. "Becomes" is seen from the last clock that arrived
    while the flip-flop was enabled and released; where that clock is the real one whenever it
    matters, these are the answers of a flip-flop that watches its clock all the time. *)
Theorem dff_trace c width negedge xs :
  let st := dff_new c width negedge in
  Forall (dff_event_ok st) xs ->
  dff_run xs st = Some (answers c width negedge watched_clock [] xs) /\
  ((forall h x ys, xs = rev h ++ x :: ys -> fst x = 1%nat -> enabled h = true -> released h = true ->
      bit4_eqb (watched_clock h) (active_level negedge) = bit4_eqb (real_clock h) (active_level negedge)) ->
   dff_run xs st = Some (answers c width negedge real_clock [] xs)).
Proof.
  intros st Hxs. pose proof (dff_run_is c width negedge xs [] Hxs) as E. split; [exact E|]. intros Ht.
  etransitivity; [exact E|]. f_equal. clear E Hxs.
  enough (G : forall zs h, xs = rev h ++ zs -> answers c width negedge watched_clock h zs = answers c width negedge real_clock h zs) by (by apply (G xs [])).
  induction zs as [|x zs IH]; intros h Hh; [done|]. cbn [answers]. f_equal.
  - f_equal. destruct x as [port bit]. destruct port as [|[|port]]; [done| |done]. cbn [answer].
    destruct (enabled h) eqn:E1; [|done]. destruct (released h) eqn:E2; [|done]. by rewrite (Ht h _ zs Hh) by done.
  - apply IH. cbn [rev]. by rewrite <- app_assoc.
Qed.

Definition one_bit (b : vvp_bit4_t) : vvp_vector4_t := vec4_fill 1 b.

(** The clock is not watched while the flip-flop is disabled, or set or cleared: when it
    falls then, the next rising edge is missed.  Here an enabled flip-flop stores a 1 and is
    disabled; the clock falls; it is enabled again with a 0 at its input; the clock rises and
    nothing is stored. *)
Theorem dff_missed_edge :
  let xs := [(3%nat, one_bit BIT4_0); (2%nat, one_bit BIT4_1); (0%nat, one_bit BIT4_1); (1%nat, one_bit BIT4_0); (1%nat, one_bit BIT4_1);
             (2%nat, one_bit BIT4_0); (1%nat, one_bit BIT4_0); (2%nat, one_bit BIT4_1); (0%nat, one_bit BIT4_0); (1%nat, one_bit BIT4_1)] in
  dff_run xs (dff_new DffPlain 1 false) = Some [Sent (one_bit BIT4_X); Scheduled (one_bit BIT4_1)] /\
  answers DffPlain 1 false real_clock [] xs = [Sent (one_bit BIT4_X); Scheduled (one_bit BIT4_1); Scheduled (one_bit BIT4_0)].
Proof. split; vm_compute; reflexivity. Qed.

(** * Latches *)

(** What a transparent latch holds: the data while it is open. *)
Definition latch_value (x : nat * vvp_vector4_t) (s : vvp_bit4_t * vvp_vector4_t * option vvp_vector4_t) :=
  let '(port, bit) := x in
  let '(en, d, q) := s in
  let d := if (port =? 0)%nat then bit else d in
  let en := if (port =? 1)%nat then value bit 0 else en in
  (en, d, if bit4_eqb en BIT4_1 then Some d else q).

Fixpoint latch_run (xs : list (nat * vvp_vector4_t)) (st : vvp_latch) (q : option vvp_vector4_t) : option (vvp_latch * option vvp_vector4_t) :=
  match xs with
  | [] => Some (st, q)
  | (port, bit) :: xs =>
      '(st, e) ← latch_recv_vec4 port bit st;
      latch_run xs st (match e with Some (Scheduled v) => Some v | _ => q end)
  end.

Definition latch_event_ok (x : nat * vvp_vector4_t) : Prop := fst x <> 2%nat /\ (fst x = 1%nat -> size (snd x) = 1%nat).

(** The vector that a latch scheduled last is what a transparent latch holds, along any
    sequence of data and enables. *)
Theorem latch_trace width xs :
  Forall latch_event_ok xs ->
  exists st q, latch_run xs (latch_new width) None = Some (st, q) /\
    fold_left (fun s x => latch_value x s) xs (BIT4_X, vec4_fill width BIT4_X, None) = (latch_en_ st, latch_d_ st, q).
Proof.
  intros Hxs. change (BIT4_X, vec4_fill width BIT4_X, @None vvp_vector4_t) with (latch_en_ (latch_new width), latch_d_ (latch_new width), @None vvp_vector4_t).
  assert (HG : forall st q, (latch_en_ st = BIT4_1 -> q = Some (latch_d_ st)) ->
    exists st' q', latch_run xs st q = Some (st', q') /\ fold_left (fun s x => latch_value x s) xs (latch_en_ st, latch_d_ st, q) = (latch_en_ st', latch_d_ st', q')).
  { induction Hxs as [|[port bit] xs [H2 H1] Hxs IH]; intros [en d] q Hq; cbn [latch_run fold_left latch_en_ latch_d_] in *; [by exists (mkLatch en d), q|].
    cbn [fst snd] in *. destruct port as [|[|[|[|port]]]]; [| |done| |].
    - cbn [latch_recv_vec4 latch_en_ mbind option_bind latch_value Nat.eqb].
      destruct (bit4_eqb en BIT4_1) eqn:E; apply IH; cbn [latch_en_ latch_d_]; [done|]. intros ->. by cbn in E.
    - cbn [latch_recv_vec4 latch_en_ latch_d_ latch_value Nat.eqb]. rewrite H1 by done. cbn [Nat.eqb mbind option_bind].
      destruct (bit4_eqb (value bit 0) BIT4_1) eqn:E; cbn [andb].
      + destruct (bit4_eqb en BIT4_1) eqn:E2; cbn [negb]; [|by apply IH].
        apply bit4_eqb_eq in E2. rewrite (Hq E2). by apply (IH (mkLatch (value bit 0) d) (Some d)).
      + apply (IH (mkLatch (value bit 0) d) q). cbn. intros E2. rewrite E2 in E. done.
    - cbn [latch_recv_vec4 mbind option_bind latch_value Nat.eqb latch_en_ latch_d_].
      destruct (bit4_eqb en BIT4_1) eqn:E; [|by apply (IH (mkLatch en d) q)]. apply bit4_eqb_eq in E. rewrite <- (Hq E). by apply (IH (mkLatch en d) q).
    - cbn [latch_recv_vec4 mbind option_bind latch_value Nat.eqb latch_en_ latch_d_].
      destruct (bit4_eqb en BIT4_1) eqn:E; [|by apply (IH (mkLatch en d) q)]. apply bit4_eqb_eq in E. rewrite <- (Hq E). by apply (IH (mkLatch en d) q). }
  apply HG. done.
Qed.

(** * Witnesses *)

(** A negative-edge flip-flop with a set, disabled for a whole period of the clock. *)
Lemma dff_trace_witness :
  let xs := [(3%nat, one_bit BIT4_1); (3%nat, one_bit BIT4_0); (2%nat, one_bit BIT4_1); (0%nat, vec4_fill 2 BIT4_0); (1%nat, one_bit BIT4_1); (1%nat, one_bit BIT4_0);
             (2%nat, one_bit BIT4_0); (1%nat, one_bit BIT4_1); (1%nat, one_bit BIT4_0); (2%nat, one_bit BIT4_1); (1%nat, one_bit BIT4_1); (1%nat, one_bit BIT4_0)] in
  dff_run xs (dff_new DffAset 2 true) = Some [Scheduled (vec4_fill 2 BIT4_1); Scheduled (vec4_fill 2 BIT4_0); Scheduled (vec4_fill 2 BIT4_0)].
Proof.
  intros xs. destruct (dff_trace DffAset 2 true xs) as [E _].
  - unfold xs. repeat (apply List.Forall_cons || apply List.Forall_nil); (split; [intros H; first [reflexivity|exfalso; lia]|intros H1 H2; discriminate]).
  - exact (eq_trans E ltac:(vm_compute; reflexivity)).
Defined.

Lemma latch_trace_witness :
  let xs := [(3%nat, one_bit BIT4_1); (0%nat, vec4_fill 2 BIT4_1); (1%nat, one_bit BIT4_1); (0%nat, vec4_fill 2 BIT4_0); (1%nat, one_bit BIT4_X); (0%nat, vec4_fill 2 BIT4_Z)] in
  exists st q, latch_run xs (latch_new 2) None = Some (st, q) /\
    fold_left (fun s x => latch_value x s) xs (BIT4_X, vec4_fill 2 BIT4_X, None) = (latch_en_ st, latch_d_ st, q).
Proof.
  intros xs. apply (latch_trace 2 xs). unfold xs. repeat (apply List.Forall_cons || apply List.Forall_nil);
    (split; cbn [fst snd]; [discriminate|intros H; first [reflexivity|discriminate H]]).
Defined.
