(* ===== verification/Udp.v ===== *)
(** User-defined primitives ([vvp/udp.h], [vvp/udp.cc]): the compilation of the rows of a
    table into masks, the search of the masks, and the functor of an instance.

    A row is the text that the compiler wrote: for a combinational primitive the symbols of the
    inputs and the output, for a sequential one the symbol of the current output first.  [None]
    is a failed [assert] or a shift out of the width of its operand. *)
From Stdlib Require Import Ascii.
From S2P Require Import Prelude MachineWord VvpBit VvpVector4 VvpSlice.

Local Open Scope char_scope.

(** * Tables *)

Record udp_levels_table := mkLevels { mask0 : Z; mask1 : Z; maskx : Z }.
Definition no_levels : udp_levels_table := mkLevels 0 0 0.

(** [operator ==]. *)
Definition levels_eqb (a b : udp_levels_table) : bool :=
  ((mask0 a =? mask0 b) && (mask1 a =? mask1 b) && (maskx a =? maskx b))%Z.

(** [cur.mask |= mask_bit] for the masks that a symbol names: 0, 1 and x. *)
Definition or_masks (f : bool * bool * bool) (mask_bit : Z) (cur : udp_levels_table) : udp_levels_table :=
  let '(f0, f1, fx) := f in
  mkLevels (if f0 then Z.lor (mask0 cur) mask_bit else mask0 cur)
           (if f1 then Z.lor (mask1 cur) mask_bit else mask1 cur)
           (if fx then Z.lor (maskx cur) mask_bit else maskx cur).

(** The masks of [or_based_on_char]. *)
Definition level_flags (flag : ascii) : option (bool * bool * bool) :=
  match flag with
  | "0" => Some (true, false, false)
  | "1" => Some (false, true, false)
  | "x" => Some (false, false, true)
  | "b" => Some (true, true, false)
  | "l" => Some (true, false, true)
  | "h" => Some (false, true, true)
  | "?" => Some (true, true, true)
  | _ => None
  end.

Definition or_based_on_char (cur : udp_levels_table) (flag : ascii) (mask_bit : Z) : option udp_levels_table :=
  f ← level_flags flag; Some (or_masks f mask_bit cur).

(** [1UL << pos]. *)
Definition long_bit (pos : nat) : option Z := if (pos <? 64)%nat then Some (2 ^ Z.of_nat pos)%Z else None.

(** [1 << pos], an [int] that becomes an [unsigned long]. *)
Definition int_bit (pos : nat) : option Z :=
  if (pos <? 31)%nat then Some (2 ^ Z.of_nat pos)%Z
  else if (pos =? 31)%nat then Some (2 ^ 64 - 2 ^ 31)%Z else None.

(** A row of an edge table: the position of the edge and the values it may start from. *)
Record udp_edges_table := mkEdges {
  edge_position : nat; edge_mask0 : bool; edge_mask1 : bool; edge_maskx : bool; edge_levels : udp_levels_table }.
Definition no_edges : udp_edges_table := mkEdges 0 false false false no_levels.

(** The values before and after the edge of a symbol of [edge_based_on_char]. *)
Definition edge_flags (chr : ascii) : option ((bool * bool * bool) * (bool * bool * bool)) :=
  match chr with
  | "B" => Some ((false, false, true), (true, true, false))
  | "f" => Some ((false, true, false), (true, false, false))
  | "F" => Some ((false, false, true), (true, false, false))
  | "M" => Some ((false, true, false), (false, false, true))
  | "N" => Some ((false, true, false), (true, false, true))
  | "P" => Some ((true, false, false), (false, true, true))
  | "q" => Some ((true, true, false), (false, false, true))
  | "Q" => Some ((true, false, false), (false, false, true))
  | "r" => Some ((true, false, false), (false, true, false))
  | "R" => Some ((false, false, true), (false, true, false))
  | "%" => Some ((true, true, false), (false, false, true))
  | "+" => Some ((true, false, true), (false, true, false))
  | "_" => Some ((false, true, true), (true, false, false))
  | _ => None
  end.

Definition edge_based_on_char (cur : udp_edges_table) (chr : ascii) (pos : nat) : option udp_edges_table :=
  mask_bit ← int_bit pos;
  match level_flags chr with
  | Some f => Some (mkEdges (edge_position cur) (edge_mask0 cur) (edge_mask1 cur) (edge_maskx cur) (or_masks f mask_bit (edge_levels cur)))
  | None =>
      '((e0, e1, ex), f) ← edge_flags chr;
      Some (mkEdges (pos mod 256) e0 e1 ex (or_masks f mask_bit (edge_levels cur)))
  end.

(** * Combinational primitives *)

(** A row matches when every bit set in the masks of the inputs is set in it. *)
Definition row_covers (cur row : udp_levels_table) : bool :=
  ((mask0 cur =? Z.land (mask0 cur) (mask0 row)) && (mask1 cur =? Z.land (mask1 cur) (mask1 row)) &&
   (maskx cur =? Z.land (maskx cur) (maskx row)))%Z.

Record vvp_udp_comb_s := mkComb { comb_ports : nat; comb_levels0_ : list udp_levels_table; comb_levels1_ : list udp_levels_table }.

Definition test_levels (u : vvp_udp_comb_s) (cur : udp_levels_table) : vvp_bit4_t :=
  if existsb (row_covers cur) (comb_levels0_ u) then BIT4_0
  else if existsb (row_covers cur) (comb_levels1_ u) then BIT4_1
  else BIT4_X.

(** The masks of the symbols of a row, from the input [pp] on. *)
Fixpoint levels_of (row : list ascii) (pp : nat) (cur : udp_levels_table) : option udp_levels_table :=
  match row with
  | [] => Some cur
  | c :: row => bit ← long_bit pp; cur ← or_based_on_char cur c bit; levels_of row (pp + 1) cur
  end.

(** The rows of the output [out], in order. *)
Fixpoint comb_compile_table (n : nat) (tab : list (list ascii)) (u : vvp_udp_comb_s) : option vvp_udp_comb_s :=
  match tab with
  | [] => Some u
  | row :: tab =>
      if (length row =? n + 1)%nat && (n <=? 64)%nat then
        cur ← levels_of (take n row) 0 no_levels;
        match nth n row "x" with
        | "0" => comb_compile_table n tab (mkComb n (comb_levels0_ u ++ [cur]) (comb_levels1_ u))
        | "1" => comb_compile_table n tab (mkComb n (comb_levels0_ u) (comb_levels1_ u ++ [cur]))
        | "x" => comb_compile_table n tab u
        | _ => None
        end
      else None
  end.

(** * Sequential primitives *)

Record vvp_udp_seq_s := mkSeq {
  seq_ports : nat;
  levels0_ : list udp_levels_table; levels1_ : list udp_levels_table;
  levelsx_ : list udp_levels_table; levelsL_ : list udp_levels_table;
  edges0_ : list udp_edges_table; edges1_ : list udp_edges_table; edgesL_ : list udp_edges_table }.

Definition seq_new (n : nat) : vvp_udp_seq_s := mkSeq n [] [] [] [] [] [] [].

(** [strspn(row, "01xblh?") >= port_count()+1]. *)
Definition is_level (c : ascii) : bool := match level_flags c with Some _ => true | None => false end.
Definition is_level_row (n : nat) (row : list ascii) : bool := forallb is_level (take (n + 1) row).

Definition seq_level_row (n : nat) (row : list ascii) : option udp_levels_table :=
  cur ← levels_of (take n (drop 1 row)) 0 no_levels;
  bit ← long_bit n;
  or_based_on_char cur (nth 0 row "x") bit.

(** The row of an edge with the two that extend it, and whether they are needed. *)
Record edge_rows := mkEdgeRows { er_cur : udp_edges_table; er_ext0 : udp_edges_table; er_ext1 : udp_edges_table; need_ext0 : bool; need_ext1 : bool }.

Fixpoint edges_of (row : list ascii) (pp : nat) (er : edge_rows) : option edge_rows :=
  match row with
  | [] => Some er
  | c :: row =>
      er ← match c with
           | "n" =>
               a ← edge_based_on_char (er_cur er) "N" pp;
               b ← edge_based_on_char (er_ext0 er) "_" pp;
               Some (mkEdgeRows a b (er_ext1 er) true (need_ext1 er))
           | "p" =>
               a ← edge_based_on_char (er_cur er) "P" pp;
               b ← edge_based_on_char (er_ext0 er) "+" pp;
               Some (mkEdgeRows a b (er_ext1 er) true (need_ext1 er))
           | "*" =>
               a ← edge_based_on_char (er_cur er) "P" pp;
               b ← edge_based_on_char (er_ext0 er) "N" pp;
               c ← edge_based_on_char (er_ext1 er) "B" pp;
               Some (mkEdgeRows a b c true true)
           | _ =>
               a ← edge_based_on_char (er_cur er) c pp;
               b ← edge_based_on_char (er_ext0 er) c pp;
               d ← edge_based_on_char (er_ext1 er) c pp;
               Some (mkEdgeRows a b d (need_ext0 er) (need_ext1 er))
           end;
      edges_of row (pp + 1) er
  end.

(** The rows of an edge table that a row of the text becomes. *)
Definition seq_edge_row (n : nat) (row : list ascii) : option (list udp_edges_table) :=
  er ← edges_of (take n (drop 1 row)) 0 (mkEdgeRows no_edges no_edges no_edges false false);
  a ← edge_based_on_char (er_cur er) (nth 0 row "x") n;
  b ← edge_based_on_char (er_ext0 er) (nth 0 row "x") n;
  c ← edge_based_on_char (er_ext1 er) (nth 0 row "x") n;
  Some ([a] ++ (if need_ext0 er then [b] else []) ++ (if need_ext1 er then [c] else [])).

Definition seq_compile_row (n : nat) (row : list ascii) (u : vvp_udp_seq_s) : option vvp_udp_seq_s :=
  let '(mkSeq p l0 l1 lx lL e0 e1 eL) := u in
  if (length row =? n + 2)%nat then
    if is_level_row n row then
      cur ← seq_level_row n row;
      match nth (n + 1) row "?" with
      | "0" => Some (mkSeq p (l0 ++ [cur]) l1 lx lL e0 e1 eL)
      | "1" => Some (mkSeq p l0 (l1 ++ [cur]) lx lL e0 e1 eL)
      | "x" => Some (mkSeq p l0 l1 (lx ++ [cur]) lL e0 e1 eL)
      | "-" => Some (mkSeq p l0 l1 lx (lL ++ [cur]) e0 e1 eL)
      | _ => None
      end
    else
      rows ← seq_edge_row n row;
      match nth (n + 1) row "?" with
      | "0" => Some (mkSeq p l0 l1 lx lL (e0 ++ rows) e1 eL)
      | "1" => Some (mkSeq p l0 l1 lx lL e0 (e1 ++ rows) eL)
      | "x" => Some u
      | "-" => Some (mkSeq p l0 l1 lx lL e0 e1 (eL ++ rows))
      | _ => None
      end
  else None.

Fixpoint seq_compile_table (n : nat) (tab : list (list ascii)) (u : vvp_udp_seq_s) : option vvp_udp_seq_s :=
  match tab with
  | [] => Some u
  | row :: tab => u ← seq_compile_row n row u; seq_compile_table n tab u
  end.

(** The current output that the masks hold at the bit [1 << port_count()]. *)
Definition held_output (n : nat) (cur : udp_levels_table) : option vvp_bit4_t :=
  bit ← int_bit n;
  (if negb (Z.land (mask0 cur) bit =? 0) then Some BIT4_0
   else if negb (Z.land (mask1 cur) bit =? 0) then Some BIT4_1
   else if negb (Z.land (maskx cur) bit =? 0) then Some BIT4_X
   else None)%Z.

(** [test_levels_]: Z when no row matches. *)
Definition test_levels_ (u : vvp_udp_seq_s) (cur : udp_levels_table) : option vvp_bit4_t :=
  if existsb (row_covers cur) (levels0_ u) then Some BIT4_0
  else if existsb (row_covers cur) (levels1_ u) then Some BIT4_1
  else if existsb (row_covers cur) (levelsx_ u) then Some BIT4_X
  else if existsb (row_covers cur) (levelsL_ u) then held_output (seq_ports u) cur
  else Some BIT4_Z.

(** The lowest bit set and the rest above it: [while ((edge_mask&1) == 0)]. *)
Fixpoint lowest_edge (fuel : nat) (edge_mask : Z) (edge_position : nat) : option (Z * nat) :=
  match fuel with
  | O => None
  | S f => if (Z.land edge_mask 1 =? 0)%Z then lowest_edge f (Z.shiftr edge_mask 1) (edge_position + 1)
           else Some (edge_mask, edge_position)
  end.

Definition edge_row_covers (position : nat) (e0 e1 ex : bool) (cur : udp_levels_table) (row : udp_edges_table) : bool :=
  (edge_position row =? position)%nat && negb (e0 && negb (edge_mask0 row)) && negb (ex && negb (edge_maskx row)) &&
  negb (e1 && negb (edge_mask1 row)) && row_covers cur (edge_levels row).

Definition test_edges_ (u : vvp_udp_seq_s) (cur prev : udp_levels_table) : option vvp_bit4_t :=
  let edge0_mask := Z.lxor (mask0 cur) (mask0 prev) in
  let edgex_mask := Z.lxor (maskx cur) (maskx prev) in
  let edge1_mask := Z.lxor (mask1 cur) (mask1 prev) in
  let edge_mask := Z.land (Z.lor (Z.lor edge0_mask edgex_mask) edge1_mask) (Z.ones (Z.of_nat (seq_ports u))) in
  if (edge_mask =? 0)%Z then Some BIT4_X
  else
    '(rest, edge_position) ← lowest_edge 64 edge_mask 0;
    if (rest =? 1)%Z then
      edge_mask ← long_bit edge_position;
      let covers := edge_row_covers edge_position (negb (Z.land (mask0 prev) edge_mask =? 0)%Z)
                      (negb (Z.land (mask1 prev) edge_mask =? 0)%Z) (negb (Z.land (maskx prev) edge_mask =? 0)%Z) cur in
      if existsb covers (edges0_ u) then Some BIT4_0
      else if existsb covers (edges1_ u) then Some BIT4_1
      else if existsb covers (edgesL_ u) then held_output (seq_ports u) cur
      else Some BIT4_X
    else None.

(** The mask of a value at a bit. *)
Definition or_value (b : vvp_bit4_t) (mask : Z) (cur : udp_levels_table) : udp_levels_table :=
  or_masks (match b with BIT4_0 => (true, false, false) | BIT4_1 => (false, true, false) | _ => (false, false, true) end) mask cur.

Definition seq_calculate_output (u : vvp_udp_seq_s) (cur prev : udp_levels_table) (cur_out : vvp_bit4_t) : option vvp_bit4_t :=
  if levels_eqb cur prev then Some cur_out
  else
    mask_out ← long_bit (seq_ports u);
    let cur_tmp := or_value cur_out mask_out cur in
    lev ← test_levels_ u cur_tmp;
    if bit4_eqb lev BIT4_Z then test_edges_ u cur_tmp prev else Some lev.

(** * Instances *)

Inductive vvp_udp_s := Comb (u : vvp_udp_comb_s) | Seq (u : vvp_udp_seq_s) (init_ : vvp_bit4_t).

Definition port_count (def_ : vvp_udp_s) : nat := match def_ with Comb u => comb_ports u | Seq u _ => seq_ports u end.
Definition get_init (def_ : vvp_udp_s) : vvp_bit4_t := match def_ with Comb _ => BIT4_X | Seq _ i => i end.
Definition calculate_output (def_ : vvp_udp_s) (cur prev : udp_levels_table) (cur_out : vvp_bit4_t) : option vvp_bit4_t :=
  match def_ with Comb u => Some (test_levels u cur) | Seq u _ => seq_calculate_output u cur prev cur_out end.

Record vvp_udp_fun_core := mkCore { def_ : vvp_udp_s; cur_out_ : vvp_bit4_t; current_ : udp_levels_table }.

(** [~((-1UL) << port_count())]: all inputs X; with how the first output is scheduled:
    [schedule_generic] ([true]) for an initial value other than X, else [schedule_functor]. *)
Definition udp_core_new (def : vvp_udp_s) : option (vvp_udp_fun_core * bool) :=
  if (port_count def <? 64)%nat
  then Some (mkCore def (get_init def) (mkLevels 0 0 (Z.ones (Z.of_nat (port_count def)))), negb (bit4_eqb (get_init def) BIT4_X)) else None.

(** The new state, and whether [schedule_functor] is called. *)
Definition recv_vec4_from_inputs (port : nat) (bit : vvp_vector4_t) (st : vvp_udp_fun_core) : option (vvp_udp_fun_core * bool) :=
  if (size bit =? 1)%nat then
    mask ← long_bit port;
    let prev := current_ st in
    let clear m := Z.ldiff m mask in
    let current := or_value (value bit 0) mask (mkLevels (clear (mask0 prev)) (clear (mask1 prev)) (clear (maskx prev))) in
    out_bit ← calculate_output (def_ st) current prev (cur_out_ st);
    if bit4_eqb out_bit (cur_out_ st) then Some (mkCore (def_ st) (cur_out_ st) current, false)
    else Some (mkCore (def_ st) out_bit current, true)
  else None.

(** [run_run]: the vector sent. *)
Definition udp_run_run (st : vvp_udp_fun_core) : vvp_vector4_t := vec4_fill 1 (cur_out_ st).
