(* ===== verification/UdpSpec.v ===== *)
(** What the tables of primitives mean, and the masks against it: the search of the compiled
    rows finds what a reading of the table, row by row and symbol by symbol, finds. *)
From Stdlib Require Import Ascii.
From S2P Require Import Prelude MachineWord VvpBit VvpVector4 VvpSlice Udp.

Local Open Scope char_scope.

(** * The meaning of a table *)

(** Values 0, 1 and X; a Z at an input is an X. *)
Definition is01x (b : vvp_bit4_t) : bool := negb (bit4_eqb b BIT4_Z).

Definition flag_has (f : bool * bool * bool) (b : vvp_bit4_t) : bool :=
  let '(f0, f1, fx) := f in match b with BIT4_0 => f0 | BIT4_1 => f1 | _ => fx end.

Definition level_match (c : ascii) (b : vvp_bit4_t) : bool :=
  match c, b with
  | "0", BIT4_0 | "1", BIT4_1 | "x", (BIT4_X | BIT4_Z) => true
  | "b", (BIT4_0 | BIT4_1) | "l", (BIT4_0 | BIT4_X | BIT4_Z) | "h", (BIT4_1 | BIT4_X | BIT4_Z) | "?", _ => true
  | _, _ => false
  end.

(** The changes that an edge symbol stands for. *)
Definition edge_match (c : ascii) (from to : vvp_bit4_t) : bool :=
  negb (bit4_eqb from to) &&
  match c, from, to with
  | "*", _, _ => true
  | "r", BIT4_0, BIT4_1 | "f", BIT4_1, BIT4_0 => true
  | "p", BIT4_0, _ | "p", _, BIT4_1 => true
  | "n", BIT4_1, _ | "n", _, BIT4_0 => true
  | "P", BIT4_0, _ | "N", BIT4_1, _ | "B", (BIT4_X | BIT4_Z), _ => true
  | "+", _, BIT4_1 | "_", _, BIT4_0 | ("%" | "q"), _, (BIT4_X | BIT4_Z) => true
  | "Q", BIT4_0, (BIT4_X | BIT4_Z) | "M", BIT4_1, (BIT4_X | BIT4_Z) => true
  | "R", (BIT4_X | BIT4_Z), BIT4_1 | "F", (BIT4_X | BIT4_Z), BIT4_0 => true
  | _, _, _ => false
  end.

Definition level_chars : list ascii := ["0"; "1"; "x"; "b"; "l"; "h"; "?"].
Definition edge_chars : list ascii := ["*"; "r"; "f"; "p"; "n"; "P"; "N"; "B"; "+"; "_"; "%"; "q"; "Q"; "M"; "R"; "F"].
Definition is_edge (c : ascii) : bool := existsb (Ascii.eqb c) edge_chars.

(** The symbols of the inputs against the values. *)
Fixpoint all_match (row : list ascii) (ins : list vvp_bit4_t) : bool :=
  match row, ins with
  | [], [] => true
  | c :: row, b :: ins => level_match c b && all_match row ins
  | _, _ => false
  end.

(** The same with one edge: the input that changed is the one with the edge symbol. *)
Fixpoint edge_row_match (row : list ascii) (cur prev : list vvp_bit4_t) : bool :=
  match row, cur, prev with
  | c :: row, b :: cur, a :: prev =>
      if is_edge c then edge_match c a b && all_match row cur
      else bit4_eqb a b && level_match c b && edge_row_match row cur prev
  | _, _, _ => false
  end.

(** A combinational table: the output of the first kind of row that matches. *)
Definition comb_rows (n : nat) (tab : list (list ascii)) (out : ascii) (ins : list vvp_bit4_t) : bool :=
  existsb (fun row => Ascii.eqb (nth n row "x") out && all_match (take n row) ins) tab.

Definition comb_eval (n : nat) (tab : list (list ascii)) (ins : list vvp_bit4_t) : vvp_bit4_t :=
  if comb_rows n tab "0" ins then BIT4_0 else if comb_rows n tab "1" ins then BIT4_1 else BIT4_X.

(** A sequential table: level rows first; [-] keeps the output. *)
Definition seq_rows (level : bool) (n : nat) (tab : list (list ascii)) (out : ascii) (cur prev : list vvp_bit4_t) (o : vvp_bit4_t) : bool :=
  existsb (fun row =>
    Bool.eqb (is_level_row n row) level && Ascii.eqb (nth (n + 1) row "?") out && level_match (nth 0 row "x") o &&
    (if level then all_match (take n (drop 1 row)) cur else edge_row_match (take n (drop 1 row)) cur prev)) tab.

Definition seq_eval (n : nat) (tab : list (list ascii)) (cur prev : list vvp_bit4_t) (o : vvp_bit4_t) : vvp_bit4_t :=
  if bool_decide (cur = prev) then o
  else if seq_rows true n tab "0" cur prev o then BIT4_0
  else if seq_rows true n tab "1" cur prev o then BIT4_1
  else if seq_rows true n tab "x" cur prev o then BIT4_X
  else if seq_rows true n tab "-" cur prev o then o
  else if seq_rows false n tab "0" cur prev o then BIT4_0
  else if seq_rows false n tab "1" cur prev o then BIT4_1
  else if seq_rows false n tab "-" cur prev o then o
  else BIT4_X.

(** ** Well-formed tables *)

Definition comb_row_ok (n : nat) (row : list ascii) : Prop :=
  length row = (n + 1)%nat /\ Forall (fun c => In c level_chars) (take n row) /\ In (nth n row "x") ["0"; "1"; "x"].

(** One edge among the inputs. *)
Definition one_edge (l : list ascii) : Prop :=
  exists l1 c l2, l = l1 ++ c :: l2 /\ Forall (fun c => In c level_chars) l1 /\ In c edge_chars /\ Forall (fun c => In c level_chars) l2.

Definition seq_row_ok (n : nat) (row : list ascii) : Prop :=
  length row = (n + 2)%nat /\ In (nth 0 row "x") level_chars /\ In (nth (n + 1) row "?") ["0"; "1"; "x"; "-"] /\
  (Forall (fun c => In c level_chars) (take n (drop 1 row)) \/ one_edge (take n (drop 1 row))).

(** * Masks *)

Definition mask_of (b : vvp_bit4_t) (t : udp_levels_table) : Z :=
  match b with BIT4_0 => mask0 t | BIT4_1 => mask1 t | _ => maskx t end.

(** The masks of a row of flags, and of a vector of values. *)
Definition row_is (t : udp_levels_table) (fs : list (bool * bool * bool)) : Prop :=
  forall b i, Z.testbit (mask_of b t) (Z.of_nat i) = match fs !! i with Some f => flag_has f b | None => false end.

Definition nonneg (t : udp_levels_table) : Prop := (0 <= mask0 t /\ 0 <= mask1 t /\ 0 <= maskx t)%Z.

Definition value_flags (v : vvp_bit4_t) : bool * bool * bool :=
  match v with BIT4_0 => (true, false, false) | BIT4_1 => (false, true, false) | _ => (false, false, true) end.
Definition levels_are (t : udp_levels_table) (ins : list vvp_bit4_t) : Prop := nonneg t /\ row_is t (map value_flags ins).

Definition flags (c : ascii) : bool * bool * bool := default (false, false, false) (level_flags c).

Lemma level_flags_in c : In c level_chars -> level_flags c = Some (flags c) /\ is_level c = true /\ is_edge c = false /\ (forall b, level_match c b = flag_has (flags c) b).
Proof. intros H. repeat (destruct H as [<- | H]; [split_and!; try reflexivity; intros []; reflexivity|]). done. Qed.

Lemma land_covers a r : (0 <= a)%Z -> (a =? Z.land a r)%Z = true <-> forall i, Z.testbit a (Z.of_nat i) = true -> Z.testbit r (Z.of_nat i) = true.
Proof.
  intros Ha. rewrite Z.eqb_eq. split.
  - intros E i Hi. rewrite E, Z.land_spec in Hi. by apply andb_true_iff in Hi as [_ Hi].
  - intros H. apply Z.bits_inj'. intros j Hj. rewrite Z.land_spec. replace j with (Z.of_nat (Z.to_nat j)) by lia.
    destruct (Z.testbit a (Z.of_nat (Z.to_nat j))) eqn:E; [|done]. by rewrite (H _ E).
Qed.

Lemma flag_value b v : flag_has (value_flags v) b = true -> forall f, flag_has f b = flag_has f v.
Proof. destruct b, v; intros E f; try done; destruct f as [[? ?] ?]; done. Qed.
Lemma flag_self v : flag_has (value_flags v) v = true. Proof. by destruct v. Qed.

Fixpoint all_flags (fs : list (bool * bool * bool)) (ins : list vvp_bit4_t) : bool :=
  match fs, ins with
  | _, [] => true
  | f :: fs, b :: ins => flag_has f b && all_flags fs ins
  | [], _ :: _ => false
  end.

Lemma all_flags_spec fs ins : (length ins <= length fs)%nat ->
  all_flags fs ins = true <-> forall i v f, ins !! i = Some v -> fs !! i = Some f -> flag_has f v = true.
Proof.
  revert fs. induction ins as [|v ins IH]; intros [|f fs] Hl; cbn [all_flags]; try done; cbn in Hl; [lia|].
  rewrite andb_true_iff, (IH fs) by lia. split.
  - intros [H1 H2] [|i] v' f' Ev Ef; cbn in *; [by simplify_eq|by eapply H2].
  - intros H. split; [by apply (H 0%nat)|]. intros i v' f' Ev Ef. by apply (H (S i)).
Qed.

(** A row covers a vector when each flag has its value. *)
Lemma covers_is cur row ins fs : levels_are cur ins -> row_is row fs -> (length ins <= length fs)%nat ->
  row_covers cur row = all_flags fs ins.
Proof.
  intros [(N0 & N1 & Nx) Hc] Hr Hl. apply eq_true_iff_eq. unfold row_covers. rewrite !andb_true_iff, !land_covers by done.
  rewrite all_flags_spec by done. split.
  - intros [[H0 H1] Hx] i v f Ev Ef. assert (HB : Z.testbit (mask_of v cur) (Z.of_nat i) = true).
    { rewrite Hc, list_lookup_fmap, Ev. apply flag_self. }
    assert (HR : Z.testbit (mask_of v row) (Z.of_nat i) = true) by (destruct v; cbn [mask_of] in *; auto).
    by rewrite Hr, Ef in HR.
  - intros H. assert (HB : forall b i, Z.testbit (mask_of b cur) (Z.of_nat i) = true -> Z.testbit (mask_of b row) (Z.of_nat i) = true).
    { intros b i E. rewrite Hc, list_lookup_fmap in E. destruct (ins !! i) as [v|] eqn:Ev; [|done]. cbn in E.
      destruct (lookup_lt_is_Some_2 fs i) as [f Ef]; [apply lookup_lt_Some in Ev; lia|].
      rewrite Hr, Ef, (flag_value b v E). by apply (H i v f). }
    split; [split|]; intros i; [apply (HB BIT4_0)|apply (HB BIT4_1)|apply (HB BIT4_X)].
Qed.

Lemma row_is_nil : row_is no_levels [].
Proof. intros b i. unfold mask_of. destruct b; apply Z.bits_0. Qed.

Lemma nonneg_nil : nonneg no_levels. Proof. by split_and!. Qed.

Lemma or_masks_is t fs f : row_is t fs -> row_is (or_masks f (2 ^ Z.of_nat (length fs))%Z t) (fs ++ [f]).
Proof.
  intros Ht b i. destruct f as [[f0 f1] fx]. assert (HB : forall (g : bool) m, (forall i, Z.testbit m (Z.of_nat i) = match fs !! i with Some f => flag_has f b | None => false end) ->
    g = flag_has (f0, f1, fx) b -> Z.testbit (if g then Z.lor m (2 ^ Z.of_nat (length fs)) else m)%Z (Z.of_nat i) =
    match (fs ++ [(f0, f1, fx)]) !! i with Some f => flag_has f b | None => false end).
  { intros g m Hm ->. destruct (Nat.lt_ge_cases i (length fs)) as [Hi|Hi].
    - rewrite lookup_app_l by done. destruct (flag_has _ b); [|by apply Hm]. rewrite Z.lor_spec, Z.pow2_bits_eqb, Hm by lia.
      destruct (Z.eqb_spec (Z.of_nat (length fs)) (Z.of_nat i)); [lia|]. by rewrite orb_false_r.
    - rewrite lookup_app_r by done. pose proof (Hm i) as Hmi. rewrite lookup_ge_None_2 in Hmi by done.
      destruct (Nat.eq_dec i (length fs)) as [->|Hne].
      + rewrite Nat.sub_diag. cbn [lookup list_lookup]. destruct (flag_has _ b) eqn:E; [|done]. rewrite Z.lor_spec, Z.pow2_bits_true by lia. apply orb_true_r.
      + rewrite (lookup_ge_None_2 [_]) by (cbn; lia). destruct (flag_has _ b); [|done]. rewrite Z.lor_spec, Hmi, Z.pow2_bits_false by lia. done. }
  unfold or_masks. pose proof (Ht b) as Htb. destruct b; cbn [mask_of mask0 mask1 maskx] in *; by apply HB.
Qed.

Lemma or_masks_nonneg t f p : nonneg t -> nonneg (or_masks f (2 ^ Z.of_nat p)%Z t).
Proof.
  intros (H0 & H1 & H2). destruct f as [[f0 f1] fx]. assert (HP : (0 <= 2 ^ Z.of_nat p)%Z) by (apply Z.pow_nonneg; lia).
  split_and!; cbn [or_masks mask0 mask1 maskx]; case_match; try done; by apply Z.lor_nonneg.
Qed.

(** * The compilation of rows *)

Lemma long_bit_is p : (p < 64)%nat -> long_bit p = Some (2 ^ Z.of_nat p)%Z.
Proof. intros H. unfold long_bit. by rewrite (proj2 (Nat.ltb_lt _ _)). Qed.
Lemma int_bit_is p : (p < 31)%nat -> int_bit p = Some (2 ^ Z.of_nat p)%Z.
Proof. intros H. unfold int_bit. by rewrite (proj2 (Nat.ltb_lt _ _)). Qed.

Lemma levels_of_is row : forall t fs, Forall (fun c => In c level_chars) row -> row_is t fs -> (length fs + length row <= 64)%nat ->
  exists t', levels_of row (length fs) t = Some t' /\ row_is t' (fs ++ map flags row).
Proof.
  induction row as [|c row IH]; intros t fs Hr Ht Hl; cbn [levels_of]; [exists t; by rewrite app_nil_r|].
  inversion_clear Hr as [|? ? Hc Hr']. cbn [length] in Hl. rewrite long_bit_is by lia. cbn [mbind option_bind].
  destruct (level_flags_in c Hc) as (Ec & _). unfold or_based_on_char. rewrite Ec. cbn [mbind option_bind].
  destruct (IH (or_masks (flags c) (2 ^ Z.of_nat (length fs)) t) (fs ++ [flags c])%list Hr') as (t' & E & Ht'); [by apply or_masks_is|rewrite length_app; cbn; lia|].
  rewrite length_app in E. exists t'. split; [done|]. by rewrite <- app_assoc in Ht'.
Qed.

Lemma all_flags_match row ins : Forall (fun c => In c level_chars) row -> length row = length ins ->
  all_flags (map flags row) ins = all_match row ins.
Proof.
  intros H. revert ins. induction H as [|c row Hc H IH]; intros [|b ins] Hl; try done. cbn [map all_flags all_match].
  destruct (level_flags_in c Hc) as (_ & _ & _ & HM). rewrite HM. f_equal. apply IH. by injection Hl.
Qed.

(** ** Combinational tables *)

Lemma comb_table_is n tab : Forall (comb_row_ok n) tab -> (n < 64)%nat -> forall u, comb_ports u = n ->
  exists u', comb_compile_table n tab u = Some u' /\ comb_ports u' = n /\
    forall cur ins, levels_are cur ins -> length ins = n ->
      existsb (row_covers cur) (comb_levels0_ u') = existsb (row_covers cur) (comb_levels0_ u) || comb_rows n tab "0" ins /\
      existsb (row_covers cur) (comb_levels1_ u') = existsb (row_covers cur) (comb_levels1_ u) || comb_rows n tab "1" ins.
Proof.
  intros Hn Hb. induction Hn as [|row tab (Hl & Hc & Ho) Hn IH]; intros u Hu; cbn [comb_compile_table].
  { exists u. split_and!; [done|done|]. intros cur ins _ _. cbn. by rewrite !orb_false_r. }
  rewrite Hl, Nat.eqb_refl, (proj2 (Nat.leb_le _ _)) by lia. cbn [andb].
  destruct (levels_of_is (take n row) no_levels [] Hc row_is_nil) as (t & Et & Ht); [rewrite length_take; cbn; lia|].
  cbn [length] in Et. rewrite Et. cbn [mbind option_bind app] in *.
  assert (HC : forall cur ins, levels_are cur ins -> length ins = n -> row_covers cur t = all_match (take n row) ins).
  { intros cur ins Hi Li. rewrite (covers_is cur t ins (map flags (take n row))) by (done || rewrite length_map, length_take; lia).
    apply all_flags_match; [done|]. rewrite length_take. lia. }
  assert (HS : forall u', comb_ports u' = n -> (forall cur ins, levels_are cur ins -> length ins = n ->
      existsb (row_covers cur) (comb_levels0_ u') = existsb (row_covers cur) (comb_levels0_ u) || (Ascii.eqb (nth n row "x") "0" && all_match (take n row) ins) /\
      existsb (row_covers cur) (comb_levels1_ u') = existsb (row_covers cur) (comb_levels1_ u) || (Ascii.eqb (nth n row "x") "1" && all_match (take n row) ins)) ->
    exists u'', comb_compile_table n tab u' = Some u'' /\ comb_ports u'' = n /\
      forall cur ins, levels_are cur ins -> length ins = n ->
        existsb (row_covers cur) (comb_levels0_ u'') = existsb (row_covers cur) (comb_levels0_ u) || comb_rows n (row :: tab) "0" ins /\
        existsb (row_covers cur) (comb_levels1_ u'') = existsb (row_covers cur) (comb_levels1_ u) || comb_rows n (row :: tab) "1" ins).
  { intros u' HP H'. destruct (IH u' HP) as (u'' & E & P1 & HR). exists u''. split_and!; [done|done|]. intros cur ins Hi Li.
    destruct (HR cur ins Hi Li) as [R0 R1]. destruct (H' cur ins Hi Li) as [Q0 Q1]. unfold comb_rows in *. cbn [existsb].
    rewrite R0, R1, Q0, Q1. by rewrite !orb_assoc. }
  destruct Ho as [Ho | [Ho | [Ho | []]]]; rewrite <- Ho in *; apply HS; try done; intros cur ins Hi Li; cbn [comb_levels0_ comb_levels1_ Ascii.eqb Bool.eqb andb];
    rewrite ?existsb_app; cbn [existsb]; rewrite ?(HC cur ins Hi Li); split; by rewrite ?orb_false_r.
Qed.

Lemma comb_eval_is n tab u cur ins : Forall (comb_row_ok n) tab -> (n < 64)%nat -> comb_compile_table n tab (mkComb n [] []) = Some u ->
  levels_are cur ins -> length ins = n -> test_levels u cur = comb_eval n tab ins.
Proof.
  intros Ht Hn Eu Hi Li. destruct (comb_table_is n tab Ht Hn (mkComb n [] []) eq_refl) as (u' & E & _ & HR).
  rewrite E in Eu. injection Eu as <-. destruct (HR cur ins Hi Li) as [R0 R1]. unfold test_levels, comb_eval. by rewrite R0, R1.
Qed.

(** ** Edges *)

(** The rows of the compiled table that an edge symbol becomes. *)
Definition edge_alts (c : ascii) : list ascii :=
  match c with "n" => ["N"; "_"] | "p" => ["P"; "+"] | "*" => ["P"; "N"; "B"] | _ => [c] end.

Definition edge_of (c : ascii) : (bool * bool * bool) * (bool * bool * bool) := default ((false, false, false), (false, false, false)) (edge_flags c).

(** A row with the levels [l] added from [pp] on, and with an edge at [pp]. *)
Fixpoint add_levels (l : list ascii) (pp : nat) (et : udp_edges_table) : udp_edges_table :=
  match l with
  | [] => et
  | c :: l => add_levels l (pp + 1) (mkEdges (edge_position et) (edge_mask0 et) (edge_mask1 et) (edge_maskx et) (or_masks (flags c) (2 ^ Z.of_nat pp)%Z (edge_levels et)))
  end.

Definition add_edge (c : ascii) (pp : nat) (et : udp_edges_table) : udp_edges_table :=
  let '((e0, e1, ex), f) := edge_of c in mkEdges pp e0 e1 ex (or_masks f (2 ^ Z.of_nat pp)%Z (edge_levels et)).

Lemma level_step et c pp : In c level_chars -> (pp < 31)%nat -> edge_based_on_char et c pp = Some (add_levels [c] pp et).
Proof.
  intros Hc Hp. unfold edge_based_on_char. rewrite int_bit_is by done. cbn [mbind option_bind]. by destruct (level_flags_in c Hc) as (-> & _).
Qed.

Definition plain_edges : list ascii := ["r"; "f"; "P"; "N"; "B"; "+"; "_"; "%"; "q"; "Q"; "M"; "R"; "F"].

Lemma edge_step et c pp : In c plain_edges -> (pp < 31)%nat -> edge_based_on_char et c pp = Some (add_edge c pp et).
Proof.
  intros Hc Hp. unfold edge_based_on_char, add_edge. rewrite int_bit_is by done. cbn [mbind option_bind].
  repeat (destruct Hc as [<- | Hc]; [cbn [level_flags edge_flags mbind option_bind]; by rewrite Nat.mod_small by lia|]). done.
Qed.

Lemma edges_of_levels l : forall rest pp er, Forall (fun c => In c level_chars) l -> (pp + length l <= 31)%nat ->
  edges_of (l ++ rest) pp er =
  edges_of rest (pp + length l) (mkEdgeRows (add_levels l pp (er_cur er)) (add_levels l pp (er_ext0 er)) (add_levels l pp (er_ext1 er)) (need_ext0 er) (need_ext1 er)).
Proof.
  induction l as [|c l IH]; intros rest pp er Hl Hp; cbn [app add_levels length]; [rewrite Nat.add_0_r; by destruct er|].
  inversion_clear Hl as [|? ? Hc Hl']. cbn [length] in Hp. cbn [edges_of].
  pose proof (fun et => level_step et c pp Hc ltac:(lia)) as HS.
  trans (edges_of (l ++ rest) (pp + 1) (mkEdgeRows (add_levels [c] pp (er_cur er)) (add_levels [c] pp (er_ext0 er)) (add_levels [c] pp (er_ext1 er)) (need_ext0 er) (need_ext1 er))).
  { repeat (destruct Hc as [<- | Hc]; [by rewrite !HS|]). done. }
  rewrite IH by (done || lia). cbn [er_cur er_ext0 er_ext1 need_ext0 need_ext1 add_levels]. f_equal. lia.
Qed.

(** The rows of a row with one edge. *)
Lemma seq_edge_row_is n row l1 c l2 : (n < 31)%nat -> length row = (n + 2)%nat -> take n (drop 1 row) = (l1 ++ c :: l2)%list ->
  In (nth 0 row "x") level_chars -> Forall (fun c => In c level_chars) l1 -> In c edge_chars -> Forall (fun c => In c level_chars) l2 ->
  seq_edge_row n row = Some (map (fun a => add_levels [nth 0 row "x"] n (add_levels l2 (length l1 + 1) (add_edge a (length l1) (add_levels l1 0 no_edges)))) (edge_alts c)).
Proof.
  intros Hn Hl Er Ho H1 Hc H2. assert (HL : n = (length l1 + S (length l2))%nat).
  { apply (f_equal length) in Er. rewrite length_take, length_drop, length_app in Er. cbn [length] in Er. lia. }
  unfold seq_edge_row. rewrite Er, edges_of_levels by (done || lia). cbn [er_cur er_ext0 er_ext1 need_ext0 need_ext1 plus edges_of].
  pose proof (fun a et Ha => edge_step et a (length l1) Ha ltac:(lia)) as HS.
  pose proof (fun et => level_step et (nth 0 row "x") n Ho ltac:(lia)) as HO.
  assert (HE : forall er, edges_of l2 (length l1 + 1) er = Some (mkEdgeRows (add_levels l2 (length l1 + 1) (er_cur er)) (add_levels l2 (length l1 + 1) (er_ext0 er)) (add_levels l2 (length l1 + 1) (er_ext1 er)) (need_ext0 er) (need_ext1 er))).
  { intros er. pose proof (edges_of_levels l2 [] (length l1 + 1) er H2 ltac:(lia)) as E. by rewrite app_nil_r in E. }
  repeat (destruct Hc as [<- | Hc]; [rewrite !HS by (cbn; tauto); cbn [mbind option_bind]; rewrite HE; cbn [mbind option_bind er_cur er_ext0 er_ext1 need_ext0 need_ext1]; by rewrite !HO|]). done.
Qed.

(** An edge row with the flags [fs] of the values after the edge, for an edge at [q] from [e]. *)
Definition edge_is (et : udp_edges_table) (q : nat) (e : bool * bool * bool) (fs : list (bool * bool * bool)) : Prop :=
  edge_position et = q /\ (edge_mask0 et, edge_mask1 et, edge_maskx et) = e /\ row_is (edge_levels et) fs.

Lemma add_levels_is l : forall et q e fs, edge_is et q e fs -> edge_is (add_levels l (length fs) et) q e (fs ++ map flags l).
Proof.
  induction l as [|c l IH]; intros et q e fs He; cbn [add_levels map]; [by rewrite app_nil_r|].
  rewrite cons_middle, app_assoc. replace (length fs + 1)%nat with (length (fs ++ [flags c])%list) by (rewrite length_app; done).
  apply IH. destruct He as (H1 & H2 & H3). split_and!; [done|done|]. by apply or_masks_is.
Qed.

Lemma add_edge_is c et q e fs : edge_is et q e fs -> edge_is (add_edge c (length fs) et) (length fs) (fst (edge_of c)) (fs ++ [snd (edge_of c)]).
Proof.
  intros (H1 & H2 & H3). unfold add_edge. destruct (edge_of c) as [[[e0 e1] ex] f]. split_and!; [done|done|]. by apply or_masks_is.
Qed.
