(* ===== verification/UdpSeq.v ===== *)
(** Sequential primitives: the compiled tables of levels and edges against the reading of the
    rows ([seq_eval]), and the search for the input that changed. *)
From Stdlib Require Import Ascii String.
From S2P Require Import Prelude MachineWord VvpBit VvpVector4 VvpSlice Udp UdpSpec.

Local Open Scope char_scope.

Lemma all_flags_app fs1 fs2 ins1 ins2 : length fs1 = length ins1 -> all_flags (fs1 ++ fs2) (ins1 ++ ins2) = all_flags fs1 ins1 && all_flags fs2 ins2.
Proof.
  revert ins1. induction fs1 as [|f fs1 IH]; intros [|b ins1] Hl; try done. cbn [app all_flags].
  rewrite IH by (by injection Hl). by rewrite andb_assoc.
Qed.

Lemma existsb_and {A} (f g : A -> bool) k l : (forall a, In a l -> f a = k && g a) -> existsb f l = k && existsb g l.
Proof.
  induction l as [|a l IH]; intros H; cbn [existsb]; [by rewrite andb_false_r|].
  rewrite (H a), IH by (intros; try apply H; cbn; auto). by rewrite andb_orb_distrib_r.
Qed.

Lemma existsb_map {A B} (f : A -> B) (g : B -> bool) l : existsb g (map f l) = existsb (fun a => g (f a)) l.
Proof. induction l as [|a l IH]; [done|]. cbn [map existsb]. by rewrite IH. Qed.

Lemma is_levels row : Forall (fun c => In c level_chars) row -> forallb is_level row = true.
Proof. induction 1 as [|c row Hc _ IH]; [done|]. cbn [forallb]. by destruct (level_flags_in c Hc) as (_ & -> & _). Qed.

(** ** A row of levels *)

Lemma level_row_hit n row : (n < 31)%nat -> length row = (n + 2)%nat -> In (nth 0 row "x") level_chars ->
  Forall (fun c => In c level_chars) (take n (drop 1 row)) -> exists t, seq_level_row n row = Some t /\
    forall cur ins o, levels_are cur (ins ++ [o]) -> length ins = n ->
      row_covers cur t = level_match (nth 0 row "x") o && all_match (take n (drop 1 row)) ins.
Proof.
  intros Hn Lr Ho Hc. unfold seq_level_row. assert (LT : length (take n (drop 1 row)) = n) by (rewrite length_take, length_drop; lia).
  destruct (levels_of_is _ no_levels [] Hc row_is_nil) as (t1 & E1 & H1); [rewrite LT; cbn; lia|]. cbn [length app] in *.
  rewrite E1, long_bit_is by lia. cbn [mbind option_bind]. unfold or_based_on_char.
  destruct (level_flags_in _ Ho) as (-> & _ & _ & HM). eexists. split; [done|]. intros cur ins o Hi Li.
  replace n with (length (map flags (take n (drop 1 row)))) at 1 by (by rewrite length_map).
  pose proof (or_masks_is _ _ (flags (nth 0 row "x")) H1) as H2.
  rewrite (covers_is _ _ _ _ Hi H2) by (rewrite !length_app, length_map; cbn; lia).
  rewrite all_flags_app, all_flags_match by (done || rewrite ?length_map; lia). cbn [all_flags]. rewrite andb_true_r, HM. apply andb_comm.
Qed.

(** ** A row with an edge *)

(** The row [et] for an edge of the input [p] from [a]. *)
Definition edge_hit (p : nat) (a : vvp_bit4_t) (cur : udp_levels_table) : udp_edges_table -> bool :=
  let '(e0, e1, ex) := value_flags a in edge_row_covers p e0 e1 ex cur.

Lemma edge_covers et q e fs cur ins a p : edge_is et q e fs -> levels_are cur ins -> (length ins <= length fs)%nat ->
  edge_hit p a cur et = (q =? p)%nat && flag_has e a && all_flags fs ins.
Proof.
  intros (<- & <- & H3) Hi Hl. pose proof (covers_is _ _ _ _ Hi H3 Hl) as HC. unfold edge_hit, edge_row_covers.
  destruct a; cbn [value_flags flag_has negb andb]; rewrite HC; rewrite ?negb_involutive, ?andb_true_r; reflexivity.
Qed.

Lemma alts_match c a b : In c edge_chars -> is01x a = true -> is01x b = true -> a <> b ->
  existsb (fun s => flag_has (fst (edge_of s)) a && flag_has (snd (edge_of s)) b) (edge_alts c) = edge_match c a b.
Proof. intros Hc. repeat (destruct Hc as [<- | Hc]; [by destruct a, b|]). done. Qed.

Lemma edge_in c : In c edge_chars -> is_edge c = true /\ is_level c = false.
Proof. intros Hc. repeat (destruct Hc as [<- | Hc]; [done|]). done. Qed.

Lemma bit4_eqb_neq a b : a <> b -> bit4_eqb a b = false. Proof. by destruct a, b. Qed.
Lemma bit4_eqb_refl a : bit4_eqb a a = true. Proof. by destruct a. Qed.

(** The input that changed must be the one with the edge. *)
Lemma edge_row_match_at l1 : forall u c l2 v a b, Forall (fun c => In c level_chars) l1 -> In c edge_chars -> Forall (fun c => In c level_chars) l2 ->
  a <> b -> (length l1 + length l2 = length u + length v)%nat ->
  edge_row_match (l1 ++ c :: l2) (u ++ b :: v) (u ++ a :: v) = (length l1 =? length u)%nat && (all_match l1 u && edge_match c a b && all_match l2 v).
Proof.
  induction l1 as [|d l1 IH]; intros u c l2 v a b H1 Hc H2 Hab Hl.
  - cbn [app edge_row_match length]. destruct u as [|x u]; cbn [app edge_row_match length]; destruct (edge_in c Hc) as [-> _]; [done|].
    unfold edge_match. by rewrite bit4_eqb_refl.
  - inversion_clear H1 as [|? ? Hd H1']. destruct (level_flags_in d Hd) as (_ & _ & Ed & _). destruct u as [|x u]; cbn [app edge_row_match length]; rewrite Ed.
    + by rewrite bit4_eqb_neq.
    + rewrite bit4_eqb_refl, IH by (done || cbn in Hl; lia). cbn [andb all_match Nat.eqb]. destruct (_ =? _)%nat, (level_match d x); done.
Qed.

Section edge_row.
  Context (n : nat) (row l1 : list ascii) (c : ascii) (l2 : list ascii) (cur : udp_levels_table) (u v : list vvp_bit4_t) (a b o : vvp_bit4_t).
  Hypotheses (Hn : (n < 31)%nat) (Lr : length row = (n + 2)%nat) (Er : take n (drop 1 row) = (l1 ++ c :: l2)%list)
    (Ho : In (nth 0 row "x") level_chars) (H1 : Forall (fun c => In c level_chars) l1) (Hc : In c edge_chars) (H2 : Forall (fun c => In c level_chars) l2)
  (Hi : levels_are cur ((u ++ b :: v) ++ [o])) (Li : length (u ++ b :: v) = n) (Hab : a <> b) (Ha : is01x a = true) (Hb : is01x b = true).

Lemma edge_lengths : (length l1 + length l2 = length u + length v)%nat.
Proof using All.
  apply (f_equal length) in Er. rewrite length_take, length_drop, length_app in Er. rewrite length_app in Li. cbn [length] in *. lia.
Qed.

Lemma edge_alt_covers s :
  edge_hit (length u) a cur (add_levels [nth 0 row "x"] n (add_levels l2 (length l1 + 1) (add_edge s (length l1) (add_levels l1 0 no_edges)))) =
  level_match (nth 0 row "x") o && ((length l1 =? length u)%nat && (all_match l1 u && all_match l2 v)) && (flag_has (fst (edge_of s)) a && flag_has (snd (edge_of s)) b).
Proof using All.
  pose proof edge_lengths as HL. rewrite length_app in Li. cbn [length] in Li.
  assert (H0 : edge_is no_edges 0 (false, false, false) []) by (split_and!; [done|done|apply row_is_nil]).
  pose proof (add_levels_is l1 _ _ _ _ H0) as K1. cbn [length app] in K1. pose proof (add_edge_is s _ _ _ _ K1) as K2. rewrite length_map in K2.
  pose proof (add_levels_is l2 _ _ _ _ K2) as K3. rewrite length_app, length_map in K3. cbn [length] in K3.
  pose proof (add_levels_is [nth 0 row "x"] _ _ _ _ K3) as K4. rewrite !length_app, !length_map in K4. cbn [length map] in K4.
  replace (length l1 + 1 + length l2)%nat with n in K4 by lia.
  rewrite (edge_covers _ _ _ _ _ _ a (length u) K4 Hi) by (rewrite !length_app, !length_map; cbn [length]; lia).
  destruct (Nat.eqb_spec (length l1) (length u)) as [E|E]; [|by rewrite !andb_false_r]. cbn [andb].
  rewrite <- !app_assoc. cbn [app]. rewrite all_flags_app by (by rewrite length_map). cbn [all_flags]. rewrite all_flags_app by (rewrite length_map; lia).
  cbn [all_flags]. rewrite !all_flags_match by (done || lia). destruct (level_flags_in _ Ho) as (_ & _ & _ & ->).
  destruct (flag_has (fst (edge_of s)) a), (flag_has (snd (edge_of s)) b), (all_match l1 u), (all_match l2 v), (flag_has (flags (nth 0 row "x")) o); reflexivity.
Qed.

Lemma edge_row_hit : exists rows, seq_edge_row n row = Some rows /\
  existsb (edge_hit (length u) a cur) rows =
  level_match (nth 0 row "x") o && edge_row_match (take n (drop 1 row)) (u ++ b :: v) (u ++ a :: v).
Proof using All.
  eexists. split; [by apply seq_edge_row_is|]. rewrite existsb_map, (existsb_and _ _ _ _ (fun s _ => edge_alt_covers s)), alts_match by done.
  rewrite Er, edge_row_match_at by (done || apply edge_lengths).
  destruct (level_match _ o), (length l1 =? length u)%nat, (all_match l1 u), (all_match l2 v), (edge_match c a b); reflexivity.
Qed.
End edge_row.

(** ** Tables *)

Definition lev_rows (out : ascii) (u : vvp_udp_seq_s) : list udp_levels_table :=
  match out with "0" => levels0_ u | "1" => levels1_ u | "x" => levelsx_ u | _ => levelsL_ u end.
Definition edge_rows_of (out : ascii) (u : vvp_udp_seq_s) : list udp_edges_table :=
  match out with "0" => edges0_ u | "1" => edges1_ u | _ => edgesL_ u end.

(** [u'] is [u] with the rows of [tab]. *)
Record adds (n : nat) (u u' : vvp_udp_seq_s) (tab : list (list ascii)) : Prop := {
  adds_ports : seq_ports u' = seq_ports u;
  adds_levels : forall out cur ins prev o, In out ["0"; "1"; "x"; "-"] -> levels_are cur (ins ++ [o]) -> length ins = n ->
    existsb (row_covers cur) (lev_rows out u') = existsb (row_covers cur) (lev_rows out u) || seq_rows true n tab out ins prev o;
  adds_edges : forall out cur u1 v1 a b o, In out ["0"; "1"; "-"] -> levels_are cur ((u1 ++ b :: v1) ++ [o]) -> length (u1 ++ b :: v1) = n ->
    a <> b -> is01x a = true -> is01x b = true ->
    existsb (edge_hit (length u1) a cur) (edge_rows_of out u') =
    existsb (edge_hit (length u1) a cur) (edge_rows_of out u) || seq_rows false n tab out (u1 ++ b :: v1) (u1 ++ a :: v1) o }.

Lemma adds_cons n u u1 u2 row tab : adds n u u1 [row] -> adds n u1 u2 tab -> adds n u u2 (row :: tab).
Proof.
  intros [P1 L1 E1] [P2 L2 E2]. split; [by rewrite P2| |].
  - intros out cur ins prev o Hout Hi Li. rewrite (L2 _ _ _ prev o), (L1 _ _ _ prev o) by done. unfold seq_rows. cbn [existsb]. by rewrite orb_false_r, orb_assoc.
  - intros out cur u0 v0 a b o Hout Hi Li Hab Ha Hb. rewrite (E2 _ _ _ _ a b o), (E1 _ _ _ _ a b o) by done. unfold seq_rows. cbn [existsb].
    by rewrite orb_false_r, orb_assoc.
Qed.

Lemma is_level_row_cons n row : length row = (n + 2)%nat -> is_level_row n row = is_level (nth 0 row "x") && forallb is_level (take n (drop 1 row)).
Proof. intros Hl. unfold is_level_row. destruct row as [|c row]; [cbn in Hl; lia|]. rewrite Nat.add_1_r. reflexivity. Qed.

Lemma forallb_edge l1 c l2 : In c edge_chars -> forallb is_level (l1 ++ c :: l2) = false.
Proof. intros Hc. rewrite forallb_app. cbn [forallb]. destruct (edge_in c Hc) as [_ ->]. by rewrite andb_false_r. Qed.

Lemma adds_row n row u : (n < 31)%nat -> seq_row_ok n row -> exists u', seq_compile_row n row u = Some u' /\ adds n u u' [row].
Proof.
  intros Hn (Lr & Ho & Hout & Hrow). destruct u as [p l0 l1 lx lL e0 e1 eL]. unfold seq_compile_row. rewrite Lr, Nat.eqb_refl.
  destruct (level_flags_in _ Ho) as (_ & Eo & _).
  destruct Hrow as [Hl | (k1 & c & k2 & Er & Hk1 & Hc & Hk2)].
  - assert (EL : is_level_row n row = true) by (rewrite is_level_row_cons, Eo, is_levels; done). rewrite EL.
    destruct (level_row_hit n row Hn Lr Ho Hl) as (t & -> & Ht). cbn [mbind option_bind].
    destruct Hout as [Eout | [Eout | [Eout | [Eout | []]]]]; rewrite <- Eout; (eexists; split; [reflexivity|]); (split; [done|..]);
      intros out; intros; unfold seq_rows; cbn [existsb]; rewrite EL, <- Eout.
    all: repeat match goal with H : In _ (_ :: _) |- _ => destruct H as [<- | H] | H : In _ [] |- _ => destruct H end; try done.
    all: cbn [lev_rows edge_rows_of levels0_ levels1_ levelsx_ levelsL_ edges0_ edges1_ edgesL_ Bool.eqb Ascii.eqb andb].
    all: rewrite ?existsb_app; cbn [existsb]; rewrite ?orb_false_r; try done. all: by erewrite Ht.
  - assert (EL : is_level_row n row = false) by (rewrite is_level_row_cons, Er, forallb_edge, andb_false_r; done). rewrite EL.
    pose proof (seq_edge_row_is n row k1 c k2 Hn Lr Er Ho Hk1 Hc Hk2) as ER. rewrite ER. cbn [mbind option_bind].
    assert (HE : forall cur u1 v1 a b o rows, seq_edge_row n row = Some rows -> levels_are cur ((u1 ++ b :: v1) ++ [o]) -> length (u1 ++ b :: v1) = n ->
      a <> b -> is01x a = true -> is01x b = true ->
      existsb (edge_hit (length u1) a cur) rows = level_match (nth 0 row "x") o && edge_row_match (take n (drop 1 row)) (u1 ++ b :: v1) (u1 ++ a :: v1)).
    { intros cur u1 v1 a b o rows EQ Hi Li Hab Ha Hb. destruct (edge_row_hit n row k1 c k2 cur u1 v1 a b o) as (rows' & EQ' & HR); try done.
      rewrite EQ in EQ'. injection EQ' as <-. exact HR. }
    set (rows := map _ _) in *. clearbody rows.
    destruct Hout as [Eout | [Eout | [Eout | [Eout | []]]]]; rewrite <- Eout; (eexists; split; [reflexivity|]); (split; [done|..]);
      intros out; intros; unfold seq_rows; cbn [existsb]; rewrite EL, <- Eout.
    all: repeat match goal with H : In _ (_ :: _) |- _ => destruct H as [<- | H] | H : In _ [] |- _ => destruct H end; try done.
    all: cbn [lev_rows edge_rows_of levels0_ levels1_ levelsx_ levelsL_ edges0_ edges1_ edgesL_ Bool.eqb Ascii.eqb andb].
    all: rewrite ?existsb_app; cbn [existsb]; rewrite ?orb_false_r; try done. all: match goal with Hi : levels_are _ _ |- _ => by rewrite (HE _ _ _ _ _ _ _ ER Hi) end.
Qed.

Lemma adds_table n tab : (n < 31)%nat -> Forall (seq_row_ok n) tab -> forall u, exists u', seq_compile_table n tab u = Some u' /\ adds n u u' tab.
Proof.
  intros Hn H. induction H as [|row tab Hrow H IH]; intros u; cbn [seq_compile_table].
  { exists u. split; [done|]. split; [done|..]; intros; cbn; by rewrite orb_false_r. }
  destruct (adds_row n row u Hn Hrow) as (u1 & -> & H1). destruct (IH u1) as (u2 & E2 & H2). exists u2. split; [done|]. by eapply adds_cons.
Qed.

(** ** The search for a row *)

Lemma land_pow2 m n : (0 <= m)%Z -> (Z.land m (2 ^ Z.of_nat n) =? 0)%Z = negb (Z.testbit m (Z.of_nat n)).
Proof.
  intros Hm. apply eq_true_iff_eq. rewrite Z.eqb_eq, negb_true_iff. split.
  - intros E. apply (f_equal (fun z => Z.testbit z (Z.of_nat n))) in E. by rewrite Z.land_spec, Z.pow2_bits_true, andb_true_r, Z.bits_0 in E by lia.
  - intros E. apply Z.bits_inj'. intros i Hi. rewrite Z.land_spec, Z.pow2_bits_eqb, Z.bits_0 by lia.
    destruct (Z.eqb_spec (Z.of_nat n) i) as [<-|]; [by rewrite E|apply andb_false_r].
Qed.

Lemma mask_nonneg b t : nonneg t -> (0 <= mask_of b t)%Z. Proof. intros (H0 & H1 & H2). by destruct b. Qed.

Lemma level_bit b t ins p : levels_are t ins -> (Z.land (mask_of b t) (2 ^ Z.of_nat p) =? 0)%Z =
  negb (match ins !! p with Some v => flag_has (value_flags v) b | None => false end).
Proof.
  intros [Hn Hr]. rewrite land_pow2 by (by apply mask_nonneg). rewrite (Hr b p), list_lookup_fmap. by destruct (ins !! p).
Qed.

Lemma levels_inj t1 t2 ins : levels_are t1 ins -> levels_are t2 ins -> t1 = t2.
Proof.
  intros [N1 R1] [N2 R2]. assert (HM : forall b, mask_of b t1 = mask_of b t2).
  { intros b. apply Z.bits_inj'. intros i Hi. rewrite <- (Z2Nat.id i) by done. by rewrite (R1 b), (R2 b). }
  destruct t1, t2. pose proof (HM BIT4_0). pose proof (HM BIT4_1). pose proof (HM BIT4_X). cbn in *. congruence.
Qed.

Lemma levels_values t ins1 ins2 : levels_are t ins1 -> levels_are t ins2 -> length ins1 = length ins2 ->
  forallb is01x ins1 = true -> forallb is01x ins2 = true -> ins1 = ins2.
Proof.
  intros [_ R1] [_ R2] HL H1 H2. rewrite forallb_forall in H1, H2. apply list_eq. intros i.
  destruct (ins1 !! i) as [a|] eqn:Ea; destruct (ins2 !! i) as [b|] eqn:Eb; try done.
  - f_equal. pose proof (H1 a (proj1 (list_elem_of_In _ _) (list_elem_of_lookup_2 _ _ _ Ea))). pose proof (H2 b (proj1 (list_elem_of_In _ _) (list_elem_of_lookup_2 _ _ _ Eb))).
    specialize (R1 a i). rewrite (R2 a i), !list_lookup_fmap, Ea, Eb in R1. cbn in R1. by destruct a, b.
  - apply lookup_lt_Some in Ea. apply lookup_ge_None in Eb. lia.
  - apply lookup_ge_None in Ea. apply lookup_lt_Some in Eb. lia.
Qed.

Lemma levels_eqb_eq a b : levels_eqb a b = true <-> a = b.
Proof. unfold levels_eqb. rewrite !andb_true_iff, !Z.eqb_eq. destruct a, b; cbn. split; [intros [[] ]; congruence|intros [=]; auto]. Qed.

Lemma levels_eqb_is cur prev ins ins' : levels_are cur ins -> levels_are prev ins' -> length ins = length ins' ->
  forallb is01x ins = true -> forallb is01x ins' = true -> levels_eqb cur prev = bool_decide (ins = ins').
Proof.
  intros H1 H2 HL K1 K2. apply eq_true_iff_eq. rewrite levels_eqb_eq, bool_decide_eq_true. split; intros ->; [|by eapply levels_inj].
  by eapply levels_values.
Qed.

Lemma or_value_is b : forall m t, or_value b m t = or_masks (value_flags b) m t. Proof. by destruct b. Qed.

Lemma or_value_levels b t ins : levels_are t ins -> levels_are (or_value b (2 ^ Z.of_nat (length ins)) t) (ins ++ [b]).
Proof.
  intros [Hn Hr]. rewrite or_value_is. split; [by apply or_masks_nonneg|]. rewrite <- (length_map value_flags ins), map_app. by apply or_masks_is.
Qed.

Lemma held_output_is n cur ins o : (n < 31)%nat -> levels_are cur (ins ++ [o]) -> length ins = n -> is01x o = true -> held_output n cur = Some o.
Proof.
  intros Hn Hi Li Ho. unfold held_output. rewrite int_bit_is by done. cbn [mbind option_bind].
  pose proof (level_bit BIT4_0 _ _ n Hi) as E0. pose proof (level_bit BIT4_1 _ _ n Hi) as E1. pose proof (level_bit BIT4_X _ _ n Hi) as Ex. cbn [mask_of] in *.
  rewrite E0, E1, Ex. rewrite lookup_app_r, Li, Nat.sub_diag by lia. by destruct o.
Qed.

Lemma lowest_edge_pow2 p : forall fuel k, (p < fuel)%nat -> lowest_edge fuel (2 ^ Z.of_nat p) k = Some (1%Z, (k + p)%nat).
Proof.
  induction p as [|p IH]; intros [|fuel] k Hf; try lia; cbn [lowest_edge]; [by rewrite Nat.add_0_r|].
  replace (2 ^ Z.of_nat (S p))%Z with (Z.shiftl (2 ^ Z.of_nat p) 1) by (rewrite Z.shiftl_mul_pow2, Nat2Z.inj_succ, Z.pow_succ_r by lia; lia).
  rewrite Z.shiftr_shiftl_l by lia. cbn [Z.sub Z.add Z.opp Z.pos_sub]. rewrite Z.shiftl_0_r, IH by lia.
  assert (E : Z.land (Z.shiftl (2 ^ Z.of_nat p) 1) 1 = 0%Z).
  { apply Z.bits_inj'. intros i Hi. rewrite Z.land_spec, Z.shiftl_spec, Z.bits_0 by done. destruct (Z.eq_dec i 0) as [->|]; [by rewrite Z.testbit_neg_r by lia|].
    rewrite (Z.bits_above_log2 1 i) by (cbn; lia). apply andb_false_r. }
  rewrite E. cbn [Z.eqb]. by replace (k + S p)%nat with (k + 1 + p)%nat by lia.
Qed.

(** The mask of the inputs that changed. *)
Lemma changed_mask n cur prev u v a b o : levels_are cur ((u ++ b :: v) ++ [o]) -> levels_are prev (u ++ a :: v) ->
  length (u ++ b :: v) = n -> a <> b -> is01x a = true -> is01x b = true ->
  Z.land (Z.lor (Z.lor (Z.lxor (mask0 cur) (mask0 prev)) (Z.lxor (maskx cur) (maskx prev))) (Z.lxor (mask1 cur) (mask1 prev))) (Z.ones (Z.of_nat n)) = (2 ^ Z.of_nat (length u))%Z.
Proof.
  intros [_ Rc] [_ Rp] Li Hab Ha Hb. rewrite length_app in Li. cbn [length] in Li. apply Z.bits_inj'. intros j Hj. rewrite <- (Z2Nat.id j) by done. set (i := Z.to_nat j).
  rewrite Z.land_spec, !Z.lor_spec, !Z.lxor_spec, Z.pow2_bits_eqb, Z.testbit_ones_nonneg by lia.
  pose proof (fun b => Rc b i) as Ec. pose proof (fun b => Rp b i) as Ep.
  pose proof (Ec BIT4_0) as C0. pose proof (Ec BIT4_1) as C1. pose proof (Ec BIT4_X) as Cx. pose proof (Ep BIT4_0) as P0. pose proof (Ep BIT4_1) as P1. pose proof (Ep BIT4_X) as Px.
  clear Ec Ep. cbn [mask_of] in *. rewrite C0, C1, Cx, P0, P1, Px. clear C0 C1 Cx P0 P1 Px. rewrite !list_lookup_fmap.
  destruct (Nat.lt_trichotomy i (length u)) as [Hi | [Hi | Hi]].
  - rewrite <- app_assoc, !lookup_app_l by done. rewrite (proj2 (Z.eqb_neq _ _)) by lia. by rewrite !xorb_nilpotent.
  - rewrite <- app_assoc, Hi, (lookup_app_r u ((b :: v) ++ [o])), (lookup_app_r u (a :: v)), !Nat.sub_diag by lia. cbn [lookup list_lookup app fmap option_fmap option_map]. rewrite (proj2 (Z.ltb_lt _ _)), Z.eqb_refl by lia.
    by destruct a, b.
  - rewrite (proj2 (Z.eqb_neq _ _)) by lia. destruct (Nat.lt_ge_cases i n) as [Hn | Hn].
    + rewrite !lookup_app_l by (rewrite length_app; cbn; lia). rewrite !lookup_app_r by lia. replace (i - length u)%nat with (S (i - length u - 1)) by lia.
      cbn [lookup list_lookup]. by rewrite !xorb_nilpotent.
    + rewrite (proj2 (Z.ltb_ge _ _)) by lia. apply andb_false_r.
Qed.

Lemma prev_value prev u v a : levels_are prev (u ++ a :: v) -> is01x a = true ->
  (negb (Z.land (mask0 prev) (2 ^ Z.of_nat (length u)) =? 0)%Z, negb (Z.land (mask1 prev) (2 ^ Z.of_nat (length u)) =? 0)%Z, negb (Z.land (maskx prev) (2 ^ Z.of_nat (length u)) =? 0)%Z) = value_flags a.
Proof.
  intros Hp Ha. pose proof (level_bit BIT4_0 _ _ (length u) Hp) as E0. pose proof (level_bit BIT4_1 _ _ (length u) Hp) as E1. pose proof (level_bit BIT4_X _ _ (length u) Hp) as Ex.
  cbn [mask_of] in *. rewrite E0, E1, Ex, lookup_app_r, Nat.sub_diag by done. by destruct a.
Qed.

Section eval.
  Context (n : nat) (tab : list (list ascii)) (u : vvp_udp_seq_s) (Hn : (n < 31)%nat) (Hp : seq_ports u = n) (Hu : adds n (seq_new n) u tab).

Lemma test_levels_is cur ins prev o : levels_are cur (ins ++ [o]) -> length ins = n -> is01x o = true ->
  test_levels_ u cur = Some (if seq_rows true n tab "0" ins prev o then BIT4_0 else if seq_rows true n tab "1" ins prev o then BIT4_1
    else if seq_rows true n tab "x" ins prev o then BIT4_X else if seq_rows true n tab "-" ins prev o then o else BIT4_Z).
Proof using All.
  intros Hi Li Ho. unfold test_levels_. pose proof (fun out H => adds_levels _ _ _ _ Hu out cur ins prev o H Hi Li) as HL.
  pose proof (HL "0" ltac:(cbn; auto)) as L0. pose proof (HL "1" ltac:(cbn; auto)) as L1. pose proof (HL "x" ltac:(cbn; auto)) as Lx. pose proof (HL "-" ltac:(cbn; auto 6)) as LL.
  cbn [lev_rows seq_new levels0_ levels1_ levelsx_ levelsL_ existsb orb] in *. rewrite L0, L1, Lx, LL, Hp, (held_output_is n cur ins o) by done.
  by repeat case_match.
Qed.

Lemma test_edges_is cur prev u1 v1 a b o : levels_are cur ((u1 ++ b :: v1) ++ [o]) -> levels_are prev (u1 ++ a :: v1) -> length (u1 ++ b :: v1) = n ->
  a <> b -> is01x a = true -> is01x b = true -> is01x o = true -> let ins := (u1 ++ b :: v1)%list in let ins' := (u1 ++ a :: v1)%list in
  test_edges_ u cur prev = Some (if seq_rows false n tab "0" ins ins' o then BIT4_0 else if seq_rows false n tab "1" ins ins' o then BIT4_1
    else if seq_rows false n tab "-" ins ins' o then o else BIT4_X).
Proof using All.
  intros Hi Hi' Li Hab Ha Hb Ho ins ins'. unfold test_edges_. rewrite Hp, (changed_mask n cur prev u1 v1 a b o) by done.
  assert (Lu : (length u1 < n)%nat) by (rewrite length_app in Li; cbn in Li; lia).
  rewrite (proj2 (Z.eqb_neq _ _)) by (pose proof (Z.pow_pos_nonneg 2 (Z.of_nat (length u1))); lia).
  rewrite lowest_edge_pow2 by lia. cbn [mbind option_bind plus]. rewrite Z.eqb_refl, long_bit_is by lia. cbn [mbind option_bind].
  pose proof (prev_value prev u1 v1 a Hi' Ha) as EP. pose proof (fun out H => adds_edges _ _ _ _ Hu out cur u1 v1 a b o H Hi Li Hab Ha Hb) as HE.
  pose proof (HE "0" ltac:(cbn; auto)) as E0. pose proof (HE "1" ltac:(cbn; auto)) as E1. pose proof (HE "-" ltac:(cbn; auto)) as EL.
  unfold edge_hit in *. rewrite <- EP in E0, E1, EL. cbn [edge_rows_of seq_new edges0_ edges1_ edgesL_ existsb orb] in *.
  cbv zeta. rewrite E0, E1, EL, (held_output_is n cur _ o Hn Hi Li Ho); subst ins ins'. by repeat case_match.
Qed.

(** One input changed, or none. *)
Lemma seq_eval_is cur prev u1 v1 a b o : levels_are cur (u1 ++ b :: v1) -> levels_are prev (u1 ++ a :: v1) -> length (u1 ++ b :: v1) = n ->
  forallb is01x (u1 ++ b :: v1) = true -> forallb is01x (u1 ++ a :: v1) = true -> is01x o = true ->
  seq_calculate_output u cur prev o = Some (seq_eval n tab (u1 ++ b :: v1) (u1 ++ a :: v1) o).
Proof using All.
  intros Hi Hi' Li H01 H01' Ho. unfold seq_calculate_output, seq_eval.
  rewrite (levels_eqb_is _ _ _ _ Hi Hi') by (done || rewrite !length_app; done). case_bool_decide as Hd; [done|].
  assert (Hab : a <> b) by congruence.
  assert (H01b : is01x b = true) by (rewrite forallb_app in H01; cbn [forallb] in H01; apply andb_true_iff in H01 as [_ H01]; by apply andb_true_iff in H01 as [H01 _]).
  assert (H01a : is01x a = true) by (rewrite forallb_app in H01'; cbn [forallb] in H01'; apply andb_true_iff in H01' as [_ H01']; by apply andb_true_iff in H01' as [H01' _]).
  rewrite Hp, long_bit_is by lia. cbn [mbind option_bind]. pose proof (or_value_levels o _ _ Hi) as Hi2. rewrite Li in Hi2.
  rewrite (test_levels_is _ _ (u1 ++ a :: v1) o Hi2 Li Ho). cbn [mbind option_bind].
  rewrite (test_edges_is _ prev u1 v1 a b o) by done. repeat case_match; by destruct o.
Qed.
End eval.

(** ** Instances of user-defined primitives: after any sequence of values at the inputs, the state
    and the output are those of the reading of the table. *)

(** A Z at an input is an X. *)
Definition norm (b : vvp_bit4_t) : vvp_bit4_t := if bit4_eqb b BIT4_Z then BIT4_X else b.

(** The arrivals at the inputs, in order, with whether each asked to be run. *)
Fixpoint udp_receive (st : vvp_udp_fun_core) (msgs : list (nat * vvp_vector4_t)) : option (vvp_udp_fun_core * list bool) :=
  match msgs with
  | [] => Some (st, [])
  | (port, bit) :: msgs =>
      '(st, s) ← recv_vec4_from_inputs port bit st;
      '(st, ss) ← udp_receive st msgs;
      Some (st, s :: ss)
  end.

Fixpoint udp_reference (ev : list vvp_bit4_t -> list vvp_bit4_t -> vvp_bit4_t -> vvp_bit4_t) (ins : list vvp_bit4_t) (o : vvp_bit4_t)
    (msgs : list (nat * vvp_vector4_t)) : list vvp_bit4_t * vvp_bit4_t * list bool :=
  match msgs with
  | [] => (ins, o, [])
  | (port, bit) :: msgs =>
      let ins' := <[port := norm (value bit 0)]> ins in
      let o' := ev ins' ins o in
      let '(r, ss) := udp_reference ev ins' o' msgs in (r, negb (bit4_eqb o' o) :: ss)
  end.

(** What a compiled table means. *)
Inductive udp_means (n : nat) : vvp_udp_s -> (list vvp_bit4_t -> list vvp_bit4_t -> vvp_bit4_t -> vvp_bit4_t) -> Prop :=
  | means_comb tab u : (n < 64)%nat -> Forall (comb_row_ok n) tab -> comb_compile_table n tab (mkComb n [] []) = Some u ->
      udp_means n (Comb u) (fun ins _ _ => comb_eval n tab ins)
  | means_seq tab u init : (n < 31)%nat -> Forall (seq_row_ok n) tab -> seq_compile_table n tab (seq_new n) = Some u -> is01x init = true ->
      udp_means n (Seq u init) (seq_eval n tab).

Definition core_is (st : vvp_udp_fun_core) (ins : list vvp_bit4_t) (o : vvp_bit4_t) : Prop :=
  levels_are (current_ st) ins /\ forallb is01x ins = true /\ cur_out_ st = o /\ is01x o = true.

Lemma norm_01x b : is01x (norm b) = true. Proof. by destruct b. Qed.
Lemma norm_flags b : value_flags (norm b) = value_flags b. Proof. by destruct b. Qed.

(** One input replaced. *)
Lemma input_levels t ins p b : levels_are t ins -> (p < length ins)%nat -> let clear m := Z.ldiff m (2 ^ Z.of_nat p) in
  levels_are (or_value b (2 ^ Z.of_nat p) (mkLevels (clear (mask0 t)) (clear (mask1 t)) (clear (maskx t)))) (<[p := norm b]> ins).
Proof.
  intros [Hn Hr] Hp clear. rewrite or_value_is. set (t' := mkLevels _ _ _). assert (Hn' : nonneg t').
  { destruct Hn as (N0 & N1 & N2). split_and!; cbn; apply Z.ldiff_nonneg; auto. }
  split; [by apply or_masks_nonneg|]. intros q i.
  assert (HT : Z.testbit (mask_of q t') (Z.of_nat i) = Z.testbit (mask_of q t) (Z.of_nat i) && negb (p =? i)%nat).
  { replace (mask_of q t') with (clear (mask_of q t)) by (by destruct q). unfold clear. rewrite Z.ldiff_spec, Z.pow2_bits_eqb by lia. do 2 f_equal.
    apply eq_true_iff_eq. rewrite Z.eqb_eq, Nat.eqb_eq. lia. }
  assert (HO : Z.testbit (mask_of q (or_masks (value_flags b) (2 ^ Z.of_nat p) t')) (Z.of_nat i) = Z.testbit (mask_of q t') (Z.of_nat i) || ((p =? i)%nat && flag_has (value_flags b) q)).
  { destruct (value_flags b) as [[f0 f1] fx]. assert (HB : forall (f : bool) m, Z.testbit (if f then Z.lor m (2 ^ Z.of_nat p) else m) (Z.of_nat i) = Z.testbit m (Z.of_nat i) || ((p =? i)%nat && f)).
    { intros [] m; [|by rewrite andb_false_r, orb_false_r]. rewrite Z.lor_spec, Z.pow2_bits_eqb, andb_true_r by lia. f_equal.
      apply eq_true_iff_eq. rewrite Z.eqb_eq, Nat.eqb_eq. lia. }
    destruct q; cbn [or_masks mask_of mask0 mask1 maskx flag_has]; apply HB. }
  rewrite HO, HT, (Hr q i), !list_lookup_fmap. destruct (Nat.eqb_spec p i) as [E|Hne]; [subst i|].
  - rewrite list_lookup_insert_eq by done. cbn. by rewrite andb_false_r, norm_flags.
  - rewrite list_lookup_insert_ne by done. cbn [negb andb]. by rewrite andb_true_r, orb_false_r.
Qed.

(** [ins] and the vector with one input replaced. *)
Lemma insert_split (ins : list vvp_bit4_t) p b : (p < length ins)%nat -> exists u a v, ins = u ++ a :: v /\ <[p := b]> ins = u ++ b :: v.
Proof.
  intros Hp. destruct (lookup_lt_is_Some_2 _ _ Hp) as [a Ea]. exists (take p ins), a, (drop (S p) ins). split; [by rewrite take_drop_middle|].
  by rewrite insert_take_drop.
Qed.

Lemma forallb_01x_insert ins p b : forallb is01x ins = true -> forallb is01x (<[p := norm b]> ins) = true.
Proof.
  revert p. induction ins as [|a ins IH]; intros [|p] H; try done; cbn in *; apply andb_true_iff in H as [H1 H2]; [by rewrite norm_01x|].
  rewrite H1. by apply IH.
Qed.

Lemma comb_eval_01x n tab ins : is01x (comb_eval n tab ins) = true. Proof. unfold comb_eval. by repeat case_match. Qed.
Lemma seq_eval_01x n tab ins prev o : is01x o = true -> is01x (seq_eval n tab ins prev o) = true. Proof. intros H. unfold seq_eval. by repeat case_match. Qed.

(** The output of the compiled table. *)
Lemma udp_calculate_is n def ev cur prev ins p b o : udp_means n def ev -> length ins = n -> (p < n)%nat ->
  levels_are cur (<[p := norm b]> ins) -> levels_are prev ins -> forallb is01x ins = true -> is01x o = true ->
  calculate_output def cur prev o = Some (ev (<[p := norm b]> ins) ins o) /\ is01x (ev (<[p := norm b]> ins) ins o) = true.
Proof.
  intros [tab u Hn Ht Eu | tab u init Hn Ht Eu _] Li Hp Hc Hprev H01 Ho; cbn [calculate_output].
  - rewrite (comb_eval_is n tab u cur _ Ht Hn Eu Hc) by (by rewrite length_insert). split; [done|apply comb_eval_01x].
  - split; [|by apply seq_eval_01x]. destruct (adds_table n tab Hn Ht (seq_new n)) as (u' & Eu' & Hu). rewrite Eu in Eu'. injection Eu' as <-.
    pose proof (adds_ports _ _ _ _ Hu) as HP. cbn in HP. pose proof (forallb_01x_insert ins p b H01) as H01'.
    destruct (insert_split ins p (norm b)) as (u1 & a & v1 & -> & E2); [lia|]. rewrite E2 in *.
    apply (seq_eval_is n tab u Hn HP Hu cur prev u1 v1 a (norm b) o); try done. rewrite length_app in *. done.
Qed.

Lemma recv_is n def ev st ins o p bit : udp_means n def ev -> def_ st = def -> core_is st ins o -> length ins = n -> (p < n)%nat -> size bit = 1%nat ->
  let ins' := <[p := norm (value bit 0)]> ins in
  exists st', recv_vec4_from_inputs p bit st = Some (st', negb (bit4_eqb (ev ins' ins o) o)) /\ def_ st' = def /\ core_is st' ins' (ev ins' ins o).
Proof.
  intros Hm Hd (Hl & H01 & <- & Ho) Li Hp Hb ins'. unfold recv_vec4_from_inputs. rewrite Hb. cbn [Nat.eqb].
  assert (H64 : (n < 64)%nat) by (destruct Hm; lia). rewrite long_bit_is by lia. cbn [mbind option_bind].
  pose proof (input_levels _ _ p (value bit 0) Hl ltac:(lia)) as Hl'. cbv zeta in Hl'. rewrite Hd.
  destruct (udp_calculate_is n def ev _ _ ins p (value bit 0) _ Hm Li Hp Hl' Hl H01 Ho) as [-> Ho']. cbn [mbind option_bind]. fold ins' in Ho' |- *.
  pose proof (forallb_01x_insert ins p (value bit 0) H01) as H01'.
  destruct (bit4_eqb (ev ins' ins (cur_out_ st)) (cur_out_ st)) eqn:E; (eexists; split; [done|]); split; try done; split_and!; try done.
  cbn. by destruct (cur_out_ st), (ev ins' ins _).
Qed.

Lemma all_x_levels n : levels_are (mkLevels 0 0 (Z.ones (Z.of_nat n))) (replicate n BIT4_X).
Proof.
  split; [split_and!; cbn; [lia|lia|rewrite Z.ones_equiv; pose proof (Z.pow_pos_nonneg 2 (Z.of_nat n)); lia]|]. intros b i.
  rewrite list_lookup_fmap. destruct (Nat.lt_ge_cases i n) as [Hi|Hi].
  - rewrite lookup_replicate_2 by done. destruct b; cbn [mask_of mask0 mask1 maskx fmap option_fmap option_map value_flags flag_has]; rewrite ?Z.bits_0, ?Z.testbit_ones_nonneg by lia; try done; apply Z.ltb_lt; lia.
  - rewrite lookup_ge_None_2 by (by rewrite length_replicate). destruct b; cbn [mask_of mask0 mask1 maskx]; rewrite ?Z.bits_0, ?Z.testbit_ones_nonneg by lia; try done; apply Z.ltb_ge; lia.
Qed.

Lemma udp_receive_is n def ev msgs : udp_means n def ev -> Forall (fun '(p, b) => (p < n)%nat /\ size b = 1%nat) msgs ->
  forall st ins o, def_ st = def -> core_is st ins o -> length ins = n ->
  let '(ins', o', ss) := udp_reference ev ins o msgs in exists st', udp_receive st msgs = Some (st', ss) /\ core_is st' ins' o'.
Proof.
  intros Hm H. induction H as [|[p bit] msgs [Hp Hb] H IH]; intros st ins o Hd Hc Li; cbn [udp_reference udp_receive]; [by exists st|].
  destruct (recv_is n def ev st ins o p bit Hm Hd Hc Li Hp Hb) as (st1 & -> & Hd1 & Hc1). cbn [mbind option_bind].
  specialize (IH st1 _ _ Hd1 Hc1 ltac:(by rewrite length_insert)). destruct (udp_reference _ _ _ msgs) as [[ins' o'] ss].
  destruct IH as (st' & -> & Hc'). by exists st'.
Qed.

Lemma new_is n def ev : udp_means n def ev -> exists st, udp_core_new def = Some (st, negb (bit4_eqb (get_init def) BIT4_X)) /\ def_ st = def /\ core_is st (replicate n BIT4_X) (get_init def).
Proof.
  intros Hm. unfold udp_core_new. assert (HP : port_count def = n /\ (n < 64)%nat /\ is01x (get_init def) = true).
  { destruct Hm as [tab u Hn Ht Eu | tab u init Hn Ht Eu Hi]; cbn [port_count get_init].
    - destruct (comb_table_is n tab Ht Hn (mkComb n [] []) eq_refl) as (u' & E & HP & _). rewrite E in Eu. by injection Eu as <-.
    - destruct (adds_table n tab Hn Ht (seq_new n)) as (u' & E & Hu). rewrite E in Eu. injection Eu as <-. split_and!; [apply (adds_ports _ _ _ _ Hu)|lia|done]. }
  destruct HP as (-> & H64 & Ho). rewrite (proj2 (Nat.ltb_lt _ _)) by done. eexists. split; [done|]. split; [done|]. split_and!; [apply all_x_levels| |done|done].
  cbn. rewrite forallb_forall. intros x Hx. apply list_elem_of_In, elem_of_replicate in Hx as [-> _]. done.
Qed.


(** A flip-flop: the clock at the input 0, the data at the input 1. *)
Definition dff_table : list (list ascii) := map list_ascii_of_string ["?r00"; "?r11"; "?n?-"; "??*-"]%string.
Definition dff_compiled : vvp_udp_seq_s := default (seq_new 2) (seq_compile_table 2 dff_table (seq_new 2)).
Definition one_bit (b : vvp_bit4_t) : vvp_vector4_t := vec4_fill 1 b.
Definition dff_msgs : list (nat * vvp_vector4_t) := [(1%nat, one_bit BIT4_1); (0%nat, one_bit BIT4_0); (0%nat, one_bit BIT4_1); (1%nat, one_bit BIT4_0)].

