(* ===== verification/Signal.v ===== *)
(** Variables and nets of the runtime ([vvp/vvp_net_sig.cc], [vvp/vvp_net.cc], the instructions
    of [vvp/vthread.cc]): the functor of a variable with its continuous assignment, the filter
    of a wire with its forces, and the instructions that assign, deassign, force and release.

    What a node sends to its fan-out, and what it does to the links of other nets, is a list of
    [output]s.  [None] is a failed [assert]. *)
From S2P Require Import Prelude MachineWord VvpBit VvpVector4 VvpSlice WordArith VvpArith VvpVector2.

Inductive output :=
| RunCallbacks                                             (* run_vpi_callbacks *)
| SendOut (v : vvp_vector4_t)                              (* vvp_send_vec4(out_, v) *)
| SendOutPv (v : vvp_vector4_t) (base wid vwid : nat)      (* vvp_send_vec4_pv(out_, ...) *)
| LinkTo (src : nat) | UnlinkFrom (src : nat).             (* src->link, src->unlink *)

(** [mask.value(idx)] as a condition. *)
Definition mask_bit (m : vvp_vector2_t) (idx : nat) : bool := negb (vec2_value m idx =? 0).

(** [for (idx = 0; idx < n; idx += 1) if (c(idx)) v.set_bit(p + idx, f(idx))]. *)
Definition set_some (n p : nat) (c : nat -> bool) (f : nat -> vvp_bit4_t) (v : vvp_vector4_t) : option vvp_vector4_t :=
  for_upto n (fun idx t => t ← t; if c idx then set_bit t (p + idx) (f idx) else Some t) (Some v).

(** The same on a mask, writing [b]. *)
Definition mark_some (n p : nat) (c : nat -> bool) (b : Z) (m : vvp_vector2_t) : option vvp_vector2_t :=
  for_upto n (fun idx t => t ← t; if c idx then vec2_set_bit t (p + idx) b else Some t) (Some m).

(** * The filter of a wire *)

Inductive prop_t := STOP | PROP | REPL (rep : vvp_vector4_t).

Record vvp_wire_vec4 := mkWire {
  wneeds_init_ : bool; wbits4_ : vvp_vector4_t; force4_ : vvp_vector4_t;
  force_mask_ : vvp_vector2_t; force_propagate_ : bool }.

Definition wire_new (wid : nat) (init : vvp_bit4_t) : vvp_wire_vec4 :=
  mkWire true (vec4_fill wid init) (vec4_fill 0 BIT4_X) vec2_nil false.

Definition with_bits (w : vvp_wire_vec4) (needs_init : bool) (v : vvp_vector4_t) := mkWire needs_init v (force4_ w) (force_mask_ w) (force_propagate_ w).
Definition with_mask (w : vvp_wire_vec4) (m : vvp_vector2_t) (p : bool) := mkWire (wneeds_init_ w) (wbits4_ w) (force4_ w) m p.

Definition test_force_mask (w : vvp_wire_vec4) (bit : nat) : bool :=
  if (wid (force_mask_ w) <=? bit)%nat then false else mask_bit (force_mask_ w) bit.

Definition test_force_mask_is_zero (w : vvp_wire_vec4) : bool := (wid (force_mask_ w) =? 0)%nat || vec2_is_zero (force_mask_ w).

(** [vvp_net_fil_t::force_mask]. *)
Definition fil_force_mask (mask : vvp_vector2_t) (w : vvp_wire_vec4) : option vvp_wire_vec4 :=
  let m := if (wid (force_mask_ w) =? 0)%nat then vec2_fill false (wid mask) else force_mask_ w in
  if (wid m =? wid mask)%nat then
    m ← mark_some (wid mask) 0 (mask_bit mask) 1 m;
    Some (with_mask w m (force_propagate_ w || existsb (mask_bit mask) (seq 0 (wid mask))))
  else None.

(** [vvp_net_fil_t::release_mask]. *)
Definition fil_release_mask (mask : vvp_vector2_t) (w : vvp_wire_vec4) : option vvp_wire_vec4 :=
  if (wid (force_mask_ w) =? 0)%nat then Some w
  else if (wid (force_mask_ w) =? wid mask)%nat then
    m ← mark_some (wid mask) 0 (mask_bit mask) 0 (force_mask_ w);
    Some (with_mask w (if vec2_is_zero m then vec2_nil else m) (force_propagate_ w))
  else None.

(** [filter_mask_]: the callbacks run unless the result is [STOP]. *)
Definition filter_mask_ (val : vvp_vector4_t) (base : nat) (w : vvp_wire_vec4) : option (vvp_wire_vec4 * prop_t) :=
  if test_force_mask_is_zero w then Some (w, PROP)
  else if (wid (force_mask_ w) =? size (force4_ w))%nat && (base + size val <=? wid (force_mask_ w))%nat then
    filter ← set_some (size val) 0 (fun idx => mask_bit (force_mask_ w) (base + idx)) (fun idx => value (force4_ w) (base + idx)) val;
    let propagate_flag := force_propagate_ w || existsb (fun idx => negb (mask_bit (force_mask_ w) (base + idx))) (seq 0 (size val)) in
    let w := with_mask w (force_mask_ w) false in
    Some (w, if propagate_flag then REPL filter else STOP)
  else None.

Definition filter_vec4 (bit : vvp_vector4_t) (base vwid : nat) (w : vvp_wire_vec4) : option (vvp_wire_vec4 * prop_t) :=
  if (base =? 0)%nat && (vwid =? 0)%nat then
    let tmp := vec4_fill (size (wbits4_ w)) BIT4_X in
    if eeq (wbits4_ w) tmp && negb (wneeds_init_ w) then Some (w, STOP)
    else filter_mask_ tmp 0 (with_bits w false tmp)
  else if (size (wbits4_ w) =? vwid)%nat then
    if (base =? 0)%nat && (size bit =? vwid)%nat then
      if eeq (wbits4_ w) bit && negb (wneeds_init_ w) then Some (w, STOP)
      else filter_mask_ bit base (with_bits w false bit)
    else
      '(v, rc) ← set_vec (wbits4_ w) base bit;
      if negb rc && negb (wneeds_init_ w) then Some (with_bits w (wneeds_init_ w) v, STOP)
      else filter_mask_ bit base (with_bits w false v)
  else None.

(** [vvp_net_t::send_vec4] and [send_vec4_pv] of a net with this filter. *)
Definition send_vec4 (val : vvp_vector4_t) (w : vvp_wire_vec4) : option (vvp_wire_vec4 * list output) :=
  '(w, p) ← filter_vec4 val 0 (size val) w;
  Some (w, match p with STOP => [] | PROP => [RunCallbacks; SendOut val] | REPL rep => [RunCallbacks; SendOut rep] end).

Definition send_vec4_pv (val : vvp_vector4_t) (base wid vwid : nat) (w : vvp_wire_vec4) : option (vvp_wire_vec4 * list output) :=
  if (size val =? wid)%nat then
    '(w, p) ← filter_vec4 val base vwid w;
    Some (w, match p with STOP => [] | PROP => [RunCallbacks; SendOutPv val base wid vwid] | REPL rep => [RunCallbacks; SendOutPv rep base wid vwid] end)
  else None.

Definition force_fil_vec4 (val : vvp_vector4_t) (mask : vvp_vector2_t) (w : vvp_wire_vec4) : option vvp_wire_vec4 :=
  w ← fil_force_mask mask w;
  f ← (if (size (force4_ w) =? 0)%nat then Some val else set_some (wid mask) 0 (mask_bit mask) (value val) (force4_ w));
  Some (mkWire (wneeds_init_ w) (wbits4_ w) f (force_mask_ w) (force_propagate_ w)).

(** [vvp_net_t::force_vec4]: all of [val] is sent, whatever the mask. *)
Definition net_force_vec4 (val : vvp_vector4_t) (mask : vvp_vector2_t) (w : vvp_wire_vec4) : option (vvp_wire_vec4 * list output) :=
  w ← force_fil_vec4 val mask w; Some (w, [RunCallbacks; SendOut val]).

(** The value seen: [value(idx)], [vec4_value]. *)
Definition filtered_value_ (w : vvp_wire_vec4) (idx : nat) : vvp_bit4_t :=
  if test_force_mask w idx then value (force4_ w) idx else value (wbits4_ w) idx.

Definition wire_vec4_value (w : vvp_wire_vec4) : option vvp_vector4_t :=
  if test_force_mask_is_zero w then Some (wbits4_ w)
  else set_some (size (wbits4_ w)) 0 (fun _ => true) (filtered_value_ w) (wbits4_ w).

(** The mask of a part. *)
Definition part_mask (n base wid : nat) : option vvp_vector2_t := mark_some wid base (fun _ => true) 1 (vec2_fill false n).

(** [release(ptr, net_flag = true)]: a wire goes back to the value driven. *)
Definition release_net (w : vvp_wire_vec4) : option (vvp_wire_vec4 * list output) :=
  w ← fil_release_mask (vec2_fill true (size (wbits4_ w))) w;
  '(w, out) ← send_vec4 (wbits4_ w) (with_bits w (negb (eeq (force4_ w) (wbits4_ w))) (wbits4_ w));
  Some (w, out ++ [RunCallbacks]).

Definition release_net_pv (base wid : nat) (w : vvp_wire_vec4) : option (vvp_wire_vec4 * list output) :=
  if (base + wid <=? size (wbits4_ w))%nat then
    mask ← part_mask (size (wbits4_ w)) base wid;
    w ← fil_release_mask mask w;
    f ← subvalue (force4_ w) base wid;
    b ← subvalue (wbits4_ w) base wid;
    '(w, out) ← send_vec4_pv b base wid (size (wbits4_ w)) (with_bits w (negb (eeq f b)) (wbits4_ w));
    Some (w, out ++ [RunCallbacks])
  else None.

(** [release(ptr, net_flag = false)]: the value that the variable keeps, for its functor. *)
Definition release_reg (w : vvp_wire_vec4) : option (vvp_wire_vec4 * vvp_vector4_t) :=
  let n := size (wbits4_ w) in
  res ← set_some n 0 (fun _ => true) (filtered_value_ w) (vec4_fill n BIT4_X);
  w ← fil_release_mask (vec2_fill true n) w; Some (w, res).

Definition release_reg_pv (base wid : nat) (w : vvp_wire_vec4) : option (vvp_wire_vec4 * vvp_vector4_t) :=
  if (base + wid <=? size (wbits4_ w))%nat then
    mask ← part_mask (size (wbits4_ w)) base wid;
    res ← set_some wid 0 (fun _ => true) (fun idx => filtered_value_ w (base + idx)) (vec4_fill wid BIT4_X);
    w ← fil_release_mask mask w; Some (w, res)
  else None.

(** * The functor of a variable *)

Record vvp_fun_signal4_sa := mkSignal { assign_mask_ : vvp_vector2_t; needs_init_ : bool; bits4_ : vvp_vector4_t }.

Definition signal_new (wid : nat) (init : vvp_bit4_t) : vvp_fun_signal4_sa := mkSignal vec2_nil true (vec4_fill wid init).

Definition coerce_to_width (that : vvp_vector4_t) (width : nat) : option vvp_vector4_t :=
  if (size that =? width)%nat then Some that
  else if (width <? size that)%nat then set_some width 0 (fun _ => true) (value that) (vec4_fill width BIT4_X)
  else None.

(** The new state, and the vector sent. *)
Definition signal_recv_vec4 (port : nat) (bit : vvp_vector4_t) (s : vvp_fun_signal4_sa) : option (vvp_fun_signal4_sa * option vvp_vector4_t) :=
  match port with
  | 0%nat =>
      if (wid (assign_mask_ s) =? 0)%nat then
        if needs_init_ s || negb (eeq (bits4_ s) bit) then
          if (size bit =? size (bits4_ s))%nat then Some (mkSignal (assign_mask_ s) false bit, Some bit) else None
        else Some (s, None)
      else if (size (bits4_ s) =? wid (assign_mask_ s))%nat then
        let n := Nat.min (size bit) (size (bits4_ s)) in
        let free idx := negb (mask_bit (assign_mask_ s) idx) in
        v ← set_some n 0 free (value bit) (bits4_ s);
        if existsb free (seq 0 n) then Some (mkSignal (assign_mask_ s) false v, Some v) else Some (s, None)
      else None
  | 1%nat =>
      v ← coerce_to_width bit (size (bits4_ s));
      Some (mkSignal (vec2_fill true (size (bits4_ s))) (needs_init_ s) v, Some v)
  | _ => None
  end.

Definition signal_recv_vec4_pv (port : nat) (bit : vvp_vector4_t) (base wid_ vwid : nat) (s : vvp_fun_signal4_sa)
    : option (vvp_fun_signal4_sa * option vvp_vector4_t) :=
  if (size bit =? wid_)%nat && (size (bits4_ s) =? vwid)%nat then
    let n := Nat.min wid_ (size (bits4_ s) - base) in
    match port with
    | 0%nat =>
        if (wid (assign_mask_ s) =? 0)%nat then
          v ← set_some n base (fun _ => true) (value bit) (bits4_ s);
          Some (mkSignal (assign_mask_ s) false v, Some v)
        else if (size (bits4_ s) =? wid (assign_mask_ s))%nat then
          let free idx := negb (mask_bit (assign_mask_ s) (base + idx)) in
          v ← set_some n base free (value bit) (bits4_ s);
          if existsb free (seq 0 n) then Some (mkSignal (assign_mask_ s) false v, Some v) else Some (s, None)
        else None
    | 1%nat =>
        let m := if (wid (assign_mask_ s) =? 0)%nat then vec2_fill false (size (bits4_ s)) else assign_mask_ s in
        v ← set_some n base (fun _ => true) (value bit) (bits4_ s);
        m ← mark_some n base (fun _ => true) 1 m;
        Some (mkSignal m (needs_init_ s) v, Some v)
    | _ => None
    end
  else None.

Definition deassign (s : vvp_fun_signal4_sa) : vvp_fun_signal4_sa := mkSignal vec2_nil (needs_init_ s) (bits4_ s).

(** Without an assignment the mask is empty and its [set_bit] fails. *)
Definition deassign_pv (base wid : nat) (s : vvp_fun_signal4_sa) : option vvp_fun_signal4_sa :=
  m ← mark_some wid base (fun _ => true) 0 (assign_mask_ s);
  Some (mkSignal (if vec2_is_zero m then vec2_nil else m) (needs_init_ s) (bits4_ s)).

(** * The instructions *)

(** A variable: its functor, its filter, and the nets that assign and force it. *)
Record variable := mkVar { fun_ : vvp_fun_signal4_sa; fil_ : vvp_wire_vec4; cassign_link : option nat; force_src : option nat }.

Definition var_new (wid : nat) (init : vvp_bit4_t) : variable := mkVar (signal_new wid init) (wire_new wid init) None None.

(** What the functor sends goes through the filter. *)
Definition through (x : vvp_fun_signal4_sa * option vvp_vector4_t) (w : vvp_wire_vec4) (n : variable) : option (variable * list output) :=
  let '(s, v) := x in
  '(w, out) ← match v with Some v => send_vec4 v w | None => Some (w, []) end;
  Some (mkVar s w (cassign_link n) (force_src n), out).

Definition var_recv_vec4 (port : nat) (bit : vvp_vector4_t) (n : variable) : option (variable * list output) :=
  x ← signal_recv_vec4 port bit (fun_ n); through x (fil_ n) n.
Definition var_recv_vec4_pv (port : nat) (bit : vvp_vector4_t) (base wid vwid : nat) (n : variable) : option (variable * list output) :=
  x ← signal_recv_vec4_pv port bit base wid vwid (fun_ n); through x (fil_ n) n.

Definition unlinks (l : option nat) : list output := match l with Some src => [UnlinkFrom src] | None => [] end.

Definition cassign_unlink (n : variable) : variable * list output :=
  (mkVar (fun_ n) (fil_ n) None (force_src n), unlinks (cassign_link n)).

Definition of_CASSIGN_LINK (src : nat) (n : variable) : option (variable * list output) :=
  match cassign_link n with
  | None => Some (mkVar (fun_ n) (fil_ n) (Some src) (force_src n), [LinkTo src])
  | Some _ => None
  end.

Definition of_CASSIGN_VEC4 (value : vvp_vector4_t) (n : variable) : option (variable * list output) :=
  let '(n, out) := cassign_unlink n in
  '(n, out') ← var_recv_vec4 1 value n; Some (n, out ++ out').

Definition of_CASSIGN_VEC4_OFF (base : Z) (flag4 : vvp_bit4_t) (value : vvp_vector4_t) (n : variable) : option (variable * list output) :=
  if bit4_eqb flag4 BIT4_1 then Some (n, [])
  else
    let '(n, out) := cassign_unlink n in
    let use := size (wbits4_ (fil_ n)) in
    let wid := Z.of_nat (size value) in
    if (base <? 0) && (wid <=? - base) then Some (n, out)
    else if Z.of_nat use <=? base then Some (n, out)
    else
      let '(wid, base, value) := if base <? 0 then (wid + base, 0, resize value (Z.to_nat (wid + base)) BIT4_X) else (wid, base, value) in
      let '(wid, value) := if Z.of_nat use <? base + wid then (Z.of_nat use - base, resize value (Z.to_nat (Z.of_nat use - base)) BIT4_X) else (wid, value) in
      '(n, out') ← var_recv_vec4_pv 1 value (Z.to_nat base) (Z.to_nat wid) use n; Some (n, out ++ out').

(** Part of a linked assignment cannot be taken off: the program exits. *)
Definition of_DEASSIGN (base width : nat) (n : variable) : option (variable * list output) :=
  let use := size (wbits4_ (fil_ n)) in
  if (use <=? base)%nat then Some (n, [])
  else
    let width := if (use <? base + width)%nat then (use - base)%nat else width in
    let full_sig := (base =? 0)%nat && (width =? use)%nat in
    match cassign_link n, full_sig with
    | Some _, false => None
    | l, _ =>
        s ← (if full_sig then Some (deassign (fun_ n)) else deassign_pv base width (fun_ n));
        Some (mkVar s (fil_ n) None (force_src n), unlinks l)
    end.

(** The instructions of a force; [%force/link] links a net whose values are forced. *)
Definition of_FORCE_VEC4 (value : vvp_vector4_t) (w : vvp_wire_vec4) : option (vvp_wire_vec4 * list output) :=
  let n := size (wbits4_ w) in
  value ← (if (size value =? n)%nat then Some value else coerce_to_width value n);
  net_force_vec4 value (vec2_fill true n) w.

Definition of_FORCE_VEC4_OFF (base : Z) (flag4 : vvp_bit4_t) (value : vvp_vector4_t) (w : vvp_wire_vec4) : option (vvp_wire_vec4 * list output) :=
  if bit4_eqb flag4 BIT4_1 then Some (w, [])
  else
    let use_size := size (wbits4_ w) in
    if (Z.of_nat use_size <=? base) || (base <? - Z.of_nat use_size) then Some (w, [])
    else
      let wid := if Z.of_nat use_size <? base + Z.of_nat (size value) then Z.of_nat use_size - base else Z.of_nat (size value) in
      if (base <? 0) && (0 <? wid) then None          (* set_bit of a negative index *)
      else
        mask ← part_mask use_size (Z.to_nat base) (Z.to_nat wid);
        tmp ← wire_vec4_value w;
        '(tmp, _) ← set_vec tmp (Z.to_nat base) value;
        net_force_vec4 tmp mask w.

(** [do_release_vec]. *)
Definition release_range (base width use : nat) : option (bool * nat) :=
  if (use <=? base)%nat then None
  else let width := if (use <? base + width)%nat then (use - base)%nat else width in Some ((base =? 0)%nat && (width =? use)%nat, width).

(** For a net: the filter and the net that forces it, [force_unlink] first. *)
Definition of_RELEASE_NET (base width : nat) (n : vvp_wire_vec4 * option nat) : option (vvp_wire_vec4 * option nat * list output) :=
  let '(w, src) := n in
  match release_range base width (size (wbits4_ w)) with
  | None => Some (n, [])
  | Some (full_sig, width) =>
      '(w, out) ← (if full_sig then release_net w else release_net_pv base width w);
      Some (w, None, unlinks src ++ out)
  end.

Definition of_RELEASE_REG (base width : nat) (n : variable) : option (variable * list output) :=
  match release_range base width (size (wbits4_ (fil_ n))) with
  | None => Some (n, [])
  | Some (full_sig, width) =>
      let out := unlinks (force_src n) in
      let n := mkVar (fun_ n) (fil_ n) (cassign_link n) None in
      '(n, out') ← (if full_sig then
          '(w, res) ← release_reg (fil_ n);
          x ← signal_recv_vec4 0 res (fun_ n); through x w n
        else
          '(w, res) ← release_reg_pv base width (fil_ n);
          x ← signal_recv_vec4_pv 0 res base width (size (wbits4_ w)) (fun_ n); through x w n);
      Some (n, out ++ out')
  end.

(** The force instructions on a variable; [%force/link] replaces the link. *)
Definition var_force (f : vvp_wire_vec4 -> option (vvp_wire_vec4 * list output)) (n : variable) : option (variable * list output) :=
  '(w, out) ← f (fil_ n); Some (mkVar (fun_ n) w (cassign_link n) (force_src n), out).

Definition of_FORCE_LINK (src : nat) (n : variable) : option (variable * list output) :=
  Some (mkVar (fun_ n) (fil_ n) (cassign_link n) (Some src), unlinks (force_src n) ++ [LinkTo src]).
