(* ===== verification/SignalSpec.v ===== *)
(** The filter of a wire as what it means: the bits driven, the bits forced, and what the
    fan-out sees.  States are functions of the bit. *)
From S2P Require Import Prelude MachineWord VvpBit VvpVector4 VvpSlice WordArith VvpArith VvpVector2 BitList VThreadSpec VThreadParts VThreadIndex Signal.

(** * Masks *)

Definition mask_is (n : nat) (c : nat -> bool) (m : vvp_vector2_t) : Prop :=
  wf2 m /\ wid m = n /\ forall i, (i < n)%nat -> mask_bit m i = c i.

Lemma mask_bit_tb m i : wf2 m -> (i < wid m)%nat -> mask_bit m i = tb (word (vec m) (i / W)) (i mod W).
Proof.
  intros [Hw _] Hi. unfold mask_bit, vec2_value. rewrite (proj2 (Nat.leb_gt _ _)) by done.
  rewrite land_bit by (try apply word_is_word; try apply mod_W_lt; done). by destruct (tb _ _).
Qed.

Lemma tb_set_reset w k j (b : bool) : is_word w -> (k < W)%nat -> (j < W)%nat ->
  tb (if b then Z.lor w (wshl 1 k) else Z.land w (wnot (wshl 1 k))) j = if (j =? k)%nat then b else tb w j.
Proof.
  intros Hw Hk Hj. destruct b.
  - rewrite tb_lor, tb_wshl_1 by done. destruct (Nat.eqb_spec j k); [by rewrite orb_true_r|by rewrite orb_false_r].
  - rewrite tb_land, tb_wnot, tb_wshl_1, (proj2 (Nat.ltb_lt _ _)) by auto with word.
    destruct (Nat.eqb_spec j k); cbn; [by rewrite andb_false_r|by rewrite andb_true_r].
Qed.

Lemma mask_set_bit n c m i b : mask_is n c m -> (i < n)%nat ->
  exists m', vec2_set_bit m i b = Some m' /\ mask_is n (fun j => if (j =? i)%nat then negb (b =? 0) else c j) m'.
Proof.
  intros (Hw & <- & Hc) Hi. pose proof Hw as Hw0. destruct Hw as [Hw Hl]. unfold vec2_set_bit. rewrite (proj2 (Nat.ltb_lt _ _)) by done.
  pose proof (word_is_word (vec m) (i / W) Hw) as Hx. pose proof (mod_W_lt i) as Hm.
  assert (HL : (i / W < length (vec m))%nat) by (pose proof (words_for_length (wid m) i Hi); lia).
  eexists. split; [done|].
  assert (Hw' : wf2 (mkVec2 (<[(i / W)%nat := if negb (b =? 0) then Z.lor (word (vec m) (i / W)) (wshl 1 (i mod W)) else Z.land (word (vec m) (i / W)) (wnot (wshl 1 (i mod W)))]> (vec m)) (wid m))).
  { split; cbn [vec wid]; [|by rewrite length_insert]. apply words_insert; [done|]. case_match; auto with word. }
  split_and!; [done|done|]. intros j Hj. rewrite mask_bit_tb by done. cbn [vec]. rewrite word_insert by done.
  destruct (Nat.eqb_spec (j / W) (i / W)) as [E|E].
  - rewrite tb_set_reset by (done || apply mod_W_lt). destruct (Nat.eqb_spec j i) as [->|Hne]; [by rewrite Nat.eqb_refl|].
    destruct (Nat.eqb_spec (j mod W) (i mod W)) as [E'|E'].
    + exfalso. apply Hne. rewrite (Nat.div_mod_eq j W), (Nat.div_mod_eq i W). congruence.
    + rewrite <- E, <- mask_bit_tb by done. by apply Hc.
  - destruct (Nat.eqb_spec j i) as [->|Hne]; [done|]. rewrite <- mask_bit_tb by done. by apply Hc.
Qed.

Lemma mask_fill n b : mask_is n (fun _ => b) (vec2_fill b n).
Proof.
  assert (Hw : wf2 (vec2_fill b n)).
  { split; cbn [vec wid vec2_fill]; [apply words_replicate; by destruct b; auto with word|by rewrite length_replicate]. }
  split_and!; [done|done|]. intros i Hi. rewrite mask_bit_tb by done. cbn [vec vec2_fill]. rewrite word_replicate.
  - destruct b; [rewrite tb_wones; apply Nat.ltb_lt, mod_W_lt|apply tb_0].
  - by apply words_for_length.
Qed.

(** ** Writing some bits *)

Definition in_range (p k i : nat) : bool := (p <=? i)%nat && (i <? p + k)%nat.

Lemma in_range_S p k i : in_range p (S k) i = in_range p k i || (i =? p + k)%nat.
Proof. unfold in_range. destruct (Nat.leb_spec p i), (Nat.ltb_spec i (p + S k)), (Nat.ltb_spec i (p + k)), (Nat.eqb_spec i (p + k)); cbn; (done || lia). Qed.

Lemma in_range_0 p i : in_range p 0 i = false.
Proof. unfold in_range. destruct (Nat.leb_spec p i), (Nat.ltb_spec i (p + 0)); cbn; (done || lia). Qed.

Lemma in_range_full n i : (i < n)%nat -> in_range 0 n i = true.
Proof. intros Hi. unfold in_range. by rewrite (proj2 (Nat.ltb_lt _ _)). Qed.

Lemma in_range_inv p k i : in_range p k i = true -> (p <= i < p + k)%nat.
Proof. unfold in_range. rewrite andb_true_iff, Nat.leb_le, Nat.ltb_lt. done. Qed.

Lemma bitwise_ext n f g v : (forall i, (i < n)%nat -> f i = g i) -> bitwise n f v -> bitwise n g v.
Proof. intros H (Hw & Hs & Hb). split_and!; [done|done|]. intros i Hi. by rewrite <- H, Hb. Qed.

Lemma mask_ext n f g m : (forall i, (i < n)%nat -> f i = g i) -> mask_is n f m -> mask_is n g m.
Proof. intros H (Hw & Hs & Hb). split_and!; [done|done|]. intros i Hi. by rewrite <- H, Hb. Qed.

Lemma set_some_is n g v k p c f : bitwise n g v -> (p + k <= n)%nat ->
  exists r, set_some k p c f v = Some r /\ bitwise n (fun i => if in_range p k i && c (i - p)%nat then f (i - p)%nat else g i) r.
Proof.
  intros Hv Hk. unfold set_some. induction k as [|k IH].
  { exists v. split; [done|]. eapply bitwise_ext; [|exact Hv]. intros i Hi. cbn beta. by rewrite in_range_0. }
  destruct IH as (r & E & Hr); [lia|]. cbn [for_upto]. rewrite E. cbn [mbind option_bind]. destruct (c k) eqn:Ec.
  - destruct Hr as (Wr & Sr & Vr). destruct (set_bit_spec r (p + k) (f k) Wr) as (r' & -> & Wr' & Sr' & Vr'); [lia|].
    exists r'. split; [done|]. split_and!; [done|congruence|]. intros i Hi. rewrite Vr', in_range_S. destruct (Nat.eqb_spec i (p + k)) as [->|Hne].
    + rewrite orb_true_r. replace (p + k - p)%nat with k by lia. by rewrite Ec.
    + rewrite orb_false_r. by apply Vr.
  - exists r. split; [done|]. eapply bitwise_ext; [|exact Hr]. intros i Hi. cbn beta. rewrite in_range_S. destruct (Nat.eqb_spec i (p + k)) as [->|Hne].
    + replace (p + k - p)%nat with k by lia. by rewrite Ec, !andb_false_r.
    + by rewrite orb_false_r.
Qed.

Lemma mark_some_is n g m k p c b : mask_is n g m -> (p + k <= n)%nat ->
  exists r, mark_some k p c b m = Some r /\ mask_is n (fun i => if in_range p k i && c (i - p)%nat then negb (b =? 0) else g i) r.
Proof.
  intros Hm Hk. unfold mark_some. induction k as [|k IH].
  { exists m. split; [done|]. eapply mask_ext; [|exact Hm]. intros i Hi. cbn beta. by rewrite in_range_0. }
  destruct IH as (r & E & Hr); [lia|]. cbn [for_upto]. rewrite E. cbn [mbind option_bind]. destruct (c k) eqn:Ec.
  - destruct (mask_set_bit _ _ _ (p + k) b Hr) as (r' & -> & Hr'); [lia|].
    exists r'. split; [done|]. eapply mask_ext; [|exact Hr']. intros i Hi. cbn beta. rewrite in_range_S. destruct (Nat.eqb_spec i (p + k)) as [->|Hne].
    + rewrite orb_true_r. replace (p + k - p)%nat with k by lia. by rewrite Ec.
    + by rewrite orb_false_r.
  - exists r. split; [done|]. eapply mask_ext; [|exact Hr]. intros i Hi. cbn beta. rewrite in_range_S. destruct (Nat.eqb_spec i (p + k)) as [->|Hne].
    + replace (p + k - p)%nat with k by lia. by rewrite Ec, !andb_false_r.
    + by rewrite orb_false_r.
Qed.

(** The cases where every bit of the range is written. *)
Lemma set_all_is n g v f : bitwise n g v -> exists r, set_some n 0 (fun _ => true) f v = Some r /\ bitwise n f r.
Proof.
  intros Hv. destruct (set_some_is n g v n 0 (fun _ => true) f Hv) as (r & E & Hr); [lia|]. exists r. split; [done|].
  eapply bitwise_ext; [|exact Hr]. intros i Hi. cbn beta. by rewrite in_range_full, Nat.sub_0_r.
Qed.

Lemma part_mask_is n base wid : (base + wid <= n)%nat -> exists m, part_mask n base wid = Some m /\ mask_is n (in_range base wid) m.
Proof.
  intros H. destruct (mark_some_is n _ _ wid base (fun _ => true) 1 (mask_fill n false) H) as (m & E & Hm). exists m. split; [done|].
  eapply mask_ext; [|exact Hm]. intros i Hi. cbn beta. rewrite andb_true_r. by destruct (in_range base wid i).
Qed.

(** * The filter *)

Definition is_forced (f : option vvp_bit4_t) : bool := match f with Some _ => true | None => false end.

(** What is seen of a bit driven [d] and forced [f]. *)
Definition seen (d : nat -> vvp_bit4_t) (f : nat -> option vvp_bit4_t) (i : nat) : vvp_bit4_t := default (d i) (f i).

(** The mask and the force value of a filter stand for the bits forced. *)
Inductive forces (n : nat) (f : nat -> option vvp_bit4_t) (w : vvp_wire_vec4) : Prop :=
| forces_none : wid (force_mask_ w) = 0%nat -> (forall i, (i < n)%nat -> f i = None) -> wf4 (force4_ w) -> (size (force4_ w) = 0 \/ size (force4_ w) = n)%nat -> forces n f w
| forces_some : mask_is n (fun i => is_forced (f i)) (force_mask_ w) -> wf4 (force4_ w) -> size (force4_ w) = n ->
    (forall i b, (i < n)%nat -> f i = Some b -> value (force4_ w) i = b) -> forces n f w.

Definition wire_is (n : nat) (w : vvp_wire_vec4) (d : nat -> vvp_bit4_t) (f : nat -> option vvp_bit4_t) : Prop :=
  bitwise n d (wbits4_ w) /\ forces n f w.

Lemma zero_mask n c m : mask_is n c m -> vec2_is_zero m = true -> forall i, (i < n)%nat -> c i = false.
Proof.
  intros (Hw & <- & Hc) Hz i Hi. rewrite <- Hc by done. rewrite vec2_is_zero_spec in Hz by done. apply Z.eqb_eq in Hz.
  unfold mask_bit. rewrite vec2_value_spec, Hz, Z.bits_0 by done. done.
Qed.

Lemma forced_none f : is_forced f = false -> f = None. Proof. by destruct f. Qed.

(** One bit of the filter. *)
Lemma filtered_is n w d f i : (0 < n)%nat -> wire_is n w d f -> (i < n)%nat -> filtered_value_ w i = seen d f i.
Proof.
  intros H0 [(_ & _ & Hd) Hf] Hi. unfold filtered_value_, test_force_mask, seen. destruct Hf as [Hm HN _ _ | (Hw & Hs & Hc) _ _ HF].
  - rewrite Hm. cbn. rewrite HN by done. by apply Hd.
  - rewrite Hs, (proj2 (Nat.leb_gt _ _)), Hc by done. destruct (f i) eqn:E; cbn; [by apply HF|by apply Hd].
Qed.

(** No bit is forced, or the masks are there. *)
Lemma zero_test n w d f : (0 < n)%nat -> wire_is n w d f ->
  if test_force_mask_is_zero w then forall i, (i < n)%nat -> f i = None
  else mask_is n (fun i => is_forced (f i)) (force_mask_ w) /\ bitwise n (value (force4_ w)) (force4_ w) /\ (forall i b, (i < n)%nat -> f i = Some b -> value (force4_ w) i = b).
Proof.
  intros H0 [_ Hf]. unfold test_force_mask_is_zero. destruct Hf as [Hm HN _ _ | Hm Hw4 Hs4 HF]; [by rewrite Hm|].
  destruct Hm as (Hw & Hs & Hc). rewrite Hs, (proj2 (Nat.eqb_neq _ _)) by lia. cbn [orb].
  destruct (vec2_is_zero (force_mask_ w)) eqn:E.
  - intros i Hi. apply forced_none. by apply (zero_mask n (fun i => is_forced (f i)) (force_mask_ w)).
  - by split_and!.
Qed.

(** ** The vectors that pass *)

(** [d] with [m] in place of the bits from [base] on. *)
Definition patch (base k : nat) (m d : nat -> vvp_bit4_t) (i : nat) : vvp_bit4_t := if in_range base k i then m (i - base)%nat else d i.

Lemma filter_mask_is n w d f val m k base : (0 < n)%nat -> wire_is n w d f -> bitwise k m val -> (base + k <= n)%nat ->
  exists w' p, filter_mask_ val base w = Some (w', p) /\ wire_is n w' d f /\ wbits4_ w' = wbits4_ w /\ wneeds_init_ w' = wneeds_init_ w /\
    match p with
    | STOP => forall i, in_range base k i = true -> is_forced (f i) = true
    | PROP => forall i, (i < n)%nat -> f i = None
    | REPL rep => bitwise k (fun i => default (m i) (f (base + i)%nat)) rep
    end.
Proof.
  intros H0 Hw Hv Hk. pose proof Hv as (Wv & Sv & Vv). pose proof (zero_test n w d f H0 Hw) as HZ. unfold filter_mask_. destruct (test_force_mask_is_zero w).
  { exists w, PROP. by split_and!. }
  destruct HZ as (Hm & (W4 & S4 & _) & HF). pose proof Hm as (Wm & Sm & Cm). rewrite Sm, S4, Sv, Nat.eqb_refl, (proj2 (Nat.leb_le _ _)) by done. cbn [andb].
  destruct (set_some_is k m val k 0 (fun idx => mask_bit (force_mask_ w) (base + idx)) (fun idx => value (force4_ w) (base + idx)) Hv) as (r & -> & Hr); [lia|].
  cbn [mbind option_bind]. eexists _, _. split; [done|].
  assert (HW : wire_is n (with_mask w (force_mask_ w) false) d f) by (split; [apply Hw|by eapply forces_some]).
  split_and!; [done|done|done|]. destruct (force_propagate_ w || existsb _ _) eqn:EP.
  - eapply bitwise_ext; [|exact Hr]. intros i Hi. cbn beta. rewrite in_range_full, Nat.sub_0_r, Cm by lia. cbn [andb].
    destruct (f (base + i)%nat) eqn:E; cbn; [|done]. apply HF; [lia|done].
  - apply orb_false_iff in EP as [_ EP]. intros i Hi%in_range_inv. rewrite <- Cm by lia.
    destruct (mask_bit (force_mask_ w) i) eqn:E; [done|]. exfalso.
    assert (HE : existsb (fun idx => negb (mask_bit (force_mask_ w) (base + idx))) (seq 0 k) = true).
    { apply existsb_exists. exists (i - base)%nat. split; [apply in_seq; lia|]. replace (base + (i - base))%nat with i by lia. by rewrite E. }
    congruence.
Qed.

(** ** What the fan-out sees *)

Definition show1 (view : nat -> vvp_bit4_t) (o : output) : nat -> vvp_bit4_t :=
  match o with SendOut v => value v | SendOutPv v base wid _ => patch base wid (value v) view | _ => view end.
Definition show (view : nat -> vvp_bit4_t) (out : list output) : nat -> vvp_bit4_t := fold_left show1 out view.

Lemma show_app view o1 o2 : show view (o1 ++ o2) = show (show view o1) o2.
Proof. apply fold_left_app. Qed.

Definition agree (n : nat) (f g : nat -> vvp_bit4_t) : Prop := forall i, (i < n)%nat -> f i = g i.

(** [out] takes a fan-out that sees [d] and [f] to one that sees [d'] and [f']. *)
Definition shows (n : nat) (d : nat -> vvp_bit4_t) (f : nat -> option vvp_bit4_t) (d' : nat -> vvp_bit4_t) (f' : nat -> option vvp_bit4_t) (out : list output) : Prop :=
  forall view, agree n view (seen d f) -> agree n (show view out) (seen d' f').

Lemma wire_ext n w d d' f f' : (forall i, (i < n)%nat -> d i = d' i) -> (forall i, (i < n)%nat -> f i = f' i) -> wire_is n w d f -> wire_is n w d' f'.
Proof.
  intros Hd Hf [Hb Hs]. split; [by eapply bitwise_ext|]. destruct Hs as [Hm HN W4 S4 | Hm W4 S4 HF].
  - apply forces_none; try done. intros i Hi. rewrite <- Hf by done. by apply HN.
  - apply forces_some; try done; [|intros i b Hi; rewrite <- Hf by done; by apply HF].
    eapply mask_ext; [|exact Hm]. intros i Hi. cbn beta. by rewrite Hf.
Qed.

Lemma with_bits_is n w d f d' ini v : wire_is n w d f -> bitwise n d' v -> wire_is n (with_bits w ini v) d' f.
Proof. intros [_ Hf] Hv. split; [done|]. destruct Hf; [by apply forces_none|by apply forces_some]. Qed.

Lemma eeq_bitwise n f g u v : bitwise n f u -> bitwise n g v -> eeq u v = true <-> agree n f g.
Proof.
  intros (Wu & Su & Vu) (Wv & Sv & Vv). rewrite eeq_spec by done. unfold same_bits. rewrite Su, Sv. split.
  - intros [_ H] i Hi. by rewrite <- Vu, <- Vv, H.
  - intros H. split; [done|]. intros i Hi. by rewrite Vu, Vv, H.
Qed.

Lemma patch_full n m d : agree n (patch 0 n m d) m.
Proof. intros i Hi. unfold patch. by rewrite in_range_full, Nat.sub_0_r. Qed.

(** A part driven: what passes the filter. *)
Lemma filter_vec4_is n w d f val m k base : (0 < n)%nat -> wire_is n w d f -> bitwise k m val -> (0 < k)%nat -> (base + k <= n)%nat ->
  exists w' p, filter_vec4 val base n w = Some (w', p) /\ wire_is n w' (patch base k m d) f /\
    match p with
    | STOP => agree n (seen d f) (seen (patch base k m d) f) /\ (wneeds_init_ w = true -> forall i, in_range base k i = true -> is_forced (f i) = true)
    | PROP => forall i, (i < n)%nat -> f i = None
    | REPL rep => bitwise k (fun i => default (m i) (f (base + i)%nat)) rep
    end.
Proof.
  intros H0 Hw Hv Hk0 Hk. pose proof Hv as (Wv & Sv & Vv). pose proof Hw as [Hb _]. pose proof Hb as (Wb & Sb & Vb).
  assert (HF : forall ini v, bitwise n (patch base k m d) v -> exists w' p, filter_mask_ val base (with_bits w ini v) = Some (w', p) /\
    wire_is n w' (patch base k m d) f /\
    match p with STOP => agree n (seen d f) (seen (patch base k m d) f) /\ (wneeds_init_ w = true -> forall i, in_range base k i = true -> is_forced (f i) = true) | PROP => forall i, (i < n)%nat -> f i = None
    | REPL rep => bitwise k (fun i => default (m i) (f (base + i)%nat)) rep end).
  { intros ini v Hv'. destruct (filter_mask_is n _ _ f val m k base H0 (with_bits_is n w d f _ ini v Hw Hv') Hv Hk) as (w' & p & E & Hw' & _ & _ & Hp).
    exists w', p. split_and!; [done|done|]. destruct p; [|done|done]. split; [|by intros _]. intros i Hi. unfold seen, patch.
    destruct (in_range base k i) eqn:EI; [|done]. pose proof (Hp i EI) as HI. by destruct (f i). }
  assert (HS : forall ini v, bitwise n (patch base k m d) v -> agree n (patch base k m d) d -> wire_is n (with_bits w ini v) (patch base k m d) f /\ agree n (seen d f) (seen (patch base k m d) f)).
  { intros ini v Hv' HA. split; [by eapply with_bits_is|]. intros i Hi. unfold seen. by rewrite (HA i Hi). }
  unfold filter_vec4. rewrite Sb, (proj2 (Nat.eqb_neq n 0)), andb_false_r, Nat.eqb_refl by lia.
  destruct ((base =? 0)%nat && (size val =? n)%nat) eqn:EF.
  - apply andb_true_iff in EF as [-> %Nat.eqb_eq EF%Nat.eqb_eq]. assert (k = n) as -> by congruence.
    pose proof (bitwise_ext n m (patch 0 n m d) val (fun i Hi => eq_sym (patch_full n m d i Hi)) Hv) as Hv'.
    destruct (eeq (wbits4_ w) val) eqn:EE; cbn [andb]; [|by apply HF].
    destruct (wneeds_init_ w) eqn:EI; cbn [negb]; [by apply HF|].
    apply (eeq_bitwise n d m) in EE; [|done|done]. exists w, STOP. split; [done|].
    assert (HA : agree n (patch 0 n m d) d) by (intros i Hi; by rewrite (patch_full n m d i Hi), EE).
    split; [|split; [intros i Hi; unfold seen; by rewrite (HA i Hi)|congruence]]. eapply wire_ext; [|done|exact Hw]. intros i Hi. symmetry. by apply HA.
  - destruct (set_vec_spec (wbits4_ w) base val Wb Wv) as (v & rc & E & Hr & Hrc); [lia|lia|]. rewrite E. cbn [mbind option_bind].
    assert (Hv' : bitwise n (patch base k m d) v).
    { rewrite Sb, Sv in Hr. eapply bitwise_ext; [|exact Hr]. intros i Hi. cbn beta. unfold patch. fold (in_range base k i).
      destruct (in_range base k i) eqn:EI; [apply in_range_inv in EI; apply Vv; lia|by apply Vb]. }
    destruct rc; cbn [negb andb]; [by apply HF|]. destruct (wneeds_init_ w) eqn:EI; cbn [negb]; [by apply HF|].
    eexists _, STOP. split; [done|]. enough (HA : agree n (patch base k m d) d) by (destruct (HS (wneeds_init_ w) v Hv' HA); split_and!; (done || congruence)). destruct (eeq v (wbits4_ w)) eqn:EE; [by apply (eeq_bitwise n _ _ v (wbits4_ w) Hv' Hb)|].
    exfalso. assert (~ same_bits v (wbits4_ w)) by (rewrite <- eeq_spec by (apply Hv' || done); congruence). by apply Hrc in H.
Qed.

(** After [out] the fan-out sees [d'] and [f], if it saw [d] and [f], but perhaps where a vector
    that must be sent covers a bit without a force. *)
Definition passes (n base k : nat) (w : vvp_wire_vec4) (d : nat -> vvp_bit4_t) (f : nat -> option vvp_bit4_t) (d' : nat -> vvp_bit4_t) (out : list output) : Prop :=
  forall view, (forall i, (i < n)%nat -> view i = seen d f i \/ wneeds_init_ w = true /\ in_range base k i = true /\ f i = None) ->
  agree n (show view out) (seen d' f).

Lemma passes_shows n base k w d f d' out : passes n base k w d f d' out -> shows n d f d' f out.
Proof. intros H view HV. apply H. intros i Hi. left. by apply HV. Qed.

Lemma send_pv_is n w d f val m k base : (0 < n)%nat -> wire_is n w d f -> bitwise k m val -> (0 < k)%nat -> (base + k <= n)%nat ->
  exists w' out, send_vec4_pv val base k n w = Some (w', out) /\ wire_is n w' (patch base k m d) f /\ passes n base k w d f (patch base k m d) out.
Proof.
  intros H0 Hw Hv Hk0 Hk. pose proof Hv as (Wv & Sv & Vv). unfold send_vec4_pv. rewrite Sv, Nat.eqb_refl.
  destruct (filter_vec4_is n w d f val m k base H0 Hw Hv Hk0 Hk) as (w' & p & -> & Hw' & Hp). cbn [mbind option_bind].
  eexists _, _. split; [done|]. split; [done|]. intros view HV i Hi. destruct p as [| |rep]; cbn [show fold_left show1].
  - destruct Hp as [Hp HI]. destruct (HV i Hi) as [-> | (E & ER & EN)]; [by apply Hp|]. specialize (HI E i ER). by rewrite EN in HI.
  - unfold patch at 1. unfold seen. rewrite (Hp i Hi). cbn. unfold patch. destruct (in_range base k i) eqn:EI; [apply in_range_inv in EI; apply Vv; lia|].
    destruct (HV i Hi) as [-> | (_ & ? & _)]; [|congruence]. unfold seen. by rewrite (Hp i Hi).
  - destruct Hp as (_ & _ & Hp). unfold patch at 1. destruct (in_range base k i) eqn:EI.
    + pose proof EI as EI'. apply in_range_inv in EI. rewrite Hp by lia. unfold seen, patch. rewrite EI'. by replace (base + (i - base))%nat with i by lia.
    + destruct (HV i Hi) as [-> | (_ & ? & _)]; [|congruence]. unfold seen, patch. by rewrite EI.
Qed.

(** Nothing is sent, or all that is to be seen. *)
Definition whole (n : nat) (d : nat -> vvp_bit4_t) (f : nat -> option vvp_bit4_t) (out : list output) : Prop :=
  out = [] \/ forall view, agree n (show view out) (seen d f).

Lemma send_is n w d f val m : (0 < n)%nat -> wire_is n w d f -> bitwise n m val ->
  exists w' out, send_vec4 val w = Some (w', out) /\ wire_is n w' m f /\ passes n 0 n w d f m out /\ whole n m f out.
Proof.
  intros H0 Hw Hv. pose proof Hv as (Wv & Sv & Vv). unfold send_vec4. rewrite Sv.
  destruct (filter_vec4_is n w d f val m n 0 H0 Hw Hv H0 (le_n n)) as (w' & p & -> & Hw' & Hp). cbn [mbind option_bind].
  pose proof (patch_full n m d) as HP. eexists _, _. split; [done|]. split; [by eapply wire_ext; [| |exact Hw']|].
  split; [intros view HV i Hi; destruct p as [| |rep]; cbn [show fold_left show1]|].
  - destruct Hp as [Hp HI]. destruct (HV i Hi) as [-> | (E & ER & EN)]; [|specialize (HI E i ER); by rewrite EN in HI]. rewrite (Hp i Hi). unfold seen. by rewrite HP.
  - unfold seen. by rewrite (Hp i Hi), Vv.
  - destruct Hp as (_ & _ & Hp). by rewrite Hp.
  - destruct p as [| |rep]; [by left|right; intros view i Hi; cbn..].
    + unfold seen. by rewrite (Hp i Hi), Vv.
    + destruct Hp as (_ & _ & Hp). by rewrite Hp.
Qed.

(** ** Forcing and releasing *)

Lemma force_mask_is n w d f c mask : (0 < n)%nat -> wire_is n w d f -> mask_is n c mask ->
  exists w', fil_force_mask mask w = Some w' /\ mask_is n (fun i => is_forced (f i) || c i) (force_mask_ w') /\
    force4_ w' = force4_ w /\ wbits4_ w' = wbits4_ w /\ wneeds_init_ w' = wneeds_init_ w.
Proof.
  intros H0 [_ Hf] Hm. pose proof Hm as (Wm & Sm & Cm). unfold fil_force_mask. set (m0 := if (wid (force_mask_ w) =? 0)%nat then vec2_fill false (wid mask) else force_mask_ w).
  assert (Hm0 : mask_is n (fun i => is_forced (f i)) m0).
  { unfold m0. destruct Hf as [Hz HN _ _ | Hz _ _ _].
    - rewrite Hz, Sm. cbn. eapply mask_ext; [|apply mask_fill]. intros i Hi. cbn beta. by rewrite HN.
    - destruct Hz as (Wz & Sz & Cz). rewrite Sz, (proj2 (Nat.eqb_neq _ _)) by lia. by split_and!. }
  pose proof Hm0 as (_ & S0 & _). rewrite S0, Sm, Nat.eqb_refl.
  destruct (mark_some_is n _ m0 n 0 (mask_bit mask) 1 Hm0) as (m' & -> & Hm'); [lia|]. cbn [mbind option_bind].
  eexists. split; [done|]. split_and!; [|done|done|done]. eapply mask_ext; [|exact Hm']. intros i Hi. cbn beta.
  rewrite in_range_full, Nat.sub_0_r, Cm by done. cbn [andb]. destruct (c i); [by rewrite orb_true_r|by rewrite orb_false_r].
Qed.

Definition force_of (c : nat -> bool) (m : nat -> vvp_bit4_t) (f : nat -> option vvp_bit4_t) (i : nat) : option vvp_bit4_t := if c i then Some (m i) else f i.
Definition release_of (c : nat -> bool) (f : nat -> option vvp_bit4_t) (i : nat) : option vvp_bit4_t := if c i then None else f i.

Lemma net_force_is n w d f val m c mask : (0 < n)%nat -> wire_is n w d f -> bitwise n m val -> mask_is n c mask ->
  (forall i, (i < n)%nat -> c i = false -> m i = seen d f i) ->
  exists w' out, net_force_vec4 val mask w = Some (w', out) /\ wire_is n w' d (force_of c m f) /\ shows n d f d (force_of c m f) out.
Proof.
  intros H0 Hw Hv Hm Hseen. pose proof Hv as (Wv & Sv & Vv). pose proof Hm as (_ & Sm & Cm).
  destruct (force_mask_is n w d f c mask H0 Hw Hm) as (w1 & E1 & Hm1 & F1 & B1 & I1). unfold net_force_vec4, force_fil_vec4. rewrite E1. cbn [mbind option_bind]. rewrite F1.
  assert (HF : exists fv, (if (size (force4_ w) =? 0)%nat then Some val else set_some (wid mask) 0 (mask_bit mask) (value val) (force4_ w)) = Some fv /\
    wf4 fv /\ size fv = n /\ forall i b, (i < n)%nat -> force_of c m f i = Some b -> value fv i = b).
  { destruct (Nat.eqb_spec (size (force4_ w)) 0) as [Ez|Ez].
    - exists val. split_and!; try done. intros i b Hi. unfold force_of. rewrite Vv by done. destruct (c i); [by intros [=]|].
      destruct Hw as [_ [_ HN _ _ | _ _ S4 _]]; [by rewrite HN|lia].
    - assert (H4 : bitwise n (value (force4_ w)) (force4_ w)) by (destruct Hw as [_ [_ _ W4 [S4|S4] | _ W4 S4 _]]; by split_and! || lia).
      rewrite Sm. destruct (set_some_is n _ (force4_ w) n 0 (mask_bit mask) (value val) H4) as (fv & -> & Wf & Sf & Vf); [lia|].
      exists fv. split_and!; try done. intros i b Hi. rewrite Vf, in_range_full, Nat.sub_0_r, Cm by done. cbn [andb]. unfold force_of.
      destruct (c i); [intros [=]; by rewrite Vv|]. destruct Hw as [_ [_ HN _ _ | _ _ _ HF]]; [by rewrite HN|by apply HF]. }
  destruct HF as (fv & -> & Wf & Sf & Vf). cbn [mbind option_bind]. eexists _, _. split; [done|]. split.
  - split; [cbn; rewrite B1; apply Hw|]. apply forces_some; try done. eapply mask_ext; [|exact Hm1]. intros i Hi. cbn beta. unfold force_of.
    destruct (c i); [by rewrite orb_true_r|by rewrite orb_false_r].
  - intros view HV i Hi. cbn [show fold_left show1]. rewrite Vv by done. unfold seen, force_of. destruct (c i) eqn:Ec; [done|]. by apply Hseen.
Qed.

Lemma release_mask_is n w d f c mask : (0 < n)%nat -> wire_is n w d f -> mask_is n c mask ->
  exists w', fil_release_mask mask w = Some w' /\ wire_is n w' d (release_of c f) /\ wbits4_ w' = wbits4_ w /\ force4_ w' = force4_ w /\ wneeds_init_ w' = wneeds_init_ w.
Proof.
  intros H0 [Hb Hf] Hm. pose proof Hm as (Wm & Sm & Cm). unfold fil_release_mask. destruct Hf as [Hz HN W4 S4 | Hz W4 S4 HF].
  - rewrite Hz. cbn. exists w. split_and!; try done. split; [done|]. apply forces_none; try done. intros i Hi. unfold release_of. rewrite HN by done. by destruct (c i).
  - pose proof Hz as (Wz & Sz & Cz). rewrite Sz, Sm, Nat.eqb_refl, (proj2 (Nat.eqb_neq _ _)) by lia.
    destruct (mark_some_is n _ _ n 0 (mask_bit mask) 0 Hz) as (m' & -> & Hm'); [lia|]. cbn [mbind option_bind].
    assert (HM : mask_is n (fun i => is_forced (release_of c f i)) m').
    { eapply mask_ext; [|exact Hm']. intros i Hi. cbn beta. rewrite in_range_full, Nat.sub_0_r, Cm by done. cbn [andb]. unfold release_of. by destruct (c i). }
    eexists. split; [done|]. split_and!; try done. split; [done|]. destruct (vec2_is_zero m') eqn:EZ.
    + apply forces_none; try done; [|by right]. intros i Hi. apply forced_none. by apply (zero_mask n (fun i => is_forced (release_of c f i)) m').
    + apply forces_some; try done. intros i b Hi. unfold release_of. destruct (c i); [done|]. by apply HF.
Qed.
