(* ===== verification/SignalProps.v ===== *)
(** Nets under drivers, forces and releases: every sequence of operations against a reading bit
    by bit of what is driven and forced, and what the fan-out sees of it. *)
From S2P Require Import Prelude MachineWord VvpBit VvpVector4 VvpSlice WordArith VvpArith VvpVector2 BitList VThreadSpec VThreadParts VThreadIndex Signal SignalSpec.

(** * Nets *)

Lemma shows_more n d f d' f' o1 o2 : shows n d f d' f' o1 -> Forall (fun o => forall view, show1 view o = view) o2 -> shows n d f d' f' (o1 ++ o2).
Proof.
  intros H H2 view HV. rewrite show_app. assert (E : forall v, show v o2 = v).
  { induction H2 as [|o o2 Ho _ IH]; intros v; [done|]. cbn [show fold_left]. rewrite Ho. apply IH. }
  rewrite E. by apply H.
Qed.

Lemma shows_before n d f d' f' o1 o2 : shows n d f d' f' o2 -> Forall (fun o => forall view, show1 view o = view) o1 -> shows n d f d' f' (o1 ++ o2).
Proof.
  intros H H1 view HV. rewrite show_app. assert (E : forall v, show v o1 = v).
  { induction H1 as [|o o1 Ho _ IH]; intros v; [done|]. cbn [show fold_left]. rewrite Ho. apply IH. }
  rewrite E. by apply H.
Qed.

Lemma quiet_callbacks : Forall (fun o => forall view, show1 view o = view) [RunCallbacks]. Proof. by constructor. Qed.
Lemma quiet_unlinks l : Forall (fun o => forall view, show1 view o = view) (unlinks l). Proof. destruct l; by repeat constructor. Qed.

(** A net that goes back to its drivers at the bits of [c]. *)
Lemma release_passes n d f c w1 base k d' out : (forall i, (i < n)%nat -> c i = in_range base k i) ->
  (wneeds_init_ w1 = true \/ forall i b, (i < n)%nat -> c i = true -> f i = Some b -> d i = b) ->
  passes n base k w1 d (release_of c f) d' out -> shows n d f d' (release_of c f) out.
Proof.
  intros Hc Hn H view HV. apply H. intros i Hi. rewrite HV by done. unfold seen, release_of. rewrite Hc by done.
  destruct (in_range base k i) eqn:EI; [|by left]. destruct Hn as [Hn|Hn]; [by right|]. left.
  destruct (f i) as [b|] eqn:E; [|done]. cbn. symmetry. apply Hn; [done|by rewrite Hc|done].
Qed.

Lemma forced_same n f w d base k u v : forces n f w -> (base + k <= n)%nat -> bitwise k (fun i => value (force4_ w) (base + i)) u -> bitwise k (fun i => d (base + i)%nat) v ->
  eeq u v = true -> forall i b, (i < n)%nat -> in_range base k i = true -> f i = Some b -> d i = b.
Proof.
  intros Hf Hk Hu Hv E i b Hi HI%in_range_inv Ef. apply (eeq_bitwise k _ _ u v Hu Hv) in E. specialize (E (i - base)%nat ltac:(lia)). cbn beta in E.
  replace (base + (i - base))%nat with i in E by lia. rewrite <- E. destruct Hf as [_ HN _ _ | _ _ _ HF]; [by rewrite HN in Ef|by apply HF].
Qed.

Lemma release_net_is n w d f : (0 < n)%nat -> wire_is n w d f ->
  exists w' out, release_net w = Some (w', out) /\ wire_is n w' d (release_of (fun _ => true) f) /\ shows n d f d (release_of (fun _ => true) f) out.
Proof.
  intros H0 Hw. pose proof Hw as [Hb Hf]. pose proof Hb as (Wb & Sb & Vb). unfold release_net. rewrite Sb.
  destruct (release_mask_is n w d f _ _ H0 Hw (mask_fill n true)) as (w1 & -> & Hw1 & B1 & F1 & I1). cbn [mbind option_bind]. rewrite B1, F1.
  destruct (send_is n (with_bits w1 (negb (eeq (force4_ w) (wbits4_ w))) (wbits4_ w)) d (release_of (fun _ => true) f) (wbits4_ w) d H0) as (w2 & out & -> & Hw2 & Hout & _); [by eapply with_bits_is|done|].
  cbn [mbind option_bind]. eexists _, _. split; [done|]. split; [done|]. apply shows_more; [|apply quiet_callbacks].
  eapply release_passes; [|..|exact Hout]; [intros i Hi; by rewrite in_range_full|]. cbn [wneeds_init_ with_bits].
  destruct (eeq (force4_ w) (wbits4_ w)) eqn:E; [right|by left]. intros i b Hi _ Ef.
  destruct Hf as [_ HN _ _ | _ W4 S4 HF]; [by rewrite HN in Ef|].
  apply (eeq_bitwise n (value (force4_ w)) d) in E; [|by split_and!|done]. rewrite <- E by done. by apply HF.
Qed.

Lemma release_net_pv_is n w d f base k : (0 < n)%nat -> wire_is n w d f -> (0 < k)%nat -> (base + k <= n)%nat ->
  exists w' out, release_net_pv base k w = Some (w', out) /\ wire_is n w' d (release_of (in_range base k) f) /\ shows n d f d (release_of (in_range base k) f) out.
Proof.
  intros H0 Hw Hk0 Hk. pose proof Hw as [Hb Hf]. pose proof Hb as (Wb & Sb & Vb). unfold release_net_pv. rewrite Sb, (proj2 (Nat.leb_le _ _)) by done.
  destruct (part_mask_is n base k Hk) as (mask & -> & Hm). cbn [mbind option_bind].
  destruct (release_mask_is n w d f _ _ H0 Hw Hm) as (w1 & -> & Hw1 & B1 & F1 & I1). cbn [mbind option_bind]. rewrite B1, F1.
  assert (W4 : wf4 (force4_ w)) by (by destruct Hf).
  destruct (subvalue_spec (force4_ w) base k W4) as (fv & -> & Hfv). destruct (subvalue_spec (wbits4_ w) base k Wb) as (bv & -> & Hbv). cbn [mbind option_bind].
  assert (Hbv' : bitwise k (fun i => d (base + i)%nat) bv) by (eapply bitwise_ext; [|exact Hbv]; intros i Hi; apply Vb; lia).
  rewrite Sb. destruct (send_pv_is n (with_bits w1 (negb (eeq fv bv)) (wbits4_ w)) d (release_of (in_range base k) f) bv _ k base H0 (with_bits_is _ _ _ _ _ _ _ Hw1 Hb) Hbv' Hk0 Hk) as (w2 & out & -> & Hw2 & Hout).
  cbn [mbind option_bind]. assert (HP : forall i, (i < n)%nat -> patch base k (fun i => d (base + i)%nat) d i = d i).
  { intros i Hi. unfold patch. destruct (in_range base k i) eqn:EI; [|done]. apply in_range_inv in EI. by replace (base + (i - base))%nat with i by lia. }
  eexists _, _. split; [done|]. split; [by eapply wire_ext; [exact HP|done|exact Hw2]|]. apply shows_more; [|apply quiet_callbacks].
  assert (HS : shows n d f (patch base k (fun i => d (base + i)%nat) d) (release_of (in_range base k) f) out).
  { eapply release_passes; [done|..|exact Hout]. cbn [wneeds_init_ with_bits]. destruct (eeq fv bv) eqn:E; [right|by left].
    intros i b Hi HI Ef. by eapply (forced_same n f w d base k fv bv). }
  intros view HV i Hi. rewrite (HS view HV i Hi). unfold seen. by rewrite HP.
Qed.

Lemma coerce_is n v : wf4 v -> (n <= size v)%nat -> exists r, coerce_to_width v n = Some r /\ bitwise n (value v) r.
Proof.
  intros Hv Hn. unfold coerce_to_width. destruct (Nat.eqb_spec (size v) n) as [<-|Hne]; [exists v; by split_and!|].
  rewrite (proj2 (Nat.ltb_lt _ _)) by lia. apply (set_all_is n (fun _ => BIT4_X)). destruct (vec4_fill_spec n BIT4_X) as (W1 & S1 & V1). by split_and!.
Qed.

(** The forces. *)
Lemma of_force_is n w d f v : (0 < n)%nat -> wire_is n w d f -> wf4 v -> (n <= size v)%nat ->
  exists w' out, of_FORCE_VEC4 v w = Some (w', out) /\ wire_is n w' d (force_of (fun _ => true) (value v) f) /\ shows n d f d (force_of (fun _ => true) (value v) f) out.
Proof.
  intros H0 Hw Hv Hs. pose proof Hw as [(_ & Sb & _) _]. unfold of_FORCE_VEC4. rewrite Sb.
  destruct (coerce_is n v Hv Hs) as (r & Er & Hr). unfold coerce_to_width in Er.
  assert (E : (if (size v =? n)%nat then Some v else coerce_to_width v n) = Some r) by (unfold coerce_to_width; by destruct (size v =? n)%nat). rewrite E. cbn [mbind option_bind].
  by apply (net_force_is n w d f r (value v) _ _ H0 Hw Hr (mask_fill n true)).
Qed.

Lemma wire_value_is n w d f : (0 < n)%nat -> wire_is n w d f -> exists v, wire_vec4_value w = Some v /\ bitwise n (seen d f) v.
Proof.
  intros H0 Hw. pose proof Hw as [Hb _]. pose proof Hb as (_ & Sb & Vb). unfold wire_vec4_value. pose proof (zero_test n w d f H0 Hw) as HZ. destruct (test_force_mask_is_zero w).
  - exists (wbits4_ w). split; [done|]. eapply bitwise_ext; [|exact Hb]. intros i Hi. unfold seen. by rewrite HZ.
  - rewrite Sb. destruct (set_all_is n d (wbits4_ w) (filtered_value_ w) Hb) as (r & E & Hr). exists r. split; [done|].
    eapply bitwise_ext; [|exact Hr]. intros i Hi. by apply (filtered_is n).
Qed.

Lemma of_force_off_is n w d f base flag v : (0 < n)%nat -> wire_is n w d f -> wf4 v -> (0 < size v)%nat -> bit4_eqb flag BIT4_1 = false ->
  (base + size v <= n)%nat ->
  let c := in_range base (size v) in let m := fun i => value v (i - base) in
  exists w' out, of_FORCE_VEC4_OFF (Z.of_nat base) flag v w = Some (w', out) /\ wire_is n w' d (force_of c m f) /\ shows n d f d (force_of c m f) out.
Proof.
  intros H0 Hw Hv Hs Hfl Hk c m. pose proof Hw as [(_ & Sb & _) _]. unfold of_FORCE_VEC4_OFF. rewrite Hfl, Sb.
  rewrite (proj2 (Z.leb_gt _ _)), (proj2 (Z.ltb_ge (Z.of_nat base) _)), (proj2 (Z.ltb_ge (Z.of_nat n) _)), (proj2 (Z.ltb_ge (Z.of_nat base) 0)) by lia. cbn [orb andb].
  rewrite !Nat2Z.id. destruct (part_mask_is n base (size v) Hk) as (mask & -> & Hm). cbn [mbind option_bind].
  destruct (wire_value_is n w d f H0 Hw) as (tmp & -> & Wt & St & Vt). cbn [mbind option_bind].
  destruct (set_vec_spec tmp base v Wt Hv Hs) as (r & rc & -> & Hr & _); [lia|]. cbn [mbind option_bind]. rewrite St in Hr.
  destruct (net_force_is n w d f r (patch base (size v) (value v) (seen d f)) c mask H0 Hw) as (w' & out & E & Hw' & Hout).
  - eapply bitwise_ext; [|exact Hr]. intros i Hi. cbn beta. unfold patch. fold (in_range base (size v) i). destruct (in_range _ _ i); [done|by apply Vt].
  - done.
  - intros i Hi Hc. unfold patch, c in *. by rewrite Hc.
  - exists w', out. split; [done|]. assert (HE : forall i, (i < n)%nat -> force_of c (patch base (size v) (value v) (seen d f)) f i = force_of c m f i).
    { intros i Hi. unfold force_of, patch, c, m. by destruct (in_range base (size v) i). }
    split; [by eapply wire_ext; [done|exact HE|exact Hw']|]. intros view HV i Hi. rewrite (Hout view HV i Hi). unfold seen. by rewrite HE.
Qed.

(** The operations on a net: its drivers, its forces and its releases. *)
Inductive net_event :=
| Drive (val : vvp_vector4_t)
| DrivePart (val : vvp_vector4_t) (base : nat)
| NetForce (value : vvp_vector4_t)
| NetForceOff (base : nat) (value : vvp_vector4_t)
| NetRelease (base width : nat).

Definition net_step (n : nat) (e : net_event) (x : vvp_wire_vec4 * option nat) : option (vvp_wire_vec4 * option nat * list output) :=
  let '(w, src) := x in
  match e with
  | Drive val => '(w, out) ← send_vec4 val w; Some (w, src, out)
  | DrivePart val base => '(w, out) ← send_vec4_pv val base (size val) n w; Some (w, src, out)
  | NetForce v => '(w, out) ← of_FORCE_VEC4 v w; Some (w, src, out)
  | NetForceOff base v => '(w, out) ← of_FORCE_VEC4_OFF (Z.of_nat base) BIT4_0 v w; Some (w, src, out)
  | NetRelease base width => of_RELEASE_NET base width x
  end.

Fixpoint net_run (n : nat) (es : list net_event) (x : vvp_wire_vec4 * option nat) : option (vvp_wire_vec4 * option nat * list output) :=
  match es with
  | [] => Some (x, [])
  | e :: es => '(x, o1) ← net_step n e x; '(x, o2) ← net_run n es x; Some (x, o1 ++ o2)
  end.

(** The bits driven and forced after an operation. *)
Definition net_spec (n : nat) (e : net_event) (s : (nat -> vvp_bit4_t) * (nat -> option vvp_bit4_t)) : (nat -> vvp_bit4_t) * (nat -> option vvp_bit4_t) :=
  let '(d, f) := s in
  match e with
  | Drive val => (value val, f)
  | DrivePart val base => (patch base (size val) (value val) d, f)
  | NetForce v => (d, force_of (fun _ => true) (value v) f)
  | NetForceOff base v => (d, force_of (in_range base (size v)) (fun i => value v (i - base)) f)
  | NetRelease base width => (d, release_of (in_range base width) f)
  end.

Definition net_valid (n : nat) (e : net_event) : Prop :=
  match e with
  | Drive val => wf4 val /\ size val = n
  | DrivePart val base | NetForceOff base val => wf4 val /\ (0 < size val)%nat /\ (base + size val <= n)%nat
  | NetForce v => wf4 v /\ (n <= size v)%nat
  | NetRelease base width => (0 < width)%nat
  end.

(** A release of more bits than there are. *)
Lemma in_range_cut n base k i : (i < n)%nat -> (base < n)%nat -> in_range base (if (n <? base + k)%nat then n - base else k)%nat i = in_range base k i.
Proof.
  intros Hi Hb. unfold in_range. destruct (Nat.ltb_spec n (base + k)); [|done]. destruct (Nat.leb_spec base i); cbn [andb]; [|done].
  by rewrite (proj2 (Nat.ltb_lt i (base + (n - base)))), (proj2 (Nat.ltb_lt i (base + k))) by lia.
Qed.

Lemma net_step_is n e w src d f : (0 < n)%nat -> net_valid n e -> wire_is n w d f ->
  let '(d', f') := net_spec n e (d, f) in
  exists w' src' out, net_step n e (w, src) = Some (w', src', out) /\ wire_is n w' d' f' /\ shows n d f d' f' out.
Proof.
  intros H0 Hv Hw. destruct e as [val|val base|v|base v|base width]; cbn [net_spec net_step net_valid] in *.
  - destruct Hv as [Wv Sv]. destruct (send_is n w d f val (value val) H0 Hw) as (w' & out & -> & Hw' & Hout & _); [by split_and!|]. eexists _, _, _. split; [done|]. split; [done|by eapply passes_shows].
  - destruct Hv as (Wv & Sv & Kv). destruct (send_pv_is n w d f val (value val) (size val) base H0 Hw) as (w' & out & -> & Hw' & Hout); [by split_and!|done|done|]. eexists _, _, _. split; [done|]. split; [done|by eapply passes_shows].
  - destruct Hv as [Wv Sv]. destruct (of_force_is n w d f v H0 Hw Wv Sv) as (w' & out & -> & Hw' & Hout). by eexists _, _, _.
  - destruct Hv as (Wv & Sv & Kv). destruct (of_force_off_is n w d f base BIT4_0 v H0 Hw Wv Sv eq_refl Kv) as (w' & out & -> & Hw' & Hout). by eexists _, _, _.
  - unfold of_RELEASE_NET, release_range. pose proof Hw as [(_ & Sb & _) _]. rewrite Sb. destruct (Nat.leb_spec n base) as [Hb|Hb].
    { exists w, src, []. assert (HE : forall i, (i < n)%nat -> f i = release_of (in_range base width) f i).
      { intros i Hi. unfold release_of. destruct (in_range base width i) eqn:E; [|done]. apply in_range_inv in E. lia. }
      split; [done|]. split; [by eapply wire_ext; [done|exact HE|exact Hw]|]. intros view HV i Hi. cbn. rewrite HV by done. unfold seen. by rewrite <- HE. }
    set (k := if (n <? base + width)%nat then (n - base)%nat else width).
    assert (HE : forall i, (i < n)%nat -> release_of (in_range base k) f i = release_of (in_range base width) f i) by (intros i Hi; unfold release_of, k; by rewrite in_range_cut).
    assert (HK : (0 < k /\ base + k <= n)%nat) by (unfold k; case_cmp; lia).
    assert (HX : exists w' out, (if (base =? 0)%nat && (k =? n)%nat then release_net w else release_net_pv base k w) = Some (w', out) /\
      wire_is n w' d (release_of (in_range base k) f) /\ shows n d f d (release_of (in_range base k) f) out).
    { destruct ((base =? 0)%nat && (k =? n)%nat) eqn:EF; [|apply release_net_pv_is; tauto].
      apply andb_true_iff in EF as [->%Nat.eqb_eq EK%Nat.eqb_eq]. rewrite EK.
      destruct (release_net_is n w d f H0 Hw) as (w' & out & E & Hw' & Hout). exists w', out. split; [done|].
      assert (HE0 : forall i, (i < n)%nat -> release_of (fun _ => true) f i = release_of (in_range 0 n) f i) by (intros i Hi; unfold release_of; by rewrite in_range_full).
      split; [by eapply wire_ext; [done|exact HE0|exact Hw']|]. intros view HV i Hi. rewrite (Hout view HV i Hi). unfold seen. by rewrite HE0. }
    destruct HX as (w' & out & -> & Hw' & Hout). cbn [mbind option_bind]. eexists _, _, _. split; [done|]. split; [by eapply wire_ext; [done|exact HE|exact Hw']|].
    apply shows_before; [|apply quiet_unlinks]. intros view HV i Hi. rewrite (Hout view HV i Hi). unfold seen. by rewrite HE.
Qed.

Lemma wire_new_is n init : wire_is n (wire_new n init) (fun _ => init) (fun _ => None).
Proof.
  destruct (vec4_fill_spec n init) as (W1 & S1 & V1). destruct (vec4_fill_spec 0 BIT4_X) as (W0 & S0 & _).
  split; [by split_and!|]. apply forces_none; try done. by left.
Qed.

Lemma net_run_is n es : (0 < n)%nat -> Forall (net_valid n) es -> forall w src d f, wire_is n w d f ->
  let '(d', f') := fold_left (fun s e => net_spec n e s) es (d, f) in
  exists w' src' out, net_run n es (w, src) = Some (w', src', out) /\ wire_is n w' d' f' /\ shows n d f d' f' out.
Proof.
  intros H0 H. induction H as [|e es He H IH]; intros w src d f Hw; cbn [fold_left net_run]; [exists w, src, []; split_and!; try done; by intros view HV|].
  pose proof (net_step_is n e w src d f H0 He Hw) as H1. destruct (net_spec n e (d, f)) as [d1 f1]. destruct H1 as (w1 & src1 & o1 & -> & Hw1 & Ho1).
  cbn [mbind option_bind]. specialize (IH w1 src1 d1 f1 Hw1). destruct (fold_left _ es (d1, f1)) as [d2 f2]. destruct IH as (w2 & src2 & o2 & -> & Hw2 & Ho2).
  cbn [mbind option_bind]. eexists _, _, _. split; [done|]. split; [done|]. intros view HV. rewrite show_app. by apply Ho2, Ho1.
Qed.


(** C13: Any sequence of drives, part drives, forces, part forces and releases on a new net,
    within its width, runs without a failed assertion.  It ends with the bits driven and forced
    that the operations say, one after the other, and a fan-out that applies each vector sent
    to it sees the forced bits where there is a force and the driven bits elsewhere. *)
Theorem net_trace n init es : (0 < n)%nat -> Forall (net_valid n) es ->
  let '(d, f) := fold_left (fun s e => net_spec n e s) es (fun _ => init, fun _ => None) in
  exists w src out, net_run n es (wire_new n init, None) = Some (w, src, out) /\ wire_is n w d f /\
    forall i, (i < n)%nat -> filtered_value_ w i = seen d f i /\ show (fun _ => init) out i = seen d f i.
Proof.
  intros H0 H. pose proof (net_run_is n es H0 H (wire_new n init) None (fun _ => init) (fun _ => None) (wire_new_is n init)) as HR.
  destruct (fold_left _ _ _) as [d f]. destruct HR as (w & src & out & E & Hw & Hout). exists w, src, out. split; [done|]. split; [done|].
  intros i Hi. split; [by apply (filtered_is n)|]. by apply Hout.
Qed.

Definition demo_net : list net_event :=
  [Drive (vec4_fill 4 BIT4_0); NetForceOff 1 (vec4_fill 2 BIT4_1); DrivePart (vec4_fill 3 BIT4_Z) 1; NetRelease 2 9].

Lemma demo_net_valid : Forall (net_valid 4) demo_net.
Proof.
  assert (H : forall k b, wf4 (vec4_fill k b) /\ size (vec4_fill k b) = k) by (intros k b; destruct (vec4_fill_spec k b) as (? & ? & _); done).
  unfold demo_net. repeat (apply List.Forall_cons || apply List.Forall_nil); cbn [net_valid]; rewrite ?(proj2 (H _ _)); repeat split; (apply H || lia).
Qed.

Lemma net_trace_witness :
  (0 < 4)%nat /\ Forall (net_valid 4) demo_net /\
  let '(d, f) := fold_left (fun s e => net_spec 4 e s) demo_net (fun _ => BIT4_X, fun _ => None) in
  exists w src out, net_run 4 demo_net (wire_new 4 BIT4_X, None) = Some (w, src, out) /\ wire_is 4 w d f /\
    forall i, (i < 4)%nat -> filtered_value_ w i = seen d f i /\ show (fun _ => BIT4_X) out i = seen d f i.
Proof. split; [lia|]. split; [apply demo_net_valid|]. apply (net_trace 4 BIT4_X demo_net); [lia|apply demo_net_valid]. Defined.

Example demo_net_seen :
  (('(_, _, out) ← net_run 4 demo_net (wire_new 4 BIT4_X, None); Some (map (show (fun _ => BIT4_X) out) (seq 0 4))) = Some [BIT4_0; BIT4_1; BIT4_Z; BIT4_Z]).
Proof. vm_compute. reflexivity. Qed.

(** ** Where a force fails *)

(** A part that starts below the vector: [mask.set_bit] of a negative index. *)
Lemma force_off_below base flag v w : bit4_eqb flag BIT4_1 = false -> - Z.of_nat (size (wbits4_ w)) <= base < 0 -> (0 < size v)%nat ->
  of_FORCE_VEC4_OFF base flag v w = None.
Proof.
  intros Hf Hb Hs. unfold of_FORCE_VEC4_OFF. rewrite Hf, (proj2 (Z.leb_gt _ _)), (proj2 (Z.ltb_ge _ _)), (proj2 (Z.ltb_lt base 0)) by lia. cbn [orb andb].
  destruct (Z.ltb_spec (Z.of_nat (size (wbits4_ w))) (base + Z.of_nat (size v))); by rewrite (proj2 (Z.ltb_lt 0 _)) by lia.
Qed.

(** A part that ends above it: the mask is cut, the value is not, and [set_vec] fails. *)
Lemma force_off_above n w d f base flag v : (0 < n)%nat -> wire_is n w d f -> bit4_eqb flag BIT4_1 = false -> (base < n < base + size v)%nat ->
  of_FORCE_VEC4_OFF (Z.of_nat base) flag v w = None.
Proof.
  intros H0 Hw Hf Hb. pose proof Hw as [(_ & Sb & _) _]. unfold of_FORCE_VEC4_OFF. rewrite Hf, Sb.
  rewrite (proj2 (Z.leb_gt _ _)), (proj2 (Z.ltb_ge (Z.of_nat base) _)), (proj2 (Z.ltb_lt (Z.of_nat n) _)), (proj2 (Z.ltb_ge (Z.of_nat base) 0)) by lia. cbn [orb andb].
  rewrite Nat2Z.id. destruct (part_mask_is n base (Z.to_nat (Z.of_nat n - Z.of_nat base))) as (mask & -> & _); [lia|]. cbn [mbind option_bind].
  destruct (wire_value_is n w d f H0 Hw) as (tmp & -> & _ & St & _). cbn [mbind option_bind]. unfold set_vec. rewrite St.
  by rewrite (proj2 (Nat.leb_gt _ _)) by lia.
Qed.
