(* ===== verification/VariableProps.v ===== *)
(** Variables under assignments, forces and releases: every sequence of operations against a
    reading bit by bit, and where the code departs from it. *)
From S2P Require Import Prelude MachineWord VvpBit VvpVector4 VvpSlice WordArith VvpArith VvpVector2 BitList VThreadSpec VThreadParts VThreadIndex Signal SignalSpec SignalProps.

(** What a variable means: the value stored, the bits continuously assigned, the bits forced, and
    the nets that assign and force it. *)
Record var_spec := mkSpec {
  st : nat -> vvp_bit4_t; asg : nat -> bool; frc : nat -> option vvp_bit4_t; clink : option nat; flink : option nat }.

Definition assign_is (n : nat) (a : nat -> bool) (m : vvp_vector2_t) : Prop :=
  wid m = 0%nat /\ (forall i, (i < n)%nat -> a i = false) \/ mask_is n a m.

Record var_is (n : nat) (v : variable) (s : var_spec) : Prop := {
  var_bits : bitwise n (st s) (bits4_ (fun_ v));
  var_assign : assign_is n (asg s) (assign_mask_ (fun_ v));
  var_wire : wire_is n (fil_ v) (st s) (frc s);
  var_clink : cassign_link v = clink s;
  var_flink : force_src v = flink s }.

(** The functor: what is stored and sent when a value arrives at the bits from [base] on. *)
Definition written (base k : nat) (m : nat -> vvp_bit4_t) (s : var_spec) (i : nat) : vvp_bit4_t :=
  if in_range base k i && negb (asg s i) then m (i - base)%nat else st s i.

(** The functor of a variable in a state, without its filter. *)
Record fun_is (n : nat) (x : vvp_fun_signal4_sa) (d : nat -> vvp_bit4_t) (a : nat -> bool) : Prop := {
  fun_bits : bitwise n d (bits4_ x); fun_assign : assign_is n a (assign_mask_ x) }.

(** A functor that ends with the bits [d'] and sends them, or sends nothing as they are [d]. *)
Definition recv_is (n : nat) (d d' : nat -> vvp_bit4_t) (a : nat -> bool) (r : option (vvp_fun_signal4_sa * option vvp_vector4_t)) : Prop :=
  exists x v, r = Some (x, v) /\ fun_is n x d' a /\ match v with Some v => bitwise n d' v | None => agree n d d' end.

Lemma assign_mask_cases n a m : (0 < n)%nat -> assign_is n a m ->
  if (wid m =? 0)%nat then forall i, (i < n)%nat -> a i = false else mask_is n a m.
Proof. intros H0 [[-> H] | H]; [done|]. pose proof H as (_ & -> & _). by rewrite (proj2 (Nat.eqb_neq _ _)) by lia. Qed.

Lemma none_free n base k a m g h (d : nat -> vvp_bit4_t) : mask_is n a m -> (base + k <= n)%nat -> existsb (fun idx => negb (mask_bit m (base + idx))) (seq 0 k) = false ->
  agree n d (fun i => if in_range base k i && negb (a i) then g i else h i) -> agree n d h.
Proof.
  intros (_ & _ & Ha) Hk HE H i Hi. rewrite H by done. destruct (in_range base k i) eqn:EI; [|done]. apply in_range_inv in EI. rewrite <- Ha by done.
  destruct (mask_bit m i) eqn:E; [done|]. exfalso. assert (existsb (fun idx => negb (mask_bit m (base + idx))) (seq 0 k) = true); [|congruence].
  apply existsb_exists. exists (i - base)%nat. split; [apply in_seq; lia|]. replace (base + (i - base))%nat with i by lia. by rewrite E.
Qed.

(** Writing to the bits that are free. *)
Lemma recv_masked n x d a val k base : (0 < n)%nat -> bitwise n d (bits4_ x) -> mask_is n a (assign_mask_ x) -> wf4 val -> (base + k <= n)%nat ->
  recv_is n d (fun i => if in_range base k i && negb (a i) then value val (i - base)%nat else d i) a
    (v ← set_some k base (fun idx => negb (mask_bit (assign_mask_ x) (base + idx))) (value val) (bits4_ x);
     if existsb (fun idx => negb (mask_bit (assign_mask_ x) (base + idx))) (seq 0 k) then Some (mkSignal (assign_mask_ x) false v, Some v) else Some (x, None)).
Proof.
  intros H0 Hb Hm Hv Hk. pose proof Hm as (_ & _ & Ha).
  destruct (set_some_is n d (bits4_ x) k base (fun idx => negb (mask_bit (assign_mask_ x) (base + idx))) (value val) Hb Hk) as (v & -> & Hr). cbn [mbind option_bind].
  set (d' := fun i => if in_range base k i && negb (a i) then value val (i - base)%nat else d i).
  assert (HE : forall i, (i < n)%nat -> (if in_range base k i && negb (mask_bit (assign_mask_ x) (base + (i - base))) then value val (i - base) else d i) = d' i).
  { intros i Hi. unfold d'. destruct (in_range base k i) eqn:EI; [|done]. apply in_range_inv in EI. replace (base + (i - base))%nat with i by lia. by rewrite Ha. }
  pose proof (bitwise_ext n _ d' v HE Hr) as Hv'. destruct (existsb _ _) eqn:EE.
  - eexists _, _. split; [done|]. split; [|done]. split; [done|by right].
  - assert (HA : agree n d d').
    { intros i Hi. symmetry. by apply (none_free n base k a (assign_mask_ x) (fun i => value val (i - base)%nat) d d' Hm Hk EE (fun _ _ => eq_refl)). }
    exists x, None. split; [done|]. split; [|done]. split; [by eapply bitwise_ext|by right].
Qed.

Lemma signal_recv_is n x d a val : (0 < n)%nat -> fun_is n x d a -> wf4 val -> size val = n ->
  recv_is n d (fun i => if in_range 0 n i && negb (a i) then value val (i - 0)%nat else d i) a (signal_recv_vec4 0 val x).
Proof.
  intros H0 [Hb Ha] Hv Hs. pose proof Hb as (Wb & Sb & Vb). unfold signal_recv_vec4. pose proof (assign_mask_cases n a _ H0 Ha) as HC. destruct (wid (assign_mask_ x) =? 0)%nat.
  - set (d' := fun i => if in_range 0 n i && negb (a i) then value val (i - 0)%nat else d i).
    assert (HE : forall i, (i < n)%nat -> value val i = d' i) by (intros i Hi; unfold d'; by rewrite in_range_full, HC, Nat.sub_0_r).
    assert (Hv' : bitwise n d' val) by (split_and!; done). rewrite Hs, Sb, Nat.eqb_refl. destruct (needs_init_ x || negb (eeq (bits4_ x) val)) eqn:EE.
    + eexists _, _. split; [done|]. split; [|done]. by split.
    + apply orb_false_iff in EE as [_ EE]. apply negb_false_iff in EE. apply (eeq_bitwise n d d' _ _ Hb Hv') in EE.
      exists x, None. split; [done|]. split; [|done]. split; [by eapply bitwise_ext|done].
  - pose proof HC as (_ & Sm & _). rewrite Sb, Sm, Nat.eqb_refl, Hs, Nat.min_id. by apply (recv_masked n x d a val n 0).
Qed.

Lemma signal_recv_pv_is n x d a val base : (0 < n)%nat -> fun_is n x d a -> wf4 val -> (base + size val <= n)%nat ->
  recv_is n d (fun i => if in_range base (size val) i && negb (a i) then value val (i - base)%nat else d i) a (signal_recv_vec4_pv 0 val base (size val) n x).
Proof.
  intros H0 [Hb Ha] Hv Hk. pose proof Hb as (Wb & Sb & Vb). unfold signal_recv_vec4_pv. rewrite Sb, !Nat.eqb_refl. cbn [andb]. rewrite Nat.min_l by lia.
  pose proof (assign_mask_cases n a _ H0 Ha) as HC. destruct (wid (assign_mask_ x) =? 0)%nat.
  - destruct (set_some_is n d (bits4_ x) (size val) base (fun _ => true) (value val) Hb Hk) as (v & -> & Hr). cbn [mbind option_bind].
    assert (Hv' : bitwise n (fun i => if in_range base (size val) i && negb (a i) then value val (i - base)%nat else d i) v).
    { eapply bitwise_ext; [|exact Hr]. intros i Hi. cbn beta. by rewrite HC. }
    eexists _, _. split; [done|]. split; [|done]. by split.
  - pose proof HC as (_ & Sm & _). rewrite Sm, Nat.eqb_refl. by apply (recv_masked n x d a val (size val) base).
Qed.

(** What the functor sends, through the filter. *)
Lemma through_is n d d' a f r v w : (0 < n)%nat -> recv_is n d d' a r -> wire_is n w d f ->
  exists v' out, (x ← r; through x w v) = Some (v', out) /\ fun_is n (fun_ v') d' a /\ wire_is n (fil_ v') d' f /\
    cassign_link v' = cassign_link v /\ force_src v' = force_src v /\ shows n d f d' f out /\ whole n d' f out.
Proof.
  intros H0 (x & o & -> & Hx & Ho) Hw. cbn [mbind option_bind]. unfold through. destruct o as [u|].
  - destruct (send_is n w d f u d' H0 Hw Ho) as (w' & out & -> & Hw' & Hout & HO). cbn [mbind option_bind]. eexists _, _. split; [done|].
    split_and!; try done. by eapply passes_shows.
  - cbn [mbind option_bind]. eexists _, _. split; [done|]. split_and!; try done; [by eapply wire_ext; [exact Ho|done|]| |by left].
    intros view HV i Hi. cbn. rewrite HV by done. unfold seen. by rewrite (Ho i Hi).
Qed.

Lemma release_reg_is n w d f : (0 < n)%nat -> wire_is n w d f ->
  exists w' res, release_reg w = Some (w', res) /\ wire_is n w' d (release_of (in_range 0 n) f) /\ bitwise n (seen d f) res.
Proof.
  intros H0 Hw. pose proof Hw as [(Wb & Sb & Vb) _]. unfold release_reg. rewrite Sb.
  destruct (set_all_is n (fun _ => BIT4_X) (vec4_fill n BIT4_X) (filtered_value_ w)) as (res & -> & Hr); [by apply vec4_fill_spec|]. cbn [mbind option_bind].
  destruct (release_mask_is n w d f _ _ H0 Hw (mask_fill n true)) as (w1 & -> & Hw1 & _). cbn [mbind option_bind].
  eexists _, _. split; [done|]. split; [|eapply bitwise_ext; [|exact Hr]; intros i Hi; by apply (filtered_is n)].
  apply (wire_ext n w1 d d (release_of (fun _ => true) f)); [done| |exact Hw1]. intros i Hi. unfold release_of. by rewrite in_range_full.
Qed.

Lemma release_reg_pv_is n w d f base k : (0 < n)%nat -> wire_is n w d f -> (base + k <= n)%nat ->
  exists w' res, release_reg_pv base k w = Some (w', res) /\ wire_is n w' d (release_of (in_range base k) f) /\ bitwise k (fun i => seen d f (base + i)%nat) res.
Proof.
  intros H0 Hw Hk. pose proof Hw as [(Wb & Sb & Vb) _]. unfold release_reg_pv. rewrite Sb, (proj2 (Nat.leb_le _ _)) by done.
  destruct (part_mask_is n base k Hk) as (mask & -> & Hm). cbn [mbind option_bind].
  destruct (set_all_is k (fun _ => BIT4_X) (vec4_fill k BIT4_X) (fun idx => filtered_value_ w (base + idx))) as (res & -> & Hr); [by apply vec4_fill_spec|]. cbn [mbind option_bind].
  destruct (release_mask_is n w d f _ _ H0 Hw Hm) as (w1 & -> & Hw1 & _). cbn [mbind option_bind].
  eexists _, _. split; [done|]. split; [done|]. eapply bitwise_ext; [|exact Hr]. intros i Hi. apply (filtered_is n); (done || lia).
Qed.

(** The operations on a variable. *)
Inductive var_event :=
| Write (val : vvp_vector4_t) | WritePart (val : vvp_vector4_t) (base : nat)
| Assign (v : vvp_vector4_t) | AssignOff (base : nat) (v : vvp_vector4_t) | AssignLink (src : nat)
| Assigned (v : vvp_vector4_t)                                    (* a value from the linked net *)
| Deassign (base width : nat)
| Force (v : vvp_vector4_t) | ForceOff (base : nat) (v : vvp_vector4_t) | ForceLink (src : nat)
| Release (base width : nat).

Definition var_step (n : nat) (e : var_event) (v : variable) : option (variable * list output) :=
  match e with
  | Write val => var_recv_vec4 0 val v
  | WritePart val base => var_recv_vec4_pv 0 val base (size val) n v
  | Assign x => of_CASSIGN_VEC4 x v
  | AssignOff base x => of_CASSIGN_VEC4_OFF (Z.of_nat base) BIT4_0 x v
  | AssignLink src => of_CASSIGN_LINK src v
  | Assigned x => var_recv_vec4 1 x v
  | Deassign base width => of_DEASSIGN base width v
  | Force x => var_force (of_FORCE_VEC4 x) v
  | ForceOff base x => var_force (of_FORCE_VEC4_OFF (Z.of_nat base) BIT4_0 x) v
  | ForceLink src => of_FORCE_LINK src v
  | Release base width => of_RELEASE_REG base width v
  end.

(** What each does to the meaning of the variable. *)
Definition var_spec_step (n : nat) (e : var_event) (s : var_spec) : var_spec :=
  match e with
  | Write val => mkSpec (written 0 n (value val) s) (asg s) (frc s) (clink s) (flink s)
  | WritePart val base => mkSpec (written base (size val) (value val) s) (asg s) (frc s) (clink s) (flink s)
  | Assign x => mkSpec (value x) (fun _ => true) (frc s) None (flink s)
  | AssignOff base x => mkSpec (patch base (size x) (value x) (st s)) (fun i => in_range base (size x) i || asg s i) (frc s) None (flink s)
  | AssignLink src => mkSpec (st s) (asg s) (frc s) (Some src) (flink s)
  | Assigned x => mkSpec (value x) (fun _ => true) (frc s) (clink s) (flink s)
  | Deassign base width =>
      if (n <=? base)%nat then s
      else mkSpec (st s) (fun i => negb (in_range base width i) && asg s i) (frc s) None (flink s)
  | Force x => mkSpec (st s) (asg s) (force_of (fun _ => true) (value x) (frc s)) (clink s) (flink s)
  | ForceOff base x => mkSpec (st s) (asg s) (force_of (in_range base (size x)) (fun i => value x (i - base)) (frc s)) (clink s) (flink s)
  | ForceLink src => mkSpec (st s) (asg s) (frc s) (clink s) (Some src)
  | Release base width =>
      if (n <=? base)%nat then s
      else mkSpec (fun i => if in_range base width i && negb (asg s i) then seen (st s) (frc s) i else st s i) (asg s)
                  (release_of (in_range base width) (frc s)) (clink s) None
  end.

(** Operations that the code carries out: the widths fit, a part that is deassigned belongs to
    an assignment without a link, and no bit that is released is assigned as well as forced. *)
Definition var_valid (n : nat) (s : var_spec) (e : var_event) : Prop :=
  match e with
  | Write val => wf4 val /\ size val = n
  | WritePart x base | ForceOff base x => wf4 x /\ (0 < size x)%nat /\ (base + size x <= n)%nat
  | Assign x | Assigned x | Force x => wf4 x /\ (n <= size x)%nat
  | AssignOff base x => wf4 x /\ (0 < size x)%nat
  | AssignLink _ => clink s = None
  | ForceLink _ => True
  | Deassign base width => (0 < width)%nat /\ (base = 0%nat /\ (n <= width)%nat \/ clink s = None /\ exists i, (i < n)%nat /\ asg s i = true)
  | Release base width => (0 < width)%nat /\ forall i, (i < n)%nat -> in_range base width i = true -> asg s i = true -> frc s i = None
  end.

(** The result of a step: the new meaning, and the fan-out follows it. *)
Definition var_goes (n : nat) (s s' : var_spec) (r : option (variable * list output)) : Prop :=
  exists v out, r = Some (v, out) /\ var_is n v s' /\ shows n (st s) (frc s) (st s') (frc s') out.

Lemma shows_nil n d f : shows n d f d f []. Proof. by intros view HV. Qed.

Lemma fun_of n v s : var_is n v s -> fun_is n (fun_ v) (st s) (asg s). Proof. by intros []; split. Qed.

(** A value for the functor. *)
Lemma goes_through n v u s d' a r : (0 < n)%nat -> var_is n v s -> recv_is n (st s) d' a r -> force_src u = force_src v ->
  var_goes n s (mkSpec d' a (frc s) (cassign_link u) (flink s)) (x ← r; through x (fil_ v) u).
Proof.
  intros H0 Hv Hr Hu. pose proof Hv as [Hb Ha Hw Hc Hf].
  destruct (through_is n (st s) d' a (frc s) r u (fil_ v) H0 Hr Hw) as (v' & out & E & [Fb Fa] & Hw' & C & F & Hout & _).
  exists v', out. split; [done|]. split; [|done]. by split; try done; cbn in *; congruence.
Qed.

Lemma recv_assigned n x d a val : (0 < n)%nat -> fun_is n x d a -> wf4 val -> (n <= size val)%nat ->
  recv_is n d (value val) (fun _ => true) (signal_recv_vec4 1 val x).
Proof.
  intros H0 [Hb _] Hv Hs. pose proof Hb as (_ & Sb & _). cbn [signal_recv_vec4]. rewrite Sb.
  destruct (coerce_is n val Hv Hs) as (r & -> & Hr). cbn [mbind option_bind]. eexists _, _. split; [done|]. split; [|done]. split; [done|]. right. apply mask_fill.
Qed.

Lemma recv_assigned_pv n x d a val base : (0 < n)%nat -> fun_is n x d a -> wf4 val -> (base + size val <= n)%nat ->
  recv_is n d (patch base (size val) (value val) d) (fun i => in_range base (size val) i || a i) (signal_recv_vec4_pv 1 val base (size val) n x).
Proof.
  intros H0 [Hb Ha] Hv Hk. pose proof Hb as (_ & Sb & _). unfold signal_recv_vec4_pv. rewrite Sb, !Nat.eqb_refl. cbn [andb]. rewrite Nat.min_l by lia.
  destruct (set_some_is n d (bits4_ x) (size val) base (fun _ => true) (value val) Hb Hk) as (v & -> & Hr). cbn [mbind option_bind].
  set (m := if (wid (assign_mask_ x) =? 0)%nat then vec2_fill false n else assign_mask_ x).
  assert (Hm : mask_is n a m).
  { unfold m. pose proof (assign_mask_cases n a _ H0 Ha) as HC. destruct (wid (assign_mask_ x) =? 0)%nat; [|done].
    eapply mask_ext; [|apply mask_fill]. intros i Hi. symmetry. by apply HC. }
  destruct (mark_some_is n a m (size val) base (fun _ => true) 1 Hm Hk) as (m' & -> & Hm'). cbn [mbind option_bind]. eexists _, _. split; [done|].
  assert (Hv' : bitwise n (patch base (size val) (value val) d) v).
  { eapply bitwise_ext; [|exact Hr]. intros i Hi. cbn beta. by rewrite andb_true_r. }
  split; [|done]. split; [done|]. right. eapply mask_ext; [|exact Hm']. intros i Hi. cbn beta. rewrite andb_true_r. by destruct (in_range base (size val) i).
Qed.

Lemma goes_ext n s s' s2 r : (forall i, (i < n)%nat -> st s' i = st s2 i /\ asg s' i = asg s2 i /\ frc s' i = frc s2 i) -> clink s' = clink s2 -> flink s' = flink s2 ->
  var_goes n s s' r -> var_goes n s s2 r.
Proof.
  intros H HC HF (v & out & E & [Hb Ha Hw Hc Hf] & Hout). exists v, out. split; [done|]. split.
  - split; [eapply bitwise_ext; [|exact Hb]; intros i Hi; by apply H| |eapply wire_ext; [..|exact Hw]; intros i Hi; by apply H|congruence|congruence].
    destruct Ha as [[Hz Ha]|Ha]; [left; split; [done|]; intros i Hi; destruct (H i Hi) as (_ & <- & _); by apply Ha|right].
    eapply mask_ext; [|exact Ha]. intros i Hi. by apply H.
  - intros view HV i Hi. rewrite (Hout view HV i Hi). unfold seen. by destruct (H i Hi) as (-> & _ & ->).
Qed.

Lemma goes_outs n s s' r o : Forall (fun o => forall view, show1 view o = view) o -> var_goes n s s' r ->
  var_goes n s s' ('(v, out) ← r; Some (v, o ++ out)).
Proof. intros Ho (v & out & -> & Hv & Hout). cbn [mbind option_bind]. eexists _, _. split; [done|]. split; [done|]. by apply shows_before. Qed.

(** ** The instructions *)

Lemma write_goes n v s val : (0 < n)%nat -> var_is n v s -> var_valid n s (Write val) -> var_goes n s (var_spec_step n (Write val) s) (var_step n (Write val) v).
Proof.
  intros H0 Hv [Wv Sv]. cbn [var_step var_spec_step]. unfold var_recv_vec4. rewrite <- (var_clink _ _ _ Hv).
  apply goes_through; try done. apply signal_recv_is; try done. by apply fun_of.
Qed.

Lemma write_part_goes n v s val base : (0 < n)%nat -> var_is n v s -> var_valid n s (WritePart val base) -> var_goes n s (var_spec_step n (WritePart val base) s) (var_step n (WritePart val base) v).
Proof.
  intros H0 Hv (Wv & Sv & Kv). cbn [var_step var_spec_step]. unfold var_recv_vec4_pv. rewrite <- (var_clink _ _ _ Hv).
  apply goes_through; try done. apply signal_recv_pv_is; try done. by apply fun_of.
Qed.

Lemma assign_goes n v s x u : (0 < n)%nat -> var_is n v s -> wf4 x -> (n <= size x)%nat -> fun_ u = fun_ v -> fil_ u = fil_ v -> force_src u = force_src v ->
  var_goes n s (mkSpec (value x) (fun _ => true) (frc s) (cassign_link u) (flink s)) (var_recv_vec4 1 x u).
Proof.
  intros H0 Hv Wx Sx Hf Hw Hu. unfold var_recv_vec4. rewrite Hf, Hw. apply goes_through; try done. eapply recv_assigned; try done. by apply fun_of.
Qed.

Lemma resize_bits v k : wf4 v -> (k <= size v)%nat -> wf4 (resize v k BIT4_X) /\ size (resize v k BIT4_X) = k /\ forall i, (i < k)%nat -> value (resize v k BIT4_X) i = value v i.
Proof. intros Hv Hk. destruct (resize_spec v k BIT4_X Hv) as (W1 & S1 & V1). split_and!; [done|done|]. intros i Hi. by rewrite V1, (proj2 (Nat.ltb_lt _ _)) by lia. Qed.

Lemma assign_off_goes n v s base x : (0 < n)%nat -> var_is n v s -> var_valid n s (AssignOff base x) ->
  var_goes n s (var_spec_step n (AssignOff base x) s) (var_step n (AssignOff base x) v).
Proof.
  intros H0 Hv [Wx Sx]. cbn [var_step var_spec_step]. unfold of_CASSIGN_VEC4_OFF, cassign_unlink. cbn [bit4_eqb fil_].
  pose proof (var_wire _ _ _ Hv) as [(_ & Sb & _) _]. rewrite Sb, (proj2 (Z.ltb_ge _ _)) by lia. cbn [andb].
  set (u := mkVar (fun_ v) (fil_ v) None (force_src v)).
  destruct (Z.leb_spec (Z.of_nat n) (Z.of_nat base)) as [Hb|Hb].
  - exists u, (unlinks (cassign_link v)). split; [done|].
    assert (HR : forall i, (i < n)%nat -> in_range base (size x) i = false) by (intros i Hi; destruct (in_range base (size x) i) eqn:E; [apply in_range_inv in E; lia|done]).
    assert (HG : var_goes n s (mkSpec (patch base (size x) (value x) (st s)) (fun i => in_range base (size x) i || asg s i) (frc s) None (flink s)) (Some (u, []))).
    { eapply (goes_ext n s (mkSpec (st s) (asg s) (frc s) None (flink s))); [|done|done|].
      - intros i Hi. cbn [st asg frc]. unfold patch. by rewrite HR.
      - exists u, []. split; [done|]. split; [|apply shows_nil]. destruct Hv as [? ? ? ? ?]. by split. }
    destruct HG as (v' & out & [= <- <-] & Hv' & Hout). split; [done|]. rewrite <- (app_nil_r (unlinks _)). apply shows_before; [done|apply quiet_unlinks].
  - set (k := Nat.min (size x) (n - base)).
    assert (HX : exists y, (if Z.of_nat n <? Z.of_nat base + Z.of_nat (size x) then (Z.of_nat n - Z.of_nat base, resize x (Z.to_nat (Z.of_nat n - Z.of_nat base)) BIT4_X) else (Z.of_nat (size x), x)) = (Z.of_nat k, y) /\
      wf4 y /\ size y = k /\ forall i, (i < k)%nat -> value y i = value x i).
    { destruct (Z.ltb_spec (Z.of_nat n) (Z.of_nat base + Z.of_nat (size x))) as [Hl|Hl].
      - replace (Z.of_nat n - Z.of_nat base)%Z with (Z.of_nat k) by lia. rewrite Nat2Z.id. eexists. split; [done|]. apply resize_bits; [done|lia].
      - replace k with (size x) by lia. by exists x. }
    destruct HX as (y & -> & Wy & Sy & Vy). rewrite !Nat2Z.id, <- Sy.
    apply (goes_outs n s _ _ _ (quiet_unlinks (cassign_link v))).
    apply (goes_ext n s (mkSpec (patch base (size y) (value y) (st s)) (fun i => in_range base (size y) i || asg s i) (frc s) (cassign_link u) (flink s))); [|done|done|].
    + intros i Hi. cbn [st asg frc]. assert (HR : in_range base (size y) i = in_range base (size x) i).
      { unfold in_range. destruct (Nat.leb_spec base i); [|done]. cbn [andb]. destruct (Nat.ltb_spec i (base + size y)), (Nat.ltb_spec i (base + size x)); (done || lia). }
      unfold patch. rewrite <- HR. destruct (in_range base (size y) i) eqn:E; [|done]. apply in_range_inv in E. rewrite Vy by lia. done.
    + unfold var_recv_vec4_pv. apply (goes_through n v u); try done. eapply recv_assigned_pv; try done; [exact (fun_of n v s Hv)|lia].
Qed.

Lemma deassign_goes n v s base width : (0 < n)%nat -> var_is n v s -> var_valid n s (Deassign base width) ->
  var_goes n s (var_spec_step n (Deassign base width) s) (var_step n (Deassign base width) v).
Proof.
  intros H0 Hv [Hw0 HD]. cbn [var_step var_spec_step]. unfold of_DEASSIGN. pose proof Hv as [Hb Ha Hw Hc Hf]. pose proof Hw as [(_ & Sb & _) _]. rewrite Sb.
  destruct (Nat.leb_spec n base) as [Hn|Hn]; [exists v, []; split; [done|]; split; [done|apply shows_nil]|].
  set (k := if (n <? base + width)%nat then (n - base)%nat else width). assert (HK : (0 < k /\ base + k <= n)%nat) by (unfold k; case_cmp; lia).
  assert (HR : forall i, (i < n)%nat -> in_range base k i = in_range base width i) by (intros i Hi; by apply in_range_cut).
  set (s' := mkSpec (st s) (fun i => negb (in_range base width i) && asg s i) (frc s) None (flink s)).
  assert (HG : forall x l, bits4_ x = bits4_ (fun_ v) -> assign_is n (asg s') (assign_mask_ x) -> var_goes n s s' (Some (mkVar x (fil_ v) None (force_src v), unlinks l))).
  { intros x l Hx Hm. eexists _, _. split; [done|]. split; [split; cbn; try done; by rewrite Hx|].
    rewrite <- (app_nil_r (unlinks l)). apply shows_before; [apply shows_nil|apply quiet_unlinks]. }
  destruct ((base =? 0)%nat && (k =? n)%nat) eqn:EF.
  - apply andb_true_iff in EF as [->%Nat.eqb_eq EK%Nat.eqb_eq].
    assert (HA : assign_is n (asg s') (assign_mask_ (deassign (fun_ v)))) by (left; split; [done|]; intros i Hi; cbn [asg s']; rewrite <- HR, EK, in_range_full by done; done).
    destruct (cassign_link v); cbn [mbind option_bind]; by apply HG.
  - destruct HD as [[-> HD] | [HC (i0 & Hi0 & HA0)]].
    { exfalso. unfold k in EF. destruct (Nat.ltb_spec n (0 + width)); rewrite Nat.eqb_refl in EF; cbn [andb] in EF; apply Nat.eqb_neq in EF; lia. }
    rewrite Hc, HC. assert (HM : mask_is n (asg s) (assign_mask_ (fun_ v))) by (destruct Ha as [[_ Ha]|Ha]; [by rewrite Ha in HA0|done]).
    unfold deassign_pv. destruct (mark_some_is n _ _ k base (fun _ => true) 0 HM (proj2 HK)) as (m & -> & Hm). cbn [mbind option_bind].
    assert (Hm' : mask_is n (asg s') m).
    { eapply mask_ext; [|exact Hm]. intros i Hi. cbn [asg s']. cbn beta. rewrite andb_true_r, HR by done. by destruct (in_range base width i). }
    apply HG; [done|]. cbn. destruct (vec2_is_zero m) eqn:EZ; [left; split; [done|]; by apply (zero_mask n (asg s') m)|by right].
Qed.

Lemma release_goes n v s base width : (0 < n)%nat -> var_is n v s -> var_valid n s (Release base width) ->
  var_goes n s (var_spec_step n (Release base width) s) (var_step n (Release base width) v).
Proof.
  intros H0 Hv [Hw0 HD]. cbn [var_step var_spec_step]. unfold of_RELEASE_REG, release_range. pose proof Hv as [Hb Ha Hw Hc Hf]. pose proof Hw as [(_ & Sb & _) _]. rewrite Sb.
  destruct (Nat.leb_spec n base) as [Hn|Hn]; [exists v, []; split; [done|]; split; [done|apply shows_nil]|].
  set (k := if (n <? base + width)%nat then (n - base)%nat else width). assert (HK : (0 < k /\ base + k <= n)%nat) by (unfold k; case_cmp; lia).
  assert (HR : forall i, (i < n)%nat -> in_range base k i = in_range base width i) by (intros i Hi; by apply in_range_cut).
  apply goes_outs; [apply quiet_unlinks|]. cbn [fil_ fun_]. set (u := mkVar (fun_ v) (fil_ v) (cassign_link v) None).
  set (s' := mkSpec (fun i => if in_range base width i && negb (asg s i) then seen (st s) (frc s) i else st s i) (asg s) (release_of (in_range base width) (frc s)) (clink s) None).
  assert (HG : forall r w1, wire_is n w1 (st s) (release_of (in_range base k) (frc s)) -> recv_is n (st s) (st s') (asg s) r -> var_goes n s s' (x ← r; through x w1 u)).
  { intros r w1 Hw1 Hr. assert (Hw2 : wire_is n w1 (st s) (frc s')) by (eapply wire_ext; [..|exact Hw1]; [done|]; intros i Hi; cbn; unfold release_of; by rewrite HR).
    destruct (through_is n (st s) (st s') (asg s) (frc s') r u w1 H0 Hr Hw2) as (v' & out & -> & [Fb Fa] & Hw' & C & F & _ & HO). exists v', out. split; [done|].
    split; [by split; try done; cbn in *; congruence|]. assert (HE : agree n (seen (st s) (frc s)) (seen (st s') (frc s'))).
    { intros i Hi. cbn [st frc s']. unfold seen at 2. unfold release_of. destruct (in_range base width i) eqn:EI; cbn [andb]; [|done].
      destruct (asg s i) eqn:EA; cbn [negb]; [|done]. unfold seen. by rewrite (HD i Hi EI EA). }
    intros view HV i Hi. destruct HO as [-> | HO]; [cbn; rewrite HV by done; by apply HE|by apply HO]. }
  destruct ((base =? 0)%nat && (k =? n)%nat) eqn:EF.
  - apply andb_true_iff in EF as [E0%Nat.eqb_eq EK%Nat.eqb_eq].
    destruct (release_reg_is n (fil_ v) (st s) (frc s) H0 Hw) as (w1 & res & -> & Hw1 & Hres). cbn [mbind option_bind]. pose proof Hres as (Wr & Sr & Vr).
    apply HG; [by rewrite E0, EK|]. pose proof (signal_recv_is n (fun_ v) (st s) (asg s) res H0 (fun_of n v s Hv) Wr Sr) as (x & o & E & [Fx Fa] & Ho).
    assert (HE : forall i, (i < n)%nat -> (if in_range 0 n i && negb (asg s i) then value res (i - 0) else st s i) = st s' i).
    { intros i Hi. cbn [st s']. rewrite <- HR, E0, EK, Nat.sub_0_r by done. by rewrite Vr. }
    exists x, o. split; [done|]. split; [split; [eapply bitwise_ext; [exact HE|done]|done]|]. destruct o; [eapply bitwise_ext; [exact HE|done]|]. intros i Hi. rewrite <- HE by done. by apply Ho.
  - destruct (release_reg_pv_is n (fil_ v) (st s) (frc s) base k H0 Hw (proj2 HK)) as (w1 & res & -> & Hw1 & Hres). cbn [mbind option_bind]. pose proof Hres as (Wr & Sr & Vr).
    pose proof Hw1 as [(_ & Sw1 & _) _]. rewrite Sw1, <- Sr. apply HG; [done|].
    pose proof (signal_recv_pv_is n (fun_ v) (st s) (asg s) res base H0 (fun_of n v s Hv) Wr) as (x & o & E & [Fx Fa] & Ho); [lia|].
    assert (HE : forall i, (i < n)%nat -> (if in_range base (size res) i && negb (asg s i) then value res (i - base) else st s i) = st s' i).
    { intros i Hi. cbn [st s']. rewrite Sr, HR by done. destruct (in_range base width i) eqn:EI; cbn [andb]; [|done]. rewrite <- HR in EI by done. apply in_range_inv in EI.
      rewrite Vr by lia. by replace (base + (i - base))%nat with i by lia. }
    exists x, o. split; [done|]. split; [split; [eapply bitwise_ext; [exact HE|done]|done]|]. destruct o; [eapply bitwise_ext; [exact HE|done]|]. intros i Hi. rewrite <- HE by done. by apply Ho.
Qed.

(** The filter of a variable changes, its functor does not. *)
Lemma filter_goes n v s f' (r : option (vvp_wire_vec4 * list output)) : var_is n v s ->
  (exists w out, r = Some (w, out) /\ wire_is n w (st s) f' /\ shows n (st s) (frc s) (st s) f' out) ->
  var_goes n s (mkSpec (st s) (asg s) f' (clink s) (flink s)) ('(w, out) ← r; Some (mkVar (fun_ v) w (cassign_link v) (force_src v), out)).
Proof.
  intros [Hb Ha Hw Hc Hf] (w & out & -> & Hw' & Hout). cbn [mbind option_bind]. eexists _, _. split; [done|]. split; [|done]. by split.
Qed.

(** Only the links change. *)
Lemma links_go n v s c l o : var_is n v s -> Forall (fun o => forall view, show1 view o = view) o ->
  var_goes n s (mkSpec (st s) (asg s) (frc s) c l) (Some (mkVar (fun_ v) (fil_ v) c l, o)).
Proof.
  intros [Hb Ha Hw Hc Hf] Ho. eexists _, _. split; [done|]. split; [by split|].
  rewrite <- (app_nil_r o). apply shows_before; [apply shows_nil|done].
Qed.

Lemma var_step_is n e v s : (0 < n)%nat -> var_is n v s -> var_valid n s e -> var_goes n s (var_spec_step n e s) (var_step n e v).
Proof.
  intros H0 Hv He. destruct e as [x|x base|x|base x|src|x|base width|x|base x|src|base width].
  - by apply write_goes.
  - by apply write_part_goes.
  - destruct He as [Wx Sx]. cbn [var_step var_spec_step]. unfold of_CASSIGN_VEC4, cassign_unlink. apply goes_outs; [apply quiet_unlinks|].
    by apply (assign_goes n v s x (mkVar (fun_ v) (fil_ v) None (force_src v))).
  - by apply assign_off_goes.
  - cbn [var_valid var_step var_spec_step] in *. unfold of_CASSIGN_LINK. rewrite (var_clink _ _ _ Hv), He, <- (var_flink _ _ _ Hv).
    apply links_go; [done|by repeat constructor].
  - destruct He as [Wx Sx]. cbn [var_step var_spec_step]. rewrite <- (var_clink _ _ _ Hv). by apply (assign_goes n v s x v).
  - by apply deassign_goes.
  - destruct He as [Wx Sx]. cbn [var_step var_spec_step]. apply filter_goes; [done|]. apply of_force_is; try done; exact (var_wire n v s Hv).
  - destruct He as (Wx & Sx & Kx). cbn [var_step var_spec_step]. apply filter_goes; [done|]. apply of_force_off_is; try done; exact (var_wire n v s Hv).
  - cbn [var_step var_spec_step]. unfold of_FORCE_LINK. rewrite <- (var_clink _ _ _ Hv). apply links_go; [done|].
    apply Forall_app; split; [apply quiet_unlinks|by repeat constructor].
  - by apply release_goes.
Qed.

(** ** Sequences *)

Fixpoint var_run (n : nat) (es : list var_event) (v : variable) : option (variable * list output) :=
  match es with
  | [] => Some (v, [])
  | e :: es => '(v, o1) ← var_step n e v; '(v, o2) ← var_run n es v; Some (v, o1 ++ o2)
  end.

Fixpoint var_run_valid (n : nat) (es : list var_event) (s : var_spec) : Prop :=
  match es with
  | [] => True
  | e :: es => var_valid n s e /\ var_run_valid n es (var_spec_step n e s)
  end.

Definition var_start (init : vvp_bit4_t) : var_spec := mkSpec (fun _ => init) (fun _ => false) (fun _ => None) None None.

Lemma var_new_is n init : var_is n (var_new n init) (var_start init).
Proof. split; try done; [apply (vec4_fill_spec n init)|by left|apply wire_new_is]. Qed.

Lemma var_run_is n es : (0 < n)%nat -> forall v s, var_is n v s -> var_run_valid n es s ->
  var_goes n s (fold_left (fun s e => var_spec_step n e s) es s) (var_run n es v).
Proof.
  intros H0. induction es as [|e es IH]; intros v s Hv HE; [exists v, []; split; [done|]; split; [done|apply shows_nil]|].
  destruct HE as [He HE]. cbn [var_run fold_left]. destruct (var_step_is n e v s H0 Hv He) as (v1 & o1 & -> & Hv1 & Ho1). cbn [mbind option_bind].
  destruct (IH v1 _ Hv1 HE) as (v2 & o2 & -> & Hv2 & Ho2). cbn [mbind option_bind]. eexists _, _. split; [done|]. split; [done|].
  intros view HV. rewrite show_app. by apply Ho2, Ho1.
Qed.

(** C12: Any sequence of writes, continuous assignments, deassignments, forces and releases on a
    new variable runs without a failed assertion, if every operation is valid where it is done
    ([var_valid]: the values have the width of the variable, or its part lies inside it; a link
    is assigned only where there is none; a part is deassigned only without a link and where a
    bit is assigned; and no bit is released that is assigned as well as forced, which the code
    carries out but leaves the fan-out with the forced value, [release_stale]).  The variable
    ends with the bits stored, assigned and forced and the links that the operations say: a
    write reaches only the bits that are not assigned, a release leaves the forced value in
    those bits.  A fan-out that applies each vector sent to it sees the value of the variable,
    forces over it. *)
Theorem var_trace n init es : (0 < n)%nat -> var_run_valid n es (var_start init) ->
  let s := fold_left (fun s e => var_spec_step n e s) es (var_start init) in
  exists v out, var_run n es (var_new n init) = Some (v, out) /\ var_is n v s /\
    forall i, (i < n)%nat -> filtered_value_ (fil_ v) i = seen (st s) (frc s) i /\ show (fun _ => init) out i = seen (st s) (frc s) i.
Proof.
  intros H0 HE s. destruct (var_run_is n es H0 _ _ (var_new_is n init) HE) as (v & out & E & Hv & Hout). exists v, out. split; [done|]. split; [done|].
  intros i Hi. split; [apply (filtered_is n); try done; exact (var_wire n v s Hv)|]. by apply Hout.
Qed.

Definition demo_var : list var_event :=
  [Write (vec4_fill 4 BIT4_0); AssignOff 1 (vec4_fill 2 BIT4_1); Write (vec4_fill 4 BIT4_Z); ForceOff 0 (vec4_fill 1 BIT4_X);
   Deassign 1 1; Release 0 1; AssignLink 7; Assigned (vec4_fill 4 BIT4_1)].

Lemma filled k b : wf4 (vec4_fill k b) /\ size (vec4_fill k b) = k. Proof. by destruct (vec4_fill_spec k b) as (? & ? & _). Qed.

Lemma demo_var_valid : var_run_valid 4 demo_var (var_start BIT4_X).
Proof.
  unfold demo_var. cbn [var_run_valid var_valid]. rewrite ?(proj2 (filled _ _)). repeat split; try apply filled; try lia.
  - right. split; [done|]. exists 1%nat. split; [lia|done].
  - intros i Hi HR%in_range_inv. assert (i = 0)%nat as -> by lia. done.
Qed.

Lemma var_trace_witness : (0 < 4)%nat /\ var_run_valid 4 demo_var (var_start BIT4_X) /\
  let s := fold_left (fun s e => var_spec_step 4 e s) demo_var (var_start BIT4_X) in
  exists v out, var_run 4 demo_var (var_new 4 BIT4_X) = Some (v, out) /\ var_is 4 v s /\
    forall i, (i < 4)%nat -> filtered_value_ (fil_ v) i = seen (st s) (frc s) i /\ show (fun _ => BIT4_X) out i = seen (st s) (frc s) i.
Proof. split; [lia|]. split; [apply demo_var_valid|]. apply (var_trace 4 BIT4_X demo_var); [lia|apply demo_var_valid]. Defined.

(** ** Where the code departs from it *)

(** A variable that is assigned as a whole: releasing its force sends nothing, whatever was
    forced, and the fan-out keeps the forced value. *)
Theorem release_stale n v s : (0 < n)%nat -> var_is n v s -> (forall i, (i < n)%nat -> asg s i = true) ->
  exists v', of_RELEASE_REG 0 n v = Some (v', unlinks (force_src v)) /\ var_is n v' (mkSpec (st s) (asg s) (fun _ => None) (clink s) None).
Proof.
  intros H0 Hv HA. pose proof Hv as [Hb Ha Hw Hc Hf]. pose proof Hw as [(_ & Sb & _) _]. unfold of_RELEASE_REG, release_range. rewrite Sb.
  rewrite (proj2 (Nat.leb_gt _ _)), (proj2 (Nat.ltb_ge _ _)), !Nat.eqb_refl by lia. cbn [andb fil_ fun_].
  destruct (release_reg_is n (fil_ v) (st s) (frc s) H0 Hw) as (w1 & res & -> & Hw1 & Wr & Sr & Vr). cbn [mbind option_bind fun_].
  pose proof (assign_mask_cases n (asg s) _ H0 Ha) as HC. cbn [signal_recv_vec4]. destruct (Nat.eqb_spec (wid (assign_mask_ (fun_ v))) 0) as [Ez|Ez].
  { specialize (HC 0%nat H0). by rewrite HA in HC by done. }
  pose proof HC as (_ & Sm & Cm). pose proof Hb as (_ & Sv & _). rewrite Sm, Sv, Nat.eqb_refl, Sr, Nat.min_id.
  destruct (set_some_is n (st s) (bits4_ (fun_ v)) n 0 (fun idx => negb (mask_bit (assign_mask_ (fun_ v)) idx)) (value res) Hb) as (x & -> & _); [lia|]. cbn [mbind option_bind].
  destruct (existsb _ _) eqn:EE.
  { apply existsb_exists in EE as (i & Hi%in_seq & EE). rewrite Cm, HA in EE by lia. done. }
  cbn [mbind option_bind through]. eexists. rewrite app_nil_r. split; [done|]. split; try done. cbn.
  eapply wire_ext; [done| |exact Hw1]. intros i Hi. unfold release_of. by rewrite in_range_full.
Qed.

(** A part assigned below the variable keeps the low bits of its value, where the bits that
    reach the variable are the high ones. *)
Example assign_off_below :
  (v4 ← set_bit (vec4_fill 4 BIT4_0) 3 BIT4_1;
   '(v, _) ← of_CASSIGN_VEC4_OFF (-3) BIT4_0 v4 (var_new 4 BIT4_0); Some (value (bits4_ (fun_ v)) 0)) = Some BIT4_0.
Proof. vm_compute. reflexivity. Qed.

(** Part of a variable without an assignment cannot be deassigned. *)
Lemma deassign_part_free base width s : (0 < width)%nat -> wid (assign_mask_ s) = 0%nat -> deassign_pv base width s = None.
Proof.
  intros Hw Hz. unfold deassign_pv. enough (mark_some width base (fun _ => true) 0 (assign_mask_ s) = None) as -> by done.
  unfold mark_some. destruct width as [|k]; [lia|]. clear Hw. induction k as [|k IH].
  - cbn [for_upto mbind option_bind]. unfold vec2_set_bit. by rewrite Hz.
  - cbn [for_upto] in *. by rewrite IH.
Qed.
