(* ===== verification/Delay.v ===== *)
(** Delays of the runtime ([vvp/delay.cc], [vvp/delay.h]): the delays of a transition, the
    functor that delays a value and drops the pulses that are too short, and module paths with
    the delays of their sources.

    Times are 64-bit unsigned.  The time of the simulation is an argument. *)
From S2P Require Import Prelude MachineWord VvpBit VvpVector4 VvpArith.

Definition time64 (t : Z) : Z := t mod 2 ^ 64.

(** * The delays of a transition *)

Record vvp_delay_t := mkDelay { rise_ : Z; fall_ : Z; decay_ : Z; min_delay_ : Z; ignore_decay_ : bool }.

Definition calculate_min_delay_ (d : vvp_delay_t) : vvp_delay_t :=
  let min := rise_ d in
  let min := if fall_ d <? min then fall_ d else min in
  if ignore_decay_ d then mkDelay (rise_ d) (fall_ d) min min true
  else mkDelay (rise_ d) (fall_ d) (decay_ d) (if decay_ d <? min then decay_ d else min) false.

Definition delay_new2 (rise fall : Z) : vvp_delay_t :=
  let decay := if fall <? rise then fall else rise in mkDelay rise fall decay decay false.

Definition delay_new3 (rise fall decay : Z) : vvp_delay_t := calculate_min_delay_ (mkDelay rise fall decay 0 false).

Definition set_ignore_decay (d : vvp_delay_t) : vvp_delay_t :=
  calculate_min_delay_ (mkDelay (rise_ d) (fall_ d) (decay_ d) (min_delay_ d) true).

Definition get_delay (d : vvp_delay_t) (from to : vvp_bit4_t) : Z :=
  match from, to with
  | BIT4_0, BIT4_0 | BIT4_1, BIT4_1 | BIT4_X, BIT4_X | BIT4_Z, BIT4_Z => 0
  | _, BIT4_1 => rise_ d
  | _, BIT4_0 => fall_ d
  | _, BIT4_Z => decay_ d
  | _, BIT4_X => min_delay_ d
  end.

Definition set_rise (val : Z) (d : vvp_delay_t) : vvp_delay_t :=
  if val <? min_delay_ d then mkDelay val (fall_ d) (if ignore_decay_ d then val else decay_ d) val (ignore_decay_ d)
  else calculate_min_delay_ (mkDelay val (fall_ d) (decay_ d) (min_delay_ d) (ignore_decay_ d)).

Definition set_fall (val : Z) (d : vvp_delay_t) : vvp_delay_t :=
  if val <? min_delay_ d then mkDelay (rise_ d) val (if ignore_decay_ d then val else decay_ d) val (ignore_decay_ d)
  else calculate_min_delay_ (mkDelay (rise_ d) val (decay_ d) (min_delay_ d) (ignore_decay_ d)).

Definition set_decay (val : Z) (d : vvp_delay_t) : option vvp_delay_t :=
  if ignore_decay_ d then None
  else Some (if val <? min_delay_ d then mkDelay (rise_ d) (fall_ d) val val (ignore_decay_ d)
             else calculate_min_delay_ (mkDelay (rise_ d) (fall_ d) val (min_delay_ d) (ignore_decay_ d))).

(** * The delay of a value *)

(** The queue holds the events from [list_->next] to [list_]: the time of each and its value. *)
Record vvp_fun_delay := mkFunDelay {
  delay_ : vvp_delay_t; initial_ : bool; cur_vec4_ : vvp_vector4_t; list_ : list (Z * vvp_vector4_t);
  round_ : Z; scale_ : Z }.

Inductive delay_output :=
| InitPropagate (v : vvp_vector4_t)        (* schedule_init_propagate(net_, v) *)
| SendVec4 (v : vvp_vector4_t)             (* net_->send_vec4(v) *)
| ScheduleRun (delay : Z).                 (* schedule_generic(this, delay, false) *)

(** [for (lp = 0; lp < pow; lp += 1) r *= 10]. *)
Definition power_of_10 (pow : Z) : Z := for_upto (Z.to_nat pow) (fun _ r => time64 (r * 10)) 1.

Definition fun_delay_new (width : nat) (d : vvp_delay_t) (units precision sim_precision : Z) : vvp_fun_delay * list delay_output :=
  let cur := vec4_fill width BIT4_X in
  (mkFunDelay d true cur [] (power_of_10 (units - precision)) (power_of_10 (precision - sim_precision)), [InitPropagate cur]).

(** Events that are still to come are dropped, from the oldest on. *)
Fixpoint clean_events (now use_delay : Z) (l : list (Z * vvp_vector4_t)) : list (Z * vvp_vector4_t) :=
  match l with
  | [] => []
  | (sim_time, _) :: rest => if time64 (sim_time + use_delay) <=? time64 (use_delay + now) then l else clean_events now use_delay rest
  end.

(** [None]: the oldest event has the new value already. *)
Definition clean_pulse_events_ (now use_delay : Z) (bit : vvp_vector4_t) (l : list (Z * vvp_vector4_t)) : option (list (Z * vvp_vector4_t)) :=
  match l with
  | [] => Some []
  | (_, v) :: _ => if eeq v bit then None else Some (clean_events now use_delay l)
  end.

(** The longest of the delays of the bits. *)
Definition longest_delay (d : vvp_delay_t) (n : nat) (from to : nat -> vvp_bit4_t) : Z :=
  fold_left (fun use idx => let tmp := get_delay d (from idx) (to idx) in if use <? tmp then tmp else use)
    (seq 1 (n - 1)) (get_delay d (from 0%nat) (to 0%nat)).

Definition select_delay (now : Z) (bit : vvp_vector4_t) (f : vvp_fun_delay) : Z :=
  if initial_ f then longest_delay (delay_ f) (size bit) (fun _ => value (cur_vec4_ f) 0) (value bit)
  else
    let use_vec4 := match list_ f with
      | (sim_time, v) :: _ => if sim_time =? now then v else cur_vec4_ f
      | [] => cur_vec4_ f
      end in
    longest_delay (delay_ f) (Nat.min (size use_vec4) (size bit)) (value use_vec4) (value bit).

Definition fun_delay_recv_vec4 (now : Z) (bit : vvp_vector4_t) (f : vvp_fun_delay) : vvp_fun_delay * list delay_output :=
  let use_delay := select_delay now bit f in
  match clean_pulse_events_ now use_delay bit (list_ f) with
  | None => (f, [])
  | Some l =>
      if (use_delay =? 0) && match l with [] => true | _ => false end then
        (mkFunDelay (delay_ f) false bit l (round_ f) (scale_ f), [SendVec4 bit])
      else
        (mkFunDelay (delay_ f) (initial_ f) (cur_vec4_ f) (l ++ [(time64 (now + use_delay), bit)]) (round_ f) (scale_ f), [ScheduleRun use_delay])
  end.

(** A value at port 1, 2 or 3 sets a delay. *)
Definition fun_delay_recv_delay (port : nat) (bit : vvp_vector4_t) (f : vvp_fun_delay) : option vvp_fun_delay :=
  let bval := default 0 (snd (vector4_to_ulong bit)) in
  let val := time64 (bval * round_ f * scale_ f) in
  let put d := mkFunDelay d (initial_ f) (cur_vec4_ f) (list_ f) (round_ f) (scale_ f) in
  match port with
  | 1%nat => Some (put (set_rise val (delay_ f)))
  | 2%nat => Some (put (set_fall val (delay_ f)))
  | 3%nat => d ← set_decay val (delay_ f); Some (put d)
  | _ => Some f
  end.

Definition fun_delay_run_run (now : Z) (f : vvp_fun_delay) : vvp_fun_delay * list delay_output :=
  match list_ f with
  | [] => (f, [])
  | (sim_time, v) :: l =>
      if now <? sim_time then (f, [])
      else (mkFunDelay (delay_ f) false v l (round_ f) (scale_ f), [SendVec4 v])
  end.

(** * Module paths *)

Definition delay_edge (a b : vvp_bit4_t) : nat :=
  match a, b with
  | BIT4_0, BIT4_0 | BIT4_0, BIT4_1 => 0
  | BIT4_1, BIT4_0 | BIT4_1, BIT4_1 => 1
  | BIT4_0, BIT4_Z => 2
  | BIT4_Z, BIT4_1 => 3
  | BIT4_1, BIT4_Z => 4
  | BIT4_Z, BIT4_0 | BIT4_Z, BIT4_Z => 5
  | BIT4_0, BIT4_X => 6
  | BIT4_X, BIT4_1 => 7
  | BIT4_1, BIT4_X => 8
  | BIT4_X, BIT4_0 | BIT4_X, BIT4_X => 9
  | BIT4_X, BIT4_Z => 10
  | BIT4_Z, BIT4_X => 11
  end%nat.

Definition delay_from_edge (a b : vvp_bit4_t) (array : list Z) : Z := nth (delay_edge a b) array 0.

(** A source; [edge_sel] is [Some (old_value_, posedge_, negedge_)] for a [vvp_fun_modpath_edge]. *)
Record vvp_fun_modpath_src := mkSrc {
  delay12 : list Z; wake_time_ : Z; condition_flag_ : bool; edge_sel : option (vvp_bit4_t * bool * bool) }.

Definition modpath_src_new (del : list Z) : vvp_fun_modpath_src := mkSrc del 0 true None.
Definition modpath_edge_new (del : list Z) (pos neg : bool) : vvp_fun_modpath_src := mkSrc del 0 true (Some (BIT4_X, pos, neg)).
Definition put_delay12 (val : list Z) (s : vvp_fun_modpath_src) : vvp_fun_modpath_src := mkSrc val (wake_time_ s) (condition_flag_ s) (edge_sel s).

Definition src_test_vec4 (bit : vvp_vector4_t) (s : vvp_fun_modpath_src) : vvp_fun_modpath_src * bool :=
  match edge_sel s with
  | None => (s, true)
  | Some (old, pos, neg) =>
      let s := mkSrc (delay12 s) (wake_time_ s) (condition_flag_ s) (Some (value bit 0, pos, neg)) in
      let edge_flag := edge old (value bit 0) in
      (s, if 0 <? edge_flag then pos else if edge_flag <? 0 then neg else false)
  end.

Definition modpath_src_recv_vec4 (now : Z) (port : nat) (bit : vvp_vector4_t) (s : vvp_fun_modpath_src) : vvp_fun_modpath_src :=
  match port with
  | 0%nat => let '(s, hit) := src_test_vec4 bit s in if hit then mkSrc (delay12 s) now (condition_flag_ s) (edge_sel s) else s
  | 1%nat => mkSrc (delay12 s) (wake_time_ s) (bit4_eqb (value bit 0) BIT4_1) (edge_sel s)
  | _ => s
  end.

(** The functor, its sources from the last added to the first. *)
Record vvp_fun_modpath := mkModpath { mp_cur_vec4_ : vvp_vector4_t; src_list_ : list vvp_fun_modpath_src; ifnone_list_ : list vvp_fun_modpath_src }.

Definition modpath_new (width : nat) : vvp_fun_modpath * list delay_output :=
  (mkModpath (vec4_fill width BIT4_X) [] [], [InitPropagate (vec4_fill width BIT4_X)]).

Definition add_modpath_src (that : vvp_fun_modpath_src) (ifnone : bool) (m : vvp_fun_modpath) : vvp_fun_modpath :=
  if ifnone then mkModpath (mp_cur_vec4_ m) (src_list_ m) (that :: ifnone_list_ m)
  else mkModpath (mp_cur_vec4_ m) (that :: src_list_ m) (ifnone_list_ m).

(** The candidates so far and their wake time. *)
Definition pick_src (c : list vvp_fun_modpath_src * Z) (cur : vvp_fun_modpath_src) : list vvp_fun_modpath_src * Z :=
  let '(candidates, wake) := c in
  if negb (condition_flag_ cur) then c
  else match candidates with
  | [] => ([cur], wake_time_ cur)
  | _ => if wake_time_ cur =? wake then (candidates ++ [cur], wake)
         else if wake <? wake_time_ cur then ([cur], wake_time_ cur) else c
  end.

Definition pick_ifnone (candidate_wake : Z) (c : list vvp_fun_modpath_src * Z) (cur : vvp_fun_modpath_src) : list vvp_fun_modpath_src * Z :=
  let '(candidates, wake) := c in
  match candidates with
  | [] => ([cur], wake_time_ cur)
  | _ => if (wake_time_ cur =? wake) && (candidate_wake <? wake) then (candidates ++ [cur], wake)
         else if wake <? wake_time_ cur then ([cur], wake_time_ cur) else c
  end.

Definition candidate_list (m : vvp_fun_modpath) : list vvp_fun_modpath_src :=
  let '(candidates, wake) := fold_left pick_src (src_list_ m) ([], 0) in
  fst (fold_left (pick_ifnone wake) (ifnone_list_ m) (candidates, wake)).

(** The delays that are left of a source. *)
Definition remaining (now : Z) (src : vvp_fun_modpath_src) (idx : nat) : Z :=
  let tmp := time64 (wake_time_ src + nth idx (delay12 src) 0) in
  if tmp <=? now then 0 else tmp - now.

Definition out_at (now : Z) (src : vvp_fun_modpath_src) (rest : list vvp_fun_modpath_src) : list Z :=
  fold_left (fun out src => map (fun idx => let tmp := remaining now src idx in if tmp <? nth idx out 0 then tmp else nth idx out 0) (seq 0 12))
    rest (map (remaining now src) (seq 0 12)).

(** The bits that change must all have the delay of the first bit. *)
Definition modpath_recv_vec4 (now : Z) (port : nat) (bit : vvp_vector4_t) (m : vvp_fun_modpath) : option (vvp_fun_modpath * list delay_output) :=
  if (0 <? port)%nat then Some (m, [])
  else if eeq (mp_cur_vec4_ m) bit then Some (m, [])
  else
    let put := mkModpath bit (src_list_ m) (ifnone_list_ m) in
    match candidate_list m with
    | [] => Some (put, [ScheduleRun 0])
    | src :: rest =>
        let out := out_at now src rest in
        let cur := mp_cur_vec4_ m in
        let use_delay := delay_from_edge (value cur 0) (value bit 0) out in
        if forallb (fun idx => bit4_eqb (value cur idx) (value bit idx) || (delay_from_edge (value cur idx) (value bit idx) out =? use_delay))
             (seq 1 (size bit - 1))
        then Some (put, [ScheduleRun use_delay]) else None
    end.

Definition modpath_run_run (m : vvp_fun_modpath) : list delay_output := [SendVec4 (mp_cur_vec4_ m)].

(** The twelve delays from the ones given ([modpath_src_put_delays]). *)
Definition delay_map (no_of_delays : nat) : option (list nat) :=
  match no_of_delays with
  | 1 => Some [0; 0; 0; 0; 0; 0; 0; 0; 0; 0; 0; 0]
  | 2 => Some [0; 1; 0; 0; 1; 1; 0; 0; 0; 0; 0; 0]
  | 3 => Some [0; 1; 2; 0; 2; 1; 0; 0; 0; 0; 0; 0]
  | 6 => Some [0; 1; 2; 3; 4; 5; 0; 0; 0; 0; 0; 0]
  | 12 => Some [0; 1; 2; 3; 4; 5; 6; 7; 8; 9; 10; 11]
  | _ => None
  end%nat.

Definition modpath_src_put_delays (da : list Z) (s : vvp_fun_modpath_src) : option vvp_fun_modpath_src :=
  use_map ← delay_map (length da);
  let tmp := map (fun i => nth i da 0) use_map in
  let at_ i := nth i tmp 0 in
  let min a b := if at_ a <? at_ b then at_ a else at_ b in
  let max a b := if at_ b <? at_ a then at_ a else at_ b in
  Some (put_delay12 (if (length da <=? 6)%nat
    then firstn 6 tmp ++ [min 2 0; max 3 0; min 4 1; max 5 1; max 4 2; min 3 5]%nat else tmp) s).
