(* ===== verification/DelayProps.v ===== *)
(** Delays: the delay of every transition, the pulses that a delay drops, the choice of the
    sources of a module path. *)
From stdpp Require Import relations.
From S2P Require Import Prelude MachineWord VvpBit VvpVector4 VvpArith BitList Delay.

(** * The delays of a transition *)

Inductive delay_set := Rise (val : Z) | Fall (val : Z) | Decay (val : Z).

Definition apply_set (d : vvp_delay_t) (s : delay_set) : option vvp_delay_t :=
  match s with Rise v => Some (set_rise v d) | Fall v => Some (set_fall v d) | Decay v => set_decay v d end.

Fixpoint apply_sets (sets : list delay_set) (d : vvp_delay_t) : option vvp_delay_t :=
  match sets with [] => Some d | s :: sets => d ← apply_set d s; apply_sets sets d end.

(** The last values set. *)
Definition last_set (x : Z * Z * Z) (s : delay_set) : Z * Z * Z :=
  let '(r, f, z) := x in match s with Rise v => (v, f, z) | Fall v => (r, v, z) | Decay v => (r, f, v) end.

(** The delay that the language asks for. *)
Definition delay_of (ign : bool) (x : Z * Z * Z) (from to : vvp_bit4_t) : Z :=
  let '(r, f, z) := x in
  let z := if ign then Z.min r f else z in
  if bit4_eqb from to then 0
  else match to with BIT4_1 => r | BIT4_0 => f | BIT4_Z => z | BIT4_X => Z.min (Z.min r f) z end.

Record delay_is (ign : bool) (x : Z * Z * Z) (d : vvp_delay_t) : Prop := {
  is_rise : rise_ d = fst (fst x); is_fall : fall_ d = snd (fst x); is_ign : ignore_decay_ d = ign;
  is_decay : decay_ d = if ign then Z.min (rise_ d) (fall_ d) else snd x;
  is_min : min_delay_ d = Z.min (Z.min (rise_ d) (fall_ d)) (decay_ d) }.

Lemma min_delay_is (ign : bool) x d : rise_ d = fst (fst x) -> fall_ d = snd (fst x) -> ignore_decay_ d = ign -> (ign = false -> decay_ d = snd x) ->
  delay_is ign x (calculate_min_delay_ d).
Proof.
  intros Hr Hf <- Hz. unfold calculate_min_delay_. destruct (ignore_decay_ d) eqn:E; split; cbn; auto; try (rewrite E; done).
  all: destruct (Z.ltb_spec (fall_ d) (rise_ d)); try case_cmp; lia.
Qed.

Lemma apply_set_is ign x d s : delay_is ign x d -> (ign = true -> match s with Decay _ => False | _ => True end) ->
  exists d', apply_set d s = Some d' /\ delay_is ign (last_set x s) d'.
Proof.
  intros [Hr Hf Hi Hz Hm] Hs. destruct x as [[r f] z]. destruct s as [v|v|v]; cbn [apply_set last_set].
  - eexists; split; [done|]. unfold set_rise. destruct (Z.ltb_spec v (min_delay_ d)); [|by apply min_delay_is; cbn in *; try done; intros ->].
    rewrite Hi. split; cbn in *; try done; destruct ign; lia.
  - eexists; split; [done|]. unfold set_fall. destruct (Z.ltb_spec v (min_delay_ d)); [|by apply min_delay_is; cbn in *; try done; intros ->].
    rewrite Hi. split; cbn in *; try done; destruct ign; lia.
  - unfold set_decay. rewrite Hi. destruct ign; [by destruct (Hs eq_refl)|]. eexists; split; [done|].
    destruct (Z.ltb_spec v (min_delay_ d)); [split; cbn in *; try done; lia|by apply min_delay_is].
Qed.

Lemma get_delay_is ign x d from to : delay_is ign x d -> get_delay d from to = delay_of ign x from to.
Proof.
  intros [Hr Hf Hi Hz Hm]. destruct x as [[r f] z]. cbn in *. rewrite Hr, Hf in Hz. rewrite Hr, Hf, Hz in Hm.
  by destruct from, to.
Qed.

Lemma apply_sets_is ign sets : Forall (fun s => ign = true -> match s with Decay _ => False | _ => True end) sets ->
  forall x d, delay_is ign x d -> exists d', apply_sets sets d = Some d' /\ delay_is ign (fold_left last_set sets x) d'.
Proof.
  intros HS. induction HS as [|s sets Hs HS IH]; intros x d Hd; [by exists d|]. cbn [apply_sets fold_left].
  destruct (apply_set_is ign x d s Hd Hs) as (d1 & -> & Hd1). by apply IH.
Qed.

(** Whatever delays are set after another at the ports of a delay functor, the delay of a
    transition is the rise delay to 1, the fall delay to 0, the decay delay to Z, and the least of
    the three to X, with the values set last; when the decay delay is to be ignored the lesser of rise and fall stands for it. *)
Theorem delay_settings r f z (ign : bool) sets :
  Forall (fun s => ign = true -> match s with Decay _ => False | _ => True end) sets ->
  exists d, apply_sets sets (if ign then set_ignore_decay (delay_new3 r f z) else delay_new3 r f z) = Some d /\
    forall from to, get_delay d from to = delay_of ign (fold_left last_set sets (r, f, z)) from to.
Proof.
  intros HS. assert (Hd : delay_is ign (r, f, z) (if ign then set_ignore_decay (delay_new3 r f z) else delay_new3 r f z)).
  { destruct ign; by apply min_delay_is. }
  destruct (apply_sets_is ign sets HS _ _ Hd) as (d & E & Hd'). exists d. split; [done|]. intros from to. by apply get_delay_is.
Qed.

Lemma delay_settings_witness :
  let sets := [Rise 9; Fall 1; Rise 4] in
  Forall (fun s => true = true -> match s with Decay _ => False | _ => True end) sets /\
  exists d, apply_sets sets (set_ignore_decay (delay_new3 3 5 7)) = Some d /\
    forall from to, get_delay d from to = delay_of true (fold_left last_set sets (3, 5, 7)%Z) from to.
Proof. split; [by repeat constructor|]. apply (delay_settings 3 5 7 true). by repeat constructor. Defined.

(** * Pulses *)

(** A delay functor with the scheduler around it: the time, the runs scheduled, the values that
    arrived, each with the delay that it was given, and the values sent, each with its time. *)
Record line := mkLine {
  ln_now : Z; ln_f : vvp_fun_delay; ln_wakes : list Z;
  ln_hist : list (Z * vvp_vector4_t * Z); ln_log : list (Z * vvp_vector4_t) }.

Definition runs (now : Z) (out : list delay_output) : list Z := omap (fun o => match o with ScheduleRun d => Some (now + d) | _ => None end) out.
Definition sends (now : Z) (out : list delay_output) : list (Z * vvp_vector4_t) := omap (fun o => match o with SendVec4 v => Some (now, v) | _ => None end) out.

Definition line_new (width : nat) (d : vvp_delay_t) (units precision sim_precision now : Z) : line :=
  mkLine now (fst (fun_delay_new width d units precision sim_precision)) [] [] [].

(** A value arrives when no run is due; a run happens at its time; time does not pass a run. *)
Inductive line_step (n : nat) : line -> line -> Prop :=
| line_arrive s bit f out : wf4 bit -> size bit = n -> Forall (fun w => ln_now s < w) (ln_wakes s) ->
    fun_delay_recv_vec4 (ln_now s) bit (ln_f s) = (f, out) ->
    line_step n s (mkLine (ln_now s) f (ln_wakes s ++ runs (ln_now s) out)
      (ln_hist s ++ [(ln_now s, bit, select_delay (ln_now s) bit (ln_f s))]) (ln_log s ++ sends (ln_now s) out))
| line_run s w1 w2 f out : ln_wakes s = w1 ++ ln_now s :: w2 -> fun_delay_run_run (ln_now s) (ln_f s) = (f, out) ->
    line_step n s (mkLine (ln_now s) f (w1 ++ w2) (ln_hist s) (ln_log s ++ sends (ln_now s) out))
| line_tick s t : ln_now s < t < 2 ^ 62 -> Forall (fun w => t <= w) (ln_wakes s) ->
    line_step n s (mkLine t (ln_f s) (ln_wakes s) (ln_hist s) (ln_log s)).

(** [v] was sent at [t] because it arrived its delay before and nothing else arrived since. *)
Definition held (hist : list (Z * vvp_vector4_t * Z)) (t : Z) (v : vvp_vector4_t) : Prop :=
  exists h1 t0 d h2, hist = h1 ++ (t0, v, d) :: h2 /\ 0 <= d /\ t = t0 + d /\
    Forall (fun e => fst (fst e) < t -> eeq v (snd (fst e)) = true) h2.

Definition bounded (d : vvp_delay_t) : Prop := forall from to, 0 <= get_delay d from to <= 2 ^ 62.

(** What holds at every moment: one value at most waits, and its run is scheduled. *)
Record line_ok (n : nat) (s : line) : Prop := {
  ok_now : 0 <= ln_now s < 2 ^ 62;
  ok_delay : bounded (delay_ (ln_f s));
  ok_hist : Forall (fun e => fst (fst e) <= ln_now s /\ wf4 (snd (fst e)) /\ size (snd (fst e)) = n) (ln_hist s);
  ok_log : Forall (fun e => fst e <= ln_now s /\ held (ln_hist s) (fst e) (snd e)) (ln_log s);
  ok_list : match list_ (ln_f s) with
    | [] => forall h t0 v d, ln_hist s = h ++ [(t0, v, d)] -> exists l t u, ln_log s = l ++ [(t, u)] /\ eeq u v = true
    | [(t, v)] => ln_now s <= t /\ t < 2 ^ 63 /\ t ∈ ln_wakes s /\ (exists h1 t0 d h2, ln_hist s = h1 ++ (t0, v, d) :: h2 /\ 0 <= d /\ t = t0 + d /\
        Forall (fun e => eeq v (snd (fst e)) = true) h2)
    | _ => False
    end }.

Lemma longest_delay_bounded d n from to : bounded d -> 0 <= longest_delay d n from to <= 2 ^ 62.
Proof.
  intros Hd. unfold longest_delay. pose proof (Hd (from 0%nat) (to 0%nat)) as H0. revert H0. generalize (get_delay d (from 0%nat) (to 0%nat)).
  induction (seq 1 (n - 1)) as [|i l IH]; intros u Hu; cbn [fold_left]; [done|]. apply IH. case_cmp; [apply Hd|done].
Qed.

Lemma select_delay_bounded now bit f : bounded (delay_ f) -> 0 <= select_delay now bit f <= 2 ^ 62.
Proof. intros Hd. unfold select_delay. destruct (initial_ f); by apply longest_delay_bounded. Qed.

Lemma held_later hist t v e : held hist t v -> t <= fst (fst e) -> held (hist ++ [e]) t v.
Proof.
  intros (h1 & t0 & d & h2 & -> & Hd & Ht & H2) He. exists h1, t0, d, (h2 ++ [e]). split; [by rewrite <- app_assoc|]. split_and!; try done.
  apply Forall_app. split; [done|]. constructor; [lia|done].
Qed.

Lemma held_new hist now t v d : 0 <= d -> t = now + d -> held (hist ++ [(now, v, d)]) t v.
Proof. intros Hd Ht. exists hist, now, d, []. split_and!; try done. Qed.

Lemma held_list hist t v : (exists h1 t0 d h2, hist = h1 ++ (t0, v, d) :: h2 /\ 0 <= d /\ t = t0 + d /\ Forall (fun e => eeq v (snd (fst e)) = true) h2) ->
  held hist t v.
Proof.
  intros (h1 & t0 & d & h2 & -> & Hd & Ht & H2). exists h1, t0, d, h2. split_and!; try done. eapply Forall_impl; [|exact H2]. done.
Qed.

Lemma eeq_refl v : wf4 v -> eeq v v = true. Proof. intros Hv. by apply eeq_spec. Qed.

(** ** The steps *)

Lemma time64_small t : 0 <= t < 2 ^ 64 -> time64 t = t. Proof. apply Z.mod_small. Qed.

Lemma clean_one now use t v : 0 <= now < 2 ^ 62 -> 0 <= use <= 2 ^ 62 -> now < t < 2 ^ 63 -> clean_events now use [(t, v)] = [].
Proof. intros Hn Hu Ht. cbn. rewrite !time64_small by lia. by rewrite (proj2 (Z.leb_gt _ _)) by lia. Qed.

Lemma exists_last_or {A} (l : list A) : l = [] \/ exists l' x, l = l' ++ [x].
Proof. destruct l as [|a l]; [by left|right]. destruct (@exists_last _ (a :: l)) as (l' & x & E); [done|]. by exists l', x. Qed.

Lemma wakes_later s w : Forall (fun w => ln_now s < w) (ln_wakes s) -> w ∈ ln_wakes s -> ln_now s < w.
Proof. intros H Hw. rewrite Forall_forall in H. by apply H, list_elem_of_In. Qed.

Lemma log_later hist now log e : Forall (fun x => fst x <= now /\ held hist (fst x) (snd x)) log -> now <= fst (fst e) ->
  Forall (fun x => fst x <= now /\ held (hist ++ [e]) (fst x) (snd x)) log.
Proof. intros H He. eapply Forall_impl; [|exact H]. intros [t v] [Ht Hh]. split; [done|]. apply held_later; cbn in *; [done|lia]. Qed.

Lemma line_arrive_ok n s bit f out : line_ok n s -> wf4 bit -> size bit = n -> Forall (fun w => ln_now s < w) (ln_wakes s) ->
  fun_delay_recv_vec4 (ln_now s) bit (ln_f s) = (f, out) ->
  line_ok n (mkLine (ln_now s) f (ln_wakes s ++ runs (ln_now s) out)
      (ln_hist s ++ [(ln_now s, bit, select_delay (ln_now s) bit (ln_f s))]) (ln_log s ++ sends (ln_now s) out)).
Proof.
  intros [Hn Hd Hh Hl Hq] Wb Sb Hw. unfold fun_delay_recv_vec4. set (now := ln_now s). set (g := ln_f s). set (d := select_delay now bit g).
  pose proof (select_delay_bounded now bit g Hd) as Hb. fold d in Hb.
  assert (Hh' : Forall (fun e => fst (fst e) <= now /\ wf4 (snd (fst e)) /\ size (snd (fst e)) = n) (ln_hist s ++ [(now, bit, d)])).
  { apply Forall_app. split; [done|]. apply List.Forall_cons; [|apply List.Forall_nil]. cbn. split_and!; [lia|done|done]. }
  assert (Hl' : Forall (fun x => fst x <= now /\ held (ln_hist s ++ [(now, bit, d)]) (fst x) (snd x)) (ln_log s)) by (apply log_later; [done|cbn; lia]).
  assert (Hclean : clean_pulse_events_ now d bit (list_ g) = None /\ (exists t v, list_ g = [(t, v)] /\ eeq v bit = true) \/ clean_pulse_events_ now d bit (list_ g) = Some []).
  { fold g in Hq. destruct (list_ g) as [|[t v] [|? ?]]; [by right| |done]. destruct Hq as (Ht & Htb & Hin & _). pose proof (wakes_later s t Hw Hin) as Hlt.
    cbn [clean_pulse_events_]. destruct (eeq v bit) eqn:E; [left; split; [done|by exists t, v]|right]. by rewrite clean_one by lia. }
  destruct Hclean as [[-> (t & v & EL & E)] | ->].
  - intros [= <- <-]. fold g in Hq. rewrite EL in Hq. destruct Hq as (Ht & Htb & Hin & h1 & t0 & d0 & h2 & EH & Hd0 & Et & H2).
    cbn [runs sends omap]. split; cbn [ln_now ln_f ln_hist ln_log ln_wakes]; try done; rewrite ?app_nil_r; try done.
    fold g. rewrite EL. split_and!; try done. exists h1, t0, d0, (h2 ++ [(now, bit, d)]). split; [by rewrite EH, <- app_assoc|].
    split_and!; try done. apply Forall_app. split; [done|]. apply List.Forall_cons; [done|apply List.Forall_nil].
  - destruct (Z.eqb_spec d 0) as [Ed|Ed]; cbn [andb]; intros [= <- <-]; cbn [runs sends omap app]; split; cbn [ln_now ln_f ln_hist ln_log ln_wakes delay_ list_ cur_vec4_]; try done; rewrite ?app_nil_r; try done.
    + apply Forall_app. split; [done|]. constructor; [|done]. split; [done|]. apply held_new; cbn; lia.
    + intros h t0 v d0 [_ [= _ <- _]]%app_inj_tail. eexists _, _, _. split; [done|]. by apply eeq_refl.
    + rewrite time64_small by lia. split_and!; try lia; [apply elem_of_app; right; by constructor|].
      exists (ln_hist s), now, d, []. split_and!; try done; lia.
Qed.

Lemma line_run_ok n s w1 w2 f out : line_ok n s -> ln_wakes s = w1 ++ ln_now s :: w2 -> fun_delay_run_run (ln_now s) (ln_f s) = (f, out) ->
  line_ok n (mkLine (ln_now s) f (w1 ++ w2) (ln_hist s) (ln_log s ++ sends (ln_now s) out)).
Proof.
  intros [Hn Hd Hh Hl Hq] Ew. unfold fun_delay_run_run. set (now := ln_now s) in *. set (g := ln_f s) in *.
  assert (HW : forall t, t ∈ ln_wakes s -> now < t -> t ∈ w1 ++ w2).
  { intros t. rewrite Ew, !elem_of_app, elem_of_cons. intros [H | [-> | H]] Hlt; [by left|lia|by right]. }
  destruct (list_ g) as [|[t v] l] eqn:EL.
  - intros [= <- <-]. cbn [sends omap]. split; cbn [ln_now ln_f ln_hist ln_log ln_wakes]; try done; rewrite ?app_nil_r; try done. by rewrite EL.
  - destruct l as [|? ?]; [|done]. destruct Hq as (Ht & Htb & Hin & Hx). destruct (Z.ltb_spec now t) as [Hlt|Hlt]; intros [= <- <-]; cbn [sends omap].
    + split; cbn [ln_now ln_f ln_hist ln_log ln_wakes]; try done; rewrite ?app_nil_r; try done. rewrite EL. split_and!; auto.
    + assert (t = now) as -> by lia. split; cbn [ln_now ln_f ln_hist ln_log ln_wakes delay_ list_ cur_vec4_]; try done.
      * apply Forall_app. split; [done|]. constructor; [|done]. split; [done|]. by apply held_list.
      * destruct Hx as (h1 & t0 & d & h2 & EH & _ & _ & H2). intros h t1 v1 d1 EH'. eexists _, _, _. split; [done|]. destruct (exists_last_or h2) as [->|(h2' & x & ->)].
        -- rewrite EH in EH'. apply app_inj_tail in EH' as [_ [= _ <- _]]. apply eeq_refl. rewrite EH in Hh. apply Forall_app in Hh as [_ Hh]. apply Forall_inv in Hh. apply Hh.
        -- rewrite EH, app_comm_cons, app_assoc in EH'. apply app_inj_tail in EH' as [_ ->]. apply Forall_app in H2 as [_ H2]. by apply Forall_inv in H2.
Qed.

Lemma line_step_ok n s s' : line_ok n s -> line_step n s s' -> line_ok n s'.
Proof.
  intros Hs H. destruct H as [s bit f out Wb Sb Hw E|s w1 w2 f out Ew E|s t Ht Hw]; [by apply (line_arrive_ok n s bit f out)|by apply (line_run_ok n s w1 w2 f out)|].
  destruct Hs as [Hn Hd Hh Hl Hq]. split; cbn [ln_now ln_f ln_hist ln_log ln_wakes]; try done; [lia| | |].
  - eapply Forall_impl; [|exact Hh]. intros e (He & Hx). split; [lia|done].
  - eapply Forall_impl; [|exact Hl]. intros e (He & Hx). split; [lia|done].
  - destruct (list_ (ln_f s)) as [|[t1 v] [|? ?]]; try done. destruct Hq as (Ht1 & Htb & Hin & Hx). split_and!; try done.
    rewrite Forall_forall in Hw. by apply Hw, list_elem_of_In.
Qed.

(** C20: A functor with bounded delays, whose runs happen at their times and before the values
    that arrive then: each value sent arrived earlier by exactly its delay, and no other value
    arrived in between, so that a pulse shorter than its delay is never seen; and when no run is
    scheduled any more the last value sent is the last that arrived. *)
Theorem delay_line n d units precision sim_precision now s : bounded d -> 0 <= now < 2 ^ 62 ->
  rtc (line_step n) (line_new n d units precision sim_precision now) s ->
  Forall (fun e => held (ln_hist s) (fst e) (snd e)) (ln_log s) /\
  (ln_wakes s = [] -> forall h t0 v d0, ln_hist s = h ++ [(t0, v, d0)] -> exists l t u, ln_log s = l ++ [(t, u)] /\ eeq u v = true).
Proof.
  intros Hd Hn H. assert (Hs : line_ok n s).
  { assert (H0 : line_ok n (line_new n d units precision sim_precision now)) by (split; cbn; try done; by intros [|? ?]).
    induction H as [|x y z Hxy _ IH]; [done|]. apply IH. by apply (line_step_ok n x). }
  destruct Hs as [_ _ _ Hl Hq]. split; [eapply Forall_impl; [|exact Hl]; by intros e [_ He]|]. intros Hw.
  destruct (list_ (ln_f s)) as [|[t v] [|? ?]]; try done. destruct Hq as (_ & _ & Hin & _). rewrite Hw in Hin. by apply elem_of_nil in Hin.
Qed.

Definition demo_delay : vvp_delay_t := delay_new3 2 2 2.

Lemma demo_bounded : bounded demo_delay. Proof. intros from to. by destruct from, to. Qed.

(** A 1 that lasts one unit of time is dropped. *)
Lemma delay_line_witness : bounded demo_delay /\ 0 <= 0 < 2 ^ 62 /\ exists s,
  rtc (line_step 1) (line_new 1 demo_delay 0 0 0 0) s /\ map (fun e => (fst e, value (snd e) 0)) (ln_log s) = [(3, BIT4_0)] /\
  Forall (fun e => held (ln_hist s) (fst e) (snd e)) (ln_log s) /\
  (ln_wakes s = [] -> forall h t0 v d0, ln_hist s = h ++ [(t0, v, d0)] -> exists l t u, ln_log s = l ++ [(t, u)] /\ eeq u v = true).
Proof.
  split; [apply demo_bounded|]. split; [lia|]. eexists. split; [|split; [|apply (delay_line 1 demo_delay 0 0 0 0); [apply demo_bounded|lia|]]].
  1, 3: eapply rtc_l; [eapply (line_arrive 1 _ (vec4_fill 1 BIT4_1)); [apply vec4_fill_spec|done|apply List.Forall_nil|vm_compute; reflexivity]|];
    eapply rtc_l; [eapply (line_tick 1 _ 1); [cbn; lia|by repeat constructor]|];
    eapply rtc_l; [eapply (line_arrive 1 _ (vec4_fill 1 BIT4_0)); [apply vec4_fill_spec|done|by repeat constructor|vm_compute; reflexivity]|];
    eapply rtc_l; [eapply (line_tick 1 _ 2); [cbn; lia|by repeat constructor]|];
    eapply rtc_l; [eapply (line_run 1 _ [] [3]); [reflexivity|vm_compute; reflexivity]|];
    eapply rtc_l; [eapply (line_tick 1 _ 3); [cbn; lia|by repeat constructor]|];
    eapply rtc_l; [eapply (line_run 1 _ [] []); [reflexivity|vm_compute; reflexivity]|]; apply rtc_refl.
  vm_compute. reflexivity.
Defined.

(** ** Where values are lost *)

(** A run is due when two values arrive: the second is compared with the oldest event, taken
    for a repetition and dropped, and the functor ends at the first. *)
Example delay_drops_last :
  let one := vec4_fill 1 BIT4_1 in let zero := vec4_fill 1 BIT4_0 in
  let f := fst (fun_delay_new 1 (delay_new3 5 7 3) 0 0 0) in
  let f := fst (fun_delay_recv_vec4 0 one f) in
  let f := fst (fun_delay_recv_vec4 5 zero f) in
  let f := fst (fun_delay_recv_vec4 5 one f) in
  let f := fst (fun_delay_run_run 5 f) in
  let '(f, out) := fun_delay_run_run 12 f in (out, list_ f) = ([SendVec4 zero], []).
Proof. vm_compute. reflexivity. Qed.

(** * Module paths *)


(** * Module paths *)

(** The latest wake time of a list. *)
Definition latest (l : list vvp_fun_modpath_src) : Z := fold_left (fun w x => Z.max w (wake_time_ x)) l 0.
Definition woken_at (w : Z) (l : list vvp_fun_modpath_src) : list vvp_fun_modpath_src := List.filter (fun x => wake_time_ x =? w) l.

(** The sources that apply: those enabled that woke last, unless an ifnone source woke later;
    without an enabled source and without any that woke, the first ifnone source. *)
Definition path_candidates (m : vvp_fun_modpath) : list vvp_fun_modpath_src :=
  let enabled := List.filter condition_flag_ (src_list_ m) in
  if latest enabled <? latest (ifnone_list_ m) then woken_at (latest (ifnone_list_ m)) (ifnone_list_ m)
  else match enabled with [] => firstn 1 (ifnone_list_ m) | _ => woken_at (latest enabled) enabled end.

Lemma nil_or {A} (l : list A) : sumbool (l = nil) (l <> nil). Proof. destruct l; [left|right]; done. Qed.

Lemma latest_snoc l x : latest (l ++ [x]) = Z.max (latest l) (wake_time_ x). Proof. unfold latest. by rewrite fold_left_app. Qed.

Lemma latest_ge l : 0 <= latest l /\ Forall (fun x => wake_time_ x <= latest l) l.
Proof.
  induction l as [|x l [H0 IH]] using rev_ind; [done|]. rewrite latest_snoc. split; [lia|]. apply Forall_app. split.
  - eapply Forall_impl; [|exact IH]. cbn. lia.
  - apply List.Forall_cons; [lia|apply List.Forall_nil].
Qed.

Lemma woken_snoc w l x : woken_at w (l ++ [x]) = woken_at w l ++ (if wake_time_ x =? w then [x] else []).
Proof. unfold woken_at. rewrite List.filter_app. cbn. by destruct (wake_time_ x =? w). Qed.

Lemma woken_later w l : latest l < w -> woken_at w l = [].
Proof.
  intros Hw. destruct (latest_ge l) as [_ HF]. unfold woken_at. induction HF as [|x l' Hx HF IH]; [done|]. cbn.
  rewrite (proj2 (Z.eqb_neq _ _)) by lia. apply IH.
Qed.

Lemma woken_some l : l <> [] -> Forall (fun x => 0 <= wake_time_ x) l -> woken_at (latest l) l <> [].
Proof.
  induction l as [|x l IH] using rev_ind; [done|]. intros _ HF. apply Forall_app in HF as [HF Hx]. apply Forall_inv in Hx.
  rewrite latest_snoc, woken_snoc. destruct (Z.leb_spec (latest l) (wake_time_ x)).
  - rewrite Z.max_r, Z.eqb_refl by done. intros E. by apply app_eq_nil in E as [_ E].
  - rewrite Z.max_l by lia. destruct (nil_or l) as [-> | Hne]; [cbn in *; lia|]. intros E. apply app_eq_nil in E as [E _]. by apply (IH Hne HF).
Qed.

(** The first loop. *)
Lemma pick_loop l : Forall (fun x => 0 <= wake_time_ x) l ->
  let en := List.filter condition_flag_ l in fold_left pick_src l ([], 0) = (woken_at (latest en) en, latest en).
Proof.
  induction l as [|x l IH] using rev_ind; [done|]. intros HF. apply Forall_app in HF as [HF Hx]. apply Forall_inv in Hx. cbn zeta in *.
  rewrite fold_left_app, IH by done. cbn [fold_left]. unfold pick_src. rewrite List.filter_app. cbn [List.filter].
  set (en := List.filter condition_flag_ l). destruct (condition_flag_ x); cbn [negb]; [|by rewrite app_nil_r].
  rewrite latest_snoc, woken_snoc. destruct (woken_at (latest en) en) as [|y c] eqn:Ec.
  - assert (Hen : en = []).
    { destruct (nil_or en) as [|Hne]; [done|]. exfalso. apply (woken_some en Hne); [|done].
      apply Forall_forall. intros z [Hz _]%filter_In. rewrite Forall_forall in HF. by apply HF. }
    rewrite Hen. cbn. by rewrite Z.max_r, Z.eqb_refl by done.
  - destruct (Z.eqb_spec (wake_time_ x) (latest en)) as [E|E].
    + rewrite Z.max_l, E, Z.eqb_refl, Ec by lia. done.
    + destruct (Z.ltb_spec (latest en) (wake_time_ x)).
      * rewrite Z.max_r, Z.eqb_refl, woken_later by lia. done.
      * rewrite Z.max_l by lia. rewrite (proj2 (Z.eqb_neq _ _)) by done. by rewrite app_nil_r, Ec.
Qed.

(** The second loop, from candidates [c0] that woke at [w0]. *)
Lemma ifnone_loop c0 w0 l : Forall (fun x => 0 <= wake_time_ x) l -> 0 <= w0 -> (c0 = [] -> w0 = 0) ->
  fold_left (pick_ifnone w0) l (c0, w0) =
    if w0 <? latest l then (woken_at (latest l) l, latest l) else match c0 with [] => (firstn 1 l, w0) | _ => (c0, w0) end.
Proof.
  intros HF H0 Hc. induction l as [|x l IH] using rev_ind.
  { cbn. rewrite (proj2 (Z.ltb_ge _ _)) by lia. by destruct c0. }
  apply Forall_app in HF as [HF Hx]. apply Forall_inv in Hx. rewrite fold_left_app, IH by done. cbn [fold_left]. rewrite latest_snoc, woken_snoc.
  destruct (latest_ge l) as [Hl0 _]. destruct (Z.ltb_spec w0 (latest l)) as [Hl|Hl].
  - rewrite (proj2 (Z.ltb_lt w0 (Z.max _ _))) by lia. unfold pick_ifnone. destruct (woken_at (latest l) l) as [|y c] eqn:Ec.
    { exfalso. apply (woken_some l); [|done..]. intros ->. cbn in Hl. lia. }
    rewrite (proj2 (Z.ltb_lt w0 (latest l))), andb_true_r by done. destruct (Z.eqb_spec (wake_time_ x) (latest l)) as [E|E].
    + rewrite Z.max_l, E, Z.eqb_refl, Ec by lia. done.
    + destruct (Z.ltb_spec (latest l) (wake_time_ x)).
      * rewrite Z.max_r, Z.eqb_refl, woken_later by lia. done.
      * rewrite Z.max_l by lia. rewrite (proj2 (Z.eqb_neq _ _)) by done. by rewrite app_nil_r, Ec.
  - unfold pick_ifnone. destruct c0 as [|y c0].
    + specialize (Hc eq_refl). subst w0. destruct l as [|z l]; cbn [firstn app].
      * cbn [latest fold_left] in *. destruct (Z.ltb_spec 0 (Z.max 0 (wake_time_ x))); [rewrite Z.max_r, Z.eqb_refl by lia; done|]. f_equal. lia.
      * assert (latest (z :: l) = 0) as E0 by lia. rewrite E0, Z.max_r by done. rewrite Z.ltb_irrefl, andb_false_r. destruct (Z.ltb_spec 0 (wake_time_ x)); [|done].
        rewrite Z.eqb_refl, woken_later by lia. done.
    + rewrite Z.ltb_irrefl, andb_false_r. destruct (Z.ltb_spec w0 (wake_time_ x)).
      * rewrite (proj2 (Z.ltb_lt w0 (Z.max _ _))), Z.max_r, Z.eqb_refl, woken_later by lia. done.
      * rewrite (proj2 (Z.ltb_ge w0 (Z.max _ _))) by lia. done.
Qed.

Definition src_ok (now : Z) (x : vvp_fun_modpath_src) : Prop :=
  0 <= wake_time_ x /\ length (delay12 x) = 12%nat /\ Forall (fun d => 0 <= d /\ wake_time_ x + d < 2 ^ 64) (delay12 x).

Lemma candidate_list_is m : Forall (fun x => 0 <= wake_time_ x) (src_list_ m) -> Forall (fun x => 0 <= wake_time_ x) (ifnone_list_ m) ->
  candidate_list m = path_candidates m.
Proof.
  intros HS HI. unfold candidate_list, path_candidates. rewrite pick_loop by done. set (en := List.filter condition_flag_ (src_list_ m)).
  destruct (latest_ge en) as [He _]. rewrite ifnone_loop; [|done..|].
  - destruct (latest en <? latest (ifnone_list_ m)); [done|]. destruct en as [|y en'] eqn:Ee; [done|].
    assert (woken_at (latest (y :: en')) (y :: en') <> []).
    { apply woken_some; [done|]. rewrite <- Ee. apply Forall_forall. intros z [Hz _]%filter_In. rewrite Forall_forall in HS. by apply HS. }
    by destruct (woken_at _ _).
  - intros E. destruct (nil_or en) as [-> | Hne]; [done|]. exfalso. apply (woken_some en Hne); [|done].
    apply Forall_forall. intros z [Hz _]%filter_In. rewrite Forall_forall in HS. by apply HS.
Qed.

(** The time that is left until [shortest] after the wake time. *)
Definition shortest (e : nat) (src : vvp_fun_modpath_src) (rest : list vvp_fun_modpath_src) : Z :=
  fold_left (fun d x => Z.min d (nth e (delay12 x) 0)) rest (nth e (delay12 src) 0).
Definition path_delay (now : Z) (src : vvp_fun_modpath_src) (rest : list vvp_fun_modpath_src) (e : nat) : Z :=
  Z.max 0 (wake_time_ src + shortest e src rest - now).

Lemma remaining_is now x e : src_ok now x -> (e < 12)%nat -> remaining now x e = Z.max 0 (wake_time_ x + nth e (delay12 x) 0 - now).
Proof.
  intros (H0 & HL & HF) He. rewrite Forall_forall in HF. destruct (HF (nth e (delay12 x) 0)) as [H1 H2]; [apply nth_In; lia|].
  unfold remaining. rewrite time64_small by lia. case_cmp; lia.
Qed.

Lemma nth_tabulate (f : nat -> Z) e : (e < 12)%nat -> nth e (map f (seq 0 12)) 0 = f e.
Proof. intros He. do 12 (destruct e as [|e]; [done|]). lia. Qed.

Lemma out_at_is now src rest e : Forall (fun x => src_ok now x /\ wake_time_ x = wake_time_ src) (src :: rest) -> (e < 12)%nat ->
  nth e (out_at now src rest) 0 = path_delay now src rest e.
Proof.
  intros HF He. apply List.Forall_cons_iff in HF as [[Hs _] HF]. unfold path_delay, shortest, out_at.
  assert (HH : forall d out, nth e out 0 = Z.max 0 (wake_time_ src + d - now) ->
    nth e (fold_left (fun out src => map (fun idx => let tmp := remaining now src idx in if tmp <? nth idx out 0 then tmp else nth idx out 0) (seq 0 12)) rest out) 0 =
    Z.max 0 (wake_time_ src + fold_left (fun d x => Z.min d (nth e (delay12 x) 0)) rest d - now)).
  { induction HF as [|x l [Hx Hw] HF IH]; intros d out Ho; cbn [fold_left]; [done|]. apply IH. rewrite nth_tabulate, Ho, remaining_is, Hw by done. case_cmp; lia. }
  apply HH. rewrite nth_tabulate by done. by apply remaining_is.
Qed.

Lemma delay_edge_lt a b : (delay_edge a b < 12)%nat. Proof. destruct a, b; cbn; lia. Qed.

Lemma woken_spec w l x : In x (woken_at w l) -> In x l /\ wake_time_ x = w.
Proof. intros [H E]%filter_In. split; [done|]. by apply Z.eqb_eq. Qed.

Lemma candidates_ok now m : Forall (src_ok now) (src_list_ m) -> Forall (src_ok now) (ifnone_list_ m) ->
  exists w, Forall (fun x => src_ok now x /\ wake_time_ x = w) (path_candidates m).
Proof.
  intros HS HI. rewrite Forall_forall in HS. unfold path_candidates.
  set (en := List.filter condition_flag_ (src_list_ m)).
  destruct (latest en <? _); [exists (latest (ifnone_list_ m))|destruct en as [|y en'] eqn:E].
  - rewrite Forall_forall in HI. apply Forall_forall. intros x [Hx Hw]%woken_spec. split; [by apply HI|done].
  - destruct HI as [|x l Hx HI]; [by exists 0|]. exists (wake_time_ x). apply List.Forall_cons; [done|apply List.Forall_nil].
  - rewrite <- E. exists (latest en). apply Forall_forall. intros x [[Hx _]%filter_In Hw]%woken_spec. split; [by apply HS|done].
Qed.

(** C21: A change of the output of a module path is scheduled after what is left, since the
    sources that apply woke, of the least delay of those sources for the transition of the first
    bit; the sources that apply are the enabled ones that woke last, or the ifnone ones if one of
    them woke later.  Without a source there is no delay.  It fails when a bit that changes has
    another delay than the first bit. *)
Theorem modpath_schedule now bit m : Forall (src_ok now) (src_list_ m) -> Forall (src_ok now) (ifnone_list_ m) -> eeq (mp_cur_vec4_ m) bit = false ->
  let put := mkModpath bit (src_list_ m) (ifnone_list_ m) in let cur := mp_cur_vec4_ m in
  let edge_at i := delay_edge (value cur i) (value bit i) in
  modpath_recv_vec4 now 0 bit m =
    match path_candidates m with
    | [] => Some (put, [ScheduleRun 0])
    | src :: rest =>
        if forallb (fun i => bit4_eqb (value cur i) (value bit i) || (path_delay now src rest (edge_at i) =? path_delay now src rest (edge_at 0%nat))) (seq 1 (size bit - 1))
        then Some (put, [ScheduleRun (path_delay now src rest (edge_at 0%nat))]) else None
    end.
Proof.
  intros HS HI Hne put cur edge_at. unfold modpath_recv_vec4. cbn [Nat.ltb Nat.leb]. rewrite Hne, candidate_list_is; [|by eapply Forall_impl; [|eassumption]; intros x (? & _)..].
  destruct (candidates_ok now m HS HI) as [w HC]. destruct (path_candidates m) as [|src rest]; [done|].
  assert (HO : forall e, (e < 12)%nat -> nth e (out_at now src rest) 0 = path_delay now src rest e).
  { intros e He. apply out_at_is; [|done]. assert (Hw : wake_time_ src = w) by (apply Forall_inv in HC; apply HC). rewrite Hw. exact HC. }
  fold cur put. unfold delay_from_edge. rewrite HO by apply delay_edge_lt. fold (edge_at 0%nat).
  assert (HE : forall l, forallb (fun idx => bit4_eqb (value cur idx) (value bit idx) || (nth (delay_edge (value cur idx) (value bit idx)) (out_at now src rest) 0 =? path_delay now src rest (edge_at 0%nat))) l =
    forallb (fun i => bit4_eqb (value cur i) (value bit i) || (path_delay now src rest (edge_at i) =? path_delay now src rest (edge_at 0%nat))) l).
  { induction l as [|i l IH]; [done|]. cbn. by rewrite IH, HO by apply delay_edge_lt. }
  by rewrite HE.
Qed.

Definition demo_src (wake d : Z) : vvp_fun_modpath_src := mkSrc (replicate 12 d) wake true None.
Definition demo_path : vvp_fun_modpath := mkModpath (vec4_fill 1 BIT4_0) [demo_src 5 9; demo_src 3 1; demo_src 5 7] [demo_src 4 2].

Lemma demo_src_ok now wake d : 0 <= wake -> 0 <= d -> wake + d < 2 ^ 64 -> src_ok now (demo_src wake d).
Proof. intros H0 H1 H2. split; [done|]. split; [done|]. cbn [delay12 wake_time_ demo_src]. by apply Forall_replicate. Qed.

Lemma modpath_schedule_witness :
  Forall (src_ok 6) (src_list_ demo_path) /\ Forall (src_ok 6) (ifnone_list_ demo_path) /\ eeq (mp_cur_vec4_ demo_path) (vec4_fill 1 BIT4_1) = false /\
  modpath_recv_vec4 6 0 (vec4_fill 1 BIT4_1) demo_path = Some (mkModpath (vec4_fill 1 BIT4_1) (src_list_ demo_path) (ifnone_list_ demo_path), [ScheduleRun 6]).
Proof.
  assert (HS : Forall (src_ok 6) (src_list_ demo_path)) by (repeat (apply List.Forall_cons; [by apply demo_src_ok|]); apply List.Forall_nil).
  assert (HI : Forall (src_ok 6) (ifnone_list_ demo_path)) by (repeat (apply List.Forall_cons; [by apply demo_src_ok|]); apply List.Forall_nil).
  split; [done|]. split; [done|]. split; [by vm_compute|]. rewrite (modpath_schedule 6 (vec4_fill 1 BIT4_1) demo_path HS HI) by by vm_compute. by vm_compute.
Defined.

(** ** Where a module path fails *)

(** A bit that changes otherwise than the first one: the assertion of equal delays. *)
Example modpath_mixed_edges :
  (cur ← set_bit (vec4_fill 2 BIT4_0) 1 BIT4_1; bit ← set_bit (vec4_fill 2 BIT4_0) 0 BIT4_1;
   Some (modpath_recv_vec4 0 0 bit (mkModpath cur [modpath_src_new [1; 2; 3; 4; 5; 6; 7; 8; 9; 10; 11; 12]] []))) = Some None.
Proof. vm_compute. reflexivity. Qed.

(** The run sends the value of the time of the run: a second change is seen before its delay. *)
Example modpath_early :
  let m := mkModpath (vec4_fill 1 BIT4_0) [modpath_src_new (replicate 12 10)] [] in
  ('(m, _) ← modpath_recv_vec4 0 0 (vec4_fill 1 BIT4_1) m; '(m, out) ← modpath_recv_vec4 5 0 (vec4_fill 1 BIT4_Z) (mkModpath (mp_cur_vec4_ m) (map (fun s => modpath_src_recv_vec4 5 0 (vec4_fill 1 BIT4_1) s) (src_list_ m)) []);
   Some (out, modpath_run_run m)) = Some ([ScheduleRun 10], [SendVec4 (vec4_fill 1 BIT4_Z)]).
Proof. vm_compute. reflexivity. Qed.
