(* ===== verification/Event.v ===== *)
(** Events of the runtime ([vvp/event.cc], [vvp/event.h]): the threads and the event controls that
    wait for an event, and the functors that detect its occurrences.

    The list of threads is the chain of [wait_next] from the last thread that waits; the
    list of controls is the chain of [next], and [last] its end. *)
From S2P Require Import Prelude MachineWord VvpBit VvpVector4 VvpSlice.

(** What a control does when it runs. *)
Inductive evctl_act :=
| evctl_vector (net port : nat) (value : vvp_vector4_t) (off wid : nat)
| evctl_array (mem idx : nat) (value : vvp_vector4_t) (off : nat).

Inductive event_output :=
| RunControl (act : evctl_act)
| ScheduleList (threads : list nat)                       (* vthread_schedule_list *)
| EventSend (v : vvp_vector4_t) | EventSendPv (v : vvp_vector4_t) (base wid vwid : nat)
| NamedCallbacks.                                         (* obj->run_vpi_callbacks *)

(** What [evctl_vector::run_run] sends: the vector, or a part when [wid_] is not 0. *)
Inductive ctl_send := CtlVec (net port : nat) (v : vvp_vector4_t) | CtlPart (net port : nat) (v : vvp_vector4_t) (off size wid : nat) | CtlWord (mem idx off : nat) (v : vvp_vector4_t).
Definition ctl_run_run (a : evctl_act) : ctl_send :=
  match a with
  | evctl_vector net port v off wid => if negb (wid =? 0)%nat then CtlPart net port v off (size v) wid else CtlVec net port v
  | evctl_array mem idx v off => CtlWord mem idx off v
  end.

Record waitable_hooks_s := mkHooks { event_ctls : list (Z * evctl_act) }.

Definition schedule_evctl (act : evctl_act) (ecount : Z) (h : waitable_hooks_s) : waitable_hooks_s :=
  mkHooks (event_ctls h ++ [(ecount, act)]).

(** The count left, and whether the control runs. *)
Definition dec_and_run (ecount : Z) : option (Z * bool) :=
  if ecount =? 0 then None else Some (ecount - 1, ecount - 1 =? 0).

Fixpoint run_controls (l : list (Z * evctl_act)) : option (list (Z * evctl_act) * list event_output) :=
  match l with
  | [] => Some ([], [])
  | (ecount, act) :: l =>
      '(left_, ran) ← dec_and_run ecount;
      '(l, out) ← run_controls l;
      Some (if ran : bool then (l, RunControl act :: out) else ((left_, act) :: l, out))
  end.

(** The controls, then the threads. *)
Definition run_waiting_threads_ (threads : list nat) (h : waitable_hooks_s) : option (waitable_hooks_s * list nat * list event_output) :=
  '(l, out) ← run_controls (event_ctls h);
  Some (mkHooks l, [], out ++ match threads with [] => [] | _ => [ScheduleList threads] end).

(** * Edges *)

Definition vvp_edge_none : Z := 0.

Record vvp_fun_edge_sa := mkEdge { edge_ : Z; edge_bits_ : list vvp_bit4_t; edge_hooks : waitable_hooks_s; edge_threads_ : list nat }.

Definition edge_new (e : Z) : vvp_fun_edge_sa := mkEdge e (replicate 4 BIT4_X) (mkHooks []) [].

(** The new old bit, and whether the edge is one of those waited for. *)
Definition edge_hit (e : Z) (old_bit : vvp_bit4_t) (bit : vvp_vector4_t) : vvp_bit4_t * bool :=
  let mask := VVP_EDGE old_bit (value bit 0) in
  (value bit 0, (e =? vvp_edge_none) || negb (Z.land e mask =? 0)).

Definition edge_recv_vec4_ (port : nat) (bit : vvp_vector4_t) (send : event_output) (s : vvp_fun_edge_sa) : option (vvp_fun_edge_sa * list event_output) :=
  old ← edge_bits_ s !! port;
  let '(old, hit) := edge_hit (edge_ s) old bit in
  let bits := <[port := old]> (edge_bits_ s) in
  if hit then
    '(h, t, out) ← run_waiting_threads_ (edge_threads_ s) (edge_hooks s);
    Some (mkEdge (edge_ s) bits h t, out ++ [send])
  else Some (mkEdge (edge_ s) bits (edge_hooks s) (edge_threads_ s), []).

Definition edge_recv_vec4 (port : nat) (bit : vvp_vector4_t) (s : vvp_fun_edge_sa) : option (vvp_fun_edge_sa * list event_output) :=
  edge_recv_vec4_ port bit (EventSend bit) s.
Definition edge_recv_vec4_pv (port : nat) (bit : vvp_vector4_t) (base wid vwid : nat) (s : vvp_fun_edge_sa) : option (vvp_fun_edge_sa * list event_output) :=
  if (base =? 0)%nat then edge_recv_vec4_ port bit (EventSendPv bit base wid vwid) s else None.

Definition edge_add_waiting_thread (t : nat) (s : vvp_fun_edge_sa) : vvp_fun_edge_sa := mkEdge (edge_ s) (edge_bits_ s) (edge_hooks s) (t :: edge_threads_ s).
Definition edge_schedule_evctl (act : evctl_act) (n : Z) (s : vvp_fun_edge_sa) : vvp_fun_edge_sa := mkEdge (edge_ s) (edge_bits_ s) (schedule_evctl act n (edge_hooks s)) (edge_threads_ s).

(** ** Edges of an automatic scope: the bits and threads of every live context *)

Record edge_context := mkContext { ctx_bits : list vvp_bit4_t; ctx_threads : list nat }.
Record vvp_fun_edge_aa := mkEdgeAuto { aa_edge_ : Z; aa_bits_ : list vvp_bit4_t; aa_hooks : waitable_hooks_s; aa_contexts : list edge_context }.

Definition edge_aa_new (e : Z) : vvp_fun_edge_aa := mkEdgeAuto e (replicate 4 BIT4_X) (mkHooks []) [].

(** [alloc_instance] at the end of the list of contexts, [reset_instance] of one. *)
Definition edge_aa_alloc (s : vvp_fun_edge_aa) : vvp_fun_edge_aa :=
  mkEdgeAuto (aa_edge_ s) (aa_bits_ s) (aa_hooks s) (aa_contexts s ++ [mkContext (aa_bits_ s) []]).
Definition edge_aa_reset (ctx : nat) (s : vvp_fun_edge_aa) : vvp_fun_edge_aa :=
  mkEdgeAuto (aa_edge_ s) (aa_bits_ s) (aa_hooks s) (<[ctx := mkContext (aa_bits_ s) []]> (aa_contexts s)).

Definition edge_aa_recv_context (port : nat) (bit : vvp_vector4_t) (ctx : nat) (s : vvp_fun_edge_aa) : option (vvp_fun_edge_aa * list event_output) :=
  c ← aa_contexts s !! ctx;
  old ← ctx_bits c !! port;
  let '(old, hit) := edge_hit (aa_edge_ s) old bit in
  let bits := <[port := old]> (ctx_bits c) in
  if hit then
    '(h, t, out) ← run_waiting_threads_ (ctx_threads c) (aa_hooks s);
    Some (mkEdgeAuto (aa_edge_ s) (aa_bits_ s) h (<[ctx := mkContext bits t]> (aa_contexts s)), out ++ [EventSend bit])
  else Some (mkEdgeAuto (aa_edge_ s) (aa_bits_ s) (aa_hooks s) (<[ctx := mkContext bits (ctx_threads c)]> (aa_contexts s)), []).

(** Without a context the value goes to every live one, and to those still to come. *)
Fixpoint edge_aa_recv_all (port : nat) (bit : vvp_vector4_t) (ctxs : list nat) (s : vvp_fun_edge_aa) : option (vvp_fun_edge_aa * list event_output) :=
  match ctxs with
  | [] => Some (mkEdgeAuto (aa_edge_ s) (<[port := value bit 0]> (aa_bits_ s)) (aa_hooks s) (aa_contexts s), [])
  | c :: ctxs =>
      '(s, o1) ← edge_aa_recv_context port bit c s;
      '(s, o2) ← edge_aa_recv_all port bit ctxs s; Some (s, o1 ++ o2)
  end.

Definition edge_aa_recv_vec4 (port : nat) (bit : vvp_vector4_t) (context : option nat) (s : vvp_fun_edge_aa) : option (vvp_fun_edge_aa * list event_output) :=
  match context with
  | Some c => edge_aa_recv_context port bit c s
  | None => edge_aa_recv_all port bit (seq 0 (length (aa_contexts s))) s
  end.

(** * Any change *)

(** [anyedge_vec4_value::recv_vec4]: the new [old_bits], and whether it changed. *)
Definition anyedge_value_recv (bit old_bits : vvp_vector4_t) : vvp_vector4_t * bool :=
  if negb (size old_bits =? size bit)%nat then
    if (size old_bits =? 0)%nat then
      let old_bits := vec4_fill (size bit) BIT4_X in
      if eeq old_bits bit then (old_bits, false) else (bit, true)
    else (bit, true)
  else if existsb (fun idx => negb (bit4_eqb (value old_bits idx) (value bit idx))) (seq 0 (size bit)) then (bit, true)
  else (old_bits, false).

Definition anyedge_value_recv_pv (bit : vvp_vector4_t) (base wid vwid : nat) (old_bits : vvp_vector4_t) : option (vvp_vector4_t * bool) :=
  let tmp := if (size old_bits =? 0)%nat then vec4_fill vwid BIT4_Z else old_bits in
  if (wid =? size bit)%nat && (base + wid <=? vwid)%nat && (size tmp =? vwid)%nat then
    '(tmp, _) ← set_vec tmp base bit; Some (anyedge_value_recv tmp old_bits)
  else None.

Record vvp_fun_anyedge_sa := mkAnyedge { last_value_ : list vvp_vector4_t; any_hooks : waitable_hooks_s; any_threads_ : list nat }.

Definition anyedge_new : vvp_fun_anyedge_sa := mkAnyedge (replicate 4 (vec4_fill 0 BIT4_X)) (mkHooks []) [].

Definition anyedge_hit (port : nat) (bit : vvp_vector4_t) (r : vvp_vector4_t * bool) (s : vvp_fun_anyedge_sa) : option (vvp_fun_anyedge_sa * list event_output) :=
  let '(v, hit) := r in
  let values := <[port := v]> (last_value_ s) in
  if hit then
    '(h, t, out) ← run_waiting_threads_ (any_threads_ s) (any_hooks s);
    Some (mkAnyedge values h t, out ++ [EventSend bit])
  else Some (mkAnyedge values (any_hooks s) (any_threads_ s), []).

Definition anyedge_recv_vec4 (port : nat) (bit : vvp_vector4_t) (s : vvp_fun_anyedge_sa) : option (vvp_fun_anyedge_sa * list event_output) :=
  old ← last_value_ s !! port; anyedge_hit port bit (anyedge_value_recv bit old) s.
Definition anyedge_recv_vec4_pv (port : nat) (bit : vvp_vector4_t) (base wid vwid : nat) (s : vvp_fun_anyedge_sa) : option (vvp_fun_anyedge_sa * list event_output) :=
  old ← last_value_ s !! port; r ← anyedge_value_recv_pv bit base wid vwid old; anyedge_hit port bit r s.

Definition anyedge_add_waiting_thread (t : nat) (s : vvp_fun_anyedge_sa) : vvp_fun_anyedge_sa := mkAnyedge (last_value_ s) (any_hooks s) (t :: any_threads_ s).
Definition anyedge_schedule_evctl (act : evctl_act) (n : Z) (s : vvp_fun_anyedge_sa) : vvp_fun_anyedge_sa := mkAnyedge (last_value_ s) (schedule_evctl act n (any_hooks s)) (any_threads_ s).

(** * Or of events, named events *)

Record vvp_fun_event := mkEvent { ev_hooks : waitable_hooks_s; ev_threads_ : list nat }.
Definition event_new : vvp_fun_event := mkEvent (mkHooks []) [].

Definition event_or_recv_vec4 (bit : vvp_vector4_t) (s : vvp_fun_event) : option (vvp_fun_event * list event_output) :=
  '(h, t, out) ← run_waiting_threads_ (ev_threads_ s) (ev_hooks s); Some (mkEvent h t, out ++ [EventSend bit]).
Definition named_event_recv_vec4 (bit : vvp_vector4_t) (s : vvp_fun_event) : option (vvp_fun_event * list event_output) :=
  '(h, t, out) ← run_waiting_threads_ (ev_threads_ s) (ev_hooks s); Some (mkEvent h t, out ++ [EventSend bit; NamedCallbacks]).

Definition event_add_waiting_thread (t : nat) (s : vvp_fun_event) : vvp_fun_event := mkEvent (ev_hooks s) (t :: ev_threads_ s).
Definition event_schedule_evctl (act : evctl_act) (n : Z) (s : vvp_fun_event) : vvp_fun_event := mkEvent (schedule_evctl act n (ev_hooks s)) (ev_threads_ s).
