(* ===== verification/EventProps.v ===== *)
(** Events: an interface of the functors on which threads and controls wait, what it promises
    them, and the functors that implement it. *)
From S2P Require Import Prelude MachineWord VvpBit VvpVector4 VvpSlice BitList VThreadSpec GateSpec Event.

(** * The interface *)

(** A functor [S] to which the values [A] arrive: what waits on it, what it does, and the
    reference it is held to.  The reference sees only what has arrived, the last first:
    [w_occurs] says which values are occurrences of the event, [w_admits] which may arrive,
    and [w_tracks] that the state of the functor agrees with what has arrived. *)
Class Waitable (S A : Type) := {
  w_hooks : S -> waitable_hooks_s; w_threads : S -> list nat;
  w_wait : nat -> S -> S; w_control : evctl_act -> Z -> S -> S;
  w_arrive : A -> S -> option (S * list event_output);
  w_send : A -> list event_output;
  w_occurs : list A -> A -> bool; w_admits : list A -> A -> Prop; w_tracks : list A -> S -> Prop }.

(** Waiting changes the list that it should; a value runs what waits when it is an occurrence,
    and only then. *)
Class WaitableLaws (S A : Type) `{Waitable S A} := {
  wait_law t s : w_hooks (w_wait t s) = w_hooks s /\ w_threads (w_wait t s) = t :: w_threads s /\ (forall h, w_tracks h s -> w_tracks h (w_wait t s));
  control_law act n s : w_hooks (w_control act n s) = schedule_evctl act n (w_hooks s) /\ w_threads (w_control act n s) = w_threads s /\
    (forall h, w_tracks h s -> w_tracks h (w_control act n s));
  arrive_law h a s k t out : w_tracks h s -> w_admits h a ->
    (if w_occurs h a then run_waiting_threads_ (w_threads s) (w_hooks s) else Some (w_hooks s, w_threads s, [])) = Some (k, t, out) ->
    exists s', w_arrive a s = Some (s', if w_occurs h a then out ++ w_send a else []) /\ w_hooks s' = k /\ w_threads s' = t /\ w_tracks (a :: h) s' }.

Inductive wait_event (A : Type) := Wait (t : nat) | Control (act : evctl_act) (n : Z) | Arrive (a : A).
Arguments Wait {A}. Arguments Control {A}. Arguments Arrive {A}.

(** * What waits after a history

    A history is what happened, each arrival marked when it was an occurrence. *)
Section History.
Context {A : Type}.

Fixpoint occurrences (l : list (wait_event A * bool)) : Z :=
  match l with [] => 0 | (_, hit) :: l => (if hit then 1 else 0) + occurrences l end.

(** The threads that waited since the last occurrence, the last first. *)
Fixpoint waiting (l : list (wait_event A * bool)) : list nat :=
  match l with
  | [] => []
  | (Wait t, _) :: l => waiting l ++ (if occurrences l =? 0 then [t] else [])
  | _ :: l => waiting l
  end.

(** The controls whose occurrence is still to come, with the number of those left. *)
Fixpoint pending (l : list (wait_event A * bool)) : list (Z * evctl_act) :=
  match l with
  | [] => []
  | (Control act n, _) :: l => (if occurrences l <? n then [(n - occurrences l, act)] else []) ++ pending l
  | _ :: l => pending l
  end.

(** The controls for which the next occurrence is theirs. *)
Fixpoint firing (l : list (wait_event A * bool)) : list event_output :=
  match l with
  | [] => []
  | (Control act n, _) :: l => (if n =? occurrences l + 1 then [RunControl act] else []) ++ firing l
  | _ :: l => firing l
  end.

Definition woken (l : list (wait_event A * bool)) : list event_output := match waiting l with [] => [] | t => [ScheduleList t] end.

Lemma occurrences_snoc l e (hit : bool) : occurrences (l ++ [(e, hit)]) = occurrences l + (if hit then 1 else 0).
Proof. induction l as [|[e' h'] l IH]; cbn; [lia|]. rewrite IH. lia. Qed.

Lemma occurrences_nonneg l : 0 <= occurrences l.
Proof. induction l as [|[e h] l IH]; cbn; [lia|]. destruct h; lia. Qed.

Lemma waiting_quiet l e : (match e with Wait _ => False | _ => True end) -> waiting (l ++ [(e, false)]) = waiting l.
Proof.
  intros He. induction l as [|[[t|act n|a] h] l IH]; [by destruct e|..]; cbn; [|done..]. rewrite IH, occurrences_snoc, Z.add_0_r. done.
Qed.

Lemma waiting_wait l t : waiting (l ++ [(Wait t, false)]) = t :: waiting l.
Proof. induction l as [|[[t'|act n|a] h] l IH]; cbn; [done| |done..]. by rewrite IH, occurrences_snoc, Z.add_0_r. Qed.

Lemma waiting_hit l a : waiting (l ++ [(Arrive a, true)]) = [].
Proof.
  induction l as [|[[t'|act n|a'] h] l IH]; cbn; [done| |done..]. rewrite IH, occurrences_snoc.
  pose proof (occurrences_nonneg l). by rewrite (proj2 (Z.eqb_neq _ _)) by lia.
Qed.

Lemma pending_quiet l e : (match e with Control _ _ => False | _ => True end) -> pending (l ++ [(e, false)]) = pending l.
Proof.
  intros He. induction l as [|[[t|act n|a] h] l IH]; [by destruct e|..]; cbn; [done| |done]. by rewrite IH, occurrences_snoc, Z.add_0_r.
Qed.

Lemma pending_control l act n : 0 < n -> pending (l ++ [(Control act n, false)]) = pending l ++ [(n, act)].
Proof.
  intros Hn. induction l as [|[[t|act' n'|a] h] l IH]; cbn; [|done| |done].
  - by rewrite (proj2 (Z.ltb_lt _ _)), Z.sub_0_r by done.
  - by rewrite IH, occurrences_snoc, Z.add_0_r, app_assoc.
Qed.

(** An occurrence: the controls are counted down, and those that reach 0 run. *)
Lemma run_pending l a : run_controls (pending l) = Some (pending (l ++ [(Arrive a, true)]), firing l).
Proof.
  induction l as [|[[t|act n|a'] h] l IH]; [done|exact IH| |exact IH]. cbn [app pending firing]. rewrite occurrences_snoc.
  destruct (Z.ltb_spec (occurrences l) n) as [Hn|Hn].
  - cbn [app run_controls]. unfold dec_and_run. rewrite (proj2 (Z.eqb_neq _ 0)) by lia. cbn [mbind option_bind]. rewrite IH. cbn [mbind option_bind].
    destruct (Z.eqb_spec (n - occurrences l - 1) 0) as [E|E].
    + rewrite (proj2 (Z.ltb_ge _ _)), (proj2 (Z.eqb_eq _ _)) by lia. done.
    + rewrite (proj2 (Z.ltb_lt _ _)), (proj2 (Z.eqb_neq _ _)) by lia. cbn [app]. by replace (n - occurrences l - 1) with (n - (occurrences l + 1)) by lia.
  - cbn [app]. rewrite IH, (proj2 (Z.ltb_ge _ _)), (proj2 (Z.eqb_neq _ _)) by lia. done.
Qed.
End History.

(** * The promise *)
Section Promise.
Context {S A : Type} `{WaitableLaws S A}.

Definition wait_step (e : wait_event A) (s : S) : option (S * list event_output) :=
  match e with
  | Wait t => Some (w_wait t s, [])
  | Control act n => Some (w_control act n s, [])
  | Arrive a => w_arrive a s
  end.

Fixpoint wait_run (es : list (wait_event A)) (s : S) : option (S * list (list event_output)) :=
  match es with
  | [] => Some (s, [])
  | e :: es => '(s, o) ← wait_step e s; '(s, os) ← wait_run es s; Some (s, o :: os)
  end.

(** The history of the steps, by the reference alone; [h] is what arrived before. *)
Fixpoint mark (h : list A) (es : list (wait_event A)) : list (wait_event A * bool) :=
  match es with
  | [] => []
  | Arrive a :: es => (Arrive a, w_occurs h a) :: mark (a :: h) es
  | e :: es => (e, false) :: mark h es
  end.

Fixpoint admitted (h : list A) (es : list (wait_event A)) : Prop :=
  match es with
  | [] => True
  | Arrive a :: es => w_admits h a /\ admitted (a :: h) es
  | _ :: es => admitted h es
  end.

(** The outputs of the steps [rest] after [l]. *)
Fixpoint outputs (l rest : list (wait_event A * bool)) : list (list event_output) :=
  match rest with
  | [] => []
  | (e, hit) :: rest =>
      (if hit : bool then (firing l ++ woken l) ++ match e with Arrive a => w_send a | _ => [] end else []) :: outputs (l ++ [(e, hit)]) rest
  end.

Definition control_ok (e : wait_event A) : Prop := match e with Control _ n => 0 < n | _ => True end.

Lemma wait_run_is es : Forall control_ok es -> forall h l s, admitted h es -> w_tracks h s ->
  w_hooks s = mkHooks (pending l) -> w_threads s = waiting l ->
  exists s', wait_run es s = Some (s', outputs l (mark h es)) /\ w_hooks s' = mkHooks (pending (l ++ mark h es)) /\ w_threads s' = waiting (l ++ mark h es).
Proof.
  intros HE. induction HE as [|e es He HE IH]; intros h l s Ha Hs Hh Ht.
  { exists s. cbn. rewrite app_nil_r. done. }
  assert (NEXT : forall h' hit s1 out, admitted h' es -> w_tracks h' s1 -> w_hooks s1 = mkHooks (pending (l ++ [(e, hit)])) -> w_threads s1 = waiting (l ++ [(e, hit)]) ->
    mark h (e :: es) = (e, hit) :: mark h' es -> wait_step e s = Some (s1, out) ->
    out = (if hit : bool then (firing l ++ woken l) ++ match e with Arrive a => w_send a | _ => [] end else []) ->
    exists s', wait_run (e :: es) s = Some (s', outputs l (mark h (e :: es))) /\ w_hooks s' = mkHooks (pending (l ++ mark h (e :: es))) /\ w_threads s' = waiting (l ++ mark h (e :: es))).
  { intros h' hit s1 out A1 A2 A3 A4 -> A6 ->. destruct (IH h' _ s1 A1 A2 A3 A4) as (s' & E & Hh' & Ht').
    exists s'. cbn [wait_run outputs]. rewrite A6. cbn [mbind option_bind]. rewrite E. rewrite <- app_assoc in Hh', Ht'. done. }
  destruct e as [t|act n|a]; cbn [admitted] in Ha.
  - destruct (wait_law t s) as (H1 & H2 & H3). eapply (NEXT h false (w_wait t s)); [done|by apply H3|by rewrite H1, pending_quiet|by rewrite H2, waiting_wait, Ht|done..].
  - destruct (control_law act n s) as (H1 & H2 & H3). eapply (NEXT h false (w_control act n s)); [done|by apply H3| |by rewrite H2, waiting_quiet|done..].
    rewrite H1, Hh, pending_control by done. done.
  - destruct Ha as [Ha Ha'].
    assert (HR : (if w_occurs h a then run_waiting_threads_ (w_threads s) (w_hooks s) else Some (w_hooks s, w_threads s, [])) =
      Some (mkHooks (pending (l ++ [(Arrive a, w_occurs h a)])), waiting (l ++ [(Arrive a, w_occurs h a)]), if w_occurs h a then firing l ++ woken l else [])).
    { rewrite Hh, Ht. destruct (w_occurs h a); [|by rewrite pending_quiet, waiting_quiet].
      rewrite waiting_hit. unfold run_waiting_threads_. cbn [event_ctls]. rewrite (run_pending l a). cbn [mbind option_bind]. unfold woken. by destruct (waiting l). }
    destruct (arrive_law h a s _ _ _ Hs Ha HR) as (s1 & E & H1 & H2 & H3).
    eapply (NEXT (a :: h) (w_occurs h a) s1); [done..|]. by destruct (w_occurs h a).
Qed.

(** The run of a functor that has seen nothing, against the reference. *)
Definition traced (es : list (wait_event A)) (s : S) : Prop :=
  exists s', wait_run es s = Some (s', outputs [] (mark [] es)) /\ w_hooks s' = mkHooks (pending (mark [] es)) /\ w_threads s' = waiting (mark [] es).

Lemma traced_new es s : Forall control_ok es -> admitted [] es -> w_tracks [] s -> w_hooks s = mkHooks [] -> w_threads s = [] -> traced es s.
Proof. intros HE Ha Hs Hh Ht. by apply (wait_run_is es HE [] [] s). Qed.
End Promise.

(** * The functors *)

(** A value at a port, whole or from [base] on. *)
Inductive arrival := Whole (port : nat) (bit : vvp_vector4_t) | Part (port : nat) (bit : vvp_vector4_t) (base wid vwid : nat).

Definition port_of (a : arrival) : nat := match a with Whole port _ | Part port _ _ _ _ => port end.
Definition bit_of (a : arrival) : vvp_vector4_t := match a with Whole _ bit | Part _ bit _ _ _ => bit end.

(** ** Edges *)

(** What an event waits for: [none] in the code is any value that arrives. *)
Inductive edge_kind := EveryValue | Posedge | Negedge.
Definition edge_code (k : edge_kind) : Z := match k with EveryValue => vvp_edge_none | Posedge => vvp_edge_posedge | Negedge => vvp_edge_negedge end.

(** The edges of the language: towards 1, or from 0 to unknown, and the reverse. *)
Definition is_edge (k : edge_kind) (from to : vvp_bit4_t) : bool :=
  match k, from, to with
  | EveryValue, _, _ => true
  | Posedge, BIT4_0, (BIT4_1 | BIT4_X | BIT4_Z) | Posedge, (BIT4_X | BIT4_Z), BIT4_1 => true
  | Negedge, BIT4_1, (BIT4_0 | BIT4_X | BIT4_Z) | Negedge, (BIT4_X | BIT4_Z), BIT4_0 => true
  | _, _, _ => false
  end.

(** The last bit that arrived at a port, X before the first. *)
Fixpoint last_bit_at (port : nat) (h : list arrival) : vvp_bit4_t :=
  match h with [] => BIT4_X | a :: h => if (port_of a =? port)%nat then value (bit_of a) 0 else last_bit_at port h end.

Definition edge_waitable (k : edge_kind) : Waitable vvp_fun_edge_sa arrival := {|
  w_hooks := edge_hooks; w_threads := edge_threads_; w_wait := edge_add_waiting_thread; w_control := edge_schedule_evctl;
  w_arrive a s := match a with Whole port bit => edge_recv_vec4 port bit s | Part port bit base wid vwid => edge_recv_vec4_pv port bit base wid vwid s end;
  w_send a := match a with Whole _ bit => [EventSend bit] | Part _ bit base wid vwid => [EventSendPv bit base wid vwid] end;
  w_occurs h a := is_edge k (last_bit_at (port_of a) h) (value (bit_of a) 0);
  w_admits _ a := (port_of a < 4)%nat /\ match a with Whole _ _ => True | Part _ _ base _ _ => base = 0%nat end;
  w_tracks h s := edge_ s = edge_code k /\ edge_bits_ s = map (fun port => last_bit_at port h) (seq 0 4) |}.

(** The masks of the code, bit by bit. *)
Lemma edge_mask k old bit : edge_hit (edge_code k) old bit = (value bit 0, is_edge k old (value bit 0)).
Proof. unfold edge_hit. by destruct k, old, (value bit 0). Qed.

Lemma insert_last a h : (port_of a < 4)%nat ->
  <[port_of a := value (bit_of a) 0]> (map (fun port => last_bit_at port h) (seq 0 4)) = map (fun port => last_bit_at port (a :: h)) (seq 0 4).
Proof. intros Hp. cbn [last_bit_at]. by destruct (port_of a) as [|[|[|[|p]]]]; [..|lia]. Qed.

Lemma edge_arrive k h a send s t c out :
  edge_ s = edge_code k -> edge_bits_ s = map (fun port => last_bit_at port h) (seq 0 4) -> (port_of a < 4)%nat ->
  let hit := is_edge k (last_bit_at (port_of a) h) (value (bit_of a) 0) in
  (if hit then run_waiting_threads_ (edge_threads_ s) (edge_hooks s) else Some (edge_hooks s, edge_threads_ s, [])) = Some (c, t, out) ->
  exists s', edge_recv_vec4_ (port_of a) (bit_of a) send s = Some (s', if hit then out ++ [send] else []) /\
    edge_hooks s' = c /\ edge_threads_ s' = t /\ edge_ s' = edge_code k /\ edge_bits_ s' = map (fun port => last_bit_at port (a :: h)) (seq 0 4).
Proof.
  intros Hk Hb Hp hit. unfold edge_recv_vec4_. rewrite <- insert_last, Hb, Hk by done.
  assert (E : map (fun port => last_bit_at port h) (seq 0 4) !! port_of a = Some (last_bit_at (port_of a) h)) by (by destruct (port_of a) as [|[|[|[|p]]]]; [..|lia]).
  rewrite E. cbn [mbind option_bind]. rewrite edge_mask. fold hit.
  destruct hit; [intros -> |intros [= <- <- _]]; cbn [mbind option_bind]; by eexists.
Qed.

Lemma edge_laws k : @WaitableLaws _ _ (edge_waitable k).
Proof.
  split; [done|done|]. intros h a s c t out [Hk Hb] [Hp Ha] Hr. destruct a as [port bit|port bit base wid vwid]; cbn [w_arrive edge_waitable].
  - by apply (edge_arrive k h (Whole port bit) (EventSend bit) s t c out).
  - subst base. by apply (edge_arrive k h (Part port bit 0 wid vwid) (EventSendPv bit 0 wid vwid) s t c out).
Qed.

(** ** Any change *)

(** The value at a port after what has arrived there; a part is laid over the value before it,
    or over Z when it is the first. *)
Definition laid (old : list vvp_bit4_t) (a : arrival) : list vvp_bit4_t :=
  match a with
  | Whole _ bit => bits_of bit
  | Part _ bit base _ vwid => overwrite base (bits_of bit) (match old with [] => replicate vwid BIT4_Z | _ => old end)
  end.
Fixpoint value_at (port : nat) (h : list arrival) : list vvp_bit4_t :=
  match h with [] => [] | a :: h => if (port_of a =? port)%nat then laid (value_at port h) a else value_at port h end.

(** The value changes; the first is compared with X. *)
Definition changed (old new : list vvp_bit4_t) : bool :=
  match old with [] => negb (bool_decide (new = replicate (length new) BIT4_X)) | _ => negb (bool_decide (new = old)) end.

(** The parts of a value have its width and lie within it. *)
Definition change_admits (h : list arrival) (a : arrival) : Prop :=
  (port_of a < 4)%nat /\ wf4 (bit_of a) /\
  match a with
  | Whole _ _ => True
  | Part port bit base wid vwid => (0 < wid)%nat /\ wid = size bit /\ (base + wid <= vwid)%nat /\ (value_at port h = [] \/ length (value_at port h) = vwid)
  end.

#[export] Instance anyedge_waitable : Waitable vvp_fun_anyedge_sa arrival := {
  w_hooks := any_hooks; w_threads := any_threads_; w_wait := anyedge_add_waiting_thread; w_control := anyedge_schedule_evctl;
  w_arrive a s := match a with Whole port bit => anyedge_recv_vec4 port bit s | Part port bit base wid vwid => anyedge_recv_vec4_pv port bit base wid vwid s end;
  w_send a := [EventSend (bit_of a)];
  w_occurs h a := changed (value_at (port_of a) h) (laid (value_at (port_of a) h) a);
  w_admits := change_admits;
  w_tracks h s := Forall2 vec_is (last_value_ s) (map (fun port => value_at port h) (seq 0 4)) }.

Lemma existsb_negb {B} (f : B -> bool) l : existsb (fun x => negb (f x)) l = negb (forallb f l).
Proof. induction l as [|x l IH]; cbn; [done|]. rewrite IH. by destruct (f x). Qed.

Lemma anyedge_value_is old bit l m : vec_is old l -> vec_is bit m ->
  exists v, anyedge_value_recv bit old = (v, changed l m) /\ vec_is v m.
Proof.
  intros Ho Hb. unfold anyedge_value_recv, changed. rewrite (vec_is_size _ _ Ho), (vec_is_size _ _ Hb).
  assert (HX : eeq (vec4_fill (length m) BIT4_X) bit = bool_decide (m = replicate (length m) BIT4_X)).
  { rewrite (eeq_vec _ _ _ _ (vec_is_fill _ _) Hb). apply bool_decide_ext. split; congruence. }
  destruct (Nat.eqb_spec (length l) (length m)) as [E|E]; cbn [negb].
  - assert (HE : existsb (fun idx => negb (bit4_eqb (value old idx) (value bit idx))) (seq 0 (length m)) = negb (bool_decide (m = l))).
    { rewrite existsb_negb. f_equal. apply eq_true_iff_eq. rewrite forallb_forall, bool_decide_eq_true. split.
      - intros H. symmetry. apply (nth_ext _ _ BIT4_X BIT4_X E). intros i Hi. specialize (H i). rewrite in_seq in H.
        unfold bit4_eqb in H. rewrite bool_decide_eq_true, (vec_is_value _ _ _ Ho), (vec_is_value _ _ _ Hb) in H. apply H. lia.
      - intros <- i _. unfold bit4_eqb. by rewrite bool_decide_eq_true, (vec_is_value _ _ _ Ho), (vec_is_value _ _ _ Hb). }
    rewrite HE. destruct l as [|x l].
    + destruct m; [|done]. cbn. by exists old.
    + destruct (bool_decide_reflect (m = x :: l)) as [->|]; [by exists old|by exists bit].
  - destruct l as [|x l]; cbn [length Nat.eqb].
    + rewrite HX. destruct (bool_decide_reflect (m = replicate (length m) BIT4_X)) as [Em|]; [|by exists bit].
      exists (vec4_fill (length m) BIT4_X). split; [done|]. pose proof (vec_is_fill (length m) BIT4_X) as Hf. by rewrite <- Em in Hf.
    + exists bit. rewrite bool_decide_eq_false_2; [done|]. intros ->. by apply E.
Qed.

(** The detector of one port. *)
Lemma anyedge_detects h a old : change_admits h a -> vec_is old (value_at (port_of a) h) ->
  let new := laid (value_at (port_of a) h) a in
  exists v, match a with
            | Whole _ bit => Some (anyedge_value_recv bit old)
            | Part _ bit base wid vwid => anyedge_value_recv_pv bit base wid vwid old
            end = Some (v, changed (value_at (port_of a) h) new) /\ vec_is v new.
Proof.
  intros (_ & Hw & Ha) Ho. destruct a as [port bit|port bit base wid vwid]; cbn [port_of bit_of laid] in *.
  - destruct (anyedge_value_is old bit _ _ Ho (vec_is_bits_of bit Hw)) as (v & -> & Hv). by exists v.
  - destruct Ha as (H0 & -> & Hb & Hl). unfold anyedge_value_recv_pv. set (l := value_at port h) in *.
    assert (HT : vec_is (if (size old =? 0)%nat then vec4_fill vwid BIT4_Z else old) (match l with [] => replicate vwid BIT4_Z | _ => l end)
              /\ length (match l with [] => replicate vwid BIT4_Z | _ => l end) = vwid).
    { rewrite (vec_is_size _ _ Ho). destruct l as [|x l]; cbn [length Nat.eqb].
      - split; [apply vec_is_fill|apply length_replicate].
      - split; [done|]. by destruct Hl. }
    destruct HT as [HT HL]. rewrite Nat.eqb_refl, (proj2 (Nat.leb_le _ _) Hb), (vec_is_size _ _ HT), HL, Nat.eqb_refl. cbn [andb].
    destruct (set_vec_is _ base bit _ (bits_of bit) HT (vec_is_bits_of bit Hw)) as (r & d & -> & Hr); [by rewrite length_bits_of|by rewrite length_bits_of, HL|].
    cbn [mbind option_bind]. destruct (anyedge_value_is old r _ _ Ho Hr) as (v & -> & Hv). by exists v.
Qed.

Lemma insert_value a h values v : (port_of a < 4)%nat -> vec_is v (laid (value_at (port_of a) h) a) ->
  Forall2 vec_is values (map (fun port => value_at port h) (seq 0 4)) ->
  Forall2 vec_is (<[port_of a := v]> values) (map (fun port => value_at port (a :: h)) (seq 0 4)).
Proof.
  intros Hp Hv HF. replace (map (fun port => value_at port (a :: h)) (seq 0 4))
    with (<[port_of a := laid (value_at (port_of a) h) a]> (map (fun port => value_at port h) (seq 0 4))); [by apply Forall2_insert|].
  cbn [value_at]. by destruct (port_of a) as [|[|[|[|p]]]]; [..|lia].
Qed.

#[export] Instance anyedge_laws : WaitableLaws vvp_fun_anyedge_sa arrival.
Proof.
  split; [done|done|]. intros h a s c t out HF Ha Hr. cbn [w_tracks w_admits w_occurs anyedge_waitable w_hooks w_threads] in *.
  assert (E : exists old, last_value_ s !! port_of a = Some old /\ vec_is old (value_at (port_of a) h)).
  { destruct Ha as [Hp _]. destruct (lookup_lt_is_Some_2 (last_value_ s) (port_of a)) as [old Eo]; [by rewrite (Forall2_length HF)|].
    exists old. split; [done|]. eapply Forall2_lookup_lr; [exact HF|exact Eo|]. by destruct (port_of a) as [|[|[|[|p]]]]; [..|lia]. }
  destruct E as (old & Eo & Ho). destruct (anyedge_detects h a old Ha Ho) as (v & Ev & Hv). set (hit := changed _ _) in *.
  assert (HA : exists s', anyedge_hit (port_of a) (bit_of a) (v, hit) s = Some (s', if hit then out ++ [EventSend (bit_of a)] else []) /\
    any_hooks s' = c /\ any_threads_ s' = t /\ last_value_ s' = <[port_of a := v]> (last_value_ s)).
  { unfold anyedge_hit. clearbody hit. destruct hit; [rewrite Hr|injection Hr as <- <- _]; cbn [mbind option_bind]; by eexists. }
  destruct HA as (s' & EA & H1 & H2 & H3). exists s'. split; [|split; [done|split; [done|]]].
  - destruct a as [port bit|port bit base wid vwid]; cbn [w_arrive anyedge_waitable w_send port_of bit_of] in *;
      unfold anyedge_recv_vec4, anyedge_recv_vec4_pv; rewrite Eo; cbn [mbind option_bind].
    + injection Ev as ->. exact EA.
    + rewrite Ev. exact EA.
  - rewrite H3. apply insert_value; [apply Ha|done|done].
Qed.

(** ** Or of events, named events: every value that arrives is an occurrence *)

Definition event_waitable (named : bool) : Waitable vvp_fun_event vvp_vector4_t := {|
  w_hooks := ev_hooks; w_threads := ev_threads_; w_wait := event_add_waiting_thread; w_control := event_schedule_evctl;
  w_arrive := if named then named_event_recv_vec4 else event_or_recv_vec4;
  w_send bit := EventSend bit :: if named then [NamedCallbacks] else [];
  w_occurs _ _ := true; w_admits _ _ := True; w_tracks _ _ := True |}.

Lemma event_laws named : @WaitableLaws _ _ (event_waitable named).
Proof.
  split; [done|done|]. intros h a s c t out _ _ Hr. cbn in Hr. destruct named; cbn; unfold named_event_recv_vec4, event_or_recv_vec4; rewrite Hr; cbn; by eexists.
Qed.

(** * The theorem *)

(** C19: On every functor of events of a static scope, new, for every sequence of threads that
    wait, controls with a positive count and values that arrive: no assertion fails, each
    occurrence schedules the threads that waited since the one before, the last first, and
    sends the value on; a control of count n runs at the n-th occurrence after it was
    scheduled and at no other; a value that is no occurrence does nothing.  An occurrence is an
    edge of the language between the last bit at the port, first X, and the new one; for an
    any-change event a value that differs from the one before, parts laid over it; for the or
    of events and for a named event every value.  Values arrive at the four ports; a part at
    an edge begins at bit 0, and one at an any-change event lies within a value of the width of
    those before. *)
Theorem event_trace :
  (forall k es, Forall control_ok es -> admitted (H := edge_waitable k) [] es -> traced (H := edge_waitable k) es (edge_new (edge_code k))) /\
  (forall es, Forall control_ok es -> admitted (H := anyedge_waitable) [] es -> traced (H := anyedge_waitable) es anyedge_new) /\
  (forall named es, Forall control_ok es -> traced (H := event_waitable named) es event_new).
Proof.
  split; [|split].
  - intros k es HE Ha. pose proof (edge_laws k) as L. by apply (traced_new (H := edge_waitable k)).
  - intros es HE Ha. apply traced_new; [done|done| |done|done]. change (w_tracks [] anyedge_new) with (Forall2 vec_is (replicate 4 (vec4_fill 0 BIT4_X)) (replicate 4 (replicate 0 BIT4_X))).
    do 4 (apply List.Forall2_cons; [apply vec_is_fill|]). apply List.Forall2_nil.
  - intros named es HE. pose proof (event_laws named) as L. apply (traced_new (H := event_waitable named)); [done| |done..].
    clear HE L. generalize (@nil vvp_vector4_t). induction es as [|[t|act n|a] es IH]; intros h; cbn; [done|apply IH|apply IH|split; [done|apply IH]].
Qed.

(** ** A run *)

Definition bit_at (port : nat) (b : vvp_bit4_t) : wait_event arrival := Arrive (Whole port (vec4_fill 1 b)).
Definition demo_act : evctl_act := evctl_vector 5 0 (vec4_fill 4 BIT4_1) 0 0.
Definition demo_events : list (wait_event arrival) :=
  [Wait 1; Control demo_act 2; bit_at 0 BIT4_0; bit_at 0 BIT4_1; Wait 2; Wait 3; bit_at 1 BIT4_1; bit_at 0 BIT4_1].

Lemma event_trace_witness :
  exists s', wait_run (H := edge_waitable Posedge) demo_events (edge_new vvp_edge_posedge) =
    Some (s', [[]; []; []; [ScheduleList [1%nat]; EventSend (vec4_fill 1 BIT4_1)]; []; []; [RunControl demo_act; ScheduleList [3%nat; 2%nat]; EventSend (vec4_fill 1 BIT4_1)]; []]) /\
    edge_hooks s' = mkHooks [] /\ edge_threads_ s' = [].
Proof.
  destruct event_trace as [E _]. destruct (E Posedge demo_events) as (s' & E' & Hh & Ht).
  - repeat (apply List.Forall_cons; [done|]). apply List.Forall_nil.
  - cbn. split_and!; solve [lia | done].
  - exists s'. split; [|split; [exact (eq_trans Hh ltac:(vm_compute; reflexivity))|exact (eq_trans Ht ltac:(vm_compute; reflexivity))]].
    exact (eq_trans E' ltac:(vm_compute; reflexivity)).
Defined.

(** A first value that arrives in part is laid over Z, not X: an event for bits that stay X. *)
Example anyedge_first_part :
  option_map snd (anyedge_value_recv_pv (vec4_fill 1 BIT4_X) 0 1 2 (vec4_fill 0 BIT4_X)) = Some true.
Proof. vm_compute. reflexivity. Qed.
