(* ===== verification/NetLink.v ===== *)
(** The fan-out lists of the runtime ([vvp_net_t] of [vvp/vvp_net.h], [vvp/vvp_net.cc]): a net
    points to the first port that it drives, and each port to the next.  The store is the list of
    the nets, and a pointer a net with one of its ports.

    The pointers of the store form one list per net, and linking and unlinking change that list
    and no other. *)
From S2P Require Import Prelude.

(** [vvp_net_ptr_t]: nil, or a net and a port of it. *)
Abbreviation net_ptr := (nat * nat)%type.
Abbreviation vvp_net_ptr_t := (option (nat * nat)).

Record vvp_net_t := mkNet { port : list vvp_net_ptr_t; out_ : vvp_net_ptr_t }.
Definition net_new : vvp_net_t := mkNet (replicate 4 None) None.

Abbreviation store := (list vvp_net_t).

Definition get_out (st : store) (n : nat) : option vvp_net_ptr_t := net ← st !! n; Some (out_ net).
Definition set_out (st : store) (n : nat) (v : vvp_net_ptr_t) : option store := net ← st !! n; Some (<[n := mkNet (port net) v]> st).
Definition get_port (st : store) (p : net_ptr) : option vvp_net_ptr_t := net ← st !! fst p; port net !! snd p.
Definition set_port (st : store) (p : net_ptr) (v : vvp_net_ptr_t) : option store :=
  net ← st !! fst p; _ ← port net !! snd p; Some (<[fst p := mkNet (<[snd p := v]> (port net)) (out_ net)]> st).

Definition link (st : store) (n : nat) (port_to_link : net_ptr) : option store :=
  o ← get_out st n;
  st ← set_port st port_to_link o;
  set_out st n (Some port_to_link).

(** The pointer before [dst_ptr] in the list from [cur], or nil. *)
Fixpoint scan (fuel : nat) (st : store) (cur : vvp_net_ptr_t) (dst_ptr : net_ptr) : option vvp_net_ptr_t :=
  match fuel with
  | O => None
  | S fuel =>
      match cur with
      | None => Some None
      | Some c => next ← get_port st c; if decide (next = Some dst_ptr) then Some cur else scan fuel st next dst_ptr
      end
  end.

Definition unlink (st : store) (n : nat) (dst_ptr : net_ptr) : option store :=
  o ← get_out st n;
  st ← (if decide (o = Some dst_ptr) then next ← get_port st dst_ptr; set_out st n next
        else match o with
        | None => Some st
        | Some _ =>
            cur ← scan (S (4 * length st)) st o dst_ptr;
            match cur with
            | Some c => next ← get_port st dst_ptr; set_port st c next
            | None => Some st
            end
        end);
  set_port st dst_ptr None.

(** The ports that [vvp_send_vec4(out_, ...)] visits. *)
Fixpoint visit (fuel : nat) (st : store) (cur : vvp_net_ptr_t) : option (list net_ptr) :=
  match fuel with
  | O => None
  | S fuel =>
      match cur with
      | None => Some []
      | Some c => next ← get_port st c; l ← visit fuel st next; Some (c :: l)
      end
  end.

Definition fan_out (st : store) (n : nat) : option (list net_ptr) := o ← get_out st n; visit (S (4 * length st)) st o.

(** [force_link] and [force_unlink]: the thunk [thunk] that passes the values of [src] on. *)
Definition force_unlink (st : store) (thunk : nat) (src : option nat) : option store :=
  match src with None => Some st | Some src => unlink st src (thunk, 0%nat) end.
Definition force_link (st : store) (thunk : nat) (old : option nat) (src : nat) : option store :=
  st ← force_unlink st thunk old; link st src (thunk, 0%nat).

(** * What the pointers stand for *)

Fixpoint chain (st : store) (o : vvp_net_ptr_t) (l : list net_ptr) : Prop :=
  match l with
  | [] => o = None
  | p :: l => o = Some p /\ exists next, get_port st p = Some next /\ chain st next l
  end.

Definition valid (st : store) (p : net_ptr) : Prop := (fst p < length st)%nat /\ (snd p < 4)%nat.

(** [fan n] is the list of the ports that net [n] drives. *)
Record linked (st : store) (fan : nat -> list net_ptr) : Prop := {
  ln_ports : Forall (fun n => length (port n) = 4%nat) st;
  ln_chain : forall n, (n < length st)%nat -> exists o, get_out st n = Some o /\ chain st o (fan n);
  ln_valid : forall n p, p ∈ fan n -> (n < length st)%nat /\ valid st p;
  ln_nodup : forall n, NoDup (fan n);
  ln_disjoint : forall n m p, p ∈ fan n -> p ∈ fan m -> n = m;
  ln_free : forall p, valid st p -> (forall n, p ∉ fan n) -> get_port st p = Some None }.

(** ** The store *)

Definition ports_ok (st : store) : Prop := Forall (fun n => length (port n) = 4%nat) st.

Lemma get_port_valid st p : ports_ok st -> valid st p -> exists v, get_port st p = Some v.
Proof.
  intros HP [H1 H2]. unfold get_port. apply lookup_lt_is_Some in H1 as [net E]. rewrite E. cbn.
  unfold ports_ok in HP. rewrite Forall_lookup in HP. specialize (HP _ _ E). destruct (port net !! snd p) eqn:Ep; [by eexists|]. apply lookup_ge_None in Ep. lia.
Qed.

Lemma set_port_is st p v : ports_ok st -> valid st p ->
  exists st', set_port st p v = Some st' /\ ports_ok st' /\ length st' = length st /\
    (forall q, get_port st' q = if decide (q = p) then Some v else get_port st q) /\ forall n, get_out st' n = get_out st n.
Proof.
  intros HP Hv. destruct (get_port_valid st p HP Hv) as [old Ho]. destruct p as [pn pk], Hv as [H1 H2]. unfold set_port. unfold get_port in Ho. cbn [fst snd] in *.
  destruct (st !! pn) as [net|] eqn:E; cbn [mbind option_bind] in *; [|done]. rewrite Ho. cbn [mbind option_bind]. pose proof HP as HP'. unfold ports_ok in HP'. rewrite Forall_lookup in HP'. pose proof (HP' _ _ E) as HL.
  eexists. split; [done|]. split_and!.
  - apply Forall_insert; [done|]. cbn. by rewrite length_insert.
  - by rewrite length_insert.
  - intros [qn qk]. unfold get_port. cbn [fst snd]. destruct (decide (qn = pn)) as [->|Hn].
    + rewrite list_lookup_insert_eq by done. rewrite E. cbn [mbind option_bind port]. destruct (decide (qk = pk)) as [->|Hne].
      * rewrite decide_True by done. apply list_lookup_insert_eq. lia.
      * rewrite decide_False by congruence. by apply list_lookup_insert_ne.
    + rewrite list_lookup_insert_ne by done. by rewrite decide_False by congruence.
  - intros n. unfold get_out. destruct (decide (n = pn)) as [->|Hn]; [by rewrite list_lookup_insert_eq, E by done|by rewrite list_lookup_insert_ne by done].
Qed.

Lemma set_out_is st n v : ports_ok st -> (n < length st)%nat ->
  exists st', set_out st n v = Some st' /\ ports_ok st' /\ length st' = length st /\
    (forall q, get_port st' q = get_port st q) /\ forall m, get_out st' m = if decide (m = n) then Some v else get_out st m.
Proof.
  intros HP Hn. unfold set_out. pose proof Hn as Hn'. apply lookup_lt_is_Some in Hn' as [net E]. rewrite E. cbn [mbind option_bind]. eexists. split; [done|]. split_and!.
  - apply Forall_insert; [done|]. unfold ports_ok in HP. rewrite Forall_lookup in HP. cbn. by apply (HP n).
  - by rewrite length_insert.
  - intros [qn qk]. unfold get_port. cbn [fst snd]. destruct (decide (qn = n)) as [->|H]; [by rewrite list_lookup_insert_eq, E by done|by rewrite list_lookup_insert_ne by done].
  - intros m. unfold get_out. destruct (decide (m = n)) as [->|H]; [by rewrite list_lookup_insert_eq by done|by rewrite list_lookup_insert_ne by done].
Qed.

Lemma chain_ext st st' l : forall o, (forall q, q ∈ l -> get_port st' q = get_port st q) -> chain st o l -> chain st' o l.
Proof.
  induction l as [|p l IH]; intros o Hq Hc; [done|]. destruct Hc as (-> & next & E & Hc). split; [done|]. exists next. split; [rewrite Hq by constructor; done|].
  apply IH; [|done]. intros q Hin. apply Hq. by constructor.
Qed.

(** ** The length of a list *)

Lemma valid_length st l : NoDup l -> (forall p, p ∈ l -> valid st p) -> (length l <= 4 * length st)%nat.
Proof.
  intros HN HV. assert (H : l ⊆+ concat (map (fun n => map (pair n) (seq 0 4)) (seq 0 (length st)))).
  { apply NoDup_submseteq; [done|]. intros [n k] Hin. destruct (HV _ Hin) as [H1 H2]. apply list_elem_of_In, in_concat. exists (map (pair n) (seq 0 4)).
    split; [apply in_map_iff; exists n; split; [done|]; apply in_seq; cbn in *; lia|]. apply in_map. apply in_seq. cbn in *. lia. }
  apply submseteq_length in H. etransitivity; [exact H|]. clear. induction (length st) as [|n IH]; [done|].
  rewrite (seq_S n 0), map_app, concat_app, length_app. cbn in *. lia.
Qed.

Lemma visit_chain st l : forall fuel o, (length l < fuel)%nat -> chain st o l -> visit fuel st o = Some l.
Proof.
  induction l as [|p l IH]; intros fuel o Hf Hc; destruct fuel as [|fuel]; cbn in Hf; try lia; cbn [visit].
  - cbn in Hc. by subst.
  - destruct Hc as (-> & next & E & Hc). rewrite E. cbn [mbind option_bind]. by rewrite (IH fuel next) by (done || lia).
Qed.

(** ** The search *)

Lemma scan_none st p l : forall fuel o, (length l < fuel)%nat -> chain st o l -> p ∉ l -> scan fuel st o p = Some None.
Proof.
  induction l as [|q l IH]; intros fuel o Hf Hc Hp; destruct fuel as [|fuel]; cbn in Hf; try lia; cbn [scan].
  - cbn in Hc. by subst.
  - destruct Hc as (-> & next & E & Hc). rewrite E. cbn [mbind option_bind]. rewrite not_elem_of_cons in Hp. destruct Hp as [Hq Hp].
    destruct (decide (next = Some p)) as [->|Hn].
    + exfalso. destruct l as [|q' l]; [done|]. destruct Hc as [[= ->] _]. apply Hp. by constructor.
    + apply IH; (done || lia).
Qed.

Lemma scan_some st p c l2 l1 : forall fuel o, (length l1 < fuel)%nat -> chain st o (l1 ++ c :: p :: l2) -> p ∉ l1 -> c <> p ->
  scan fuel st o p = Some (Some c).
Proof.
  induction l1 as [|q l IH]; intros fuel o Hf Hc Hp Hne; destruct fuel as [|fuel]; cbn in Hf; try lia; cbn [scan app] in *; destruct Hc as (-> & next & E & Hc); rewrite E; cbn [mbind option_bind].
  - destruct Hc as [-> _]. by rewrite decide_True.
  - rewrite not_elem_of_cons in Hp. destruct Hp as [Hq Hp]. rewrite decide_False; [apply IH; (done || lia)|]. intros ->.
    destruct l as [|q' l]; cbn in Hc; destruct Hc as [[= ->] _]; [done|]. apply Hp. by constructor.
Qed.

Lemma chain_cut st st' p c l2 l1 : forall o, chain st o (l1 ++ c :: p :: l2) -> (forall q, q ∈ l1 ++ l2 -> get_port st' q = get_port st q) -> get_port st' c = get_port st p ->
  chain st' o (l1 ++ c :: l2).
Proof.
  induction l1 as [|q l IH]; intros o Hc Hq Hcp; cbn [app] in *; destruct Hc as (-> & next & E & Hc); (split; [done|]).
  - destruct Hc as (_ & next' & E' & Hc). exists next'. split; [congruence|]. eapply chain_ext; [|exact Hc]. done.
  - exists next. split; [rewrite Hq by constructor; done|]. apply IH; [done| |done]. intros q' Hin. apply Hq. by constructor.
Qed.

(** * Linking *)

Definition fan_put (fan : nat -> list net_ptr) (n : nat) (l : list net_ptr) (m : nat) : list net_ptr := if decide (m = n) then l else fan m.

Lemma link_is st fan n p : linked st fan -> (n < length st)%nat -> valid st p -> (forall m, p ∉ fan m) ->
  exists st', link st n p = Some st' /\ length st' = length st /\ linked st' (fan_put fan n (p :: fan n)).
Proof.
  intros [HP HC HV HN HD HF] Hn Hp Hfree. destruct (HC n Hn) as (o & Eo & Ho). unfold link. rewrite Eo. cbn [mbind option_bind].
  destruct (set_port_is st p o HP Hp) as (st1 & -> & HP1 & HL1 & HG1 & HO1). cbn [mbind option_bind].
  destruct (set_out_is st1 n (Some p) HP1) as (st2 & -> & HP2 & HL2 & HG2 & HO2); [lia|].
  assert (HG : forall q, q <> p -> get_port st2 q = get_port st q) by (intros q Hq; by rewrite HG2, HG1, decide_False).
  assert (HX : forall m o, chain st o (fan m) -> chain st2 o (fan m)).
  { intros m o' Hc. eapply chain_ext; [|exact Hc]. intros q Hq. apply HG. intros ->. by apply (Hfree m). }
  exists st2. split; [done|]. split; [lia|]. split.
  - done.
  - intros m Hm. unfold fan_put. destruct (decide (m = n)) as [->|Hne].
    + exists (Some p). split; [by rewrite HO2, decide_True|]. split; [done|]. exists o. split; [by rewrite HG2, HG1, decide_True|by apply HX].
    + destruct (HC m) as (o' & Eo' & Hc); [lia|]. exists o'. split; [by rewrite HO2, decide_False, HO1|by apply HX].
  - intros m q. unfold fan_put, valid. replace (length st2) with (length st) by lia. destruct (decide (m = n)) as [->|Hne]; [|apply HV].
    intros [-> | Hq]%elem_of_cons; [done|by apply HV].
  - intros m. unfold fan_put. destruct (decide (m = n)) as [->|Hne]; [|apply HN]. constructor; [apply Hfree|apply HN].
  - intros m1 m2 q. unfold fan_put. destruct (decide (m1 = n)) as [->|H1], (decide (m2 = n)) as [->|H2]; rewrite ?elem_of_cons; [done|..|apply HD].
    + intros [-> | Hq] Hq2; [by destruct (Hfree m2)|by apply (HD n m2 q)].
    + intros Hq2 [-> | Hq]; [by destruct (Hfree m1)|by apply (HD m1 n q)].
  - intros q Hq Hnone. assert (Hqp : q <> p).
    { intros ->. apply (Hnone n). unfold fan_put. rewrite decide_True by done. by constructor. }
    rewrite HG by done. apply HF; [unfold valid in *; by replace (length st) with (length st2) by lia|]. intros m Hin. apply (Hnone m). unfold fan_put. destruct (decide (m = n)) as [->|]; [by constructor|done].
Qed.

(** A list without one of its ports. *)
Definition without (p : net_ptr) (l : list net_ptr) : list net_ptr := filter (fun q => q <> p) l.

Lemma without_none p l : p ∉ l -> without p l = l.
Proof.
  unfold without. induction l as [|q l IH]; [done|]. rewrite not_elem_of_cons. intros [Hq Hp]. rewrite filter_cons_True by done. by rewrite IH.
Qed.

Lemma without_split p l1 l2 : NoDup (l1 ++ p :: l2) -> without p (l1 ++ p :: l2) = l1 ++ l2.
Proof.
  intros HN. apply list.NoDup_app in HN as (_ & H1 & [H2 _]%list.NoDup_cons). unfold without. rewrite list.filter_app, filter_cons_False by naive_solver.
  f_equal; [|by apply without_none]. apply without_none. intros Hp. eapply H1; [exact Hp|by constructor].
Qed.

Lemma unlink_is st fan n p : linked st fan -> (n < length st)%nat -> valid st p -> (forall m, p ∈ fan m -> m = n) ->
  exists st', unlink st n p = Some st' /\ length st' = length st /\ linked st' (fan_put fan n (without p (fan n))).
Proof.
  intros [HP HC HV HN HD HF] Hn Hp Hown. destruct (HC n Hn) as (o & Eo & Ho). unfold unlink. rewrite Eo. cbn [mbind option_bind].
  (* the pointers that are left after the cut *)
  assert (HFIN : forall st1 o1, ports_ok st1 -> length st1 = length st ->
    get_out st1 n = Some o1 -> (forall m, m <> n -> get_out st1 m = get_out st m) ->
    (forall q, (q ∉ fan n \/ q = p) -> get_port st1 q = get_port st q) ->
    (forall st', (forall q, q <> p -> get_port st' q = get_port st1 q) -> chain st' o1 (without p (fan n))) ->
    exists st', set_port st1 p None = Some st' /\ length st' = length st /\ linked st' (fan_put fan n (without p (fan n)))).
  { intros st1 o1 HP1 HL1 Hout Houts Hports Hchain. assert (Hp1 : valid st1 p) by (unfold valid; by rewrite HL1).
    destruct (set_port_is st1 p None HP1 Hp1) as (st2 & -> & HP2 & HL2 & HG2 & HO2). exists st2. split; [done|]. split; [lia|].
    assert (HW : forall q, q ∈ without p (fan n) <-> q <> p /\ q ∈ fan n) by (intros q; unfold without; by rewrite list_elem_of_filter). split.
    - done.
    - intros m Hm. unfold fan_put. destruct (decide (m = n)) as [->|Hne].
      + exists o1. split; [by rewrite HO2|]. apply Hchain. intros q Hq. by rewrite HG2, decide_False.
      + destruct (HC m) as (o' & Eo' & Hc); [lia|]. exists o'. split; [by rewrite HO2, Houts|]. eapply chain_ext; [|exact Hc].
        intros q Hq. assert (q <> p) by (intros ->; by apply Hne, Hown). rewrite HG2, decide_False by done. apply Hports. left. intros Hqn. by apply Hne, (HD m n q).
    - intros m q. unfold fan_put, valid. rewrite HL2, HL1. destruct (decide (m = n)) as [->|Hne]; [rewrite HW; intros [_ Hq]; by apply HV|apply HV].
    - intros m. unfold fan_put. destruct (decide (m = n)); [by apply list.NoDup_filter|done].
    - intros m1 m2 q. unfold fan_put. destruct (decide (m1 = n)) as [->|H1], (decide (m2 = n)) as [->|H2]; rewrite ?HW; intros; destruct_and?; eauto.
    - intros q Hq Hnone. rewrite HG2. destruct (decide (q = p)) as [->|Hqp]; [done|].
      assert (Hqn : q ∉ fan n) by (intros Hin; apply (Hnone n); unfold fan_put; rewrite decide_True by done; by apply HW).
      rewrite Hports by (by left). apply HF; [unfold valid in *; by rewrite HL2, HL1 in Hq|]. intros m Hin. apply (Hnone m). unfold fan_put. destruct (decide (m = n)) as [->|]; done. }
  destruct (decide (p ∈ fan n)) as [Hin|Hin].
  - apply list_elem_of_split in Hin as (l1 & l2 & EL). pose proof (HN n) as HNn. rewrite EL in HNn, Ho. pose proof (without_split p l1 l2 HNn) as HW. rewrite EL, HW in *.
    apply list.NoDup_app in HNn as (HN1 & HN12 & [HN2 _]%list.NoDup_cons). destruct l1 as [|c0 l1'].
    + cbn [app] in *. destruct Ho as (-> & next & En & Hc). rewrite decide_True, En by done. cbn [mbind option_bind].
      destruct (set_out_is st n next HP Hn) as (st1 & -> & HP1 & HL1 & HG1 & HO1). cbn [mbind option_bind].
      apply (HFIN st1 next); [done|done|by rewrite HO1, decide_True|intros m Hm; by rewrite HO1, decide_False|intros; apply HG1|].
      intros st' Hst'. eapply chain_ext; [|exact Hc]. intros q Hq. rewrite Hst', HG1; [done|]. intros ->. done.
    + assert (Ho0 : o = Some c0) by (by destruct Ho). subst o. assert (Hc0 : c0 <> p) by (intros ->; eapply HN12; [|]; by constructor).
      rewrite decide_False by (by intros [=]). destruct (exists_last (l := c0 :: l1') ltac:(done)) as (l & c & Elc). rewrite Elc in *. rewrite <- app_assoc in Ho. cbn [app] in Ho.
      assert (Hpl : p ∉ l ++ [c]) by (intros Hx; eapply HN12; [exact Hx|by constructor]). rewrite not_elem_of_app, not_elem_of_cons in Hpl. destruct Hpl as (Hpl & Hpc & _).
      rewrite (scan_some st p c l2 l); [|pose proof (valid_length st (fan n) (HN n) (fun q Hq => proj2 (HV n q Hq))) as HLn; rewrite EL, !length_app in HLn; cbn in *; lia|done..]. cbn [mbind option_bind].
      destruct (get_port_valid st p HP Hp) as [next En]. rewrite En. cbn [mbind option_bind].
      assert (Hcin : c ∈ fan n) by (rewrite EL, !elem_of_app, elem_of_cons; left; right; by left).
      destruct (set_port_is st c next HP) as (st1 & -> & HP1 & HL1 & HG1 & HO1); [by apply (HV n)|]. cbn [mbind option_bind].
      apply (HFIN st1 (Some c0)); [done|done|by rewrite HO1|intros m Hm; apply HO1| |].
      * intros q Hq. rewrite HG1, decide_False; [done|]. intros ->. destruct Hq as [Hq | ->]; [|done]. by rewrite <- EL in Hq.
      * intros st' Hst'. rewrite <- app_assoc. cbn [app]. apply (chain_cut st st' p c l2 l (Some c0)); [done| |by rewrite Hst', HG1, decide_True].
        intros q Hq. rewrite Hst', HG1, decide_False; [done| |].
        -- intros ->. apply elem_of_app in Hq as [Hq|Hq]; [apply list.NoDup_app in HN1 as (_ & H & _); eapply H; [exact Hq|by constructor]|].
           eapply HN12; [|apply list_elem_of_further; exact Hq]. rewrite elem_of_app, elem_of_cons. right. by left.
        -- intros ->. apply elem_of_app in Hq as [Hq|Hq]; done.
  - assert (HW : without p (fan n) = fan n) by (by apply without_none). rewrite HW in HFIN |- *. rewrite decide_False.
    + assert (HS : (match o with None => Some st | Some _ => cur ← scan (S (4 * length st)) st o p; match cur with Some c => next ← get_port st p; set_port st c next | None => Some st end end) = Some st).
      { destruct o; [|done]. rewrite (scan_none st p (fan n)); [done| |done|done].
        pose proof (valid_length st (fan n) (HN n) (fun q Hq => proj2 (HV n q Hq))). lia. }
      rewrite HS. cbn [mbind option_bind]. apply (HFIN st o); try done. intros st' Hst'. eapply chain_ext; [|exact Ho]. intros q Hq. apply Hst'. intros ->. done.
    + intros ->. destruct (fan n); [done|]. destruct Ho as ([= ->] & _). apply Hin. by constructor.
Qed.

(** * Sequences *)

Inductive link_op := Link (n : nat) (p : net_ptr) | Unlink (n : nat) (p : net_ptr).

Definition link_step (e : link_op) (st : store) : option store := match e with Link n p => link st n p | Unlink n p => unlink st n p end.
Fixpoint link_run (es : list link_op) (st : store) : option store := match es with [] => Some st | e :: es => st ← link_step e st; link_run es st end.

Definition fan_step (fan : nat -> list net_ptr) (e : link_op) : nat -> list net_ptr :=
  match e with Link n p => fan_put fan n (p :: fan n) | Unlink n p => fan_put fan n (without p (fan n)) end.

(** A port that is linked is free; one that is unlinked is not driven by another net. *)
Definition link_valid (k : nat) (fan : nat -> list net_ptr) (e : link_op) : Prop :=
  match e with
  | Link n p => (n < k)%nat /\ (fst p < k)%nat /\ (snd p < 4)%nat /\ forall m, (m < k)%nat -> p ∉ fan m
  | Unlink n p => (n < k)%nat /\ (fst p < k)%nat /\ (snd p < 4)%nat /\ forall m, (m < k)%nat -> p ∈ fan m -> m = n
  end.

Fixpoint links_valid (k : nat) (fan : nat -> list net_ptr) (es : list link_op) : Prop :=
  match es with [] => True | e :: es => link_valid k fan e /\ links_valid k (fan_step fan e) es end.

Lemma linked_new k : linked (replicate k net_new) (fun _ => []).
Proof.
  split.
  - by apply Forall_replicate.
  - intros n Hn. exists None. split; [|done]. unfold get_out. rewrite length_replicate in Hn. by rewrite lookup_replicate_2.
  - intros n p Hp. by apply elem_of_nil in Hp.
  - intros n. constructor.
  - intros n m p Hp. by apply elem_of_nil in Hp.
  - intros [pn pk] [H1 H2] _. unfold get_port. cbn [fst snd] in *. rewrite length_replicate in H1. rewrite lookup_replicate_2 by done. cbn [mbind option_bind port net_new].
    by apply lookup_replicate_2.
Qed.

Lemma link_step_is k st fan e : length st = k -> linked st fan -> link_valid k fan e ->
  exists st', link_step e st = Some st' /\ length st' = k /\ linked st' (fan_step fan e).
Proof.
  intros <- HL He. assert (HV : forall n p, p ∈ fan n -> (n < length st)%nat) by (intros n p Hp; by apply (ln_valid st fan HL n p)).
  destruct e as [n p|n p]; destruct He as (Hn & Hp1 & Hp2 & Hown); cbn [link_step fan_step].
  - apply link_is; [done|done|done|]. intros m Hin. apply (Hown m); [by eapply HV|done].
  - apply unlink_is; [done|done|done|]. intros m Hin. apply Hown; [by eapply HV|done].
Qed.

Lemma fan_out_is st fan n : linked st fan -> (n < length st)%nat -> fan_out st n = Some (fan n).
Proof.
  intros [_ HC HV HN _ _] Hn. destruct (HC n Hn) as (o & Eo & Hc). unfold fan_out. rewrite Eo. cbn [mbind option_bind].
  apply visit_chain; [|done]. pose proof (valid_length st (fan n) (HN n) (fun q Hq => proj2 (HV n q Hq))). lia.
Qed.

(** C18: Whatever ports are linked and unlinked on a set of new nets, so long as a port is driven by
    one net at a time and unlinked from that one, the search of an unlink ends, and a value that
    a net sends visits just the ports linked to it and not unlinked since, the last linked first. *)
Theorem links_trace k es : links_valid k (fun _ => []) es ->
  exists st, link_run es (replicate k net_new) = Some st /\ forall n, (n < k)%nat -> fan_out st n = Some (fold_left fan_step es (fun _ => []) n).
Proof.
  assert (HR : forall st fan, length st = k -> linked st fan -> links_valid k fan es ->
    exists st', link_run es st = Some st' /\ forall n, (n < k)%nat -> fan_out st' n = Some (fold_left fan_step es fan n)).
  { induction es as [|e es IH]; intros st fan Hk HL HV; cbn [link_run fold_left].
    - exists st. split; [done|]. intros n Hn. by apply fan_out_is; [|lia].
    - destruct HV as [He HV]. destruct (link_step_is k st fan e Hk HL He) as (st1 & -> & Hk1 & HL1). by apply IH. }
  apply HR; [apply length_replicate|apply linked_new].
Qed.

Definition demo_links : list link_op := [Link 0 (1, 0); Link 0 (2, 0); Link 0 (2, 1); Link 1 (0, 3); Unlink 0 (2, 0); Link 1 (2, 0)]%nat.

Lemma demo_links_valid : links_valid 3 (fun _ => []) demo_links.
Proof.
  unfold demo_links. cbn [links_valid link_valid fst snd]. repeat split; try lia; intros m Hm;
    assert (m = 0 \/ m = 1 \/ m = 2)%nat as [-> | [-> | ->]] by lia; apply (bool_decide_unpack _); vm_compute; exact I.
Qed.

Lemma links_trace_witness : links_valid 3 (fun _ => []) demo_links /\
  exists st, link_run demo_links (replicate 3 net_new) = Some st /\ fan_out st 0 = Some [(2, 1); (1, 0)]%nat /\ fan_out st 1 = Some [(2, 0); (0, 3)]%nat.
Proof.
  split; [apply demo_links_valid|]. destruct (links_trace 3 demo_links demo_links_valid) as (st & E & H). exists st.
  split; [done|]. split; rewrite H by lia; by vm_compute.
Defined.

(** Unlinking a port from a net that does not drive it cuts the list of the net that does. *)
Example unlink_other :
  (st ← link_run [Link 0 (2, 0); Link 0 (1, 0); Unlink 1 (1, 0)]%nat (replicate 3 net_new); fan_out st 0) = Some [(1, 0)]%nat.
Proof. vm_compute. reflexivity. Qed.
