(* ===== verification/ThreadTree.v ===== *)
(** Threads of the runtime and their children ([vvp/vthread.cc]): %fork, %join, %join/detach,
    %end, %wait, %wait/fork, %disable and %disable/fork, and how a thread is dispatched, woken
    and deleted.

    The store maps the identity of a thread to its record; identities are given in the order in which
    the threads are made.  [std::set<vthread_t>] is ordered by address, which the program does not choose:
    [order] lists a set in that order.  Scopes are static, no thread runs in a function, and
    [delay_delete] is off.  [None] is a failed [assert]. *)
From stdpp Require Import gmap.
From S2P Require Import Prelude.

Record vthread_s := mkThread {
  parent : option nat; children : gset nat; detached_children : gset nat; parent_scope : nat;
  i_am_joining : bool; i_am_detached : bool; i_am_waiting : bool; is_scheduled : bool;
  i_have_ended : bool; i_was_disabled : bool; waiting_for_event : bool; pc_null : bool }.

Definition with_parent (p : option nat) (d : bool) (x : vthread_s) := mkThread p (children x) (detached_children x) (parent_scope x) (i_am_joining x) d (i_am_waiting x) (is_scheduled x) (i_have_ended x) (i_was_disabled x) (waiting_for_event x) (pc_null x).
Definition with_children (c d : gset nat) (x : vthread_s) := mkThread (parent x) c d (parent_scope x) (i_am_joining x) (i_am_detached x) (i_am_waiting x) (is_scheduled x) (i_have_ended x) (i_was_disabled x) (waiting_for_event x) (pc_null x).
Definition with_joining (b : bool) (x : vthread_s) := mkThread (parent x) (children x) (detached_children x) (parent_scope x) b (i_am_detached x) (i_am_waiting x) (is_scheduled x) (i_have_ended x) (i_was_disabled x) (waiting_for_event x) (pc_null x).
Definition with_waiting (b : bool) (x : vthread_s) := mkThread (parent x) (children x) (detached_children x) (parent_scope x) (i_am_joining x) (i_am_detached x) b (is_scheduled x) (i_have_ended x) (i_was_disabled x) (waiting_for_event x) (pc_null x).
Definition with_scheduled (b : bool) (x : vthread_s) := mkThread (parent x) (children x) (detached_children x) (parent_scope x) (i_am_joining x) (i_am_detached x) (i_am_waiting x) b (i_have_ended x) (i_was_disabled x) (waiting_for_event x) (pc_null x).
Definition with_event (b : bool) (x : vthread_s) := mkThread (parent x) (children x) (detached_children x) (parent_scope x) (i_am_joining x) (i_am_detached x) (i_am_waiting x) (is_scheduled x) (i_have_ended x) (i_was_disabled x) b (pc_null x).
Definition with_ended (disabled : bool) (x : vthread_s) := mkThread (parent x) (children x) (detached_children x) (parent_scope x) (i_am_joining x) (i_am_detached x) (i_am_waiting x) (is_scheduled x) true (i_was_disabled x || disabled) (waiting_for_event x) true.
Definition with_null (x : vthread_s) := mkThread (parent x) (children x) (detached_children x) (parent_scope x) (i_am_joining x) (i_am_detached x) (i_am_waiting x) (is_scheduled x) (i_have_ended x) (i_was_disabled x) (waiting_for_event x) true.

(** The threads, the threads of each scope, the next identity. *)
Record pool := mkPool { threads : gmap nat vthread_s; scope_threads : gmap nat (gset nat); next_thread : nat }.

Definition put_threads (m : gmap nat vthread_s) (st : pool) : pool := mkPool m (scope_threads st) (next_thread st).
Definition update (t : nat) (f : vthread_s -> vthread_s) (st : pool) : option pool := x ← threads st !! t; Some (put_threads (<[t := f x]> (threads st)) st).
Definition scope_set (s : nat) (st : pool) : gset nat := default ∅ (scope_threads st !! s).
Definition put_scope (s : nat) (v : gset nat) (st : pool) : pool := mkPool (threads st) (<[s := v]> (scope_threads st)) (next_thread st).

Definition assert_ (b : bool) : option unit := if b then Some tt else None.

Definition vthread_new (scope : nat) (st : pool) : nat * pool :=
  let t := next_thread st in
  let x := mkThread None ∅ ∅ scope false false false false false false false false in
  (t, put_scope scope ({[t]} ∪ scope_set scope st) (mkPool (<[t := x]> (threads st)) (scope_threads st) (S t))).

(** [schedule_vthread]: the thread is not scheduled yet. *)
Definition schedule_vthread (t : nat) (st : pool) : option pool :=
  x ← threads st !! t; _ ← assert_ (negb (is_scheduled x)); update t (with_scheduled true) st.

(** The children are handed to the parent, the detached children to nobody, one after the other. *)
Fixpoint hand_over (t : nat) (p : option nat) (l : list nat) (st : pool) : option pool :=
  match l with
  | [] => Some st
  | c :: l => x ← threads st !! c; _ ← assert_ (bool_decide (parent x = Some t)); st ← update c (with_parent p (i_am_detached x)) st; hand_over t p l st
  end.
Fixpoint let_go (t : nat) (l : list nat) (st : pool) : option pool :=
  match l with
  | [] => Some st
  | c :: l => x ← threads st !! c; _ ← assert_ (bool_decide (parent x = Some t) && i_am_detached x); st ← update c (with_parent None false) st; let_go t l st
  end.

Section Ops.
Context (order : gset nat -> list nat).

(** Out of the set of the parent that holds it. *)
Definition leave_parent (t : nat) (x : vthread_s) (st : pool) : option pool :=
  match parent x with
  | None => Some st
  | Some p =>
      y ← threads st !! p;
      if i_am_detached x then _ ← assert_ (bool_decide (t ∈ detached_children y)); update p (with_children (children y) (detached_children y ∖ {[t]})) st
      else _ ← assert_ (bool_decide (t ∈ children y)); update p (with_children (children y ∖ {[t]}) (detached_children y)) st
  end.

Definition vthread_reap (t : nat) (st : pool) : option pool :=
  x ← threads st !! t;
  st ← hand_over t (parent x) (order (children x)) st;
  st ← let_go t (order (detached_children x)) st;
  st ← leave_parent t x st;
  let st := put_scope (parent_scope x) (scope_set (parent_scope x) st ∖ {[t]}) st in
  if negb (is_scheduled x) && negb (waiting_for_event x) then
    _ ← assert_ (bool_decide (children x = ∅)); Some (put_threads (delete t (threads st)) st)
  else update t (fun y => with_null (with_parent None (i_am_detached y) y)) st.

Definition do_join (t child : nat) (st : pool) : option pool :=
  x ← threads st !! child; _ ← assert_ (bool_decide (parent x = Some t)); vthread_reap child st.

(** ** The instructions: the new state, and whether the thread goes on *)

Definition of_FORK (scope : nat) (t : nat) (st : pool) : option (pool * bool) :=
  let '(child, st) := vthread_new scope st in
  st ← update child (with_parent (Some t) false) st;
  st ← update t (fun x => with_children ({[child]} ∪ children x) (detached_children x) x) st;
  st ← schedule_vthread child st; Some (st, true).

Definition ended (st : pool) (c : nat) : bool := match threads st !! c with Some x => i_have_ended x | None => false end.

Definition of_JOIN (t : nat) (st : pool) : option (pool * bool) :=
  x ← threads st !! t;
  _ ← assert_ (negb (i_am_joining x)); _ ← assert_ (bool_decide (children x <> ∅));
  match List.find (ended st) (order (children x)) with
  | Some c => st ← do_join t c st; Some (st, true)
  | None => st ← update t (with_joining true) st; Some (st, false)
  end.

Fixpoint detach_all (t : nat) (l : list nat) (st : pool) : option pool :=
  match l with
  | [] => Some st
  | c :: l =>
      x ← threads st !! c; _ ← assert_ (bool_decide (parent x = Some t));
      st ← (if i_have_ended x then vthread_reap c st
            else y ← threads st !! t; _ ← assert_ (bool_decide (c ∈ children y));
                 st ← update t (with_children (children y ∖ {[c]}) ({[c]} ∪ detached_children y)) st;
                 update c (with_parent (Some t) true) st);
      detach_all t l st
  end.

Definition of_JOIN_DETACH (count : nat) (t : nat) (st : pool) : option (pool * bool) :=
  x ← threads st !! t; _ ← assert_ (count =? size (children x))%nat;
  st ← detach_all t (order (children x)) st; Some (st, true).

Definition of_END (t : nat) (st : pool) : option (pool * bool) :=
  x ← threads st !! t; _ ← assert_ (negb (waiting_for_event x));
  st ← update t (with_ended false) st;
  st ← let_go t (order (detached_children x)) st;
  st ← update t (with_children (children x) ∅) st;
  _ ← assert_ (bool_decide (children x = ∅));
  match parent x with
  | None => st ← vthread_reap t st; Some (st, false)
  | Some p =>
      y ← threads st !! p;
      if negb (i_am_detached x) && i_am_joining y then
        st ← update p (with_joining false) st;
        st ← schedule_vthread p st;
        st ← do_join p t st; Some (st, false)
      else if i_am_detached x then
        _ ← assert_ (bool_decide (t ∈ detached_children y));
        let rest := detached_children y ∖ {[t]} in
        st ← update p (with_children (children y) rest) st;
        st ← (if i_am_waiting y && bool_decide (rest = ∅) then st ← update p (with_waiting false) st; schedule_vthread p st else Some st);
        st ← update t (with_parent None false) st;
        st ← vthread_reap t st; Some (st, false)
      else Some (st, false)
  end.

Definition of_WAIT (t : nat) (st : pool) : option (pool * bool) :=
  x ← threads st !! t; _ ← assert_ (negb (waiting_for_event x)); st ← update t (with_event true) st; Some (st, false).

Definition of_WAIT_FORK (t : nat) (st : pool) : option (pool * bool) :=
  x ← threads st !! t;
  _ ← assert_ (negb (i_am_joining x)); _ ← assert_ (negb (i_am_waiting x)); _ ← assert_ (bool_decide (children x = ∅));
  if bool_decide (detached_children x = ∅) then Some (st, true)
  else st ← update t (with_waiting true) st; Some (st, false).

(** [%delay]: scheduled again, later. *)
Definition of_DELAY (t : nat) (st : pool) : option (pool * bool) := st ← schedule_vthread t st; Some (st, false).

Definition of_ZOMBIE (t : nat) (st : pool) : option (pool * bool) :=
  x ← threads st !! t;
  if bool_decide (parent x = None) && bool_decide (children x = ∅) then Some (put_threads (delete t (threads st)) st, false)
  else Some (st, false).

(** [do_disable]: the state, and whether [self] was disabled; [fuel] bounds the depth and the
    length of the loop over the children. *)
Fixpoint do_disable (fuel : nat) (t self : nat) (st : pool) : option (pool * bool) :=
  match fuel with
  | O => None
  | S fuel =>
      x ← threads st !! t;
      let st := put_scope (parent_scope x) (scope_set (parent_scope x) st ∖ {[t]}) st in
      st ← update t (with_ended true) st;
      '(st, flag) ← (fix loop (n : nat) (st : pool) (flag : bool) : option (pool * bool) :=
        match n with
        | O => None
        | S n =>
            x ← threads st !! t;
            match order (children x) with
            | [] => Some (st, flag)
            | c :: _ =>
                y ← threads st !! c; _ ← assert_ (bool_decide (parent y = Some t));
                st ← update t (with_joining false) st;
                '(st, hit) ← do_disable fuel c self st;
                st ← vthread_reap c st;
                loop n st (flag || hit)
            end
        end) (S (size (threads st))) st false;
      st ← match parent x with
        | Some p =>
            y ← threads st !! p;
            if i_am_joining y then
              st ← update p (with_joining false) st;
              st ← (if i_have_ended y then Some st else schedule_vthread p st);
              do_join p t st
            else Some st
        | None => vthread_reap t st
        end;
      Some (st, flag || (t =? self)%nat)
  end.

Fixpoint disable_scope (fuel : nat) (scope self : nat) (flag : bool) (st : pool) : option (pool * bool) :=
  match fuel with
  | O => None
  | S fuel =>
      match order (scope_set scope st) with
      | [] => Some (st, negb flag)
      | t :: _ => '(st, hit) ← do_disable (S (size (threads st))) t self st; disable_scope fuel scope self (flag || hit) st
      end
  end.

Definition of_DISABLE (scope : nat) (t : nat) (st : pool) : option (pool * bool) :=
  disable_scope (S (size (scope_set scope st))) scope t false st.

Fixpoint disable_detached (fuel : nat) (t : nat) (st : pool) : option pool :=
  match fuel with
  | O => None
  | S fuel =>
      x ← threads st !! t;
      match order (detached_children x) with
      | [] => Some st
      | c :: _ =>
          y ← threads st !! c; _ ← assert_ (bool_decide (parent y = Some t));
          '(st, res) ← do_disable (S (size (threads st))) c t st; _ ← assert_ (negb res);
          st ← vthread_reap c st; disable_detached fuel t st
      end
  end.

Definition of_DISABLE_FORK (t : nat) (st : pool) : option (pool * bool) :=
  x ← threads st !! t; _ ← assert_ (negb (i_am_joining x)); _ ← assert_ (bool_decide (children x = ∅));
  st ← disable_detached (S (size (detached_children x))) t st; Some (st, true).
End Ops.

(** ** Outside the instructions *)

(** [vthread_run]: the thread leaves the schedule. *)
Definition dispatch (t : nat) (st : pool) : option pool :=
  x ← threads st !! t; _ ← assert_ (is_scheduled x); update t (with_scheduled false) st.

(** [vthread_schedule_list] on the threads that waited for one event. *)
Fixpoint schedule_list (l : list nat) (st : pool) : option pool :=
  match l with
  | [] => Some st
  | t :: l =>
      x ← threads st !! t; _ ← assert_ (waiting_for_event x);
      st ← update t (with_event false) st; st ← schedule_vthread t st; schedule_list l st
  end.
