(* ===== verification/ThreadTreeProps.v ===== *)
(** The thread tree: every thread that is alive runs, is scheduled, or waits for something that
    will wake it, whatever the threads do. *)
From stdpp Require Import gmap fin_maps sets.
From S2P Require Import Prelude ThreadTree.

(** * The invariant *)

Definition flag1 (b : bool) : nat := if b then 1 else 0.

(** How many ways a thread has to go on. *)
Definition modes (run : option nat) (t : nat) (x : vthread_s) : nat :=
  (flag1 (bool_decide (run = Some t)) + flag1 (is_scheduled x) + flag1 (waiting_for_event x) + flag1 (i_am_joining x) + flag1 (i_am_waiting x))%nat.

Record inv (m : gmap nat vthread_s) (n : nat) (run : option nat) : Prop := {
  inv_fresh t x : m !! t = Some x -> (t < n)%nat;
  inv_parent t x p : m !! t = Some x -> parent x = Some p ->
    (p < t)%nat /\ exists y, m !! p = Some y /\ t ∈ (if i_am_detached x then detached_children y else children y);
  inv_children t x c : m !! t = Some x -> c ∈ children x -> exists y, m !! c = Some y /\ parent y = Some t /\ i_am_detached y = false;
  inv_detached t x c : m !! t = Some x -> c ∈ detached_children x -> exists y, m !! c = Some y /\ parent y = Some t /\ i_am_detached y = true /\ i_have_ended y = false;
  inv_orphan t x : m !! t = Some x -> parent x = None -> i_am_detached x = false /\ i_have_ended x = false;
  inv_ended t x : m !! t = Some x -> i_have_ended x = true -> children x = ∅ /\ detached_children x = ∅;
  inv_joining t x : m !! t = Some x -> i_am_joining x = true -> children x <> ∅ /\ forall c y, c ∈ children x -> m !! c = Some y -> i_have_ended y = false;
  inv_waiting t x : m !! t = Some x -> i_am_waiting x = true -> children x = ∅ /\ detached_children x <> ∅;
  inv_modes t x : m !! t = Some x -> modes run t x = flag1 (negb (i_have_ended x));
  inv_run t : run = Some t -> exists x, m !! t = Some x /\ i_have_ended x = false }.

(** The flags of the running thread, and of one that has ended. *)
Lemma running_flags m n t : inv m n (Some t) -> exists x, m !! t = Some x /\ i_have_ended x = false /\ is_scheduled x = false /\ waiting_for_event x = false /\ i_am_joining x = false /\ i_am_waiting x = false.
Proof.
  intros H. destruct (inv_run _ _ _ H t eq_refl) as (x & E & Hx). exists x. split; [done|]. split; [done|]. pose proof (inv_modes _ _ _ H t x E) as HM.
  unfold modes in HM. rewrite Hx, bool_decide_eq_true_2 in HM by done. by destruct (is_scheduled x), (waiting_for_event x), (i_am_joining x), (i_am_waiting x).
Qed.

Lemma ended_flags m n run t x : inv m n run -> m !! t = Some x -> i_have_ended x = true ->
  run <> Some t /\ is_scheduled x = false /\ waiting_for_event x = false /\ i_am_joining x = false /\ i_am_waiting x = false.
Proof.
  intros H E Hx. pose proof (inv_modes _ _ _ H t x E) as HM. unfold modes in HM. rewrite Hx in HM.
  destruct (bool_decide (run = Some t)) eqn:ER; [done|]. apply bool_decide_eq_false in ER. by destruct (is_scheduled x), (waiting_for_event x), (i_am_joining x), (i_am_waiting x).
Qed.

(** One thread changes in its flags alone. *)
Definition same_tree (x y : vthread_s) : Prop :=
  parent x = parent y /\ children x = children y /\ detached_children x = detached_children y /\ i_am_detached x = i_am_detached y /\ i_have_ended x = i_have_ended y.

Lemma inv_flags m n run run' t x x' : inv m n run -> m !! t = Some x -> same_tree x x' ->
  (forall u, u <> t -> run = Some u <-> run' = Some u) -> modes run' t x' = flag1 (negb (i_have_ended x')) ->
  (i_am_joining x' = true -> i_am_joining x = true \/ children x <> ∅ /\ forall c y, c ∈ children x -> m !! c = Some y -> i_have_ended y = false) ->
  (i_am_waiting x' = true -> i_am_waiting x = true \/ children x = ∅ /\ detached_children x <> ∅) ->
  (run' = Some t -> i_have_ended x' = false) ->
  inv (<[t := x']> m) n run'.
Proof.
  intros H E (Tp & Tc & Td & Tdt & Te) Hr Hm Hj Hw Hrt.
  assert (HL : forall k y', <[t := x']> m !! k = Some y' -> exists y, m !! k = Some y /\ same_tree y y' /\ (k <> t -> y = y')).
  { intros k y'. destruct (decide (k = t)) as [->|Hk]; simplify_map_eq; [intros; simplify_eq; by exists x|intros Hy; by exists y']. }
  assert (HU : forall k y, m !! k = Some y -> exists y', <[t := x']> m !! k = Some y' /\ same_tree y y').
  { intros k y Hy. destruct (decide (k = t)) as [->|Hk]; simplify_map_eq; [by exists x'|by exists y]. }
  split.
  - intros k y' Hy'. destruct (HL k y' Hy') as (y & Hy & _). by eapply inv_fresh.
  - intros k y' p Hy' Hp. destruct (HL k y' Hy') as (y & Hy & (E1 & E2 & E3 & E4 & E5) & _). rewrite <- E1 in Hp. rewrite <- E4.
    destruct (inv_parent _ _ _ H k y p Hy Hp) as (Hlt & z & Hz & Hin). split; [done|]. destruct (HU p z Hz) as (z' & Hz' & F1 & F2 & F3 & F4 & F5). exists z'. split; [done|]. by rewrite <- F2, <- F3.
  - intros k y' c Hy' Hc. destruct (HL k y' Hy') as (y & Hy & (E1 & E2 & E3 & E4 & E5) & _). rewrite <- E2 in Hc.
    destruct (inv_children _ _ _ H k y c Hy Hc) as (z & Hz & Z1 & Z2). destruct (HU c z Hz) as (z' & Hz' & F1 & F2 & F3 & F4 & F5). exists z'. by rewrite <- F1, <- F4.
  - intros k y' c Hy' Hc. destruct (HL k y' Hy') as (y & Hy & (E1 & E2 & E3 & E4 & E5) & _). rewrite <- E3 in Hc.
    destruct (inv_detached _ _ _ H k y c Hy Hc) as (z & Hz & Z1 & Z2 & Z3). destruct (HU c z Hz) as (z' & Hz' & F1 & F2 & F3 & F4 & F5). exists z'. by rewrite <- F1, <- F4, <- F5.
  - intros k y' Hy' Hp. destruct (HL k y' Hy') as (y & Hy & (E1 & E2 & E3 & E4 & E5) & _). rewrite <- E1 in Hp. rewrite <- E4, <- E5. by eapply inv_orphan.
  - intros k y' Hy' Hp. destruct (HL k y' Hy') as (y & Hy & (E1 & E2 & E3 & E4 & E5) & _). rewrite <- E5 in Hp. rewrite <- E2, <- E3. by eapply inv_ended.
  - intros k y' Hy' Hp. assert (HX : exists y, m !! k = Some y /\ children y = children y' /\ children y <> ∅ /\ forall c z, c ∈ children y -> m !! c = Some z -> i_have_ended z = false).
    { destruct (decide (k = t)) as [->|Hk]; simplify_map_eq.
      - exists x. split; [done|]. split; [done|]. destruct (Hj Hp) as [Hjx|Hjx]; [by eapply inv_joining|done].
      - exists y'. split; [done|]. split; [done|]. by eapply inv_joining. }
    destruct HX as (y & Hy & Ey & Hne & Hall). rewrite <- Ey. split; [done|]. intros c z' Hc Hz'. destruct (HL c z' Hz') as (z & Hz & (_ & _ & _ & _ & F5) & _). rewrite <- F5. by eapply Hall.
  - intros k y' Hy' Hp. destruct (decide (k = t)) as [->|Hk]; simplify_map_eq; [|by eapply inv_waiting].
    rewrite <- Tc, <- Td. destruct (Hw Hp) as [Hwx|Hwx]; [by eapply inv_waiting|done].
  - intros k y' Hy'. destruct (decide (k = t)) as [->|Hk]; simplify_map_eq; [done|]. rewrite <- (inv_modes _ _ _ H k y') by done. unfold modes.
    by rewrite (bool_decide_ext (run = Some k) (run' = Some k)) by (by apply Hr).
  - intros u Hu. destruct (decide (u = t)) as [->|Hk]; [exists x'; simplify_map_eq; auto|]. apply Hr in Hu; [|done].
    destruct (inv_run _ _ _ H u Hu) as (y & Hy & He). destruct (HU u y Hy) as (y' & Hy' & _ & _ & _ & _ & F5). exists y'. by rewrite <- F5.
Qed.

(** ** A thread is deleted *)

Definition trimmed (t : nat) (x y : vthread_s) : Prop :=
  parent x = parent y /\ children y = children x ∖ {[t]} /\ detached_children y = detached_children x ∖ {[t]} /\ i_am_detached x = i_am_detached y /\ i_have_ended x = i_have_ended y.

Lemma set_without (s : gset nat) t : t ∉ s -> s ∖ {[t]} = s. Proof. set_solver. Qed.

(** Every thread but [t] stays, without [t] among its children. *)
Lemma inv_trim m m' n run run' t x : inv m n run -> m !! t = Some x -> children x = ∅ -> detached_children x = ∅ -> m' !! t = None ->
  (forall k y', m' !! k = Some y' -> exists y, m !! k = Some y /\ trimmed t y y' /\ (i_am_joining y' = true -> i_am_joining y = true) /\
    (i_am_joining y' = true -> children y' <> ∅) /\ (i_am_waiting y' = true -> children y' = ∅ /\ detached_children y' <> ∅)) ->
  (forall k y, m !! k = Some y -> k <> t -> exists y', m' !! k = Some y' /\ trimmed t y y') ->
  (forall k y', m' !! k = Some y' -> modes run' k y' = flag1 (negb (i_have_ended y'))) ->
  (forall u, run' = Some u -> exists y, m' !! u = Some y /\ i_have_ended y = false) -> inv m' n run'.
Proof.
  intros H E Hc0 Hd0 HN HL HU Hmodes Hrun.
  assert (Hnt : forall k y p, m' !! k = Some y -> parent y = Some p -> p <> t).
  { intros k y' p Hy' Hp ->. destruct (HL k y' Hy') as (y & Hy & (E1 & _) & _). rewrite <- E1 in Hp. destruct (inv_parent _ _ _ H k y t Hy Hp) as (_ & z & Hz & Hin).
    rewrite E in Hz. injection Hz as <-. rewrite Hc0, Hd0 in Hin. by destruct (i_am_detached y). }
  assert (Hkt : forall k y, m' !! k = Some y -> k <> t) by (intros k y Hy ->; congruence).
  split.
  - intros k y' Hy'. destruct (HL k y' Hy') as (y & Hy & _). by eapply inv_fresh.
  - intros k y' p Hy' Hp. pose proof (Hnt k y' p Hy' Hp) as Hpt. destruct (HL k y' Hy') as (y & Hy & (E1 & E2 & E3 & E4 & E5) & _). rewrite <- E1 in Hp. rewrite <- E4.
    destruct (inv_parent _ _ _ H k y p Hy Hp) as (Hlt & z & Hz & Hin). split; [done|]. destruct (HU p z Hz Hpt) as (z' & Hz' & F1 & F2 & F3 & F4 & F5). exists z'. split; [done|].
    rewrite F2, F3. pose proof (Hkt _ _ Hy'). destruct (i_am_detached y); set_solver.
  - intros k y' c Hy' Hc. destruct (HL k y' Hy') as (y & Hy & (E1 & E2 & E3 & E4 & E5) & _). rewrite E2 in Hc. apply elem_of_difference in Hc as [Hc Hct]. rewrite elem_of_singleton in Hct.
    destruct (inv_children _ _ _ H k y c Hy Hc) as (z & Hz & Z1 & Z2). destruct (HU c z Hz Hct) as (z' & Hz' & F1 & F2 & F3 & F4 & F5). exists z'. by rewrite <- F1, <- F4.
  - intros k y' c Hy' Hc. destruct (HL k y' Hy') as (y & Hy & (E1 & E2 & E3 & E4 & E5) & _). rewrite E3 in Hc. apply elem_of_difference in Hc as [Hc Hct]. rewrite elem_of_singleton in Hct.
    destruct (inv_detached _ _ _ H k y c Hy Hc) as (z & Hz & Z1 & Z2 & Z3). destruct (HU c z Hz Hct) as (z' & Hz' & F1 & F2 & F3 & F4 & F5). exists z'. by rewrite <- F1, <- F4, <- F5.
  - intros k y' Hy' Hp. destruct (HL k y' Hy') as (y & Hy & (E1 & E2 & E3 & E4 & E5) & _). rewrite <- E1 in Hp. rewrite <- E4, <- E5. by eapply inv_orphan.
  - intros k y' Hy' Hp. destruct (HL k y' Hy') as (y & Hy & (E1 & E2 & E3 & E4 & E5) & _). rewrite <- E5 in Hp. rewrite E2, E3. destruct (inv_ended _ _ _ H k y Hy Hp) as [-> ->]. set_solver.
  - intros k y' Hy' Hj. destruct (HL k y' Hy') as (y & Hy & (E1 & E2 & E3 & E4 & E5) & Hj1 & Hj2 & _). split; [by apply Hj2|].
    intros c z' Hc Hz'. destruct (HL c z' Hz') as (z & Hz & (_ & _ & _ & _ & F5) & _). rewrite <- F5. destruct (inv_joining _ _ _ H k y Hy (Hj1 Hj)) as [_ Hall]. eapply Hall; [|exact Hz]. set_solver.
  - intros k y' Hy' Hw. destruct (HL k y' Hy') as (y & _ & _ & _ & _ & Hw'). by apply Hw'.
  - done.
  - done.
Qed.

Lemma other_sets m n run t x k y : inv m n run -> m !! t = Some x -> m !! k = Some y -> parent x <> Some k -> children y ∖ {[t]} = children y /\ detached_children y ∖ {[t]} = detached_children y.
Proof.
  intros H E Hk Hp. split; apply set_without; intros Hin.
  - destruct (inv_children _ _ _ H k y t Hk Hin) as (z & Hz & Hzp & _). congruence.
  - destruct (inv_detached _ _ _ H k y t Hk Hin) as (z & Hz & Hzp & _). congruence.
Qed.

Lemma trimmed_other m n run t x k y : inv m n run -> m !! t = Some x -> m !! k = Some y -> parent x <> Some k -> trimmed t y y.
Proof. intros H E Hk Hp. destruct (other_sets m n run t x k y H E Hk Hp) as [E1 E2]. by split_and!. Qed.

Lemma modes_run run run' k y : (run = Some k <-> run' = Some k) -> modes run k y = modes run' k y.
Proof. intros Hr. unfold modes. by rewrite (bool_decide_ext _ _ Hr). Qed.

Lemma inv_delete_root m n run run' t x : inv m n run -> m !! t = Some x -> children x = ∅ -> detached_children x = ∅ -> parent x = None ->
  run' <> Some t -> (forall u, u <> t -> run = Some u <-> run' = Some u) -> inv (delete t m) n run'.
Proof.
  intros H E Hc0 Hd0 Hp Hrt Hr. eapply (inv_trim m _ n run run' t x); try done.
  - by simplify_map_eq.
  - intros k y'. destruct (decide (k = t)) as [->|Hk]; simplify_map_eq; [done|]. intros Hy. exists y'. split; [done|]. split; [eapply trimmed_other; [done..|by rewrite Hp]|].
    split; [done|]. split; [intros Hj; by eapply inv_joining|intros Hw; by eapply inv_waiting].
  - intros k y Hy Hk. exists y. simplify_map_eq. split; [done|]. eapply trimmed_other; [done..|by rewrite Hp].
  - intros k y'. destruct (decide (k = t)) as [->|Hk]; simplify_map_eq; [done|]. intros Hy. rewrite <- (inv_modes _ _ _ H k y') by done. apply modes_run. symmetry. by apply Hr.
  - intros u Hu. assert (u <> t) by congruence. apply Hr in Hu; [|done]. destruct (inv_run _ _ _ H u Hu) as (y & Hy & He). exists y. by simplify_map_eq.
Qed.

Lemma inv_delete_child m n run run' t x p z z' : inv m n run -> m !! t = Some x -> children x = ∅ -> detached_children x = ∅ -> parent x = Some p -> m !! p = Some z ->
  trimmed t z z' -> (i_am_joining z' = true -> i_am_joining z = true /\ children z' <> ∅) -> (i_am_waiting z' = true -> children z' = ∅ /\ detached_children z' <> ∅) ->
  modes run' p z' = flag1 (negb (i_have_ended z')) -> run' <> Some t -> (run' = Some p -> i_have_ended z' = false) -> (forall u, u <> t -> u <> p -> run = Some u <-> run' = Some u) ->
  inv (delete t (<[p := z']> m)) n run'.
Proof.
  intros H E Hc0 Hd0 Hp Ez HT Hj Hw Hm Hrt Hrp Hr. destruct (inv_parent _ _ _ H t x p E Hp) as (Hlt & _). assert (Hpt : p <> t) by lia.
  assert (HO : forall k y, k <> p -> m !! k = Some y -> trimmed t y y) by (intros k y Hk Hy; eapply trimmed_other; [done..|congruence]).
  eapply (inv_trim m _ n run run' t x); try done.
  - by simplify_map_eq.
  - intros k y'. destruct (decide (k = t)) as [->|Hk]; simplify_map_eq; [done|]. destruct (decide (k = p)) as [->|Hkp]; simplify_map_eq.
    + intros. simplify_eq. exists z. split; [done|]. split; [done|]. split; [by intros; apply Hj|]. split; [by intros; apply Hj|done].
    + intros Hy. exists y'. split; [done|]. split; [by eapply HO|]. split; [done|]. split; [intros Hjy; by eapply inv_joining|intros Hwy; by eapply inv_waiting].
  - intros k y Hy Hk. destruct (decide (k = p)) as [->|Hkp]; simplify_map_eq; [by exists z'|]. exists y. split; [done|]. by eapply HO.
  - intros k y'. destruct (decide (k = t)) as [->|Hk]; simplify_map_eq; [done|]. destruct (decide (k = p)) as [->|Hkp]; simplify_map_eq; [by intros; simplify_eq|].
    intros Hy. rewrite <- (inv_modes _ _ _ H k y') by done. apply modes_run. symmetry. by apply Hr.
  - intros u Hu. assert (u <> t) by congruence. destruct (decide (u = p)) as [->|Hup]; [exists z'; simplify_map_eq; auto|]. apply Hr in Hu; [|done..].
    destruct (inv_run _ _ _ H u Hu) as (y & Hy & He). exists y. by simplify_map_eq.
Qed.

(** ** A child is made, a child is detached, the detached children are let go *)

Definition child_of (t scope : nat) : vthread_s := mkThread (Some t) ∅ ∅ scope false false false true false false false false.
Definition top_thread (scope : nat) : vthread_s := mkThread None ∅ ∅ scope false false false true false false false false.

Lemma inv_fork m n t x s : inv m n (Some t) -> m !! t = Some x ->
  inv (<[t := with_children ({[n]} ∪ children x) (detached_children x) x]> (<[n := child_of t s]> m)) (S n) (Some t).
Proof.
  intros H E. set (x' := with_children _ _ x). destruct (running_flags m n t H) as (x0 & E0 & Hne & Hs & Hev & Hj & Hw). rewrite E in E0. injection E0 as <-.
  pose proof (inv_fresh _ _ _ H t x E) as Htn. assert (Hn : m !! n = None) by (destruct (m !! n) eqn:En; [apply (inv_fresh _ _ _ H) in En; lia|done]).
  assert (HC : forall k y c, m !! k = Some y -> c ∈ children y \/ c ∈ detached_children y -> (c < n)%nat).
  { intros k y c Hy [Hc|Hc]; [destruct (inv_children _ _ _ H k y c Hy Hc) as (z & Hz & _)|destruct (inv_detached _ _ _ H k y c Hy Hc) as (z & Hz & _)]; by apply (inv_fresh _ _ _ H) in Hz. }
  assert (HU : forall k y, m !! k = Some y -> exists y', <[t := x']> (<[n := child_of t s]> m) !! k = Some y' /\ parent y' = parent y /\ i_am_detached y' = i_am_detached y /\ i_have_ended y' = i_have_ended y /\
    (forall c, c ∈ children y -> c ∈ children y') /\ detached_children y' = detached_children y).
  { intros k y Hy. assert (k <> n) by congruence. destruct (decide (k = t)) as [->|Hk]; simplify_map_eq; [exists x'|exists y]; split_and!; try done. intros c Hc. cbn. set_solver. }
  split.
  - intros k y. destruct (decide (k = t)) as [->|Hk]; simplify_map_eq; [lia|]. destruct (decide (k = n)) as [->|Hkn]; simplify_map_eq; [lia|]. intros Hy. apply (inv_fresh _ _ _ H) in Hy. lia.
  - intros k y p. destruct (decide (k = t)) as [->|Hk]; simplify_map_eq.
    + intros [= <-] Hp. destruct (inv_parent _ _ _ H t x p E Hp) as (Hlt & z & Hz & Hin). split; [done|]. destruct (HU p z Hz) as (z' & Hz' & _ & _ & _ & Zc & Zd). exists z'. split; [done|].
      cbn. destruct (i_am_detached x); [by rewrite Zd|by apply Zc].
    + destruct (decide (k = n)) as [->|Hkn]; simplify_map_eq.
      * intros [= <-] [= <-]. split; [done|]. exists x'. simplify_map_eq. split; [done|]. cbn. set_solver.
      * intros Hy Hp. destruct (inv_parent _ _ _ H k y p Hy Hp) as (Hlt & z & Hz & Hin). split; [done|]. destruct (HU p z Hz) as (z' & Hz' & _ & _ & _ & Zc & Zd). exists z'. split; [done|].
        destruct (i_am_detached y); [by rewrite Zd|by apply Zc].
  - intros k y c. destruct (decide (k = t)) as [->|Hk]; simplify_map_eq.
    + intros [= <-] Hc. cbn in Hc. apply elem_of_union in Hc as [Hc|Hc].
      * apply elem_of_singleton in Hc as ->. exists (child_of t s). by simplify_map_eq.
      * destruct (inv_children _ _ _ H t x c E Hc) as (z & Hz & Zp & Zd). destruct (HU c z Hz) as (z' & Hz' & Fp & Fd & _). exists z'. by rewrite Fp, Fd.
    + destruct (decide (k = n)) as [->|Hkn]; simplify_map_eq; [intros [= <-] Hc; cbn in Hc; set_solver|]. intros Hy Hc.
      destruct (inv_children _ _ _ H k y c Hy Hc) as (z & Hz & Zp & Zd). destruct (HU c z Hz) as (z' & Hz' & Fp & Fd & _). exists z'. by rewrite Fp, Fd.
  - intros k y c Hy Hc. assert (HD : exists y0, m !! k = Some y0 /\ c ∈ detached_children y0).
    { destruct (decide (k = t)) as [->|Hk]; simplify_map_eq; [by exists x|]. destruct (decide (k = n)) as [->|Hkn]; simplify_map_eq; try (by apply elem_of_empty in Hc). by exists y. }
    destruct HD as (y0 & Hy0 & Hc0). destruct (inv_detached _ _ _ H k y0 c Hy0 Hc0) as (z & Hz & Zp & Zd & Ze). destruct (HU c z Hz) as (z' & Hz' & Fp & Fd & Fe & _). exists z'. by rewrite Fp, Fd, Fe.
  - intros k y. destruct (decide (k = t)) as [->|Hk]; simplify_map_eq; [intros [= <-] Hp; by apply (inv_orphan _ _ _ H t x)|].
    destruct (decide (k = n)) as [->|Hkn]; simplify_map_eq; [by intros [= <-]|by apply (inv_orphan _ _ _ H)].
  - intros k y. destruct (decide (k = t)) as [->|Hk]; simplify_map_eq; [intros [= <-]; cbn; congruence|].
    destruct (decide (k = n)) as [->|Hkn]; simplify_map_eq; [by intros [= <-]|by apply (inv_ended _ _ _ H)].
  - intros k y. destruct (decide (k = t)) as [->|Hk]; simplify_map_eq; [intros [= <-]; cbn; congruence|].
    destruct (decide (k = n)) as [->|Hkn]; simplify_map_eq; [by intros [= <-]|]. intros Hy Hjy. destruct (inv_joining _ _ _ H k y Hy Hjy) as [Hne' Hall]. split; [done|].
    intros c z' Hc Hz'. destruct (inv_children _ _ _ H k y c Hy Hc) as (z & Hz & _). destruct (HU c z Hz) as (z'' & Hz'' & _ & _ & Fe & _). rewrite Hz' in Hz''. injection Hz'' as <-. rewrite Fe. by eapply Hall.
  - intros k y. destruct (decide (k = t)) as [->|Hk]; simplify_map_eq; [intros [= <-]; cbn; congruence|].
    destruct (decide (k = n)) as [->|Hkn]; simplify_map_eq; [by intros [= <-]|by apply (inv_waiting _ _ _ H)].
  - intros k y. destruct (decide (k = t)) as [->|Hk]; simplify_map_eq; [intros [= <-]; by apply (inv_modes _ _ _ H t x)|].
    destruct (decide (k = n)) as [->|Hkn]; simplify_map_eq; [intros [= <-]; unfold modes; by rewrite bool_decide_eq_false_2 by (intros [=]; lia)|by apply (inv_modes _ _ _ H)].
  - intros u [= <-]. exists x'. by simplify_map_eq.
Qed.

(** A new thread at the top. *)
Lemma inv_start m n run s : inv m n run -> run <> Some n -> inv (<[n := top_thread s]> m) (S n) run.
Proof.
  intros H Hrn. assert (Hn : m !! n = None) by (destruct (m !! n) eqn:En; [apply (inv_fresh _ _ _ H) in En; lia|done]).
  assert (HL : forall k y, m !! k = Some y -> <[n := top_thread s]> m !! k = Some y) by (intros k y Hy; assert (k <> n) by congruence; by simplify_map_eq).
  assert (HN : forall k y, <[n := top_thread s]> m !! k = Some y -> k = n /\ y = top_thread s \/ m !! k = Some y) by (intros k y; destruct (decide (k = n)) as [->|]; simplify_map_eq; [intros; left; by simplify_eq|by right]).
  split.
  - intros k y [[-> _]|Hy]%HN; [lia|]. apply (inv_fresh _ _ _ H) in Hy. lia.
  - intros k y p [[-> ->]|Hy]%HN; [done|]. intros Hp. destruct (inv_parent _ _ _ H k y p Hy Hp) as (Hlt & z & Hz & Hin). split; [done|]. exists z. split; [by apply HL|done].
  - intros k y c [[-> ->]|Hy]%HN Hc; [by apply elem_of_empty in Hc|]. destruct (inv_children _ _ _ H k y c Hy Hc) as (z & Hz & ?). exists z. split; [by apply HL|done].
  - intros k y c [[-> ->]|Hy]%HN Hc; [by apply elem_of_empty in Hc|]. destruct (inv_detached _ _ _ H k y c Hy Hc) as (z & Hz & ?). exists z. split; [by apply HL|done].
  - intros k y [[-> ->]|Hy]%HN; [done|by apply (inv_orphan _ _ _ H k)].
  - intros k y [[-> ->]|Hy]%HN; [done|by apply (inv_ended _ _ _ H k)].
  - intros k y [[-> ->]|Hy]%HN; [done|]. intros Hj. destruct (inv_joining _ _ _ H k y Hy Hj) as [Hne Hall]. split; [done|]. intros c z Hc Hz.
    destruct (inv_children _ _ _ H k y c Hy Hc) as (z' & Hz' & _). pose proof (HL _ _ Hz') as HZ. rewrite Hz in HZ. injection HZ as <-. by eapply Hall.
  - intros k y [[-> ->]|Hy]%HN; [done|by apply (inv_waiting _ _ _ H k)].
  - intros k y [[-> ->]|Hy]%HN; [unfold modes; by rewrite bool_decide_eq_false_2|by apply (inv_modes _ _ _ H k)].
  - intros u Hu. destruct (inv_run _ _ _ H u Hu) as (y & Hy & He). exists y. split; [by apply HL|done].
Qed.

Lemma inv_move m n t x c y : inv m n (Some t) -> m !! t = Some x -> c ∈ children x -> m !! c = Some y -> i_have_ended y = false ->
  inv (<[c := with_parent (Some t) true y]> (<[t := with_children (children x ∖ {[c]}) ({[c]} ∪ detached_children x) x]> m)) n (Some t).
Proof.
  intros H E Hc Ec Hey. set (x' := with_children _ _ x). set (y' := with_parent _ _ y).
  destruct (running_flags m n t H) as (x0 & E0 & Hne & Hs & Hev & Hj & Hw). rewrite E in E0. injection E0 as <-.
  destruct (inv_children _ _ _ H t x c E Hc) as (y0 & Ey0 & Hyp & Hyd). rewrite Ec in Ey0. injection Ey0 as <-.
  assert (Hct : c <> t) by (destruct (inv_parent _ _ _ H c y t Ec Hyp) as [? _]; lia).
  set (m' := <[c := y']> _). assert (Mc : m' !! c = Some y') by (unfold m'; by simplify_map_eq). assert (Mt : m' !! t = Some x') by (unfold m'; by simplify_map_eq).
  assert (Mo : forall k, k <> c -> k <> t -> m' !! k = m !! k) by (intros k H1 H2; unfold m'; by simplify_map_eq).
  assert (HL : forall k z', m' !! k = Some z' -> exists z, m !! k = Some z /\ parent z' = parent z /\ i_have_ended z' = i_have_ended z /\ i_am_joining z' = i_am_joining z /\ i_am_waiting z' = i_am_waiting z /\
    is_scheduled z' = is_scheduled z /\ waiting_for_event z' = waiting_for_event z /\ (k <> c -> i_am_detached z' = i_am_detached z) /\ (k <> t -> children z' = children z /\ detached_children z' = detached_children z)).
  { intros k z' Hz'. destruct (decide (k = c)) as [->|Hkc]; [rewrite Mc in Hz'; injection Hz' as <-; exists y; by split_and!|].
    destruct (decide (k = t)) as [->|Hkt]; [rewrite Mt in Hz'; injection Hz' as <-; exists x; by split_and!|]. rewrite Mo in Hz' by done. exists z'. by split_and!. }
  assert (HU : forall k z, m !! k = Some z -> exists z', m' !! k = Some z' /\ parent z' = parent z /\ i_have_ended z' = i_have_ended z /\ (k <> c -> i_am_detached z' = i_am_detached z) /\ (k <> t -> children z' = children z /\ detached_children z' = detached_children z)).
  { intros k z Hz. destruct (decide (k = c)) as [->|Hkc]; [exists y'; rewrite Ec in Hz; injection Hz as <-; by split_and!|].
    destruct (decide (k = t)) as [->|Hkt]; [exists x'; rewrite E in Hz; injection Hz as <-; by split_and!|]. exists z. rewrite Mo by done. by split_and!. }
  assert (Honly : forall k z, m !! k = Some z -> c ∈ children z \/ c ∈ detached_children z -> k = t).
  { intros k z Hz [Hin|Hin]; [destruct (inv_children _ _ _ H k z c Hz Hin) as (w & Ew & Hwp & _)|destruct (inv_detached _ _ _ H k z c Hz Hin) as (w & Ew & Hwp & _)]; congruence. }
  split.
  - intros k z' Hz'. destruct (HL k z' Hz') as (z & Hz & _). by apply (inv_fresh _ _ _ H k z).
  - intros k z' p Hz' Hp. destruct (HL k z' Hz') as (z & Hz & Zp & _ & _ & _ & _ & _ & Zd & _). rewrite Zp in Hp. destruct (inv_parent _ _ _ H k z p Hz Hp) as (Hlt & w & Ew & Hin). split; [done|].
    destruct (decide (k = c)) as [->|Hkc].
    { rewrite Mc in Hz'. injection Hz' as <-. rewrite Ec in Hz. injection Hz as <-. assert (p = t) as -> by congruence. exists x'. split; [done|]. cbn. set_solver. }
    rewrite Zd by done. destruct (decide (p = t)) as [->|Hpt].
    + exists x'. split; [done|]. rewrite E in Ew. injection Ew as <-. cbn. destruct (i_am_detached z); set_solver.
    + destruct (HU p w Ew) as (w' & Ew' & _ & _ & _ & Ws). destruct (Ws Hpt) as [W1 W2]. exists w'. by rewrite W1, W2.
  - intros k z' d Hz' Hd. destruct (HL k z' Hz') as (z & Hz & Zp & _ & _ & _ & _ & _ & _ & Zs).
    assert (Hd' : d ∈ children z /\ d <> c).
    { destruct (decide (k = t)) as [->|Hkt]; [rewrite Mt in Hz'; injection Hz' as <-; rewrite E in Hz; injection Hz as <-; cbn in Hd; set_solver|].
      destruct (Zs Hkt) as [Z1 _]. rewrite Z1 in Hd. split; [done|]. intros ->. apply Hkt. by apply (Honly k z); [|left]. }
    destruct Hd' as [Hd' Hdc]. destruct (inv_children _ _ _ H k z d Hz Hd') as (w & Ew & Wp & Wd). destruct (HU d w Ew) as (w' & Ew' & Fp & _ & Fd & _). exists w'. rewrite Fp, Fd by done. done.
  - intros k z' d Hz' Hd. destruct (HL k z' Hz') as (z & Hz & Zp & _ & _ & _ & _ & _ & _ & Zs). destruct (decide (d = c)) as [->|Hdc].
    { assert (k = t) as ->; [|exists y'; by split_and!]. destruct (decide (k = t)) as [|Hkt]; [done|]. destruct (Zs Hkt) as [_ Z2]. rewrite Z2 in Hd. apply (Honly k z); [done|by right]. }
    assert (Hd' : d ∈ detached_children z).
    { destruct (decide (k = t)) as [->|Hkt]; [rewrite Mt in Hz'; injection Hz' as <-; rewrite E in Hz; injection Hz as <-; cbn in Hd; set_solver|]. destruct (Zs Hkt) as [_ Z2]. by rewrite <- Z2. }
    destruct (inv_detached _ _ _ H k z d Hz Hd') as (w & Ew & Wp & Wd & We). destruct (HU d w Ew) as (w' & Ew' & Fp & Fe & Fd & _). exists w'. rewrite Fp, Fe, Fd by done. done.
  - intros k z' Hz' Hp. destruct (HL k z' Hz') as (z & Hz & Zp & Ze & _ & _ & _ & _ & Zd & _). rewrite Zp in Hp. destruct (inv_orphan _ _ _ H k z Hz Hp) as [O1 O2].
    rewrite Ze, Zd; [done|]. intros ->. congruence.
  - intros k z' Hz' He. destruct (HL k z' Hz') as (z & Hz & _ & Ze & _ & _ & _ & _ & _ & Zs). rewrite Ze in He. destruct (inv_ended _ _ _ H k z Hz He) as [I1 I2].
    destruct (decide (k = t)) as [->|Hkt]; [congruence|]. destruct (Zs Hkt) as [-> ->]. done.
  - intros k z' Hz' Hjz. destruct (HL k z' Hz') as (z & Hz & _ & _ & Zj & _ & _ & _ & _ & Zs). rewrite Zj in Hjz. destruct (decide (k = t)) as [->|Hkt]; [congruence|].
    destruct (Zs Hkt) as [-> _]. destruct (inv_joining _ _ _ H k z Hz Hjz) as [J1 J2]. split; [done|]. intros d w' Hd Hw'. destruct (HL d w' Hw') as (w & Hw0 & _ & -> & _). by apply (J2 d).
  - intros k z' Hz' Hwz. destruct (HL k z' Hz') as (z & Hz & _ & _ & _ & Zw & _ & _ & _ & Zs). rewrite Zw in Hwz. destruct (decide (k = t)) as [->|Hkt]; [congruence|].
    destruct (Zs Hkt) as [-> ->]. by apply (inv_waiting _ _ _ H k).
  - intros k z' Hz'. destruct (HL k z' Hz') as (z & Hz & _ & Ze & Zj & Zw & Zsc & Zev & _). unfold modes. rewrite Ze, Zj, Zw, Zsc, Zev. by apply (inv_modes _ _ _ H k z).
  - intros u [= <-]. by exists x'.
Qed.

(** The detached children of the running thread lose their parent. *)
Lemma inv_let_go m m' n t x : inv m n (Some t) -> m !! t = Some x -> m' !! t = Some (with_children (children x) ∅ x) ->
  (forall k, k <> t -> m' !! k = (if decide (k ∈ detached_children x) then with_parent None false <$> m !! k else m !! k)) -> inv m' n (Some t).
Proof.
  intros H E Mt Mo. set (x' := with_children _ _ x) in *. destruct (running_flags m n t H) as (x0 & E0 & Hne & Hs & Hev & Hj & Hw). rewrite E in E0. injection E0 as <-.
  assert (Htd : t ∉ detached_children x) by (intros Hin; destruct (inv_detached _ _ _ H t x t E Hin) as (y & Ey & Hp & _); destruct (inv_parent _ _ _ H t y t Ey Hp); lia).
  assert (HL : forall k z', m' !! k = Some z' -> exists z, m !! k = Some z /\ i_have_ended z' = i_have_ended z /\ i_am_joining z' = i_am_joining z /\ i_am_waiting z' = i_am_waiting z /\
    is_scheduled z' = is_scheduled z /\ waiting_for_event z' = waiting_for_event z /\ children z' = children z /\ (k <> t -> detached_children z' = detached_children z) /\
    (if decide (k ∈ detached_children x) then parent z' = None /\ i_am_detached z' = false else parent z' = parent z /\ i_am_detached z' = i_am_detached z)).
  { intros k z' Hz'. destruct (decide (k = t)) as [->|Hkt].
    - rewrite Mt in Hz'. injection Hz' as <-. exists x. rewrite decide_False by done. by split_and!.
    - rewrite Mo in Hz' by done. destruct (decide (k ∈ detached_children x)); [|exists z'; by split_and!]. destruct (m !! k) as [z|]; [|done]. injection Hz' as <-. exists z. by split_and!. }
  assert (HU : forall k z, m !! k = Some z -> exists z', m' !! k = Some z' /\ i_have_ended z' = i_have_ended z /\ children z' = children z /\ (k <> t -> detached_children z' = detached_children z) /\
    (k ∉ detached_children x -> parent z' = parent z /\ i_am_detached z' = i_am_detached z)).
  { intros k z Hz. destruct (decide (k = t)) as [->|Hkt]; [exists x'; rewrite E in Hz; injection Hz as <-; by split_and!|]. rewrite Mo, Hz by done.
    destruct (decide (k ∈ detached_children x)); [eexists; split; [done|]; by split_and!|exists z; by split_and!]. }
  assert (Honly : forall k z d, m !! k = Some z -> d ∈ detached_children x -> d ∈ children z \/ d ∈ detached_children z -> k = t /\ d ∉ children z).
  { intros k z d Hz Hd Hin. destruct (inv_detached _ _ _ H t x d E Hd) as (w & Ew & Wp & Wd & _). destruct Hin as [Hin|Hin].
    - destruct (inv_children _ _ _ H k z d Hz Hin) as (w' & Ew' & Hwp & Hwd). congruence.
    - destruct (inv_detached _ _ _ H k z d Hz Hin) as (w' & Ew' & Hwp & _). assert (k = t) by congruence. split; [done|]. intros Hc. destruct (inv_children _ _ _ H k z d Hz Hc) as (v & Ev & _ & Hvd). congruence. }
  split.
  - intros k z' Hz'. destruct (HL k z' Hz') as (z & Hz & _). by apply (inv_fresh _ _ _ H k z).
  - intros k z' p Hz' Hp. destruct (HL k z' Hz') as (z & Hz & _ & _ & _ & _ & _ & _ & _ & Hif). destruct (decide (k ∈ detached_children x)) as [Hk|Hk]; destruct Hif as [Z1 Z2]; [congruence|]. rewrite Z1 in Hp. rewrite Z2.
    destruct (inv_parent _ _ _ H k z p Hz Hp) as (Hlt & w & Ew & Hin). split; [done|]. destruct (HU p w Ew) as (w' & Ew' & _ & Wc & Wd & _). exists w'. split; [done|].
    destruct (i_am_detached z); [|by rewrite Wc]. rewrite Wd; [done|]. intros ->. congruence.
  - intros k z' d Hz' Hd. destruct (HL k z' Hz') as (z & Hz & _ & _ & _ & _ & _ & Zc & _). rewrite Zc in Hd. destruct (inv_children _ _ _ H k z d Hz Hd) as (w & Ew & Wp & Wd).
    destruct (HU d w Ew) as (w' & Ew' & _ & _ & _ & Hpd). destruct Hpd as [P1 P2]; [|exists w'; by rewrite P1, P2]. intros Hdx. destruct (Honly k z d Hz Hdx) as [_ Hn]; [by left|done].
  - intros k z' d Hz' Hd. destruct (HL k z' Hz') as (z & Hz & _ & _ & _ & _ & _ & _ & Zd & _). destruct (decide (k = t)) as [->|Hkt]; [rewrite Mt in Hz'; injection Hz' as <-; by apply elem_of_empty in Hd|].
    rewrite Zd in Hd by done. destruct (inv_detached _ _ _ H k z d Hz Hd) as (w & Ew & Wp & Wd & We). destruct (HU d w Ew) as (w' & Ew' & Fe & _ & _ & Hpd).
    destruct Hpd as [P1 P2]; [|exists w'; by rewrite P1, P2, Fe]. intros Hdx. destruct (Honly k z d Hz Hdx) as [Hn _]; [by right|done].
  - intros k z' Hz' Hp. destruct (HL k z' Hz') as (z & Hz & Ze & _ & _ & _ & _ & _ & _ & Hif). rewrite Ze. destruct (decide (k ∈ detached_children x)) as [Hk|Hk]; destruct Hif as [Z1 Z2]; rewrite Z2.
    + split; [done|]. destruct (inv_detached _ _ _ H t x k E Hk) as (w & Ew & _ & _ & We). congruence.
    + apply (inv_orphan _ _ _ H k z Hz). congruence.
  - intros k z' Hz' He. destruct (HL k z' Hz') as (z & Hz & Ze & _ & _ & _ & _ & Zc & Zd & _). rewrite Ze in He. destruct (inv_ended _ _ _ H k z Hz He) as [I1 I2]. rewrite Zc, Zd; [done|]. intros ->. congruence.
  - intros k z' Hz' Hjz. destruct (HL k z' Hz') as (z & Hz & _ & Zj & _ & _ & _ & Zc & _). rewrite Zj in Hjz. rewrite Zc. destruct (inv_joining _ _ _ H k z Hz Hjz) as [J1 J2]. split; [done|].
    intros d w' Hd Hw'. destruct (HL d w' Hw') as (w & Hw0 & -> & _). by apply (J2 d).
  - intros k z' Hz' Hwz. destruct (HL k z' Hz') as (z & Hz & _ & _ & Zw & _ & _ & Zc & Zd & _). rewrite Zw in Hwz. rewrite Zc, Zd; [by apply (inv_waiting _ _ _ H k)|]. intros ->. congruence.
  - intros k z' Hz'. destruct (HL k z' Hz') as (z & Hz & Ze & Zj & Zw & Zsc & Zev & _). unfold modes. rewrite Ze, Zj, Zw, Zsc, Zev. by apply (inv_modes _ _ _ H k z).
  - intros u [= <-]. by exists x'.
Qed.

(** The running thread ends before its parent joins it. *)
Lemma inv_zombie m n t x p y : inv m n (Some t) -> m !! t = Some x -> children x = ∅ -> detached_children x = ∅ -> i_am_detached x = false -> parent x = Some p -> m !! p = Some y -> i_am_joining y = false ->
  inv (<[t := with_ended false x]> m) n None.
Proof.
  intros H E Hc Hd Hdt Hp Ey Hjy. destruct (running_flags m n t H) as (x0 & E0 & Hne & Hs & Hev & Hj & Hw). rewrite E in E0. injection E0 as <-. set (x' := with_ended false x).
  assert (HL : forall k z', <[t := x']> m !! k = Some z' -> exists z, m !! k = Some z /\ parent z' = parent z /\ i_am_detached z' = i_am_detached z /\ children z' = children z /\ detached_children z' = detached_children z /\ (k <> t -> z' = z)).
  { intros k z'. destruct (decide (k = t)) as [->|Hk]; simplify_map_eq; [intros; simplify_eq; by exists x|intros Hz; by exists z']. }
  assert (HU : forall k z, m !! k = Some z -> exists z', <[t := x']> m !! k = Some z' /\ parent z' = parent z /\ i_am_detached z' = i_am_detached z /\ children z' = children z /\ detached_children z' = detached_children z /\ (k <> t -> z' = z)).
  { intros k z Hz. destruct (decide (k = t)) as [->|Hk]; simplify_map_eq; [by exists x'|by exists z]. }
  assert (Hnoj : forall k z, m !! k = Some z -> t ∈ children z -> k = p) by (intros k z Hz Hin; destruct (inv_children _ _ _ H k z t Hz Hin) as (w & Ew & Wp & _); congruence).
  split.
  - intros k z' Hz'. destruct (HL k z' Hz') as (z & Hz & _). by apply (inv_fresh _ _ _ H k z).
  - intros k z' q Hz' Hq. destruct (HL k z' Hz') as (z & Hz & Zp & Zd & _). rewrite Zp in Hq. destruct (inv_parent _ _ _ H k z q Hz Hq) as (Hlt & w & Ew & Hin). split; [done|].
    destruct (HU q w Ew) as (w' & Ew' & _ & _ & Wc & Wd & _). exists w'. by rewrite Zd, Wc, Wd.
  - intros k z' d Hz' Hdd. destruct (HL k z' Hz') as (z & Hz & _ & _ & Zc & _). rewrite Zc in Hdd. destruct (inv_children _ _ _ H k z d Hz Hdd) as (w & Ew & Wp & Wd).
    destruct (HU d w Ew) as (w' & Ew' & Fp & Fd & _). exists w'. by rewrite Fp, Fd.
  - intros k z' d Hz' Hdd. destruct (HL k z' Hz') as (z & Hz & _ & _ & _ & Zc & _). rewrite Zc in Hdd. destruct (inv_detached _ _ _ H k z d Hz Hdd) as (w & Ew & Wp & Wd & We).
    assert (d <> t) by congruence. exists w. simplify_map_eq. done.
  - intros k z' Hz' Hpn. destruct (HL k z' Hz') as (z & Hz & Zp & Zd & _ & _ & Zk). destruct (decide (k = t)) as [->|Hk]; [congruence|]. rewrite Zk by done. apply (inv_orphan _ _ _ H k z Hz). congruence.
  - intros k z' Hz' He. destruct (HL k z' Hz') as (z & Hz & _ & _ & Zc & Zdc & Zk). destruct (decide (k = t)) as [->|Hk]; [rewrite E in Hz; injection Hz as <-; by rewrite Zc, Zdc|].
    rewrite Zk in He |- * by done. by apply (inv_ended _ _ _ H k).
  - intros k z' Hz' Hjz. destruct (HL k z' Hz') as (z & Hz & _ & _ & _ & _ & Zk). destruct (decide (k = t)) as [->|Hk]; simplify_map_eq; [cbn in Hjz; congruence|].
    destruct (inv_joining _ _ _ H k z' Hz' Hjz) as [J1 J2]. split; [done|]. intros d w' Hd' Hw'. destruct (decide (d = t)) as [->|Hdt']; [|simplify_map_eq; by apply (J2 d)].
    assert (k = p) as -> by by apply (Hnoj k z'). congruence.
  - intros k z' Hz' Hwz. destruct (decide (k = t)) as [->|Hk]; simplify_map_eq; [cbn in Hwz; congruence|]. by apply (inv_waiting _ _ _ H k).
  - intros k z' Hz'. destruct (decide (k = t)) as [->|Hk]; simplify_map_eq.
    + unfold modes. cbn. by rewrite Hs, Hev, Hj, Hw.
    + rewrite <- (inv_modes _ _ _ H k z') by done. apply modes_run. split; [done|congruence].
  - done.
Qed.
