(* ===== verification/ThreadTreeSteps.v ===== *)
(** The instructions that make, join, detach and end threads, on the thread tree: none of them fails an
    assertion as long as its discipline holds, and each preserves the invariant of [ThreadTreeProps].
    Then the scheduler's steps around them, and what holds of every state they reach. *)
From stdpp Require Import gmap fin_maps sets.
From S2P Require Import Prelude.
From S2P Require Import ThreadTree.
From S2P Require Import ThreadTreeProps.

(** The invariant of a pool. *)
Definition ok (st : pool) (run : option nat) : Prop := inv (threads st) (next_thread st) run.

(** The result [o] is a pool with the threads [m]; the scopes are not constrained. *)
Definition yields (o : option pool) (m : gmap nat vthread_s) (n : nat) : Prop := exists st, o = Some st /\ threads st = m /\ next_thread st = n.

Lemma update_eq t f st x : threads st !! t = Some x -> update t f st = Some (put_threads (<[t := f x]> (threads st)) st).
Proof. intros E. unfold update. by rewrite E. Qed.

Lemma schedule_eq t st x : threads st !! t = Some x -> is_scheduled x = false -> schedule_vthread t st = Some (put_threads (<[t := with_scheduled true x]> (threads st)) st).
Proof. intros E Hs. unfold schedule_vthread. rewrite E. cbn. rewrite Hs. cbn. by apply update_eq. Qed.

(** ** The detached children are let go *)

Definition free (s : gset nat) (m : gmap nat vthread_s) : gmap nat vthread_s :=
  map_imap (fun k y => Some (if decide (k ∈ s) then with_parent None false y else y)) m.

Lemma lookup_free s m k : free s m !! k = (if decide (k ∈ s) then with_parent None false <$> m !! k else m !! k).
Proof. unfold free. rewrite map_lookup_imap. destruct (m !! k) eqn:E; cbn; by destruct (decide _). Qed.

Lemma free_insert s m t x : t ∉ s -> free s (<[t := x]> m) = <[t := x]> (free s m).
Proof.
  intros Ht. apply map_eq. intros k. rewrite lookup_free. destruct (decide (k = t)) as [->|Hk].
  - by rewrite decide_False, !lookup_insert_eq by done.
  - rewrite !lookup_insert_ne by done. by rewrite lookup_free.
Qed.

Lemma let_go_eq t l : NoDup l -> forall st, (forall c, c ∈ l -> exists y, threads st !! c = Some y /\ parent y = Some t /\ i_am_detached y = true) ->
  yields (let_go t l st) (free (list_to_set l) (threads st)) (next_thread st).
Proof.
  induction 1 as [|c l Hc Hl IH]; intros st Hall.
  - exists st. split; [done|]. split; [|done]. apply map_eq. intros k. rewrite lookup_free. by rewrite decide_False by set_solver.
  - destruct (Hall c) as (y & Ey & Hp & Hd); [by left|]. cbn. rewrite Ey. cbn. rewrite bool_decide_eq_true_2, Hd by done. cbn. rewrite (update_eq c _ st y) by done. cbn.
    destruct (IH (put_threads (<[c := with_parent None false y]> (threads st)) st)) as (st' & E' & Et & En).
    { intros d Hd'. destruct (Hall d) as (z & Ez & Hz); [by right|]. exists z. cbn. rewrite lookup_insert_ne; [done|]. intros ->. done. }
    exists st'. split; [done|]. split; [|done]. rewrite Et. cbn. apply map_eq. intros k. rewrite !lookup_free. destruct (decide (k = c)) as [->|Hk].
    + rewrite decide_False by (by rewrite elem_of_list_to_set). rewrite decide_True by set_solver. by rewrite lookup_insert_eq, Ey.
    + rewrite lookup_insert_ne by done. by rewrite (decide_ext (k ∈ ({[c]} ∪ list_to_set l : gset nat)) (k ∈ (list_to_set l : gset nat))) by set_solver.
Qed.

Section Order.
Context (order : gset nat -> list nat) (order_perm : forall s, order s ≡ₚ elements s).

Lemma order_nil : order ∅ = []. Proof. apply Permutation_nil_r. rewrite order_perm. by rewrite elements_empty. Qed.
Lemma order_nodup s : NoDup (order s). Proof. rewrite order_perm. apply NoDup_elements. Qed.
Lemma order_elem s t : t ∈ order s <-> t ∈ s. Proof. rewrite order_perm. apply elem_of_elements. Qed.
Lemma order_set s : list_to_set (order s) = s. Proof. apply set_eq. intros t. by rewrite elem_of_list_to_set, order_elem. Qed.

(** ** A thread without children is reaped *)

Definition leave (t : nat) (d : bool) (y : vthread_s) : vthread_s :=
  if d then with_children (children y) (detached_children y ∖ {[t]}) y else with_children (children y ∖ {[t]}) (detached_children y) y.

Lemma reap_root t st x : threads st !! t = Some x -> children x = ∅ -> detached_children x = ∅ -> is_scheduled x = false -> waiting_for_event x = false -> parent x = None ->
  yields (vthread_reap order t st) (delete t (threads st)) (next_thread st).
Proof.
  intros E Hc Hd Hs He Hp. unfold vthread_reap. rewrite E. cbn. rewrite Hc, Hd, order_nil, Hs, He. cbn. unfold leave_parent. rewrite Hp. cbn. rewrite bool_decide_eq_true_2 by done. eexists. split; [done|]. done.
Qed.

Lemma reap_leaf t st x p y : threads st !! t = Some x -> children x = ∅ -> detached_children x = ∅ -> is_scheduled x = false -> waiting_for_event x = false -> parent x = Some p ->
  threads st !! p = Some y -> t ∈ (if i_am_detached x then detached_children y else children y) ->
  yields (vthread_reap order t st) (delete t (<[p := leave t (i_am_detached x) y]> (threads st))) (next_thread st).
Proof.
  intros E Hc Hd Hs He Hp Ey Hin. unfold vthread_reap. rewrite E. cbn. rewrite Hc, Hd, order_nil, Hs, He. cbn. unfold leave_parent. rewrite Hp, Ey. cbn. unfold leave.
  destruct (i_am_detached x); rewrite bool_decide_eq_true_2 by done; cbn; rewrite (update_eq p _ st y) by done; cbn; rewrite bool_decide_eq_true_2 by done; eexists; (split; [done|]); done.
Qed.

Lemma do_join_leaf t c st x y : threads st !! c = Some x -> children x = ∅ -> detached_children x = ∅ -> is_scheduled x = false -> waiting_for_event x = false -> parent x = Some t ->
  threads st !! t = Some y -> c ∈ (if i_am_detached x then detached_children y else children y) ->
  yields (do_join order t c st) (delete c (<[t := leave c (i_am_detached x) y]> (threads st))) (next_thread st).
Proof.
  intros E Hc Hd Hs He Hp Ey Hin. unfold do_join. rewrite E. cbn. rewrite bool_decide_eq_true_2 by done. cbn. by apply reap_leaf.
Qed.

(** A child is in the one set that its own flag names. *)
Lemma leave_trims m n run t x c d y : inv m n run -> m !! t = Some x -> m !! c = Some y -> parent y = Some t -> i_am_detached y = d -> trimmed c x (leave c d x).
Proof.
  intros H E Ec Hp Hd. unfold leave. destruct d; split_and!; try done; cbn; symmetry; apply set_without; intros Hin.
  - destruct (inv_children _ _ _ H t x c E Hin) as (w & Ew & _ & Hwd). congruence.
  - destruct (inv_detached _ _ _ H t x c E Hin) as (w & Ew & _ & Hwd & _). congruence.
Qed.

(** ** The instructions *)

(** The instruction passes its assertions, and the invariant holds of the pool it leaves. *)
Definition runs (t : nat) (o : option (pool * bool)) : Prop := exists st b, o = Some (st, b) /\ ok st (if b then Some t else None).

Lemma run_only (t : nat) : forall u, u <> t -> Some t = Some u <-> (None : option nat) = Some u.
Proof. intros u Hu. split; [congruence|done]. Qed.

(** The running thread stops, with one flag raised. *)
Lemma stop_flag st t x x' : ok st (Some t) -> threads st !! t = Some x -> same_tree x x' ->
  modes None t x' = flag1 (negb (i_have_ended x')) ->
  (i_am_joining x' = true -> i_am_joining x = true \/ children x <> ∅ /\ forall c y, c ∈ children x -> threads st !! c = Some y -> i_have_ended y = false) ->
  (i_am_waiting x' = true -> i_am_waiting x = true \/ children x = ∅ /\ detached_children x <> ∅) -> ok (put_threads (<[t := x']> (threads st)) st) None.
Proof. intros H E HT Hm Hj Hw. unfold ok. cbn. eapply inv_flags; try done. apply run_only. Qed.

Ltac running H x E := let x0 := fresh in let E0 := fresh in
  destruct (running_flags _ _ _ H) as (x0 & E0 & Hne & Hs & Hev & Hj & Hw); rewrite E in E0; injection E0 as <-.

Lemma wait_ok st t : ok st (Some t) -> runs t (of_WAIT t st).
Proof.
  intros H. destruct (inv_run _ _ _ H t eq_refl) as (x & E & _). running H x E. unfold of_WAIT. rewrite E. cbn. rewrite Hev. cbn. rewrite (update_eq t _ st x) by done. cbn.
  eexists _, false. split; [done|]. eapply stop_flag; try done; [|cbn; congruence..]. unfold modes. cbn. by rewrite Hs, Hj, Hw, Hne.
Qed.

Lemma delay_ok st t : ok st (Some t) -> runs t (of_DELAY t st).
Proof.
  intros H. destruct (inv_run _ _ _ H t eq_refl) as (x & E & _). running H x E. unfold of_DELAY. rewrite (schedule_eq t st x) by done. cbn.
  eexists _, false. split; [done|]. eapply stop_flag; try done; [|cbn; congruence..]. unfold modes. cbn. by rewrite Hev, Hj, Hw, Hne.
Qed.

Lemma wait_fork_ok st t x : ok st (Some t) -> threads st !! t = Some x -> children x = ∅ -> runs t (of_WAIT_FORK t st).
Proof.
  intros H E Hc. running H x E. unfold of_WAIT_FORK. rewrite E. cbn. rewrite Hj, Hw, Hc. cbn. case_bool_decide as Hd; [by exists st, true|]. rewrite (update_eq t _ st x) by done. cbn.
  eexists _, false. split; [done|]. eapply stop_flag; try done; [|cbn; congruence|by right]. unfold modes. cbn. by rewrite Hs, Hev, Hj, Hne.
Qed.

Lemma fork_ok st t s : ok st (Some t) -> runs t (of_FORK s t st).
Proof.
  intros H. destruct (inv_run _ _ _ H t eq_refl) as (x & E & _). pose proof (inv_fresh _ _ _ H t x E) as Hlt. unfold of_FORK, vthread_new. cbn.
  set (n := next_thread st) in *. assert (n <> t) by lia. erewrite update_eq by (cbn; by rewrite lookup_insert_eq). cbn. erewrite update_eq by (cbn; rewrite !lookup_insert_ne by done; exact E). cbn.
  erewrite schedule_eq; [|cbn; rewrite lookup_insert_ne, lookup_insert_eq by done; done|done]. cbn. eexists _, true. split; [done|]. unfold ok. cbn.
  replace (<[n := _]> _) with (<[t := with_children ({[n]} ∪ children x) (detached_children x) x]> (<[n := child_of t s]> (threads st))); [by apply inv_fork|].
  apply map_eq. intros k. destruct (decide (k = n)) as [->|]; [by simplify_map_eq|]. destruct (decide (k = t)) as [->|]; by simplify_map_eq.
Qed.

(** The child [c] of the running thread has ended and is joined. *)
Lemma join_child st t x c y : ok st (Some t) -> threads st !! t = Some x -> c ∈ children x -> threads st !! c = Some y -> i_have_ended y = true ->
  exists st', vthread_reap order c st = Some st' /\ do_join order t c st = Some st' /\ ok st' (Some t) /\
    threads st' = delete c (<[t := with_children (children x ∖ {[c]}) (detached_children x) x]> (threads st)).
Proof.
  intros H E Hc Ec He. destruct (inv_children _ _ _ H t x c E Hc) as (y' & Ey' & Hp & Hd). rewrite Ec in Ey'. injection Ey' as <-.
  destruct (ended_flags _ _ _ c y H Ec He) as (Hrc & Hsc & Hec & Hjc & Hwc). destruct (inv_ended _ _ _ H c y Ec He) as [Hcc Hdc]. running H x E.
  destruct (reap_leaf c st y t x) as (st' & E' & Et & En); try done; [by rewrite Hd|]. exists st'. split; [done|]. split.
  { unfold do_join. rewrite Ec. cbn. rewrite bool_decide_eq_true_2 by done. done. }
  rewrite Hd in Et. cbn in Et. split; [|done]. unfold ok. rewrite Et, En. eapply (inv_delete_child _ _ (Some t)); try done; try (cbn; congruence).
  - by eapply (leave_trims _ _ _ t x c false).
  - unfold modes. cbn. by rewrite bool_decide_eq_true_2, Hs, Hev, Hj, Hw, Hne.
Qed.

Lemma join_ok st t x : ok st (Some t) -> threads st !! t = Some x -> children x <> ∅ -> runs t (of_JOIN order t st).
Proof.
  intros H E Hc. running H x E. unfold of_JOIN. rewrite E. cbn. rewrite Hj, bool_decide_eq_true_2 by done. cbn. destruct (find (ended st) (order (children x))) as [c|] eqn:EF.
  - apply find_some in EF as [Hin He]. apply list_elem_of_In, order_elem in Hin. unfold ended in He. destruct (threads st !! c) as [y|] eqn:Ec; [|done].
    destruct (join_child st t x c y) as (st' & _ & E' & Hok & _); try done. rewrite E'. cbn. by exists st', true.
  - rewrite (update_eq t _ st x) by done. cbn. eexists _, false. split; [done|]. eapply stop_flag; try done; [unfold modes; cbn; by rewrite Hs, Hev, Hw, Hne| |cbn; congruence].
    intros _. right. split; [done|]. intros c y Hin Ey. eapply find_none in EF; [|by apply list_elem_of_In, order_elem]. unfold ended in EF. by rewrite Ey in EF.
Qed.

Lemma parent_less st run t x p : ok st run -> threads st !! t = Some x -> parent x = Some p -> p <> t.
Proof. intros H E Hp. destruct (inv_parent _ _ _ H t x p E Hp). lia. Qed.

Lemma detach_all_ok t l : NoDup l -> forall st x, ok st (Some t) -> threads st !! t = Some x -> (forall c, c ∈ l -> c ∈ children x) ->
  exists st', detach_all order t l st = Some st' /\ ok st' (Some t).
Proof.
  induction 1 as [|c l Hc Hl IH]; intros st x H E Hall; [by exists st|]. assert (Hcx : c ∈ children x) by (apply Hall; by left).
  assert (Hrest : forall d, d ∈ l -> d ∈ children x ∖ {[c]}) by (intros d Hd; apply elem_of_difference; split; [apply Hall; by right|rewrite elem_of_singleton; by intros ->]).
  destruct (inv_children _ _ _ H t x c E Hcx) as (y & Ec & Hp & Hd). pose proof (parent_less _ _ _ _ _ H Ec Hp) as Htc.
  cbn. rewrite Ec. cbn. rewrite bool_decide_eq_true_2 by done. cbn. destruct (i_have_ended y) eqn:He.
  - destruct (join_child st t x c y) as (st' & E' & _ & Hok & Et); try done. rewrite E'. cbn. apply (IH _ (with_children (children x ∖ {[c]}) (detached_children x) x)); [done| |done]. by rewrite Et, lookup_delete_ne, lookup_insert_eq by done.
  - rewrite E. cbn. rewrite bool_decide_eq_true_2 by done. cbn. rewrite (update_eq t _ st x) by done. cbn. rewrite (update_eq c _ _ y) by (cbn; by rewrite lookup_insert_ne). cbn.
    apply (IH _ (with_children (children x ∖ {[c]}) ({[c]} ∪ detached_children x) x)); [by apply (inv_move _ _ t x c y)|cbn; by rewrite lookup_insert_ne, lookup_insert_eq|done].
Qed.

Lemma join_detach_ok st t x count : ok st (Some t) -> threads st !! t = Some x -> count = size (children x) -> runs t (of_JOIN_DETACH order count t st).
Proof.
  intros H E ->. unfold of_JOIN_DETACH. rewrite E. cbn. rewrite Nat.eqb_refl. cbn.
  destruct (detach_all_ok t (order (children x)) (order_nodup _) st x H E) as (st' & E' & Hok); [by intros c ?%order_elem|]. rewrite E'. cbn. by exists st', true.
Qed.

(** [%end], up to the point where the parent is looked at: the thread has ended and holds no thread, the
    threads [m1] without that being those of a thread that let its detached children go. *)
Lemma end_start st t x : ok st (Some t) -> threads st !! t = Some x -> children x = ∅ -> exists m1, inv m1 (next_thread st) (Some t) /\
  (forall k, parent x = Some k -> m1 !! k = threads st !! k) /\ m1 !! t = Some (with_children ∅ ∅ x) /\ exists st1,
  (st1 ← update t (with_ended false) st; st2 ← let_go t (order (detached_children x)) st1; update t (with_children (children x) ∅) st2) = Some st1 /\
  threads st1 = <[t := with_ended false (with_children ∅ ∅ x)]> m1 /\ next_thread st1 = next_thread st.
Proof.
  intros H E Hc. running H x E. set (s := detached_children x).
  assert (Hts : t ∉ s) by (intros Hin; destruct (inv_detached _ _ _ H t x t E Hin) as (y & Ey & Hp & _); by destruct (parent_less _ _ _ _ _ H Ey Hp)).
  exists (<[t := with_children (children x) ∅ x]> (free s (threads st))). split.
  { eapply (inv_let_go (threads st)); [done..|by rewrite lookup_insert_eq|]. intros k Hk. by rewrite lookup_insert_ne, lookup_free. }
  split; [|split; [by rewrite lookup_insert_eq, Hc|]].
  { intros k Hk. pose proof (parent_less _ _ _ _ _ H E Hk). rewrite lookup_insert_ne, lookup_free by done. rewrite decide_False; [done|]. intros Hin.
    destruct (inv_detached _ _ _ H t x k E Hin) as (y & Ey & Hp & _). destruct (inv_parent _ _ _ H _ _ _ Ey Hp), (inv_parent _ _ _ H _ _ _ E Hk). lia. }
  rewrite (update_eq t _ st x) by done. cbn.
  destruct (let_go_eq t (order s) (order_nodup s) (put_threads (<[t := with_ended false x]> (threads st)) st)) as (st2 & E2 & Et2 & En2).
  { intros c Hin%order_elem. destruct (inv_detached _ _ _ H t x c E Hin) as (y & Ey & Hp & Hd & _). exists y. cbn. by rewrite lookup_insert_ne by (intros ->; done). }
  rewrite E2. cbn. rewrite order_set in Et2. cbn in Et2. rewrite free_insert in Et2 by done. rewrite (update_eq t _ st2 (with_ended false x)) by (by rewrite Et2, lookup_insert_eq).
  eexists. split; [done|]. cbn. rewrite Et2, !insert_insert_eq, Hc. split; [done|]. by rewrite En2.
Qed.

(** The last part of [%end], with the record [x] that the thread had at the start. *)
Definition end_rest (t : nat) (x : vthread_s) (st : pool) : option (pool * bool) :=
  match parent x with
  | None => st ← vthread_reap order t st; Some (st, false)
  | Some p =>
      y ← threads st !! p;
      if negb (i_am_detached x) && i_am_joining y then
        st ← update p (with_joining false) st; st ← schedule_vthread p st; st ← do_join order p t st; Some (st, false)
      else if i_am_detached x then
        _ ← assert_ (bool_decide (t ∈ detached_children y));
        let rest := detached_children y ∖ {[t]} in
        st ← update p (with_children (children y) rest) st;
        st ← (if i_am_waiting y && bool_decide (rest = ∅) then st ← update p (with_waiting false) st; schedule_vthread p st else Some st);
        st ← update t (with_parent None false) st; st ← vthread_reap order t st; Some (st, false)
      else Some (st, false)
  end.

Lemma of_END_parts t st x st1 : threads st !! t = Some x -> waiting_for_event x = false -> children x = ∅ ->
  (st1 ← update t (with_ended false) st; st2 ← let_go t (order (detached_children x)) st1; update t (with_children (children x) ∅) st2) = Some st1 ->
  of_END order t st = end_rest t x st1.
Proof.
  intros E He Hc E1. unfold of_END. rewrite E. cbn. rewrite He. cbn. destruct (update t (with_ended false) st) as [s1|]; [|done]. cbn in *.
  destruct (let_go t _ s1) as [s2|]; [|done]. cbn in *. rewrite E1. cbn. by rewrite bool_decide_eq_true_2 by done.
Qed.

(** The thread [x'] that has ended in a state whose other threads are those of [m1], where it was running. *)
Section Ended.
Context (t : nat) (x : vthread_s) (m1 : gmap nat vthread_s) (st1 : pool).
Hypothesis H1 : inv m1 (next_thread st1) (Some t).
Hypothesis E1 : m1 !! t = Some (with_children ∅ ∅ x).
Hypothesis ET : threads st1 = <[t := with_ended false (with_children ∅ ∅ x)]> m1.

Local Lemma end_flags : i_have_ended x = false /\ is_scheduled x = false /\ waiting_for_event x = false /\ i_am_joining x = false /\ i_am_waiting x = false.
Proof. by destruct (running_flags _ _ _ H1) as (x0 & E0 & HF); rewrite E1 in E0; injection E0 as <-. Qed.

Local Lemma end_lookup : threads st1 !! t = Some (with_ended false (with_children ∅ ∅ x)).
Proof. by rewrite ET, lookup_insert_eq. Qed.

Lemma end_root : parent x = None -> runs t (end_rest t x st1).
Proof.
  intros Hp. destruct end_flags as (Hne & Hs & Hev & Hj & Hw). unfold end_rest. rewrite Hp.
  destruct (reap_root t st1 _ end_lookup) as (st' & E' & Et & En); try done. rewrite E'. cbn. exists st', false. split; [done|]. unfold ok. rewrite Et, En, ET, delete_insert_eq.
  eapply (inv_delete_root _ _ _ _ t); try done. apply run_only.
Qed.

Lemma end_joined p y : parent x = Some p -> m1 !! p = Some y -> i_am_detached x = false -> i_am_joining y = true -> runs t (end_rest t x st1).
Proof.
  intros Hp Ey Hd Hjy. destruct end_flags as (Hne & Hs & Hev & Hj & Hw). unfold end_rest. rewrite Hp. destruct (inv_parent _ _ _ H1 t _ p E1 Hp) as (Hlt & y' & Ey' & Hin).
  rewrite Ey in Ey'. injection Ey' as <-. cbn in Hin. rewrite Hd in Hin. assert (Hpt : p <> t) by lia. assert (EP : threads st1 !! p = Some y) by (rewrite ET; by rewrite lookup_insert_ne).
  pose proof (inv_modes _ _ _ H1 p y Ey) as HM. unfold modes in HM. rewrite Hjy, bool_decide_eq_false_2 in HM by congruence. cbn in HM.
  assert (is_scheduled y = false /\ waiting_for_event y = false /\ i_am_waiting y = false /\ i_have_ended y = false) as (Ys & Ye & Yw & Yn) by (by destruct (is_scheduled y), (waiting_for_event y), (i_am_waiting y), (i_have_ended y)).
  rewrite EP. cbn. rewrite Hd, Hjy. cbn. rewrite (update_eq p _ st1 y) by done. cbn. rewrite (schedule_eq p _ (with_joining false y)) by (cbn; by rewrite ?lookup_insert_eq). cbn. unfold do_join. cbn.
  rewrite lookup_insert_ne, lookup_insert_ne, end_lookup by done. cbn. rewrite Hp, bool_decide_eq_true_2 by done. cbn.
  edestruct (reap_leaf t) as (st' & E' & Et & En); [..|rewrite E'; cbn]; [cbn; rewrite lookup_insert_ne, lookup_insert_ne by done; exact end_lookup|try done; try (cbn; by rewrite ?lookup_insert_eq)..|].
  - cbn. by rewrite Hd.
  - exists st', false. split; [done|]. unfold ok. rewrite Et, En. cbn. rewrite Hd, !insert_insert_eq. cbn. rewrite ET, insert_insert_ne, delete_insert_eq by done.
    eapply (inv_delete_child m1 _ (Some t) None t _ p y); try done.
    + split_and!; try done. apply (leave_trims _ _ _ p y t false _ H1 Ey E1 Hp Hd).
    + cbn. congruence.
    + unfold modes. cbn. by rewrite Ye, Yw, Yn.
    + intros u Hu _. by apply run_only.
Qed.

(** The thread leaves the detached children of its parent, which becomes [y2]. *)
Lemma end_detached p y : parent x = Some p -> m1 !! p = Some y -> i_am_detached x = true -> runs t (end_rest t x st1).
Proof.
  intros Hp Ey Hd. destruct end_flags as (Hne & Hs & Hev & Hj & Hw). unfold end_rest. rewrite Hp. destruct (inv_parent _ _ _ H1 t _ p E1 Hp) as (Hlt & y' & Ey' & Hin).
  rewrite Ey in Ey'. injection Ey' as <-. cbn in Hin. rewrite Hd in Hin. assert (Hpt : p <> t) by lia. assert (EP : threads st1 !! p = Some y) by (rewrite ET; by rewrite lookup_insert_ne).
  rewrite EP. cbn. rewrite Hd. cbn. rewrite (bool_decide_eq_true_2 (t ∈ detached_children y)) by done. cbn. rewrite (update_eq p _ st1 y) by done. cbn. set (rest := detached_children y ∖ {[t]}).
  assert (HF : forall y2 n2, n2 = next_thread st1 -> inv (delete t (<[p := y2]> m1)) (next_thread st1) None -> forall st2, threads st2 = <[p := y2]> (threads st1) -> next_thread st2 = n2 ->
    runs t (st ← update t (with_parent None false) st2; st ← vthread_reap order t st; Some (st, false))).
  { intros y2 n2 -> HI st2 Et2 En2. rewrite (update_eq t _ st2 _) by (rewrite Et2, lookup_insert_ne by done; exact end_lookup). cbn.
    destruct (reap_root t (put_threads (<[t := with_parent None false (with_ended false (with_children ∅ ∅ x))]> (threads st2)) st2) _ (lookup_insert_eq _ _ _)) as (st' & E' & Et & En); try done. rewrite E'. cbn.
    exists st', false. split; [done|]. unfold ok. rewrite Et, En. cbn. rewrite delete_insert_eq, Et2, ET, insert_insert_ne, delete_insert_eq, En2 by done. done. }
  pose proof (leave_trims _ _ _ p y t true _ H1 Ey E1 Hp Hd) as HT. pose proof (inv_modes _ _ _ H1 p y Ey) as HM. rewrite (modes_run (Some t) None) in HM by (split; congruence).
  destruct (i_am_waiting y) eqn:Yw; cbn; [case_bool_decide as Hr; cbn|].
  - unfold modes in HM. rewrite Yw in HM. cbn in HM.
    assert (is_scheduled y = false /\ waiting_for_event y = false /\ i_am_joining y = false /\ i_have_ended y = false) as (Ys & Ye & Yj & Yn) by (by destruct (is_scheduled y), (waiting_for_event y), (i_am_joining y), (i_have_ended y)).
    erewrite update_eq by (cbn; by rewrite lookup_insert_eq). cbn. erewrite schedule_eq; [|cbn; by rewrite lookup_insert_eq|done]. cbn.
    eapply HF; [done| |cbn; by rewrite !insert_insert_eq|done]. eapply (inv_delete_child m1 _ (Some t) None t _ p y); try done; try (cbn; congruence); [unfold modes; cbn; by rewrite Ye, Yj, Yn|by intros; apply run_only].
  - eapply HF; [done| |done|done]. eapply (inv_delete_child m1 _ (Some t) None t _ p y); try done; [..|by intros; apply run_only].
    + cbn. intros Yj. split; [done|]. by apply (inv_joining _ _ _ H1 p y Ey).
    + intros _. cbn. split; [by apply (inv_waiting _ _ _ H1 p y Ey)|done].
  - eapply HF; [done| |done|done]. eapply (inv_delete_child m1 _ (Some t) None t _ p y); try done; [..|by intros; apply run_only].
    + cbn. intros Yj. split; [done|]. by apply (inv_joining _ _ _ H1 p y Ey).
    + cbn. congruence.
Qed.

Lemma end_zombie p y : parent x = Some p -> m1 !! p = Some y -> i_am_detached x = false -> i_am_joining y = false -> runs t (end_rest t x st1).
Proof.
  intros Hp Ey Hd Hjy. pose proof (parent_less (put_threads m1 st1) _ _ _ _ H1 E1 Hp) as Hpt. unfold end_rest. rewrite Hp, ET, lookup_insert_ne, Ey by done. cbn. rewrite Hd, Hjy. cbn.
  exists st1, false. split; [done|]. unfold ok. rewrite ET. by eapply (inv_zombie _ _ t _ p y).
Qed.
End Ended.

Lemma end_ok st t x : ok st (Some t) -> threads st !! t = Some x -> children x = ∅ -> runs t (of_END order t st).
Proof.
  intros H E Hc. destruct (end_start st t x H E Hc) as (m1 & H1 & Hk & E1 & st1 & ES & ET & EN). rewrite <- EN in H1. running H x E. rewrite (of_END_parts t st x st1) by done.
  destruct (parent x) as [p|] eqn:Hp; [|by eapply end_root]. destruct (inv_parent _ _ _ H1 t _ p E1 Hp) as (_ & y & Ey & _).
  destruct (i_am_detached x) eqn:Hd; [by eapply end_detached|]. destruct (i_am_joining y) eqn:Hjy; [by eapply end_joined|by eapply end_zombie].
Qed.
End Order.

(** ** The scheduler's steps *)

Inductive act := AFork (scope : nat) | AJoin | AJoinDetach (count : nat) | AEnd | AWait | AWaitFork | ADelay.

Definition exec_act (order : gset nat -> list nat) (a : act) (t : nat) (st : pool) : option (pool * bool) :=
  match a with
  | AFork s => of_FORK s t st | AJoin => of_JOIN order t st | AJoinDetach k => of_JOIN_DETACH order k t st | AEnd => of_END order t st
  | AWait => of_WAIT t st | AWaitFork => of_WAIT_FORK t st | ADelay => of_DELAY t st
  end.

(** What the code generator sees to: a join for every fork that is not detached, and the joins before the end. *)
Definition obeys (a : act) (x : vthread_s) : Prop :=
  match a with
  | AJoin => children x <> ∅ | AJoinDetach k => k = size (children x) | AEnd | AWaitFork => children x = ∅ | _ => True
  end.

(** The pool, and the thread that [vthread_run] executes. *)
Inductive tree_step (order : gset nat -> list nat) : pool * option nat -> pool * option nat -> Prop :=
| step_start s st st' run : schedule_vthread (fst (vthread_new s st)) (snd (vthread_new s st)) = Some st' -> tree_step order (st, run) (st', run)
| step_dispatch t x st st' : threads st !! t = Some x -> is_scheduled x = true -> dispatch t st = Some st' -> tree_step order (st, None) (st', Some t)
| step_exec a t x st st' b : threads st !! t = Some x -> obeys a x -> exec_act order a t st = Some (st', b) -> tree_step order (st, Some t) (st', if b then Some t else None)
| step_wake l st st' run : NoDup l -> (forall t, t ∈ l -> exists x, threads st !! t = Some x /\ waiting_for_event x = true) -> schedule_list l st = Some st' -> tree_step order (st, run) (st', run).

Definition tree_init : pool * option nat := (mkPool ∅ ∅ 0, None).

Lemma ok_init : ok (fst tree_init) (snd tree_init).
Proof. split; by intros. Qed.

Lemma dispatch_ok st t x : ok st None -> threads st !! t = Some x -> is_scheduled x = true -> exists st', dispatch t st = Some st' /\ ok st' (Some t).
Proof.
  intros H E Hs. unfold dispatch. rewrite E. cbn. rewrite Hs. cbn. rewrite (update_eq t _ st x) by done. eexists. split; [done|]. pose proof (inv_modes _ _ _ H t x E) as HM.
  unfold modes in HM. rewrite Hs in HM. cbn in HM. destruct (waiting_for_event x) eqn:Xe, (i_am_joining x) eqn:Xj, (i_am_waiting x) eqn:Xw, (i_have_ended x) eqn:Xn; try done.
  unfold ok. cbn. eapply (inv_flags _ _ None); try done; try (cbn; congruence); [by intros; split; congruence|]. unfold modes. cbn. rewrite bool_decide_eq_true_2, Xe, Xj, Xw, Xn by done. done.
Qed.

Lemma wake_ok l run : NoDup l -> forall st, ok st run -> (forall t, t ∈ l -> exists x, threads st !! t = Some x /\ waiting_for_event x = true) ->
  exists st', schedule_list l st = Some st' /\ ok st' run.
Proof.
  induction 1 as [|t l Hl Hnd IH]; intros st H Hall; [by exists st|]. destruct (Hall t) as (x & E & He); [by left|]. cbn. rewrite E. cbn. rewrite He. cbn. rewrite (update_eq t _ st x) by done. cbn.
  pose proof (inv_modes _ _ _ H t x E) as HM. unfold modes in HM. rewrite He in HM.
  assert (run <> Some t /\ is_scheduled x = false /\ i_am_joining x = false /\ i_am_waiting x = false /\ i_have_ended x = false) as (Xr & Xs & Xj & Xw & Xn).
  { case_bool_decide; cbn in HM; by destruct (is_scheduled x), (i_am_joining x), (i_am_waiting x), (i_have_ended x). }
  erewrite schedule_eq; [|cbn; by rewrite lookup_insert_eq|done]. cbn. apply IH.
  - unfold ok. cbn. rewrite insert_insert_eq. eapply (inv_flags _ _ run); try done; try (cbn; congruence). unfold modes. cbn. by rewrite bool_decide_eq_false_2, Xj, Xw, Xn.
  - intros u Hu. destruct (Hall u) as (y & Ey & Hy); [by right|]. exists y. cbn. rewrite !lookup_insert_ne; [done|by intros ->..].
Qed.

Lemma start_ok s st run st' : ok st run -> schedule_vthread (fst (vthread_new s st)) (snd (vthread_new s st)) = Some st' -> ok st' run.
Proof.
  intros H. cbn. erewrite schedule_eq; [|cbn; by rewrite lookup_insert_eq|done]. intros [= <-]. unfold ok. cbn. rewrite insert_insert_eq. apply inv_start; [done|].
  intros Hr. destruct (inv_run _ _ _ H _ Hr) as (x & E & _). apply (inv_fresh _ _ _ H) in E. lia.
Qed.

Section Reachable.
Context (order : gset nat -> list nat) (order_perm : forall s, order s ≡ₚ elements s).

Lemma exec_ok a t x st : ok st (Some t) -> threads st !! t = Some x -> obeys a x -> runs t (exec_act order a t st).
Proof.
  intros H E Ha. destruct a; cbn in Ha |- *; [by apply fork_ok|by eapply join_ok|by eapply join_detach_ok|by eapply end_ok|by apply wait_ok|by eapply wait_fork_ok|by apply delay_ok].
Qed.

Lemma step_ok c c' : tree_step order c c' -> ok (fst c) (snd c) -> ok (fst c') (snd c').
Proof.
  destruct 1 as [s st st' run ES|t x st st' E Hs ED|a t x st st' b E Ha EE|l st st' run Hl Hall EL]; cbn; intros H.
  - by eapply start_ok.
  - destruct (dispatch_ok st t x H E Hs) as (? & E' & Hok). congruence.
  - destruct (exec_ok a t x st H E Ha) as (st1 & b1 & E' & Hok). rewrite EE in E'. by injection E' as <- <-.
  - destruct (wake_ok l run Hl st H Hall) as (? & E' & Hok). congruence.
Qed.

Lemma reachable_ok c : rtc (tree_step order) tree_init c -> ok (fst c) (snd c).
Proof. intros HR. pose proof ok_init as H. induction HR as [|c1 c2 c3 HS _ IH]; [done|]. by apply IH, (step_ok c1). Qed.

(** ** A thread that is blocked waits for one that is not *)

(** [t] is in %join and [c] is a child of it, or [t] is in %wait/fork and [c] a detached child. *)
Definition blocked_on (st : pool) (t c : nat) : Prop :=
  exists x, threads st !! t = Some x /\ (i_am_joining x = true /\ c ∈ children x \/ i_am_waiting x = true /\ c ∈ detached_children x).

Definition goes_on (st : pool) (run : option nat) (u : nat) : Prop :=
  exists y, threads st !! u = Some y /\ i_have_ended y = false /\ (run = Some u \/ is_scheduled y = true \/ waiting_for_event y = true).

Lemma blocked_live st run k : ok st run -> forall t x, (next_thread st - t <= k)%nat -> threads st !! t = Some x -> i_have_ended x = false ->
  exists u, rtc (blocked_on st) t u /\ goes_on st run u.
Proof.
  intros H. induction k as [|k IH]; intros t x Hk E Hx; pose proof (inv_fresh _ _ _ H t x E) as Hlt; [lia|].
  assert (HS : run = Some t \/ is_scheduled x = true \/ waiting_for_event x = true -> exists u, rtc (blocked_on st) t u /\ goes_on st run u)
    by (intros Hg; exists t; split; [done|by exists x]).
  pose proof (inv_modes _ _ _ H t x E) as HM. unfold modes in HM. rewrite Hx in HM. case_bool_decide as Hr; [by apply HS; auto|].
  destruct (is_scheduled x) eqn:Xs; [by apply HS; auto|]. destruct (waiting_for_event x) eqn:Xe; [by apply HS; auto|]. destruct (i_am_joining x) eqn:Xj.
  - destruct (inv_joining _ _ _ H t x E Xj) as [Hne Hall]. apply set_choose_L in Hne as [c Hc]. destruct (inv_children _ _ _ H t x c E Hc) as (y & Ey & Hp & _).
    destruct (inv_parent _ _ _ H c y t Ey Hp) as [Hct _]. destruct (IH c y) as (u & Hu & Hg); [lia|done|by apply (Hall c)|].
    exists u. split; [|done]. eapply rtc_l; [|exact Hu]. exists x. auto.
  - destruct (i_am_waiting x) eqn:Xw; [|done]. destruct (inv_waiting _ _ _ H t x E Xw) as [_ Hne]. apply set_choose_L in Hne as [c Hc]. destruct (inv_detached _ _ _ H t x c E Hc) as (y & Ey & Hp & _ & He).
    destruct (inv_parent _ _ _ H c y t Ey Hp) as [Hct _]. destruct (IH c y) as (u & Hu & Hg); [lia|done..|].
    exists u. split; [|done]. eapply rtc_l; [|exact Hu]. exists x. auto.
Qed.

(** A thread that has ended is still a child of a parent that will join it. *)
Lemma ended_kept st run t x : ok st run -> threads st !! t = Some x -> i_have_ended x = true ->
  exists p y, parent x = Some p /\ threads st !! p = Some y /\ t ∈ children y /\ i_have_ended y = false /\ i_am_joining y = false.
Proof.
  intros H E Hx. destruct (parent x) as [p|] eqn:Hp; [|destruct (inv_orphan _ _ _ H t x E Hp); congruence].
  destruct (inv_parent _ _ _ H t x p E Hp) as (_ & y & Ey & Hin). exists p, y. split; [done|]. split; [done|].
  destruct (i_am_detached x) eqn:Hd.
  - destruct (inv_detached _ _ _ H p y t Ey Hin) as (x' & Ex' & _ & _ & Hx'). congruence.
  - split; [done|]. split.
    + destruct (i_have_ended y) eqn:Hy; [|done]. destruct (inv_ended _ _ _ H p y Ey Hy) as [Hc _]. rewrite Hc in Hin. set_solver.
    + destruct (i_am_joining y) eqn:Hj; [|done]. destruct (inv_joining _ _ _ H p y Ey Hj) as [_ Hall]. rewrite (Hall t x Hin E) in Hx. done.
Qed.
End Reachable.

(** ** Runs, as lists of moves *)

#[export] Instance obeys_dec a x : Decision (obeys a x).
Proof. destruct a; cbn; apply _. Defined.

Inductive move := MStart (scope : nat) | MDispatch (t : nat) | MExec (a : act) | MWake (l : list nat).

Definition do_move (order : gset nat -> list nat) (mv : move) (c : pool * option nat) : option (pool * option nat) :=
  match mv, c with
  | MStart s, (st, run) => st ← schedule_vthread (fst (vthread_new s st)) (snd (vthread_new s st)); Some (st, run)
  | MDispatch t, (st, None) => x ← threads st !! t; if is_scheduled x then st ← dispatch t st; Some (st, Some t) else None
  | MExec a, (st, Some t) => x ← threads st !! t; if decide (obeys a x) then '(st, b) ← exec_act order a t st; Some (st, if b : bool then Some t else None) else None
  | MWake l, (st, run) => if decide (NoDup l) then if decide (Forall (fun t => waiting_for_event <$> threads st !! t = Some true) l) then st ← schedule_list l st; Some (st, run) else None else None
  | _, _ => None
  end.

Fixpoint moves (order : gset nat -> list nat) (l : list move) (c : pool * option nat) : option (pool * option nat) :=
  match l with [] => Some c | mv :: l => c ← do_move order mv c; moves order l c end.

Lemma wake_step order l st run c' : do_move order (MWake l) (st, run) = Some c' -> tree_step order (st, run) c'.
Proof.
  cbn. intros E. destruct (decide (NoDup l)); [|done]. destruct (decide (Forall _ l)) as [HF|]; [|done]. destruct (schedule_list l st) as [st'|] eqn:EL; [|done]. injection E as <-.
  eapply step_wake; [done| |done]. intros t Ht. rewrite List.Forall_forall in HF. specialize (HF t ltac:(by apply list_elem_of_In)). destruct (threads st !! t) as [x|]; [|done]. exists x. split; [done|]. by injection HF.
Qed.

Lemma do_move_step order mv c c' : do_move order mv c = Some c' -> tree_step order c c'.
Proof.
  destruct mv, c as [st [u|]]; cbn -[vthread_new]; try done; intros E.
  1, 2: destruct (schedule_vthread _ _) eqn:ES; [|done]; injection E as <-; by eapply step_start.
  - destruct (threads st !! t) as [x|] eqn:Ex; [|done]. cbn in E. destruct (is_scheduled x) eqn:Es; [|done]. destruct (dispatch t st) as [st'|] eqn:ED; [|done]. injection E as <-. by eapply step_dispatch.
  - destruct (threads st !! u) as [x|] eqn:Ex; [|done]. cbn -[obeys_dec] in E. destruct (decide (obeys a x)); [|done]. destruct (exec_act order a u st) as [[st' b]|] eqn:EE; [|done]. injection E as <-. by eapply step_exec.
  - by apply (wake_step order l st (Some u)).
  - by apply (wake_step order l st None).
Qed.

Lemma moves_reach order l c c' : moves order l c = Some c' -> rtc (tree_step order) c c'.
Proof.
  revert c. induction l as [|mv l IH]; intros c E; cbn in E; [by injection E as <-|]. destruct (do_move order mv c) as [c1|] eqn:E1; [|done]. eapply rtc_l; [by eapply do_move_step|by apply IH].
Qed.

(** ** %disable and the detached children *)

(** The threads as (waits in %wait/fork, scheduled or waits for an event). *)
Definition thread_view (st : pool) : list (nat * (bool * bool)) :=
  map (fun '(t, x) => (t, (i_am_waiting x, is_scheduled x || waiting_for_event x))) (map_to_list (threads st)).

(** Thread 0 detaches thread 1 and waits in %wait/fork; thread 2 disables the scope of thread 1 and ends. *)
Definition stranded : option pool :=
  '(st, _) ← moves elements [MStart 0; MDispatch 0; MExec (AFork 1); MExec (AJoinDetach 1); MExec AWaitFork; MStart 2; MDispatch 2] tree_init;
  '(st, _) ← of_DISABLE elements 1 2 st; '(st, _) ← of_END elements 2 st; st ← dispatch 1 st; '(st, _) ← of_ZOMBIE 1 st; Some st.

(** The waiter stays, and nothing can wake it: the disabled thread is still among its detached children. *)
Example disable_strands_waiter : thread_view <$> stranded = Some [(1, (false, false)); (0, (true, false))]%nat.
Proof. vm_compute. reflexivity. Qed.

(** Thread 0 detaches thread 1, forks thread 2 and joins it; thread 3 disables the scope of thread 1. *)
Definition woken_early : option pool :=
  '(st, _) ← moves elements [MStart 0; MDispatch 0; MExec (AFork 1); MExec (AJoinDetach 1); MExec (AFork 2); MExec AJoin; MStart 3; MDispatch 3] tree_init;
  '(st, _) ← of_DISABLE elements 1 3 st; '(st, _) ← of_END elements 3 st; dispatch 0 st.

(** The join is over although the child that was joined runs on, and then %end fails its assertion. *)
Example disable_ends_join : ((fun st => elements ∘ children <$> threads st !! 0%nat) <$> woken_early, st ← woken_early; of_END elements 0 st) = (Some (Some [2%nat]), None).
Proof. vm_compute. reflexivity. Qed.

(** ** Properties *)


(** C14: No deadlock among threads that keep the discipline of joins (a join or a detachment
    for every fork, and the joins before %end and %wait/fork), in every state that starts,
    dispatches, wake-ups and the instructions %fork, %join, %join/detach, %end, %wait,
    %wait/fork and %delay reach; %disable is not among them. A thread that has not ended runs,
    is scheduled or waits for an event, or else it is in %join or %wait/fork, and following
    the children that it and they wait for leads to a thread that does. A thread that has
    ended is a child that its parent, which has not ended and is not in %join, has still to
    join. *)
Theorem no_deadlock order st run t x : (forall s, order s ≡ₚ elements s) -> rtc (tree_step order) tree_init (st, run) -> threads st !! t = Some x ->
  if i_have_ended x
  then exists p y, parent x = Some p /\ threads st !! p = Some y /\ t ∈ children y /\ i_have_ended y = false /\ i_am_joining y = false
  else exists u, rtc (blocked_on st) t u /\ goes_on st run u.
Proof.
  intros Ho HR E. pose proof (reachable_ok order Ho _ HR) as H. cbn in H. destruct (i_have_ended x) eqn:Hx; [by eapply ended_kept|by eapply blocked_live].
Qed.

(** Thread 0 forks thread 1 and joins it, thread 1 waits for an event. *)
Definition demo_moves : list move := [MStart 0; MDispatch 0; MExec (AFork 1); MExec AJoin; MDispatch 1; MExec AWait; MWake [1%nat]; MDispatch 1].
Definition demo : pool * option nat := default tree_init (moves elements demo_moves tree_init).

Lemma demo_reach : rtc (tree_step elements) tree_init demo.
Proof. apply (moves_reach elements demo_moves). vm_compute. reflexivity. Qed.

Definition demo_thread : vthread_s := default (top_thread 0) (threads (fst demo) !! 1%nat).

Lemma demo_running : snd demo = Some 1%nat /\ threads (fst demo) !! 1%nat = Some demo_thread /\ children demo_thread = ∅.
Proof. split_and!; vm_compute; reflexivity. Qed.


(** The joining thread 0 of that run. *)
Definition demo_parent : vthread_s := default (top_thread 0) (threads (fst demo) !! 0%nat).

Lemma no_deadlock_witness : i_am_joining demo_parent = true /\ exists u, rtc (blocked_on (fst demo)) 0%nat u /\ goes_on (fst demo) (snd demo) u.
Proof.
  split; [vm_compute; reflexivity|].
  exact (no_deadlock elements (fst demo) (snd demo) 0 demo_parent (fun s => reflexivity _)
    ltac:(rewrite <- surjective_pairing; apply demo_reach) ltac:(vm_compute; reflexivity)).
Defined.
