(* ===== verification/Nexus.v ===== *)
(** The links of the netlist ([net_link.cc], [netlist.h]): the pins that are connected form a circular
    list, and the last of them points to the nexus of the list.  Links and nexuses are keys of a store;
    [None] is a failed [assert] or a null pointer that is followed.  The [NexusSet] of parts of nets is
    built of links of its own. *)
From stdpp Require Import gmap.
From S2P Require Import Prelude.

Inductive DIR := PASSIVE | INPUT | OUTPUT.
#[export] Instance dir_eq_dec : EqDecision DIR. Proof. solve_decision. Defined.
Inductive VALUE := NO_GUESS | V0_GUESS | V1_GUESS | Vx_GUESS | Vz_GUESS | VAR.
#[export] Instance value_eq_dec : EqDecision VALUE. Proof. solve_decision. Defined.

Record Link := mkLink { dir_ : DIR; next_ : option nat; nexus_ : option nat }.
(** [name_] tells whether the name has been computed. *)
Record Nexus := mkNexus { list_ : option nat; driven_ : VALUE; name_ : bool }.
Record netlist := mkNetlist { links : gmap nat Link; nexuses : gmap nat Nexus; fresh : nat }.

(** ** Members *)

Definition get_dir (l : nat) (st : netlist) : option DIR := x ← links st !! l; Some (dir_ x).
Definition get_next (l : nat) (st : netlist) : option (option nat) := x ← links st !! l; Some (next_ x).
Definition get_nexus (l : nat) (st : netlist) : option (option nat) := x ← links st !! l; Some (nexus_ x).
Definition get_list (n : nat) (st : netlist) : option (option nat) := x ← nexuses st !! n; Some (list_ x).
Definition get_driven (n : nat) (st : netlist) : option VALUE := x ← nexuses st !! n; Some (driven_ x).

Definition put_link (l : nat) (f : Link -> Link) (st : netlist) : option netlist := x ← links st !! l; Some (mkNetlist (<[l := f x]> (links st)) (nexuses st) (fresh st)).
Definition put_nexus (n : nat) (f : Nexus -> Nexus) (st : netlist) : option netlist := x ← nexuses st !! n; Some (mkNetlist (links st) (<[n := f x]> (nexuses st)) (fresh st)).
Definition set_dir (l : nat) (d : DIR) : netlist -> option netlist := put_link l (fun x => mkLink d (next_ x) (nexus_ x)).
Definition set_next (l : nat) (v : option nat) : netlist -> option netlist := put_link l (fun x => mkLink (dir_ x) v (nexus_ x)).
Definition set_nexus (l : nat) (v : option nat) : netlist -> option netlist := put_link l (fun x => mkLink (dir_ x) (next_ x) v).
Definition set_list (n : nat) (v : option nat) : netlist -> option netlist := put_nexus n (fun x => mkNexus v (driven_ x) (name_ x)).
Definition set_driven (n : nat) (v : VALUE) : netlist -> option netlist := put_nexus n (fun x => mkNexus (list_ x) v (name_ x)).
Definition set_name (n : nat) (b : bool) : netlist -> option netlist := put_nexus n (fun x => mkNexus (list_ x) (driven_ x) b).

Definition assert_that (b : bool) : option unit := if b then Some tt else None.

(** ** Construction *)

Definition link_new (l : nat) (st : netlist) : netlist := mkNetlist (<[l := mkLink PASSIVE None None]> (links st)) (nexuses st) (fresh st).

(** [Nexus::~Nexus]. *)
Definition nexus_delete (n : nat) (st : netlist) : option netlist :=
  v ← get_list n st; _ ← assert_that (bool_decide (v = None)); Some (mkNetlist (links st) (delete n (nexuses st)) (fresh st)).

Fixpoint find_loop (fuel : nat) (self cur : nat) (st : netlist) : option (option nat) :=
  match fuel with
  | O => None
  | S fuel =>
      if decide (cur = self) then Some None
      else v ← get_nexus cur st;
           match v with
           | Some n => Some (Some n)
           | None => next ← get_next cur st; cur ← next; find_loop fuel self cur st
           end
  end.

Definition find_nexus_ (l : nat) (st : netlist) : option (option nat) :=
  next ← get_next l st; cur ← next;
  v ← get_nexus l st;
  match v with Some n => Some (Some n) | None => find_loop (S (size (links st))) l cur st end.

(** [Nexus::Nexus]: a new nexus for a link, or in the place of its nexus. *)
Definition nexus_new (that : nat) (st : netlist) : option (nat * netlist) :=
  let n := fresh st in
  let st := mkNetlist (links st) (<[n := mkNexus None NO_GUESS false]> (nexuses st)) (S n) in
  next ← get_next that st;
  match next with
  | None => st ← set_list n (Some that) st; st ← set_next that (Some that) st; st ← set_nexus that (Some n) st; st ← set_driven n NO_GUESS st; Some (n, st)
  | Some _ =>
      tmp ← find_nexus_ that st; tmp ← tmp; x ← nexuses st !! tmp;
      st ← set_list n (list_ x) st; last ← list_ x; st ← set_nexus last (Some n) st; st ← set_driven n (driven_ x) st; st ← set_name n (name_ x) st;
      st ← set_list tmp None st; st ← nexus_delete tmp st; Some (n, st)
  end.

(** [Link::nexus]. *)
Definition link_nexus (l : nat) (st : netlist) : option (option nat * netlist) :=
  next ← get_next l st;
  match next with
  | None => v ← get_nexus l st; _ ← assert_that (bool_decide (v = None)); '(n, st) ← nexus_new l st; Some (Some n, st)
  | Some _ => n ← find_nexus_ l st; Some (n, st)
  end.

(** ** Connection *)

(** [Nexus::connect]. *)
Definition nexus_connect (n r : nat) (st : netlist) : option netlist :=
  next ← get_next r st;
  r_nexus ← match next with Some _ => find_nexus_ r st | None => Some None end;
  if decide (r_nexus = Some n) then Some st else
  st ← set_name n false st;
  list ← get_list n st;
  match list with
  | None =>
      match next with
      | None => st ← set_list n (Some r) st; st ← set_next r (Some r) st; st ← set_nexus r (Some n) st; set_driven n NO_GUESS st
      | Some _ =>
          r_nexus ← r_nexus; d ← get_driven r_nexus st; st ← set_driven n d st;
          v ← get_list r_nexus st; st ← set_list n v st; last ← v; st ← set_nexus last (Some n) st;
          st ← set_list r_nexus None st; nexus_delete r_nexus st
      end
  | Some last =>
      match next with
      | None =>
          d ← get_dir r st; st ← (if decide (d = INPUT) then Some st else set_driven n NO_GUESS st);
          st ← set_nexus r (Some n) st; first ← get_next last st; st ← set_next r first st; st ← set_next last (Some r) st;
          st ← set_nexus last None st; set_list n (Some r) st
      | Some _ =>
          r_nexus ← r_nexus; d ← get_driven r_nexus st; st ← (if decide (d = Vz_GUESS) then Some st else set_driven n NO_GUESS st);
          save_first ← get_next last st; v ← get_list r_nexus st; r_last ← v; r_first ← get_next r_last st;
          st ← set_next last r_first st; st ← set_next r_last save_first st;
          st ← set_nexus last None st; st ← set_list n (Some r_last) st; st ← set_nexus r_last (Some n) st;
          st ← set_list r_nexus None st; nexus_delete r_nexus st
      end
  end.

(** [connect(Link&, Link&)]. *)
Definition connect (l r : nat) (st : netlist) : option netlist :=
  _ ← assert_that (bool_decide (l <> r));
  l_next ← get_next l st; l_nexus ← match l_next with Some _ => find_nexus_ l st | None => Some None end;
  match l_nexus with
  | Some tmp => nexus_connect tmp r st
  | None =>
      r_next ← get_next r st; r_nexus ← match r_next with Some _ => find_nexus_ r st | None => Some None end;
      match r_nexus with
      | Some tmp => nexus_connect tmp l st
      | None => '(tmp, st) ← nexus_new l st; nexus_connect tmp r st
      end
  end.

(** ** Disconnection *)

Fixpoint find_prev (fuel : nat) (prev that : nat) (st : netlist) : option nat :=
  match fuel with
  | O => None
  | S fuel => next ← get_next prev st; next ← next; if decide (next = that) then Some prev else find_prev fuel next that st
  end.

(** [Nexus::unlink]. *)
Definition nexus_unlink (n that : nat) (st : netlist) : option netlist :=
  st ← set_name n false st;
  next ← get_next that st; v ← get_nexus that st; list ← get_list n st;
  if decide (next = Some that) then
    _ ← assert_that (bool_decide (v = Some n)); _ ← assert_that (bool_decide (list = Some that));
    st ← set_list n None st; st ← set_driven n NO_GUESS st; st ← set_nexus that None st; set_next that None st
  else
    d ← get_dir that st; st ← (if decide (d = INPUT) then Some st else set_driven n NO_GUESS st);
    last ← list; prev ← find_prev (S (size (links st))) last that st; st ← set_next prev next st;
    st ← (if decide (list = Some that) then _ ← assert_that (bool_decide (v = Some n)); st ← set_list n (Some prev) st; set_nexus prev (Some n) st else Some st);
    st ← set_nexus that None st; set_next that None st.

Definition is_linked (l : nat) (st : netlist) : option bool :=
  next ← get_next l st; Some (match next with None => false | Some k => negb (bool_decide (k = l)) end).

Definition link_unlink (l : nat) (st : netlist) : option netlist :=
  b ← is_linked l st; if b : bool then n ← find_nexus_ l st; n ← n; nexus_unlink n l st else Some st.

(** [Link::~Link]. *)
Definition link_delete (l : nat) (st : netlist) : option netlist :=
  next ← get_next l st;
  st ← match next with
       | None => Some st
       | Some _ =>
           '(n, st) ← link_nexus l st; n ← n; st ← nexus_unlink n l st;
           v ← get_list n st; if bool_decide (v = None) then nexus_delete n st else Some st
       end;
  Some (mkNetlist (delete l (links st)) (nexuses st) (fresh st)).

(** ** Traversal *)

Fixpoint linked_loop (fuel : nat) (self cur that : nat) (st : netlist) : option bool :=
  match fuel with
  | O => None
  | S fuel => if decide (cur = self) then Some false else if decide (cur = that) then Some true else next ← get_next cur st; cur ← next; linked_loop fuel self cur that st
  end.

(** [Link::is_linked(const Link&)]. *)
Definition is_linked_to (l that : nat) (st : netlist) : option bool :=
  a ← is_linked l st; if negb a then Some false else
  b ← is_linked that st; if negb b then Some false else
  next ← get_next l st; cur ← next; linked_loop (S (size (links st))) l cur that st.

Definition first_nlink (n : nat) (st : netlist) : option (option nat) :=
  v ← get_list n st; match v with Some last => get_next last st | None => Some None end.
Definition next_nlink (l : nat) (st : netlist) : option (option nat) :=
  v ← get_nexus l st; match v with Some _ => Some None | None => get_next l st end.

Fixpoint nlinks (fuel : nat) (cur : option nat) (st : netlist) : option (list nat) :=
  match fuel with
  | O => None
  | S fuel => match cur with None => Some [] | Some l => next ← next_nlink l st; rest ← nlinks fuel next st; Some (l :: rest) end
  end.

(** The links that a loop over a nexus visits. *)
Definition all_nlinks (n : nat) (st : netlist) : option (list nat) := cur ← first_nlink n st; nlinks (S (size (links st))) cur st.

(** [Nexus::count_io]. *)
Definition count_io (n : nat) (st : netlist) : option (nat * nat) :=
  l ← all_nlinks n st;
  ds ← mapM (fun l => get_dir l st) l;
  Some (length (filter (fun d => d = INPUT) ds), length (filter (fun d => d = OUTPUT) ds)).

(** [Nexus::has_floating_input]. *)
Fixpoint floating (ds : list DIR) (found_input : bool) : bool :=
  match ds with [] => found_input | OUTPUT :: _ => false | INPUT :: ds => floating ds true | PASSIVE :: ds => floating ds found_input end.
Definition has_floating_input (n : nat) (st : netlist) : option bool :=
  l ← all_nlinks n st; ds ← mapM (fun l => get_dir l st) l; Some (floating ds false).

(** * [NexusSet] *)

(** [elem_t]: a part of a nexus, that the element is linked to. *)
Record elem_t := mkElem { lnk : nat; base : Z; wid : Z }.

Definition elem_new (k n : nat) (b w : Z) (st : netlist) : option (elem_t * netlist) :=
  st ← set_dir k PASSIVE (link_new k st); st ← nexus_connect n k st; Some (mkElem k b w, st).

Definition elem_eq (x that : elem_t) (st : netlist) : option bool :=
  r ← is_linked_to (lnk x) (lnk that) st; Some (r && (base x =? base that) && (wid x =? wid that)).

(** [elem_t::contains]; the sums are unsigned. *)
Definition elem_contains (x that : elem_t) (st : netlist) : option bool :=
  r ← is_linked_to (lnk x) (lnk that) st;
  Some (if negb r then false else if base that <? base x then false
        else if (base x + wid x) mod 2 ^ 32 <? (base that + wid that) mod 2 ^ 32 then false else true).

(** [bsearch_]: the first equal element, or the size. *)
Fixpoint bsearch_ (items : list elem_t) (that : elem_t) (st : netlist) : option nat :=
  match items with
  | [] => Some 0%nat
  | x :: items => b ← elem_eq x that st; if b : bool then Some 0%nat else n ← bsearch_ items that st; Some (S n)
  end.

(** [k] is the new element's link. *)
Definition nset_add (k that : nat) (b w : Z) (items : list elem_t) (st : netlist) : option (list elem_t * netlist) :=
  '(cur, st) ← elem_new k that b w st;
  match items with
  | [] => Some ([cur], st)
  | _ => ptr ← bsearch_ items cur st;
         if (ptr <? length items)%nat then st ← link_delete (lnk cur) st; Some (items, st)
         else _ ← assert_that (ptr =? length items)%nat; Some (items ++ [cur], st)
  end.

(** [add(NexusSet&)], with the links of the elements that may be made. *)
Fixpoint nset_add_set (keys : list nat) (that : list elem_t) (items : list elem_t) (st : netlist) : option (list elem_t * netlist) :=
  match that, keys with
  | [], _ => Some (items, st)
  | e :: that, k :: keys =>
      '(n, st) ← link_nexus (lnk e) st; n ← n;
      '(items, st) ← nset_add k n (base e) (wid e) items st; nset_add_set keys that items st
  | _ :: _, [] => None
  end.

Definition nset_rem_ (that : elem_t) (items : list elem_t) (st : netlist) : option (list elem_t * netlist) :=
  match items with
  | [] => Some (items, st)
  | first :: rest =>
      ptr ← bsearch_ items that st;
      if (length items <=? ptr)%nat then Some (items, st)
      else if (length items =? 1)%nat then st ← link_delete (lnk first) st; Some ([], st)
      else x ← items !! ptr; st ← link_delete (lnk x) st; Some (take ptr items ++ drop (S ptr) items, st)
  end.

Fixpoint nset_rem (that : list elem_t) (items : list elem_t) (st : netlist) : option (list elem_t * netlist) :=
  match that with [] => Some (items, st) | e :: that => '(items, st) ← nset_rem_ e items st; nset_rem that items st end.

Fixpoint contains_ (items : list elem_t) (that : elem_t) (st : netlist) : option bool :=
  match items with [] => Some false | x :: items => b ← elem_contains x that st; if b : bool then Some true else contains_ items that st end.
Fixpoint nset_contains (items that : list elem_t) (st : netlist) : option bool :=
  match that with [] => Some true | e :: that => b ← contains_ items e st; if b : bool then nset_contains items that st else Some false end.
Fixpoint nset_intersect (items that : list elem_t) (st : netlist) : option bool :=
  match that with [] => Some false | e :: that => where_ ← bsearch_ items e st; if (where_ =? length items)%nat then nset_intersect items that st else Some true end.
