(* ===== verification/NexusProps.v ===== *)
(** The links of the netlist as a partition of the pins: connecting two pins joins their classes,
    unlinking takes one out of its class.

    The pointers of the store are read off as functions ([pointers], [sees]); the classes are rings of
    pointers ([nring], [rep], [stands]); each operation is followed through both. *)
From stdpp Require Import gmap.
From S2P Require Import Prelude.
From S2P Require Import Nexus.

(** * What the pointers stand for *)

(** The pointers of a store: next links, nexuses of links, lists of nexuses, the links that exist, the next key. *)
Record pointers := mkView { nx : nat -> option nat; ne : nat -> option nat; ls : nat -> option (option nat); al : nat -> bool; fr : nat }.

Definition sees (st : netlist) (w : pointers) : Prop :=
  (forall k, get_next k st = if al w k then Some (nx w k) else None) /\ (forall k, get_nexus k st = if al w k then Some (ne w k) else None) /\
  (forall n, get_list n st = ls w n) /\ fresh st = fr w /\ forall l, NoDup l -> (forall k, k ∈ l -> al w k = true) -> (length l <= size (links st))%nat.

Definition upd {A} (f : nat -> A) (k : nat) (v : A) : nat -> A := fun j => if decide (j = k) then v else f j.
Definition w_next l v w := mkView (upd (nx w) l v) (ne w) (ls w) (al w) (fr w).
Definition w_nexus l v w := mkView (nx w) (upd (ne w) l v) (ls w) (al w) (fr w).
Definition w_list n v w := mkView (nx w) (ne w) (upd (ls w) n v) (al w) (fr w).

Lemma see_next st w l : sees st w -> al w l = true -> get_next l st = Some (nx w l).
Proof. intros (H & _) Hl. by rewrite H, Hl. Qed.
Lemma see_nexus st w l : sees st w -> al w l = true -> get_nexus l st = Some (ne w l).
Proof. intros (_ & H & _) Hl. by rewrite H, Hl. Qed.
Lemma see_list st w n : sees st w -> get_list n st = ls w n.
Proof. by intros (_ & _ & H & _). Qed.
Lemma see_link st w l : sees st w -> al w l = true -> exists x, links st !! l = Some x.
Proof. intros (H & _) Hl. specialize (H l). rewrite Hl in H. unfold get_next in H. destruct (links st !! l) as [x|]; [by exists x|done]. Qed.
Lemma see_dir st w l : sees st w -> al w l = true -> exists d, get_dir l st = Some d.
Proof. intros H Hl. destruct (see_link st w l H Hl) as [x E]. unfold get_dir. rewrite E. by eexists. Qed.

(** What the setters do to the pointers. *)
Lemma put_link_sees f st w l : sees st w -> al w l = true ->
  exists st' x, put_link l f st = Some st' /\ next_ x = nx w l /\ nexus_ x = ne w l /\
    sees st' (mkView (upd (nx w) l (next_ (f x))) (upd (ne w) l (nexus_ (f x))) (ls w) (al w) (fr w)).
Proof.
  intros H Hl. destruct (see_link st w l H Hl) as [x E]. destruct H as (H1 & H2 & H3 & H4 & H5). unfold put_link. rewrite E. cbn. eexists _, x. split; [done|].
  pose proof (H1 l) as E1. pose proof (H2 l) as E2. rewrite Hl in E1, E2. unfold get_next, get_nexus in E1, E2. rewrite E in E1, E2. cbn in E1, E2. injection E1 as E1. injection E2 as E2.
  split; [done|]. split; [done|]. split_and!; cbn; [| |done|done|].
  - intros k. unfold get_next, upd. cbn. destruct (decide (k = l)) as [->|Hk]; [by rewrite lookup_insert_eq, Hl|]. rewrite lookup_insert_ne by done. apply H1.
  - intros k. unfold get_nexus, upd. cbn. destruct (decide (k = l)) as [->|Hk]; [by rewrite lookup_insert_eq, Hl|]. rewrite lookup_insert_ne by done. apply H2.
  - intros s Hs Hall. rewrite map_size_insert_Some by done. by apply H5.
Qed.

Lemma sees_ext st w w' : sees st w -> (forall k, nx w k = nx w' k) -> (forall k, ne w k = ne w' k) -> (forall k, ls w k = ls w' k) -> (forall k, al w k = al w' k) -> fr w = fr w' -> sees st w'.
Proof.
  intros (H1 & H2 & H3 & H4 & H5) E1 E2 E3 E4 E5. split_and!; intros; rewrite <- ?E1, <- ?E2, <- ?E3, <- ?E4, <- ?E5; auto. apply H5; [done|]. intros k Hk. rewrite E4. auto.
Qed.

Lemma upd_same {A} (f : nat -> A) k j : upd f k (f k) j = f j.
Proof. unfold upd. by destruct (decide (j = k)) as [->|]. Qed.

Lemma set_next_sees st w l v : sees st w -> al w l = true -> exists st', set_next l v st = Some st' /\ sees st' (w_next l v w).
Proof.
  intros H Hl. destruct (put_link_sees (fun x => mkLink (dir_ x) v (nexus_ x)) st w l H Hl) as (st' & x & E & E1 & E2 & Hs). exists st'. split; [done|]. eapply sees_ext; [exact Hs|..]; cbn; try done. intros k. rewrite E2. apply upd_same.
Qed.
Lemma set_nexus_sees st w l v : sees st w -> al w l = true -> exists st', set_nexus l v st = Some st' /\ sees st' (w_nexus l v w).
Proof.
  intros H Hl. destruct (put_link_sees (fun x => mkLink (dir_ x) (next_ x) v) st w l H Hl) as (st' & x & E & E1 & E2 & Hs). exists st'. split; [done|]. eapply sees_ext; [exact Hs|..]; cbn; try done. intros k. rewrite E1. apply upd_same.
Qed.

Lemma put_nexus_sees f st w n : sees st w -> ls w n <> None ->
  exists st' x, put_nexus n f st = Some st' /\ ls w n = Some (list_ x) /\ sees st' (w_list n (Some (list_ (f x))) w).
Proof.
  intros (H1 & H2 & H3 & H4 & H5) Hn. pose proof (H3 n) as E. unfold get_list in E. destruct (nexuses st !! n) as [x|] eqn:Ex; cbn in E; [|by rewrite <- E in Hn]. unfold put_nexus. rewrite Ex. cbn. eexists _, x. split; [done|]. split; [done|].
  split_and!; cbn; try done. intros m. unfold get_list, upd. cbn. destruct (decide (m = n)) as [->|Hm]; [by rewrite lookup_insert_eq|]. rewrite lookup_insert_ne by done. apply H3.
Qed.
Lemma set_list_sees st w n v : sees st w -> ls w n <> None -> exists st', set_list n v st = Some st' /\ sees st' (w_list n (Some v) w).
Proof. intros H Hn. destruct (put_nexus_sees (fun x => mkNexus v (driven_ x) (name_ x)) st w n H Hn) as (st' & x & E & _ & Hs). by exists st'. Qed.

(** The cached value and the cached name are not in the pointers. *)
Lemma set_driven_sees st w n v : sees st w -> ls w n <> None -> exists st', set_driven n v st = Some st' /\ sees st' w.
Proof.
  intros H Hn. destruct (put_nexus_sees (fun x => mkNexus (list_ x) v (name_ x)) st w n H Hn) as (st' & x & E & E1 & Hs). exists st'. split; [done|]. eapply sees_ext; [exact Hs|..]; try done. intros k. cbn. rewrite <- E1. apply upd_same.
Qed.
Lemma set_name_sees st w n v : sees st w -> ls w n <> None -> exists st', set_name n v st = Some st' /\ sees st' w.
Proof.
  intros H Hn. destruct (put_nexus_sees (fun x => mkNexus (list_ x) (driven_ x) v) st w n H Hn) as (st' & x & E & E1 & Hs). exists st'. split; [done|]. eapply sees_ext; [exact Hs|..]; try done. intros k. cbn. rewrite <- E1. apply upd_same.
Qed.
Lemma may_drive_sees (P : Prop) {D : Decision P} st w n v : sees st w -> ls w n <> None -> exists st', (if decide P then Some st else set_driven n v st) = Some st' /\ sees st' w.
Proof. intros H Hn. destruct (decide P); [by exists st|by apply set_driven_sees]. Qed.
Lemma see_driven st w n : sees st w -> ls w n <> None -> exists d, get_driven n st = Some d.
Proof. intros (_ & _ & H & _) Hn. specialize (H n). unfold get_list in H. unfold get_driven. destruct (nexuses st !! n); [by eexists|]. by rewrite <- H in Hn. Qed.

Definition w_delete n w := mkView (nx w) (ne w) (upd (ls w) n None) (al w) (fr w).
Lemma nexus_delete_sees st w n : sees st w -> ls w n = Some None -> exists st', nexus_delete n st = Some st' /\ sees st' (w_delete n w).
Proof.
  intros (H1 & H2 & H3 & H4 & H5) Hn. unfold nexus_delete. rewrite H3, Hn. cbn. eexists. split; [done|]. split_and!; cbn; try done.
  intros m. unfold get_list, upd. cbn. destruct (decide (m = n)) as [->|Hm]; [by rewrite lookup_delete_eq|]. rewrite lookup_delete_ne by done. apply H3.
Qed.

(** ** Rings *)

Fixpoint follows (f : nat -> option nat) (L : list nat) : Prop :=
  match L with x :: (y :: _) as L' => f x = Some y /\ follows f L' | _ => True end.
Definition first (A : list nat) (a : nat) : nat := match A with [] => a | x :: _ => x end.

(** The links [A ++ [a]] are those of the nexus [n]. *)
Record nring (w : pointers) (n : nat) (A : list nat) (a : nat) : Prop := {
  rg_nodup : NoDup (A ++ [a]);
  rg_alive : forall x, x ∈ A ++ [a] -> al w x = true;
  rg_follows : follows (nx w) (A ++ [a]);
  rg_close : nx w a = Some (first A a);
  rg_inner : forall x, x ∈ A -> ne w x = None;
  rg_last : ne w a = Some n;
  rg_list : ls w n = Some (Some a) }.

(** The classes: the nexus of each and its links, in their order. *)
Record rep (w : pointers) (G : gmap nat (list nat)) : Prop := {
  rp_ring : forall n L, G !! n = Some L -> exists A a, L = A ++ [a] /\ nring w n A a;
  rp_nexus : forall n, G !! n = None -> ls w n = None;
  rp_disjoint : forall n m L M l, G !! n = Some L -> G !! m = Some M -> l ∈ L -> l ∈ M -> n = m;
  rp_free : forall l, (forall n L, G !! n = Some L -> l ∉ L) -> nx w l = None /\ ne w l = None;
  rp_fresh : forall n, (fr w <= n)%nat -> G !! n = None }.

Lemma follows_app f A x B : follows f (A ++ x :: B) <-> follows f (A ++ [x]) /\ follows f (x :: B).
Proof.
  induction A as [|y A IH]; [cbn; tauto|]. destruct A as [|z A]; cbn [app] in *.
  - cbn. destruct B; tauto.
  - change (follows f (y :: z :: (A ++ x :: B))) with (f y = Some z /\ follows f (z :: (A ++ x :: B))). change (follows f (y :: z :: (A ++ [x]))) with (f y = Some z /\ follows f (z :: (A ++ [x]))). rewrite IH. tauto.
Qed.

Lemma follows_ext f g A a : (forall x, x ∈ A -> f x = g x) -> follows f (A ++ [a]) <-> follows g (A ++ [a]).
Proof.
  induction A as [|y A IH]; intros H; [done|]. destruct A as [|z A]; cbn [app] in *.
  - cbn. by rewrite (H y) by by left.
  - change (f y = Some z /\ follows f (z :: (A ++ [a])) <-> g y = Some z /\ follows g (z :: (A ++ [a]))). rewrite (H y) by by left. rewrite IH; [done|]. intros x Hx. apply H. by right.
Qed.

Lemma ring_frame w w' n A a : nring w n A a -> ls w' n = ls w n -> (forall x, x ∈ A ++ [a] -> nx w' x = nx w x /\ ne w' x = ne w x /\ al w' x = al w x) -> nring w' n A a.
Proof.
  intros [H1 H2 H3 H4 H5 H6 H7] Hl HF. assert (Ha : a ∈ A ++ [a]) by set_solver. split; [done| | | | | |by rewrite Hl].
  - intros x Hx. destruct (HF x Hx) as (_ & _ & ->). auto.
  - apply (follows_ext _ (nx w)); [|done]. intros x Hx. apply HF. set_solver.
  - destruct (HF a Ha) as (-> & _ & _). done.
  - intros x Hx. destruct (HF x) as (_ & -> & _); [set_solver|auto].
  - destruct (HF a Ha) as (_ & -> & _). done.
Qed.

Lemma first_app A a b : first (A ++ [a]) b = first A a.
Proof. by destruct A. Qed.

(** Every link of a ring is followed by one. *)
Lemma follows_next f A a l : follows f (A ++ [a]) -> l ∈ A -> exists y, f l = Some y.
Proof. intros H Hl. apply list_elem_of_split in Hl as (P & Q & ->). rewrite <- app_assoc in H. cbn in H. apply follows_app in H as [_ H]. destruct Q as [|q Q]; cbn in H; eexists; apply H. Qed.

Lemma ring_next w n A a l : nring w n A a -> l ∈ A ++ [a] -> exists y, nx w l = Some y.
Proof. intros H [Hl| ->%list_elem_of_singleton]%elem_of_app; [by eapply follows_next; [apply H|]|]. eexists. apply H. Qed.

(** ** The nexus of a link is found *)

Lemma find_loop_sees st w n l Q a : sees st w -> ne w a = Some n -> forall fuel, follows (nx w) (Q ++ [a]) -> (forall x, x ∈ Q ++ [a] -> al w x = true) -> (forall x, x ∈ Q -> ne w x = None) -> l ∉ Q ++ [a] ->
  (length Q < fuel)%nat -> find_loop fuel l (first Q a) st = Some (Some n).
Proof.
  intros H Ha. induction Q as [|q Q IH]; intros [|fuel] HF HA HN Hl Hlen; cbn in Hlen; try lia; cbn [find_loop first].
  - rewrite decide_False by set_solver. rewrite (see_nexus st w a) by (done || apply HA; set_solver). cbn. by rewrite Ha.
  - rewrite decide_False by set_solver. rewrite (see_nexus st w q) by (done || apply HA; set_solver). cbn. rewrite HN by by left. rewrite (see_next st w q) by (done || apply HA; set_solver). cbn.
    assert (HQ : nx w q = Some (first Q a) /\ follows (nx w) (Q ++ [a])) by (destruct Q; cbn in HF |- *; tauto). destruct HQ as [-> HF']. cbn.
    apply IH; [done| | |set_solver|lia]; intros x Hx; [apply HA|apply HN]; set_solver.
Qed.

Lemma find_nexus_sees st w n A a l : sees st w -> nring w n A a -> l ∈ A ++ [a] -> find_nexus_ l st = Some (Some n).
Proof.
  intros H R Hl. destruct (ring_next w n A a l R Hl) as [y Hy]. unfold find_nexus_. rewrite (see_next st w l), (see_nexus st w l) by (done || by apply R). cbn -[find_loop]. rewrite Hy. cbn -[find_loop].
  apply elem_of_app in Hl as [Hl| ->%list_elem_of_singleton]; [|by rewrite (rg_last _ _ _ _ R)]. rewrite (rg_inner _ _ _ _ R l Hl). apply list_elem_of_split in Hl as (P & Q & ->).
  pose proof (rg_nodup _ _ _ _ R) as HN. pose proof (rg_follows _ _ _ _ R) as HF. rewrite <- app_assoc in HF, HN. cbn in HF, HN. apply follows_app in HF as [_ HF]. apply list.NoDup_app in HN as (_ & _ & HN).
  assert (y = first Q a /\ follows (nx w) (Q ++ [a])) as [-> HQ] by (destruct Q; cbn in HF |- *; destruct HF as [HF ?]; rewrite Hy in HF; injection HF as ->; done).
  assert (HA : forall x, x ∈ Q ++ [a] -> al w x = true) by (intros x Hx; apply R; set_solver).
  apply list.NoDup_cons in HN as [Hlq HN]. apply (find_loop_sees st w n l Q a); [done|apply R|done|done|intros x Hx; apply R; set_solver|done|]. destruct H as (_ & _ & _ & _ & H). specialize (H (Q ++ [a]) HN HA). rewrite length_app in H. cbn in H. lia.
Qed.

(** ** Classes are joined *)

(** One class is new, the others and their pointers stay. *)
Lemma rep_replace w w' G G' n A a : rep w G -> nring w' n A a -> G' !! n = Some (A ++ [a]) ->
  (forall k L, k <> n -> G' !! k = Some L -> G !! k = Some L /\ ls w' k = ls w k /\ forall x, x ∈ L -> x ∉ A ++ [a] /\ nx w' x = nx w x /\ ne w' x = ne w x /\ al w' x = al w x) ->
  (forall k, G' !! k = None -> ls w' k = None) -> (forall l, (forall k L, G' !! k = Some L -> l ∉ L) -> nx w' l = None /\ ne w' l = None) ->
  (forall k, (fr w' <= k)%nat -> G' !! k = None) -> rep w' G'.
Proof.
  intros H R Hn Ho Hls Hfree Hfr. split; [| |intros k m L M l Hk Hm Hl Hl'|done|done].
  - intros k L Hk. destruct (decide (k = n)) as [->|Hkn]; [exists A, a; split; [congruence|done]|]. destruct (Ho k L Hkn Hk) as (Hk' & Hl & HF). destruct (rp_ring _ _ H k L Hk') as (B & b & -> & RB).
    exists B, b. split; [done|]. eapply ring_frame; [done|done|]. intros x Hx. by apply HF.
  - done.
  - destruct (decide (k = n)) as [->|Hkn], (decide (m = n)) as [->|Hmn]; [done|..].
    + destruct (Ho m M Hmn Hm) as (_ & _ & HF). destruct (HF l Hl') as [Hnot _]. congruence.
    + destruct (Ho k L Hkn Hk) as (_ & _ & HF). destruct (HF l Hl) as [Hnot _]. congruence.
    + destruct (Ho k L Hkn Hk) as (Hk' & _). destruct (Ho m M Hmn Hm) as (Hm' & _). by apply (rp_disjoint _ _ H k m L M l).
Qed.

Lemma ring_join w w' n A a B b : nring w n A a -> NoDup (B ++ [b]) -> (forall x, x ∈ B ++ [b] -> x ∉ A ++ [a]) -> (forall x, x ∈ B ++ [b] -> al w x = true) -> follows (nx w) (B ++ [b]) -> (forall x, x ∈ B -> ne w x = None) ->
  (forall k, al w' k = al w k) -> (forall k, nx w' k = if decide (k = b) then Some (first A a) else if decide (k = a) then Some (first B b) else nx w k) ->
  (forall k, ne w' k = if decide (k = b) then Some n else if decide (k = a) then None else ne w k) -> ls w' n = Some (Some b) -> nring w' n (A ++ a :: B) b.
Proof.
  intros [N1 A1 F1 C1 I1 L1 S1] NB DB AB FB IB Ha Hn Hx Hl. pose proof N1 as N1'. apply list.NoDup_app in N1' as (NA & HA & _). pose proof NB as NB'. apply list.NoDup_app in NB' as (NB' & HB & _).
  assert (HaA : a ∉ A) by (intros Hin; apply (HA a Hin); set_solver). assert (HbB : b ∉ B) by (intros Hin; apply (HB b Hin); set_solver). assert (Hab : b ∉ A ++ [a]) by (apply DB; set_solver).
  assert (EL : (A ++ a :: B) ++ [b] = (A ++ [a]) ++ (B ++ [b])) by (by rewrite <- !app_assoc). split.
  - rewrite EL. apply list.NoDup_app. split; [done|]. split; [|done]. intros x H1 H2. by apply (DB x).
  - intros x. rewrite EL, Ha. intros [Hin|Hin]%elem_of_app; auto.
  - rewrite <- app_assoc. cbn. apply follows_app. split.
    + apply (follows_ext _ (nx w)); [|done]. intros x Hin. rewrite Hn. rewrite !decide_False; [done|by intros ->|intros ->; set_solver].
    + assert (FB' : follows (nx w') (B ++ [b])) by (apply (follows_ext _ (nx w)); [|done]; intros x Hin; rewrite Hn; rewrite !decide_False; [done|intros ->; apply (DB a); set_solver|by intros ->]).
      assert (Ea : nx w' a = Some (first B b)) by (rewrite Hn; rewrite decide_False by set_solver; by rewrite decide_True). destruct B; by split.
  - rewrite Hn, decide_True by done. by destruct A.
  - intros x [Hin|[->|Hin]%elem_of_cons]%elem_of_app; rewrite Hx.
    + rewrite !decide_False; [auto|by intros ->|intros ->; set_solver].
    + rewrite decide_False by set_solver. by rewrite decide_True.
    + rewrite !decide_False; [auto|intros ->; apply (DB a); set_solver|by intros ->].
  - by rewrite Hx, decide_True.
  - done.
Qed.

(** The store stands for the classes [G] of the links [D]. *)
Definition stands (st : netlist) (D : gset nat) (G : gmap nat (list nat)) : Prop := exists w, sees st w /\ rep w G /\ forall k, al w k = bool_decide (k ∈ D).

Ltac run_step L := let st' := fresh "st" in let E := fresh "E" in let Hs := fresh "Hs" in
  edestruct L as (st' & E & Hs); [eassumption|..|rewrite E; cbn [mbind option_bind]].

Lemma rep_list w G n A a : rep w G -> G !! n = Some (A ++ [a]) -> nring w n A a.
Proof. intros H Hn. destruct (rp_ring _ _ H n _ Hn) as (B & b & E & R). by apply app_inj_tail in E as [-> ->]. Qed.

Lemma connect_join st D G n m A a B b r : stands st D G -> G !! n = Some (A ++ [a]) -> G !! m = Some (B ++ [b]) -> n <> m -> r ∈ B ++ [b] ->
  exists st', nexus_connect n r st = Some st' /\ stands st' D (<[n := (A ++ a :: B) ++ [b]]> (delete m G)).
Proof.
  intros (w & Hw & HR & HD) Hn Hm Hnm Hr. pose proof (rep_list w G n A a HR Hn) as RA. pose proof (rep_list w G m B b HR Hm) as RB. destruct (ring_next w m B b r RB Hr) as [y Hy].
  pose proof (rg_list _ _ _ _ RA) as LA. pose proof (rg_list _ _ _ _ RB) as LB. pose proof (rg_close _ _ _ _ RA) as CA. pose proof (rg_close _ _ _ _ RB) as CB.
  assert (Hdis : forall x, x ∈ B ++ [b] -> x ∉ A ++ [a]) by (intros x H1 H2; apply Hnm; by eapply (rp_disjoint _ _ HR)).
  assert (Aa : al w a = true) by (apply RA; set_solver). assert (Ab : al w b = true) by (apply RB; set_solver). assert (Hab : b <> a) by (intros ->; apply (Hdis a); set_solver).
  unfold nexus_connect. rewrite (see_next st w r) by (done || by apply RB). cbn [mbind option_bind]. rewrite Hy, (find_nexus_sees st w m B b r) by done. cbn [mbind option_bind]. rewrite decide_False by congruence.
  run_step set_name_sees; [by rewrite LA|]. erewrite see_list by eassumption. rewrite LA. cbn [mbind option_bind].
  destruct (see_driven _ w m Hs) as [d Ed]; [by rewrite LB|]. rewrite Ed. cbn [mbind option_bind]. run_step (may_drive_sees (d = Vz_GUESS)); [by rewrite LA|].
  rewrite (see_next _ w a) by done. cbn [mbind option_bind]. erewrite see_list by eassumption. rewrite LB. cbn [mbind option_bind]. rewrite (see_next _ w b) by done. cbn [mbind option_bind]. rewrite CA, CB.
  run_step set_next_sees; [done|]. run_step set_next_sees; [done|]. run_step set_nexus_sees; [done|]. run_step set_list_sees; [cbn; by rewrite LA|]. run_step set_nexus_sees; [done|].
  run_step set_list_sees; [cbn; unfold upd; destruct (decide (m = n)); [done|by rewrite LB]|].
  edestruct nexus_delete_sees as (st' & E' & Hs'); [eassumption|cbn; unfold upd; by rewrite decide_True|]. exists st'. split; [done|]. eexists. split; [exact Hs'|]. split; [|done].
  eapply (rep_replace w _ G _ n (A ++ a :: B) b); [done| |by rewrite lookup_insert_eq|..].
  - eapply (ring_join w _ n A a B b); [done|apply RB|done|apply RB|apply RB|apply RB|done|intros k..|]; cbn; unfold upd; [done|by destruct (decide (k = b))|].
    by rewrite decide_False, decide_False, decide_True by done.
  - intros k L Hk. rewrite lookup_insert_ne by done. intros [Hkm HL]%lookup_delete_Some. split; [done|]. split; [cbn; unfold upd; by rewrite !decide_False by done|]. intros x Hx.
    assert (Hx1 : x ∉ A ++ [a]) by (intros Hin; apply Hk; by eapply (rp_disjoint _ _ HR)). assert (Hx2 : x ∉ B ++ [b]) by (intros Hin; apply Hkm; by eapply (rp_disjoint _ _ HR)).
    split; [set_solver|]. cbn. unfold upd. by rewrite !decide_False by set_solver.
  - intros k. destruct (decide (k = n)) as [->|Hk]; [by rewrite lookup_insert_eq|]. rewrite lookup_insert_ne by done. intros [->|HL]%lookup_delete_None; cbn; unfold upd; [by rewrite decide_True|]. destruct (decide (k = m)); [done|]. rewrite decide_False by done. by apply HR.
  - intros l Hl. assert (Hl1 : l ∉ (A ++ a :: B) ++ [b]) by (apply (Hl n); by rewrite lookup_insert_eq). cbn. unfold upd. rewrite !decide_False by set_solver. apply HR. intros k L HL Hin.
    destruct (decide (k = n)) as [->|Hkn]; [rewrite Hn in HL; injection HL as <-; set_solver|]. destruct (decide (k = m)) as [->|Hkm]; [rewrite Hm in HL; injection HL as <-; set_solver|].
    apply (Hl k L); [|done]. by rewrite lookup_insert_ne, lookup_delete_ne.
  - intros k Hk. cbn in Hk. pose proof (rp_fresh _ _ HR k Hk). assert (k <> n) by congruence. rewrite lookup_insert_ne by done. by apply lookup_delete_None; right.
Qed.

(** No class has the link. *)
Definition loose (G : gmap nat (list nat)) (l : nat) : Prop := forall n L, G !! n = Some L -> l ∉ L.

Lemma connect_append st D G n A a r : stands st D G -> G !! n = Some (A ++ [a]) -> loose G r -> r ∈ D ->
  exists st', nexus_connect n r st = Some st' /\ stands st' D (<[n := (A ++ [a]) ++ [r]]> G).
Proof.
  intros (w & Hw & HR & HD) Hn Hr Hrd. pose proof (rep_list w G n A a HR Hn) as RA. destruct (rp_free _ _ HR r Hr) as [Fn Fe]. pose proof (rg_list _ _ _ _ RA) as LA. pose proof (rg_close _ _ _ _ RA) as CA.
  assert (Hra : r ∉ A ++ [a]) by by apply (Hr n). assert (Aa : al w a = true) by (apply RA; set_solver). assert (Ar : al w r = true) by (rewrite HD; by apply bool_decide_eq_true_2).
  unfold nexus_connect. rewrite (see_next st w r) by done. cbn [mbind option_bind]. rewrite Fn. cbn [mbind option_bind]. rewrite decide_False by done.
  run_step set_name_sees; [by rewrite LA|]. erewrite see_list by eassumption. rewrite LA. cbn [mbind option_bind].
  destruct (see_dir _ w r Hs Ar) as [d Ed]. rewrite Ed. cbn [mbind option_bind]. run_step (may_drive_sees (d = INPUT)); [by rewrite LA|].
  run_step set_nexus_sees; [done|]. erewrite see_next by (eassumption || done). cbn [mbind option_bind]. cbn [nx w_nexus]. rewrite CA.
  run_step set_next_sees; [done|]. run_step set_next_sees; [done|]. run_step set_nexus_sees; [done|]. edestruct set_list_sees as (st' & E' & Hs'); [eassumption|cbn; by rewrite LA|]. exists st'. split; [done|]. eexists. split; [exact Hs'|]. split; [|done].
  rewrite <- app_assoc. cbn [app]. change (A ++ [a; r]) with (A ++ [a] ++ [r]). rewrite app_assoc.
  eapply (rep_replace w _ G _ n (A ++ [a]) r); [done| |by rewrite lookup_insert_eq|..].
  - eapply (ring_join w _ n A a [] r); [done|repeat constructor; set_solver|set_solver|intros x ->%list_elem_of_singleton; done|done|set_solver|done|intros k..|]; cbn; unfold upd.
    + destruct (decide (k = a)), (decide (k = r)); try done. set_solver.
    + destruct (decide (k = a)), (decide (k = r)); try done. set_solver.
    + by rewrite decide_True.
  - intros k L Hk. rewrite lookup_insert_ne by done. intros HL. split; [done|]. split; [cbn; unfold upd; by rewrite decide_False by done|]. intros x Hx.
    assert (Hx1 : x ∉ A ++ [a]) by (intros Hin; apply Hk; by eapply (rp_disjoint _ _ HR)). assert (Hx2 : x <> r) by (intros ->; by apply (Hr k L)). split; [set_solver|]. cbn. unfold upd. by rewrite !decide_False by set_solver.
  - intros k. destruct (decide (k = n)) as [->|Hk]; [by rewrite lookup_insert_eq|]. rewrite lookup_insert_ne by done. intros HL. cbn. unfold upd. rewrite decide_False by done. by apply HR.
  - intros l Hl. assert (Hl1 : l ∉ (A ++ [a]) ++ [r]) by (apply (Hl n); by rewrite lookup_insert_eq). cbn. unfold upd. rewrite !decide_False by set_solver. apply HR. intros k L HL Hin.
    destruct (decide (k = n)) as [->|Hkn]; [rewrite Hn in HL; injection HL as <-; set_solver|]. apply (Hl k L); [|done]. by rewrite lookup_insert_ne.
  - intros k Hk. cbn in Hk. pose proof (rp_fresh _ _ HR k Hk). assert (k <> n) by congruence. by rewrite lookup_insert_ne.
Qed.

(** A link starts a class of its own. *)
Lemma start_class st D G l : stands st D G -> loose G l -> l ∈ D ->
  exists st', nexus_new l st = Some (fresh st, st') /\ G !! fresh st = None /\ stands st' D (<[fresh st := [l]]> G).
Proof.
  intros (w & Hw & HR & HD) Hl Hld. destruct (rp_free _ _ HR l Hl) as [Fn Fe]. assert (Al : al w l = true) by (rewrite HD; by apply bool_decide_eq_true_2). unfold nexus_new.
  pose proof Hw as (W1 & W2 & W3 & W4 & W5). set (n := fresh st). assert (HGn : G !! n = None) by (apply HR; unfold n; rewrite W4; lia).
  assert (H0 : sees (mkNetlist (links st) (<[n := mkNexus None NO_GUESS false]> (nexuses st)) (S n)) (mkView (nx w) (ne w) (upd (ls w) n (Some None)) (al w) (S n))).
  { split_and!; cbn; try done. intros k. unfold get_list, upd. cbn. destruct (decide (k = n)) as [->|Hk]; [by rewrite lookup_insert_eq|]. rewrite lookup_insert_ne by done. apply W3. }
  rewrite (see_next _ _ l H0) by done. cbn [mbind option_bind nx]. rewrite Fn. cbn [mbind option_bind].
  run_step set_list_sees; [cbn; unfold upd; by rewrite decide_True|]. run_step set_next_sees; [done|]. run_step set_nexus_sees; [done|].
  destruct (set_driven_sees _ _ n NO_GUESS Hs1) as (st' & E' & Hs'); [cbn; unfold upd; by rewrite decide_True|]. rewrite E'. cbn [mbind option_bind]. exists st'. split; [done|]. split; [done|]. eexists. split; [exact Hs'|]. split; [|done].
  eapply (rep_replace w _ G _ n [] l); [done| |by rewrite lookup_insert_eq|..].
  - split; cbn; unfold upd; try done; try (by rewrite decide_True); [repeat constructor; set_solver|intros x ->%list_elem_of_singleton; done|set_solver].
  - intros k L Hk. rewrite lookup_insert_ne by done. intros HL. split; [done|]. split; [cbn; unfold upd; by rewrite !decide_False by done|]. intros x Hx. assert (x <> l) by (intros ->; by apply (Hl k L)). split; [set_solver|]. cbn. unfold upd. by rewrite !decide_False.
  - intros k. destruct (decide (k = n)) as [->|Hk]; [by rewrite lookup_insert_eq|]. rewrite lookup_insert_ne by done. intros HL. cbn. unfold upd. rewrite !decide_False by done. by apply HR.
  - intros k Hk. assert (k <> l) by (intros ->; apply (Hk n [l]); [by rewrite lookup_insert_eq|by left]). cbn. unfold upd. rewrite !decide_False by done. apply HR. intros m L HL. destruct (decide (m = n)) as [->|]; [congruence|]. apply (Hk m). by rewrite lookup_insert_ne.
  - intros k. cbn. intros Hk. rewrite lookup_insert_ne by lia. apply HR. unfold n in Hk. rewrite W4 in Hk. lia.
Qed.

(** ** The class of a link *)

Definition class_of (G : gmap nat (list nat)) (l : nat) : option (nat * list nat) := List.find (fun p => bool_decide (l ∈ snd p)) (map_to_list G).

Lemma class_of_some G l n L : class_of G l = Some (n, L) -> G !! n = Some L /\ l ∈ L.
Proof. intros [Hin Hl]%find_some. apply list_elem_of_In, elem_of_map_to_list in Hin. by apply bool_decide_eq_true in Hl. Qed.

Lemma class_of_none G l : class_of G l = None -> loose G l.
Proof.
  intros E n L HL Hin. apply elem_of_map_to_list, list_elem_of_In in HL. pose proof (find_none _ _ E _ HL) as HF. apply bool_decide_eq_false in HF. done.
Qed.

Lemma class_of_is w G l n L : rep w G -> G !! n = Some L -> l ∈ L -> class_of G l = Some (n, L).
Proof.
  intros HR HL Hin. destruct (class_of G l) as [[m M]|] eqn:E; [|by destruct (class_of_none G l E n L HL)]. apply class_of_some in E as [HM HinM]. assert (m = n) as -> by by apply (rp_disjoint _ _ HR m n M L l). congruence.
Qed.

(** What [connect] makes of the classes; [n] names the class that it may start. *)
Definition join_classes (n l r : nat) (G : gmap nat (list nat)) : gmap nat (list nat) :=
  match class_of G l, class_of G r with
  | Some (c, A), Some (d, B) => if decide (c = d) then G else <[c := A ++ B]> (delete d G)
  | Some (c, A), None => <[c := A ++ [r]]> G
  | None, Some (d, B) => <[d := B ++ [l]]> G
  | None, None => <[n := [l; r]]> G
  end.

Lemma loose_find st w G l : sees st w -> rep w G -> loose G l -> al w l = true -> get_next l st = Some None.
Proof. intros Hw HR Hl Ha. rewrite (see_next st w l) by done. f_equal. by apply (rp_free _ _ HR l). Qed.

Lemma class_find st w G l n L : sees st w -> rep w G -> G !! n = Some L -> l ∈ L -> exists y, get_next l st = Some (Some y) /\ find_nexus_ l st = Some (Some n).
Proof.
  intros Hw HR HL Hl. destruct (rp_ring _ _ HR n L HL) as (A & a & -> & R). destruct (ring_next w n A a l R Hl) as [y Hy]. exists y.
  split; [rewrite (see_next st w l); [by rewrite Hy|done|by apply R]|by eapply find_nexus_sees].
Qed.

Lemma connect_ok st D G l r : stands st D G -> l <> r -> l ∈ D -> r ∈ D -> exists st', connect l r st = Some st' /\ stands st' D (join_classes (fresh st) l r G).
Proof.
  intros HS Hlr Hl Hr. pose proof HS as (w & Hw & HR & HD). assert (Al : al w l = true) by (rewrite HD; by apply bool_decide_eq_true_2). assert (Ar : al w r = true) by (rewrite HD; by apply bool_decide_eq_true_2).
  unfold connect, join_classes. rewrite bool_decide_eq_true_2 by done. cbn [assert_that mbind option_bind]. destruct (class_of G l) as [[n L]|] eqn:El; [apply class_of_some in El as [HL HlL]|apply class_of_none in El].
  - destruct (class_find st w G l n L) as (y & -> & ->); try done. cbn [mbind option_bind]. destruct (rp_ring _ _ HR n L HL) as (A & a & -> & RA). destruct (class_of G r) as [[m M]|] eqn:Er; [apply class_of_some in Er as [HM HrM]|apply class_of_none in Er].
    + destruct (decide (n = m)) as [<-|Hnm].
      * exists st. split; [|done]. unfold nexus_connect. destruct (class_find st w G r n M) as (z & -> & ->); try done. cbn [mbind option_bind]. by rewrite decide_True.
      * destruct (rp_ring _ _ HR m M HM) as (B & b & -> & RB). destruct (connect_join st D G n m A a B b r) as (st' & E' & HS'); try done. exists st'. split; [done|]. by rewrite <- app_assoc in HS' |- *.
    + by apply connect_append.
  - rewrite (loose_find st w G l) by done. cbn [mbind option_bind]. destruct (class_of G r) as [[m M]|] eqn:Er; [apply class_of_some in Er as [HM HrM]|apply class_of_none in Er].
    + destruct (class_find st w G r m M) as (y & -> & ->); try done. cbn [mbind option_bind]. destruct (rp_ring _ _ HR m M HM) as (B & b & -> & RB). by apply connect_append.
    + rewrite (loose_find st w G r) by done. cbn [mbind option_bind]. destruct (start_class st D G l) as (st1 & E1 & HGn & HS1); try done. rewrite E1. cbn [mbind option_bind].
      destruct (connect_append st1 D (<[fresh st := [l]]> G) (fresh st) [] l r) as (st' & E' & HS'); [done|by rewrite lookup_insert_eq| |done|].
      * intros n L. destruct (decide (n = fresh st)) as [->|Hn]; [rewrite lookup_insert_eq; intros [= <-]; set_solver|]. rewrite lookup_insert_ne by done. apply Er.
      * exists st'. split; [done|]. by rewrite insert_insert_eq in HS'.
Qed.

(** ** A link is taken out *)

Definition take_out (x : nat) (L : list nat) : list nat := filter (fun y => y <> x) L.

Lemma take_out_split x P Q : NoDup (P ++ x :: Q) -> take_out x (P ++ x :: Q) = P ++ Q.
Proof.
  intros (HP & HPQ & [HxQ HQ]%list.NoDup_cons)%list.NoDup_app. unfold take_out. rewrite list.filter_app, filter_cons_False by (intros HN; by apply HN).
  assert (HF : forall M : list nat, x ∉ M -> filter (fun y => y <> x) M = M).
  { induction M as [|y M IH]; intros HM; [done|]. rewrite filter_cons_True by (intros ->; apply HM; by left). f_equal. apply IH. intros Hin. apply HM. by right. }
  rewrite !HF; [done|done|]. intros Hin. apply (HPQ x Hin). by left.
Qed.

Fixpoint last_from (x : nat) (R : list nat) : nat := match R with [] => x | y :: R => last_from y R end.
Lemma last_from_snoc R : forall x y, last_from x (R ++ [y]) = y.
Proof. induction R as [|z R IH]; intros x y; [done|]. apply IH. Qed.

Lemma find_prev_sees st w that : sees st w -> forall R fuel prev, follows (nx w) (prev :: R ++ [that]) -> (forall x, x ∈ prev :: R -> al w x = true) -> that ∉ R -> (length R < fuel)%nat ->
  find_prev fuel prev that st = Some (last_from prev R).
Proof.
  intros H. induction R as [|x R IH]; intros [|fuel] prev HF HA Hn Hlen; cbn in Hlen; try lia; cbn [find_prev]; rewrite (see_next st w prev) by (done || apply HA; by left); cbn [mbind option_bind].
  - destruct HF as [-> _]. cbn [mbind option_bind]. by rewrite decide_True.
  - assert (HF' : nx w prev = Some x /\ follows (nx w) (x :: R ++ [that])) by exact HF. destruct HF' as [-> HF']. cbn [mbind option_bind]. rewrite decide_False by set_solver.
    rewrite (IH fuel x); [done|done|intros y Hy; apply HA; by right|set_solver|lia].
Qed.

Lemma ring_prev st w n A a P x Q : sees st w -> nring w n A a -> A ++ [a] = P ++ x :: Q -> find_prev (S (size (links st))) a x st = Some (last_from a P).
Proof.
  intros H R E. pose proof (rg_nodup _ _ _ _ R) as HN. pose proof HN as HN'. rewrite E in HN'. apply list.NoDup_app in HN' as (_ & HPx & _).
  assert (HLen : (length (A ++ [a]) <= size (links st))%nat) by (destruct H as (_ & _ & _ & _ & H); apply H; [done|by apply R]).
  apply (find_prev_sees st w x H).
  - pose proof (rg_follows _ _ _ _ R) as HF. rewrite E in HF. apply follows_app in HF as [HF _]. pose proof (rg_close _ _ _ _ R) as HC.
    assert (EF : first A a = first P x) by (destruct A, P; cbn in E |- *; congruence). rewrite EF in HC. by destruct P.
  - intros y [->|Hy]%elem_of_cons; apply R; [set_solver|rewrite E; set_solver].
  - intros Hin. apply (HPx x Hin). by left.
  - rewrite E, length_app in HLen. cbn in HLen. lia.
Qed.

Lemma is_linked_ring st w n A a l : sees st w -> nring w n A a -> l ∈ A ++ [a] -> is_linked l st = Some (match A with [] => false | _ => true end).
Proof.
  intros H R Hl. unfold is_linked. rewrite (see_next st w l) by (done || by apply R). cbn. f_equal. pose proof (rg_nodup _ _ _ _ R) as HN. apply elem_of_app in Hl as [Hl| ->%list_elem_of_singleton].
  - pose proof (rg_follows _ _ _ _ R) as HF. destruct A as [|z A']; [by apply elem_of_nil in Hl|]. remember (z :: A') as A eqn:EA. apply list_elem_of_split in Hl as (P & Q & ->). rewrite <- app_assoc in HF, HN. cbn in HF, HN.
    apply follows_app in HF as [_ HF]. apply list.NoDup_app in HN as (_ & _ & [HN _]%list.NoDup_cons). assert (nx w l = Some (first Q a)) as -> by (destruct Q; apply HF). rewrite bool_decide_eq_false_2; [done|]. intros <-. apply HN. destruct Q; set_solver.
  - rewrite (rg_close _ _ _ _ R). destruct A as [|z A]; cbn; [by rewrite bool_decide_eq_true_2|]. rewrite bool_decide_eq_false_2; [done|]. intros ->. apply list.NoDup_app in HN as (_ & HN & _). by apply (HN a); [left|left].
Qed.

(** The new ring, by its pointers: the link before [x] takes over where [x] pointed to. *)
Lemma ring_without w w' n A a P x Q : nring w n A a -> A ++ [a] = P ++ x :: Q -> P ++ Q <> [] -> (forall k, al w' k = al w k) ->
  (forall k, nx w' k = if decide (k = x) then None else if decide (k = last_from a P) then nx w x else nx w k) ->
  (forall k, ne w' k = if decide (k = x) then None else if decide (k = last_from a P /\ x = a) then Some n else ne w k) ->
  ls w' n = (if decide (x = a) then Some (Some (last_from a P)) else ls w n) -> exists B b, P ++ Q = B ++ [b] /\ nring w' n B b.
Proof.
  intros [N1 A1 F1 C1 I1 L1 S1] EA HPQ Ha Hn He Hl. pose proof N1 as N. rewrite EA in N. apply list.NoDup_app in N as (NP & HPxQ & [HxQ NQ]%list.NoDup_cons).
  assert (HxP : x ∉ P) by (intros Hin; apply (HPxQ x Hin); by left). assert (HPd : forall y, y ∈ P -> y ∉ Q) by (intros y H1 H2; apply (HPxQ y H1); by right). assert (NPQ : NoDup (P ++ Q)) by (apply list.NoDup_app; by split_and!).
  assert (AlPQ : forall y, y ∈ P ++ Q -> al w' y = true) by (intros y Hy; rewrite Ha; apply A1; rewrite EA; set_solver).
  pose proof F1 as F. rewrite EA in F. apply follows_app in F as [FP FQ]. destruct Q as [|b Q _] using rev_ind.
  - apply app_inj_tail in EA as [<- <-]. destruct A as [|z A _] using rev_ind; [done|]. rewrite app_nil_r in *. exists A, z. split; [done|]. rewrite last_from_snoc in *. apply list.NoDup_app in NP as (NA & HAz & _).
    assert (HzA : z ∉ A) by (intros Hin; apply (HAz z Hin); by left). assert (Hza : z <> a) by set_solver. split.
    + done.
    + done.
    + apply (follows_ext _ (nx w)); [|by rewrite <- app_assoc in FP; apply follows_app in FP as [? _]]. intros y Hy. rewrite Hn, !decide_False by set_solver. done.
    + rewrite Hn, decide_False, decide_True by done. rewrite C1. by destruct A.
    + intros y Hy. rewrite He, !decide_False by set_solver. apply I1. set_solver.
    + by rewrite He, decide_False, decide_True by done.
    + by rewrite Hl, decide_True.
  - rewrite app_comm_cons, app_assoc in EA. apply app_inj_tail in EA as [-> <-]. exists (P ++ Q), a. rewrite app_assoc. split; [done|]. assert (Hxa : x <> a) by set_solver. assert (HaP : a ∉ P) by (intros Hin; apply (HPd a Hin); set_solver).
    assert (Enx : nx w x = Some (first Q a)) by (destruct Q; apply FQ). assert (FQ' : follows (nx w) (Q ++ [a])) by (destruct Q; [done|apply FQ]).
    assert (FQw : follows (nx w') (Q ++ [a])) by (apply (follows_ext _ (nx w)); [|done]; intros y Hy; rewrite Hn, !decide_False; [done| |set_solver]; destruct P as [|p P _] using rev_ind; cbn; [intros ->; apply list.NoDup_app in NQ as (_ & NQ & _); by apply (NQ a Hy); left|rewrite last_from_snoc; intros ->; apply (HPd p); set_solver]).
    rewrite app_assoc in NPQ, AlPQ. split; [done|done| | | | |].
    + rewrite <- app_assoc. destruct P as [|p P _] using rev_ind; [done|]. rewrite last_from_snoc in Hn. rewrite <- app_assoc. cbn [app].
      assert (Hp : nx w' p = Some (first Q a)) by (rewrite Hn, decide_False, decide_True by set_solver; done).
      apply follows_app. split; [|by destruct Q; split]. rewrite <- app_assoc in FP. cbn in FP. apply follows_app in FP as [FP _]. apply (follows_ext _ (nx w)); [|done].
      intros y Hy. rewrite Hn, !decide_False; [done| |set_solver]. intros ->. apply list.NoDup_app in NP as (_ & NP & _). by apply (NP p Hy); left.
    + destruct P as [|p P _] using rev_ind; [by rewrite Hn, decide_False, decide_True by done|]. rewrite last_from_snoc in Hn. rewrite Hn, !decide_False by set_solver. rewrite C1. by destruct P.
    + intros y Hy. rewrite He, !decide_False; [apply I1; set_solver|by intros [_ ?]|set_solver].
    + rewrite He, !decide_False; [done|by intros [_ ?]|done].
    + by rewrite Hl, decide_False.
Qed.

Lemma rep_shrink w w' G n A a P x Q : rep w G -> G !! n = Some (A ++ [a]) -> A ++ [a] = P ++ x :: Q -> (exists B b, P ++ Q = B ++ [b] /\ nring w' n B b) ->
  (forall k, k ∉ A ++ [a] -> nx w' k = nx w k /\ ne w' k = ne w k) -> (forall k, al w' k = al w k) -> nx w' x = None -> ne w' x = None -> (forall k, k <> n -> ls w' k = ls w k) -> fr w' = fr w -> rep w' (<[n := P ++ Q]> G).
Proof.
  intros HR Hn EA (B & b & EB & RB) Ho Hal Hnx Hne Hls Hfr. eapply (rep_replace w w' G _ n B b); [done|done|by rewrite lookup_insert_eq, EB|..].
  - intros k L Hk. rewrite lookup_insert_ne by done. intros HL. split; [done|]. split; [by apply Hls|]. intros y Hy. assert (Hy1 : y ∉ A ++ [a]) by (intros Hin; apply Hk; by eapply (rp_disjoint _ _ HR)).
    rewrite <- EB. split; [rewrite EA in Hy1; set_solver|]. destruct (Ho y Hy1) as [-> ->]. done.
  - intros k. destruct (decide (k = n)) as [->|Hk]; [by rewrite lookup_insert_eq|]. rewrite lookup_insert_ne by done. intros HL. rewrite Hls by done. by apply HR.
  - intros l Hl. destruct (decide (l = x)) as [->|Hlx]; [done|]. assert (HlA : l ∉ A ++ [a]) by (rewrite EA; assert (l ∉ P ++ Q) by (apply (Hl n); by rewrite lookup_insert_eq); set_solver). destruct (Ho l HlA) as [-> ->]. apply HR.
    intros k L HL. destruct (decide (k = n)) as [->|Hkn]; [congruence|]. apply (Hl k). by rewrite lookup_insert_ne.
  - intros k. rewrite Hfr. intros Hk. pose proof (rp_fresh _ _ HR k Hk). assert (k <> n) by congruence. by rewrite lookup_insert_ne.
Qed.

Lemma unlink_ring st D G n A a P x Q : stands st D G -> G !! n = Some (A ++ [a]) -> A ++ [a] = P ++ x :: Q -> A <> [] ->
  exists st', nexus_unlink n x st = Some st' /\ stands st' D (<[n := P ++ Q]> G).
Proof.
  intros (w & Hw & HR & HD) Hn EA HA. pose proof (rep_list w G n A a HR Hn) as R. assert (Hx : x ∈ A ++ [a]) by (rewrite EA; set_solver). pose proof (rg_list _ _ _ _ R) as LA.
  assert (Ax : al w x = true) by by apply R. destruct (ring_next w n A a x R Hx) as [y Hy].
  assert (HPQ : P ++ Q <> []) by (intros E; apply (f_equal length) in EA; rewrite !length_app in EA; apply (f_equal length) in E; rewrite length_app in E; cbn in *; destruct A; [done|cbn in *; lia]).
  assert (Hyx : y <> x) by (intros ->; pose proof (is_linked_ring st w n A a x Hw R Hx) as HL; unfold is_linked in HL; rewrite (see_next st w x), Hy in HL by done; cbn in HL; rewrite bool_decide_eq_true_2 in HL by done; destruct A; [done|discriminate]).
  assert (Ap : al w (last_from a P) = true) by (destruct P as [|p P _] using rev_ind; [apply R; set_solver|rewrite last_from_snoc; apply R; rewrite EA; set_solver]).
  assert (Hpx : last_from a P <> x \/ P = []).
  { destruct P as [|p P _] using rev_ind; [by right|left]. rewrite last_from_snoc. intros ->. pose proof (rg_nodup _ _ _ _ R) as HN. rewrite EA in HN. apply list.NoDup_app in HN as (_ & HN & _). apply (HN x); [set_solver|left]. }
  assert (Hax : P = [] -> a <> x).
  { intros -> ->. destruct A as [|z A]; [done|]. cbn in EA. injection EA as -> EA. pose proof (rg_nodup _ _ _ _ R) as HN. cbn in HN. apply list.NoDup_cons in HN as [HN _]. set_solver. }
  assert (Hpx' : last_from a P <> x) by (destruct Hpx as [|HP]; [done|]; rewrite HP; by apply Hax). clear Hpx Hax.
  unfold nexus_unlink. run_step set_name_sees; [by rewrite LA|]. rewrite (see_next _ w x), (see_nexus _ w x) by done. cbn [mbind option_bind]. rewrite (see_list _ w n), LA, Hy by done. cbn [mbind option_bind]. rewrite decide_False by congruence.
  destruct (see_dir _ w x Hs Ax) as [d Ed]. rewrite Ed. cbn [mbind option_bind]. run_step (may_drive_sees (d = INPUT)); [by rewrite LA|].
  rewrite (ring_prev _ w n A a P x Q) by done. cbn [mbind option_bind]. run_step set_next_sees; [done|]. destruct (decide (x = a)) as [->|Hxa].
  - rewrite decide_True by done. rewrite (rg_last _ _ _ _ R), bool_decide_eq_true_2 by done. cbn [assert_that mbind option_bind]. run_step set_list_sees; [cbn; by rewrite LA|]. run_step set_nexus_sees; [done|]. run_step set_nexus_sees; [done|].
    edestruct set_next_sees with (l := a) (v := @None nat) as (st' & E' & Hs'); [eassumption|done|]. exists st'. split; [done|]. eexists. split; [exact Hs'|]. split; [|done].
    eapply (rep_shrink w _ G n A a P a Q); [done|done|done| | |done|cbn; unfold upd; by rewrite decide_True|cbn; unfold upd; by rewrite decide_True|cbn; unfold upd; intros k Hk; by rewrite decide_False|done].
    + eapply (ring_without w _ n A a P a Q); [done|done|done|done| | |cbn; unfold upd; by rewrite !decide_True]; cbn; unfold upd; intros k.
      * rewrite Hy. done.
      * destruct (decide (k = a)); [done|]. destruct (decide (k = last_from a P)) as [Hk|Hk]; [by rewrite decide_True|]. rewrite decide_False; [done|]. by intros [? _].
    + intros k Hk. assert (k <> a) by set_solver. assert (k <> last_from a P) by (intros ->; apply Hk; destruct P as [|p P _] using rev_ind; [cbn; set_solver|rewrite last_from_snoc, EA; set_solver]). cbn. unfold upd. by rewrite !decide_False.
  - rewrite decide_False by congruence. cbn [mbind option_bind]. run_step set_nexus_sees; [done|]. edestruct set_next_sees with (l := x) (v := @None nat) as (st' & E' & Hs'); [eassumption|done|]. exists st'. split; [done|]. eexists. split; [exact Hs'|]. split; [|done].
    eapply (rep_shrink w _ G n A a P x Q); [done|done|done| | |done|cbn; unfold upd; by rewrite decide_True|cbn; unfold upd; by rewrite decide_True|done|done].
    + eapply (ring_without w _ n A a P x Q); [done|done|done|done| | |by rewrite decide_False]; cbn; unfold upd; intros k; [by rewrite Hy|]. destruct (decide (k = x)); [done|]. rewrite decide_False; [done|]. by intros [_ ?].
    + intros k Hk. assert (k <> x) by (intros ->; done). assert (k <> last_from a P) by (intros ->; apply Hk; destruct P as [|p P _] using rev_ind; [cbn; set_solver|rewrite last_from_snoc, EA; set_solver]). cbn. unfold upd. by rewrite !decide_False.
Qed.

(** ** The links one by one *)

Definition unlink_class (l : nat) (G : gmap nat (list nat)) : gmap nat (list nat) :=
  match class_of G l with Some (n, L) => if decide (length L = 1%nat) then G else <[n := take_out l L]> G | None => G end.
Definition delete_class (l : nat) (G : gmap nat (list nat)) : gmap nat (list nat) :=
  match class_of G l with Some (n, L) => if decide (length L = 1%nat) then delete n G else <[n := take_out l L]> G | None => G end.

Lemma single_ring w n A a l : nring w n A a -> l ∈ A ++ [a] -> length (A ++ [a]) = 1%nat -> A = [] /\ l = a.
Proof. intros R Hl HL. rewrite length_app in HL. cbn in HL. destruct A; [|cbn in HL; lia]. by apply list_elem_of_singleton in Hl. Qed.

Lemma unlink_many st D G n A a l : stands st D G -> G !! n = Some (A ++ [a]) -> l ∈ A ++ [a] -> length (A ++ [a]) <> 1%nat ->
  exists st', nexus_unlink n l st = Some st' /\ stands st' D (<[n := take_out l (A ++ [a])]> G).
Proof.
  intros HS Hn Hl HL. pose proof HS as (w & _ & HR & _). pose proof (rep_list w G n A a HR Hn) as R. destruct (list_elem_of_split _ _ Hl) as (P & Q & E). rewrite E, take_out_split by (rewrite <- E; apply R).
  apply (unlink_ring st D G n A a P l Q); try done. intros ->. done.
Qed.

Lemma link_unlink_ok st D G l : stands st D G -> l ∈ D -> exists st', link_unlink l st = Some st' /\ stands st' D (unlink_class l G).
Proof.
  intros HS Hl. pose proof HS as (w & Hw & HR & HD). assert (Al : al w l = true) by (rewrite HD; by apply bool_decide_eq_true_2). unfold link_unlink, unlink_class.
  destruct (class_of G l) as [[n L]|] eqn:El; [apply class_of_some in El as [HL Hin]|apply class_of_none in El].
  - destruct (class_find st w G l n L) as (y & _ & EF); try done. destruct (rp_ring _ _ HR n L HL) as (A & a & -> & R). rewrite (is_linked_ring st w n A a) by done. cbn [mbind option_bind]. destruct (decide _) as [H1|H1].
    + destruct (single_ring w n A a l R Hin H1) as [-> ->]. by exists st.
    + destruct A as [|z A]; [done|]. rewrite EF. cbn [mbind option_bind]. by apply unlink_many.
  - unfold is_linked. rewrite (loose_find st w G l) by done. cbn. by exists st.
Qed.

(** *** The destructor *)

Lemma remove_link st w l : sees st w -> al w l = true -> sees (mkNetlist (delete l (links st)) (nexuses st) (fresh st)) (mkView (nx w) (ne w) (ls w) (upd (al w) l false) (fr w)).
Proof.
  intros Hw Hl. destruct (see_link st w l Hw Hl) as [x Ex]. destruct Hw as (H1 & H2 & H3 & H4 & H5). split_and!; cbn; try done.
  - intros k. unfold get_next, upd. cbn. destruct (decide (k = l)) as [->|Hk]; [by rewrite lookup_delete_eq|]. rewrite lookup_delete_ne by done. apply H1.
  - intros k. unfold get_nexus, upd. cbn. destruct (decide (k = l)) as [->|Hk]; [by rewrite lookup_delete_eq|]. rewrite lookup_delete_ne by done. apply H2.
  - intros s Hs Hall. assert (Hls : l ∉ s) by (intros Hin; specialize (Hall l Hin); unfold upd in Hall; by rewrite decide_True in Hall).
    assert (HLen : (length (l :: s) <= size (links st))%nat).
    { apply H5; [by apply list.NoDup_cons|]. intros k [->|Hk]%elem_of_cons; [done|]. specialize (Hall k Hk). unfold upd in Hall. by destruct (decide (k = l)). }
    rewrite map_size_delete, Ex. cbn in HLen |- *. lia.
Qed.

Lemma stands_remove st D G l : stands st D G -> loose G l -> l ∈ D -> stands (mkNetlist (delete l (links st)) (nexuses st) (fresh st)) (D ∖ {[l]}) G.
Proof.
  intros (w & Hw & HR & HD) Hl Hld. assert (Al : al w l = true) by (rewrite HD; by apply bool_decide_eq_true_2). eexists. split; [by apply remove_link|]. split.
  - destruct HR as [R1 R2 R3 R4 R5]. split; try done. intros n L HL. destruct (R1 n L HL) as (A & a & -> & R). exists A, a. split; [done|]. destruct R. split; try done. intros x Hx. cbn. unfold upd. rewrite decide_False; [auto|]. intros ->. by apply (Hl n _ HL).
  - intros k. cbn. unfold upd. destruct (decide (k = l)) as [->|Hk]; [by rewrite bool_decide_eq_false_2 by set_solver|]. rewrite HD. apply bool_decide_ext. set_solver.
Qed.

Lemma unlink_single st D G n l : stands st D G -> G !! n = Some [l] -> exists st', nexus_unlink n l st = Some st' /\ get_list n st' = Some None /\ exists st2, nexus_delete n st' = Some st2 /\ stands st2 D (delete n G).
Proof.
  intros (w & Hw & HR & HD) Hn. pose proof (rep_list w G n [] l HR Hn) as R. pose proof (rg_list _ _ _ _ R) as LA. pose proof (rg_close _ _ _ _ R) as CA. cbn in CA. assert (Al : al w l = true) by (apply R; by left).
  unfold nexus_unlink. run_step set_name_sees; [by rewrite LA|]. rewrite (see_next _ w l), (see_nexus _ w l) by done. cbn [mbind option_bind]. rewrite (see_list _ w n), LA, CA by done. cbn [mbind option_bind]. rewrite decide_True by done.
  rewrite (rg_last _ _ _ _ R), !bool_decide_eq_true_2 by done. cbn [assert_that mbind option_bind]. run_step set_list_sees; [by rewrite LA|]. destruct (set_driven_sees _ _ n NO_GUESS Hs0) as (st2 & E2 & Hs2); [cbn; unfold upd; by rewrite decide_True|]. rewrite E2. cbn [mbind option_bind].
  run_step set_nexus_sees; [done|]. edestruct set_next_sees with (l := l) (v := @None nat) as (st' & E' & Hs'); [eassumption|done|]. exists st'. split; [done|]. assert (HLn : get_list n st' = Some None) by (erewrite see_list by exact Hs'; cbn; unfold upd; by rewrite decide_True).
  split; [done|]. destruct (nexus_delete_sees _ _ n Hs') as (st4 & E4 & Hs4); [cbn; unfold upd; by rewrite decide_True|]. exists st4. split; [done|]. eexists. split; [exact Hs4|]. split; [|done].
  assert (Ho : forall k L, k <> n -> G !! k = Some L -> l ∉ L) by (intros k L Hk HL Hin; apply Hk; eapply (rp_disjoint _ _ HR); [exact HL|exact Hn|exact Hin|by left]). split.
  - intros k L [Hk HL]%lookup_delete_Some. destruct (rp_ring _ _ HR k L HL) as (B & b & -> & RB). exists B, b. split; [done|]. eapply ring_frame; [done|cbn; unfold upd; by rewrite !decide_False by done|]. intros x Hx. assert (x <> l) by (intros ->; by apply (Ho k _ (not_eq_sym Hk) HL)). cbn. unfold upd. by rewrite !decide_False.
  - intros k HL. cbn. unfold upd. destruct (decide (k = n)); [done|]. apply HR. by rewrite lookup_delete_ne in HL.
  - intros k m L M x [_ HL]%lookup_delete_Some [_ HM]%lookup_delete_Some. by apply (rp_disjoint _ _ HR).
  - intros x Hx. cbn. unfold upd. destruct (decide (x = l)) as [->|Hxl]; [done|]. apply HR. intros k L HL. destruct (decide (k = n)) as [->|Hk]; [rewrite Hn in HL; injection HL as <-; set_solver|]. apply (Hx k). by rewrite lookup_delete_ne.
  - intros k Hk. apply lookup_delete_None. right. by apply (rp_fresh _ _ HR).
Qed.

Lemma link_delete_ok st D G l : stands st D G -> l ∈ D -> exists st', link_delete l st = Some st' /\ stands st' (D ∖ {[l]}) (delete_class l G).
Proof.
  intros HS Hl. pose proof HS as (w & Hw & HR & HD). assert (Al : al w l = true) by (rewrite HD; by apply bool_decide_eq_true_2). unfold link_delete, delete_class, link_nexus.
  destruct (class_of G l) as [[n L]|] eqn:El; [apply class_of_some in El as [HL Hin]|apply class_of_none in El].
  - destruct (class_find st w G l n L) as (y & E1 & EF); try done. rewrite E1. cbn [mbind option_bind]. rewrite EF. cbn [mbind option_bind]. destruct (rp_ring _ _ HR n L HL) as (A & a & -> & R). destruct (decide _) as [H1|H1].
    + destruct (single_ring w n A a l R Hin H1) as [-> ->]. destruct (unlink_single st D G n a HS HL) as (st1 & E2 & E3 & st2 & E4 & HS2). rewrite E2. cbn [mbind option_bind]. rewrite E3. cbn [mbind option_bind]. rewrite bool_decide_eq_true_2, E4 by done. cbn [mbind option_bind].
      eexists. split; [done|]. apply stands_remove; [done| |done]. intros k M [Hk HM]%lookup_delete_Some HinM. apply Hk. symmetry. by eapply (rp_disjoint _ _ HR).
    + destruct (unlink_many st D G n A a l) as (st1 & E2 & HS2); try done. rewrite E2. cbn [mbind option_bind]. pose proof HS2 as (w2 & Hw2 & HR2 & _). destruct (rp_ring _ _ HR2 n _ ltac:(by rewrite lookup_insert_eq)) as (B & b & EB & RB).
      rewrite (see_list _ w2 n Hw2), (rg_list _ _ _ _ RB). cbn [mbind option_bind]. rewrite bool_decide_eq_false_2 by done. cbn [mbind option_bind]. eexists. split; [done|]. apply stands_remove; [done| |done].
      intros k M HM HinM. destruct (decide (k = n)) as [->|Hk]; [rewrite lookup_insert_eq in HM; injection HM as <-; apply list_elem_of_filter in HinM as [? _]; done|]. rewrite lookup_insert_ne in HM by done. apply Hk. by eapply (rp_disjoint _ _ HR).
  - rewrite (loose_find st w G l) by done. cbn [mbind option_bind]. eexists. split; [done|]. by apply stands_remove.
Qed.

(** [Link::nexus] starts a class for a link that has none. *)
Definition nexus_class (n l : nat) (G : gmap nat (list nat)) : gmap nat (list nat) := match class_of G l with Some _ => G | None => <[n := [l]]> G end.
Definition nexus_key (n l : nat) (G : gmap nat (list nat)) : nat := match class_of G l with Some (c, _) => c | None => n end.

Lemma link_nexus_ok st D G l : stands st D G -> l ∈ D -> exists st', link_nexus l st = Some (Some (nexus_key (fresh st) l G), st') /\ stands st' D (nexus_class (fresh st) l G).
Proof.
  intros HS Hl. pose proof HS as (w & Hw & HR & HD). assert (Al : al w l = true) by (rewrite HD; by apply bool_decide_eq_true_2). unfold link_nexus, nexus_class, nexus_key.
  destruct (class_of G l) as [[n L]|] eqn:El; [apply class_of_some in El as [HL Hin]|apply class_of_none in El].
  - destruct (class_find st w G l n L) as (y & -> & EF); try done. cbn [mbind option_bind]. rewrite EF. by exists st.
  - rewrite (loose_find st w G l) by done. cbn [mbind option_bind]. rewrite (see_nexus st w l) by done. destruct (rp_free _ _ HR l El) as [_ ->]. cbn [mbind option_bind]. rewrite bool_decide_eq_true_2 by done. cbn [assert_that mbind option_bind].
    destruct (start_class st D G l) as (st1 & E1 & HGn & HS1); try done. rewrite E1. by exists st1.
Qed.

Lemma set_dir_ok st D G l d : stands st D G -> l ∈ D -> exists st', set_dir l d st = Some st' /\ stands st' D G.
Proof.
  intros (w & Hw & HR & HD) Hl. assert (Al : al w l = true) by (rewrite HD; by apply bool_decide_eq_true_2). destruct (put_link_sees (fun x => mkLink d (next_ x) (nexus_ x)) st w l Hw Al) as (st' & x & E & E1 & E2 & Hs).
  exists st'. split; [done|]. exists w. split; [|done]. eapply sees_ext; [exact Hs|..]; cbn; try done; intros k; rewrite ?E1, ?E2; apply upd_same.
Qed.

(** ** What can be observed *)

Definition same_class (G : gmap nat (list nat)) (l r : nat) : bool := match class_of G l with Some (_, L) => bool_decide (r ∈ L) | None => false end.

(** The ring seen from the link after [l]. *)
Lemma ring_rotate w n A a P l Q : nring w n A a -> A ++ [a] = P ++ l :: Q -> follows (nx w) ((Q ++ P) ++ [l]) /\ nx w l = Some (first (Q ++ P) l).
Proof.
  intros R E. pose proof (rg_follows _ _ _ _ R) as HF. pose proof (rg_close _ _ _ _ R) as HC. assert (EF : first A a = first P l) by (destruct A, P; cbn in E |- *; congruence). rewrite EF in HC.
  pose proof HF as HF'. rewrite E in HF'. apply follows_app in HF' as [HP HQ]. destruct Q as [|b Q _] using rev_ind.
  - apply app_inj_tail in E as [<- <-]. split; [by rewrite app_nil_l|done].
  - rewrite app_comm_cons, app_assoc in E. apply app_inj_tail in E as [-> <-]. split; [|destruct Q; apply HQ].
    rewrite <- !app_assoc. cbn [app]. apply follows_app. split; [destruct Q; [done|apply HQ]|]. destruct P; by split.
Qed.

Lemma linked_loop_sees st w l that : sees st w -> forall R fuel, follows (nx w) (R ++ [l]) -> (forall x, x ∈ R -> al w x = true) -> l ∉ R -> (length R < fuel)%nat ->
  linked_loop fuel l (first R l) that st = Some (bool_decide (that ∈ R)).
Proof.
  intros H. induction R as [|x R IH]; intros [|fuel] HF HA Hn Hlen; cbn in Hlen; try lia; cbn [linked_loop first].
  - rewrite decide_True by done. by rewrite bool_decide_eq_false_2 by set_solver.
  - rewrite decide_False by set_solver. destruct (decide (x = that)) as [->|Hx]; [by rewrite bool_decide_eq_true_2 by by left|]. rewrite (see_next st w x) by (done || apply HA; by left). cbn [mbind option_bind].
    assert (HF' : nx w x = Some (first R l) /\ follows (nx w) (R ++ [l])) by (destruct R; cbn in HF |- *; tauto). destruct HF' as [-> HF']. cbn [mbind option_bind].
    rewrite IH; [|done|intros y Hy; apply HA; by right|set_solver|lia]. f_equal. apply bool_decide_ext. rewrite elem_of_cons. split; [by right|intros [->|]; done].
Qed.

Lemma is_linked_to_ok st D G l r : stands st D G -> l ∈ D -> r ∈ D -> is_linked_to l r st = Some (negb (bool_decide (l = r)) && same_class G l r).
Proof.
  intros HS Hl Hr. pose proof HS as (w & Hw & HR & HD). assert (Al : al w l = true) by (rewrite HD; by apply bool_decide_eq_true_2). assert (Ar : al w r = true) by (rewrite HD; by apply bool_decide_eq_true_2).
  assert (HL : forall k, al w k = true -> is_linked k st = Some (match class_of G k with Some (_, L) => negb (length L =? 1)%nat | None => false end)).
  { intros k Ak. destruct (class_of G k) as [[n L]|] eqn:Ek; [apply class_of_some in Ek as [HLk Hin]|apply class_of_none in Ek].
    - destruct (rp_ring _ _ HR n L HLk) as (A & a & -> & R). rewrite (is_linked_ring st w n A a) by done. f_equal. rewrite length_app. destruct A; cbn; [done|]. by rewrite Nat.add_1_r.
    - unfold is_linked. by rewrite (loose_find st w G k) by done. }
  unfold is_linked_to, same_class. rewrite !HL by done. cbn [mbind option_bind]. destruct (class_of G l) as [[n L]|] eqn:El; [|by rewrite andb_false_r]. pose proof El as El'. apply class_of_some in El' as [HLl Hin].
  destruct (rp_ring _ _ HR n L HLl) as (A & a & -> & R). destruct (length (A ++ [a]) =? 1)%nat eqn:E1; cbn [negb].
  - apply Nat.eqb_eq in E1. destruct (single_ring w n A a l R Hin E1) as [-> ->]. destruct (decide (a = r)) as [->|Hne]; [by rewrite bool_decide_eq_true_2|]. by rewrite (bool_decide_eq_false_2 (r ∈ _)), andb_false_r by set_solver.
  - destruct (list_elem_of_split _ _ Hin) as (P & Q & E). destruct (ring_rotate w n A a P l Q R E) as [HF HN]. pose proof (rg_nodup _ _ _ _ R) as ND. rewrite E in ND.
    assert (HlPQ : l ∉ Q ++ P) by (apply list.NoDup_app in ND as (_ & HP & [HQ _]%list.NoDup_cons); intros [?|Hp]%elem_of_app; [done|]; apply (HP l Hp); by left).
    assert (HAQ : forall x, x ∈ Q ++ P -> al w x = true) by (intros x Hx; apply R; rewrite E; set_solver).
    assert (EQ : linked_loop (S (size (links st))) l (first (Q ++ P) l) r st = Some (bool_decide (r ∈ Q ++ P))).
    { apply (linked_loop_sees st w l r Hw); try done. assert (HLen : (length (A ++ [a]) <= size (links st))%nat) by (destruct Hw as (_ & _ & _ & _ & HW); apply HW; [by rewrite E|by apply R]). rewrite E in HLen. rewrite !length_app in *. cbn in HLen. lia. }
    assert (EB : negb (bool_decide (l = r)) && bool_decide (r ∈ A ++ [a]) = bool_decide (r ∈ Q ++ P)).
    { rewrite E. destruct (decide (l = r)) as [<-|Hne]; [by rewrite bool_decide_eq_true_2, (bool_decide_eq_false_2 (l ∈ Q ++ P)) by done|]. rewrite bool_decide_eq_false_2 by done. cbn. apply bool_decide_ext. set_solver. }
    rewrite EB. destruct (class_of G r) as [[m M]|] eqn:Er; [destruct (length M =? 1)%nat eqn:EM|]; cbn [negb].
    + rewrite bool_decide_eq_false_2; [done|]. intros Hrin. assert (Hrin' : r ∈ A ++ [a]) by (rewrite E; set_solver). rewrite (class_of_is w G r n (A ++ [a]) HR HLl Hrin') in Er. injection Er as <- <-. congruence.
    + rewrite (see_next st w l), HN by done. cbn [mbind option_bind]. apply EQ.
    + rewrite bool_decide_eq_false_2; [done|]. intros Hrin. apply (class_of_none G r Er n _ HLl). rewrite E. set_solver.
Qed.

Lemma nlinks_sees st w n Q a : sees st w -> ne w a = Some n -> forall fuel, follows (nx w) (Q ++ [a]) -> (forall x, x ∈ Q ++ [a] -> al w x = true) -> (forall x, x ∈ Q -> ne w x = None) -> (length Q + 1 < fuel)%nat ->
  nlinks fuel (Some (first Q a)) st = Some (Q ++ [a]).
Proof.
  intros H Ha. induction Q as [|q Q IH]; intros [|fuel] HF HA HN Hlen; cbn in Hlen; try lia; cbn [nlinks first]; unfold next_nlink.
  - rewrite (see_nexus st w a) by (done || apply HA; by left). cbn [mbind option_bind]. rewrite Ha. cbn [mbind option_bind]. destruct fuel; [lia|]. done.
  - rewrite (see_nexus st w q) by (done || apply HA; by left). cbn [mbind option_bind]. rewrite HN by by left. rewrite (see_next st w q) by (done || apply HA; by left). cbn [mbind option_bind].
    assert (HQ : nx w q = Some (first Q a) /\ follows (nx w) (Q ++ [a])) by (destruct Q; cbn in HF |- *; tauto). destruct HQ as [-> HF']. rewrite IH; [done|done| | |lia]; intros x Hx; [apply HA|apply HN]; by right.
Qed.

Lemma all_nlinks_ok st D G n L : stands st D G -> G !! n = Some L -> all_nlinks n st = Some L.
Proof.
  intros (w & Hw & HR & HD) HL. destruct (rp_ring _ _ HR n L HL) as (A & a & -> & R). unfold all_nlinks, first_nlink. rewrite (see_list st w n), (rg_list _ _ _ _ R) by done. cbn [mbind option_bind].
  rewrite (see_next st w a) by (done || apply R; set_solver). rewrite (rg_close _ _ _ _ R). cbn [mbind option_bind]. apply (nlinks_sees st w n A a Hw); [apply R..|].
  assert (HLen : (length (A ++ [a]) <= size (links st))%nat) by (destruct Hw as (_ & _ & _ & _ & HW); apply HW; apply R). rewrite length_app in HLen. cbn in HLen. lia.
Qed.

(** * The partition of the pins *)

(** The pins that are connected to a pin, in the order of their ring; none for a pin that was never connected. *)
Definition cls_of (G : gmap nat (list nat)) (l : nat) : list nat := match class_of G l with Some (_, L) => L | None => [] end.

Definition cls_set (C : list nat) (c : nat -> list nat) (x : nat) : list nat := if decide (x ∈ C) then C else c x.
Definition cls_connect (l r : nat) (c : nat -> list nat) : nat -> list nat :=
  if decide (r ∈ c l) then c
  else match c l, c r with
       | [], [] => cls_set [l; r] c
       | [], R => cls_set (R ++ [l]) c
       | L, [] => cls_set (L ++ [r]) c
       | L, R => cls_set (L ++ R) c
       end.
Definition cls_leave (l : nat) (c : nat -> list nat) (x : nat) : list nat := if decide (x = l) then [] else if decide (x ∈ c l) then take_out l (c l) else c x.
Definition cls_unlink (l : nat) (c : nat -> list nat) : nat -> list nat := if decide (length (c l) = 1%nat) then c else cls_leave l c.
Definition cls_nexus (l : nat) (c : nat -> list nat) : nat -> list nat := match c l with [] => cls_set [l] c | _ => c end.

Lemma cls_is w G l n L : rep w G -> G !! n = Some L -> l ∈ L -> cls_of G l = L.
Proof. intros HR HL Hl. unfold cls_of. by rewrite (class_of_is w G l n L). Qed.

Lemma cls_loose G l : loose G l -> cls_of G l = [].
Proof. intros Hl. unfold cls_of. destruct (class_of G l) as [[n L]|] eqn:E; [|done]. apply class_of_some in E as [HL Hin]. by destruct (Hl n L HL). Qed.

(** Outside [T] nothing changes. *)
Lemma cls_same w w' G G' (T : nat -> Prop) x : rep w G -> rep w' G' -> ~ T x ->
  (forall k L, G !! k = Some L -> x ∈ L -> exists k', G' !! k' = Some L) -> (forall k L, G' !! k = Some L -> x ∈ L -> exists k', G !! k' = Some L) -> cls_of G' x = cls_of G x.
Proof.
  intros HR HR' Hx H1 H2. destruct (class_of G x) as [[n L]|] eqn:E.
  - apply class_of_some in E as [HL Hin]. destruct (H1 n L HL Hin) as [k' HL']. by rewrite (cls_is w' G' x k' L), (cls_is w G x n L).
  - apply class_of_none in E. rewrite (cls_loose G x E). apply cls_loose. intros n L HL Hin. destruct (H2 n L HL Hin) as [k' HL']. by apply (E k' L).
Qed.

(** A class [C] comes in the place of the classes [n] and [m]. *)
Lemma cls_new w w' G G' n C x : rep w G -> rep w' G' -> G' !! n = Some C ->
  (forall k L, k <> n -> G' !! k = Some L -> G !! k = Some L) -> (forall k L, G !! k = Some L -> (exists y, y ∈ L /\ y ∉ C) -> G' !! k = Some L) -> cls_of G' x = cls_set C (cls_of G) x.
Proof.
  intros HR HR' Hn H1 H2. unfold cls_set. destruct (decide (x ∈ C)) as [Hx|Hx]; [by apply (cls_is w' G' x n C)|].
  apply (cls_same w w' G G' (fun _ => False) x); [done|done|tauto| |].
  - intros k L HL Hin. exists k. apply H2; [done|]. by exists x.
  - intros k L HL Hin. destruct (decide (k = n)) as [->|Hk]; [congruence|]. exists k. by apply H1.
Qed.

Lemma class_nonempty w G n L : rep w G -> G !! n = Some L -> exists x L', L = x :: L'.
Proof. intros HR HL. destruct (rp_ring _ _ HR n L HL) as (A & a & -> & _). destruct A; by eexists _, _. Qed.

Lemma cls_join w w' G n l r x : rep w G -> rep w' (join_classes n l r G) -> G !! n = None -> cls_of (join_classes n l r G) x = cls_connect l r (cls_of G) x.
Proof.
  intros HR HR' Hn. unfold cls_connect. unfold join_classes in HR' |- *. destruct (class_of G l) as [[c A]|] eqn:El, (class_of G r) as [[d B]|] eqn:Er.
  - apply class_of_some in El as [HA Hl], Er as [HB Hr]. rewrite (cls_is w G l c A), (cls_is w G r d B) by done. destruct (decide (c = d)) as [<-|Hcd].
    { assert (A = B) as -> by congruence. by rewrite decide_True. }
    rewrite decide_False by (intros Hin; apply Hcd; by eapply (rp_disjoint _ _ HR)). destruct (class_nonempty w G c A HR HA) as (a1 & A1 & ->), (class_nonempty w G d B HR HB) as (b1 & B1 & ->).
    apply (cls_new w w' G _ c); [done|done|by rewrite lookup_insert_eq| |].
    + intros k L Hk. rewrite lookup_insert_ne by done. by intros [_ ?]%lookup_delete_Some.
    + intros k L HL (y & Hy & HyC). rewrite lookup_insert_ne, lookup_delete_ne; [done|..]; intros ->; apply HyC, elem_of_app; [right|left]; congruence.
  - apply class_of_some in El as [HA Hl]. apply class_of_none in Er. rewrite (cls_is w G l c A), (cls_loose G r) by done. rewrite decide_False by by apply (Er c). destruct (class_nonempty w G c A HR HA) as (a1 & A1 & ->).
    apply (cls_new w w' G _ c); [done|done|by rewrite lookup_insert_eq|intros k L Hk; by rewrite lookup_insert_ne|]. intros k L HL (y & Hy & HyC). rewrite lookup_insert_ne; [done|]. intros ->. apply HyC, elem_of_app. left. congruence.
  - apply class_of_some in Er as [HB Hr]. apply class_of_none in El. rewrite (cls_loose G l), (cls_is w G r d B) by done. rewrite decide_False by set_solver. destruct (class_nonempty w G d B HR HB) as (b1 & B1 & ->).
    apply (cls_new w w' G _ d); [done|done|by rewrite lookup_insert_eq|intros k L Hk; by rewrite lookup_insert_ne|]. intros k L HL (y & Hy & HyC). rewrite lookup_insert_ne; [done|]. intros ->. apply HyC, elem_of_app. left. congruence.
  - apply class_of_none in El, Er. rewrite (cls_loose G l), (cls_loose G r) by done. rewrite decide_False by set_solver.
    apply (cls_new w w' G _ n); [done|done|by rewrite lookup_insert_eq|intros k L Hk; by rewrite lookup_insert_ne|]. intros k L HL _. rewrite lookup_insert_ne; [done|]. congruence.
Qed.

Lemma cls_start w w' G n l x : rep w G -> rep w' (nexus_class n l G) -> G !! n = None -> cls_of (nexus_class n l G) x = cls_nexus l (cls_of G) x.
Proof.
  intros HR HR' Hn. unfold cls_nexus. unfold nexus_class in HR' |- *. destruct (class_of G l) as [[c A]|] eqn:El; [apply class_of_some in El as [HA Hl]|apply class_of_none in El].
  - rewrite (cls_is w G l c A) by done. destruct (class_nonempty w G c A HR HA) as (a1 & A1 & ->). done.
  - rewrite (cls_loose G l) by done. apply (cls_new w w' G _ n); [done|done|by rewrite lookup_insert_eq|intros k L Hk; by rewrite lookup_insert_ne|]. intros k L HL _. rewrite lookup_insert_ne; [done|]. congruence.
Qed.

(** A link leaves its class, which stays without it or is gone. *)
Lemma cls_left w w' G G' n L l x : rep w G -> rep w' G' -> G !! n = Some L -> l ∈ L -> (forall k, k <> n -> G' !! k = G !! k) -> G' !! n = (match take_out l L with [] => None | M => Some M end) ->
  cls_of G' x = cls_leave l (cls_of G) x.
Proof.
  intros HR HR' HL Hl Ho Hn. unfold cls_leave. rewrite (cls_is w G l n L) by done. destruct (decide (x = l)) as [->|Hx].
  - apply cls_loose. intros k M HM Hin. destruct (decide (k = n)) as [->|Hk].
    + rewrite HM in Hn. destruct (take_out l L) eqn:ET; [done|]. injection Hn as ->. rewrite <- ET in Hin. by apply list_elem_of_filter in Hin as [? _].
    + apply Hk. rewrite Ho in HM by done. by eapply (rp_disjoint _ _ HR).
  - destruct (decide (x ∈ L)) as [HxL|HxL].
    + assert (HxT : x ∈ take_out l L) by (apply list_elem_of_filter; done). destruct (take_out l L) as [|y M] eqn:ET; [by apply elem_of_nil in HxT|]. by apply (cls_is w' G' x n).
    + apply (cls_same w w' G G' (fun _ => False) x); [done|done|tauto| |]; intros k M HM Hin; (destruct (decide (k = n)) as [->|Hk]; [|exists k; first [by rewrite Ho|by rewrite Ho in HM]]).
      * congruence.
      * rewrite HM in Hn. destruct (take_out l L) eqn:ET; [done|]. injection Hn as ->. rewrite <- ET in Hin. by apply list_elem_of_filter in Hin as [_ ?].
Qed.

Lemma take_out_single l L : l ∈ L -> NoDup L -> take_out l L = [] <-> length L = 1%nat.
Proof.
  intros Hl HN. apply list_elem_of_split in Hl as (P & Q & ->). rewrite take_out_split by done. rewrite length_app. cbn. destruct P, Q; cbn; split; intros; try done; lia.
Qed.

Lemma cls_unlinked w w' G l x : rep w G -> rep w' (unlink_class l G) -> cls_of (unlink_class l G) x = cls_unlink l (cls_of G) x.
Proof.
  intros HR HR'. unfold cls_unlink. unfold unlink_class in HR' |- *. destruct (class_of G l) as [[n L]|] eqn:El; [apply class_of_some in El as [HL Hl]|apply class_of_none in El].
  - rewrite (cls_is w G l n L) by done. destruct (decide (length L = 1%nat)) as [|H1]; [done|]. destruct (rp_ring _ _ HR n L HL) as (A & a & EA & R). assert (HN : NoDup L) by (rewrite EA; apply R).
    apply (cls_left w w' G _ n L); [done|done|done|done|intros k Hk; by rewrite lookup_insert_ne|]. rewrite lookup_insert_eq. destruct (take_out l L) eqn:ET; [|done]. by apply take_out_single in ET.
  - rewrite (cls_loose G l) by done. cbn [length]. rewrite decide_False by done. unfold cls_leave. rewrite (cls_loose G l) by done. destruct (decide (x = l)) as [->|]; [by apply cls_loose|]. by rewrite decide_False by set_solver.
Qed.

Lemma cls_deleted w w' G l x : rep w G -> rep w' (delete_class l G) -> cls_of (delete_class l G) x = cls_leave l (cls_of G) x.
Proof.
  intros HR HR'. unfold delete_class in HR' |- *. destruct (class_of G l) as [[n L]|] eqn:El; [apply class_of_some in El as [HL Hl]|apply class_of_none in El].
  - destruct (rp_ring _ _ HR n L HL) as (A & a & EA & R). assert (HN : NoDup L) by (rewrite EA; apply R). destruct (decide (length L = 1%nat)) as [H1|H1].
    + apply (cls_left w w' G _ n L); [done|done|done|done|intros k Hk; by rewrite lookup_delete_ne|]. rewrite lookup_delete_eq. by apply (take_out_single l L Hl HN) in H1 as ->.
    + apply (cls_left w w' G _ n L); [done|done|done|done|intros k Hk; by rewrite lookup_insert_ne|]. rewrite lookup_insert_eq. destruct (take_out l L) eqn:ET; [|done]. by apply take_out_single in ET.
  - unfold cls_leave. rewrite (cls_loose G l) by done. destruct (decide (x = l)) as [->|]; [by apply cls_loose|]. by rewrite decide_False by set_solver.
Qed.

Lemma link_new_ok st D G l : stands st D G -> l ∉ D -> stands (link_new l st) ({[l]} ∪ D) G.
Proof.
  intros (w & Hw & HR & HD) Hl. assert (Al : al w l = false) by (rewrite HD; by apply bool_decide_eq_false_2).
  assert (HG : loose G l) by (intros n L HL Hin; destruct (rp_ring _ _ HR n L HL) as (A & a & -> & R); pose proof (rg_alive _ _ _ _ R l Hin); congruence). destruct (rp_free _ _ HR l HG) as [Fn Fe].
  pose proof Hw as (H1 & H2 & H3 & H4 & H5). assert (El : links st !! l = None) by (specialize (H1 l); rewrite Al in H1; unfold get_next in H1; by destruct (links st !! l)).
  exists (mkView (nx w) (ne w) (ls w) (upd (al w) l true) (fr w)). split; [split_and!; cbn; try done|split].
  - intros k. unfold get_next, upd. cbn. destruct (decide (k = l)) as [->|Hk]; [by rewrite lookup_insert_eq, Fn|]. rewrite lookup_insert_ne by done. apply H1.
  - intros k. unfold get_nexus, upd. cbn. destruct (decide (k = l)) as [->|Hk]; [by rewrite lookup_insert_eq, Fe|]. rewrite lookup_insert_ne by done. apply H2.
  - intros s Hs Hall. rewrite map_size_insert_None by done. assert (HO : forall k, k ∈ s -> k <> l -> al w k = true) by (intros k Hk Hkl; specialize (Hall k Hk); unfold upd in Hall; by rewrite decide_False in Hall).
    destruct (decide (l ∈ s)) as [Hin|Hin]; [|assert (length s <= size (links st))%nat by (apply H5; [done|]; intros k Hk; apply HO; [done|by intros ->]); lia]. apply list_elem_of_split in Hin as (P & Q & ->).
    apply list.NoDup_app in Hs as (HP & HPQ & [HlQ HQ]%list.NoDup_cons). assert (HLen : (length (P ++ Q) <= size (links st))%nat).
    { apply H5; [apply list.NoDup_app; split_and!; [done| |done]; intros x Hx Hx'; apply (HPQ x Hx); by right|]. intros k Hk. apply HO; [set_solver|]. intros ->. apply elem_of_app in Hk as [Hk|Hk]; [apply (HPQ l Hk); by left|done]. }
    rewrite length_app in *. cbn. lia.
  - destruct HR as [R1 R2 R3 R4 R5]. split; try done. intros n L HL. destruct (R1 n L HL) as (A & a & -> & R). exists A, a. split; [done|]. destruct R. split; try done. intros x Hx. cbn. unfold upd. destruct (decide (x = l)); [done|auto].
  - intros k. cbn. unfold upd. destruct (decide (k = l)) as [->|Hk]; [by rewrite bool_decide_eq_true_2 by set_solver|]. rewrite HD. apply bool_decide_ext. set_solver.
Qed.

(** ** Sequences of operations *)

Inductive net_op := OpNew (l : nat) | OpDir (l : nat) (d : DIR) | OpConnect (l r : nat) | OpNexus (l : nat) | OpUnlink (l : nat) | OpDelete (l : nat).

Definition net_step (op : net_op) (st : netlist) : option netlist :=
  match op with
  | OpNew l => Some (link_new l st) | OpDir l d => set_dir l d st | OpConnect l r => connect l r st
  | OpNexus l => '(_, st) ← link_nexus l st; Some st | OpUnlink l => link_unlink l st | OpDelete l => link_delete l st
  end.
Fixpoint net_run (ops : list net_op) (st : netlist) : option netlist := match ops with [] => Some st | op :: ops => st ← net_step op st; net_run ops st end.

(** The pins that exist, and the operations that are for them. *)
Definition pins_step (op : net_op) (D : gset nat) : gset nat := match op with OpNew l => {[l]} ∪ D | OpDelete l => D ∖ {[l]} | _ => D end.
Definition op_valid (op : net_op) (D : gset nat) : Prop :=
  match op with OpNew l => l ∉ D | OpConnect l r => l <> r /\ l ∈ D /\ r ∈ D | OpDir l _ | OpNexus l | OpUnlink l | OpDelete l => l ∈ D end.
Fixpoint ops_valid (ops : list net_op) (D : gset nat) : Prop := match ops with [] => True | op :: ops => op_valid op D /\ ops_valid ops (pins_step op D) end.

(** The partition after an operation. *)
Definition cls_step (op : net_op) (c : nat -> list nat) : nat -> list nat :=
  match op with OpNew _ | OpDir _ _ => c | OpConnect l r => cls_connect l r c | OpNexus l => cls_nexus l c | OpUnlink l => cls_unlink l c | OpDelete l => cls_leave l c end.

Lemma cls_step_ext op c c' : (forall x, c x = c' x) -> forall x, cls_step op c x = cls_step op c' x.
Proof.
  intros H x. destruct op; cbn; try done; unfold cls_connect, cls_nexus, cls_unlink, cls_leave, cls_set; rewrite ?H; try (by repeat case_decide).
  - case_decide; [done|]. destruct (c' l), (c' r); by rewrite H.
  - destruct (c' l); by rewrite ?H.
Qed.

Lemma net_step_ok op st D G : stands st D G -> op_valid op D -> exists st' G', net_step op st = Some st' /\ stands st' (pins_step op D) G' /\ forall x, cls_of G' x = cls_step op (cls_of G) x.
Proof.
  intros HS Hv. pose proof HS as (w & Hw & HR & HD). assert (HF : G !! fresh st = None) by (apply HR; destruct Hw as (_ & _ & _ & -> & _); lia). destruct op as [l|l d|l r|l|l|l]; cbn in Hv |- *.
  - exists (link_new l st), G. split; [done|]. split; [by apply link_new_ok|done].
  - destruct (set_dir_ok st D G l d) as (st' & E' & HS'); try done. by exists st', G.
  - destruct Hv as (Hlr & Hl & Hr). destruct (connect_ok st D G l r) as (st' & E' & HS'); try done. exists st', (join_classes (fresh st) l r G). split; [done|]. split; [done|]. destruct HS' as (w' & _ & HR' & _). intros x. by eapply cls_join.
  - destruct (link_nexus_ok st D G l) as (st' & E' & HS'); try done. rewrite E'. cbn. exists st', (nexus_class (fresh st) l G). split; [done|]. split; [done|]. destruct HS' as (w' & _ & HR' & _). intros x. by eapply cls_start.
  - destruct (link_unlink_ok st D G l) as (st' & E' & HS'); try done. exists st', (unlink_class l G). split; [done|]. split; [done|]. destruct HS' as (w' & _ & HR' & _). intros x. by eapply cls_unlinked.
  - destruct (link_delete_ok st D G l) as (st' & E' & HS'); try done. exists st', (delete_class l G). split; [done|]. split; [done|]. destruct HS' as (w' & _ & HR' & _). intros x. by eapply cls_deleted.
Qed.

Lemma net_run_ok ops : forall st D G c, stands st D G -> (forall x, cls_of G x = c x) -> ops_valid ops D ->
  exists st' G', net_run ops st = Some st' /\ stands st' (fold_left (fun D op => pins_step op D) ops D) G' /\ forall x, cls_of G' x = fold_left (fun c op => cls_step op c) ops c x.
Proof.
  induction ops as [|op ops IH]; intros st D G c HS Hc Hv; [by exists st, G|]. destruct Hv as [Hv Hvs]. destruct (net_step_ok op st D G HS Hv) as (st1 & G1 & E1 & HS1 & HC1). cbn. rewrite E1. cbn.
  apply (IH st1 _ G1 (cls_step op c)); [done| |done]. intros x. rewrite HC1. by apply cls_step_ext.
Qed.

Definition netlist_empty : netlist := mkNetlist ∅ ∅ 0.

Lemma stands_empty : stands netlist_empty ∅ ∅.
Proof.
  exists (mkView (fun _ => None) (fun _ => None) (fun _ => None) (fun _ => false) 0%nat). split; [|split; [|done]].
  - split_and!; try done. intros [|x l] _ Hall; cbn; [lia|]. specialize (Hall x ltac:(by left)). done.
  - by split.
Qed.

(** C16: The links of the netlist are a partition of the pins: after any sequence of constructions, connections, disconnections and destructions of pins, none of which fails an assertion or follows a null
    pointer, two pins are linked if they are in one class of the partition that the operations describe, the traversal of the nexus of a pin visits its class, each pin once, and a pin that is
    in no class is not on any list; connecting joins two classes and unlinking takes one pin out of its class. *)
Theorem nexus_trace ops : ops_valid ops ∅ -> exists st, net_run ops netlist_empty = Some st /\
  let D := fold_left (fun D op => pins_step op D) ops ∅ in let c := fold_left (fun c op => cls_step op c) ops (fun _ => []) in
  (forall l r, l ∈ D -> r ∈ D -> is_linked_to l r st = Some (negb (bool_decide (l = r)) && bool_decide (r ∈ c l))) /\
  (forall l, l ∈ D -> c l <> [] -> l ∈ c l /\ NoDup (c l) /\ exists n, find_nexus_ l st = Some (Some n) /\ all_nlinks n st = Some (c l)) /\
  (forall l, l ∈ D -> c l = [] -> get_next l st = Some None) /\ (forall l r, r ∈ c l -> c r = c l).
Proof.
  intros Hv. destruct (net_run_ok ops netlist_empty ∅ ∅ (fun _ => []) stands_empty (fun _ => eq_refl) Hv) as (st & G & E & HS & HC). exists st. split; [done|]. cbn zeta. set (D := fold_left _ ops ∅) in *. set (c := fold_left _ ops (fun _ => [])) in *.
  pose proof HS as (w & Hw & HR & HD). assert (HCl : forall l, c l = [] /\ loose G l \/ exists n, G !! n = Some (c l) /\ l ∈ c l).
  { intros l. rewrite <- HC. destruct (class_of G l) as [[n L]|] eqn:El; [right|left]; [apply class_of_some in El as [HL Hl]; exists n; by rewrite (cls_is w G l n L)|apply class_of_none in El; by rewrite cls_loose]. }
  split_and!.
  - intros l r Hl Hr. rewrite (is_linked_to_ok st D G) by done. do 2 f_equal. rewrite <- HC. unfold same_class, cls_of. destruct (class_of G l) as [[n L]|]; [done|]. by rewrite bool_decide_eq_false_2 by set_solver.
  - intros l Hl Hne. destruct (HCl l) as [[? _]|(n & HL & Hin)]; [done|]. split; [done|]. destruct (rp_ring _ _ HR n _ HL) as (A & a & EA & R). split; [rewrite EA; apply R|]. exists n. split; [by destruct (class_find st w G l n (c l)) as (y & _ & ?)|by apply (all_nlinks_ok st D G)].
  - intros l Hl E0. destruct (HCl l) as [[_ Hlo]|(n & HL & Hin)]; [|rewrite E0 in Hin; by apply elem_of_nil in Hin]. apply (loose_find st w G l); [done..|]. rewrite HD. by apply bool_decide_eq_true_2.
  - intros l r Hr. destruct (HCl l) as [[E0 _]|(n & HL & Hin)]; [rewrite E0 in Hr; by apply elem_of_nil in Hr|]. rewrite <- HC. by apply (cls_is w G r n).
Qed.

Definition demo_ops : list net_op := [OpNew 0; OpNew 1; OpNew 2; OpNew 3; OpNew 4; OpDir 1 OUTPUT; OpConnect 0 1; OpConnect 2 3; OpConnect 1 3; OpNexus 4; OpConnect 4 0; OpUnlink 2; OpDelete 1].
Lemma demo_ops_valid : ops_valid demo_ops ∅.
Proof. cbn. set_solver. Qed.

Lemma nexus_trace_witness : ops_valid demo_ops ∅ /\ exists st, net_run demo_ops netlist_empty = Some st /\ is_linked_to 0 3 st = Some true /\ is_linked_to 0 2 st = Some false.
Proof.
  split; [apply demo_ops_valid|]. destruct (nexus_trace demo_ops demo_ops_valid) as (st & E & HL & _). exists st. split; [exact E|]. split.
  - rewrite (HL 0%nat 3%nat); [vm_compute; reflexivity|cbn; set_solver|cbn; set_solver].
  - rewrite (HL 0%nat 2%nat); [vm_compute; reflexivity|cbn; set_solver|cbn; set_solver].
Defined.

(** * Sets of parts *)

(** The nexus of a link, and the part that an element stands for. *)
Definition key_of (G : gmap nat (list nat)) (l : nat) : option nat := fst <$> class_of G l.
Definition part_of (G : gmap nat (list nat)) (e : elem_t) : option nat * Z * Z := (key_of G (lnk e), base e, wid e).

(** The elements have links of their own, each on a nexus. *)
Record nset_ok (D : gset nat) (G : gmap nat (list nat)) (items : list elem_t) : Prop := {
  ns_pins : forall e, e ∈ items -> lnk e ∈ D /\ key_of G (lnk e) <> None;
  ns_links : NoDup (map lnk items) }.

Lemma key_is w G l n L : rep w G -> G !! n = Some L -> l ∈ L -> key_of G l = Some n.
Proof. intros HR HL Hl. unfold key_of. by rewrite (class_of_is w G l n L). Qed.
Lemma key_loose w G l : rep w G -> loose G l -> key_of G l = None.
Proof. intros HR Hl. unfold key_of. destruct (class_of G l) as [[n L]|] eqn:E; [|done]. apply class_of_some in E as [HL Hin]. by destruct (Hl n L HL). Qed.

Lemma same_class_key w G l r n : rep w G -> key_of G l = Some n -> same_class G l r = bool_decide (key_of G l = key_of G r).
Proof.
  intros HR Hk. unfold same_class. unfold key_of in *. destruct (class_of G l) as [[m L]|] eqn:El; [|done]. cbn in Hk. injection Hk as ->. apply class_of_some in El as [HL Hl]. apply bool_decide_ext. split.
  - intros Hr. by rewrite (class_of_is w G r n L).
  - destruct (class_of G r) as [[m M]|] eqn:Er; [|done]. cbn. intros [= <-]. apply class_of_some in Er as [HM Hr]. congruence.
Qed.

Lemma elem_eq_ok st D G x y : stands st D G -> lnk x ∈ D -> lnk y ∈ D -> lnk x <> lnk y -> key_of G (lnk x) <> None -> elem_eq x y st = Some (bool_decide (part_of G x = part_of G y)).
Proof.
  intros HS Hx Hy Hxy Hk. pose proof HS as (w & _ & HR & _). destruct (key_of G (lnk x)) as [n|] eqn:En; [|done]. unfold elem_eq. rewrite (is_linked_to_ok st D G) by done. cbn. rewrite bool_decide_eq_false_2 by done. cbn.
  rewrite (same_class_key w G _ _ n) by done. f_equal. unfold part_of. destruct (Z.eqb_spec (base x) (base y)), (Z.eqb_spec (wid x) (wid y)); rewrite ?andb_true_r, ?andb_false_r; try (symmetry; apply bool_decide_eq_false_2; congruence).
  apply bool_decide_ext. split; congruence.
Qed.

(** The first position, or the length. *)
Fixpoint index_of {A} `{EqDecision A} (p : A) (l : list A) : nat := match l with [] => 0%nat | x :: l => if decide (x = p) then 0%nat else S (index_of p l) end.

Lemma index_of_lt {A} {E : EqDecision A} (p : A) l : (index_of p l < length l)%nat <-> p ∈ l.
Proof.
  induction l as [|x l IH]; cbn; [split; [lia|by intros ?%elem_of_nil]|]. rewrite elem_of_cons. destruct (decide (x = p)) as [->|Hx]; [split; [by left|lia]|]. rewrite <- Nat.succ_lt_mono, IH. split; [by right|intros [->|]; done].
Qed.
Lemma index_of_le {A} {E : EqDecision A} (p : A) l : (index_of p l <= length l)%nat.
Proof. induction l as [|x l IH]; cbn; [lia|]. destruct (decide (x = p)); lia. Qed.

Lemma bsearch_ok st D G items y : stands st D G -> (forall e, e ∈ items -> lnk e ∈ D /\ key_of G (lnk e) <> None /\ lnk e <> lnk y) -> lnk y ∈ D -> bsearch_ items y st = Some (index_of (part_of G y) (map (part_of G) items)).
Proof.
  intros HS Hall Hy. induction items as [|x items IH]; [done|]. destruct (Hall x) as (Hx & Hk & Hxy); [by left|]. cbn. rewrite (elem_eq_ok st D G) by done. cbn. destruct (decide (part_of G x = part_of G y)) as [E|E]; [by rewrite bool_decide_eq_true_2|].
  rewrite bool_decide_eq_false_2 by done. rewrite IH; [done|]. intros e He. apply Hall. by right.
Qed.

Lemma key_same w w' G G' l : rep w G -> rep w' G' -> (forall m L, G !! m = Some L -> l ∈ L -> exists L', G' !! m = Some L' /\ l ∈ L') -> (loose G l -> loose G' l) -> key_of G' l = key_of G l.
Proof.
  intros HR HR' H1 H2. destruct (class_of G l) as [[m L]|] eqn:E.
  - apply class_of_some in E as [HL Hl]. destruct (H1 m L HL Hl) as (L' & HL' & Hl'). by rewrite (key_is w' G' l m L'), (key_is w G l m L).
  - apply class_of_none in E. rewrite (key_loose w G l HR E). by apply (key_loose w'), H2.
Qed.

Lemma key_deleted w w' G x l : rep w G -> rep w' (delete_class x G) -> l <> x -> key_of (delete_class x G) l = key_of G l.
Proof.
  intros HR HR' Hl. apply (key_same w w'); [done|done|..]; unfold delete_class in *; (destruct (class_of G x) as [[n L]|] eqn:Ex; [apply class_of_some in Ex as [HL Hx]|]).
  - intros m M HM Hin. destruct (decide (m = n)) as [->|Hm].
    + assert (M = L) as -> by congruence. destruct (decide (length L = 1%nat)) as [H1|H1].
      * destruct L as [|y [|]]; cbn in H1; try lia. apply list_elem_of_singleton in Hx, Hin. congruence.
      * exists (take_out x L). rewrite lookup_insert_eq. split; [done|]. by apply list_elem_of_filter.
    + exists M. split; [|done]. destruct (decide _); [by rewrite lookup_delete_ne|by rewrite lookup_insert_ne].
  - intros m M HM Hin. by exists M.
  - intros Hlo m M HM Hin. destruct (decide (m = n)) as [->|Hm].
    + destruct (decide _); [by rewrite lookup_delete_eq in HM|]. rewrite lookup_insert_eq in HM. injection HM as <-. apply list_elem_of_filter in Hin as [_ Hin]. by apply (Hlo n L).
    + apply (Hlo m M); [|done]. destruct (decide _); [by rewrite lookup_delete_ne in HM|by rewrite lookup_insert_ne in HM].
  - done.
Qed.

Lemma stands_loose st D G k : stands st D G -> k ∉ D -> loose G k.
Proof. intros (w & _ & HR & HD) Hk n L HL Hin. destruct (rp_ring _ _ HR n L HL) as (A & a & -> & R). pose proof (rg_alive _ _ _ _ R k Hin) as Ha. rewrite HD in Ha. by apply bool_decide_eq_true in Ha. Qed.

(** The element joins the class, at its end; nothing else changes. *)
Lemma elem_new_ok st D G k n L b w : stands st D G -> k ∉ D -> G !! n = Some L -> exists st', elem_new k n b w st = Some (mkElem k b w, st') /\
  let G' := <[n := L ++ [k]]> G in stands st' ({[k]} ∪ D) G' /\ key_of G' k = Some n /\ forall l, l ∈ D -> key_of G' l = key_of G l.
Proof.
  intros HS Hk HL. pose proof (stands_loose st D G k HS Hk) as Hlo. pose proof (link_new_ok st D G k HS Hk) as HS1. destruct (set_dir_ok _ _ G k PASSIVE HS1) as (st2 & E2 & HS2); [set_solver|].
  pose proof HS as (v & _ & HR & _). destruct (rp_ring _ _ HR n L HL) as (A & a & -> & _). destruct (connect_append st2 ({[k]} ∪ D) G n A a k HS2 HL Hlo) as (st3 & E3 & HS3); [set_solver|].
  unfold elem_new. rewrite E2. cbn. rewrite E3. cbn. exists st3. split; [done|]. split; [done|]. pose proof HS3 as (v3 & _ & HR3 & _). split; [apply (key_is v3 _ k n ((A ++ [a]) ++ [k])); [done|by rewrite lookup_insert_eq|set_solver]|].
  intros l Hl. assert (Hlk : l <> k) by (intros ->; done). apply (key_same v v3); [done|done|..].
  - intros m M HM Hin. destruct (decide (m = n)) as [->|Hm]; [exists ((A ++ [a]) ++ [k]); rewrite lookup_insert_eq; split; [done|]; assert (M = A ++ [a]) as -> by congruence; set_solver|]. exists M. by rewrite lookup_insert_ne.
  - intros Hl0 m M HM Hin. destruct (decide (m = n)) as [->|Hm]; [|rewrite lookup_insert_ne in HM by done; by apply (Hl0 m M)]. rewrite lookup_insert_eq in HM. injection HM as <-. apply (Hl0 n (A ++ [a]) HL). set_solver.
Qed.

(** The parts of a set with [p]. *)
Definition padd (p : option nat * Z * Z) (l : list (option nat * Z * Z)) : list (option nat * Z * Z) := if decide (p ∈ l) then l else l ++ [p].

Lemma parts_same G G' items : (forall e, e ∈ items -> key_of G' (lnk e) = key_of G (lnk e)) -> map (part_of G') items = map (part_of G) items.
Proof. intros H. apply map_ext_in. intros e He. apply list_elem_of_In in He. unfold part_of. by rewrite H. Qed.

Lemma delete_appended G n L k : loose G k -> G !! n = Some L -> L <> [] -> (forall m M, <[n := L ++ [k]]> G !! m = Some M -> k ∈ M -> m = n) -> delete_class k (<[n := L ++ [k]]> G) = G.
Proof.
  intros Hlo HL Hne Hu. unfold delete_class. destruct (class_of _ k) as [[m M]|] eqn:E.
  - apply class_of_some in E as [HM Hin]. assert (m = n) as -> by by apply (Hu m M). rewrite lookup_insert_eq in HM. injection HM as <-. rewrite decide_False by (rewrite length_app; cbn; destruct L; [done|cbn; lia]).
    assert (HT : take_out k (L ++ [k]) = L).
    { assert (HkL : k ∉ L) by by apply (Hlo n). unfold take_out. rewrite list.filter_app. cbn. rewrite decide_False by (intros H; by apply H). rewrite app_nil_r. clear -HkL. induction L as [|y L IH]; [done|]. rewrite filter_cons_True by (intros ->; apply HkL; by left). f_equal. apply IH. intros Hin. apply HkL. by right. }
    rewrite HT, insert_insert_eq. by apply insert_id.
  - exfalso. apply (class_of_none _ _ E n (L ++ [k])); [by rewrite lookup_insert_eq|set_solver].
Qed.

Lemma match_cons {A B} (l : list A) (x y : B) : l <> [] -> match l with [] => x | _ => y end = y.
Proof. by destruct l. Qed.

Lemma nset_add_ok st D G items k n L b w : stands st D G -> nset_ok D G items -> k ∉ D -> G !! n = Some L ->
  exists items' st' D' G', nset_add k n b w items st = Some (items', st') /\ stands st' D' G' /\ nset_ok D' G' items' /\ map (part_of G') items' = padd (Some n, b, w) (map (part_of G) items) /\
    D ⊆ D' /\ D' ⊆ {[k]} ∪ D /\ (forall l, l ∈ D -> key_of G' l = key_of G l) /\ (forall m, is_Some (G !! m) -> is_Some (G' !! m)) /\ (forall e, e ∈ items' -> e ∈ items \/ lnk e = k).
Proof.
  intros HS [HP HN] Hk HL. destruct (elem_new_ok st D G k n L b w HS Hk HL) as (st1 & E1 & HS1 & Hkk & Hko). set (cur := mkElem k b w). set (G1 := <[n := L ++ [k]]> G) in *.
  assert (Hlk : forall e, e ∈ items -> lnk e <> k) by (intros e He E; apply Hk; rewrite <- E; by apply HP).
  assert (EP : map (part_of G1) items = map (part_of G) items) by (apply parts_same; intros e He; apply Hko; by apply HP). assert (EC : part_of G1 cur = (Some n, b, w)) by (unfold part_of; cbn; by rewrite Hkk).
  assert (HK : forall m, is_Some (G !! m) -> is_Some (G1 !! m)) by (intros m Hm; unfold G1; destruct (decide (m = n)) as [->|]; [by rewrite lookup_insert_eq|by rewrite lookup_insert_ne]).
  assert (HA : nset_ok ({[k]} ∪ D) G1 (items ++ [cur])).
  { split.
    - intros e [He| ->%list_elem_of_singleton]%elem_of_app; [|split; [set_solver|cbn; by rewrite Hkk]]. destruct (HP e He) as [H1 H2]. split; [set_solver|]. by rewrite Hko.
    - rewrite map_app. apply list.NoDup_app. split; [done|]. split; [|by repeat constructor; set_solver]. cbn. intros x Hx ->%list_elem_of_singleton. apply list_elem_of_In, in_map_iff in Hx as (e & Ee & He%list_elem_of_In). by apply (Hlk e). }
  unfold nset_add. rewrite E1. cbn [mbind option_bind]. fold cur. assert (HB : bsearch_ items cur st1 = Some (index_of (Some n, b, w) (map (part_of G) items))).
  { rewrite <- EC, <- EP. apply (bsearch_ok st1 ({[k]} ∪ D)); [done| |set_solver]. intros e He. destruct (HP e He) as [H1 H2]. split; [set_solver|]. split; [by rewrite Hko|]. cbn. by apply Hlk. }
  assert (Hnew : (Some n, b, w) ∉ map (part_of G) items -> exists D' G', stands st1 D' G' /\ nset_ok D' G' (items ++ [cur]) /\ map (part_of G') (items ++ [cur]) = padd (Some n, b, w) (map (part_of G) items) /\
    D ⊆ D' /\ D' ⊆ {[k]} ∪ D /\ (forall l, l ∈ D -> key_of G' l = key_of G l) /\ (forall m, is_Some (G !! m) -> is_Some (G' !! m)) /\ (forall e, e ∈ items ++ [cur] -> e ∈ items \/ lnk e = k)).
  { intros Hn. exists ({[k]} ∪ D), G1. split_and!; try done; [|set_solver|intros e [He| ->%list_elem_of_singleton]%elem_of_app; [by left|by right]]. unfold padd. rewrite decide_False, map_app, EP by done. cbn. by rewrite EC. }
  destruct (decide (items = [])) as [->|Hni]; [destruct Hnew as (D' & G' & HX); [set_solver|]; exists [cur], st1, D', G'; by split|].
  rewrite (match_cons items) by done. rewrite HB. cbn [mbind option_bind].
  destruct (Nat.ltb_spec (index_of (Some n, b, w) (map (part_of G) items)) (length items)) as [Hlt|Hge].
  - pose proof HS1 as (v1 & _ & HR1 & _). destruct (link_delete_ok st1 _ G1 k HS1) as (st2 & E2 & HS2); [set_solver|]. cbn [lnk cur]. rewrite E2. cbn [mbind option_bind].
    assert (EG : delete_class k G1 = G).
    { apply delete_appended; [by apply (stands_loose st D)|done| |]; [|intros m M HM Hin; eapply (rp_disjoint _ _ HR1); [exact HM|unfold G1; by rewrite lookup_insert_eq|exact Hin|set_solver]].
      pose proof HS as (v & _ & HR & _). destruct (class_nonempty v G n L HR HL) as (y & L' & ->). done. }
    rewrite EG in HS2. replace (({[k]} ∪ D) ∖ {[k]}) with D in HS2 by set_solver. exists items, st2, D, G. split_and!; try done; [|set_solver|by left]. unfold padd. rewrite decide_True; [done|]. rewrite <- index_of_lt. by rewrite length_map.
  - assert (Hn : (Some n, b, w) ∉ map (part_of G) items) by (rewrite <- index_of_lt, length_map; lia). assert (EI : index_of (Some n, b, w) (map (part_of G) items) = length items) by (pose proof (index_of_le (Some n, b, w) (map (part_of G) items)) as H; rewrite length_map in H; lia).
    rewrite EI, Nat.eqb_refl. cbn [assert_that mbind option_bind]. destruct (Hnew Hn) as (D' & G' & HX). exists (items ++ [cur]), st1, D', G'. by split.
Qed.

(** ** What two sets say of each other *)

(** The part [p] covers the part [q]; ends are unsigned. *)
Definition part_covers (p q : option nat * Z * Z) : bool :=
  let '(n, b, w) := p in let '(m, c, v) := q in bool_decide (n = m) && (b <=? c) && ((c + v) mod 2 ^ 32 <=? (b + w) mod 2 ^ 32).

(** The links of the elements of [items] are not those of [that]. *)
Definition apart (items that : list elem_t) : Prop := forall e d, e ∈ items -> d ∈ that -> lnk e <> lnk d.

Lemma elem_contains_ok st D G x y : stands st D G -> lnk x ∈ D -> lnk y ∈ D -> lnk x <> lnk y -> key_of G (lnk x) <> None -> elem_contains x y st = Some (part_covers (part_of G x) (part_of G y)).
Proof.
  intros HS Hx Hy Hxy Hk. pose proof HS as (w & _ & HR & _). destruct (key_of G (lnk x)) as [n|] eqn:En; [|done]. unfold elem_contains. rewrite (is_linked_to_ok st D G) by done. cbn [mbind option_bind]. rewrite bool_decide_eq_false_2 by done. cbn [negb andb].
  rewrite (same_class_key w G _ _ n) by done. f_equal. unfold part_of, part_covers. case_bool_decide; cbn [negb andb]; [|done]. rewrite Z.ltb_antisym. destruct (base x <=? base y); cbn [negb andb]; [|done]. rewrite Z.ltb_antisym. by destruct (_ <=? _).
Qed.

Section TwoSets.
Context (st : netlist) (D : gset nat) (G : gmap nat (list nat)) (HS : stands st D G).

Lemma contains_one items y : nset_ok D G items -> lnk y ∈ D -> (forall e, e ∈ items -> lnk e <> lnk y) -> contains_ items y st = Some (existsb (fun p => part_covers p (part_of G y)) (map (part_of G) items)).
Proof.
  intros [HP _] Hy. induction items as [|x items IH]; intros Ha; [done|]. destruct (HP x) as [Hx Hk]; [by left|]. cbn. rewrite (elem_contains_ok st D G) by (done || by apply Ha; left). cbn. case_match; [done|].
  apply IH; intros e He; [apply HP|apply Ha]; by right.
Qed.

Lemma contains_all items that : nset_ok D G items -> nset_ok D G that -> apart items that ->
  nset_contains items that st = Some (forallb (fun q => existsb (fun p => part_covers p q) (map (part_of G) items)) (map (part_of G) that)).
Proof.
  intros HI [HP _]. induction that as [|y that IH]; intros Ha; [done|]. destruct (HP y) as [Hy _]; [by left|]. cbn. rewrite contains_one; [|done|done|intros e He; apply Ha; [done|by left]]. cbn. case_match; [|done].
  apply IH; [intros e He; apply HP; by right|intros e d He Hd; apply Ha; [done|by right]].
Qed.

Lemma intersect_ok items that : nset_ok D G items -> nset_ok D G that -> apart items that ->
  nset_intersect items that st = Some (existsb (fun q => bool_decide (q ∈ map (part_of G) items)) (map (part_of G) that)).
Proof.
  intros [HI _] [HP _]. induction that as [|y that IH]; intros Ha; [done|]. destruct (HP y) as [Hy _]; [by left|]. cbn. rewrite (bsearch_ok st D G); [|done|intros e He; destruct (HI e He); split_and!; [done|done|apply Ha; [done|by left]]|done]. cbn [mbind option_bind].
  pose proof (index_of_lt (part_of G y) (map (part_of G) items)) as HL. pose proof (index_of_le (part_of G y) (map (part_of G) items)) as HLe. rewrite length_map in *. destruct (Nat.eqb_spec (index_of (part_of G y) (map (part_of G) items)) (length items)) as [E|E].
  - rewrite bool_decide_eq_false_2 by (rewrite <- HL; lia). cbn [orb]. apply IH; [intros e He; apply HP; by right|intros e d He Hd; apply Ha; [done|by right]].
  - by rewrite bool_decide_eq_true_2 by (rewrite <- HL; lia).
Qed.
End TwoSets.

(** ** Removal *)

Lemma take_drop_index {A} {E : EqDecision A} (p : A) (l : list A) : NoDup l -> p ∈ l -> take (index_of p l) l ++ drop (S (index_of p l)) l = filter (fun x => x <> p) l.
Proof.
  induction 1 as [|x l Hx Hl IH]; intros Hp; [by apply elem_of_nil in Hp|]. cbn [index_of]. destruct (decide (x = p)) as [->|Hne].
  - rewrite filter_cons_False by (intros H; by apply H). cbn. rewrite drop_0. clear -Hx. induction l as [|y l IH]; [done|]. rewrite filter_cons_True by (intros ->; apply Hx; by left). f_equal. apply IH. intros Hin. apply Hx. by right.
  - rewrite filter_cons_True by done. cbn. f_equal. apply IH. by apply elem_of_cons in Hp as [->|].
Qed.

Lemma filter_absent {A} {E : EqDecision A} (p : A) (l : list A) : p ∉ l -> filter (fun x => x <> p) l = l.
Proof. induction l as [|y l IH]; intros Hp; [done|]. rewrite filter_cons_True by (intros ->; apply Hp; by left). f_equal. apply IH. intros Hin. apply Hp. by right. Qed.

Lemma take_map_ {A B} (f : A -> B) n l : take n (map f l) = map f (take n l).
Proof. revert l. induction n as [|n IH]; intros [|x l]; cbn; [done..|]. by rewrite IH. Qed.
Lemma drop_map_ {A B} (f : A -> B) n l : drop n (map f l) = map f (drop n l).
Proof. revert l. induction n as [|n IH]; intros [|x l]; cbn; [done..|]. by rewrite IH. Qed.

Lemma nset_rem_one st D G items y : stands st D G -> nset_ok D G items -> lnk y ∈ D -> (forall e, e ∈ items -> lnk e <> lnk y) -> NoDup (map (part_of G) items) ->
  exists items' st' D' G', nset_rem_ y items st = Some (items', st') /\ stands st' D' G' /\ nset_ok D' G' items' /\ map (part_of G') items' = filter (fun p => p <> part_of G y) (map (part_of G) items) /\
    (forall l, l ∈ D -> l ∉ map lnk items -> l ∈ D' /\ key_of G' l = key_of G l) /\ (forall e, e ∈ items' -> e ∈ items).
Proof.
  intros HS [HP HN] Hy Ha HND. set (i := index_of (part_of G y) (map (part_of G) items)). assert (HB : bsearch_ items y st = Some i) by (apply (bsearch_ok st D G); [done|intros e He; destruct (HP e He); split_and!; [done|done|by apply Ha]|done]).
  pose proof (index_of_lt (part_of G y) (map (part_of G) items)) as HL. rewrite length_map in HL. fold i in HL. assert (Hkeep : (length items <= i)%nat -> exists D' G', stands st D' G' /\ nset_ok D' G' items /\ map (part_of G') items = filter (fun p => p <> part_of G y) (map (part_of G) items) /\
    (forall l, l ∈ D -> l ∉ map lnk items -> l ∈ D' /\ key_of G' l = key_of G l) /\ (forall e, e ∈ items -> e ∈ items)).
  { intros Hge. exists D, G. split_and!; try done. rewrite filter_absent; [done|]. rewrite <- HL. lia. }
  assert (Hdel : forall x, items !! i = Some x -> exists st' D' G', link_delete (lnk x) st = Some st' /\ stands st' D' G' /\ nset_ok D' G' (take i items ++ drop (S i) items) /\
    map (part_of G') (take i items ++ drop (S i) items) = filter (fun p => p <> part_of G y) (map (part_of G) items) /\ (forall l, l ∈ D -> l ∉ map lnk items -> l ∈ D' /\ key_of G' l = key_of G l) /\ (forall e, e ∈ take i items ++ drop (S i) items -> e ∈ items)).
  { intros x Ex. assert (Hx : x ∈ items) by by apply list_elem_of_lookup_2 in Ex. assert (Hi : (i < length items)%nat) by by apply lookup_lt_Some in Ex. destruct (HP x Hx) as [HxD _]. destruct (link_delete_ok st D G (lnk x) HS HxD) as (st' & E' & HS'). exists st', (D ∖ {[lnk x]}), (delete_class (lnk x) G). split; [done|]. split; [done|].
    pose proof HS as (w & _ & HR & _). pose proof HS' as (w' & _ & HR' & _). pose proof (take_drop_middle items i x Ex) as EM. assert (HNm : NoDup (map lnk (take i items) ++ lnk x :: map lnk (drop (S i) items))) by (rewrite <- EM, map_app in HN; exact HN).
    apply list.NoDup_app in HNm as (N1 & N2 & [N3 N4]%list.NoDup_cons). assert (HM : forall (e : elem_t) l, e ∈ l -> lnk e ∈ map lnk l) by (intros e l He; apply list_elem_of_In, in_map; by apply list_elem_of_In).
    assert (Hin : forall e, e ∈ take i items ++ drop (S i) items -> e ∈ items /\ lnk e <> lnk x).
    { intros e He. split; [rewrite <- EM; set_solver|]. intros El. apply elem_of_app in He as [He|He]; apply HM in He; rewrite El in He; [apply (N2 _ He); by left|done]. }
    assert (Hkey : forall l, l <> lnk x -> key_of (delete_class (lnk x) G) l = key_of G l) by (intros l Hl; by apply (key_deleted w w')). split_and!.
    - split; [intros e He; destruct (Hin e He) as [He' Hne]; destruct (HP e He') as [H1 H2]; split; [set_solver|by rewrite Hkey]|]. rewrite map_app. apply list.NoDup_app. split_and!; [done| |done]. intros l Hl Hl'. apply (N2 l Hl). by right.
    - rewrite (parts_same G) by (intros e He; apply Hkey; by apply Hin). rewrite map_app, <- take_map_, <- drop_map_. apply take_drop_index; [done|]. rewrite <- HL. done.
    - intros l Hl Hnl. assert (l <> lnk x) by (intros ->; apply Hnl; by apply HM). split; [set_solver|]. by apply Hkey.
    - intros e He. by apply Hin. }
  unfold nset_rem_. destruct (decide (items = [])) as [->|Hni]; [destruct (Hkeep (Nat.le_0_l _)) as (D' & G' & HX); exists [], st, D', G'; by split|]. destruct items as [|x0 rest] eqn:EI; [done|]. rewrite <- EI in *. rewrite HB. cbn [mbind option_bind].
  destruct (Nat.leb_spec (length items) i) as [Hge|Hlt]; [destruct (Hkeep Hge) as (D' & G' & HX); exists items, st, D', G'; by split|].
  destruct (lookup_lt_is_Some_2 items i Hlt) as [x Ex]. destruct (Hdel x Ex) as (st' & D' & G' & E' & HX). destruct (Nat.eqb_spec (length items) 1) as [H1|H1].
  - clearbody i. subst items. destruct rest; [|cbn in H1; lia]. assert (Hi0 : i = 0%nat) by (cbn in Hlt; lia). rewrite Hi0 in Ex, HX. injection Ex as <-. rewrite E'. cbn. exists [], st', D', G'. by split.
  - rewrite Ex. cbn [mbind option_bind]. rewrite E'. cbn [mbind option_bind]. eexists _, st', D', G'. by split.
Qed.

Lemma nset_rem_ok that : forall st D G items, stands st D G -> nset_ok D G items -> (forall y, y ∈ that -> lnk y ∈ D) -> apart items that -> NoDup (map (part_of G) items) ->
  exists items' st' D' G', nset_rem that items st = Some (items', st') /\ stands st' D' G' /\ nset_ok D' G' items' /\ map (part_of G') items' = filter (fun p => p ∉ map (part_of G) that) (map (part_of G) items).
Proof.
  induction that as [|y that IH]; intros st D G items HS HI Hy Ha HN.
  - exists items, st, D, G. split_and!; try done. rewrite (list_filter_iff _ (fun _ => True)) by (intros x; split; [done|intros _; by apply not_elem_of_nil]). symmetry. clear. induction (map (part_of G) items) as [|p l IH]; [done|]. by rewrite filter_cons_True, IH.
  - destruct (nset_rem_one st D G items y) as (items1 & st1 & D1 & G1 & E1 & HS1 & HI1 & EP & HK & Hsub); [done|done|apply Hy; by left|intros e He; apply Ha; [done|by left]|done|]. cbn. rewrite E1. cbn [mbind option_bind].
    assert (HO : forall d, d ∈ that -> lnk d ∈ D1 /\ key_of G1 (lnk d) = key_of G (lnk d)).
    { intros d Hd. apply HK; [apply Hy; by right|]. intros Hin. apply list_elem_of_In, in_map_iff in Hin as (e & Ee & He%list_elem_of_In). apply (Ha e d); [done|by right|done]. }
    destruct (IH st1 D1 G1 items1) as (items2 & st2 & D2 & G2 & E2 & HS2 & HI2 & EP2); [done|done|intros d Hd; by apply HO|intros e d He Hd; apply Ha; [by apply Hsub|by right]|rewrite EP; by apply list.NoDup_filter|].
    exists items2, st2, D2, G2. split_and!; try done. rewrite EP2, EP, list_filter_filter. rewrite (parts_same G G1 that) by (intros d Hd; by apply HO). apply list_filter_iff. intros p. cbn. rewrite not_elem_of_cons. tauto.
Qed.

(** ** Sets that are built *)

(** A part of a nexus to add, with the link of its element. *)
Definition part_rq : Type := nat * nat * Z * Z.
Definition rq_key (x : part_rq) : nat := fst (fst (fst x)).
Definition rq_part (x : part_rq) : option nat * Z * Z := let '(_, n, b, w) := x in (Some n, b, w).
Definition rq_valid (G : gmap nat (list nat)) (x : part_rq) : Prop := is_Some (G !! snd (fst (fst x))).

Fixpoint nset_adds (l : list part_rq) (items : list elem_t) (st : netlist) : option (list elem_t * netlist) :=
  match l with [] => Some (items, st) | (k, n, b, w) :: l => '(items, st) ← nset_add k n b w items st; nset_adds l items st end.

(** The parts without repetitions, in their order. *)
Definition parts (l : list part_rq) (ps : list (option nat * Z * Z)) : list (option nat * Z * Z) := fold_left (fun ps x => padd (rq_part x) ps) l ps.

Lemma parts_nodup l : forall ps, NoDup ps -> NoDup (parts l ps).
Proof.
  induction l as [|x l IH]; intros ps HN; [done|]. apply IH. unfold padd. destruct (decide _); [done|]. apply list.NoDup_app. split; [done|]. split; [|by repeat constructor; set_solver]. intros p Hp ->%list_elem_of_singleton. done.
Qed.

Lemma nset_adds_ok l : forall st D G items, stands st D G -> nset_ok D G items -> NoDup (map rq_key l) -> (forall x, x ∈ l -> rq_key x ∉ D /\ rq_valid G x) ->
  exists items' st' D' G', nset_adds l items st = Some (items', st') /\ stands st' D' G' /\ nset_ok D' G' items' /\ map (part_of G') items' = parts l (map (part_of G) items) /\ D ⊆ D' /\ (forall k, k ∈ D' -> k ∈ D \/ k ∈ map rq_key l) /\
    (forall k, k ∈ D -> key_of G' k = key_of G k) /\ (forall m, is_Some (G !! m) -> is_Some (G' !! m)) /\ (forall e, e ∈ items' -> e ∈ items \/ lnk e ∈ map rq_key l).
Proof.
  induction l as [|[[[k n] b] w] l IH]; intros st D G items HS HI HN Hv.
  - exists items, st, D, G. split_and!; try done; by left.
  - apply list.NoDup_cons in HN as [Hkl HN]. destruct (Hv (k, n, b, w)) as [Hk [L HL]]; [by left|]. cbn in Hk, HL.
    destruct (nset_add_ok st D G items k n L b w) as (items1 & st1 & D1 & G1 & E1 & HS1 & HI1 & EP1 & S1 & S2 & HK1 & HG1 & HE1); try done. cbn. rewrite E1. cbn [mbind option_bind].
    destruct (IH st1 D1 G1 items1) as (items2 & st2 & D2 & G2 & E2 & HS2 & HI2 & EP2 & S3 & S4 & HK2 & HG2 & HE2); [done|done|done| |].
    { intros x Hx. destruct (Hv x) as [Hx1 Hx2]; [by right|]. split; [|by apply HG1]. intros Hin. apply S2 in Hin. apply elem_of_union in Hin as [Hin%elem_of_singleton|Hin]; [|done]. apply Hkl. cbn. rewrite <- Hin. apply list_elem_of_In, in_map. by apply list_elem_of_In. }
    exists items2, st2, D2, G2. split_and!; try done.
    + by rewrite EP2, EP1.
    + by transitivity D1.
    + intros j Hj. apply S4 in Hj as [Hj|Hj]; [|right; by right]. apply S2, elem_of_union in Hj as [->%elem_of_singleton|Hj]; [right; by left|by left].
    + intros j Hj. rewrite HK2 by by apply S1. by apply HK1.
    + auto.
    + intros e He. apply HE2 in He as [He|He]; [|right; by right]. apply HE1 in He as [He| ->]; [by left|right; by left].
Qed.


(** Two pins on one nexus, a third on another. *)
Definition demo_net : netlist := default netlist_empty (st ← net_run [OpNew 0; OpNew 1; OpNew 2; OpConnect 0 1; OpNexus 2] netlist_empty; Some st).
Definition demo_classes : gmap nat (list nat) := nexus_class 1 2 (join_classes 0 0 1 ∅).

Definition demo_pins : gset nat := {[2%nat]} ∪ ({[1%nat]} ∪ ({[0%nat]} ∪ ∅)).

Lemma demo_stands : stands demo_net demo_pins demo_classes.
Proof.
  pose proof (link_new_ok _ _ _ 2 (link_new_ok _ _ _ 1 (link_new_ok _ _ _ 0 stands_empty ltac:(set_solver)) ltac:(set_solver)) ltac:(set_solver)) as H.
  destruct (connect_ok _ _ _ 0 1 H) as (st1 & E1 & H1); [done|set_solver|set_solver|]. destruct (link_nexus_ok _ _ _ 2 H1) as (st2 & E2 & H2); [set_solver|].
  assert (EF : fresh st1 = 1%nat) by (vm_compute in E1; injection E1 as <-; done). unfold demo_net. cbn [net_run net_step mbind option_bind]. cbn [fresh link_new netlist_empty] in *.
  rewrite E1. cbn [mbind option_bind]. rewrite E2. cbn. rewrite EF in H2. exact H2.
Qed.

Definition demo_ps : list part_rq := [(3%nat, 0%nat, 0, 8); (4%nat, 1%nat, 0, 4); (5%nat, 0%nat, 0, 8)].
Definition demo_qs : list part_rq := [(6%nat, 0%nat, 2, 4)].


(** The declaration of [contains] says that every bit of the other set is accounted for; the two
    halves of a vector do not contain the whole. *)
Example contains_by_single_parts :
  ('(a, st) ← nset_adds [(3%nat, 0%nat, 0, 4); (4%nat, 0%nat, 4, 4)] [] demo_net; '(b, st) ← nset_adds [(5%nat, 0%nat, 0, 8)] [] st; nset_contains a b st) = Some false.
Proof. vm_compute. reflexivity. Qed.

(** The declaration of [intersect] says that the sets have a nexus in common; two parts of one
    nexus that differ do not intersect, even where they overlap. *)
Example intersect_by_equal_parts :
  ('(a, st) ← nset_adds [(3%nat, 0%nat, 0, 8)] [] demo_net; '(b, st) ← nset_adds [(4%nat, 0%nat, 2, 4)] [] st; nset_intersect a b st) = Some false.
Proof. vm_compute. reflexivity. Qed.
