(* ===== verification/ThreadProps.v ===== *)
(** The instructions of the thread interpreter compute the operators of Verilog: one theorem
    per family of instructions, on the whole effect of the instruction on the thread. *)
From S2P Require Import Prelude MachineWord VvpBit VvpVector4 VvpSlice WordArith VvpArith VvpVector2 VvpCompare.
From S2P Require Import BitList VvpFunctor WordDiv VThread VThreadSpec VThreadParts VThreadIndex VThreadDiv.
From S2P Require Import VThreadMod.

(** * Tables of instructions *)

(** Instructions on two vectors of the same width. *)
Definition vector_op (i : instr) : option (list vvp_bit4_t -> list vvp_bit4_t -> list vvp_bit4_t) :=
  match i with
  | ADD => Some bv_add | SUB => Some bv_sub | MUL => Some bv_mul
  | MOD => Some (bv_mod false) | MOD_S => Some (bv_mod true)
  | AND => Some (bv_map2 bit4_and) | OR => Some (bv_map2 bit4_or) | XOR => Some (bv_map2 bit4_xor)
  | NAND => Some (bv_map2 (fun x y => bit4_not (bit4_and x y)))
  | NOR => Some (bv_map2 (fun x y => bit4_not (bit4_or x y)))
  | XNOR => Some (bv_map2 (fun x y => bit4_not (bit4_xor x y)))
  | BLEND => Some (fun l r => bv_map2 bit_blend r l)
  | _ => None
  end.

(** Instructions on one vector. *)
Definition vector_op1 (i : instr) : option (list vvp_bit4_t -> list vvp_bit4_t) :=
  match i with
  | INV => Some (map bit4_not) | CAST2 => Some (map bit_cast2)
  | ANDR => Some (bv_reduce_with bit4_and BIT4_1) | NANDR => Some (fun l => map bit4_not (bv_reduce_with bit4_and BIT4_1 l))
  | ORR => Some (bv_reduce_with bit4_or BIT4_0) | NORR => Some (fun l => map bit4_not (bv_reduce_with bit4_or BIT4_0 l))
  | XORR => Some (bv_reduce_with bit4_xor BIT4_0) | XNORR => Some (fun l => map bit4_not (bv_reduce_with bit4_xor BIT4_0 l))
  | PAD_S n => Some (bv_pad true n) | PAD_U n => Some (bv_pad false n)
  | REPLICATE n => Some (copies n)
  | PARTI_S n base w => Some (bv_part (parti_base true base w) n)
  | PARTI_U n base w => Some (bv_part (parti_base false base w) n)
  | _ => None
  end.

(** [i] pops [n] vectors and pushes one with the bits [l]. *)
Definition replaces (d : design) (i : instr) (thr : vthread) (st : list vvp_vector4_t) (l : list vvp_bit4_t) : Prop :=
  exists v, exec d i thr = Some (with_stack thr (v :: st)) /\ vec_is v l.

Lemma binary_replaces d i f thr vl vr st x :
  exec d i = binary f -> stack_vec4_ thr = vr :: vl :: st -> (exists v, f vl vr = Some v /\ vec_is v x) -> replaces d i thr st x.
Proof.
  intros Ei Es (v & Ef & Hv). exists v. split; [|done]. rewrite Ei. unfold binary, pop_vec4. rewrite Es. cbn. by rewrite Ef.
Qed.

Lemma unary_replaces d i f thr v st x :
  exec d i = unary f -> stack_vec4_ thr = v :: st -> (exists r, f v = Some r /\ vec_is r x) -> replaces d i thr st x.
Proof.
  intros Ei Es (r & Ef & Hr). exists r. split; [|done]. rewrite Ei. unfold unary, peek_vec4, poke_top. rewrite Es. cbn. by rewrite Ef.
Qed.

(** * The theorems *)

(** C34: the arithmetic, remainder and bitwise instructions on two vectors of the same width
    replace them by the result of the operator: arithmetic modulo 2^width, all X with an
    unknown operand bit or a zero divisor, the four-valued tables bit by bit.  The remainder
    is right at every width, in native words and by the long division on bits. *)
Theorem binary_instructions d i g thr vl vr st l r :
  vector_op i = Some g -> stack_vec4_ thr = vr :: vl :: st -> vec_is vl l -> vec_is vr r ->
  length l = length r -> (0 < length l)%nat -> replaces d i thr st (g l r).
Proof.
  intros Hi Es Hl Hr Hlen H0. destruct i; try done; injection Hi as <-; eapply binary_replaces; try done.
  - by apply add_implements.
  - by apply sub_implements.
  - by apply mul_implements.
  - by apply (mod_implements false).
  - by apply (mod_implements true).
  - by apply and_implements.
  - by apply or_implements.
  - by apply (bit_loop_implements (fun x y => bit4_not (bit4_and x y))).
  - by apply (bit_loop_implements (fun x y => bit4_not (bit4_or x y))).
  - by apply (bit_loop_implements bit4_xor).
  - by apply (bit_loop_implements (fun x y => bit4_not (bit4_xor x y))).
  - by apply blend_implements.
Qed.

(** The instructions on one vector: inversion, reductions, the cast to two values,
    padding, replication and the selection of an immediate range, X outside the vector. *)
Theorem unary_instructions d i g thr v st l :
  vector_op1 i = Some g -> stack_vec4_ thr = v :: st -> vec_is v l -> (0 < length l)%nat ->
  match i with PARTI_S n _ _ | PARTI_U n _ _ => (0 < n)%nat | _ => True end -> replaces d i thr st (g l).
Proof.
  intros Hi Es Hv H0 Hn. destruct i; try done; injection Hi as <-; eapply unary_replaces; try done.
  - by apply inv_implements.
  - by apply andr_implements.
  - by apply nandr_implements.
  - by apply orr_implements.
  - by apply norr_implements.
  - by apply xorr_implements.
  - by apply xnorr_implements.
  - by apply cast2_implements.
  - by apply replicate_is.
  - eexists. split; [done|]. by apply pad_s_is.
  - eexists. split; [done|]. by apply pad_u_is.
  - by apply part_select_is.
  - by apply part_select_is.
Qed.

(** C35: the division instructions truncate toward zero up to 127 bits unsigned and 128
    signed, where the word-by-word division cannot overflow; division by zero and unknown
    bits give X. *)
Theorem division_instruction (signed : bool) d thr vl vr st l r :
  stack_vec4_ thr = vr :: vl :: st -> vec_is vl l -> vec_is vr r -> length l = length r -> (0 < length l <= max_div signed)%nat ->
  replaces d (if signed then DIV_S else DIV) thr st (bv_div signed l r).
Proof.
  intros Es Hl Hr Hlen Hw. destruct signed; eapply binary_replaces; try done.
  - by apply div_s_implements.
  - by apply div_implements.
Qed.

(** C36: the word-by-word division terminates and is right whenever each estimate of a digit
    fits: with a one-word divisor of any size, or with a dividend below half of the array
    and a divisor that fills its top word. *)
Theorem word_division ap bp wid :
  (0 < wid)%nat -> words ap -> words bp -> length ap = words_for wid -> length bp = words_for wid ->
  0 < wval bp -> division_fits (words_for wid) ap bp ->
  exists q r, divide_bits ap bp wid = Some (Some (q, r)) /\ wval q = wval ap / wval bp /\ wval r = wval ap mod wval bp.
Proof.
  intros H0 Ha Hb La Lb HB HF. destruct (proj2 (divide_bits_spec ap bp wid H0 Ha Hb La Lb) HB HF) as (q & r & E & _ & _ & Hq & _ & _ & Hr).
  by exists q, r.
Qed.

(** Outside that domain the division is wrong: for (2^128 - 1) / (2^64 + 2^64 - 1) the
    code gives 2^64 - 1 where the quotient is 2^63, and for 2^128 / (2^64 + 1) at 192 bits it
    gives 0. *)
Theorem word_division_wrong :
  (exists q r, divide_bits [wones; wones] [wones; 1] 128 = Some (Some (q, r)) /\
     wval q = wones /\ wval [wones; wones] / wval [wones; 1] = 2 ^ 63) /\
  (exists q r, divide_bits [0; 0; 1] [1; 1; 0] 192 = Some (Some (q, r)) /\
     wval q = 0 /\ wval [0; 0; 1] / wval [1; 1; 0] = wones).
Proof. split; eexists _, _; (split; [vm_compute; reflexivity|split; vm_compute; reflexivity]). Qed.

(** The power instructions: modulo 2^width for an exponent that is not negative; for a
    negative one, X for the base 0, 1 or -1 for the bases 1 and -1 and 0 otherwise, with a
    signed base of at most 32 bits. *)
Theorem power_instruction (base_signed exp_signed : bool) d thr vl vr st l r :
  stack_vec4_ thr = vr :: vl :: st -> vec_is vl l -> vec_is vr r -> (0 < length l)%nat -> (0 < length r)%nat ->
  pow_fits base_signed exp_signed (length l) = true ->
  replaces d (if exp_signed then POW_S else POW) thr st (bv_pow base_signed exp_signed l r).
Proof.
  intros Es Hl Hr H0 H1 Hf.
  pose proof (pow_implements base_signed exp_signed vl vr l r Hl Hr H0 H1 Hf) as H.
  destruct exp_signed; eapply binary_replaces; try done.
Qed.

(** The comparison instructions pop both operands and leave equality in flag 4, less-than
    in flag 5 and case equality in flag 6: equality is 0 as soon as two known bits differ and
    X when only unknown bits are in the way; an ordering is X with any unknown bit. *)
Theorem comparison_instructions d thr vl vr st l r :
  wf_thread thr -> stack_vec4_ thr = vr :: vl :: st -> vec_is vl l -> vec_is vr r -> length l = length r -> (0 < length l)%nat ->
  let popped := with_stack thr st in
  exec d CMPE thr = Some (put_flag 6 (bv_eeq l r) (put_flag 4 (bv_eq l r) popped)) /\
  exec d CMPWE thr = Some (put_flag 4 (bv_weq l r) popped) /\
  exec d CMPU thr = Some (put_flags3 (bv_eq l r) (bv_lt false l r) (bv_eeq l r) popped) /\
  exec d CMPS thr = Some (put_flags3 (bv_eq_known l r) (bv_lt true l r) (bv_eeq l r) popped).
Proof.
  intros Hw Es Hl Hr Hlen H0 popped.
  assert (Hpop : forall i cmp t, exec d i = compare cmp -> cmp vl vr thr = Some t -> stack_vec4_ t = stack_vec4_ thr ->
    exec d i thr = Some (with_stack t st)).
  { intros i cmp t Ei Ec Et. rewrite Ei. unfold compare, peek_vec4. rewrite Es. cbn. rewrite Ec. cbn.
    unfold pop_vec4_n. by rewrite Et, Es. }
  split_and!.
  - by rewrite (Hpop CMPE do_CMPE _ eq_refl (do_CMPE_is vl vr l r Hl Hr Hlen H0 thr Hw) eq_refl).
  - by rewrite (Hpop CMPWE do_CMPWE _ eq_refl (do_CMPWE_is vl vr l r Hl Hr Hlen H0 thr Hw) eq_refl).
  - by rewrite (Hpop CMPU do_CMPU _ eq_refl (do_CMPU_is vl vr l r Hl Hr Hlen H0 thr Hw) eq_refl).
  - by rewrite (Hpop CMPS do_CMPS _ eq_refl (do_CMPS_is vl vr l r Hl Hr Hlen H0 thr Hw) eq_refl).
Qed.

(** C37: a shift count goes through an index register: after [%ix/vec4] on any unsigned vector
    of any width, [%shiftl] and [%shiftr] shift by its value, fill when it reaches the width,
    and give X for unknown bits; [%shiftr/s] fills with the sign. *)
Theorem shift_instructions d k thr vs v st s l :
  wf_thread thr -> (k < WORDS_COUNT)%nat -> stack_vec4_ thr = vs :: v :: st -> vec_is vs s -> vec_is v l ->
  (0 < length s)%nat -> width_fits (length l) ->
  exists thr', exec d (IX_VEC4 k) thr = Some thr' /\
    replaces d (SHIFTL k) thr' st (bv_shift bv_shl l s) /\
    replaces d (SHIFTR k) thr' st (bv_shift (bv_shr BIT4_0) l s) /\
    replaces d (SHIFTR_S k) thr' st (bv_shift (bv_shr (msb l)) l s).
Proof.
  intros Hw Hk Es Hs Hv H0 Hf. eexists. split; [by eapply of_IX_VEC4_is|].
  set (t := put_word _ _ _).
  assert (Hreg : get_word t k = Some (index_reg false s)).
  { unfold get_word, t, put_word. cbn [regs]. apply list_lookup_insert_eq. cbn. destruct Hw as [_ ->]. done. }
  assert (Hflag : get_flag t 4 = Some (index_flag false s)).
  { change (get_flag t 4) with (get_flag (put_flag 4 (index_flag false s) (with_stack thr (v :: st))) 4).
    by rewrite get_put_flag by (auto with thread || small_flag). }
  assert (Hgo : forall i f x, exec d i = by_index f k -> (exists r, f (index_flag false s) (index_reg false s) v = Some r /\ vec_is r x) ->
    replaces d i t st x).
  { intros i f x Ei (r & Ef & Hr). exists r. split; [|done]. rewrite Ei. unfold by_index. rewrite Hreg, Hflag. cbn.
    unfold unary, peek_vec4, poke_top. cbn. by rewrite Ef. }
  split_and!; (eapply Hgo; [done|]).
  - by apply shiftl_is.
  - by apply (shiftr_is (fun _ => BIT4_0)).
  - destruct (shiftr_is (fun val => value val (size val - 1)) v l s Hv Hf) as (r & E & Hr). exists r. split; [done|].
    unfold msb. by rewrite <- (vec_is_value _ _ _ Hv), <- (vec_is_size _ _ Hv).
Qed.

(** [%part] selects bits from a base on the stack, signed or not, with X for positions
    outside the vector and for an unknown base, when the base fits the 32 bits it is cut to. *)
Theorem part_instructions (signed : bool) d wid thr vb v st b l :
  stack_vec4_ thr = vb :: v :: st -> vec_is vb b -> vec_is v l -> (0 < wid)%nat -> (0 < length l)%nat -> Z.of_nat (length l) <= 2 ^ 31 ->
  (0 < length b)%nat -> base_fits signed wid (length b) = true ->
  replaces d (if signed then PART_S wid else PART_U wid) thr st (bv_select signed wid l b).
Proof.
  intros Es Hb Hv Hw Hl Hl2 Hb0 Hf. pose proof (part_is signed wid v vb l b Hv Hb Hw Hl Hl2 Hb0 Hf) as H.
  destruct signed; eapply binary_replaces; try done.
Qed.

(** Outside those 32 bits [%part] is wrong: a 33-bit base of 2^32 selects bit 0. *)
Theorem part_base_cut :
  exists r, part false 1 (vec4_fill 8 BIT4_1) (mkVec4 33 [2 ^ 32] [0]) = Some r /\ bits_of r = [BIT4_1] /\
    bv_Z (bits_of (mkVec4 33 [2 ^ 32] [0])) = 2 ^ 32.
Proof. eexists. split; [vm_compute; reflexivity|]. split; vm_compute; reflexivity. Qed.

(** * Witnesses *)

Definition small_design : design := mkDesign (fun _ => vec4_fill 8 BIT4_1) (fun _ => mkArray 8 [vec4_fill 8 BIT4_0]).
Definition ones8 : list vvp_bit4_t := replicate 8 BIT4_1.
Definition vones8 : vvp_vector4_t := vec4_fill 8 BIT4_1.
Definition start_thread (st : list vvp_vector4_t) : vthread := mkThread 0 (replicate FLAGS_COUNT BIT4_0) (replicate WORDS_COUNT 0) st.

Lemma start_thread_wf st : wf_thread (start_thread st).
Proof. by split. Qed.

Lemma binary_instructions_witness :
  replaces small_design ADD (start_thread [vones8; vones8]) [] (bv_add ones8 ones8) /\ bv_add ones8 ones8 = of_Z 8 254.
Proof.
  split; [|vm_compute; reflexivity].
  apply (binary_instructions small_design ADD bv_add (start_thread [vones8; vones8]) vones8 vones8 [] ones8 ones8);
    [reflexivity|reflexivity|apply vec_is_fill|apply vec_is_fill|reflexivity|cbn; lia].
Defined.

Lemma unary_instructions_witness :
  replaces small_design (PARTI_U 4 6 8) (start_thread [vones8]) [] (bv_part (parti_base false 6 8) 4 ones8) /\
  bv_part (parti_base false 6 8) 4 ones8 = [BIT4_1; BIT4_1; BIT4_X; BIT4_X].
Proof.
  split; [|vm_compute; reflexivity].
  apply (unary_instructions small_design (PARTI_U 4 6 8) (bv_part (parti_base false 6 8) 4) (start_thread [vones8]) vones8 [] ones8);
    [reflexivity|reflexivity|apply vec_is_fill|cbn; lia|lia].
Defined.

Lemma division_instruction_witness :
  replaces small_design DIV_S (start_thread [vones8; vones8]) [] (bv_div true ones8 ones8) /\ bv_div true ones8 ones8 = of_Z 8 1.
Proof.
  split; [|vm_compute; reflexivity].
  apply (division_instruction true small_design (start_thread [vones8; vones8]) vones8 vones8 [] ones8 ones8);
    [reflexivity|apply vec_is_fill|apply vec_is_fill|reflexivity|cbn; unfold max_div; lia].
Defined.

Lemma word_division_witness :
  exists q r, divide_bits [5; 7] [3; 0] 128 = Some (Some (q, r)) /\ wval q = wval [5; 7] / wval [3; 0] /\ wval r = wval [5; 7] mod wval [3; 0].
Proof.
  apply (word_division [5; 7] [3; 0] 128); [lia|repeat constructor; done|repeat constructor; done|reflexivity|reflexivity|vm_compute; reflexivity|].
  left. exists 0%nat. vm_compute. reflexivity.
Defined.

Lemma power_instruction_witness :
  replaces small_design POW_S (start_thread [vones8; vones8]) [] (bv_pow true true ones8 ones8) /\ bv_pow true true ones8 ones8 = ones8.
Proof.
  split; [|vm_compute; reflexivity].
  apply (power_instruction true true small_design (start_thread [vones8; vones8]) vones8 vones8 [] ones8 ones8);
    [reflexivity|apply vec_is_fill|apply vec_is_fill|cbn; lia|cbn; lia|reflexivity].
Defined.

Lemma comparison_instructions_witness :
  let popped := with_stack (start_thread [vones8; vones8]) [] in
  exec small_design CMPE (start_thread [vones8; vones8]) = Some (put_flag 6 (bv_eeq ones8 ones8) (put_flag 4 (bv_eq ones8 ones8) popped)) /\
  exec small_design CMPWE (start_thread [vones8; vones8]) = Some (put_flag 4 (bv_weq ones8 ones8) popped) /\
  exec small_design CMPU (start_thread [vones8; vones8])
    = Some (put_flags3 (bv_eq ones8 ones8) (bv_lt false ones8 ones8) (bv_eeq ones8 ones8) popped) /\
  exec small_design CMPS (start_thread [vones8; vones8])
    = Some (put_flags3 (bv_eq_known ones8 ones8) (bv_lt true ones8 ones8) (bv_eeq ones8 ones8) popped).
Proof.
  apply (comparison_instructions small_design (start_thread [vones8; vones8]) vones8 vones8 [] ones8 ones8);
    [apply start_thread_wf|reflexivity|apply vec_is_fill|apply vec_is_fill|reflexivity|cbn; lia].
Defined.

Lemma shift_instructions_witness :
  exists thr', exec small_design (IX_VEC4 4) (start_thread [vec4_fill 2 BIT4_1; vones8]) = Some thr' /\
    replaces small_design (SHIFTL 4) thr' [] (bv_shift bv_shl ones8 (replicate 2 BIT4_1)) /\
    replaces small_design (SHIFTR 4) thr' [] (bv_shift (bv_shr BIT4_0) ones8 (replicate 2 BIT4_1)) /\
    replaces small_design (SHIFTR_S 4) thr' [] (bv_shift (bv_shr (msb ones8)) ones8 (replicate 2 BIT4_1)).
Proof.
  apply (shift_instructions small_design 4 (start_thread [vec4_fill 2 BIT4_1; vones8]) (vec4_fill 2 BIT4_1) vones8 []
           (replicate 2 BIT4_1) ones8);
    [apply start_thread_wf|unfold WORDS_COUNT; lia|reflexivity|apply vec_is_fill|apply vec_is_fill|cbn; lia|split; cbn; lia].
Defined.

Lemma part_instructions_witness :
  replaces small_design (PART_U 4) (start_thread [vec4_fill 2 BIT4_1; vones8]) [] (bv_select false 4 ones8 (replicate 2 BIT4_1)) /\
  bv_select false 4 ones8 (replicate 2 BIT4_1) = replicate 4 BIT4_1.
Proof.
  split; [|vm_compute; reflexivity].
  apply (part_instructions false small_design 4 (start_thread [vec4_fill 2 BIT4_1; vones8]) (vec4_fill 2 BIT4_1) vones8 []
           (replicate 2 BIT4_1) ones8);
    [reflexivity|apply vec_is_fill|apply vec_is_fill|lia|cbn; lia|cbn; lia|cbn; lia|reflexivity].
Defined.
