(* ===== verification/CodeGen.v ===== *)
(** The code generator of the vvp target for vector expressions ([tgt-vvp/eval_vec4.c],
    [eval_condit.c], [eval_expr.c]): the [draw_*] functions, the allocation of index registers
    and flags ([eval_real.c], [vvp.c]), the labels of a thread ([vvp_process.c]) and how the
    loader turns the lines into a code space ([vvp/compile.cc]).

    A [draw_*] function is a computation that reads and writes the allocation state and
    emits lines; [None] is a failed [assert] or the [exit] of an exhausted allocation.

    Expressions are those of vector type ([IVL_VT_BOOL] and [IVL_VT_LOGIC]).  Real, string,
    class and dynamic array operands, function calls, properties and the increment operators
    are not modelled. *)
From S2P Require Import Prelude MachineWord VvpBit VvpVector4 VvpSlice WordArith VvpArith VvpVector2 VvpCompare.
From S2P Require Import VvpFunctor WordDiv VThread.

(** * Expressions of the target interface ([ivl_target.h]) *)

Inductive ivl_variable_type := IVL_VT_BOOL | IVL_VT_LOGIC.

Record ivl_signal := mkSignal {
  sig_id : nat;
  ivl_signal_dimensions : nat;
  ivl_signal_is_reg : bool;   (* ivl_signal_type(sig) == IVL_SIT_REG *)
  ivl_signal_signed : bool }.

(** The attributes every expression carries. *)
Record attr := mkAttr { wid_of : nat; signed_of : bool; value_of : ivl_variable_type }.

(** The operators, with the characters of [ivl_expr_opcode]. *)
Inductive unary_op :=
| u_and (* & *) | u_or (* | *) | u_xor (* ^ *) | u_inv (* ~ *) | u_lnot (* ! *) | u_neg (* - *)
| u_nand (* A *) | u_nor (* N *) | u_xnor (* X *) | u_abs (* m *) | u_cast2 (* 2 *).

Inductive binary_op :=
| b_add (* + *) | b_sub (* - *) | b_mul (* * *) | b_div (* / *) | b_mod (* % *) | b_pow (* p *)
| b_and (* & *) | b_or (* | *) | b_xor (* ^ *) | b_nand (* A *) | b_nor (* O *) | b_xnor (* X *)
| b_eq (* e *) | b_ne (* n *) | b_eeq (* E *) | b_nee (* N *) | b_weq (* w *) | b_wne (* W *)
| b_lt (* < *) | b_le (* L *) | b_gt (* > *) | b_ge (* G *)
| b_shl (* l *) | b_shr (* r *) | b_ashr (* R *)
| b_land (* a *) | b_lor (* o *) | b_limpl (* q *) | b_lequiv (* Q *).

#[export] Instance unary_op_dec : EqDecision unary_op. Proof. solve_decision. Defined.
#[export] Instance binary_op_dec : EqDecision binary_op. Proof. solve_decision. Defined.

(** The literal's [bits] have the least significant first, as [ivl_expr_bits]; the characters
    '0', '1', 'x' and 'z' are the values of [vvp_bit4_t]. *)
Inductive ivl_expr :=
| IVL_EX_NUMBER (a : attr) (bits : list vvp_bit4_t)
| IVL_EX_SIGNAL (a : attr) (sig : ivl_signal) (word_ex : option ivl_expr)
| IVL_EX_UNARY (a : attr) (opcode : unary_op) (sub : ivl_expr)
| IVL_EX_BINARY (a : attr) (opcode : binary_op) (le re : ivl_expr)
| IVL_EX_TERNARY (a : attr) (cond true_ex false_ex : ivl_expr)
| IVL_EX_CONCAT (a : attr) (repeat : nat) (parms : list ivl_expr)
| IVL_EX_SELECT (a : attr) (sub : ivl_expr) (base : option ivl_expr).

Definition attr_of (e : ivl_expr) : attr :=
  match e with
  | IVL_EX_NUMBER a _ | IVL_EX_SIGNAL a _ _ | IVL_EX_UNARY a _ _ | IVL_EX_BINARY a _ _ _
  | IVL_EX_TERNARY a _ _ _ | IVL_EX_CONCAT a _ _ | IVL_EX_SELECT a _ _ => a
  end.
Definition ivl_expr_width (e : ivl_expr) : nat := wid_of (attr_of e).
Definition ivl_expr_signed (e : ivl_expr) : bool := signed_of (attr_of e).
Definition ivl_expr_value (e : ivl_expr) : ivl_variable_type := value_of (attr_of e).

(** * Lines, allocation state and computations *)

(** A jump names a label by its number, [T_<thread>.<number>]. *)
Inductive line :=
| Instr (i : instr)
| Label (n : nat).

Record cg := mkCg { word_alloc_mask : Z; allocate_flag_mask : list Z; local_count : nat }.

Definition WORD_COUNT : nat := 16.

(** The initial masks: words 0 to 3 and flags 0 to 7 are never allocated. *)
Definition cg_start : cg := mkCg 15 (255 :: replicate 15 0) 0.

Definition M (A : Type) : Type := cg -> option (A * list line * cg).

#[export] Instance M_ret : MRet M := fun _ a s => Some (a, [], s).
#[export] Instance M_bind : MBind M := fun _ _ k m s =>
  match m s with
  | None => None
  | Some (a, l1, s1) =>
      match k a s1 with None => None | Some (b, l2, s2) => Some (b, l1 ++ l2, s2) end
  end.

Definition emit (i : instr) : M unit := fun s => Some (tt, [Instr i], s).
Definition emit_label (n : nat) : M unit := fun s => Some (tt, [Label n], s).
Definition stop {A} : M A := fun _ => None.
Definition lift {A} (o : option A) : M A := fun s => match o with Some a => Some (a, [], s) | None => None end.
Definition assert_true (b : bool) : M unit := if b then mret tt else stop.

(** [while (res < WORD_COUNT && (1U << res) & word_alloc_mask) res += 1]. *)
Fixpoint next_word (cnt res : nat) (mask : Z) : nat :=
  match cnt with
  | O => res
  | S c => if Z.testbit mask (Z.of_nat res) then next_word c (res + 1) mask else res
  end.

Definition allocate_word : M nat := fun s =>
  let res := next_word (WORD_COUNT - 4) 4 (word_alloc_mask s) in
  if (WORD_COUNT <=? res)%nat then None
  else Some (res, [], mkCg (Z.lor (word_alloc_mask s) (Z.shiftl 1 (Z.of_nat res))) (allocate_flag_mask s) (local_count s)).

Definition clr_word (res : nat) : M unit := fun s =>
  if (res <? WORD_COUNT)%nat
  then Some (tt, [], mkCg (Z.ldiff (word_alloc_mask s) (Z.shiftl 1 (Z.of_nat res))) (allocate_flag_mask s) (local_count s))
  else None.

Definition flag_bit (mask : list Z) (idx : nat) : bool := Z.testbit (word mask (idx / 32)) (Z.of_nat (idx mod 32)).

Fixpoint next_flag (cnt idx : nat) (mask : list Z) : option nat :=
  match cnt with
  | O => None
  | S c => if flag_bit mask idx then next_flag c (idx + 1) mask else Some idx
  end.

Definition allocate_flag : M nat := fun s =>
  match next_flag FLAGS_COUNT 0 (allocate_flag_mask s) with
  | None => None
  | Some idx =>
      let mask := allocate_flag_mask s in
      Some (idx, [], mkCg (word_alloc_mask s)
        (<[(idx / 32)%nat := Z.lor (word mask (idx / 32)) (Z.shiftl 1 (Z.of_nat (idx mod 32)))]> mask) (local_count s))
  end.

Definition clr_flag (idx : nat) : M unit := fun s =>
  if (idx <? 8)%nat then Some (tt, [], s)
  else
    let mask := allocate_flag_mask s in
    if (idx <? FLAGS_COUNT)%nat && flag_bit mask idx
    then Some (tt, [], mkCg (word_alloc_mask s)
           (<[(idx / 32)%nat := Z.ldiff (word mask (idx / 32)) (Z.shiftl 1 (Z.of_nat (idx mod 32)))]> mask) (local_count s))
    else None.

(** [local_count++]. *)
Definition next_label : M nat := fun s =>
  Some (local_count s, [], mkCg (word_alloc_mask s) (allocate_flag_mask s) (local_count s + 1)).

(** * Literals *)

Definition test_immediate_vec4_ok (re : ivl_expr) : bool :=
  match re with
  | IVL_EX_NUMBER a bits =>
      (wid_of a <=? 32)%nat || forallb (fun b => bit4_eqb b BIT4_0) (take (wid_of a - 32) (drop 32 bits))
  | _ => false
  end.

(** One bit moved into the two words of an immediate. *)
Definition shift_in (b : vvp_bit4_t) (v : Z * Z) : Z * Z :=
  let val0 := wshl (fst v) 1 in
  let valx := wshl (snd v) 1 in
  match b with
  | BIT4_0 => (val0, valx)
  | BIT4_1 => (Z.lor val0 1, valx)
  | BIT4_X => (Z.lor val0 1, Z.lor valx 1)
  | BIT4_Z => (val0, Z.lor valx 1)
  end.

(** The loop of [make_immediate_vec4_words] over the bits from the most significant down. *)
Fixpoint immediate_words (bits : list vvp_bit4_t) (v : Z * Z) : option (Z * Z) :=
  match bits with
  | [] => Some v
  | b :: bits => if Z.testbit (Z.lor (fst v) (snd v)) 31 then None else immediate_words bits (shift_in b v)
  end.

Definition make_immediate_vec4_words (re : ivl_expr) : option (Z * Z * nat) :=
  match re with
  | IVL_EX_NUMBER a bits => v ← immediate_words (reverse (take (wid_of a) bits)) (0, 0); Some (v, wid_of a)
  | _ => None
  end.

Definition draw_immediate_vec4 (re : ivl_expr) (opcode : Z -> Z -> nat -> instr) : M unit :=
  '(val0, valx, wid) ← lift (make_immediate_vec4_words re);
  emit (opcode val0 valx wid).

(** The loop of [draw_concat_number_vec4] over the bits from the most significant down, with
    [accum] and [count_pushi]. *)
Definition push_chunk (v : Z * Z) (accum count_pushi : nat) : instr :=
  if (count_pushi =? 0)%nat then PUSHI_VEC4 (fst v) (snd v) accum else CONCATI_VEC4 (fst v) (snd v) accum.

Fixpoint concat_number (bits : list vvp_bit4_t) (v : Z * Z) (accum count_pushi : nat) : M unit :=
  match bits with
  | [] => if (accum =? 0)%nat then mret tt else emit (push_chunk v accum count_pushi)
  | b :: bits =>
      let v := shift_in b v in
      if Z.testbit (Z.lor (fst v) (snd v)) 31
      then emit (push_chunk v (accum + 1) count_pushi);; concat_number bits (0, 0) 0 (count_pushi + 1)
      else concat_number bits v (accum + 1) count_pushi
  end.

Definition draw_concat_number_vec4 (expr : ivl_expr) (as_concati : bool) : M unit :=
  match expr with
  | IVL_EX_NUMBER a bits => concat_number (reverse (take (wid_of a) bits)) (0, 0) 0 (if as_concati then 1 else 0)
  | _ => stop
  end.

Definition draw_number_vec4 (expr : ivl_expr) : M unit := draw_concat_number_vec4 expr false.

(** * Operands

    The drawing functions of an operand: [draw_eval_vec4], [draw_eval_condition] and
    [draw_eval_expr_into_integer] of it. *)

Record node := mkNode {
  ex : ivl_expr;
  draw_vec4 : M unit;
  draw_condition : M nat;
  draw_integer : nat -> M unit }.

Definition resize_vec4_wid (expr : ivl_expr) (wid : nat) : M unit :=
  if (ivl_expr_width expr =? wid)%nat then mret tt
  else emit (if ivl_expr_signed expr then PAD_S wid else PAD_U wid).

(** * Binary operators *)

Definition draw_binary_vec4_arith (a : attr) (opcode : binary_op) (l r : node) : M unit :=
  let ewid := wid_of a in
  let is_power_op := match opcode with b_pow => true | _ => false end in
  let signed_flag := (ivl_expr_signed (ex l) || is_power_op) && ivl_expr_signed (ex r) in
  draw_vec4 l;;
  resize_vec4_wid (ex l) ewid;;
  let generic :=
    draw_vec4 r;;
    (if is_power_op then mret tt else resize_vec4_wid (ex r) ewid);;
    match opcode with
    | b_add => emit ADD
    | b_sub => emit SUB
    | b_mul => emit MUL
    | b_div => emit (if signed_flag then DIV_S else DIV)
    | b_mod => emit (if signed_flag then MOD_S else MOD)
    | b_pow => emit (if signed_flag then POW_S else POW)
    | _ => stop
    end in
  if (ivl_expr_width (ex r) =? ewid)%nat && test_immediate_vec4_ok (ex r) then
    match opcode with
    | b_add => draw_immediate_vec4 (ex r) ADDI
    | b_sub => draw_immediate_vec4 (ex r) SUBI
    | b_mul => draw_immediate_vec4 (ex r) MULI
    | _ => generic
    end
  else generic.

Definition draw_binary_vec4_bitwise (opcode : binary_op) (l r : node) : M unit :=
  draw_vec4 l;;
  draw_vec4 r;;
  match opcode with
  | b_and => emit AND | b_or => emit OR | b_xor => emit XOR
  | b_nand => emit NAND | b_nor => emit NOR | b_xnor => emit XNOR
  | _ => stop
  end.

(** The wider of the two operands. *)
Definition max_width (l r : ivl_expr) : nat :=
  if (ivl_expr_width l <? ivl_expr_width r)%nat then ivl_expr_width r else ivl_expr_width l.

Definition draw_binary_vec4_compare (opcode : binary_op) (l r : node) : M unit :=
  let use_wid := max_width (ex l) (ex r) in
  draw_vec4 l;; resize_vec4_wid (ex l) use_wid;;
  draw_vec4 r;; resize_vec4_wid (ex r) use_wid;;
  match opcode with
  | b_eq => emit CMPE;; emit (FLAG_GET_VEC4 4)
  | b_ne => emit CMPNE;; emit (FLAG_GET_VEC4 4)
  | b_eeq => emit CMPE;; emit (FLAG_GET_VEC4 6)
  | b_nee => emit CMPNE;; emit (FLAG_GET_VEC4 6)
  | b_weq => emit CMPWE;; emit (FLAG_GET_VEC4 4)
  | b_wne => emit CMPWNE;; emit (FLAG_GET_VEC4 4)
  | _ => stop
  end.

Definition draw_binary_vec4_lequiv (a : attr) (l r : node) : M unit :=
  assert_true (ivl_expr_width (ex l) =? 1)%nat;;
  draw_vec4 l;;
  assert_true (ivl_expr_width (ex r) =? 1)%nat;;
  draw_vec4 r;;
  emit XNOR;;
  assert_true (wid_of a =? 1)%nat.

(** [if (ivl_expr_width(e) > 1) %or/r]. *)
Definition reduce_or (e : ivl_expr) : M unit := if (1 <? ivl_expr_width e)%nat then emit ORR else mret tt.

(** [draw_binary_vec4_land] and [draw_binary_vec4_lor]. *)
Definition draw_binary_vec4_logical (op : instr) (a : attr) (l r : node) : M unit :=
  draw_vec4 l;; reduce_or (ex l);;
  draw_vec4 r;; reduce_or (ex r);;
  emit op;;
  if (1 <? wid_of a)%nat then emit (PAD_U (wid_of a)) else mret tt.
Definition draw_binary_vec4_land := draw_binary_vec4_logical AND.
Definition draw_binary_vec4_lor := draw_binary_vec4_logical OR.

(** The magnitude comparison of [le] with [re], an immediate one where it can be. *)
Definition draw_magnitude (s_flag : bool) (le re : node) : M unit :=
  let use_wid := max_width (ex le) (ex re) in
  draw_vec4 le;; resize_vec4_wid (ex le) use_wid;;
  if (ivl_expr_width (ex re) =? use_wid)%nat && test_immediate_vec4_ok (ex re)
  then draw_immediate_vec4 (ex re) (if s_flag then CMPIS else CMPIU)
  else draw_vec4 re;; resize_vec4_wid (ex re) use_wid;; emit (if s_flag then CMPS else CMPU).

Definition draw_binary_vec4_le (opcode : binary_op) (l r : node) : M unit :=
  let s_flag := ivl_expr_signed (ex l) && ivl_expr_signed (ex r) in
  let '(le, re, use_opcode) :=
    match opcode with b_ge => (r, l, b_le) | b_gt => (r, l, b_lt) | _ => (l, r, opcode) end in
  draw_magnitude s_flag le re;;
  match use_opcode with
  | b_le => emit (FLAG_GET_VEC4 4);; emit (FLAG_GET_VEC4 5);; emit OR
  | b_lt => emit (FLAG_GET_VEC4 5)
  | _ => stop
  end.

Definition draw_binary_vec4_lrs (opcode : binary_op) (l r : node) : M unit :=
  draw_vec4 l;;
  use_index_reg ← allocate_word;
  draw_integer r use_index_reg;;
  match opcode with
  | b_shl => emit (SHIFTL use_index_reg)
  | b_shr => emit (SHIFTR use_index_reg)
  | b_ashr => emit (if ivl_expr_signed (ex l) then SHIFTR_S use_index_reg else SHIFTR use_index_reg)
  | _ => stop
  end;;
  clr_word use_index_reg.

Definition draw_binary_vec4 (a : attr) (opcode : binary_op) (l r : node) : M unit :=
  match opcode with
  | b_land => draw_binary_vec4_land a l r
  | b_add | b_sub | b_mul | b_div | b_mod | b_pow => draw_binary_vec4_arith a opcode l r
  | b_and | b_or | b_xor | b_nand | b_nor | b_xnor => draw_binary_vec4_bitwise opcode l r
  | b_eq | b_eeq | b_ne | b_nee | b_weq | b_wne => draw_binary_vec4_compare opcode l r
  | b_ge | b_le | b_gt | b_lt => draw_binary_vec4_le opcode l r
  | b_shl | b_shr | b_ashr => draw_binary_vec4_lrs opcode l r
  | b_lor => draw_binary_vec4_lor a l r
  | b_limpl => stop
  | b_lequiv => draw_binary_vec4_lequiv a l r
  end.

(** * Concatenations and selects *)

(** An operand that a concatenation evaluates and drops. *)
Definition zero_replication (e : ivl_expr) : bool :=
  match e with IVL_EX_CONCAT _ O _ => true | _ => false end.

(** The most significant operand, after those with a zero replication at the head; the
    result is the operands that are left.  Without one, [ivl_expr_parm] fails its assertion. *)
Fixpoint concat_head (parms : list node) : M (list node) :=
  match parms with
  | [] => stop
  | sube :: parms =>
      draw_vec4 sube;;
      if zero_replication (ex sube) then emit (POP_VEC4 1);; concat_head parms else mret parms
  end.

Fixpoint concat_rest (parms : list node) : M unit :=
  match parms with
  | [] => mret tt
  | sube :: parms =>
      match ex sube with
      | IVL_EX_NUMBER _ _ => draw_concat_number_vec4 (ex sube) true
      | _ =>
          draw_vec4 sube;;
          if zero_replication (ex sube) then emit (POP_VEC4 1) else emit CONCAT_VEC4
      end;;
      concat_rest parms
  end.

Definition draw_concat_vec4 (repeat : nat) (parms : list node) : M unit :=
  rest ← concat_head parms;
  concat_rest rest;;
  if (1 <? repeat)%nat then emit (REPLICATE repeat) else mret tt.

Definition draw_select_vec4 (a : attr) (sub base : node) : M unit :=
  let wid := wid_of a in
  let is_signed := ivl_expr_signed (ex base) in
  if test_immediate_vec4_ok (ex base) then
    '(val0, valx, base_wid) ← lift (make_immediate_vec4_words (ex base));
    assert_true (valx =? 0);;
    draw_vec4 sub;;
    emit (if is_signed then PARTI_S wid val0 base_wid else PARTI_U wid val0 base_wid)
  else
    draw_vec4 sub;;
    draw_vec4 base;;
    emit (if is_signed then PART_S wid else PART_U wid).

Definition draw_select_pad_vec4 (a : attr) (sub : node) : M unit :=
  draw_vec4 sub;;
  if (wid_of a =? ivl_expr_width (ex sub))%nat then mret tt
  else emit (if signed_of a then PAD_S (wid_of a) else PAD_U (wid_of a)).

(** * Signals *)

(** A signal, or a word of an array with its index; the return value of a function, which
    has an opcode of its own, is not modelled. *)
Definition draw_signal_vec4 (sig : ivl_signal) (word_ex : option node) : M unit :=
  if (ivl_signal_dimensions sig =? 0)%nat then emit (LOAD_VEC4 (sig_id sig, 0%nat))
  else
    match word_ex with
    | None => stop
    | Some ix =>
        addr_index ← allocate_word;
        draw_integer ix addr_index;;
        emit (LOAD_VEC4A (sig_id sig) addr_index);;
        clr_word addr_index
    end.

(** * Ternary and unary operators *)

Definition draw_ternary_vec4 (c t f : node) : M unit :=
  lab_true ← next_label;
  lab_out ← next_label;
  use_flag ← draw_condition c;
  use_flag ←
    (if (use_flag <? 8)%nat then
       tmp_flag ← allocate_flag;
       assert_true (8 <=? tmp_flag)%nat;;
       emit (FLAG_MOV tmp_flag use_flag);;
       mret tmp_flag
     else mret use_flag);
  emit (JMP0 lab_true use_flag);;
  draw_vec4 t;;
  emit (JMP1 lab_out use_flag);;
  emit_label lab_true;;
  draw_vec4 f;;
  emit (JMP0 lab_out use_flag);;
  emit BLEND;;
  emit_label lab_out;;
  clr_flag use_flag.

Definition draw_unary_vec4 (a : attr) (opcode : unary_op) (sub : node) : M unit :=
  let negate :=
    emit INV;; emit (PUSHI_VEC4 1 0 (ivl_expr_width (ex sub)));; emit ADD in
  draw_vec4 sub;;
  match opcode with
  | u_and => emit ANDR
  | u_or => emit ORR
  | u_xor => emit XORR
  | u_inv => emit INV
  | u_lnot => emit NORR
  | u_neg => negate
  | u_nand => emit NANDR
  | u_nor => emit NORR
  | u_xnor => emit XNORR
  | u_abs =>
      if negb (ivl_expr_signed (ex sub)) then mret tt
      else
        emit DUP_VEC4;;
        emit (PUSHI_VEC4 0 0 (ivl_expr_width (ex sub)));;
        emit CMPS;;
        lab ← next_label;
        emit (JMP0XZ lab 5);;
        negate;;
        emit_label lab
  | u_cast2 =>
      match ivl_expr_value (ex sub) with
      | IVL_VT_LOGIC => emit CAST2
      | IVL_VT_BOOL => mret tt
      end;;
      resize_vec4_wid (ex sub) (wid_of a)
  end.

(** * Conditions ([eval_condit.c]): the flag that holds the condition *)

Definition draw_condition_fallback (e : node) : M nat :=
  use_flag ← allocate_flag;
  draw_vec4 e;;
  reduce_or (ex e);;
  emit (FLAG_SET_VEC4 use_flag);;
  mret use_flag.

Definition draw_condition_binary_compare (opcode : binary_op) (l r : node) : M nat :=
  let use_wid := max_width (ex l) (ex r) in
  let '(le, re) :=
    if (ivl_expr_width (ex l) =? use_wid)%nat && test_immediate_vec4_ok (ex l) then (r, l) else (l, r) in
  draw_vec4 le;;
  resize_vec4_wid (ex le) use_wid;;
  let is_ne := match opcode with b_ne | b_nee => true | _ => false end in
  (if (ivl_expr_width (ex re) =? use_wid)%nat && test_immediate_vec4_ok (ex re)
   then draw_immediate_vec4 (ex re) (if is_ne then CMPINE else CMPIE)
   else draw_vec4 re;; resize_vec4_wid (ex re) use_wid;; emit (if is_ne then CMPNE else CMPE));;
  match opcode with
  | b_ne | b_eq => mret 4%nat
  | b_nee | b_eeq => mret 6%nat
  | _ => stop
  end.

Definition draw_condition_binary_le (opcode : binary_op) (l r : node) : M nat :=
  let s_flag := ivl_expr_signed (ex l) && ivl_expr_signed (ex r) in
  let '(le, re, use_opcode) :=
    if test_immediate_vec4_ok (ex l) && negb (test_immediate_vec4_ok (ex r)) then
      (r, l, match opcode with b_ge => b_le | b_le => b_ge | b_gt => b_lt | b_lt => b_gt | op => op end)
    else if negb (test_immediate_vec4_ok (ex r)) then
      match opcode with b_ge => (r, l, b_le) | b_gt => (r, l, b_lt) | op => (l, r, op) end
    else (l, r, opcode) in
  draw_magnitude s_flag le re;;
  match use_opcode with
  | b_gt => emit (FLAG_OR 5 4);; emit (FLAG_INV 5);; mret 5%nat
  | b_ge => emit (FLAG_INV 5);; mret 5%nat
  | b_lt => mret 5%nat
  | b_le => emit (FLAG_OR 5 4);; mret 5%nat
  | _ => stop
  end.

Definition draw_condition_binary_lor (l r : node) : M nat :=
  lx ← draw_condition l;
  lx ←
    (if (lx <? 8)%nat then
       tmp ← allocate_flag;
       emit (FLAG_MOV tmp lx);;
       mret tmp
     else mret lx);
  rx ← draw_condition r;
  emit (FLAG_OR rx lx);;
  clr_flag lx;;
  mret rx.

(** [draw_eval_condition], with [self] for the vector code of the expression itself. *)
Definition draw_condition_of (self : node) (operands : option (binary_op * node * node)) : M nat :=
  match operands with
  | Some (opcode, l, r) =>
      match opcode with
      | b_eq | b_eeq | b_ne | b_nee => draw_condition_binary_compare opcode l r
      | b_lt | b_gt | b_le | b_ge => draw_condition_binary_le opcode l r
      | b_lor => draw_condition_binary_lor l r
      | _ => draw_condition_fallback self
      end
  | None => draw_condition_fallback self
  end.

(** * Values in index registers ([eval_expr.c]) *)

Definition number_is_unknown (bits : list vvp_bit4_t) : bool := existsb bit4_is_xz bits.

(** [number_is_immediate] of a literal. *)
Definition number_is_immediate (a : attr) (bits : list vvp_bit4_t) (lim_wid : nat) (negative_ok_flag : bool) : bool :=
  let nbits := wid_of a in
  let lim_wid := if negative_ok_flag then (lim_wid - 1)%nat else lim_wid in
  let bit i := nth i bits BIT4_X in
  let pad_bit := if signed_of a && bit4_eqb (bit (nbits - 1)%nat) BIT4_1 then BIT4_1 else BIT4_0 in
  if bit4_eqb pad_bit BIT4_1 && negb negative_ok_flag then false
  else if bit4_is_xz (bit 0%nat) && forallb (fun i => bit4_eqb (bit i) (bit 0%nat)) (seq 1 (nbits - 1)) then true
  else if negb (forallb (fun i => bit4_eqb (bit i) pad_bit) (seq lim_wid (nbits - lim_wid))) then false
  else if bit4_eqb pad_bit BIT4_1 then existsb (fun i => bit4_eqb (bit i) BIT4_1) (seq 0 lim_wid)
  else true.

(** [get_number_immediate] of a literal without unknown bits: a 64-bit pattern. *)
Definition get_number_immediate (a : attr) (bits : list vvp_bit4_t) : Z :=
  let nbits := if (W <? wid_of a)%nat then W else wid_of a in
  let imm := for_upto nbits (fun idx imm =>
    if bit4_eqb (nth idx bits BIT4_X) BIT4_1 then Z.lor imm (wshl 1 idx) else imm) 0 in
  if signed_of a && bit4_eqb (nth (nbits - 1) bits BIT4_X) BIT4_1 && (nbits <? W)%nat
  then Z.lor imm (wshl wones nbits) else imm.

Definition ix_vec4 (is_signed : bool) (ix : nat) : M unit := emit (if is_signed then IX_VEC4_S ix else IX_VEC4 ix).

(** [eval_logic_into_integer]; [word_ex] is the index of an array signal. *)
Definition eval_logic_into_integer (self : node) (ix : nat) : M unit :=
  match ex self with
  | IVL_EX_NUMBER a bits =>
      assert_true (number_is_immediate a bits 32 true);;
      if number_is_unknown bits then emit (IX_LOAD ix 0 0);; emit (FLAG_SET_IMM 4 1)
      else
        let imm := as_signed W (get_number_immediate a bits) in
        (if 0 <=? imm then emit (IX_LOAD ix imm 0)
         else emit (IX_LOAD ix 0 0);; emit (IX_SUB ix (- imm) 0));;
        emit (FLAG_SET_IMM 4 0)
  | IVL_EX_SIGNAL _ sig word_ex =>
      let getv word := emit (if ivl_signal_signed sig then IX_GETV_S ix (sig_id sig, word) else IX_GETV ix (sig_id sig, word)) in
      let through_stack := draw_vec4 self;; ix_vec4 (ivl_expr_signed (ex self)) ix in
      if (ivl_signal_dimensions sig =? 0)%nat then getv 0%nat
      else if ivl_signal_is_reg sig then through_stack
      else
        match word_ex with
        | Some (IVL_EX_NUMBER wa wbits) =>
            if number_is_immediate wa wbits 32 false then
              assert_true (negb (number_is_unknown wbits));;
              getv (Z.to_nat (get_number_immediate wa wbits mod 2 ^ 32))
            else through_stack
        | Some _ => through_stack
        | None => stop
        end
  | _ => draw_vec4 self;; ix_vec4 (ivl_expr_signed (ex self)) ix
  end.

(** * The recursion over expressions *)

(** Tie the three entry points of an expression to its vector code. *)
Definition close (e : ivl_expr) (vec : M unit) (operands : option (binary_op * node * node)) : node :=
  let self := mkNode e vec stop (fun _ => stop) in
  mkNode e vec (draw_condition_of self operands) (eval_logic_into_integer self).

Fixpoint draw (e : ivl_expr) : node :=
  match e with
  | IVL_EX_NUMBER _ _ => close e (draw_number_vec4 e) None
  | IVL_EX_SIGNAL _ sig word_ex =>
      close e (draw_signal_vec4 sig (match word_ex with Some ix => Some (draw ix) | None => None end)) None
  | IVL_EX_UNARY a opcode sub => close e (draw_unary_vec4 a opcode (draw sub)) None
  | IVL_EX_BINARY a opcode le re =>
      let l := draw le in
      let r := draw re in
      close e (draw_binary_vec4 a opcode l r) (Some (opcode, l, r))
  | IVL_EX_TERNARY _ c t f => close e (draw_ternary_vec4 (draw c) (draw t) (draw f)) None
  | IVL_EX_CONCAT _ repeat parms => close e (draw_concat_vec4 repeat (map draw parms)) None
  | IVL_EX_SELECT a sub None => close e (draw_select_pad_vec4 a (draw sub)) None
  | IVL_EX_SELECT a sub (Some base) => close e (draw_select_vec4 a (draw sub) (draw base)) None
  end.

Definition draw_eval_vec4 (e : ivl_expr) : M unit := draw_vec4 (draw e).
Definition draw_eval_condition (e : ivl_expr) : M nat := draw_condition (draw e).
Definition draw_eval_expr_into_integer (e : ivl_expr) (ix : nat) : M unit := draw_integer (draw e) ix.

(** * The code space *)

(** The number of instructions of the lines: where the next one goes. *)
Fixpoint codespace_next (ls : list line) : nat :=
  match ls with
  | [] => 0
  | Instr _ :: ls => S (codespace_next ls)
  | Label _ :: ls => codespace_next ls
  end.

(** The value of a label ([compile_codelabel]). *)
Fixpoint label_value (ls : list line) (n : nat) : option nat :=
  match ls with
  | [] => None
  | Instr _ :: ls => S <$> label_value ls n
  | Label m :: ls => if (m =? n)%nat then Some 0%nat else label_value ls n
  end.

(** The label operand of a jump replaced by its value. *)
Definition resolve (value : nat -> option nat) (i : instr) : option instr :=
  match i with
  | JMP c => JMP <$> value c
  | JMP0 c f => c ← value c; Some (JMP0 c f)
  | JMP0XZ c f => c ← value c; Some (JMP0XZ c f)
  | JMP1 c f => c ← value c; Some (JMP1 c f)
  | JMP1XZ c f => c ← value c; Some (JMP1XZ c f)
  | i => Some i
  end.

Fixpoint instructions (ls : list line) : list instr :=
  match ls with [] => [] | Instr i :: ls => i :: instructions ls | Label _ :: ls => instructions ls end.

(** The code space of a program; [None] when a label is not defined. *)
Definition assemble (ls : list line) : option (list instr) := mapM (resolve (label_value ls)) (instructions ls).
