(* ===== verification/ExprSpec.v ===== *)
(** What vector expressions mean: their values over four-valued bit lists, and the width and
    range conditions the elaborator establishes before code is generated. *)
From S2P Require Import Prelude MachineWord VvpBit VvpVector4 VvpSlice WordArith VvpArith VvpVector2 VvpCompare.
From S2P Require Import BitList VvpFunctor WordDiv VThread VThreadSpec VThreadParts VThreadIndex VThreadDiv.
From S2P Require Import VThreadMod CodeGen.

(** * Induction over expressions *)

Section Induction.
Context (P : ivl_expr -> Prop).
Context (HN : forall a bits, P (IVL_EX_NUMBER a bits)).
Context (HS : forall a sig, P (IVL_EX_SIGNAL a sig None)).
Context (HA : forall a sig ix, P ix -> P (IVL_EX_SIGNAL a sig (Some ix))).
Context (HU : forall a op sub, P sub -> P (IVL_EX_UNARY a op sub)).
Context (HB : forall a op le re, P le -> P re -> P (IVL_EX_BINARY a op le re)).
Context (HT : forall a c t f, P c -> P t -> P f -> P (IVL_EX_TERNARY a c t f)).
Context (HC : forall a n parms, Forall P parms -> P (IVL_EX_CONCAT a n parms)).
Context (HP : forall a sub, P sub -> P (IVL_EX_SELECT a sub None)).
Context (HX : forall a sub base, P sub -> P base -> P (IVL_EX_SELECT a sub (Some base))).

Fixpoint expr_ind (e : ivl_expr) : P e :=
  match e with
  | IVL_EX_NUMBER a bits => HN a bits
  | IVL_EX_SIGNAL a sig None => HS a sig
  | IVL_EX_SIGNAL a sig (Some ix) => HA a sig ix (expr_ind ix)
  | IVL_EX_UNARY a op sub => HU a op sub (expr_ind sub)
  | IVL_EX_BINARY a op le re => HB a op le re (expr_ind le) (expr_ind re)
  | IVL_EX_TERNARY a c t f => HT a c t f (expr_ind c) (expr_ind t) (expr_ind f)
  | IVL_EX_CONCAT a n parms =>
      HC a n parms ((fix all (l : list ivl_expr) : Forall P l :=
        match l with [] => Forall_nil_2 P | x :: l => Forall_cons_2 P x l (expr_ind x) (all l) end) parms)
  | IVL_EX_SELECT a sub None => HP a sub (expr_ind sub)
  | IVL_EX_SELECT a sub (Some base) => HX a sub base (expr_ind sub) (expr_ind base)
  end.
End Induction.

(** * Operators *)

(** The truth of a vector: the OR of its bits. *)
Definition truth (l : list vvp_bit4_t) : vvp_bit4_t := fold_left bit4_or l BIT4_0.

Definition bv_le (signed : bool) (l r : list vvp_bit4_t) : vvp_bit4_t :=
  if unknown l || unknown r then BIT4_X else bit_of_bool (bv_num signed l <=? bv_num signed r).

(** Two's complement; all X with an unknown bit. *)
Definition bv_neg (l : list vvp_bit4_t) : list vvp_bit4_t :=
  if unknown l then replicate (length l) BIT4_X else of_Z (length l) (- bv_Z l).

(** The magnitude of a signed operand; unchanged when a bit is unknown. *)
Definition bv_abs (signed : bool) (l : list vvp_bit4_t) : list vvp_bit4_t :=
  if unknown l then l else of_Z (length l) (Z.abs (bv_num signed l)).

(** The select of a word of an array: X for an index that is unknown or outside. *)
Definition select_word (words : list (list vvp_bit4_t)) (wid : nat) (signed : bool) (ix : list vvp_bit4_t) : list vvp_bit4_t :=
  if unknown ix || (bv_num signed ix <? 0) then replicate wid BIT4_X
  else default (replicate wid BIT4_X) (words !! Z.to_nat (bv_num signed ix)).

Definition one_bit (b : vvp_bit4_t) : list vvp_bit4_t := [b].

Definition ev_unary (opcode : unary_op) (a : attr) (sub : ivl_expr) (l : list vvp_bit4_t) : list vvp_bit4_t :=
  match opcode with
  | u_and => bv_reduce_with bit4_and BIT4_1 l
  | u_or => bv_reduce_with bit4_or BIT4_0 l
  | u_xor => bv_reduce_with bit4_xor BIT4_0 l
  | u_nand => map bit4_not (bv_reduce_with bit4_and BIT4_1 l)
  | u_nor | u_lnot => map bit4_not (bv_reduce_with bit4_or BIT4_0 l)
  | u_xnor => map bit4_not (bv_reduce_with bit4_xor BIT4_0 l)
  | u_inv => map bit4_not l
  | u_neg => bv_neg l
  | u_abs => if ivl_expr_signed sub then bv_abs true l else l
  | u_cast2 =>
      bv_pad (ivl_expr_signed sub) (wid_of a)
        (match ivl_expr_value sub with IVL_VT_LOGIC => map bit_cast2 l | IVL_VT_BOOL => l end)
  end.

Definition ev_binary (opcode : binary_op) (a : attr) (le re : ivl_expr) (l r : list vvp_bit4_t) : list vvp_bit4_t :=
  let wid := wid_of a in
  let sl := ivl_expr_signed le in
  let sr := ivl_expr_signed re in
  let use_wid := max_width le re in
  let pl := bv_pad sl use_wid l in
  let pr := bv_pad sr use_wid r in
  match opcode with
  | b_add => bv_add (bv_pad sl wid l) (bv_pad sr wid r)
  | b_sub => bv_sub (bv_pad sl wid l) (bv_pad sr wid r)
  | b_mul => bv_mul (bv_pad sl wid l) (bv_pad sr wid r)
  | b_div => bv_div (sl && sr) (bv_pad sl wid l) (bv_pad sr wid r)
  | b_mod => bv_mod (sl && sr) (bv_pad sl wid l) (bv_pad sr wid r)
  | b_pow => bv_pow sl sr (bv_pad sl wid l) r
  | b_and => bv_map2 bit4_and l r
  | b_or => bv_map2 bit4_or l r
  | b_xor => bv_map2 bit4_xor l r
  | b_nand => bv_map2 (fun x y => bit4_not (bit4_and x y)) l r
  | b_nor => bv_map2 (fun x y => bit4_not (bit4_or x y)) l r
  | b_xnor | b_lequiv => bv_map2 (fun x y => bit4_not (bit4_xor x y)) l r
  | b_eq => one_bit (bv_eq pl pr)
  | b_ne => one_bit (bit4_not (bv_eq pl pr))
  | b_eeq => one_bit (bv_eeq pl pr)
  | b_nee => one_bit (bit4_not (bv_eeq pl pr))
  | b_weq => one_bit (bv_weq pl pr)
  | b_wne => one_bit (bit4_not (bv_weq pl pr))
  | b_lt => one_bit (bv_lt (sl && sr) pl pr)
  | b_le => one_bit (bv_le (sl && sr) pl pr)
  | b_gt => one_bit (bv_lt (sl && sr) pr pl)
  | b_ge => one_bit (bv_le (sl && sr) pr pl)
  | b_shl => bv_shift bv_shl l r
  | b_shr => bv_shift (bv_shr BIT4_0) l r
  | b_ashr => bv_shift (bv_shr (if sl then msb l else BIT4_0)) l r
  | b_land => bv_pad false wid (one_bit (bit4_and (truth l) (truth r)))
  | b_lor => bv_pad false wid (one_bit (bit4_or (truth l) (truth r)))
  | b_limpl => []
  end.

(** The branches meet bit by bit when the condition is not known. *)
Definition ev_ternary (c t f : list vvp_bit4_t) : list vvp_bit4_t :=
  match truth c with
  | BIT4_1 => t
  | BIT4_0 => f
  | _ => bv_map2 bit_blend f t
  end.

(** * Values *)

Section Eval.
Context (d : design).

Definition net_bits (sig : ivl_signal) : list vvp_bit4_t := bits_of (vec4_value d (sig_id sig, 0%nat)).
Definition array_bits (sig : ivl_signal) : list (list vvp_bit4_t) := map bits_of (array_words (array_of d (sig_id sig))).

(** A concatenation has its first operand on top and drops the zero replications. *)
Definition ev_concat (repeat : nat) (parms : list (ivl_expr * list vvp_bit4_t)) : list vvp_bit4_t :=
  copies (if (repeat =? 0)%nat then 1 else repeat)
    (concat (reverse (map snd (filter (fun p => zero_replication (fst p) = false) parms)))).

Fixpoint ev (e : ivl_expr) : list vvp_bit4_t :=
  match e with
  | IVL_EX_NUMBER _ bits => bits
  | IVL_EX_SIGNAL _ sig None => net_bits sig
  | IVL_EX_SIGNAL a sig (Some ix) => select_word (array_bits sig) (wid_of a) (ivl_expr_signed ix) (ev ix)
  | IVL_EX_UNARY a opcode sub => ev_unary opcode a sub (ev sub)
  | IVL_EX_BINARY a opcode le re => ev_binary opcode a le re (ev le) (ev re)
  | IVL_EX_TERNARY _ c t f => ev_ternary (ev c) (ev t) (ev f)
  | IVL_EX_CONCAT _ repeat parms => ev_concat repeat (map (fun p => (p, ev p)) parms)
  | IVL_EX_SELECT a sub None => bv_pad (signed_of a) (wid_of a) (ev sub)
  | IVL_EX_SELECT a sub (Some base) => bv_select (ivl_expr_signed base) (wid_of a) (ev sub) (ev base)
  end.

(** * Well-formed expressions *)

(** The signal has the width of the expression and the sign the back end reads from it. *)
Definition net_ok (a : attr) (sig : ivl_signal) : Prop :=
  ivl_signal_dimensions sig = 0%nat /\ ivl_signal_signed sig = signed_of a /\
  wf4 (vec4_value d (sig_id sig, 0%nat)) /\ size (vec4_value d (sig_id sig, 0%nat)) = wid_of a.

Definition array_ok (a : attr) (sig : ivl_signal) : Prop :=
  ivl_signal_dimensions sig <> 0%nat /\ ivl_signal_signed sig = signed_of a /\
  get_word_size (array_of d (sig_id sig)) = wid_of a /\
  Z.of_nat (length (array_words (array_of d (sig_id sig)))) <= 2 ^ 31 /\
  Forall (fun v => wf4 v /\ size v = wid_of a) (array_words (array_of d (sig_id sig))).

(** The words of an array of nets are nets themselves, which a literal index names. *)
Definition net_word_ok (sig : ivl_signal) (ix : ivl_expr) : Prop :=
  match ix with
  | IVL_EX_NUMBER _ bits =>
      ivl_signal_is_reg sig = true \/
      (unknown bits = false -> 0 <= bv_num (ivl_expr_signed ix) bits ->
       array_words (array_of d (sig_id sig)) !! Z.to_nat (bv_num (ivl_expr_signed ix) bits)
       = Some (vec4_value d (sig_id sig, Z.to_nat (bv_num (ivl_expr_signed ix) bits))))
  | _ => True
  end.

(** The base of a select fits the 32 bits it is cut to. *)
Definition base_ok (wid : nat) (base : ivl_expr) : Prop :=
  if test_immediate_vec4_ok base then bv_num (ivl_expr_signed base) (ev base) < 2 ^ 31
  else base_fits (ivl_expr_signed base) wid (ivl_expr_width base) = true.

Definition unary_ok (opcode : unary_op) (a : attr) (sub : ivl_expr) : Prop :=
  match opcode with
  | u_inv | u_neg | u_abs => wid_of a = ivl_expr_width sub
  | u_cast2 => True
  | _ => wid_of a = 1%nat
  end.

Definition binary_ok (opcode : binary_op) (a : attr) (le re : ivl_expr) : Prop :=
  let wid := wid_of a in
  let sl := ivl_expr_signed le in
  let sr := ivl_expr_signed re in
  match opcode with
  | b_add | b_sub | b_mul | b_mod => True
  | b_div => (wid <= max_div (sl && sr))%nat
  | b_pow => pow_fits sl sr wid = true
  | b_and | b_or | b_xor | b_nand | b_nor | b_xnor | b_lequiv => ivl_expr_width le = wid /\ ivl_expr_width re = wid
  | b_shl | b_shr | b_ashr => ivl_expr_width le = wid /\ sr = false
  | b_land | b_lor => True
  | b_limpl => False
  | _ => wid = 1%nat
  end.

Definition total_width (parms : list ivl_expr) : nat :=
  list_sum (map ivl_expr_width (filter (fun p => zero_replication p = false) parms)).

(** [operand e]: an expression that may stand for itself, not a dropped replication. *)
Fixpoint wf_expr (e : ivl_expr) : Prop :=
  let operand (e : ivl_expr) := zero_replication e = false /\ wf_expr e in
  match e with
  | IVL_EX_NUMBER a bits => width_fits (wid_of a) /\ length bits = wid_of a
  | IVL_EX_SIGNAL a sig None => width_fits (wid_of a) /\ net_ok a sig
  | IVL_EX_SIGNAL a sig (Some ix) =>
      width_fits (wid_of a) /\ operand ix /\ array_ok a sig /\ net_word_ok sig ix /\ (ivl_expr_width ix <= 32)%nat
  | IVL_EX_UNARY a opcode sub => width_fits (wid_of a) /\ operand sub /\ unary_ok opcode a sub
  | IVL_EX_BINARY a opcode le re => width_fits (wid_of a) /\ operand le /\ operand re /\ binary_ok opcode a le re
  | IVL_EX_TERNARY a c t f =>
      width_fits (wid_of a) /\ operand c /\ operand t /\ operand f /\
      ivl_expr_width t = wid_of a /\ ivl_expr_width f = wid_of a
  | IVL_EX_CONCAT a repeat parms =>
      (fix all (l : list ivl_expr) : Prop := match l with [] => True | x :: l => wf_expr x /\ all l end) parms /\
      (0 < total_width parms)%nat /\ (repeat <> 0%nat -> width_fits (wid_of a) /\ wid_of a = (repeat * total_width parms)%nat)
  | IVL_EX_SELECT a sub None => width_fits (wid_of a) /\ operand sub
  | IVL_EX_SELECT a sub (Some base) =>
      width_fits (wid_of a) /\ operand sub /\ operand base /\ Z.of_nat (ivl_expr_width sub) <= 2 ^ 31 /\ base_ok (wid_of a) base
  end.
End Eval.

Definition operand (d : design) (e : ivl_expr) : Prop := zero_replication e = false /\ wf_expr d e.

(** * The widths of values *)

Lemma length_strict op l r : length (bv_strict op l r) = length l.
Proof. unfold bv_strict. case_match; [by rewrite length_replicate|by rewrite length_of_Z]. Qed.
Lemma length_divide op s l r : length (bv_divide op s l r) = length l.
Proof. unfold bv_divide. case_match; [by rewrite length_replicate|by rewrite length_of_Z]. Qed.
Lemma length_pow bs es l r : length (bv_pow bs es l r) = length l.
Proof. unfold bv_pow. repeat (case_match; rewrite ?length_replicate, ?length_of_Z; try done). Qed.
Lemma length_shl k l : length (bv_shl k l) = length l.
Proof. unfold bv_shl. by rewrite length_map, length_seq. Qed.
Lemma length_shr b k l : length (bv_shr b k l) = length l.
Proof. unfold bv_shr. by rewrite length_map, length_seq. Qed.
Lemma length_shift f l s : (forall k, length (f k l) = length l) -> length (bv_shift f l s) = length l.
Proof. intros H. unfold bv_shift. case_match; [by rewrite length_replicate|apply H]. Qed.
Lemma length_neg l : length (bv_neg l) = length l.
Proof. unfold bv_neg. case_match; [by rewrite length_replicate|by rewrite length_of_Z]. Qed.
Lemma length_abs s l : length (bv_abs s l) = length l.
Proof. unfold bv_abs. case_match; [done|by rewrite length_of_Z]. Qed.

Create Rewrite HintDb width.
#[export] Hint Rewrite length_strict length_divide length_pow length_shl length_shr length_neg length_abs length_select
  length_pad @length_replicate @length_map length_of_Z : width.

Lemma length_ev_unary opcode a sub l :
  unary_ok opcode a sub -> length l = ivl_expr_width sub -> length (ev_unary opcode a sub l) = wid_of a.
Proof.
  intros Hok Hl. destruct opcode; cbn in *; unfold bv_reduce_with; autorewrite with width; cbn; try congruence.
  case_match; autorewrite with width; congruence.
Qed.

Lemma length_ev_binary opcode a le re l r :
  binary_ok opcode a le re -> width_fits (wid_of a) -> length l = ivl_expr_width le -> length r = ivl_expr_width re ->
  length (ev_binary opcode a le re l r) = wid_of a.
Proof.
  intros Hok Hf Hl Hr. destruct opcode; cbn in *; unfold bv_add, bv_sub, bv_mul, bv_div, bv_mod, bv_map2;
    rewrite ?length_zip_with, ?length_shift by (intros; autorewrite with width; done); autorewrite with width;
    try (cbn; done || lia); try (destruct Hok; lia).
Qed.

Lemma length_ev_ternary c t f n : length t = n -> length f = n -> length (ev_ternary c t f) = n.
Proof. intros Ht Hf. unfold ev_ternary, bv_map2. case_match; rewrite ?length_zip_with; lia. Qed.

Lemma length_select_word words wid s ix :
  Forall (fun w => length w = wid) words -> length (select_word words wid s ix) = wid.
Proof.
  intros H. unfold select_word. case_match; [by rewrite length_replicate|].
  destruct (words !! _) as [w|] eqn:E; cbn [default]; [|by rewrite length_replicate].
  rewrite Forall_lookup in H. by apply (H _ _ E).
Qed.

(** The recursive conditions of a concatenation as [Forall]. *)
Lemma wf_parms d parms :
  (fix all (l : list ivl_expr) : Prop := match l with [] => True | x :: l => wf_expr d x /\ all l end) parms <-> Forall (wf_expr d) parms.
Proof.
  induction parms as [|x l IH]; [by split; [constructor|]|]. split.
  - intros [H1 H2]. constructor; [done|]. by apply IH.
  - intros H. inversion H; subst. split; [done|]. by apply IH.
Qed.

Definition kept (parms : list ivl_expr) : list ivl_expr := filter (fun p => zero_replication p = false) parms.

Lemma kept_values d parms :
  map snd (filter (fun p => zero_replication (fst p) = false) (map (fun p => (p, ev d p)) parms)) = map (ev d) (kept parms).
Proof.
  unfold kept. induction parms as [|p l IH]; [done|]. cbn [map].
  rewrite !filter_cons. cbn [fst]. destruct (decide (zero_replication p = false)); [|done]. cbn [map snd]. by rewrite IH.
Qed.

Definition shape (d : design) (e : ivl_expr) : Prop :=
  wf_expr d e -> (0 < length (ev d e))%nat /\
    (zero_replication e = false -> length (ev d e) = ivl_expr_width e /\ width_fits (ivl_expr_width e)).

Lemma shape_fits d e : (wf_expr d e -> length (ev d e) = ivl_expr_width e /\ width_fits (ivl_expr_width e)) -> shape d e.
Proof. intros H Hwf. destruct (H Hwf) as [H1 [H2 H3]]. split; [by rewrite H1|]. intros _. done. Qed.

Lemma operand_shape d e : shape d e -> operand d e -> length (ev d e) = ivl_expr_width e /\ width_fits (ivl_expr_width e).
Proof. intros Hs [Hz Hwf]. by apply Hs. Qed.

Lemma concat_width d parms :
  Forall (shape d) parms -> Forall (wf_expr d) parms -> length (concat (reverse (map (ev d) (kept parms)))) = total_width parms.
Proof.
  intros Hs Hwf. unfold total_width. fold (kept parms).
  assert (H : forall l, Forall (fun p => length (ev d p) = ivl_expr_width p) l ->
    length (concat (reverse (map (ev d) l))) = list_sum (map ivl_expr_width l)).
  { induction l as [|p l IH]; intros Hl; [done|]. inversion Hl as [|? ? E Hl']; subst. cbn [map list_sum fold_right].
    rewrite reverse_cons, concat_app, length_app, IH by done. cbn [concat]. rewrite app_nil_r, E. unfold list_sum. lia. }
  apply H. rewrite Forall_forall in *. intros p Hp. unfold kept in Hp.
  apply list_elem_of_In, list_elem_of_filter in Hp as [Hz Hp%list_elem_of_In].
  by apply (Hs p Hp (Hwf p Hp)).
Qed.

Lemma ev_shape d e : shape d e.
Proof.
  induction e as [a bits|a sig|a sig ix IH|a op sub IH|a op le re IHl IHr|a c t f IHc IHt IHf|a n parms IH|a sub IH|a sub base IHs IHb]
    using expr_ind.
  all: lazymatch goal with |- shape _ (IVL_EX_CONCAT _ _ _) => idtac | _ => apply shape_fits end.
  all: unfold shape; cbn [wf_expr ev]; unfold ivl_expr_width; cbn [attr_of].
  - tauto.
  - intros (Hf & _ & _ & _ & Hs). split; [|done]. unfold net_bits. by rewrite length_bits_of.
  - intros (Hf & _ & Ha & _). split; [|done]. apply length_select_word. destruct Ha as (_ & _ & _ & _ & HF).
    unfold array_bits. apply Forall_map. eapply Forall_impl; [|exact HF]. intros v [_ Hv]. cbn. by rewrite length_bits_of.
  - intros (Hf & Ho & Hok). split; [|done]. apply length_ev_unary; [done|]. by apply operand_shape.
  - intros (Hf & Hl & Hr & Hok). split; [|done]. apply length_ev_binary; [done|done|by apply operand_shape..].
  - intros (Hf & Hc & Ht & Hff & Wt & Wf). split; [|done].
    apply length_ev_ternary; [rewrite <- Wt|rewrite <- Wf]; by apply operand_shape.
  - intros (Hp & Ht & Hw). rewrite wf_parms in Hp. cbn [ev]. unfold ev_concat. rewrite kept_values, length_copies.
    rewrite concat_width by done. split; [destruct n; cbn [Nat.eqb]; lia|]. cbn [zero_replication]. unfold ivl_expr_width. cbn [attr_of].
    destruct n as [|n]; [done|]. intros _. destruct (Hw ltac:(done)) as [W1 W2]. split; [|done]. cbn [Nat.eqb]. lia.
  - intros (Hf & Ho). split; [apply length_pad|done].
  - intros (Hf & _). split; [apply length_select|done].
Qed.

Lemma ev_length d e : operand d e -> length (ev d e) = ivl_expr_width e.
Proof. intros H. by apply (operand_shape d e (ev_shape d e)). Qed.
Lemma ev_fits d e : operand d e -> width_fits (ivl_expr_width e).
Proof. intros H. by apply (operand_shape d e (ev_shape d e)). Qed.
Lemma ev_pos d e : wf_expr d e -> (0 < length (ev d e))%nat.
Proof. apply ev_shape. Qed.
