(* ===== verification/ExprFacts.v ===== *)
(** Identities of the bit-list operators behind the instruction sequences of the operators. *)
From S2P Require Import Prelude MachineWord VvpBit VvpVector4 VvpSlice WordArith VvpArith VvpVector2 VvpCompare.
From S2P Require Import BitList VvpFunctor WordDiv VThread VThreadSpec VThreadParts VThreadIndex VThreadDiv.
From S2P Require Import VThreadMod CodeGen ExprSpec.

(** * Facts on bit lists *)

Lemma pad_same s l : bv_pad s (length l) l = l.
Proof. unfold bv_pad. rewrite take_ge, Nat.sub_diag by lia. apply app_nil_r. Qed.

Lemma pad_one b : bv_pad false 1 [b] = [b]. Proof. done. Qed.

(** The OR of a bit: the bit with Z read as X. *)
Definition norm (b : vvp_bit4_t) : vvp_bit4_t := bit4_or BIT4_0 b.

Lemma norm_truth l : norm (truth l) = truth l.
Proof.
  unfold truth. assert (H : forall b, norm b = b -> norm (fold_left bit4_or l b) = fold_left bit4_or l b); [|by apply H].
  induction l as [|x l IH]; intros b Hb; [done|]. cbn [fold_left]. apply IH. revert Hb. by destruct b, x.
Qed.

Lemma truth_one b : truth [b] = norm b. Proof. done. Qed.

Lemma length_one (l : list vvp_bit4_t) : length l = 1%nat -> exists b, l = [b].
Proof. destruct l as [|b [|]]; try done. by exists b. Qed.

(** The code of [&&] and [||] on single bits does not distinguish Z from X. *)
Lemma and_norm a b : bit4_and (norm a) (norm b) = bit4_and a b. Proof. by destruct a, b. Qed.
Lemma or_norm a b : bit4_or (norm a) (norm b) = bit4_or a b. Proof. by destruct a, b. Qed.

Lemma eq_sym_bits l r : length l = length r -> bv_eq l r = bv_eq r l.
Proof.
  intros Hl. unfold bv_eq. rewrite (orb_comm (unknown l)).
  replace (existsb (fun '(a, b) => bits_differ a b) (combine r l)) with (existsb (fun '(a, b) => bits_differ a b) (combine l r)); [done|].
  revert r Hl. induction l as [|a l IH]; intros [|b r] Hl; try done. cbn [combine existsb]. rewrite (IH r) by (cbn in Hl; lia).
  f_equal. by destruct a, b.
Qed.

Lemma eeq_sym_bits l r : bv_eeq l r = bv_eeq r l.
Proof. unfold bv_eeq. f_equal. apply bool_decide_ext. by split. Qed.

(** ** Magnitudes *)

Definition eq_flag (signed : bool) (l r : list vvp_bit4_t) : vvp_bit4_t := if signed then bv_eq_known l r else bv_eq l r.

Lemma bv_num_inj s l r :
  length l = length r -> (0 < length l)%nat -> unknown l = false -> unknown r = false -> bv_num s l = bv_num s r -> l = r.
Proof.
  intros Hl H0 Ul Ur E. rewrite <- (of_Z_bv_Z l Ul), <- (of_Z_bv_Z r Ur), <- Hl. f_equal.
  destruct s; [|done]. cbn in E. pose proof (bv_Z_range l). pose proof (bv_Z_range r). rewrite <- Hl in *.
  unfold bv_S in E. rewrite <- Hl in E. repeat case_match; lia.
Qed.

Lemma eq_flag_known s l r :
  length l = length r -> (0 < length l)%nat -> unknown l = false -> unknown r = false ->
  eq_flag s l r = bit_of_bool (bv_num s l =? bv_num s r).
Proof.
  intros Hl H0 Ul Ur. assert (E : eq_flag s l r = bv_eeq l r).
  { unfold eq_flag, bv_eq_known. rewrite Ul, Ur. destruct s; [done|]. by apply eq_eeq_known. }
  rewrite E. unfold bv_eeq. f_equal. destruct (Z.eqb_spec (bv_num s l) (bv_num s r)) as [En|En].
  - apply bool_decide_eq_true. by eapply bv_num_inj.
  - apply bool_decide_eq_false. by intros ->.
Qed.

(** [<=] from the flags of the comparison. *)
Lemma or_le s l r : length l = length r -> (0 < length l)%nat -> bit4_or (eq_flag s l r) (bv_lt s l r) = bv_le s l r.
Proof.
  intros Hl H0. unfold bv_le, bv_lt. destruct (unknown l || unknown r) eqn:Hu.
  - unfold eq_flag, bv_eq_known, bv_eq. rewrite Hu. destruct s; [done|]. by case_match.
  - apply orb_false_iff in Hu as [Ul Ur]. rewrite eq_flag_known by done. unfold bit_of_bool.
    repeat case_cmp; (done || lia).
Qed.

Lemma le_lt s l r : bit4_not (bv_lt s r l) = bv_le s l r.
Proof.
  unfold bv_le, bv_lt. rewrite orb_comm. case_match; [done|]. unfold bit_of_bool. repeat case_cmp; (done || lia).
Qed.
Lemma lt_le s l r : bit4_not (bv_le s r l) = bv_lt s l r.
Proof.
  unfold bv_le, bv_lt. rewrite orb_comm. case_match; [done|]. unfold bit_of_bool. repeat case_cmp; (done || lia).
Qed.

(** ** Negation and magnitude *)

Lemma unknown_not l : unknown (map bit4_not l) = unknown l.
Proof. unfold unknown. induction l as [|b l IH]; [done|]. cbn. rewrite IH. by destruct b. Qed.

Lemma bv_Z_not l : unknown l = false -> bv_Z (map bit4_not l) = 2 ^ Z.of_nat (length l) - 1 - bv_Z l.
Proof.
  induction l as [|b l IH]; [done|]. unfold unknown. cbn [existsb map bv_Z length]. rewrite Nat2Z.inj_succ, Z.pow_succ_r by lia.
  intros [Hb Hl]%orb_false_iff. rewrite (IH Hl).
  assert (bit1 (bit4_not b) = 1 - bit1 b) by (by destruct b). lia.
Qed.

Lemma not_add_one l : (0 < length l)%nat -> bv_add (map bit4_not l) (of_Z (length l) 1) = bv_neg l.
Proof.
  intros H0. unfold bv_add, bv_strict, bv_neg. rewrite unknown_not, unknown_of_Z, orb_false_r, length_map.
  destruct (unknown l) eqn:Hu; [done|]. rewrite bv_Z_not, bv_Z_of_Z by done. apply of_Z_eqm.
  assert (Hp : 0 < 2 ^ Z.of_nat (length l)) by (apply Z.pow_pos_nonneg; lia).
  rewrite Z.add_mod_idemp_r by lia. replace (_ - 1 - bv_Z l + 1) with (- bv_Z l + 1 * 2 ^ Z.of_nat (length l)) by lia.
  by rewrite Z.mod_add by lia.
Qed.

Lemma imm_of_Z a n : imm_bits a 0 n = of_Z n a.
Proof. unfold imm_bits, of_Z. apply map_seq_ext. intros i _. rewrite Z.bits_0. by destruct (Z.testbit _ _). Qed.

Lemma of_Z_bv_S l : unknown l = false -> of_Z (length l) (bv_S l) = l.
Proof.
  intros Hu. etransitivity; [|apply (of_Z_bv_Z l Hu)]. apply of_Z_eqm. unfold bv_S.
  case_match; [|by rewrite Z.sub_0_r].
  replace (bv_Z l - 2 ^ Z.of_nat (length l)) with (bv_Z l + (-1) * 2 ^ Z.of_nat (length l)) by lia.
  rewrite Z.mod_add; [done|]. apply Z.pow_nonzero; lia.
Qed.

Lemma bv_Z_zero n : bv_Z (of_Z n 0) = 0. Proof. by rewrite bv_Z_of_Z, Z.mod_0_l by (apply Z.pow_nonzero; lia). Qed.
Lemma bv_S_zero n : (0 < n)%nat -> bv_S (of_Z n 0) = 0.
Proof. intros Hn. apply bv_S_0; [by rewrite length_of_Z|apply bv_Z_zero]. Qed.

(** The sign test of the absolute value. *)
Lemma negative_test l : (0 < length l)%nat ->
  bv_lt true l (of_Z (length l) 0) = if unknown l then BIT4_X else bit_of_bool (bv_S l <? 0).
Proof. intros H0. unfold bv_lt. rewrite unknown_of_Z, orb_false_r. cbn [bv_num]. by rewrite bv_S_zero. Qed.

Lemma abs_of_sign l : (0 < length l)%nat ->
  bv_abs true l = if bit4_eqb (bv_lt true l (of_Z (length l) 0)) BIT4_1 then bv_neg l else l.
Proof.
  intros H0. rewrite negative_test by done. unfold bv_abs, bv_neg. cbn [bv_num]. destruct (unknown l) eqn:Hu; [done|].
  destruct (Z.ltb_spec (bv_S l) 0) as [Hn|Hn]; change (bit4_eqb (bit_of_bool true) BIT4_1) with true || change (bit4_eqb (bit_of_bool false) BIT4_1) with false; cbv iota.
  - rewrite Z.abs_neq by lia. apply of_Z_eqm. unfold bv_S. case_match; [|by rewrite Z.sub_0_r].
    replace (- (bv_Z l - 2 ^ Z.of_nat (length l))) with (- bv_Z l + 1 * 2 ^ Z.of_nat (length l)) by lia.
    rewrite Z.mod_add; [done|]. apply Z.pow_nonzero; lia.
  - rewrite Z.abs_eq by lia. by apply of_Z_bv_S.
Qed.
