(* ===== verification/FunctorSpec.v ===== *)
(** The arithmetic functors of continuous assignments against the operators on bit lists:
    addition, multiplication, division, power, comparison and shifts. *)
From S2P Require Import Prelude MachineWord VvpBit VvpVector4 VvpSlice WordArith VvpArith VvpVector2 VvpCompare.
From S2P Require Import BitList VvpFunctor WordDiv VThread VThreadSpec VThreadParts VThreadIndex VThreadDiv.
From S2P Require Import VThreadMod CodeGen ExprSpec ExprFacts.

(** * Operands *)

(** A functor of width [n] whose operands are [l] and [r]. *)
Record operands (st : vvp_arith_) (n : nat) (l r : list vvp_bit4_t) : Prop := {
  op_wid : wid_ st = n;
  op_a : vec_is (op_a_ st) l;
  op_b : vec_is (op_b_ st) r;
  op_x : vec_is (x_val_ st) (replicate n BIT4_X) }.

(** [f] sends [g l r]. *)
Definition sends (f : vvp_arith_ -> option vvp_vector4_t) (st : vvp_arith_) (x : list vvp_bit4_t) : Prop :=
  exists v, f st = Some v /\ vec_is v x.

Lemma vector4_to_value_is v l :
  vec_is v l -> (0 < length l <= W)%nat ->
  vector4_to_value W v false true = if unknown l then (false, None) else (true, Some (bv_Z l)).
Proof.
  intros Hv Hl. pose proof (vec_is_size _ _ Hv) as Sv. rewrite vector4_to_value_result by (unfold W in *; lia). cbv zeta.
  rewrite Nat.min_l, (unknown_in_list v l) by (done || lia). cbn [andb]. destruct (unknown l); [done|]. cbn [negb]. do 2 f_equal.
  unfold signed_sum. cbn [andb]. rewrite Sv, bv_Z_bit_sum, Z.sub_0_r.
  rewrite (bit_sum_ext _ (fun i => nth i l BIT4_X)) by (intros i _; by apply vec_is_value).
  apply Z.mod_small. pose proof (bv_Z_range l) as HR. rewrite bv_Z_bit_sum in HR.
  assert (2 ^ Z.of_nat (length l) <= 2 ^ Z.of_nat W) by (apply Z.pow_le_mono_r; lia). lia.
Qed.

Lemma vector4_to_ulong_is v l :
  vec_is v l ->
  if unknown l then exists ov, vector4_to_ulong v = (false, ov, None)
  else vector4_to_ulong v = (true, wordsize <=? bv_Z l, Some (bv_Z l mod wordsize)).
Proof.
  intros Hv. destruct (unknown l) eqn:Hu.
  - unfold vector4_to_ulong. apply to_ulong_loop_unknown. by rewrite (unknown_in_list v l).
  - assert (Hk : known v) by (by apply (unknown_known v l)).
    rewrite vector4_to_ulong_known, <- (bv_Z_vec v l Hv Hk) by (done || apply Hv). done.
Qed.

Lemma word_bits_is n x : exists v, word_bits n x = Some v /\ vec_is v (of_Z n x).
Proof.
  destruct (vec4_fill_spec n BIT4_X) as (Wf & Sf & _).
  destruct (set_bits_all (vec4_fill n BIT4_X) n (fun idx => if Z.testbit x (Z.of_nat idx) then BIT4_1 else BIT4_0) Wf Sf) as (v & E & Hv).
  exists v. split; [done|]. by apply vec_is_bitwise in Hv.
Qed.

Lemma all_x_is n : exists v, set_bits n 0 (fun _ => BIT4_X) (vec4_fill n BIT4_X) = Some v /\ vec_is v (replicate n BIT4_X).
Proof.
  destruct (vec4_fill_spec n BIT4_X) as (Wf & Sf & _).
  destruct (set_bits_all (vec4_fill n BIT4_X) n (fun _ => BIT4_X) Wf Sf) as (v & E & Wv & Sv & Vv).
  exists v. split; [done|]. by apply vec_is_all_x.
Qed.

(** Taking the sign out of an operand: of a two-valued vector and of a word. *)
Lemma take_sign2_is (sf : bool) l v :
  holds2 (length l) (bv_Z l) v -> (0 < length l)%nat ->
  exists v', take_sign2 sf v = Some (v', bv_num sf l <? 0) /\ holds2 (length l) (Z.abs (bv_num sf l)) v'.
Proof.
  intros Hv Hp. unfold take_sign2. pose proof (bv_Z_range l) as HR. rewrite (negative_exponent _ _ Hv) by done.
  destruct sf; cbn [andb bv_num].
  2:{ exists v. rewrite (proj2 (Z.ltb_ge _ _)), Z.abs_eq by lia. done. }
  pose proof (bv_S_alt l Hp) as HS. destruct (Z.ltb_spec (bv_S l) 0) as [Hneg|Hneg].
  - destruct (vec2_neg_spec v (h2_wf _ _ _ Hv)) as (v' & -> & Wv & Sv & Cv & Vv). exists v'. split; [done|].
    rewrite (h2_wid _ _ _ Hv), (h2_num _ _ _ Hv) in *. split; [done|done|done|]. rewrite Vv, Z.abs_neq by lia.
    destruct (Z.ltb_spec (bv_Z l) (2 ^ Z.of_nat (length l - 1))); [lia|]. symmetry. apply (Z.mod_unique _ _ (-1)); [by left;lia|lia].
  - exists v. split; [done|]. rewrite Z.abs_eq by done. destruct (bv_Z l <? _); [by rewrite HS, Z.sub_0_r|lia].
Qed.

Lemma low_mask n x : (0 < n <= W)%nat -> Z.land (wsub 0 x) (wnot (if (n =? W)%nat then 0 else wshl wones n)) = (- x) mod 2 ^ Z.of_nat n.
Proof.
  intros Hn. assert (EM : wnot (if (n =? W)%nat then 0 else wshl wones n) = Z.ones (Z.of_nat n)).
  { destruct (Nat.eqb_spec n W) as [->|Hne]; [done|].
    unfold wshl. rewrite Nat.mod_small by lia. rewrite Z.shiftl_mul_pow2 by lia. unfold wnot, wones, wrap. rewrite Z.ones_equiv.
    assert (0 < 2 ^ Z.of_nat n) by (apply Z.pow_pos_nonneg; lia).
    assert (EW : wordsize = 2 ^ Z.of_nat n * 2 ^ Z.of_nat (W - n)).
    { rewrite <- Z.pow_add_r by lia. unfold wordsize. f_equal. unfold W in *. lia. }
    replace ((wordsize - 1) * 2 ^ Z.of_nat n) with ((wordsize - 2 ^ Z.of_nat n) + (2 ^ Z.of_nat n - 1) * wordsize) by lia.
    rewrite Z.mod_add, Z.mod_small; [lia| |done]. assert (1 <= 2 ^ Z.of_nat (W - n)) by (apply (Z.pow_le_mono_r 2 0); lia). nia. }
  rewrite EM, Z.land_ones by lia. unfold wsub, wrap, wordsize. rewrite Z.sub_0_l.
  change (2 ^ 64) with (2 ^ Z.of_nat W). apply mod_pow_le. lia.
Qed.

Lemma take_sign_is (sf : bool) v l :
  vec_is v l -> (0 < length l <= W)%nat -> unknown l = false ->
  take_sign sf v (bv_Z l) = (Z.abs (bv_num sf l), bv_num sf l <? 0).
Proof.
  intros Hv Hp Hu. unfold take_sign. rewrite (vec_is_size _ _ Hv), (vec_is_value _ _ _ Hv). pose proof (bv_Z_range l) as HR.
  destruct sf; cbn [andb bv_num].
  2:{ by rewrite (proj2 (Z.ltb_ge _ _)), Z.abs_eq by lia. }
  destruct (sign_bit_num l ltac:(lia) Hu) as (E1 & E2 & E3). rewrite <- E3, E1. unfold msb in *.
  assert (Hb : negb (bit4_num (nth (length l - 1) l BIT4_X) =? 0) = bit4_eqb (nth (length l - 1) l BIT4_X) BIT4_1).
  { rewrite unknown_false in Hu. specialize (Hu (length l - 1)%nat ltac:(lia)). by destruct (nth _ _ _). }
  rewrite Hb. destruct (bit4_eqb _ _); [|done]. rewrite low_mask by lia. specialize (E2 eq_refl).
  f_equal. symmetry. apply (Z.mod_unique _ _ (-1)); [by left; lia|lia].
Qed.

Lemma quot_sign a b : b <> 0 ->
  (if xorb (a <? 0) (b <? 0) then - (Z.abs a / Z.abs b) else Z.abs a / Z.abs b) = Z.quot a b.
Proof.
  intros Hb. rewrite Z.quot_div by done. destruct (Z.eq_dec a 0) as [->|Ha].
  { rewrite Z.div_0_l by lia. rewrite !Z.mul_0_r. by destruct (xorb _ _). }
  destruct (Z.ltb_spec a 0), (Z.ltb_spec b 0); cbn [xorb]; rewrite ?(Z.sgn_neg a), ?(Z.sgn_neg b), ?(Z.sgn_pos a), ?(Z.sgn_pos b) by lia; lia.
Qed.

(** The result of a wide computation. *)
Lemma vector2_to_vector4_is n v : wf2 v -> VvpVector2.wid v = n -> exists r, vector2_to_vector4 v n = Some r /\ vec_is r (of_Z n (uZ v)).
Proof.
  intros Hv Hw. destruct (vec4_fill_spec n BIT4_X) as (Wf & Sf & _).
  destruct (set_bits_all (vec4_fill n BIT4_X) n (value4 v) Wf Sf) as (r & E & Hr).
  exists r. split; [exact E|]. apply vec_is_bitwise in Hr.
  replace (of_Z n (uZ v)) with (map (value4 v) (seq 0 n)); [done|]. apply map_seq_ext. intros i Hi.
  unfold value4. rewrite vec2_value_spec by (done || lia). by destruct (Z.testbit _ _).
Qed.

Lemma vector2_to_vector4_mod n v x :
  wf2 v -> VvpVector2.wid v = n -> uZ v mod 2 ^ Z.of_nat n = x mod 2 ^ Z.of_nat n ->
  exists r, vector2_to_vector4 v n = Some r /\ vec_is r (of_Z n x).
Proof. intros Hv Hw E. destruct (vector2_to_vector4_is n v Hv Hw) as (r & Er & Hr). exists r. by rewrite <- (of_Z_eqm n _ _ E). Qed.

(** A magnitude and the sign put back. *)
Lemma put_sign_is (neg : bool) n x v :
  holds2 n x v ->
  exists w r, (if neg then vec2_neg v else Some v) = Some w /\ VvpVector2.wid w = n /\
    vector2_to_vector4 w n = Some r /\ vec_is r (of_Z n (if neg then - x else x)).
Proof.
  intros Hv. destruct neg.
  - destruct (vec2_neg_spec v (h2_wf _ _ _ Hv)) as (w & -> & Ww & Sw & Cw & Vw). rewrite (h2_wid _ _ _ Hv), (h2_num _ _ _ Hv) in *.
    destruct (vector2_to_vector4_mod n w (- x) Ww Sw) as (r & E & Hr); [by rewrite Vw, Z.mod_mod by (apply Z.pow_nonzero; lia)|].
    by exists w, r.
  - destruct (vector2_to_vector4_mod n v x (h2_wf _ _ _ Hv) (h2_wid _ _ _ Hv)) as (r & E & Hr); [by rewrite (h2_num _ _ _ Hv)|].
    exists v, r. split_and!; try done. apply Hv.
Qed.

(** * Sums *)

Definition sum_bit (x : Z) (i : nat) : vvp_bit4_t := if Z.testbit x (Z.of_nat i) then BIT4_1 else BIT4_0.

Lemma sum_bit_step s x i : bit4_is_xz s = false ->
  sum_bit (bit1 s + 2 * x) 0 = s /\ sum_bit (bit1 s + 2 * x) (S i) = sum_bit x i.
Proof.
  intros Hs. unfold sum_bit. rewrite Nat2Z.inj_succ. change (Z.of_nat 0) with 0.
  assert (E : bit1 s + 2 * x = 2 * x + Z.b2z (bit4_eqb s BIT4_1)) by (unfold bit1; destruct (bit4_eqb _ _); cbn [Z.b2z]; lia).
  rewrite E, Z.testbit_0_r, Z.testbit_succ_r by lia. split; [by destruct s|done].
Qed.

Lemma sum_loop_known cnt : forall idx a b carry v,
  wf4 v -> (idx + cnt <= size v)%nat -> bit4_is_xz carry = false ->
  (forall i, (i < cnt)%nat -> bit4_is_xz (a (idx + i)%nat) = false /\ bit4_is_xz (b (idx + i)%nat) = false) ->
  exists r, sum_loop cnt idx a b carry v = Some (Some r) /\ wf4 r /\ size r = size v /\
    (forall i, (i < cnt)%nat -> value r (idx + i) =
       sum_bit (bit_sum (fun i => a (idx + i)%nat) cnt + bit_sum (fun i => b (idx + i)%nat) cnt + bit1 carry) i) /\
    forall i, (i < idx)%nat -> value r i = value v i.
Proof.
  induction cnt as [|cnt IH]; intros idx a b carry v Hv Hs Hc Hab; cbn [sum_loop].
  { exists v. split_and!; try done. lia. }
  destruct (Hab 0%nat ltac:(lia)) as [Ka Kb]. rewrite Nat.add_0_r in Ka, Kb.
  destruct (bit4_adc_known _ _ _ Ka Kb Hc) as (s & c' & -> & Ks & Kc & Esum). cbn [mbind option_bind].
  assert (Ex : bit4_eqb s BIT4_X = false) by (by destruct s). rewrite Ex.
  destruct (set_bit_spec v idx s Hv ltac:(lia)) as (v' & -> & Wv & Sv & Vv). cbn [mbind option_bind].
  destruct (IH (idx + 1)%nat a b c' v' Wv ltac:(lia) Kc) as (r & E & Wr & Sr & Vr & Lr).
  { intros i Hi. rewrite <- Nat.add_assoc. apply Hab. lia. }
  exists r. split_and!; [done|done|congruence| |].
  - assert (EA : forall f : nat -> vvp_bit4_t, bit_sum (fun i => f (idx + i)%nat) (S cnt) = bit1 (f idx) + 2 * bit_sum (fun i => f (idx + 1 + i)%nat) cnt).
    { intros f. change (S cnt) with (1 + cnt)%nat. rewrite bit_sum_split. cbn [bit_sum]. change (2 ^ Z.of_nat 1) with 2.
      rewrite Nat.add_0_r. f_equal; [lia|]. f_equal. apply bit_sum_ext. intros i _. f_equal. lia. }
    rewrite !EA. set (A := bit_sum (fun i => a (idx + 1 + i)%nat) cnt) in *. set (B := bit_sum (fun i => b (idx + 1 + i)%nat) cnt) in *.
    replace (bit1 (a idx) + 2 * A + (bit1 (b idx) + 2 * B) + bit1 carry) with (bit1 s + 2 * (A + B + bit1 c')) by lia.
    intros i Hi. destruct (sum_bit_step s (A + B + bit1 c') (i - 1) Ks) as [E0 E1]. destruct i as [|i].
    + rewrite Nat.add_0_r, E0, Lr, Vv by lia. by rewrite Nat.eqb_refl.
    + cbn [Nat.sub] in E1. rewrite Nat.sub_0_r in E1. rewrite E1, <- Vr by lia. f_equal. lia.
  - intros i Hi. rewrite Lr, Vv by lia. by rewrite (proj2 (Nat.eqb_neq _ _)) by lia.
Qed.

Lemma sum_loop_unknown cnt : forall idx a b carry v,
  wf4 v -> (idx + cnt <= size v)%nat -> bit4_is_xz carry = false ->
  (exists i, (i < cnt)%nat /\ bit4_is_xz (a (idx + i)%nat) || bit4_is_xz (b (idx + i)%nat) = true) ->
  sum_loop cnt idx a b carry v = Some None.
Proof.
  induction cnt as [|cnt IH]; intros idx a b carry v Hv Hs Hc (i & Hi & Hx); [lia|]. cbn [sum_loop].
  destruct (bit4_is_xz (a idx) || bit4_is_xz (b idx)) eqn:E.
  - assert (Eadc : bit4_add_with_carry (a idx) (b idx) carry = Some (BIT4_X, BIT4_X)) by (unfold bit4_add_with_carry; by rewrite E).
    by rewrite Eadc.
  - apply orb_false_iff in E as [Ka Kb]. destruct (bit4_adc_known _ _ _ Ka Kb Hc) as (s & c' & -> & Ks & Kc & Esum).
    cbn [mbind option_bind]. assert (Ex : bit4_eqb s BIT4_X = false) by (by destruct s). rewrite Ex.
    destruct (set_bit_spec v idx s Hv ltac:(lia)) as (v' & -> & Wv & Sv & Vv). cbn [mbind option_bind].
    destruct i as [|i]; [rewrite Nat.add_0_r, Ka, Kb in Hx; done|].
    apply IH; [done|lia|done|]. exists i. split; [lia|]. by replace (idx + 1 + i)%nat with (idx + S i)%nat by lia.
Qed.

(** The adder on two lists, the second as the functor feeds it. *)
Lemma sum_loop_is n (a b : nat -> vvp_bit4_t) l r carry :
  length l = n -> length r = n -> bit4_is_xz carry = false ->
  (forall i, (i < n)%nat -> a i = nth i l BIT4_X) -> (forall i, (i < n)%nat -> b i = nth i r BIT4_X) ->
  exists o, sum_loop n 0 a b carry (vec4_fill n BIT4_X) = Some o /\
    if unknown l || unknown r then o = None
    else exists v, o = Some v /\ vec_is v (of_Z n (bv_Z l + bv_Z r + bit1 carry)).
Proof.
  intros Hl Hr Hc Ha Hb. destruct (vec4_fill_spec n BIT4_X) as (Wf & Sf & _).
  destruct (unknown l || unknown r) eqn:Hu.
  - exists None. split; [|done]. apply sum_loop_unknown; [done|lia|done|].
    destruct (existsb (fun i => bit4_is_xz (nth i l BIT4_X) || bit4_is_xz (nth i r BIT4_X)) (seq 0 n)) eqn:E.
    + apply existsb_exists in E as (i & Hi & Hx). apply in_seq in Hi. exists i. split; [lia|]. rewrite Ha, Hb by lia. done.
    + rewrite (existsb_unknown l r) in E; [congruence|congruence| |done].
      destruct l, r; cbn in *; (done || lia).
  - apply orb_false_iff in Hu as [Ul Ur]. rewrite unknown_false in Ul, Ur.
    destruct (sum_loop_known n 0 a b carry (vec4_fill n BIT4_X) Wf ltac:(lia) Hc) as (v & E & Wv & Sv & Vv & _).
    { intros i Hi. cbn [Nat.add]. rewrite Ha, Hb by done. split; [apply Ul|apply Ur]; lia. }
    exists (Some v). split; [done|]. exists v. split; [done|]. apply vec_is_from; [done|by rewrite Sv, Sf, length_of_Z|].
    rewrite length_of_Z. intros i Hi. change i with (0 + i)%nat at 1. rewrite Vv, nth_of_Z by done. unfold sum_bit.
    rewrite !bv_Z_bit_sum, Hl, Hr.
    assert (EA : bit_sum (fun k => a (0 + k)%nat) n = bit_sum (fun k => nth k l BIT4_X) n) by (apply bit_sum_ext; intros; by apply Ha).
    assert (EB : bit_sum (fun k => b (0 + k)%nat) n = bit_sum (fun k => nth k r BIT4_X) n) by (apply bit_sum_ext; intros; by apply Hb).
    by rewrite EA, EB.
Qed.

Section Functors.
Context (st : vvp_arith_) (n : nat) (l r : list vvp_bit4_t).
Context (Hst : operands st n l r) (Hl : length l = n) (Hr : length r = n) (Hn : (0 < n)%nat).

Lemma sends_x f : f st = Some (x_val_ st) -> sends f st (replicate n BIT4_X).
Proof using Hst. intros E. exists (x_val_ st). split; [done|apply Hst]. Qed.

Lemma sum_sends : sends vvp_arith_sum st (bv_add l r).
Proof using Hst Hl Hr Hn.
  destruct Hst as [Hw Ha Hb Hx]. pose proof (vec_is_size _ _ Ha) as Sa. pose proof (vec_is_size _ _ Hb) as Sb.
  unfold sends, vvp_arith_sum, bv_add, bv_strict. rewrite Hw, Hl.
  destruct (sum_loop_is n (fun idx => if (size (op_a_ st) <=? idx)%nat then BIT4_0 else value (op_a_ st) idx)
    (fun idx => if (size (op_b_ st) <=? idx)%nat then BIT4_0 else value (op_b_ st) idx) l r BIT4_0) as (o & -> & Ho); [done|done|done| | |].
  - intros i Hi. rewrite (proj2 (Nat.leb_gt _ _)) by lia. by apply vec_is_value.
  - intros i Hi. rewrite (proj2 (Nat.leb_gt _ _)) by lia. by apply vec_is_value.
  - cbn [mbind option_bind]. destruct (unknown l || unknown r); [subst o; by exists (x_val_ st)|].
    destruct Ho as (v & -> & Hv). exists v. split; [done|]. by rewrite Z.add_0_r in Hv.
Qed.

Lemma sub_sends : sends vvp_arith_sub st (bv_sub l r).
Proof using Hst Hl Hr Hn.
  destruct Hst as [Hw Ha Hb Hx]. pose proof (vec_is_size _ _ Ha) as Sa. pose proof (vec_is_size _ _ Hb) as Sb.
  unfold sends, vvp_arith_sub, bv_sub, bv_strict. rewrite Hw, Hl.
  destruct (sum_loop_is n (fun idx => if (size (op_a_ st) <=? idx)%nat then BIT4_1 else value (op_a_ st) idx)
    (fun idx => if (size (op_b_ st) <=? idx)%nat then BIT4_1 else bit4_not (value (op_b_ st) idx)) l (map bit4_not r) BIT4_1)
    as (o & -> & Ho); [done|by rewrite length_map|done| | |].
  - intros i Hi. rewrite (proj2 (Nat.leb_gt _ _)) by lia. by apply vec_is_value.
  - intros i Hi. rewrite (proj2 (Nat.leb_gt _ _)) by lia. rewrite (vec_is_value _ _ _ Hb).
    change BIT4_X with (bit4_not BIT4_X) at 2. by rewrite map_nth.
  - rewrite unknown_not in Ho. cbn [mbind option_bind]. destruct (unknown l || unknown r) eqn:Hu; [subst o; by exists (x_val_ st)|].
    destruct Ho as (v & -> & Hv). exists v. split; [done|]. apply orb_false_iff in Hu as [Ul Ur].
    rewrite bv_Z_not, Hr in Hv by done. rewrite (of_Z_eqm n _ (bv_Z l + (2 ^ Z.of_nat n - 1 - bv_Z r) + bit1 BIT4_1)); [done|].
    change (bit1 BIT4_1) with 1. replace (bv_Z l + _ + 1) with (bv_Z l - bv_Z r + 1 * 2 ^ Z.of_nat n) by lia.
    by rewrite Z.mod_add by (apply Z.pow_nonzero; lia).
Qed.
End Functors.
