(* ===== verification/FunctorArith.v ===== *)
(** Multiplication, division, remainder and power of the arithmetic functors: the path for
    operands of a word and the path for wider ones compute the same operator.  Then their
    comparisons and shifts. *)
From S2P Require Import Prelude MachineWord VvpBit VvpVector4 VvpSlice WordArith VvpArith VvpVector2 VvpCompare.
From S2P Require Import BitList VvpFunctor WordDiv VThread VThreadSpec VThreadParts VThreadIndex VThreadDiv.
From S2P Require Import VThreadMod CodeGen ExprSpec ExprFacts FunctorSpec.

(** The unsigned wide divider loses a quotient for divisor 1 ([div_mod]). *)
Definition divide_ok (signed_flag : bool) (l r : list vvp_bit4_t) : Prop :=
  signed_flag = true \/ (length l <= W)%nat \/ bv_Z r <> 1 \/ bv_Z l <= 2 ^ Z.of_nat (length l - 1).

Lemma short_operand m : (length m <= W)%nat -> bv_Z m mod wordsize = bv_Z m.
Proof.
  intros HW. apply Z.mod_small. pose proof (bv_Z_range m).
  pose proof (Z.pow_le_mono_r 2 (Z.of_nat (length m)) (Z.of_nat W) ltac:(lia) ltac:(lia)). change (2 ^ Z.of_nat W) with wordsize in *. lia.
Qed.

(** The vector of 0, 1 or -1. *)
Lemma vec4_of_unit_is m x : (0 < m <= W)%nat -> vec_is (vec4_of_unit m x) (of_Z m x).
Proof.
  intros Hm. assert (E : vec4_of_unit m x = mkVec4 m [wrap x] [0]).
  { unfold vec4_of_unit, allocate_words_. rewrite (proj2 (Nat.ltb_ge _ _)) by lia. destruct (x <? 0); [|done].
    unfold invert. cbn [size short]. rewrite (proj2 (Nat.leb_le _ _)) by lia. done. }
  rewrite E. assert (Wv : wf4 (mkVec4 m [wrap x] [0])).
  { assert (plane_words m = 1%nat) as P1 by (unfold plane_words; by rewrite (proj2 (Nat.ltb_ge _ _)) by lia).
    split; cbn [abits bbits VvpVector4.size]; rewrite ?P1; try done; constructor; auto with word; constructor. }
  apply vec_is_from; [done|by rewrite length_of_Z|]. rewrite length_of_Z. intros i Hi.
  rewrite nth_of_Z by done. rewrite value_planes by done. rewrite pa_short, pb_short by (try done; cbn [VvpVector4.size]; lia).
  unfold abits_val, bbits_val, word. cbn [abits bbits nth]. rewrite tb_0, tb_wrap, (proj2 (Nat.ltb_lt _ _)) by lia. cbn [andb].
  unfold tb. by destruct (Z.testbit _ _).
Qed.

Section Arithmetic.
Context (st : vvp_arith_) (n : nat) (l r : list vvp_bit4_t).
Context (Hst : operands st n l r) (Hl : length l = n) (Hr : length r = n) (Hn : (0 < n)%nat).

(** ** Multiplication *)

Lemma mult_sends : sends vvp_arith_mult st (bv_mul l r).
Proof using Hst Hl Hr Hn.
  destruct Hst as [Hw Ha Hb Hx]. unfold sends, vvp_arith_mult, bv_mul, bv_strict. rewrite Hw, Hl.
  destruct (Nat.ltb_spec W n) as [HW|HW].
  - unfold mult_wide. rewrite Hw. destruct (vec2_of_list _ _ Ha ltac:(lia)) as [-> HL]. destruct (vec2_of_list _ _ Hb ltac:(lia)) as [-> HR].
    destruct (unknown l || unknown r) eqn:Hu; [by exists (x_val_ st)|]. apply orb_false_iff in Hu as [Ul Ur].
    specialize (HL Ul). specialize (HR Ur). rewrite Hl in HL. rewrite Hr in HR.
    destruct (vec2_mul_spec _ _ (h2_wf _ _ _ HL) (h2_wf _ _ _ HR)) as (p & -> & Wp & Sp & Vp).
    { by rewrite (h2_wid _ _ _ HL), (h2_wid _ _ _ HR). } { by rewrite (h2_wid _ _ _ HL). }
    rewrite (h2_wid _ _ _ HL), (h2_num _ _ _ HL), (h2_num _ _ _ HR) in *.
    apply vector2_to_vector4_mod; [done|done|]. apply mod_words_mod. rewrite Vp. apply Z.mod_mod.
    pose proof (pow64_pos (words_for n)). lia.
  - rewrite (vector4_to_value_is _ l), (vector4_to_value_is _ r) by (done || lia).
    destruct (unknown l); [by exists (x_val_ st)|]. destruct (unknown r); [by exists (x_val_ st)|]. cbn [orb].
    destruct (word_bits_is n (wmul (bv_Z l) (bv_Z r))) as (v & E & Hv). exists v. split; [done|].
    unfold wmul in Hv. by rewrite of_Z_wrap in Hv.
Qed.

(** ** Division and remainder *)

Lemma num_zero (sf : bool) : bv_num sf r = 0 <-> bv_Z r = 0.
Proof using Hl Hr Hn. destruct sf; [apply bv_S_0; lia|done]. Qed.

Lemma operand_words :
  vector4_to_ulong (op_a_ st) = (negb (unknown l), snd (fst (vector4_to_ulong (op_a_ st))), if unknown l then None else Some (bv_Z l mod wordsize)) /\
  vector4_to_ulong (op_b_ st) = (negb (unknown r), snd (fst (vector4_to_ulong (op_b_ st))), if unknown r then None else Some (bv_Z r mod wordsize)).
Proof using Hst.
  pose proof (vector4_to_ulong_is _ _ (op_a _ _ _ _ Hst)) as HA. pose proof (vector4_to_ulong_is _ _ (op_b _ _ _ _ Hst)) as HB.
  split; [destruct (unknown l)|destruct (unknown r)].
  - by destruct HA as (ov & ->). - by rewrite HA. - by destruct HB as (ov & ->). - by rewrite HB.
Qed.

(** The magnitude of the quotient as the wide divider computes it. *)
Lemma wide_quotient (sf : bool) :
  (W < n)%nat -> divide_ok sf l r ->
  (if (Z.abs (bv_num sf r) =? 1) && (2 ^ Z.of_nat (n - 1) <? Z.abs (bv_num sf l)) then 0 else Z.abs (bv_num sf l) / Z.abs (bv_num sf r))
  = Z.abs (bv_num sf l) / Z.abs (bv_num sf r).
Proof using Hl Hr Hn.
  intros HW Hok. destruct ((_ =? 1) && _) eqn:E; [|done]. apply andb_true_iff in E as [E1%Z.eqb_eq E2%Z.ltb_lt]. exfalso.
  destruct sf; cbn [bv_num] in *.
  - pose proof (bv_num_range true l ltac:(lia)) as HR. cbn [bv_num] in HR. rewrite Hl in HR. lia.
  - pose proof (bv_Z_range l). pose proof (bv_Z_range r). rewrite Z.abs_eq in E1, E2 by lia. rewrite <- Hl in E2, HW.
    destruct Hok as [?|[?|[?|?]]]; (done || lia).
Qed.

(** The wide path up to the divider. *)
Lemma wide_operands (sf : bool) : unknown l = false -> unknown r = false ->
  let a2 := vec2_of_vec4 (op_a_ st) true in let b2 := vec2_of_vec4 (op_b_ st) true in
  vec2_is_zero b2 = (bv_Z r =? 0) /\
  exists a b, take_sign2 sf a2 = Some (a, bv_num sf l <? 0) /\ holds2 n (Z.abs (bv_num sf l)) a /\
    take_sign2 sf b2 = Some (b, bv_num sf r <? 0) /\ holds2 n (Z.abs (bv_num sf r)) b.
Proof using Hst Hl Hr Hn.
  intros Ul Ur a2 b2. destruct Hst as [Hw Ha Hb Hx].
  destruct (vec2_of_list _ _ Ha ltac:(lia)) as [_ HL]. destruct (vec2_of_list _ _ Hb ltac:(lia)) as [_ HR].
  specialize (HL Ul). specialize (HR Ur). split; [unfold b2; by rewrite vec2_is_zero_spec, (h2_num _ _ _ HR) by apply HR|].
  destruct (take_sign2_is sf l _ HL ltac:(lia)) as (a & Ea & HA). destruct (take_sign2_is sf r _ HR ltac:(lia)) as (b & Eb & HB).
  rewrite Hl in HA. rewrite Hr in HB. by exists a, b.
Qed.

Lemma div_sends (sf : bool) : divide_ok sf l r -> sends (vvp_arith_div sf) st (bv_div sf l r).
Proof using Hst Hl Hr Hn.
  intros Hok. destruct Hst as [Hw Ha Hb Hx]. unfold vvp_arith_div, sends, bv_div, bv_divide. rewrite Hw, Hl.
  destruct (Nat.ltb_spec W n) as [HW|HW].
  - unfold div_wide. rewrite Hw. destruct (vec2_of_list _ _ Ha ltac:(lia)) as [-> _]. destruct (vec2_of_list _ _ Hb ltac:(lia)) as [-> _].
    destruct (unknown l) eqn:Ul; [by exists (x_val_ st)|]. destruct (unknown r) eqn:Ur; [by exists (x_val_ st)|]. cbn [orb].
    destruct (wide_operands sf Ul Ur) as (-> & a & b & -> & HA & Eb & HB).
    destruct (Z.eqb_spec (bv_Z r) 0) as [E0|E0]; [by exists (x_val_ st)|]. cbn [mbind option_bind]. rewrite Eb. cbn [mbind option_bind].
    assert (N0 : bv_num sf r <> 0) by (by rewrite num_zero).
    destruct (div_mod_spec n _ _ a b Hn HA HB ltac:(lia)) as (q & m & Ed & HQ & _). unfold vec2_div. rewrite Ed. cbn [fmap option_fmap option_map fst mbind option_bind].
    rewrite wide_quotient in HQ by done.
    destruct (put_sign_is (xorb (bv_num sf l <? 0) (bv_num sf r <? 0)) n _ q HQ) as (w & v & -> & Sw & Ev & Hv). cbn [mbind option_bind].
    exists v. split; [done|]. by rewrite quot_sign in Hv by done.
  - destruct operand_words as [-> ->]. destruct (unknown l) eqn:Ul; cbn [negb]; [by exists (x_val_ st)|].
    destruct (unknown r) eqn:Ur; cbn [negb]; [by exists (x_val_ st)|]. cbn [orb].
    rewrite !short_operand, (take_sign_is sf _ l), (take_sign_is sf _ r) by (done || lia).
    destruct (Z.eqb_spec (bv_Z r) 0) as [E0|E0].
    { rewrite (proj2 (num_zero sf) E0). apply all_x_is. }
    assert (N0 : bv_num sf r <> 0) by (by rewrite num_zero). rewrite (proj2 (Z.eqb_neq _ _)) by lia. rewrite <- quot_sign by done.
    destruct (xorb _ _).
    + destruct (word_bits_is n (wsub 0 (Z.abs (bv_num sf l) / Z.abs (bv_num sf r)))) as (v & E & Hv). exists v. split; [done|].
      unfold wsub in Hv. by rewrite of_Z_wrap, Z.sub_0_l in Hv.
    + apply word_bits_is.
Qed.

Lemma mod_sends (sf : bool) : sends (vvp_arith_mod sf) st (bv_mod sf l r).
Proof using Hst Hl Hr Hn.
  destruct Hst as [Hw Ha Hb Hx]. unfold vvp_arith_mod, sends, bv_mod, bv_divide. rewrite Hw, Hl.
  destruct (Nat.ltb_spec W n) as [HW|HW].
  - unfold mod_wide. destruct (vec2_of_list _ _ Ha ltac:(lia)) as [-> _]. destruct (vec2_of_list _ _ Hb ltac:(lia)) as [-> _].
    destruct (unknown l) eqn:Ul; [by exists (x_val_ st)|]. destruct (unknown r) eqn:Ur; [by exists (x_val_ st)|]. cbn [orb].
    destruct (wide_operands sf Ul Ur) as (-> & a & b & -> & HA & Eb & HB).
    destruct (Z.eqb_spec (bv_Z r) 0) as [E0|E0]; [by exists (x_val_ st)|]. cbn [mbind option_bind]. rewrite Eb. cbn [mbind option_bind].
    assert (N0 : bv_num sf r <> 0) by (by rewrite num_zero).
    destruct (div_mod_spec n _ _ a b Hn HA HB ltac:(lia)) as (q & m & Ed & _ & HM). unfold vec2_mod. rewrite Ed. cbn [fmap option_fmap option_map snd mbind option_bind].
    destruct (put_sign_is (bv_num sf l <? 0) n _ m HM) as (w & v & -> & Sw & Ev & Hv). cbn [mbind option_bind]. rewrite Sw.
    exists v. split; [done|]. by rewrite rem_sign in Hv by done.
  - destruct operand_words as [-> ->]. destruct (unknown l) eqn:Ul; cbn [negb]; [by exists (x_val_ st)|].
    destruct (unknown r) eqn:Ur; cbn [negb]; [by exists (x_val_ st)|]. cbn [orb].
    rewrite !short_operand, (take_sign_is sf _ l), (take_sign_is sf _ r) by (done || lia).
    destruct (Z.eqb_spec (bv_Z r) 0) as [E0|E0].
    { rewrite (proj2 (num_zero sf) E0). apply all_x_is. }
    assert (N0 : bv_num sf r <> 0) by (by rewrite num_zero). rewrite (proj2 (Z.eqb_neq _ _)) by lia. rewrite <- rem_sign by done.
    destruct (bv_num sf l <? 0).
    + destruct (word_bits_is n (wsub 0 (Z.abs (bv_num sf l) mod Z.abs (bv_num sf r)))) as (v & E & Hv). exists v. split; [done|].
      unfold wsub in Hv. by rewrite of_Z_wrap, Z.sub_0_l in Hv.
    + apply word_bits_is.
Qed.

(** ** Power *)

Lemma pow_sends (bs sf : bool) : pow_fits bs sf n = true -> sends (vvp_arith_pow sf) st (bv_pow bs sf l r).
Proof using Hst Hl Hr Hn.
  intros Hfit. destruct Hst as [Hw Ha Hb Hx]. unfold vvp_arith_pow, sends, bv_pow. rewrite Hw, Hl.
  destruct (vec2_of_list _ _ Ha ltac:(lia)) as [-> HL]. destruct (vec2_of_list _ _ Hb ltac:(lia)) as [-> HR].
  destruct (unknown l || unknown r) eqn:Hu; [by exists (x_val_ st)|]. apply orb_false_iff in Hu as [Ul Ur].
  specialize (HL Ul). specialize (HR Ur). rewrite (negative_exponent _ _ HR) by lia.
  replace (sf && (bv_S r <? 0)) with (negb (0 <=? bv_num sf r)).
  2:{ destruct sf; cbn [bv_num andb]; [by rewrite Z.leb_antisym, negb_involutive|]. apply negb_false_iff, Z.leb_le. apply bv_Z_range. }
  destruct (Z.leb_spec 0 (bv_num sf r)) as [H0|H0]; cbn [negb].
  - destruct (vec2_pow_spec _ _ (h2_wf _ _ _ HL) ltac:(rewrite (h2_wid _ _ _ HL); lia) (h2_wf _ _ _ HR) (h2_clean _ _ _ HR))
      as (res & -> & Wr & Sr & Vr). cbn [mbind option_bind].
    rewrite (h2_num _ _ _ HL), (h2_num _ _ _ HR), (h2_wid _ _ _ HL), Hl in *.
    assert (EK : of_Z n (bv_num bs l ^ bv_num sf r) = of_Z n (bv_Z l ^ bv_num sf r)).
    { rewrite <- Hl. apply pow_known. lia. }
    assert (Epos : bv_num sf r = bv_Z r).
    { destruct sf; [|done]. cbn [bv_num] in *. rewrite bv_S_alt in * by lia. pose proof (bv_Z_range r). case_cmp; lia. }
    rewrite EK, Epos. apply vector2_to_vector4_mod; [done|done|]. apply mod_words_mod. rewrite Vr. apply Z.mod_mod.
    pose proof (pow64_pos (words_for n)). lia.
  - destruct sf; [|cbn [bv_num] in H0; pose proof (bv_Z_range r); lia]. cbn [bv_num] in *.
    unfold pow_fits in Hfit. cbn [negb orb] in Hfit. apply andb_true_iff in Hfit as [-> H32%Nat.leb_le]. cbn [bv_num].
    rewrite (vector2_to_value_is _ _ _ HL), <- bv_S_alt by lia.
    pose proof (small_base l 0 ltac:(lia) ltac:(lia)) as E0. pose proof (small_base l 1 ltac:(lia) ltac:(lia)) as E1.
    pose proof (small_base l (-1) ltac:(lia) ltac:(lia)) as E2.
    change (0 mod 2 ^ 32) with 0 in E0. change (1 mod 2 ^ 32) with 1 in E1. change (-1 mod 2 ^ 32) with (2 ^ 32 - 1) in E2.
    rewrite E0, E1, E2. rewrite (holds2_value _ _ _ _ HR), odd_exponent by lia.
    destruct (bv_S l =? 0); [by exists (x_val_ st)|].
    eexists. split; [done|]. destruct (Z.odd (bv_S r)); apply vec4_of_unit_is; unfold W; lia.
Qed.
End Arithmetic.

(** * Comparison bit by bit *)

(** The comparisons of [casex] and [casez] items: unknown bits, or only Z bits, of the right
    operand match everything; an unknown bit of the left one matches nothing else. *)
Definition bv_eqx (l r : list vvp_bit4_t) : vvp_bit4_t :=
  bit_of_bool (negb (any2 (fun a b => negb (bit4_is_xz b) && negb (bit4_eqb a b)) l r)).
Definition bv_eqz (l r : list vvp_bit4_t) : vvp_bit4_t :=
  bit_of_bool (negb (any2 (fun a b => negb (bit4_eqb b BIT4_Z) && negb (bit4_eqb a b)) l r)).

Definition is_differ (v : verdict) : bool := match v with Differ => true | _ => false end.
Definition is_mark (v : verdict) : bool := match v with MarkX => true | _ => false end.

(** A differing bit wins over the marks, wherever it is. *)
Lemma cmp_bits_spec f differ a b l r : vec_is a l -> vec_is b r -> length l = length r ->
  forall cnt idx res, (idx + cnt = length l)%nat ->
  cmp_bits f differ cnt idx a b res =
    let ls := drop idx l in let rs := drop idx r in
    if any2 (fun x y => is_differ (f x y)) ls rs then differ
    else if any2 (fun x y => is_mark (f x y)) ls rs then BIT4_X else res.
Proof.
  intros Ha Hb Hlen. cbv zeta. induction cnt as [|c IH]; intros idx res Hc; cbn [cmp_bits].
  - by rewrite !drop_ge by lia.
  - rewrite (vec_is_value _ _ _ Ha), (vec_is_value _ _ _ Hb), (drop_nth l), (drop_nth r) by lia. unfold any2. cbn [combine existsb].
    rewrite Nat.add_1_r, !IH by lia. unfold any2. destruct (f _ _); cbn [is_differ is_mark orb]; [done| |done].
    by repeat match goal with |- context [existsb ?p ?m] => destruct (existsb p m) end.
Qed.

Lemma any2_ext p q l r : (forall a b, p a b = q a b) -> any2 p l r = any2 q l r.
Proof. intros H. unfold any2. induction (combine l r) as [|[a b] m IH]; [done|]. cbn [existsb]. by rewrite IH, H. Qed.

Lemma any2_false l r : any2 (fun _ _ => false) l r = false.
Proof. unfold any2. induction (combine l r) as [|[a b] m IH]; [done|]. exact IH. Qed.

Lemma any2_unknown l r : length l = length r -> any2 (fun a b => bit4_is_xz a || bit4_is_xz b) l r = unknown l || unknown r.
Proof.
  revert r. unfold any2, unknown. induction l as [|a l IH]; intros [|b r] Hlen; try done. cbn [combine existsb].
  rewrite IH by (by injection Hlen). destruct (bit4_is_xz a), (bit4_is_xz b), (existsb _ l), (existsb _ r); done.
Qed.

Lemma any2_neq l r : length l = length r -> any2 (fun a b => negb (bit4_eqb a b)) l r = negb (bool_decide (l = r)).
Proof.
  revert r. unfold any2. induction l as [|a l IH]; intros [|b r] Hlen; try done. cbn [combine existsb].
  rewrite IH by (by injection Hlen). destruct (bit4_eqb a b) eqn:E; cbn [negb orb].
  - apply bit4_eqb_eq in E as ->. f_equal. destruct (decide (l = r)) as [->|Hne].
    + by rewrite !bool_decide_eq_true_2.
    + by rewrite !bool_decide_eq_false_2 by congruence.
  - rewrite bool_decide_eq_false_2; [done|]. intros [= -> ->]. by destruct b.
Qed.

Lemma one_bit_is b : exists v, VvpFunctor.one_bit b = Some v /\ vec_is v [b].
Proof.
  destruct (vec4_fill_spec 1 BIT4_X) as (Wf & Sf & _).
  destruct (set_bit_spec (vec4_fill 1 BIT4_X) 0 b Wf ltac:(lia)) as (v & E & Wv & Sv & Vv). exists v. split; [done|].
  apply vec_is_from; [done|by rewrite Sv|]. intros [|i] Hi; [|cbn in Hi; lia]. by rewrite Vv.
Qed.

Section Comparisons.
Context (st : vvp_arith_) (n : nat) (l r : list vvp_bit4_t).
Context (Hst : operands st n l r) (Hl : length l = n) (Hr : length r = n) (Hn : (0 < n)%nat).

Lemma one_bit_sends f b : f st = VvpFunctor.one_bit b -> sends f st [b].
Proof using. intros E. unfold sends. rewrite E. apply one_bit_is. Qed.

Lemma cmp_sends f same differ b :
  (if any2 (fun x y => is_differ (f x y)) l r then differ else if any2 (fun x y => is_mark (f x y)) l r then BIT4_X else same) = b ->
  sends (cmp_output f same differ) st [b].
Proof using Hst Hl Hr Hn.
  intros <-. destruct Hst as [Hw Ha Hb Hx]. apply one_bit_sends. unfold cmp_output.
  rewrite (vec_is_size _ _ Ha), (vec_is_size _ _ Hb), Hl, Hr, Nat.eqb_refl.
  rewrite (cmp_bits_spec f differ _ _ l r Ha Hb) by lia. done.
Qed.

Lemma eeq_sends : sends vvp_cmp_eeq st [bv_eeq l r] /\ sends vvp_cmp_nee st [bit4_not (bv_eeq l r)].
Proof using Hst Hl Hr Hn.
  assert (ED : any2 (fun x y => is_differ (eeq_bit x y)) l r = negb (bool_decide (l = r))).
  { rewrite <- any2_neq by lia. apply any2_ext. by intros [] []. }
  assert (EM : any2 (fun x y => is_mark (eeq_bit x y)) l r = false).
  { rewrite <- (any2_false l r). apply any2_ext. by intros [] []. }
  unfold bv_eeq. split; apply cmp_sends; rewrite ED, EM; by destruct (bool_decide _).
Qed.

Lemma eq_sends : sends vvp_cmp_eq st [bv_eq l r] /\ sends vvp_cmp_ne st [bit4_not (bv_eq l r)].
Proof using Hst Hl Hr Hn.
  assert (ED : any2 (fun x y => is_differ (eq_bit x y)) l r = any2 bits_differ l r) by (apply any2_ext; by intros [] []).
  assert (EM : any2 (fun x y => is_mark (eq_bit x y)) l r = unknown l || unknown r).
  { rewrite <- any2_unknown by lia. apply any2_ext. by intros [] []. }
  unfold bv_eq. fold (any2 bits_differ l r). split; apply cmp_sends; rewrite ED, EM; by destruct (any2 bits_differ l r), (unknown l || unknown r).
Qed.

Lemma weq_sends : sends vvp_cmp_weq st [bv_weq l r] /\ sends vvp_cmp_wne st [bit4_not (bv_weq l r)].
Proof using Hst Hl Hr Hn.
  set (p := fun a b => bit4_is_xz a && negb (bit4_is_xz b)).
  assert (ED : any2 (fun x y => is_differ (weq_bit x y)) l r = any2 bits_differ l r) by (apply any2_ext; by intros [] []).
  assert (EM : any2 (fun x y => is_mark (weq_bit x y)) l r = any2 p l r) by (apply any2_ext; by intros [] []).
  unfold bv_weq. fold (any2 bits_differ l r). change (existsb _ (combine l r)) with (any2 p l r).
  split; apply cmp_sends; rewrite ED, EM; by destruct (any2 bits_differ _ _), (any2 p _ _).
Qed.

Lemma casex_sends : sends vvp_cmp_eqx st [bv_eqx l r] /\ sends vvp_cmp_eqz st [bv_eqz l r].
Proof using Hst Hl Hr Hn.
  assert (HM : forall f, (forall a b, is_mark (f a b) = false) -> any2 (fun x y => is_mark (f x y)) l r = false).
  { intros f H. rewrite <- (any2_false l r). by apply any2_ext. }
  unfold bv_eqx, bv_eqz. split; apply cmp_sends; rewrite HM by (by intros [] []);
    match goal with |- context [negb (any2 ?q l r)] => rewrite (any2_ext _ q) by (by intros [] []); by destruct (any2 q l r) end.
Qed.

(** ** Ordering *)

Lemma gtge_sends (sf : bool) e f : f st = cmp_gtge sf e st ->
  sends f st [if unknown l || unknown r then BIT4_X else gtge_result (bv_num sf l) (bv_num sf r) e].
Proof using Hst Hl Hr Hn.
  intros Ef. destruct Hst as [Hw Ha Hb Hx]. pose proof (vec_is_size _ _ Ha) as Sa. pose proof (vec_is_size _ _ Hb) as Sb.
  unfold sends. rewrite Ef. unfold cmp_gtge.
  assert (EC : (if sf then compare_gtge_signed (op_a_ st) (op_b_ st) e else Some (compare_gtge (op_a_ st) (op_b_ st) e))
    = Some (if unknown l || unknown r then BIT4_X else gtge_result (bv_num sf l) (bv_num sf r) e)).
  { destruct (unknown l || unknown r) eqn:Hu.
    - assert (HK : ~ (known (op_a_ st) /\ known (op_b_ st))).
      { rewrite (unknown_known _ _ Ha), (unknown_known _ _ Hb). intros [E1 E2]. by rewrite E1, E2 in Hu. }
      destruct sf; [rewrite compare_gtge_signed_unknown|rewrite compare_gtge_unknown]; (done || apply Ha || apply Hb || lia || idtac).
    - apply orb_false_iff in Hu as [Ul Ur]. assert (Ka : known (op_a_ st)) by (by apply (unknown_known _ l)).
      assert (Kb : known (op_b_ st)) by (by apply (unknown_known _ r)). destruct sf; cbn [bv_num].
      + rewrite compare_gtge_signed_known by (done || apply Ha || apply Hb || lia).
        by rewrite (bv_S_vec _ l Ha), (bv_S_vec _ r Hb) by (done || lia).
      + rewrite compare_gtge_known by (done || apply Ha || apply Hb || lia).
        by rewrite (bv_Z_vec _ l Ha), (bv_Z_vec _ r Hb). }
  rewrite EC. cbn [mbind option_bind]. apply one_bit_is.
Qed.

Lemma ge_sends (sf : bool) : sends (vvp_cmp_ge sf) st [bv_le sf r l].
Proof using Hst Hl Hr Hn.
  replace (bv_le sf r l) with (if unknown l || unknown r then BIT4_X else gtge_result (bv_num sf l) (bv_num sf r) BIT4_1); [by apply gtge_sends|].
  unfold bv_le, gtge_result. rewrite (orb_comm (unknown r)). destruct (_ || _); [done|]. unfold bit_of_bool. repeat case_cmp; (done || lia).
Qed.

Lemma gt_sends (sf : bool) : sends (vvp_cmp_gt sf) st [bv_lt sf r l].
Proof using Hst Hl Hr Hn.
  replace (bv_lt sf r l) with (if unknown l || unknown r then BIT4_X else gtge_result (bv_num sf l) (bv_num sf r) BIT4_0); [by apply gtge_sends|].
  unfold bv_lt, gtge_result. rewrite (orb_comm (unknown r)). destruct (_ || _); [done|]. unfold bit_of_bool. repeat case_cmp; (done || lia).
Qed.
End Comparisons.

(** * Shifts *)

Lemma set_bits_window cnt p f : forall v, wf4 v -> (p + cnt <= VvpVector4.size v)%nat ->
  exists r, set_bits cnt p f v = Some r /\ wf4 r /\ VvpVector4.size r = VvpVector4.size v /\
    forall i, value r i = if (p <=? i)%nat && (i <? p + cnt)%nat then f (i - p)%nat else value v i.
Proof.
  unfold set_bits. induction cnt as [|c IH]; intros v Hv Hs; cbn [for_upto].
  - exists v. split_and!; try done. intros i. rewrite Nat.add_0_r. destruct (Nat.leb_spec p i); [|done].
    by rewrite (proj2 (Nat.ltb_ge _ _)) by lia.
  - destruct (IH v Hv ltac:(lia)) as (t & -> & Wt & St & Vt). cbn [mbind option_bind].
    destruct (set_bit_spec t (p + c) (f c) Wt ltac:(lia)) as (r & E & Wr & Sr & Vr).
    exists r. split_and!; [done|done|congruence|]. intros i. rewrite Vr, Vt. destruct (Nat.eqb_spec i (p + c)) as [->|Hne].
    + rewrite (proj2 (Nat.leb_le _ _)), (proj2 (Nat.ltb_lt _ _)) by lia. cbn [andb]. f_equal. lia.
    + destruct (Nat.leb_spec p i); [|done]. cbn [andb]. by repeat case_cmp; try lia.
Qed.

(** Two windows that meet at [k], the place of the second taken from the vector. *)
Lemma two_windows n k p f g : (k <= n)%nat -> (forall out, VvpVector4.size out = n -> p out = k) ->
  exists v, (out ← set_bits k 0 f (vec4_fill n BIT4_X); set_bits (n - k) (p out) g out) = Some v /\
    bitwise n (fun i => if (i <? k)%nat then f i else g (i - k)%nat) v.
Proof.
  intros Hk Hp. destruct (vec4_fill_spec n BIT4_X) as (Wf & Sf & _).
  destruct (set_bits_window k 0 f _ Wf ltac:(lia)) as (o & -> & Wo & So & Vo). cbn [mbind option_bind]. rewrite (Hp o) by lia.
  destruct (set_bits_window (n - k) k g o Wo ltac:(lia)) as (v & -> & Wv & Sv & Vv).
  exists v. split; [done|]. split_and!; [done|lia|]. intros i Hi. rewrite Vv, Vo, Nat.sub_0_r. cbn [Nat.leb Nat.add andb].
  destruct (Nat.leb_spec k i); cbn [andb]; repeat case_cmp; (done || lia).
Qed.

Section Shifts.
Context (st : vvp_arith_) (n : nat) (l r : list vvp_bit4_t) (Hst : operands st n l r) (Hl : length l = n) (H32 : Z.of_nat n < 2 ^ 32).

Lemma shift_distance_is :
  shift_distance (op_b_ st) n = if unknown r then None else Some (Z.to_nat (Z.min (bv_Z r) (Z.of_nat n))).
Proof using Hst Hl H32.
  pose proof (vector4_to_ulong_is _ _ (op_b _ _ _ _ Hst)) as HB. unfold shift_distance. pose proof (bv_Z_range r) as HR.
  destruct (unknown r); [by destruct HB as (ov & ->)|]. rewrite HB. f_equal.
  destruct (Z.leb_spec wordsize (bv_Z r)) as [Hov|Hov]; cbn [orb].
  - unfold wordsize in *. lia.
  - rewrite Z.mod_small by lia. destruct (Z.ltb_spec (Z.of_nat n) (bv_Z r)); lia.
Qed.

Lemma shiftl_sends : sends vvp_shiftl st (bv_shift bv_shl l r).
Proof using Hst Hl H32.
  destruct Hst as [Hw Ha Hb Hx]. unfold sends, vvp_shiftl, bv_shift. rewrite (vec_is_size _ _ Ha), Hl.
  rewrite (proj1 (proj2 (vec4_fill_spec n BIT4_X))), shift_distance_is. destruct (unknown r); [by exists (x_val_ st)|].
  set (k := Z.to_nat _). assert (Hk : (k <= n)%nat) by lia.
  destruct (two_windows n k (fun _ => k) (fun _ => BIT4_0) (value (op_a_ st)) Hk (fun _ _ => eq_refl)) as (v & E & Hv). exists v. split; [done|].
  apply vec_is_bitwise in Hv. unfold bv_shl. rewrite Hl.
  rewrite (map_seq_ext _ (fun i => if (i <? k)%nat then BIT4_0 else value (op_a_ st) (i - k))); [done|].
  intros i Hi. case_cmp; [done|]. by rewrite (vec_is_value _ _ _ Ha).
Qed.

Lemma shiftr_sends (sf : bool) : (0 < n)%nat ->
  sends (vvp_shiftr sf) st (bv_shift (bv_shr (if sf then msb l else BIT4_0)) l r).
Proof using Hst Hl H32.
  intros Hn. destruct Hst as [Hw Ha Hb Hx]. unfold sends, vvp_shiftr, bv_shift. rewrite (vec_is_size _ _ Ha), Hl.
  rewrite (proj1 (proj2 (vec4_fill_spec n BIT4_X))), shift_distance_is. destruct (unknown r); [by exists (x_val_ st)|].
  set (k := Z.to_nat _). assert (Hk : (k <= n)%nat) by lia.
  set (pad := if sf && (0 <? n)%nat then value (op_a_ st) (n - 1) else BIT4_0). cbv zeta.
  destruct (two_windows n (n - k) (fun out => VvpVector4.size out - k)%nat (fun i => value (op_a_ st) (k + i)) (fun _ => pad) ltac:(lia)) as (v & E & Hv).
  { by intros out ->. }
  replace (n - (n - k))%nat with k in E by lia. exists v. split; [exact E|].
  apply vec_is_bitwise in Hv. unfold bv_shr. rewrite Hl.
  rewrite (map_seq_ext _ (fun i => if (i <? n - k)%nat then value (op_a_ st) (k + i) else pad)); [done|].
  intros i Hi. rewrite (Nat.add_comm i k). rewrite (vec_is_value _ _ _ Ha). unfold pad.
  rewrite (proj2 (Nat.ltb_lt 0 n)), andb_true_r, (vec_is_value _ _ _ Ha) by done. unfold msb. rewrite Hl. by repeat case_cmp; try lia.
Qed.
End Shifts.
