(* ===== verification/FunctorProps.v ===== *)
(** The functors of continuous assignments as a whole: what each sends for its operands, the
    trace of a functor along a sequence of arrivals, and the agreement of a functor with the
    instruction of procedural code that computes the same operator. *)
From S2P Require Import Prelude MachineWord VvpBit VvpVector4 VvpSlice WordArith VvpArith VvpVector2 VvpCompare.
From S2P Require Import BitList VvpFunctor WordDiv VThread VThreadSpec VThreadParts VThreadIndex VThreadDiv.
From S2P Require Import VThreadMod ThreadProps CodeGen ExprSpec ExprFacts FunctorSpec FunctorArith.

(** * The operator of a functor *)

Definition functor_op (f : functor) (l r : list vvp_bit4_t) : list vvp_bit4_t :=
  match f with
  | Sum => bv_add l r | Sub => bv_sub l r | Mult => bv_mul l r
  | VvpFunctor.Div sf => bv_div sf l r | VvpFunctor.Mod sf => bv_mod sf l r | Pow sf => bv_pow sf sf l r
  | Eeq => [bv_eeq l r] | Nee => [bit4_not (bv_eeq l r)]
  | VvpFunctor.Eq => [bv_eq l r] | Ne => [bit4_not (bv_eq l r)]
  | Eqx => [bv_eqx l r] | Eqz => [bv_eqz l r]
  | Weq => [bv_weq l r] | Wne => [bit4_not (bv_weq l r)]
  | Ge sf => [bv_le sf r l] | VvpFunctor.Gt sf => [bv_lt sf r l]
  | Shiftl => bv_shift bv_shl l r
  | Shiftr sf => bv_shift (bv_shr (if sf then msb l else BIT4_0)) l r
  end.

(** The operands a functor is right for: of one width, but for a shift. *)
Definition functor_ok (f : functor) (l r : list vvp_bit4_t) : Prop :=
  match f with
  | Shiftl | Shiftr _ => True
  | VvpFunctor.Div sf => length r = length l /\ divide_ok sf l r
  | Pow sf => length r = length l /\ pow_fits sf sf (length l) = true
  | _ => length r = length l
  end.

Lemma output_sends f st n l r :
  operands st n l r -> length l = n -> width_fits n -> functor_ok f l r -> sends (output f) st (functor_op f l r).
Proof.
  intros Hst <- [Hn H32] Hok. destruct f; cbn [output functor_op functor_ok] in *.
  - by apply (sum_sends st (length l)).
  - by apply (sub_sends st (length l)).
  - by apply (mult_sends st (length l)).
  - destruct Hok. by apply (div_sends st (length l)).
  - by apply (mod_sends st (length l)).
  - destruct Hok. by apply (pow_sends st (length l)).
  - by apply (eeq_sends st (length l)).
  - by apply (eeq_sends st (length l)).
  - by apply (eq_sends st (length l)).
  - by apply (eq_sends st (length l)).
  - by apply (casex_sends st (length l)).
  - by apply (casex_sends st (length l)).
  - by apply (weq_sends st (length l)).
  - by apply (weq_sends st (length l)).
  - by apply (ge_sends st (length l)).
  - by apply (gt_sends st (length l)).
  - by apply (shiftl_sends st (length l)).
  - by apply (shiftr_sends st (length l)).
Qed.

(** * Arrivals *)

(** What arrives at a port: a whole vector, or a part at a base of a vector whose other bits
    are not driven. *)
Inductive arrival :=
| Whole (port : nat) (bit : vvp_vector4_t)
| Part (port : nat) (bit : vvp_vector4_t) (base wid vwid : nat).

Definition receive (f : functor) (a : arrival) (st : vvp_arith_) : option (vvp_arith_ * vvp_vector4_t) :=
  match a with
  | Whole port bit => recv_vec4 f port bit st
  | Part port bit base wid vwid => recv_vec4_pv f port bit base wid vwid st
  end.

Fixpoint receive_all (f : functor) (xs : list arrival) (st : vvp_arith_) : option (vvp_arith_ * list vvp_vector4_t) :=
  match xs with
  | [] => Some (st, [])
  | a :: xs =>
      '(st, out) ← receive f a st;
      '(st, outs) ← receive_all f xs st;
      Some (st, out :: outs)
  end.

(** The port of an arrival and the bits of the operand it leaves there. *)
Definition arrives (n : nat) (a : arrival) (port : nat) (x : list vvp_bit4_t) : Prop :=
  match a with
  | Whole p bit => p = port /\ vec_is bit x
  | Part p bit base wid vwid =>
      p = port /\ vwid = n /\ (0 < wid)%nat /\ (base + wid <= n)%nat /\
      exists m, vec_is bit m /\ length m = wid /\ x = overwrite base m (replicate n BIT4_Z)
  end.

(** The operands after an arrival. *)
Definition step_operands (port : nat) (x : list vvp_bit4_t) (s : list vvp_bit4_t * list vvp_bit4_t) : list vvp_bit4_t * list vvp_bit4_t :=
  if (port =? 0)%nat then (x, snd s) else (fst s, x).

(** A sequence of arrivals from the operands [s], and the operators' results along it. *)
Inductive history (f : functor) (n : nat) : list vvp_bit4_t * list vvp_bit4_t -> list arrival -> list (list vvp_bit4_t) -> Prop :=
| hist_nil s : history f n s [] []
| hist_cons s a port x xs outs :
    arrives n a port x -> (port < 2)%nat ->
    let s' := step_operands port x s in
    length (fst s') = n -> functor_ok f (fst s') (snd s') ->
    history f n s' xs outs -> history f n s (a :: xs) (functor_op f (fst s') (snd s') :: outs).

Lemma hist_step f n s a port x xs out outs :
  arrives n a port x -> (port < 2)%nat -> length (fst (step_operands port x s)) = n ->
  functor_ok f (fst (step_operands port x s)) (snd (step_operands port x s)) ->
  functor_op f (fst (step_operands port x s)) (snd (step_operands port x s)) = out ->
  history f n (step_operands port x s) xs outs -> history f n s (a :: xs) (out :: outs).
Proof. intros Ha Hp Hl Hok <- Hh. by apply (hist_cons f n s a port x). Qed.

Lemma dispatch_is st n l r port bit x :
  operands st n l r -> vec_is bit x -> (port < 2)%nat ->
  exists st', dispatch_operand_ port bit st = Some st' /\
    operands st' n (fst (step_operands port x (l, r))) (snd (step_operands port x (l, r))).
Proof.
  intros [Hw Ha Hb Hx] Hbit Hp. destruct port as [|[|port]]; [| |lia]; (eexists; split; [done|split; done]).
Qed.

Lemma recv_vec4_is f st n l r port bit x :
  operands st n l r -> vec_is bit x -> (port < 2)%nat -> width_fits n ->
  let s := step_operands port x (l, r) in
  length (fst s) = n -> functor_ok f (fst s) (snd s) ->
  exists st' v, recv_vec4 f port bit st = Some (st', v) /\ operands st' n (fst s) (snd s) /\ vec_is v (functor_op f (fst s) (snd s)).
Proof.
  intros Hst Hbit Hp Hn s Hl Hok. destruct (dispatch_is _ _ _ _ _ _ _ Hst Hbit Hp) as (st' & Ed & Hst').
  destruct (output_sends f st' n _ _ Hst' Hl Hn Hok) as (v & Ev & Hv). exists st', v.
  unfold recv_vec4. rewrite Ed. cbn [mbind option_bind]. by rewrite Ev.
Qed.

Lemma receive_is f st n l r a port x :
  operands st n l r -> arrives n a port x -> (port < 2)%nat -> width_fits n ->
  let s := step_operands port x (l, r) in
  length (fst s) = n -> functor_ok f (fst s) (snd s) ->
  exists st' v, receive f a st = Some (st', v) /\ operands st' n (fst s) (snd s) /\ vec_is v (functor_op f (fst s) (snd s)).
Proof.
  intros Hst Ha Hp Hn s Hl Hok. destruct a as [p bit|p bit base wid vwid]; cbn [arrives receive] in *.
  - destruct Ha as [-> Hbit]. by apply recv_vec4_is.
  - destruct Ha as (-> & -> & Hw & Hb & m & Hm & Lm & ->). unfold recv_vec4_pv.
    rewrite (vec_is_size _ _ Hm), Lm, Nat.eqb_refl, (proj2 (Nat.leb_le _ _)) by lia. cbn [andb].
    destruct (set_vec_is (vec4_fill n BIT4_Z) base bit _ m (vec_is_fill n BIT4_Z) Hm) as (t & d & -> & Ht);
      [lia|rewrite length_replicate; lia|]. cbn [mbind option_bind]. by apply recv_vec4_is.
Qed.

Lemma arith_new_is n : exists st, arith_new n = Some st /\ operands st n (replicate n BIT4_Z) (replicate n BIT4_Z).
Proof.
  unfold arith_new. destruct (vec4_fill_spec n BIT4_X) as (Wf & Sf & _).
  destruct (set_bits_all (vec4_fill n BIT4_X) n (fun _ => BIT4_Z) Wf Sf) as (z & Ez & Hz). rewrite Ez. cbn [mbind option_bind].
  destruct (all_x_is n) as (x & Ex & Hx). rewrite Ex. cbn [mbind option_bind].
  assert (Hz' : vec_is z (replicate n BIT4_Z)).
  { apply (bitwise_is _ _ _ _ Hz); [apply length_replicate|]. intros i Hi. by rewrite nth_replicate. }
  eexists. split; [done|]. by split.
Qed.

Lemma receive_all_is f n xs : width_fits n -> forall st s outs,
  operands st n (fst s) (snd s) -> history f n s xs outs ->
  exists st' vs, receive_all f xs st = Some (st', vs) /\ Forall2 vec_is vs outs.
Proof.
  intros Hn. induction xs as [|a xs IH]; intros st [l r] outs Hst Hh;
    inversion_clear Hh as [|? ? port x ? outs' Ha Hp s' Hls Hok Hh']; cbn [receive_all].
  { by exists st, []. }
  destruct (receive_is f st n l r a port x Hst) as (st' & v & -> & Hst' & Hv); [done..|]. cbn [mbind option_bind].
  destruct (IH st' _ _ Hst' Hh') as (st2 & vs & -> & HF). exists st2, (v :: vs). split; [done|]. by constructor.
Qed.

(** * Instructions *)

(** The instruction that computes the operator of a functor. *)
Definition instruction_of (f : functor) : option instr :=
  match f with
  | Sum => Some ADD | Sub => Some SUB | Mult => Some MUL
  | VvpFunctor.Div sf => Some (if sf then DIV_S else DIV)
  | VvpFunctor.Mod sf => Some (if sf then MOD_S else MOD)
  | Pow sf => Some (if sf then POW_S else POW)
  | _ => None
  end.

Definition instruction_ok (f : functor) (n : nat) : Prop :=
  match f with VvpFunctor.Div sf => (n <= max_div sf)%nat | _ => True end.

Lemma instruction_replaces f i d thr vl vr st l r :
  instruction_of f = Some i -> stack_vec4_ thr = vr :: vl :: st -> vec_is vl l -> vec_is vr r ->
  length r = length l -> (0 < length l)%nat -> functor_ok f l r -> instruction_ok f (length l) ->
  replaces d i thr st (functor_op f l r).
Proof.
  intros Hi Es Hl Hr Hlen H0 Hok Hin. symmetry in Hlen.
  destruct f as [| | |sf|sf|sf| | | | | | | | | | | |]; try done; injection Hi as <-; cbn [functor_op functor_ok instruction_ok] in *.
  - eapply binary_replaces; [done..|]. by apply add_implements.
  - eapply binary_replaces; [done..|]. by apply sub_implements.
  - eapply binary_replaces; [done..|]. by apply mul_implements.
  - destruct sf; (eapply binary_replaces; [done..|]); [apply div_s_implements|apply div_implements]; cbn [max_div] in *; (done || lia).
  - destruct sf; (eapply binary_replaces; [done..|]); [by apply (mod_implements true)|by apply (mod_implements false)].
  - destruct sf; (eapply binary_replaces; [done..|]); [apply (pow_implements true true)|apply (pow_implements false false)];
      (done || lia || apply Hok).
Qed.

(** * Absolute value and cast *)

Definition functor_abs (l : list vvp_bit4_t) : list vvp_bit4_t :=
  if unknown l then replicate (length l) BIT4_X else of_Z (length l) (Z.abs (bv_S l)).

Lemma abs_sends v l : vec_is v l -> (0 < length l)%nat -> exists r, vvp_arith_abs v = Some r /\ vec_is r (functor_abs l).
Proof.
  intros Hv Hp. pose proof (vec_is_size _ _ Hv) as Sv. pose proof (vec_is_wf _ _ Hv) as Wv. unfold vvp_arith_abs, functor_abs. rewrite Sv.
  destruct (vec4_fill_spec (length l) BIT4_0) as (Wz & Sz & Vz). pose proof (vec_is_fill (length l) BIT4_0) as Hz.
  assert (Kz : known (vec4_fill (length l) BIT4_0)) by (intros i Hi; rewrite Vz by lia; done).
  assert (Z0 : vec_S (vec4_fill (length l) BIT4_0) = 0).
  { rewrite <- (bv_S_vec _ _ Hz Kz) by lia. assert (E0 : replicate (length l) BIT4_0 = of_Z (length l) 0).
    { apply (nth_ext _ _ BIT4_X BIT4_X); rewrite length_replicate; [by rewrite length_of_Z|]. intros i Hi.
      by rewrite nth_replicate, nth_of_Z, Z.testbit_0_l by done. }
    rewrite E0. by apply bv_S_zero. }
  destruct (unknown l) eqn:Hu.
  - rewrite compare_gtge_signed_unknown; try done; try lia. { eexists. split; [done|]. apply vec_is_fill. }
    intros [Hk _]. apply (unknown_known v l Hv) in Hk. congruence.
  - assert (Hk : known v) by (by apply (unknown_known v l)).
    rewrite compare_gtge_signed_known by (done || lia). cbn [mbind option_bind]. rewrite Z0, <- (bv_S_vec v l Hv Hk) by lia.
    unfold gtge_result. destruct (Z.ltb_spec 0 (bv_S l)); [|destruct (Z.ltb_spec (bv_S l) 0)].
    + exists v. split; [done|]. rewrite Z.abs_eq, of_Z_bv_S by (done || lia). done.
    + destruct (add_int_result (vec4_not v) 1) as (r & E & Wr & Sr & Kr & _).
      { apply (vec4_not_spec v Wv). } { rewrite (proj1 (proj2 (vec4_not_spec v Wv))). lia. }
      exists r. split; [done|]. pose proof (map_is bit4_not v l _ Hv (vec4_not_spec v Wv)) as Hn.
      assert (Kn : known (vec4_not v)) by (apply (unknown_known _ _ Hn); by rewrite unknown_not).
      destruct (Kr Kn) as [K1 V1]. rewrite (vec_is_size _ _ Hn), length_map in *.
      rewrite <- (bv_Z_vec _ _ Hn Kn), bv_Z_not in V1 by done. apply vec_is_of_Z; [done|done|done|].
      rewrite V1, Z.abs_neq, bv_S_alt by lia. case_cmp.
      * rewrite Z.sub_0_r. replace (2 ^ Z.of_nat (length l) - 1 - bv_Z l + 1) with (- bv_Z l + 1 * 2 ^ Z.of_nat (length l)) by lia.
        apply Z.mod_add. apply Z.pow_nonzero; lia.
      * f_equal. lia.
    + exists v. split; [done|]. rewrite Z.abs_eq, of_Z_bv_S by (done || lia). done.
Qed.

Lemma cast_sends v l wid : vec_is v l -> exists r, vvp_arith_cast_vec2 wid v = Some r /\ vec_is r (of_Z wid (bv_Z l)).
Proof.
  intros Hv. unfold vvp_arith_cast_vec2, vec2_of_vec4. cbn [andb].
  pose proof (copy_from_vec4_spec v (vec_is_wf _ _ Hv)) as HC.
  destruct (vector2_to_vector4_spec _ _ _ wid HC) as (r & E & Wr & Sr & Kr & Vr). exists r. split; [done|].
  apply vec_is_of_Z; [done..|]. rewrite Vr, (vec_is_size _ _ Hv), bv_Z_bit_sum. f_equal. apply bit_sum_ext.
  intros i _. by apply vec_is_value.
Qed.

(** * The theorems *)

(** C38: a functor of width [n], from its construction, along any sequence of whole or partial
    vectors arriving at its two ports: after each arrival it sends the operator of its class on
    the operands that the last arrivals left, Z before the first one and around a part.  The
    paths for operands of a machine word and for wider ones give the same operator.  The
    operands have the width of the functor except for the right one of a shift; unsigned
    division wider than a word is right but for a divisor 1 under a dividend above half of
    the range; a signed power, up to 32 bits. *)
Theorem functor_trace f n xs outs :
  width_fits n -> history f n (replicate n BIT4_Z, replicate n BIT4_Z) xs outs ->
  exists st st' vs, arith_new n = Some st /\ receive_all f xs st = Some (st', vs) /\ Forall2 vec_is vs outs.
Proof.
  intros Hn Hh. destruct (arith_new_is n) as (st & E & Hst).
  destruct (receive_all_is f n xs Hn st (replicate n BIT4_Z, replicate n BIT4_Z) outs Hst Hh) as (st' & vs & Er & HF). by exists st, st', vs.
Qed.

(** C39: a continuous assignment and procedural code compute the same: the functor of [+], [-],
    [*], [/], [%] or [**] sends the very bits that the instruction of that operator leaves on
    the stack for the same operands, at every width where both are right. *)
Theorem functor_agrees f i st d thr vl vr rest n l r :
  instruction_of f = Some i -> width_fits n -> length l = n -> length r = n ->
  operands st n l r -> stack_vec4_ thr = vr :: vl :: rest -> vec_is vl l -> vec_is vr r ->
  functor_ok f l r -> instruction_ok f n ->
  exists u v, output f st = Some u /\ exec d i thr = Some (with_stack thr (v :: rest)) /\ same_bits u v.
Proof.
  intros Hi Hn <- Hr Hst Es Hvl Hvr Hok Hin.
  destruct (output_sends f st _ l r Hst eq_refl Hn Hok) as (u & Eu & Hu).
  destruct (instruction_replaces f i d thr vl vr rest l r Hi Es Hvl Hvr Hr (proj1 Hn) Hok Hin) as (v & Ev & Hv).
  exists u, v. split_and!; [done|done|]. by eapply vec_is_same.
Qed.

(** The absolute value of a net: the magnitude, all X with an unknown bit; the cast to two
    values: the number with 0 for unknown bits. *)
Theorem unary_functors v l wid :
  vec_is v l -> (0 < length l)%nat ->
  (exists r, vvp_arith_abs v = Some r /\ vec_is r (functor_abs l)) /\
  (exists r, vvp_arith_cast_vec2 wid v = Some r /\ vec_is r (of_Z wid (bv_Z l))).
Proof. intros Hv Hp. split; [by apply abs_sends|by apply cast_sends]. Qed.

(** The domain of the wide divider is exact: (2^65 - 1) / 1 comes out as 0. *)
Theorem functor_divide_by_one :
  exists st r, arith_new 65 = Some st /\
    output (VvpFunctor.Div false) (mkArith 65 (vec4_fill 65 BIT4_1) (mkVec4 65 [1; 0] [0; 0]) (x_val_ st)) = Some r /\
    bits_of r = replicate 65 BIT4_0.
Proof. eexists _, _. split; [vm_compute; reflexivity|]. split; vm_compute; reflexivity. Qed.

(** The functor of the absolute value gives X where the code of an expression, which leaves an
    operand that is not known to be negative as it is, keeps the known bits. *)
Theorem abs_disagrees :
  (exists r, vvp_arith_abs (mkVec4 2 [1] [1]) = Some r /\ bits_of r = [BIT4_X; BIT4_X]) /\
  bv_abs true (bits_of (mkVec4 2 [1] [1])) = [BIT4_X; BIT4_0].
Proof. split; [eexists; split; vm_compute; reflexivity|by vm_compute]. Qed.

(** * Witnesses *)

Lemma functor_trace_witness :
  exists st st' vs, arith_new 8 = Some st /\
    receive_all Sum [Whole 0 (vec4_fill 8 BIT4_1); Part 1 (vec4_fill 4 BIT4_1) 2 4 8; Whole 1 (vec4_fill 8 BIT4_1)] st = Some (st', vs) /\
    Forall2 vec_is vs [replicate 8 BIT4_X; replicate 8 BIT4_X; of_Z 8 254].
Proof.
  apply (functor_trace Sum 8); [split; lia|].
  apply (hist_step Sum 8 _ (Whole 0 _) 0 (replicate 8 BIT4_1)); [split; [done|apply vec_is_fill]|lia|done|done|vm_compute; reflexivity|].
  apply (hist_step Sum 8 _ (Part 1 _ 2 4 8) 1 (overwrite 2 (replicate 4 BIT4_1) (replicate 8 BIT4_Z)));
    [split_and!; [done|done|lia|lia|exists (replicate 4 BIT4_1); split_and!; [apply vec_is_fill|done|done]]|lia|done|done|vm_compute; reflexivity|].
  apply (hist_step Sum 8 _ (Whole 1 _) 1 (replicate 8 BIT4_1)); [split; [done|apply vec_is_fill]|lia|done|done|vm_compute; reflexivity|].
  constructor.
Defined.

Lemma functor_agrees_witness :
  exists u v, output (VvpFunctor.Div true) (mkArith 8 vones8 vones8 (vec4_fill 8 BIT4_X)) = Some u /\
    exec small_design DIV_S (start_thread [vones8; vones8]) = Some (with_stack (start_thread [vones8; vones8]) [v]) /\ same_bits u v.
Proof.
  apply (functor_agrees (VvpFunctor.Div true) DIV_S _ small_design (start_thread [vones8; vones8]) vones8 vones8 [] 8 ones8 ones8);
    [done|split; lia|done|done|split; (done || apply vec_is_fill)|done|apply vec_is_fill|apply vec_is_fill| |cbn; lia].
  split; [done|by left].
Defined.
