(* ===== verification/CodeGenRun.v ===== *)
(** How generated lines run: code spaces, what is known of a thread, and the rules that derive
    what a [draw_*] computation's lines do from what its parts do. *)
From S2P Require Import Prelude MachineWord VvpBit VvpVector4 VvpSlice WordArith VvpArith VvpVector2 VvpCompare.
From S2P Require Import BitList VvpFunctor WordDiv VThread VThreadSpec VThreadParts VThreadIndex CodeGen.
From stdpp Require Export gmap relations.
#[global] Open Scope Z_scope.

(** * Code spaces *)

Fixpoint labels (ls : list line) : list nat :=
  match ls with [] => [] | Label n :: ls => n :: labels ls | Instr _ :: ls => labels ls end.

(** The label an instruction jumps to. *)
Definition target (i : instr) : list nat :=
  match i with JMP c | JMP0 c _ | JMP0XZ c _ | JMP1 c _ | JMP1XZ c _ => [c] | _ => [] end.
Definition targets (ls : list line) : list nat := concat (map target (instructions ls)).

Lemma labels_app l1 l2 : labels (l1 ++ l2) = labels l1 ++ labels l2.
Proof. induction l1 as [|[]]; cbn; by rewrite ?IHl1. Qed.
Lemma codespace_app l1 l2 : codespace_next (l1 ++ l2) = (codespace_next l1 + codespace_next l2)%nat.
Proof. induction l1 as [|[]]; cbn; by rewrite ?IHl1. Qed.
Lemma instructions_app l1 l2 : instructions (l1 ++ l2) = instructions l1 ++ instructions l2.
Proof. induction l1 as [|[]]; cbn; by rewrite ?IHl1. Qed.
Lemma targets_app l1 l2 : targets (l1 ++ l2) = targets l1 ++ targets l2.
Proof. unfold targets. by rewrite instructions_app, map_app, concat_app. Qed.
Lemma length_instructions ls : length (instructions ls) = codespace_next ls.
Proof. induction ls as [|[]]; cbn; by rewrite ?IHls. Qed.

Lemma label_value_at pre n post :
  ~ In n (labels pre) -> label_value (pre ++ Label n :: post) n = Some (codespace_next pre).
Proof.
  induction pre as [|[i|m] pre IH]; cbn; intros H.
  - by rewrite Nat.eqb_refl.
  - by rewrite IH.
  - destruct (Nat.eqb_spec m n) as [->|Hne]; [by destruct H; left|]. apply IH. intros Hn. apply H. by right.
Qed.

Lemma label_value_defined ls n : In n (labels ls) -> is_Some (label_value ls n).
Proof.
  induction ls as [|[i|m] ls IH]; cbn; [done| |].
  - intros H. destruct (IH H) as [v ->]. by eexists.
  - intros [->|H]; [by rewrite Nat.eqb_refl|]. destruct (_ =? _)%nat; [done|by apply IH].
Qed.

Lemma resolve_defined value i : (forall n, In n (target i) -> is_Some (value n)) -> is_Some (resolve value i).
Proof.
  intros H. destruct i; cbn in *; try done;
    match goal with |- context [value ?n] => destruct (H n (or_introl eq_refl)) as [v ->] end; done.
Qed.

(** A program whose jumps all have their labels assembles. *)
Lemma assemble_defined ls : incl (targets ls) (labels ls) -> is_Some (assemble ls).
Proof.
  intros H. unfold assemble. apply mapM_is_Some, Forall_forall. intros i Hi.
  apply resolve_defined. intros n Hn. apply label_value_defined, H. unfold targets.
  apply in_concat. exists (target i). split; [|done]. by apply in_map, list_elem_of_In.
Qed.

(** * What is known of a thread *)

(** The values of some flags and index registers, and the bits of the vectors of the stack. *)
Record know := Know { kf : gmap nat vvp_bit4_t; kr : gmap nat Z; ks : list (list vvp_bit4_t) }.

Record holds (K : know) (thr : vthread) : Prop := {
  h_wf : wf_thread thr;
  h_flags : forall k b, kf K !! k = Some b -> get_flag thr k = Some b;
  h_regs : forall k x, kr K !! k = Some x -> get_word thr k = Some x;
  h_stack : Forall2 vec_is (stack_vec4_ thr) (ks K) }.

Lemma holds_pc K p thr : holds K thr -> holds K (with_pc thr p).
Proof. by intros [[] ? ? ?]. Qed.

(** Less knowledge. *)
Record weaker (K K' : know) : Prop := {
  w_flags : kf K ⊆ kf K';
  w_regs : kr K ⊆ kr K';
  w_stack : ks K = ks K' }.

Lemma weaker_refl K : weaker K K.
Proof. done. Qed.
Lemma holds_weaker K K' thr : weaker K K' -> holds K' thr -> holds K thr.
Proof.
  intros [Hf Hr Hs] [Hw F R S]. split; [done| | |by rewrite Hs].
  - intros k b Hk. apply F. by eapply lookup_weaken.
  - intros k x Hk. apply R. by eapply lookup_weaken.
Qed.

Lemma holds_top f r s S thr : holds (Know f r (s :: S)) thr ->
  exists v st, stack_vec4_ thr = v :: st /\ vec_is v s /\ Forall2 vec_is st S.
Proof. intros [_ _ _ H]. cbn in H. inversion H; subst. by eauto. Qed.

Lemma holds_stack f r S S' st thr : holds (Know f r S) thr -> Forall2 vec_is st S' -> holds (Know f r S') (with_stack thr st).
Proof. by intros [[] ? ? ?] ?. Qed.

Lemma holds_put_flag f r S thr k b :
  holds (Know f r S) thr -> (k < FLAGS_COUNT)%nat -> holds (Know (<[k := b]> f) r S) (put_flag k b thr).
Proof.
  intros [Hw F R St] Hk. split; [by apply put_flag_wf| |done|done].
  intros j c. cbn [kf]. rewrite get_put_flag by done. destruct (Nat.eqb_spec j k) as [->|Hne].
  - by rewrite lookup_insert_eq.
  - rewrite lookup_insert_ne by done. apply F.
Qed.

Lemma get_put_word k j x thr : wf_thread thr -> (k < WORDS_COUNT)%nat ->
  get_word (put_word k x thr) j = if (j =? k)%nat then Some x else get_word thr j.
Proof.
  intros [_ H] Hk. unfold get_word, put_word. cbn [regs]. destruct (Nat.eqb_spec j k) as [->|Hne].
  - apply list_lookup_insert_eq. by rewrite H.
  - by apply list_lookup_insert_ne.
Qed.

Lemma holds_put_word f r S thr k x :
  holds (Know f r S) thr -> (k < WORDS_COUNT)%nat -> holds (Know f (<[k := x]> r) S) (put_word k x thr).
Proof.
  intros [Hw F R St] Hk. split; [by apply put_word_wf|done| |done].
  intros j c. cbn [kr]. rewrite get_put_word by done. destruct (Nat.eqb_spec j k) as [->|Hne].
  - by rewrite lookup_insert_eq.
  - rewrite lookup_insert_ne by done. apply R.
Qed.
#[export] Hint Resolve holds_pc holds_stack holds_put_flag holds_put_word : thread.

(** * Execution *)

Section Run.
Context (d : design) (prog : list line) (code : list instr).
Context (Hcode : assemble prog = Some code) (Hlabels : NoDup (labels prog)).

Definition run1 (thr thr' : vthread) : Prop := vthread_step d false code thr = Some (thr', true).
Definition runs : relation vthread := rtc run1.

(** [ls] is a part of the program and its first instruction goes to [pos]. *)
Definition at_ (pos : nat) (ls : list line) : Prop :=
  exists pre post, prog = pre ++ ls ++ post /\ pos = codespace_next pre.

Lemma at_app pos l1 l2 : at_ pos (l1 ++ l2) -> at_ pos l1 /\ at_ (pos + codespace_next l1) l2.
Proof.
  intros (pre & post & E & ->). split.
  - exists pre, (l2 ++ post). by rewrite E, <- app_assoc.
  - exists (pre ++ l1), post. by rewrite E, <- !app_assoc, codespace_app.
Qed.

Lemma at_label pos n : at_ pos [Label n] -> label_value prog n = Some pos.
Proof using Hlabels.
  intros (pre & post & E & ->). rewrite E. apply label_value_at. intros Hin.
  rewrite E, !labels_app in Hlabels. apply NoDup_app in Hlabels as (_ & Hd & _).
  apply (Hd n); [by apply list_elem_of_In|]. cbn. left.
Qed.

Lemma at_instr pos i : at_ pos [Instr i] -> exists i', resolve (label_value prog) i = Some i' /\ code !! pos = Some i'.
Proof using Hcode.
  intros (pre & post & E & ->). unfold assemble in Hcode. apply mapM_Some in Hcode.
  assert (Hi : instructions prog !! codespace_next pre = Some i).
  { rewrite E, !instructions_app, lookup_app_r by (by rewrite length_instructions).
    by rewrite length_instructions, Nat.sub_diag. }
  destruct (Forall2_lookup_l _ _ _ _ _ Hcode Hi) as (i' & H1 & H2). eauto.
Qed.

(** From [thr], at the start of [ls], the thread reaches the end of [ls] and [K] holds. *)
Definition reaches (ls : list line) (pos : nat) (thr : vthread) (K : know) : Prop :=
  exists thr', runs thr thr' /\ pc thr' = (pos + codespace_next ls)%nat /\ holds K thr'.

Definition triple (K : know) (ls : list line) (K' : know) : Prop :=
  forall pos thr, at_ pos ls -> pc thr = pos -> holds K thr -> reaches ls pos thr K'.

Lemma triple_nil K : triple K [] K.
Proof. intros pos thr _ Hpc H. exists thr. split_and!; [apply rtc_refl|cbn; lia|done]. Qed.

Lemma triple_label K n : triple K [Label n] K.
Proof. intros pos thr _ Hpc H. exists thr. split_and!; [apply rtc_refl|cbn; lia|done]. Qed.

Lemma triple_app K1 l1 K2 l2 K3 : triple K1 l1 K2 -> triple K2 l2 K3 -> triple K1 (l1 ++ l2) K3.
Proof.
  intros H1 H2 pos thr Hat Hpc HK. apply at_app in Hat as [A1 A2].
  destruct (H1 pos thr A1 Hpc HK) as (t1 & R1 & P1 & HK1).
  destruct (H2 _ t1 A2 P1 HK1) as (t2 & R2 & P2 & HK2).
  exists t2. split_and!; [by etrans|rewrite codespace_app; lia|done].
Qed.

Lemma triple_weaker K1 K2 ls K3 K4 : weaker K2 K1 -> weaker K4 K3 -> triple K2 ls K3 -> triple K1 ls K4.
Proof.
  intros W1 W2 H pos thr Hat Hpc HK. destruct (H pos thr Hat Hpc) as (t & R & P & HK'); [by eapply holds_weaker|].
  exists t. split_and!; [done|done|by eapply holds_weaker].
Qed.

(** An instruction that goes on to the next one. *)
Definition step_ok (i : instr) (K K' : know) : Prop :=
  target i = [] /\ forall thr, holds K thr -> exists thr', exec d i thr = Some thr' /\ pc thr' = pc thr /\ holds K' thr'.

Lemma resolve_not_jump value i : target i = [] -> resolve value i = Some i /\ is_jump i = false.
Proof. by destruct i. Qed.

Lemma triple_instr K i K' : step_ok i K K' -> triple K [Instr i] K'.
Proof using Hcode.
  intros [Ht H] pos thr Hat Hpc HK. destruct (at_instr _ _ Hat) as (i' & E & Hi).
  destruct (resolve_not_jump (label_value prog) i Ht) as [E' Hj]. rewrite E' in E. injection E as <-.
  destruct (H (with_pc thr (pc thr + 1)) (holds_pc _ _ _ HK)) as (t & Et & Pt & Kt).
  exists t. split_and!; [|cbn in *; lia|done]. apply rtc_once. unfold run1, vthread_step.
  rewrite Hpc, Hi. rewrite Hpc in Et. cbn [mbind option_bind]. rewrite Et. cbn. by rewrite Hj.
Qed.

(** A conditional jump on a known flag. *)
Lemma jump_runs pos i test c f b thr K :
  at_ pos [Instr i] -> pc thr = pos -> holds K thr -> kf K !! f = Some b ->
  (forall value, resolve value i = c' ← value c; Some (match i with
     | JMP0 _ f => JMP0 c' f | JMP0XZ _ f => JMP0XZ c' f | JMP1 _ f => JMP1 c' f | JMP1XZ _ f => JMP1XZ c' f | i => i end)) ->
  (forall c', exec d (match i with
     | JMP0 _ f => JMP0 c' f | JMP0XZ _ f => JMP0XZ c' f | JMP1 _ f => JMP1 c' f | JMP1XZ _ f => JMP1XZ c' f | i => i end)
     = jump_if test c' f) ->
  forall dest, label_value prog c = Some dest ->
  exists thr', runs thr thr' /\ pc thr' = (if test b then dest else pos + 1)%nat /\ holds K thr'.
Proof using Hcode.
  intros Hat Hpc HK Hb Hres Hexec dest Hdest. destruct (at_instr _ _ Hat) as (i' & E & Hi).
  rewrite Hres, Hdest in E. injection E as <-.
  exists (with_pc thr (if test b then dest else pos + 1)%nat). split_and!; [|done|by apply holds_pc].
  apply rtc_once. unfold run1, vthread_step. rewrite Hpc, Hi. cbn [mbind option_bind]. rewrite Hexec.
  unfold jump_if. change (get_flag (with_pc thr (pos + 1)) f) with (get_flag thr f).
  rewrite (h_flags _ _ HK _ _ Hb). cbn [mbind option_bind]. rewrite andb_false_r. by destruct (test b).
Qed.

(** * Computations that generate code *)

(** Well-formed allocation masks, and what is allocated. *)
Definition flag_used (s : cg) (k : nat) : bool := flag_bit (allocate_flag_mask s) k.
Definition word_used (s : cg) (k : nat) : bool := Z.testbit (word_alloc_mask s) (Z.of_nat k).

Record wf_cg (s : cg) : Prop := {
  wc_len : length (allocate_flag_mask s) = 16%nat;
  wc_low : forall k, (k < 8)%nat -> flag_used s k = true }.

(** The lines define each their own labels, those between the two counts, and jump to no others. *)
Record tidy (s : cg) (ls : list line) (s' : cg) : Prop := {
  td_count : (local_count s <= local_count s')%nat;
  td_range : forall n, In n (labels ls) -> (local_count s <= n < local_count s')%nat;
  td_nodup : NoDup (labels ls);
  td_closed : incl (targets ls) (labels ls) }.

Lemma tidy_refl s s' : local_count s = local_count s' -> tidy s [] s'.
Proof. intros E. split; [lia|intros n []|apply NoDup_nil_2|intros n []]. Qed.

Lemma tidy_app s1 l1 s2 l2 s3 : tidy s1 l1 s2 -> tidy s2 l2 s3 -> tidy s1 (l1 ++ l2) s3.
Proof.
  intros [C1 R1 N1 I1] [C2 R2 N2 I2]. split; [lia| | |].
  - intros n. rewrite labels_app, in_app_iff. intros [H|H]; [apply R1 in H|apply R2 in H]; lia.
  - rewrite labels_app. apply NoDup_app. split_and!; [done| |done].
    intros n H1%list_elem_of_In%R1 H2%list_elem_of_In%R2. lia.
  - rewrite targets_app, labels_app. intros n. rewrite !in_app_iff. intros [H|H]; auto.
Qed.

(** From the allocation state [s] and what is known of the thread, [m] leaves [φ] of its result
    and the state, and its lines establish [Q] of the result. *)
Definition gens {A} (s : cg) (K : know) (m : M A) (φ : A -> cg -> Prop) (Q : A -> know) : Prop :=
  forall a ls s', wf_cg s -> m s = Some (a, ls, s') -> wf_cg s' /\ φ a s' /\ tidy s ls s' /\ triple K ls (Q a).

Lemma gens_bind {A B} s K (m : M A) (k : A -> M B) φ Q φ' Q' :
  gens s K m φ Q ->
  (forall a s1, φ a s1 -> gens s1 (Q a) (k a) φ' Q') ->
  gens s K (m ≫= k) φ' Q'.
Proof.
  intros Hm Hk b ls s' Hwf E. unfold mbind, M_bind in E.
  destruct (m s) as [[[a l1] s1]|] eqn:E1; [|done].
  destruct (k a s1) as [[[b' l2] s2]|] eqn:E2; [|done]. injection E as <- <- <-.
  destruct (Hm _ _ _ Hwf E1) as (W1 & F1 & T1 & R1).
  destruct (Hk _ _ F1 _ _ _ W1 E2) as (W2 & F2 & T2 & R2).
  split_and!; [done|done|by eapply tidy_app|by eapply triple_app].
Qed.

Lemma gens_ret {A} s K (a : A) (φ : A -> cg -> Prop) Q : φ a s -> weaker (Q a) K -> gens s K (mret a) φ Q.
Proof.
  intros H Hw b ls s' Hwf E. injection E as <- <- <-. split_and!; [done|done|by apply tidy_refl|].
  eapply triple_weaker; [apply weaker_refl|exact Hw|]. apply triple_nil.
Qed.

Lemma gens_emit s K i (φ : unit -> cg -> Prop) K' : step_ok i K K' -> φ tt s -> gens s K (emit i) φ (fun _ => K').
Proof using Hcode.
  intros Hi H b ls s' Hwf E. injection E as <- <- <-. split_and!; [done|done| |apply triple_instr, Hi].
  split; [lia|intros n []|apply NoDup_nil_2|]. destruct Hi as [Ht _]. unfold targets. cbn. rewrite Ht. intros n [].
Qed.

(** Sequencing in one of the forms the code has: the state keeps what is allocated. *)
Record same_used (s s' : cg) : Prop := {
  su_flags : forall k, flag_used s' k = flag_used s k;
  su_words : forall k, word_used s' k = word_used s k }.

Lemma same_refl s : same_used s s. Proof. done. Qed.
Lemma same_trans s1 s2 s3 : same_used s1 s2 -> same_used s2 s3 -> same_used s1 s3.
Proof. intros [F1 W1] [F2 W2]. split; intros k; congruence. Qed.

(** The flags and registers of which something is known are allocated. *)
Record covered (s : cg) (K : know) : Prop := {
  cv_flags : forall k b, kf K !! k = Some b -> (8 <= k)%nat /\ flag_used s k = true;
  cv_regs : forall k x, kr K !! k = Some x -> word_used s k = true }.

Lemma covered_same s s' K : same_used s s' -> covered s K -> covered s' K.
Proof.
  intros [F R] [CF CR]. split.
  - intros k b Hk. rewrite F. by apply (CF k b).
  - intros k x Hk. rewrite R. by apply (CR k x).
Qed.
Lemma covered_stack s f r S S' : covered s (Know f r S) -> covered s (Know f r S').
Proof. intros [CF CR]. by split. Qed.

(** What a piece of code leaves of its own: values of scratch flags and index registers, and
    the stack. *)
Record loc := Loc { lf : list (nat * vvp_bit4_t); lr : list (nat * Z); lstack : list (list vvp_bit4_t) }.

Definition put_all {A} (l : list (nat * A)) (m : gmap nat A) : gmap nat A := foldr (fun p m => <[fst p := snd p]> m) m l.

Definition extend (f : gmap nat vvp_bit4_t) (r : gmap nat Z) (L : loc) : know :=
  Know (put_all (lf L) f) (put_all (lr L) r) (lstack L).

Abbreviation stack S := (Loc [] [] S).

(** [m] allocates nothing in the end, leads from [L] to [L'] and keeps all that is known of
    allocated flags and registers. *)
Definition does (L : loc) (m : M unit) (L' : loc) : Prop :=
  forall s f r, covered s (Know f r []) -> gens s (extend f r L) m (fun _ s' => same_used s s') (fun _ => extend f r L').

Lemma does_bind L L1 L2 m k : does L m L1 -> does L1 k L2 -> does L (m;; k) L2.
Proof.
  intros Hm Hk s f r Hc. eapply gens_bind; [by apply Hm|]. intros [] s1 H1 b ls s' Hwf E. cbn beta.
  destruct (Hk s1 f r (covered_same _ _ _ H1 Hc) b ls s' Hwf E) as (? & ? & ? & ?).
  split_and!; [done|by eapply same_trans|done..].
Qed.

Lemma does_ret L : does L (mret tt) L.
Proof. intros s f r Hc. by apply gens_ret. Qed.

Lemma does_stop L L' : does L stop L'.
Proof. by intros s f r Hc a ls s' _. Qed.

Lemma does_assert b L : does L (assert_true b) L.
Proof. destruct b; [apply does_ret|apply does_stop]. Qed.

Lemma does_assert_if b L k L' : (b = true -> does L k L') -> does L (assert_true b;; k) L'.
Proof. intros H. destruct b; [eapply does_bind; [apply does_ret|by apply H]|]. by intros s f r Hc a ls s' _. Qed.

Lemma does_emit L i L' : (forall f r, step_ok i (extend f r L) (extend f r L')) -> does L (emit i) L'.
Proof using Hcode. intros H s f r Hc. by apply gens_emit. Qed.

Lemma does_lift {A} (o : option A) (k : A -> M unit) L L' :
  (forall a, o = Some a -> does L (k a) L') -> does L (a ← lift o; k a) L'.
Proof.
  intros H s f r Hc b ls s' Hwf E. unfold lift, mbind, M_bind in E. destruct o as [a|]; [|done].
  destruct (k a s) as [[[b' l2] s2]|] eqn:E2; [|done]. injection E as <- <- <-.
  exact (H a eq_refl s f r Hc _ _ _ Hwf E2).
Qed.

(** Equal computations do the same; sequencing is associative. *)
Lemma does_ext L L' (m m' : M unit) : (forall s, m' s = m s) -> does L m L' -> does L m' L'.
Proof. intros E H s f r Hc b ls s' Hwf E'. rewrite E in E'. exact (H s f r Hc _ _ _ Hwf E'). Qed.

Lemma M_assoc (m k h : M unit) s : (m;; k;; h) s = ((m;; k);; h) s.
Proof.
  unfold mbind, M_bind. destruct (m s) as [[[[] l1] s1]|]; [|done].
  destruct (k s1) as [[[[] l2] s2]|]; [|done]. destruct (h s2) as [[[[] l3] s3]|]; [|done]. by rewrite app_assoc.
Qed.

(** Scratch flags are never allocated, so they can be forgotten. *)
Lemma put_all_small {A} (l : list (nat * A)) m (P : nat -> Prop) :
  (forall k x, m !! k = Some x -> P k) -> Forall (fun p => ~ P (fst p)) l -> m ⊆ put_all l m.
Proof.
  intros Hm Hl. apply map_subseteq_spec. intros k x Hk. induction Hl as [|[j y] l Hj _ IH]; [done|].
  cbn [put_all foldr fst snd] in *. rewrite lookup_insert_ne; [exact IH|]. intros <-. by apply Hj, (Hm _ x).
Qed.

Definition small (fs : list (nat * vvp_bit4_t)) : Prop := Forall (fun p => (fst p < 8)%nat) fs.

Lemma small_weaker s f r fs S :
  covered s (Know f r []) -> small fs -> weaker (Know f r S) (extend f r (Loc fs [] S)).
Proof.
  intros [CF _] Hs. split; [|done|done]. apply (put_all_small _ _ (fun k => 8 <= k)%nat).
  - intros k b Hk. by apply (CF k b).
  - eapply Forall_impl; [exact Hs|]. cbn. intros p Hp. lia.
Qed.

Lemma does_weaker L L1 L2 m : (forall f r, weaker (extend f r L2) (extend f r L1)) -> does L m L1 -> does L m L2.
Proof.
  intros Hw H s f r Hc b ls s' Hwf E. destruct (H s f r Hc b ls s' Hwf E) as (? & ? & ? & HT).
  split_and!; [done..|]. eapply triple_weaker; [apply weaker_refl|apply Hw|exact HT].
Qed.

Lemma does_forget L fs S m : small fs -> does L m (Loc fs [] S) -> does L m (stack S).
Proof.
  intros Hs H s f r Hc b ls s' Hwf E. destruct (H s f r Hc b ls s' Hwf E) as (? & ? & ? & HT).
  split_and!; [done..|]. eapply triple_weaker; [apply weaker_refl| |exact HT]. by eapply small_weaker.
Qed.

Lemma does_forget_first fs S m L' : small fs -> does (stack S) m L' -> does (Loc fs [] S) m L'.
Proof.
  intros Hs H s f r Hc b ls s' Hwf E. destruct (H s f r Hc b ls s' Hwf E) as (? & ? & ? & HT).
  split_and!; [done..|]. eapply triple_weaker; [|apply weaker_refl|exact HT]. by eapply small_weaker.
Qed.
End Run.

Abbreviation stack S := (Loc [] [] S).
