(* ===== verification/CodeGenOps.v ===== *)
(** What each instruction the code generator emits does to the known flags, index registers
    and stack of a thread. *)
From S2P Require Import Prelude MachineWord VvpBit VvpVector4 VvpSlice WordArith VvpArith VvpVector2 VvpCompare.
From S2P Require Import BitList VvpFunctor WordDiv VThread VThreadSpec VThreadParts VThreadIndex CodeGen.
From S2P Require Import CodeGenRun.

(** Flags put one after the other. *)
Definition put_flags (fs : list (nat * vvp_bit4_t)) (thr : vthread) : vthread :=
  foldr (fun p t => put_flag (fst p) (snd p) t) thr fs.

Lemma holds_put_flags f r S fs thr :
  small fs -> holds (Know f r S) thr -> holds (Know (put_all fs f) r S) (put_flags fs thr).
Proof.
  intros Hs H. induction Hs as [|[k b] fs Hk _ IH]; [done|]. cbn in *. apply holds_put_flag; [done|by apply flag_lt_8].
Qed.

Lemma put_all_app {A} (l1 l2 : list (nat * A)) m : put_all (l1 ++ l2) m = put_all l1 (put_all l2 m).
Proof. unfold put_all. by rewrite foldr_app. Qed.

(** Looking up one of the values put. *)
Ltac known := intros; cbn [put_all foldr fst snd app]; by simplify_map_eq.

Section Ops.
Context (d : design) (prog : list line) (code : list instr).
Context (Hcode : assemble prog = Some code).
Local Abbreviation does := (does d prog code).
Implicit Types (fs : list (nat * vvp_bit4_t)) (rs : list (nat * Z)) (S : list (list vvp_bit4_t)).

(** The rule for one instruction, from what it does to a thread. *)
Lemma does_instr i fs rs S fs' rs' S' :
  target i = [] ->
  (forall f r thr, holds (Know (put_all fs f) (put_all rs r) S) thr ->
     exists thr', exec d i thr = Some thr' /\ pc thr' = pc thr /\ holds (Know (put_all fs' f) (put_all rs' r) S') thr') ->
  does (Loc fs rs S) (emit i) (Loc fs' rs' S').
Proof using Hcode. intros Ht H. apply does_emit; [done|]. intros f r. split; [done|]. intros thr Hthr. by apply H. Qed.

Lemma does_unary i g l x fs rs S :
  target i = [] -> exec d i = unary g -> (forall v, vec_is v l -> exists v', g v = Some v' /\ vec_is v' x) ->
  does (Loc fs rs (l :: S)) (emit i) (Loc fs rs (x :: S)).
Proof using Hcode.
  intros Ht Ei Hg. apply does_instr; [done|]. intros f r thr H. destruct (holds_top _ _ _ _ _ H) as (v & st & E & Hv & Hst).
  destruct (Hg v Hv) as (v' & Eg & Hv'). exists (with_stack thr (v' :: st)).
  rewrite Ei. unfold unary, peek_vec4, poke_top. rewrite E. cbn. rewrite Eg. cbn. split_and!; [done|done|].
  eapply holds_stack; [done|]. by constructor.
Qed.

Lemma does_binary i g l r x fs rs S :
  target i = [] -> exec d i = binary g ->
  (forall vl vr, vec_is vl l -> vec_is vr r -> exists v, g vl vr = Some v /\ vec_is v x) ->
  does (Loc fs rs (r :: l :: S)) (emit i) (Loc fs rs (x :: S)).
Proof using Hcode.
  intros Ht Ei Hg. apply does_instr; [done|]. intros f r' thr H. destruct (holds_top _ _ _ _ _ H) as (vr & st & E & Hr & Hst).
  inversion Hst as [|vl ? st' ? Hl Hst']; subst. destruct (Hg vl vr Hl Hr) as (v & Eg & Hv).
  exists (with_stack thr (v :: st')). rewrite Ei. unfold binary, pop_vec4. rewrite E. cbn. rewrite Eg. cbn.
  split_and!; [done|done|]. eapply holds_stack; [done|]. by constructor.
Qed.

Lemma does_binary_imm i g l a b wid x fs rs S :
  target i = [] -> exec d i = binary_imm g a b wid -> (0 < wid)%nat -> 0 <= a < 2 ^ 32 ->
  (forall vl vr, vec_is vl l -> vec_is vr (imm_bits a b wid) -> exists v, g vl vr = Some v /\ vec_is v x) ->
  does (Loc fs rs (l :: S)) (emit i) (Loc fs rs (x :: S)).
Proof using Hcode.
  intros Ht Ei Hw Ha Hg. apply does_instr; [done|]. intros f r' thr H. destruct (holds_top _ _ _ _ _ H) as (vl & st & E & Hl & Hst).
  destruct (immediate_is a b wid Hw Ha) as (vr & Er & Hr). destruct (Hg vl vr Hl Hr) as (v & Eg & Hv).
  exists (with_stack thr (v :: st)). rewrite Ei. unfold binary_imm, peek_vec4, poke_top. rewrite E. cbn. rewrite Er. cbn. rewrite Eg. cbn.
  split_and!; [done|done|]. eapply holds_stack; [done|]. by constructor.
Qed.

Lemma does_push i v x fs rs S :
  target i = [] -> vec_is v x -> (forall thr, exec d i thr = Some (push_vec4 v thr)) ->
  does (Loc fs rs S) (emit i) (Loc fs rs (x :: S)).
Proof using Hcode.
  intros Ht Hv Ei. apply does_instr; [done|]. intros f r thr H. eexists. split_and!; [apply Ei|done|].
  eapply holds_stack; [done|]. constructor; [done|apply H].
Qed.

Lemma does_pushi a b wid fs rs S :
  (0 < wid)%nat -> 0 <= a < 2 ^ 32 -> does (Loc fs rs S) (emit (PUSHI_VEC4 a b wid)) (Loc fs rs (imm_bits a b wid :: S)).
Proof using Hcode.
  intros Hw Ha. apply does_instr; [done|]. intros f r thr H. destruct (of_PUSHI_VEC4_is a b wid thr Hw Ha) as (v & E & Hv).
  eexists. split_and!; [exact E|done|]. eapply holds_stack; [done|]. constructor; [done|apply H].
Qed.

Lemma does_concati a b wid m fs rs S :
  (0 < length m)%nat -> (0 < wid)%nat ->
  does (Loc fs rs (m :: S)) (emit (CONCATI_VEC4 a b wid)) (Loc fs rs ((imm_bits a b wid ++ m) :: S)).
Proof using Hcode.
  intros Hm Hw. apply does_instr; [done|]. intros f r thr H. destruct (holds_top _ _ _ _ _ H) as (vm & st & E & Hv & Hst).
  destruct (of_CONCATI_is a b wid vm m thr st E Hv Hm Hw) as (v & Ei & Hv').
  eexists. split_and!; [exact Ei|done|]. eapply holds_stack; [done|]. by constructor.
Qed.

Lemma does_dup l fs rs S : does (Loc fs rs (l :: S)) (emit DUP_VEC4) (Loc fs rs (l :: l :: S)).
Proof using Hcode.
  apply does_instr; [done|]. intros f r thr H. destruct (holds_top _ _ _ _ _ H) as (v & st & E & Hv & Hst).
  exists (push_vec4 v thr). cbn [exec]. unfold of_DUP_VEC4, peek_vec4. rewrite E. split_and!; [done|done|].
  eapply holds_stack; [done|]. rewrite E. by constructor; [|constructor].
Qed.

Lemma does_pop l fs rs S : does (Loc fs rs (l :: S)) (emit (POP_VEC4 1)) (Loc fs rs S).
Proof using Hcode.
  apply does_instr; [done|]. intros f r thr H. destruct (holds_top _ _ _ _ _ H) as (v & st & E & Hv & Hst).
  exists (with_stack thr st). cbn [exec]. unfold of_POP_VEC4, pop_vec4_n. rewrite E. split_and!; [done|done|by eapply holds_stack].
Qed.

(** ** Comparisons: the flags they set *)

Lemma does_compare i cmp l r fs' fs rs S :
  target i = [] -> exec d i = compare cmp -> small fs' ->
  (forall vl vr thr, vec_is vl l -> vec_is vr r -> wf_thread thr -> cmp vl vr thr = Some (put_flags fs' thr)) ->
  does (Loc fs rs (r :: l :: S)) (emit i) (Loc (fs' ++ fs) rs S).
Proof using Hcode.
  intros Ht Ei Hs Hc. apply does_instr; [done|]. intros f r' thr H. destruct (holds_top _ _ _ _ _ H) as (vr & st & E & Hr & Hst).
  inversion Hst as [|vl ? st' ? Hl Hst']; subst.
  pose proof (holds_put_flags _ _ _ fs' _ Hs H) as H'. rewrite <- put_all_app in H'.
  assert (Es : forall gs, stack_vec4_ (put_flags gs thr) = stack_vec4_ thr) by (induction gs as [|[]]; [done|cbn; done]).
  assert (Ep : forall gs, pc (put_flags gs thr) = pc thr) by (induction gs as [|[]]; [done|cbn; done]).
  exists (with_stack (put_flags fs' thr) st'). rewrite Ei. unfold compare, peek_vec4. rewrite E. cbn.
  rewrite (Hc vl vr thr Hl Hr) by apply H. cbn. unfold pop_vec4_n. rewrite Es, E. cbn. split_and!; [done|apply Ep|].
  by eapply holds_stack.
Qed.

Lemma does_compare_imm i cmp l a b wid fs' fs rs S :
  target i = [] -> exec d i = compare_imm cmp a b wid -> small fs' -> (0 < wid)%nat -> 0 <= a < 2 ^ 32 ->
  (forall vl vr thr, vec_is vl l -> vec_is vr (imm_bits a b wid) -> wf_thread thr -> cmp vl vr thr = Some (put_flags fs' thr)) ->
  does (Loc fs rs (l :: S)) (emit i) (Loc (fs' ++ fs) rs S).
Proof using Hcode.
  intros Ht Ei Hs Hw Ha Hc. apply does_instr; [done|]. intros f r' thr H. destruct (holds_top _ _ _ _ _ H) as (vl & st & E & Hl & Hst).
  destruct (immediate_is a b wid Hw Ha) as (vr & Er & Hr).
  pose proof (holds_put_flags _ _ _ fs' _ Hs H) as H'. rewrite <- put_all_app in H'.
  assert (Es : forall gs, stack_vec4_ (put_flags gs thr) = stack_vec4_ thr) by (induction gs as [|[]]; [done|cbn; done]).
  assert (Ep : forall gs, pc (put_flags gs thr) = pc thr) by (induction gs as [|[]]; [done|cbn; done]).
  exists (with_stack (put_flags fs' thr) st). rewrite Ei. unfold compare_imm, peek_vec4. rewrite E. cbn. rewrite Er. cbn.
  rewrite (Hc vl vr thr Hl Hr) by apply H. cbn. unfold pop_vec4_n. rewrite Es, E. cbn. split_and!; [done|apply Ep|].
  by eapply holds_stack.
Qed.

(** ** Flags *)

Lemma does_flag_get k b fs rs S :
  (forall f, put_all fs f !! k = Some b) -> does (Loc fs rs S) (emit (FLAG_GET_VEC4 k)) (Loc fs rs ([b] :: S)).
Proof using Hcode.
  intros Hk. apply does_instr; [done|]. intros f r thr H. exists (push_vec4 (vec4_fill 1 b) thr). cbn [exec].
  unfold of_FLAG_GET_VEC4. rewrite (h_flags _ _ H k b (Hk f)). split_and!; [done|done|].
  eapply holds_stack; [done|]. constructor; [apply (vec_is_fill 1)|apply H].
Qed.

Lemma does_flag_inv k b fs rs S :
  (k < FLAGS_COUNT)%nat -> (forall f, put_all fs f !! k = Some b) ->
  does (Loc fs rs S) (emit (FLAG_INV k)) (Loc ((k, bit4_not b) :: fs) rs S).
Proof using Hcode.
  intros Hlt Hk. apply does_instr; [done|]. intros f r thr H. exists (put_flag k (bit4_not b) thr). cbn [exec].
  unfold of_FLAG_INV, inv_flag. rewrite (h_flags _ _ H k b (Hk f)). cbn [mbind option_bind].
  rewrite set_flag_wf by (done || apply H). split_and!; [done|done|by apply holds_put_flag].
Qed.

Lemma does_flag_or k1 k2 b1 b2 fs rs S :
  (k1 < FLAGS_COUNT)%nat -> (forall f, put_all fs f !! k1 = Some b1) -> (forall f, put_all fs f !! k2 = Some b2) ->
  does (Loc fs rs S) (emit (FLAG_OR k1 k2)) (Loc ((k1, bit4_or b1 b2) :: fs) rs S).
Proof using Hcode.
  intros Hlt H1 H2. apply does_instr; [done|]. intros f r thr H. exists (put_flag k1 (bit4_or b1 b2) thr). cbn [exec].
  unfold of_FLAG_OR. rewrite (h_flags _ _ H k1 b1 (H1 f)), (h_flags _ _ H k2 b2 (H2 f)). cbn [mbind option_bind].
  rewrite set_flag_wf by (done || apply H). split_and!; [done|done|by apply holds_put_flag].
Qed.

Lemma does_flag_imm k vali b fs rs S :
  (k < FLAGS_COUNT)%nat -> [BIT4_0; BIT4_1; BIT4_Z; BIT4_X] !! Z.to_nat vali = Some b ->
  does (Loc fs rs S) (emit (FLAG_SET_IMM k vali)) (Loc ((k, b) :: fs) rs S).
Proof using Hcode.
  intros Hlt Hb. apply does_instr; [done|]. intros f r thr H. exists (put_flag k b thr). cbn [exec].
  unfold of_FLAG_SET_IMM. rewrite Hb. cbn [mbind option_bind].
  rewrite set_flag_wf by (done || apply H). split_and!; [done|done|by apply holds_put_flag].
Qed.

(** ** Index registers *)

Lemma does_ix_load k low fs rs S :
  (k < WORDS_COUNT)%nat -> does (Loc fs rs S) (emit (IX_LOAD k low 0)) (Loc fs ((k, low) :: rs) S).
Proof using Hcode.
  intros Hk. apply does_instr; [done|]. intros f r thr H. exists (put_word k low thr). cbn [exec].
  unfold of_IX_LOAD. rewrite set_word_wf by (done || apply H). split_and!; [|done|by apply holds_put_word].
  by unfold get_as_64_bit.
Qed.

Lemma does_ix_sub k x low fs rs S :
  (k < WORDS_COUNT)%nat -> (forall r, put_all rs r !! k = Some x) ->
  does (Loc fs rs S) (emit (IX_SUB k low 0)) (Loc fs ((k, wsub x low) :: rs) S).
Proof using Hcode.
  intros Hk Hx. apply does_instr; [done|]. intros f r thr H. exists (put_word k (wsub x low) thr). cbn [exec].
  unfold of_IX_SUB, on_word. rewrite (h_regs _ _ H k x (Hx r)). cbn [mbind option_bind].
  rewrite set_word_wf by (done || apply H). split_and!; [|done|by apply holds_put_word].
  by unfold get_as_64_bit.
Qed.

Lemma does_ix_vec4 (signed : bool) k s fs rs S :
  (k < WORDS_COUNT)%nat -> (0 < length s)%nat -> (signed = true -> length s <= W)%nat ->
  does (Loc fs rs (s :: S)) (ix_vec4 signed k) (Loc ((4%nat, index_flag signed s) :: fs) ((k, index_reg signed s) :: rs) S).
Proof using Hcode.
  intros Hk H0 HW. unfold ix_vec4. apply does_instr; [by destruct signed|].
  intros f r thr H. destruct (holds_top _ _ _ _ _ H) as (v & st & E & Hv & Hst). pose proof (h_wf _ _ H) as Hwf.
  eexists. split_and!.
  - destruct signed; [eapply of_IX_VEC4_S_is|eapply of_IX_VEC4_is]; try done. split; [done|by apply HW].
  - done.
  - apply holds_put_word; [|done]. apply holds_put_flag; [|small_flag]. by eapply holds_stack.
Qed.

Lemma does_getv (signed : bool) k net s fs rs S :
  (k < WORDS_COUNT)%nat -> (0 < length s)%nat -> (signed = true -> length s <= W)%nat -> vec_is (vec4_value d net) s ->
  does (Loc fs rs S) (emit (if signed then IX_GETV_S k net else IX_GETV k net))
       (Loc ((4%nat, index_flag signed s) :: fs) ((k, index_reg signed s) :: rs) S).
Proof using Hcode.
  intros Hk H0 HW Hv. apply does_instr; [by destruct signed|]. intros f r thr H. pose proof (h_wf _ _ H) as Hwf.
  eexists. split_and!.
  - destruct signed; [eapply of_IX_GETV_S_is|eapply of_IX_GETV_is]; try done. split; [done|by apply HW].
  - done.
  - apply holds_put_flag; [|small_flag]. by apply holds_put_word.
Qed.

(** Shifts by an index register. *)
Lemma does_by_index i g k s l x fs rs S :
  target i = [] -> exec d i = by_index g k ->
  (forall r, put_all rs r !! k = Some (index_reg false s)) -> (forall f, put_all fs f !! 4%nat = Some (index_flag false s)) ->
  (forall v, vec_is v l -> exists v', g (index_flag false s) (index_reg false s) v = Some v' /\ vec_is v' x) ->
  does (Loc fs rs (l :: S)) (emit i) (Loc fs rs (x :: S)).
Proof using Hcode.
  intros Ht Ei Hk H4 Hg. apply does_instr; [done|]. intros f r thr H. destruct (holds_top _ _ _ _ _ H) as (v & st & E & Hv & Hst).
  destruct (Hg v Hv) as (v' & Eg & Hv'). exists (with_stack thr (v' :: st)).
  rewrite Ei. unfold by_index. rewrite (h_regs _ _ H _ _ (Hk r)), (h_flags _ _ H _ _ (H4 f)). cbn [mbind option_bind].
  unfold unary, peek_vec4, poke_top. rewrite E. cbn. rewrite Eg. cbn. split_and!; [done|done|].
  eapply holds_stack; [done|]. by constructor.
Qed.

(** ** Loads *)

Lemma does_load net x fs rs S :
  vec_is (vec4_value d net) x -> does (Loc fs rs S) (emit (LOAD_VEC4 net)) (Loc fs rs (x :: S)).
Proof using Hcode. intros H. by eapply does_push. Qed.

Lemma does_load_array arr k adr b x fs rs S :
  (forall r, put_all rs r !! k = Some adr) -> (forall f, put_all fs f !! 4%nat = Some b) ->
  vec_is (if bit4_eqb b BIT4_1 then vec4_fill (get_word_size (array_of d arr)) BIT4_X
          else array_get_word (array_of d arr) (adr mod 2 ^ 32)) x ->
  does (Loc fs rs S) (emit (LOAD_VEC4A arr k)) (Loc fs rs (x :: S)).
Proof using Hcode.
  intros Hk H4 Hx. apply does_instr; [done|]. intros f r thr H. eexists. split_and!.
  - cbn [exec]. unfold of_LOAD_VEC4A. rewrite (h_regs _ _ H _ _ (Hk r)), (h_flags _ _ H _ _ (H4 f)). done.
  - done.
  - eapply holds_stack; [done|]. constructor; [done|apply H].
Qed.
End Ops.
