(* ===== verification/CodeGenAlloc.v ===== *)
(** The allocation of index registers and flags, and the code of literals. *)
From S2P Require Import Prelude MachineWord VvpBit VvpVector4 VvpSlice WordArith VvpArith VvpVector2 VvpCompare.
From S2P Require Import BitList VvpFunctor WordDiv VThread VThreadSpec VThreadParts VThreadIndex CodeGen.
From S2P Require Import CodeGenRun CodeGenOps.

(** * Allocation *)

Lemma flag_bit_insert mask idx v j :
  length mask = 16%nat -> (idx < FLAGS_COUNT)%nat ->
  flag_bit (<[(idx / 32)%nat := v]> mask) j =
    if (j / 32 =? idx / 32)%nat then Z.testbit v (Z.of_nat (j mod 32)) else flag_bit mask j.
Proof.
  intros Hl Hi. unfold flag_bit, word. rewrite nth_insert; [by destruct (_ =? _)%nat|].
  unfold FLAGS_COUNT in Hi. rewrite Hl. apply Nat.Div0.div_lt_upper_bound. lia.
Qed.

Lemma same_flag j idx : (j / 32 = idx / 32)%nat -> (j mod 32 =? idx mod 32)%nat = (j =? idx)%nat.
Proof.
  intros E. destruct (Nat.eqb_spec j idx) as [->|Hne]; [by rewrite Nat.eqb_refl|]. apply Nat.eqb_neq. intros Em.
  apply Hne. rewrite (Nat.div_mod_eq j 32), (Nat.div_mod_eq idx 32). congruence.
Qed.

Lemma testbit_one a b : Z.testbit (Z.shiftl 1 (Z.of_nat a)) (Z.of_nat b) = (b =? a)%nat.
Proof.
  rewrite Z.shiftl_spec by lia. destruct (Nat.eqb_spec b a) as [->|Hne]; [by rewrite Z.sub_diag|].
  destruct (Z.lt_ge_cases (Z.of_nat b) (Z.of_nat a)); [by rewrite Z.testbit_neg_r by lia|].
  apply Z.bits_above_log2; [lia|]. change (Z.log2 1) with 0. lia.
Qed.

Lemma flag_bit_set mask idx j :
  length mask = 16%nat -> (idx < FLAGS_COUNT)%nat ->
  flag_bit (<[(idx / 32)%nat := Z.lor (word mask (idx / 32)) (Z.shiftl 1 (Z.of_nat (idx mod 32)))]> mask) j
    = flag_bit mask j || (j =? idx)%nat.
Proof.
  intros Hl Hi. rewrite flag_bit_insert by done. destruct (Nat.eqb_spec (j / 32) (idx / 32)) as [E|E].
  - rewrite Z.lor_spec, testbit_one, same_flag by done. unfold flag_bit. by rewrite E.
  - destruct (Nat.eqb_spec j idx) as [->|]; [done|]. by rewrite orb_false_r.
Qed.

Lemma flag_bit_clear mask idx j :
  length mask = 16%nat -> (idx < FLAGS_COUNT)%nat ->
  flag_bit (<[(idx / 32)%nat := Z.ldiff (word mask (idx / 32)) (Z.shiftl 1 (Z.of_nat (idx mod 32)))]> mask) j
    = flag_bit mask j && negb (j =? idx)%nat.
Proof.
  intros Hl Hi. rewrite flag_bit_insert by done. destruct (Nat.eqb_spec (j / 32) (idx / 32)) as [E|E].
  - rewrite Z.ldiff_spec, testbit_one, same_flag by done. unfold flag_bit. by rewrite E.
  - destruct (Nat.eqb_spec j idx) as [->|]; [done|]. by rewrite andb_true_r.
Qed.

Lemma next_flag_spec cnt idx mask k :
  next_flag cnt idx mask = Some k -> (idx <= k < idx + cnt)%nat /\ flag_bit mask k = false.
Proof.
  revert idx. induction cnt as [|c IH]; intros idx; [done|]. cbn. destruct (flag_bit mask idx) eqn:E.
  - intros H. apply IH in H as [H1 H2]. split; [lia|done].
  - intros [= ->]. split; [lia|done].
Qed.

Lemma next_word_spec cnt res mask :
  let k := next_word cnt res mask in (res <= k <= res + cnt)%nat /\ ((k < res + cnt)%nat -> Z.testbit mask (Z.of_nat k) = false).
Proof.
  revert res. induction cnt as [|c IH]; intros res; cbn; [split; lia|]. destruct (Z.testbit mask (Z.of_nat res)) eqn:E.
  - destruct (IH (res + 1)%nat) as [H1 H2]. split; [lia|]. intros H. apply H2. lia.
  - split; [lia|done].
Qed.

(** The state with one more flag or register in use. *)
Record adds_flag (s : cg) (k : nat) (s' : cg) : Prop := {
  af_range : (8 <= k < FLAGS_COUNT)%nat;
  af_free : flag_used s k = false;
  af_flags : forall j, flag_used s' j = flag_used s j || (j =? k)%nat;
  af_words : forall j, word_used s' j = word_used s j }.

Record adds_word (s : cg) (k : nat) (s' : cg) : Prop := {
  aw_range : (k < WORDS_COUNT)%nat;
  aw_free : word_used s k = false;
  aw_words : forall j, word_used s' j = word_used s j || (j =? k)%nat;
  aw_flags : forall j, flag_used s' j = flag_used s j }.

Lemma allocate_flag_spec s k ls s' :
  wf_cg s -> allocate_flag s = Some (k, ls, s') -> ls = [] /\ wf_cg s' /\ local_count s' = local_count s /\ adds_flag s k s'.
Proof.
  intros [Hl Hlow] E. unfold allocate_flag in E. destruct (next_flag _ _ _) as [i|] eqn:En; [|done]. injection E as <- <- <-.
  apply next_flag_spec in En as [Hi Hf].
  assert (Hadd : adds_flag s i (mkCg (word_alloc_mask s)
     (<[(i / 32)%nat := Z.lor (word (allocate_flag_mask s) (i / 32)) (Z.shiftl 1 (Z.of_nat (i mod 32)))]> (allocate_flag_mask s)) (local_count s))).
  { split; [split; [|lia]|done| |done].
    - destruct (Nat.le_gt_cases 8 i) as [|H]; [done|]. specialize (Hlow i H). unfold flag_used in Hlow. congruence.
    - intros j. apply flag_bit_set; [done|lia]. }
  split_and!; [done| |done|done]. split; [cbn; by rewrite length_insert|].
  intros j Hj. rewrite (af_flags _ _ _ Hadd), Hlow by done. done.
Qed.

Lemma allocate_word_spec s k ls s' :
  wf_cg s -> allocate_word s = Some (k, ls, s') -> ls = [] /\ wf_cg s' /\ local_count s' = local_count s /\ adds_word s k s'.
Proof.
  intros [Hl Hlow] E. unfold allocate_word in E. destruct (_ <=? _)%nat eqn:En; [done|]. injection E as <- <- <-.
  apply Nat.leb_gt in En. destruct (next_word_spec (WORD_COUNT - 4) 4 (word_alloc_mask s)) as [H1 H2].
  set (i := next_word _ _ _) in *. split_and!; [done|by split|done|]. unfold WORD_COUNT in *. split; [done|by apply H2| |done].
  intros j. unfold word_used. cbn [word_alloc_mask]. by rewrite Z.lor_spec, testbit_one.
Qed.

Lemma clr_word_spec s k ls s' :
  wf_cg s -> clr_word k s = Some (tt, ls, s') ->
  ls = [] /\ wf_cg s' /\ local_count s' = local_count s /\
  (forall j, word_used s' j = word_used s j && negb (j =? k)%nat) /\ (forall j, flag_used s' j = flag_used s j).
Proof.
  intros [Hl Hlow] E. unfold clr_word in E. destruct (_ <? _)%nat; [|done]. injection E as <- <-.
  split_and!; [done|by split|done| |done]. intros j. unfold word_used. cbn [word_alloc_mask].
  by rewrite Z.ldiff_spec, testbit_one.
Qed.

Lemma clr_flag_spec s k ls s' :
  wf_cg s -> (8 <= k)%nat -> clr_flag k s = Some (tt, ls, s') ->
  ls = [] /\ wf_cg s' /\ local_count s' = local_count s /\
  (forall j, flag_used s' j = flag_used s j && negb (j =? k)%nat) /\ (forall j, word_used s' j = word_used s j).
Proof.
  intros [Hl Hlow] Hk E. unfold clr_flag in E. rewrite (proj2 (Nat.ltb_ge _ _) Hk) in E.
  destruct (_ && _) eqn:Ec; [|done]. apply andb_true_iff in Ec as [Ek _]. apply Nat.ltb_lt in Ek. injection E as <- <-.
  assert (Hf : forall j, flag_bit (<[(k / 32)%nat := Z.ldiff (word (allocate_flag_mask s) (k / 32)) (Z.shiftl 1 (Z.of_nat (k mod 32)))]>
    (allocate_flag_mask s)) j = flag_used s j && negb (j =? k)%nat) by (intros j; by apply flag_bit_clear).
  split_and!; [done| |done|done|done]. split; [cbn; by rewrite length_insert|].
  intros j Hj. unfold flag_used. cbn [allocate_flag_mask]. rewrite Hf, Hlow by done. rewrite (proj2 (Nat.eqb_neq _ _)) by lia. done.
Qed.

Section Alloc.
Context (d : design) (prog : list line) (code : list instr).
Context (Hcode : assemble prog = Some code).
Local Abbreviation does := (does d prog code).

(** A register for the time of [body]. *)
Lemma does_word S S' (body : nat -> M unit) :
  (forall k, (k < WORDS_COUNT)%nat -> exists fs x, small fs /\ does (stack S) (body k) (Loc fs [(k, x)] S')) ->
  does (stack S) (k ← allocate_word; body k;; clr_word k) (stack S').
Proof.
  intros Hbody s f r Hc b ls s' Hwf E. unfold mbind at 1, M_bind at 1 in E.
  destruct (allocate_word s) as [[[k l0] s1]|] eqn:E0; [|done].
  destruct (allocate_word_spec _ _ _ _ Hwf E0) as (-> & W1 & C1 & [Hk Hfree Hwords Hflags]).
  destruct (Hbody k Hk) as (fs & x & Hs & Hb).
  unfold mbind, M_bind in E. destruct (body k s1) as [[[[] l1] s2]|] eqn:E1; [|done].
  destruct (clr_word k s2) as [[[[] l2] s3]|] eqn:E2; [|done]. injection E as <- <- <-.
  assert (Hc1 : covered s1 (Know f r [])).
  { destruct Hc as [CF CR]. split.
    - intros j c Hj. rewrite Hflags. by apply (CF j c).
    - intros j c Hj. rewrite Hwords, (CR j c) by done. done. }
  destruct (Hb s1 f r Hc1 _ _ _ W1 E1) as (W2 & [SF SW] & T2 & R2).
  destruct (clr_word_spec _ _ _ _ W2 E2) as (-> & W3 & C3 & HW3 & HF3).
  rewrite app_nil_r. cbn [app]. split_and!; [done| | |].
  - split; intros j; [by rewrite HF3, SF, Hflags|]. rewrite HW3, SW, Hwords.
    destruct (Nat.eqb_spec j k) as [->|]; cbn; [by rewrite Hfree|]. by rewrite orb_false_r, andb_true_r.
  - destruct T2 as [A1 A2 A3 A4]. split; [lia| |done|done]. intros n Hn. specialize (A2 n Hn). lia.
  - eapply triple_weaker; [apply weaker_refl| |exact R2]. destruct Hc as [CF CR]. split; [| |done]; cbn [kf kr extend lf lr].
    + apply (put_all_small _ _ (fun k => 8 <= k)%nat); [intros j c Hj; by apply (CF j c)|].
      eapply Forall_impl; [exact Hs|]. cbn. intros p Hp. lia.
    + cbn. apply insert_subseteq. destruct (r !! k) as [y|] eqn:Er; [|done]. specialize (CR k y Er). congruence.
Qed.
End Alloc.

(** * Literals *)

Lemma lor_bit c z : 0 <= c < 2 ^ 31 -> Z.lor (wshl c 1) (Z.b2z z) = 2 * c + Z.b2z z.
Proof.
  intros Hc. replace (wshl c 1) with (2 * c).
  - apply Z.bits_inj'. intros i Hi. rewrite Z.lor_spec. destruct (Z.eq_dec i 0) as [->|Hne].
    + rewrite Z.testbit_even_0, Z.testbit_0_r, Z.b2z_bit0. done.
    + replace i with (Z.succ (i - 1)) by lia. rewrite Z.testbit_even_succ, Z.testbit_succ_r by lia.
      destruct z; cbn [Z.b2z]; [|by rewrite Z.bits_0, orb_false_r].
      replace (Z.testbit 1 (Z.succ (i - 1))) with false; [by rewrite orb_false_r|].
      symmetry. apply Z.bits_above_log2; [lia|]. change (Z.log2 1) with 0. lia.
  - unfold wshl. change (Z.of_nat (1 mod W)) with 1. rewrite wrap_small; [by rewrite Z.shiftl_mul_pow2, Z.mul_comm|].
    rewrite Z.shiftl_mul_pow2 by done. split; [lia|]. unfold wordsize. lia.
Qed.

Lemma imm_bits_cons a b n x y :
  0 <= a < 2 ^ 31 -> 0 <= b < 2 ^ 31 ->
  imm_bits (Z.lor (wshl a 1) (Z.b2z x)) (Z.lor (wshl b 1) (Z.b2z y)) (S n) = of_planes x y :: imm_bits a b n.
Proof.
  intros Ha Hb. unfold imm_bits. cbn [seq map]. rewrite <- seq_shift, map_map, !lor_bit by done.
  assert (H : forall c (z : bool), Z.testbit (2 * c + Z.b2z z) (Z.of_nat 0) = z /\ forall i, Z.testbit (2 * c + Z.b2z z) (Z.of_nat (S i)) = Z.testbit c (Z.of_nat i)).
  { intros c z. split; [apply Z.testbit_0_r|]. intros i. rewrite Nat2Z.inj_succ. apply Z.testbit_succ_r. lia. }
  destruct (H a x) as [-> AS], (H b y) as [-> BS]. f_equal. apply map_ext. intros i. by rewrite AS, BS.
Qed.

(** The two words hold [n] bits shifted in. *)
Record planes (v : Z * Z) (n : nat) : Prop := {
  pl_a : 0 <= fst v < 2 ^ 32;
  pl_b : 0 <= snd v < 2 ^ 32;
  pl_n : fst v < 2 ^ Z.of_nat n }.

Definition imm_of (v : Z * Z) (n : nat) : list vvp_bit4_t := imm_bits (fst v) (snd v) n.

Lemma planes_0 : planes (0, 0) 0. Proof. by split. Qed.

Lemma top_bit_clear x : 0 <= x < 2 ^ 32 -> Z.testbit x 31 = false -> x < 2 ^ 31.
Proof.
  intros Hx Ht. destruct (Z.lt_ge_cases x (2 ^ 31)) as [|H]; [done|].
  exfalso.
  assert (E : Z.testbit x 31 = true); [|congruence]. rewrite Z.testbit_true by lia.
  replace (x / 2 ^ 31) with 1; [done|]. apply (Z.div_unique x (2 ^ 31) 1 (x - 2 ^ 31)); lia.
Qed.

Lemma shift_in_is b v n :
  planes v n -> Z.testbit (Z.lor (fst v) (snd v)) 31 = false ->
  planes (shift_in b v) (S n) /\ imm_of (shift_in b v) (S n) = b :: imm_of v n.
Proof.
  intros [Ha Hb Hn] Ht. rewrite Z.lor_spec in Ht. apply orb_false_iff in Ht as [Ta Tb].
  apply top_bit_clear in Ta, Tb; [|done..].
  assert (E : shift_in b v = (Z.lor (wshl (fst v) 1) (Z.b2z (match b with BIT4_1 | BIT4_X => true | _ => false end)),
                             Z.lor (wshl (snd v) 1) (Z.b2z (match b with BIT4_X | BIT4_Z => true | _ => false end)))).
  { destruct b; cbn [shift_in Z.b2z]; by rewrite ?Z.lor_0_r. }
  rewrite E. split.
  - rewrite !lor_bit by lia.
    destruct b; split; cbn [fst snd Z.b2z]; rewrite ?Nat2Z.inj_succ, ?Z.pow_succ_r by lia; lia.
  - unfold imm_of. cbn [fst snd]. rewrite imm_bits_cons by lia. by destruct b.
Qed.

Lemma immediate_words_is bits v n v' :
  planes v n -> immediate_words bits v = Some v' ->
  planes v' (length bits + n) /\ imm_of v' (length bits + n) = reverse bits ++ imm_of v n.
Proof.
  revert v n. induction bits as [|b bits IH]; intros v n Hv; cbn [immediate_words]; [intros [= <-]; done|].
  destruct (Z.testbit _ 31) eqn:Et; [done|]. intros E. destruct (shift_in_is b v n Hv Et) as [Hp Hi].
  destruct (IH _ _ Hp E) as [H1 H2]. cbn [length]. replace (S (length bits) + n)%nat with (length bits + S n)%nat by lia.
  split; [done|]. by rewrite H2, Hi, reverse_cons, <- app_assoc.
Qed.

Lemma imm_bits_known a n : 0 <= a < 2 ^ Z.of_nat n -> unknown (imm_bits a 0 n) = false /\ bv_Z (imm_bits a 0 n) = a.
Proof.
  intros Ha. assert (E : imm_bits a 0 n = of_Z n a).
  { unfold imm_bits, of_Z. apply map_seq_ext. intros i _. rewrite Z.bits_0. by destruct (Z.testbit _ _). }
  rewrite E, unknown_of_Z, bv_Z_of_Z, Z.mod_small by done. done.
Qed.

(** The words of a literal that fits an immediate operand. *)
Lemma make_immediate_is a bits v0 vx wid :
  length bits = wid_of a -> make_immediate_vec4_words (IVL_EX_NUMBER a bits) = Some (v0, vx, wid) ->
  wid = wid_of a /\ 0 <= v0 < 2 ^ 32 /\ imm_bits v0 vx wid = bits /\ (vx = 0 -> unknown bits = false /\ bv_Z bits = v0).
Proof.
  intros Hl E. cbn in E. destruct (immediate_words _ _) as [v|] eqn:Ei; [|done]. cbn in E. injection E as -> <-.
  destruct (immediate_words_is _ _ _ _ planes_0 Ei) as [[Pa Pb Pn] H]. cbn [fst snd] in *.
  unfold imm_of in H. cbn [fst snd imm_bits seq map] in H. rewrite app_nil_r, reverse_involutive in H.
  rewrite length_reverse, length_take, Hl, Nat.min_id, Nat.add_0_r in *. rewrite take_ge in H by lia.
  split_and!; [done|lia|lia|done|]. intros ->. rewrite <- H. apply imm_bits_known. lia.
Qed.

Section Literals.
Context (d : design) (prog : list line) (code : list instr).
Context (Hcode : assemble prog = Some code).
Local Abbreviation does := (does d prog code).

Definition on_top (count : nat) (m : list vvp_bit4_t) (S : list (list vvp_bit4_t)) : list (list vvp_bit4_t) :=
  if (count =? 0)%nat then S else m :: S.

Lemma does_push_chunk v n count m fs rs S :
  planes v n -> (0 < n)%nat -> (if (count =? 0)%nat then m = [] else (0 < length m)%nat) ->
  does (Loc fs rs (on_top count m S)) (emit (push_chunk v n count)) (Loc fs rs ((imm_of v n ++ m) :: S)).
Proof using Hcode.
  intros [Ha Hb Hn] H0 Hm. unfold push_chunk, on_top, imm_of. destruct (count =? 0)%nat.
  - subst m. rewrite app_nil_r. by apply does_pushi.
  - by apply does_concati.
Qed.

Lemma length_imm_of v n : length (imm_of v n) = n.
Proof. apply length_imm_bits. Qed.

Lemma does_concat_number bits : forall v accum count m fs rs S,
  planes v accum -> Z.testbit (Z.lor (fst v) (snd v)) 31 = false ->
  (if (count =? 0)%nat then m = [] else (0 < length m)%nat) -> (0 < length bits + accum + length m)%nat ->
  does (Loc fs rs (on_top count m S)) (concat_number bits v accum count)
       (Loc fs rs ((reverse bits ++ imm_of v accum ++ m) :: S)).
Proof using Hcode.
  induction bits as [|b bits IH]; intros v accum count m fs rs S Hv Ht Hm H0; cbn [concat_number].
  - cbn [reverse app]. destruct (Nat.eqb_spec accum 0) as [->|Ha].
    + unfold on_top. destruct (count =? 0)%nat; [subst m; cbn in H0; lia|]. apply does_ret.
    + apply does_push_chunk; [done|lia|done].
  - destruct (shift_in_is b v accum Hv Ht) as [Hp Hi]. rewrite reverse_cons, <- app_assoc. cbn [app].
    rewrite (Nat.add_1_r accum). rewrite app_comm_cons, <- Hi. destruct (Z.testbit (Z.lor (fst (shift_in b v)) (snd (shift_in b v))) 31) eqn:Et.
    + eapply does_bind; [apply does_push_chunk; [done|lia|done]|].
      assert (Hc : (count + 1 =? 0)%nat = false) by (apply Nat.eqb_neq; lia).
      pose proof (IH (0, 0) 0%nat (count + 1)%nat (imm_of (shift_in b v) (Datatypes.S accum) ++ m) fs rs S) as H.
      unfold on_top in H at 1. rewrite Hc in H. apply H; [apply planes_0|done| |]; rewrite length_app, length_imm_of; lia.
    + apply IH; [done|done|done|cbn in H0; lia].
Qed.

Lemma does_number a bits fs rs S :
  length bits = wid_of a -> (0 < wid_of a)%nat ->
  does (Loc fs rs S) (draw_number_vec4 (IVL_EX_NUMBER a bits)) (Loc fs rs (bits :: S)).
Proof using Hcode.
  intros Hl H0. unfold draw_number_vec4, draw_concat_number_vec4. rewrite take_ge by lia.
  pose proof (does_concat_number (reverse bits) (0, 0) 0 0 [] fs rs S planes_0) as H.
  rewrite reverse_involutive, length_reverse in H. change (imm_of (0, 0) 0 ++ []) with (@nil vvp_bit4_t) in H.
  rewrite app_nil_r in H. apply H; [done|done|cbn; lia].
Qed.

Lemma does_concat_operand a bits m fs rs S :
  length bits = wid_of a -> (0 < length m)%nat ->
  does (Loc fs rs (m :: S)) (draw_concat_number_vec4 (IVL_EX_NUMBER a bits) true) (Loc fs rs ((bits ++ m) :: S)).
Proof using Hcode.
  intros Hl H0. unfold draw_concat_number_vec4. rewrite take_ge by lia.
  pose proof (does_concat_number (reverse bits) (0, 0) 0 1 m fs rs S planes_0) as H.
  rewrite reverse_involutive, length_reverse in H. apply H; [done|done|lia].
Qed.

(** An immediate operand is the literal. *)
Lemma does_immediate a bits (op : Z -> Z -> nat -> instr) L L' :
  length bits = wid_of a ->
  (forall v0 vx, 0 <= v0 < 2 ^ 32 -> imm_bits v0 vx (wid_of a) = bits -> does L (emit (op v0 vx (wid_of a))) L') ->
  does L (draw_immediate_vec4 (IVL_EX_NUMBER a bits) op) L'.
Proof.
  intros Hl H. unfold draw_immediate_vec4. apply does_lift. intros [[v0 vx] wid] E.
  destruct (make_immediate_is _ _ _ _ _ Hl E) as (-> & Hv & Hb & _). by apply H.
Qed.
End Literals.
