(* ===== verification/CodeGenDraw.v ===== *)
(** The code of each operator, from the code of its operands. *)
From S2P Require Import Prelude MachineWord VvpBit VvpVector4 VvpSlice WordArith VvpArith VvpVector2 VvpCompare.
From S2P Require Import BitList VvpFunctor WordDiv VThread VThreadSpec VThreadParts VThreadIndex VThreadDiv.
From S2P Require Import VThreadMod CodeGen ExprSpec CodeGenRun CodeGenOps CodeGenAlloc ExprFacts.

Section Draw.
Context (d : design) (prog : list line) (code : list instr).
Context (Hcode : assemble prog = Some code).
Local Abbreviation does := (does d prog code).
Implicit Types (S : list (list vvp_bit4_t)) (l r : node) (x y : list vvp_bit4_t).

(** The vector code of a node pushes [x]. *)
Record draws (n : node) (x : list vvp_bit4_t) : Prop := {
  dr_vec : forall S, does (stack S) (draw_vec4 n) (stack (x :: S));
  dr_len : length x = ivl_expr_width (ex n);
  dr_fits : width_fits (ivl_expr_width (ex n));
  dr_number : forall a bits, ex n = IVL_EX_NUMBER a bits -> bits = x }.

Lemma dr_pos n x : draws n x -> (0 < length x)%nat.
Proof. intros H. rewrite (dr_len _ _ H). apply (dr_fits _ _ H). Qed.

Lemma does_resize e wid x fs rs S :
  length x = ivl_expr_width e -> (0 < length x)%nat ->
  does (Loc fs rs (x :: S)) (resize_vec4_wid e wid) (Loc fs rs (bv_pad (ivl_expr_signed e) wid x :: S)).
Proof using Hcode.
  intros Hl H0. unfold resize_vec4_wid. destruct (Nat.eqb_spec (ivl_expr_width e) wid) as [<-|_].
  - rewrite <- Hl, pad_same. apply does_ret.
  - destruct (ivl_expr_signed e); eapply does_unary; try done; intros v Hv; eexists; split; try done.
    + by apply pad_s_is.
    + by apply pad_u_is.
Qed.

(** An operand drawn and resized. *)
Lemma does_padded n x wid S :
  draws n x -> does (stack S) (draw_vec4 n;; resize_vec4_wid (ex n) wid) (stack (bv_pad (ivl_expr_signed (ex n)) wid x :: S)).
Proof using Hcode.
  intros H. eapply does_bind; [apply H|]. apply does_resize; [apply H|by eapply dr_pos].
Qed.

Lemma does_binary2 i g h x y S :
  target i = [] -> exec d i = binary g -> implements2 g h -> length x = length y -> (0 < length x)%nat ->
  does (stack (y :: x :: S)) (emit i) (stack (h x y :: S)).
Proof using Hcode. intros Ht Ei Hg Hl H0. eapply does_binary; [done|done|done|]. intros vl vr Hx Hy. by apply Hg. Qed.

Lemma does_unary1 i g h x S :
  target i = [] -> exec d i = unary g -> implements1 g h -> (0 < length x)%nat ->
  does (stack (x :: S)) (emit i) (stack (h x :: S)).
Proof using Hcode. intros Ht Ei Hg H0. eapply does_unary; [done|done|done|]. intros v Hx. by apply Hg. Qed.

Lemma immediate_number n x :
  draws n x -> test_immediate_vec4_ok (ex n) = true ->
  exists a, ex n = IVL_EX_NUMBER a x /\ length x = wid_of a /\ (0 < wid_of a)%nat.
Proof.
  intros H Ht. destruct (ex n) as [a bits| | | | | |] eqn:E; try done. exists a.
  rewrite <- (dr_number _ _ H _ _ E). pose proof (dr_len _ _ H) as Hl. rewrite E in Hl. pose proof (dr_fits _ _ H) as [Hf _].
  rewrite E in Hf. rewrite <- (dr_number _ _ H _ _ E) in Hl. done.
Qed.

(** ** Arithmetic *)

(** The instruction on the resized operands. *)
Definition arith_op (opcode : binary_op) (signed_flag : bool) : option instr :=
  match opcode with
  | b_add => Some ADD | b_sub => Some SUB | b_mul => Some MUL
  | b_div => Some (if signed_flag then DIV_S else DIV)
  | b_mod => Some (if signed_flag then MOD_S else MOD)
  | b_pow => Some (if signed_flag then POW_S else POW)
  | _ => None
  end.

Lemma does_arith_op opcode i (a : attr) le re x y S :
  arith_op opcode ((ivl_expr_signed le || match opcode with b_pow => true | _ => false end) && ivl_expr_signed re) = Some i ->
  binary_ok opcode a le re -> (0 < wid_of a)%nat -> (0 < length y)%nat ->
  let px := bv_pad (ivl_expr_signed le) (wid_of a) x in
  let py := match opcode with b_pow => y | _ => bv_pad (ivl_expr_signed re) (wid_of a) y end in
  does (stack (py :: px :: S)) (emit i) (stack (ev_binary opcode a le re x y :: S)).
Proof using Hcode.
  intros Ei Hok Hw Hy px py. assert (Lx : length px = wid_of a) by apply length_pad.
  destruct opcode; try done; injection Ei as <-; subst py; unfold ev_binary; fold px; rewrite ?orb_true_l, ?orb_true_r, ?orb_false_r;
    try (eapply does_binary2; [done|done| |by rewrite Lx, length_pad|by rewrite Lx];
         first [apply add_implements|apply sub_implements|apply mul_implements]).
  - cbn in Hok. destruct (_ && _); eapply does_binary; try done; intros vl vr Hl Hr;
      (apply div_s_implements || apply div_implements); rewrite ?Lx, ?length_pad; (done || lia).
  - destruct (_ && _); (eapply does_binary2; [done|done| |by rewrite Lx, length_pad|by rewrite Lx]).
    + apply (mod_implements true).
    + apply (mod_implements false).
  - rewrite andb_true_l. cbn in Hok.
    assert (H : forall vl vr, vec_is vl px -> vec_is vr y -> exists v, pow_vec4 (ivl_expr_signed re) vl vr = Some v /\
      vec_is v (bv_pow (ivl_expr_signed le) (ivl_expr_signed re) px y)).
    { intros vl vr Hl Hr. apply pow_implements; rewrite ?Lx; done. }
    destruct (ivl_expr_signed re); by eapply does_binary.
Qed.

Lemma arith_generic a opcode l r x y S :
  draws r y -> binary_ok opcode a (ex l) (ex r) -> width_fits (wid_of a) ->
  does (stack (bv_pad (ivl_expr_signed (ex l)) (wid_of a) x :: S))
    (draw_vec4 r;; (if match opcode with b_pow => true | _ => false end then mret tt else resize_vec4_wid (ex r) (wid_of a));;
     match arith_op opcode ((ivl_expr_signed (ex l) || match opcode with b_pow => true | _ => false end) && ivl_expr_signed (ex r)) with
     | Some i => emit i | None => stop end)
    (stack (ev_binary opcode a (ex l) (ex r) x y :: S)).
Proof using Hcode.
  intros Hr Hok [Hw _]. eapply does_bind; [apply Hr|].
  eapply (does_bind _ _ _ _ (stack ((match opcode with b_pow => y | _ => bv_pad (ivl_expr_signed (ex r)) (wid_of a) y end)
    :: bv_pad (ivl_expr_signed (ex l)) (wid_of a) x :: S))).
  - assert (Hpos : (0 < length y)%nat) by by eapply dr_pos.
    destruct opcode; first [apply does_ret|apply does_resize; [apply Hr|done]].
  - destruct (arith_op _ _) as [i|] eqn:Ei; [|apply does_stop]. apply does_arith_op; [done|done|done|by eapply dr_pos].
Qed.

Lemma draws_arith a opcode l r x y S :
  draws l x -> draws r y -> binary_ok opcode a (ex l) (ex r) -> width_fits (wid_of a) ->
  does (stack S) (draw_binary_vec4_arith a opcode l r) (stack (ev_binary opcode a (ex l) (ex r) x y :: S)).
Proof using Hcode.
  intros Hl Hr Hok Hw. unfold draw_binary_vec4_arith. eapply does_bind; [apply Hl|].
  eapply does_bind; [apply does_resize; [apply Hl|by eapply dr_pos]|].
  pose proof (arith_generic a opcode l r x y S Hr Hok Hw) as Hgen.
  destruct ((ivl_expr_width (ex r) =? wid_of a)%nat && test_immediate_vec4_ok (ex r)) eqn:Ei.
  - apply andb_true_iff in Ei as [Ew Ei]. apply Nat.eqb_eq in Ew.
    destruct (immediate_number r y Hr Ei) as (ra & Er & Ly & H0).
    assert (Py : bv_pad (ivl_expr_signed (ex r)) (wid_of a) y = y) by (rewrite <- Ew, <- (dr_len _ _ Hr); apply pad_same).
    assert (Wy : wid_of ra = wid_of a) by (by rewrite Er in Ew).
    destruct opcode; try exact Hgen; rewrite Er; apply does_immediate; try done; intros v0 vx Hv Hb; unfold ev_binary;
      rewrite Er in Py; rewrite Py; eapply does_binary_imm; try done; rewrite Hb; intros vl vr Vl Vr.
    + apply add_implements; rewrite ?length_pad; try done; lia.
    + apply sub_implements; rewrite ?length_pad; try done; lia.
    + apply mul_implements; rewrite ?length_pad; try done; lia.
  - destruct opcode; exact Hgen.
Qed.

(** ** Bitwise operators *)

Lemma draws_bitwise a opcode l r x y S :
  draws l x -> draws r y -> length x = length y -> In opcode [b_and; b_or; b_xor; b_nand; b_nor; b_xnor] ->
  does (stack S) (draw_binary_vec4_bitwise opcode l r) (stack (ev_binary opcode a (ex l) (ex r) x y :: S)).
Proof using Hcode.
  intros Hl Hr Hlen Hin. assert (H0 : (0 < length x)%nat) by by eapply dr_pos.
  unfold draw_binary_vec4_bitwise. eapply does_bind; [apply Hl|]. eapply does_bind; [apply Hr|].
  destruct opcode; try (exfalso; cbn in Hin; intuition discriminate); unfold ev_binary; eapply does_binary2; try done;
    first [apply and_implements|apply or_implements|apply bit_loop_implements].
Qed.

Lemma draws_lequiv a l r x y S :
  draws l x -> draws r y -> length x = length y ->
  does (stack S) (draw_binary_vec4_lequiv a l r) (stack (ev_binary b_lequiv a (ex l) (ex r) x y :: S)).
Proof using Hcode.
  intros Hl Hr Hlen. assert (H0 : (0 < length x)%nat) by by eapply dr_pos. unfold draw_binary_vec4_lequiv.
  eapply does_bind; [apply does_assert|]. eapply does_bind; [apply Hl|]. eapply does_bind; [apply does_assert|].
  eapply does_bind; [apply Hr|]. eapply does_bind; [|apply does_assert]. eapply does_binary2; try done. apply bit_loop_implements.
Qed.

(** ** Equality *)

Definition cmpe_flags (ne : bool) x y : list (nat * vvp_bit4_t) :=
  let eqs := [(6, bv_eeq x y); (4, bv_eq x y)]%nat in
  if ne then [(6, bit4_not (bv_eeq x y)); (4, bit4_not (bv_eq x y))]%nat ++ eqs else eqs.

Lemma inv_flag_put k b thr : wf_thread thr -> (k < 8)%nat -> get_flag thr k = Some b ->
  inv_flag k thr = Some (put_flag k (bit4_not b) thr).
Proof. intros Hw Hk Hg. unfold inv_flag. rewrite Hg. cbn [mbind option_bind]. apply set_flag_wf; [done|by apply flag_lt_8]. Qed.

Lemma do_CMP_is (ne : bool) vl vr x y thr :
  vec_is vl x -> vec_is vr y -> length x = length y -> (0 < length x)%nat -> wf_thread thr ->
  (if ne then do_CMPNE else do_CMPE) vl vr thr = Some (put_flags (cmpe_flags ne x y) thr).
Proof.
  intros Hx Hy Hl H0 Hw. destruct ne; [|by apply (do_CMPE_is vl vr)].
  unfold do_CMPNE. rewrite (do_CMPE_is vl vr x y) by done. cbn [mbind option_bind].
  rewrite (inv_flag_put 4 (bv_eq x y)); [|auto with thread|lia|].
  2:{ rewrite get_put_flag by (auto with thread || small_flag). cbn [Nat.eqb]. rewrite get_put_flag by (auto with thread || small_flag). done. }
  cbn [mbind option_bind]. rewrite (inv_flag_put 6 (bv_eeq x y)); [done|auto with thread|lia|].
  rewrite get_put_flag by (auto with thread || small_flag). cbn [Nat.eqb]. rewrite get_put_flag by (auto with thread || small_flag). done.
Qed.

Lemma small_cmpe ne x y : small (cmpe_flags ne x y).
Proof. destruct ne; repeat constructor. Qed.

Lemma does_cmpe (ne : bool) x y S :
  length x = length y -> (0 < length x)%nat ->
  does (stack (y :: x :: S)) (emit (if ne then CMPNE else CMPE)) (Loc (cmpe_flags ne x y) [] S).
Proof using Hcode.
  intros Hl H0. pose proof (does_compare d prog code Hcode (if ne then CMPNE else CMPE) (if ne then do_CMPNE else do_CMPE)
    x y (cmpe_flags ne x y) [] [] S) as H. rewrite app_nil_r in H. apply H; [by destruct ne|by destruct ne|apply small_cmpe|].
  intros. by apply do_CMP_is.
Qed.

Lemma does_cmpie (ne : bool) x v0 vx y S :
  length x = length y -> (0 < length x)%nat -> 0 <= v0 < 2 ^ 32 -> imm_bits v0 vx (length y) = y ->
  does (stack (x :: S)) (emit ((if ne then CMPINE else CMPIE) v0 vx (length y))) (Loc (cmpe_flags ne x y) [] S).
Proof using Hcode.
  intros Hl H0 Hv Hb. pose proof (does_compare_imm d prog code Hcode ((if ne then CMPINE else CMPIE) v0 vx (length y))
    (if ne then do_CMPNE else do_CMPE) x v0 vx (length y) (cmpe_flags ne x y) [] [] S) as H. rewrite app_nil_r in H.
  apply H; [by destruct ne|by destruct ne|apply small_cmpe|lia|done|]. rewrite Hb. intros. by apply do_CMP_is.
Qed.

Lemma does_cmpwe (ne : bool) x y S :
  length x = length y -> (0 < length x)%nat ->
  does (stack (y :: x :: S)) (emit (if ne then CMPWNE else CMPWE))
    (Loc ((if ne then [(4, bit4_not (bv_weq x y))] else []) ++ [(4, bv_weq x y)])%nat [] S).
Proof using Hcode.
  intros Hl H0. set (fs := (if ne then _ else _) ++ _).
  pose proof (does_compare d prog code Hcode (if ne then CMPWNE else CMPWE) (if ne then do_CMPWNE else do_CMPWE) x y fs [] [] S) as H.
  rewrite app_nil_r in H. apply H; [by destruct ne|by destruct ne|subst fs; destruct ne; repeat constructor|].
  intros vl vr thr Hx Hy Hw. subst fs. destruct ne; [|by apply (do_CMPWE_is vl vr)].
  unfold do_CMPWNE. rewrite (do_CMPWE_is vl vr x y) by done. cbn [mbind option_bind]. rewrite (inv_flag_put 4 (bv_weq x y)); [done|auto with thread|lia|].
  by rewrite get_put_flag by (auto with thread || small_flag).
Qed.

Lemma max_width_pos le re : (0 < ivl_expr_width le)%nat -> (0 < max_width le re)%nat.
Proof. unfold max_width. destruct (Nat.ltb_spec (ivl_expr_width le) (ivl_expr_width re)); lia. Qed.

Lemma max_width_comm le re : max_width le re = max_width re le.
Proof.
  unfold max_width.
  destruct (Nat.ltb_spec (ivl_expr_width le) (ivl_expr_width re)), (Nat.ltb_spec (ivl_expr_width re) (ivl_expr_width le)); lia.
Qed.

Lemma does_operands l r x y S wid :
  draws l x -> draws r y ->
  forall k L', does (stack (bv_pad (ivl_expr_signed (ex r)) wid y :: bv_pad (ivl_expr_signed (ex l)) wid x :: S)) k L' ->
  does (stack S) (draw_vec4 l;; resize_vec4_wid (ex l) wid;; draw_vec4 r;; resize_vec4_wid (ex r) wid;; k) L'.
Proof using Hcode.
  intros Hl Hr k L' Hk. eapply does_bind; [apply Hl|].
  eapply does_bind; [apply does_resize; [apply Hl|by eapply dr_pos]|]. eapply does_bind; [apply Hr|].
  eapply does_bind; [apply does_resize; [apply Hr|by eapply dr_pos]|]. done.
Qed.

Lemma does_get_forget fs b k S :
  small fs -> (forall f, put_all fs f !! k = Some b) -> does (Loc fs [] S) (emit (FLAG_GET_VEC4 k)) (stack ([b] :: S)).
Proof using Hcode. intros Hs Hb. apply (does_forget _ _ _ _ fs); [done|]. by apply does_flag_get. Qed.

Lemma draws_compare a opcode l r x y S :
  draws l x -> draws r y -> In opcode [b_eq; b_eeq; b_ne; b_nee; b_weq; b_wne] ->
  does (stack S) (draw_binary_vec4_compare opcode l r) (stack (ev_binary opcode a (ex l) (ex r) x y :: S)).
Proof using Hcode.
  intros Hl Hr Hin. unfold draw_binary_vec4_compare. eapply does_operands; [done|done|].
  set (px := bv_pad (ivl_expr_signed (ex l)) _ x). set (py := bv_pad (ivl_expr_signed (ex r)) _ y).
  assert (Hlen : length px = length py) by (unfold px, py; by rewrite !length_pad).
  assert (Hpos : (0 < length px)%nat) by (unfold px; rewrite length_pad; apply max_width_pos, (dr_fits _ _ Hl)).
  assert (Heq : forall (ne : bool) k b, (forall f, put_all (cmpe_flags ne px py) f !! k = Some b) ->
    does (stack (py :: px :: S)) (emit (if ne then CMPNE else CMPE);; emit (FLAG_GET_VEC4 k)) (stack ([b] :: S))).
  { intros ne k b Hb. eapply does_bind; [by apply does_cmpe|]. apply does_get_forget; [apply small_cmpe|done]. }
  assert (Hweq : forall ne : bool, does (stack (py :: px :: S)) (emit (if ne then CMPWNE else CMPWE);; emit (FLAG_GET_VEC4 4))
     (stack ([if ne then bit4_not (bv_weq px py) else bv_weq px py] :: S))).
  { intros ne. eapply does_bind; [by apply does_cmpwe|].
    apply does_get_forget; [destruct ne; repeat constructor|destruct ne; known]. }
  destruct opcode; try (exfalso; cbn in Hin; intuition discriminate); unfold ev_binary, one_bit; fold px py.
  - apply (Heq false). unfold cmpe_flags. known.
  - apply (Heq true). unfold cmpe_flags. known.
  - apply (Heq false). unfold cmpe_flags. known.
  - apply (Heq true). unfold cmpe_flags. known.
  - apply (Hweq false).
  - apply (Hweq true).
Qed.
End Draw.
