(* ===== verification/CodeGenCondition.v ===== *)
(** Magnitude comparisons, logical operators, and the code of conditions, which leaves its
    result in a flag. *)
From S2P Require Import Prelude MachineWord VvpBit VvpVector4 VvpSlice WordArith VvpArith VvpVector2 VvpCompare.
From S2P Require Import BitList VvpFunctor WordDiv VThread VThreadSpec VThreadParts VThreadIndex VThreadDiv.
From S2P Require Import VThreadMod CodeGen ExprSpec CodeGenRun CodeGenOps CodeGenAlloc ExprFacts.
From S2P Require Import CodeGenDraw.

(** A flag that holds the result: one of the eight scratch flags, or a new one. *)
Definition taken (s : cg) (k : nat) (s' : cg) : Prop := ((k < 8)%nat /\ same_used s s') \/ adds_flag s k s'.

Lemma taken_range s k s' : taken s k s' -> (k < FLAGS_COUNT)%nat.
Proof. intros [[H _]|H]; [by apply flag_lt_8|apply (af_range _ _ _ H)]. Qed.

Lemma adds_flag_same s k s1 s2 : adds_flag s k s1 -> same_used s1 s2 -> adds_flag s k s2.
Proof. intros [A B C D] [F G]. split; [done|done| |]; intros j; [by rewrite F, C|by rewrite G, D]. Qed.

Lemma same_adds_flag s s1 k s2 : same_used s s1 -> adds_flag s1 k s2 -> adds_flag s k s2.
Proof. intros [F G] [A B C D]. split; [done|by rewrite <- F| |]; intros j; [by rewrite C, F|by rewrite D, G]. Qed.

Lemma same_taken s s1 k s2 : same_used s s1 -> taken s1 k s2 -> taken s k s2.
Proof.
  intros H [[Hk H']|H']; [left|right]; [split; [done|by eapply same_trans]|by eapply same_adds_flag].
Qed.

Lemma covered_adds_flag s k s' f r S b :
  adds_flag s k s' -> covered s (Know f r S) -> covered s' (Know (<[k := b]> f) r S) /\ covered s' (Know f r S).
Proof.
  intros [A B C D] [CF CR].
  assert (Hf : forall j c, f !! j = Some c -> (8 <= j)%nat /\ flag_used s' j = true).
  { intros j c Hj. destruct (CF j c Hj) as [H1 H2]. split; [done|]. by rewrite C, H2. }
  assert (Hr : forall j c, r !! j = Some c -> word_used s' j = true) by (intros j c Hj; rewrite D; by apply (CR j c)).
  split; split; try done. intros j c. cbn [kf]. destruct (decide (j = k)) as [->|Hne].
  - intros _. split; [lia|]. rewrite C, Nat.eqb_refl. apply orb_true_r.
  - rewrite lookup_insert_ne by done. apply Hf.
Qed.

(** Nothing is known of a flag that is not allocated. *)
Lemma unknown_free s f r S k : covered s (Know f r S) -> (k < 8)%nat \/ flag_used s k = false -> f !! k = None.
Proof.
  intros [CF _] Hk. destruct (f !! k) as [b|] eqn:E; [|done]. destruct (CF k b E) as [H1 H2].
  destruct Hk as [H|H]; [lia|congruence].
Qed.

Lemma taken_free s k s' f r S : covered s (Know f r S) -> taken s k s' -> f !! k = None.
Proof. intros Hc [[H _]|H]; eapply unknown_free; try done; [by left|right; apply (af_free _ _ _ H)]. Qed.

Section Condition.
Context (d : design) (prog : list line) (code : list instr).
Context (Hcode : assemble prog = Some code).
Local Abbreviation does := (does d prog code).
Local Abbreviation gens := (gens d prog code).
Local Abbreviation draws := (draws d prog code).
Implicit Types (S : list (list vvp_bit4_t)) (l r : node) (x y : list vvp_bit4_t).

(** [m] leads from [L] to a flag with the value [b] and the stack [S]. *)
Definition finds (L : loc) (m : M nat) (S : list (list vvp_bit4_t)) (b : vvp_bit4_t) : Prop :=
  forall s f (rs : gmap nat Z), covered s (Know f rs []) ->
    gens s (extend f rs L) m (fun k s' => taken s k s') (fun k => Know (<[k := b]> f) rs S).

Lemma finds_bind L L1 m k S b : does L m L1 -> finds L1 k S b -> finds L (m;; k) S b.
Proof.
  intros Hm Hk s f r Hc. eapply gens_bind; [by apply Hm|]. intros [] s1 H1 j ls s' Hwf E. cbn beta.
  destruct (Hk s1 f r (covered_same _ _ _ H1 Hc) j ls s' Hwf E) as (? & ? & ? & ?).
  split_and!; [done|by eapply same_taken|done..].
Qed.

Lemma finds_ret fs k S b :
  (k < 8)%nat -> small fs -> (forall f, put_all fs f !! k = Some b) -> finds (Loc fs [] S) (mret k) S b.
Proof.
  intros Hk Hs Hb s f r Hc. apply gens_ret; [by left|]. destruct (small_weaker _ _ _ _ S Hc Hs) as [Hf Hr Hst].
  split; [|done|done]. cbn [kf extend lf] in *. apply insert_subseteq_l; [apply Hb|done].
Qed.

(** ** Magnitude comparisons *)

Definition mag_flags (s : bool) x y : list (nat * vvp_bit4_t) :=
  [(6, bv_eeq x y); (5, bv_lt s x y); (4, eq_flag s x y)]%nat.

Lemma small_mag s x y : small (mag_flags s x y). Proof. repeat constructor. Qed.

Lemma do_mag_is (s : bool) vl vr x y thr :
  vec_is vl x -> vec_is vr y -> length x = length y -> (0 < length x)%nat -> wf_thread thr ->
  (if s then do_CMPS else do_CMPU) vl vr thr = Some (put_flags (mag_flags s x y) thr).
Proof. intros. destruct s; [by apply (do_CMPS_is vl vr)|by apply (do_CMPU_is vl vr)]. Qed.

Lemma does_magnitude (s : bool) l r x y S :
  draws l x -> draws r y ->
  does (stack S) (draw_magnitude s l r)
    (Loc (mag_flags s (bv_pad (ivl_expr_signed (ex l)) (max_width (ex l) (ex r)) x)
                      (bv_pad (ivl_expr_signed (ex r)) (max_width (ex l) (ex r)) y)) [] S).
Proof using Hcode.
  intros Hl Hr. unfold draw_magnitude. set (wid := max_width (ex l) (ex r)).
  set (px := bv_pad (ivl_expr_signed (ex l)) wid x). set (py := bv_pad (ivl_expr_signed (ex r)) wid y).
  assert (Hlen : length px = length py) by (unfold px, py; by rewrite !length_pad).
  assert (Hpos : (0 < length px)%nat) by (unfold px; rewrite length_pad; apply max_width_pos, (dr_fits _ _ _ _ _ Hl)).
  eapply does_bind; [apply Hl|]. eapply does_bind; [apply does_resize; [done|apply Hl|by eapply dr_pos]|]. fold px.
  destruct ((ivl_expr_width (ex r) =? wid)%nat && test_immediate_vec4_ok (ex r)) eqn:Ei.
  - apply andb_true_iff in Ei as [Ew Ei]. apply Nat.eqb_eq in Ew.
    destruct (immediate_number _ _ _ r y Hr Ei) as (ra & Er & Ly & H0).
    assert (Py : py = y) by (unfold py; rewrite <- Ew, <- (dr_len _ _ _ _ _ Hr); apply pad_same).
    rewrite Er. apply does_immediate; [done|]. intros v0 vx Hv Hb. rewrite <- Ly in *.
    pose proof (does_compare_imm d prog code Hcode ((if s then CMPIS else CMPIU) v0 vx (length y))
      (if s then do_CMPS else do_CMPU) px v0 vx (length y) (mag_flags s px py) [] [] S) as H. rewrite app_nil_r in H.
    apply H; [by destruct s|by destruct s|apply small_mag|done|done|]. rewrite Hb. intros. rewrite Py. apply do_mag_is; try done.
    by rewrite Hlen, Py.
  - eapply does_bind; [apply Hr|]. eapply does_bind; [apply does_resize; [done|apply Hr|by eapply dr_pos]|]. fold py.
    pose proof (does_compare d prog code Hcode (if s then CMPS else CMPU) (if s then do_CMPS else do_CMPU)
      px py (mag_flags s px py) [] [] S) as H. rewrite app_nil_r in H.
    apply H; [by destruct s|by destruct s|apply small_mag|]. intros. by apply do_mag_is.
Qed.

Lemma draws_le a opcode l r x y S :
  draws l x -> draws r y -> In opcode [b_ge; b_le; b_gt; b_lt] ->
  does (stack S) (draw_binary_vec4_le opcode l r) (stack (ev_binary opcode a (ex l) (ex r) x y :: S)).
Proof using Hcode.
  intros Hl Hr Hin. unfold draw_binary_vec4_le. set (s := ivl_expr_signed (ex l) && ivl_expr_signed (ex r)).
  assert (Hlt : forall n1 n2 x1 x2, draws n1 x1 -> draws n2 x2 ->
    let p1 := bv_pad (ivl_expr_signed (ex n1)) (max_width (ex n1) (ex n2)) x1 in
    let p2 := bv_pad (ivl_expr_signed (ex n2)) (max_width (ex n1) (ex n2)) x2 in
    does (stack S) (draw_magnitude s n1 n2;; emit (FLAG_GET_VEC4 5)) (stack (one_bit (bv_lt s p1 p2) :: S)) /\
    does (stack S) (draw_magnitude s n1 n2;; emit (FLAG_GET_VEC4 4);; emit (FLAG_GET_VEC4 5);; emit OR)
      (stack (one_bit (bv_le s p1 p2) :: S))).
  { intros n1 n2 x1 x2 H1 H2 p1 p2. split.
    - eapply does_bind; [by apply does_magnitude|]. apply does_get_forget; [done|apply small_mag|]. unfold mag_flags. known.
    - eapply does_bind; [by apply does_magnitude|]. eapply does_bind; [apply (does_flag_get _ _ _ Hcode 4 (eq_flag s p1 p2)); unfold mag_flags; known|].
      eapply does_bind; [apply (does_flag_get _ _ _ Hcode 5 (bv_lt s p1 p2)); unfold mag_flags; known|].
      apply does_forget_first; [apply small_mag|]. unfold one_bit. rewrite <- or_le.
      + apply (does_binary2 _ _ _ Hcode OR (fun vl vr => Some (or_assign vl vr)) (bv_map2 bit4_or) [_] [_]); [done|done|apply or_implements|done|cbn; lia].
      + unfold p1, p2. by rewrite !length_pad.
      + unfold p1. rewrite length_pad. apply max_width_pos, (dr_fits _ _ _ _ _ H1). }
  destruct (Hlt l r x y Hl Hr) as [A1 A2]. destruct (Hlt r l y x Hr Hl) as [B1 B2]. rewrite max_width_comm in B1, B2.
  destruct opcode; try (exfalso; cbn in Hin; intuition discriminate); unfold ev_binary; fold s; try done.
Qed.

(** ** Logical operators *)

Lemma does_reduce n x :
  draws n x -> exists b, norm b = truth x /\ forall S, does (stack (x :: S)) (reduce_or (ex n)) (stack ([b] :: S)).
Proof using Hcode.
  intros Hn. unfold reduce_or. destruct (Nat.ltb_spec 1 (ivl_expr_width (ex n))) as [Hw|Hw].
  - exists (truth x). split; [apply norm_truth|]. intros S.
    apply (does_unary1 _ _ _ Hcode ORR (reduction (control_bit BIT4_1 BIT4_0 BIT4_1) BIT4_0) (bv_reduce_with bit4_or BIT4_0)); [done|done|apply orr_implements|by eapply dr_pos].
  - destruct (length_one x) as [b ->]; [rewrite (dr_len _ _ _ _ _ Hn); pose proof (dr_fits _ _ _ _ _ Hn) as [? _]; lia|].
    exists b. split; [done|]. intros S. apply does_ret.
Qed.

Lemma does_logical (g : vvp_bit4_t -> vvp_bit4_t -> vvp_bit4_t) h op a l r x y S :
  target op = [] -> exec d op = binary h -> implements2 h (bv_map2 g) ->
  (forall b c, g (norm b) (norm c) = g b c) -> draws l x -> draws r y -> (0 < wid_of a)%nat ->
  does (stack S) (draw_binary_vec4_logical op a l r) (stack (bv_pad false (wid_of a) (one_bit (g (truth x) (truth y))) :: S)).
Proof using Hcode.
  intros Ht Ei Hh Hg Hl Hr Hw. unfold draw_binary_vec4_logical.
  destruct (does_reduce l x Hl) as (b & Nb & Db). destruct (does_reduce r y Hr) as (c & Nc & Dc).
  eapply does_bind; [apply Hl|]. eapply does_bind; [apply Db|]. eapply does_bind; [apply Hr|]. eapply does_bind; [apply Dc|].
  rewrite <- Nb, <- Nc, Hg.
  eapply does_bind; [apply (does_binary2 _ _ _ Hcode op h (bv_map2 g) [b] [c]); [done|done|done|done|cbn; lia]|].
  change (bv_map2 g [b] [c]) with [g b c]. destruct (Nat.ltb_spec 1 (wid_of a)) as [H1|H1].
  - eapply does_unary; [done|done|done|]. intros v Hv. eexists. split; [done|]. by apply pad_u_is.
  - replace (wid_of a) with 1%nat by lia. apply does_ret.
Qed.

Lemma draws_land a l r x y S :
  draws l x -> draws r y -> (0 < wid_of a)%nat ->
  does (stack S) (draw_binary_vec4_land a l r) (stack (ev_binary b_land a (ex l) (ex r) x y :: S)).
Proof using Hcode. intros. eapply does_logical; try done; [apply and_implements|apply and_norm]. Qed.
Lemma draws_lor a l r x y S :
  draws l x -> draws r y -> (0 < wid_of a)%nat ->
  does (stack S) (draw_binary_vec4_lor a l r) (stack (ev_binary b_lor a (ex l) (ex r) x y :: S)).
Proof using Hcode. intros. eapply does_logical; try done; [apply or_implements|apply or_norm]. Qed.

(** ** Conditions *)

(** The condition code of a node leaves a flag that tells the truth of [x]. *)
Definition decides (m : M nat) (x : list vvp_bit4_t) : Prop :=
  exists b, norm b = truth x /\ forall S, finds (stack S) m S b.

Lemma decides_bit (m : M nat) b : (forall S, finds (stack S) m S b) -> decides m (one_bit b).
Proof. intros H. by exists b. Qed.

Lemma does_flag_set k x fs rs S :
  (k < FLAGS_COUNT)%nat -> does (Loc fs rs (x :: S)) (emit (FLAG_SET_VEC4 k)) (Loc ((k, nth 0 x BIT4_X) :: fs) rs S).
Proof using Hcode.
  intros Hk. apply does_instr; [done|done|]. intros f r thr H. destruct (holds_top _ _ _ _ _ H) as (v & st & E & Hv & Hst).
  exists (with_stack (put_flag k (nth 0 x BIT4_X) thr) st). cbn [exec]. unfold of_FLAG_SET_VEC4, peek_vec4. rewrite E.
  cbn [lookup list_lookup mbind option_bind]. rewrite set_flag_wf, (vec_is_value _ _ _ Hv) by (done || apply H). cbn [mbind option_bind].
  unfold pop_vec4_n. cbn [put_flag stack_vec4_]. rewrite E. split_and!; [done|done|].
  eapply holds_stack; [by apply holds_put_flag|done].
Qed.

Lemma decides_fallback n x : draws n x -> decides (draw_condition_fallback n) x.
Proof using Hcode.
  intros Hn. destruct (does_reduce n x Hn) as (b & Nb & Db). exists b. split; [done|]. intros S s f r Hc k ls s' Hwf E.
  unfold draw_condition_fallback, mbind at 1, M_bind at 1 in E.
  destruct (allocate_flag s) as [[[k0 l0] s1]|] eqn:E0; [|done].
  destruct (allocate_flag_spec _ _ _ _ Hwf E0) as (-> & W1 & C1 & Ha).
  assert (Hdo : does (stack S) (draw_vec4 n;; reduce_or (ex n);; emit (FLAG_SET_VEC4 k0)) (Loc [(k0, b)] [] S)).
  { eapply does_bind; [apply Hn|]. eapply does_bind; [apply Db|]. apply (does_flag_set k0 [b]). apply (af_range _ _ _ Ha). }
  unfold mbind, M_bind in E. destruct (draw_vec4 n s1) as [[[[] l1] s2]|] eqn:E1; [|done].
  destruct (reduce_or (ex n) s2) as [[[[] l2] s3]|] eqn:E2; [|done].
  cbn in E. injection E as <- <- <-.
  destruct (Hdo s1 f r (proj2 (covered_adds_flag _ _ _ _ _ _ BIT4_0 Ha Hc)) tt (l1 ++ l2 ++ [Instr (FLAG_SET_VEC4 k0)]) s3 W1) as (W3 & S3 & T3 & R3).
  { unfold mbind, M_bind. by rewrite E1, E2. }
  split_and!; [done|right; by eapply adds_flag_same| |done].
  destruct T3 as [A1 A2 A3 A4]. split; [lia| |done|done]. intros j Hj. specialize (A2 j Hj). lia.
Qed.

(** An equality test of two operands, the second one immediate where it can be. *)
Lemma does_equality (ne : bool) l r x y wid S :
  draws l x -> draws r y -> (0 < wid)%nat ->
  does (stack S)
    (draw_vec4 l;; resize_vec4_wid (ex l) wid;;
     (if (ivl_expr_width (ex r) =? wid)%nat && test_immediate_vec4_ok (ex r)
      then draw_immediate_vec4 (ex r) (if ne then CMPINE else CMPIE)
      else draw_vec4 r;; resize_vec4_wid (ex r) wid;; emit (if ne then CMPNE else CMPE)))
    (Loc (cmpe_flags ne (bv_pad (ivl_expr_signed (ex l)) wid x) (bv_pad (ivl_expr_signed (ex r)) wid y)) [] S).
Proof using Hcode.
  intros Hl Hr H0. set (px := bv_pad (ivl_expr_signed (ex l)) wid x). set (py := bv_pad (ivl_expr_signed (ex r)) wid y).
  assert (Lx : length px = wid) by apply length_pad. assert (Ly : length py = wid) by apply length_pad.
  eapply does_bind; [apply Hl|]. eapply does_bind; [apply does_resize; [done|apply Hl|by eapply dr_pos]|]. fold px.
  destruct ((ivl_expr_width (ex r) =? wid)%nat && test_immediate_vec4_ok (ex r)) eqn:Ei.
  - apply andb_true_iff in Ei as [Ew Ei]. apply Nat.eqb_eq in Ew.
    destruct (immediate_number _ _ _ r y Hr Ei) as (ra & Er & Lr & _).
    assert (Py : py = y) by (unfold py; rewrite <- Ew, <- (dr_len _ _ _ _ _ Hr); apply pad_same).
    rewrite Er. apply does_immediate; [done|]. intros v0 vx Hv Hb. rewrite Py. rewrite <- Lr in *.
    apply does_cmpie; [done|rewrite <- Py; lia|lia|done|done].
  - eapply does_bind; [apply Hr|]. eapply does_bind; [apply does_resize; [done|apply Hr|by eapply dr_pos]|]. fold py.
    apply does_cmpe; [done|lia|lia].
Qed.

Lemma M_assoc3 {A} (m1 m2 m3 : M unit) (k : M A) s : (m1;; m2;; m3;; k) s = ((m1;; m2;; m3);; k) s.
Proof.
  unfold mbind, M_bind. destruct (m1 s) as [[[[] l1] s1]|]; [|done]. destruct (m2 s1) as [[[[] l2] s2]|]; [|done].
  destruct (m3 s2) as [[[[] l3] s3]|]; [|done]. destruct (k s3) as [[[a l4] s4]|]; [|done]. by rewrite !app_assoc.
Qed.

Lemma finds_ext L (m m' : M nat) S b : (forall s, m' s = m s) -> finds L m S b -> finds L m' S b.
Proof. intros E H s f r Hc a ls s' Hwf E'. rewrite E in E'. exact (H s f r Hc _ _ _ Hwf E'). Qed.

Lemma decides_compare a opcode l r x y :
  draws l x -> draws r y -> In opcode [b_eq; b_eeq; b_ne; b_nee] ->
  decides (draw_condition_binary_compare opcode l r) (ev_binary opcode a (ex l) (ex r) x y).
Proof using Hcode.
  intros Hl Hr Hin. unfold draw_condition_binary_compare.
  assert (Hw : (0 < max_width (ex l) (ex r))%nat) by (apply max_width_pos, (dr_fits _ _ _ _ _ Hl)).
  set (px := bv_pad (ivl_expr_signed (ex l)) (max_width (ex l) (ex r)) x).
  set (py := bv_pad (ivl_expr_signed (ex r)) (max_width (ex l) (ex r)) y).
  set (ne := match opcode with b_ne | b_nee => true | _ => false end).
  set (k := match opcode with b_nee | b_eeq => 6%nat | _ => 4%nat end).
  set (b := match opcode with b_eq => bv_eq px py | b_ne => bit4_not (bv_eq px py)
            | b_eeq => bv_eeq px py | _ => bit4_not (bv_eeq px py) end).
  assert (Hret : forall qx qy S, (qx = px /\ qy = py) \/ (qx = py /\ qy = px) ->
    finds (Loc (cmpe_flags ne qx qy) [] S) (match opcode with b_ne | b_eq => mret 4%nat | b_nee | b_eeq => mret 6%nat | _ => stop end) S b).
  { intros qx qy S HQ. assert (Hk : finds (Loc (cmpe_flags ne qx qy) [] S) (mret k) S b).
    { assert (EQ : bv_eq qx qy = bv_eq px py /\ bv_eeq qx qy = bv_eeq px py).
      { destruct HQ as [[-> ->]|[-> ->]]; [done|]. split; [apply eq_sym_bits|apply eeq_sym_bits]. unfold px, py. by rewrite !length_pad. }
      destruct EQ as [E1 E2]. apply finds_ret; [subst k; destruct opcode; lia|apply small_cmpe|].
      subst k ne b. unfold cmpe_flags. destruct opcode; try (exfalso; cbn in Hin; intuition discriminate); rewrite E1, E2; known. }
    subst k. destruct opcode; try (exfalso; cbn in Hin; intuition discriminate); exact Hk. }
  assert (Hev : ev_binary opcode a (ex l) (ex r) x y = one_bit b).
  { unfold ev_binary. fold px py. subst b. by destruct opcode; try (exfalso; cbn in Hin; intuition discriminate). }
  rewrite Hev. apply decides_bit. intros S.
  destruct (_ && _); cbv beta iota; (eapply finds_ext; [intros s0; apply M_assoc3|]); eapply finds_bind.
  - by apply does_equality.
  - apply Hret. by right.
  - by apply does_equality.
  - apply Hret. by left.
Qed.

Lemma decides_le a opcode l r x y :
  draws l x -> draws r y -> In opcode [b_lt; b_gt; b_le; b_ge] ->
  decides (draw_condition_binary_le opcode l r) (ev_binary opcode a (ex l) (ex r) x y).
Proof using Hcode.
  intros Hl Hr Hin. unfold draw_condition_binary_le. set (s := ivl_expr_signed (ex l) && ivl_expr_signed (ex r)).
  assert (Hmag : forall n1 n2 x1 x2 op S, draws n1 x1 -> draws n2 x2 -> In op [b_lt; b_gt; b_le; b_ge] ->
    let p1 := bv_pad (ivl_expr_signed (ex n1)) (max_width (ex n1) (ex n2)) x1 in
    let p2 := bv_pad (ivl_expr_signed (ex n2)) (max_width (ex n1) (ex n2)) x2 in
    finds (stack S) (draw_magnitude s n1 n2;;
      match op with
      | b_gt => emit (FLAG_OR 5 4);; emit (FLAG_INV 5);; mret 5%nat
      | b_ge => emit (FLAG_INV 5);; mret 5%nat
      | b_lt => mret 5%nat
      | b_le => emit (FLAG_OR 5 4);; mret 5%nat
      | _ => stop
      end) S (match op with b_gt => bv_lt s p2 p1 | b_ge => bv_le s p2 p1 | b_lt => bv_lt s p1 p2 | _ => bv_le s p1 p2 end)).
  { intros n1 n2 x1 x2 op S H1 H2 Hop p1 p2. eapply finds_bind; [by apply does_magnitude|]. fold p1 p2.
    assert (Hle : bit4_or (bv_lt s p1 p2) (eq_flag s p1 p2) = bv_le s p1 p2).
    { rewrite <- or_le; [by destruct (bv_lt _ _ _), (eq_flag _ _ _)|unfold p1, p2; by rewrite !length_pad|].
      unfold p1. rewrite length_pad. apply max_width_pos, (dr_fits _ _ _ _ _ H1). }
    assert (Hor : forall S', does (Loc (mag_flags s p1 p2) [] S') (emit (FLAG_OR 5 4)) (Loc ((5%nat, bv_le s p1 p2) :: mag_flags s p1 p2) [] S')).
    { intros S'. rewrite <- Hle. apply does_flag_or; [done|small_flag| |]; unfold mag_flags; known. }
    destruct op; try (exfalso; cbn in Hop; intuition discriminate).
    - apply finds_ret; [lia|apply small_mag|unfold mag_flags; known].
    - eapply finds_bind; [apply Hor|]. apply finds_ret; [lia|repeat constructor|known].
    - eapply finds_bind; [apply Hor|]. eapply finds_bind; [apply (does_flag_inv _ _ _ Hcode 5 (bv_le s p1 p2)); [small_flag|known]|].
      apply finds_ret; [lia|repeat constructor|]. rewrite lt_le. known.
    - eapply finds_bind; [apply (does_flag_inv _ _ _ Hcode 5 (bv_lt s p1 p2)); [small_flag|unfold mag_flags; known]|].
      apply finds_ret; [lia|repeat constructor|]. rewrite le_lt. known. }
  destruct opcode; try (exfalso; cbn in Hin; intuition discriminate); unfold ev_binary; fold s; apply decides_bit; intros S;
    (destruct (test_immediate_vec4_ok (ex l) && negb (test_immediate_vec4_ok (ex r)));
     [|destruct (negb (test_immediate_vec4_ok (ex r)))]); cbv beta iota;
    rewrite ?(max_width_comm (ex l) (ex r)); 
    first [apply (Hmag r l y x b_le S); [done|done|cbn; tauto]
          |apply (Hmag r l y x b_ge S); [done|done|cbn; tauto]
          |apply (Hmag r l y x b_lt S); [done|done|cbn; tauto]
          |apply (Hmag r l y x b_gt S); [done|done|cbn; tauto]
          |rewrite (max_width_comm (ex r) (ex l));
           first [apply (Hmag l r x y b_le S); [done|done|cbn; tauto]
                 |apply (Hmag l r x y b_ge S); [done|done|cbn; tauto]
                 |apply (Hmag l r x y b_lt S); [done|done|cbn; tauto]
                 |apply (Hmag l r x y b_gt S); [done|done|cbn; tauto]]].
Qed.
End Condition.
