(* ===== verification/CodeGenFlow.v ===== *)
(** The code with jumps and allocated flags: [||] in a condition, the ternary operator and
    the absolute value. *)
From S2P Require Import Prelude MachineWord VvpBit VvpVector4 VvpSlice WordArith VvpArith VvpVector2 VvpCompare.
From S2P Require Import BitList VvpFunctor WordDiv VThread VThreadSpec VThreadParts VThreadIndex VThreadDiv.
From S2P Require Import VThreadMod CodeGen ExprSpec CodeGenRun CodeGenOps CodeGenAlloc ExprFacts.
From S2P Require Import CodeGenDraw CodeGenCondition.

Lemma truth_padded wid b : (0 < wid)%nat -> truth (bv_pad false wid (one_bit b)) = norm b.
Proof.
  intros Hw. unfold bv_pad, one_bit. cbn [length]. destruct wid as [|n]; [lia|]. cbn [take app]. rewrite take_nil. cbn [app].
  unfold truth. cbn [fold_left]. fold (norm b). replace (Datatypes.S n - 1)%nat with n by lia.
  assert (H : forall c, norm c = c -> fold_left bit4_or (replicate n BIT4_0) c = c); [|apply H; by destruct b].
  clear. induction n as [|n IH]; intros c Hc; [done|]. cbn [replicate fold_left]. replace (bit4_or c BIT4_0) with c; [by apply IH|].
  revert Hc. by destruct c.
Qed.

Lemma insert_free {A} (f : gmap nat A) k b : f !! k = None -> f ⊆ <[k := b]> f.
Proof. intros H. by apply insert_subseteq. Qed.

Section Flow.
Context (d : design) (prog : list line) (code : list instr).
Context (Hcode : assemble prog = Some code).
Local Abbreviation does := (does d prog code).
Local Abbreviation gens := (gens d prog code).
Local Abbreviation triple := (triple d prog code).
Local Abbreviation draws := (draws d prog code).
Local Abbreviation decides := (decides d prog code).
Local Abbreviation at_ := (at_ prog).
Local Abbreviation runs := (runs d code).
Implicit Types (S : list (list vvp_bit4_t)) (x y : list vvp_bit4_t).

Lemma gens_ext_wf {A} s K (m m' : M A) φ Q : (forall s, wf_cg s -> m' s = m s) -> gens s K m φ Q -> gens s K m' φ Q.
Proof. intros E H a ls s' Hwf E'. rewrite E in E' by done. exact (H _ _ _ Hwf E'). Qed.

Lemma gens_allocate_flag s K : gens s K allocate_flag (fun k s' => adds_flag s k s') (fun _ => K).
Proof.
  intros k ls s' Hwf E. destruct (allocate_flag_spec _ _ _ _ Hwf E) as (-> & W1 & C1 & Ha).
  split_and!; [done|done|by apply tidy_refl|apply triple_nil].
Qed.

Lemma gens_clr_flag s k K : (8 <= k)%nat ->
  gens s K (clr_flag k) (fun _ s' => (forall j, flag_used s' j = flag_used s j && negb (j =? k)%nat) /\
                                     (forall j, word_used s' j = word_used s j)) (fun _ => K).
Proof.
  intros Hk [] ls s' Hwf E. destruct (clr_flag_spec _ _ _ _ Hwf Hk E) as (-> & W1 & C1 & Ha).
  split_and!; [done|apply Ha|apply Ha|by apply tidy_refl|apply triple_nil].
Qed.

(** The result of a condition moved to an allocated flag. *)
Definition keep_flag (k : nat) : M nat :=
  if (k <? 8)%nat then tmp ← allocate_flag; emit (FLAG_MOV tmp k);; mret tmp else mret k.

Lemma does_flag_mov k1 k2 b fs rs S :
  (k1 < FLAGS_COUNT)%nat -> (forall f, put_all fs f !! k2 = Some b) ->
  does (Loc fs rs S) (emit (FLAG_MOV k1 k2)) (Loc ((k1, b) :: fs) rs S).
Proof using Hcode.
  intros Hlt Hk. apply does_instr; [done|done|]. intros f r thr H. exists (put_flag k1 b thr). cbn [exec].
  unfold of_FLAG_MOV. rewrite (h_flags _ _ H k2 b (Hk f)). cbn [mbind option_bind].
  rewrite set_flag_wf by (done || apply H). split_and!; [done|done|by apply holds_put_flag].
Qed.

Lemma gens_keep s0 k s1 f r S b :
  covered s0 (Know f r []) -> taken s0 k s1 ->
  gens s1 (Know (<[k := b]> f) r S) (keep_flag k) (fun k' s2 => adds_flag s0 k' s2) (fun k' => Know (<[k' := b]> f) r S).
Proof using Hcode.
  intros Hc Ht. unfold keep_flag. destruct (Nat.ltb_spec k 8) as [Hk|Hk].
  - destruct Ht as [[_ Hs]|[H _ _ _]]; [|lia].
    eapply gens_bind; [apply gens_allocate_flag|]. intros k' s2 Ha. cbn beta.
    pose proof (covered_same _ _ _ Hs Hc) as Hc1. destruct (covered_adds_flag _ _ _ _ _ _ b Ha Hc1) as [_ Hc2].
    eapply gens_bind; [apply (does_flag_mov k' k b [(k, b)] [] S); [apply (af_range _ _ _ Ha)|known|exact Hc2]|].
    intros [] s3 Hs3. apply gens_ret; [eapply adds_flag_same; [by eapply same_adds_flag|done]|].
    split; [|done|done]. cbn. apply insert_mono, insert_free. eapply unknown_free; [exact Hc|by left].
  - destruct Ht as [[H _]|H]; [lia|]. by apply gens_ret.
Qed.

(** ** The OR of two conditions *)

Lemma decides_lor a (l r : node) x y :
  (0 < wid_of a)%nat -> decides (draw_condition l) x -> decides (draw_condition r) y ->
  decides (draw_condition_binary_lor l r) (ev_binary b_lor a (ex l) (ex r) x y).
Proof using Hcode.
  intros Hw (bl & Nl & Dl) (br & Nr & Dr). exists (bit4_or br bl). split.
  { cbn [ev_binary]. rewrite truth_padded by done. rewrite <- Nl, <- Nr. by destruct bl, br. }
  intros S s f rg Hc. unfold draw_condition_binary_lor.
  eapply gens_bind; [by apply Dl|]. intros k s1 Ht. cbn beta.
  eapply gens_bind; [by eapply gens_keep|]. intros lx s2 Hl. cbn beta.
  destruct (covered_adds_flag _ _ _ _ _ _ bl Hl Hc) as [Hc2 _].
  eapply gens_bind; [by apply Dr|]. intros rx s3 Hr. cbn beta.
  pose proof (taken_free _ _ _ _ _ _ Hc2 Hr) as Hrx. destruct (decide (rx = lx)) as [->|Hne]; [by rewrite lookup_insert_eq in Hrx|].
  rewrite lookup_insert_ne in Hrx by done.
  assert (Hfree : f !! lx = None) by (eapply unknown_free; [exact Hc|right; apply (af_free _ _ _ Hl)]).
  assert (Hc3 : covered s3 (Know f rg [])).
  { destruct (covered_adds_flag _ _ _ _ _ _ bl Hl Hc) as [_ H]. destruct Hr as [[_ Hs]|Ha]; [by eapply covered_same|].
    by apply (covered_adds_flag _ _ _ _ _ _ br Ha H). }
  eapply gens_bind.
  { apply (does_flag_or d prog code Hcode rx lx br bl [(rx, br); (lx, bl)] [] S); [by eapply taken_range|known|known|exact Hc3]. }
  intros [] s4 Hs4. eapply gens_bind; [apply gens_clr_flag; apply (af_range _ _ _ Hl)|]. intros [] s5 [HF HW].
  apply gens_ret.
  - destruct Hl as [L1 L2 L3 L4], Hs4 as [F4 W4].
    assert (Hback : forall j, flag_used s5 j = flag_used s3 j && negb (j =? lx)%nat) by (intros j; by rewrite HF, F4).
    destruct Hr as [[Hk [F3 W3]]|[R1 R2 R3 R4]]; [left; split; [done|]; split|right; split]; try done.
    + intros j. rewrite Hback, F3, L3. destruct (Nat.eqb_spec j lx) as [->|]; cbn; [by rewrite L2|]. by rewrite orb_false_r, andb_true_r.
    + intros j. by rewrite HW, W4, W3, L4.
    + rewrite L3 in R2. by apply orb_false_iff in R2 as [? _].
    + intros j. rewrite Hback, R3, L3. destruct (Nat.eqb_spec j lx) as [->|]; cbn.
      * rewrite L2, (proj2 (Nat.eqb_neq _ _)) by done. by rewrite andb_false_r.
      * by rewrite orb_false_r, andb_true_r.
    + intros j. by rewrite HW, W4, R4, L4.
  - split; [|done|done]. cbn. apply insert_mono. etrans; [by apply insert_free|]. apply insert_free. by rewrite lookup_insert_ne.
Qed.

(** ** Jumps *)

Context (Hlabels : NoDup (labels prog)).

Lemma jmp0_runs pos c f b thr K dest :
  at_ pos [Instr (JMP0 c f)] -> pc thr = pos -> holds K thr -> kf K !! f = Some b -> label_value prog c = Some dest ->
  exists thr', runs thr thr' /\ pc thr' = (if bit4_eqb b BIT4_0 then dest else pos + 1)%nat /\ holds K thr'.
Proof using Hcode. intros. by eapply (jump_runs d prog code Hcode pos (JMP0 c f) (fun b => bit4_eqb b BIT4_0)). Qed.
Lemma jmp1_runs pos c f b thr K dest :
  at_ pos [Instr (JMP1 c f)] -> pc thr = pos -> holds K thr -> kf K !! f = Some b -> label_value prog c = Some dest ->
  exists thr', runs thr thr' /\ pc thr' = (if bit4_eqb b BIT4_1 then dest else pos + 1)%nat /\ holds K thr'.
Proof using Hcode. intros. by eapply (jump_runs d prog code Hcode pos (JMP1 c f) (fun b => bit4_eqb b BIT4_1)). Qed.
Lemma jmp0xz_runs pos c f b thr K dest :
  at_ pos [Instr (JMP0XZ c f)] -> pc thr = pos -> holds K thr -> kf K !! f = Some b -> label_value prog c = Some dest ->
  exists thr', runs thr thr' /\ pc thr' = (if negb (bit4_eqb b BIT4_1) then dest else pos + 1)%nat /\ holds K thr'.
Proof using Hcode. intros. by eapply (jump_runs d prog code Hcode pos (JMP0XZ c f) (fun b => negb (bit4_eqb b BIT4_1))). Qed.

(** Code under a conditional jump over it. *)
Lemma triple_skip K l1 c f b K' :
  kf K !! f = Some b -> (bit4_eqb b BIT4_1 = true -> triple K l1 K') -> (bit4_eqb b BIT4_1 = false -> weaker K' K) ->
  triple K ([Instr (JMP0XZ c f)] ++ l1 ++ [Label c]) K'.
Proof using Hcode Hlabels.
  intros Hb Hdo Hskip pos thr Hat Hpc HK. apply at_app in Hat as [A1 A2]. apply at_app in A2 as [A2 A3].
  cbn [codespace_next] in *. pose proof (at_label _ Hlabels _ _ A3) as Hlab.
  destruct (jmp0xz_runs _ _ _ _ _ _ _ A1 Hpc HK Hb Hlab) as (t1 & R1 & P1 & H1).
  unfold reaches. rewrite !codespace_app. cbn [codespace_next].
  destruct (bit4_eqb b BIT4_1) eqn:Eb; cbn [negb] in P1.
  - destruct (Hdo eq_refl _ t1 A2 P1 H1) as (t2 & R2 & P2 & H2).
    exists t2. split_and!; [by etrans|lia|done].
  - exists t1. split_and!; [done|lia|]. by eapply holds_weaker; [apply Hskip|].
Qed.

(** The shape of the ternary operator. *)
Definition ternary_lines (k lab_true lab_out : nat) (lt lf : list line) : list line :=
  [Instr (JMP0 lab_true k)] ++ lt ++ [Instr (JMP1 lab_out k)] ++ [Label lab_true] ++ lf ++
  [Instr (JMP0 lab_out k)] ++ [Instr BLEND] ++ [Label lab_out].

Lemma triple_ternary f r S k b lab_true lab_out lt lf xt xf :
  f !! k = Some b ->
  (forall S, triple (Know f r S) lt (Know f r (xt :: S))) -> (forall S, triple (Know f r S) lf (Know f r (xf :: S))) ->
  length xt = length xf -> (0 < length xt)%nat ->
  triple (Know f r S) (ternary_lines k lab_true lab_out lt lf)
    (Know f r (match norm b with BIT4_1 => xt | BIT4_0 => xf | _ => bv_map2 bit_blend xf xt end :: S)).
Proof using Hcode Hlabels.
  intros Hb Ht Hf Hlen H0 pos thr Hat Hpc HK. unfold ternary_lines in Hat.
  apply at_app in Hat as [A1 Hat]. apply at_app in Hat as [A2 Hat]. apply at_app in Hat as [A3 Hat].
  apply at_app in Hat as [A4 Hat]. apply at_app in Hat as [A5 Hat]. apply at_app in Hat as [A6 Hat]. apply at_app in Hat as [A7 A8].
  pose proof (at_label _ Hlabels _ _ A4) as L1. pose proof (at_label _ Hlabels _ _ A8) as L2.
  unfold reaches, ternary_lines. rewrite !codespace_app. cbn [codespace_next] in *.
  destruct (jmp0_runs _ _ _ _ _ _ _ A1 Hpc HK Hb L1) as (t1 & R1 & P1 & H1).
  assert (Htrue : b <> BIT4_0 -> exists t, runs t1 t /\ pc t = (if bit4_eqb b BIT4_1 then pos + 1 + codespace_next lt + 1 + 0 + codespace_next lf + 1 + 1
      else pos + 1 + codespace_next lt + 1)%nat /\ holds (Know f r (xt :: S)) t).
  { intros Hne. replace (bit4_eqb b BIT4_0) with false in P1 by (by destruct b).
    destruct (Ht S _ t1 A2 P1 H1) as (t2 & R2 & P2 & H2).
    destruct (jmp1_runs _ _ _ _ _ _ _ A3 P2 H2 Hb L2) as (t3 & R3 & P3 & H3).
    exists t3. split_and!; [by etrans|done|done]. }
  destruct (bit4_eqb b BIT4_0) eqn:E0.
  - apply bit4_eqb_eq in E0 as ->. change (norm BIT4_0) with BIT4_0. cbv iota.
    destruct (Hf S _ t1 A5 ltac:(lia) H1) as (t2 & R2 & P2 & H2).
    destruct (jmp0_runs _ _ _ _ _ _ _ A6 P2 H2 Hb L2) as (t3 & R3 & P3 & H3). change (bit4_eqb BIT4_0 BIT4_0) with true in P3. cbv iota in P3.
    exists t3. split_and!; [by do 2 (etrans; [done|])|lia|done].
  - destruct Htrue as (t2 & R2 & P2 & H2); [by intros ->|]. destruct (bit4_eqb b BIT4_1) eqn:E1.
    + apply bit4_eqb_eq in E1 as ->. change (norm BIT4_1) with BIT4_1. cbv iota.
      exists t2. split_and!; [by etrans|lia|done].
    + replace (match norm b with BIT4_1 => xt | BIT4_0 => xf | _ => bv_map2 bit_blend xf xt end) with (bv_map2 bit_blend xf xt)
        by (destruct b; done).
      destruct (Hf (xt :: S) _ t2 A5 ltac:(lia) H2) as (t3 & R3 & P3 & H3).
      destruct (jmp0_runs _ _ _ _ _ _ _ A6 P3 H3 Hb L2) as (t4 & R4 & P4 & H4). rewrite E0 in P4.
      assert (Hblend : step_ok d BLEND (Know f r (xf :: xt :: S)) (Know f r (bv_map2 bit_blend xf xt :: S))).
      { split; [done|]. intros t Ht'. destruct (holds_top _ _ _ _ _ Ht') as (vf & st & Es & Hvf & Hst).
        inversion Hst as [|vt ? st' ? Hvt Hst']; subst. destruct (blend_implements vt vf xt xf Hvt Hvf Hlen H0) as (v & Ev & Hv).
        exists (with_stack t (v :: st')). cbn [exec]. unfold of_BLEND, binary, pop_vec4. rewrite Es. cbn. rewrite Ev. cbn.
        split_and!; [done|done|]. eapply holds_stack; [done|]. by constructor. }
      destruct (triple_instr d prog code Hcode _ _ _ Hblend _ t4 A7 P4 H4) as (t5 & R5 & P5 & H5). cbn [codespace_next] in P5.
      exists t5. split_and!; [by do 4 (etrans; [done|])|lia|done].
Qed.

(** [keep_flag] with the assertion that the new flag is not a scratch flag. *)
Lemma keep_assert k s : wf_cg s ->
  (if (k <? 8)%nat then tmp_flag ← allocate_flag; assert_true (8 <=? tmp_flag)%nat;; emit (FLAG_MOV tmp_flag k);; mret tmp_flag
   else mret k) s = keep_flag k s.
Proof.
  intros Hwf. unfold keep_flag. destruct (k <? 8)%nat; [|done]. unfold mbind, M_bind.
  destruct (allocate_flag s) as [[[j l] s1]|] eqn:E; [|done].
  destruct (allocate_flag_spec _ _ _ _ Hwf E) as (_ & _ & _ & [H _ _ _]).
  unfold assert_true. rewrite (proj2 (Nat.leb_le _ _)) by lia. done.
Qed.

Lemma tidy_ternary s0 s2 s6 lc lt lf k :
  local_count s2 = (local_count s0 + 2)%nat -> tidy s2 (lc ++ lt ++ lf) s6 ->
  tidy s2 lc s6 -> tidy s2 lt s6 -> tidy s2 lf s6 ->
  forall s7, local_count s7 = local_count s6 ->
  tidy s0 (lc ++ ternary_lines k (local_count s0) (local_count s0 + 1) lt lf) s7.
Proof.
  intros C2 [A1 A2 A3 A4] [_ _ _ B] [_ _ _ C] [_ _ _ D] s7 C7.
  assert (E : labels (lc ++ ternary_lines k (local_count s0) (local_count s0 + 1) lt lf) ≡ₚ
    [local_count s0; local_count s0 + 1]%nat ++ labels (lc ++ lt ++ lf)).
  { unfold ternary_lines. rewrite !labels_app. cbn [labels app]. solve_Permutation. }
  assert (Hin : forall n, In n (labels (lc ++ ternary_lines k (local_count s0) (local_count s0 + 1) lt lf)) <->
    n = local_count s0 \/ n = (local_count s0 + 1)%nat \/ In n (labels (lc ++ lt ++ lf))).
  { intros n. rewrite <- !list_elem_of_In, E. cbn [app]. rewrite !elem_of_cons. done. }
  split; [lia| | |].
  - intros n [->|[->|H%A2]]%Hin; lia.
  - rewrite E. apply NoDup_cons. split; [|apply NoDup_cons; split; [|done]].
    + cbn. intros [H|H%list_elem_of_In%A2]%elem_of_cons; lia.
    + intros H%list_elem_of_In%A2. lia.
  - intros n Hn. apply Hin. rewrite !labels_app, !in_app_iff.
    assert (Hn' : In n (targets lc) \/ In n (targets lt) \/ In n (targets lf) \/ n = local_count s0 \/ n = (local_count s0 + 1)%nat).
    { revert Hn. unfold ternary_lines. rewrite !targets_app, !in_app_iff. cbn. intuition. }
    destruct Hn' as [H%B|[H%C|[H%D|[->| ->]]]]; auto.
Qed.

Lemma draws_ternary (c t f : node) xc xt xf S :
  decides (draw_condition c) xc -> draws t xt -> draws f xf -> length xt = length xf ->
  does (stack S) (draw_ternary_vec4 c t f) (stack (ev_ternary xc xt xf :: S)).
Proof using Hcode Hlabels.
  intros (b & Nb & Dc) Ht Hf Hlen s0 f0 r Hc [] ls s7 Hwf E.
  set (s2 := mkCg (word_alloc_mask s0) (allocate_flag_mask s0) (local_count s0 + 1 + 1)) in *.
  assert (W2 : wf_cg s2) by (destruct Hwf; by split).
  assert (Hs02 : same_used s0 s2) by done.
  unfold draw_ternary_vec4, next_label in E. unfold mbind at 1 2, M_bind at 1 2 in E. cbn [local_count word_alloc_mask allocate_flag_mask] in E.
  change (mkCg (word_alloc_mask s0) (allocate_flag_mask s0) (local_count s0 + 1 + 1)) with s2 in E.
  unfold mbind at 1, M_bind at 1 in E.
  destruct (draw_condition c s2) as [[[k0 lc] s3]|] eqn:Ec; [|done].
  destruct (Dc S s2 f0 r (covered_same _ _ _ Hs02 Hc) _ _ _ W2 Ec) as (W3 & T3 & Y3 & R3).
  unfold mbind at 1, M_bind at 1 in E. rewrite keep_assert in E by done.
  destruct (keep_flag k0 s3) as [[[k lk] s4]|] eqn:Ek; [|done].
  destruct (gens_keep s2 k0 s3 f0 r S b (covered_same _ _ _ Hs02 Hc) T3 _ _ _ W3 Ek) as (W4 & T4 & Y4 & R4).
  destruct (covered_adds_flag _ _ _ _ _ _ b T4 (covered_same _ _ _ Hs02 Hc)) as [Hc4 _].
  unfold mbind, M_bind, emit, emit_label in E.
  destruct (draw_vec4 t s4) as [[[[] lt] s5]|] eqn:Et; [|done].
  destruct (draw_vec4 f s5) as [[[[] lf] s6]|] eqn:Ef; [|done].
  destruct (clr_flag k s6) as [[[[] l7] s7']|] eqn:E7; [|done]. injection E as <- <-.
  pose proof (dr_vec _ _ _ _ _ Ht) as Vt. pose proof (dr_vec _ _ _ _ _ Hf) as Vf.
  destruct (Vt S s4 _ r Hc4 _ _ _ W4 Et) as (W5 & S5 & Y5 & _).
  pose proof (covered_same _ _ _ S5 Hc4) as Hc5.
  destruct (Vf S s5 _ r Hc5 _ _ _ W5 Ef) as (W6 & S6 & Y6 & _).
  destruct (clr_flag_spec _ _ _ _ W6 (proj1 (af_range _ _ _ T4)) E7) as (-> & W7 & C7 & HF7 & HW7).
  match goal with |- wf_cg _ /\ _ /\ tidy _ ?L _ /\ _ =>
    replace L with ((lc ++ lk) ++ ternary_lines k (local_count s0) (local_count s0 + 1) lt lf)
      by (unfold ternary_lines; rewrite <- ?app_assoc; cbn; by rewrite ?app_nil_r) end.
  split_and!; [done| | |].
  - destruct T4 as [K1 K2 K3 K4]. destruct S5 as [F5 G5], S6 as [F6 G6]. split; intros j.
    + rewrite HF7, F6, F5, K3. destruct (Nat.eqb_spec j k) as [->|]; cbn; [by rewrite K2|]. by rewrite orb_false_r, andb_true_r.
    + by rewrite HW7, G6, G5, K4.
  - pose proof (tidy_app _ _ _ _ _ Y3 Y4) as Y34. pose proof (tidy_app _ _ _ _ _ Y5 Y6) as Y56.
    assert (Hmono : forall s s' l, tidy s l s' -> (local_count s2 <= local_count s)%nat -> (local_count s' <= local_count s6)%nat -> tidy s2 l s6).
    { intros s s' l [B1 B2 B3 B4] M1 M2. split; [lia| |done|done]. intros n Hn. specialize (B2 n Hn). lia. }
    pose proof (td_count _ _ _ Y34). pose proof (td_count _ _ _ Y5). pose proof (td_count _ _ _ Y6).
    eapply tidy_ternary; [|by eapply tidy_app| | | |done]; [cbn; lia| | |];
      (eapply Hmono; [eassumption|lia|lia]).
  - eapply triple_app; [by eapply triple_app|].
    assert (Hfree : f0 !! k = None) by (eapply unknown_free; [exact Hc|right; apply (af_free _ _ _ T4)]).
    eapply triple_weaker; [apply weaker_refl| |apply (triple_ternary _ r S k b); [apply lookup_insert_eq| | |done|by eapply dr_pos]].
    + split; [by apply insert_free|done|]. cbn. f_equal. unfold ev_ternary. rewrite <- Nb. by destruct b.
    + intros S'. by apply (Vt S' s4 _ r Hc4 _ _ _ W4 Et).
    + intros S'. by apply (Vf S' s5 _ r Hc5 _ _ _ W5 Ef).
Qed.

(** ** The absolute value *)

Lemma does_skip fs S S' f b (m : M unit) :
  small fs -> (forall f0, put_all fs f0 !! f = Some b) -> does (Loc fs [] S) m (stack S') ->
  does (Loc fs [] S) (lab ← next_label; emit (JMP0XZ lab f);; m;; emit_label lab)
    (stack (if bit4_eqb b BIT4_1 then S' else S)).
Proof using Hcode Hlabels.
  intros Hs Hb Hm s f0 r Hc [] ls s' Hwf E.
  set (s1 := mkCg (word_alloc_mask s) (allocate_flag_mask s) (local_count s + 1)) in *.
  assert (W1 : wf_cg s1) by (destruct Hwf; by split). assert (H1 : same_used s s1) by done.
  unfold mbind, M_bind, next_label, emit, emit_label in E. fold s1 in E.
  destruct (m s1) as [[[[] l] s2]|] eqn:Em; [|done]. injection E as <- <-.
  destruct (Hm s1 f0 r (covered_same _ _ _ H1 Hc) _ _ _ W1 Em) as (W2 & S2 & [B1 B2 B3 B4] & R2).
  cbn [local_count s1] in B1, B2. split_and!; [done|by eapply same_trans| |].
  - assert (El : labels (Instr (JMP0XZ (local_count s) f) :: l ++ [Label (local_count s)]) = labels l ++ [local_count s])
      by (cbn; by rewrite labels_app).
    split; [lia| | |]; cbn [app]; rewrite ?El.
    + intros n. rewrite in_app_iff. intros [H%B2|[<-|[]]]; lia.
    + apply NoDup_app. split_and!; [done| |by apply NoDup_singleton].
      intros n H%list_elem_of_In%B2 ->%list_elem_of_singleton. lia.
    + intros n. change (targets (Instr (JMP0XZ (local_count s) f) :: l ++ [Label (local_count s)]))
        with (local_count s :: targets (l ++ [Label (local_count s)])). rewrite targets_app, in_app_iff.
      cbn. rewrite in_app_iff. intros [->|[H%B4|[]]]; [right; by left|by left].
  - apply (triple_skip _ l _ _ b); [apply Hb| |]; intros Eb; rewrite Eb; [exact R2|]. by eapply small_weaker.
Qed.

Lemma does_negate x S n :
  length x = n -> (0 < n)%nat ->
  does (stack (x :: S)) (emit INV;; emit (PUSHI_VEC4 1 0 n);; emit ADD) (stack (bv_neg x :: S)).
Proof using Hcode.
  intros <- H0. eapply does_bind; [by apply (does_unary1 _ _ _ Hcode INV (fun v => Some (invert v)) (map bit4_not)); [done|done|apply inv_implements|]|].
  eapply does_bind; [by apply does_pushi|]. rewrite imm_of_Z, <- not_add_one by done.
  apply (does_binary2 _ _ _ Hcode ADD add bv_add); [done|done|apply add_implements| |]; rewrite length_map, ?length_of_Z; done.
Qed.

Lemma draws_abs (a : attr) (sub : node) x S :
  draws sub x -> does (stack S) (draw_unary_vec4 a u_abs sub) (stack (ev_unary u_abs a (ex sub) x :: S)).
Proof using Hcode Hlabels.
  intros Hs. assert (H0 : (0 < length x)%nat) by by eapply dr_pos. pose proof (dr_len _ _ _ _ _ Hs) as Hl.
  unfold draw_unary_vec4. eapply does_bind; [apply Hs|]. cbn [ev_unary].
  destruct (ivl_expr_signed (ex sub)); cbn [negb]; [|apply does_ret].
  eapply does_bind; [by apply does_dup|]. eapply does_bind; [by apply does_pushi; [|lia|]|].
  rewrite imm_of_Z, <- Hl. set (z := of_Z (length x) 0). assert (Lz : length x = length z) by (symmetry; apply length_of_Z).
  eapply does_bind.
  { pose proof (does_compare d prog code Hcode CMPS do_CMPS x z (mag_flags true x z) [] [] (x :: S)) as H. rewrite app_nil_r in H.
    apply H; [done|done|apply small_mag|]. intros. by apply (do_mag_is true). }
  rewrite abs_of_sign by done. fold z.
  pose proof (does_skip (mag_flags true x z) (x :: S) (bv_neg x :: S) 5 (bv_lt true x z)
    (emit INV;; emit (PUSHI_VEC4 1 0 (length x));; emit ADD)) as H.
  assert (Hskip : (if bit4_eqb (bv_lt true x z) BIT4_1 then bv_neg x :: S else x :: S) =
    (if bit4_eqb (bv_lt true x z) BIT4_1 then bv_neg x else x) :: S) by (by destruct (bit4_eqb _ _)).
  rewrite Hskip in H. apply H; [apply small_mag|unfold mag_flags; known|].
  apply does_forget_first; [apply small_mag|]. by apply does_negate.
Qed.
End Flow.
