(* ===== verification/CodeGenSelect.v ===== *)
(** The code of unary operators, shifts, concatenations, selects and signals, and of index
    registers; words of arrays, and the values that index registers take. *)
From S2P Require Import Prelude MachineWord VvpBit VvpVector4 VvpSlice WordArith VvpArith VvpVector2 VvpCompare.
From S2P Require Import BitList VvpFunctor WordDiv VThread VThreadSpec VThreadParts VThreadIndex VThreadDiv.
From S2P Require Import VThreadMod CodeGen ExprSpec CodeGenRun CodeGenOps CodeGenAlloc ExprFacts.
From S2P Require Import CodeGenDraw CodeGenCondition CodeGenFlow.

Section Select.
Context (d : design) (prog : list line) (code : list instr).
Context (Hcode : assemble prog = Some code) (Hlabels : NoDup (labels prog)).
Local Abbreviation does := (does d prog code).
Local Abbreviation draws := (draws d prog code).
Implicit Types (S : list (list vvp_bit4_t)) (x y : list vvp_bit4_t).

(** ** Unary operators *)

Lemma draws_unary (a : attr) opcode (sub : node) x S :
  draws sub x -> unary_ok opcode a (ex sub) ->
  does (stack S) (draw_unary_vec4 a opcode sub) (stack (ev_unary opcode a (ex sub) x :: S)).
Proof using Hcode Hlabels.
  intros Hs Hok. assert (H0 : (0 < length x)%nat) by by eapply dr_pos. pose proof (dr_len _ _ _ _ _ Hs) as Hl.
  destruct (decide (opcode = u_abs)) as [->|Hne]; [by apply draws_abs|].
  unfold draw_unary_vec4. eapply does_bind; [apply Hs|].
  destruct opcode; try done; cbn [ev_unary];
    try (eapply does_unary; [done|done|done|]; intros v Hv;
         first [by apply andr_implements|by apply orr_implements|by apply xorr_implements|by apply inv_implements
               |by apply nandr_implements|by apply norr_implements|by apply xnorr_implements]).
  - apply does_negate; [done|done|lia].
  - eapply (does_bind _ _ _ _ (stack ((match ivl_expr_value (ex sub) with IVL_VT_LOGIC => map bit_cast2 x | IVL_VT_BOOL => x end) :: S))).
    + destruct (ivl_expr_value (ex sub)); [apply does_ret|].
      eapply does_unary1; [done|done|done|apply cast2_implements|done].
    + apply does_resize; [done| |]; destruct (ivl_expr_value (ex sub)); by rewrite ?length_map.
Qed.

(** ** Shifts *)

(** The integer code of a node leaves its value in the register and its validity in flag 4. *)
Definition indexes (n : node) y : Prop :=
  forall k S, (k < WORDS_COUNT)%nat ->
    does (stack S) (draw_integer n k)
      (Loc [(4%nat, index_flag (ivl_expr_signed (ex n)) y)] [(k, index_reg (ivl_expr_signed (ex n)) y)] S).

Lemma does_with_index n y S S' (op : nat -> M unit) :
  indexes n y ->
  (forall k fs rs, (forall r, put_all rs r !! k = Some (index_reg (ivl_expr_signed (ex n)) y)) ->
     (forall f, put_all fs f !! 4%nat = Some (index_flag (ivl_expr_signed (ex n)) y)) ->
     does (Loc fs rs S) (op k) (Loc fs rs S')) ->
  does (stack S) (k ← allocate_word; draw_integer n k;; op k;; clr_word k) (stack S').
Proof.
  intros Hn Hop. eapply (does_ext _ _ _ _ _ (k ← allocate_word; (draw_integer n k;; op k);; clr_word k)).
  { intros s. unfold mbind at 1 4, M_bind at 1 4. destruct (allocate_word s) as [[[k l] s1]|]; [|done]. by rewrite M_assoc. }
  apply does_word. intros k Hk.
  exists [(4%nat, index_flag (ivl_expr_signed (ex n)) y)], (index_reg (ivl_expr_signed (ex n)) y).
  split; [|eapply does_bind; [by apply Hn|]].
  - repeat constructor.
  - apply Hop; known.
Qed.

Lemma draws_lrs (a : attr) opcode (l r : node) x y S :
  draws l x -> indexes r y -> ivl_expr_signed (ex r) = false -> In opcode [b_shl; b_shr; b_ashr] ->
  does (stack S) (draw_binary_vec4_lrs opcode l r) (stack (ev_binary opcode a (ex l) (ex r) x y :: S)).
Proof using Hcode.
  intros Hl Hr Hs Hin. unfold draw_binary_vec4_lrs. eapply does_bind; [apply Hl|].
  assert (Hfit : width_fits (length x)) by (rewrite (dr_len _ _ _ _ _ Hl); apply Hl).
  apply (does_with_index r y (x :: S) (ev_binary opcode a (ex l) (ex r) x y :: S)
    (fun k => match opcode with b_shl => emit (SHIFTL k) | b_shr => emit (SHIFTR k)
      | b_ashr => emit (if ivl_expr_signed (ex l) then SHIFTR_S k else SHIFTR k) | _ => stop end) Hr).
  intros k fs rs Hreg Hflag. rewrite Hs in Hreg, Hflag.
  destruct opcode; try (exfalso; cbn in Hin; intuition discriminate); cbn [ev_binary].
  - eapply does_by_index; try done. intros v Hv. by apply shiftl_is.
  - eapply does_by_index; try done. intros v Hv. by apply (shiftr_is (fun _ => BIT4_0)).
  - destruct (ivl_expr_signed (ex l)); eapply does_by_index; try done; intros v Hv.
    + destruct (shiftr_is (fun val => value val (VvpVector4.size val - 1)) v x y Hv Hfit) as (v' & E & Hv'). exists v'. split; [done|].
      unfold msb. by rewrite <- (vec_is_value _ _ _ Hv), <- (vec_is_size _ _ Hv).
    + by apply (shiftr_is (fun _ => BIT4_0)).
Qed.

(** ** Concatenations *)

(** An operand of a concatenation with its value. *)
Record part_draws (p : node * list vvp_bit4_t) : Prop := {
  pd_vec : forall S, does (stack S) (draw_vec4 (fst p)) (stack (snd p :: S));
  pd_pos : (0 < length (snd p))%nat;
  pd_number : forall a bits, ex (fst p) = IVL_EX_NUMBER a bits -> bits = snd p /\ length bits = wid_of a }.

Definition kept_parts (ps : list (node * list vvp_bit4_t)) : list (list vvp_bit4_t) :=
  map snd (filter (fun p => zero_replication (ex (fst p)) = false) ps).

Lemma kept_cons n x ps : kept_parts ((n, x) :: ps) = if zero_replication (ex n) then kept_parts ps else x :: kept_parts ps.
Proof. unfold kept_parts. rewrite filter_cons. cbn [fst]. by destruct (zero_replication (ex n)). Qed.

Lemma M_bind_assoc {A B C} (m : M A) (k : A -> M B) (h : B -> M C) s :
  ((m ≫= k) ≫= h) s = (m ≫= (fun a => k a ≫= h)) s.
Proof.
  unfold mbind, M_bind. destruct (m s) as [[[a l1] s1]|]; [|done]. destruct (k a s1) as [[[b l2] s2]|]; [|done].
  destruct (h b s2) as [[[c l3] s3]|]; [|done]. by rewrite app_assoc.
Qed.

Lemma M_ret_bind {A B} (a : A) (k : A -> M B) s : (mret a ≫= k) s = k a s.
Proof. unfold mbind, M_bind, mret, M_ret. by destruct (k a s) as [[[b l] s']|]. Qed.

Lemma does_assoc {A} (m : M unit) (k : M A) (h : A -> M unit) L L' :
  does L (m;; (k ≫= h)) L' -> does L ((m;; k) ≫= h) L'.
Proof. apply does_ext. intros s. apply M_bind_assoc. Qed.
Lemma does_ret_bind {A} (a : A) (h : A -> M unit) L L' : does L (h a) L' -> does L (mret a ≫= h) L'.
Proof. apply does_ext. intros s. apply M_ret_bind. Qed.

Lemma does_head ps (K : list node -> M unit) S L' :
  Forall part_draws ps ->
  (forall x rest, Forall part_draws rest -> kept_parts ps = x :: kept_parts rest -> (0 < length x)%nat ->
     does (stack (x :: S)) (K (map fst rest)) L') ->
  does (stack S) (rest ← concat_head (map fst ps); K rest) L'.
Proof using Hcode.
  intros Hps. revert K. induction Hps as [|[n x] ps Hp Hps IH]; intros K HK; cbn [map concat_head fst].
  - by intros s f r Hc a ls s' _.
  - rewrite kept_cons in HK. apply does_assoc. eapply does_bind; [apply (pd_vec _ Hp)|]. cbn [snd].
    destruct (zero_replication (ex n)).
    + apply does_assoc. eapply does_bind; [by apply does_pop|]. apply IH. intros. by eapply HK.
    + apply does_ret_bind. apply HK; [done|done|apply Hp].
Qed.

Lemma does_concat_vec m x S :
  (0 < length m)%nat -> (0 < length x)%nat -> does (stack (x :: m :: S)) (emit CONCAT_VEC4) (stack ((x ++ m) :: S)).
Proof using Hcode. intros Hm Hx. eapply does_binary; [done|done|done|]. intros vm vx Vm Vx. by apply concat_is. Qed.

Lemma does_rest ps m S :
  Forall part_draws ps -> (0 < length m)%nat ->
  does (stack (m :: S)) (concat_rest (map fst ps)) (stack ((concat (reverse (kept_parts ps)) ++ m) :: S)).
Proof using Hcode.
  intros Hps. revert m. induction Hps as [|[n x] ps Hp Hps IH]; intros m Hm; cbn [map concat_rest fst]; [apply does_ret|].
  rewrite kept_cons. eapply (does_bind _ _ _ _ (stack ((if zero_replication (ex n) then m else x ++ m) :: S))).
  - assert (Hgen : does (stack (m :: S)) (draw_vec4 n;; (if zero_replication (ex n) then emit (POP_VEC4 1) else emit CONCAT_VEC4))
      (stack ((if zero_replication (ex n) then m else x ++ m) :: S))).
    { eapply does_bind; [apply (pd_vec _ Hp)|]. cbn [snd]. destruct (zero_replication (ex n)); [by apply does_pop|].
      apply does_concat_vec; [done|apply (pd_pos _ Hp)]. }
    pose proof (pd_number _ Hp) as Hnum. cbn [fst snd] in Hnum. destruct (ex n) as [a bits| | | | | |] eqn:En; try exact Hgen.
    destruct (Hnum a bits eq_refl) as [-> Hl]. cbn [zero_replication]. by apply does_concat_operand.
  - destruct (zero_replication (ex n)); [by apply IH|]. rewrite reverse_cons, concat_app. cbn [concat]. rewrite app_nil_r, <- app_assoc.
    apply IH. rewrite length_app. lia.
Qed.

Lemma draws_concat repeat ps S :
  Forall part_draws ps ->
  does (stack S) (draw_concat_vec4 repeat (map fst ps))
    (stack (copies (if (repeat =? 0)%nat then 1 else repeat) (concat (reverse (kept_parts ps))) :: S)).
Proof using Hcode.
  intros Hps. unfold draw_concat_vec4. apply does_head; [done|]. intros x rest Hrest Hk Hx.
  rewrite Hk, reverse_cons, concat_app. cbn [concat]. rewrite app_nil_r.
  eapply does_bind; [by apply does_rest|]. set (c := concat _ ++ x).
  assert (Hc : (0 < length c)%nat) by (unfold c; rewrite length_app; lia).
  destruct (Nat.ltb_spec 1 repeat) as [Hr|Hr].
  - rewrite (proj2 (Nat.eqb_neq _ _)) by lia. eapply does_unary; [done|done|done|]. intros v Hv. by apply replicate_is.
  - replace (if (repeat =? 0)%nat then 1%nat else repeat) with 1%nat by (destruct (Nat.eqb_spec repeat 0); lia).
    unfold copies. cbn. rewrite app_nil_r. apply does_ret.
Qed.

(** ** Selects *)

Lemma draws_select (a : attr) (sub base : node) x y S :
  draws sub x -> draws base y -> (0 < wid_of a)%nat -> Z.of_nat (length x) <= 2 ^ 31 ->
  (if test_immediate_vec4_ok (ex base) then bv_num (ivl_expr_signed (ex base)) y < 2 ^ 31
   else base_fits (ivl_expr_signed (ex base)) (wid_of a) (ivl_expr_width (ex base)) = true) ->
  does (stack S) (draw_select_vec4 a sub base) (stack (bv_select (ivl_expr_signed (ex base)) (wid_of a) x y :: S)).
Proof using Hcode.
  intros Hx Hy Hw Hl Hb. unfold draw_select_vec4. destruct (test_immediate_vec4_ok (ex base)) eqn:Ei.
  - destruct (immediate_number _ _ _ base y Hy Ei) as (ra & Er & Ly & H0).
    rewrite Er. apply does_lift. intros [[v0 vx] bwid] E.
    destruct (make_immediate_is _ _ _ _ _ Ly E) as (-> & Hv & _ & Hknown). apply does_assert_if. intros ->%Z.eqb_eq.
    destruct (Hknown eq_refl) as [Uy Ey]. eapply does_bind; [apply Hx|]. rewrite Er in Hb.
    assert (Hp : forall v, vec_is v x -> exists v', part_select v (parti_base (ivl_expr_signed (IVL_EX_NUMBER ra y)) v0 (wid_of ra)) (wid_of a) = Some v' /\
      vec_is v' (bv_select (ivl_expr_signed (IVL_EX_NUMBER ra y)) (wid_of a) x y)).
    { intros v Hv'. unfold bv_select. rewrite Uy, <- Ly, <- Ey, parti_base_is by (done || lia). apply part_select_is; [done|by eapply dr_pos|done]. }
    destruct (ivl_expr_signed (IVL_EX_NUMBER ra y)); by eapply does_unary.
  - eapply does_bind; [apply Hx|]. eapply does_bind; [apply Hy|].
    assert (Hp : forall vx vy, vec_is vx x -> vec_is vy y -> exists v, part (ivl_expr_signed (ex base)) (wid_of a) vx vy = Some v /\
      vec_is v (bv_select (ivl_expr_signed (ex base)) (wid_of a) x y)).
    { intros vx vy Hvx Hvy. apply part_is; try done; [by eapply dr_pos|by eapply dr_pos|]. by rewrite (dr_len _ _ _ _ _ Hy). }
    destruct (ivl_expr_signed (ex base)); by eapply does_binary.
Qed.

Lemma draws_select_pad (a : attr) (sub : node) x S :
  draws sub x -> does (stack S) (draw_select_pad_vec4 a sub) (stack (bv_pad (signed_of a) (wid_of a) x :: S)).
Proof using Hcode.
  intros Hx. assert (H0 : (0 < length x)%nat) by by eapply dr_pos. unfold draw_select_pad_vec4. eapply does_bind; [apply Hx|].
  destruct (Nat.eqb_spec (wid_of a) (ivl_expr_width (ex sub))) as [->|_].
  - rewrite <- (dr_len _ _ _ _ _ Hx), pad_same. apply does_ret.
  - destruct (signed_of a); eapply does_unary; try done; intros v Hv; eexists; split; try done; [by apply pad_s_is|by apply pad_u_is].
Qed.
End Select.

(** * Literals as integers *)

Lemma number_unknown bits : number_is_unknown bits = unknown bits.
Proof. done. Qed.

Lemma bv_Z_take_S i l : (i < length l)%nat -> bv_Z (take (S i) l) = bv_Z (take i l) + 2 ^ Z.of_nat i * bit1 (nth i l BIT4_X).
Proof.
  intros Hi. destruct (lookup_lt_is_Some_2 l i Hi) as [b Eb]. rewrite (take_S_r _ _ b) by done. rewrite bv_Z_app, length_take, Nat.min_l by lia.
  rewrite nth_lookup, Eb. change (default BIT4_X (Some b)) with b. cbn [bv_Z]. lia.
Qed.

Lemma immediate_sum bits n :
  (n <= length bits)%nat -> (n <= W)%nat -> unknown bits = false ->
  for_upto n (fun idx imm => if bit4_eqb (nth idx bits BIT4_X) BIT4_1 then Z.lor imm (wshl 1 idx) else imm) 0 = bv_Z (take n bits).
Proof.
  intros Hn HW Hu. induction n as [|n IH]; [done|]. cbn [for_upto]. rewrite IH by lia. rewrite bv_Z_take_S by lia.
  pose proof (bv_Z_range (take n bits)) as HB. rewrite length_take, Nat.min_l in HB by lia.
  unfold bit1. destruct (bit4_eqb _ _); [|lia]. rewrite lor_digit by (done || lia || by right). lia.
Qed.

(** All bits from [lim] on are [b]. *)
Lemma upper_bits bits lim b :
  forallb (fun i => bit4_eqb (nth i bits BIT4_X) b) (seq lim (length bits - lim)) = true ->
  forall i, (lim <= i < length bits)%nat -> nth i bits BIT4_X = b.
Proof.
  intros H i Hi. rewrite forallb_forall in H. apply bit4_eqb_eq, H, in_seq. lia.
Qed.

Lemma bv_Z_low bits lim :
  (forall i, (lim <= i < length bits)%nat -> nth i bits BIT4_X = BIT4_0) -> bv_Z bits < 2 ^ Z.of_nat lim.
Proof.
  intros H. destruct (Nat.le_gt_cases (length bits) lim) as [Hl|Hl].
  - pose proof (bv_Z_range bits). assert (2 ^ Z.of_nat (length bits) <= 2 ^ Z.of_nat lim) by (apply Z.pow_le_mono_r; lia). lia.
  - rewrite <- (take_drop lim bits), bv_Z_app, length_take, Nat.min_l by lia.
    assert (E : drop lim bits = replicate (length bits - lim) BIT4_0).
    { apply (nth_ext _ _ BIT4_X BIT4_X); [by rewrite length_drop, length_replicate|]. rewrite length_drop. intros i Hi.
      rewrite nth_drop, nth_replicate by done. apply H. lia. }
    rewrite E. assert (E0 : forall n, bv_Z (replicate n BIT4_0) = 0) by (induction n as [|n IH]; [done|]; cbn [replicate bv_Z]; rewrite IH; done).
    rewrite E0. pose proof (bv_Z_range (take lim bits)) as HB. rewrite length_take, Nat.min_l in HB by lia. lia.
Qed.

Lemma unknown_bit bits i : unknown bits = false -> (i < length bits)%nat -> bit4_is_xz (nth i bits BIT4_X) = false.
Proof. intros Hu. by apply unknown_false. Qed.

(** What [number_is_immediate] says of a literal without unknown bits. *)
Lemma number_is_immediate_known a bits lim neg_ok :
  length bits = wid_of a -> (0 < length bits)%nat -> unknown bits = false -> number_is_immediate a bits lim neg_ok = true ->
  let pad_bit := if signed_of a && bit4_eqb (msb bits) BIT4_1 then BIT4_1 else BIT4_0 in
  (neg_ok = false -> pad_bit = BIT4_0) /\
  forall i, ((if neg_ok then lim - 1 else lim) <= i < length bits)%nat -> nth i bits BIT4_X = pad_bit.
Proof.
  intros Hl H0 Hu. unfold number_is_immediate. rewrite <- Hl. fold (msb bits).
  set (pad := if signed_of a && _ then _ else _). rewrite (unknown_bit bits 0 Hu H0), andb_false_l. cbv zeta iota.
  destruct (bit4_eqb pad BIT4_1 && negb neg_ok) eqn:E1; [done|].
  destruct (forallb _ (seq (if neg_ok then (lim - 1)%nat else lim) _)) eqn:E2; [|done]. intros _. split.
  - intros ->. rewrite andb_true_r in E1. subst pad. by destruct (_ && _).
  - by apply upper_bits.
Qed.

Lemma msb_nth bits n : length bits = n -> nth (n - 1) bits BIT4_X = msb bits.
Proof. by intros <-. Qed.

(** The 64-bit pattern of a literal. *)
Lemma get_number_is a bits :
  length bits = wid_of a -> (0 < length bits <= W)%nat -> unknown bits = false ->
  wrap (bv_num (signed_of a) bits) = get_number_immediate a bits.
Proof.
  intros Hl H0 Hu. unfold get_number_immediate. rewrite <- Hl, (proj2 (Nat.ltb_ge W (length bits))) by lia. cbv zeta.
  rewrite immediate_sum by (done || lia). rewrite take_ge by lia. rewrite msb_nth by done.
  pose proof (bv_Z_range bits) as HB.
  assert (Hp : 2 ^ Z.of_nat (length bits) <= wordsize) by (apply (Z.pow_le_mono_r 2 _ 64); unfold W in *; lia).
  destruct (signed_of a) eqn:Es; cbn [bv_num andb].
  - unfold bv_S. rewrite (proj2 (Nat.eqb_neq _ _)), andb_true_r by lia. destruct (bit4_eqb (msb bits) BIT4_1) eqn:Em; cbn [andb].
    + destruct (Nat.ltb_spec (length bits) W) as [HW|HW].
      * by rewrite (proj2 (proj2 (index_mask (bv_Z bits) (length bits) ltac:(lia) HB))).
      * replace (length bits) with W in * by lia. change (2 ^ Z.of_nat W) with wordsize. unfold wrap.
        replace (bv_Z bits - wordsize) with (bv_Z bits + (-1) * wordsize) by lia. rewrite Z.mod_add by done. apply Z.mod_small. lia.
    + rewrite Z.sub_0_r. apply wrap_small. unfold is_word. lia.
  - apply wrap_small. unfold is_word. lia.
Qed.

Lemma index_wrap x : - 2 ^ 63 <= x < 2 ^ 63 -> as_signed W (wrap x) = x.
Proof. apply as_signed_word. Qed.

(** The literal of an index, as a signed number of the host. *)
Lemma immediate_value a bits :
  length bits = wid_of a -> (0 < length bits)%nat -> (signed_of a = true -> length bits <= W)%nat -> unknown bits = false ->
  number_is_immediate a bits 32 true = true ->
  as_signed W (get_number_immediate a bits) = bv_num (signed_of a) bits /\ - 2 ^ 63 <= bv_num (signed_of a) bits < 2 ^ 63.
Proof.
  intros Hl H0 HW Hu Hi. destruct (number_is_immediate_known _ _ _ _ Hl H0 Hu Hi) as [_ Hup].
  destruct (signed_of a) eqn:Es.
  - cbn [bv_num]. pose proof (bv_S_63 bits ltac:(split; [lia|by apply HW])) as HB. split; [|done].
    rewrite <- (get_number_is a bits) by first [done|split; [lia|by apply HW]]. rewrite Es. by apply index_wrap.
  - cbn [andb] in Hup. cbn [bv_num]. pose proof (bv_Z_low bits 31 Hup) as HB. pose proof (bv_Z_range bits). split; [|lia].
    unfold get_number_immediate. rewrite Es. cbn [andb]. rewrite <- Hl.
    assert (E : forall n, (31 <= n \/ n = length bits)%nat -> (n <= length bits)%nat -> (n <= W)%nat ->
      as_signed W (for_upto n (fun idx imm => if bit4_eqb (nth idx bits BIT4_X) BIT4_1 then Z.lor imm (wshl 1 idx) else imm) 0) = bv_Z bits).
    { intros n Hn Hle HnW. rewrite immediate_sum by done.
      assert (Et : bv_Z (take n bits) = bv_Z bits).
      { destruct Hn as [Hn| ->]; [|by rewrite take_ge].
        rewrite <- (take_drop n bits) at 2. rewrite bv_Z_app, length_take, Nat.min_l by lia.
        assert (Ed : bv_Z (drop n bits) < 2 ^ Z.of_nat 0).
        { apply bv_Z_low. rewrite length_drop. intros i Hi'. rewrite nth_drop. apply Hup. lia. }
        pose proof (bv_Z_range (drop n bits)). change (2 ^ Z.of_nat 0) with 1 in Ed. replace (bv_Z (drop n bits)) with 0 by lia. lia. }
      rewrite Et. transitivity (as_signed W (wrap (bv_Z bits))); [f_equal; symmetry; apply wrap_small; unfold is_word, wordsize; lia|].
      apply index_wrap. lia. }
    cbv zeta. destruct (Nat.ltb_spec W (length bits)); apply E; unfold W in *; lia.
Qed.

Section Signal.
Context (d : design) (prog : list line) (code : list instr).
Context (Hcode : assemble prog = Some code).
Local Abbreviation does := (does d prog code).
Local Abbreviation draws := (draws d prog code).
Implicit Types (S : list (list vvp_bit4_t)) (x y : list vvp_bit4_t).

(** What the nets of a signal node hold. *)
Definition nets_hold (e : ivl_expr) x : Prop :=
  match e with
  | IVL_EX_SIGNAL a sig word_ex =>
      ivl_signal_signed sig = signed_of a /\
      (ivl_signal_dimensions sig = 0%nat -> vec_is (vec4_value d (sig_id sig, 0%nat)) x) /\
      (forall wa wbits, word_ex = Some (IVL_EX_NUMBER wa wbits) -> ivl_signal_dimensions sig <> 0%nat -> ivl_signal_is_reg sig = false ->
         number_is_immediate wa wbits 32 false = true -> unknown wbits = false ->
         vec_is (vec4_value d (sig_id sig, Z.to_nat (get_number_immediate wa wbits mod 2 ^ 32))) x)
  | _ => True
  end.

Lemma put_twice {A} (k : nat) (x y : A) l r : put_all ((k, x) :: (k, y) :: l) r = put_all ((k, x) :: l) r.
Proof. cbn. by rewrite insert_insert_eq. Qed.

Lemma does_number_index a bits k S :
  length bits = wid_of a -> (0 < length bits)%nat -> (signed_of a = true -> length bits <= W)%nat -> (k < WORDS_COUNT)%nat ->
  does (stack S)
    (assert_true (number_is_immediate a bits 32 true);;
     if number_is_unknown bits then emit (IX_LOAD k 0 0);; emit (FLAG_SET_IMM 4 1)
     else
       (if 0 <=? as_signed W (get_number_immediate a bits) then emit (IX_LOAD k (as_signed W (get_number_immediate a bits)) 0)
        else emit (IX_LOAD k 0 0);; emit (IX_SUB k (- as_signed W (get_number_immediate a bits)) 0));;
       emit (FLAG_SET_IMM 4 0))
    (Loc [(4%nat, index_flag (signed_of a) bits)] [(k, index_reg (signed_of a) bits)] S).
Proof using Hcode.
  intros Hl H0 HW Hk. apply does_assert_if. intros Hi. rewrite number_unknown. unfold index_flag, index_reg.
  destruct (unknown bits) eqn:Hu.
  - eapply does_bind; [by apply does_ix_load|]. by apply does_flag_imm; [|small_flag|].
  - destruct (immediate_value a bits Hl H0 HW Hu Hi) as [-> HB]. set (v := bv_num (signed_of a) bits) in *.
    assert (Hflag : (if signed_of a || (bv_Z bits <? wordsize) then BIT4_0 else BIT4_X) = BIT4_0).
    { destruct (signed_of a) eqn:Es; [done|]. subst v. cbn [bv_num orb] in *. rewrite (proj2 (Z.ltb_lt _ _)); [done|]. unfold wordsize. lia. }
    rewrite Hflag. eapply (does_bind _ _ _ _ (Loc [] [(k, wrap v)] S)); [|by apply does_flag_imm; [|small_flag|]].
    destruct (Z.leb_spec 0 v) as [Hv|Hv].
    + replace (wrap v) with v by (symmetry; apply wrap_small; unfold is_word, wordsize; lia). by apply does_ix_load.
    + eapply does_weaker; [|eapply does_bind; [by apply does_ix_load|]; apply (does_ix_sub _ _ _ Hcode k 0); [done|known]].
      intros f r. replace (wsub 0 (- v)) with (wrap v) by (unfold wsub; f_equal; lia).
      split; [done| |done]. cbn [kr extend lr]. by rewrite put_twice.
Qed.

Lemma does_integer (self : node) x k S :
  draws self x -> (ivl_expr_signed (ex self) = true -> length x <= W)%nat -> nets_hold (ex self) x -> (k < WORDS_COUNT)%nat ->
  does (stack S) (eval_logic_into_integer self k)
    (Loc [(4%nat, index_flag (ivl_expr_signed (ex self)) x)] [(k, index_reg (ivl_expr_signed (ex self)) x)] S).
Proof using Hcode.
  intros Hx HW Hnet Hk. assert (H0 : (0 < length x)%nat) by by eapply dr_pos.
  assert (Hstack : does (stack S) (draw_vec4 self;; ix_vec4 (ivl_expr_signed (ex self)) k)
    (Loc [(4%nat, index_flag (ivl_expr_signed (ex self)) x)] [(k, index_reg (ivl_expr_signed (ex self)) x)] S)).
  { eapply does_bind; [apply Hx|]. by apply does_ix_vec4. }
  unfold eval_logic_into_integer. destruct (ex self) as [a bits|a sig wex|a op e1|a op e1 e2|a e1 e2 e3|a n ps|a e1 b] eqn:Ee; try exact Hstack.
  - pose proof (dr_number _ _ _ _ _ Hx a bits Ee) as ->. pose proof (dr_len _ _ _ _ _ Hx) as Hl. rewrite Ee in Hl.
    by apply (does_number_index a x k S Hl H0 HW Hk).
  - destruct Hnet as (Hs & Hnet0 & Hword).
    assert (Hgetv : forall w, vec_is (vec4_value d (sig_id sig, w)) x ->
      does (stack S) (emit (if ivl_signal_signed sig then IX_GETV_S k (sig_id sig, w) else IX_GETV k (sig_id sig, w)))
        (Loc [(4%nat, index_flag (ivl_expr_signed (IVL_EX_SIGNAL a sig wex)) x)]
             [(k, index_reg (ivl_expr_signed (IVL_EX_SIGNAL a sig wex)) x)] S)).
    { intros w Hv. rewrite Hs. by apply (does_getv d prog code Hcode (signed_of a) k (sig_id sig, w) x [] [] S). }
    destruct (Nat.eqb_spec (ivl_signal_dimensions sig) 0) as [Hd|Hd]; [by apply Hgetv, Hnet0|].
    destruct (ivl_signal_is_reg sig) eqn:Er; [exact Hstack|].
    destruct wex as [[wa wbits| | | | | |]|]; try exact Hstack; [|by intros s f r Hc' ? ls s' _].
    destruct (number_is_immediate wa wbits 32 false) eqn:Ei; [|exact Hstack].
    apply does_assert_if. intros Hu. apply Hgetv, (Hword wa wbits); try done. by apply negb_true_iff in Hu.
Qed.

(** ** Words of arrays *)

Lemma array_word_is a sig s y :
  array_ok d a sig -> (0 < length y <= 32)%nat ->
  vec_is (if bit4_eqb (index_flag s y) BIT4_1 then vec4_fill (get_word_size (array_of d (sig_id sig))) BIT4_X
          else array_get_word (array_of d (sig_id sig)) (index_reg s y mod 2 ^ 32))
    (select_word (array_bits d sig) (wid_of a) s y).
Proof.
  intros (_ & _ & Hws & Hlen & Hall) Hy. rewrite Hws. unfold select_word, index_flag, index_reg.
  destruct (unknown y) eqn:Hu; [apply vec_is_fill|]. cbn [orb].
  assert (Hf : bit4_eqb (if s || (bv_Z y <? wordsize) then BIT4_0 else BIT4_X) BIT4_1 = false) by (by destruct (s || _)).
  rewrite Hf. unfold array_get_word. rewrite Hws. set (words := array_words _) in *. unfold array_bits. fold words.
  pose proof (bv_num_range s y ltac:(lia)) as HR.
  assert (P31 : 2 ^ Z.of_nat (length y - 1) <= 2 ^ 31) by (apply Z.pow_le_mono_r; lia).
  assert (P32 : 2 ^ Z.of_nat (length y) <= 2 ^ 32) by (apply Z.pow_le_mono_r; lia).
  assert (Hv : - 2 ^ 31 <= bv_num s y < 2 ^ 32) by (destruct s; cbn; lia).
  assert (Hmod : wrap (bv_num s y) mod 2 ^ 32 = if bv_num s y <? 0 then bv_num s y + 2 ^ 32 else bv_num s y).
  { unfold wrap, wordsize. rewrite <- Znumtheory.Zmod_div_mod; [|lia|lia|by exists (2 ^ 32)].
    destruct (Z.ltb_spec (bv_num s y) 0); [|apply Z.mod_small; lia].
    rewrite <- (Z.mod_add _ 1) by lia. rewrite Z.mul_1_l. apply Z.mod_small. lia. }
  rewrite Hmod. destruct (Z.ltb_spec (bv_num s y) 0) as [Hn|Hn].
  - rewrite lookup_ge_None_2 by lia. apply vec_is_fill.
  - rewrite list_lookup_fmap. destruct (words !! Z.to_nat (bv_num s y)) as [v|] eqn:Ev; cbn [default]; [|apply vec_is_fill].
    apply vec_is_bits_of. rewrite Forall_lookup in Hall. by apply (Hall _ _ Ev).
Qed.

Lemma draws_signal a sig S :
  net_ok d a sig -> does (stack S) (draw_signal_vec4 sig None) (stack (net_bits d sig :: S)).
Proof using Hcode.
  intros (Hd & _ & Hw & _). unfold draw_signal_vec4. rewrite Hd. cbn [Nat.eqb]. apply does_load; [done|]. by apply vec_is_bits_of.
Qed.

Lemma draws_array a sig (ix : node) y S :
  array_ok d a sig -> indexes d prog code ix y -> (0 < length y <= 32)%nat ->
  does (stack S) (draw_signal_vec4 sig (Some ix))
    (stack (select_word (array_bits d sig) (wid_of a) (ivl_expr_signed (ex ix)) y :: S)).
Proof using Hcode.
  intros Ha Hix Hy. unfold draw_signal_vec4. rewrite (proj2 (Nat.eqb_neq _ _)) by apply Ha.
  apply (does_with_index d prog code ix y S _ (fun k => emit (LOAD_VEC4A (sig_id sig) k)) Hix).
  intros k fs rs Hreg Hflag. eapply does_load_array; [done|exact Hreg|exact Hflag|]. by apply array_word_is.
Qed.
End Signal.
