(* ===== verification/CodeGenProof.v ===== *)
(** The code of an expression computes its value: the induction over expressions. *)
From S2P Require Import Prelude MachineWord VvpBit VvpVector4 VvpSlice WordArith VvpArith VvpVector2 VvpCompare.
From S2P Require Import BitList VvpFunctor WordDiv VThread VThreadSpec VThreadParts VThreadIndex VThreadDiv.
From S2P Require Import VThreadMod CodeGen ExprSpec ExprFacts CodeGenRun CodeGenOps CodeGenAlloc.
From S2P Require Import CodeGenDraw CodeGenCondition CodeGenFlow CodeGenSelect.

Lemma ex_draw e : ex (draw e) = e.
Proof. destruct e as [a bits|a sig []|a op e|a op e1 e2|a e1 e2 e3|a n ps|a e1 []]; done. Qed.

(** [draw] closes the vector code of an expression over the other two entry points. *)
Definition operands_of (e : ivl_expr) : option (binary_op * node * node) :=
  match e with IVL_EX_BINARY _ opcode le re => Some (opcode, draw le, draw re) | _ => None end.

Lemma draw_closed e : draw e = close e (draw_vec4 (draw e)) (operands_of e).
Proof. destruct e as [a bits|a sig []|a op e|a op e1 e2|a e1 e2 e3|a n ps|a e1 []]; done. Qed.

Section Proof.
Context (d : design) (prog : list line) (code : list instr).
Context (Hcode : assemble prog = Some code) (Hlabels : NoDup (labels prog)).
Local Abbreviation does := (does d prog code).
Local Abbreviation draws := (draws d prog code).
Local Abbreviation decides := (decides d prog code).
Local Abbreviation indexes := (indexes d prog code).

(** The three entry points of an expression are right. *)
Record right (e : ivl_expr) : Prop := {
  rt_vec : wf_expr d e -> forall S, does (stack S) (draw_vec4 (draw e)) (stack (ev d e :: S));
  rt_cond : operand d e -> decides (draw_condition (draw e)) (ev d e);
  rt_int : operand d e -> (ivl_expr_signed e = true -> ivl_expr_width e <= W)%nat -> indexes (draw e) (ev d e) }.

Lemma draws_of (n : node) e :
  ex n = e -> operand d e -> (forall S, does (stack S) (draw_vec4 n) (stack (ev d e :: S))) -> draws n (ev d e).
Proof.
  intros E Ho Hv. split; [done|rewrite E; by apply ev_length|rewrite E; by eapply ev_fits|].
  intros a bits. rewrite E. by intros ->.
Qed.

Lemma right_draws e : right e -> operand d e -> draws (draw e) (ev d e).
Proof. intros Hr Ho. apply draws_of; [apply ex_draw|done|]. apply Hr, Ho. Qed.

(** The word that a literal index selects. *)
Lemma literal_word a sig wa wbits :
  wf_expr d (IVL_EX_SIGNAL a sig (Some (IVL_EX_NUMBER wa wbits))) -> ivl_signal_is_reg sig = false ->
  number_is_immediate wa wbits 32 false = true -> unknown wbits = false ->
  vec_is (vec4_value d (sig_id sig, Z.to_nat (get_number_immediate wa wbits mod 2 ^ 32)))
    (ev d (IVL_EX_SIGNAL a sig (Some (IVL_EX_NUMBER wa wbits)))).
Proof.
  intros (Hf & [_ [[H0 Hw] Hl]] & (_ & _ & _ & _ & Hall) & Hnet & H32) Hreg Hi Hu. unfold ivl_expr_width in H32. cbn [attr_of] in H32.
  cbn [ev]. unfold ivl_expr_signed. cbn [attr_of].
  destruct (number_is_immediate_known _ _ _ _ Hl ltac:(lia) Hu Hi) as [Hpad _]. specialize (Hpad eq_refl).
  assert (Hnum : bv_num (signed_of wa) wbits = bv_Z wbits).
  { destruct (signed_of wa) eqn:Es; [|done]. cbn [bv_num andb] in *. unfold bv_S. destruct (bit4_eqb (msb wbits) BIT4_1); [done|].
    apply Z.sub_0_r. }
  pose proof (bv_Z_range wbits) as HB. assert (P32 : 2 ^ Z.of_nat (length wbits) <= 2 ^ 32) by (apply Z.pow_le_mono_r; lia).
  assert (Eg : get_number_immediate wa wbits mod 2 ^ 32 = bv_num (signed_of wa) wbits).
  { rewrite <- get_number_is by (done || unfold W; lia). rewrite Hnum, wrap_small by (unfold is_word, wordsize; lia). apply Z.mod_small. lia. }
  rewrite Eg. cbn [net_word_ok] in Hnet. unfold ivl_expr_signed in Hnet. cbn [attr_of] in Hnet.
  destruct Hnet as [Hr|Hword]; [congruence|]. rewrite Hnum in *. specialize (Hword Hu ltac:(lia)).
  unfold select_word. rewrite Hu, Hnum, (proj2 (Z.ltb_ge _ _)) by lia. cbn [orb]. unfold array_bits.
  rewrite list_lookup_fmap, Hword. cbn. apply vec_is_bits_of. rewrite Forall_lookup in Hall. by apply (Hall _ _ Hword).
Qed.

Lemma nets_of e : operand d e -> nets_hold d e (ev d e).
Proof.
  intros [_ Hwf]. destruct e as [| a sig [ix|] | | | | |]; try done.
  - pose proof Hwf as (Hf & Hix & Ha & Hn & H32). destruct Ha as (Hd & Hs & Ha). split_and!; [done|done|].
    intros wa wbits [= ->] _. by apply literal_word.
  - destruct Hwf as (Hf & Hd & Hs & Hw & Hsz). split_and!; [done| |done]. intros _. by apply vec_is_bits_of.
Qed.

(** The condition and integer code from the vector code. *)
Lemma right_close e :
  (wf_expr d e -> forall S, does (stack S) (draw_vec4 (draw e)) (stack (ev d e :: S))) ->
  match e with
  | IVL_EX_BINARY _ _ le re => right le /\ right re
  | _ => True
  end -> right e.
Proof using Hcode.
  intros Hvec Hsub. split; [exact Hvec| |].
  - intros Ho. rewrite draw_closed. unfold close. cbn [draw_condition]. set (self := mkNode e _ _ _).
    assert (Hself : draws self (ev d e)) by (apply draws_of; [done|done|apply Hvec, Ho]).
    pose proof (decides_fallback _ _ _ Hcode self _ Hself) as Hfall.
    destruct e as [| | |a opcode le re| | |]; try exact Hfall. cbn [operands_of draw_condition_of].
    destruct Hsub as [Hle Hre]. destruct Ho as [_ (Hf & Hl & Hr & Hok)].
    pose proof (right_draws _ Hle Hl) as Dl. pose proof (right_draws _ Hre Hr) as Dr.
    assert (Hcmp : In opcode [b_eq; b_eeq; b_ne; b_nee] ->
      decides (draw_condition_binary_compare opcode (draw le) (draw re)) (ev d (IVL_EX_BINARY a opcode le re))).
    { intros Hin. cbn [ev]. rewrite <- (ex_draw le) at 2. rewrite <- (ex_draw re) at 2. by apply decides_compare. }
    assert (Hlt : In opcode [b_lt; b_gt; b_le; b_ge] ->
      decides (draw_condition_binary_le opcode (draw le) (draw re)) (ev d (IVL_EX_BINARY a opcode le re))).
    { intros Hin. cbn [ev]. rewrite <- (ex_draw le) at 2. rewrite <- (ex_draw re) at 2. by apply decides_le. }
    destruct opcode; try exact Hfall; try (apply Hcmp; cbn; tauto); try (apply Hlt; cbn; tauto).
    cbn [ev]. rewrite <- (ex_draw le) at 2. rewrite <- (ex_draw re) at 2.
    apply decides_lor; [done|apply Hf|by apply Hle|by apply Hre].
  - intros Ho HW k S Hk. rewrite draw_closed. unfold close. cbn [draw_integer]. set (self := mkNode e _ _ _).
    assert (Hself : draws self (ev d e)) by (apply draws_of; [done|done|apply Hvec, Ho]).
    rewrite <- (ev_length d e Ho) in HW. by apply (does_integer d prog code Hcode self (ev d e) k S Hself HW (nets_of e Ho)).
Qed.

(** ** The vector code, by the kind of expression *)

Lemma vec_binary a opcode le re :
  right le -> right re -> wf_expr d (IVL_EX_BINARY a opcode le re) ->
  forall S, does (stack S) (draw_vec4 (draw (IVL_EX_BINARY a opcode le re))) (stack (ev d (IVL_EX_BINARY a opcode le re) :: S)).
Proof using Hcode.
  intros Hle Hre (Hf & Hl & Hr & Hok) S. pose proof (right_draws _ Hle Hl) as Dl. pose proof (right_draws _ Hre Hr) as Dr.
  cbn [draw draw_vec4 close ev]. rewrite <- (ex_draw le) at 2. rewrite <- (ex_draw re) at 2.
  assert (Hok' : binary_ok opcode a (ex (draw le)) (ex (draw re))) by (by rewrite !ex_draw).
  assert (H0 : (0 < wid_of a)%nat) by apply Hf.
  assert (Hlen : ivl_expr_width le = ivl_expr_width re -> length (ev d le) = length (ev d re))
    by (intros E; by rewrite !ev_length).
  unfold draw_binary_vec4.
  destruct opcode; cbn in Hok; try done;
    first [by apply draws_arith|apply draws_bitwise; (done || cbn; tauto || (apply Hlen; lia))|idtac];
    try (apply draws_compare; (done || cbn; tauto)); try (apply draws_le; (done || cbn; tauto)).
  all: try (apply draws_lrs; [done|done| |rewrite ex_draw; apply Hok|cbn; tauto]; apply (rt_int _ Hre Hr); destruct Hok as [_ ->]; done).
  - by apply draws_land.
  - by apply draws_lor.
  - apply draws_lequiv; [done|done|done|apply Hlen; lia].
Qed.

Lemma kept_draws parms : kept_parts (map (fun p => (draw p, ev d p)) parms) = map (ev d) (kept parms).
Proof.
  induction parms as [|p l IH]; [done|]. cbn [map]. rewrite kept_cons, ex_draw, IH. unfold kept. rewrite filter_cons.
  destruct (zero_replication p) eqn:E; [by rewrite decide_False|by rewrite decide_True].
Qed.

Lemma vec_concat a n parms :
  Forall right parms -> wf_expr d (IVL_EX_CONCAT a n parms) ->
  forall S, does (stack S) (draw_vec4 (draw (IVL_EX_CONCAT a n parms))) (stack (ev d (IVL_EX_CONCAT a n parms) :: S)).
Proof using Hcode.
  intros Hr Hwf S. destruct Hwf as (Hp & _). rewrite wf_parms in Hp.
  set (ps := map (fun p => (draw p, ev d p)) parms).
  assert (Ef : map fst ps = map draw parms) by (unfold ps; by rewrite map_map).
  pose proof (kept_draws parms) as Ek. fold ps in Ek.
  cbn [draw draw_vec4 close ev]. unfold ev_concat. rewrite kept_values, <- Ek, <- Ef. apply draws_concat; [done|].
  unfold ps. apply Forall_map. rewrite Forall_forall in *. intros p Hin. specialize (Hr p Hin). specialize (Hp p Hin). split; cbn [fst snd].
  - by apply Hr.
  - by apply ev_pos.
  - intros b bits. rewrite ex_draw. intros ->. split; [done|]. by destruct Hp.
Qed.

Theorem draw_right e : right e.
Proof using Hcode Hlabels.
  induction e as [a bits|a sig|a sig ix IH|a op sub IH|a op le re IHl IHr|a c t f IHc IHt IHf|a n parms IH|a sub IH|a sub base IHs IHb]
    using expr_ind; apply right_close; try done; intros Hwf S; cbn [draw draw_vec4 close ev].
  - destruct Hwf as [Hf Hl]. apply does_number; [done|done|apply Hf].
  - apply (draws_signal d prog code Hcode a sig S). apply Hwf.
  - destruct Hwf as (Hf & Hix & Ha & _ & H32). rewrite <- (ex_draw ix) at 2.
    pose proof (ev_length d ix Hix) as Hl. apply draws_array; [done|done| |].
    + apply IH; [done|]. unfold W. lia.
    + pose proof (ev_pos d ix (proj2 Hix)). lia.
  - destruct Hwf as (Hf & Hsub & Hok). rewrite <- (ex_draw sub) at 2. apply draws_unary; [done|done|by apply right_draws|by rewrite ex_draw].
  - by apply vec_binary.
  - destruct Hwf as (Hf & Hc & Ht & Hff & Wt & Wf). apply draws_ternary; [done|done|by apply IHc|by apply right_draws|by apply right_draws|].
    rewrite !ev_length by done. congruence.
  - exact (vec_concat a n parms IH Hwf S).
  - destruct Hwf as (Hf & Hsub). apply draws_select_pad; [done|by apply right_draws].
  - destruct Hwf as (Hf & Hsub & Hbase & Hl & Hok). rewrite <- (ex_draw base) at 2.
    apply draws_select; [done|by apply right_draws|by apply right_draws|apply Hf|by rewrite ev_length|]. by rewrite ex_draw.
Qed.
End Proof.
