(* ===== verification/CodeGenTotal.v ===== *)
(** Code generation succeeds: how many flags and index registers an expression needs at once,
    and that with as many free [draw] returns, its assertions and its exhaustion errors not
    being reached. *)
From S2P Require Import Prelude MachineWord VvpBit VvpVector4 VvpSlice WordArith VvpArith VvpVector2 VvpCompare.
From S2P Require Import BitList VvpFunctor WordDiv VThread VThreadSpec VThreadParts VThreadIndex VThreadDiv.
From S2P Require Import VThreadMod CodeGen ExprSpec ExprFacts CodeGenRun CodeGenOps CodeGenAlloc.
From S2P Require Import CodeGenDraw CodeGenCondition CodeGenFlow CodeGenSelect CodeGenProof.

(** * What an expression needs *)

(** The flags its vector code and its condition code hold at once. *)
Fixpoint flag_need (e : ivl_expr) : nat * nat :=
  let vec (e : ivl_expr) := fst (flag_need e) in
  let fall (v : nat) := (v, S v) in
  match e with
  | IVL_EX_NUMBER _ _ | IVL_EX_SIGNAL _ _ None => (0, 1)
  | IVL_EX_SIGNAL _ _ (Some e) | IVL_EX_UNARY _ _ e | IVL_EX_SELECT _ e None => fall (vec e)
  | IVL_EX_BINARY _ opcode le re =>
      let v := Nat.max (vec le) (vec re) in
      match opcode with
      | b_eq | b_ne | b_eeq | b_nee | b_lt | b_gt | b_le | b_ge => (v, v)
      | b_lor => (v, Nat.max (Nat.max (snd (flag_need le)) 1) (S (snd (flag_need re))))
      | _ => fall v
      end
  | IVL_EX_TERNARY _ c t f => fall (Nat.max (Nat.max (snd (flag_need c)) 1) (S (Nat.max (vec t) (vec f))))
  | IVL_EX_CONCAT _ _ parms => fall (fold_right (fun p n => Nat.max (vec p) n) 0 parms)
  | IVL_EX_SELECT _ e (Some b) => fall (Nat.max (vec e) (vec b))
  end%nat.

(** The index registers. *)
Fixpoint word_need (e : ivl_expr) : nat :=
  match e with
  | IVL_EX_NUMBER _ _ | IVL_EX_SIGNAL _ _ None => 0
  | IVL_EX_SIGNAL _ _ (Some e) => S (word_need e)
  | IVL_EX_UNARY _ _ e | IVL_EX_SELECT _ e None => word_need e
  | IVL_EX_BINARY _ (b_shl | b_shr | b_ashr) le re => Nat.max (word_need le) (S (word_need re))
  | IVL_EX_BINARY _ _ le re => Nat.max (word_need le) (word_need re)
  | IVL_EX_TERNARY _ c t f => Nat.max (word_need c) (Nat.max (word_need t) (word_need f))
  | IVL_EX_CONCAT _ _ parms => fold_right (fun p n => Nat.max (word_need p) n) 0 parms
  | IVL_EX_SELECT _ e (Some b) => Nat.max (word_need e) (word_need b)
  end%nat.

(** ** What the assertions of the generator ask for *)

(** A literal that is evaluated into an index register fits 32 bits, and one that names a
    word of an array of nets is known. *)
Definition index_literal (e : ivl_expr) : bool :=
  match e with
  | IVL_EX_NUMBER a bits => number_is_immediate a bits 32 true
  | IVL_EX_SIGNAL _ sig (Some (IVL_EX_NUMBER a bits)) =>
      ivl_signal_is_reg sig || negb (number_is_immediate a bits 32 false) || negb (number_is_unknown bits)
  | _ => true
  end.

(** A literal base of a select is known. *)
Definition base_literal (e : ivl_expr) : bool :=
  match e with
  | IVL_EX_NUMBER a bits => negb (test_immediate_vec4_ok e) || negb (unknown bits)
  | _ => true
  end.

Fixpoint asserts_ok (e : ivl_expr) : bool :=
  match e with
  | IVL_EX_NUMBER _ _ | IVL_EX_SIGNAL _ _ None => true
  | IVL_EX_SIGNAL _ _ (Some e) => index_literal e && asserts_ok e
  | IVL_EX_UNARY _ _ e | IVL_EX_SELECT _ e None => asserts_ok e
  | IVL_EX_BINARY _ (b_shl | b_shr | b_ashr) le re => asserts_ok le && (index_literal re && asserts_ok re)
  | IVL_EX_BINARY a b_lequiv le re => (wid_of a =? 1)%nat && (asserts_ok le && asserts_ok re)
  | IVL_EX_BINARY _ _ le re => asserts_ok le && asserts_ok re
  | IVL_EX_TERNARY _ c t f => asserts_ok c && (asserts_ok t && asserts_ok f)
  | IVL_EX_CONCAT _ _ parms => forallb asserts_ok parms
  | IVL_EX_SELECT _ e (Some b) => asserts_ok e && (base_literal b && asserts_ok b)
  end.

(** * Free flags and registers *)

Definition free_in (used : nat -> bool) (l : list nat) : nat := length (filter (fun k => used k = false) l).
Definition free_flags (s : cg) : nat := free_in (flag_used s) (seq 0 FLAGS_COUNT).
Definition free_words (s : cg) : nat := free_in (word_used s) (seq 4 (WORD_COUNT - 4)).

Lemma free_in_ext u u' l : (forall k, u' k = u k) -> free_in u' l = free_in u l.
Proof. intros H. unfold free_in. f_equal. apply list_filter_iff. intros k. by rewrite H. Qed.

Lemma free_in_absent u u' k l : ~ In k l -> (forall j, u' j = u j || (j =? k)%nat) -> free_in u' l = free_in u l.
Proof.
  intros Hn Hu. unfold free_in. f_equal. induction l as [|j l IH]; [done|]. cbn in Hn.
  rewrite !filter_cons, IH by tauto. assert (E : u' j = u j).
  { rewrite Hu. rewrite (proj2 (Nat.eqb_neq j k)) by (intros ->; tauto). apply orb_false_r. }
  by rewrite E.
Qed.

Lemma free_in_add u u' k l :
  NoDup l -> In k l -> u k = false -> (forall j, u' j = u j || (j =? k)%nat) -> free_in u l = S (free_in u' l).
Proof.
  intros Hnd Hin Hk Hu. induction Hnd as [|j l Hj Hnd IH]; [done|]. unfold free_in in *. rewrite !filter_cons.
  rewrite list_elem_of_In in Hj. destruct (decide (j = k)) as [->|Hne].
  - rewrite Hk, Hu, Nat.eqb_refl, orb_true_r. rewrite decide_True, decide_False by done. cbn [length].
    f_equal. symmetry. by apply (free_in_absent u u' k).
  - assert (E : u' j = u j) by (rewrite Hu, (proj2 (Nat.eqb_neq j k)) by done; apply orb_false_r).
    rewrite E. destruct Hin as [->|Hin]; [done|]. destruct (decide (u j = false)); cbn [length]; by rewrite IH.
Qed.

Lemma free_in_some u l : (0 < free_in u l)%nat -> exists k, In k l /\ u k = false.
Proof.
  unfold free_in. destruct (filter _ l) as [|k r] eqn:E; cbn; [lia|]. intros _. exists k.
  assert (H : k ∈ filter (fun k => u k = false) l) by (rewrite E; left).
  apply list_elem_of_filter in H as [H1 H2]. by rewrite <- list_elem_of_In.
Qed.

Lemma same_free s s' : same_used s s' -> free_flags s' = free_flags s /\ free_words s' = free_words s.
Proof. intros [F R]. split; by apply free_in_ext. Qed.

Lemma adds_flag_free s k s' : adds_flag s k s' -> free_flags s = S (free_flags s') /\ free_words s' = free_words s.
Proof.
  intros [Hr Hf F R]. split; [|by apply free_in_ext].
  apply (free_in_add _ _ k); [apply NoDup_ListNoDup, seq_NoDup|apply in_seq; unfold FLAGS_COUNT in *; lia|done|done].
Qed.

Lemma adds_word_free s k s' : (4 <= k)%nat -> adds_word s k s' -> free_words s = S (free_words s') /\ free_flags s' = free_flags s.
Proof.
  intros H4 [Hr Hf R F]. split; [|by apply free_in_ext].
  apply (free_in_add _ _ k); [apply NoDup_ListNoDup, seq_NoDup|apply in_seq; unfold WORDS_COUNT, WORD_COUNT in *; lia|done|done].
Qed.

(** The searches find what is free. *)
Lemma next_flag_some cnt idx mask k :
  (idx <= k < idx + cnt)%nat -> flag_bit mask k = false -> exists i, next_flag cnt idx mask = Some i.
Proof.
  revert idx. induction cnt as [|c IH]; intros idx Hk Hf; [lia|]. cbn. destruct (flag_bit mask idx) eqn:E; [|by eexists].
  apply IH; [|done]. destruct (decide (k = idx)) as [->|]; [congruence|lia].
Qed.

Lemma next_word_free cnt res mask k :
  (res <= k < res + cnt)%nat -> Z.testbit mask (Z.of_nat k) = false -> (next_word cnt res mask < res + cnt)%nat.
Proof.
  revert res. induction cnt as [|c IH]; intros res Hk Hf; [lia|]. cbn. destruct (Z.testbit mask (Z.of_nat res)) eqn:E; [|lia].
  destruct (decide (k = res)) as [->|]; [congruence|]. specialize (IH (res + 1)%nat ltac:(lia) Hf). lia.
Qed.

(** * Computations that succeed *)

Definition holding (s : cg) (k : nat) : Prop := (8 <= k < FLAGS_COUNT)%nat /\ flag_used s k = true.

(** With the flags [h] allocated, [nf] free flags and [nw] free registers, [m] returns; its
    result and the states before and after it are related by [Q]. *)
Definition ready {A} (h : list nat) (nf nw : nat) (m : M A) (Q : cg -> A -> cg -> Prop) : Prop :=
  forall s, wf_cg s -> Forall (holding s) h -> (nf <= free_flags s)%nat -> (nw <= free_words s)%nat ->
    exists a ls s', m s = Some (a, ls, s') /\ wf_cg s' /\ Q s a s'.

(** What is allocated is given back, and the result is known. *)
Definition restores {A} (s : cg) (_ : A) (s' : cg) : Prop := same_used s s'.
Definition gives {A} (P : A -> Prop) (s : cg) (a : A) (s' : cg) : Prop := same_used s s' /\ P a.
(** One flag more; one flag or register less. *)
Definition takes (s : cg) (k : nat) (s' : cg) : Prop := adds_flag s k s'.
Definition drops_flag {A} (k : nat) (s : cg) (_ : A) (s' : cg) : Prop :=
  (forall j, flag_used s' j = flag_used s j && negb (j =? k)%nat) /\ (forall j, word_used s' j = word_used s j).
Definition drops_word {A} (k : nat) (s : cg) (_ : A) (s' : cg) : Prop :=
  (forall j, word_used s' j = word_used s j && negb (j =? k)%nat) /\ (forall j, flag_used s' j = flag_used s j).

(** Relations that a balanced computation before does not change. *)
Class FromSame {A} (Q : cg -> A -> cg -> Prop) : Prop :=
  from_same : forall s s1 a s2, same_used s s1 -> Q s1 a s2 -> Q s a s2.
#[export] Instance restores_from_same {A} : FromSame (@restores A).
Proof. intros s s1 a s2. apply same_trans. Qed.
#[export] Instance gives_from_same {A} (P : A -> Prop) : FromSame (gives P).
Proof. intros s s1 a s2 H [H' HP]. split; [by eapply same_trans|done]. Qed.
#[export] Instance taken_from_same : FromSame taken.
Proof. intros s s1 a s2. apply same_taken. Qed.
#[export] Instance takes_from_same : FromSame takes.
Proof. intros s s1 a s2. apply same_adds_flag. Qed.
#[export] Instance drops_flag_from_same {A} k : FromSame (@drops_flag A k).
Proof. intros s s1 a s2 [F R] [F' R']. split; intros j; [by rewrite F', F|by rewrite R', R]. Qed.
#[export] Instance drops_word_from_same {A} k : FromSame (@drops_word A k).
Proof. intros s s1 a s2 [F R] [R' F']. split; intros j; [by rewrite R', R|by rewrite F', F]. Qed.

Lemma holding_same s s' h : same_used s s' -> Forall (holding s) h -> Forall (holding s') h.
Proof. intros [F _] H. eapply Forall_impl; [exact H|]. intros k [H1 H2]. split; [done|by rewrite F]. Qed.

Lemma holding_adds s k s' h : adds_flag s k s' -> Forall (holding s) h -> Forall (holding s') (k :: h).
Proof.
  intros [R1 R2 R3 R4] H. constructor; [split; [done|by rewrite R3, Nat.eqb_refl, orb_true_r]|].
  eapply Forall_impl; [exact H|]. intros j [H1 H2]. split; [done|by rewrite R3, H2].
Qed.

Lemma ready_mono {A} h nf nw nf' nw' (m : M A) Q :
  ready [] nf' nw' m Q -> (nf' <= nf)%nat -> (nw' <= nw)%nat -> ready h nf nw m Q.
Proof. intros H Hf Hn s Hw _ H1 H2. apply H; [done|done|lia|lia]. Qed.

Lemma ready_weaken {A} h nf nw (m : M A) (Q Q' : cg -> A -> cg -> Prop) :
  ready h nf nw m Q -> (forall s a s', Q s a s' -> Q' s a s') -> ready h nf nw m Q'.
Proof. intros H HQ s Hw Hh H1 H2. destruct (H s Hw Hh H1 H2) as (a & ls & s' & E & W & HQ0). exists a, ls, s'. auto. Qed.

Lemma ready_bind_gives {A B} h nf nw (m : M A) (k : A -> M B) (P : A -> Prop) Q :
  FromSame Q -> ready h nf nw m (gives P) -> (forall a, P a -> ready h nf nw (k a) Q) -> ready h nf nw (a ← m; k a) Q.
Proof.
  intros HQ Hm Hk s Hw Hh H1 H2. destruct (Hm s Hw Hh H1 H2) as (a & l1 & s1 & E1 & W1 & Hs & Ha).
  destruct (same_free _ _ Hs) as [F1 F2]. destruct (Hk a Ha s1 W1) as (b & l2 & s2 & E2 & W2 & Q2); [by eapply holding_same|lia|lia|].
  exists b, (l1 ++ l2), s2. unfold mbind, M_bind. rewrite E1, E2. split_and!; [done|done|]. by eapply HQ.
Qed.

Lemma ready_bind {A B} h nf nw (m : M A) (k : A -> M B) Q :
  FromSame Q -> ready h nf nw m restores -> (forall a, ready h nf nw (k a) Q) -> ready h nf nw (a ← m; k a) Q.
Proof.
  intros HQ Hm Hk. apply (ready_bind_gives _ _ _ _ _ (fun _ => True)); [done| |by intros].
  eapply ready_weaken; [exact Hm|]. intros s a s' H. by split.
Qed.

Lemma ready_ret {A} h nf nw (a : A) : ready h nf nw (mret a) restores.
Proof. intros s Hw _ _ _. by exists a, [], s. Qed.
Lemma ready_ret_eq {A} h nf nw (a : A) : ready h nf nw (mret a) (gives (eq a)).
Proof. intros s Hw _ _ _. by exists a, [], s. Qed.
Lemma ready_ret_low h nf nw k : (k < 8)%nat -> ready h nf nw (mret k) taken.
Proof. intros Hk s Hw _ _ _. exists k, [], s. split_and!; [done|done|by left]. Qed.
Lemma ready_emit h nf nw i : ready h nf nw (emit i) restores.
Proof. intros s Hw _ _ _. by exists tt, [Instr i], s. Qed.
Lemma ready_emit_label h nf nw n : ready h nf nw (emit_label n) restores.
Proof. intros s Hw _ _ _. by exists tt, [Label n], s. Qed.
Lemma ready_next_label h nf nw : ready h nf nw next_label restores.
Proof. intros s [H1 H2] _ _ _. eexists _, [], _. split_and!; [done|by split|done]. Qed.
Lemma ready_lift {A} h nf nw (o : option A) : is_Some o -> ready h nf nw (lift o) (gives (fun a => o = Some a)).
Proof. intros [a ->] s Hw _ _ _. by exists a, [], s. Qed.

(** ** Allocation *)

Lemma ready_allocate_flag h nf nw : ready h (S nf) nw allocate_flag takes.
Proof.
  intros s Hw _ Hf _. destruct (free_in_some (flag_used s) (seq 0 FLAGS_COUNT)) as (k & Hk & Hu); [unfold free_flags in Hf; lia|].
  apply in_seq in Hk. destruct (next_flag_some FLAGS_COUNT 0 (allocate_flag_mask s) k Hk Hu) as [i Hi].
  assert (E : exists s', allocate_flag s = Some (i, [], s')) by (unfold allocate_flag; rewrite Hi; by eexists).
  destruct E as [s' E]. destruct (allocate_flag_spec _ _ _ _ Hw E) as (_ & W' & _ & Ha). by exists i, [], s'.
Qed.

Lemma ready_clr_flag h nf nw k : In k h -> ready h nf nw (clr_flag k) (drops_flag k).
Proof.
  intros Hin s Hw Hh _ _. rewrite List.Forall_forall in Hh. destruct (Hh k Hin) as [Hk Hu].
  assert (E : exists s', clr_flag k s = Some (tt, [], s')).
  { unfold clr_flag. rewrite (proj2 (Nat.ltb_ge k 8)), (proj2 (Nat.ltb_lt k FLAGS_COUNT)) by lia.
    unfold flag_used in Hu. rewrite Hu. by eexists. }
  destruct E as [s' E]. destruct (clr_flag_spec s k [] s' Hw (proj1 Hk) E) as (_ & W' & _ & H). by exists tt, [], s'.
Qed.

Lemma ready_clr_word h nf nw k : (k < WORD_COUNT)%nat -> ready h nf nw (clr_word k) (drops_word k).
Proof.
  intros Hk s Hw _ _ _. assert (E : exists s', clr_word k s = Some (tt, [], s')).
  { unfold clr_word. rewrite (proj2 (Nat.ltb_lt k WORD_COUNT)) by done. by eexists. }
  destruct E as [s' E]. destruct (clr_word_spec s k [] s' Hw E) as (_ & W' & _ & H). by exists tt, [], s'.
Qed.

(** A flag for the time of [rest], which gives it back. *)
Lemma ready_hold {A} h nf nw (m : M nat) (rest : nat -> M A) :
  ready h (S nf) nw m takes -> (forall k, ready (k :: h) nf nw (rest k) (drops_flag k)) ->
  ready h (S nf) nw (k ← m; rest k) restores.
Proof.
  intros Hm Hb s Hw Hh H1 H2. destruct (Hm s Hw Hh H1 H2) as (k & l1 & s1 & E1 & W1 & Ha).
  destruct (adds_flag_free _ _ _ Ha) as [F1 F2].
  destruct (Hb k s1 W1) as (a & l2 & s2 & E2 & W2 & S1 & S2); [by eapply holding_adds|lia|lia|].
  destruct Ha as [R1 R2 R3 R4]. exists a, (l1 ++ l2), s2. unfold mbind, M_bind. rewrite E1, E2. split_and!; [done|done|].
  split; intros j; [|by rewrite S2, R4]. rewrite S1, R3.
  destruct (Nat.eqb_spec j k) as [->|]; cbn; [by rewrite R2|]. by rewrite orb_false_r, andb_true_r.
Qed.

(** A new flag that [rest] returns. *)
Lemma ready_new_flag h nf nw (rest : nat -> M nat) :
  (forall k, ready (k :: h) nf nw (rest k) (gives (eq k))) -> ready h (S nf) nw (k ← allocate_flag; rest k) taken.
Proof.
  intros Hb s Hw Hh H1 H2. destruct (ready_allocate_flag h nf nw s Hw Hh H1 H2) as (k & l1 & s1 & E1 & W1 & Ha).
  destruct (adds_flag_free _ _ _ Ha) as [F1 F2].
  destruct (Hb k s1 W1) as (a & l2 & s2 & E2 & W2 & Hs & <-); [by eapply holding_adds|lia|lia|].
  exists k, (l1 ++ l2), s2. unfold mbind, M_bind. rewrite E1, E2. split_and!; [done|done|]. right. by eapply adds_flag_same.
Qed.

(** The flag of a condition, moved when it is a scratch flag. *)
Lemma ready_keep {A} h nf nf' nw (m : M nat) (keep : nat -> M nat) (rest : nat -> M A) (Q1 : nat -> cg -> A -> cg -> Prop)
    (Q : cg -> A -> cg -> Prop) :
  ready h nf nw m taken -> (forall k, (8 <= k)%nat -> keep k = mret k) -> (forall k, (k < 8)%nat -> ready h 1 nw (keep k) takes) ->
  (forall k, ready (k :: h) nf' nw (rest k) (Q1 k)) -> (forall s k s1 a s2, adds_flag s k s1 -> Q1 k s1 a s2 -> Q s a s2) ->
  ready h (Nat.max (Nat.max nf 1) (S nf')) nw (k0 ← m; k ← keep k0; rest k) Q.
Proof.
  intros Hm Hhigh Hlow Hb HQ s Hw Hh H1 H2. destruct (Hm s Hw Hh ltac:(lia) H2) as (k0 & l1 & s1 & E1 & W1 & Ht).
  assert (Hk : exists k l2 s2, keep k0 s1 = Some (k, l2, s2) /\ wf_cg s2 /\ adds_flag s k s2).
  { destruct (Nat.le_gt_cases 8 k0) as [Hge|Hlt].
    - exists k0, [], s1. rewrite Hhigh by done. split_and!; [done|done|]. destruct Ht as [[H _]|H]; [lia|done].
    - destruct Ht as [[_ Hs]|[H _ _ _]]; [|lia]. destruct (same_free _ _ Hs) as [F1 F2].
      destruct (Hlow k0 Hlt s1 W1) as (k & l2 & s2 & E2 & W2 & Ha); [by eapply holding_same|lia|lia|].
      exists k, l2, s2. split_and!; [done|done|by eapply same_adds_flag]. }
  destruct Hk as (k & l2 & s2 & E2 & W2 & Ha). destruct (adds_flag_free _ _ _ Ha) as [F1 F2].
  destruct (Hb k s2 W2) as (a & l3 & s3 & E3 & W3 & Q3); [by eapply holding_adds|lia|lia|].
  exists a, (l1 ++ l2 ++ l3), s3. unfold mbind, M_bind. rewrite E1, E2, E3. split_and!; [done|done|]. by eapply HQ.
Qed.

(** A register for the time of [rest]. *)
Lemma ready_word {A} h nf nw (rest : nat -> M A) :
  (forall k, (k < WORD_COUNT)%nat -> ready h nf nw (rest k) (drops_word k)) -> ready h nf (S nw) (k ← allocate_word; rest k) restores.
Proof.
  intros Hb s Hw Hh H1 H2. destruct (free_in_some (word_used s) (seq 4 (WORD_COUNT - 4))) as (j & Hj & Hu); [unfold free_words in H2; lia|].
  apply in_seq in Hj. pose proof (next_word_free (WORD_COUNT - 4) 4 (word_alloc_mask s) j Hj Hu) as Hlt.
  destruct (next_word_spec (WORD_COUNT - 4) 4 (word_alloc_mask s)) as [Hge _].
  set (k := next_word (WORD_COUNT - 4) 4 (word_alloc_mask s)) in *.
  assert (E1 : exists s1, allocate_word s = Some (k, [], s1)).
  { unfold allocate_word. fold k. rewrite (proj2 (Nat.leb_gt WORD_COUNT k)) by (unfold WORD_COUNT in *; lia). by eexists. }
  destruct E1 as [s1 E1]. destruct (allocate_word_spec _ _ _ _ Hw E1) as (_ & W1 & _ & Ha).
  destruct (adds_word_free s k s1 (proj1 Hge) Ha) as [F1 F2]. destruct Ha as [R1 R2 R3 R4].
  destruct (Hb k Hlt s1 W1) as (a & l2 & s2 & E2 & W2 & S1 & S2); [|lia|lia|].
  { eapply Forall_impl; [exact Hh|]. intros i [I1 I2]. split; [done|by rewrite R4]. }
  exists a, ([] ++ l2), s2. unfold mbind, M_bind. rewrite E1, E2. split_and!; [done|done|].
  split; intros i; [by rewrite S2, R4|]. rewrite S1, R3.
  destruct (Nat.eqb_spec i k) as [Ei|]; cbn [negb]; [by rewrite Ei, R2|]. by rewrite orb_false_r, andb_true_r.
Qed.

Lemma ready_resize h nf nw e wid : ready h nf nw (resize_vec4_wid e wid) restores.
Proof. unfold resize_vec4_wid. repeat case_match; apply ready_ret || apply ready_emit. Qed.
Lemma ready_reduce h nf nw e : ready h nf nw (reduce_or e) restores.
Proof. unfold reduce_or. case_match; apply ready_ret || apply ready_emit. Qed.

(** ** Automation *)

(** One step, by the head of the computation: a bind, a test, a leaf, or a known computation
    with fewer needs. *)
Ltac ready_step :=
  lazymatch goal with
  | |- ready _ _ _ (if ?b then _ else _) _ => let H := fresh "Hb" in destruct b eqn:H
  | |- ready _ _ _ (mbind _ _) _ => eapply ready_bind; [apply _| |intros ?]; cbn beta
  | |- ready _ _ _ (mret _) restores => apply ready_ret
  | |- ready _ _ _ (mret _) (gives _) => apply ready_ret_eq
  | |- ready _ _ _ (mret _) taken => apply ready_ret_low; lia
  | |- ready _ _ _ (emit _) _ => apply ready_emit
  | |- ready _ _ _ (emit_label _) _ => apply ready_emit_label
  | |- ready _ _ _ next_label _ => apply ready_next_label
  | |- ready _ _ _ (resize_vec4_wid _ _) _ => apply ready_resize
  | |- ready _ _ _ (reduce_or _) _ => apply ready_reduce
  | |- ready _ _ _ (clr_word _) _ => by apply ready_clr_word
  | |- ready _ _ _ (clr_flag _) _ => apply ready_clr_flag; by left
  | |- ready _ _ _ ?m _ =>
      match goal with H : ready _ _ _ ?m' _ |- _ => constr_eq m m'; apply (ready_mono _ _ _ _ _ _ _ H); lia end
  end.
Ltac ready := repeat ready_step.

(** ** Literals *)

Lemma ready_concat_number h nf nw bits : forall v accum count, ready h nf nw (concat_number bits v accum count) restores.
Proof. induction bits as [|b bits IH]; intros v accum count; cbn [concat_number]; ready; by apply IH. Qed.

Lemma ready_number h nf nw a bits as_concati : ready h nf nw (draw_concat_number_vec4 (IVL_EX_NUMBER a bits) as_concati) restores.
Proof. apply ready_concat_number. Qed.

(** Words of [n] bits have room for one more. *)
Definition below (v : Z * Z) (n : nat) : Prop := 0 <= fst v < 2 ^ Z.of_nat n /\ 0 <= snd v < 2 ^ Z.of_nat n.

Lemma below_top v n : below v n -> (n <= 31)%nat -> Z.testbit (Z.lor (fst v) (snd v)) 31 = false.
Proof.
  intros [Ha Hb] Hn. assert (Hp : 2 ^ Z.of_nat n <= 2 ^ 31) by (apply Z.pow_le_mono_r; lia).
  assert (Hx : forall x, 0 <= x < 2 ^ Z.of_nat n -> Z.testbit x 31 = false).
  { intros x Hx. destruct (Z.eq_dec x 0) as [->|]; [done|]. apply Z.bits_above_log2; [lia|]. apply Z.log2_lt_pow2; lia. }
  by rewrite Z.lor_spec, (Hx (fst v) Ha), (Hx (snd v) Hb).
Qed.

Lemma below_shift b v n : below v n -> (n <= 31)%nat -> below (shift_in b v) (S n).
Proof.
  intros [Ha Hb] Hn. assert (Hp : 2 ^ Z.of_nat n <= 2 ^ 31) by (apply Z.pow_le_mono_r; lia).
  assert (H : forall c (x : bool), 0 <= c < 2 ^ Z.of_nat n -> 0 <= Z.lor (wshl c 1) (Z.b2z x) < 2 ^ Z.of_nat (S n)).
  { intros c x Hc. rewrite lor_bit by lia. rewrite Nat2Z.inj_succ, Z.pow_succ_r by lia. destruct x; cbn [Z.b2z]; lia. }
  pose proof (H (fst v) false Ha) as A0. pose proof (H (snd v) false Hb) as B0. cbn [Z.b2z] in A0, B0. rewrite Z.lor_0_r in A0, B0.
  pose proof (H (fst v) true Ha) as A1. pose proof (H (snd v) true Hb) as B1.
  destruct b; split; cbn [shift_in fst snd]; done.
Qed.

Lemma immediate_words_some bits : forall v n, below v n -> (n + length bits <= 32)%nat -> is_Some (immediate_words bits v).
Proof.
  induction bits as [|b bits IH]; intros v n Hv Hl; cbn [immediate_words length] in *; [by eexists|].
  rewrite (below_top v n Hv) by lia. apply (IH _ (S n)); [apply below_shift; [done|lia]|lia].
Qed.

Lemma immediate_words_zeros n bits : immediate_words (replicate n BIT4_0 ++ bits) (0, 0) = immediate_words bits (0, 0).
Proof. induction n as [|n IH]; [done|]. exact IH. Qed.

Lemma make_immediate_some a bits :
  length bits = wid_of a -> test_immediate_vec4_ok (IVL_EX_NUMBER a bits) = true -> is_Some (make_immediate_vec4_words (IVL_EX_NUMBER a bits)).
Proof.
  intros Hl Ht. cbn [make_immediate_vec4_words]. rewrite <- Hl, take_ge by done.
  assert (Hs : is_Some (immediate_words (reverse bits) (0, 0))).
  { cbn in Ht. rewrite <- Hl in Ht. destruct (Nat.leb_spec (length bits) 32) as [Hle|Hgt].
    - apply (immediate_words_some _ _ 0); [done|]. by rewrite length_reverse.
    - cbn [orb] in Ht. rewrite take_ge in Ht by (rewrite length_skipn; lia).
      assert (Ez : drop 32 bits = replicate (length bits - 32) BIT4_0).
      { rewrite <- length_drop. symmetry; apply replicate_as_elem_of. split; [done|]. intros b Hb. apply list_elem_of_In in Hb.
        rewrite forallb_forall in Ht. specialize (Ht b Hb). by destruct b. }
      rewrite <- (take_drop 32 bits), reverse_app, Ez, reverse_replicate, immediate_words_zeros.
      apply (immediate_words_some _ _ 0); [done|]. rewrite length_reverse, length_take. lia. }
  destruct Hs as [v ->]. by eexists.
Qed.

Section Total.
Context (d : design).

Lemma ready_immediate h nf nw e opcode :
  wf_expr d e -> test_immediate_vec4_ok e = true -> ready h nf nw (draw_immediate_vec4 e opcode) restores.
Proof.
  intros Hwf Ht. destruct e as [a bits| | | | | |]; try done. unfold draw_immediate_vec4.
  eapply ready_bind_gives; [apply _| |].
  - apply ready_lift, make_immediate_some; [apply Hwf|done].
  - intros [[v0 vx] wid] _. apply ready_emit.
Qed.

(** * Operands *)

Record able (n : node) (fv fc w : nat) : Prop := {
  ab_wf : wf_expr d (ex n);
  ab_vec : ready [] fv w (draw_vec4 n) restores;
  ab_cond : ready [] fc w (draw_condition n) taken;
  ab_int : index_literal (ex n) = true -> forall k, ready [] fv w (draw_integer n k) restores }.

Lemma imm_wf n fv fc w : able n fv fc w -> wf_expr d (ex n).
Proof. intros [H _ _ _]. exact H. Qed.

(** The needs of two operands. *)
Ltac operands := repeat match goal with H : able _ _ _ _ |- _ => destruct H as [? ? ? ?] end.

Lemma ready_magnitude h (l r : node) fl cl wl fr cr wr s :
  able l fl cl wl -> able r fr cr wr -> ready h (Nat.max fl fr) (Nat.max wl wr) (draw_magnitude s l r) restores.
Proof.
  intros Hl Hr. unfold draw_magnitude. cbv zeta. operands. ready_step; [ready|]. ready_step; [ready|]. destruct (_ && _) eqn:Ht; [|ready].
  apply andb_true_iff in Ht as [_ Ht]. by apply ready_immediate.
Qed.

Section Two.
Context (h : list nat) (l r : node) (fl cl wl fr cr wr : nat).
Local Abbreviation fv := (Nat.max fl fr).
Local Abbreviation w := (Nat.max wl wr).

Lemma ready_arith a opcode :
  able l fl cl wl -> able r fr cr wr ->
  In opcode [b_add; b_sub; b_mul; b_div; b_mod; b_pow] -> ready h fv w (draw_binary_vec4_arith a opcode l r) restores.
Proof.
  intros Hl Hr Hin. unfold draw_binary_vec4_arith. cbv zeta. operands. ready_step; [ready|]. ready_step; [ready|].
  destruct (_ && _) eqn:Ht.
  - apply andb_true_iff in Ht as [_ Ht]. destruct opcode; try (exfalso; cbn in Hin; intuition congruence).
    all: try (by apply ready_immediate); ready.
  - destruct opcode; try (exfalso; cbn in Hin; intuition congruence); ready.
Qed.

Lemma ready_bitwise opcode :
  able l fl cl wl -> able r fr cr wr ->
  In opcode [b_and; b_or; b_xor; b_nand; b_nor; b_xnor] -> ready h fv w (draw_binary_vec4_bitwise opcode l r) restores.
Proof.
  intros Hl Hr Hin. unfold draw_binary_vec4_bitwise. operands.
  destruct opcode; try (exfalso; cbn in Hin; intuition congruence); ready.
Qed.

Lemma ready_compare opcode :
  able l fl cl wl -> able r fr cr wr ->
  In opcode [b_eq; b_ne; b_eeq; b_nee; b_weq; b_wne] -> ready h fv w (draw_binary_vec4_compare opcode l r) restores.
Proof.
  intros Hl Hr Hin. unfold draw_binary_vec4_compare. cbv zeta. operands.
  destruct opcode; try (exfalso; cbn in Hin; intuition congruence); ready.
Qed.

Lemma ready_lequiv a :
  able l fl cl wl -> able r fr cr wr -> binary_ok b_lequiv a (ex l) (ex r) -> wid_of a = 1%nat ->
  ready h fv w (draw_binary_vec4_lequiv a l r) restores.
Proof.
  intros Hl Hr [El Er] Ea. unfold draw_binary_vec4_lequiv. operands. rewrite El, Er, Ea. cbn [Nat.eqb assert_true]. ready.
Qed.

Lemma ready_logical op a : able l fl cl wl -> able r fr cr wr -> ready h fv w (draw_binary_vec4_logical op a l r) restores.
Proof. intros Hl Hr. unfold draw_binary_vec4_logical. operands. ready. Qed.

Lemma ready_le opcode :
  able l fl cl wl -> able r fr cr wr -> In opcode [b_lt; b_le; b_gt; b_ge] -> ready h fv w (draw_binary_vec4_le opcode l r) restores.
Proof.
  intros Hl Hr Hin. pose proof (ready_magnitude h l r fl cl wl fr cr wr) as H1. pose proof (ready_magnitude h r l fr cr wr fl cl wl) as H2.
  rewrite (Nat.max_comm fr fl), (Nat.max_comm wr wl) in H2.
  unfold draw_binary_vec4_le. cbv zeta. destruct opcode; try (exfalso; cbn in Hin; intuition congruence); cbv beta iota.
  all: ready_step; [auto|ready].
Qed.

Lemma ready_lrs opcode :
  able l fl cl wl -> able r fr cr wr -> index_literal (ex r) = true -> In opcode [b_shl; b_shr; b_ashr] ->
  ready h fv (Nat.max wl (S wr)) (draw_binary_vec4_lrs opcode l r) restores.
Proof.
  intros Hl Hr Hi Hin. unfold draw_binary_vec4_lrs. operands. ready_step; [ready|].
  assert (H : ready [] fr (S wr) (use_index_reg ← allocate_word; draw_integer r use_index_reg;;
    match opcode with
    | b_shl => emit (SHIFTL use_index_reg)
    | b_shr => emit (SHIFTR use_index_reg)
    | b_ashr => emit (if ivl_expr_signed (ex l) then SHIFTR_S use_index_reg else SHIFTR use_index_reg)
    | _ => stop
    end;; clr_word use_index_reg) restores); [|apply (ready_mono _ _ _ _ _ _ _ H); lia].
  apply ready_word. intros k Hk. specialize (ab_int0 Hi k). destruct opcode; try (exfalso; cbn in Hin; intuition congruence); ready.
Qed.

End Two.

(** ** Conditions *)

Section Conditions.
Context (h : list nat) (l r : node) (fl cl wl fr cr wr : nat).
Local Abbreviation fv := (Nat.max fl fr).
Local Abbreviation w := (Nat.max wl wr).

Lemma ready_condition_compare opcode :
  able l fl cl wl -> able r fr cr wr -> In opcode [b_eq; b_ne; b_eeq; b_nee] ->
  ready h fv w (draw_condition_binary_compare opcode l r) taken.
Proof.
  intros Hl Hr Hin. unfold draw_condition_binary_compare. cbv zeta.
  assert (H : forall le re, able le fl cl wl /\ able re fr cr wr \/ able le fr cr wr /\ able re fl cl wl ->
    ready h fv w (let is_ne := match opcode with b_ne | b_nee => true | _ => false end in
      draw_vec4 le;; resize_vec4_wid (ex le) (max_width (ex l) (ex r));;
      (if (ivl_expr_width (ex re) =? max_width (ex l) (ex r))%nat && test_immediate_vec4_ok (ex re)
       then draw_immediate_vec4 (ex re) (if is_ne then CMPINE else CMPIE)
       else draw_vec4 re;; resize_vec4_wid (ex re) (max_width (ex l) (ex r));; emit (if is_ne then CMPNE else CMPE));;
      match opcode with b_ne | b_eq => mret 4%nat | b_nee | b_eeq => mret 6%nat | _ => stop end) taken).
  { clear Hl Hr. intros le re Hab. cbv zeta. ready_step; [destruct Hab as [[H1 _]|[H1 _]]; operands; ready|].
    ready_step; [ready|]. ready_step.
    - destruct (_ && _) eqn:Ht.
      + apply andb_true_iff in Ht as [_ Ht]. apply ready_immediate; [|done]. destruct Hab as [[_ H1]|[_ H1]]; by operands.
      + destruct Hab as [[_ H1]|[_ H1]]; operands; ready.
    - destruct opcode; try (exfalso; cbn in Hin; intuition congruence); ready. }
  destruct (_ && _); apply H; auto.
Qed.

Lemma ready_condition_le opcode :
  able l fl cl wl -> able r fr cr wr -> In opcode [b_lt; b_gt; b_le; b_ge] ->
  ready h fv w (draw_condition_binary_le opcode l r) taken.
Proof.
  intros Hl Hr Hin. unfold draw_condition_binary_le. cbv zeta.
  pose proof (ready_magnitude h l r fl cl wl fr cr wr) as H1. pose proof (ready_magnitude h r l fr cr wr fl cl wl) as H2.
  rewrite (Nat.max_comm fr fl), (Nat.max_comm wr wl) in H2.
  destruct opcode; try (exfalso; cbn in Hin; intuition congruence);
    destruct (test_immediate_vec4_ok (ex l)), (test_immediate_vec4_ok (ex r)); cbn [andb negb]; cbv beta iota.
  all: ready_step; [auto|ready].
Qed.

Lemma drops_taken s lx s1 rx s2 s3 :
  adds_flag s lx s1 -> taken s1 rx s2 -> drops_flag lx s2 rx s3 -> taken s rx s3.
Proof.
  intros [L1 L2 L3 L4] Hr [HF HW]. destruct Hr as [[Hk [F3 W3]]|[R1 R2 R3 R4]]; [left; split; [done|]; split|right; split].
  - intros j. rewrite HF, F3, L3. destruct (Nat.eqb_spec j lx) as [->|]; cbn; [by rewrite L2|]. by rewrite orb_false_r, andb_true_r.
  - intros j. by rewrite HW, W3, L4.
  - done.
  - rewrite L3 in R2. by apply orb_false_iff in R2 as [? _].
  - assert (Hne : rx <> lx) by (intros ->; rewrite L3, Nat.eqb_refl, orb_true_r in R2; done).
    intros j. rewrite HF, R3, L3. destruct (Nat.eqb_spec j lx) as [->|]; cbn.
    + rewrite L2, (proj2 (Nat.eqb_neq _ _)) by done. by rewrite andb_false_r.
    + by rewrite orb_false_r, andb_true_r.
  - intros j. by rewrite HW, R4, L4.
Qed.

Definition swaps (lx : nat) (s1 : cg) (rx : nat) (s3 : cg) : Prop := exists s2, taken s1 rx s2 /\ drops_flag lx s2 rx s3.

Lemma ready_flag_mov g nf nw k : ready g (S nf) nw (tmp ← allocate_flag; emit (FLAG_MOV tmp k);; mret tmp) takes.
Proof.
  intros s Hw Hh Hf Hn. destruct (ready_allocate_flag g nf nw s Hw Hh Hf Hn) as (i & l1 & s1 & E & W & Ha).
  exists i, (l1 ++ [Instr (FLAG_MOV i k)] ++ []), s1. unfold mbind, M_bind, emit. by rewrite E.
Qed.

(** The ternary operator asserts that the new flag is not a scratch flag. *)
Lemma ready_flag_mov8 g nf nw k :
  ready g (S nf) nw (tmp ← allocate_flag; assert_true (8 <=? tmp)%nat;; emit (FLAG_MOV tmp k);; mret tmp) takes.
Proof.
  intros s Hw Hh Hf Hn. destruct (ready_allocate_flag g nf nw s Hw Hh Hf Hn) as (i & l1 & s1 & E & W & Ha).
  exists i, (l1 ++ [] ++ [Instr (FLAG_MOV i k)] ++ []), s1. unfold mbind, M_bind, emit. rewrite E.
  rewrite (proj2 (Nat.leb_le 8 i)) by apply (af_range _ _ _ Ha). done.
Qed.

Lemma ready_condition_lor :
  able l fl cl wl -> able r fr cr wr -> ready h (Nat.max (Nat.max cl 1) (S cr)) w (draw_condition_binary_lor l r) taken.
Proof.
  intros Hl Hr. unfold draw_condition_binary_lor. operands.
  eapply (ready_keep h cl cr w (draw_condition l) (fun lx => if (lx <? 8)%nat then _ else mret lx) _ swaps taken).
  - ready.
  - intros k Hk. by rewrite (proj2 (Nat.ltb_ge _ _) Hk).
  - intros k Hk. rewrite (proj2 (Nat.ltb_lt _ _) Hk). apply ready_flag_mov.
  - intros lx s Hw Hh H1 H2. inversion Hh as [|? ? [Hlo Hu] Hh']; subst.
    destruct (ab_cond0 s Hw) as (rx & l1 & s1 & E1 & W1 & Ht); [constructor|done|lia|].
    assert (Hold : holding s1 lx).
    { split; [done|]. destruct Ht as [[_ [F _]]|[_ _ F _]]; rewrite F, Hu; done. }
    destruct (ready_clr_flag [lx] 0 0 lx (or_introl eq_refl) s1 W1) as ([] & l2 & s2 & E2 & W2 & Hd); [by constructor|lia|lia|].
    exists rx, (l1 ++ [Instr (FLAG_OR rx lx)] ++ l2 ++ []), s2. unfold mbind, M_bind, emit. rewrite E1, E2.
    split_and!; [done|done|]. by exists s1.
  - intros s k s1 a s2 Ha (s1' & Ht & Hd). by eapply drops_taken.
Qed.
End Conditions.

Lemma ready_fallback h (e : node) fv w : ready [] fv w (draw_vec4 e) restores -> ready h (S fv) w (draw_condition_fallback e) taken.
Proof. intros H. unfold draw_condition_fallback. apply ready_new_flag. intros k. ready. Qed.

(** ** The ternary operator *)

Lemma drops_restores {A} s k s1 (a : A) s2 : adds_flag s k s1 -> drops_flag k s1 a s2 -> restores s a s2.
Proof.
  intros [R1 R2 R3 R4] [S1 S2]. split; intros j; [|by rewrite S2, R4]. rewrite S1, R3.
  destruct (Nat.eqb_spec j k) as [->|]; cbn; [by rewrite R2|]. by rewrite orb_false_r, andb_true_r.
Qed.

Lemma ready_ternary h (c t f : node) fc cc wc ft ct wt ff cf wf :
  able c fc cc wc -> able t ft ct wt -> able f ff cf wf ->
  ready h (Nat.max (Nat.max cc 1) (S (Nat.max ft ff))) (Nat.max wc (Nat.max wt wf)) (draw_ternary_vec4 c t f) restores.
Proof.
  intros Hc Ht Hf. unfold draw_ternary_vec4. operands. ready_step; [ready|]. ready_step; [ready|].
  apply (ready_keep h cc (Nat.max ft ff) _ (draw_condition c) (fun k => if (k <? 8)%nat then _ else mret k) _ drops_flag restores).
  - ready.
  - intros k Hk. by rewrite (proj2 (Nat.ltb_ge _ _) Hk).
  - intros k Hk. rewrite (proj2 (Nat.ltb_lt _ _) Hk). apply ready_flag_mov8.
  - intros k. cbv beta. ready.
  - intros s k s1 x s2. apply drops_restores.
Qed.

(** ** The other operators *)

Lemma ready_unary h a opcode (sub : node) fv fc w :
  able sub fv fc w -> unary_ok opcode a (ex sub) -> ready h fv w (draw_unary_vec4 a opcode sub) restores.
Proof.
  intros Hs Hok. unfold draw_unary_vec4. cbv zeta. operands. ready_step; [ready|].
  destruct opcode; ready.
Qed.

Definition drawable (fv w : nat) (n : node) : Prop := ready [] fv w (draw_vec4 n) restores.

Lemma ready_head h fv w (parms : list node) :
  Forall (drawable fv w) parms -> Exists (fun n => zero_replication (ex n) = false) parms ->
  ready h fv w (concat_head parms) (gives (Forall (drawable fv w))).
Proof.
  intros Hall Hex. induction Hall as [|n l Hn Hl IH]; [by inversion Hex|]. cbn [concat_head]. unfold drawable in Hn.
  ready_step; [ready|]. destruct (zero_replication (ex n)) eqn:E.
  - ready_step; [ready|]. apply IH. apply Exists_cons in Hex as [H|H]; [congruence|done].
  - eapply ready_weaken; [apply ready_ret_eq|]. intros s b s' [Hs <-]. by split.
Qed.

Lemma ready_rest h fv w (parms : list node) : Forall (drawable fv w) parms -> ready h fv w (concat_rest parms) restores.
Proof.
  induction 1 as [|n l Hn Hl IH]; [apply ready_ret|]. cbn [concat_rest]. unfold drawable in Hn. ready_step; [|done].
  destruct (ex n) as [a bits| | | | | |]; [apply ready_number|..]; ready.
Qed.

Lemma ready_concat h repeat (parms : list node) fv w :
  Forall (drawable fv w) parms -> Exists (fun n => zero_replication (ex n) = false) parms ->
  ready h fv w (draw_concat_vec4 repeat parms) restores.
Proof.
  intros Hall Hex. unfold draw_concat_vec4. eapply ready_bind_gives; [apply _|by apply ready_head|].
  intros rest Hrest. ready_step; [by apply ready_rest|]. ready.
Qed.

Lemma ready_pad h a (sub : node) fv fc w : able sub fv fc w -> ready h fv w (draw_select_pad_vec4 a sub) restores.
Proof. intros Hs. unfold draw_select_pad_vec4. operands. ready. Qed.

Lemma immediate_words_known bits : forall v v',
  Forall (fun b => bit4_is_xz b = false) bits -> snd v = 0 -> immediate_words bits v = Some v' -> snd v' = 0.
Proof.
  induction bits as [|b bits IH]; intros v v' Hk Hv; cbn [immediate_words]; [by intros [= <-]|].
  inversion Hk as [|? ? Hb Hk']; subst. destruct (Z.testbit _ 31); [done|]. apply IH; [done|].
  destruct b; try done; cbn [shift_in snd]; by rewrite Hv.
Qed.

Lemma ready_select h a (sub base : node) fs cs ws fb cb wb :
  able sub fs cs ws -> able base fb cb wb -> base_literal (ex base) = true ->
  ready h (Nat.max fs fb) (Nat.max ws wb) (draw_select_vec4 a sub base) restores.
Proof.
  intros Hs Hb Hlit. unfold draw_select_vec4. cbv zeta. operands.
  destruct (test_immediate_vec4_ok (ex base)) eqn:Ht; [|ready].
  destruct (ex base) as [b bits| | | | | |] eqn:Eb; try done. destruct ab_wf0 as [_ Hl].
  eapply ready_bind_gives; [apply _|apply ready_lift; by apply make_immediate_some|]. intros [[v0 vx] wid] E.
  assert (Ex : vx = 0).
  { unfold base_literal in Hlit. rewrite Ht in Hlit. cbn [negb orb] in Hlit. apply negb_true_iff in Hlit.
    cbn [make_immediate_vec4_words] in E. destruct (immediate_words _ _) as [v|] eqn:Ei; [|done]. injection E as -> _.
    refine (immediate_words_known _ (0, 0) (v0, vx) _ eq_refl Ei).
    rewrite <- Hl, take_ge by done. apply Forall_reverse. rewrite Forall_forall. intros c Hc.
    destruct (bit4_is_xz c) eqn:Ec; [|done]. rewrite <- Hlit. symmetry. unfold unknown. apply existsb_exists. exists c.
    split; [by apply list_elem_of_In|done]. }
  subst vx. cbn [Z.eqb assert_true]. ready.
Qed.

(** ** Signals and integers *)

Lemma ready_signal h sig (ix : option node) fv fc w :
  match ix with Some n => able n fv fc w /\ index_literal (ex n) = true /\ ivl_signal_dimensions sig <> 0%nat | None => ivl_signal_dimensions sig = 0%nat end ->
  ready h fv (S w) (draw_signal_vec4 sig ix) restores.
Proof.
  intros H. unfold draw_signal_vec4. destruct ix as [n|].
  - destruct H as (Hn & Hi & Hd). rewrite (proj2 (Nat.eqb_neq _ _)) by done. operands.
    apply ready_word. intros k Hk. specialize (ab_int0 Hi k). ready.
  - rewrite H. apply ready_emit.
Qed.

Lemma ready_integer (self : node) fv w k :
  wf_expr d (ex self) -> index_literal (ex self) = true -> drawable fv w self ->
  ready [] fv w (eval_logic_into_integer self k) restores.
Proof.
  intros Hwf Hi Hv. unfold drawable in Hv. unfold eval_logic_into_integer.
  destruct (ex self) as [a bits|a sig ix| | | | |] eqn:E; try (unfold ix_vec4; ready; fail).
  - cbn [index_literal] in Hi. rewrite Hi. cbn [assert_true]. ready.
  - assert (Hstack : ready [] fv w (draw_vec4 self;; ix_vec4 (ivl_expr_signed (IVL_EX_SIGNAL a sig ix)) k) restores) by (unfold ix_vec4; ready).
    cbv zeta. destruct (Nat.eqb_spec (ivl_signal_dimensions sig) 0) as [Hd|Hd]; [ready|]. destruct (ivl_signal_is_reg sig) eqn:Er; [done|].
    destruct ix as [ix|]; [|exfalso; apply Hd; apply Hwf]. destruct ix as [wa wbits| | | | | |]; try done.
    destruct (number_is_immediate wa wbits 32 false) eqn:En; [|done].
    cbn [index_literal] in Hi. rewrite Er, En in Hi. cbn [orb negb] in Hi. rewrite Hi. cbn [assert_true]. ready.
Qed.

(** * Every expression *)

Lemma able_close e vec operands_ fv fc w :
  wf_expr d e -> ready [] fv w vec restores ->
  ready [] fc w (draw_condition_of (mkNode e vec stop (fun _ => stop)) operands_) taken -> able (close e vec operands_) fv fc w.
Proof.
  intros Hwf Hv Hc. split; [done|done|done|]. intros Hi k. by apply ready_integer.
Qed.

Lemma able_fallback e vec fv w : wf_expr d e -> ready [] fv w vec restores -> able (close e vec None) fv (S fv) w.
Proof. intros Hwf Hv. apply able_close; [done|done|]. by apply ready_fallback. Qed.

Definition can_draw (e : ivl_expr) : Prop :=
  wf_expr d e -> asserts_ok e = true -> able (draw e) (fst (flag_need e)) (snd (flag_need e)) (word_need e).

Lemma can_binary a opcode le re : can_draw le -> can_draw re -> can_draw (IVL_EX_BINARY a opcode le re).
Proof.
  intros Hle Hre Hwf Hlit. pose proof Hwf as (Hf & [_ Wl] & [_ Wr] & Hok).
  assert (HL : asserts_ok le = true /\ asserts_ok re = true /\
    (In opcode [b_shl; b_shr; b_ashr] -> index_literal (ex (draw re)) = true) /\ (opcode = b_lequiv -> wid_of a = 1%nat)).
  { rewrite ex_draw. destruct opcode; cbn [asserts_ok] in Hlit; apply andb_true_iff in Hlit as [L1 L2];
      try (apply andb_true_iff in L2 as [L2 L3]); split_and!; try done; try (intros Hin; exfalso; cbn in Hin; intuition congruence).
    intros _. by apply Nat.eqb_eq. }
  destruct HL as (Ll & Lr & Hi & Hw1). specialize (Hle Wl Ll). specialize (Hre Wr Lr). cbn [draw].
  assert (Hok' : binary_ok opcode a (ex (draw le)) (ex (draw re))) by (by rewrite !ex_draw).
  assert (Hv : ready [] (fst (flag_need (IVL_EX_BINARY a opcode le re))) (word_need (IVL_EX_BINARY a opcode le re))
    (draw_binary_vec4 a opcode (draw le) (draw re)) restores).
  { unfold draw_binary_vec4. destruct opcode; cbn [flag_need word_need fst snd]; try (by destruct Hok).
    all: first [eapply ready_arith|eapply ready_bitwise|eapply ready_compare|eapply ready_le|eapply ready_lrs|eapply ready_logical|eapply ready_lequiv];
      try done; try (cbn; tauto); try (apply Hi; cbn; tauto); by apply Hw1. }
  apply able_close; [done|done|].
  destruct opcode; cbn [draw_condition_of].
  all: try (eapply ready_condition_compare; (done || cbn; tauto)).
  all: try (eapply ready_condition_le; (done || cbn; tauto)).
  all: try (eapply ready_fallback; exact Hv).
  by eapply ready_condition_lor.
Qed.

Lemma need_bound (f : ivl_expr -> nat) p parms : In p parms -> (f p <= fold_right (fun p n => Nat.max (f p) n) 0 parms)%nat.
Proof. induction parms as [|q l IH]; [done|]. cbn. intros [->|H]; [lia|]. specialize (IH H). lia. Qed.

Lemma kept_some parms : (0 < total_width parms)%nat -> Exists (fun p => zero_replication p = false) parms.
Proof.
  unfold total_width. induction parms as [|p l IH]; [cbn; lia|]. rewrite filter_cons.
  destruct (decide (zero_replication p = false)) as [E|E]; [by left|]. intros H. right. by apply IH.
Qed.

Lemma can_concat a n parms : Forall can_draw parms -> can_draw (IVL_EX_CONCAT a n parms).
Proof.
  intros Hall Hwf Hlit. pose proof Hwf as (Hp & H0 & _). rewrite wf_parms in Hp. cbn [asserts_ok] in Hlit. rewrite forallb_forall in Hlit.
  cbn [draw]. apply able_fallback; [done|]. apply ready_concat.
  - apply Forall_map. rewrite Forall_forall in *. intros p Hin. destruct (Hall p Hin (Hp p Hin)) as [_ Hv _ _]; [by apply Hlit, list_elem_of_In|].
    unfold drawable, compose. apply list_elem_of_In in Hin.
    eapply ready_mono; [exact Hv|exact (need_bound (fun p => fst (flag_need p)) p parms Hin)|exact (need_bound word_need p parms Hin)].
  - apply Exists_fmap. eapply Exists_impl; [exact (kept_some _ H0)|]. intros p E. cbn. by rewrite ex_draw.
Qed.

Theorem draw_able e : can_draw e.
Proof.
  induction e as [a bits|a sig|a sig ix IH|a op sub IH|a op le re IHl IHr|a c t f IHc IHt IHf|a n parms IH|a sub IH|a sub base IHs IHb]
    using expr_ind; [| | | |by apply can_binary| |by apply can_concat| |]; intros Hwf Hlit; cbn [draw]; apply able_fallback; try done.
  - apply ready_number.
  - destruct Hwf as (Hf & Hn & _). unfold draw_signal_vec4. rewrite Hn. apply ready_emit.
  - pose proof Hwf as (Hf & [_ Hix] & Ha & _). cbn [asserts_ok] in Hlit. apply andb_true_iff in Hlit as [L1 L2].
    eapply ready_signal. split_and!; [by apply IH|by rewrite ex_draw|apply Ha].
  - destruct Hwf as (Hf & [_ Hs] & Hok). eapply ready_unary; [by apply IH|by rewrite ex_draw].
  - destruct Hwf as (Hf & [_ Hc] & [_ Ht] & [_ Hff] & _). cbn [asserts_ok] in Hlit.
    apply andb_true_iff in Hlit as [L1 L2]. apply andb_true_iff in L2 as [L2 L3].
    eapply ready_ternary; [by apply IHc|by apply IHt|by apply IHf].
  - destruct Hwf as (Hf & [_ Hs]). eapply ready_pad. by apply IH.
  - destruct Hwf as (Hf & [_ Hs] & [_ Hb] & _). cbn [asserts_ok] in Hlit.
    apply andb_true_iff in Hlit as [L1 L2]. apply andb_true_iff in L2 as [L2 L3].
    eapply ready_select; [by apply IHs|by apply IHb|by rewrite ex_draw].
Qed.
End Total.
