(* ===== verification/CompilerProps.v ===== *)
(** The contract of the code generator: the lines of an expression, placed anywhere in a
    program, compute the value of the expression. *)
From S2P Require Import Prelude MachineWord VvpBit VvpVector4 VvpSlice WordArith VvpArith VvpVector2 VvpCompare.
From S2P Require Import BitList VvpFunctor WordDiv VThread VThreadSpec VThreadParts VThreadIndex VThreadDiv.
From S2P Require Import VThreadMod CodeGen ExprSpec ExprFacts CodeGenRun CodeGenOps CodeGenAlloc.
From S2P Require Import CodeGenDraw CodeGenCondition CodeGenFlow CodeGenSelect CodeGenProof CodeGenTotal.

(** * What the code of an expression does to a thread *)

(** The lines [ls] of a program, between [pre] and [post]. *)
Record placed (pre ls post : list line) (code : list instr) : Prop := {
  pl_code : assemble (pre ++ ls ++ post) = Some code;
  pl_labels : NoDup (labels (pre ++ ls ++ post)) }.

(** The flags and registers allocated in [s] keep their values. *)
Record keeps (s : cg) (thr thr' : vthread) : Prop := {
  kp_flags : forall k, (8 <= k)%nat -> flag_used s k = true -> get_flag thr' k = get_flag thr k;
  kp_regs : forall k, word_used s k = true -> get_word thr' k = get_word thr k }.

(** [thr] runs from the start of [ls] to [thr'] at its end. *)
Record passes (d : design) (code : list instr) (pre ls : list line) (s : cg) (thr thr' : vthread) : Prop := {
  ps_runs : runs d code thr thr';
  ps_pc : pc thr' = codespace_next (pre ++ ls);
  ps_wf : wf_thread thr';
  ps_keeps : keeps s thr thr' }.

Definition flags_of (s : cg) (thr : vthread) : gmap nat vvp_bit4_t :=
  filter (fun p => (8 <= fst p)%nat /\ flag_used s (fst p) = true) (map_seq 0 (flags thr)).
Definition regs_of (s : cg) (thr : vthread) : gmap nat Z := filter (fun p => word_used s (fst p) = true) (map_seq 0 (regs thr)).

Lemma flags_of_lookup s thr k b :
  flags_of s thr !! k = Some b <-> get_flag thr k = Some b /\ (8 <= k)%nat /\ flag_used s k = true.
Proof. unfold flags_of. by rewrite map_lookup_filter_Some, lookup_map_seq_0. Qed.
Lemma regs_of_lookup s thr k x :
  regs_of s thr !! k = Some x <-> get_word thr k = Some x /\ word_used s k = true.
Proof. unfold regs_of. by rewrite map_lookup_filter_Some, lookup_map_seq_0. Qed.

Lemma covered_of s thr : covered s (Know (flags_of s thr) (regs_of s thr) []).
Proof.
  split; intros k b; [intros [_ H]%flags_of_lookup|intros [_ H]%regs_of_lookup]; done.
Qed.

Lemma holds_of s thr S : wf_thread thr -> Forall2 vec_is (stack_vec4_ thr) S -> holds (Know (flags_of s thr) (regs_of s thr) S) thr.
Proof.
  intros Hw HS. split; [done| | |done]; intros k b; [intros [H _]%flags_of_lookup|intros [H _]%regs_of_lookup]; done.
Qed.

Lemma same_range {A} (l l' : list A) k : length l = length l' -> (forall x, l !! k = Some x -> l' !! k = Some x) -> l' !! k = l !! k.
Proof.
  intros Hl H. destruct (l !! k) as [x|] eqn:E; [by apply H|]. apply lookup_ge_None in E. apply lookup_ge_None. lia.
Qed.

Lemma keeps_of s thr thr' K :
  wf_thread thr -> holds K thr' -> flags_of s thr ⊆ kf K -> regs_of s thr ⊆ kr K -> keeps s thr thr'.
Proof.
  intros [F R] [[F' R'] HF HR _] SF SR. split.
  - intros k Hk Hu. unfold get_flag in *. apply same_range; [by rewrite F, F'|]. intros b Hb.
    apply HF. eapply lookup_weaken; [|exact SF]. by apply flags_of_lookup.
  - intros k Hu. unfold get_word in *. apply same_range; [by rewrite R, R'|]. intros b Hb.
    apply HR. eapply lookup_weaken; [|exact SR]. by apply regs_of_lookup.
Qed.

(** What a generated piece of code does, from its rule. *)
Lemma gens_passes {A} d pre ls post code s s0 (m : M A) a s' thr S φ (Q : A -> know) :
  placed pre ls post code -> wf_cg s -> m s = Some (a, ls, s') -> wf_thread thr -> pc thr = codespace_next pre ->
  Forall2 vec_is (stack_vec4_ thr) S ->
  gens d (pre ++ ls ++ post) code s (Know (flags_of s0 thr) (regs_of s0 thr) S) m φ Q ->
  flags_of s0 thr ⊆ kf (Q a) -> regs_of s0 thr ⊆ kr (Q a) ->
  φ a s' /\ wf_cg s' /\ exists thr', passes d code pre ls s0 thr thr' /\ holds (Q a) thr'.
Proof.
  intros [Hcode Hlab] Hs Em Hw Hpc HS Hg SF SR. destruct (Hg _ _ _ Hs Em) as (W' & F & _ & T).
  split_and!; [done|done|]. destruct (T (codespace_next pre) thr) as (thr' & R & P & HK); [by exists pre, post|done|by apply holds_of|].
  exists thr'. split; [|done]. split; [done|by rewrite codespace_app, P|apply HK|]. by eapply keeps_of.
Qed.

(** The allocation but for one register. *)
Definition without_word (k : nat) (s : cg) : cg :=
  mkCg (Z.ldiff (word_alloc_mask s) (Z.shiftl 1 (Z.of_nat k))) (allocate_flag_mask s) (local_count s).

Lemma without_word_used k s j : word_used (without_word k s) j = word_used s j && negb (j =? k)%nat.
Proof. unfold word_used. cbn [word_alloc_mask without_word]. by rewrite Z.ldiff_spec, testbit_one. Qed.

Lemma covered_less k s K : covered (without_word k s) K -> covered s K.
Proof. intros [F R]. split; [exact F|]. intros j x Hj. specialize (R j x Hj). rewrite without_word_used in R. by apply andb_true_iff in R as [R _]. Qed.

(** The code of an expression needs no program around it to be described statically. *)
Lemma static_right d e : right d [] [] e.
Proof. apply draw_right; [done|constructor]. Qed.

Lemma cg_start_wf : wf_cg cg_start.
Proof. split; [done|]. intros k Hk. do 8 (destruct k as [|k]; [done|]). lia. Qed.
Lemma cg_start_free : free_flags cg_start = 504%nat /\ free_words cg_start = 12%nat.
Proof. split; vm_compute; reflexivity. Qed.

Lemma draw_runs d e s ls s' pre post code thr S :
  wf_expr d e -> wf_cg s -> draw_eval_vec4 e s = Some (tt, ls, s') -> placed pre ls post code ->
  wf_thread thr -> pc thr = codespace_next pre -> Forall2 vec_is (stack_vec4_ thr) S ->
  exists thr', passes d code pre ls s thr thr' /\ Forall2 vec_is (stack_vec4_ thr') (ev d e :: S).
Proof.
  intros He Hs Em Hp Hw Hpc HS. pose proof (draw_right d _ _ (pl_code _ _ _ _ Hp) (pl_labels _ _ _ _ Hp) e) as [Hvec _ _].
  destruct (gens_passes d pre ls post code s s _ tt s' thr S _ _ Hp Hs Em Hw Hpc HS (Hvec He S s _ _ (covered_of s thr)))
    as (_ & _ & thr' & P & HK); [done|done|]. exists thr'. split; [done|]. apply HK.
Qed.

Lemma draw_balanced d e s ls s' :
  wf_expr d e -> wf_cg s -> draw_eval_vec4 e s = Some (tt, ls, s') -> wf_cg s' /\ same_used s s' /\ tidy s ls s'.
Proof.
  intros He Hs Em.
  assert (Hc : covered s (Know ∅ ∅ [])) by (split; intros ? ?; cbn; by rewrite lookup_empty).
  destruct (rt_vec _ _ _ _ (static_right d e) He [] s ∅ ∅ Hc _ _ _ Hs Em) as (W' & F & T & _). done.
Qed.

Lemma draw_made d e s :
  wf_expr d e -> asserts_ok e = true -> wf_cg s ->
  (fst (flag_need e) <= free_flags s)%nat -> (word_need e <= free_words s)%nat ->
  exists ls s', draw_eval_vec4 e s = Some (tt, ls, s').
Proof.
  intros He Ha Hs Hf Hn. destruct (ab_vec _ _ _ _ _ (draw_able d e He Ha) s Hs (Forall_nil_2 _) Hf Hn) as ([] & ls & s' & E & _).
  by exists ls, s'.
Qed.

(** * The theorems *)

(** C1: the lines that [draw_eval_vec4] emits for a well-formed expression, anywhere in a
    program, run to their end and push the value of the expression, unknown bits included,
    for immediate and general operands; the stack below, the allocated flags and the allocated
    index registers keep their values.  Well-formed ([wf_expr]): the widths are positive and
    below 2^32 and agree as the elaborator makes them; a [/] has at most 127 bits, 128 if both
    operands are signed ([max_div]; a wider one can be wrong, [word_division_wrong]); the
    exponent of [**] is unsigned, or both operands are signed with at most 32 bits
    ([pow_fits]); shift counts are unsigned; the index of an array has at most 32 bits, and a
    literal one names a word that holds the net's value; the base of a select fits the 32 bits
    it is cut to ([base_ok]); there is no [->], for which this generator stops. *)
Theorem compiled_expression d e s ls s' pre post code thr S :
  wf_expr d e -> wf_cg s -> draw_eval_vec4 e s = Some (tt, ls, s') -> placed pre ls post code ->
  wf_thread thr -> pc thr = codespace_next pre -> Forall2 vec_is (stack_vec4_ thr) S ->
  exists thr', passes d code pre ls s thr thr' /\ Forall2 vec_is (stack_vec4_ thr') (ev d e :: S).
Proof. apply draw_runs. Qed.


(** C3: the code that evaluates an expression into an index register, allocated before or not,
    leaves its value modulo 2^64 there, 0 for unknown bits, with flag 4 telling unknown bits
    (1) and a value of 2^64 or more (X); the other allocated registers, the allocated flags and
    the stack keep their values.  The expression is well formed and, if signed, of at most 64
    bits: a wider negative value can be reported as an overflow. *)
Theorem compiled_index d e k s ls s' pre post code thr S :
  operand d e -> (ivl_expr_signed e = true -> ivl_expr_width e <= W)%nat -> (k < WORDS_COUNT)%nat ->
  wf_cg s -> draw_eval_expr_into_integer e k s = Some (tt, ls, s') -> placed pre ls post code ->
  wf_thread thr -> pc thr = codespace_next pre -> Forall2 vec_is (stack_vec4_ thr) S ->
  exists thr', passes d code pre ls (without_word k s) thr thr' /\ Forall2 vec_is (stack_vec4_ thr') S /\
    get_word thr' k = Some (index_reg (ivl_expr_signed e) (ev d e)) /\
    get_flag thr' 4 = Some (index_flag (ivl_expr_signed e) (ev d e)).
Proof.
  intros He HW Hk Hs Em Hp Hw Hpc HS. pose proof (draw_right d _ _ (pl_code _ _ _ _ Hp) (pl_labels _ _ _ _ Hp) e) as [_ _ Hint].
  pose proof (Hint He HW k S Hk s _ _ (covered_less k s _ (covered_of (without_word k s) thr))) as Hg. rewrite ex_draw in Hg.
  destruct (gens_passes d pre ls post code s (without_word k s) _ tt s' thr S _ _ Hp Hs Em Hw Hpc HS Hg) as (_ & _ & thr' & P & HK).
  - cbn. apply insert_free. eapply unknown_free; [apply covered_of|left; lia].
  - cbn. apply insert_free. destruct (_ !! k) as [x|] eqn:E; [|done]. apply regs_of_lookup in E as [_ E].
    rewrite without_word_used, Nat.eqb_refl, andb_false_r in E. done.
  - exists thr'. split_and!; [done|apply HK| |]; [apply (h_regs _ _ HK)|apply (h_flags _ _ HK)]; cbn; apply lookup_insert_eq.
Qed.

(** C4: code generation gives back what it allocates: after the code of a well-formed
    expression (the conditions of [wf_expr], as for the value of the code) the same flags and
    registers are in use; the labels it emits are new, each is defined once, and it jumps to no
    others. *)
Theorem generation_balanced d e s ls s' :
  wf_expr d e -> wf_cg s -> draw_eval_vec4 e s = Some (tt, ls, s') -> wf_cg s' /\ same_used s s' /\ tidy s ls s'.
Proof. apply draw_balanced. Qed.


(** C6: a well-formed expression ([wf_expr]: divisions of at most 127 bits, or 128 signed, and
    the other limits of the operators) whose literals are as the assertions of the generator ask
    ([asserts_ok]: those in indices and shift counts fit 32 bits, bases of selects and indices of
    nets are known, and [<->] has one bit) and that needs no more than the 504 flags and 12 registers compiles to a program: its labels resolve, and a
    thread started at the first instruction with an empty stack ends behind the last one with
    the value of the expression on it. *)
Theorem compiled_program d e thr :
  wf_expr d e -> asserts_ok e = true -> (fst (flag_need e) <= 504)%nat -> (word_need e <= 12)%nat ->
  wf_thread thr -> pc thr = 0%nat -> stack_vec4_ thr = [] ->
  exists ls s' code thr' v, draw_eval_vec4 e cg_start = Some (tt, ls, s') /\ assemble ls = Some code /\
    runs d code thr thr' /\ pc thr' = length code /\ stack_vec4_ thr' = [v] /\ vec_is v (ev d e).
Proof.
  intros He Ha Hf Hn Hw Hpc Hst. pose proof cg_start_wf as W0. destruct cg_start_free as [F0 N0].
  destruct (draw_made d e cg_start He Ha W0) as (ls & s' & Em); [lia|lia|].
  destruct (draw_balanced d e _ _ _ He W0 Em) as (_ & _ & [_ _ Hnd Hcl]).
  destruct (assemble_defined ls Hcl) as [code Hcode].
  assert (Hp : placed [] ls [] code) by (by split; rewrite app_nil_l, app_nil_r).
  destruct (draw_runs d e cg_start ls s' [] [] code thr [] He W0 Em Hp Hw Hpc) as (thr' & [R P _ _] & HS).
  { rewrite Hst. constructor. }
  inversion HS as [|v ? st ? Hv Hst' E]; subst. inversion Hst'; subst.
  exists ls, s', code, thr', v. split_and!; [done|done|done| |done|done].
  rewrite P, app_nil_l. unfold assemble in Hcode. apply mapM_Some, Forall2_length in Hcode. by rewrite <- Hcode, length_instructions.
Qed.

(** * Witnesses: [(x > 5) ? x + 5 : x << y] on nets of eight bits *)

Definition sample_design : design := mkDesign (fun _ => vec4_fill 8 BIT4_1) (fun _ => mkArray 8 [vec4_fill 8 BIT4_0]).
Definition a8 : attr := mkAttr 8 false IVL_VT_LOGIC.
Definition a1 : attr := mkAttr 1 false IVL_VT_LOGIC.
Definition net_x : ivl_expr := IVL_EX_SIGNAL a8 (mkSignal 0 0 true false) None.
Definition net_y : ivl_expr := IVL_EX_SIGNAL a8 (mkSignal 1 0 true false) None.
Definition five : ivl_expr := IVL_EX_NUMBER a8 (of_Z 8 5).
Definition x_above_5 : ivl_expr := IVL_EX_BINARY a1 b_gt net_x five.
Definition sample : ivl_expr :=
  IVL_EX_TERNARY a8 x_above_5 (IVL_EX_BINARY a8 b_add net_x five) (IVL_EX_BINARY a8 b_shl net_x net_y).
Definition fresh_thread : vthread := mkThread 0 (replicate FLAGS_COUNT BIT4_0) (replicate WORDS_COUNT 0) [].

Definition lines_of {A} (m : M A) : list line := match m cg_start with Some (_, ls, _) => ls | None => [] end.
Definition state_after {A} (m : M A) : cg := match m cg_start with Some (_, _, s) => s | None => cg_start end.
Definition code_of (ls : list line) : list instr := default [] (assemble ls).

Lemma width_8 : width_fits 8. Proof. split; lia. Qed.
Lemma width_1 : width_fits 1. Proof. split; lia. Qed.
Lemma wf_net i : wf_expr sample_design (IVL_EX_SIGNAL a8 (mkSignal i 0 true false) None).
Proof.
  split; [apply width_8|]. split_and!; [done|done| |done].
  exact (vec_is_wf _ _ (vec_is_fill 8 BIT4_1)).
Qed.
Lemma wf_five : wf_expr sample_design five. Proof. split; [apply width_8|done]. Qed.
Lemma wf_binary a opcode le re :
  width_fits (wid_of a) -> operand sample_design le -> operand sample_design re -> binary_ok opcode a le re ->
  wf_expr sample_design (IVL_EX_BINARY a opcode le re).
Proof. by intros. Qed.
Lemma wf_above : wf_expr sample_design x_above_5.
Proof. apply wf_binary; [apply width_1|split; [done|apply wf_net]|split; [done|apply wf_five]|done]. Qed.
Lemma wf_sample : wf_expr sample_design sample.
Proof.
  split; [apply width_8|]. split; [split; [done|apply wf_above]|]. split; [split; [done|]|split; [split; [done|]|done]].
  - apply wf_binary; [apply width_8|split; [done|apply wf_net]|split; [done|apply wf_five]|done].
  - apply wf_binary; [apply width_8|split; [done|apply wf_net]|split; [done|apply wf_net]|done].
Qed.
Lemma fresh_wf : wf_thread fresh_thread. Proof. by split. Qed.

Lemma placed_alone ls code : assemble ls = Some code -> NoDup (labels ls) -> placed [] ls [] code.
Proof. intros Hc Hn. by split; rewrite app_nil_l, app_nil_r. Qed.

Lemma compiled_expression_witness :
  exists thr', passes sample_design (code_of (lines_of (draw_eval_vec4 sample))) [] (lines_of (draw_eval_vec4 sample)) cg_start fresh_thread thr' /\
    Forall2 vec_is (stack_vec4_ thr') [ev sample_design sample].
Proof.
  apply (compiled_expression sample_design sample cg_start (lines_of (draw_eval_vec4 sample)) (state_after (draw_eval_vec4 sample))
    [] [] (code_of (lines_of (draw_eval_vec4 sample))) fresh_thread []);
    [apply wf_sample|apply cg_start_wf|vm_compute; reflexivity|
     apply placed_alone; [vm_compute; reflexivity|vm_compute; repeat constructor; set_solver]|apply fresh_wf|reflexivity|constructor].
Defined.


(** Into register 4, which is allocated. *)
Definition holding_4 : cg := match allocate_word cg_start with Some (_, _, s) => s | None => cg_start end.
Lemma holding_4_wf : wf_cg holding_4 /\ word_used holding_4 4 = true.
Proof.
  split; [|vm_compute; reflexivity]. destruct (allocate_word cg_start) as [[[k l] s]|] eqn:E; [|by vm_compute in E].
  unfold holding_4. rewrite E. by apply (allocate_word_spec _ _ _ _ cg_start_wf E).
Qed.
Definition lines_at_4 : list line := match draw_eval_expr_into_integer net_y 4 holding_4 with Some (_, ls, _) => ls | None => [] end.
Definition state_at_4 : cg := match draw_eval_expr_into_integer net_y 4 holding_4 with Some (_, _, s) => s | None => cg_start end.

Lemma compiled_index_witness :
  exists thr', passes sample_design (code_of lines_at_4) [] lines_at_4 (without_word 4 holding_4) fresh_thread thr' /\ Forall2 vec_is (stack_vec4_ thr') [] /\
    get_word thr' 4 = Some (index_reg false (ev sample_design net_y)) /\
    get_flag thr' 4 = Some (index_flag false (ev sample_design net_y)).
Proof.
  apply (compiled_index sample_design net_y 4 holding_4 lines_at_4 state_at_4 [] [] (code_of lines_at_4) fresh_thread []);
    [split; [reflexivity|apply wf_net]|discriminate|unfold WORDS_COUNT; lia|apply holding_4_wf|vm_compute; reflexivity|
     apply placed_alone; [vm_compute; reflexivity|vm_compute; repeat constructor; set_solver]|apply fresh_wf|reflexivity|constructor].
Defined.

Lemma generation_balanced_witness :
  wf_cg (state_after (draw_eval_vec4 sample)) /\ same_used cg_start (state_after (draw_eval_vec4 sample)) /\
  tidy cg_start (lines_of (draw_eval_vec4 sample)) (state_after (draw_eval_vec4 sample)).
Proof.
  apply (generation_balanced sample_design sample cg_start); [apply wf_sample|apply cg_start_wf|vm_compute; reflexivity].
Defined.


Lemma compiled_program_witness :
  exists ls s' code thr' v, draw_eval_vec4 sample cg_start = Some (tt, ls, s') /\ assemble ls = Some code /\
    runs sample_design code fresh_thread thr' /\ pc thr' = length code /\ stack_vec4_ thr' = [v] /\ vec_is v (ev sample_design sample).
Proof.
  apply (compiled_program sample_design sample fresh_thread);
    [apply wf_sample|reflexivity|vm_compute; lia|vm_compute; lia|apply fresh_wf|reflexivity|reflexivity].
Defined.
