(* ===== verification/EvalTree.v ===== *)
(** The evaluation of constant expressions at elaboration ([eval_tree.cc]): the nodes of
    expressions over vectors, and the method [eval_tree] of each, which replaces what is
    constant by its value.

    Operators are the characters of the code.  An evaluation gives the node as it is left
    behind (its operands are evaluated in place) and the expression returned, if any; [None]
    is a failed assertion.  Real, string and object expressions and calls of functions are not
    modelled: a node of type [IVL_VT_REAL] does not occur, and the cast to real is [None]. *)
From Stdlib Require Import Ascii.
From S2P Require Import Prelude Verinum VerinumArith VerinumDiv CodeGen.

Local Open Scope char_scope.

(** * Nodes *)

(** The subclasses of [NetEBinary]. *)
Inductive binary_class := NetEBAdd | NetEBBits | NetEBComp | NetEBDiv | NetEBLogic | NetEBMinMax | NetEBMult | NetEBPow | NetEBShift.

(** Each node but a constant carries its width and its sign flag; those of a constant are
    those of its value.  A signal stands for any leaf whose [eval_tree] is that of [NetExpr]. *)
Inductive NetExpr :=
  | NetEConst (value : verinum)
  | NetESignal (name : nat) (type : ivl_variable_type) (width : nat) (signed : bool)
  | NetEBinary (class : binary_class) (op : ascii) (width : nat) (signed : bool) (left right : NetExpr)
  | NetEConcat (repeat : nat) (width : nat) (signed : bool) (parms : list NetExpr)
  | NetESelect (width : nat) (signed : bool) (expr : NetExpr) (base : option NetExpr)
  | NetETernary (width : nat) (signed : bool) (cond true_val false_val : NetExpr)
  | NetEUnary (op : ascii) (width : nat) (signed : bool) (expr : NetExpr)
  | NetEUReduce (op : ascii) (width : nat) (signed : bool) (expr : NetExpr)
  | NetECast (op : ascii) (width : nat) (signed : bool) (expr : NetExpr).

Definition expr_width (e : NetExpr) : nat :=
  match e with
  | NetEConst v => len v
  | NetESignal _ _ w _ | NetEBinary _ _ w _ _ _ | NetEConcat _ w _ _ | NetESelect w _ _ _
  | NetETernary w _ _ _ _ | NetEUnary _ w _ _ | NetEUReduce _ w _ _ | NetECast _ w _ _ => w
  end.

Definition expr_sign (e : NetExpr) : bool :=
  match e with
  | NetEConst v => has_sign v
  | NetESignal _ _ _ s | NetEBinary _ _ _ s _ _ | NetEConcat _ _ s _ | NetESelect _ s _ _
  | NetETernary _ s _ _ _ | NetEUnary _ _ s _ | NetEUReduce _ _ s _ | NetECast _ _ s _ => s
  end.

(** [NetEConst::expr_type]. *)
Definition const_type (v : verinum) : ivl_variable_type :=
  if (len v =? 0)%nat then IVL_VT_LOGIC
  else if is_string v then IVL_VT_BOOL
  else if is_defined v then IVL_VT_BOOL else IVL_VT_LOGIC.

(** [expr_type] of the subclasses of [NetEBinary], from the types of the operands. *)
Definition binary_type (class : binary_class) (op : ascii) (l r : ivl_variable_type) : ivl_variable_type :=
  match class with
  | NetEBComp =>
      if (op =? "E") || (op =? "N") then IVL_VT_BOOL
      else match l, r with IVL_VT_BOOL, IVL_VT_BOOL => IVL_VT_BOOL | _, _ => IVL_VT_LOGIC end
  | _ => IVL_VT_LOGIC
  end.

(** [NetETernary::expr_type] on vectors. *)
Definition ternary_type (sel tru fal : ivl_variable_type) : ivl_variable_type :=
  match tru, fal, sel with
  | IVL_VT_BOOL, IVL_VT_BOOL, IVL_VT_BOOL => IVL_VT_BOOL
  | _, _, _ => IVL_VT_LOGIC
  end.

Fixpoint expr_type (e : NetExpr) : ivl_variable_type :=
  match e with
  | NetEConst v => const_type v
  | NetESignal _ t _ _ => t
  | NetEBinary class op _ _ l r => binary_type class op (expr_type l) (expr_type r)
  | NetEConcat _ _ _ _ => IVL_VT_LOGIC
  | NetESelect _ _ sub _ => expr_type sub
  | NetETernary _ _ c t f => ternary_type (expr_type c) (expr_type t) (expr_type f)
  | NetEUnary _ _ _ sub | NetEUReduce _ _ _ sub => expr_type sub
  | NetECast op _ _ _ => if op =? "v" then IVL_VT_LOGIC else IVL_VT_BOOL
  end.

Fixpoint has_width (e : NetExpr) : bool :=
  match e with
  | NetEConst v => has_len v
  | NetEBinary NetEBComp _ _ _ _ _ => true
  | NetEBinary NetEBShift _ _ _ l _ => has_width l
  | NetEBinary _ _ _ _ l r => has_width l && has_width r
  | _ => true
  end.

(** * Binary operators

    Each [eval_arguments_] gives the value of the constant it creates, or nothing when it
    returns 0. *)

(** The assertions on the operands of an operator in the width of its result. *)
Definition operands_ok (wid : nat) (lval rval : verinum) : bool :=
  (0 <? wid)%nat && (len lval =? wid)%nat && (len rval =? wid)%nat.

(** [cast_to_width(val, wid)] of a result. *)
Definition in_width (wid : nat) (val : option verinum) : option (option verinum) :=
  v ← val; r ← cast_to_width v wid; Some (Some r).

Definition constants (l r : NetExpr) : option (verinum * verinum) :=
  match l, r with NetEConst lval, NetEConst rval => Some (lval, rval) | _, _ => None end.

Definition add_eval_arguments (op : ascii) (wid : nat) (l r : NetExpr) : option (option verinum) :=
  match constants l r with
  | Some (lval, rval) =>
      if negb (operands_ok wid lval rval) then None
      else if op =? "+" then in_width wid (vadd lval rval)
      else if op =? "-" then in_width wid (vsub lval rval)
      else Some None
  | None => Some None
  end.

(** The end of [NetEBAdd::eval_tree]: [(a + lval) - rval] and its kin become the sum of [a]
    and one constant. *)
Definition add_combine (op : ascii) (wid : nat) (signed : bool) (left right : NetExpr) : option NetExpr :=
  match left, right with
  | NetEBinary NetEBAdd se_op _ _ a (NetEConst lval), NetEConst rval =>
      if negb (operands_ok wid lval rval) then None
      else
        val ← (if op =? se_op then s ← vadd rval lval; cast_to_width s wid
               else s ← vsub rval lval; cast_to_width s wid);
        Some (NetEBinary NetEBAdd op wid signed a (NetEConst val))
  | _, _ => Some (NetEBinary NetEBAdd op wid signed left right)
  end.

(** The operators of [NetEBBits] that are evaluated. *)
Definition bits_op (op : ascii) : option (V -> V -> V) :=
  if op =? "|" then Some V_or
  else if op =? "&" then Some V_and
  else if op =? "X" then Some (fun l r => V_not (V_xor l r))
  else if op =? "^" then Some V_xor
  else None.

(** A [verinum::V] used as a condition. *)
Definition V_true (v : V) : bool := negb (V_eqb v V0).

Definition bits_eval_arguments (op : ascii) (wid : nat) (signed : bool) (l r : NetExpr) : option (option verinum) :=
  match constants l r with
  | Some (lval, rval) =>
      let zero := Some (Some (set_has_sign signed (verinum_fill V0 wid true))) in
      let is_and_0 v := if op =? "&" then z ← veq v (verinum_of_int64 0); Some (V_true z) else Some false in
      lz ← is_and_0 lval;
      rz ← (if (lz : bool) then Some false else is_and_0 rval);
      if (lz : bool) then zero
      else if (rz : bool) then zero
      else if negb (operands_ok wid lval rval) then None
      else Some match bits_op op with
      | Some f => Some (set_has_sign signed (verinum_of_bits (map (fun idx => f (bit lval idx) (bit rval idx)) (seq 0 wid)) true))
      | None => None
      end
  | None => Some None
  end.

(** [verinum(val, 1)]. *)
Definition one_bit_const (val : V) : option (option verinum) := Some (Some (verinum_fill val 1 true)).

(** [must_be_leeq_]: whether the largest value of [le] is below [rv]. *)
Definition must_be_leeq_ (le : NetExpr) (rv : verinum) (eq_flag : bool) : option bool :=
  match expr_type le with
  | IVL_VT_LOGIC => Some false
  | IVL_VT_BOOL =>
      let w := expr_width le in
      if (w =? 0)%nat then None else
      lv ← (let lv := verinum_fill V1 w true in
            if expr_sign le && has_sign rv then lv ← set lv (len lv - 1) V0; Some (set_has_sign true lv)
            else Some lv);
      lt ← vlt lv rv;
      if V_true lt then Some true
      else if eq_flag then eq ← veq lv rv; Some (V_true eq)
      else Some false
  end.

(** The shared steps of the four orderings: [limit] is the operand that is tested first,
    [free] the one whose values it may bound, [cmp] the comparison of the values of [free]
    and [limit]. *)
Definition eval_ordering (eq_flag : bool) (cmp : verinum -> verinum -> option V) (free limit : NetExpr) : option (option verinum) :=
  match limit with
  | NetEConst lim =>
      if negb (is_defined lim) then one_bit_const Vx else
      bound ← must_be_leeq_ free lim eq_flag;
      if (bound : bool) then one_bit_const V1 else
      match free with
      | NetEConst v =>
          if negb (is_defined v) then one_bit_const Vx else
          c ← cmp v lim;
          one_bit_const (if V_true c then V1 else V0)
      | _ => Some None
      end
  | _ => Some None
  end.

Definition eval_less_ (le re : NetExpr) : option (option verinum) := eval_ordering false vlt le re.
Definition eval_leeq_ (le re : NetExpr) : option (option verinum) := eval_ordering true vle le re.
Definition eval_gt_ (le re : NetExpr) : option (option verinum) := eval_ordering false (fun rv lv => vgt lv rv) re le.
Definition eval_gteq_ (le re : NetExpr) : option (option verinum) := eval_ordering true (fun rv lv => vge lv rv) re le.

Definition V_xz (b : V) : bool := V_eqb b Vx || V_eqb b Vz.

(** The loop of [eval_eqeq_]. *)
Fixpoint eqeq_loop (ne_res : V) (lv rv : list V) (res : V) : V :=
  match lv, rv with
  | l :: lv, r :: rv =>
      if V_xz l || V_xz r then eqeq_loop ne_res lv rv Vx
      else if negb (V_eqb r l) then ne_res
      else eqeq_loop ne_res lv rv res
  | _, _ => res
  end.

(** The loop of [eval_weqeq_]. *)
Fixpoint weqeq_loop (ne_res : V) (lv rv : list V) (res : V) : V :=
  match lv, rv with
  | l :: lv, r :: rv =>
      if V_xz r then weqeq_loop ne_res lv rv res
      else if V_xz l then weqeq_loop ne_res lv rv Vx
      else if negb (V_eqb r l) then ne_res
      else weqeq_loop ne_res lv rv res
  | _, _ => res
  end.

(** The comparison of two constants of one width. *)
Definition compare_consts (f : verinum -> verinum -> V) (le re : NetExpr) : option (option verinum) :=
  match constants le re with
  | Some (lv, rv) => if negb (len lv =? len rv)%nat then None else one_bit_const (f lv rv)
  | None => Some None
  end.

Definition eval_eqeq_ (ne_flag : bool) : NetExpr -> NetExpr -> option (option verinum) :=
  let eq_res := if ne_flag then V0 else V1 in
  let ne_res := if ne_flag then V1 else V0 in
  compare_consts (fun lv rv => eqeq_loop ne_res (bits_ lv) (bits_ rv) eq_res).

Definition eval_weqeq_ (ne_flag : bool) : NetExpr -> NetExpr -> option (option verinum) :=
  let eq_res := if ne_flag then V0 else V1 in
  let ne_res := if ne_flag then V1 else V0 in
  compare_consts (fun lv rv => weqeq_loop ne_res (bits_ lv) (bits_ rv) eq_res).

Definition eval_eqeqeq_ (ne_flag : bool) : NetExpr -> NetExpr -> option (option verinum) :=
  compare_consts (fun lv rv =>
    let res := bool_V (forallb (fun idx => V_eqb (bit lv idx) (bit rv idx)) (seq 0 (len lv))) in
    if ne_flag then (if V_eqb res V0 then V1 else V0) else res).

Definition comp_eval_arguments (op : ascii) (l r : NetExpr) : option (option verinum) :=
  if op =? "E" then eval_eqeqeq_ false l r
  else if op =? "e" then eval_eqeq_ false l r
  else if op =? "w" then eval_weqeq_ false l r
  else if op =? "G" then eval_gteq_ l r
  else if op =? "L" then eval_leeq_ l r
  else if op =? "N" then eval_eqeqeq_ true l r
  else if op =? "n" then eval_eqeq_ true l r
  else if op =? "W" then eval_weqeq_ true l r
  else if op =? "<" then eval_less_ l r
  else if op =? ">" then eval_gt_ l r
  else Some None.

Definition div_eval_arguments (op : ascii) (wid : nat) (l r : NetExpr) : option (option verinum) :=
  match constants l r with
  | Some (lval, rval) =>
      if negb (operands_ok wid lval rval) then None
      else if op =? "/" then in_width wid (vdiv lval rval)
      else if op =? "%" then in_width wid (vmod lval rval)
      else Some None
  | None => Some None
  end.

(** The truth of an operand of [&&] and its kin: 1 when some bit is. *)
Definition logic_value (v : verinum) : V :=
  if existsb (fun b => V_eqb b V1) (bits_ v) then V1
  else if negb (is_defined v) then Vx else V0.

Definition logic_eval_arguments (op : ascii) (l r : NetExpr) : option (option verinum) :=
  match constants l r with
  | Some (lval, rval) =>
      let lv := logic_value lval in
      let rv := logic_value rval in
      if op =? "a" then one_bit_const
        (if V_eqb lv V0 || V_eqb rv V0 then V0 else if V_eqb lv V1 && V_eqb rv V1 then V1 else Vx)
      else if op =? "o" then one_bit_const
        (if V_eqb lv V1 || V_eqb rv V1 then V1 else if V_eqb lv V0 && V_eqb rv V0 then V0 else Vx)
      else if op =? "q" then one_bit_const
        (if V_eqb lv V0 || V_eqb rv V1 then V1 else if V_eqb lv V1 && V_eqb rv V0 then V0 else Vx)
      else if op =? "Q" then one_bit_const
        (if (V_eqb lv V0 && V_eqb rv V0) || (V_eqb lv V1 && V_eqb rv V1) then V1
         else if (V_eqb lv V0 && V_eqb rv V1) || (V_eqb lv V1 && V_eqb rv V0) then V0 else Vx)
      else Some None
  | None => Some None
  end.

Definition minmax_eval_arguments (op : ascii) (wid : nat) (signed : bool) (l r : NetExpr) : option (option verinum) :=
  match constants l r with
  | Some (lval, rval) =>
      if negb (operands_ok wid lval rval) then None
      else
        res_val ← (if is_defined lval && is_defined rval then
                     if op =? "m" then c ← vlt lval rval; Some (if V_true c then lval else rval)
                     else if op =? "M" then c ← vgt lval rval; Some (if V_true c then lval else rval)
                     else None
                   else Some (verinum_fill Vx wid true));
        Some (Some (set_has_sign signed res_val))
  | None => Some None
  end.

Definition mult_eval_arguments (wid : nat) (l r : NetExpr) : option (option verinum) :=
  match constants l r with
  | Some (lval, rval) =>
      if negb (operands_ok wid lval rval) then None else in_width wid (vmul lval rval)
  | None => Some None
  end.

Definition pow_eval_arguments (wid : nat) (l r : NetExpr) : option (option verinum) :=
  match constants l r with
  | Some (lval, rval) =>
      if negb ((0 <? wid)%nat && (len lval =? wid)%nat) then None else in_width wid (vpow lval rval)
  | None => Some None
  end.

Definition shift_eval_arguments (op : ascii) (wid : nat) (signed : bool) (l r : NetExpr) : option (option verinum) :=
  match constants l r with
  | Some (lv, rv) =>
      if negb ((0 <? wid)%nat && (len lv =? wid)%nat) then None
      else
        let result val := Some (Some (set_has_sign signed val)) in
        if is_defined rv then
          let shift := Z.to_nat (as_unsigned rv) in
          if op =? "l" then val ← cast_to_width (vshl lv shift) wid; result val
          else if op =? "r" then s ← vshr (set_has_sign false lv) shift; val ← cast_to_width s wid; result val
          else if op =? "R" then s ← vshr lv shift; val ← cast_to_width s wid; result val
          else Some None
        else result (verinum_fill Vx wid true)
  | None => Some None
  end.

Definition binary_eval_arguments (class : binary_class) (op : ascii) (wid : nat) (signed : bool) (l r : NetExpr) : option (option verinum) :=
  match class with
  | NetEBAdd => add_eval_arguments op wid l r
  | NetEBBits => bits_eval_arguments op wid signed l r
  | NetEBComp => comp_eval_arguments op l r
  | NetEBDiv => div_eval_arguments op wid l r
  | NetEBLogic => logic_eval_arguments op l r
  | NetEBMinMax => minmax_eval_arguments op wid signed l r
  | NetEBMult => mult_eval_arguments wid l r
  | NetEBPow => pow_eval_arguments wid l r
  | NetEBShift => shift_eval_arguments op wid signed l r
  end.

(** * Other operators *)

(** [NetEUnary::eval_arguments_]. *)
Definition unary_eval_arguments (op : ascii) (ex : NetExpr) : option (option verinum) :=
  match ex with
  | NetEConst val =>
      if op =? "+" then Some (Some val)
      else if op =? "-" then val ← vneg val; Some (Some val)
      else if op =? "m" then
        if negb (is_defined val) then Some (Some (set_bits (map (fun _ => Vx) (bits_ val)) val))
        else
          neg ← is_negative val;
          if (neg : bool) then val ← vneg val; Some (Some val) else Some (Some val)
      else if op =? "~" then
        Some (Some (set_bits (map (fun b => match b with V0 => V1 | V1 => V0 | _ => Vx end) (bits_ val)) val))
      else if op =? "!" then None
      else Some None
  | _ => Some None
  end.

(** The scan of [!]: [v1] ends it. *)
Fixpoint not_loop (bs : list V) (vx : bool) : V :=
  match bs with
  | [] => if vx then Vx else V1
  | V0 :: bs => not_loop bs vx
  | V1 :: _ => V0
  | _ :: bs => not_loop bs true
  end.

(** The counts of [^]: the ones and the unknown bits. *)
Definition reduce_xor (bs : list V) : V :=
  let ones := length (filter (fun b => V_eqb b V1 = true) bs) in
  let unknown := length (filter (fun b => V_xz b = true) bs) in
  if negb (unknown =? 0)%nat then Vx
  else if negb (ones mod 2 =? 0)%nat then V1 else V0.

Definition reduce_eval_arguments (op : ascii) (ex : NetExpr) : option (option verinum) :=
  match ex with
  | NetEConst val =>
      let bs := bits_ val in
      if op =? "!" then one_bit_const (not_loop bs false)
      else if op =? "A" then one_bit_const (V_not (fold_left V_and bs V1))
      else if op =? "&" then one_bit_const (fold_left V_and bs V1)
      else if op =? "N" then one_bit_const (V_not (fold_left V_or bs V0))
      else if op =? "|" then one_bit_const (fold_left V_or bs V0)
      else if op =? "X" then one_bit_const (V_not (reduce_xor bs))
      else if op =? "^" then one_bit_const (reduce_xor bs)
      else Some None
  | _ => Some None
  end.

(** [NetECast::eval_arguments_] on vectors. *)
Definition cast_eval_arguments (op : ascii) (wid : nat) (ex : NetExpr) : option (option verinum) :=
  if op =? "2" then
    match ex with
    | NetEConst val =>
        if (0 <? wid)%nat then in_width wid (Some (cast_to_int2 val)) else Some (Some (cast_to_int2 val))
    | _ => Some None
    end
  else if op =? "v" then Some None
  else None.

(** ** Concatenation *)

(** [for (rep = 0; rep < repeat_val; rep += 1) val.set(rep*gap+cur, tmp[bit])]. *)
Fixpoint set_copies (reps : list nat) (gap cur : nat) (b : V) (val : verinum) : option verinum :=
  match reps with
  | [] => Some val
  | rep :: reps => val ← set val (rep * gap + cur) b; set_copies reps gap cur b val
  end.

(** The loop over the bits of one operand. *)
Fixpoint set_operand (repeat gap : nat) (bs : list V) (cur : nat) (val : verinum) : option verinum :=
  match bs with
  | [] => Some val
  | b :: bs => val ← set_copies (seq 0 repeat) gap cur b val; set_operand repeat gap bs (cur + 1) val
  end.

(** The loop over the operands, from the least significant (the last) on: the bits set and
    whether all are strings, or nothing at an operand that is not constant. *)
Fixpoint concat_loop (repeat gap : nat) (vals : list NetExpr) (cur : nat) (val : verinum) (is_string_flag : bool) : option (option (verinum * bool)) :=
  match vals with
  | [] => Some (Some (val, is_string_flag))
  | NetEConst tmp :: vals =>
      val ← set_operand repeat gap (bits_ tmp) cur val;
      concat_loop repeat gap vals (cur + len tmp) val (is_string_flag && is_string tmp)
  | _ :: _ => Some None
  end.

Definition concat_eval_arguments (repeat : nat) (signed : bool) (vals : list NetExpr) (gap : nat) : option (option verinum) :=
  res ← concat_loop repeat gap (rev vals) 0 (verinum_fill Vx (repeat * gap) true) true;
  match res with
  | None => Some None
  | Some (val, is_string_flag) =>
      val ← (if (is_string_flag : bool) then s ← as_string val; verinum_of_string s else Some val);
      Some (Some (set_has_sign signed val))
  end.

(** ** Selects *)

(** The loop of [NetESelect::eval_tree]: bits [bval ..] of [eval], or [pad_bit] outside. *)
Fixpoint select_bits (eval : verinum) (pad_bit : V) (bval : Z) (cnt : nat) : list V :=
  match cnt with
  | O => []
  | S cnt =>
      (if (0 <=? bval)%Z && (bval <? Z.of_nat (len eval))%Z then bit eval (Z.to_nat bval) else pad_bit)
      :: select_bits eval pad_bit (bval + 1) cnt
  end.

(** The value of a select of a constant; [bval] is the base, none for an extension. *)
Definition select_value (wid : nat) (signed : bool) (eval : verinum) (bval : option Z) : option verinum :=
  pad_bit ← (match bval with
             | Some _ => Some Vx
             | None => if signed then get eval (len eval - 1) else Some V0
             end);
  Some (set_has_sign signed (verinum_of_bits (select_bits eval pad_bit (default 0%Z bval) wid) true)).

(** ** Conditions *)

Inductive const_bool := C_NON | C_0 | C_1 | C_X.

(** The loop of [const_logical]. *)
Fixpoint const_logical_loop (bs : list V) (res : const_bool) : const_bool :=
  match bs with
  | [] => res
  | V1 :: _ => C_1
  | V0 :: bs => const_logical_loop bs res
  | _ :: bs => const_logical_loop bs (match res with C_0 => C_X | _ => res end)
  end.

Definition const_logical (e : NetExpr) : const_bool :=
  match e with NetEConst cval => const_logical_loop (bits_ cval) C_0 | _ => C_NON end.

Definition blended_arguments_ (signed : bool) (te fe : NetExpr) : option (option verinum) :=
  match constants te fe with
  | Some (t, f) =>
      let tsize := len t in
      let fsize := len f in
      let rsize := if (fsize <? tsize)%nat then tsize else fsize in
      let blend idx :=
        let tv := if (idx <? tsize)%nat then bit t idx else V0 in
        let fv := if (idx <? fsize)%nat then bit f idx else V0 in
        if V_eqb tv fv then tv else Vx in
      Some (Some (set_has_sign signed (verinum_of_bits (map blend (seq 0 rsize)) true)))
  | None => Some None
  end.

(** * Evaluation *)

(** A node that returns a constant, or nothing. *)
Definition constant (self : NetExpr) (val : option verinum) : option (NetExpr * option NetExpr) :=
  Some (self, NetEConst <$> val).

(** The loop of [NetEConcat::eval_tree] over the operands: the operands left, the width of
    those that are constant or were replaced, and the number of errors. *)
Section Parms.
Context (eval_tree : NetExpr -> option (NetExpr * option NetExpr)).

Fixpoint eval_parms (l : list NetExpr) (gap local_errors : nat) : option (list NetExpr * nat * nat) :=
  match l with
  | [] => Some ([], gap, local_errors)
  | NetEConst v :: l =>
      '(l, gap, local_errors) ← eval_parms l (gap + len v) local_errors;
      Some (NetEConst v :: l, gap, local_errors)
  | x :: l =>
      '(self, expr) ← eval_tree x;
      match expr with
      | Some expr =>
          let local_errors :=
            if negb (has_width expr) || (expr_width expr =? 0)%nat then S local_errors else local_errors in
          '(l, gap, local_errors) ← eval_parms l (gap + expr_width expr) local_errors;
          Some (expr :: l, gap, local_errors)
      | None =>
          '(l, gap, local_errors) ← eval_parms l gap local_errors;
          Some (self :: l, gap, local_errors)
      end
  end.
End Parms.

(** [eval_tree]: the node with its operands evaluated, and the expression returned;
    [eval_expr] replaces the one by the other. *)
Fixpoint eval_tree (e : NetExpr) : option (NetExpr * option NetExpr) :=
  let eval_expr e := '(self, tmp) ← eval_tree e; Some (default self tmp) in
  match e with
  | NetEConst _ | NetESignal _ _ _ _ => Some (e, None)
  | NetEBinary class op wid signed le re =>
      le ← eval_expr le;
      re ← eval_expr re;
      res ← binary_eval_arguments class op wid signed le re;
      match class, res with
      | NetEBAdd, None => self ← add_combine op wid signed le re; Some (self, None)
      | _, _ => constant (NetEBinary class op wid signed le re) res
      end
  | NetEConcat repeat wid signed parms =>
      '(parms, gap, local_errors) ← eval_parms eval_tree parms 0 0;
      let self := NetEConcat repeat wid signed parms in
      if (0 <? local_errors)%nat then Some (self, None)
      else
        val ← concat_eval_arguments repeat signed parms gap;
        constant self val
  | NetESelect wid signed expr None =>
      expr ← eval_expr expr;
      let self := NetESelect wid signed expr None in
      match expr with
      | NetEConst eval => val ← select_value wid signed eval None; constant self (Some val)
      | _ => Some (self, None)
      end
  | NetESelect wid signed expr (Some base) =>
      expr ← eval_expr expr;
      base ← eval_expr base;
      let self := NetESelect wid signed expr (Some base) in
      match base, expr with
      | NetEConst base, NetEConst eval => val ← select_value wid signed eval (Some (as_long base)); constant self (Some val)
      | _, _ => Some (self, None)
      end
  | NetETernary wid signed cond true_val false_val =>
      cond ← eval_expr cond;
      match const_logical cond with
      | C_0 =>
          false_val ← eval_expr false_val;
          Some (NetETernary wid signed cond true_val false_val, Some false_val)
      | C_1 =>
          true_val ← eval_expr true_val;
          Some (NetETernary wid signed cond true_val false_val, Some true_val)
      | C_X =>
          true_val ← eval_expr true_val;
          false_val ← eval_expr false_val;
          val ← blended_arguments_ signed true_val false_val;
          constant (NetETernary wid signed cond true_val false_val) val
      | C_NON => Some (NetETernary wid signed cond true_val false_val, None)
      end
  | NetEUnary op wid signed expr =>
      expr ← eval_expr expr;
      val ← unary_eval_arguments op expr;
      constant (NetEUnary op wid signed expr) val
  | NetEUReduce op wid signed expr =>
      expr ← eval_expr expr;
      val ← reduce_eval_arguments op expr;
      constant (NetEUReduce op wid signed expr) val
  | NetECast op wid signed expr =>
      expr ← eval_expr expr;
      val ← cast_eval_arguments op wid expr;
      constant (NetECast op wid signed expr) val
  end.

Definition eval_expr (e : NetExpr) : option NetExpr :=
  '(self, tmp) ← eval_tree e; Some (default self tmp).
