(* ===== verification/EvalTreeSpec.v ===== *)
(** The values of elaborated expressions, on lists of four-valued bits: the operators are
    those that the instructions and the functors of the runtime are proved against. *)
From Stdlib Require Import Ascii.
From S2P Require Import Prelude MachineWord VvpBit VvpVector4 VvpSlice WordArith VvpArith VvpVector2 VvpCompare.
From S2P Require Import BitList VvpFunctor WordDiv VThread VThreadSpec VThreadParts VThreadIndex VThreadDiv VThreadMod.
From S2P Require Import CodeGen ExprSpec Verinum VerinumValue VerinumArith VerinumDiv Folding EvalTree.

Local Open Scope char_scope.

(** * Induction over expressions *)

Section Induction.
Context (P : NetExpr -> Prop).
Context (HK : forall v, P (NetEConst v)).
Context (HG : forall n t w s, P (NetESignal n t w s)).
Context (HB : forall c op w s l r, P l -> P r -> P (NetEBinary c op w s l r)).
Context (HC : forall n w s parms, Forall P parms -> P (NetEConcat n w s parms)).
Context (HE : forall w s sub, P sub -> P (NetESelect w s sub None)).
Context (HX : forall w s sub base, P sub -> P base -> P (NetESelect w s sub (Some base))).
Context (HT : forall w s c t f, P c -> P t -> P f -> P (NetETernary w s c t f)).
Context (HU : forall op w s sub, P sub -> P (NetEUnary op w s sub)).
Context (HR : forall op w s sub, P sub -> P (NetEUReduce op w s sub)).
Context (HV : forall op w s sub, P sub -> P (NetECast op w s sub)).

Fixpoint net_expr_ind (e : NetExpr) : P e :=
  match e with
  | NetEConst v => HK v
  | NetESignal n t w s => HG n t w s
  | NetEBinary c op w s l r => HB c op w s l r (net_expr_ind l) (net_expr_ind r)
  | NetEConcat n w s parms =>
      HC n w s parms ((fix all (l : list NetExpr) : Forall P l :=
        match l with [] => Forall_nil_2 P | x :: l => Forall_cons_2 P x l (net_expr_ind x) (all l) end) parms)
  | NetESelect w s sub None => HE w s sub (net_expr_ind sub)
  | NetESelect w s sub (Some base) => HX w s sub base (net_expr_ind sub) (net_expr_ind base)
  | NetETernary w s c t f => HT w s c t f (net_expr_ind c) (net_expr_ind t) (net_expr_ind f)
  | NetEUnary op w s sub => HU op w s sub (net_expr_ind sub)
  | NetEUReduce op w s sub => HR op w s sub (net_expr_ind sub)
  | NetECast op w s sub => HV op w s sub (net_expr_ind sub)
  end.
End Induction.

(** * Operators *)

(** The bits of a number of the elaborator. *)
Definition vbits (v : verinum) : list vvp_bit4_t := map bit4_of_V (bits_ v).

Definition bits4_op (op : ascii) (a b : vvp_bit4_t) : vvp_bit4_t :=
  if op =? "&" then bit4_and a b
  else if op =? "|" then bit4_or a b
  else if op =? "^" then bit4_xor a b
  else if op =? "X" then bit4_not (bit4_xor a b)
  else if op =? "A" then bit4_not (bit4_and a b)
  else bit4_not (bit4_or a b).

Definition compare4 (op : ascii) (signed : bool) (l r : list vvp_bit4_t) : vvp_bit4_t :=
  if op =? "E" then bv_eeq l r
  else if op =? "N" then bit4_not (bv_eeq l r)
  else if op =? "e" then bv_eq l r
  else if op =? "n" then bit4_not (bv_eq l r)
  else if op =? "w" then bv_weq l r
  else if op =? "W" then bit4_not (bv_weq l r)
  else if op =? "<" then bv_lt signed l r
  else if op =? "L" then bv_le signed l r
  else if op =? ">" then bv_lt signed r l
  else bv_le signed r l.

(** [&&], [||], [->] and [<->] on truth values. *)
Definition logic4 (op : ascii) (a b : vvp_bit4_t) : vvp_bit4_t :=
  if op =? "a" then bit4_and a b
  else if op =? "o" then bit4_or a b
  else if op =? "q" then bit4_or (bit4_not a) b
  else bit4_not (bit4_xor a b).

Definition bv_minmax (max signed : bool) (l r : list vvp_bit4_t) : list vvp_bit4_t :=
  if unknown l || unknown r then replicate (length l) BIT4_X
  else if max then (if (bv_num signed r <? bv_num signed l)%Z then l else r)
  else (if (bv_num signed l <? bv_num signed r)%Z then l else r).

Definition sem_binary (class : binary_class) (op : ascii) (sl sr : bool) (l r : list vvp_bit4_t) : list vvp_bit4_t :=
  match class with
  | NetEBAdd => if op =? "+" then bv_add l r else bv_sub l r
  | NetEBBits => bv_map2 (bits4_op op) l r
  | NetEBComp => one_bit (compare4 op (sl && sr) l r)
  | NetEBDiv => if op =? "/" then bv_div (sl && sr) l r else bv_mod (sl && sr) l r
  | NetEBLogic => one_bit (logic4 op (truth l) (truth r))
  | NetEBMinMax => bv_minmax (op =? "M") (sl && sr) l r
  | NetEBMult => bv_mul l r
  | NetEBPow => bv_pow sl sr l r
  | NetEBShift =>
      if op =? "l" then bv_shift bv_shl l r
      else if op =? "r" then bv_shift (bv_shr BIT4_0) l r
      else bv_shift (bv_shr (if sl then msb l else BIT4_0)) l r
  end.

(** The magnitude of a number: X with an unknown bit. *)
Definition bv_magnitude (signed : bool) (l : list vvp_bit4_t) : list vvp_bit4_t :=
  if unknown l then replicate (length l) BIT4_X else of_Z (length l) (Z.abs (bv_num signed l)).

Definition sem_unary (op : ascii) (signed : bool) (l : list vvp_bit4_t) : list vvp_bit4_t :=
  if op =? "+" then l
  else if op =? "-" then bv_neg l
  else if op =? "m" then bv_magnitude signed l
  else map bit4_not l.

Definition sem_reduce (op : ascii) (l : list vvp_bit4_t) : list vvp_bit4_t :=
  one_bit (
    if op =? "!" then bit4_not (truth l)
    else if op =? "&" then fold_left bit4_and l BIT4_1
    else if op =? "A" then bit4_not (fold_left bit4_and l BIT4_1)
    else if op =? "|" then truth l
    else if op =? "N" then bit4_not (truth l)
    else if op =? "^" then fold_left bit4_xor l BIT4_0
    else bit4_not (fold_left bit4_xor l BIT4_0)).

(** * Values *)

Section Values.
Context (env : nat -> list vvp_bit4_t).

Fixpoint sem (e : NetExpr) : list vvp_bit4_t :=
  match e with
  | NetEConst v => vbits v
  | NetESignal name _ _ _ => env name
  | NetEBinary class op _ _ l r => sem_binary class op (expr_sign l) (expr_sign r) (sem l) (sem r)
  | NetEConcat repeat _ _ parms => copies repeat (concat (reverse (map sem parms)))
  | NetESelect w s sub None => bv_pad s w (sem sub)
  | NetESelect w _ sub (Some base) => bv_select (expr_sign base) w (sem sub) (sem base)
  | NetETernary _ _ c t f => ev_ternary (sem c) (sem t) (sem f)
  | NetEUnary op _ s sub => sem_unary op s (sem sub)
  | NetEUReduce op _ _ sub => sem_reduce op (sem sub)
  | NetECast _ w s sub => bv_pad s w (map bit_cast2 (sem sub))
  end.

(** ** Well-formed expressions: what elaboration establishes for the operands of a node *)

(** A constant is sized and not empty; a string is a sequence of characters. *)
Record const_ok (v : verinum) : Prop := {
  ok_len : has_len v = true;
  ok_pos : (0 < len v)%nat;
  ok_single : is_single v = false;
  ok_string : is_string v = true -> defined (bits_ v) /\ (len v mod 8 = 0)%nat }.

Definition op_in (op : ascii) (ops : list ascii) : Prop := In op ops.

Definition binary_ok (class : binary_class) (op : ascii) (w : nat) (s : bool) (l r : NetExpr) : Prop :=
  let same_width := expr_width l = w /\ expr_width r = w in
  match class with
  | NetEBAdd => same_width /\ s = expr_sign l && expr_sign r /\ op_in op ["+"; "-"]
  | NetEBBits => same_width /\ op_in op ["&"; "|"; "^"; "X"; "A"; "O"]
  | NetEBComp =>
      expr_width l = expr_width r /\ w = 1%nat /\ s = false /\
      op_in op ["E"; "N"; "e"; "n"; "w"; "W"; "<"; "L"; ">"; "G"]
  | NetEBDiv => same_width /\ expr_sign l = s /\ expr_sign r = s /\ op_in op ["/"; "%"]
  | NetEBLogic => w = 1%nat /\ s = false /\ op_in op ["a"; "o"; "q"; "Q"]
  | NetEBMinMax => same_width /\ op_in op ["m"; "M"]
  | NetEBMult => same_width /\ s = expr_sign l && expr_sign r
  | NetEBPow => expr_width l = w /\ s = expr_sign l
  | NetEBShift => expr_width l = w /\ s = expr_sign l /\ (Z.of_nat w < 2 ^ 32)%Z /\ op_in op ["l"; "r"; "R"]
  end.

(** The base of a select fits the native integer it is read into and is known; a part of a
    vector without unknown bits lies inside it. *)
Definition select_ok (w : nat) (sub base : NetExpr) : Prop :=
  (expr_width base <= if expr_sign base then 64 else 63)%nat /\
  unknown (sem base) = false /\
  (unknown (sem sub) = false ->
   0 <= bv_num (expr_sign base) (sem base) /\
   bv_num (expr_sign base) (sem base) + Z.of_nat w <= Z.of_nat (expr_width sub))%Z.

Fixpoint wf (e : NetExpr) : Prop :=
  match e with
  | NetEConst v => const_ok v
  | NetESignal name t w _ => (0 < w)%nat /\ length (env name) = w /\ (t = IVL_VT_BOOL -> unknown (env name) = false)
  | NetEBinary class op w s l r => wf l /\ wf r /\ binary_ok class op w s l r
  | NetEConcat repeat w s parms =>
      (fix all (l : list NetExpr) : Prop := match l with [] => True | x :: l => wf x /\ all l end) parms /\
      (0 < w)%nat /\ w = (repeat * list_sum (map expr_width parms))%nat
  | NetESelect w s sub None => (0 < w)%nat /\ wf sub
  | NetESelect w s sub (Some base) => (0 < w)%nat /\ wf sub /\ wf base /\ select_ok w sub base
  | NetETernary w s c t f =>
      wf c /\ wf t /\ wf f /\ expr_width t = w /\ expr_width f = w /\ expr_sign t = s /\ expr_sign f = s
  | NetEUnary op w s sub => wf sub /\ expr_width sub = w /\ expr_sign sub = s /\ op_in op ["+"; "-"; "m"; "~"]
  | NetEUReduce op w s sub => wf sub /\ w = 1%nat /\ s = false /\ op_in op ["!"; "&"; "|"; "^"; "A"; "N"; "X"]
  | NetECast op w s sub => wf sub /\ (0 < w)%nat /\ expr_sign sub = s /\ op = "2"
  end.

Lemma wf_all parms :
  (fix all (l : list NetExpr) : Prop := match l with [] => True | x :: l => wf x /\ all l end) parms <-> Forall wf parms.
Proof.
  induction parms as [|x l IH]; [by split; [constructor|]|]. split.
  - intros [H1 H2]. constructor; [done|]. by apply IH.
  - intros H. inversion H; subst. split; [done|]. by apply IH.
Qed.
End Values.

(** * The bits of a number *)

Local Open Scope Z_scope.

Lemma length_vbits v : length (vbits v) = len v.
Proof. unfold vbits. by rewrite length_map. Qed.

Lemma unknown_map bs : unknown (map bit4_of_V bs) = negb (forallb bit_defined bs).
Proof.
  unfold unknown. induction bs as [|b bs IH]; [done|]. cbn [map existsb forallb].
  rewrite IH, bit4_of_V_defined, negb_andb, negb_involutive. done.
Qed.

Lemma unknown_vbits v : unknown (vbits v) = negb (is_defined v).
Proof. apply unknown_map. Qed.

Lemma bv_Z_vbits v : bv_Z (vbits v) = uval (bits_ v).
Proof.
  unfold vbits. induction (bits_ v) as [|b bs IH]; [done|]. cbn [map bv_Z uval]. by rewrite IH, bit1_of_V.
Qed.

Lemma nth_vbits v i : nth i (vbits v) BIT4_X = bit4_of_V (bit v i).
Proof. unfold vbits, bit. change BIT4_X with (bit4_of_V Vx). apply map_nth. Qed.

Lemma bv_num_vbits s v : (0 < len v)%nat -> bv_num s (vbits v) = to_Z (set_has_sign s v).
Proof.
  intros Hl. unfold bv_num. destruct s.
  - unfold bv_S, msb. rewrite nth_vbits, length_vbits, bv_Z_vbits.
    unfold to_Z, sgn. cbn [has_sign set_has_sign bits_]. unfold len, bit in *.
    cbn [bits_ set_has_sign].
    rewrite (nth_indep _ Vx V0) by lia. rewrite (proj2 (Nat.eqb_neq _ _)) by lia. rewrite andb_true_r.
    unfold pow2. replace (bit4_eqb _ _) with (isone (nth (length (bits_ v) - 1) (bits_ v) V0)) by (by destruct (nth _ _ _)).
    unfold bz, b2z. destruct (isone _); lia.
  - rewrite bv_Z_vbits, to_Z_unsigned by done. done.
Qed.

Lemma set_has_sign_id v : set_has_sign (has_sign v) v = v.
Proof. by destruct v. Qed.

Lemma bv_num_own v : (0 < len v)%nat -> bv_num (has_sign v) (vbits v) = to_Z v.
Proof. intros. by rewrite bv_num_vbits, set_has_sign_id. Qed.

Lemma cmp_val_num b v : (0 < len v)%nat -> (b = true -> has_sign v = true) -> cmp_val b v = bv_num b (vbits v).
Proof.
  intros Hl Hb. unfold cmp_val. destruct b; [|by rewrite bv_Z_vbits].
  rewrite <- (bv_num_own v Hl), Hb by done. done.
Qed.

Lemma vbits_of_Z v n T : defined (bits_ v) -> len v = n -> uval (bits_ v) = T mod pow2 n -> vbits v = of_Z n T.
Proof.
  intros Hd <- HU. rewrite <- of_Z_mod. change (2 ^ Z.of_nat (len v)) with (pow2 (len v)).
  rewrite <- HU, <- bv_Z_vbits, <- length_vbits. symmetry. apply of_Z_bv_Z.
  rewrite unknown_vbits. by rewrite (proj2 (is_defined_spec v)).
Qed.

Lemma vbits_fill b n h : vbits (verinum_fill b n h) = replicate n (bit4_of_V b).
Proof. unfold vbits. cbn [bits_ verinum_fill]. induction n as [|n IH]; [done|]. cbn [replicate map]. by rewrite IH. Qed.

Lemma vbits_set_sign s v : vbits (set_has_sign s v) = vbits v.
Proof. done. Qed.

Lemma vbits_inj l r : vbits l = vbits r -> bits_ l = bits_ r.
Proof.
  unfold vbits. revert r. intros r. generalize (bits_ l), (bits_ r).
  induction l0 as [|a l' IH]; intros [|b r']; try done. cbn [map]. intros [= H1 H2].
  f_equal; [by destruct a, b|]. by apply IH.
Qed.

(** The orderings of numbers are the orderings of their bits. *)
Lemma vlt_bits l r :
  wf_num l -> wf_num r ->
  let b := has_sign l && has_sign r in
  vlt l r = Some (bool_V (bv_num b (vbits l) <? bv_num b (vbits r))) /\
  vle l r = Some (bool_V (bv_num b (vbits l) <=? bv_num b (vbits r))).
Proof.
  intros Hl Hr b. unfold vlt, vle. rewrite !vcmp_spec by done. fold b.
  rewrite !cmp_val_num by (apply Hl || apply Hr || (unfold b; by intros [? ?]%andb_true_iff)).
  split; f_equal; repeat case_cmp; done || lia.
Qed.

Lemma V_true_bool b : V_true (bool_V b) = b.
Proof. by destruct b. Qed.

(** * Widths of values *)

Lemma length_one_bit b : length (one_bit b) = 1%nat.
Proof. done. Qed.

Lemma length_minmax m s l r : length l = length r -> length (bv_minmax m s l r) = length l.
Proof. intros H. unfold bv_minmax. repeat case_match; autorewrite with width; done. Qed.

Lemma length_magnitude s l : length (bv_magnitude s l) = length l.
Proof. unfold bv_magnitude. case_match; autorewrite with width; done. Qed.

Lemma length_sem_unary op s l : length (sem_unary op s l) = length l.
Proof. unfold sem_unary. repeat case_match; rewrite ?length_magnitude; autorewrite with width; done. Qed.

Lemma length_concat_reverse (ls : list (list vvp_bit4_t)) : length (concat (reverse ls)) = list_sum (map length ls).
Proof.
  induction ls as [|l ls IH]; [done|]. rewrite reverse_cons, concat_app, length_app, IH. cbn [concat map list_sum].
  rewrite app_nil_r. simpl. lia.
Qed.

Lemma list_sum_ext {A} (f g : A -> nat) l : Forall (fun x => f x = g x) l -> list_sum (map f l) = list_sum (map g l).
Proof. unfold list_sum. induction 1 as [|x l E _ IH]; [done|]. cbn. by rewrite E, IH. Qed.

Lemma length_sem_binary class op w s l r lb rb :
  binary_ok class op w s l r -> length lb = expr_width l -> length rb = expr_width r ->
  length (sem_binary class op (expr_sign l) (expr_sign r) lb rb) = w.
Proof.
  intros Hok Hl Hr. destruct class; cbn [binary_ok sem_binary] in *; unpack;
    unfold bv_add, bv_sub, bv_mul, bv_div, bv_mod, bv_map2; repeat case_match;
    rewrite ?length_zip_with, ?length_minmax, ?length_shift by (congruence || (intros; autorewrite with width; done));
    autorewrite with width; rewrite ?length_one_bit; done || lia.
Qed.

Lemma sem_width env e : wf env e -> (0 < expr_width e)%nat /\ length (sem env e) = expr_width e.
Proof.
  induction e as [v|n t w s|c op w s l r IHl IHr|n w s parms IH|w s sub IH|w s sub base IH IHb|w s c t f IHc IHt IHf|op w s sub IH|op w s sub IH|op w s sub IH]
    using net_expr_ind; cbn [wf sem expr_width].
  - intros []. by rewrite length_vbits.
  - by intros (? & ? & ?).
  - intros (Hl & Hr & Hok). destruct (IHl Hl), (IHr Hr). split; [|by eapply length_sem_binary].
    destruct c; cbn [binary_ok] in Hok; unpack; lia.
  - rewrite wf_all. intros (Hw & Hp & E). split; [done|]. rewrite length_copies, length_concat_reverse, map_map, E.
    f_equal. apply list_sum_ext. rewrite Forall_forall in *. intros x Hx. by apply IH, Hw.
  - intros (? & ?). by autorewrite with width.
  - intros (? & ?). by autorewrite with width.
  - intros (Hc & Ht & Hf & Et & Ef & _). destruct (IHt Ht), (IHf Hf). split; [lia|]. apply length_ev_ternary; lia.
  - intros (Hs & Ew & _). destruct (IH Hs). rewrite length_sem_unary. lia.
  - intros (_ & -> & _). split; [lia|done].
  - intros (_ & ? & _). by autorewrite with width.
Qed.
