(* ===== verification/EvalTreeProps.v ===== *)
(** Constant folding keeps the value of every expression: each operator on constants gives
    the constant that the operator of the runtime gives, and [eval_tree] replaces parts of an
    expression by such constants only. *)
From Stdlib Require Import Ascii.
From S2P Require Import Prelude MachineWord VvpBit VvpVector4 VvpSlice WordArith VvpArith VvpVector2 VvpCompare.
From S2P Require Import BitList VvpFunctor WordDiv VThread VThreadSpec VThreadParts VThreadIndex VThreadDiv VThreadMod.
From S2P Require Import CodeGen ExprSpec ExprFacts Verinum VerinumValue VerinumArith VerinumDiv Folding EvalTree EvalTreeSpec.

(** * Flags of results *)

(** A result of arithmetic is neither a string nor a single-bit literal. *)
Definition plain (v : verinum) : Prop := is_single v = false /\ is_string v = false.

(** The flags of a result of length flag [hl] and sign [s]. *)
Record flags (hl s : bool) (v : verinum) : Prop := {
  fl_len : has_len v = hl;
  fl_sign : has_sign v = s;
  fl_plain : plain v }.

(** Reads the flags of a result off the constructors that build it. *)
Ltac solve_flags :=
  repeat (case_match || simplify_option_eq); repeat split; cbn; done || congruence.

Lemma trim_flags hl s v : flags hl s v -> flags hl s (trim_vnum v).
Proof. intros [<- <- [H1 H2]]. unfold trim_vnum. repeat case_match; repeat split; cbn; done. Qed.

Lemma vadd_flags l r v : vadd l r = Some v -> flags (has_len l && has_len r) (has_sign l && has_sign r) v.
Proof. unfold vadd. intros H. solve_flags. Qed.

Lemma vsub_flags l r v : vsub l r = Some v -> flags (has_len l && has_len r) (has_sign l && has_sign r) v.
Proof. unfold vsub. intros H. solve_flags. Qed.

Lemma vneg_flags l v : vneg l = Some v -> flags (has_len l) (has_sign l) v.
Proof. unfold vneg. intros H. solve_flags. Qed.

Lemma vmul_flags l r v : vmul l r = Some v -> flags (has_len l && has_len r) (has_sign l && has_sign r) v.
Proof.
  unfold vmul. intros H. case_match; [solve_flags|]. destruct (sign_bit r); [|done]. cbn in H.
  destruct (mul_loop _ _ _ _ _ _); [|done]. injection H as <-. by apply trim_flags.
Qed.

Lemma cast_flags v w r :
  cast_to_width v w = Some r -> is_single v = false ->
  has_len r = true /\ has_sign r = has_sign v /\ is_single r = false /\ (is_string r = true -> is_string v = true).
Proof.
  unfold cast_to_width, verinum_copy. intros H Hs. destruct (has_len v && (len v =? w)%nat) eqn:E.
  { apply andb_true_iff in E as [E _]. by injection H as <-. }
  clear E. repeat (case_match || simplify_option_eq); cbn; try done; split_and!; try done; by intros [? _]%andb_true_iff.
Qed.

(** A result that is a string only when [l] is one. *)
Definition string_of (l v : verinum) : Prop := is_single v = false /\ (is_string v = true -> is_string l = true).

Lemma plain_string_of l v : plain v -> string_of l v.
Proof. intros [H1 H2]. split; [done|]. by rewrite H2. Qed.

Lemma finish_flags sg n l res v :
  string_of l res -> finish_division true sg n res = Some v ->
  has_len v = true /\ has_sign v = sg /\ string_of l v.
Proof.
  intros [Hs1 Hs2] H. unfold finish_division in H. destruct (cast_to_width res n) as [r|] eqn:E; [|done].
  destruct (cast_flags _ _ _ E Hs1) as (L & S & I & St). cbn in H. injection H as <-.
  unfold trim_vnum. cbn [has_len set_has_sign]. rewrite L. repeat split; cbn; auto.
Qed.

Lemma set_plain v i b r : set v i b = Some r -> plain v -> plain r.
Proof. unfold set. intros H Hv. by case_match; simplify_eq. Qed.

Lemma udiv_loop_plain idx num den result r : udiv_loop idx num den result = Some r -> plain result -> plain r.
Proof.
  revert num den result. induction idx as [|i IH]; intros num den result H Hp; cbn [udiv_loop] in H; [by injection H as <-|].
  destruct (vle den num) as [le|]; [|done]. cbn in H.
  destruct (negb (V_eqb le V0)).
  - destruct (vsub num den); [|done]. cbn in H. destruct (set result i V1) eqn:Es; [|done]. cbn in H.
    destruct (vshr den 1); [|done]. cbn in H. eapply IH; [done|]. by eapply set_plain.
  - cbn in H. destruct (vshr den 1); [|done]. cbn in H. by eapply IH.
Qed.

Lemma unsigned_divide_plain num den s r : unsigned_divide num den s = Some r -> plain r.
Proof.
  unfold unsigned_divide. intros H. case_match; [by injection H as <-|]. destruct s.
  - destruct (set _ _ _) eqn:Es; [|done]. cbn in H. apply udiv_loop_plain in H; [done|].
    by apply set_plain in Es as [E1 E2]; [split|].
  - cbn in H. by apply udiv_loop_plain in H.
Qed.

Lemma umod_loop_string l idx num den r : umod_loop idx num den = Some r -> string_of l num -> string_of l r.
Proof.
  revert num den. induction idx as [|i IH]; intros num den H Hp; cbn [umod_loop] in H; [by injection H as <-|].
  destruct (vle den num) as [le|]; [|done]. cbn in H.
  destruct (negb (V_eqb le V0)).
  - destruct (vsub num den) as [d|] eqn:Ed; [|done]. cbn in H. destruct (vshr den 1); [|done]. cbn in H.
    eapply IH; [done|]. apply plain_string_of, (vsub_flags _ _ _ Ed).
  - cbn in H. destruct (vshr den 1); [|done]. cbn in H. by eapply IH.
Qed.

Lemma unsigned_modulus_string l num den r : unsigned_modulus num den = Some r -> string_of l num -> string_of l r.
Proof. unfold unsigned_modulus. intros H Hs. case_match; [by injection H as <-|]. by eapply umod_loop_string. Qed.

Lemma magnitude_string v u n : magnitude v = Some (u, n) -> is_single v = false -> string_of v u.
Proof.
  unfold magnitude. intros H Hs. destruct (is_negative v) as [[]|]; [| |done]; cbn in H.
  - destruct (vneg v) as [w|] eqn:E; [|done]. cbn in H. injection H as <- <-. apply vneg_flags in E as [_ _ [H1 H2]].
    split; cbn; [done|]. by rewrite H2.
  - injection H as <- <-. by split.
Qed.

Lemma vdiv_flags l r v :
  vdiv l r = Some v -> has_len l && has_len r = true ->
  has_len v = true /\ has_sign v = has_sign l && has_sign r /\ string_of l v.
Proof.
  intros H Hh. unfold vdiv in H. rewrite Hh in H.
  destruct (negb (is_defined l) || negb (is_defined r) || is_zero r); [injection H as <-; by repeat split|].
  destruct (if has_sign l && has_sign r then _ else _) as [res|] eqn:E in H; [|done]. cbn in H.
  eapply finish_flags; [|done]. apply plain_string_of. destruct (has_sign l && has_sign r).
  - destruct (len l <=? 63)%nat; [by repeat case_match; simplify_eq|].
    destruct (magnitude l) as [[ul nl]|]; [|done]. destruct (magnitude r) as [[ur nr]|]; [|done]. cbn in E.
    destruct (unsigned_divide ul ur true) as [q|] eqn:Eq; [|done]. cbn in E. apply unsigned_divide_plain in Eq.
    destruct (xorb nl nr); [by apply vneg_flags in E as []|by injection E as <-].
  - destruct (len l <=? 64)%nat; [by repeat case_match; simplify_eq|]. by eapply unsigned_divide_plain.
Qed.

Lemma vmod_flags l r v :
  vmod l r = Some v -> has_len l && has_len r = true -> is_single l = false ->
  has_len v = true /\ has_sign v = has_sign l && has_sign r /\ string_of l v.
Proof.
  intros H Hh Hs. unfold vmod in H. rewrite Hh in H.
  destruct (negb (is_defined l) || negb (is_defined r) || is_zero r); [injection H as <-; by repeat split|].
  destruct (if has_sign l && has_sign r then _ else _) as [res|] eqn:E in H; [|done]. cbn in H.
  eapply finish_flags; [|done]. destruct (has_sign l && has_sign r).
  - destruct (len l <=? 64)%nat; [apply plain_string_of; by repeat case_match; simplify_eq|].
    destruct (magnitude l) as [[ul nl]|] eqn:El; [|done]. destruct (magnitude r) as [[ur nr]|]; [|done]. cbn in E.
    destruct (unsigned_modulus ul ur) as [q|] eqn:Eq; [|done]. cbn in E.
    destruct nl; [apply plain_string_of; by apply vneg_flags in E as []|injection E as <-].
    eapply unsigned_modulus_string; [done|]. by eapply magnitude_string.
  - destruct (len l <=? 64)%nat; [apply plain_string_of; by repeat case_match; simplify_eq|].
    eapply unsigned_modulus_string; [done|]. by split.
Qed.

Lemma vpow_flags l r v : vpow l r = Some v -> flags (has_len l) (has_sign l) v.
Proof.
  unfold vpow. generalize (2 * len r + 2)%nat as f. intros f. revert r v.
  induction f as [|f IH]; intros r v H; [done|]. cbn [pow_fuel] in H. unfold pow_step in H.
  destruct (make_p_one _ _ _) as [p1|] eqn:Ep; [|done]. cbn in H.
  assert (Fp : flags (has_len l) (has_sign l) p1).
  { unfold make_p_one in Ep. destruct (set _ _ _) as [t|] eqn:Es; [|done]. cbn in Ep. injection Ep as <-.
    unfold set in Es. destruct (0 <? _)%nat; [|done]. injection Es as <-. repeat split; done. }
  match type of H with (x ← ?e; _) = _ => destruct e as [res|] eqn:E; [|done] end. cbn in H. injection H as <-.
  apply trim_flags. destruct (negb (is_defined l) || negb (is_defined r)); [injection E as <-; by repeat split|].
  destruct (is_zero r); [by injection E as <-|]. destruct (is_negative r) as [[]|]; [| |done]; cbn in E.
  - repeat (case_match || simplify_option_eq); done || (repeat split; done).
  - unfold recursive_pow in E. destruct (is_zero r); [congruence|]. destruct (get r 0) as [b|]; [|done]. cbn in E.
    destruct (V_eqb b V1).
    + destruct (set r 0 V0); [|done]. cbn in E. destruct (pow_fuel f l v) as [w|] eqn:Ew; [|done]. cbn in E.
      apply IH in Ew as [H1 H2 _]. apply vmul_flags in E. by rewrite H1, H2, !andb_diag in E.
    + destruct (vshr r 1) as [r'|]; [|done]. cbn in E. destruct (pow_fuel f l r') as [w|] eqn:Ew; [|done]. cbn in E.
      apply IH in Ew as [H1 H2 _]. apply vmul_flags in E. by rewrite H1, H2, !andb_diag in E.
Qed.

(** * Arithmetic on constants *)

(** [v] is a constant of width [w] and sign [s] with the bits [bs]. *)
Record const_is (w : nat) (s : bool) (bs : list vvp_bit4_t) (v : verinum) : Prop := {
  ci_ok : const_ok v;
  ci_len : len v = w;
  ci_sign : has_sign v = s;
  ci_bits : vbits v = bs }.

Definition is_const (e : NetExpr) : bool := match e with NetEConst _ => true | _ => false end.
Definition both_const (l r : NetExpr) : bool := is_const l && is_const r.

(** What an evaluation gives: a constant, or nothing when it need not ([must]) give one. *)
Definition folds (must : bool) (w : nat) (s : bool) (bs : list vvp_bit4_t) (res : option (option verinum)) : Prop :=
  exists o, res = Some o /\ match o with Some v => const_is w s bs v | None => must = false end.

Lemma const_plain v : has_len v = true -> (0 < len v)%nat -> plain v -> const_ok v.
Proof. intros H1 H2 [H3 H4]. split; [done..|]. by rewrite H4. Qed.

Lemma const_wf_num v : const_ok v -> is_defined v = true -> wf_num v.
Proof. intros [_ Hp _ _] Hd. split; [by apply is_defined_spec|done]. Qed.

Lemma const_keep v : const_ok v -> const_is (len v) (has_sign v) (vbits v) v.
Proof. intros H. by split. Qed.

(** A result in its width is left alone by the cast. *)
Lemma in_width_id w v : has_len v = true -> len v = w -> in_width w (Some v) = Some (Some v).
Proof. intros Hl <-. unfold in_width, cast_to_width. cbn. by rewrite Hl, Nat.eqb_refl. Qed.

Lemma operands_ok_true w l r : (0 < w)%nat -> len l = w -> len r = w -> operands_ok w l r = true.
Proof. intros H1 H2 H3. unfold operands_ok. by rewrite H2, H3, (proj2 (Nat.ltb_lt _ _) H1), Nat.eqb_refl. Qed.

Lemma plain_const_is w s bs v : flags true s v -> (0 < w)%nat -> len v = w -> vbits v = bs -> const_is w s bs v.
Proof. intros [H1 H2 H3] Hw <- Hb. split; [by apply const_plain|done..]. Qed.

Lemma len_fill b n h : len (verinum_fill b n h) = n.
Proof. unfold len. cbn. apply length_replicate. Qed.

Lemma len_undefined n hl s : len (undefined_result n hl s) = n.
Proof. unfold len, undefined_result. cbn. apply length_replicate. Qed.

Lemma vbits_undefined n hl s : vbits (undefined_result n hl s) = replicate n BIT4_X.
Proof. unfold undefined_result. by rewrite vbits_set_sign, vbits_fill. Qed.

(** Operators that are exact modulo 2^w and X when an operand has an unknown bit. *)
Section Strict.
Context (op : Z -> Z -> Z).
Context (op_mod : forall n x y, op (x mod 2 ^ n) (y mod 2 ^ n) mod 2 ^ n = op x y mod 2 ^ n).
Context (vop : verinum -> verinum -> option verinum).
Context (vop_flags : forall l r v, vop l r = Some v -> flags (has_len l && has_len r) (has_sign l && has_sign r) v).
Context (vop_defined : forall l r, wf_num l -> wf_num r -> has_len l = true -> has_len r = true ->
  exists v, vop l r = Some v /\ defined (bits_ v) /\ len v = (len l `max` len r)%nat /\
    uval (bits_ v) = op (to_Z l) (to_Z r) mod pow2 (len v)).
Context (vop_undefined : forall l r, is_defined l && is_defined r = false ->
  has_len l = true -> has_len r = true ->
  vop l r = Some (undefined_result (len l `max` len r) true (has_sign l && has_sign r))).

Lemma strict_const w l r :
  const_ok l -> const_ok r -> len l = w -> len r = w ->
  exists v, vop l r = Some v /\ in_width w (vop l r) = Some (Some v) /\
    const_is w (has_sign l && has_sign r) (bv_strict op (vbits l) (vbits r)) v.
Proof.
  intros Hl Hr Ll Lr. pose proof (ok_pos _ Hl) as Hp.
  cut (exists v, vop l r = Some v /\ len v = w /\ vbits v = bv_strict op (vbits l) (vbits r)).
  { intros (v & E & L & B). exists v. pose proof (vop_flags _ _ _ E) as F. rewrite (ok_len _ Hl), (ok_len _ Hr) in F.
    split; [done|]. rewrite E, in_width_id by (apply F || done). split; [done|]. apply plain_const_is; done || lia. }
  unfold bv_strict. rewrite !unknown_vbits, length_vbits, !bv_Z_vbits.
  destruct (is_defined l && is_defined r) eqn:Ed.
  - pose proof Ed as [Dl Dr]%andb_true_iff. rewrite Dl, Dr. cbn [negb orb].
    destruct (vop_defined l r) as (v & E & D & L & U); [by apply const_wf_num..|apply ok_len, Hl|apply ok_len, Hr|].
    assert (Lv : len v = w) by lia. exists v. split_and!; [done|done|]. rewrite Ll. apply vbits_of_Z; [done..|].
    rewrite U, Lv. unfold pow2. rewrite <- op_mod. symmetry. rewrite <- op_mod. do 2 f_equal.
    + rewrite <- to_Z_mod. unfold pow2. rewrite Ll. apply Z.mod_mod. lia.
    + rewrite <- to_Z_mod. unfold pow2. rewrite Lr. apply Z.mod_mod. lia.
  - eexists. split; [by apply vop_undefined; [|apply ok_len..]|]. rewrite len_undefined, vbits_undefined. split; [lia|].
    rewrite <- negb_andb, Ed. cbn [negb]. f_equal. lia.
Qed.
End Strict.

Definition vadd_const := strict_const Z.add add_mod_pow vadd vadd_flags vadd_sized vadd_undefined.
Definition vsub_const := strict_const Z.sub sub_mod_pow vsub vsub_flags vsub_sized vsub_undefined.
Definition vmul_const := strict_const Z.mul mul_mod_pow vmul vmul_flags vmul_sized vmul_undefined.

(** ** Division and remainder *)

Lemma is_zero_vbits v : const_ok v -> is_defined v = true -> is_zero v = (bv_Z (vbits v) =? 0)%Z.
Proof.
  intros Hv Hd. rewrite bv_Z_vbits. unfold is_zero. pose proof (uval_zero_iff (bits_ v) (proj1 (is_defined_spec v) Hd)) as H.
  destruct (forallb _ _), (Z.eqb_spec (uval (bits_ v)) 0); try done; [by destruct H as [H _]; exfalso; auto|].
  destruct H as [_ H]. by specialize (H e).
Qed.

Lemma string_const l v :
  const_ok l -> string_of l v -> has_len v = true -> len v = len l -> defined (bits_ v) -> const_ok v.
Proof. intros Hl [Hs Hi] Hh HL Hd. split; [done|rewrite HL; apply Hl|done|]. intros H. rewrite HL. by split; [|apply Hl; auto]. Qed.

(** The two divisions, on constants of one width and sign. *)
Lemma divide_const (op : Z -> Z -> Z) (vop : verinum -> verinum -> option verinum) w l r :
  (forall v, vop l r = Some v -> has_len v = true /\ has_sign v = has_sign l && has_sign r /\ string_of l v) ->
  (wf_num l -> wf_num r -> to_Z r <> 0 ->
   exists v, vop l r = Some v /\ wf_num v /\ len v = len l /\ uval (bits_ v) = op (to_Z l) (to_Z r) mod pow2 (len l)) ->
  (negb (is_defined l) || negb (is_defined r) || is_zero r = true ->
   vop l r = Some (undefined_result (len l) true (has_sign l && has_sign r))) ->
  const_ok l -> const_ok r -> len l = w -> len r = w -> has_sign l = has_sign r ->
  folds true w (has_sign l) (bv_divide op (has_sign l) (vbits l) (vbits r)) (in_width w (vop l r)).
Proof.
  intros Hf Hd Hu Hl Hr Ll Lr Hs. unfold folds, bv_divide. rewrite !unknown_vbits, length_vbits, Ll.
  pose proof (ok_pos _ Hl) as Hp.
  destruct (negb (is_defined l) || negb (is_defined r) || is_zero r) eqn:Ed.
  - rewrite (Hu eq_refl). rewrite in_width_id by (done || by rewrite len_undefined). eexists. split; [done|].
    rewrite <- Hs, andb_diag, Ll.
    assert (E : negb (is_defined l) || negb (is_defined r) || (bv_Z (vbits r) =? 0)%Z = true).
    { destruct (is_defined r) eqn:Er; [|by rewrite orb_true_r]. rewrite <- is_zero_vbits by done. done. }
    rewrite E. apply plain_const_is; [by repeat split|lia|apply len_undefined|apply vbits_undefined].
  - pose proof Ed as [[Dl%negb_false_iff Dr%negb_false_iff]%orb_false_iff Hz]%orb_false_iff.
    rewrite is_zero_vbits in Hz by done. rewrite Dl, Dr, Hz. cbn [negb orb].
    pose proof (const_wf_num _ Hl Dl) as Wl. pose proof (const_wf_num _ Hr Dr) as Wr.
    destruct Hd as (v & E & [Dv _] & Lv & Uv); [done..| |].
    { intros H0. rewrite bv_Z_vbits in Hz. pose proof (to_Z_mod r) as M. rewrite H0, Z.mod_0_l in M by (pose proof (pow2_pos (len r)); lia).
      rewrite <- M in Hz. done. }
    destruct (Hf v E) as (Hh & Hsv & Hst). rewrite E, in_width_id by (done || lia). eexists. split; [done|]. split.
    + by apply (string_const l).
    + lia.
    + by rewrite Hsv, <- Hs, andb_diag.
    + rewrite bv_num_own by lia. rewrite Hs at 1. rewrite bv_num_own by lia. apply vbits_of_Z; [done|lia|]. by rewrite Uv, Ll.
Qed.

Lemma vdiv_const w l r :
  const_ok l -> const_ok r -> len l = w -> len r = w -> has_sign l = has_sign r ->
  folds true w (has_sign l) (bv_div (has_sign l) (vbits l) (vbits r)) (in_width w (vdiv l r)).
Proof.
  intros Hl Hr Ll Lr Hs. pose proof (ok_len _ Hl) as Sl. pose proof (ok_len _ Hr) as Sr.
  apply divide_const; try done.
  - intros v E. apply (vdiv_flags l r v E). by rewrite Sl, Sr.
  - intros Wl Wr H0. destruct (vdiv_spec l r Wl Wr Hs H0) as (v & E & Wv & _ & _ & Hv & _); [unfold native_fits; lia|].
    destruct Hv as [L U]; [by rewrite Sl, Sr|]. by exists v.
  - intros Ed. unfold vdiv. by rewrite Ed, Sl, Sr.
Qed.

Lemma vmod_const w l r :
  const_ok l -> const_ok r -> len l = w -> len r = w -> has_sign l = has_sign r ->
  folds true w (has_sign l) (bv_mod (has_sign l) (vbits l) (vbits r)) (in_width w (vmod l r)).
Proof.
  intros Hl Hr Ll Lr Hs. pose proof (ok_len _ Hl) as Sl. pose proof (ok_len _ Hr) as Sr.
  apply divide_const; try done.
  - intros v E. apply (vmod_flags l r v E); [by rewrite Sl, Sr|apply Hl].
  - intros Wl Wr H0. destruct (vmod_spec l r Wl Wr Hs H0) as (v & E & Wv & _ & _ & Hv & _); [unfold native_fits; lia|].
    destruct Hv as [L U]; [by rewrite Sl, Sr|]. by exists v.
  - intros Ed. unfold vmod. by rewrite Ed, Sl, Sr.
Qed.

(** ** Power *)

Lemma trim_sized v : has_len v = true -> trim_vnum v = v.
Proof. intros H. unfold trim_vnum. by rewrite H. Qed.

Lemma vpow_const w l r :
  const_ok l -> const_ok r -> len l = w ->
  folds true w (has_sign l) (bv_pow (has_sign l) (has_sign r) (vbits l) (vbits r)) (in_width w (vpow l r)).
Proof.
  intros Hl Hr Ll. pose proof (ok_pos _ Hl) as Hp.
  cut (exists v, vpow l r = Some v /\ len v = w /\ vbits v = bv_pow (has_sign l) (has_sign r) (vbits l) (vbits r)).
  { intros (v & E & L & B). pose proof (vpow_flags _ _ _ E) as F. rewrite (ok_len _ Hl) in F.
    rewrite E, in_width_id by (apply F || done). eexists. split; [done|]. apply plain_const_is; done || lia. }
  assert (HT : forall T v, vpow l r = Some v -> typed_as l T v -> len v = w /\ vbits v = of_Z w T).
  { intros T v _ [[Dv _] _ _ Hz _]. destruct (Hz (ok_len _ Hl)) as [L U]. split; [lia|].
    apply vbits_of_Z; [done|lia|]. by rewrite U, Ll. }
  unfold bv_pow. rewrite !unknown_vbits, length_vbits, !bv_num_own, Ll by apply ok_pos, Hr || done.
  rewrite <- negb_andb. destruct (is_defined l && is_defined r) eqn:Hu; cbn [negb].
  2: { rewrite vpow_undefined, (ok_len _ Hl), trim_sized by done. eexists. rewrite len_undefined, vbits_undefined, Ll. done. }
  apply andb_true_iff in Hu as [Dl Dr].
  pose proof (const_wf_num _ Hl Dl) as Wl. pose proof (const_wf_num _ Hr Dr) as Wr.
  destruct (Z.leb_spec 0 (to_Z r)) as [H0|H0].
  - destruct (vpow_spec l r Wl Wr H0) as (v & E & T). exists v. split; [done|]. by apply HT.
  - destruct (Z.eqb_spec (to_Z l) 0) as [Z0|Z0].
    + rewrite vpow_zero_negative by done. eexists. split; [done|]. rewrite (ok_len _ Hl), trim_sized by done.
      by rewrite len_undefined, vbits_undefined, Ll.
    + destruct (vpow_negative_spec l r Wl Wr H0 Z0) as (v & E & T). exists v. split; [done|]. by apply HT.
Qed.

(** ** Shifts *)

Lemma vbits_nth_ext v l :
  len v = length l -> (forall i, (i < length l)%nat -> bit4_of_V (bit v i) = nth i l BIT4_X) -> vbits v = l.
Proof.
  intros HL Hi. apply (nth_ext _ _ BIT4_X BIT4_X); [by rewrite length_vbits|]. rewrite length_vbits, HL.
  intros i H. rewrite nth_vbits. by apply Hi.
Qed.

(** The count of a shift, read into 32 bits, shifts as the count itself. *)
Lemma shift_count l r :
  const_ok r -> is_defined r = true -> Z.of_nat (len l) < 2 ^ 32 ->
  let shift := Z.to_nat (as_unsigned r) in
  let k := Z.to_nat (Z.min (bv_Z (vbits r)) (Z.of_nat (len l))) in
  (k = shift /\ (shift < len l)%nat) \/ (k = len l /\ (len l <= shift)%nat).
Proof.
  intros Hr Dr Hw. cbv zeta. unfold as_unsigned. rewrite (as_native_spec 32) by (by apply const_wf_num || lia).
  rewrite bv_Z_vbits. change (pow2 32) with (2 ^ 32). pose proof (uval_bound (bits_ r)). lia.
Qed.

Lemma vshl_bits l shift k :
  has_len l = true -> (k = shift /\ (shift < len l)%nat) \/ (k = len l /\ (len l <= shift)%nat) ->
  vbits (vshl l shift) = bv_shl k (vbits l).
Proof.
  intros Hl Hk. unfold vshl. rewrite Hl. rewrite trim_sized by done. apply vbits_nth_ext.
  { unfold len, bv_shl, vbits. cbn. rewrite length_map, length_seq, length_map, length_take, length_app, length_replicate. lia. }
  rewrite length_shl, length_vbits. intros i Hi. unfold bv_shl. rewrite nth_map_seq, nth_vbits by (by rewrite length_vbits).
  unfold bit. cbn [bits_ set_has_sign verinum_of_bits]. rewrite nth_take by done.
  destruct (Nat.ltb_spec i k) as [Hik|Hik].
  - rewrite app_nth1 by (rewrite length_replicate; lia). by rewrite nth_lookup, lookup_replicate_2 by lia.
  - rewrite app_nth2 by (rewrite length_replicate; lia). rewrite length_replicate. do 2 f_equal. lia.
Qed.

Lemma vshr_bits l shift k :
  const_ok l -> (k = shift /\ (shift < len l)%nat) \/ (k = len l /\ (len l <= shift)%nat) ->
  exists v, vshr l shift = Some v /\ flags true (has_sign l) v /\ len v = len l /\
    vbits v = bv_shr (if has_sign l then msb (vbits l) else BIT4_0) k (vbits l).
Proof.
  intros Hl Hk. pose proof (ok_len _ Hl) as Hh. pose proof (ok_pos _ Hl) as Hp. unfold vshr.
  assert (Hs : exists s, sign_bit l = Some s /\ bit4_of_V s = if has_sign l then msb (vbits l) else BIT4_0).
  { unfold sign_bit. destruct (has_sign l); [|by eexists]. rewrite (top_bit_nth _ Vx) by done. eexists. split; [done|].
    unfold msb. by rewrite nth_vbits, length_vbits. }
  destruct Hs as (s & -> & <-). cbn. rewrite Hh. destruct (Nat.leb_spec (len l) shift).
  - exists (set_has_sign (has_sign l) (verinum_fill s (len l) true)).
    split_and!; [done|by repeat split|apply len_fill|]. rewrite vbits_set_sign, vbits_fill, bv_shr_all by (rewrite length_vbits; lia). by rewrite length_vbits.
  - rewrite trim_sized by done. eexists. split; [done|]. split; [by repeat split|].
    assert (HL : len (set_has_sign (has_sign l) (verinum_of_bits (drop shift (bits_ l) ++ replicate (len l - (len l - shift)) s) true)) = len l).
    { unfold len in *. cbn. rewrite length_app, length_drop, length_replicate. lia. }
    split; [done|]. apply vbits_nth_ext; [by rewrite HL, length_shr, length_vbits|].
    rewrite length_shr, length_vbits. intros i Hi. unfold bv_shr. rewrite nth_map_seq by (by rewrite length_vbits).
    rewrite length_vbits. unfold bit. cbn [bits_ set_has_sign verinum_of_bits]. destruct (Nat.ltb_spec (i + k) (len l)).
    + rewrite app_nth1 by (rewrite length_drop; unfold len in *; lia). rewrite nth_vbits. unfold bit.
      rewrite !nth_lookup, lookup_drop. do 3 f_equal. lia.
    + rewrite app_nth2 by (rewrite length_drop; unfold len in *; lia). f_equal.
      rewrite nth_lookup, lookup_replicate_2; [done|]. rewrite length_drop. unfold len in *. lia.
Qed.

Lemma cast_width v w : has_len v = true -> len v = w -> cast_to_width v w = Some v.
Proof. intros H <-. unfold cast_to_width. by rewrite H, Nat.eqb_refl. Qed.


(** * The binary operators *)

Lemma constants_some l r lv rv : constants l r = Some (lv, rv) -> l = NetEConst lv /\ r = NetEConst rv.
Proof. destruct l, r; try done. cbn. intros [= -> ->]. done. Qed.

Lemma both_const_comm l r : both_const l r = both_const r l.
Proof. apply andb_comm. Qed.

Lemma constants_none_const l r : constants l r = None -> both_const l r = false.
Proof. by destruct l, r. Qed.

Lemma folds_none must w s bs : must = false -> folds must w s bs (Some None).
Proof. intros H. by exists None. Qed.

(** Without two constants nothing need be given. *)
Ltac constants_none Ec := cbn [andb]; rewrite (constants_none_const _ _ Ec); rewrite ?andb_false_r.

(** Decides the tests of a known operator character. *)
Ltac eval_op :=
  repeat match goal with |- context [Ascii.eqb ?a ?b] =>
    let x := eval vm_compute in (Ascii.eqb a b) in change (Ascii.eqb a b) with x end;
  cbn match.

(** One case per operator of [op_in]. *)
Ltac each_op H := unfold op_in in H; cbn [In] in H; repeat destruct H as [<-|H]; [..|done]; eval_op.

(** Splits an evaluation that needs two constants. *)
Ltac on_constants l r :=
  destruct (constants l r) as [[lv rv]|] eqn:Ec; [apply constants_some in Ec as [-> ->]|by apply folds_none; constants_none Ec].

(** The operators that are evaluated: all but the bitwise [~&] and [~|]. *)
Definition foldable (class : binary_class) (op : ascii) : bool :=
  match class with NetEBBits => negb ((op =? "A") || (op =? "O"))%char | _ => true end.

Lemma folds_some must w s bs v : const_is w s bs v -> folds must w s bs (Some (Some v)).
Proof. intros H. by exists (Some v). Qed.

Lemma folds_one must b x : bit4_of_V b = x -> folds must 1 false (one_bit x) (one_bit_const b).
Proof. intros <-. apply folds_some, plain_const_is; [by repeat split|lia|done|done]. Qed.

Lemma folds_strict must w s bs val v :
  val = Some v -> in_width w val = Some (Some v) -> const_is w s bs v -> folds must w s bs (in_width w val).
Proof. intros _ -> H. by apply folds_some. Qed.

Lemma add_folds env op w s l r :
  wf env l -> wf env r -> binary_ok NetEBAdd op w s l r ->
  folds (both_const l r) w s (sem_binary NetEBAdd op (expr_sign l) (expr_sign r) (sem env l) (sem env r)) (add_eval_arguments op w l r).
Proof.
  intros Hl Hr ((Ll & Lr) & -> & Hop). unfold add_eval_arguments. on_constants l r. cbn [wf expr_width expr_sign sem sem_binary] in *.
  pose proof (ok_pos _ Hl). rewrite operands_ok_true by lia. cbn [negb]. each_op Hop.
  - destruct (vadd_const w lv rv Hl Hr Ll Lr) as (v & E & Ei & Hv). by eapply folds_strict.
  - destruct (vsub_const w lv rv Hl Hr Ll Lr) as (v & E & Ei & Hv). by eapply folds_strict.
Qed.

Lemma mult_folds env op w s l r :
  wf env l -> wf env r -> binary_ok NetEBMult op w s l r ->
  folds (both_const l r) w s (sem_binary NetEBMult op (expr_sign l) (expr_sign r) (sem env l) (sem env r)) (mult_eval_arguments w l r).
Proof.
  intros Hl Hr ((Ll & Lr) & ->). unfold mult_eval_arguments. on_constants l r. cbn [wf expr_width expr_sign sem sem_binary] in *.
  pose proof (ok_pos _ Hl). rewrite operands_ok_true by lia. cbn [negb].
  destruct (vmul_const w lv rv Hl Hr Ll Lr) as (v & E & Ei & Hv). by eapply folds_strict.
Qed.

Lemma div_folds env op w s l r :
  wf env l -> wf env r -> binary_ok NetEBDiv op w s l r ->
  folds (both_const l r) w s (sem_binary NetEBDiv op (expr_sign l) (expr_sign r) (sem env l) (sem env r)) (div_eval_arguments op w l r).
Proof.
  intros Hl Hr ((Ll & Lr) & Sl & Sr & Hop). unfold div_eval_arguments. on_constants l r. cbn [wf expr_width expr_sign sem sem_binary] in *.
  pose proof (ok_pos _ Hl). rewrite operands_ok_true by lia. cbn [negb]. rewrite Sl, Sr, andb_diag. rewrite <- Sl.
  assert (Es : has_sign lv = has_sign rv) by congruence.
  each_op Hop; [by apply vdiv_const|by apply vmod_const].
Qed.

Lemma pow_folds env op w s l r :
  wf env l -> wf env r -> binary_ok NetEBPow op w s l r ->
  folds (both_const l r) w s (sem_binary NetEBPow op (expr_sign l) (expr_sign r) (sem env l) (sem env r)) (pow_eval_arguments w l r).
Proof.
  intros Hl Hr (Ll & ->). unfold pow_eval_arguments. on_constants l r. cbn [wf expr_width expr_sign sem sem_binary] in *.
  pose proof (ok_pos _ Hl). rewrite Ll, Nat.eqb_refl, (proj2 (Nat.ltb_lt 0 w)) by lia. cbn [negb andb]. by apply vpow_const.
Qed.

Lemma shift_folds env op w s l r :
  wf env l -> wf env r -> binary_ok NetEBShift op w s l r ->
  folds (both_const l r) w s (sem_binary NetEBShift op (expr_sign l) (expr_sign r) (sem env l) (sem env r)) (shift_eval_arguments op w s l r).
Proof.
  intros Hl Hr (Ll & -> & Hw & Hop). unfold shift_eval_arguments. on_constants l r. cbn [wf expr_width expr_sign sem sem_binary] in *.
  pose proof (ok_pos _ Hl) as Hp. rewrite Ll, Nat.eqb_refl, (proj2 (Nat.ltb_lt 0 w)) by lia. cbn [negb andb].
  unfold bv_shift. rewrite unknown_vbits, length_vbits. destruct (is_defined rv) eqn:Dr; cbn [negb].
  2:{ apply folds_some, plain_const_is; [by repeat split|lia|apply len_fill|].
      rewrite vbits_set_sign, vbits_fill, <- Ll. by each_op Hop. }
  subst w. pose proof (shift_count lv rv Hr Dr Hw) as Hk. cbv zeta in Hk. revert Hk.
  generalize (Z.to_nat (as_unsigned rv)), (Z.to_nat (Z.min (bv_Z (vbits rv)) (Z.of_nat (len lv)))). intros shift k Hk.
  each_op Hop.
  - assert (Hh : has_len (vshl lv shift) = true) by (unfold vshl; rewrite trim_sized; apply Hl).
    pose proof (vshl_bits lv shift k (ok_len _ Hl) Hk) as B.
    assert (HL : len (vshl lv shift) = len lv) by (by rewrite <- length_vbits, B, length_shl, length_vbits).
    rewrite (cast_width _ _ Hh HL). cbn. apply folds_some, plain_const_is; [|done|done|done].
    split; [done|done|]. unfold vshl. rewrite trim_sized by apply Hl. done.
  - assert (Hu : const_ok (set_has_sign false lv)) by (destruct Hl; by split).
    destruct (vshr_bits (set_has_sign false lv) shift k Hu Hk) as (v & -> & [F1 F2 F3] & L & B). cbn.
    change (len (set_has_sign false lv)) with (len lv) in L.
    rewrite (cast_width _ _ F1 L). cbn. by apply folds_some, plain_const_is.
  - destruct (vshr_bits lv shift k Hl Hk) as (v & -> & [F1 F2 F3] & L & B). cbn.
    rewrite (cast_width _ _ F1 L). cbn. by apply folds_some, plain_const_is.
Qed.

Lemma minmax_folds env op w s l r :
  wf env l -> wf env r -> binary_ok NetEBMinMax op w s l r ->
  folds (both_const l r) w s (sem_binary NetEBMinMax op (expr_sign l) (expr_sign r) (sem env l) (sem env r)) (minmax_eval_arguments op w s l r).
Proof.
  intros Hl Hr ((Ll & Lr) & Hop). unfold minmax_eval_arguments. on_constants l r. cbn [wf expr_width expr_sign sem sem_binary] in *.
  pose proof (ok_pos _ Hl). rewrite operands_ok_true by lia. cbn [negb]. unfold bv_minmax.
  rewrite !unknown_vbits, <- negb_andb, length_vbits. destruct (is_defined lv && is_defined rv) eqn:Ed; cbn [negb].
  2:{ apply folds_some, plain_const_is; [by repeat split|lia|apply len_fill|]. by rewrite vbits_set_sign, vbits_fill, Ll. }
  pose proof Ed as [Dl Dr]%andb_true_iff. pose proof (const_wf_num _ Hl Dl) as Wl. pose proof (const_wf_num _ Hr Dr) as Wr.
  assert (HS : forall v, const_ok v -> len v = w -> const_is w s (vbits v) (set_has_sign s v)).
  { intros v [] Lv. by split; [split|..]. }
  each_op Hop.
  - destruct (vlt_bits lv rv Wl Wr) as [-> _]. cbn. rewrite V_true_bool. apply folds_some. destruct (_ <? _); by apply HS.
  - unfold vgt. destruct (vlt_bits rv lv Wr Wl) as [-> _]. cbn. rewrite V_true_bool, (andb_comm (has_sign rv)).
    apply folds_some. destruct (_ <? _); by apply HS.
Qed.

(** ** Bitwise operators *)

Lemma eq_loop_true l r lp rp idx cnt :
  eq_loop l r lp rp idx cnt = true ->
  forall i, (idx <= i < idx + cnt)%nat ->
  (if (i <? len l)%nat then bit l i else lp) = (if (i <? len r)%nat then bit r i else rp).
Proof.
  revert idx. induction cnt as [|n IH]; intros idx H i Hi; [lia|]. cbn [eq_loop] in H.
  destruct (V_eqb _ _) eqn:E; [|done]. destruct (Nat.eq_dec i idx) as [->|]; [by apply V_eqb_eq|].
  apply (IH (S idx)); [done|lia].
Qed.

(** The test [v == verinum(0)]: it is carried out, and only zeros pass. *)
Lemma veq_zero v :
  (0 < len v)%nat ->
  exists z, veq v (verinum_of_int64 0) = Some z /\ (V_true z = true -> forall i, (i < len v)%nat -> bit v i = V0).
Proof.
  intros Hp. unfold veq, cmp_pads. set (zero := verinum_of_int64 0).
  assert (HZ : forall i, (i < len zero)%nat -> bit zero i = V0) by (intros i Hi; change (len zero) with 2%nat in Hi; by destruct i as [|[|i]]; [..|lia]).
  assert (HE : forall lp, eq_loop v zero lp V0 0 (len v `max` len zero) = true -> forall i, (i < len v)%nat -> bit v i = V0).
  { intros lp H i Hi. pose proof (eq_loop_true _ _ _ _ _ _ H i ltac:(lia)) as E.
    rewrite (proj2 (Nat.ltb_lt i (len v)) Hi) in E. rewrite E. case_cmp; [by apply HZ|done]. }
  destruct (has_sign v).
  - rewrite (top_bit_nth (bits_ v) Vx) by apply Hp. change (top_bit (bits_ zero)) with (Some V0). cbn [andb mbind option_bind has_sign zero verinum_of_int64].
    destruct (_ || _) eqn:E1; [by eexists|]. eexists. split; [done|]. rewrite V_true_bool. apply HE.
  - cbn [mbind option_bind andb]. eexists. split; [done|]. rewrite V_true_bool. apply HE.
Qed.

Lemma zip_zero_and bs (l : list vvp_bit4_t) :
  length l = length bs -> (forall b, In b bs -> b = V0) ->
  zip_with bit4_and (map bit4_of_V bs) l = replicate (length bs) BIT4_0 /\
  zip_with bit4_and l (map bit4_of_V bs) = replicate (length bs) BIT4_0.
Proof.
  revert l. induction bs as [|b bs IH]; intros [|x l] Hl Hz; try done. cbn [map length replicate zip_with].
  destruct (IH l) as [-> ->]; [by injection Hl|intros c Hc; apply Hz; by right|].
  rewrite (Hz b) by (by left). by destruct x.
Qed.

Lemma all_zero v : (forall i, (i < len v)%nat -> bit v i = V0) -> forall b, In b (bits_ v) -> b = V0.
Proof. intros H b Hb. apply (In_nth _ _ Vx) in Hb as (i & Hi & <-). by apply H. Qed.

Lemma vbits_zip f g l r w s :
  (forall a b, bit4_of_V (f a b) = g (bit4_of_V a) (bit4_of_V b)) -> len l = w -> len r = w ->
  let v := set_has_sign s (verinum_of_bits (map (fun idx => f (bit l idx) (bit r idx)) (seq 0 w)) true) in
  len v = w /\ vbits v = zip_with g (vbits l) (vbits r).
Proof.
  intros Hf Ll Lr v. assert (Lv : len v = w) by (unfold len, v; cbn; by rewrite length_map, length_seq).
  split; [done|]. apply vbits_nth_ext; rewrite length_zip_with, !length_vbits, Ll, Lr, Nat.min_id; [done|].
  intros i Hi. unfold v, bit at 1. cbn [bits_ set_has_sign verinum_of_bits]. rewrite nth_map_seq by done.
  rewrite Hf, <- !nth_vbits, !nth_lookup, lookup_zip_with.
  destruct (lookup_lt_is_Some_2 (vbits l) i) as [x ->]; [rewrite length_vbits; lia|].
  by destruct (lookup_lt_is_Some_2 (vbits r) i) as [y ->]; [rewrite length_vbits; lia|].
Qed.

Lemma bits_folds env op w s l r :
  wf env l -> wf env r -> binary_ok NetEBBits op w s l r ->
  folds (both_const l r && foldable NetEBBits op) w s (sem_binary NetEBBits op (expr_sign l) (expr_sign r) (sem env l) (sem env r)) (bits_eval_arguments op w s l r).
Proof.
  intros Hl Hr ((Ll & Lr) & Hop). unfold bits_eval_arguments. on_constants l r. cbn [wf expr_width expr_sign sem sem_binary] in *.
  pose proof (ok_pos _ Hl) as Pl. pose proof (ok_pos _ Hr) as Pr. unfold bv_map2.
  assert (HB : forall f g, (forall a b, bit4_of_V (f a b) = g (bit4_of_V a) (bit4_of_V b)) ->
    folds (foldable NetEBBits op) w s (zip_with g (vbits lv) (vbits rv))
      (Some (Some (set_has_sign s (verinum_of_bits (map (fun idx => f (bit lv idx) (bit rv idx)) (seq 0 w)) true))))).
  { intros f g Hf. destruct (vbits_zip f g lv rv w s Hf Ll Lr) as [L B]. apply folds_some, plain_const_is; try done || lia. }
  assert (HZ : zip_with bit4_and (vbits lv) (vbits rv) = replicate w BIT4_0 ->
    folds (foldable NetEBBits op) w s (zip_with bit4_and (vbits lv) (vbits rv)) (Some (Some (set_has_sign s (verinum_fill V0 w true))))).
  { intros ->. apply folds_some, plain_const_is; [by repeat split|lia|apply len_fill|]. by rewrite vbits_set_sign, vbits_fill. }
  assert (HO : (op =? "&")%char = false -> folds (foldable NetEBBits op) w s (zip_with (bits4_op op) (vbits lv) (vbits rv))
    (if negb (operands_ok w lv rv) then None else Some match bits_op op with
      | Some f => Some (set_has_sign s (verinum_of_bits (map (fun idx => f (bit lv idx) (bit rv idx)) (seq 0 w)) true))
      | None => None end)).
  { intros Hn. rewrite operands_ok_true by lia. cbn [negb]. unfold bits_op. revert Hn.
    each_op Hop; intros Hn; try done; try (by apply folds_none); apply HB; by intros [] []. }
  destruct (op =? "&")%char eqn:Eop; [|by apply HO]. clear HO. apply Ascii.eqb_eq in Eop as ->.
  destruct (veq_zero lv Pl) as (z1 & -> & Hz1). cbn. destruct (V_true z1) eqn:E1; cbn.
  { apply HZ. rewrite <- Ll. apply (zip_zero_and (bits_ lv)); [rewrite length_vbits; unfold len in *; congruence|by apply all_zero, Hz1]. }
  destruct (veq_zero rv Pr) as (z2 & -> & Hz2). cbn. destruct (V_true z2) eqn:E2; cbn.
  { apply HZ. rewrite <- Lr. apply (zip_zero_and (bits_ rv)); [rewrite length_vbits; unfold len in *; congruence|by apply all_zero, Hz2]. }
  rewrite operands_ok_true by lia. cbn [negb]. apply HB. by intros [] [].
Qed.

(** ** Truth values *)

(** Computes the disjunctions of constants. *)
Ltac eval_or :=
  repeat match goal with |- context [V_or ?a ?b] =>
    let x := eval vm_compute in (V_or a b) in change (V_or a b) with x end.

Lemma fold_left_map {A B C} (f : A -> B -> A) (g : C -> B) l a :
  fold_left f (map g l) a = fold_left (fun x y => f x (g y)) l a.
Proof. revert a. induction l as [|c l IH]; intros a; [done|]. apply IH. Qed.

(** The bit operators commute with the map of the constants, and so do their folds. *)
Lemma fold_vbits (f : V -> V -> V) (g : vvp_bit4_t -> vvp_bit4_t -> vvp_bit4_t) bs a :
  (forall x y, bit4_of_V (f x y) = g (bit4_of_V x) (bit4_of_V y)) ->
  fold_left g (map bit4_of_V bs) (bit4_of_V a) = bit4_of_V (fold_left f bs a).
Proof. intros H. revert a. induction bs as [|b bs IH]; intros a; [done|]. cbn [map fold_left]. by rewrite <- H. Qed.

Lemma truth_vbits v : truth (vbits v) = bit4_of_V (fold_left V_or (bits_ v) V0).
Proof. unfold truth, vbits. change BIT4_0 with (bit4_of_V V0). apply fold_vbits. by intros [] []. Qed.

Lemma or_fold bs :
  fold_left V_or bs V1 = V1 /\
  fold_left V_or bs Vx = (if existsb (fun b => V_eqb b V1) bs then V1 else Vx) /\
  fold_left V_or bs V0 = (if existsb (fun b => V_eqb b V1) bs then V1 else if negb (forallb bit_defined bs) then Vx else V0).
Proof.
  induction bs as [|b bs (IH1 & IHx & IH0)]; [done|]. cbn [fold_left existsb forallb]. destruct b; cbn; rewrite ?IH1, ?IHx, ?IH0; done.
Qed.

Lemma truth_logic v : truth (vbits v) = bit4_of_V (logic_value v).
Proof. rewrite truth_vbits. f_equal. apply or_fold. Qed.

Lemma not_loop_fold bs vx : not_loop bs vx = V_not (fold_left V_or bs (if vx then Vx else V0)).
Proof.
  revert vx. induction bs as [|b bs IH]; intros vx; [by destruct vx|]. destruct (or_fold bs) as [E1 _].
  destruct b, vx; cbn [not_loop fold_left]; eval_or; rewrite ?IH, ?E1; done.
Qed.

Lemma const_logical_fold bs :
  const_logical_loop bs C_0 = match fold_left V_or bs V0 with V0 => C_0 | V1 => C_1 | _ => C_X end /\
  const_logical_loop bs C_X = match fold_left V_or bs Vx with V0 => C_0 | V1 => C_1 | _ => C_X end.
Proof.
  induction bs as [|b bs [IH0 IHx]]; [done|]. destruct (or_fold bs) as [E1 _].
  destruct b; cbn [const_logical_loop fold_left]; eval_or; rewrite ?IH0, ?IHx, ?E1; done.
Qed.

Lemma logic_folds env op w s l r :
  wf env l -> wf env r -> binary_ok NetEBLogic op w s l r ->
  folds (both_const l r) w s (sem_binary NetEBLogic op (expr_sign l) (expr_sign r) (sem env l) (sem env r)) (logic_eval_arguments op l r).
Proof.
  intros Hl Hr (-> & -> & Hop). unfold logic_eval_arguments. on_constants l r. cbn [sem sem_binary].
  rewrite !truth_logic. destruct (logic_value lv), (logic_value rv); each_op Hop; by apply folds_one.
Qed.

(** * Expressions of two-valued type *)

Lemma unknown_one b : unknown (one_bit b) = bit4_is_xz b.
Proof. cbn. apply orb_false_r. Qed.

Lemma bit4_not_xz b : bit4_is_xz (bit4_not b) = bit4_is_xz b.
Proof. by destruct b. Qed.

Lemma known_of_bool b : bit4_is_xz (bit_of_bool b) = false.
Proof. by destruct b. Qed.

Lemma compare4_known op s l r :
  (op = "E" \/ op = "N")%char \/ (unknown l = false /\ unknown r = false) -> bit4_is_xz (compare4 op s l r) = false.
Proof.
  intros H. assert (HE : bit4_is_xz (bv_eeq l r) = false) by apply known_of_bool.
  unfold compare4. destruct H as [[-> | ->]|[Hl Hr]]; [by eval_op|eval_op; by rewrite bit4_not_xz|].
  assert (HQ : bit4_is_xz (bv_eq l r) = false) by (unfold bv_eq; rewrite Hl, Hr; by case_match).
  assert (HW : bit4_is_xz (bv_weq l r) = false).
  { unfold bv_weq. case_match; [done|]. replace (existsb _ (combine l r)) with false; [done|]. symmetry.
    apply not_true_is_false. intros E. apply existsb_exists in E as ([a b] & Hin & E). apply andb_true_iff in E as [E _].
    apply in_combine_l in Hin. unfold unknown in Hl. apply not_true_iff_false in Hl. apply Hl. apply existsb_exists. by exists a. }
  unfold bv_lt, bv_le. rewrite Hl, Hr. cbn [orb]. repeat case_match; rewrite ?bit4_not_xz, ?known_of_bool; done.
Qed.

Lemma truth_known l : unknown l = false -> truth l = BIT4_0 \/ truth l = BIT4_1.
Proof.
  unfold truth, unknown. intros H. assert (G : forall a, a = BIT4_0 \/ a = BIT4_1 -> fold_left bit4_or l a = BIT4_0 \/ fold_left bit4_or l a = BIT4_1); [|by apply G; left].
  induction l as [|b l IH]; intros a Ha; [done|]. cbn in H. apply orb_false_iff in H as [Hb Hl]. cbn [fold_left]. apply IH; [done|].
  destruct b, Ha as [-> | ->]; try done; cbn; auto.
Qed.

Lemma fold_known f l a :
  (forall x y, bit4_is_xz x = false -> bit4_is_xz y = false -> bit4_is_xz (f x y) = false) ->
  unknown l = false -> bit4_is_xz a = false -> bit4_is_xz (fold_left f l a) = false.
Proof.
  intros Hf. unfold unknown. revert a. induction l as [|b l IH]; intros a H Ha; [done|]. cbn in *.
  apply orb_false_iff in H as [Hb Hl]. apply IH; [done|]. by apply Hf.
Qed.

Lemma sem_reduce_known op l : unknown l = false -> unknown (sem_reduce op l) = false.
Proof.
  intros H. unfold sem_reduce. rewrite unknown_one.
  assert (Ht : bit4_is_xz (truth l) = false) by (destruct (truth_known l H) as [-> | ->]; done).
  assert (Ha : bit4_is_xz (fold_left bit4_and l BIT4_1) = false) by (apply fold_known; [by intros [] []|done..]).
  assert (Hx : bit4_is_xz (fold_left bit4_xor l BIT4_0) = false) by (apply fold_known; [by intros [] []|done..]).
  repeat case_match; rewrite ?bit4_not_xz; done.
Qed.

Lemma sem_unary_known op s l : unknown l = false -> unknown (sem_unary op s l) = false.
Proof.
  intros H. unfold sem_unary, bv_neg, bv_magnitude. rewrite H. repeat case_match; rewrite ?unknown_of_Z, ?unknown_not; done.
Qed.

Lemma unknown_app l m : unknown (l ++ m) = unknown l || unknown m.
Proof. apply existsb_app. Qed.

Lemma unknown_take n l : unknown l = false -> unknown (take n l) = false.
Proof. rewrite !unknown_false. intros H i Hi. rewrite length_take in Hi. rewrite nth_lookup, lookup_take_lt, <- nth_lookup by lia. apply H. lia. Qed.

Lemma unknown_replicate n b : bit4_is_xz b = false -> unknown (replicate n b) = false.
Proof. intros H. induction n as [|n IH]; [done|]. cbn. by rewrite H. Qed.

Lemma pad_known s n l : (0 < length l)%nat -> unknown l = false -> unknown (bv_pad s n l) = false.
Proof.
  intros Hl H. unfold bv_pad. rewrite unknown_app, unknown_take by done. apply unknown_replicate.
  destruct s; [|done]. unfold msb. rewrite unknown_false in H. apply H. lia.
Qed.

Lemma part_known lo w l :
  unknown l = false -> 0 <= lo -> lo + Z.of_nat w <= Z.of_nat (length l) -> unknown (bv_part lo w l) = false.
Proof.
  rewrite !unknown_false. intros H H0 Hw i. unfold bv_part. rewrite length_map, length_seq. intros Hi.
  rewrite nth_map_seq, (proj2 (Z.ltb_ge _ _)) by lia. apply H. lia.
Qed.

(** An expression of two-valued type has no unknown bits. *)
Lemma typed env e : wf env e -> expr_type e = IVL_VT_BOOL -> unknown (sem env e) = false.
Proof.
  induction e as [v|n t w s|c op w s l r IHl IHr|n w s parms IH|w s sub IH|w s sub base IH IHb|w s c t f IHc IHt IHf|op w s sub IH|op w s sub IH|op w s sub IH]
    using net_expr_ind; cbn [wf sem expr_type].
  - intros Hv. unfold const_type. rewrite unknown_vbits. case_match; [done|]. destruct (is_string v) eqn:Es.
    + intros _. destruct (ok_string _ Hv Es) as [D _]. by rewrite (proj2 (is_defined_spec v)).
    + by destruct (is_defined v).
  - tauto.
  - intros (Hl & Hr & Hok). destruct c; try done. cbn [binary_type sem_binary]. rewrite unknown_one. intros Ht. apply compare4_known.
    destruct (Ascii.eqb_spec op "E"); [by left; left|]. destruct (Ascii.eqb_spec op "N"); [by left; right|]. right. cbn in Ht.
    destruct (expr_type l), (expr_type r); try done. auto.
  - done.
  - intros (_ & Hs) Ht. pose proof (sem_width env sub Hs) as [Hp HL]. apply pad_known; [lia|auto].
  - intros (_ & Hs & Hb & _ & Hu & Hin) Ht. unfold bv_select. rewrite Hu. pose proof (sem_width env sub Hs) as [Hp HL].
    pose proof (IH Hs Ht) as Hk. destruct (Hin Hk). apply part_known; [done..|lia].
  - intros (Hc & Ht & Hf & _) E. destruct (expr_type c), (expr_type t), (expr_type f); try done.
    unfold ev_ternary. destruct (truth_known (sem env c)) as [-> | ->]; auto.
  - intros (Hs & _) Ht. apply sem_unary_known. auto.
  - intros (Hs & _) Ht. apply sem_reduce_known. auto.
  - intros (Hs & _) _. pose proof (sem_width env sub Hs) as [Hp HL]. apply pad_known; [rewrite length_map; lia|].
    clear. unfold unknown. induction (sem env sub) as [|b l IH]; [done|]. cbn. rewrite IH. by destruct b.
Qed.

(** * Comparisons *)

Lemma V_xz_bits b : bit4_is_xz (bit4_of_V b) = V_xz b.
Proof. by destruct b. Qed.

Lemma V_eqb_bits a b : bit4_eqb (bit4_of_V a) (bit4_of_V b) = V_eqb b a.
Proof. by destruct a, b. Qed.

Lemma differ_bits l r : bits_differ (bit4_of_V l) (bit4_of_V r) = negb (V_xz l) && negb (V_xz r) && negb (V_eqb r l).
Proof. unfold bits_differ. by rewrite !V_xz_bits, V_eqb_bits. Qed.

Definition any_differ (l r : list vvp_bit4_t) : bool := existsb (fun '(a, b) => bits_differ a b) (combine l r).
Definition left_unknown (l r : list vvp_bit4_t) : bool := existsb (fun '(a, b) => bit4_is_xz a && negb (bit4_is_xz b)) (combine l r).

Lemma eqeq_loop_bits ne lv rv res :
  length lv = length rv ->
  eqeq_loop ne lv rv res =
    if any_differ (map bit4_of_V lv) (map bit4_of_V rv) then ne
    else if unknown (map bit4_of_V lv) || unknown (map bit4_of_V rv) then Vx else res.
Proof.
  revert rv res. induction lv as [|l lv IH]; intros [|r rv] res HL; try done. injection HL as HL.
  cbn [eqeq_loop map]. unfold any_differ, unknown. cbn [combine existsb]. rewrite differ_bits, !V_xz_bits, !IH by done.
  fold (any_differ (map bit4_of_V lv) (map bit4_of_V rv)). fold (unknown (map bit4_of_V lv)). fold (unknown (map bit4_of_V rv)).
  destruct (V_xz l), (V_xz r), (V_eqb r l), (any_differ _ _), (unknown (map _ lv)), (unknown (map _ rv)); done.
Qed.

Lemma weqeq_loop_bits ne lv rv res :
  length lv = length rv ->
  weqeq_loop ne lv rv res =
    if any_differ (map bit4_of_V lv) (map bit4_of_V rv) then ne
    else if left_unknown (map bit4_of_V lv) (map bit4_of_V rv) then Vx else res.
Proof.
  revert rv res. induction lv as [|l lv IH]; intros [|r rv] res HL; try done. injection HL as HL.
  cbn [weqeq_loop map]. unfold any_differ, left_unknown. cbn [combine existsb]. rewrite differ_bits, !V_xz_bits, !IH by done.
  fold (any_differ (map bit4_of_V lv) (map bit4_of_V rv)). fold (left_unknown (map bit4_of_V lv) (map bit4_of_V rv)).
  destruct (V_xz l), (V_xz r), (V_eqb r l), (any_differ _ _), (left_unknown _ _); done.
Qed.

Lemma eqeqeq_bits lv rv :
  len lv = len rv ->
  bit4_of_V (bool_V (forallb (fun idx => V_eqb (bit lv idx) (bit rv idx)) (seq 0 (len lv)))) = bv_eeq (vbits lv) (vbits rv).
Proof.
  intros HL. unfold bv_eeq. replace (forallb _ _) with (bool_decide (vbits lv = vbits rv)); [by destruct (bool_decide _)|].
  apply eq_true_iff_eq. rewrite bool_decide_eq_true, forallb_forall. split.
  - intros E i _. apply V_eqb_eq. unfold bit. by rewrite (vbits_inj _ _ E).
  - intros H. apply vbits_nth_ext; [by rewrite length_vbits|]. rewrite length_vbits. intros i Hi. rewrite nth_vbits. f_equal.
    apply V_eqb_eq, H, in_seq. lia.
Qed.

(** The number that [must_be_leeq_] builds: all ones, with a 0 in the sign position of a
    signed comparison. *)
Definition largest (b : bool) (w : nat) : option verinum :=
  let lv := verinum_fill V1 w true in
  if b then lv ← set lv (len lv - 1) V0; Some (set_has_sign true lv) else Some lv.

Lemma uval_largest w : (0 < w)%nat -> uval (<[(w - 1)%nat:=V0]> (replicate w V1)) = pow2 (w - 1) - 1.
Proof.
  intros Hw. rewrite insert_replicate_lt, uval_app, uval_replicate by lia. cbn [uval].
  rewrite length_replicate, bz_V0, bz_V1. replace (w - S (w - 1))%nat with 0%nat by lia. cbn [replicate uval]. lia.
Qed.

(** It bounds every value of its width. *)
Lemma largest_spec b w l :
  (0 < w)%nat -> length l = w ->
  exists lv, largest b w = Some lv /\ wf_num lv /\ has_sign lv = b /\ bv_num b l <= bv_num b (vbits lv).
Proof.
  intros Hw HL. pose proof (bv_num_range b l ltac:(lia)) as HR. rewrite HL in HR. unfold largest. destruct b.
  - unfold set. rewrite len_fill, (proj2 (Nat.ltb_lt _ _)) by lia. cbn [mbind option_bind]. eexists. split; [done|].
    set (lv := set_has_sign _ _). assert (Dv : defined (bits_ lv)) by (apply defined_insert; [apply defined_replicate; by right|by left]).
    assert (Lv : len lv = w) by (unfold len, lv; cbn; by rewrite length_insert, length_replicate).
    split; [split; [done|lia]|]. split; [done|]. rewrite bv_num_vbits by lia. rewrite to_Z_signed by done. unfold sval, lv.
    cbn [bits_ set_has_sign set_bits verinum_fill].
    rewrite length_insert, length_replicate, (nth_lookup (<[_:=_]> _)), list_lookup_insert_eq by (rewrite length_replicate; lia).
    rewrite uval_largest by lia. change (default V0 (Some V0)) with V0. rewrite bz_V0. unfold pow2. cbn [bv_num]. lia.
  - eexists. split; [done|]. split; [split; [apply defined_replicate; by right|by rewrite len_fill]|]. split; [done|].
    cbn [bv_num] in *. rewrite bv_Z_vbits. cbn [bits_ verinum_fill]. rewrite uval_replicate, bz_V1. unfold pow2. lia.
Qed.

(** [must_be_leeq_] only answers yes when every value of its operand satisfies the comparison. *)
Lemma must_be_leeq_spec env le rv eq_flag :
  wf env le -> wf_num rv ->
  exists bound, must_be_leeq_ le rv eq_flag = Some bound /\
    (bound = true -> let b := expr_sign le && has_sign rv in
     unknown (sem env le) = false /\
     (bv_num b (sem env le) <? bv_num b (vbits rv)) || (eq_flag && (bv_num b (sem env le) =? bv_num b (vbits rv))) = true).
Proof.
  intros Hw Hr. unfold must_be_leeq_. destruct (sem_width env le Hw) as [Hp Hlen].
  destruct (expr_type le) eqn:Et; [|by exists false]. rewrite (proj2 (Nat.eqb_neq _ _)) by lia.
  pose proof (typed env le Hw Et) as Hk. set (b := expr_sign le && has_sign rv).
  destruct (largest_spec b _ _ Hp Hlen) as (lv & Elv & Wv & Sv & Hmax). unfold largest in Elv. cbv zeta. rewrite Elv. cbn [mbind option_bind].
  destruct (vlt_bits lv rv Wv Hr) as [-> _]. cbn [mbind option_bind]. rewrite V_true_bool.
  assert (Eb : has_sign lv && has_sign rv = b) by (rewrite Sv; unfold b; by destruct (expr_sign le), (has_sign rv)). rewrite Eb.
  destruct (Z.ltb_spec (bv_num b (vbits lv)) (bv_num b (vbits rv))).
  { exists true. split; [done|]. intros _. split; [done|]. by rewrite (proj2 (Z.ltb_lt _ _)) by lia. }
  destruct eq_flag; [|by exists false]. rewrite veq_spec by done. cbn [mbind option_bind]. rewrite V_true_bool, Eb.
  eexists. split; [done|]. rewrite !cmp_val_num by
    (apply Wv || apply Hr || (intros Hb; rewrite <- Eb in Hb; apply andb_true_iff in Hb; tauto)).
  intros E%Z.eqb_eq. split; [done|]. repeat case_cmp; done || lia.
Qed.

(** The orderings, [free] against [limit]: strict, or with equality. *)
Definition ordered (eq_flag signed : bool) (l r : list vvp_bit4_t) : vvp_bit4_t :=
  if eq_flag then bv_le signed l r else bv_lt signed l r.

Lemma ordering_folds env eq_flag cmp free limit :
  wf env free -> wf env limit ->
  (forall v lim, wf_num v -> wf_num lim -> cmp v lim = if eq_flag : bool then vle v lim else vlt v lim) ->
  folds (both_const free limit) 1 false (one_bit (ordered eq_flag (expr_sign free && expr_sign limit) (sem env free) (sem env limit)))
    (eval_ordering eq_flag cmp free limit).
Proof.
  intros Hf Hl Hc. unfold eval_ordering. destruct limit as [lim|?|?|?|?|?|?|?|?]; try (by apply folds_none, andb_false_r). cbn [sem expr_sign wf] in *.
  assert (HX : unknown (sem env free) = true \/ is_defined lim = false ->
    ordered eq_flag (expr_sign free && has_sign lim) (sem env free) (vbits lim) = BIT4_X).
  { unfold ordered, bv_le, bv_lt. rewrite unknown_vbits. intros [-> | ->]; rewrite ?orb_true_r; by destruct eq_flag. }
  destruct (is_defined lim) eqn:Dl; cbn [negb]; [|apply folds_one; symmetry; apply HX; by right].
  pose proof (const_wf_num _ Hl Dl) as Wl.
  assert (HV : unknown (sem env free) = false ->
    ordered eq_flag (expr_sign free && has_sign lim) (sem env free) (vbits lim) =
    bit_of_bool (let b := expr_sign free && has_sign lim in
      if eq_flag then bv_num b (sem env free) <=? bv_num b (vbits lim) else bv_num b (sem env free) <? bv_num b (vbits lim))).
  { intros Hk. unfold ordered, bv_le, bv_lt. rewrite unknown_vbits, Dl, Hk. by destruct eq_flag. }
  destruct (must_be_leeq_spec env free lim eq_flag Hf Wl) as (bound & -> & Hb). cbn [mbind option_bind]. destruct bound.
  { destruct (Hb eq_refl) as [Hk Hord]. apply folds_one. rewrite HV by done. cbv zeta in Hord |- *.
    destruct eq_flag; repeat case_cmp; done || lia. }
  destruct free as [v|?|?|?|?|?|?|?|?]; try (by apply folds_none). cbn [sem expr_sign wf] in *.
  destruct (is_defined v) eqn:Dv; cbn [negb].
  2:{ apply folds_one. symmetry. apply HX. left. by rewrite unknown_vbits, Dv. }
  pose proof (const_wf_num _ Hf Dv) as Wv. rewrite Hc by done. destruct (vlt_bits v lim Wv Wl) as [E1 E2].
  rewrite HV by (by rewrite unknown_vbits, Dv).
  destruct eq_flag; rewrite ?E1, ?E2; cbn [mbind option_bind]; rewrite V_true_bool; apply folds_one; by case_cmp.
Qed.

Lemma compare_consts_folds env f g l r :
  wf env l -> wf env r -> expr_width l = expr_width r ->
  (forall lv rv, len lv = len rv -> bit4_of_V (f lv rv) = g (vbits lv) (vbits rv)) ->
  folds (both_const l r) 1 false (one_bit (g (sem env l) (sem env r))) (compare_consts f l r).
Proof.
  intros Hl Hr HL Hf. unfold compare_consts. on_constants l r. cbn [sem expr_width] in *.
  rewrite (proj2 (Nat.eqb_eq _ _)) by done. cbn [negb]. apply folds_one. by apply Hf.
Qed.

Lemma comp_folds env op w s l r :
  wf env l -> wf env r -> binary_ok NetEBComp op w s l r ->
  folds (both_const l r) w s (sem_binary NetEBComp op (expr_sign l) (expr_sign r) (sem env l) (sem env r)) (comp_eval_arguments op l r).
Proof.
  intros Hl Hr (HL & -> & -> & Hop). unfold comp_eval_arguments. cbn [sem_binary].
  assert (HQ : forall ne, folds (both_const l r) 1 false (one_bit (if ne : bool then bit4_not (bv_eq (sem env l) (sem env r)) else bv_eq (sem env l) (sem env r))) (eval_eqeq_ ne l r)).
  { intros ne. apply (compare_consts_folds env _ (fun a b => if ne then bit4_not (bv_eq a b) else bv_eq a b)); [done..|].
    intros lv rv E. rewrite eqeq_loop_bits by done. unfold bv_eq. fold (vbits lv) (vbits rv). fold (any_differ (vbits lv) (vbits rv)).
    destruct ne, (any_differ (vbits lv) (vbits rv)), (unknown (vbits lv) || unknown (vbits rv)); done. }
  assert (HW : forall ne, folds (both_const l r) 1 false (one_bit (if ne : bool then bit4_not (bv_weq (sem env l) (sem env r)) else bv_weq (sem env l) (sem env r))) (eval_weqeq_ ne l r)).
  { intros ne. apply (compare_consts_folds env _ (fun a b => if ne then bit4_not (bv_weq a b) else bv_weq a b)); [done..|].
    intros lv rv E. rewrite weqeq_loop_bits by done. unfold bv_weq. fold (vbits lv) (vbits rv).
    fold (any_differ (vbits lv) (vbits rv)). fold (left_unknown (vbits lv) (vbits rv)). destruct ne, (any_differ (vbits lv) (vbits rv)), (left_unknown (vbits lv) (vbits rv)); done. }
  assert (HE : forall ne, folds (both_const l r) 1 false (one_bit (if ne : bool then bit4_not (bv_eeq (sem env l) (sem env r)) else bv_eeq (sem env l) (sem env r))) (eval_eqeqeq_ ne l r)).
  { intros ne. apply (compare_consts_folds env _ (fun a b => if ne then bit4_not (bv_eeq a b) else bv_eeq a b)); [done..|].
    intros lv rv E. rewrite <- eqeqeq_bits by done. cbv zeta. destruct ne; [|done]. by destruct (forallb _ _). }
  each_op Hop.
  - apply (HE false).
  - apply (HE true).
  - apply (HQ false).
  - apply (HQ true).
  - apply (HW false).
  - apply (HW true).
  - by apply (ordering_folds env false).
  - by apply (ordering_folds env true).
  - rewrite (andb_comm (expr_sign l)), both_const_comm. by apply (ordering_folds env false).
  - rewrite (andb_comm (expr_sign l)), both_const_comm. by apply (ordering_folds env true).
Qed.

Lemma binary_folds env class op w s l r :
  wf env l -> wf env r -> binary_ok class op w s l r ->
  folds (both_const l r && foldable class op) w s (sem_binary class op (expr_sign l) (expr_sign r) (sem env l) (sem env r)) (binary_eval_arguments class op w s l r).
Proof.
  destruct class; cbn [binary_eval_arguments foldable]; rewrite ?andb_true_r; eauto using add_folds, bits_folds, comp_folds, div_folds, logic_folds, minmax_folds, mult_folds, pow_folds, shift_folds.
Qed.

(** * The other operators *)

Lemma const_of_expr ex : is_const ex = true -> exists v, ex = NetEConst v.
Proof. destruct ex; try done. by eexists. Qed.

Lemma set_bits_const s f v :
  const_ok v -> (is_string v = true -> defined (map f (bits_ v))) -> has_sign v = s ->
  const_is (len v) s (map bit4_of_V (map f (bits_ v))) (set_bits (map f (bits_ v)) v).
Proof.
  intros [H1 H2 H3 H4] Hd Hs. assert (HL : len (set_bits (map f (bits_ v)) v) = len v) by (unfold len; cbn; by rewrite length_map).
  split; [split|done..]; rewrite ?HL; try done. intros Hst. split; [by apply Hd|by apply H4].
Qed.

Lemma vneg_const v :
  const_ok v -> exists r, vneg v = Some r /\ const_is (len v) (has_sign v) (bv_neg (vbits v)) r.
Proof.
  intros Hv. cut (exists r, vneg v = Some r /\ len r = len v /\ vbits r = bv_neg (vbits v)).
  { intros (r & E & L & B). exists r. pose proof (vneg_flags _ _ E) as F. rewrite (ok_len _ Hv) in F. split; [done|].
    apply plain_const_is; [done|apply Hv|done..]. }
  unfold bv_neg. rewrite unknown_vbits, length_vbits. destruct (is_defined v) eqn:Dv; cbn [negb].
  - pose proof (const_wf_num _ Hv Dv) as Wv. destruct (vneg_spec v Wv) as (r & E & Dr & _ & _ & _ & Hz & _).
    destruct Hz as [L U]; [left; apply Hv|]. exists r. split_and!; [done..|]. apply vbits_of_Z; [done..|].
    rewrite U, bv_Z_vbits, <- to_Z_mod. rewrite <- Z.sub_0_l, Zminus_mod, <- (Z.sub_0_l (_ mod _)).
    rewrite (Zminus_mod 0 (_ mod _)), Z.mod_mod; [done|]. pose proof (pow2_pos (len v)). lia.
  - unfold vneg. rewrite Dv, (ok_len _ Hv). cbn [negb]. eexists. split; [done|]. by rewrite len_undefined, vbits_undefined.
Qed.

Lemma magnitude_known v :
  const_ok v -> is_defined v = true ->
  bv_magnitude (has_sign v) (vbits v) = if has_sign v && (to_Z v <? 0) then bv_neg (vbits v) else vbits v.
Proof.
  intros Hv Dv. unfold bv_magnitude, bv_neg. rewrite unknown_vbits, Dv, length_vbits. cbn [negb].
  rewrite bv_num_own by apply Hv. pose proof (to_Z_mod v) as HM.
  assert (HB : vbits v = of_Z (len v) (to_Z v)) by (apply vbits_of_Z; [by apply is_defined_spec|done..]).
  destruct (has_sign v) eqn:Es; cbn [andb].
  - destruct (Z.ltb_spec (to_Z v) 0).
    + rewrite Z.abs_neq by lia. apply of_Z_eqm. rewrite bv_Z_vbits, <- HM. fold (pow2 (len v)).
      rewrite <- !Z.sub_0_l, (Zminus_mod 0 (to_Z v)), (Zminus_mod 0 (to_Z v mod _)), Z.mod_mod by (pose proof (pow2_pos (len v)); lia). done.
    + by rewrite Z.abs_eq by lia.
  - rewrite Z.abs_eq; [done|]. rewrite to_Z_unsigned by done. apply uval_bound.
Qed.

Lemma unary_folds env op w s ex :
  wf env (NetEUnary op w s ex) ->
  folds (is_const ex) w s (sem env (NetEUnary op w s ex)) (unary_eval_arguments op ex).
Proof.
  intros (Hx & HL & Hs & Hop). destruct ex as [v|?|?|?|?|?|?|?|?]; try (by apply folds_none). cbn [wf expr_width expr_sign sem] in *.
  subst w. unfold unary_eval_arguments, sem_unary. each_op Hop.
  - apply folds_some. rewrite <- Hs. by apply const_keep.
  - destruct (vneg_const v Hx) as (r & -> & Hr). apply folds_some. by rewrite <- Hs.
  - destruct (is_defined v) eqn:Dv; cbn [negb].
    + rewrite <- Hs, magnitude_known by done. rewrite is_negative_spec by (by apply const_wf_num). cbn [mbind option_bind].
      destruct (has_sign v && (to_Z v <? 0)); [|apply folds_some; by apply const_keep].
      destruct (vneg_const v Hx) as (r & -> & Hr). by apply folds_some.
    + apply folds_some. unfold bv_magnitude. rewrite unknown_vbits, Dv, length_vbits. cbn [negb].
      replace (replicate (len v) BIT4_X) with (map bit4_of_V (map (fun _ => Vx) (bits_ v))).
      { apply set_bits_const; [done| |done]. intros Hst. destruct (ok_string _ Hx Hst) as [D _].
        by rewrite (proj2 (is_defined_spec v) D) in Dv. }
      unfold len. clear. induction (bits_ v) as [|b bs IH]; [done|]. cbn [map length replicate]. by rewrite IH.
  - apply folds_some. replace (map bit4_not (vbits v)) with
      (map bit4_of_V (map (fun b => match b with V0 => V1 | V1 => V0 | _ => Vx end) (bits_ v))).
    { apply set_bits_const; [done| |done]. intros Hst. destruct (ok_string _ Hx Hst) as [D _]. clear -D.
      induction D as [|b bs [-> | ->] D IH]; constructor; (by left) || (by right) || done. }
    unfold vbits. rewrite !map_map. apply map_ext. by intros [].
Qed.

Lemma xor_fold bs b :
  fold_left V_xor bs (bool_V b) =
    if existsb V_xz bs then Vx else bool_V (xorb b (Nat.odd (length (filter (fun b => V_eqb b V1 = true) bs)))).
Proof.
  revert b. assert (HX : forall bs, fold_left V_xor bs Vx = Vx) by (induction bs0 as [|[] bs0 IH]; done).
  induction bs as [|c bs IH]; intros b; [by destruct b|]. cbn [fold_left existsb]. rewrite filter_cons.
  destruct c; cbn.
  - replace (V_xor (bool_V b) V0) with (bool_V b) by (by destruct b). apply IH.
  - replace (V_xor (bool_V b) V1) with (bool_V (negb b)) by (by destruct b). rewrite IH. destruct (existsb _ _); [done|]. f_equal.
    rewrite decide_True by done. cbn [length]. rewrite Nat.odd_succ, <- Nat.negb_odd. by destruct b, (Nat.odd _).
  - replace (V_xor (bool_V b) Vx) with Vx by (by destruct b). apply HX.
  - replace (V_xor (bool_V b) Vz) with Vx by (by destruct b). apply HX.
Qed.

Lemma reduce_xor_fold bs : reduce_xor bs = fold_left V_xor bs V0.
Proof.
  change V0 with (bool_V false). rewrite xor_fold. unfold reduce_xor.
  assert (E : negb (length (filter (fun b => V_xz b = true) bs) =? 0)%nat = existsb V_xz bs).
  { induction bs as [|b bs IH]; [done|]. rewrite filter_cons. cbn [existsb]. destruct (V_xz b); cbn; [done|]. apply IH. }
  rewrite E. destruct (existsb _ _); [done|]. rewrite xorb_false_l. set (n := length _).
  rewrite <- Nat.bit0_mod, <- Nat.bit0_odd. by destruct (Nat.testbit n 0).
Qed.

Lemma reduce_folds env op w s ex :
  wf env (NetEUReduce op w s ex) ->
  folds (is_const ex) w s (sem env (NetEUReduce op w s ex)) (reduce_eval_arguments op ex).
Proof.
  intros (Hx & -> & -> & Hop). destruct ex as [v|?|?|?|?|?|?|?|?]; try (by apply folds_none). cbn [sem].
  unfold reduce_eval_arguments, sem_reduce. rewrite truth_vbits, not_loop_fold, reduce_xor_fold. unfold vbits.
  change BIT4_1 with (bit4_of_V V1). change BIT4_0 with (bit4_of_V V0).
  rewrite (fold_vbits V_and bit4_and), (fold_vbits V_xor bit4_xor) by (by intros [] []).
  each_op Hop; apply folds_one; try done; by destruct (fold_left _ _ _).
Qed.

(** ** Casts and selects *)

Lemma sgn_bits v : (0 < len v)%nat -> bit4_of_V (sgn v) = if has_sign v then msb (vbits v) else BIT4_0.
Proof.
  intros Hp. unfold sgn. destruct (has_sign v); [|done]. unfold msb. rewrite nth_vbits, length_vbits. unfold bit.
  f_equal. apply nth_indep. unfold len in *. lia.
Qed.

Lemma vbits_app bs cs : map bit4_of_V (bs ++ cs) = map bit4_of_V bs ++ map bit4_of_V cs.
Proof. apply map_app. Qed.

Lemma vbits_replicate n b : map bit4_of_V (replicate n b) = replicate n (bit4_of_V b).
Proof. induction n as [|n IH]; [done|]. cbn [replicate map]. by rewrite IH. Qed.

Lemma firstn_vbits n bs : map bit4_of_V (take n bs) = take n (map bit4_of_V bs).
Proof. revert n. induction bs as [|b bs IH]; intros [|n]; [done..|]. cbn [take map]. by rewrite IH. Qed.

(** The cast of a number without unknown bits extends it or cuts it. *)
Lemma cast_const v w :
  const_ok v -> is_defined v = true -> (0 < w)%nat ->
  exists r, cast_to_width v w = Some r /\ const_is w (has_sign v) (bv_pad (has_sign v) w (vbits v)) r.
Proof.
  intros Hv Dv Hw. pose proof (const_wf_num _ Hv Dv) as Wv. pose proof (ok_pos _ Hv) as Hp.
  destruct (cast_to_width_spec v w Wv (or_introl (ok_single _ Hv))) as (r & E & Hl & Hs & HL & Dr & _).
  exists r. split; [done|]. destruct (cast_flags _ _ _ E (ok_single _ Hv)) as (_ & _ & H1 & _).
  unfold cast_to_width in E. rewrite (ok_len _ Hv) in E. cbn [andb] in E. unfold bv_pad. rewrite length_vbits.
  destruct (Nat.eqb_spec (len v) w) as [Ew|Ew].
  { injection E as <-. rewrite take_ge, Ew, Nat.sub_diag, app_nil_r by (rewrite length_vbits; lia). by split. }
  destruct (Nat.leb_spec w (len v)).
  - unfold verinum_copy in E. rewrite (proj2 (Nat.ltb_ge (len v) w)) in E by lia. rewrite Nat.ltb_irrefl in E.
    injection E as <-. rewrite (proj2 (Nat.sub_0_le w (len v))), app_nil_r by lia.
    split; [split; [done|lia|done|]|done..|by unfold vbits; cbn; apply firstn_vbits].
    cbn. intros [_ ?%Nat.eqb_eq]%andb_true_iff. done.
  - rewrite (proj2 (Nat.eqb_neq (len v) 0)) in E by lia. destruct (pad_bit_sgn v Wv (ok_single _ Hv)) as [Et Ep].
    rewrite Et in E. cbn [mbind option_bind] in E. rewrite Ep in E. injection E as <-.
    split; [split; [done|lia|done|done]|done..|]. rewrite take_ge by (rewrite length_vbits; lia).
    unfold vbits. cbn. by rewrite vbits_app, vbits_replicate, sgn_bits.
Qed.

Lemma int2_bits v : vbits (cast_to_int2 v) = map bit_cast2 (vbits v).
Proof. unfold vbits, cast_to_int2. cbn. rewrite !map_map. apply map_ext. by intros []. Qed.

Lemma int2_const v : const_ok v -> const_ok (cast_to_int2 v) /\ is_defined (cast_to_int2 v) = true /\ len (cast_to_int2 v) = len v.
Proof.
  intros [H1 H2 H3 H4]. assert (HL : len (cast_to_int2 v) = len v) by (unfold len; cbn; by rewrite length_map).
  assert (HD : is_defined (cast_to_int2 v) = true) by (unfold is_defined; cbn; clear; induction (bits_ v) as [|[] bs IH]; done).
  split_and!; [|done|done]. split; rewrite ?HL; try done. intros Hs. split; [by apply is_defined_spec|by apply H4].
Qed.

Lemma cast_folds env op w s ex :
  wf env (NetECast op w s ex) ->
  folds (is_const ex) w s (sem env (NetECast op w s ex)) (cast_eval_arguments op w ex).
Proof.
  intros (Hx & Hw & Hs & ->). unfold cast_eval_arguments. eval_op. destruct ex as [v|?|?|?|?|?|?|?|?]; try (by apply folds_none).
  cbn [sem expr_sign wf] in *. rewrite (proj2 (Nat.ltb_lt 0 w)) by done. destruct (int2_const v Hx) as (Hc & Hd & HL).
  destruct (cast_const _ w Hc Hd Hw) as (r & E & Hr). unfold in_width. cbn [mbind option_bind]. rewrite E. cbn.
  apply folds_some. rewrite <- int2_bits, <- Hs. exact Hr.
Qed.

Lemma select_bits_spec eval pad bval cnt :
  map bit4_of_V (select_bits eval pad bval cnt) =
    map (fun i => let at_ := bval + Z.of_nat i in
      if (0 <=? at_) && (at_ <? Z.of_nat (len eval)) then nth (Z.to_nat at_) (vbits eval) BIT4_X else bit4_of_V pad) (seq 0 cnt).
Proof.
  revert bval. induction cnt as [|n IH]; intros bval; [done|]. cbn [select_bits map seq]. rewrite Z.add_0_r, IH. f_equal.
  - destruct (_ && _); [by rewrite nth_vbits|done].
  - rewrite <- seq_shift, map_map. apply map_ext. intros i. cbv zeta. by replace (bval + 1 + Z.of_nat i) with (bval + Z.of_nat (S i)) by lia.
Qed.

Lemma select_const w s bits_sel :
  (0 < w)%nat -> length bits_sel = w ->
  const_is w s (map bit4_of_V bits_sel) (set_has_sign s (verinum_of_bits bits_sel true)).
Proof. intros Hw HL. by apply plain_const_is. Qed.

Lemma length_select_bits eval pad bval cnt : length (select_bits eval pad bval cnt) = cnt.
Proof. revert bval. induction cnt as [|n IH]; intros bval; [done|]. cbn. by rewrite IH. Qed.

(** Extension by a select without a base. *)
Lemma extend_const w s eval :
  const_ok eval -> (0 < w)%nat ->
  exists v, select_value w s eval None = Some v /\ const_is w s (bv_pad s w (vbits eval)) v.
Proof.
  intros Hv Hw. pose proof (ok_pos _ Hv) as Hp. unfold select_value.
  assert (Hpad : exists p, (if s then get eval (len eval - 1) else Some V0) = Some p /\ bit4_of_V p = if s then msb (vbits eval) else BIT4_0).
  { destruct s; [|by eexists]. unfold get. destruct (lookup_lt_is_Some_2 (bits_ eval) (len eval - 1)) as [p Ep]; [unfold len in *; lia|].
    exists p. split; [done|]. unfold msb. rewrite nth_vbits, length_vbits. unfold bit. by rewrite nth_lookup, Ep. }
  destruct Hpad as (p & -> & Hpb). cbn [mbind option_bind default]. eexists. split; [done|].
  replace (bv_pad s w (vbits eval)) with (map bit4_of_V (select_bits eval p 0 w)).
  { apply select_const; [done|apply length_select_bits]. }
  rewrite select_bits_spec. apply (nth_ext _ _ BIT4_X BIT4_X); [by rewrite length_map, length_seq, length_pad|].
  rewrite length_map, length_seq. intros i Hi. rewrite nth_map_seq by done. cbv zeta. rewrite Z.add_0_l, Nat2Z.id.
  rewrite (proj2 (Z.leb_le _ _)) by lia. cbn [andb]. unfold bv_pad. rewrite length_vbits. destruct (Z.ltb_spec (Z.of_nat i) (Z.of_nat (len eval))).
  - rewrite app_nth1 by (rewrite length_take, length_vbits; lia). rewrite !nth_lookup, lookup_take_lt by lia. done.
  - rewrite app_nth2 by (rewrite length_take, length_vbits; lia). rewrite length_take, length_vbits, nth_lookup, lookup_replicate_2 by lia. done.
Qed.

(** The base of a select as a native integer. *)
Lemma as_long_num v :
  const_ok v -> is_defined v = true -> (len v <= if has_sign v then 64 else 63)%nat ->
  as_long v = bv_num (has_sign v) (vbits v).
Proof.
  intros Hv Dv HL. pose proof (const_wf_num _ Hv Dv) as Wv. rewrite bv_num_own by apply Hv.
  destruct (has_sign v) eqn:Es; [by apply as_long_spec|]. rewrite to_Z_unsigned by done.
  unfold as_long, as_long_warn. rewrite (proj2 (Nat.eqb_neq _ _)), Dv, Es by apply Nat.neq_0_lt_0, Hv. cbn [negb andb fst].
  rewrite take_ge by apply HL. pose proof (as_long_pos_spec (bits_ v) 0 0 (proj1 Wv)) as E. rewrite pow2_0 in E. rewrite E; lia.
Qed.

Lemma part_const w s eval base :
  (0 < w)%nat ->
  exists v, select_value w s eval (Some base) = Some v /\ const_is w s (bv_part base w (vbits eval)) v.
Proof.
  intros Hw. unfold select_value. cbn [mbind option_bind default]. eexists. split; [done|].
  replace (bv_part base w (vbits eval)) with (map bit4_of_V (select_bits eval Vx base w)).
  { apply select_const; [done|apply length_select_bits]. }
  rewrite select_bits_spec. unfold bv_part. apply map_ext. intros i. cbv zeta. rewrite (Z.ltb_antisym 0).
  destruct (Z.leb_spec 0 (base + Z.of_nat i)); [|done]. cbn [negb andb]. destruct (Z.ltb_spec (base + Z.of_nat i) (Z.of_nat (len eval))); [done|].
  symmetry. apply nth_overflow. rewrite length_vbits. lia.
Qed.

(** ** Conditions *)

Lemma const_logical_truth env c :
  match const_logical c with
  | C_0 => truth (sem env c) = BIT4_0
  | C_1 => truth (sem env c) = BIT4_1
  | C_X => is_const c = true /\ (truth (sem env c) = BIT4_X \/ truth (sem env c) = BIT4_Z)
  | C_NON => is_const c = false
  end.
Proof.
  destruct c as [v|?|?|?|?|?|?|?|?]; try done. cbn [const_logical sem]. rewrite truth_vbits.
  rewrite (proj1 (const_logical_fold (bits_ v))). destruct (fold_left V_or (bits_ v) V0); auto.
Qed.

Lemma blend_const s t f w :
  const_ok t -> len t = w -> len f = w ->
  folds true w s (bv_map2 bit_blend (vbits f) (vbits t)) (blended_arguments_ s (NetEConst t) (NetEConst f)).
Proof.
  intros Ht Lt Lf. unfold blended_arguments_. cbn [constants]. apply folds_some. rewrite Lt, Lf, Nat.ltb_irrefl.
  pose proof (vbits_zip (fun a b => if V_eqb a b then a else Vx) (fun a b => bit_blend b a) t f w s) as HZ. cbv zeta in HZ.
  destruct HZ as [HL HB]; [by intros [] []|done..|].
  replace (map _ (seq 0 w)) with (map (fun idx => if V_eqb (bit t idx) (bit f idx) then bit t idx else Vx) (seq 0 w)).
  - apply plain_const_is; [done|pose proof (ok_pos _ Ht); lia|done|]. rewrite HB. unfold bv_map2. clear.
    generalize (vbits t), (vbits f). induction l as [|x l IH]; intros [|y m]; try done. cbn [zip_with]. by rewrite IH.
  - apply map_seq_ext. intros i Hi. by rewrite (proj2 (Nat.ltb_lt i w)) by done.
Qed.

(** * Concatenation *)

(** ** The bits written by the loops *)

Lemma set_some v i b : (i < len v)%nat -> set v i b = Some (set_bits (<[i:=b]> (bits_ v)) v).
Proof. intros H. unfold set. by rewrite (proj2 (Nat.ltb_lt _ _) H). Qed.

Lemma bit_set v i b j : (i < len v)%nat -> bit (set_bits (<[i:=b]> (bits_ v)) v) j = if (j =? i)%nat then b else bit v j.
Proof.
  intros Hi. unfold bit. cbn [bits_ set_bits]. rewrite !nth_lookup. destruct (Nat.eqb_spec j i) as [->|].
  - by rewrite list_lookup_insert_eq.
  - by rewrite list_lookup_insert_ne.
Qed.

(** [v'] is [v] with other bits. *)
Definition same_flags (v v' : verinum) : Prop := len v' = len v /\ set_bits [] v' = set_bits [] v.

Lemma set_copies_spec reps gap cur b v :
  (cur < gap)%nat -> Forall (fun rep => (rep * gap + cur < len v)%nat) reps ->
  exists v', set_copies reps gap cur b v = Some v' /\ same_flags v v' /\
    forall i, bit v' i = if existsb (fun rep => (i =? rep * gap + cur)%nat) reps then b else bit v i.
Proof.
  intros Hc. revert v. induction reps as [|rep reps IH]; intros v Hr; [by exists v|].
  inversion Hr as [|? ? Hrep Hreps]; subst. cbn [set_copies existsb]. rewrite set_some by done. cbn [mbind option_bind].
  set (v1 := set_bits _ v). assert (L1 : len v1 = len v) by (unfold len, v1; cbn; by rewrite length_insert).
  destruct (IH v1) as (v' & E & [HL HF] & HB); [by rewrite L1|]. exists v'. split; [done|]. split; [by split; [rewrite <- L1|]|].
  intros i. rewrite HB. destruct (existsb _ reps); [by rewrite orb_true_r|]. rewrite orb_false_r. by apply bit_set.
Qed.

Lemma copies_hit repeat gap cur rep j :
  (cur < gap)%nat -> (j < gap)%nat -> (rep < repeat)%nat ->
  existsb (fun r => (rep * gap + j =? r * gap + cur)%nat) (seq 0 repeat) = (j =? cur)%nat.
Proof.
  intros Hc Hj Hr. apply eq_true_iff_eq. rewrite existsb_exists, Nat.eqb_eq. split.
  - intros (r & _ & E%Nat.eqb_eq). rewrite <- (Nat.mod_small j gap), <- (Nat.mod_small cur gap) by done.
    rewrite <- (Nat.Div0.mod_add j rep gap), <- (Nat.Div0.mod_add cur r gap). f_equal. lia.
  - intros ->. exists rep. split; [by apply in_seq; lia|by apply Nat.eqb_eq].
Qed.

(** Every copy starts with the bits [acc]. *)
Record filled (repeat gap : nat) (acc : list V) (v : verinum) : Prop := {
  fi_len : len v = (repeat * gap)%nat;
  fi_bits : forall rep j, (rep < repeat)%nat -> (j < length acc)%nat -> bit v (rep * gap + j) = nth j acc Vx }.

Lemma set_operand_spec repeat gap bs acc v :
  (length acc + length bs <= gap)%nat -> filled repeat gap acc v ->
  exists v', set_operand repeat gap bs (length acc) v = Some v' /\ same_flags v v' /\ filled repeat gap (acc ++ bs) v'.
Proof.
  revert acc v. induction bs as [|b bs IH]; intros acc v HL Hf; [exists v; by rewrite app_nil_r|]. cbn [set_operand length] in *.
  destruct (set_copies_spec (seq 0 repeat) gap (length acc) b v) as (v1 & -> & [L1 F1] & B1); [lia| |].
  { apply List.Forall_forall. intros r Hr%in_seq. rewrite (fi_len _ _ _ _ Hf). nia. }
  cbn [mbind option_bind]. assert (Hf1 : filled repeat gap (acc ++ [b]) v1).
  { split; [rewrite L1; apply Hf|]. rewrite length_app. cbn [length]. intros rep j Hr Hj. rewrite B1, copies_hit by lia.
    destruct (Nat.eqb_spec j (length acc)) as [->|]; [by rewrite nth_middle|]. rewrite app_nth1 by lia. apply Hf; lia. }
  destruct (IH (acc ++ [b]) v1) as (v' & E & [L2 F2] & Hf2); [rewrite length_app; cbn; lia|done|].
  rewrite length_app in E. cbn [length] in E. rewrite E. exists v'. split; [done|]. split; [by split; [rewrite L2|rewrite F2]|]. by rewrite <- app_assoc in Hf2.
Qed.

Lemma filled_copies repeat gap acc v : filled repeat gap acc v -> length acc = gap -> vbits v = copies repeat (map bit4_of_V acc).
Proof.
  intros [HL HB] Ha. apply vbits_nth_ext; rewrite length_copies, length_map, Ha; [done|]. intros i Hi.
  assert (Hg : gap <> 0%nat) by nia. rewrite (Nat.div_mod i gap Hg) at 1. rewrite (Nat.mul_comm gap).
  assert (Hd : (i / gap < repeat)%nat) by (apply Nat.Div0.div_lt_upper_bound; lia).
  assert (Hm : (i mod gap < gap)%nat) by (by apply Nat.mod_upper_bound).
  rewrite HB by lia.
  rewrite <- (map_nth bit4_of_V acc Vx). change (bit4_of_V Vx) with BIT4_X.
  rewrite (Nat.div_mod i gap Hg) at 2. clear HL HB Hi. revert Hd. generalize (i / gap)%nat as q. intros q. unfold copies.
  assert (Lm : length (map bit4_of_V acc) = gap) by (by rewrite length_map). revert q. induction repeat as [|n IH]; intros q Hd; [lia|].
  cbn [replicate concat]. destruct q as [|q].
  - rewrite Nat.mul_0_r, Nat.add_0_l, app_nth1 by lia. done.
  - rewrite app_nth2 by lia. rewrite (IH q) by lia. f_equal. rewrite Lm. nia.
Qed.

(** The widths of the constants of a list. *)
Definition const_widths (vals : list NetExpr) : nat := list_sum (map (fun e => if is_const e then expr_width e else 0%nat) vals).

Definition const_string (e : NetExpr) : bool := match e with NetEConst v => is_string v | _ => false end.

Lemma concat_loop_spec repeat gap vals acc v flag :
  (length acc + const_widths vals <= gap)%nat -> filled repeat gap acc v ->
  if forallb is_const vals then
    exists v' acc', concat_loop repeat gap vals (length acc) v flag = Some (Some (v', flag && forallb const_string vals)) /\
      same_flags v v' /\ filled repeat gap (acc ++ acc') v' /\ length acc' = const_widths vals /\
      forall env, map bit4_of_V acc' = concat (map (sem env) vals)
  else concat_loop repeat gap vals (length acc) v flag = Some None.
Proof.
  unfold const_widths. revert acc v flag. induction vals as [|e vals IH]; intros acc v flag HL Hf.
  { cbn. exists v, []. by rewrite app_nil_r, andb_true_r. }
  destruct e as [tmp|?|?|?|?|?|?|?|?]; try done. cbn [concat_loop forallb is_const andb map expr_width const_string] in *.
  change (list_sum (len tmp :: ?x)) with (len tmp + list_sum x)%nat in *.
  destruct (set_operand_spec repeat gap (bits_ tmp) acc v) as (v1 & -> & [L1 F1] & Hf1); [unfold len in *; lia|done|].
  cbn [mbind option_bind]. specialize (IH (acc ++ bits_ tmp) v1 (flag && is_string tmp)).
  rewrite length_app in IH. specialize (IH ltac:(unfold len in *; lia) Hf1). fold (len tmp) in IH.
  destruct (forallb is_const vals); [|done]. destruct IH as (v' & acc' & E & [L2 F2] & Hf2 & HL2 & HB).
  exists v', (bits_ tmp ++ acc'). rewrite E, andb_assoc. split; [done|]. split; [by split; [rewrite L2|rewrite F2]|]. rewrite app_assoc. split; [done|].
  rewrite length_app, HL2. split; [done|]. intros env. rewrite map_app, (HB env). done.
Qed.

(** ** Strings: the bits of a string survive the conversion to text and back *)

Lemma char_of_bits_range bs : defined bs -> length bs = 8%nat -> bits_of_char (char_of_bits bs 1) = bs /\ 0 <= char_of_bits bs 1 < 256.
Proof.
  intros Hd HL. do 8 (destruct bs as [|? bs]; [done|]). destruct bs; [|done].
  repeat match goal with H : Forall _ (_ :: _) |- _ => inversion H; clear H; subst end.
  repeat match goal with H : _ \/ _ |- _ => destruct H as [-> | ->] end; by vm_compute.
Qed.

Lemma escape_read c rest :
  0 <= c < 256 -> process_verilog_string_quotes (escape_char c ++ rest) = cons c <$> process_verilog_string_quotes rest.
Proof.
  intros Hc. assert (Ho : process_verilog_string_quotes (octal_escape c ++ rest) = cons c <$> process_verilog_string_quotes rest).
  { unfold octal_escape. cbn [app process_verilog_string_quotes]. rewrite Z.eqb_refl.
    assert (H1 : 0 <= c / 64 < 4) by (Z.div_mod_to_equations; lia). pose proof (Z.mod_pos_bound (c / 8) 8 ltac:(lia)). pose proof (Z.mod_pos_bound c 8 ltac:(lia)).
    assert (HO : forall d, 0 <= d < 8 -> is_octal (ch_0 + d) = true).
    { intros d Hd. unfold is_octal, ch_0, ch_7. apply andb_true_iff. split; apply Z.leb_le; lia. }
    rewrite !HO by lia. unfold ch_0. rewrite !(proj2 (Z.eqb_neq _ _)) by lia. do 2 f_equal.
    replace (8 * (48 + c / 64 - 48) + (48 + (c / 8) mod 8) - 48) with (c / 8).
    - rewrite (Z.mod_small (c / 8)) by (Z.div_mod_to_equations; lia). rewrite Z.mod_small; Z.div_mod_to_equations; lia.
    - Z.div_mod_to_equations. lia. }
  unfold escape_char. destruct ((c =? ch_quote) || (c =? ch_backslash)) eqn:E; [done|]. destruct (is_print c); [|done].
  apply orb_false_iff in E as [_ E]. cbn [app process_verilog_string_quotes]. by rewrite E.
Qed.

Lemma text_read cs : Forall (fun c => 0 <= c < 256) cs -> process_verilog_string_quotes (concat (map escape_char cs)) = Some cs.
Proof. induction 1 as [|c cs Hc _ IH]; [done|]. cbn [map concat]. by rewrite escape_read, IH. Qed.

Lemma chars_bits n bs :
  defined bs -> length bs = (8 * n)%nat ->
  concat (map bits_of_char (chars_of_bits n bs)) = bs /\ length (chars_of_bits n bs) = n /\ Forall (fun c => 0 <= c < 256) (chars_of_bits n bs).
Proof.
  revert bs. induction n as [|n IH]; intros bs Hd HL; [by destruct bs|]. cbn [chars_of_bits map concat length].
  destruct (IH (drop 8 bs)) as (E & L & F); [by apply Forall_drop|rewrite length_drop; lia|].
  destruct (char_of_bits_range (take 8 bs)) as [E8 R]; [by apply Forall_take|rewrite length_take; lia|].
  rewrite E, L, E8, take_drop. split_and!; [done..|by constructor].
Qed.

Lemma string_roundtrip v :
  defined (bits_ v) -> (len v mod 8 = 0)%nat -> (0 < len v)%nat ->
  exists s v', as_string v = Some s /\ verinum_of_string s = Some v' /\ bits_ v' = bits_ v /\
    has_len v' = true /\ is_single v' = false.
Proof.
  intros Hd H8 Hp. unfold as_string. rewrite H8. cbn. set (n := (len v / 8)%nat).
  assert (Hn : len v = (8 * n)%nat) by (pose proof (Nat.div_mod (len v) 8 ltac:(lia)); unfold n; lia).
  destruct (chars_bits n (bits_ v) Hd Hn) as (E & L & F). eexists _, _. split; [done|].
  unfold verinum_of_string. rewrite text_read by (by apply Forall_rev). cbn. rewrite length_reverse || rewrite length_rev.
  rewrite L, (proj2 (Nat.eqb_neq n 0)) by lia. split; [done|]. cbn. by rewrite rev_involutive.
Qed.

(** A string read back, as the constant that a concatenation returns. *)
Lemma string_result v s :
  defined (bits_ v) -> (len v mod 8 = 0)%nat -> (0 < len v)%nat ->
  exists st v', as_string v = Some st /\ verinum_of_string st = Some v' /\ const_is (len v) s (vbits v) (set_has_sign s v').
Proof.
  intros Hd H8 Hp. destruct (string_roundtrip v Hd H8 Hp) as (st & v' & E1 & E2 & B & L & S). exists st, v'. split_and!; [done..|].
  assert (LV : len (set_has_sign s v') = len v) by (unfold len; cbn; by rewrite B).
  split; [split|done|done|by rewrite vbits_set_sign; unfold vbits; rewrite B]; rewrite ?LV; try done. cbn. by rewrite B.
Qed.

(** ** The value of a concatenation *)

Lemma list_sum_rev l : list_sum (rev l) = list_sum l.
Proof. induction l as [|x l IH]; [done|]. cbn [rev]. rewrite list_sum_app, IH. unfold list_sum. cbn. lia. Qed.

Lemma const_widths_all vals : forallb is_const vals = true -> const_widths vals = list_sum (map expr_width vals).
Proof.
  unfold const_widths. induction vals as [|e vals IH]; [done|]. cbn [forallb]. intros [He Hv]%andb_true_iff.
  cbn [map]. rewrite He. unfold list_sum in *. cbn. by rewrite IH.
Qed.

Lemma unknown_concat ls : Forall (fun l => unknown l = false) ls -> unknown (concat ls) = false.
Proof. induction 1 as [|l ls Hl _ IH]; [done|]. cbn [concat]. by rewrite unknown_app, Hl, IH. Qed.

(** Strings are known and whole characters. *)
Lemma strings_ok env vals :
  Forall (wf env) vals -> forallb const_string vals = true ->
  Forall (fun l => unknown l = false) (map (sem env) vals) /\ (list_sum (map expr_width vals) mod 8 = 0)%nat.
Proof.
  induction 1 as [|e vals He _ IH]; [done|]. cbn [forallb map]. intros [Hs Hr]%andb_true_iff. destruct (IH Hr) as [H1 H2].
  destruct e as [v|?|?|?|?|?|?|?|?]; try done. destruct (ok_string _ He Hs) as [D M]. split.
  - constructor; [|done]. cbn [sem]. by rewrite unknown_vbits, (proj2 (is_defined_spec v)).
  - cbn [expr_width]. unfold list_sum in *. cbn [fold_right]. rewrite Nat.Div0.add_mod, M, H2. done.
Qed.

Lemma concat_folds env repeat w s vals gap :
  Forall (wf env) vals -> (0 < w)%nat -> w = (repeat * list_sum (map expr_width vals))%nat ->
  (const_widths vals <= gap)%nat -> (forallb is_const vals = true -> gap = const_widths vals) ->
  folds (forallb is_const vals) w s (copies repeat (concat (reverse (map (sem env) vals))))
    (concat_eval_arguments repeat s vals gap).
Proof.
  intros Hw Hp E Hg Hge. unfold concat_eval_arguments. set (v0 := verinum_fill Vx (repeat * gap) true).
  assert (Hf0 : filled repeat gap [] v0) by (split; [apply len_fill|cbn; lia]).
  assert (Hrev : const_widths (rev vals) = const_widths vals).
  { unfold const_widths. rewrite map_rev. apply list_sum_rev. }
  pose proof (concat_loop_spec repeat gap (rev vals) [] v0 true ltac:(cbn; lia) Hf0) as HC.
  assert (Hall : forallb is_const (rev vals) = forallb is_const vals).
  { apply eq_true_iff_eq. rewrite !forallb_forall. by setoid_rewrite <- in_rev. }
  rewrite Hall in HC. cbn [length] in HC. destruct (forallb is_const vals) eqn:Ea.
  2:{ rewrite HC. cbn. by apply folds_none. }
  destruct HC as (v & acc & -> & [HL HF] & Hf & Ha & HB). specialize (Hge eq_refl). cbn [mbind option_bind andb].
  assert (Lv : len v = w) by (rewrite HL; unfold v0; by rewrite len_fill, Hge, const_widths_all).
  assert (Bv : vbits v = copies repeat (concat (reverse (map (sem env) vals)))).
  { rewrite (filled_copies repeat gap acc v Hf) by lia. by rewrite (HB env), map_rev, rev_alt. }
  assert (Fl : has_len v = true) by apply (f_equal has_len HF). assert (Fg : is_single v = false) by apply (f_equal is_single HF).
  destruct (forallb const_string (rev vals)) eqn:Es.
  - assert (Es' : forallb const_string vals = true) by (rewrite forallb_forall in *; intros x Hx; apply Es; by apply in_rev in Hx).
    destruct (strings_ok env vals Hw Es') as [Hk H8].
    assert (Kv : unknown (vbits v) = false).
    { rewrite Bv. unfold copies. apply unknown_concat, Forall_replicate, unknown_concat. by apply Forall_reverse. }
    assert (Dv : is_defined v = true) by (rewrite unknown_vbits in Kv; by apply negb_false_iff).
    destruct (string_result v s) as (st & v' & -> & E2 & Hv'); [by apply is_defined_spec| |lia|].
    { by rewrite Lv, E, Nat.Div0.mul_mod, H8, Nat.mul_0_r. }
    cbn [mbind option_bind]. rewrite E2. cbn [mbind option_bind]. apply folds_some. by rewrite <- Bv, <- Lv.
  - cbn [mbind option_bind]. apply folds_some, plain_const_is; [|done|done|done].
    split; [done|done|]. split; [done|]. apply (f_equal is_string HF).
Qed.

(** * The combination of constants in sums *)

Lemma unknown_strict op l r : (0 < length l)%nat -> unknown (bv_strict op l r) = unknown l || unknown r.
Proof.
  intros Hl. unfold bv_strict. destruct (unknown l || unknown r); [|apply unknown_of_Z]. destruct l; [cbn in Hl; lia|done].
Qed.

Lemma strict_combine op1 op2 op3 a l r :
  (forall n x y z, op2 (op1 x y mod 2 ^ n) z mod 2 ^ n = op2 x (op3 z y mod 2 ^ n) mod 2 ^ n) ->
  (0 < length a)%nat -> length l = length a -> length r = length a ->
  bv_strict op2 (bv_strict op1 a l) r = bv_strict op2 a (bv_strict op3 r l).
Proof.
  intros Hop Hp Hl Hr. assert (U1 := unknown_strict op1 a l Hp). assert (U3 := unknown_strict op3 r l ltac:(lia)).
  unfold bv_strict at 1 3. rewrite U1, U3, length_strict.
  destruct (unknown a) eqn:Ea, (unknown l) eqn:El, (unknown r) eqn:Er; try done. cbn [orb].
  unfold bv_strict. rewrite Ea, El, Er. cbn [orb]. apply of_Z_eqm. by rewrite !bv_Z_of_Z, Hr, Hop.
Qed.

(** An expression that can stand for another. *)
Record keeps (env : nat -> list vvp_bit4_t) (e e' : NetExpr) : Prop := {
  kp_wf : wf env e';
  kp_width : expr_width e' = expr_width e;
  kp_sign : expr_sign e' = expr_sign e;
  kp_sem : sem env e' = sem env e }.

Lemma keeps_refl env e : wf env e -> keeps env e e.
Proof. by split. Qed.

Lemma keeps_trans env e1 e2 e3 : keeps env e1 e2 -> keeps env e2 e3 -> keeps env e1 e3.
Proof. intros [] []. split; congruence. Qed.

Lemma combine_keeps env op w s l r :
  wf env (NetEBinary NetEBAdd op w s l r) ->
  exists e', add_combine op w s l r = Some e' /\ keeps env (NetEBinary NetEBAdd op w s l r) e' /\ is_const e' = false.
Proof.
  intros Hw. pose proof (keeps_refl env _ Hw) as Hk. unfold add_combine. destruct l as [| |class se_op w' s' a c| | | | | |]; try by eexists.
  destruct class; try by eexists. destruct c as [lval| | | | | | | |]; try by eexists. destruct r as [rval| | | | | | | |]; try by eexists.
  destruct Hw as ((Ha & Hlv & (La & Ll) & -> & Hse) & Hrv & (Lw & Lr) & -> & Hop). cbn [expr_width expr_sign wf] in *. subst w'.
  pose proof (ok_pos _ Hrv) as Hp. rewrite operands_ok_true by lia. cbn [negb].
  destruct (sem_width env a Ha) as [_ La']. destruct (vadd_const w rval lval) as (va & Ea & Ca & Ka); [done|done|done|lia|].
  destruct (vsub_const w rval lval) as (vs & Es & Cs & Ks); [done|done|done|lia|].
  unfold in_width in Ca, Cs. rewrite Ea in Ca |- *. rewrite Es in Cs |- *. cbn [mbind option_bind] in Ca, Cs |- *.
  destruct (cast_to_width va w) as [ca|] eqn:Eca; [|done]. destruct (cast_to_width vs w) as [cs|] eqn:Ecs; [|done].
  cbn in Ca, Cs. injection Ca as ->. injection Cs as ->.
  assert (HK : forall v op3, const_is w (has_sign rval && has_sign lval) (bv_strict op3 (vbits rval) (vbits lval)) v ->
    (forall n x y z, (if (op =? "+")%char then Z.add else Z.sub) ((if (se_op =? "+")%char then Z.add else Z.sub) x y mod 2 ^ n) z mod 2 ^ n
      = (if (op =? "+")%char then Z.add else Z.sub) x (op3 z y mod 2 ^ n) mod 2 ^ n) ->
    keeps env (NetEBinary NetEBAdd op w (expr_sign a && has_sign lval && has_sign rval) (NetEBinary NetEBAdd se_op (expr_width a) (expr_sign a && has_sign lval) a (NetEConst lval)) (NetEConst rval))
      (NetEBinary NetEBAdd op w (expr_sign a && has_sign lval && has_sign rval) a (NetEConst v))).
  { intros v op3 [Hok HL Hs HB] Hops. split; [|done|done|].
    - cbn [wf expr_width expr_sign binary_ok]. split_and!; try done. rewrite Hs. by destruct (expr_sign a), (has_sign lval), (has_sign rval).
    - cbn [sem sem_binary]. rewrite HB. unfold bv_add, bv_sub.
      pose proof (strict_combine _ _ _ (sem env a) (vbits lval) (vbits rval) Hops
        ltac:(lia) ltac:(rewrite length_vbits; lia) ltac:(rewrite length_vbits; lia)) as HC.
      destruct (op =? "+")%char, (se_op =? "+")%char; by rewrite HC. }
  assert (HM : forall x y n, (x mod 2 ^ n + y) mod 2 ^ n = (x + y) mod 2 ^ n) by (intros; apply Zplus_mod_idemp_l).
  assert (HS : forall x y n, (x mod 2 ^ n - y) mod 2 ^ n = (x - y) mod 2 ^ n) by (intros; apply Zminus_mod_idemp_l).
  assert (HM' : forall x y n, (x + y mod 2 ^ n) mod 2 ^ n = (x + y) mod 2 ^ n) by (intros; apply Zplus_mod_idemp_r).
  assert (HS' : forall x y n, (x - y mod 2 ^ n) mod 2 ^ n = (x - y) mod 2 ^ n) by (intros; apply Zminus_mod_idemp_r).
  destruct (Ascii.eqb_spec op se_op) as [<-|Hne].
  - cbn [mbind option_bind]. eexists. split; [done|]. split; [|done]. apply (HK va Z.add Ka). intros n x y z.
    destruct (op =? "+")%char; rewrite ?HM, ?HS, ?HM', ?HS'; f_equal; lia.
  - cbn [mbind option_bind]. eexists. split; [done|]. split; [|done]. apply (HK vs Z.sub Ks). intros n x y z. revert Hne.
    each_op Hse; each_op Hop; intros Hne; try done; rewrite ?HM, ?HS, ?HM', ?HS'; f_equal; lia.
Qed.

(** * Evaluation *)

(** An expression of constants, with operators that are evaluated. *)
Fixpoint closed (e : NetExpr) : bool :=
  match e with
  | NetEConst _ => true
  | NetESignal _ _ _ _ => false
  | NetEBinary class op _ _ l r => foldable class op && closed l && closed r
  | NetEConcat _ _ _ parms => forallb closed parms
  | NetESelect _ _ sub None => closed sub
  | NetESelect _ _ sub (Some base) => closed sub && closed base
  | NetETernary _ _ c t f => closed c && closed t && closed f
  | NetEUnary _ _ _ sub | NetEUReduce _ _ _ sub | NetECast _ _ _ sub => closed sub
  end.

(** What [eval_tree] promises of an expression: both what it leaves behind and what it returns
    can stand for it, and an expression of constants becomes one. *)
Definition evaluates (env : nat -> list vvp_bit4_t) (e : NetExpr) : Prop :=
  exists self tmp, eval_tree e = Some (self, tmp) /\
    keeps env e self /\ is_const self = is_const e /\
    (forall e', tmp = Some e' -> keeps env e e') /\
    (closed e = true -> is_const (default self tmp) = true).

(** The calls of [eval_expr] inside [eval_tree]. *)
Lemma evaluates_expr env e :
  evaluates env e ->
  exists e', eval_expr e = Some e' /\ keeps env e e' /\ (closed e = true -> is_const e' = true).
Proof.
  intros (self & tmp & E & Hs & _ & Ht & Hc). unfold eval_expr. rewrite E. cbn. eexists. split; [done|].
  split; [|done]. destruct tmp; [by apply Ht|done].
Qed.

Lemma const_keeps env e v :
  const_is (expr_width e) (expr_sign e) (sem env e) v -> keeps env e (NetEConst v).
Proof. intros [H1 H2 H3 H4]. by split. Qed.

(** A node that is left as [self] and may have been evaluated to a constant. *)
Lemma evaluates_folds env e self must (val : option (option verinum)) :
  eval_tree e = val ≫= constant self -> is_const e = false -> is_const self = false ->
  keeps env e self -> folds must (expr_width e) (expr_sign e) (sem env e) val -> (closed e = true -> must = true) ->
  evaluates env e.
Proof.
  intros E H1 H2 Hk (o & -> & Ho) Hm. cbn in E. exists self, (NetEConst <$> o). split; [done|]. split; [done|]. split; [congruence|].
  split.
  - intros e' He. destruct o as [v|]; [|done]. injection He as <-. by apply const_keeps.
  - intros Hc. destruct o; [done|]. by rewrite Hm in Ho.
Qed.

Lemma has_width_wf env e : wf env e -> has_width e = true.
Proof.
  induction e as [v|n t w s|c op w s l r IHl IHr|n w s parms IH|w s sub IH|w s sub base IH IHb|w s c t f IHc IHt IHf|op w s sub IH|op w s sub IH|op w s sub IH]
    using net_expr_ind; cbn [wf has_width]; try done.
  - by intros [].
  - intros (Hl & Hr & _). rewrite (IHl Hl), (IHr Hr). by destruct c.
Qed.

Lemma binary_evaluates env class op w s l r :
  evaluates env l -> evaluates env r -> wf env (NetEBinary class op w s l r) -> evaluates env (NetEBinary class op w s l r).
Proof.
  intros Hl Hr (Wl & Wr & Hok).
  destruct (evaluates_expr env l Hl) as (l' & El & [Wl' L1 L2 L3] & Cl). destruct (evaluates_expr env r Hr) as (r' & Er & [Wr' R1 R2 R3] & Cr).
  assert (Hok' : binary_ok class op w s l' r').
  { destruct class; cbn [binary_ok] in *; by rewrite ?L1, ?L2, ?R1, ?R2. }
  pose proof (binary_folds env class op w s l' r' Wl' Wr' Hok') as HF.
  assert (Hk : keeps env (NetEBinary class op w s l r) (NetEBinary class op w s l' r')).
  { split; [done..|]. cbn [sem]. by rewrite L2, L3, R2, R3. }
  assert (Hm : closed (NetEBinary class op w s l r) = true -> both_const l' r' && foldable class op = true).
  { cbn [closed]. intros [[Hf Hc1]%andb_true_iff Hc2]%andb_true_iff. unfold both_const. by rewrite Cl, Cr, Hf. }
  assert (ET : eval_tree (NetEBinary class op w s l r) =
    res ← binary_eval_arguments class op w s l' r';
    match class, res with
    | NetEBAdd, None => self ← add_combine op w s l' r'; Some (self, None)
    | _, _ => constant (NetEBinary class op w s l' r') res
    end).
  { unfold eval_expr in El, Er. cbn [eval_tree]. rewrite El. cbn [mbind option_bind]. by rewrite Er. }
  rewrite L2, L3, R2, R3 in HF. destruct HF as (res & EF & HF). rewrite EF in ET. cbn [mbind option_bind] in ET.
  destruct res as [v|].
  - exists (NetEBinary class op w s l' r'), (Some (NetEConst v)). split; [rewrite ET; by destruct class|]. split_and!; [done|done| |done].
    intros e' [= <-]. by apply const_keeps.
  - assert (Hn : closed (NetEBinary class op w s l r) = true -> False) by (intros Hc; rewrite Hm in HF by done; done).
    assert (HA : exists self, eval_tree (NetEBinary class op w s l r) = Some (self, None) /\ keeps env (NetEBinary class op w s l r) self /\ is_const self = false).
    { rewrite ET. destruct class; try by eexists. destruct (combine_keeps env op w s l' r' (kp_wf _ _ _ Hk)) as (self & -> & Hs & Hf).
      exists self. split; [done|]. split; [by eapply keeps_trans|done]. }
    destruct HA as (self & ES & Hs & Hf). exists self, None. by split_and!.
Qed.

(** Nodes with one operand. *)
Lemma unary_evaluates env op w s sub :
  evaluates env sub -> wf env (NetEUnary op w s sub) -> evaluates env (NetEUnary op w s sub).
Proof.
  intros Hs Hw. destruct (evaluates_expr env sub Hs) as (x & E & [Wx X1 X2 X3] & Cx).
  assert (Wx' : wf env (NetEUnary op w s x)) by (destruct Hw as (_ & ? & ? & ?); split_and!; congruence).
  assert (Hk : keeps env (NetEUnary op w s sub) (NetEUnary op w s x)) by (split; [done..|]; cbn [sem]; by rewrite X3).
  eapply (evaluates_folds env _ (NetEUnary op w s x) _ (unary_eval_arguments op x)); [|done|done|exact Hk| |exact Cx].
  - unfold eval_expr in E. cbn [eval_tree]. by rewrite E.
  - rewrite <- (kp_sem _ _ _ Hk). by apply unary_folds.
Qed.

Lemma reduce_evaluates env op w s sub :
  evaluates env sub -> wf env (NetEUReduce op w s sub) -> evaluates env (NetEUReduce op w s sub).
Proof.
  intros Hs Hw. destruct (evaluates_expr env sub Hs) as (x & E & [Wx X1 X2 X3] & Cx).
  assert (Wx' : wf env (NetEUReduce op w s x)) by (destruct Hw as (_ & ? & ? & ?); by split_and!).
  assert (Hk : keeps env (NetEUReduce op w s sub) (NetEUReduce op w s x)) by (split; [done..|]; cbn [sem]; by rewrite X3).
  eapply (evaluates_folds env _ (NetEUReduce op w s x) _ (reduce_eval_arguments op x)); [|done|done|exact Hk| |exact Cx].
  - unfold eval_expr in E. cbn [eval_tree]. by rewrite E.
  - rewrite <- (kp_sem _ _ _ Hk). by apply reduce_folds.
Qed.

Lemma cast_evaluates env op w s sub :
  evaluates env sub -> wf env (NetECast op w s sub) -> evaluates env (NetECast op w s sub).
Proof.
  intros Hs Hw. destruct (evaluates_expr env sub Hs) as (x & E & [Wx X1 X2 X3] & Cx).
  assert (Wx' : wf env (NetECast op w s x)) by (destruct Hw as (_ & ? & ? & ?); split_and!; congruence).
  assert (Hk : keeps env (NetECast op w s sub) (NetECast op w s x)) by (split; [done..|]; cbn [sem]; by rewrite X3).
  eapply (evaluates_folds env _ (NetECast op w s x) _ (cast_eval_arguments op w x)); [|done|done|exact Hk| |exact Cx].
  - unfold eval_expr in E. cbn [eval_tree]. by rewrite E.
  - rewrite <- (kp_sem _ _ _ Hk). by apply cast_folds.
Qed.

Lemma extend_evaluates env w s sub :
  evaluates env sub -> wf env (NetESelect w s sub None) -> evaluates env (NetESelect w s sub None).
Proof.
  intros Hs [Hp Hw]. destruct (evaluates_expr env sub Hs) as (x & E & [Wx X1 X2 X3] & Cx).
  assert (Hk : keeps env (NetESelect w s sub None) (NetESelect w s x None)) by (split; [done..|]; cbn [sem]; by rewrite X3).
  eapply (evaluates_folds env _ (NetESelect w s x None) _ (match x with NetEConst v => Some <$> select_value w s v None | _ => Some None end)); [|done|done|exact Hk| |exact Cx].
  - unfold eval_expr in E. cbn [eval_tree]. rewrite E. cbn [mbind option_bind]. destruct x as [v| | | | | | | |]; try done.
    by destruct (select_value _ _ _ _).
  - rewrite <- (kp_sem _ _ _ Hk). destruct x as [v| | | | | | | |]; try by apply folds_none.
    destruct (extend_const w s v Wx Hp) as (r & -> & Hr). by apply folds_some.
Qed.


Lemma select_evaluates env w s sub base :
  evaluates env sub -> evaluates env base -> wf env (NetESelect w s sub (Some base)) ->
  evaluates env (NetESelect w s sub (Some base)).
Proof.
  intros Hs Hb (Hp & _ & _ & Hok). destruct (evaluates_expr env sub Hs) as (x & E & [Wx X1 X2 X3] & Cx).
  destruct (evaluates_expr env base Hb) as (y & Ey & [Wy Y1 Y2 Y3] & Cy). destruct Hok as (Hfit & Hu & Hin).
  assert (Hok' : select_ok env w x y) by (split_and!; rewrite ?X1, ?X3, ?Y1, ?Y2, ?Y3; done).
  assert (Hk : keeps env (NetESelect w s sub (Some base)) (NetESelect w s x (Some y))).
  { split; [done..|]. cbn [sem]. by rewrite X3, Y2, Y3. }
  eapply (evaluates_folds env _ (NetESelect w s x (Some y)) (both_const x y)
    (match y, x with NetEConst b, NetEConst v => Some <$> select_value w s v (Some (as_long b)) | _, _ => Some None end)); [|done|done|exact Hk| |].
  - unfold eval_expr in E, Ey. cbn [eval_tree]. rewrite E. cbn [mbind option_bind]. rewrite Ey. cbn [mbind option_bind].
    destruct y as [b| | | | | | | |], x as [v| | | | | | | |]; done.
  - rewrite <- (kp_sem _ _ _ Hk). destruct x as [v| | | | | | | |], y as [b| | | | | | | |]; try (by apply folds_none).
    destruct Hok' as (Hfit' & Hu' & _). cbn [sem expr_sign expr_width wf] in *. unfold bv_select. rewrite Hu'.
    rewrite unknown_vbits in Hu'. apply negb_false_iff in Hu'. rewrite as_long_num by done.
    destruct (part_const w s v (bv_num (has_sign b) (vbits b)) Hp) as (r & -> & Hr). by apply folds_some.
  - cbn [closed]. intros [C1 C2]%andb_true_iff. unfold both_const. by rewrite Cx, Cy.
Qed.

(** ** Conditional expressions *)

Lemma ternary_keeps env w s c t f c' t' f' :
  wf env (NetETernary w s c t f) -> keeps env c c' -> keeps env t t' -> keeps env f f' ->
  keeps env (NetETernary w s c t f) (NetETernary w s c' t' f').
Proof.
  intros (_ & _ & _ & Hok) [C1 C2 C3 C4] [T1 T2 T3 T4] [F1 F2 F3 F4]. split; [|done|done|by cbn [sem]; rewrite C4, T4, F4].
  cbn [wf]. rewrite T2, F2, T3, F3. destruct Hok as (? & ? & ? & ?). by split_and!.
Qed.

(** A ternary whose condition is known is its branch. *)
Lemma branch_keeps env w s c t f x :
  wf env (NetETernary w s c t f) -> (truth (sem env c) = BIT4_1 /\ keeps env t x \/ truth (sem env c) = BIT4_0 /\ keeps env f x) ->
  keeps env (NetETernary w s c t f) x.
Proof.
  intros (_ & _ & _ & Wt & Wf & St & Sf) [[E [K1 K2 K3 K4]]|[E [K1 K2 K3 K4]]]; split; cbn [sem expr_width expr_sign]; try congruence;
    unfold ev_ternary; by rewrite E.
Qed.

Lemma ternary_evaluates env w s c t f :
  evaluates env c -> evaluates env t -> evaluates env f -> wf env (NetETernary w s c t f) ->
  evaluates env (NetETernary w s c t f).
Proof.
  intros Hc Ht Hf Hw. destruct (evaluates_expr env c Hc) as (c' & Ec & Kc & Cc).
  destruct (evaluates_expr env t Ht) as (t' & Et & Kt & Ct). destruct (evaluates_expr env f Hf) as (f' & Ef & Kf & Cf).
  pose proof Hw as (_ & Wt & Wf & W1 & W2 & _). pose proof (keeps_refl env t Wt) as Rt. pose proof (keeps_refl env f Wf) as Rf.
  assert (Hcl : closed (NetETernary w s c t f) = true -> is_const c' = true /\ is_const t' = true /\ is_const f' = true).
  { cbn [closed]. intros [[H1 H2]%andb_true_iff H3]%andb_true_iff. auto. }
  pose proof (const_logical_truth env c') as HL. rewrite (kp_sem _ _ _ Kc) in HL.
  unfold eval_expr in Ec, Et, Ef. unfold evaluates. cbn [eval_tree]. rewrite Ec. cbn [mbind option_bind].
  destruct (const_logical c') eqn:EL.
  - exists (NetETernary w s c' t f), None. split; [done|]. split; [by apply ternary_keeps|]. split; [done|]. split; [done|].
    intros [Hc' _]%Hcl. congruence.
  - rewrite Ef. cbn [mbind option_bind]. exists (NetETernary w s c' t f'), (Some f'). split; [done|]. split; [by apply ternary_keeps|]. split; [done|].
    split; [intros e' [= <-]; apply branch_keeps; auto|]. cbn [default]. by intros (_ & _ & ?)%Hcl.
  - rewrite Et. cbn [mbind option_bind]. exists (NetETernary w s c' t' f), (Some t'). split; [done|]. split; [by apply ternary_keeps|]. split; [done|].
    split; [intros e' [= <-]; apply branch_keeps; auto|]. cbn [default]. by intros (_ & ? & _)%Hcl.
  - rewrite Et. cbn [mbind option_bind]. rewrite Ef. cbn [mbind option_bind]. destruct HL as [_ HX].
    assert (HF : folds (both_const t' f') w s (sem env (NetETernary w s c t f)) (blended_arguments_ s t' f')).
    { cbn [sem]. unfold ev_ternary. replace (match truth (sem env c) with BIT4_0 => _ | BIT4_1 => _ | _ => _ end)
        with (bv_map2 bit_blend (sem env f) (sem env t)) by (by destruct HX as [-> | ->]).
      rewrite <- (kp_sem _ _ _ Kt), <- (kp_sem _ _ _ Kf). destruct Kt as [Kt1 Kt2 _ _], Kf as [Kf1 Kf2 _ _].
      destruct t' as [tv| | | | | | | |], f' as [fv| | | | | | | |]; try (by apply folds_none).
      cbn [expr_width wf] in *. apply blend_const; [done|congruence|congruence]. }
    destruct HF as (o & -> & Ho). cbn [mbind option_bind]. exists (NetETernary w s c' t' f'), (NetEConst <$> o). split; [done|].
    split; [by apply ternary_keeps|]. split; [done|]. split.
    + intros e' He. destruct o as [v|]; [|done]. injection He as <-. by apply const_keeps.
    + intros (_ & H1 & H2)%Hcl. destruct o; [done|]. unfold both_const in Ho. by rewrite H1, H2 in Ho.
Qed.

(** ** Concatenations *)

Lemma const_widths_cons e l : const_widths (e :: l) = ((if is_const e then expr_width e else 0) + const_widths l)%nat.
Proof. done. Qed.

Lemma eval_parms_spec env parms gap errs :
  Forall (evaluates env) parms ->
  exists parms' width, eval_parms eval_tree parms gap errs = Some (parms', (gap + width)%nat, errs) /\
    Forall2 (keeps env) parms parms' /\ (const_widths parms' <= width)%nat /\
    (forallb is_const parms' = true -> width = const_widths parms') /\
    (forallb closed parms = true -> forallb is_const parms' = true).
Proof.
  intros H. revert gap. induction H as [|e parms He _ IH]; intros gap.
  { exists [], 0%nat. rewrite Nat.add_0_r. by split_and!. }
  destruct He as (self & tmp & E & Hs & Hc & Ht & Hcl).
  assert (HE : exists x width, eval_parms eval_tree (e :: parms) gap errs =
      ('(l, g, errs) ← eval_parms eval_tree parms (gap + width) errs; Some (x :: l, g, errs)) /\ keeps env e x /\
      ((if is_const x then expr_width x else 0) <= width)%nat /\ (is_const x = true -> width = expr_width x) /\ (closed e = true -> is_const x = true)).
  { destruct e as [v| | | | | | | |]; cbn [eval_parms].
    { exists (NetEConst v), (len v). injection E as <- <-. by split_and!. }
    all: rewrite E; cbn [mbind option_bind]; destruct tmp as [x|];
      [pose proof (Ht x eq_refl) as Hx; exists x, (expr_width x);
       rewrite (has_width_wf env x (kp_wf _ _ _ Hx)), (proj2 (Nat.eqb_neq (expr_width x) 0)) by (pose proof (sem_width env x (kp_wf _ _ _ Hx)); lia);
       split_and!; [done|done|destruct (is_const x); lia|done|done]
      |exists self, 0%nat; rewrite Nat.add_0_r, Hc; cbn [is_const]; cbn [default is_const] in Hcl; rewrite Hc in Hcl; split_and!; [done|done|done|done|done]]. }
  destruct HE as (x & width & -> & Hx & Hw1 & Hw2 & Hxc).
  destruct (IH (gap + width)%nat) as (parms' & width' & -> & HF & H1 & H2 & H3). cbn [mbind option_bind].
  exists (x :: parms'), (width + width')%nat. rewrite const_widths_cons, Nat.add_assoc. split; [done|]. split; [by constructor|].
  split; [lia|]. cbn [forallb]. split.
  - intros [Hx1 Hp]%andb_true_iff. rewrite Hx1, Hw2, H2 by done. done.
  - intros [Hc1 Hc2]%andb_true_iff. by rewrite Hxc, H3.
Qed.

Lemma keeps_parms env parms parms' :
  Forall2 (keeps env) parms parms' ->
  Forall (wf env) parms' /\ map expr_width parms' = map expr_width parms /\ map (sem env) parms' = map (sem env) parms.
Proof.
  induction 1 as [|e e' l l' [K1 K2 _ K4] _ (H1 & H2 & H3)]; [done|]. split_and!; [by constructor|..]; cbn [map]; congruence.
Qed.

Lemma concat_evaluates env n w s parms :
  Forall (evaluates env) parms -> wf env (NetEConcat n w s parms) -> evaluates env (NetEConcat n w s parms).
Proof.
  intros He (_ & Hp & EW). destruct (eval_parms_spec env parms 0 0 He) as (parms' & width & E & HF & H1 & H2 & H3).
  destruct (keeps_parms env _ _ HF) as (HW & HL & HS).
  assert (Hk : keeps env (NetEConcat n w s parms) (NetEConcat n w s parms')).
  { split; [|done|done|by cbn [sem]; rewrite HS]. cbn [wf]. rewrite wf_all, HL. done. }
  eapply (evaluates_folds env _ (NetEConcat n w s parms') (forallb is_const parms') (concat_eval_arguments n s parms' width)); [|done|done|exact Hk| |exact H3].
  - cbn [eval_tree]. by rewrite E.
  - rewrite <- (kp_sem _ _ _ Hk). cbn [sem expr_width expr_sign]. apply concat_folds; try done. by rewrite HL.
Qed.

(** * The theorems *)

Lemma evaluation env e : wf env e -> evaluates env e.
Proof.
  induction e as [v|n t w s|c op w s l r IHl IHr|n w s parms IH|w s sub IH|w s sub base IH IHb|w s c t f IHc IHt IHf|op w s sub IH|op w s sub IH|op w s sub IH]
    using net_expr_ind; intros Hw.
  - exists (NetEConst v), None. by split_and!.
  - exists (NetESignal n t w s), None. by split_and!.
  - apply binary_evaluates; [apply IHl, Hw|apply IHr, Hw|done].
  - apply concat_evaluates; [|done]. destruct Hw as [Ha _]. apply wf_all in Ha. rewrite Forall_forall in *. auto.
  - apply extend_evaluates; [apply IH, Hw|done].
  - apply select_evaluates; [apply IH, Hw|apply IHb, Hw|done].
  - apply ternary_evaluates; [apply IHc, Hw|apply IHt, Hw|apply IHf, Hw|done].
  - apply unary_evaluates; [apply IH, Hw|done].
  - apply reduce_evaluates; [apply IH, Hw|done].
  - apply cast_evaluates; [apply IH, Hw|done].
Qed.

(** C22: constant folding keeps the meaning of every well-formed expression.  [eval_expr] passes
    all its assertions, and the expression it leaves has, for every assignment of values to the
    signals under which the expression is well formed, the width and the sign of the one it was
    given, is well formed again and has the same value, unknown bits included: whether a
    constant replaced an operator, the comparison with a bound was decided from the type of the
    operand, two constants of a sum were combined, or a branch replaced a conditional.
    Well-formed under an assignment ([wf]): the operands have the widths and signs of their
    context, literals are sized and not empty, a concatenation has at least one bit, signals of
    two-valued types hold known bits, and the base of a select is known, fits the native integer
    and selects inside the vector unless that has unknown bits.  An expression whose select
    leaves the vector under some assignment is not covered there: [P[sig] <= 1] folds to 1 though
    it is X at such an index ([select_bounded_by_type]).  The meaning of the magnitude operator
    of a number with unknown bits is X, as the folder has it; the generated code keeps the bits
    ([magnitude_unknown]). *)
Theorem folding_preserves env e :
  wf env e ->
  exists e', eval_expr e = Some e' /\
    forall env', wf env' e ->
      wf env' e' /\ expr_width e' = expr_width e /\ expr_sign e' = expr_sign e /\ sem env' e' = sem env' e.
Proof.
  intros Hw. destruct (evaluates_expr env e (evaluation env e Hw)) as (e' & E & _). exists e'. split; [done|].
  intros env' Hw'. destruct (evaluates_expr env' e (evaluation env' e Hw')) as (e'' & E' & [K1 K2 K3 K4] & _).
  rewrite E in E'. injection E' as <-. done.
Qed.

Definition literal (bs : list V) (s : bool) : verinum := set_has_sign s (verinum_of_bits bs true).
Definition lit3 : NetExpr := NetEConst (literal [V1; V1; V0; V0] false).
Definition lit5 : NetExpr := NetEConst (literal [V1; V0; V1; V0] false).
Definition litx : NetExpr := NetEConst (literal [V1; Vx; V1; V0] false).
Definition sig0 : NetExpr := NetESignal 0 IVL_VT_LOGIC 4 false.
Definition env0 (name : nat) : list vvp_bit4_t := [BIT4_1; BIT4_X; BIT4_0; BIT4_1].

(** [(sig + 3) - 5]. *)
Definition sum_of_constants : NetExpr :=
  NetEBinary NetEBAdd "-" 4 false (NetEBinary NetEBAdd "+" 4 false sig0 lit3) lit5.

Lemma folding_preserves_witness :
  exists e', eval_expr sum_of_constants = Some e' /\
    forall env', wf env' sum_of_constants ->
      wf env' e' /\ expr_width e' = 4%nat /\ expr_sign e' = false /\ sem env' e' = sem env' sum_of_constants.
Proof.
  apply (folding_preserves env0 sum_of_constants). cbn [wf sum_of_constants sig0 lit3 lit5 binary_ok expr_width expr_sign].
  split_and!; try done; try (by right; left); try (by left); try (split; done || (cbn; lia)); cbn; lia.
Defined.

(** C23: a well-formed expression of constants without the bitwise [~&] and [~|], which are not
    evaluated, folds to a constant: the result is one number of the width and the sign of the
    expression, sized, and its bits are the value that [sem] gives the expression, operator by
    operator.  Well-formed excludes what the code folds otherwise: a select with an unknown base
    ([select_unknown_base]), or one that leaves a vector of known bits, and zero copies in a
    concatenation ([zero_copies_of_string]); the magnitude of a number with unknown bits is X in
    [sem], as the folder has it, and not what the generated code leaves
    ([magnitude_unknown]). *)
Theorem folding_complete env e :
  wf env e -> closed e = true ->
  exists v, eval_expr e = Some (NetEConst v) /\
    has_len v = true /\ len v = expr_width e /\ has_sign v = expr_sign e /\ vbits v = sem env e.
Proof.
  intros Hw Hc. destruct (evaluates_expr env e (evaluation env e Hw)) as (e' & E & [K1 K2 K3 K4] & Hk).
  destruct (const_of_expr e' (Hk Hc)) as [v ->]. exists v. split; [done|]. split; [apply K1|done].
Qed.

(** [5 < 3 ? {5, 3} : 5'b01x01 ** 3], with the widths of its context. *)
Definition conditional : NetExpr :=
  NetETernary 8 false (NetEBinary NetEBComp "<" 1 false lit5 lit3)
    (NetEConcat 1 8 false [lit5; lit3])
    (NetESelect 8 false (NetEBinary NetEBPow "p" 4 false litx lit3) None).

Lemma folding_complete_witness :
  closed conditional = true /\
  exists v, eval_expr conditional = Some (NetEConst v) /\
    has_len v = true /\ len v = 8%nat /\ has_sign v = false /\ vbits v = sem env0 conditional.
Proof.
  split; [done|]. apply (folding_complete env0 conditional); [|done].
  cbn [wf conditional lit3 lit5 litx binary_ok expr_width expr_sign]. 
  split_and!; try done; try (split; done || (cbn; lia)); try (cbn; lia). unfold op_in. cbn. tauto.
Defined.

(** * Where folding is not the operator

    The conditions of [wf] are where the code is right; instances outside. *)

(** A base of unknown bits is read as 0: the select of a constant gives its low bits where the
    operator gives X. *)
Lemma select_unknown_base :
  let e := NetESelect 2 false lit5 (Some (NetEConst (literal [Vx; V0; V0] false))) in
  exists v, eval_expr e = Some (NetEConst v) /\ vbits v = [BIT4_1; BIT4_0] /\ sem env0 e = [BIT4_X; BIT4_X].
Proof. eexists. split_and!; vm_compute; reflexivity. Qed.

(** A select has the type of its operand: a bit of a constant is taken for two-valued, and
    [P[sig] <= 1] folds to 1 though the bit is X when the index lies outside the constant. *)
Lemma select_bounded_by_type :
  let bit_of_P := NetESelect 1 false lit5 (Some (NetESignal 1 IVL_VT_LOGIC 4 false)) in
  let e := NetEBinary NetEBComp "L" 1 false bit_of_P (NetEConst (literal [V1] false)) in
  exists v, eval_expr e = Some (NetEConst v) /\ vbits v = [BIT4_1] /\
    sem (fun _ => [BIT4_1; BIT4_0; BIT4_1; BIT4_0]) e = [BIT4_X].
Proof. eexists. split_and!; vm_compute; reflexivity. Qed.

(** The replication of a string 0 times, which is empty, folds to 8 bits: it is read back
    from the empty text, which stands for one character. *)
Lemma zero_copies_of_string :
  let letter := mkVerinum [V1; V0; V0; V0; V0; V1; V1; V0] true false false true in
  let e := NetEConcat 0 0 false [NetEConst letter] in
  exists v, eval_expr e = Some (NetEConst v) /\ vbits v = replicate 8 BIT4_0 /\ sem env0 e = [].
Proof. eexists. split_and!; vm_compute; reflexivity. Qed.

(** The magnitude of a number with an unknown bit folds to X; the code that is generated for
    it leaves the bits as they are. *)
Lemma magnitude_unknown :
  let v := literal [V1; Vx; V1; V0] true in
  let e := NetEUnary "m" 4 true (NetEConst v) in
  exists r, eval_expr e = Some (NetEConst r) /\ vbits r = replicate 4 BIT4_X /\ bv_abs true (vbits v) = vbits v.
Proof. eexists. split_and!; vm_compute; reflexivity. Qed.

(** The bitwise [~&] of two constants is not evaluated. *)
Lemma nand_not_evaluated :
  let e := NetEBinary NetEBBits "A" 4 false lit3 lit5 in eval_expr e = Some e.
Proof. vm_compute. reflexivity. Qed.
